(* ===== verification/_CoqProject ===== *)
-Q . S2P
Prelude.v
Page.v
Range.v
Utilities.v
BitArray.v
DynamicArray.v
PhysicalRegion.v
PagingEntry.v
PhysicalMemory.v
AddressSpace.v
PageWalk.v
AddressSpaceCorrect.v
AddressSpaceMaps.v
AddressSpaceTheorems.v
MemoryMap.v
OrderedSet.v
VirtualRegions.v
VirtualRegionsCorrect.v
PhysicalRanges.v
VirtualAllocator.v
HeapAllocator.v
Time.v
Strings.v
StringClass.v
LogRing.v
IntrusiveList.v
Numerals.v
Conversions.v
Paths.v
FatNames.v
RedBlackTree.v
RedBlackTreeRep.v
RedBlackTreeSearch.v
RedBlackTreeInsert.v
RedBlackTreeRemove.v
RedBlackTreeSet.v
Scheduler.v
SchedulerInv.v
SchedulerOps.v
SchedulerKill.v
SchedulerPick.v
SchedulerSteps.v
SchedulerSafety.v
Parking.v
Mutex.v
IOStream.v
FileIterator.v
Vfs.v
VfsCorrect.v
Pipe.v
BlockStore.v
DiskCache.v
DiskCacheCorrect.v
FatTable.v
FatChains.v
FatChainsCorrect.v
FatFile.v
FatFileCorrect.v
FatFileStream.v
FatDirectory.v
FatCreate.v
FatDirectoryRead.v
FatDirectoryNames.v
FatDirectoryNext.v
FatDirectoryWrite.v
FatDirectoryCorrect.v
FatOpen.v
FatRemove.v
FatRemoveCorrect.v
LibcMemory.v
LibcString.v
LibcStringCorrect.v
LibcPrintf.v
LibcPrintfSim.v
LibcPrintfCorrect.v
LibcPrintfTheorems.v
LibcStdio.v
LibcStdioCorrect.v
LibcMalloc.v
LibcMallocCorrect.v
