(* ===== verification/Prelude.v ===== *)
(** * A verification of the core of the Ultra kernel

    Ultra is a hobby operating system: a kernel in C++ (src/Kernel), a small C library
    (src/Userland/LibC) and a boot loader.  This library is a shallow embedding of the parts of
    the kernel that carry its own logic, with the theorems that make them correct.  Definitions
    are translated from the source and keep its names; the comment above a definition gives the
    file and the lines it translates.

    ** Conventions

    The model is the AMD64 build: [size_t] and addresses are 64-bit words, written as [Z] with
    the wrap-around of each operation written out ([+!], [-!], [wrap32], ...).  Code that can
    stop (assertions, panics, invalid pointers and indices) returns a [result]; a [Fault] is a
    stop, so a theorem that says [= Ok ...] also says that no assertion fails and no pointer is
    invalid.  Errors that the kernel reports are values of [error_code].  Loops that are not
    structural take fuel, and exhausted fuel is the fault [OutOfFuel]: since the theorems prove
    [= Ok ...], the fuel that the definitions pass is proved to be enough.  The bounds are the
    number of remaining elements (arrays, strings, bitmaps), the size of the tree (red-black
    trees), the number of clusters of the volume (chains of FAT32) and the number of records of
    the volume (directories), and the size of memory (walks along C strings).

    ** The components and their files

    - Prelude: words, results, automation and shared lemmas.  Utilities: the searches and sorts
      of Common/Utilities.h.  BitArray: Common/DynamicBitArray.h.  DynamicArray:
      Common/DynamicArray.h over raw and constructed slots.  Strings, StringClass:
      StringView and String of Common/String.h, with the small-string representation.
      Conversions: Common/Conversions.h, over the digits of Numerals.  LogRing:
      Common/CircularBuffer.h and the ring of log rows of Common/LogRing.h.  IntrusiveList:
      the nodes of Common/List.h, over a heap of nodes.
    - Memory.  Page and Range (Memory/Page.h, Range.h); PhysicalRegion, the page allocator of a
      range of RAM; PhysicalMemory, the page allocation of MemoryManager over all of them;
      PagingEntry, AddressSpace: the entries and the four levels of paging tables, in words of
      physical memory; PageWalk and the AddressSpace... files after it prove the operations on
      them; VirtualRegions: regions of virtual memory, the page fault handler and preallocation,
      proved in VirtualRegionsCorrect and PhysicalRanges; MemoryMap, the E820 map;
      VirtualAllocator, the allocator of virtual ranges, over the interface of OrderedSet;
      HeapAllocator, the kernel heap.
    - RedBlackTree and its companions: the pointer code of Common/RedBlackTree.h over a store of
      nodes.  RedBlackTreeRep relates stores to trees, ...Search, ...Insert and ...Remove prove
      the operations, and RedBlackTreeSet instantiates the interface OrderedSet.
    - Multitasking.  Scheduler: threads, processes, blockers and scheduling decisions
      (Multitasking/Scheduler, Thread, Process, Blocker, TaskFinalizer); SchedulerInv and the
      files after it prove an invariant of every reachable state.  Parking is the interface by
      which other components block and wake threads, with the scheduler as its instance.  Mutex:
      Mutex and SharedMutex of Multitasking/Mutex.cpp, against that interface.
    - Files.  IOStream: error codes and copies from and to user memory.  Pipe:
      FileSystem/Pipe.cpp.  BlockStore is the interface of an array of blocks; DiskCache proves
      FileSystem/DiskCache.cpp to be one.  FatTable, FatChains: the allocation table of FAT32
      and chains of clusters, over that interface; FatFile: reading and writing files;
      FatDirectory, FatCreate: directories, long names and creating files; FatOpen: the open
      files, their references and locks, and the walk along a path; FatRemove: removing
      and creating files by path, the first proved in FatRemoveCorrect.  FatNames: 8.3 names;
      Paths: validation and iteration of paths.  FileIterator: the streams of a file, over the
      interface [FileOps] of FileSystem/File.h, which FatFileStream shows the files of FAT32
      to implement.  Vfs: FileSystem/VFS.cpp, the partition tables, the prefixes and the
      operations on paths, over the interface [FileSystems]; proved in VfsCorrect.
    - Time: the calendar, the tick of the clock and the decoding of the real-time clock.
    - The C library (Userland/LibC).  LibcMemory: the bytes of a process and ctype.c; LibcString:
      string.c and strings.c; LibcPrintf: vsnprintf and everything below it in stdio.c, written
      against the interface [Sink] of its destination, with atoi; LibcPrintfSim is the
      simulation between two destinations and LibcPrintfCorrect the one of buffer and text;
      LibcStdio: the buffered streams, over the interface [Kernel] of the system calls;
      LibcMalloc: the heap of malloc.c, over the interface [OS].

    ** What the theorems show

    - Containers and allocators refine an abstract description: the tree is a sorted list, the
      heap a set of disjoint live blocks, the virtual allocator a set of disjoint ranges; every
      operation is specified on every branch, errors included.  A dynamic array is a list under
      every operation but its copy assignment, which does not copy.
    - The paging tables of an address space are a tree of distinct allocated pages, and mapping
      or unmapping pages changes the translation of those pages only; a page that is mapped has
      the rights asked for on every level, if the tables above it that exist have them; a page
      fault in a region backs the page with fresh zeroed memory and nothing else; destroying an address
      space returns every page it took.
    - The scheduler is safe in every state reachable by any interleaving of the processors that
      respects the callers' obligations and in which no two threads sleep until the same time
      (the multiset of the sleeping threads is taken by its content, and the defect of
      RedBlackTree.h:453 needs two equal elements); it runs ready threads in order, and a
      wake-up that comes before its thread sleeps is not lost.  Mutexes exclude, and a waiting
      thread is woken when the mutex is released, while no thread is being killed.  A pipe is a
      queue of bytes whatever its users do, and whoever leaves the queue of a pipe is unblocked.
    - The disk cache over a disk (not over memory, which it does not cache) is indistinguishable
      from the disk, keeps the most recently used blocks, and its flush makes every write
      durable.  Allocating and freeing clusters keeps the chains of the other files; reading and
      writing a contiguous file is reading and writing its bytes; iterating over a directory
      lists its files, and a file that is created is listed under its name; a path opens the
      file that the directories lead to, and takes one reference; removing a file takes it out
      of its directory, frees its clusters and touches nothing else.  The names and paths that
      the code mishandles are named in these theorems' comments.  The streams of a file are
      positions in its bytes, all the way down to the disk; every FAT32 partition that the tables
      lead to, through two extended boot records at most, is mounted under a prefix of its own.
    - A log ring shows the last rows written to it, whole and in order; the linked lists of a
      heap of nodes are sequences that share no node.
    - In the C library, string searches agree with their definitions on lists; vsnprintf is the
      formatter on an unbounded text cut to its buffer, for every format, and the plain
      conversions render numerals that atoi reads back; a stream delivers what is written to
      it in order to a handle that takes all of a write; live allocations of the heap never
      overlap, and free undoes malloc, while the heap need not grow and no request is of exactly
      64 chunks.

    Where the code does not do what it means to, an [Example] evaluates the definitions on an
    input that shows it.

    ** Not modelled

    Assembly, port and memory-mapped I/O (AHCI, XHCI, PCI, APIC, PS/2, video), the drawing of
    the window manager and logging have no behaviour to state beyond the device.  A disk is a
    function from addresses to bytes.  Spin locks are taken as the atomicity of the sections
    they protect; the counters that Pipe::clone changes without its lock are taken as atomic too.
    Killing a thread while mutexes are in use is not covered by the theorems on mutexes, and
    opening a file of FAT32 with CREATE need not end ([open_loop_livelock] of VfsCorrect).  The
    context switch is the assignment of a thread to a processor.  Mounting a
    volume of FAT32 and the file descriptors of processes are not modelled. *)
From Stdlib Require Export ZArith Lia.
From stdpp Require Export base tactics numbers sets list option sorting.

#[global] Open Scope Z_scope.

(** ** Machine words *)

(** The kernel is modelled for the AMD64 build ([ULTRA_64]), the default one:
    [size_t], [ptr_t], [Address] and [Address64] are all 64 bits wide.  A word is a
    [Z], and an operation that can wrap says so. *)
Abbreviation W64 := 18446744073709551616.

Definition wrap8 (x : Z) : Z := x mod 256.
Definition wrap16 (x : Z) : Z := x mod 65536.
Definition wrap32 (x : Z) : Z := x mod 4294967296.
Definition wrap64 (x : Z) : Z := x mod W64.

Definition is_u8 (x : Z) : Prop := 0 <= x < 256.
Definition is_u64 (x : Z) : Prop := 0 <= x < W64.

Declare Scope word_scope.
Delimit Scope word_scope with word.
#[global] Open Scope word_scope.

(** [x +! y], [x -! y] and [x *! y] are the wrapping operations of [size_t]. *)
Notation "x +! y" := (wrap64 (x + y)) (at level 50, left associativity) : word_scope.
Notation "x -! y" := (wrap64 (x - y)) (at level 50, left associativity) : word_scope.
Notation "x *! y" := (wrap64 (x * y)) (at level 40, left associativity) : word_scope.

Lemma wrap64_small x : is_u64 x -> wrap64 x = x.
Proof. intros H. by apply Z.mod_small. Qed.

Lemma wrap64_range x : is_u64 (wrap64 x).
Proof. by apply Z.mod_pos_bound. Qed.

Lemma wrap64_over x : W64 <= x < 2 * W64 -> wrap64 x = x - W64.
Proof.
  intros H. unfold wrap64. replace x with ((x - W64) + 1 * W64) at 1 by lia.
  rewrite Z.mod_add by lia. apply Z.mod_small. lia.
Qed.

Lemma wrap64_under x : - W64 <= x < 0 -> wrap64 x = x + W64.
Proof.
  intros H. unfold wrap64. replace x with ((x + W64) + (-1) * W64) at 1 by lia.
  rewrite Z.mod_add by lia. apply Z.mod_small. lia.
Qed.

(** ** Faults *)

(** What ends a kernel code path: [ASSERT] ([runtime::on_assertion_failed]),
    [runtime::panic], an access past the object the code owns (undefined in C++), or
    the fuel of a bounded loop running out (never the case where a theorem says so). *)
Inductive fault :=
  | AssertionFailed
  | KernelPanic
  | OutOfBounds
  | OutOfFuel.

Inductive result (A : Type) :=
  | Ok (a : A)
  | Fault (e : fault).
Arguments Ok {A} _.
Arguments Fault {A} _.

#[export] Instance result_ret : MRet result := fun A a => Ok a.
#[export] Instance result_bind : MBind result := fun A B f m =>
  match m with
  | Ok a => f a
  | Fault e => Fault e
  end.

#[export] Instance fault_eq_dec : EqDecision fault.
Proof. solve_decision. Defined.
#[export] Instance result_eq_dec `{EqDecision A} : EqDecision (result A).
Proof. solve_decision. Defined.

(** [ASSERT(expression)] of Core/Runtime.h: active in every build. *)
Definition ASSERT (b : bool) : result unit :=
  if b then Ok tt else Fault AssertionFailed.

Definition panic_if (b : bool) : result unit :=
  if b then Fault KernelPanic else Ok tt.

(** An element the code reads through a pointer: outside the array it is undefined. *)
Definition read_at {A} (l : list A) (i : Z) : result A :=
  if decide (0 <= i) then
    match l !! Z.to_nat i with
    | Some x => Ok x
    | None => Fault OutOfBounds
    end
  else Fault OutOfBounds.

Definition write_at {A} (l : list A) (i : Z) (x : A) : result (list A) :=
  if decide (0 <= i < Z.of_nat (length l)) then Ok (<[Z.to_nat i := x]> l)
  else Fault OutOfBounds.

Lemma bind_Ok {A B} (m : result A) (f : A -> result B) b :
  (m ≫= f) = Ok b <-> exists a, m = Ok a /\ f a = Ok b.
Proof. destruct m; unfold mbind, result_bind; naive_solver. Qed.

Lemma ASSERT_Ok b u : ASSERT b = Ok u <-> b = true.
Proof. destruct b, u; unfold ASSERT; naive_solver. Qed.

Lemma ASSERT_true : ASSERT true = Ok tt.
Proof. done. Qed.

Lemma panic_if_Ok b u : panic_if b = Ok u <-> b = false.
Proof. destruct b, u; unfold panic_if; naive_solver. Qed.

Lemma read_at_Ok {A} (l : list A) i x :
  read_at l i = Ok x <-> 0 <= i /\ l !! Z.to_nat i = Some x.
Proof.
  unfold read_at. case_decide; [|naive_solver].
  destruct (l !! Z.to_nat i); naive_solver.
Qed.

Lemma read_at_lt {A} (l : list A) i :
  0 <= i < Z.of_nat (length l) -> exists x, read_at l i = Ok x.
Proof.
  intros H. destruct (lookup_lt_is_Some_2 l (Z.to_nat i)) as [x Hx]; [lia|].
  exists x. apply read_at_Ok. split; [lia|done].
Qed.

Lemma write_at_Ok {A} (l : list A) i x l' :
  write_at l i x = Ok l' <->
  0 <= i < Z.of_nat (length l) /\ l' = <[Z.to_nat i := x]> l.
Proof. unfold write_at. case_decide; naive_solver. Qed.

(** ** Automation *)

(** [inv_ok] peels the binds, the assertions and the accesses off a run that
    returned. *)
Ltac inv_ok_step :=
  match goal with
  | H : (_ ≫= _) = Ok _ |- _ =>
      let a := fresh "v" in let Ha := fresh "E" in
      apply bind_Ok in H; destruct H as (a & Ha & H)
  | H : ASSERT _ = Ok _ |- _ => apply ASSERT_Ok in H
  | H : panic_if _ = Ok _ |- _ => apply panic_if_Ok in H
  | H : mret _ = Ok _ |- _ => injection H as H
  | H : Ok _ = Ok _ |- _ => injection H as H
  | H : Fault _ = Ok _ |- _ => discriminate H
  | H : Ok _ = Fault _ |- _ => discriminate H
  end.
Ltac inv_ok := repeat inv_ok_step; subst.

(** [run] reduces the binds, assertions and panics whose outcome is known; [runb] the
    tests too. *)
Ltac run := cbn [mbind result_bind mret result_ret ASSERT panic_if].
Ltac runb := cbn [negb andb orb]; run.

(** Booleans of the code to the propositions they decide. *)
Ltac bool_to_prop :=
  repeat match goal with
  | H : _ && _ = true |- _ => apply andb_true_iff in H; destruct H
  | H : _ || _ = false |- _ => apply orb_false_iff in H; destruct H
  | H : context [_ >? _] |- _ => rewrite Z.gtb_ltb in H
  | H : context [_ >=? _] |- _ => rewrite Z.geb_leb in H
  | H : negb _ = true |- _ => apply negb_true_iff in H
  | H : negb _ = false |- _ => apply negb_false_iff in H
  | H : (_ <? _) = true |- _ => apply Z.ltb_lt in H
  | H : (_ <? _) = false |- _ => apply Z.ltb_ge in H
  | H : (_ <=? _) = true |- _ => apply Z.leb_le in H
  | H : (_ <=? _) = false |- _ => apply Z.leb_gt in H
  | H : (_ =? _) = true |- _ => apply Z.eqb_eq in H
  | H : (_ =? _) = false |- _ => apply Z.eqb_neq in H
  end.

(** [blia] proves that a boolean test has the value the arithmetic gives it. *)
Ltac blia :=
  let solve b v :=
    let E := fresh "E" in
    destruct b eqn:E; [|]; first [reflexivity | exfalso;
      repeat (bool_to_prop; match goal with
      | H : _ || _ = true |- _ => apply orb_true_iff in H; destruct H
      | H : _ && _ = false |- _ => apply andb_false_iff in H; destruct H
      end); bool_to_prop; lia] in
  lazymatch goal with
  | |- true = ?b => solve b true
  | |- false = ?b => solve b false
  | |- ?b = true => solve b true
  | |- ?b = false => solve b false
  end.

(** [dlia]: linear arithmetic with division and remainder by constants. *)
Ltac dlia := Z.to_euclidean_division_equations; lia.

(** [unwrap64] removes, innermost first, every 64-bit wrap that provably does not
    happen. *)
Ltac unwrap64 :=
  repeat match goal with
  | |- context [wrap64 ?x] => rewrite (wrap64_small x) in * by (unfold is_u64 in *; lia)
  | H : context [wrap64 ?x] |- _ =>
      rewrite (wrap64_small x) in * by (unfold is_u64 in *; lia)
  end.

Create HintDb kernel discriminated.
#[export] Hint Resolve wrap64_range : kernel.
#[export] Hint Unfold is_u64 is_u8 : kernel.

(** ** Counting *)

(** How many of [0 .. n-1] satisfy [f]. *)
Fixpoint count_if (f : Z -> bool) (n : nat) : Z :=
  match n with
  | O => 0
  | S n => count_if f n + (if f (Z.of_nat n) then 1 else 0)
  end.

Lemma count_if_bounds f n : 0 <= count_if f n <= Z.of_nat n.
Proof. induction n; simpl; [lia|]. destruct (f _); lia. Qed.

Lemma count_if_ext f g n :
  (forall i, 0 <= i < Z.of_nat n -> f i = g i) -> count_if f n = count_if g n.
Proof.
  induction n as [|n IH]; intros H; simpl; [done|].
  rewrite IH by (intros; apply H; lia). by rewrite H by lia.
Qed.

Lemma count_if_update f g n i :
  0 <= i < Z.of_nat n -> (forall j, 0 <= j -> j <> i -> g j = f j) ->
  count_if g n = count_if f n - (if f i then 1 else 0) + (if g i then 1 else 0).
Proof.
  intros Hi H. induction n as [|n IH]; [lia|]. simpl.
  destruct (decide (i = Z.of_nat n)) as [->|].
  - rewrite (count_if_ext g f n) by (intros; apply H; lia).
    destruct (f (Z.of_nat n)), (g (Z.of_nat n)); lia.
  - rewrite IH by lia. rewrite (H (Z.of_nat n)) by lia. lia.
Qed.

Lemma count_if_0 f n :
  count_if f n = 0 <-> forall i, 0 <= i < Z.of_nat n -> f i = false.
Proof.
  induction n as [|n IH]; simpl; [split; [intros _ i; lia|done]|].
  pose proof (count_if_bounds f n). split.
  - intros H0 i Hi. destruct (decide (i = Z.of_nat n)) as [->|].
    + destruct (f (Z.of_nat n)); [lia|done].
    + apply IH; [|lia]. destruct (f (Z.of_nat n)); lia.
  - intros Hf. rewrite (Hf (Z.of_nat n)) by lia. rewrite (proj2 IH); [done|].
    intros i Hi. apply Hf. lia.
Qed.

Lemma count_if_true f n :
  (forall i, 0 <= i < Z.of_nat n -> f i = true) -> count_if f n = Z.of_nat n.
Proof.
  induction n as [|n IH]; intros H; simpl; [done|].
  rewrite IH by (intros; apply H; lia). rewrite H by lia. lia.
Qed.

Lemma count_if_disjoint f g h n :
  (forall i, 0 <= i < Z.of_nat n -> f i = g i || h i /\ g i && h i = false) ->
  count_if f n = count_if g n + count_if h n.
Proof.
  induction n as [|n IH]; intros H; simpl; [done|]. rewrite IH by (intros; apply H; lia).
  destruct (H (Z.of_nat n)) as [-> E]; [lia|].
  destruct (g (Z.of_nat n)), (h (Z.of_nat n)); simpl in *; done || lia.
Qed.

(** Being in the run of [m] numbers from [s]. *)
Definition in_run (s m k : Z) : bool := (s <=? k) && (k <? s + m).

Ltac in_run_lia := unfold in_run; blia.

Lemma in_run_spec s m k : in_run s m k = true <-> s <= k < s + m.
Proof. unfold in_run. lia. Qed.

Lemma in_run_shift s m k : k <> s -> in_run (s + 1) (m - 1) k = in_run s m k.
Proof. unfold in_run. intros. apply eq_true_iff_eq. lia. Qed.

Lemma count_if_run s m n :
  0 <= s -> 0 <= m -> s + m <= Z.of_nat n -> count_if (in_run s m) n = m.
Proof.
  intros Hs Hm. revert m Hm. induction n as [|n IH]; intros m Hm Hle; [simpl; lia|].
  destruct (decide (m = 0)) as [->|].
  { apply count_if_0. intros i Hi. in_run_lia. }
  cbn [count_if]. destruct (decide (s + m = Z.of_nat (S n))) as [E|].
  - replace (in_run s m (Z.of_nat n)) with true by in_run_lia.
    rewrite (count_if_ext _ (in_run s (m - 1))); [rewrite IH by lia; lia|].
    intros i Hi. apply eq_true_iff_eq. rewrite !in_run_spec. lia.
  - replace (in_run s m (Z.of_nat n)) with false by in_run_lia. rewrite IH by lia. lia.
Qed.

(** Checking a property of all bytes, chunks and ids by evaluation. *)
Definition all_below (n : nat) (f : Z -> bool) : bool :=
  forallb (fun i => f (Z.of_nat i)) (seq 0 n).

Lemma all_below_spec n f x :
  all_below n f = true -> 0 <= x < Z.of_nat n -> f x = true.
Proof.
  unfold all_below. rewrite forallb_forall. intros H Hx.
  rewrite <- (Z2Nat.id x) by lia. apply H. apply in_seq. lia.
Qed.
