(* ===== verification/Page.v ===== *)
(** Kernel/Memory/Page.h: page sizes, alignment masks and the rounding functions every
    other memory component uses. *)
From S2P Require Import Prelude.

(** ** Constants *)

(** [Kernel/Memory/Page.h:11-11] size *)
Definition page_size : Z := 4096.

(** [Kernel/Memory/Page.h:17-21] huge_size and the masks of the 64-bit build *)
Definition huge_size : Z := 2 * 1024 * 1024.
Definition alignment_mask : Z := 0xFFFFFFFFFFFFF000.
Definition huge_alignment_mask : Z := 0xFFFFFFFFFFFFFFFF - huge_size + 1.

(** [~x] on a 64-bit word. *)
Definition lnot64 (x : Z) : Z := 0xFFFFFFFFFFFFFFFF - x.

(** [Kernel/Memory/Page.h:23-33] Page *)
Record Page := { page_address : Z }.

(** ** Rounding *)

(** [Kernel/Memory/Page.h:35-42] round_up_custom *)
Definition round_up_custom (AlignmentMask PageSize size : Z) : Z :=
  if size =? 0 then PageSize
  else if Z.land size (lnot64 AlignmentMask) =? 0 then size
  else Z.land (size +! PageSize) AlignmentMask.

(** [Kernel/Memory/Page.h:44-48] round_down_custom *)
Definition round_down_custom (AlignmentMask size : Z) : Z :=
  if Z.land size (lnot64 AlignmentMask) =? 0 then size
  else Z.land size AlignmentMask.

(** [Kernel/Memory/Page.h:50-53] round_up *)
Definition round_up (size : Z) : Z := round_up_custom alignment_mask page_size size.

(** [Kernel/Memory/Page.h:55-58] round_up_huge *)
Definition round_up_huge (size : Z) : Z :=
  round_up_custom huge_alignment_mask huge_size size.

(** [Kernel/Memory/Page.h:60-63] round_down *)
Definition round_down (size : Z) : Z := round_down_custom alignment_mask size.

(** [Kernel/Memory/Page.h:65-68] round_down_huge *)
Definition round_down_huge (size : Z) : Z := round_down_custom huge_alignment_mask size.

(** [Kernel/Memory/Page.h:70-73] is_aligned *)
Definition is_aligned (address : Z) : bool := address mod page_size =? 0.

(** [Kernel/Memory/Page.h:75-78] is_huge_aligned *)
Definition is_huge_aligned (address : Z) : bool := address mod huge_size =? 0.

(** ** The masks as divisions *)

Section mask.
Context (k : Z) (Hk : 0 <= k <= 64).

Let mask : Z := W64 - 2 ^ k.

Lemma land_low x : Z.land x (lnot64 mask) = x mod 2 ^ k.
Proof.
  rewrite <- Z.land_ones by lia. f_equal.
  unfold lnot64, mask. rewrite Z.ones_equiv. lia.
Qed.

Lemma mask_ldiff : mask = Z.ldiff (Z.ones 64) (Z.ones k).
Proof.
  unfold mask. rewrite Z.ldiff_ones_r, Z.shiftr_div_pow2, Z.shiftl_mul_pow2 by lia.
  assert (E : Z.ones 64 = (2 ^ (64 - k) - 1) * 2 ^ k + (2 ^ k - 1)).
  { rewrite Z.mul_sub_distr_r, <- Z.pow_add_r by lia.
    replace (64 - k + k) with 64 by lia. change (2 ^ 64) with (Z.ones 64 + 1). lia. }
  assert (0 < 2 ^ k) by lia.
  rewrite E, Z.div_add_l, (Z.div_small (2 ^ k - 1)), Z.add_0_r by lia.
  rewrite Z.mul_sub_distr_r, <- Z.pow_add_r by lia.
  replace (64 - k + k) with 64 by lia. lia.
Qed.

Lemma land_high x : is_u64 x -> Z.land x mask = x - x mod 2 ^ k.
Proof.
  intros Hx. rewrite mask_ldiff.
  rewrite Z.ldiff_land, Z.land_assoc, <- Z.ldiff_land.
  rewrite Z.land_ones, Z.mod_small by (unfold is_u64 in *; lia).
  rewrite Z.ldiff_ones_r, Z.shiftr_div_pow2, Z.shiftl_mul_pow2 by lia.
  pose proof (Z.div_mod x (2 ^ k)). lia.
Qed.
End mask.

Lemma pow2_divide_W64 k : 0 <= k <= 63 -> (2 ^ k | W64).
Proof.
  intros Hk. exists (2 ^ (64 - k)). rewrite <- Z.pow_add_r by lia.
  by replace (64 - k + k) with 64 by lia.
Qed.

Lemma round_down_custom_eq k x :
  0 <= k <= 64 -> is_u64 x ->
  round_down_custom (W64 - 2 ^ k) x = x - x mod 2 ^ k.
Proof.
  intros Hk Hx. unfold round_down_custom. rewrite land_low, land_high by done.
  case_match; bool_to_prop; lia.
Qed.

Lemma round_up_custom_eq k x :
  0 <= k <= 63 -> 0 < x < W64 ->
  round_up_custom (W64 - 2 ^ k) (2 ^ k) x = wrap64 (x + (- x) mod 2 ^ k).
Proof.
  intros Hk Hx. unfold round_up_custom.
  assert (Hp : 0 < 2 ^ k) by lia.
  assert (Hp' : 2 ^ k <= 2 ^ 63) by (apply Z.pow_le_mono_r; lia).
  destruct (Z.eqb_spec x 0) as [|_]; [lia|].
  rewrite land_low by lia. destruct (Z.eqb_spec (x mod 2 ^ k) 0) as [E|E].
  - rewrite Z.mod_opp_l_z, Z.add_0_r, wrap64_small by (unfold is_u64; lia). done.
  - rewrite land_high by (lia || apply wrap64_range).
    rewrite Z.mod_opp_l_nz by lia.
    assert (Hd : (2 ^ k | W64)) by (by apply pow2_divide_W64).
    assert (Hm : wrap64 (x + 2 ^ k) mod 2 ^ k = x mod 2 ^ k).
    { unfold wrap64. rewrite Z.mod_mod_divide by done.
      replace (x + 2 ^ k) with (x + 1 * 2 ^ k) by lia. by rewrite Z.mod_add by lia. }
    rewrite Hm. pose proof (Z.mod_pos_bound x (2 ^ k) Hp).
    pose proof (Z.div_mod x (2 ^ k)) as Hx'. destruct Hd as [q Hq].
    assert (x / 2 ^ k < q) by (apply Z.div_lt_upper_bound; lia).
    assert (x - x mod 2 ^ k + 2 ^ k <= W64) by nia.
    destruct (decide (x + 2 ^ k < W64)).
    + rewrite !wrap64_small by (unfold is_u64; lia). lia.
    + rewrite wrap64_over by lia.
      destruct (decide (x - x mod 2 ^ k + 2 ^ k = W64)) as [E'|].
      * replace (x + (2 ^ k - x mod 2 ^ k)) with W64 by lia. unfold wrap64.
        rewrite Z.mod_same by lia. lia.
      * assert (x / 2 ^ k + 1 <> q) by (intros <-; lia).
        assert (2 ^ k * (x / 2 ^ k + 2) <= q * 2 ^ k) by nia. lia.
Qed.

Lemma round_up_eq x :
  0 < x < W64 -> round_up x = wrap64 (x + (- x) mod page_size).
Proof. intros Hx. by apply (round_up_custom_eq 12). Qed.

Lemma round_up_huge_eq x :
  0 < x < W64 -> round_up_huge x = wrap64 (x + (- x) mod huge_size).
Proof. intros Hx. by apply (round_up_custom_eq 21). Qed.

Lemma round_down_eq x : is_u64 x -> round_down x = x - x mod page_size.
Proof. intros Hx. by apply (round_down_custom_eq 12). Qed.

Lemma round_down_huge_eq x : is_u64 x -> round_down_huge x = x - x mod huge_size.
Proof. intros Hx. by apply (round_down_custom_eq 21). Qed.

(** [round_up] below the last page of the address space, as an inequation. *)
Lemma round_up_bounds x :
  0 < x <= W64 - page_size ->
  round_up x mod page_size = 0 /\ x <= round_up x < x + page_size /\ round_up x < W64.
Proof.
  intros Hx. rewrite round_up_eq by (unfold page_size in *; lia).
  unfold page_size in *. rewrite wrap64_small; unfold is_u64; dlia.
Qed.

Lemma round_down_bounds x :
  is_u64 x ->
  round_down x mod page_size = 0 /\ x - page_size < round_down x <= x /\ 0 <= round_down x.
Proof.
  intros Hx. rewrite round_down_eq by done. unfold is_u64, page_size in *. dlia.
Qed.

Lemma round_up_aligned x :
  0 < x < W64 -> x mod page_size = 0 -> round_up x = x.
Proof.
  intros Hx H. rewrite round_up_eq, Z.mod_opp_l_z by done.
  rewrite Z.add_0_r. apply wrap64_small. unfold is_u64; lia.
Qed.

Lemma round_down_aligned x :
  is_u64 x -> x mod page_size = 0 -> round_down x = x.
Proof. intros Hx H. rewrite round_down_eq by done. lia. Qed.

Lemma is_aligned_spec x : is_aligned x = true <-> x mod page_size = 0.
Proof. apply Z.eqb_eq. Qed.

#[export] Hint Resolve round_up_bounds round_down_bounds : kernel.

(** [Page::round_up] and [Page::round_down] (and their huge-page versions, 2 MB) are
    the least page multiple not below and the greatest not above the size, on every
    64-bit size: rounding down never fails, rounding up wraps to 0 exactly when the
    multiple is 2^64, and a size of 0 is rounded up to a whole page. *)
Theorem page_rounding (huge : bool) (x : Z) :
  is_u64 x ->
  let ps := if huge then huge_size else page_size in
  let up := if huge then round_up_huge x else round_up x in
  let down := if huge then round_down_huge x else round_down x in
  (down mod ps = 0 /\ down <= x < down + ps) /\
  (x = 0 -> up = ps) /\
  (0 < x <= W64 - ps -> up mod ps = 0 /\ x <= up < x + ps) /\
  (W64 - ps < x -> up = 0).
Proof.
  intros Hx ps up down. subst ps up down. destruct huge.
  - rewrite round_down_huge_eq by done. unfold huge_size, is_u64 in *.
    split_and!; try dlia; intros H; try (by subst);
      rewrite round_up_huge_eq by (unfold huge_size; lia); unfold wrap64, huge_size;
      dlia.
  - rewrite round_down_eq by done. unfold page_size, is_u64 in *.
    split_and!; try dlia; intros H; try (by subst);
      rewrite round_up_eq by (unfold page_size; lia); unfold wrap64, page_size; dlia.
Qed.

Lemma page_rounding_witness :
  is_u64 5000 /\ round_up 5000 = 8192 /\ round_down 5000 = 4096.
Proof.
  assert (H : is_u64 5000) by (unfold is_u64; lia).
  pose proof (page_rounding false 5000 H) as (Hd & _ & Hu & _).
  split; [done|]. split; reflexivity.
Defined.
