(* ===== verification/Range.v ===== *)
(** Kernel/Memory/Range.h: [BasicRange], the half-open address range
    [[begin, end)] that the memory map, the allocators and the regions are made of.
    [Range] and [LongRange] are both 64 bits wide on AMD64, so one model serves both.
    The semantics of a range is the set of addresses [in_range] it covers. *)
From S2P Require Import Prelude.

(** ** Data *)

(** [Kernel/Memory/Range.h:247-249] BasicRange *)
Record range := Range { r_begin : Z; r_end : Z }.

#[export] Instance range_eq_dec : EqDecision range.
Proof. solve_decision. Defined.

(** [Kernel/Memory/Range.h:12-12] BasicRange() *)
Definition null_range : range := Range 0 0.

(** [Kernel/Memory/Range.h:14-19] BasicRange(AddrT, size_t) *)
Definition range_make (start length : Z) : result range :=
  let r := Range start (start +! length) in
  _ ← ASSERT (r_begin r <=? r_end r); mret r.

(** [Kernel/Memory/Range.h:21-30] from_two_pointers *)
Definition from_two_pointers (b e : Z) : result range :=
  _ ← ASSERT (b <=? e); mret (Range b e).

(** [Kernel/Memory/Range.h:32-39] create_empty_at *)
Definition create_empty_at (address : Z) : range := Range address address.

(** ** Queries *)

(** [Kernel/Memory/Range.h:51-54] length *)
Definition r_length (r : range) : Z := r_end r -! r_begin r.

(** [Kernel/Memory/Range.h:184-187] empty *)
Definition r_empty (r : range) : bool := r_begin r =? r_end r.

(** [Kernel/Memory/Range.h:195-198] operator bool *)
Definition r_valid (r : range) : bool := negb (r_empty r).

(** [Kernel/Memory/Range.h:81-84] contains(AddrT) *)
Definition r_contains (r : range) (address : Z) : bool :=
  (address >=? r_begin r) && (address <? r_end r).

(** [Kernel/Memory/Range.h:86-89] contains(const BasicRange&) *)
Definition r_contains_range (r other : range) : bool :=
  r_contains r (r_begin other) && (r_end other <=? r_end r).

(** [Kernel/Memory/Range.h:91-97] overlaps *)
Definition r_overlaps (r other : range) : bool :=
  if r_empty r || r_empty other then false
  else r_contains r (r_begin other) || r_contains other (r_begin r).

(** [Kernel/Memory/Range.h:169-172] operator<(const BasicRange&) *)
Definition r_lt (r other : range) : bool := r_begin r <? r_begin other.

(** [Kernel/Memory/Range.h:174-177] operator== *)
Definition r_eq (r other : range) : bool :=
  (r_begin r =? r_begin other) && (r_end r =? r_end other).

(** [Kernel/Memory/Range.h:237-240] operator<(const BasicRange&, AddrT) *)
Definition r_lt_addr (l : range) (r : Z) : bool := r_begin l <? r.

(** [Kernel/Memory/Range.h:242-245] operator<(AddrT, const BasicRange&) *)
Definition addr_lt_r (l : Z) (r : range) : bool := l <? r_begin r.

(** [Kernel/Memory/Range.h:200-203] is_aligned_to *)
Definition r_is_aligned_to (r : range) (alignment : Z) : bool :=
  r_begin r mod alignment =? 0.

(** ** Updates *)

(** [Kernel/Memory/Range.h:56-59] set_length *)
Definition set_length (r : range) (length : Z) : range :=
  Range (r_begin r) (r_begin r +! length).

(** [Kernel/Memory/Range.h:61-64] set_begin *)
Definition set_begin (r : range) (b : Z) : range := Range b (r_end r).

(** [Kernel/Memory/Range.h:66-69] set_end *)
Definition set_end (r : range) (e : Z) : range := Range (r_begin r) e.

(** [Kernel/Memory/Range.h:71-74] extend_by *)
Definition extend_by (r : range) (length : Z) : range :=
  set_end r (r_end r +! length).

(** [Kernel/Memory/Range.h:76-79] advance_begin_by *)
Definition advance_begin_by (r : range) (length : Z) : range :=
  Range (r_begin r +! length) (r_end r).

(** [Kernel/Memory/Range.h:99-104] clipped_with_begin *)
Definition clipped_with_begin (r : range) (address : Z) : result range :=
  _ ← ASSERT (r_contains r address || (address =? r_end r));
  from_two_pointers address (r_end r).

(** [Kernel/Memory/Range.h:106-111] clipped_with_end *)
Definition clipped_with_end (r : range) (address : Z) : result range :=
  _ ← ASSERT (r_contains r address || (address =? r_end r));
  from_two_pointers (r_begin r) address.

(** [Kernel/Memory/Range.h:113-141] constrained_by *)
Definition constrained_by (r : range) (lowest highest : Z) : result range :=
  _ ← ASSERT (lowest <? highest);
  if r_empty r then mret r
  else if r_begin r >? highest then from_two_pointers (r_begin r) (r_begin r)
  else if r_end r <? lowest then from_two_pointers (r_end r) (r_end r)
  else
    let new_range :=
      if r_begin r <? lowest then
        let bytes_under := lowest -! r_begin r in
        set_begin r (Z.min (r_begin r +! bytes_under) (r_end r))
      else r in
    let new_range :=
      if r_end r >? highest then
        let bytes_over := r_end r -! highest in
        set_end new_range (Z.max (r_end r -! bytes_over) (r_begin r))
      else new_range in
    mret new_range.

(** [Kernel/Memory/Range.h:143-147] reset_with(AddrT, size_t) *)
Definition reset_with (b length : Z) : range := Range b (b +! length).

(** [Kernel/Memory/Range.h:155-161] reset_with_two_pointers *)
Definition reset_with_two_pointers (b e : Z) : result range :=
  _ ← ASSERT (b <=? e); mret (Range b e).

(** [Kernel/Memory/Range.h:189-193] reset *)
Definition r_reset : range := Range 0 0.

(** [Kernel/Memory/Range.h:207-208] aligned_begin, the start both alignment functions compute *)
Definition aligned_begin (r : range) (alignment : Z) : Z :=
  let remainder := r_begin r mod alignment in
  if remainder =? 0 then r_begin r else r_begin r +! (alignment -! remainder).

(** [Kernel/Memory/Range.h:205-214] align_to *)
Definition align_to (r : range) (alignment : Z) : result range :=
  let b := aligned_begin r alignment in
  _ ← ASSERT (b <? r_end r);
  _ ← ASSERT (b >=? r_begin r);
  mret (Range b (r_end r)).

(** [Kernel/Memory/Range.h:216-227] aligned_to *)
Definition aligned_to (r : range) (alignment : Z) : result range :=
  let b := aligned_begin r alignment in
  if (b <? r_begin r) || (b >=? r_end r) then mret null_range
  else from_two_pointers b (r_end r).

(** ** Semantics *)

Definition in_range (r : range) (x : Z) : Prop := r_begin r <= x < r_end r.

Definition wf_range (r : range) : Prop := 0 <= r_begin r <= r_end r /\ r_end r < W64.

(** Unfolds the queries of a range to inequations on its bounds. *)
Ltac unfold_range :=
  unfold in_range, wf_range, r_valid, r_empty, r_length, is_u64 in *; simpl in *.

Lemma r_contains_spec r x : r_contains r x = true <-> in_range r x.
Proof. unfold r_contains, in_range. lia. Qed.

Lemma r_contains_false r x : r_contains r x = false <-> ~ in_range r x.
Proof. unfold r_contains, in_range. lia. Qed.

Lemma r_length_wf r : wf_range r -> r_length r = r_end r - r_begin r.
Proof. intros H. unfold r_length. apply wrap64_small. unfold_range. lia. Qed.

Lemma r_overlaps_spec r r' :
  wf_range r -> wf_range r' ->
  r_overlaps r r' = true <-> exists x, in_range r x /\ in_range r' x.
Proof.
  intros H H'. unfold r_overlaps, r_empty, r_contains, in_range, wf_range in *. split.
  - intros E. exists (Z.max (r_begin r) (r_begin r')).
    case_match; [done|]. lia.
  - intros (x & Hx & Hx'). case_match; lia.
Qed.

Lemma r_overlaps_false r r' :
  wf_range r -> wf_range r' ->
  r_overlaps r r' = false <-> forall x, in_range r x -> ~ in_range r' x.
Proof.
  intros H H'. rewrite <- not_true_iff_false, r_overlaps_spec by done. naive_solver.
Qed.

Lemma from_two_pointers_Ok b e r :
  from_two_pointers b e = Ok r <-> b <= e /\ r = Range b e.
Proof.
  unfold from_two_pointers. split.
  - intros H. inv_ok. bool_to_prop. done.
  - intros [H ->]. apply Z.leb_le in H. by rewrite H.
Qed.

Lemma range_make_Ok b l r :
  is_u64 b -> is_u64 l ->
  range_make b l = Ok r <-> b + l < W64 /\ r = Range b (b + l).
Proof.
  intros Hb Hl. unfold range_make; simpl. unfold is_u64 in *.
  destruct (decide (b + l < W64)) as [H|H].
  - rewrite wrap64_small by (unfold is_u64; lia).
    replace (b <=? b + l) with true by lia. simpl.
    split; [by intros [= <-]|by intros [_ ->]].
  - rewrite wrap64_over by lia. replace (b <=? b + l - W64) with false by lia.
    split; [done|lia].
Qed.

(** The start of an aligned range: the next multiple, wrapped. *)
Lemma aligned_begin_eq r a :
  is_u64 (r_begin r) -> 0 < a < W64 ->
  aligned_begin r a = wrap64 (r_begin r + (- r_begin r) mod a).
Proof.
  intros Hb Ha. unfold aligned_begin. destruct (Z.eqb_spec (r_begin r mod a) 0) as [E|E].
  - rewrite Z.mod_opp_l_z, Z.add_0_r, wrap64_small by (done || lia). done.
  - rewrite Z.mod_opp_l_nz by lia. pose proof (Z.mod_pos_bound (r_begin r) a).
    f_equal. rewrite wrap64_small; [done|]. unfold is_u64 in *. lia.
Qed.

(** [aligned_to] on a well-formed range never faults, and either finds the longest
    aligned suffix or the null range. *)
Lemma aligned_to_cases r a :
  wf_range r -> 0 < a < W64 ->
  let b := r_begin r + (- r_begin r) mod a in
  b mod a = 0 /\ r_begin r <= b < r_begin r + a /\
  aligned_to r a = Ok (if b <? r_end r then Range b (r_end r) else null_range).
Proof.
  intros H Ha b.
  assert (Hm : b mod a = 0).
  { unfold b. rewrite Z.add_mod_idemp_r by lia. by rewrite Z.add_opp_diag_r. }
  pose proof (Z.mod_pos_bound (- r_begin r) a) as Hb.
  split; [done|]. split; [lia|]. unfold aligned_to, wf_range in *.
  rewrite aligned_begin_eq by (unfold is_u64 in *; lia). fold b.
  destruct (decide (b < W64)).
  - rewrite wrap64_small by (unfold is_u64; lia). unfold from_two_pointers.
    destruct (Z.ltb_spec b (r_end r)).
    + replace ((b <? r_begin r) || (b >=? r_end r)) with false by lia.
      by replace (b <=? r_end r) with true by lia.
    + by replace ((b <? r_begin r) || (b >=? r_end r)) with true by lia.
  - rewrite wrap64_over by lia.
    replace ((b - W64 <? r_begin r) || (b - W64 >=? r_end r)) with true by lia.
    by replace (b <? r_end r) with false by lia.
Qed.

#[export] Hint Resolve r_length_wf : kernel.

(** ** Properties *)

(** The queries and the alignment of a well-formed range agree with the set of
    addresses it covers: [contains] is membership, [contains(range)] inclusion of a
    non-empty range, [overlaps] a shared address, [length] the size without wrapping. *)
Theorem range_queries_correct (r r' : range) (x : Z) :
  wf_range r -> wf_range r' ->
  (r_contains r x = true <-> in_range r x) /\
  (r_valid r' = true ->
     r_contains_range r r' = true <-> forall y, in_range r' y -> in_range r y) /\
  (r_overlaps r r' = true <-> exists y, in_range r y /\ in_range r' y) /\
  (r_empty r = true <-> forall y, ~ in_range r y) /\
  r_length r = r_end r - r_begin r.
Proof.
  intros H H'. split_and!.
  - apply r_contains_spec.
  - unfold r_contains_range, r_contains. unfold_range. intros Hne. split; [lia|].
    intros Hin. pose proof (Hin (r_begin r')). pose proof (Hin (r_end r' - 1)). lia.
  - by apply r_overlaps_spec.
  - unfold_range. split; [lia|]. intros Hn. pose proof (Hn (r_begin r)). lia.
  - by apply r_length_wf.
Qed.

Lemma range_queries_correct_witness :
  r_overlaps (Range 0 8192) (Range 4096 12288) = true /\
  exists y, in_range (Range 0 8192) y /\ in_range (Range 4096 12288) y.
Proof.
  assert (H : wf_range (Range 0 8192)) by (unfold wf_range; simpl; lia).
  assert (H' : wf_range (Range 4096 12288)) by (unfold wf_range; simpl; lia).
  pose proof (range_queries_correct _ _ 0 H H') as (_ & _ & Ho & _).
  split; [reflexivity|]. apply Ho. reflexivity.
Defined.

(** [constrained_by] is intersection with [[lowest, highest)]: on a well-formed
    range it never faults and the result covers exactly the addresses of the range that
    lie in the window. *)
Theorem constrained_by_correct (r : range) (lowest highest : Z) :
  wf_range r -> 0 <= lowest < highest -> highest < W64 ->
  exists r', constrained_by r lowest highest = Ok r' /\ wf_range r' /\
    forall x, in_range r' x <-> in_range r x /\ lowest <= x < highest.
Proof.
  intros H Hl Hh. unfold constrained_by. replace (lowest <? highest) with true by lia.
  unfold ASSERT, mbind, result_bind, mret, result_ret, from_two_pointers, ASSERT.
  unfold wf_range in *. rewrite !Z.leb_refl. unfold mbind, result_bind.
  unfold r_empty. destruct (Z.eqb_spec (r_begin r) (r_end r)).
  { eexists; split; [done|]. unfold_range. split; [lia|]. intros x; lia. }
  rewrite Z.gtb_ltb. destruct (Z.ltb_spec highest (r_begin r)).
  { eexists; split; [done|]. unfold_range. split; [lia|]. intros x; lia. }
  destruct (Z.ltb_spec (r_end r) lowest).
  { eexists; split; [done|]. unfold_range. split; [lia|]. intros x; lia. }
  eexists; split; [done|]. rewrite Z.gtb_ltb.
  destruct (Z.ltb_spec (r_begin r) lowest), (Z.ltb_spec highest (r_end r)); unfold_range;
    unwrap64; (split; [lia|]; intros x; lia).
Qed.

Lemma constrained_by_correct_witness :
  constrained_by (Range 0 100) 20 50 = Ok (Range 20 50) /\
  in_range (Range 20 50) 30.
Proof.
  assert (H : wf_range (Range 0 100)) by (unfold wf_range; simpl; lia).
  destruct (constrained_by_correct (Range 0 100) 20 50 H ltac:(lia) ltac:(lia))
    as (r' & E & _ & Hx).
  split; [reflexivity|]. injection E as <-. apply Hx. unfold in_range; simpl; lia.
Defined.

(** [aligned_to] returns the longest suffix that starts at a multiple of the
    alignment, and the null range exactly when the range has no aligned address, also
    when the next multiple would wrap around 2^64. *)
Theorem aligned_to_correct (r : range) (alignment : Z) :
  wf_range r -> 0 < alignment < W64 ->
  exists r', aligned_to r alignment = Ok r' /\ wf_range r' /\
    (r_empty r' = true -> r' = null_range /\ forall x, in_range r x -> x mod alignment <> 0) /\
    (r_empty r' = false ->
       r_begin r' mod alignment = 0 /\ r_end r' = r_end r /\ in_range r (r_begin r') /\
       forall x, in_range r x -> x mod alignment = 0 -> r_begin r' <= x).
Proof.
  intros H Ha. pose proof (aligned_to_cases r alignment H Ha) as (Hm & Hb & E).
  set (b := r_begin r + _) in *. eexists; split; [exact E|].
  assert (Hleast : forall x, in_range r x -> x mod alignment = 0 -> b <= x).
  { intros x Hx Hx'. unfold_range.
    apply Z.mod_divide in Hm as [p Hp]; [|lia]. apply Z.mod_divide in Hx' as [q Hq]; [|lia].
    assert (p < q + 1) by (apply (Z.mul_lt_mono_pos_r alignment); lia). nia. }
  destruct (Z.ltb_spec b (r_end r)); unfold null_range; unfold_range.
  - split; [lia|]. split; [lia|]. intros _. split_and!; try done; lia.
  - split; [lia|]. split; [|lia]. intros _. split; [done|]. intros x Hx Hx'.
    specialize (Hleast x Hx Hx'). lia.
Qed.

Lemma aligned_to_correct_witness :
  aligned_to (Range 1 20000) 4096 = Ok (Range 4096 20000) /\
  4096 mod 4096 = 0.
Proof.
  assert (H : wf_range (Range 1 20000)) by (unfold wf_range; simpl; lia).
  destruct (aligned_to_correct (Range 1 20000) 4096 H ltac:(lia)) as (r' & E & _ & _ & Hx).
  split; [reflexivity|]. injection E as <-. apply Hx. reflexivity.
Defined.
