(* ===== verification/Utilities.v ===== *)
(** Kernel/Common/Utilities.h and Kernel/Common/Math.h: the array algorithms of the
    kernel (binary search, linear search, the two sorts) over an array given as the list
    of its elements and a comparator given as a boolean function.  An iterator is an
    index, [end] is the length.  Array sizes are below 2^63, so the [ssize_t] indices do
    not overflow and are plain [Z]. *)
From S2P Require Import Prelude.

(** [Kernel/Common/Math.h:8-11] ceiling_divide *)
Definition ceiling_divide (l r : Z) : Z :=
  let nz := if l =? 0 then 0 else 1 in
  nz + (l - nz) / r.

Lemma ceiling_divide_bounds l r :
  0 <= l -> 0 < r -> l <= ceiling_divide l r * r < l + r.
Proof.
  intros Hl Hr. unfold ceiling_divide. destruct (Z.eqb_spec l 0) as [->|].
  - rewrite Z.sub_0_r, Z.div_0_l; lia.
  - pose proof (Z.div_mod (l - 1) r). pose proof (Z.mod_pos_bound (l - 1) r). nia.
Qed.

(** ** Searching *)

Section search.
Context {A U : Type}.
(** The comparator on (key, element) and on (element, key): [Less<>] is transparent. *)
Context (lt_ka : U -> A -> bool) (lt_ak : A -> U -> bool).

(** [Kernel/Common/Utilities.h:128-147] the loop of lower_bound; each turn halves [right - left + 1]. *)
Fixpoint lower_bound_loop (fuel : nat) (l : list A) (key : U) (left right lb : Z)
  : result Z :=
  match fuel with
  | O => Fault OutOfFuel
  | S fuel =>
    if left <=? right then
      let pivot := left + (right - left) / 2 in
      pivot_value ← read_at l pivot;
      if lt_ka key pivot_value then
        lower_bound_loop fuel l key left (pivot - 1) pivot
      else if lt_ak pivot_value key then
        lower_bound_loop fuel l key (pivot + 1) right lb
      else mret pivot
    else mret lb
  end.

(** [Kernel/Common/Utilities.h:115-148] lower_bound *)
Definition lower_bound (l : list A) (key : U) : result Z :=
  let n := Z.of_nat (length l) in
  if n =? 0 then mret n
  else lower_bound_loop (S (length l)) l key 0 (n - 1) n.

(** [Kernel/Common/Utilities.h:150-156] binary_search *)
Definition binary_search (l : list A) (key : U) : result Z :=
  result ← lower_bound l key;
  if result =? Z.of_nat (length l) then mret result
  else
    v ← read_at l result;
    mret (if lt_ka key v then Z.of_nat (length l) else result).

(** The array is ordered with respect to the key: the elements below it come first,
    the elements above it last, and no element is both. *)
Definition partitioned (l : list A) (key : U) : Prop :=
  (forall i j x y, (i <= j)%nat -> l !! i = Some x -> l !! j = Some y ->
     lt_ak y key = true -> lt_ak x key = true) /\
  (forall i j x y, (i <= j)%nat -> l !! i = Some x -> l !! j = Some y ->
     lt_ka key x = true -> lt_ka key y = true) /\
  (forall x, x ∈ l -> lt_ak x key = true -> lt_ka key x = false).

(** Where [key] goes: at an equivalent element if there is one, else between the
    smaller and the greater elements. *)
Definition lower_bound_spec (l : list A) (key : U) (p : Z) : Prop :=
  (exists v, read_at l p = Ok v /\ lt_ka key v = false /\ lt_ak v key = false) \/
  (0 <= p <= Z.of_nat (length l) /\
   (forall j x, l !! j = Some x -> Z.of_nat j < p -> lt_ak x key = true) /\
   (forall j x, l !! j = Some x -> p <= Z.of_nat j -> lt_ka key x = true)).

Lemma lower_bound_loop_correct fuel l key left right lb :
  partitioned l key ->
  0 <= left -> left <= right + 1 <= Z.of_nat (length l) -> lb = right + 1 ->
  right - left + 1 < Z.of_nat fuel ->
  (forall j x, l !! j = Some x -> Z.of_nat j < left -> lt_ak x key = true) ->
  (forall j x, l !! j = Some x -> right < Z.of_nat j -> lt_ka key x = true) ->
  exists p, lower_bound_loop fuel l key left right lb = Ok p /\ lower_bound_spec l key p.
Proof.
  intros (Hlt & Hgt & Hex).
  revert left right lb. induction fuel as [|fuel IH];
    intros left right lb Hl Hr -> Hf Hbelow Habove; [lia|]. simpl.
  destruct (Z.leb_spec left right) as [Hlr|Hlr].
  2:{ eexists; split; [done|]. right. split; [lia|]. split; intros j x Hx Hj.
      - apply (Hbelow j x Hx). lia.
      - apply (Habove j x Hx). lia. }
  set (p := left + (right - left) / 2).
  assert (Hp : left <= p <= right) by (unfold p; dlia).
  destruct (read_at_lt l p) as [v Hv]; [lia|]. rewrite Hv; simpl.
  pose proof (proj1 (read_at_Ok _ _ _) Hv) as [_ Hv'].
  destruct (lt_ka key v) eqn:E1.
  { apply IH; try lia; try done. intros j x Hx Hj.
    apply (Hgt (Z.to_nat p) j v x); (done || lia). }
  destruct (lt_ak v key) eqn:E2.
  { apply IH; try lia; try done. intros j x Hx Hj.
    apply (Hlt j (Z.to_nat p) x v); (done || lia). }
  eexists; split; [done|]. left. eauto.
Qed.

Lemma lower_bound_Ok l key :
  partitioned l key -> exists p, lower_bound l key = Ok p /\ lower_bound_spec l key p.
Proof.
  intros Hp. unfold lower_bound. destruct (Z.eqb_spec (Z.of_nat (length l)) 0) as [E|E].
  - eexists; split; [done|]. right. split; [lia|].
    split; intros j x Hx; apply lookup_lt_Some in Hx; lia.
  - apply lower_bound_loop_correct; try done; try lia;
      intros j x Hx; apply lookup_lt_Some in Hx; lia.
Qed.

Lemma lower_bound_spec_range l key p :
  lower_bound_spec l key p -> 0 <= p <= Z.of_nat (length l).
Proof.
  intros [(v & Hv & _)|H]; [|tauto].
  apply read_at_Ok in Hv as [H Hv]. apply lookup_lt_Some in Hv. lia.
Qed.
End search.

Lemma StronglySorted_lookup {A} (R : relation A) (l : list A) i j x y :
  Reflexive R -> StronglySorted R l -> (i <= j)%nat -> l !! i = Some x -> l !! j = Some y ->
  R x y.
Proof.
  intros HR Hs. revert i j. induction Hs as [|a l Hs IH Ha]; intros [|i] [|j] Hij Hx Hy;
    simplify_eq/=; try lia; [done| |].
  - rewrite Forall_forall in Ha. apply Ha. apply list_elem_of_lookup. eauto.
  - apply (IH i j); [lia|done..].
Qed.

(** An array sorted by an address is ordered with respect to every address. *)
Lemma sorted_partitioned {A} (f : A -> Z) (l : list A) (key : Z) :
  StronglySorted (fun x y => f x <= f y) l ->
  partitioned (fun k x => k <? f x) (fun x k => f x <? k) l key.
Proof.
  intros Hs.
  assert (Hle : forall i j x y, (i <= j)%nat -> l !! i = Some x -> l !! j = Some y -> f x <= f y).
  { intros i j x y. apply (StronglySorted_lookup (fun x y => f x <= f y)); [|done].
    intros z. apply Z.le_refl. }
  split_and!; [| |intros x _; lia]; intros i j x y Hij Hx Hy;
    pose proof (Hle i j x y Hij Hx Hy); lia.
Qed.

(** [Kernel/Common/Utilities.h:158-167] linear_search_for *)
Fixpoint linear_search_for {A} (l : list A) (predicate : A -> bool) : nat :=
  match l with
  | [] => 0
  | x :: l => if predicate x then 0 else S (linear_search_for l predicate)
  end.

Lemma linear_search_for_correct {A} (l : list A) f :
  (forall j x, (j < linear_search_for l f)%nat -> l !! j = Some x -> f x = false) /\
  (forall x, l !! linear_search_for l f = Some x -> f x = true) /\
  (linear_search_for l f <= length l)%nat.
Proof.
  induction l as [|a l (IH1 & IH2 & IH3)]; simpl; [split_and!; naive_solver lia|].
  destruct (f a) eqn:E; split_and!; try lia; try naive_solver lia.
  intros [|j] x Hj; simpl; [naive_solver|]. intros Hx. by apply (IH1 j); [lia|].
Qed.

(** ** Sorting *)

(** [Kernel/Common/Utilities.h:51-57] swap, of two array elements *)
Definition swap_at {A} (l : list A) (i j : Z) : result (list A) :=
  x ← read_at l i;
  y ← read_at l j;
  l ← write_at l i y;
  write_at l j x.

Lemma swap_at_Ok {A} (l : list A) i j x y :
  read_at l i = Ok x -> read_at l j = Ok y ->
  swap_at l i j = Ok (<[Z.to_nat j := x]> (<[Z.to_nat i := y]> l)).
Proof.
  intros Hi Hj. unfold swap_at. rewrite Hi, Hj. simpl. unfold write_at.
  apply read_at_Ok in Hi as [? Hi%lookup_lt_Some], Hj as [? Hj%lookup_lt_Some].
  rewrite decide_True by lia. simpl. rewrite length_insert, decide_True by lia. done.
Qed.

Lemma swap_at_split {A} (l1 l2 l3 : list A) x y i j :
  i = Z.of_nat (length l1) -> j = i + 1 + Z.of_nat (length l2) ->
  swap_at (l1 ++ x :: l2 ++ y :: l3) i j = Ok (l1 ++ y :: l2 ++ x :: l3) /\
  swap_at (l1 ++ x :: l2 ++ y :: l3) j i = Ok (l1 ++ y :: l2 ++ x :: l3).
Proof.
  intros -> ->. set (l := l1 ++ x :: l2 ++ y :: l3).
  set (i := Z.of_nat (length l1)). set (j := i + 1 + Z.of_nat (length l2)).
  assert (Hi : read_at l i = Ok x).
  { apply read_at_Ok. split; [lia|]. unfold l, i. rewrite Nat2Z.id.
    apply list_lookup_middle; lia. }
  assert (Hj : read_at l j = Ok y).
  { apply read_at_Ok. split; [lia|]. unfold l.
    rewrite app_comm_cons, app_assoc. apply list_lookup_middle.
    rewrite length_app; simpl. lia. }
  assert (E : <[Z.to_nat j := x]> (<[Z.to_nat i := y]> l) = l1 ++ y :: l2 ++ x :: l3).
  { unfold l. rewrite !insert_app_r_alt by lia.
    replace (Z.to_nat i - length l1)%nat with 0%nat by lia.
    replace (Z.to_nat j - length l1)%nat with (S (length l2)) by lia. simpl.
    rewrite insert_app_r_alt by lia. by rewrite Nat.sub_diag. }
  rewrite (swap_at_Ok l i j x y), (swap_at_Ok l j i y x) by done.
  rewrite (list_insert_insert_ne l (Z.to_nat i) (Z.to_nat j)), E by lia. done.
Qed.

Lemma swap_at_self {A} (l1 l2 : list A) x i :
  i = Z.of_nat (length l1) ->
  swap_at (l1 ++ x :: l2) i i = Ok (l1 ++ x :: l2).
Proof.
  intros ->. set (l := l1 ++ x :: l2).
  assert (Hl : l !! length l1 = Some x) by (apply list_lookup_middle; lia).
  rewrite (swap_at_Ok l _ _ x x) by (apply read_at_Ok; rewrite Nat2Z.id; split; [lia|done]).
  by rewrite Nat2Z.id, !list_insert_id by (rewrite ?list_insert_id by done; done).
Qed.

Section sorting.
Context {A : Type} (comparator : A -> A -> bool).

(** [Kernel/Common/Utilities.h:226-231] the inner loop of insertion_sort: [begin[j]] sinks while it is below its left
    neighbour.  It runs at most [j] times. *)
Fixpoint insertion_sink (fuel : nat) (l : list A) (j : Z) : result (list A) :=
  match fuel with
  | O => Fault OutOfFuel
  | S fuel =>
    if j >? 0 then
      x ← read_at l j;
      y ← read_at l (j - 1);
      if comparator x y then
        l ← swap_at l j (j - 1);
        insertion_sink fuel l (j - 1)
      else mret l
    else mret l
  end.

(** [Kernel/Common/Utilities.h:225-232] the outer loop, with [count] iterations left from index [i]. *)
Fixpoint insertion_sort_loop (count : nat) (l : list A) (i : Z) : result (list A) :=
  match count with
  | O => mret l
  | S count =>
    l ← insertion_sink (S (Z.to_nat i)) l i;
    insertion_sort_loop count l (i + 1)
  end.

(** [Kernel/Common/Utilities.h:214-233] insertion_sort *)
Definition insertion_sort (l : list A) : result (list A) :=
  if (length l <? 2)%nat then mret l else insertion_sort_loop (length l) l 0.

(** [Kernel/Common/Utilities.h:191-194] the loop of do_partition: [i] against the last element, [smallest_index] the end
    of the elements already known to be smaller. *)
Fixpoint partition_loop (count : nat) (l : list A) (last_index i smallest_index : Z)
  : result (list A * Z) :=
  match count with
  | O => mret (l, smallest_index)
  | S count =>
    x ← read_at l i;
    pivot ← read_at l last_index;
    if comparator x pivot then
      l ← swap_at l (smallest_index + 1) i;
      partition_loop count l last_index (i + 1) (smallest_index + 1)
    else partition_loop count l last_index (i + 1) smallest_index
  end.

(** [Kernel/Common/Utilities.h:183-198] do_partition *)
Definition do_partition (l : list A) : result (list A * Z) :=
  let last_index := Z.of_nat (length l) - 1 in
  '(l, smallest_index) ← partition_loop (length l - 1) l last_index 0 (-1);
  l ← swap_at l (smallest_index + 1) last_index;
  mret (l, smallest_index + 1).

(** [Kernel/Common/Utilities.h:200-209] do_quick_sort
    The two recursive calls work in place on the parts of the array before and after
    the pivot, which are disjoint. *)
Fixpoint do_quick_sort (fuel : nat) (l : list A) : result (list A) :=
  match fuel with
  | O => Fault OutOfFuel
  | S fuel =>
    if (length l <? 2)%nat then mret l
    else
      '(l, pivot) ← do_partition l;
      before ← do_quick_sort fuel (take (Z.to_nat pivot) l);
      x ← read_at l pivot;
      after ← do_quick_sort fuel (drop (S (Z.to_nat pivot)) l);
      mret (before ++ x :: after)
  end.

(** [Kernel/Common/Utilities.h:175-212] quick_sort *)
Definition quick_sort (l : list A) : result (list A) := do_quick_sort (S (length l)) l.

(** *** Correctness *)

(** "Not greater": the order a strict comparator sorts by. *)
Definition not_after (x y : A) : Prop := comparator y x = false.

(** The comparator is a strict weak order. *)
Class StrictWeakOrder : Prop := {
  swo_asym x y : comparator x y = true -> comparator y x = false;
  swo_trans x y z : not_after x y -> not_after y z -> not_after x z;
}.
Context {HS : StrictWeakOrder}.

#[local] Instance not_after_trans : Transitive not_after.
Proof. intros x y z. apply swo_trans. Qed.

Lemma not_after_total x y : comparator x y = true -> not_after x y.
Proof. apply swo_asym. Qed.

(** Sinking [x] into a sorted prefix [l1]. *)
Lemma insertion_sink_correct fuel l1 x l2 :
  (length l1 < fuel)%nat -> StronglySorted not_after l1 ->
  exists l1', insertion_sink fuel (l1 ++ x :: l2) (Z.of_nat (length l1)) = Ok (l1' ++ l2) /\
    Permutation (x :: l1) l1' /\ StronglySorted not_after l1'.
Proof.
  revert l1 l2. induction fuel as [|fuel IH]; intros l1 l2 Hf Hs; [lia|]. simpl.
  destruct l1 as [|y l1 _] using rev_ind; simpl.
  { exists [x]. split; [done|]. split; [done|]. repeat constructor. }
  rewrite length_app in *; simpl in *.
  replace (Z.of_nat (length l1 + 1) >? 0) with true by blia.
  rewrite <- app_assoc; simpl.
  rewrite (proj2 (read_at_Ok _ (Z.of_nat (length l1 + 1)) x));
    [|split; [lia|]; rewrite Nat2Z.id, lookup_app_r by lia;
      by replace (length l1 + 1 - length l1)%nat with 1%nat by lia].
  rewrite (proj2 (read_at_Ok _ (Z.of_nat (length l1 + 1) - 1) y));
    [|split; [lia|]; apply list_lookup_middle; lia]. simpl.
  pose proof (StronglySorted_app_1_l _ _ _ Hs) as Hs1.
  destruct (comparator x y) eqn:E.
  - destruct (swap_at_split l1 [] l2 y x (Z.of_nat (length l1 + 1) - 1)
      (Z.of_nat (length l1 + 1))) as [_ Hsw]; simpl; try lia.
    simpl in Hsw. rewrite Hsw. simpl.
    replace (Z.of_nat (length l1 + 1) - 1) with (Z.of_nat (length l1)) by lia.
    destruct (IH l1 (y :: l2)) as (l1' & Hr & Hp & Hs'); [lia|done|].
    exists (l1' ++ [y]). rewrite Hr, <- app_assoc. split; [done|]. split.
    + by rewrite <- Hp.
    + apply StronglySorted_app_2; [|done|repeat constructor].
      intros a b Ha Hb. apply list_elem_of_singleton in Hb as ->.
      rewrite <- Hp in Ha. apply elem_of_cons in Ha as [->|Ha]; [by apply not_after_total|].
      eapply StronglySorted_app_1_elem_of in Hs; [exact Hs|done|set_solver].
  - exists (l1 ++ [y; x]). split; [by rewrite <- app_assoc|]. split.
    + change [y; x] with ([y] ++ [x]). rewrite app_assoc.
      by rewrite (Permutation_app_comm (l1 ++ [y])).
    + change [y; x] with ([y] ++ [x]). rewrite app_assoc.
      apply StronglySorted_app_2; [|done|repeat constructor].
      intros a b Ha Hb. apply list_elem_of_singleton in Hb as ->.
      apply elem_of_app in Ha as [Ha|Ha%list_elem_of_singleton]; [|by subst].
      transitivity y; [|done].
      eapply StronglySorted_app_1_elem_of in Hs; [exact Hs|done|set_solver].
Qed.

Lemma insertion_sort_loop_correct count l1 l2 :
  count = length l2 -> StronglySorted not_after l1 ->
  exists l', insertion_sort_loop count (l1 ++ l2) (Z.of_nat (length l1)) = Ok l' /\
    Permutation (l1 ++ l2) l' /\ StronglySorted not_after l'.
Proof.
  revert l1 l2. induction count as [|count IH]; intros l1 [|x l2] Hc Hs; try done.
  { simpl. exists (l1 ++ []). rewrite app_nil_r. done. }
  cbn [insertion_sort_loop].
  destruct (insertion_sink_correct (S (Z.to_nat (Z.of_nat (length l1)))) l1 x l2)
    as (l1' & -> & Hp & Hs'); [lia|done|]. cbn [mbind result_bind].
  assert (Hlen : length l1' = S (length l1)) by (by rewrite <- Hp).
  replace (Z.of_nat (length l1) + 1) with (Z.of_nat (length l1')) by lia.
  destruct (IH l1' l2) as (l' & Hr & Hp' & Hs''); [by injection Hc|done|].
  exists l'. split; [done|]. split; [|done]. rewrite <- Hp', <- Hp.
  by rewrite <- (Permutation_middle l1 l2 x).
Qed.

Lemma insertion_sort_Ok l :
  exists l', insertion_sort l = Ok l' /\ Permutation l l' /\ StronglySorted not_after l'.
Proof.
  unfold insertion_sort. destruct (Nat.ltb_spec (length l) 2) as [H|H].
  - exists l. split; [done|]. split; [done|].
    destruct l as [|x [|y l]]; simpl in H; [constructor|repeat constructor|lia].
  - apply (insertion_sort_loop_correct (length l) [] l); [done|constructor].
Qed.

(** The partition loop splits the elements before the pivot into smaller and not
    smaller ones. *)
Lemma partition_loop_correct count p lo hi rest :
  count = length rest ->
  Forall (fun x => comparator x p = true) lo ->
  Forall (fun x => comparator x p = false) hi ->
  exists lo' hi',
    partition_loop count (lo ++ hi ++ rest ++ [p])
      (Z.of_nat (length lo + length hi + length rest)) (Z.of_nat (length lo + length hi))
      (Z.of_nat (length lo) - 1)
    = Ok (lo' ++ hi' ++ [p], Z.of_nat (length lo') - 1) /\
    Permutation (lo ++ hi ++ rest) (lo' ++ hi') /\
    Forall (fun x => comparator x p = true) lo' /\
    Forall (fun x => comparator x p = false) hi'.
Proof.
  revert lo hi rest. induction count as [|count IH]; intros lo hi [|x rest] Hc Hlo Hhi;
    try done.
  { exists lo, hi. simpl. rewrite app_nil_r. done. }
  cbn [partition_loop].
  rewrite (proj2 (read_at_Ok _ (Z.of_nat (length lo + length hi)) x)).
  2:{ split; [lia|]. rewrite app_assoc. apply list_lookup_middle.
      rewrite length_app. lia. }
  rewrite (proj2 (read_at_Ok _ (Z.of_nat (length lo + length hi + length (x :: rest))) p)).
  2:{ split; [lia|]. rewrite !app_assoc. apply list_lookup_middle.
      rewrite !length_app. lia. }
  cbn [mbind result_bind]. destruct (comparator x p) eqn:E.
  - assert (Hsw : exists hi', Permutation (x :: hi) (x :: hi') /\ length hi' = length hi /\
      swap_at (lo ++ hi ++ (x :: rest) ++ [p]) (Z.of_nat (length lo) - 1 + 1)
        (Z.of_nat (length lo + length hi)) = Ok ((lo ++ [x]) ++ hi' ++ rest ++ [p])).
    { destruct hi as [|y hi].
      - exists []. split; [done|]. split; [done|]. simpl.
        rewrite Nat.add_0_r, Z.sub_add, swap_at_self by done. by rewrite <- app_assoc.
      - exists (hi ++ [y]). split; [by rewrite (Permutation_app_comm hi)|].
        split; [rewrite length_app; simpl; lia|].
        destruct (swap_at_split lo hi (rest ++ [p]) y x (Z.of_nat (length lo) - 1 + 1)
          (Z.of_nat (length lo + length (y :: hi)))) as [Hs _]; [lia|simpl; lia|].
        simpl in *. rewrite Hs. by rewrite <- !app_assoc. }
    destruct Hsw as (hi' & Hp' & Hlen & ->). cbn [mbind result_bind].
    destruct (IH (lo ++ [x]) hi' rest) as (lo2 & hi2 & Hr & Hp2 & ? & ?).
    { by injection Hc. }
    { apply Forall_app; split; [done|]. by constructor. }
    { apply Permutation_cons_inv in Hp'. by rewrite <- Hp'. }
    exists lo2, hi2. split; [|split_and!; try done].
    + rewrite <- Hr. rewrite length_app. simpl. f_equal; lia.
    + rewrite <- Hp2, <- app_assoc. apply Permutation_app_head. simpl.
      apply Permutation_cons_inv in Hp'. rewrite <- Hp'.
      by rewrite <- Permutation_middle.
  - destruct (IH lo (hi ++ [x]) rest) as (lo2 & hi2 & Hr & Hp2 & ? & ?).
    { by injection Hc. }
    { done. }
    { apply Forall_app; split; [done|]. by constructor. }
    exists lo2, hi2. rewrite <- !app_assoc in Hr, Hp2. split; [|split_and!; done].
    rewrite <- Hr. rewrite length_app. simpl. f_equal; lia.
Qed.

Lemma do_partition_correct l p :
  exists lo hi, do_partition (l ++ [p]) = Ok (lo ++ p :: hi, Z.of_nat (length lo)) /\
    Permutation l (lo ++ hi) /\
    Forall (fun x => comparator x p = true) lo /\
    Forall (fun x => comparator x p = false) hi.
Proof.
  unfold do_partition. rewrite length_app. simpl.
  destruct (partition_loop_correct (length l) p [] [] l) as (lo & hi & Hr & Hp & Hlo & Hhi);
    [done|constructor|constructor|].
  cbn [app length Nat.add] in Hr. change (Z.of_nat 0 - 1) with (-1) in Hr.
  change (Z.of_nat 0) with 0 in Hr.
  replace (length l + 1 - 1)%nat with (length l) by lia.
  replace (Z.of_nat (length l + 1) - 1) with (Z.of_nat (length l)) by lia.
  rewrite Hr. cbn [mbind result_bind]. rewrite Z.sub_add.
  assert (Hlen : length l = (length lo + length hi)%nat).
  { apply Permutation_length in Hp. by rewrite !length_app in Hp. }
  destruct hi as [|y hi].
  - exists lo, []. simpl in *. rewrite Hlen, Nat.add_0_r, swap_at_self by done. done.
  - exists lo, (hi ++ [y]). simpl in *.
    destruct (swap_at_split lo hi [] y p (Z.of_nat (length lo)) (Z.of_nat (length l)))
      as [-> _]; [done|lia|]. split; [done|]. split; [|split; [done|]].
    + rewrite Hp. by rewrite (Permutation_app_comm hi).
    + inversion Hhi; subst. apply Forall_app; split; [done|]. by constructor.
Qed.

Lemma do_quick_sort_correct fuel l :
  (length l < fuel)%nat ->
  exists l', do_quick_sort fuel l = Ok l' /\ Permutation l l' /\ StronglySorted not_after l'.
Proof.
  revert l. induction fuel as [|fuel IH]; intros l Hf; [lia|]. cbn [do_quick_sort].
  destruct (Nat.ltb_spec (length l) 2) as [H|H].
  { exists l. split; [done|]. split; [done|].
    destruct l as [|x [|y l]]; simpl in H; [constructor|repeat constructor|lia]. }
  destruct l as [|p l _] using rev_ind; [simpl in H; lia|]. rewrite length_app in Hf.
  destruct (do_partition_correct l p) as (lo & hi & -> & Hp & Hlo & Hhi).
  simpl in Hf. pose proof (Permutation_length Hp) as Hlen. rewrite length_app in Hlen.
  cbn [mbind result_bind]. rewrite Nat2Z.id, take_app_length.
  destruct (IH lo) as (lo' & -> & Hplo & Hslo); [lia|]. cbn [mbind result_bind].
  rewrite (proj2 (read_at_Ok _ _ p)) by (split; [lia|]; apply list_lookup_middle; lia).
  cbn [mbind result_bind]. rewrite drop_app_ge, Nat.sub_succ_l, Nat.sub_diag by lia.
  simpl. rewrite drop_0.
  destruct (IH hi) as (hi' & -> & Hphi & Hshi); [lia|]. cbn [mbind result_bind].
  eexists; split; [done|]. rewrite Hplo in Hlo. rewrite Hphi in Hhi. split.
  - rewrite Hp, Hplo, Hphi, <- app_assoc. apply Permutation_app_head.
    by rewrite (Permutation_app_comm hi').
  - rewrite Forall_forall in Hlo, Hhi. apply StronglySorted_app_2; [|done|].
    + intros a b Ha Hb. pose proof (not_after_total _ _ (Hlo a Ha)) as Hap.
      apply elem_of_cons in Hb as [->|Hb]; [done|]. transitivity p; [done|].
      by apply Hhi.
    + constructor; [done|]. apply Forall_forall. intros y Hy. by apply Hhi.
Qed.
End sorting.

Arguments StrictWeakOrder {A} comparator.

(** ** Properties *)

(** [lower_bound] terminates, reads only inside the array, and on an array ordered
    with respect to the key returns the position of an equivalent element, or, when
    there is none, the boundary between the smaller and the greater elements. *)
Theorem lower_bound_correct {A U} (lt_ka : U -> A -> bool) (lt_ak : A -> U -> bool)
    (l : list A) (key : U) :
  partitioned lt_ka lt_ak l key ->
  exists p, lower_bound lt_ka lt_ak l key = Ok p /\ lower_bound_spec lt_ka lt_ak l key p.
Proof. apply lower_bound_Ok. Qed.

Lemma lower_bound_correct_witness :
  lower_bound Z.ltb Z.ltb [1; 4; 9] 5 = Ok 2 /\
  lower_bound_spec Z.ltb Z.ltb [1; 4; 9] 5 2.
Proof.
  destruct (lower_bound_correct Z.ltb Z.ltb [1; 4; 9] 5) as (p & E & H).
  - apply (sorted_partitioned id). repeat constructor; simpl; lia.
  - split; [reflexivity|]. injection E as <-. exact H.
Defined.

(** [binary_search] decides membership: on an array ordered with respect to the key
    it returns an equivalent element's position, and [end] exactly when no element is
    equivalent to the key. *)
Theorem binary_search_correct {A U} (lt_ka : U -> A -> bool) (lt_ak : A -> U -> bool)
    (l : list A) (key : U) :
  partitioned lt_ka lt_ak l key ->
  exists p, binary_search lt_ka lt_ak l key = Ok p /\
    ((exists v, read_at l p = Ok v /\ lt_ka key v = false /\ lt_ak v key = false) \/
     (p = Z.of_nat (length l) /\
      forall v, v ∈ l -> lt_ka key v = true \/ lt_ak v key = true)).
Proof.
  intros Hp. destruct (lower_bound_Ok lt_ka lt_ak l key Hp) as (p & E & Hs).
  pose proof (lower_bound_spec_range _ _ _ _ _ Hs) as Hr.
  unfold binary_search. rewrite E. cbn [mbind result_bind].
  assert (Hnone : (forall j x, l !! j = Some x -> Z.of_nat j < p -> lt_ak x key = true) ->
                  (forall j x, l !! j = Some x -> p <= Z.of_nat j -> lt_ka key x = true) ->
                  forall v, v ∈ l -> lt_ka key v = true \/ lt_ak v key = true).
  { intros Hlo Hhi v [j Hj]%list_elem_of_lookup. destruct (decide (Z.of_nat j < p)).
    - right. by eapply Hlo.
    - left. eapply Hhi; [done|lia]. }
  destruct (Z.eqb_spec p (Z.of_nat (length l))) as [Heq|Hne].
  - eexists; split; [done|]. destruct Hs as [Hs|(_ & Hlo & Hhi)]; [by left|]. right.
    split; [done|]. by apply Hnone.
  - destruct (read_at_lt l p) as [v Hv]; [lia|]. rewrite Hv. cbn [mbind result_bind].
    eexists; split; [done|]. destruct Hs as [(v' & Hv' & H1 & H2)|(_ & Hlo & Hhi)].
    + rewrite Hv in Hv'. injection Hv' as <-. rewrite H1. left. eauto.
    + apply read_at_Ok in Hv as [Hp0 Hv]. rewrite (Hhi (Z.to_nat p) v) by (done || lia).
      right. split; [done|]. by apply Hnone.
Qed.

Lemma binary_search_correct_witness :
  partitioned Z.ltb Z.ltb [7] 8 /\ binary_search Z.ltb Z.ltb [7] 8 = Ok 1 /\
  forall v, v ∈ [7] -> (8 <? v) = true \/ (v <? 8) = true.
Proof.
  assert (H : partitioned Z.ltb Z.ltb [7] 8).
  { apply (sorted_partitioned id). repeat constructor. }
  destruct (binary_search_correct Z.ltb Z.ltb [7] 8 H) as (p & E & Hp).
  split; [exact H|]. split; [reflexivity|]. injection E as <-.
  destruct Hp as [(v & Hv & _)|[_ Hn]]; [discriminate Hv|exact Hn].
Defined.

(** Both sorts of the kernel are correct for any strict weak order: they terminate,
    never leave the array, return a permutation of it, and no element of the result
    compares below one before it. *)
Theorem sorts_correct {A} (comparator : A -> A -> bool) (l : list A) :
  StrictWeakOrder comparator ->
  (exists l', insertion_sort comparator l = Ok l' /\ Permutation l l' /\
              StronglySorted (not_after comparator) l') /\
  (exists l', quick_sort comparator l = Ok l' /\ Permutation l l' /\
              StronglySorted (not_after comparator) l').
Proof.
  intros HS. split; [by apply insertion_sort_Ok|].
  apply (do_quick_sort_correct comparator (S (length l)) l). lia.
Qed.

Lemma sorts_correct_witness :
  StrictWeakOrder Z.ltb /\ insertion_sort Z.ltb [3; 1; 2] = Ok [1; 2; 3] /\
  Permutation [3; 1; 2] [1; 2; 3].
Proof.
  assert (HS : StrictWeakOrder Z.ltb).
  { split; unfold not_after; intros; lia. }
  destruct (sorts_correct Z.ltb [3; 1; 2] HS) as [(l1 & E1 & P1 & _) _].
  split; [exact HS|]. split; [reflexivity|]. injection E1 as <-. exact P1.
Defined.
