(* ===== verification/BitArray.v ===== *)
(** Kernel/Common/DynamicBitArray.h: a growable array of bits packed into 64-bit units.
    The units are the elements of a [DynamicArray], whose [at] asserts its index. *)
From S2P Require Import Prelude Utilities.

(** ** Data *)

(** [Kernel/Common/DynamicBitArray.h:171-173] DynamicBitArray *)
Record bitarray := BitArray { m_bit_count : Z; m_bits : list Z }.

(** [Kernel/Common/DynamicBitArray.h:13-14] bits_per_unit *)
Definition bits_per_unit : Z := 64.

(** [Kernel/Common/DynamicArray.h:134-138] at *)
Definition unit_at (bits : list Z) (i : Z) : result Z :=
  _ ← ASSERT (i <? Z.of_nat (length bits)); read_at bits i.

(** [__builtin_ffsl]: one plus the index of the least significant set bit, 0 for 0. *)
Fixpoint ffs_from (n : nat) (i x : Z) : Z :=
  match n with
  | O => 0
  | S n => if Z.testbit x i then i + 1 else ffs_from n (i + 1) x
  end.
Definition ffsl (x : Z) : Z := ffs_from 64 0 x.

(** ** Operations *)

(** [Kernel/Common/DynamicBitArray.h:161-164] location_of_bit *)
Definition location_of_bit (bit : Z) : Z * Z := (bit / bits_per_unit, bit mod bits_per_unit).

(** [Kernel/Common/DynamicBitArray.h:166-169] bit_as_mask *)
Definition bit_as_mask (bit : Z) : Z := wrap64 (Z.shiftl 1 bit).

(** [Kernel/Common/DynamicBitArray.h:98-106] set_size *)
Definition set_size (b : bitarray) (bit_count : Z) : bitarray :=
  let units_needed := ceiling_divide bit_count bits_per_unit in
  let bits :=
    if Z.of_nat (length (m_bits b)) <? units_needed
    then m_bits b ++ replicate (Z.to_nat units_needed - length (m_bits b)) 0
    else m_bits b in
  BitArray bit_count bits.

(** [Kernel/Common/DynamicBitArray.h:18-21] DynamicBitArray(size_t) *)
Definition bitarray_make (initial_size : Z) : bitarray :=
  set_size (BitArray 0 []) initial_size.

(** [Kernel/Common/DynamicBitArray.h:37-49] one pass of find_bit over the units: [Some (Some i)] returns [i], [Some None]
    breaks out of the pass. *)
Fixpoint find_bit_pass (n : nat) (b : bitarray) (of_value : bool) (index_of_unit : Z)
  : result (option (option Z)) :=
  match n with
  | O => mret None
  | S n =>
    let bad_mask := if of_value then 0 else W64 - 1 in
    u ← unit_at (m_bits b) index_of_unit;
    if u =? bad_mask then find_bit_pass n b of_value (index_of_unit + 1)
    else
      let unit_value := if of_value then u else W64 - 1 - u in
      let target_bit := ffsl unit_value - 1 + index_of_unit * bits_per_unit in
      if target_bit >=? m_bit_count b then mret (Some None)
      else mret (Some (Some target_bit))
  end.

(** [Kernel/Common/DynamicBitArray.h:26-57] find_bit *)
Definition find_bit (b : bitarray) (of_value : bool) (hint : Z) : result (option Z) :=
  _ ← ASSERT (hint <? m_bit_count b);
  let start := hint / bits_per_unit in
  let end_ := ceiling_divide (m_bit_count b) bits_per_unit in
  first ← find_bit_pass (Z.to_nat (end_ - start)) b of_value start;
  match first with
  | Some (Some i) => mret (Some i)
  | _ =>
    second ← find_bit_pass (Z.to_nat start) b of_value 0;
    match second with
    | Some (Some i) => mret (Some i)
    | _ => mret None
    end
  end.

(** [Kernel/Common/DynamicBitArray.h:63-68] the loop of find_bit_starting_at_offset *)
Fixpoint find_bit_from (n : nat) (b : bitarray) (of_value : bool) (index : Z)
  : result (option Z) :=
  match n with
  | O => mret None
  | S n =>
    let loc := location_of_bit index in
    u ← unit_at (m_bits b) loc.1;
    if Z.land u (bit_as_mask loc.2) =? (if of_value then 1 else 0) then mret (Some index)
    else find_bit_from n b of_value (index + 1)
  end.

(** [Kernel/Common/DynamicBitArray.h:59-71] find_bit_starting_at_offset *)
Definition find_bit_starting_at_offset (b : bitarray) (of_value : bool) (offset : Z)
  : result (option Z) :=
  _ ← ASSERT (offset <? m_bit_count b);
  find_bit_from (Z.to_nat (m_bit_count b - offset)) b of_value offset.

(** [Kernel/Common/DynamicBitArray.h:139-146] bit_at *)
Definition bit_at (b : bitarray) (index : Z) : result bool :=
  let location := location_of_bit index in
  u ← unit_at (m_bits b) location.1;
  mret (negb (Z.land u (bit_as_mask location.2) =? 0)).

(** [Kernel/Common/DynamicBitArray.h:108-120] set_bit *)
Definition set_bit (b : bitarray) (index : Z) (to : bool) : result bitarray :=
  _ ← ASSERT (index <? m_bit_count b);
  let location := location_of_bit index in
  u ← unit_at (m_bits b) location.1;
  let u' :=
    if to then Z.lor u (bit_as_mask location.2)
    else Z.land u (W64 - 1 - bit_as_mask location.2) in
  bits ← write_at (m_bits b) location.1 u';
  mret (BitArray (m_bit_count b) bits).

(** [Kernel/Common/DynamicBitArray.h:78-93] the loop of find_range: [contiguous_bits] and [first_bit] as in the code,
    [first_bit = -1] when no run is open. *)
Fixpoint find_range_loop (n : nat) (b : bitarray) (length : Z) (of_value : bool)
    (i contiguous_bits first_bit : Z) : result (option Z) :=
  match n with
  | O => mret None
  | S n =>
    v ← bit_at b i;
    let is_suitable := Bool.eqb of_value v in
    let contiguous_bits' := if is_suitable then contiguous_bits + 1 else 0 in
    let first_bit' :=
      if is_suitable then (if first_bit =? -1 then i else first_bit) else -1 in
    if contiguous_bits' =? length then mret (Some (wrap64 first_bit'))
    else find_range_loop n b length of_value (i + 1) contiguous_bits' first_bit'
  end.

(** [Kernel/Common/DynamicBitArray.h:73-96] find_range *)
Definition find_range (b : bitarray) (length : Z) (of_value : bool) : result (option Z) :=
  find_range_loop (Z.to_nat (m_bit_count b)) b length of_value 0 0 (-1).

(** [Kernel/Common/DynamicBitArray.h:135-136] [set_bit] on [count] consecutive bits from [at_index], the i-th set to [f i]. *)
Fixpoint set_bits (count : nat) (b : bitarray) (at_index i : Z) (f : Z -> bool)
  : result bitarray :=
  match count with
  | O => mret b
  | S count =>
    b ← set_bit b (at_index + i) (f i);
    set_bits count b at_index (i + 1) f
  end.

(** [Kernel/Common/DynamicBitArray.h:122-129] set_range_to_number *)
Definition set_range_to_number (b : bitarray) (at_index count number : Z) : result bitarray :=
  _ ← ASSERT (at_index +! count <=? m_bit_count b);
  _ ← ASSERT ((count =? 64) || (number <=? wrap64 (Z.shiftl 1 count) -! 1));
  set_bits (Z.to_nat count) b at_index 0
    (fun i => negb (Z.shiftr (Z.land (wrap64 (Z.shiftl 1 i)) number) i =? 0)).

(** [Kernel/Common/DynamicBitArray.h:131-137] set_range_to *)
Definition set_range_to (b : bitarray) (at_index count : Z) (value : bool) : result bitarray :=
  _ ← ASSERT (at_index +! count <=? m_bit_count b);
  set_bits (Z.to_nat count) b at_index 0 (fun _ => value).

(** [Kernel/Common/DynamicBitArray.h:154-155] the loop of range_as_number *)
Fixpoint range_as_number_loop (n : nat) (b : bitarray) (index i number : Z) : result Z :=
  match n with
  | O => mret number
  | S n =>
    v ← bit_at b (index + i);
    range_as_number_loop n b index (i + 1)
      (Z.lor number (wrap64 (Z.shiftl (if (v : bool) then 1 else 0) i)))
  end.

(** [Kernel/Common/DynamicBitArray.h:148-158] range_as_number *)
Definition range_as_number (b : bitarray) (index length : Z) : result Z :=
  _ ← ASSERT (index +! length <=? m_bit_count b);
  range_as_number_loop (Z.to_nat length) b index 0 0.

(** ** The array as a bit sequence *)

(** Enough units for the bits, each a 64-bit word. *)
Definition wf_bits (b : bitarray) : Prop :=
  0 <= m_bit_count b < W64 /\
  m_bit_count b <= Z.of_nat (length (m_bits b)) * 64 /\
  Forall is_u64 (m_bits b).

(** Bit [i], read directly. *)
Definition bit (b : bitarray) (i : Z) : bool :=
  match m_bits b !! Z.to_nat (i / 64) with
  | Some u => Z.testbit u (i mod 64)
  | None => false
  end.

(** *** Words *)

Lemma bit_as_mask_pow2 k : 0 <= k < 64 -> bit_as_mask k = 2 ^ k.
Proof.
  intros Hk. unfold bit_as_mask. rewrite Z.shiftl_1_l. apply wrap64_small.
  split; [lia|]. apply (Z.pow_lt_mono_r 2 k 64); lia.
Qed.

Lemma land_mask_testbit u k :
  0 <= k < 64 -> (Z.land u (bit_as_mask k) =? 0) = negb (Z.testbit u k).
Proof.
  intros Hk. rewrite bit_as_mask_pow2 by done. destruct (Z.testbit u k) eqn:E; simpl.
  - apply Z.eqb_neq. intros H. apply (f_equal (fun z => Z.testbit z k)) in H.
    rewrite Z.land_spec, Z.pow2_bits_true, E, Z.bits_0 in H by lia. done.
  - apply Z.eqb_eq. apply Z.bits_inj'. intros n Hn. rewrite Z.land_spec, Z.bits_0.
    destruct (decide (n = k)) as [->|]; [by rewrite E|].
    rewrite Z.pow2_bits_false by lia. apply andb_false_r.
Qed.

Lemma testbit_u64_high u k : is_u64 u -> 64 <= k -> Z.testbit u k = false.
Proof.
  intros Hu Hk. rewrite <- (Z.mod_small u (2 ^ 64)) by done.
  apply Z.mod_pow2_bits_high. lia.
Qed.

Lemma testbits_u64 x : 0 <= x -> (forall k, 64 <= k -> Z.testbit x k = false) -> is_u64 x.
Proof.
  intros Hx H. assert (E : x = x mod 2 ^ 64).
  { apply Z.bits_inj'. intros n Hn. destruct (decide (n < 64)).
    - by rewrite Z.mod_pow2_bits_low.
    - rewrite Z.mod_pow2_bits_high by lia. apply H. lia. }
  rewrite E. by apply Z.mod_pos_bound.
Qed.

(** The complement of a word, bit by bit. *)
Lemma testbit_compl u k :
  is_u64 u -> 0 <= k < 64 -> Z.testbit (W64 - 1 - u) k = negb (Z.testbit u k).
Proof.
  intros Hu Hk. replace (W64 - 1 - u) with (Z.lnot u + 1 * 2 ^ 64) by (rewrite <- Z.opp_lnot; unfold Z.lnot; lia).
  rewrite <- Z.mod_pow2_bits_low with (n := 64) by lia.
  rewrite Z.mod_add by lia. rewrite Z.mod_pow2_bits_low by lia. apply Z.lnot_spec. lia.
Qed.

Lemma ffs_from_spec n i x :
  (ffs_from n i x = 0 /\ forall j, i <= j < i + Z.of_nat n -> Z.testbit x j = false) \/
  (exists k, ffs_from n i x = k + 1 /\ i <= k < i + Z.of_nat n /\ Z.testbit x k = true /\
     forall j, i <= j < k -> Z.testbit x j = false).
Proof.
  revert i. induction n as [|n IH]; intros i; simpl; [left; split; [done|lia]|].
  destruct (Z.testbit x i) eqn:E.
  - right. exists i. split_and!; try done; lia.
  - destruct (IH (i + 1)) as [(-> & H)|(k & -> & Hk & Ht & H)].
    + left. split; [done|]. intros j Hj. destruct (decide (j = i)) as [->|]; [done|].
      apply H. lia.
    + right. exists k. split_and!; try done; try lia. intros j Hj.
      destruct (decide (j = i)) as [->|]; [done|]. apply H. lia.
Qed.

(** [__builtin_ffsl] of a non-zero word finds its least significant set bit. *)
Lemma ffsl_spec x :
  is_u64 x -> x <> 0 ->
  exists k, ffsl x = k + 1 /\ 0 <= k < 64 /\ Z.testbit x k = true /\
    forall j, 0 <= j < k -> Z.testbit x j = false.
Proof.
  intros Hx Hn. destruct (ffs_from_spec 64 0 x) as [(_ & H)|H]; [|exact H].
  exfalso. apply Hn. apply Z.bits_inj'. intros n Hn'. rewrite Z.bits_0.
  destruct (decide (n < 64)); [apply H; lia|]. apply testbit_u64_high; [done|lia].
Qed.

(** *** Reading and writing one bit *)

Section bits.
Context (b : bitarray) (Hb : wf_bits b).

Lemma unit_exists i :
  0 <= i < m_bit_count b ->
  exists u, unit_at (m_bits b) (i / 64) = Ok u /\ m_bits b !! Z.to_nat (i / 64) = Some u /\
    is_u64 u /\ 0 <= i / 64 < Z.of_nat (length (m_bits b)).
Proof.
  intros Hi. destruct Hb as (Hc & Hl & Hf).
  assert (Hd : 0 <= i / 64 < Z.of_nat (length (m_bits b))) by dlia.
  destruct (read_at_lt (m_bits b) (i / 64) Hd) as [u Hu]. exists u. unfold unit_at.
  replace (i / 64 <? Z.of_nat (length (m_bits b))) with true by blia.
  rewrite Hu. split; [done|]. apply read_at_Ok in Hu as [_ Hu]. split; [done|].
  split; [|done]. rewrite Forall_forall in Hf. apply Hf.
  apply list_elem_of_lookup. eauto.
Qed.

Lemma bit_at_Ok i : 0 <= i < m_bit_count b -> bit_at b i = Ok (bit b i).
Proof.
  intros Hi. destruct (unit_exists i Hi) as (u & Hu & Hl & _).
  unfold bit_at, location_of_bit, bits_per_unit, bit. simpl. rewrite Hu, Hl. simpl.
  pose proof (Z.mod_pos_bound i 64).
  rewrite land_mask_testbit, negb_involutive by lia. done.
Qed.

Lemma set_bit_Ok i v :
  0 <= i < m_bit_count b ->
  exists b', set_bit b i v = Ok b' /\ wf_bits b' /\ m_bit_count b' = m_bit_count b /\
    forall j, 0 <= j -> bit b' j = if decide (j = i) then v else bit b j.
Proof.
  intros Hi. destruct (unit_exists i Hi) as (u & Hu & Hl & Hu64 & Hd).
  pose proof (Z.mod_pos_bound i 64) as Hm.
  unfold set_bit, location_of_bit, bits_per_unit. simpl.
  replace (i <? m_bit_count b) with true by blia. simpl. rewrite Hu. simpl.
  set (u' := if v then _ else _). unfold write_at. rewrite decide_True by done. simpl.
  eexists; split; [done|].
  assert (Hu' : forall k, 0 <= k < 64 ->
    Z.testbit u' k = if decide (k = i mod 64) then v else Z.testbit u k).
  { intros k Hk. unfold u'. rewrite bit_as_mask_pow2 by lia. destruct v.
    - rewrite Z.lor_spec. case_decide as E.
      + rewrite E, Z.pow2_bits_true by lia. apply orb_true_r.
      + rewrite Z.pow2_bits_false by lia. apply orb_false_r.
    - rewrite Z.land_spec, testbit_compl; [|split; [lia|]; apply (Z.pow_lt_mono_r 2 _ 64); lia|done].
      case_decide as E.
      + rewrite E, Z.pow2_bits_true by lia. apply andb_false_r.
      + rewrite Z.pow2_bits_false by lia. apply andb_true_r. }
  assert (Hu'64 : is_u64 u').
  { apply testbits_u64.
    - unfold u'. rewrite bit_as_mask_pow2 by lia. unfold is_u64 in *. destruct v.
      + apply Z.lor_nonneg. lia.
      + apply Z.land_nonneg. lia.
    - intros k Hk. unfold u'. rewrite bit_as_mask_pow2 by lia. destruct v.
      + rewrite Z.lor_spec, testbit_u64_high, Z.pow2_bits_false by (done || lia). done.
      + rewrite Z.land_spec, testbit_u64_high by done. done. }
  destruct Hb as (Hc & Hlen & Hf). split; [|split; [done|]].
  - split; [done|]. simpl. rewrite length_insert. split; [done|]. by apply Forall_insert.
  - intros j Hj. unfold bit. simpl. destruct (decide (j / 64 = i / 64)) as [E|E].
    + rewrite E, list_lookup_insert_eq, Hl by lia. rewrite Hu' by dlia.
      case_decide as E1; case_decide as E2; try done; dlia.
    + rewrite list_lookup_insert_ne by dlia. rewrite decide_False by (intros ->; lia).
      done.
Qed.
End bits.

Lemma bitarray_make_wf n :
  0 <= n < W64 -> wf_bits (bitarray_make n) /\ m_bit_count (bitarray_make n) = n /\
  forall i, bit (bitarray_make n) i = false.
Proof.
  intros Hn. unfold bitarray_make, set_size. simpl.
  pose proof (ceiling_divide_bounds n 64 ltac:(lia) ltac:(lia)) as Hc.
  unfold bits_per_unit in *. set (c := ceiling_divide n 64) in *.
  replace (if 0 <? c then _ else _) with (replicate (Z.to_nat c) 0).
  2:{ destruct (Z.ltb_spec 0 c); [by rewrite Nat.sub_0_r|].
      by replace (Z.to_nat c) with 0%nat by lia. }
  split_and!; try done; simpl.
  - split; [simpl; lia|]. simpl. rewrite length_replicate. split; [lia|].
    apply Forall_replicate. unfold is_u64. lia.
  - intros i. unfold bit. simpl. destruct (replicate _ _ !! _) as [u|] eqn:E; [|done].
    apply lookup_replicate in E as [-> _]. apply Z.bits_0.
Qed.

#[export] Hint Resolve bit_at_Ok set_bit_Ok : kernel.

(** *** Searching *)

(** One pass over the units [[start, start + n)]: a hit is a bit of that value, a pass
    without a hit proves there is none below the bit count. *)
Lemma find_bit_pass_correct n b v start :
  wf_bits b -> 0 <= start ->
  start + Z.of_nat n <= ceiling_divide (m_bit_count b) 64 ->
  exists r, find_bit_pass n b v start = Ok r /\
    match r with
    | Some (Some i) => 0 <= i < m_bit_count b /\ bit b i = v
    | _ => forall i, start * 64 <= i < (start + Z.of_nat n) * 64 -> i < m_bit_count b ->
             bit b i = negb v
    end.
Proof.
  intros Hb. pose proof Hb as (Hc & Hl & Hf).
  pose proof (ceiling_divide_bounds (m_bit_count b) 64 ltac:(lia) ltac:(lia)) as Hcd.
  revert start. induction n as [|n IH]; intros start Hs Hn; cbn [find_bit_pass].
  { eexists; split; [done|]. intros i; lia. }
  destruct (unit_exists b Hb (start * 64)) as (u & Hu & Hlk & Hu64 & Hd); [lia|].
  rewrite Z.div_mul in Hu, Hlk, Hd by lia. rewrite Hu. cbn [mbind result_bind].
  assert (Hbit : forall k, 0 <= k < 64 -> bit b (start * 64 + k) = Z.testbit u k).
  { intros k Hk. unfold bit.
    replace ((start * 64 + k) / 64) with start by dlia. rewrite Hlk.
    by replace ((start * 64 + k) mod 64) with k by dlia. }
  set (uv := if v then u else W64 - 1 - u).
  assert (Huv : is_u64 uv) by (unfold uv, is_u64 in *; destruct v; lia).
  assert (Htb : forall k, 0 <= k < 64 -> Z.testbit uv k = Bool.eqb v (Z.testbit u k)).
  { intros k Hk. unfold uv. destruct v; [by destruct (Z.testbit u k)|].
    rewrite testbit_compl by done. by destruct (Z.testbit u k). }
  assert (Hrest : forall m, (forall k, 0 <= k < m -> Z.testbit uv k = false) -> m <= 64 ->
    forall i, start * 64 <= i < start * 64 + m -> bit b i = negb v).
  { intros m Hm Hm' i Hi. specialize (Hm (i - start * 64)). rewrite Htb in Hm by lia.
    replace i with (start * 64 + (i - start * 64)) by lia. rewrite Hbit by lia.
    destruct v, (Z.testbit u (i - start * 64)); try done; specialize (Hm ltac:(lia)); done. }
  destruct (Z.eqb_spec u (if v then 0 else W64 - 1)) as [Ebad|Ebad].
  - destruct (IH (start + 1)) as (r & Hr & HP); [lia|lia|].
    exists r. split; [done|]. assert (uv = 0) as Huv0 by (unfold uv; destruct v; lia).
    assert (Hz : forall i, start * 64 <= i < start * 64 + 64 -> bit b i = negb v).
    { apply (Hrest 64); [|lia]. intros k _. rewrite Huv0. apply Z.bits_0. }
    destruct r as [[i|]|]; [done|..]; intros i Hi Hi'.
    + destruct (decide (i < start * 64 + 64)); [apply Hz; lia|apply HP; lia].
    + destruct (decide (i < start * 64 + 64)); [apply Hz; lia|apply HP; lia].
  - destruct (ffsl_spec uv) as (k & Hk & Hk64 & Ht & Hlow); [done| |].
    { unfold uv, is_u64 in *. destruct v; lia. }
    rewrite Hk. replace (k + 1 - 1 + start * bits_per_unit) with (start * 64 + k)
      by (unfold bits_per_unit; lia).
    rewrite Z.geb_leb. destruct (Z.leb_spec (m_bit_count b) (start * 64 + k)).
    + eexists; split; [done|]. intros i Hi Hi'. apply (Hrest k); [done|lia|lia].
    + eexists; split; [done|]. split; [lia|]. rewrite Hbit by lia.
      rewrite Htb in Ht by lia. destruct v, (Z.testbit u k); done.
Qed.

Lemma find_bit_Ok b v hint :
  wf_bits b -> 0 <= hint < m_bit_count b ->
  exists r, find_bit b v hint = Ok r /\
    match r with
    | Some i => 0 <= i < m_bit_count b /\ bit b i = v
    | None => forall i, 0 <= i < m_bit_count b -> bit b i = negb v
    end.
Proof.
  intros Hb Hh. pose proof Hb as (Hc & Hl & Hf).
  pose proof (ceiling_divide_bounds (m_bit_count b) 64 ltac:(lia) ltac:(lia)) as Hcd.
  unfold find_bit, bits_per_unit. replace (hint <? m_bit_count b) with true by blia.
  cbn [mbind result_bind ASSERT].
  assert (Hd : 0 <= hint / 64 < ceiling_divide (m_bit_count b) 64) by dlia.
  set (e := ceiling_divide (m_bit_count b) 64) in *. set (st := hint / 64) in *.
  destruct (find_bit_pass_correct (Z.to_nat (e - st)) b v st) as (r1 & -> & H1);
    [done|lia|unfold e in *; lia|].
  destruct (find_bit_pass_correct (Z.to_nat st) b v 0) as (r2 & -> & H2);
    [done|lia|unfold e in *; lia|].
  cbn [mbind result_bind].
  destruct r1 as [[i|]|]; [eexists; split; [done|]; exact H1|..];
    (destruct r2 as [[i|]|]; [eexists; split; [done|]; exact H2|..];
      eexists; (split; [done|]); intros i Hi;
      (destruct (decide (i < st * 64)); [apply H2; lia|apply H1; lia])).
Qed.

Lemma find_bit_from_false n b i :
  wf_bits b -> 0 <= i -> i + Z.of_nat n <= m_bit_count b ->
  exists r, find_bit_from n b false i = Ok r /\
    match r with
    | Some j => i <= j < i + Z.of_nat n /\ bit b j = false /\
                (forall k, i <= k < j -> bit b k = true)
    | None => forall k, i <= k < i + Z.of_nat n -> bit b k = true
    end.
Proof.
  intros Hb. revert i. induction n as [|n IH]; intros i Hi Hn; cbn [find_bit_from].
  { eexists; split; [done|]. intros k; lia. }
  destruct (unit_exists b Hb i) as (u & Hu & Hlk & _); [lia|].
  unfold location_of_bit, bits_per_unit. simpl. rewrite Hu. cbn [mbind result_bind].
  pose proof (Z.mod_pos_bound i 64) as Hm. rewrite land_mask_testbit by lia.
  assert (Hbi : bit b i = Z.testbit u (i mod 64)) by (unfold bit; by rewrite Hlk).
  rewrite <- Hbi. destruct (bit b i) eqn:E; simpl.
  - destruct (IH (i + 1)) as (r & -> & Hr); [lia..|]. exists r. split; [done|].
    destruct r as [j|].
    + destruct Hr as (? & ? & Hr). split; [lia|]. split; [done|]. intros k Hk.
      destruct (decide (k = i)) as [->|]; [done|]. apply Hr. lia.
    + intros k Hk. destruct (decide (k = i)) as [->|]; [done|]. apply Hr. lia.
  - eexists; split; [done|]. split; [lia|]. split; [done|]. intros k; lia.
Qed.

Lemma set_bits_Ok n b at_index i f :
  wf_bits b -> 0 <= at_index -> 0 <= i -> at_index + i + Z.of_nat n <= m_bit_count b ->
  exists b', set_bits n b at_index i f = Ok b' /\ wf_bits b' /\
    m_bit_count b' = m_bit_count b /\
    forall j, 0 <= j -> bit b' j =
      if decide (at_index + i <= j < at_index + i + Z.of_nat n) then f (j - at_index)
      else bit b j.
Proof.
  revert b i. induction n as [|n IH]; intros b i Hb Ha Hi Hn; cbn [set_bits].
  { eexists; split; [done|]. split; [done|]. split; [done|]. intros j Hj.
    rewrite decide_False by lia. done. }
  destruct (set_bit_Ok b Hb (at_index + i) (f i)) as (b1 & -> & Hb1 & Hc1 & Hbit1); [lia|].
  cbn [mbind result_bind].
  destruct (IH b1 (i + 1)) as (b2 & -> & Hb2 & Hc2 & Hbit2); [done|lia..|].
  eexists; split; [done|]. split; [done|]. split; [congruence|]. intros j Hj.
  rewrite Hbit2 by done. destruct (decide (j = at_index + i)) as [->|].
  - rewrite decide_False, decide_True by lia. rewrite Hbit1, decide_True by lia.
    f_equal. lia.
  - destruct (decide (at_index + (i + 1) <= j < _)).
    + by rewrite decide_True by lia.
    + rewrite decide_False by lia. by rewrite Hbit1, decide_False by lia.
Qed.

(** [length] bits equal to [v] from [s]. *)
Definition run_of (b : bitarray) (v : bool) (s length : Z) : Prop :=
  forall k, s <= k < s + length -> bit b k = v.

(** The state of [find_range]: an open run of [c] bits ends at [i] and cannot be extended
    to the left, and no run of the wanted length lies before [i]. *)
Definition run_open (b : bitarray) (v : bool) (len i c f : Z) : Prop :=
  0 <= c < len /\ (c = 0 -> f = -1) /\ (0 < c -> f = i - c /\ 0 <= f) /\
  run_of b v (i - c) c /\ (0 < i - c -> bit b (i - c - 1) = negb v) /\
  forall s, 0 <= s -> s + len <= i -> ~ run_of b v s len.

Lemma run_open_step b v len i c f :
  0 <= i -> run_open b v len i c f ->
  let fit := Bool.eqb v (bit b i) in
  let c' := if fit then c + 1 else 0 in
  let f' := if fit then (if f =? -1 then i else f) else -1 in
  (c' = len -> f' = i + 1 - len /\ 0 <= f' /\ run_of b v f' len) /\
  (c' <> len -> run_open b v len (i + 1) c' f').
Proof.
  intros Hi (Hc & Hf0 & Hf & Hrun & Hleft & Hno) fit c' f'.
  assert (Hfit : if fit then bit b i = v else bit b i = negb v).
  { unfold fit. destruct v, (bit b i); done. }
  destruct fit eqn:E; subst c' f'.
  - assert (Hf' : (if f =? -1 then i else f) = i - c).
    { destruct (Z.eqb_spec f (-1)).
      - destruct (decide (c = 0)); [lia|]. destruct (Hf ltac:(lia)); lia.
      - destruct (decide (c = 0)) as [H0|]; [specialize (Hf0 H0); lia|].
        destruct (Hf ltac:(lia)); lia. }
    assert (0 <= i - c) by (destruct (decide (c = 0)); [lia|]; destruct (Hf ltac:(lia)); lia).
    assert (Hrun' : run_of b v (i - c) (c + 1)).
    { intros k Hk. destruct (decide (k = i)) as [->|]; [done|]. apply Hrun. lia. }
    rewrite Hf'. split.
    + intros <-. split; [lia|]. split; [lia|]. done.
    + intros Hne. split; [lia|]. split; [lia|]. split; [lia|].
      replace (i + 1 - (c + 1)) with (i - c) by lia. split; [done|]. split; [done|].
      intros s Hs Hsl Hr. destruct (decide (s + len <= i)); [by apply (Hno s)|].
      destruct (decide (0 < i - c)) as [H0|]; [|lia].
      specialize (Hleft H0). rewrite Hr in Hleft by lia. by destruct v.
  - split; [lia|]. intros _. split; [lia|]. split; [done|]. split; [lia|].
    rewrite Z.sub_0_r. split; [intros k; lia|]. split.
    + intros _. by replace (i + 1 - 1) with i by lia.
    + intros s Hs Hsl Hr. destruct (decide (s + len <= i)); [by apply (Hno s)|].
      rewrite (Hr i) in Hfit by lia. by destruct v.
Qed.

Lemma find_range_loop_correct n b len v i c f :
  wf_bits b -> 0 <= i -> i + Z.of_nat n = m_bit_count b -> run_open b v len i c f ->
  exists r, find_range_loop n b len v i c f = Ok r /\
    match r with
    | Some s => 0 <= s /\ s + len <= m_bit_count b /\ run_of b v s len /\
                (forall s', 0 <= s' < s -> ~ run_of b v s' len)
    | None => forall s, 0 <= s -> s + len <= m_bit_count b -> ~ run_of b v s len
    end.
Proof.
  intros Hb. revert i c f. induction n as [|n IH]; intros i c f Hi Hn Hop.
  { simpl. eexists; split; [done|]. destruct Hop as (_ & _ & _ & _ & _ & Hno).
    intros s Hs Hsl. apply Hno; lia. }
  cbn [find_range_loop]. rewrite bit_at_Ok by (done || lia). cbn [mbind result_bind].
  destruct (run_open_step b v len i c f Hi Hop) as [Hdone Hmore]. cbv zeta in Hdone, Hmore.
  destruct Hop as (Hcl & _ & _ & _ & _ & Hno).
  destruct (Z.eqb_spec (if Bool.eqb v (bit b i) then c + 1 else 0) len) as [E|E].
  - specialize (Hdone E) as (Hf' & Hf0 & Hrun). destruct Hb as (Hc & _).
    eexists; split; [done|]. rewrite wrap64_small by (unfold is_u64; lia).
    split; [done|]. split; [lia|]. split; [done|]. intros s' Hs'. apply Hno; lia.
  - apply IH; [lia|lia|]. by apply Hmore.
Qed.

Lemma range_as_number_loop_correct n b index i number :
  wf_bits b -> 0 <= index -> 0 <= i -> i + Z.of_nat n <= 64 ->
  index + i + Z.of_nat n <= m_bit_count b -> 0 <= number < 2 ^ i ->
  exists x, range_as_number_loop n b index i number = Ok x /\ 0 <= x < 2 ^ (i + Z.of_nat n) /\
    forall k, 0 <= k -> Z.testbit x k =
      if decide (i <= k < i + Z.of_nat n) then bit b (index + k) else Z.testbit number k.
Proof.
  intros Hb Hx. revert i number. induction n as [|n IH]; intros i number Hi Hn Hc Hnum.
  { simpl. eexists; split; [done|]. rewrite Z.add_0_r. split; [lia|]. intros k Hk.
    by rewrite decide_False by lia. }
  cbn [range_as_number_loop]. rewrite bit_at_Ok by (done || lia). cbn [mbind result_bind].
  set (v := bit b (index + i)). set (m := wrap64 _).
  assert (Hm : m = if v then 2 ^ i else 0).
  { unfold m. destruct v; [apply (bit_as_mask_pow2 i); lia|]. by rewrite Z.shiftl_0_l. }
  assert (Hk : forall k, 0 <= k -> Z.testbit (Z.lor number m) k =
                 if decide (k = i) then v else Z.testbit number k).
  { intros k Hk0. rewrite Z.lor_spec, Hm. case_decide as E.
    - subst k. rewrite <- (Z.mod_small number (2 ^ i)) by lia.
      rewrite Z.mod_pow2_bits_high by lia. simpl. destruct v; [|apply Z.bits_0].
      by apply Z.pow2_bits_true.
    - destruct v; [|by rewrite Z.bits_0, orb_false_r].
      by rewrite Z.pow2_bits_false, orb_false_r by lia. }
  assert (Hor : Z.lor number m = number + m).
  { rewrite <- Z.add_lor_land. assert (Z.land number m = 0) as ->; [|lia].
    rewrite Hm. destruct v; [|apply Z.land_0_r].
    apply Z.bits_inj'. intros k Hk0. rewrite Z.land_spec, Z.bits_0.
    destruct (decide (k = i)) as [->|].
    - rewrite <- (Z.mod_small number (2 ^ i)) by lia.
      by rewrite Z.mod_pow2_bits_high by lia.
    - rewrite Z.pow2_bits_false by lia. apply andb_false_r. }
  destruct (IH (i + 1) (Z.lor number m)) as (x & -> & Hxr & Hbits); [lia|lia|lia| |].
  { rewrite Hor, Hm, Z.pow_add_r by lia. destruct v; lia. }
  eexists; split; [done|]. replace (i + Z.of_nat (S n)) with (i + 1 + Z.of_nat n) by lia.
  split; [done|]. intros k Hk0. rewrite Hbits by done.
  destruct (decide (k = i)) as [->|].
  - rewrite decide_False, decide_True by lia. rewrite Hk, decide_True by lia. done.
  - destruct (decide (i + 1 <= k < _)).
    + by rewrite decide_True by lia.
    + rewrite decide_False by lia. by rewrite Hk, decide_False by lia.
Qed.

(** ** Properties *)

(** A bit array behaves as a sequence of independent bits: every bit of a new array
    is clear, and after [set_bit(i, v)] bit [i] reads [v] and every other bit reads what
    it read before; neither operation faults inside the size. *)
Theorem bitarray_get_set (b : bitarray) (i j : Z) (v : bool) :
  wf_bits b -> 0 <= i < m_bit_count b -> 0 <= j < m_bit_count b ->
  exists b', set_bit b i v = Ok b' /\ wf_bits b' /\ m_bit_count b' = m_bit_count b /\
    bit_at b' j = if decide (j = i) then Ok v else bit_at b j.
Proof.
  intros Hb Hi Hj. destruct (set_bit_Ok b Hb i v Hi) as (b' & E & Hb' & Hc & Hbit).
  exists b'. split; [done|]. split; [done|]. split; [done|].
  rewrite !bit_at_Ok, Hbit by (done || lia). by case_decide.
Qed.

Lemma bitarray_get_set_witness :
  exists b', set_bit (bitarray_make 100) 70 true = Ok b' /\ bit_at b' 70 = Ok true /\
    bit_at b' 6 = Ok false.
Proof.
  destruct (bitarray_make_wf 100 ltac:(lia)) as (Hwf & Hc & _).
  destruct (bitarray_get_set (bitarray_make 100) 70 70 true Hwf ltac:(rewrite Hc; lia)
    ltac:(rewrite Hc; lia)) as (b' & E & _ & _ & H).
  exists b'. split; [exact E|]. split; [exact H|].
  vm_compute in E. injection E as <-. reflexivity.
Defined.

(** [find_bit] is exact from any hint: it returns an in-range bit of the wanted value
    whenever there is one, and nothing only when there is none. *)
Theorem find_bit_correct (b : bitarray) (of_value : bool) (hint : Z) :
  wf_bits b -> 0 <= hint < m_bit_count b ->
  exists r, find_bit b of_value hint = Ok r /\
    match r with
    | Some i => 0 <= i < m_bit_count b /\ bit b i = of_value
    | None => forall i, 0 <= i < m_bit_count b -> bit b i = negb of_value
    end.
Proof. apply find_bit_Ok. Qed.

Lemma find_bit_correct_witness :
  find_bit (bitarray_make 100) false 80 = Ok (Some 64) /\
  bit (bitarray_make 100) 64 = false.
Proof.
  destruct (bitarray_make_wf 100 ltac:(lia)) as (Hwf & Hc & _).
  destruct (find_bit_correct (bitarray_make 100) false 80 Hwf ltac:(rewrite Hc; lia))
    as (r & E & H).
  split; [reflexivity|]. vm_compute in E. injection E as <-. apply H.
Defined.

(** [find_range] of a non-zero length returns the first run of that many bits of the
    wanted value, and nothing only when no such run exists. *)
Theorem find_range_correct (b : bitarray) (length : Z) (of_value : bool) :
  wf_bits b -> 0 < length ->
  exists r, find_range b length of_value = Ok r /\
    match r with
    | Some s => 0 <= s /\ s + length <= m_bit_count b /\ run_of b of_value s length /\
                (forall s', 0 <= s' < s -> ~ run_of b of_value s' length)
    | None => forall s, 0 <= s -> s + length <= m_bit_count b -> ~ run_of b of_value s length
    end.
Proof.
  intros Hb Hl. pose proof Hb as (Hc & _). apply find_range_loop_correct; try done; try lia.
  split; [lia|]. split; [done|]. split; [lia|]. split; [intros k; lia|].
  split; [lia|]. intros s; lia.
Qed.

Lemma find_range_correct_witness :
  exists b', set_bit (bitarray_make 10) 1 true = Ok b' /\
    find_range b' 3 false = Ok (Some 2) /\ run_of b' false 2 3.
Proof.
  destruct (bitarray_make_wf 10 ltac:(lia)) as (Hwf & Hc & _).
  destruct (set_bit_Ok (bitarray_make 10) Hwf 1 true ltac:(rewrite Hc; lia))
    as (b' & E & Hb' & _).
  exists b'. split; [exact E|]. destruct (find_range_correct b' 3 false Hb' ltac:(lia)) as (r & Er & H).
  vm_compute in E. injection E as <-. split; [reflexivity|].
  vm_compute in Er. injection Er as <-. apply H.
Defined.

(** A number of at most 64 bits written with [set_range_to_number] and read back. *)
Lemma set_range_to_number_Ok b at_index count number :
  wf_bits b -> 0 <= at_index -> 0 <= count <= 64 -> at_index + count <= m_bit_count b ->
  0 <= number < 2 ^ count ->
  exists b', set_range_to_number b at_index count number = Ok b' /\ wf_bits b' /\
    m_bit_count b' = m_bit_count b /\
    forall j, 0 <= j -> bit b' j =
      if decide (at_index <= j < at_index + count) then Z.testbit number (j - at_index)
      else bit b j.
Proof.
  intros Hb Ha Hc Hr Hn. pose proof Hb as (Hcount & _). unfold set_range_to_number.
  rewrite (wrap64_small (at_index + count)) by (unfold is_u64; lia).
  replace (at_index + count <=? m_bit_count b) with true by blia. cbn [ASSERT mbind result_bind].
  assert (Hok : (count =? 64) || (number <=? wrap64 (Z.shiftl 1 count) -! 1) = true).
  { destruct (Z.eqb_spec count 64); [done|]. simpl. fold (bit_as_mask count).
    rewrite bit_as_mask_pow2 by lia.
    assert (2 ^ count <= 2 ^ 63) by (apply Z.pow_le_mono_r; lia).
    rewrite wrap64_small by (unfold is_u64; lia). apply Z.leb_le. lia. }
  rewrite Hok. cbn [ASSERT mbind result_bind].
  destruct (set_bits_Ok (Z.to_nat count) b at_index 0
    (fun i => negb (Z.shiftr (Z.land (wrap64 (Z.shiftl 1 i)) number) i =? 0)) Hb Ha)
    as (b' & E & Hb' & Hc' & Hbit); [lia..|].
  exists b'. split; [done|]. split; [done|]. split; [done|]. intros j Hj.
  rewrite Hbit by done. rewrite Z.add_0_r, Z2Nat.id by lia.
  case_decide as Hd; [|done]. set (k := j - at_index). assert (Hk : 0 <= k < 64) by lia.
  assert (Heq : (Z.shiftr (Z.land (wrap64 (Z.shiftl 1 k)) number) k =? 0)
          = (Z.land number (bit_as_mask k) =? 0)).
  { fold (bit_as_mask k). rewrite Z.land_comm, bit_as_mask_pow2 by done.
    rewrite Z.shiftr_land, <- (Z.shiftl_1_l k), Z.shiftr_shiftl_l, Z.sub_diag by lia.
    rewrite Z.shiftl_0_r, Z.shiftl_1_l, <- (bit_as_mask_pow2 k), land_mask_testbit by done.
    replace (Z.testbit number k) with (Z.testbit (Z.shiftr number k) 0)
      by (rewrite Z.shiftr_spec by lia; done).
    destruct (Z.testbit (Z.shiftr number k) 0) eqn:E0.
    - apply Z.eqb_neq. intros H. apply (f_equal (fun z => Z.testbit z 0)) in H.
      by rewrite Z.land_spec, E0 in H.
    - apply Z.eqb_eq. apply Z.bits_inj'. intros n Hn0. rewrite Z.land_spec, Z.bits_0.
      destruct (decide (n = 0)) as [->|]; [by rewrite E0|].
      rewrite (Z.bits_above_log2 1 n) by (simpl; lia). apply andb_false_r. }
  rewrite Heq, land_mask_testbit, negb_involutive by done. done.
Qed.

(** [range_as_number] reads back the number [set_range_to_number] wrote, for any
    width up to a whole unit and any alignment, also across unit boundaries. *)
Theorem bitarray_number_roundtrip (b : bitarray) (at_index count number : Z) :
  wf_bits b -> 0 <= at_index -> 0 <= count <= 64 -> at_index + count <= m_bit_count b ->
  0 <= number < 2 ^ count ->
  exists b', set_range_to_number b at_index count number = Ok b' /\
    range_as_number b' at_index count = Ok number.
Proof.
  intros Hb Ha Hc Hr Hn. pose proof Hb as (Hcount & _).
  destruct (set_range_to_number_Ok b at_index count number) as (b' & E & Hb' & Hc' & Hbit);
    try done.
  exists b'. split; [done|]. unfold range_as_number.
  rewrite (wrap64_small (at_index + count)) by (unfold is_u64; lia).
  replace (at_index + count <=? m_bit_count b') with true by blia. cbn [ASSERT mbind result_bind].
  destruct (range_as_number_loop_correct (Z.to_nat count) b' at_index 0 0)
    as (x & -> & Hx & Hbits); [done|lia..|simpl; lia|]. f_equal.
  apply Z.bits_inj'. intros n Hn0. rewrite Hbits by done. rewrite Z2Nat.id, Z.bits_0 by lia.
  case_decide as Hd.
  - rewrite Hbit, decide_True by lia. f_equal. lia.
  - rewrite <- (Z.mod_small number (2 ^ count)) by lia.
    by rewrite Z.mod_pow2_bits_high by lia.
Qed.

Lemma bitarray_number_roundtrip_witness :
  exists b', set_range_to_number (bitarray_make 128) 60 10 777 = Ok b' /\
    range_as_number b' 60 10 = Ok 777.
Proof.
  destruct (bitarray_make_wf 128 ltac:(lia)) as (Hwf & Hc & _).
  apply (bitarray_number_roundtrip (bitarray_make 128) 60 10 777 Hwf);
    rewrite ?Hc; try lia.
Defined.
