(* ===== verification/DynamicArray.v ===== *)
(** Kernel/Common/DynamicArray.h: the growable array every kernel component stores its
    lists in.  The buffer is raw storage: a slot holds a constructed element or nothing,
    and reading, moving from or destroying an empty slot is undefined. *)
From S2P Require Import Prelude.

(** [Kernel/Common/DynamicArray.h:247-250] m_data, m_size and m_capacity *)
Record dynamic_array (A : Type) := DynamicArray {
  m_data : list (option A);
  m_size : Z;
  m_capacity : Z;
}.
Arguments DynamicArray {A} _ _ _.
Arguments m_data {A} _.
Arguments m_size {A} _.
Arguments m_capacity {A} _.

Section array.
Context {A : Type}.
Implicit Types (d : dynamic_array A) (x : A).

(** A constructed element of the buffer. *)
Definition element_of (data : list (option A)) (i : Z) : result A :=
  slot ← read_at data i;
  match slot with Some x => Ok x | None => Fault OutOfBounds end.

(** ** Operations *)

(** [Kernel/Common/DynamicArray.h:15-15] DynamicArray() *)
Definition array_make : dynamic_array A := DynamicArray [] 0 0.

(** [Kernel/Common/DynamicArray.h:137-141] at, which is operator[] *)
Definition array_at d (i : Z) : result A :=
  _ ← ASSERT (i <? m_size d);
  element_of (m_data d) i.

(** [Kernel/Common/DynamicArray.h:152-156] first *)
Definition array_first d : result A :=
  _ ← ASSERT (negb (m_size d =? 0));
  element_of (m_data d) 0.

(** [Kernel/Common/DynamicArray.h:158-162] last *)
Definition array_last d : result A :=
  _ ← ASSERT (negb (m_size d =? 0));
  element_of (m_data d) (m_size d - 1).

(** [Kernel/Common/DynamicArray.h:171-176] constructing elements from those of another buffer, by a move or by a copy *)
Fixpoint copy_elements (count : nat) (i : Z) (other : dynamic_array A) (data : list (option A))
  : result (list (option A)) :=
  match count with
  | O => mret data
  | S count =>
      x ← array_at other i;
      data ← write_at data i (Some x);
      copy_elements count (i + 1) other data
  end.

(** [Kernel/Common/DynamicArray.h:164-182] reserve *)
Definition array_reserve d (count : Z) : result (dynamic_array A) :=
  if (count =? 0) || (count <=? m_capacity d) then mret d
  else
    new_buffer ← copy_elements (Z.to_nat (m_size d)) 0 d (replicate (Z.to_nat count) None);
    mret (DynamicArray new_buffer (m_size d) count).

(** [Kernel/Common/DynamicArray.h:226-232] ensure_space *)
Definition ensure_space d : result (dynamic_array A) :=
  if negb (m_size d =? m_capacity d) then mret d
  else array_reserve d (m_capacity d +! Z.max (m_capacity d / 2) 2).

(** [Kernel/Common/DynamicArray.h:103-123] append and emplace *)
Definition array_append d x : result (dynamic_array A) :=
  d ← ensure_space d;
  data ← write_at (m_data d) (m_size d) (Some x);
  mret (DynamicArray data (m_size d +! 1) (m_capacity d)).

(** [Kernel/Common/DynamicArray.h:191-192] constructing default elements *)
Fixpoint construct_default (count : nat) (i : Z) (default : A) (data : list (option A))
  : result (list (option A)) :=
  match count with
  | O => mret data
  | S count =>
      data ← write_at data i (Some default);
      construct_default count (i + 1) default data
  end.

(** [Kernel/Common/DynamicArray.h:184-195] expand_to *)
Definition array_expand_to d (count : Z) (default : A) : result (dynamic_array A) :=
  if count <=? m_size d then mret d
  else
    d ← array_reserve d count;
    data ← construct_default (Z.to_nat (count - m_size d)) (m_size d) default (m_data d);
    mret (DynamicArray data count (m_capacity d)).

(** [Kernel/Common/DynamicArray.h:236-238] moving each element one index before *)
Fixpoint shift_down (count : nat) (i : Z) (data : list (option A)) : result (list (option A)) :=
  match count with
  | O => mret data
  | S count =>
      x ← element_of data (i + 1);
      data ← write_at data i (Some x);
      shift_down count (i + 1) data
  end.

(** [Kernel/Common/DynamicArray.h:204-245] erase_at and erase_at_unchecked *)
Definition array_erase_at d (i : Z) : result (dynamic_array A) :=
  _ ← ASSERT (i <? m_size d);
  data ← shift_down (Z.to_nat (m_size d - 1 - i)) i (m_data d);
  data ← write_at data (m_size d - 1) None;
  mret (DynamicArray data (m_size d - 1) (m_capacity d)).

(** [Kernel/Common/DynamicArray.h:213-214] destroying a run of elements *)
Fixpoint destroy (count : nat) (i : Z) (data : list (option A)) : result (list (option A)) :=
  match count with
  | O => mret data
  | S count =>
      _ ← element_of data i;
      data ← write_at data i None;
      destroy count (i + 1) data
  end.

(** [Kernel/Common/DynamicArray.h:211-217] clear *)
Definition array_clear d : result (dynamic_array A) :=
  data ← destroy (Z.to_nat (m_size d)) 0 (m_data d);
  mret (DynamicArray data 0 (m_capacity d)).

(** [Kernel/Common/DynamicArray.h:30-41] DynamicArray(const DynamicArray&) *)
Definition array_copy (arr : dynamic_array A) : result (dynamic_array A) :=
  if m_size arr =? 0 then mret array_make
  else
    d ← array_reserve array_make (m_size arr);
    data ← copy_elements (Z.to_nat (m_size arr)) 0 arr (m_data d);
    mret (DynamicArray data (m_size arr) (m_capacity d)).

(** [Kernel/Common/DynamicArray.h:79-80] assigning over constructed elements *)
Fixpoint assign_elements (count : nat) (i : Z) (other : dynamic_array A) (data : list (option A))
  : result (list (option A)) :=
  match count with
  | O => mret data
  | S count =>
      x ← array_at other i;
      _ ← element_of data i;
      data ← write_at data i (Some x);
      assign_elements count (i + 1) other data
  end.

(** [Kernel/Common/DynamicArray.h:50-89] operator=(const DynamicArray&) on another array *)
Definition array_assign d (other : dynamic_array A) : result (dynamic_array A) :=
  if m_size other =? 0 then array_clear d
  else if m_capacity d <? m_size other then
    d ← array_clear d;
    d ← array_reserve d (m_size other);
    data ← copy_elements (Z.to_nat (m_size other)) 0 other (m_data d);
    mret (DynamicArray data (m_size other) (m_capacity d))
  else
    let count_to_replace := Z.min (m_size d) (m_size other) in
    let count_to_construct := m_size other - count_to_replace in
    let count_to_destroy := if m_size other <? m_size d then m_size d - m_size other else 0 in
    let i := 0 in
    data ← assign_elements (Z.to_nat count_to_replace) i other (m_data d);
    let i := Z.max i count_to_replace in
    data ← copy_elements (Z.to_nat (count_to_construct - i)) i other data;
    let i := Z.max i count_to_construct in
    data ← destroy (Z.to_nat (count_to_destroy - i)) i data;
    mret (DynamicArray data (m_size other) (m_capacity d)).

(** ** Specification *)

(** The array holds the list [l]: the first slots are its elements, the rest are raw. *)
Definition holds d (l : list A) : Prop :=
  m_size d = Z.of_nat (length l) /\ m_capacity d = Z.of_nat (length (m_data d)) /\
  m_capacity d < 2 ^ 62 /\
  exists n, m_data d = (Some <$> l) ++ replicate n None.

Lemma holds_lookup d l i x : holds d l -> l !! i = Some x -> m_data d !! i = Some (Some x).
Proof.
  intros (_ & _ & _ & n & ->) Hi. rewrite lookup_app_l, list_lookup_fmap, Hi; [done|].
  rewrite length_fmap. by apply lookup_lt_Some in Hi.
Qed.

Lemma element_Ok d l i x : holds d l -> l !! i = Some x -> element_of (m_data d) (Z.of_nat i) = Ok x.
Proof.
  intros Hd Hi. unfold element_of.
  rewrite (proj2 (read_at_Ok _ _ (Some x))); [done|]. split; [lia|]. rewrite Nat2Z.id. by eapply holds_lookup.
Qed.

Lemma array_at_Ok d l i x : holds d l -> l !! i = Some x -> array_at d (Z.of_nat i) = Ok x.
Proof.
  intros Hd Hi. unfold array_at. destruct Hd as (Hs & Hd). rewrite Hs.
  pose proof (lookup_lt_Some _ _ _ Hi). replace (_ <? _) with true by lia. run.
  by eapply (element_Ok d l).
Qed.

Lemma write_snoc (data : list (option A)) i v :
  write_at data (Z.of_nat i) v = if decide (i < length data)%nat then Ok (<[i := v]> data) else Fault OutOfBounds.
Proof. unfold write_at. rewrite Nat2Z.id. repeat case_decide; (done || lia). Qed.

(** Filling the slots after a constructed prefix. *)
Lemma insert_after (l : list A) x n :
  <[length l := Some x]> ((Some <$> l) ++ replicate (S n) None) = (Some <$> (l ++ [x])) ++ replicate n None.
Proof.
  rewrite insert_app_r_alt by by rewrite length_fmap. rewrite length_fmap, Nat.sub_diag. simpl.
  by rewrite fmap_app, <- app_assoc.
Qed.

Lemma copy_elements_Ok other lo c k n :
  holds other lo -> (k + c <= length lo)%nat -> (c <= n)%nat ->
  copy_elements c (Z.of_nat k) other ((Some <$> take k lo) ++ replicate n None) =
    Ok ((Some <$> take (k + c) lo) ++ replicate (n - c) None).
Proof.
  intros Ho. revert k n. induction c as [|c IH]; intros k n Hk Hn.
  { simpl. by rewrite Nat.add_0_r, Nat.sub_0_r. }
  destruct n as [|n]; [lia|]. cbn [copy_elements].
  destruct (lookup_lt_is_Some_2 lo k) as [x Hx]; [lia|]. rewrite (array_at_Ok other lo k x Ho Hx). run.
  rewrite write_snoc, decide_True.
  2:{ rewrite length_app, length_fmap, length_replicate, length_take. lia. }
  run. replace k with (length (take k lo)) at 2 by (rewrite length_take; lia).
  rewrite insert_after, <- (take_S_r _ _ _ Hx).
  replace (Z.of_nat k + 1) with (Z.of_nat (S k)) by lia. rewrite IH by lia.
  do 4 f_equal. lia.
Qed.

Lemma construct_default_Ok (dflt : A) c l n :
  (c <= n)%nat ->
  construct_default c (Z.of_nat (length l)) dflt ((Some <$> l) ++ replicate n None) =
    Ok ((Some <$> (l ++ replicate c dflt)) ++ replicate (n - c) None).
Proof.
  revert l n. induction c as [|c IH]; intros l n Hn.
  { simpl. by rewrite app_nil_r, Nat.sub_0_r. }
  destruct n as [|n]; [lia|]. cbn [construct_default].
  rewrite write_snoc, decide_True by (rewrite length_app, length_fmap, length_replicate; lia). run.
  rewrite insert_after.
  replace (Z.of_nat (length l) + 1) with (Z.of_nat (length (l ++ [dflt]))) by (rewrite length_app; simpl; lia).
  rewrite IH by lia. by rewrite <- app_assoc.
Qed.

(** Destroying the last elements. *)
Lemma destroy_Ok c (l1 l2 : list A) n :
  length l2 = c ->
  destroy c (Z.of_nat (length l1)) ((Some <$> l1 ++ l2) ++ replicate n None) =
    Ok ((Some <$> l1) ++ replicate (c + n) None).
Proof.
  intros Hc. cut (forall l2 k, length l2 = c ->
    destroy c (Z.of_nat (length l1 + k)) ((Some <$> l1) ++ replicate k None ++ (Some <$> l2) ++ replicate n None) =
    Ok ((Some <$> l1) ++ replicate (k + c + n) None)).
  { intros H. specialize (H l2 0%nat Hc). rewrite Nat.add_0_r in H. simpl in H.
    by rewrite fmap_app, <- app_assoc. }
  clear l2 Hc. induction c as [|c IH]; intros l2 k Hc.
  { destruct l2; [|done]. simpl. rewrite <- replicate_add, Nat.add_0_r. done. }
  destruct l2 as [|x l2]; [done|]. cbn [destroy].
  assert (Hlk : ((Some <$> l1) ++ replicate k None ++ (Some <$> x :: l2) ++ replicate n None) !! (length l1 + k)%nat = Some (Some x)).
  { rewrite lookup_app_r by (rewrite length_fmap; lia). rewrite length_fmap.
    rewrite lookup_app_r by (rewrite length_replicate; lia). rewrite length_replicate.
    by replace (length l1 + k - length l1 - k)%nat with 0%nat by lia. }
  unfold element_of. rewrite (proj2 (read_at_Ok _ _ (Some x))) by (split; [lia|by rewrite Nat2Z.id]). run.
  rewrite write_snoc, decide_True by by apply lookup_lt_Some in Hlk. run.
  rewrite insert_app_r_alt by (rewrite length_fmap; lia). rewrite length_fmap.
  rewrite insert_app_r_alt by (rewrite length_replicate; lia). rewrite length_replicate.
  replace (length l1 + k - length l1 - k)%nat with 0%nat by lia. cbn [fmap list_fmap app insert list_insert].
  replace (Z.of_nat (length l1 + k) + 1) with (Z.of_nat (length l1 + S k)) by lia.
  injection Hc as Hc. specialize (IH l2 (S k) Hc).
  rewrite replicate_S_end, <- app_assoc in IH. cbn [app] in IH. rewrite IH. do 3 f_equal. lia.
Qed.

Lemma last_cons_default (l : list A) x y : List.last (y :: l) x = List.last l y.
Proof.
  revert x y. induction l as [|z l IH]; intros x y; [done|].
  change (List.last (z :: l) x = List.last (z :: l) y). by rewrite !IH.
Qed.

(** Moving the elements after a position one slot down. *)
Lemma shift_down_Ok c (l1 : list A) x l2 n :
  length l2 = c ->
  shift_down c (Z.of_nat (length l1)) ((Some <$> l1 ++ x :: l2) ++ replicate n None) =
    Ok ((Some <$> l1 ++ l2 ++ [List.last l2 x]) ++ replicate n None).
Proof.
  revert l1 x l2. induction c as [|c IH]; intros l1 x l2 Hc; [by destruct l2|].
  destruct l2 as [|y l2]; [done|]. injection Hc as Hc. cbn [shift_down].
  assert (Hlk : ((Some <$> l1 ++ x :: y :: l2) ++ replicate n None) !! S (length l1) = Some (Some y)).
  { rewrite lookup_app_l by (rewrite length_fmap, length_app; simpl; lia).
    rewrite list_lookup_fmap, lookup_app_r by lia. by replace (S (length l1) - length l1)%nat with 1%nat by lia. }
  replace (Z.of_nat (length l1) + 1) with (Z.of_nat (S (length l1))) by lia.
  unfold element_of. rewrite (proj2 (read_at_Ok _ _ (Some y))) by (split; [lia|by rewrite Nat2Z.id]). run.
  rewrite write_snoc, decide_True.
  2:{ apply lookup_lt_Some in Hlk. lia. }
  run. rewrite insert_app_l by (rewrite length_fmap, length_app; simpl; lia).
  rewrite <- list_fmap_insert. rewrite insert_app_r_alt, Nat.sub_diag by lia. cbn [insert list_insert].
  specialize (IH (l1 ++ [y]) y l2 Hc). rewrite length_app, Nat.add_1_r, <- !app_assoc in IH. cbn [app] in IH.
  rewrite IH. by rewrite last_cons_default.
Qed.
(** ** The operations on the list held *)

Lemma array_reserve_Ok d l count :
  holds d l -> 0 <= count < 2 ^ 62 ->
  exists d', array_reserve d count = Ok d' /\ holds d' l /\ count <= m_capacity d' /\
    m_capacity d <= m_capacity d'.
Proof.
  intros Hd Hc. unfold array_reserve. destruct ((count =? 0) || (count <=? m_capacity d)) eqn:E.
  { exists d. split; [done|]. split; [done|]. destruct Hd as (_ & ? & _ & _). lia. }
  apply orb_false_iff in E as [_ E]. bool_to_prop. pose proof Hd as (Hs & Hcap & _ & n & Hdata).
  assert (Hl : (length l <= Z.to_nat count)%nat).
  { rewrite Hcap, Hdata, length_app, length_fmap in E. lia. }
  rewrite Hs, Nat2Z.id.
  pose proof (copy_elements_Ok d l (length l) 0 (Z.to_nat count) Hd ltac:(lia) Hl) as H.
  rewrite take_0 in H. cbn [fmap list_fmap app] in H. change (Z.of_nat 0) with 0 in H. rewrite H. run.
  rewrite Nat.add_0_l, firstn_all. eexists; split; [done|]. split; [|cbn [m_capacity]; lia].
  split_and!; cbn [m_size m_capacity m_data]; [done| |lia|by eexists].
  rewrite length_app, length_fmap, length_replicate. lia.
Qed.

Lemma append_Ok d l x :
  holds d l -> m_capacity d < 2 ^ 60 ->
  exists d', array_append d x = Ok d' /\ holds d' (l ++ [x]) /\ m_capacity d' <= 2 * m_capacity d + 2.
Proof.
  intros Hd Hc. unfold array_append, ensure_space.
  assert (Hcap0 : 0 <= m_capacity d) by (destruct Hd as (_ & ? & _); lia).
  assert (H : exists d', (if negb (m_size d =? m_capacity d) then mret d
      else array_reserve d (m_capacity d +! Z.max (m_capacity d / 2) 2)) = Ok d' /\ holds d' l /\
      m_size d' < m_capacity d' /\ m_capacity d' <= 2 * m_capacity d + 2).
  { destruct (Z.eqb_spec (m_size d) (m_capacity d)) as [E|E]; cbn [negb].
    - rewrite wrap64_small by (unfold is_u64; dlia).
      destruct (array_reserve_Ok d l (m_capacity d + Z.max (m_capacity d / 2) 2) Hd ltac:(dlia)) as (d' & Er & Hd' & H1 & H2).
      exists d'. split; [done|]. split; [done|]. destruct Hd as (Hs & _). destruct Hd' as (Hs' & _).
      unfold array_reserve in Er. rewrite Hs', <- Hs, E. split; [dlia|].
      destruct (_ || _) eqn:Eb in Er; [apply orb_true_iff in Eb; bool_to_prop; dlia|].
      apply bind_Ok in Er as (b & _ & Er). injection Er as <-. cbn [m_capacity]. dlia.
    - exists d. split; [done|]. split; [done|]. destruct Hd as (Hs & Hcap & _ & n & Hdata).
      rewrite Hdata, length_app, length_fmap in Hcap. lia. }
  destruct H as (d' & -> & Hd' & Hlt & Hle). run. destruct Hd' as (Hs & Hcap & Hmax & n & Hdata).
  rewrite Hs, write_snoc, decide_True by lia. run. eexists; split; [done|]. split; [|exact Hle].
  destruct n as [|n].
  { rewrite Hdata, app_nil_r, length_fmap in Hcap. lia. }
  split_and!; cbn [m_size m_capacity m_data].
  - rewrite wrap64_small by (unfold is_u64; lia). rewrite length_app. simpl. lia.
  - by rewrite length_insert.
  - done.
  - exists n. by rewrite Hdata, insert_after.
Qed.

Lemma expand_to_Ok d l count dflt :
  holds d l -> 0 <= count < 2 ^ 62 ->
  exists d', array_expand_to d count dflt = Ok d' /\
    holds d' (l ++ replicate (Z.to_nat count - length l) dflt).
Proof.
  intros Hd Hc. unfold array_expand_to. destruct (Z.leb_spec count (m_size d)) as [E|E].
  { exists d. split; [done|]. destruct Hd as (Hs & Hd).
    replace (Z.to_nat count - length l)%nat with 0%nat by lia. by rewrite app_nil_r. }
  destruct (array_reserve_Ok d l count Hd Hc) as (d' & -> & Hd' & H1 & _). run.
  destruct Hd as (Hs & _). destruct Hd' as (Hs' & Hcap & Hmax & n & Hdata).
  assert (Hn : (Z.to_nat count - length l <= n)%nat).
  { rewrite Hcap, Hdata, length_app, length_fmap, length_replicate in H1. lia. }
  rewrite Hs', Hdata. replace (Z.to_nat (count - Z.of_nat (length l))) with (Z.to_nat count - length l)%nat by lia.
  rewrite construct_default_Ok by done. run. eexists; split; [done|].
  split_and!; cbn [m_size m_capacity m_data]; [| |done|by eexists].
  - rewrite length_app, length_replicate. lia.
  - rewrite Hcap, Hdata, !length_app, !length_fmap, length_app, !length_replicate. lia.
Qed.

Lemma erase_at_Ok d l1 x l2 :
  holds d (l1 ++ x :: l2) ->
  exists d', array_erase_at d (Z.of_nat (length l1)) = Ok d' /\ holds d' (l1 ++ l2).
Proof.
  intros (Hs & Hcap & Hmax & n & Hdata). unfold array_erase_at. rewrite Hs, length_app. simpl length.
  rewrite (proj2 (Z.ltb_lt _ _)) by lia. run.
  replace (Z.to_nat (Z.of_nat (length l1 + S (length l2)) - 1 - Z.of_nat (length l1))) with (length l2) by lia.
  rewrite Hdata, shift_down_Ok by done. run.
  replace (Z.of_nat (length l1 + S (length l2)) - 1) with (Z.of_nat (length (l1 ++ l2))) by (rewrite length_app; lia).
  rewrite write_snoc, decide_True by (rewrite !length_app, length_fmap, !length_app; simpl; lia). run.
  eexists; split; [done|]. split_and!; cbn [m_size m_capacity m_data]; [done| |done|].
  - rewrite length_insert. rewrite Hcap, Hdata, !length_app, !length_fmap, !length_app. simpl. lia.
  - exists (S n). rewrite app_assoc, fmap_app, <- app_assoc. cbn [fmap list_fmap app].
    rewrite insert_app_r_alt by by rewrite length_fmap. by rewrite length_fmap, Nat.sub_diag.
Qed.

Lemma array_clear_Ok d l : holds d l -> exists d', array_clear d = Ok d' /\ holds d' [] /\ m_capacity d' = m_capacity d.
Proof.
  intros (Hs & Hcap & Hmax & n & Hdata). unfold array_clear. rewrite Hs, Nat2Z.id, Hdata.
  pose proof (destroy_Ok (length l) [] l n eq_refl) as H. cbn [length app fmap list_fmap] in H.
  change (Z.of_nat 0) with 0 in H. rewrite H. run. eexists; split; [done|].
  split; [|done]. split_and!; cbn [m_size m_capacity m_data]; [done| |done|by eexists].
  rewrite Hcap, Hdata, length_app, length_fmap, !length_replicate. lia.
Qed.

Lemma make_holds : holds array_make [].
Proof. split_and!; try done. by exists 0%nat. Qed.

Lemma copy_into_Ok d other lo :
  holds d [] -> holds other lo -> (length lo <= length (m_data d))%nat ->
  exists data, copy_elements (length lo) 0 other (m_data d) = Ok data /\
    holds (DynamicArray data (m_size other) (m_capacity d)) lo.
Proof.
  intros (Hs & Hcap & Hmax & n & Hdata) Ho Hlen. cbn [fmap list_fmap app] in Hdata.
  rewrite Hdata, length_replicate in Hlen.
  pose proof (copy_elements_Ok other lo (length lo) 0 n Ho ltac:(lia) Hlen) as H.
  rewrite take_0 in H. cbn [fmap list_fmap app] in H. change (Z.of_nat 0) with 0 in H. rewrite Hdata, H.
  rewrite Nat.add_0_l, firstn_all. eexists; split; [done|]. destruct Ho as (Hs' & _).
  split_and!; cbn [m_size m_capacity m_data]; [done| |done|by eexists].
  rewrite Hcap, Hdata, length_app, length_fmap, !length_replicate. lia.
Qed.

(** ** Refinement *)

(** The operations that change an array, and what each does to a list. *)
Inductive array_op :=
  | OpReserve (count : Z)
  | OpAppend (x : A)
  | OpExpandTo (count : Z) (dflt : A)
  | OpEraseAt (i : Z)
  | OpClear.

Definition array_step d (op : array_op) : result (dynamic_array A) :=
  match op with
  | OpReserve count => array_reserve d count
  | OpAppend x => array_append d x
  | OpExpandTo count dflt => array_expand_to d count dflt
  | OpEraseAt i => array_erase_at d i
  | OpClear => array_clear d
  end.

(** The list operation [op] stands for. *)
Definition list_step (l : list A) (op : array_op) : list A :=
  match op with
  | OpReserve _ => l
  | OpAppend x => l ++ [x]
  | OpExpandTo count dflt => l ++ replicate (Z.to_nat count - length l) dflt
  | OpEraseAt i => delete (Z.to_nat i) l
  | OpClear => []
  end.

(** When [op] may be called: with sizes the heap could hold and at positions inside the
    array. *)
Definition callable d (op : array_op) : Prop :=
  match op with
  | OpReserve count | OpExpandTo count _ => 0 <= count < 2 ^ 62
  | OpAppend _ => m_capacity d < 2 ^ 60
  | OpEraseAt i => 0 <= i < m_size d
  | OpClear => True
  end.
End array.

(** C36: a dynamic array is a list.  reserve, append, expand_to, erase_at and clear,
    called with sizes the heap could hold and at positions inside the array, succeed,
    never touch a slot that holds no element, and leave the array holding exactly the list
    the same operation on lists gives, with every slot after it empty; [at], [first] and
    [last] return that list's elements, and assert past the end or on an empty array; the
    copy constructor gives an array that holds the same list.  Copy assignment is not among
    the operations: DynamicArray.h:79-84 leaves elements unconstructed or undestroyed when
    the lengths differ, which the examples [assignment_skips_elements] and
    [assignment_leaks_elements] show. *)
Theorem dynamic_array_refines {A} (d : dynamic_array A) (l : list A) (op : array_op) (i : nat) :
  holds d l -> callable d op ->
  (exists d', array_step d op = Ok d' /\ holds d' (list_step l op)) /\
  (forall x, l !! i = Some x -> array_at d (Z.of_nat i) = Ok x) /\
  (l !! i = None -> array_at d (Z.of_nat i) = Fault AssertionFailed) /\
  array_first d = match l with x :: _ => Ok x | [] => Fault AssertionFailed end /\
  array_last d = match last l with Some x => Ok x | None => Fault AssertionFailed end /\
  (exists c, array_copy d = Ok c /\ holds c l).
Proof.
  intros Hd Hc. pose proof Hd as (Hs & Hcap & Hmax & n & Hdata). split_and!.
  - destruct op; cbn [array_step list_step callable] in *.
    + destruct (array_reserve_Ok d l count Hd Hc) as (d' & -> & H & _). eauto.
    + destruct (append_Ok d l x Hd Hc) as (d' & -> & H & _). eauto.
    + by apply expand_to_Ok.
    + destruct (lookup_lt_is_Some_2 l (Z.to_nat i0)) as [x Hx]; [lia|].
      pose proof (take_drop_middle l (Z.to_nat i0) x Hx) as E. rewrite <- E in Hd.
      destruct (erase_at_Ok d _ x _ Hd) as (d' & E' & H). rewrite length_take in E'.
      replace (Z.of_nat (_ `min` _)) with i0 in E' by (apply lookup_lt_Some in Hx; lia).
      exists d'. split; [done|]. by rewrite delete_take_drop.
    + destruct (array_clear_Ok d l Hd) as (d' & -> & H & _). eauto.
  - intros x Hx. by apply (array_at_Ok d l).
  - intros Hx. unfold array_at. apply lookup_ge_None in Hx. rewrite (proj2 (Z.ltb_ge _ _)) by lia. done.
  - unfold array_first. rewrite Hs. destruct l as [|x l']; [done|].
    replace (Z.of_nat (length (x :: l')) =? 0) with false by (simpl; lia). runb.
    by apply (element_Ok d (x :: l') 0).
  - unfold array_last. rewrite Hs. destruct (last l) as [x|] eqn:E.
    + rewrite last_lookup in E. pose proof (lookup_lt_Some _ _ _ E).
      replace (Z.of_nat (length l) =? 0) with false by lia. runb.
      replace (Z.of_nat (length l) - 1) with (Z.of_nat (pred (length l))) by lia.
      by apply (element_Ok d l).
    + apply last_None in E as ->. done.
  - unfold array_copy. rewrite Hs. destruct (Z.eqb_spec (Z.of_nat (length l)) 0) as [E|E].
    { exists array_make. split; [done|]. destruct l; [apply make_holds|simpl in E; lia]. }
    assert (Hl : Z.of_nat (length l) <= m_capacity d) by (rewrite Hcap, Hdata, length_app, length_fmap; lia).
    destruct (array_reserve_Ok (array_make (A:=A)) [] (Z.of_nat (length l)) make_holds ltac:(lia)) as (d1 & -> & H1 & H2 & _). run.
    pose proof H1 as (_ & Hc1 & _). rewrite Nat2Z.id.
    destruct (copy_into_Ok d1 d l H1 Hd ltac:(lia)) as (data & -> & H). run. rewrite <- Hs. eauto.
Qed.

Lemma dynamic_array_refines_witness :
  exists d, (d ← array_append array_make 5; array_append d 6) = Ok d /\ holds d [5; 6] /\
    array_at d 1 = Ok 6 /\ (d ← array_erase_at d 0; array_at d 0) = Ok 6.
Proof.
  assert (H0 : holds (@array_make Z) []) by apply make_holds.
  assert (C0 : callable (@array_make Z) (OpAppend 5)) by (simpl; lia).
  destruct (dynamic_array_refines _ _ (OpAppend 5) 0 H0 C0) as ((d1 & E1 & H1) & _).
  cbn [array_step list_step app] in E1, H1.
  assert (C1 : callable d1 (OpAppend 6)) by (vm_compute in E1; injection E1 as <-; simpl; lia).
  destruct (dynamic_array_refines _ _ (OpAppend 6) 0 H1 C1) as ((d2 & E2 & H2) & _).
  cbn [array_step list_step app] in E2, H2.
  exists d2. rewrite E1. split; [exact E2|]. split; [exact H2|].
  vm_compute in E1. injection E1 as <-. vm_compute in E2. injection E2 as <-. split; reflexivity.
Defined.

(** Copy assignment into an array that is shorter than the source but large enough to
    hold it leaves the elements past its own length unconstructed: after assigning an
    array of three to an array of two with room for four, the third element does not
    exist. *)
Example assignment_skips_elements :
  (d ← array_append array_make 1; d ← array_append d 2; d ← array_reserve d 4;
   o ← array_append array_make 7; o ← array_append o 8; o ← array_append o 9;
   d ← array_assign d o; mret (m_size d, m_data d)) =
  Ok (3, [Some 7; Some 8; None; None]).
Proof. reflexivity. Qed.

(** Assigning a shorter array leaks the elements past the new length: they are never
    destroyed. *)
Example assignment_leaks_elements :
  (d ← array_append array_make 1; d ← array_append d 2; d ← array_append d 3;
   o ← array_append array_make 7; o ← array_append o 8;
   d ← array_assign d o; mret (m_size d, m_data d)) =
  Ok (2, [Some 7; Some 8; Some 3; None]).
Proof. reflexivity. Qed.
