(* ===== verification/PhysicalRegion.v ===== *)
(** Kernel/Memory/PhysicalRegion.{h,cpp}: the page allocator of one contiguous range of
    physical memory, a bitmap with a search hint and a free counter.  Every operation
    runs under the region's lock, so an operation is one step. *)
From S2P Require Import Prelude Page Range Utilities BitArray.

(** ** Data *)

(** [Kernel/Memory/PhysicalRegion.h:64-69] PhysicalRegion *)
Record pregion := PRegion {
  pr_range : range;
  pr_free_pages : Z;
  pr_next_hint : Z;
  pr_map : bitarray;
}.

(** [Kernel/Memory/PhysicalRegion.cpp:9-16] PhysicalRegion(const Range&) *)
Definition pregion_make (r : range) : result pregion :=
  let free_pages := r_length r / page_size in
  let region := PRegion r free_pages 0 (bitarray_make free_pages) in
  _ ← ASSERT (is_aligned (r_begin r));
  _ ← ASSERT (is_aligned (r_length r));
  mret region.

(** [Kernel/Memory/PhysicalRegion.cpp:18-21] bit_as_physical_address *)
Definition bit_as_physical_address (p : pregion) (bit : Z) : Z :=
  r_begin (pr_range p) +! bit *! page_size.

(** [Kernel/Memory/PhysicalRegion.cpp:23-28] physical_address_as_bit *)
Definition physical_address_as_bit (p : pregion) (address : Z) : result Z :=
  _ ← ASSERT (is_aligned address);
  mret ((address -! r_begin (pr_range p)) / page_size).

(** [Kernel/Memory/PhysicalRegion.cpp:30-56] allocate_page *)
Definition pr_allocate_page (p : pregion) : result (option Page * pregion) :=
  if pr_free_pages p =? 0 then mret (None, p)
  else
    index ← find_bit (pr_map p) false (pr_next_hint p);
    match index with
    | None => mret (None, p)
    | Some index =>
      let next_hint := index +! 1 in
      let next_hint := if next_hint =? m_bit_count (pr_map p) then 0 else next_hint in
      map ← set_bit (pr_map p) index true;
      let p' := PRegion (pr_range p) (pr_free_pages p -! 1) next_hint map in
      mret (Some {| page_address := bit_as_physical_address p' index |}, p')
    end.

(** [Kernel/Memory/PhysicalRegion.cpp:58-76] free_page *)
Definition pr_free_page (p : pregion) (page : Page) : result pregion :=
  _ ← ASSERT (r_contains (pr_range p) (page_address page));
  bit ← physical_address_as_bit p (page_address page);
  allocated ← bit_at (pr_map p) bit;
  _ ← ASSERT allocated;
  map ← set_bit (pr_map p) bit false;
  mret (PRegion (pr_range p) (pr_free_pages p +! 1) (pr_next_hint p) map).

(** ** Invariant *)

Definition pr_pages (p : pregion) : Z :=
  (r_end (pr_range p) - r_begin (pr_range p)) / page_size.

(** Page-aligned range, one bit per page, a hint inside the map, and a free counter equal
    to the number of clear bits. *)
Record wf_pregion (p : pregion) : Prop := {
  wfp_range : wf_range (pr_range p);
  wfp_begin : r_begin (pr_range p) mod page_size = 0;
  wfp_end : r_end (pr_range p) mod page_size = 0;
  wfp_bits : wf_bits (pr_map p);
  wfp_count : m_bit_count (pr_map p) = pr_pages p;
  wfp_hint : 0 <= pr_next_hint p /\ (0 < pr_pages p -> pr_next_hint p < pr_pages p);
  wfp_free : pr_free_pages p =
    count_if (fun i => negb (bit (pr_map p) i)) (Z.to_nat (pr_pages p));
}.

(** The page with this index is in use. *)
Definition page_used (p : pregion) (address : Z) : bool :=
  bit (pr_map p) ((address - r_begin (pr_range p)) / page_size).

Definition is_page_of (p : pregion) (address : Z) : Prop :=
  in_range (pr_range p) address /\ address mod page_size = 0.

Section region.
Context (p : pregion) (Hp : wf_pregion p).

Lemma pr_range_pages :
  r_end (pr_range p) = r_begin (pr_range p) + pr_pages p * page_size /\
  0 <= pr_pages p /\ 0 <= r_begin (pr_range p) /\ r_end (pr_range p) < W64.
Proof using Hp.
  destruct Hp as [[? ?] ? ? _ _ _ _]. unfold pr_pages, page_size in *. dlia.
Qed.

(** Page addresses and bit indices determine each other. *)
Lemma page_index address :
  is_page_of p address ->
  exists i, address = r_begin (pr_range p) + i * page_size /\ 0 <= i < pr_pages p /\
    page_used p address = bit (pr_map p) i /\ physical_address_as_bit p address = Ok i.
Proof using Hp.
  intros [Hin Hal]. pose proof pr_range_pages as (He & Hn & Hb & Hlt).
  pose proof (wfp_begin p Hp) as Hbeg.
  unfold physical_address_as_bit, is_aligned. rewrite Hal, Z.eqb_refl.
  unfold page_used, in_range, page_size in *.
  exists ((address - r_begin (pr_range p)) / 4096).
  split; [dlia|]. split; [dlia|]. split; [done|]. cbn [ASSERT mbind result_bind].
  rewrite wrap64_small by (unfold is_u64; lia). done.
Qed.

Lemma index_page i :
  0 <= i < pr_pages p ->
  let address := r_begin (pr_range p) + i * page_size in
  is_page_of p address /\ bit_as_physical_address p i = address /\
  (address - r_begin (pr_range p)) / page_size = i.
Proof using Hp.
  intros Hi address. pose proof pr_range_pages as (He & Hn & Hb & Hlt).
  pose proof (wfp_begin p Hp) as Hbeg.
  unfold is_page_of, in_range, bit_as_physical_address, address, page_size in *.
  split; [split; [lia|dlia]|].
  rewrite (wrap64_small (i * 4096)) by (unfold is_u64; lia).
  rewrite wrap64_small by (unfold is_u64; lia). split; [done|dlia].
Qed.

(** Writing one bit of the map keeps the invariant, with the counter adjusted. *)
Lemma wf_pregion_update i v map' hint :
  0 <= i < pr_pages p -> bit (pr_map p) i = negb v ->
  wf_bits map' -> m_bit_count map' = m_bit_count (pr_map p) ->
  (forall j, 0 <= j -> bit map' j = if decide (j = i) then v else bit (pr_map p) j) ->
  0 <= hint < pr_pages p ->
  wf_pregion (PRegion (pr_range p)
    (pr_free_pages p + if v then -1 else 1) hint map').
Proof using Hp.
  intros Hi Hv Hm Hc Hbit Hh. pose proof Hp as [? ? ? ? Hcnt ? Hf].
  split; try done.
  - cbn [pr_map]. rewrite Hc. exact Hcnt.
  - split; [simpl; lia|]. intros _. simpl. change (hint < pr_pages p). lia.
  - cbn [pr_free_pages pr_map pr_range]. unfold pr_pages at 1. cbn [pr_range].
    fold (pr_pages p).
    rewrite (count_if_update (fun j => negb (bit (pr_map p) j)) _ _ i), <- Hf.
    + rewrite Hbit, decide_True by lia. rewrite Hv. destruct v; simpl; lia.
    + lia.
    + intros j Hj Hne. by rewrite Hbit, decide_False by lia.
Qed.
End region.

Lemma pregion_make_Ok r :
  wf_range r -> r_begin r mod page_size = 0 -> r_end r mod page_size = 0 ->
  exists p, pregion_make r = Ok p /\ wf_pregion p /\ pr_range p = r /\
    pr_free_pages p = pr_pages p /\ forall a, page_used p a = false.
Proof.
  intros Hr Hb He. unfold pregion_make. rewrite r_length_wf by done.
  unfold is_aligned. rewrite Hb, Z.eqb_refl.
  replace ((r_end r - r_begin r) mod page_size =? 0) with true
    by (symmetry; apply Z.eqb_eq; unfold page_size in *; dlia).
  cbn [ASSERT mbind result_bind]. eexists; split; [done|].
  assert (Hn : 0 <= (r_end r - r_begin r) / page_size < W64)
    by (destruct Hr; unfold page_size; dlia).
  destruct (bitarray_make_wf _ Hn) as (Hw & Hc & Hz).
  split; [|split_and!; try done; intros a; apply Hz].
  split; try done. cbn [pr_free_pages pr_map]. rewrite count_if_true.
  - unfold pr_pages. simpl. lia.
  - intros i Hi. by rewrite Hz.
Qed.

(** ** Properties *)

(** [allocate_page] keeps the region's invariant and returns a page-aligned page of
    the range that was free; exactly that page becomes used.  It returns nothing only
    when every page is in use, and then changes nothing. *)
Lemma pr_allocate_page_Ok (p : pregion) :
  wf_pregion p ->
  exists r p', pr_allocate_page p = Ok (r, p') /\ wf_pregion p' /\
    pr_range p' = pr_range p /\
    match r with
    | Some page =>
        is_page_of p (page_address page) /\ page_used p (page_address page) = false /\
        pr_free_pages p' = pr_free_pages p - 1 /\
        (forall a, is_page_of p a ->
           page_used p' a = if decide (a = page_address page) then true else page_used p a)
    | None => p' = p /\ pr_free_pages p = 0 /\ forall a, is_page_of p a -> page_used p a = true
    end.
Proof.
  intros Hp. pose proof Hp as [Hr ? ? Hb Hc Hh Hf].
  unfold pr_allocate_page. destruct (Z.eqb_spec (pr_free_pages p) 0) as [E|E].
  - eexists _, _. split; [done|]. split; [done|]. split; [done|]. split; [done|].
    split; [done|]. intros a Ha.
    destruct (page_index p Hp a Ha) as (i & _ & Hi & -> & _).
    rewrite E in Hf. symmetry in Hf. apply count_if_0 with (i := i) in Hf; [|lia].
    by apply negb_false_iff in Hf.
  - assert (Hpos : 0 < pr_pages p).
    { destruct (decide (0 < pr_pages p)) as [|Hn]; [done|]. exfalso. apply E. rewrite Hf.
      by replace (Z.to_nat (pr_pages p)) with 0%nat by lia. }
    destruct (find_bit_Ok (pr_map p) false (pr_next_hint p) Hb) as (r & -> & Hr'); [lia|].
    cbn [mbind result_bind]. destruct r as [i|].
    2:{ exfalso. apply E. rewrite Hf. apply count_if_0. intros i Hi.
        rewrite Hr' by lia. done. }
    destruct Hr' as [Hi Hbi].
    destruct (set_bit_Ok (pr_map p) Hb i true Hi) as (m & -> & Hm & Hmc & Hmb).
    cbn [mbind result_bind].
    destruct (pr_range_pages p Hp) as (He & Hn & Hb0 & Hlt).
    pose proof (count_if_bounds (fun i => negb (bit (pr_map p) i)) (Z.to_nat (pr_pages p))).
    assert (Hfree : pr_free_pages p -! 1 = pr_free_pages p + -1).
    { apply wrap64_small. unfold is_u64, page_size in *. lia. }
    assert (Hhint : 0 <= (if (i +! 1) =? m_bit_count (pr_map p) then 0 else i +! 1)
                      < pr_pages p).
    { rewrite (wrap64_small (i + 1)) by (unfold is_u64, page_size in *; lia).
      destruct (Z.eqb_spec (i + 1) (m_bit_count (pr_map p))); lia. }
    destruct (index_page p Hp i) as (Hpg & Haddr & Hidx); [lia|].
    rewrite Hfree. eexists _, _. split; [done|]. split.
    { apply (wf_pregion_update p Hp i true); try done; lia. }
    split; [done|]. unfold bit_as_physical_address in *. cbn [pr_range page_address] in *.
    rewrite Haddr. split; [done|]. split; [unfold page_used; by rewrite Hidx|].
    split; [done|]. intros a Ha. destruct (page_index p Hp a Ha) as (j & -> & Hj & -> & _).
    destruct (index_page p Hp j) as (_ & _ & Hjx); [lia|].
    unfold page_used. cbn [pr_map pr_range]. rewrite Hjx, Hmb by lia.
    destruct (decide (j = i)) as [->|]; [by rewrite decide_True|].
    rewrite decide_False by (unfold page_size; lia). done.
Qed.

(** [free_page] of a used page of the region never faults, keeps the invariant and
    frees exactly that page; freeing a free page (a double free), an address outside the
    range or an unaligned one trips an assertion and is never silently accepted. *)
Lemma pr_free_page_Ok (p : pregion) (page : Page) :
  wf_pregion p ->
  (is_page_of p (page_address page) -> page_used p (page_address page) = true ->
   exists p', pr_free_page p page = Ok p' /\ wf_pregion p' /\ pr_range p' = pr_range p /\
     pr_free_pages p' = pr_free_pages p + 1 /\
     forall a, is_page_of p a ->
       page_used p' a = if decide (a = page_address page) then false else page_used p a) /\
  (~ (is_page_of p (page_address page) /\ page_used p (page_address page) = true) ->
   pr_free_page p page = Fault AssertionFailed).
Proof.
  intros Hp. pose proof Hp as [Hr ? ? Hb Hc Hh Hf]. unfold pr_free_page. split.
  - intros Hpg Hused. destruct (page_index p Hp _ Hpg) as (i & Ha & Hi & Hui & ->).
    rewrite (proj2 (r_contains_spec _ _)) by apply Hpg. cbn [ASSERT mbind result_bind].
    rewrite bit_at_Ok by (done || lia). rewrite <- Hui, Hused.
    cbn [ASSERT mbind result_bind].
    destruct (set_bit_Ok (pr_map p) Hb i false) as (m & -> & Hm & Hmc & Hmb); [lia|].
    cbn [mbind result_bind]. destruct (pr_range_pages p Hp) as (He & Hn & Hb0 & Hlt).
    pose proof (count_if_bounds (fun i => negb (bit (pr_map p) i)) (Z.to_nat (pr_pages p))).
    assert (Hfree : pr_free_pages p +! 1 = pr_free_pages p + 1).
    { apply wrap64_small. unfold is_u64, page_size in *. lia. }
    rewrite Hfree. eexists; split; [done|]. split.
    { apply (wf_pregion_update p Hp i false); try done; [by rewrite <- Hui|lia]. }
    split; [done|]. split; [done|]. intros a Haa.
    destruct (page_index p Hp a Haa) as (j & -> & Hj & -> & _).
    destruct (index_page p Hp j) as (_ & _ & Hjx); [lia|].
    unfold page_used. cbn [pr_map pr_range]. rewrite Hjx, Hmb, Ha by lia.
    destruct (decide (j = i)) as [->|]; [by rewrite decide_True|].
    rewrite decide_False by (unfold page_size; lia). done.
  - intros Hno. destruct (r_contains (pr_range p) (page_address page)) eqn:Ein; [|done].
    apply r_contains_spec in Ein. cbn [ASSERT mbind result_bind].
    destruct (decide (page_address page mod page_size = 0)) as [Hal|Hal].
    + assert (Hpg : is_page_of p (page_address page)) by done.
      destruct (page_index p Hp _ Hpg) as (i & Ha & Hi & Hui & ->).
      cbn [mbind result_bind]. rewrite bit_at_Ok by (done || lia).
      rewrite <- Hui. destruct (page_used p (page_address page)) eqn:Eu; [|done].
      exfalso. by apply Hno.
    + unfold physical_address_as_bit, is_aligned.
      destruct (Z.eqb_spec (page_address page mod page_size) 0); [lia|done].
Qed.
