(* ===== verification/PagingEntry.v ===== *)
(** Kernel/Memory/GenericPagingEntry.h: one entry of a paging table, a 64-bit word the
    processor reads and the kernel edits through bit fields.  The fields are allocated
    from the least significant bit, as the AMD64 ABI lays them out. *)
From S2P Require Import Prelude Page.

(** ** Attributes *)

(** [Kernel/Memory/GenericPagingEntry.h:11-35] Attributes *)
Definition PRESENT : Z := Z.shiftl 1 0.
Definition READ_WRITE : Z := Z.shiftl 1 1.
Definition SUPERVISOR : Z := 0.
Definition USER : Z := Z.shiftl 1 2.
Definition WRITE_THROUGH : Z := Z.shiftl 1 3.
Definition PWT_BIT : Z := Z.shiftl 1 3.
Definition DO_NOT_CACHE : Z := Z.shiftl 1 4.
Definition PCD_BIT : Z := Z.shiftl 1 5.
Definition PAT_BIT_4K : Z := Z.shiftl 1 7.
Definition PAGE_2MB : Z := Z.shiftl 1 7.
Definition GLOBAL : Z := Z.shiftl 1 8.

(** [Kernel/Memory/GenericPagingEntry.h:37-47] operator|, operator& and operator~ on Attributes, 16 bits wide *)
Definition attributes_or (l r : Z) : Z := Z.lor l r.
Definition attributes_and (l r : Z) : Z := Z.land l r.
Definition attributes_not (a : Z) : Z := 65535 - a.

(** ** The entry *)

(** [Kernel/Memory/GenericPagingEntry.h:135-144] GenericPagingEntry *)
Record entry := Entry {
  m_attributes : Z;          (** 12 bits *)
  m_physical_address : Z;    (** 40 bits *)
  m_unused : Z;              (** 11 bits *)
  m_no_execute : bool;
}.

(** An assignment to a bit field keeps the low bits. *)
Definition field (width x : Z) : Z := x mod 2 ^ width.

(** [Kernel/Memory/GenericPagingEntry.h:124-129] set_attributes *)
Definition set_attributes (e : entry) (attributes : Z) : entry :=
  Entry (field 12 attributes) (m_physical_address e) (m_unused e) (m_no_execute e).

(** [Kernel/Memory/GenericPagingEntry.h:117-122] set_physical_address *)
Definition set_physical_address (e : entry) (address : Z) : entry :=
  Entry (m_attributes e) (field 40 (Z.shiftr address 12)) (m_unused e) (m_no_execute e).

(** [Kernel/Memory/GenericPagingEntry.h:131-133] physical_address and attributes *)
Definition physical_address (e : entry) : Z := Z.shiftl (m_physical_address e) 12.
Definition attributes (e : entry) : Z := m_attributes e.

(** [Kernel/Memory/GenericPagingEntry.h:49-55] set_present *)
Definition set_present (e : entry) (setting : bool) : entry :=
  if setting then set_attributes e (attributes_or (attributes e) PRESENT)
  else set_attributes e (attributes_and (attributes e) (attributes_not PRESENT)).

(** [Kernel/Memory/GenericPagingEntry.h:57-57] is_present *)
Definition is_present (e : entry) : bool :=
  negb (attributes_and (attributes e) PRESENT =? 0).

(** [Kernel/Memory/GenericPagingEntry.h:61-64] set_executable *)
Definition set_executable (e : entry) (setting : bool) : entry :=
  Entry (m_attributes e) (m_physical_address e) (m_unused e) setting.

(** [Kernel/Memory/GenericPagingEntry.h:66-66] is_executable *)
Definition is_executable (e : entry) : bool := negb (m_no_execute e).

(** [Kernel/Memory/GenericPagingEntry.h:68-74] set_huge *)
Definition set_huge (e : entry) (setting : bool) : entry :=
  if setting then set_attributes e (attributes_or (attributes e) PAGE_2MB)
  else set_attributes e (attributes_and (attributes e) (attributes_not PAGE_2MB)).

(** [Kernel/Memory/GenericPagingEntry.h:78-109] set_pat_index *)
Definition set_pat_index (e : entry) (index : Z) (is_4k_page : bool) : result entry :=
  _ ← ASSERT (index <? 8);
  let e :=
    if negb (Z.land index 1 =? 0) then set_attributes e (attributes_or (m_attributes e) PWT_BIT)
    else set_attributes e (attributes_and (m_attributes e) (attributes_not PWT_BIT)) in
  let e :=
    if negb (Z.land index 2 =? 0) then set_attributes e (attributes_or (m_attributes e) PCD_BIT)
    else set_attributes e (attributes_and (m_attributes e) (attributes_not PCD_BIT)) in
  mret
    (if negb (Z.land index 4 =? 0) then
       if is_4k_page then set_attributes e (attributes_or (m_attributes e) PAT_BIT_4K)
       else Entry (m_attributes e) (Z.lor (m_physical_address e) 1) (m_unused e) (m_no_execute e)
     else
       if is_4k_page then
         set_attributes e (attributes_and (m_attributes e) (attributes_not PAT_BIT_4K))
       else
         Entry (m_attributes e) (Z.land (m_physical_address e) (0xFFFFFFFFFFFFFFFF - 1))
           (m_unused e) (m_no_execute e)).

(** [Kernel/Memory/GenericPagingEntry.h:111-111] make_global *)
Definition make_global (e : entry) : entry :=
  set_attributes e (attributes_or (attributes e) GLOBAL).

(** [Kernel/Memory/GenericPagingEntry.h:113-113] make_supervisor_present *)
Definition make_supervisor_present (e : entry) : entry :=
  set_attributes e (attributes_or (attributes_or PRESENT READ_WRITE) SUPERVISOR).

(** [Kernel/Memory/GenericPagingEntry.h:115-115] make_user_present *)
Definition make_user_present (e : entry) : entry :=
  set_attributes e (attributes_or (attributes_or PRESENT READ_WRITE) USER).

(** ** The word *)

(** The layout of the bit fields in memory, which the source leaves to the compiler: from the
    least significant bit on, as the AMD64 ABI has it.  Reading and writing an entry through a
    pointer goes through these two; they translate no function of the source. *)
Definition entry_of_word (w : Z) : entry :=
  Entry (Z.land w 0xFFF) (Z.land (Z.shiftr w 12) 0xFFFFFFFFFF)
    (Z.land (Z.shiftr w 52) 0x7FF) (Z.testbit w 63).

Definition word_of_entry (e : entry) : Z :=
  m_attributes e + Z.shiftl (m_physical_address e) 12 + Z.shiftl (m_unused e) 52 +
    (if m_no_execute e then Z.shiftl 1 63 else 0).

(** Every field fits its width. *)
Record wf_entry (e : entry) : Prop := {
  wfe_attributes : 0 <= m_attributes e < 4096;
  wfe_physical : 0 <= m_physical_address e < 2 ^ 40;
  wfe_unused : 0 <= m_unused e < 2048;
}.

#[export] Instance entry_eq_dec : EqDecision entry.
Proof. solve_decision. Defined.

Lemma land_ones_mod w n m : m = Z.ones n -> 0 <= n -> Z.land w m = w mod 2 ^ n.
Proof. intros -> Hn. by apply Z.land_ones. Qed.

Lemma entry_of_word_eq w :
  is_u64 w ->
  entry_of_word w = Entry (w mod 4096) (w / 4096 mod 2 ^ 40) (w / 2 ^ 52 mod 2048)
    (bool_decide (2 ^ 63 <= w)).
Proof.
  intros Hw. unfold entry_of_word.
  rewrite (land_ones_mod w 12), (land_ones_mod _ 40), (land_ones_mod _ 11) by done.
  rewrite !Z.shiftr_div_pow2 by lia. f_equal.
  rewrite Z.testbit_spec' || rewrite Z.testbit_odd. rewrite Z.shiftr_div_pow2 by lia.
  unfold is_u64 in Hw. case_bool_decide as H.
  - by replace (w / 2 ^ 63) with 1 by dlia.
  - by replace (w / 2 ^ 63) with 0 by dlia.
Qed.

Lemma word_of_entry_eq e :
  word_of_entry e = m_attributes e + m_physical_address e * 4096 + m_unused e * 2 ^ 52 +
    (if m_no_execute e then 2 ^ 63 else 0).
Proof. unfold word_of_entry. rewrite !Z.shiftl_mul_pow2 by lia. destruct (m_no_execute e); lia. Qed.

Lemma entry_of_word_wf w : is_u64 w -> wf_entry (entry_of_word w).
Proof. intros Hw. rewrite entry_of_word_eq by done. split; cbn [m_attributes m_physical_address m_unused]; dlia. Qed.

Lemma word_of_entry_u64 e : wf_entry e -> is_u64 (word_of_entry e).
Proof. intros [? ? ?]. rewrite word_of_entry_eq. unfold is_u64. destruct (m_no_execute e); lia. Qed.

Lemma entry_word_entry e : wf_entry e -> entry_of_word (word_of_entry e) = e.
Proof.
  intros He. rewrite entry_of_word_eq by by apply word_of_entry_u64. rewrite word_of_entry_eq.
  destruct e as [a p u x], He as [Ha Hp Hu]. cbn [m_attributes m_physical_address m_unused m_no_execute] in *.
  destruct x; f_equal; try dlia.
  - apply bool_decide_eq_true. lia.
  - apply bool_decide_eq_false. lia.
Qed.

(** ** The setters keep the widths *)

Lemma set_attributes_wf e a : wf_entry e -> wf_entry (set_attributes e a).
Proof. intros [? ? ?]. split; try done. cbn [set_attributes m_attributes]. unfold field. dlia. Qed.

Lemma set_physical_address_wf e a : wf_entry e -> wf_entry (set_physical_address e a).
Proof. intros [? ? ?]. split; try done. cbn [set_physical_address m_physical_address]. unfold field. dlia. Qed.

Lemma make_supervisor_present_wf e : wf_entry e -> wf_entry (make_supervisor_present e).
Proof. apply set_attributes_wf. Qed.

Lemma make_user_present_wf e : wf_entry e -> wf_entry (make_user_present e).
Proof. apply set_attributes_wf. Qed.

Lemma set_present_wf e b : wf_entry e -> wf_entry (set_present e b).
Proof. unfold set_present. destruct b; apply set_attributes_wf. Qed.

Lemma set_huge_wf e b : wf_entry e -> wf_entry (set_huge e b).
Proof. unfold set_huge. destruct b; apply set_attributes_wf. Qed.

#[export] Hint Resolve set_attributes_wf set_physical_address_wf make_supervisor_present_wf
  make_user_present_wf set_present_wf set_huge_wf : kernel.

(** A page-aligned address below 2^52 survives the field. *)
Definition mappable (address : Z) : Prop := 0 <= address < 2 ^ 52 /\ address mod page_size = 0.

Lemma physical_address_set e a : mappable a -> physical_address (set_physical_address e a) = a.
Proof.
  intros [Ha Hal]. unfold physical_address, set_physical_address. cbn [m_physical_address].
  unfold field. rewrite Z.shiftl_mul_pow2, Z.shiftr_div_pow2 by lia.
  unfold page_size in Hal. dlia.
Qed.

(** The two bits the walk looks at. *)
Definition is_huge (e : entry) : bool := negb (attributes_and (attributes e) PAGE_2MB =? 0).

(** A one-bit mask tests the bit, and a bit field keeps its low bits. *)
Lemma mask_testbit a n : 0 <= n -> negb (Z.land a (Z.shiftl 1 n) =? 0) = Z.testbit a n.
Proof.
  intros Hn. rewrite Z.shiftl_1_l. destruct (Z.testbit a n) eqn:E.
  - apply negb_true_iff, Z.eqb_neq. intros H0. apply (f_equal (fun z => Z.testbit z n)) in H0.
    rewrite Z.land_spec, E, Z.pow2_bits_true, Z.bits_0 in H0 by done. done.
  - apply negb_false_iff, Z.eqb_eq. apply Z.bits_inj'. intros k Hk.
    rewrite Z.land_spec, Z.pow2_bits_eqb, Z.bits_0 by done.
    destruct (Z.eqb_spec n k) as [<-|]; [by rewrite E|]. by rewrite andb_false_r.
Qed.

Lemma field_testbit w a n : 0 <= n < w -> Z.testbit (field w a) n = Z.testbit a n.
Proof. intros [? ?]. unfold field. by rewrite Z.mod_pow2_bits_low. Qed.

Lemma set_present_bit e b : is_present (set_present e b) = b.
Proof.
  unfold is_present, attributes_and. unfold PRESENT at 1. rewrite mask_testbit by done.
  unfold set_present.
  destruct b; unfold set_attributes, attributes; cbn [m_attributes]; rewrite field_testbit by done.
  - unfold attributes_or. rewrite Z.lor_spec. apply orb_true_r.
  - unfold attributes_and. rewrite Z.land_spec. apply andb_false_r.
Qed.

Lemma set_present_false e :
  wf_entry e -> is_present (set_present e false) = false /\
  physical_address (set_present e false) = physical_address e.
Proof. intros He. split; [apply set_present_bit|done]. Qed.

(** ** Setters that do not do what their names say *)

(** [set_executable] stores its argument in the no-execute bit, so an entry made
    executable is not. *)
Example set_executable_inverted :
  is_executable (set_executable (entry_of_word 0) true) = false.
Proof. reflexivity. Qed.

(** PAT index 2 is the page-cache-disable bit alone, bit 4; the code sets bit 5, which
    the processor uses to record accesses. *)
Example pat_index_sets_accessed :
  (e ← set_pat_index (entry_of_word 0) 2 true; mret (attributes e)) = Ok 32.
Proof. reflexivity. Qed.
