(* ===== verification/PhysicalMemory.v ===== *)
(** The physical half of Kernel/Memory/MemoryManager.{h,cpp}: the list of physical
    regions, page allocation and release over all of them, the free-memory counter and
    the mapping of all physical memory the kernel reads and writes pages through. *)
From S2P Require Import Prelude Page Range Utilities BitArray PhysicalRegion.

(** ** Addresses *)

(** [Kernel/Memory/MemoryManager.h:41-45] max_memory_address, kernel_reserved_base, physical_memory_base, userspace_usable_ceiling *)
Definition max_memory_address : Z := 0xFFFFFFFFFFFFFFFF.
Definition kernel_reserved_base : Z := max_memory_address - 2 * 1024 * 1024 * 1024 + 1.
Definition physical_memory_base : Z := 0xFFFF800000000000.
Definition userspace_usable_ceiling : Z := 0x0000800000000000.

(** [Kernel/Memory/MemoryManager.h:89-91] userspace_base, userspace_reserved, userspace_usable_base *)
Definition userspace_usable_base : Z := 0 + 1024 * 1024.

(** [Kernel/Memory/MemoryManager.h:162-165] physical_to_virtual *)
Definition physical_to_virtual (physical_address : Z) : Z :=
  physical_memory_base +! physical_address.

(** [Kernel/Memory/MemoryManager.h:167-175] virtual_to_physical *)
Definition virtual_to_physical (virtual_address : Z) : result Z :=
  _ ← ASSERT (virtual_address >=? physical_memory_base);
  mret (if virtual_address >=? kernel_reserved_base then virtual_address -! kernel_reserved_base
        else virtual_address -! physical_memory_base).

(** [Kernel/Memory/MemoryManager.h:177-180] is_potentially_valid_userspace_pointer *)
Definition is_potentially_valid_userspace_pointer (virtual_address : Z) : bool :=
  (virtual_address >=? userspace_usable_base) && (virtual_address <? userspace_usable_ceiling).

(** ** Memory *)

(** The 64-bit words of memory, by the kernel virtual address of the direct mapping at
    which the code reads them. *)
Definition memory := Z -> Z.

Definition store (m : memory) (address w : Z) : memory :=
  fun a => if decide (a = address) then w else m a.

(** [zero_memory] of Core/Runtime.h on whole words. *)
Definition zero_memory (m : memory) (address size : Z) : memory :=
  fun a => if in_run address size a then 0 else m a.

(** ** State *)

(** [Kernel/Memory/MemoryManager.h:328-333] m_physical_regions and m_free_physical_bytes *)
Record memory_manager := MemoryManager {
  m_physical_regions : list pregion;
  m_free_physical_bytes : Z;
}.

(** ** Operations *)

(** [Kernel/Memory/MemoryManager.cpp:223-228] the loop of allocate_page: the first region with a page *)
Fixpoint allocate_from_regions (regions : list pregion) : result (option Page * list pregion) :=
  match regions with
  | [] => mret (None, [])
  | region :: rest =>
      '(page, region) ← pr_allocate_page region;
      match page with
      | Some page => mret (Some page, region :: rest)
      | None =>
          '(page, rest) ← allocate_from_regions rest;
          mret (page, region :: rest)
      end
  end.

(** [Kernel/Memory/MemoryManager.cpp:221-249] allocate_page *)
Definition mm_allocate_page (mm : memory_manager) (m : memory) (should_zero : bool)
  : result (Page * memory_manager * memory) :=
  '(page, regions) ← allocate_from_regions (m_physical_regions mm);
  match page with
  | Some page =>
      let mm := MemoryManager regions (m_free_physical_bytes mm -! page_size) in
      let m := if should_zero
               then zero_memory m (physical_to_virtual (page_address page)) page_size else m in
      mret (page, mm, m)
  | None => Fault KernelPanic
  end.

(** [Kernel/Memory/MemoryManager.cpp:251-268] physical_region_responsible_for_page: the position of the region, if any *)
Definition physical_region_responsible_for_page (regions : list pregion) (page : Page)
  : result (option Z) :=
  let address := page_address page in
  let last := Z.of_nat (length regions) in
  physical_region ← lower_bound (fun a p => a <? r_begin (pr_range p))
    (fun p a => r_begin (pr_range p) <? a) regions address;
  elsewhere ← (if physical_region =? last then mret true
               else region ← read_at regions physical_region;
                    mret (negb (r_begin (pr_range region) =? address)));
  if elsewhere : bool then
    if physical_region =? 0 then mret None
    else
      let physical_region := physical_region - 1 in
      region ← read_at regions physical_region;
      mret (if r_contains (pr_range region) address then Some physical_region else None)
  else mret (Some physical_region).

(** [Kernel/Memory/MemoryManager.cpp:299-312] free_page *)
Definition mm_free_page (mm : memory_manager) (page : Page) : result memory_manager :=
  region ← physical_region_responsible_for_page (m_physical_regions mm) page;
  match region with
  | Some i =>
      region ← read_at (m_physical_regions mm) i;
      region ← pr_free_page region page;
      regions ← write_at (m_physical_regions mm) i region;
      mret (MemoryManager regions (m_free_physical_bytes mm +! page_size))
  | None => Fault KernelPanic
  end.

(** ** Specification *)

Definition page_in (q : pregion -> Z -> bool) (l : list pregion) (a : Z) : Prop :=
  exists p, p ∈ l /\ is_page_of p a /\ q p a = true.

(** The pages of physical memory that are free and those that are in use. *)
Definition page_free (l : list pregion) (a : Z) : Prop := page_in (fun p a => negb (page_used p a)) l a.
Definition page_allocated (l : list pregion) (a : Z) : Prop := page_in page_used l a.

Fixpoint free_pages (l : list pregion) : Z :=
  match l with
  | [] => 0
  | p :: l => pr_free_pages p + free_pages l
  end.

(** Regions in order and apart, each with at least a page, all of them below the end of
    the direct mapping; the counter holds the free pages of all of them. *)
Record wf_regions (l : list pregion) : Prop := {
  wfr_all : Forall wf_pregion l;
  wfr_sorted : StronglySorted (fun p q => r_end (pr_range p) <= r_begin (pr_range q)) l;
  wfr_pages : Forall (fun p => 0 < pr_pages p /\ r_end (pr_range p) <= 2 ^ 47) l;
}.

Record wf_mm (mm : memory_manager) : Prop := {
  wfm_regions : wf_regions (m_physical_regions mm);
  wfm_bytes : m_free_physical_bytes mm = free_pages (m_physical_regions mm) * page_size;
}.

(** ** Regions *)

Lemma wf_regions_cons p l :
  wf_regions (p :: l) <->
  wf_pregion p /\ 0 < pr_pages p /\ r_end (pr_range p) <= 2 ^ 47 /\
  Forall (fun q => r_end (pr_range p) <= r_begin (pr_range q)) l /\ wf_regions l.
Proof.
  split.
  - intros [Ha Hs Hp]. inversion Ha; inversion Hs; inversion Hp; subst.
    split_and!; try done; tauto.
  - intros (H1 & H2 & H3 & H4 & [Ha Hs Hp]). split; by constructor.
Qed.

Lemma wf_pregion_free p : wf_pregion p -> 0 <= pr_free_pages p <= pr_pages p.
Proof.
  intros Hp. rewrite (wfp_free p Hp). destruct (pr_range_pages p Hp) as (_ & Hn & _).
  pose proof (count_if_bounds (fun i => negb (bit (pr_map p) i)) (Z.to_nat (pr_pages p))). lia.
Qed.

(** Every page of a list of regions lies below the first address after them. *)
Lemma free_pages_bound l b :
  wf_regions l -> 0 <= b <= 2 ^ 47 -> Forall (fun q => b <= r_begin (pr_range q)) l ->
  0 <= free_pages l /\ free_pages l * page_size <= 2 ^ 47 - b.
Proof.
  revert b. induction l as [|p l IH]; intros b Hl Hb0 Hb; [simpl; lia|].
  apply wf_regions_cons in Hl as (Hp & Hn & Hend & Hall & Hl).
  inversion Hb as [|? ? Hb1 Hb2]; subst. destruct (pr_range_pages p Hp) as (He & _ & Hbg & _).
  pose proof (wf_pregion_free p Hp). unfold page_size in *.
  destruct (IH (r_end (pr_range p)) Hl); [lia|done|]. cbn [free_pages]. unfold page_size in *. lia.
Qed.

Lemma page_in_cons q p l a :
  page_in q (p :: l) a <-> (is_page_of p a /\ q p a = true) \/ page_in q l a.
Proof.
  unfold page_in. split.
  - intros (x & Hx & H). apply elem_of_cons in Hx as [->|Hx]; [by left|right; eauto].
  - intros [H|(x & Hx & H)]; [exists p|exists x]; rewrite elem_of_cons; eauto.
Qed.

(** A page lies in one region only. *)
Lemma page_region_unique l p a :
  wf_regions (p :: l) -> is_page_of p a -> forall q, q ∈ l -> ~ is_page_of q a.
Proof.
  intros Hl [Hp _] q Hq [Hq' _]. apply wf_regions_cons in Hl as (_ & _ & _ & Hall & _).
  rewrite Forall_forall in Hall. specialize (Hall q Hq). unfold in_range in *. lia.
Qed.

Lemma page_free_allocated l a : wf_regions l -> page_free l a -> ~ page_allocated l a.
Proof.
  induction l as [|p l IH]; intros Hl; [intros (x & Hx & _); by apply elem_of_nil in Hx|].
  pose proof Hl as Hl'. apply wf_regions_cons in Hl as (_ & _ & _ & _ & Hl).
  unfold page_free, page_allocated. rewrite !page_in_cons.
  intros [[H1 H2]|H1] [[H3 H4]|H3].
  - by rewrite H4 in H2.
  - destruct H3 as (q & Hq & H3 & _). by apply (page_region_unique l p a Hl' H1 q Hq).
  - destruct H1 as (q & Hq & H1 & _). by apply (page_region_unique l p a Hl' H3 q Hq).
  - by apply IH.
Qed.

Lemma page_in_range q l a : wf_regions l -> page_in q l a -> 0 <= a < 2 ^ 47 /\ a mod page_size = 0.
Proof.
  intros [Ha _ Hp] (p & Hin & [Hr Hal] & _). rewrite Forall_forall in Ha, Hp.
  destruct (Hp p Hin). destruct (pr_range_pages p (Ha p Hin)) as (_ & _ & ? & _).
  unfold in_range in Hr. split; [lia|done].
Qed.

Lemma free_pages_0 l : wf_regions l -> free_pages l = 0 <-> forall a, ~ page_free l a.
Proof.
  induction l as [|p l IH]; intros Hl.
  - split; [|done]. intros _ a (x & Hx & _). by apply elem_of_nil in Hx.
  - apply wf_regions_cons in Hl as (Hp & Hn & Hend & Hall & Hl).
    destruct (free_pages_bound l 0 Hl) as [Hf _]; [lia| |].
    { destruct Hl as [Ha _ _]. eapply Forall_impl; [exact Ha|]. intros q Hq. by destruct (pr_range_pages q Hq) as (_ & _ & ? & _). }
    pose proof (wf_pregion_free p Hp). cbn [free_pages].
    assert (Hz : pr_free_pages p = 0 <-> forall a, is_page_of p a -> page_used p a = true).
    { rewrite (wfp_free p Hp), count_if_0. split.
      - intros H0 a Ha. destruct (page_index p Hp a Ha) as (i & _ & Hi & -> & _).
        apply negb_false_iff, H0. lia.
      - intros H0 i Hi. destruct (index_page p Hp i) as (Hpg & _ & Hix); [lia|].
        apply negb_false_iff. rewrite <- (H0 _ Hpg). unfold page_used. by rewrite Hix. }
    split.
    + intros H0 a. unfold page_free. rewrite page_in_cons. intros [[H1 H2]|H1].
      * rewrite (proj1 Hz) in H2 by (done || lia). done.
      * revert H1. apply IH; [done|]. lia.
    + intros H0. rewrite (proj2 (IH Hl)), (proj2 Hz); [done| |].
      * intros a Ha. destruct (page_used p a) eqn:E; [done|]. exfalso. apply (H0 a).
        unfold page_free. rewrite page_in_cons. left. by rewrite E.
      * intros a Ha. apply (H0 a). unfold page_free. rewrite page_in_cons. by right.
Qed.

(** ** Allocation *)

Lemma Forall_ranges (P : range -> Prop) l l' :
  pr_range <$> l' = pr_range <$> l ->
  Forall (fun q => P (pr_range q)) l -> Forall (fun q => P (pr_range q)) l'.
Proof. intros E H. apply (Forall_fmap pr_range P). rewrite E. by apply Forall_fmap. Qed.

Lemma page_in_ext (q : pregion -> Z -> bool) p p' l a :
  pr_range p' = pr_range p -> page_in q (p' :: l) a <-> (is_page_of p a /\ q p' a = true) \/ page_in q l a.
Proof. intros E. rewrite page_in_cons. unfold is_page_of. by rewrite E. Qed.

Lemma wf_regions_replace p p' l :
  wf_regions (p :: l) -> wf_pregion p' -> pr_range p' = pr_range p -> wf_regions (p' :: l).
Proof.
  rewrite !wf_regions_cons. intros (_ & Hn & He & Hall & Hl) Hp' E. unfold pr_pages in *.
  rewrite E. done.
Qed.

(** What changing one page from [b] to [negb b] does to the pages in use. *)
Definition only_page (b : bool) (a : Z) (l l' : list pregion) : Prop :=
  (forall x, page_in (fun p a => eqb (page_used p a) b) l' x <->
     page_in (fun p a => eqb (page_used p a) b) l x /\ x <> a) /\
  (forall x, page_in (fun p a => eqb (page_used p a) (negb b)) l' x <->
     page_in (fun p a => eqb (page_used p a) (negb b)) l x \/ x = a).

Lemma only_page_here b a p p' l :
  wf_regions (p :: l) -> pr_range p' = pr_range p -> is_page_of p a -> page_used p a = b ->
  (forall x, is_page_of p x ->
     page_used p' x = if decide (x = a) then negb b else page_used p x) ->
  only_page b a (p :: l) (p' :: l).
Proof.
  intros Hl E Ha Hu Hx.
  assert (Hne : forall q x, page_in q l x -> x <> a).
  { intros q x (r & Hr & Hrx & _) ->. by apply (page_region_unique l p a Hl Ha r Hr). }
  split; intros x; rewrite (page_in_ext _ p p' l x E), page_in_cons.
  - split.
    + intros [[H1 H2]|H1]; [|eauto]. rewrite Hx in H2 by done. case_decide; [by destruct b|eauto].
    + intros [[[H1 H2]|H1] H3]; [left|by right]. split; [done|]. by rewrite Hx, decide_False.
  - split.
    + intros [[H1 H2]|H1]; [|by left; right]. rewrite Hx in H2 by done. case_decide; [by right|]. by left; left.
    + intros [[[H1 H2]|H1]| ->]; [left|by right|left].
      * split; [done|]. rewrite Hx by done. case_decide; [by destruct b|done].
      * split; [done|]. rewrite Hx, decide_True by done. by destruct b.
Qed.

Lemma only_page_there b a p l l' :
  only_page b a l l' -> ~ is_page_of p a -> only_page b a (p :: l) (p :: l').
Proof.
  intros [H1 H2] Hp. split; intros x; rewrite !page_in_cons; [rewrite H1|rewrite H2].
  - split; [|tauto]. intros [[H3 H4]|[H3 H4]]; [|tauto]. split; [by left|]. by intros ->.
  - tauto.
Qed.

Lemma only_page_free a l l' :
  only_page false a l l' ->
  (forall x, page_free l' x <-> page_free l x /\ x <> a) /\
  (forall x, page_allocated l' x <-> page_allocated l x \/ x = a).
Proof.
  assert (H : forall l x, (page_in (fun p a => eqb (page_used p a) false) l x <-> page_free l x) /\
    (page_in (fun p a => eqb (page_used p a) true) l x <-> page_allocated l x)).
  { intros k x. unfold page_free, page_allocated, page_in.
    split; split; intros (p & ? & ? & Hp); exists p; split_and!; try done; by destruct (page_used p x). }
  intros [H1 H2]. split; intros x.
  - by rewrite <- !(proj1 (H _ x)).
  - by rewrite <- !(proj2 (H _ x)).
Qed.

Lemma only_page_used a l l' :
  only_page true a l l' ->
  (forall x, page_allocated l' x <-> page_allocated l x /\ x <> a) /\
  (forall x, page_free l' x <-> page_free l x \/ x = a).
Proof.
  assert (H : forall l x, (page_in (fun p a => eqb (page_used p a) false) l x <-> page_free l x) /\
    (page_in (fun p a => eqb (page_used p a) true) l x <-> page_allocated l x)).
  { intros k x. unfold page_free, page_allocated, page_in.
    split; split; intros (p & ? & ? & Hp); exists p; split_and!; try done; by destruct (page_used p x). }
  intros [H1 H2]. split; intros x.
  - by rewrite <- !(proj2 (H _ x)).
  - by rewrite <- !(proj1 (H _ x)).
Qed.

Lemma allocate_from_regions_Ok l :
  wf_regions l ->
  exists r l', allocate_from_regions l = Ok (r, l') /\ wf_regions l' /\ pr_range <$> l' = pr_range <$> l /\
    match r with
    | Some page => free_pages l' = free_pages l - 1 /\ only_page false (page_address page) l l' /\
        page_free l (page_address page)
    | None => l' = l /\ free_pages l = 0
    end.
Proof.
  induction l as [|p l IH]; intros Hl; [by eexists _, _|].
  pose proof Hl as Hl'. apply wf_regions_cons in Hl' as (Hp & Hn & Hend & Hall & Hl').
  cbn [allocate_from_regions]. destruct (pr_allocate_page_Ok p Hp) as (r & p' & -> & Hp' & Er & H). run.
  destruct r as [page|].
  - destruct H as (H1 & H2 & H3 & H4). eexists _, _. split; [done|].
    split; [by apply (wf_regions_replace p)|]. split; [cbn; by rewrite Er|].
    split; [cbn [free_pages]; lia|]. split; [by apply only_page_here|].
    unfold page_free. rewrite page_in_cons. left. by rewrite H2.
  - destruct H as (-> & H0 & H1). destruct (IH Hl') as (r & l' & -> & Hwf & Err & H). run.
    eexists _, _. split; [done|].
    assert (Hwf' : wf_regions (p :: l')).
    { apply wf_regions_cons. split_and!; try done. by apply (Forall_ranges (fun r => r_end (pr_range p) <= r_begin r) l). }
    split; [done|]. split; [cbn; by rewrite Err|]. destruct r as [page|].
    + destruct H as (H2 & H3 & H4). split; [cbn [free_pages]; lia|].
      assert (Hnp : ~ is_page_of p (page_address page)).
      { intros Hpg. destruct H4 as (q & Hq & Hqa & _).
        by apply (page_region_unique l p _ Hl Hpg q Hq). }
      split; [by apply only_page_there|]. unfold page_free. rewrite page_in_cons. by right.
    + destruct H as [-> H2]. split; [done|]. cbn [free_pages]. lia.
Qed.

Lemma free_pages_nonneg l : wf_regions l -> 0 <= free_pages l /\ free_pages l * page_size <= 2 ^ 47.
Proof.
  intros Hl. destruct (free_pages_bound l 0 Hl); [lia| |lia]. destruct Hl as [Ha _ _].
  eapply Forall_impl; [exact Ha|]. intros q Hq. by destruct (pr_range_pages q Hq) as (_ & _ & ? & _).
Qed.

Lemma mm_allocate_page_Ok mm m should_zero :
  wf_mm mm -> 0 < free_pages (m_physical_regions mm) ->
  exists page mm', let a := page_address page in
    mm_allocate_page mm m should_zero = Ok (page, mm',
      if should_zero then zero_memory m (physical_to_virtual a) page_size else m) /\
    wf_mm mm' /\ page_free (m_physical_regions mm) a /\
    free_pages (m_physical_regions mm') = free_pages (m_physical_regions mm) - 1 /\
    (forall x, page_free (m_physical_regions mm') x <-> page_free (m_physical_regions mm) x /\ x <> a) /\
    (forall x, page_allocated (m_physical_regions mm') x <->
       page_allocated (m_physical_regions mm) x \/ x = a).
Proof.
  intros [Hr Hb] Hpos. unfold mm_allocate_page.
  destruct (allocate_from_regions_Ok _ Hr) as (r & l' & -> & Hl' & _ & H). run.
  destruct r as [page|]; [|destruct H; lia]. destruct H as (H1 & H2 & H3).
  eexists _, _. split; [done|]. destruct (free_pages_nonneg _ Hr). split.
  - split; [done|]. cbn [m_free_physical_bytes m_physical_regions]. rewrite H1, Hb.
    unfold page_size in *. rewrite wrap64_small by (unfold is_u64; lia). lia.
  - split; [done|]. split; [done|]. by apply only_page_free.
Qed.

(** ** Release *)

Lemma free_pages_insert l i p p' :
  l !! i = Some p ->
  free_pages (<[i := p']> l) = free_pages l - pr_free_pages p + pr_free_pages p'.
Proof.
  revert i. induction l as [|q l IH]; intros [|i] Hi; try done.
  - injection Hi as ->. cbn [list_insert insert free_pages]. lia.
  - change (<[S i := p']> (q :: l)) with (q :: <[i := p']> l). cbn [free_pages].
    rewrite (IH i Hi). lia.
Qed.

Lemma ranges_insert (l : list pregion) i p p' :
  l !! i = Some p -> pr_range p' = pr_range p ->
  pr_range <$> (<[i := p']> l) = pr_range <$> l.
Proof.
  intros Hi E. rewrite list_fmap_insert, E. apply list_insert_id. by rewrite list_lookup_fmap, Hi.
Qed.

Lemma wf_regions_insert l i p p' :
  wf_regions l -> l !! i = Some p -> wf_pregion p' -> pr_range p' = pr_range p ->
  wf_regions (<[i := p']> l).
Proof.
  revert i. induction l as [|q l IH]; intros [|i] Hl Hi Hp' E; try done.
  - injection Hi as ->. by apply (wf_regions_replace p).
  - apply wf_regions_cons in Hl as (Hq & Hn & Hend & Hall & Hl).
    change (<[S i := p']> (q :: l)) with (q :: <[i := p']> l). apply wf_regions_cons. split_and!; try done; [|by apply IH].
    apply (Forall_ranges (fun r => r_end (pr_range q) <= r_begin r) l); [|done].
    by apply (ranges_insert l i p p').
Qed.

Lemma only_page_insert b a l i p p' :
  wf_regions l -> l !! i = Some p -> pr_range p' = pr_range p -> is_page_of p a ->
  page_used p a = b ->
  (forall x, is_page_of p x -> page_used p' x = if decide (x = a) then negb b else page_used p x) ->
  only_page b a l (<[i := p']> l).
Proof.
  revert i. induction l as [|q l IH]; intros [|i] Hl Hi E Ha Hu Hx; try done.
  - injection Hi as ->. by apply only_page_here.
  - pose proof Hl as Hl'. apply wf_regions_cons in Hl' as (_ & _ & _ & _ & Hl').
    change (<[S i := p']> (q :: l)) with (q :: <[i := p']> l). apply only_page_there; [by apply (IH i)|].
    intros Hq. apply (page_region_unique l q a Hl Hq p); [|done].
    by apply list_elem_of_lookup_2 with i.
Qed.

Lemma regions_apart l i j p q :
  wf_regions l -> l !! i = Some p -> l !! j = Some q -> (i < j)%nat ->
  r_end (pr_range p) <= r_begin (pr_range q).
Proof.
  revert i j. induction l as [|x l IH]; intros [|i] [|j] Hl Hi Hj Hij; try done; try lia.
  - injection Hi as ->. apply wf_regions_cons in Hl as (_ & _ & _ & Hall & _).
    rewrite Forall_forall in Hall. apply Hall. by apply list_elem_of_lookup_2 with j.
  - apply wf_regions_cons in Hl as (_ & _ & _ & _ & Hl). apply (IH i j Hl Hi Hj). lia.
Qed.

Lemma region_begin l i p :
  wf_regions l -> l !! i = Some p -> wf_pregion p /\ r_begin (pr_range p) < r_end (pr_range p).
Proof.
  intros [Ha _ Hn] Hi. rewrite Forall_forall in Ha, Hn. apply list_elem_of_lookup_2 in Hi.
  split; [by apply Ha|]. destruct (Hn p Hi) as [Hpos _].
  destruct (pr_range_pages p (Ha p Hi)) as (-> & _). unfold page_size. lia.
Qed.

Lemma regions_sorted l :
  wf_regions l -> StronglySorted (fun p q => r_begin (pr_range p) <= r_begin (pr_range q)) l.
Proof.
  induction l as [|p l IH]; intros Hl; [constructor|].
  destruct (region_begin (p :: l) 0 p Hl eq_refl) as [_ Hb].
  apply wf_regions_cons in Hl as (_ & _ & _ & Hall & Hl). constructor; [by apply IH|].
  eapply Forall_impl; [exact Hall|]. cbn. lia.
Qed.

(** The search finds the region that contains the address, when there is one. *)
Lemma responsible_Ok l page :
  wf_regions l ->
  exists r, physical_region_responsible_for_page l page = Ok r /\
    match r with
    | Some i => exists p, 0 <= i /\ l !! Z.to_nat i = Some p /\ in_range (pr_range p) (page_address page)
    | None => forall p, p ∈ l -> ~ in_range (pr_range p) (page_address page)
    end.
Proof.
  intros Hl. unfold physical_region_responsible_for_page. set (a := page_address page).
  destruct (lower_bound_Ok (fun a p => a <? r_begin (pr_range p)) (fun p a => r_begin (pr_range p) <? a)
    l a) as (k & -> & Hk).
  { apply (sorted_partitioned (fun p => r_begin (pr_range p))). by apply regions_sorted. }
  run. destruct Hk as [(v & Hv & H1 & H2)|(Hk & Hb & Ha)].
  - pose proof Hv as Hv'. apply read_at_Ok in Hv' as [Hk0 Hk].
    assert (E : r_begin (pr_range v) = a) by (bool_to_prop; lia).
    destruct (Z.eqb_spec k (Z.of_nat (length l))) as [->|Hne].
    { apply lookup_lt_Some in Hk. lia. }
    rewrite Hv. run. rewrite E, Z.eqb_refl. runb. eexists; split; [done|]. exists v.
    destruct (region_begin l _ v Hl Hk). unfold in_range. split_and!; try done; lia.
  - assert (Hel : (if k =? Z.of_nat (length l) then Ok true
        else read_at l k ≫= fun region => Ok (negb (r_begin (pr_range region) =? a))) = Ok true).
    { destruct (Z.eqb_spec k (Z.of_nat (length l))) as [->|Hne]; [done|].
      destruct (read_at_lt l k) as [v Hv]; [lia|]. rewrite Hv. run. apply read_at_Ok in Hv as [_ Hv].
      specialize (Ha _ _ Hv). f_equal. apply negb_true_iff. bool_to_prop. lia. }
    change (@mret result _ bool) with (@Ok bool). rewrite Hel. run.
    destruct (Z.eqb_spec k 0) as [->|Hk0].
    { eexists; split; [done|]. cbn. intros p Hp [Hin _]. apply list_elem_of_lookup in Hp as [j Hj].
      specialize (Ha _ _ Hj ltac:(lia)). bool_to_prop. lia. }
    destruct (read_at_lt l (k - 1)) as [v Hv]; [lia|]. rewrite Hv. run.
    apply read_at_Ok in Hv as [_ Hv]. eexists; split; [done|].
    destruct (r_contains (pr_range v) a) eqn:Ec.
    + exists v. apply r_contains_spec in Ec. split_and!; (done || lia).
    + apply r_contains_false in Ec. intros p Hp Hin. apply list_elem_of_lookup in Hp as [j Hj].
      pose proof (Hb _ _ Hv ltac:(lia)) as Hva. bool_to_prop. unfold in_range in *.
      destruct (decide (j = Z.to_nat (k - 1))) as [->|Hjk]; [simplify_eq; lia|].
      destruct (decide (Z.of_nat j < k)).
      * pose proof (regions_apart l j (Z.to_nat (k - 1)) p v Hl Hj Hv ltac:(lia)). lia.
      * specialize (Ha _ _ Hj ltac:(lia)). bool_to_prop. lia.
Qed.

Lemma mm_free_page_Ok mm page :
  wf_mm mm -> page_allocated (m_physical_regions mm) (page_address page) ->
  exists mm', mm_free_page mm page = Ok mm' /\ wf_mm mm' /\
    free_pages (m_physical_regions mm') = free_pages (m_physical_regions mm) + 1 /\
    (forall x, page_allocated (m_physical_regions mm') x <->
       page_allocated (m_physical_regions mm) x /\ x <> page_address page) /\
    (forall x, page_free (m_physical_regions mm') x <->
       page_free (m_physical_regions mm) x \/ x = page_address page).
Proof.
  intros [Hr Hb] Hal. unfold mm_free_page.
  destruct (responsible_Ok _ page Hr) as (r & -> & H). run.
  destruct Hal as (q & Hq & Hqa & Hqu). destruct r as [i|]; [|by destruct (H q Hq); apply Hqa].
  destruct H as (p & Hi & Hp & Hin). rewrite (proj2 (read_at_Ok _ _ p)) by done. run.
  destruct (region_begin _ _ p Hr Hp) as [Hwp _].
  assert (Hpa : is_page_of p (page_address page)) by (split; [done|apply Hqa]).
  assert (Hu : page_used p (page_address page) = true).
  { destruct (page_used p (page_address page)) eqn:E; [done|].
    exfalso. apply (page_free_allocated _ (page_address page) Hr); [|by exists q].
    exists p. split; [by eapply list_elem_of_lookup_2|]. by rewrite E. }
  destruct (pr_free_page_Ok p page Hwp) as [Hf _].
  destruct (Hf Hpa Hu) as (p' & -> & Hp' & Er & Hn & Hx). run.
  erewrite (proj2 (write_at_Ok _ _ _ _)); [|split; [apply lookup_lt_Some in Hp; lia|done]].
  run. eexists; split; [done|]. cbn [m_physical_regions].
  pose proof (free_pages_insert _ _ p p' Hp) as Hsum.
  assert (Hl' : wf_regions (<[Z.to_nat i := p']> (m_physical_regions mm)))
    by by apply (wf_regions_insert _ _ p).
  pose proof (free_pages_nonneg _ Hl'). destruct (free_pages_nonneg _ Hr). split; [|split; [lia|]].
  - split; [done|]. cbn [m_free_physical_bytes m_physical_regions]. rewrite Hsum, Hb.
    unfold page_size in *. rewrite wrap64_small by (unfold is_u64; lia). lia.
  - apply only_page_used. by apply (only_page_insert true _ _ _ p).
Qed.

(** ** Properties *)

(** C35: page allocation over all physical regions.  While some page is free,
    [allocate_page] returns a free page of one of the regions, which becomes the only
    page whose state changes, zero-filled when that was asked for, with every other word
    of memory untouched and the free-memory counter exact; it panics exactly when no
    page of any region is free. *)
Theorem mm_allocate_page_correct (mm : memory_manager) (m : memory) (should_zero : bool) :
  wf_mm mm ->
  ((forall a, ~ page_free (m_physical_regions mm) a) ->
   mm_allocate_page mm m should_zero = Fault KernelPanic) /\
  ((exists a, page_free (m_physical_regions mm) a) ->
   exists page mm' m', let a := page_address page in
     mm_allocate_page mm m should_zero = Ok (page, mm', m') /\ wf_mm mm' /\
     page_free (m_physical_regions mm) a /\
     m_free_physical_bytes mm' = m_free_physical_bytes mm - page_size /\
     (forall x, page_free (m_physical_regions mm') x <-> page_free (m_physical_regions mm) x /\ x <> a) /\
     (forall x, page_allocated (m_physical_regions mm') x <->
        page_allocated (m_physical_regions mm) x \/ x = a) /\
     (forall w, m' w = if should_zero && in_run (physical_to_virtual a) page_size w then 0 else m w)).
Proof.
  intros Hmm. pose proof (wfm_regions mm Hmm) as Hr. destruct (free_pages_nonneg _ Hr) as [Hnn _].
  split.
  - intros Hno. apply (free_pages_0 _ Hr) in Hno. unfold mm_allocate_page.
    destruct (allocate_from_regions_Ok _ Hr) as (r & l' & -> & Hl' & _ & H). run.
    destruct r as [page|]; [|done]. destruct H as [H _]. destruct (free_pages_nonneg _ Hl'). lia.
  - intros [a Ha]. destruct (mm_allocate_page_Ok mm m should_zero Hmm)
      as (page & mm' & -> & Hmm' & H1 & H2 & H3 & H4).
    { destruct (decide (free_pages (m_physical_regions mm) = 0)) as [E|E]; [|lia].
      exfalso. by apply (proj1 (free_pages_0 _ Hr) E a). }
    eexists _, _, _. split; [done|]. split; [done|]. split; [done|]. split; [|split; [done|split; [done|]]].
    + rewrite (wfm_bytes mm' Hmm'), (wfm_bytes mm Hmm). lia.
    + intros w. by destruct should_zero.
Qed.

(** Two regions, the first with one page and the second with six. *)
Definition example_regions : result memory_manager :=
  p ← pregion_make (Range 0x100000 0x101000);
  q ← pregion_make (Range 0x200000 0x206000);
  mret (MemoryManager [p; q] 0x7000).

Lemma example_regions_wf mm : example_regions = Ok mm -> wf_mm mm.
Proof.
  unfold example_regions.
  destruct (pregion_make_Ok (Range 0x100000 0x101000)) as (p & -> & Hp & Ep & Fp & _);
    [unfold wf_range; simpl; lia|reflexivity..|]. run.
  destruct (pregion_make_Ok (Range 0x200000 0x206000)) as (q & -> & Hq & Eq & Fq & _);
    [unfold wf_range; simpl; lia|reflexivity..|]. run.
  intros [= <-]. split; cbn [m_physical_regions m_free_physical_bytes free_pages].
  - rewrite !wf_regions_cons. unfold pr_pages. rewrite Ep, Eq. split_and!; try done.
    + constructor; [by rewrite Eq|constructor].
    + split; constructor.
  - rewrite Fp, Fq. unfold pr_pages. by rewrite Ep, Eq.
Qed.

Lemma mm_allocate_page_correct_witness :
  exists mm page mm' m', example_regions = Ok mm /\
    mm_allocate_page mm (fun _ => 7) true = Ok (page, mm', m') /\ wf_mm mm' /\
    page_address page = 0x100000 /\ m' 0xFFFF800000100008 = 0 /\ m' 0xFFFF800000101000 = 7.
Proof.
  destruct example_regions as [mm|] eqn:E; [|vm_compute in E; discriminate E].
  pose proof (example_regions_wf mm E) as Hmm.
  destruct (mm_allocate_page_correct mm (fun _ => 7) true Hmm) as [_ H].
  destruct H as (page & mm' & m' & E' & Hmm' & H1 & _ & _ & _ & Hm).
  { vm_compute in E. injection E as <-. exists 0x100000. eexists. split; [left|].
    split; [split; [unfold in_range; simpl; lia|reflexivity]|reflexivity]. }
  assert (Ea : page_address page = 0x100000).
  { vm_compute in E. injection E as <-.
    apply (f_equal (fun r => match r with Ok (p, _, _) => page_address p | Fault _ => 0 end)) in E'.
    vm_compute in E'. symmetry. exact E'. }
  exists mm, page, mm', m'. split; [reflexivity|]. split; [exact E'|]. split; [exact Hmm'|].
  split; [exact Ea|]. rewrite !Hm, Ea. split; reflexivity.
Defined.

(** Page release over all physical regions.  Freeing an allocated page finds the
    region it came from by binary search and frees exactly that page; freeing an address
    in no region panics, and freeing a page that is free (a double free) or an unaligned
    address of a region trips an assertion. *)
Theorem mm_free_page_correct (mm : memory_manager) (page : Page) :
  wf_mm mm ->
  (page_allocated (m_physical_regions mm) (page_address page) ->
   exists mm', mm_free_page mm page = Ok mm' /\ wf_mm mm' /\
     m_free_physical_bytes mm' = m_free_physical_bytes mm + page_size /\
     (forall x, page_allocated (m_physical_regions mm') x <->
        page_allocated (m_physical_regions mm) x /\ x <> page_address page) /\
     (forall x, page_free (m_physical_regions mm') x <->
        page_free (m_physical_regions mm) x \/ x = page_address page)) /\
  ((forall p, p ∈ m_physical_regions mm -> ~ in_range (pr_range p) (page_address page)) ->
   mm_free_page mm page = Fault KernelPanic) /\
  ((exists p, p ∈ m_physical_regions mm /\ in_range (pr_range p) (page_address page)) ->
   ~ page_allocated (m_physical_regions mm) (page_address page) ->
   mm_free_page mm page = Fault AssertionFailed).
Proof.
  intros Hmm. pose proof (wfm_regions mm Hmm) as Hr. split; [|split].
  - intros Ha. destruct (mm_free_page_Ok mm page Hmm Ha) as (mm' & -> & Hmm' & H1 & H2 & H3).
    eexists; split; [done|]. split_and!; try done.
    rewrite (wfm_bytes mm' Hmm'), (wfm_bytes mm Hmm). lia.
  - intros Hno. unfold mm_free_page. destruct (responsible_Ok _ page Hr) as (r & -> & H). run.
    destruct r as [i|]; [|done]. destruct H as (p & _ & Hp & Hin).
    exfalso. apply (Hno p); [by eapply list_elem_of_lookup_2|done].
  - intros (q & Hq & Hqin) Hno. unfold mm_free_page.
    destruct (responsible_Ok _ page Hr) as (r & -> & H). run.
    destruct r as [i|]; [|by destruct (H q Hq)]. destruct H as (p & Hi & Hp & Hin).
    rewrite (proj2 (read_at_Ok _ _ p)) by done. run.
    destruct (region_begin _ _ p Hr Hp) as [Hwp _].
    destruct (pr_free_page_Ok p page Hwp) as [_ Hf]. rewrite Hf; [done|].
    intros [Hpa Hu]. apply Hno. exists p. split; [by eapply list_elem_of_lookup_2|done].
Qed.

Lemma mm_free_page_correct_witness :
  exists mm, example_regions = Ok mm /\
    mm_free_page mm {| page_address := 0x150000 |} = Fault KernelPanic /\
    mm_free_page mm {| page_address := 0x201000 |} = Fault AssertionFailed.
Proof.
  destruct example_regions as [mm|] eqn:E; [|vm_compute in E; discriminate E].
  pose proof (example_regions_wf mm E) as Hmm. exists mm. split; [reflexivity|].
  vm_compute in E. injection E as E. split.
  - destruct (mm_free_page_correct mm {| page_address := 0x150000 |} Hmm) as (_ & H & _).
    apply H. rewrite <- E. cbn [m_physical_regions page_address]. intros p Hp.
    repeat (apply elem_of_cons in Hp as [->|Hp]; [unfold in_range; cbn; lia|]). by apply elem_of_nil in Hp.
  - destruct (mm_free_page_correct mm {| page_address := 0x201000 |} Hmm) as (_ & _ & H).
    apply H.
    + rewrite <- E. eexists. split; [right; left|unfold in_range; cbn; lia].
    + apply page_free_allocated; [apply (wfm_regions mm Hmm)|]. rewrite <- E. eexists.
      split; [right; left|]. split; [split; [unfold in_range; simpl; lia|reflexivity]|reflexivity].
Defined.
