(* ===== verification/AddressSpace.v ===== *)
(** Kernel/Memory/AddressSpace.{h,cpp} and GenericPagingTable.{h,cpp}, the 64-bit build:
    four levels of paging tables in physical memory, read and written through the direct
    mapping, and the operations that map, unmap and look up pages in them.  The lock
    makes each operation one step; flushing the TLB has no effect on the tables. *)
From S2P Require Import Prelude Page Range Utilities BitArray PhysicalRegion PagingEntry PhysicalMemory.

(** ** Data *)

(** [Kernel/Memory/VirtualRegion.h:11-15] IsSupervisor *)
Inductive IsSupervisor := UNSPECIFIED | YES | NO.

#[export] Instance IsSupervisor_eq_dec : EqDecision IsSupervisor.
Proof. solve_decision. Defined.

(** [Kernel/Memory/GenericPagingTable.h:14-18] entry_count and entry_size *)
Definition table_entry_count : Z := 512.
Definition table_entry_size : Z := 8.

(** [Kernel/Memory/AddressSpace.h:131-132] m_physical_pages and m_main_page *)
Record address_space := AddressSpace {
  m_physical_pages : list Page;
  m_main_page : Page;
}.

(** The parts of the kernel the operations below read and write. *)
Record kernel := Kernel {
  k_mm : memory_manager;
  k_memory : memory;
}.

(** ** Access to the tables *)

Definition load_entry (m : memory) (pointer : Z) : entry := entry_of_word (m pointer).
Definition store_entry (m : memory) (pointer : Z) (e : entry) : memory :=
  store m pointer (word_of_entry e).

(** [Kernel/Memory/AddressSpace.cpp:584-594] entry_at: the address of an entry of the top table *)
Definition space_entry_at (sp : address_space) (index : Z) : Z :=
  physical_memory_base +! page_address (m_main_page sp) +! table_entry_size *! index.

(** [Kernel/Memory/GenericPagingTable.h:20-20] entry_at *)
Definition table_entry_at (table index : Z) : Z := table +! table_entry_size *! index.

(** [Kernel/Memory/GenericPagingTable.cpp:7-10] accessible_address_of, which is pdt_at and pt_at *)
Definition accessible_address_of (m : memory) (table index : Z) : Z :=
  physical_memory_base +! physical_address (load_entry m (table_entry_at table index)).

(** [Kernel/Memory/AddressSpace.cpp:573-576] pdpt_at *)
Definition pdpt_at (m : memory) (sp : address_space) (index : Z) : Z :=
  physical_memory_base +! physical_address (load_entry m (space_entry_at sp index)).

(** [Kernel/Memory/AddressSpace.h:36-36] PDT::pt_at *)
Definition pt_at (m : memory) (table index : Z) : Z := accessible_address_of m table index.

(** [Kernel/Memory/AddressSpace.h:41-41] PDPT::pdt_at *)
Definition pdt_at (m : memory) (table index : Z) : Z := accessible_address_of m table index.

(** [Kernel/Memory/AddressSpace.cpp:109-117] virtual_address_as_paging_indices *)
Definition virtual_address_as_paging_indices (virtual_address : Z) : Z * Z * Z * Z :=
  let pml4_index := Z.land (Z.shiftr virtual_address 39) (table_entry_count - 1) in
  let pdpt_index := Z.land (Z.shiftr virtual_address 30) (table_entry_count - 1) in
  let pdt_index := Z.land (Z.shiftr virtual_address 21) (table_entry_count - 1) in
  let pt_index := Z.land (Z.shiftr virtual_address 12) (table_entry_count - 1) in
  (pml4_index, pdpt_index, pdt_index, pt_index).

(** ** Mapping *)

(** [Kernel/Memory/AddressSpace.cpp:286-294] pointing an entry at a page with the caller's rights *)
Definition point_entry (m : memory) (pointer address : Z) (is_supervisor : IsSupervisor) : memory :=
  let e := set_physical_address (load_entry m pointer) address in
  store_entry m pointer
    (if decide (is_supervisor = YES) then make_supervisor_present e else make_user_present e).

(** [Kernel/Memory/AddressSpace.cpp:247-258] allocating the table of an entry that has none; the entry is looked up again after the allocation *)
Definition ensure_table (slot : memory -> Z) (is_supervisor : IsSupervisor)
    (sp : address_space) (k : kernel) : result (address_space * kernel) :=
  if negb (is_present (load_entry (k_memory k) (slot (k_memory k)))) then
    '(page, mm, m) ← mm_allocate_page (k_mm k) (k_memory k) true;
    let sp := AddressSpace (m_physical_pages sp ++ [page]) (m_main_page sp) in
    mret (sp, Kernel mm (point_entry m (slot m) (page_address page) is_supervisor))
  else mret (sp, k).

(** [Kernel/Memory/AddressSpace.cpp:233-295] map_page *)
Definition map_page (virtual_address address : Z) (is_supervisor : IsSupervisor)
    (sp : address_space) (k : kernel) : result (address_space * kernel) :=
  _ ← ASSERT (is_aligned virtual_address);
  _ ← ASSERT (is_aligned address);
  let '(first, second, third, fourth) := virtual_address_as_paging_indices virtual_address in
  '(sp, k) ← ensure_table (fun _ => space_entry_at sp first) is_supervisor sp k;
  '(sp, k) ← ensure_table (fun m => table_entry_at (pdpt_at m sp first) second) is_supervisor sp k;
  '(sp, k) ← ensure_table (fun m => table_entry_at (pdt_at m (pdpt_at m sp first) second) third)
    is_supervisor sp k;
  let m := k_memory k in
  let page_entry := table_entry_at (pt_at m (pdt_at m (pdpt_at m sp first) second) third) fourth in
  mret (sp, Kernel (k_mm k) (point_entry m page_entry address is_supervisor)).

(** [Kernel/Memory/AddressSpace.cpp:297-346] map_huge_page *)
Definition map_huge_page (virtual_address address : Z) (is_supervisor : IsSupervisor)
    (sp : address_space) (k : kernel) : result (address_space * kernel) :=
  _ ← ASSERT (is_huge_aligned virtual_address);
  _ ← ASSERT (is_huge_aligned address);
  let '(first, second, third, _) := virtual_address_as_paging_indices virtual_address in
  '(sp, k) ← ensure_table (fun _ => space_entry_at sp first) is_supervisor sp k;
  '(sp, k) ← ensure_table (fun m => table_entry_at (pdpt_at m sp first) second) is_supervisor sp k;
  let m := k_memory k in
  let page_entry := table_entry_at (pdt_at m (pdpt_at m sp first) second) third in
  let e := set_physical_address (load_entry m page_entry) address in
  let e := if decide (is_supervisor = YES) then make_supervisor_present e else make_user_present e in
  mret (sp, Kernel (k_mm k) (store_entry m page_entry (set_huge e true))).

(** [Kernel/Memory/AddressSpace.cpp:356-359] the loop of map_range, from page [i] *)
Fixpoint map_range_loop (count : nat) (i : Z) (virtual_range physical_range : range)
    (is_supervisor : IsSupervisor) (sp : address_space) (k : kernel)
  : result (address_space * kernel) :=
  match count with
  | O => mret (sp, k)
  | S count =>
      let offset := i *! page_size in
      '(sp, k) ← map_page (r_begin virtual_range +! offset) (r_begin physical_range +! offset)
        is_supervisor sp k;
      map_range_loop count (i + 1) virtual_range physical_range is_supervisor sp k
  end.

(** [Kernel/Memory/AddressSpace.cpp:349-360] map_range *)
Definition map_range (virtual_range physical_range : range) (is_supervisor : IsSupervisor)
    (sp : address_space) (k : kernel) : result (address_space * kernel) :=
  _ ← ASSERT (is_aligned (r_begin virtual_range));
  _ ← ASSERT (is_aligned (r_begin physical_range));
  let page_count := r_length virtual_range / page_size in
  map_range_loop (Z.to_nat page_count) 0 virtual_range physical_range is_supervisor sp k.

(** [Kernel/Memory/AddressSpace.cpp:372-375] the loop of map_huge_range, from page [i] *)
Fixpoint map_huge_range_loop (count : nat) (i : Z) (virtual_range physical_range : range)
    (is_supervisor : IsSupervisor) (sp : address_space) (k : kernel)
  : result (address_space * kernel) :=
  match count with
  | O => mret (sp, k)
  | S count =>
      let offset := i *! huge_size in
      '(sp, k) ← map_huge_page (r_begin virtual_range +! offset) (r_begin physical_range +! offset)
        is_supervisor sp k;
      map_huge_range_loop count (i + 1) virtual_range physical_range is_supervisor sp k
  end.

(** [Kernel/Memory/AddressSpace.cpp:363-376] map_huge_range *)
Definition map_huge_range (virtual_range physical_range : range) (is_supervisor : IsSupervisor)
    (sp : address_space) (k : kernel) : result (address_space * kernel) :=
  _ ← ASSERT (is_huge_aligned (r_begin virtual_range));
  _ ← ASSERT (is_huge_aligned (r_length virtual_range));
  _ ← ASSERT (is_huge_aligned (r_begin physical_range));
  _ ← ASSERT (is_huge_aligned (r_length physical_range));
  let page_count := r_length virtual_range / huge_size in
  map_huge_range_loop (Z.to_nat page_count) 0 virtual_range physical_range is_supervisor sp k.

(** [Kernel/Memory/AddressSpace.cpp:121-142] early_map_page, on the kernel's top table *)
Definition early_map_page (virtual_address address : Z) (sp : address_space) (m : memory)
  : result memory :=
  _ ← ASSERT (is_aligned virtual_address);
  let '(first, second, third, fourth) := virtual_address_as_paging_indices virtual_address in
  let pdpt := pdpt_at m sp first in
  _ ← ASSERT (is_present (load_entry m (space_entry_at sp first)));
  _ ← ASSERT (is_present (load_entry m (table_entry_at pdpt second)));
  _ ← ASSERT (is_present (load_entry m (table_entry_at (pdt_at m pdpt second) third)));
  let pointer := table_entry_at (pt_at m (pdt_at m pdpt second) third) fourth in
  mret (store_entry m pointer
    (make_supervisor_present (set_physical_address (load_entry m pointer) address))).

(** [Kernel/Memory/AddressSpace.cpp:160-177] early_map_huge_page *)
Definition early_map_huge_page (virtual_address address : Z) (sp : address_space) (m : memory)
  : result memory :=
  _ ← ASSERT (is_huge_aligned virtual_address);
  _ ← ASSERT (is_huge_aligned address);
  let '(first, second, third, _) := virtual_address_as_paging_indices virtual_address in
  let pdpt := pdpt_at m sp first in
  _ ← ASSERT (is_present (load_entry m (space_entry_at sp first)));
  _ ← ASSERT (is_present (load_entry m (table_entry_at pdpt second)));
  let pointer := table_entry_at (pdt_at m pdpt second) third in
  mret (store_entry m pointer
    (set_huge (make_supervisor_present (set_physical_address (load_entry m pointer) address)) true)).

(** ** Unmapping and lookup *)

(** [Kernel/Memory/AddressSpace.cpp:421-440] local_unmap_page *)
Definition local_unmap_page (virtual_address : Z) (sp : address_space) (m : memory)
  : result memory :=
  _ ← ASSERT (is_aligned virtual_address);
  let '(first, second, third, fourth) := virtual_address_as_paging_indices virtual_address in
  let pointer := table_entry_at (pt_at m (pdt_at m (pdpt_at m sp first) second) third) fourth in
  mret (store_entry m pointer (set_present (load_entry m pointer) false)).

(** [Kernel/Memory/AddressSpace.cpp:449-452] the loop of local_unmap_range, from page [i] *)
Fixpoint local_unmap_range_loop (count : nat) (i : Z) (r : range) (sp : address_space) (m : memory)
  : result memory :=
  match count with
  | O => mret m
  | S count =>
      let offset := i *! page_size in
      m ← local_unmap_page (r_begin r +! offset) sp m;
      local_unmap_range_loop count (i + 1) r sp m
  end.

(** [Kernel/Memory/AddressSpace.cpp:443-453] local_unmap_range *)
Definition local_unmap_range (r : range) (sp : address_space) (m : memory) : result memory :=
  _ ← ASSERT (is_aligned (r_begin r));
  let page_count := r_length r / page_size in
  local_unmap_range_loop (Z.to_nat page_count) 0 r sp m.

(** [Kernel/Memory/AddressSpace.cpp:455-472] physical_address_of; [nullptr] is 0 *)
Definition physical_address_of (virtual_address : Z) (sp : address_space) (m : memory) : result Z :=
  _ ← ASSERT (is_aligned virtual_address);
  let '(first, second, third, fourth) := virtual_address_as_paging_indices virtual_address in
  let pdpt := pdpt_at m sp first in
  if negb (is_present (load_entry m (space_entry_at sp first))) then mret 0
  else if negb (is_present (load_entry m (table_entry_at pdpt second))) then mret 0
  else if negb (is_present (load_entry m (table_entry_at (pdt_at m pdpt second) third))) then mret 0
  else mret (physical_address (load_entry m
    (table_entry_at (pt_at m (pdt_at m pdpt second) third) fourth))).

(** ** Creation and destruction *)

(** [Kernel/Memory/MemoryManager.h:46-47] kernel_first_table_index and kernel_last_table_index *)
Definition kernel_first_table_index : Z := 256.
Definition kernel_last_table_index : Z := 511.

(** [Kernel/Memory/MemoryManager.cpp:446-452] MemoryManager::inititalize(AddressSpace&): the kernel half of the current top table is copied *)
Definition initialize_space (current directory : address_space) (m : memory) : memory :=
  let byte_offset := kernel_first_table_index * table_entry_size in
  let bytes_to_copy := (kernel_last_table_index - kernel_first_table_index + 1) * table_entry_size in
  let new_directory := physical_to_virtual (page_address (m_main_page directory)) in
  let cur_directory := physical_to_virtual (page_address (m_main_page current)) in
  fun a => if in_run (new_directory + byte_offset) bytes_to_copy a
           then m (cur_directory + (a - new_directory)) else m a.

(** [Kernel/Memory/AddressSpace.cpp:20-29] AddressSpace(), once the kernel's own space exists *)
Definition make_address_space (current : address_space) (k : kernel) : result (address_space * kernel) :=
  '(page, mm, m) ← mm_allocate_page (k_mm k) (k_memory k) true;
  let sp := AddressSpace [] page in
  mret (sp, Kernel mm (initialize_space current sp m)).

(** [Kernel/Memory/MemoryManager.cpp:946-947] freeing a list of pages *)
Fixpoint free_page_list (pages : list Page) (mm : memory_manager) : result memory_manager :=
  match pages with
  | [] => mret mm
  | page :: pages => mm ← mm_free_page mm page; free_page_list pages mm
  end.

(** [Kernel/Memory/MemoryManager.cpp:941-952] free_address_space; [active] is the top table in CR3 and [of_kernel] the kernel's *)
Definition free_address_space (active of_kernel : Z) (sp : address_space) (mm : memory_manager)
  : result memory_manager :=
  _ ← ASSERT (negb (page_address (m_main_page sp) =? of_kernel));
  _ ← ASSERT (negb (page_address (m_main_page sp) =? active));
  mm ← free_page_list (m_physical_pages sp) mm;
  mm_free_page mm (m_main_page sp).
