(* ===== verification/PageWalk.v ===== *)
(** What the paging tables of Kernel/Memory/AddressSpace.cpp mean: the walk from the top
    table, the translation it gives, the invariant that the tables form a tree of
    distinct allocated pages, and how writing one entry or adding one table changes the
    walks. *)
From S2P Require Import Prelude Page Range Utilities BitArray PhysicalRegion PagingEntry PhysicalMemory AddressSpace.

(** ** The walk *)

(** Where the entry of a table in physical page [t] lies. *)
Definition slot (t i : Z) : Z := physical_to_virtual t + table_entry_size * i.

Definition entry_in (m : memory) (t i : Z) : entry := load_entry m (slot t i).

(** The table an entry points at, if it is present and not a huge page. *)
Definition table_of (e : entry) : option Z :=
  if is_present e && negb (is_huge e) then Some (physical_address e) else None.

Definition step (m : memory) (t i : Z) : option Z := table_of (entry_in m t i).

Definition walk (m : memory) (root : Z) (path : list Z) : option Z :=
  foldl (fun t i => t ≫= fun t => step m t i) (Some root) path.

(** The page and the attributes a page of virtual memory has: a 4 KiB page of the last
    level or a part of a 2 MiB page of the level above. *)
Definition translate (m : memory) (root i j k l : Z) : option (Z * Z) :=
  pdt ← walk m root [i; j];
  let e := entry_in m pdt k in
  if negb (is_present e) then None
  else if is_huge e then Some (physical_address e + l * page_size, attributes e)
  else
    let e := entry_in m (physical_address e) l in
    if is_present e then Some (physical_address e, attributes e) else None.

Definition valid_path (path : list Z) : Prop := Forall (fun i => 0 <= i < table_entry_count) path.

(** A page that can hold a table: below the end of the direct mapping, not free. *)
Definition table_page (l : list pregion) (t : Z) : Prop :=
  0 <= t < 2 ^ 47 /\ t mod page_size = 0 /\ ~ page_free l t.

(** The tables form a tree: every table the walk reaches is an allocated page and is
    reached by one path only. *)
Record wf_tables (m : memory) (l : list pregion) (root : Z) : Prop := {
  wft_words a : is_u64 (m a);
  wft_page path t : valid_path path -> (length path <= 3)%nat -> walk m root path = Some t ->
    table_page l t;
  wft_inj p q t : valid_path p -> valid_path q -> (length p <= 3)%nat -> (length q <= 3)%nat ->
    walk m root p = Some t -> walk m root q = Some t -> p = q;
}.

(** ** Slots *)

Lemma physical_to_virtual_eq t : 0 <= t < 2 ^ 47 -> physical_to_virtual t = physical_memory_base + t.
Proof.
  intros H. unfold physical_to_virtual. apply wrap64_small. unfold is_u64, physical_memory_base. lia.
Qed.

Lemma slot_inj l t i t' i' :
  table_page l t -> table_page l t' -> 0 <= i < table_entry_count -> 0 <= i' < table_entry_count ->
  slot t i = slot t' i' -> t = t' /\ i = i'.
Proof.
  intros (Ht & Hta & _) (Ht' & Hta' & _) Hi Hi'. unfold slot. rewrite !physical_to_virtual_eq by done.
  unfold table_entry_size, table_entry_count, page_size in *. intros E.
  enough (t = t') by lia. dlia.
Qed.

(** A slot of a table is not in another page. *)
Lemma slot_outside t i p :
  0 <= t < 2 ^ 47 -> t mod page_size = 0 -> 0 <= p < 2 ^ 47 -> p mod page_size = 0 -> t <> p ->
  0 <= i < table_entry_count -> in_run (physical_to_virtual p) page_size (slot t i) = false.
Proof.
  intros Ht Hta Hp Hpa Hne Hi. unfold slot. rewrite !physical_to_virtual_eq by done.
  apply not_true_iff_false. rewrite in_run_spec.
  unfold table_entry_size, table_entry_count, page_size in *. intros E. apply Hne. dlia.
Qed.

Lemma slot_inside p i :
  0 <= i < table_entry_count -> in_run (physical_to_virtual p) page_size (slot p i) = true.
Proof. intros Hi. apply in_run_spec. unfold slot, table_entry_size, table_entry_count, page_size in *. lia. Qed.

Lemma load_store_same m a e : wf_entry e -> load_entry (store_entry m a e) a = e.
Proof.
  intros He. unfold load_entry, store_entry, store. rewrite decide_True by done. by apply entry_word_entry.
Qed.

Lemma load_store_other m a b e : b <> a -> load_entry (store_entry m a e) b = load_entry m b.
Proof. intros H. unfold load_entry, store_entry, store. by rewrite decide_False. Qed.

(** ** Walks *)

Lemma walk_snoc m root path i : walk m root (path ++ [i]) = walk m root path ≫= fun t => step m t i.
Proof. unfold walk. by rewrite foldl_app. Qed.

Lemma walk_None m root path rest :
  walk m root path = None -> walk m root (path ++ rest) = None.
Proof.
  intros H. induction rest as [|i rest IH] using rev_ind; [by rewrite app_nil_r|].
  by rewrite app_assoc, walk_snoc, IH.
Qed.

Lemma valid_snoc path i : valid_path (path ++ [i]) <-> valid_path path /\ 0 <= i < table_entry_count.
Proof. unfold valid_path. rewrite Forall_app, Forall_singleton. done. Qed.

Ltac vpath := unfold valid_path; repeat first [apply Forall_nil_2 | apply Forall_cons_2; [done|]].

(** Memories with the same entries in the tables reached have the same walks. *)
Lemma walk_ext m m' root path :
  valid_path path ->
  (forall p i t, valid_path (p ++ [i]) -> p ++ [i] `prefix_of` path -> walk m root p = Some t ->
     step m' t i = step m t i) ->
  walk m' root path = walk m root path.
Proof.
  intros Hv H. induction path as [|i path IH] using rev_ind; [done|].
  rewrite !walk_snoc. pose proof Hv as Hv'. apply valid_snoc in Hv' as [Hv1 Hi]. rewrite IH; [|done|].
  - destruct (walk m root path) as [t|] eqn:E; [|done]. by apply (H path i t).
  - intros p j t Hpv Hp. apply H; [done|]. by apply prefix_app_r.
Qed.

Section tree.
Context (m : memory) (l : list pregion) (root : Z) (Hwf : wf_tables m l root).

(** Writing the entry [i] of the table at [path] leaves every walk that does not go
    through that entry as it was. *)
Lemma walk_store path t i e q :
  valid_path path -> (length path <= 3)%nat -> walk m root path = Some t ->
  0 <= i < table_entry_count -> valid_path q -> (length q <= 4)%nat ->
  ~ path ++ [i] `prefix_of` q ->
  walk (store_entry m (slot t i) e) root q = walk m root q.
Proof using Hwf.
  intros Hv Hlen Hw Hi Hq Hlq Hno. apply walk_ext; [done|]. intros p j t' Hpv Hp Hwp.
  apply valid_snoc in Hpv as [Hpv Hj].
  assert (Hpl : (length p <= 3)%nat).
  { apply prefix_length in Hp. rewrite length_app in Hp. simpl in Hp. lia. }
  unfold step, entry_in. rewrite load_store_other; [done|]. intros E.
  apply (slot_inj l) in E as [-> ->]; [|by apply (wft_page m l root Hwf p)|by apply (wft_page m l root Hwf path)|done|done].
  rewrite (wft_inj m l root Hwf p path t Hpv Hv Hpl Hlen Hwp Hw) in Hp. done.
Qed.

(** An entry of another table, or another entry of this one, keeps its value. *)
Lemma entry_store path t i e path' t' i' :
  valid_path path -> (length path <= 3)%nat -> walk m root path = Some t ->
  valid_path path' -> (length path' <= 3)%nat -> walk m root path' = Some t' ->
  0 <= i < table_entry_count -> 0 <= i' < table_entry_count ->
  (path', i') <> (path, i) ->
  entry_in (store_entry m (slot t i) e) t' i' = entry_in m t' i'.
Proof using Hwf.
  intros Hv Hlen Hw Hv' Hlen' Hw' Hi Hi' Hne. unfold entry_in. apply load_store_other. intros E.
  apply (slot_inj l) in E as [-> ->]; [|by apply (wft_page m l root Hwf path')|by apply (wft_page m l root Hwf path)|done|done]. apply Hne.
  by rewrite (wft_inj m l root Hwf path' path t).
Qed.

Lemma words_store a e : wf_entry e -> forall b, is_u64 (store_entry m a e b).
Proof using Hwf.
  intros He b. unfold store_entry, store. case_decide; [by apply word_of_entry_u64|].
  by apply (wft_words m l root Hwf).
Qed.

(** Writing an entry that is no table (a page, a huge page, an absent entry) keeps the
    tree. *)
Lemma wf_tables_store path t i e :
  valid_path path -> (length path <= 3)%nat -> walk m root path = Some t ->
  0 <= i < table_entry_count -> wf_entry e -> length path = 3%nat \/ table_of e = None ->
  wf_tables (store_entry m (slot t i) e) l root.
Proof using Hwf.
  intros Hv Hlen Hw Hi He Hleaf.
  assert (Hold : forall q x, valid_path q -> (length q <= 3)%nat ->
    walk (store_entry m (slot t i) e) root q = Some x -> walk m root q = Some x).
  { intros q x Hq Hlq Hx.
    destruct (decide (path ++ [i] `prefix_of` q)) as [[r ->]|Hno].
    2:{ rewrite (walk_store path t i e q) in Hx; (done || lia). }
    exfalso. rewrite !length_app in Hlq. simpl in Hlq.
    destruct Hleaf as [Hl3|Hnone]; [lia|].
    rewrite walk_None in Hx; [done|]. rewrite walk_snoc.
    rewrite (walk_store path t i e path); try done; [|lia|].
    - rewrite Hw. cbn. unfold step, entry_in. by rewrite load_store_same.
    - intros Hp. apply prefix_length in Hp. rewrite length_app in Hp. simpl in Hp. lia. }
  split.
  - by apply words_store.
  - intros q x Hq Hlq Hx. apply (wft_page m l root Hwf q); [done..|]. by apply Hold.
  - intros p q x Hp Hq Hlp Hlq Hpx Hqx.
    apply (wft_inj m l root Hwf p q x); try done; by apply Hold.
Qed.
End tree.

(** ** A new table *)

Lemma zero_entry : is_present (entry_of_word 0) = false.
Proof. done. Qed.

Section new_table.
Context (m : memory) (l : list pregion) (root p : Z) (Hwf : wf_tables m l root).
Context (Hl : wf_regions l) (Hp : page_free l p).

#[local] Abbreviation m1 := (zero_memory m (physical_to_virtual p) page_size).

Lemma new_page_range : 0 <= p < 2 ^ 47 /\ p mod page_size = 0.
Proof using Hl Hp. by apply (page_in_range (fun p a => negb (page_used p a)) l). Qed.

Lemma table_not_new path t :
  valid_path path -> (length path <= 3)%nat -> walk m root path = Some t -> t <> p.
Proof using Hwf Hp. intros Hv Hlen Hw ->. by apply (wft_page m l root Hwf path p). Qed.

Lemma entry_zeroed path t i :
  valid_path path -> (length path <= 3)%nat -> walk m root path = Some t ->
  0 <= i < table_entry_count -> entry_in m1 t i = entry_in m t i.
Proof using Hwf Hl Hp.
  intros Hv Hlen Hw Hi. unfold entry_in, load_entry, zero_memory.
  destruct (wft_page m l root Hwf path t Hv Hlen Hw) as (H1 & H2 & _).
  destruct new_page_range. by rewrite slot_outside by eauto using table_not_new.
Qed.

Lemma walk_zeroed path :
  valid_path path -> (length path <= 4)%nat -> walk m1 root path = walk m root path.
Proof using Hwf Hl Hp.
  intros Hv Hlen. apply walk_ext; [done|]. intros q i t Hq Hpre Hw. apply valid_snoc in Hq as [Hq Hi].
  apply prefix_length in Hpre. rewrite length_app in Hpre. simpl in Hpre.
  unfold step. rewrite (entry_zeroed q); (done || lia).
Qed.

Lemma wf_tables_zeroed : wf_tables m1 l root.
Proof using Hwf Hl Hp.
  split.
  - intros a. unfold zero_memory. case_match; [unfold is_u64; lia|]. by apply (wft_words m l root Hwf).
  - intros path t Hv Hlen. rewrite walk_zeroed by (done || lia). by apply (wft_page m l root Hwf).
  - intros q r t Hq Hr Hlq Hlr. rewrite !walk_zeroed by (done || lia). by apply (wft_inj m l root Hwf).
Qed.

Context (path : list Z) (t i : Z) (e : entry).
Context (Hv : valid_path path) (Hlen : (length path <= 2)%nat) (Hw : walk m root path = Some t).
Context (Hi : 0 <= i < table_entry_count) (He : wf_entry e) (Hte : table_of e = Some p).

#[local] Abbreviation m2 := (store_entry m1 (slot t i) e).

Lemma walk_new_other q :
  valid_path q -> (length q <= 3)%nat -> ~ path ++ [i] `prefix_of` q -> walk m2 root q = walk m root q.
Proof using Hwf Hl Hp Hv Hlen Hw Hi.
  intros Hq Hlq Hno. rewrite (walk_store m1 l root wf_tables_zeroed path t i e q);
    try (done || lia).
  - apply walk_zeroed; (done || lia).
  - rewrite walk_zeroed; (done || lia).
Qed.

Lemma walk_new : walk m2 root (path ++ [i]) = Some p.
Proof using Hwf Hl Hp Hv Hlen Hw Hi He Hte.
  rewrite walk_snoc, walk_new_other, Hw; [|done|lia|].
  - cbn. unfold step, entry_in. rewrite load_store_same by done. exact Hte.
  - intros H. apply prefix_length in H. rewrite length_app in H. simpl in H. lia.
Qed.

Lemma entry_new j : 0 <= j < table_entry_count -> entry_in m2 p j = entry_of_word 0.
Proof using Hwf Hl Hp Hv Hlen Hw Hi.
  intros Hj. unfold entry_in. rewrite load_store_other.
  - unfold load_entry, zero_memory. by rewrite slot_inside.
  - intros E. pose proof (slot_inside p j Hj) as H.
    destruct (wft_page m l root Hwf path t Hv ltac:(lia) Hw) as (H1 & H2 & _).
    destruct new_page_range as [H3 H4]. rewrite E in H.
    pose proof (table_not_new path t Hv ltac:(lia) Hw) as Hne.
    rewrite (slot_outside t i p) in H; done.
Qed.

Lemma entry_new_other q x j :
  valid_path q -> (length q <= 3)%nat -> walk m root q = Some x -> 0 <= j < table_entry_count ->
  (q, j) <> (path, i) -> entry_in m2 x j = entry_in m x j.
Proof using Hwf Hl Hp Hv Hlen Hw Hi.
  intros Hq Hlq Hx Hj Hne.
  rewrite (entry_store m1 l root wf_tables_zeroed path t i e q x j);
    try (done || lia || (rewrite walk_zeroed; (done || lia))).
  by apply (entry_zeroed q).
Qed.

Lemma walk_new_cases q x :
  valid_path q -> (length q <= 3)%nat -> walk m2 root q = Some x ->
  walk m root q = Some x \/ (q = path ++ [i] /\ x = p).
Proof using Hwf Hl Hp Hv Hlen Hw Hi He Hte.
  intros Hq Hlq Hx. destruct (decide (path ++ [i] `prefix_of` q)) as [[r ->]|Hno].
  2:{ left. by rewrite walk_new_other in Hx. }
  right. destruct r as [|j r].
  { rewrite app_nil_r in *. rewrite walk_new in Hx. by simplify_eq. }
  exfalso. rewrite cons_middle, app_assoc in Hx. rewrite walk_None in Hx; [done|].
  rewrite walk_snoc, walk_new. cbn. unfold step. rewrite entry_new; [done|].
  apply Forall_app in Hq as [_ Hq]. by apply Forall_cons in Hq as [Hq _].
Qed.

Lemma wf_tables_new l' :
  (forall x, page_free l' x <-> page_free l x /\ x <> p) -> wf_tables m2 l' root.
Proof using Hwf Hl Hp Hv Hlen Hw Hi He Hte.
  intros Hl'. split.
  - by apply (words_store m1 l root wf_tables_zeroed).
  - intros q x Hq Hlq Hx. apply walk_new_cases in Hx as [Hx|[-> ->]]; [| |done..].
    + destruct (wft_page m l root Hwf q x Hq Hlq Hx) as (H1 & H2 & H3).
      split; [done|]. split; [done|]. rewrite Hl'. tauto.
    + destruct new_page_range. split; [done|]. split; [done|]. rewrite Hl'. tauto.
  - intros q r x Hq Hr Hlq Hlr Hqx Hrx.
    apply walk_new_cases in Hqx as [Hqx|[-> ->]]; [| |done..];
      apply walk_new_cases in Hrx as [Hrx|[-> E]]; try done.
    + by apply (wft_inj m l root Hwf q r x).
    + subst x. by destruct (table_not_new q p Hq Hlq Hqx).
    + by destruct (table_not_new r p Hr Hlr Hrx).
Qed.

Context (Habsent : is_present (entry_in m t i) = false).

(** The new, empty table changes no translation. *)
Lemma translate_new a b c d :
  valid_path [a; b; c; d] -> translate m2 root a b c d = translate m root a b c d.
Proof using All.
  intros Hq. unfold valid_path in Hq. rewrite !Forall_cons in Hq. destruct Hq as (Ha & Hb & Hc & Hd & _).
  assert (Hab : valid_path [a; b]) by vpath.
  assert (Hstep : step m t i = None) by (unfold step, table_of; by rewrite Habsent).
  unfold translate. destruct (decide (path ++ [i] `prefix_of` [a; b])) as [[r E]|Hno].
  - (* the two top levels go through the new entry *)
    rewrite E, (walk_None m root (path ++ [i])) by (rewrite walk_snoc, Hw; exact Hstep).
    destruct (walk m2 root ((path ++ [i]) ++ r)) as [x|] eqn:Ex; [|done]. cbn [mbind option_bind].
    rewrite <- E in Ex. apply walk_new_cases in Ex as [Ex|[E' ->]]; [| |done|simpl; lia].
    + rewrite E, (walk_None m root (path ++ [i])) in Ex by (rewrite walk_snoc, Hw; exact Hstep). done.
    + by rewrite entry_new.
  - rewrite walk_new_other by (done || (simpl; lia)).
    destruct (walk m root [a; b]) as [pdt|] eqn:Ex; [|done]. cbn [mbind option_bind].
    destruct (decide (([a; b], c) = (path, i))) as [E|Hne].
    + apply pair_eq in E as [E1 E2]. rewrite E1, Hw in Ex. injection Ex as Ex.
      rewrite <- Ex, E2, Habsent. cbn [negb].
      assert (E3 : entry_in m2 t i = e) by by apply load_store_same. rewrite !E3.
      unfold table_of in Hte. destruct (is_present e), (is_huge e); try done.
      cbn [negb andb] in *. injection Hte as ->. by rewrite entry_new.
    + rewrite (entry_new_other [a; b]) by (done || (simpl; lia)).
      set (e' := entry_in m pdt c). destruct (is_present e') eqn:E1; [|done].
      destruct (is_huge e') eqn:E2; [done|]. cbn [negb].
      rewrite (entry_new_other [a; b; c]); try done.
      * vpath.
      * change [a; b; c] with ([a; b] ++ [c]). rewrite walk_snoc, Ex. cbn [mbind option_bind].
        unfold step, table_of. fold e'. by rewrite E1, E2.
      * intros [= E3 _]. rewrite <- E3 in Hlen. simpl in Hlen. lia.
Qed.
End new_table.
