(* ===== verification/AddressSpaceCorrect.v ===== *)
(** The operations of Kernel/Memory/AddressSpace.cpp against the meaning of the tables:
    mapping and unmapping change the translation of the pages named and of no other page,
    keep the tree of tables, and take pages only from free memory; destroying an address
    space returns every page it took. *)
From S2P Require Import Prelude Page Range Utilities BitArray PhysicalRegion PagingEntry PhysicalMemory AddressSpace PageWalk.

(** ** Writing the last level *)

Lemma app_not_prefix (q : list Z) i r : (length r <= length q)%nat -> ~ q ++ [i] `prefix_of` r.
Proof. intros H Hp. apply prefix_length in Hp. rewrite length_app in Hp. simpl in Hp. lia. Qed.

Lemma valid_quad i j k l :
  valid_path [i; j; k; l] <->
  (0 <= i < table_entry_count /\ 0 <= j < table_entry_count) /\
  (0 <= k < table_entry_count /\ 0 <= l < table_entry_count).
Proof. unfold valid_path. rewrite !Forall_cons, Forall_nil. tauto. Qed.

Section store.
Context (m : memory) (l : list pregion) (root : Z) (Hwf : wf_tables m l root).

Lemma walk_three a b c pdt :
  walk m root [a; b] = Some pdt -> walk m root [a; b; c] = step m pdt c.
Proof. intros H. change [a; b; c] with ([a; b] ++ [c]). by rewrite walk_snoc, H. Qed.

Lemma translate_leaf i j k n pt e a b c d :
  valid_path [i; j; k; n] -> valid_path [a; b; c; d] -> walk m root [i; j; k] = Some pt -> wf_entry e ->
  translate (store_entry m (slot pt n) e) root a b c d =
    if decide ((a, b, c, d) = (i, j, k, n))
    then if is_present e then Some (physical_address e, attributes e) else None
    else translate m root a b c d.
Proof using Hwf.
  rewrite !valid_quad. intros ([Hi Hj] & Hk & Hn) ([Ha Hb] & Hc & Hd) Hw He.
  assert (Hp : valid_path [i; j; k]) by vpath. assert (Hab : valid_path [a; b]) by vpath.
  unfold translate.
  rewrite (walk_store m l root Hwf [i; j; k]) by (done || (simpl; lia) || (by apply app_not_prefix; simpl; lia)).
  destruct (walk m root [a; b]) as [pdt|] eqn:Ex; cbn [mbind option_bind].
  2:{ case_decide as E; [|done]. simplify_eq. change [i; j; k] with ([i; j] ++ [k]) in Hw.
      by rewrite walk_None in Hw. }
  rewrite (entry_store m l root Hwf [i; j; k] pt n e [a; b] pdt c) by (done || (simpl; lia)).
  pose proof (walk_three a b c pdt Ex) as Hthree. unfold step, table_of in Hthree.
  set (e' := entry_in m pdt c) in *. destruct (is_present e') eqn:E1; cbn [negb andb] in *.
  2:{ case_decide as E; [|done]. simplify_eq. }
  destruct (is_huge e') eqn:E2; cbn [negb andb] in *.
  { case_decide as E; [|done]. simplify_eq. }
  case_decide as E.
  - simplify_eq. unfold entry_in. by rewrite load_store_same.
  - rewrite (entry_store m l root Hwf [i; j; k] pt n e [a; b; c] _ d); try done; [vpath|].
    intros E'. apply E. by simplify_eq.
Qed.

Lemma translate_huge i j k n pdt e a b c d :
  valid_path [i; j; k; n] -> valid_path [a; b; c; d] -> walk m root [i; j] = Some pdt -> wf_entry e ->
  is_present e = true -> is_huge e = true ->
  translate (store_entry m (slot pdt k) e) root a b c d =
    if decide ((a, b, c) = (i, j, k)) then Some (physical_address e + d * page_size, attributes e)
    else translate m root a b c d.
Proof using Hwf.
  rewrite !valid_quad. intros ([Hi Hj] & Hk & Hn) ([Ha Hb] & Hc & Hd) Hw He Hpr Hhu.
  assert (Hp : valid_path [i; j]) by vpath. assert (Hab : valid_path [a; b]) by vpath.
  unfold translate.
  rewrite (walk_store m l root Hwf [i; j]) by (done || (simpl; lia) || (by apply app_not_prefix; simpl; lia)).
  destruct (walk m root [a; b]) as [x|] eqn:Ex; cbn [mbind option_bind].
  2:{ case_decide as E; [|done]. by simplify_eq. }
  case_decide as E.
  { simplify_eq. assert (E : entry_in (store_entry m (slot pdt k) e) pdt k = e) by by apply load_store_same.
    by rewrite E, Hpr, Hhu. }
  assert (Hne1 : ([a; b], c) <> ([i; j], k)) by (intros E'; apply E; by simplify_eq).
  rewrite (entry_store m l root Hwf [i; j] pdt k e [a; b] x c) by (done || (simpl; lia)).
  pose proof (walk_three a b c x Ex) as Hthree. unfold step, table_of in Hthree.
  set (e' := entry_in m x c) in *. destruct (is_present e') eqn:E1; cbn [negb andb] in *; [|done].
  destruct (is_huge e') eqn:E2; cbn [negb andb] in *; [done|].
  assert (Habc : valid_path [a; b; c]) by vpath.
  assert (Hne : ([a; b; c], d) <> ([i; j], k)) by (intros E'; inversion E').
  by rewrite (entry_store m l root Hwf [i; j] pdt k e [a; b; c] _ d Hp ltac:(simpl; lia) Hw Habc ltac:(simpl; lia) Hthree Hk Hd Hne).
Qed.
End store.

(** ** Pointers *)

Lemma wft_root m l root : wf_tables m l root -> table_page l root.
Proof. intros H. apply (wft_page m l root H []); [constructor|simpl; lia|done]. Qed.

Lemma path_facts i j k :
  valid_path [i; j; k] ->
  0 <= i < table_entry_count /\ 0 <= j < table_entry_count /\ 0 <= k < table_entry_count /\
  valid_path [i] /\ valid_path [i; j].
Proof.
  unfold valid_path. rewrite !Forall_cons. intros (? & ? & ? & _). split_and!; try lia; vpath.
Qed.

Lemma table_entry_slot t i :
  t mod page_size = 0 -> 0 <= i < table_entry_count ->
  table_entry_at (physical_to_virtual t) i = slot t i.
Proof.
  intros Hta Hi. unfold table_entry_at, slot, physical_to_virtual.
  unfold table_entry_size, table_entry_count, physical_memory_base, page_size in *.
  rewrite (wrap64_small (8 * i)) by (unfold is_u64; lia). apply wrap64_small. unfold is_u64, wrap64. dlia.
Qed.

Lemma step_pointer m t i x :
  step m t i = Some x ->
  x mod page_size = 0 /\ physical_memory_base +! physical_address (entry_in m t i) = physical_to_virtual x.
Proof.
  unfold step, table_of. intros H. case_match; simplify_eq. split; [|done].
  unfold physical_address, page_size. rewrite Z.shiftl_mul_pow2 by lia. by apply Z.mod_mul.
Qed.

Section pointers.
Context (m : memory) (sp : address_space).
Let root := page_address (m_main_page sp).
Context (Hroot : root mod page_size = 0).

Lemma space_entry_slot i : 0 <= i < table_entry_count -> space_entry_at sp i = slot root i.
Proof using Hroot. intros Hi. by apply (table_entry_slot root i). Qed.

Context (i j k : Z) (Hij : valid_path [i; j; k]).

Lemma pdpt_slot x y :
  walk m root [i] = Some x -> 0 <= y < table_entry_count ->
  x mod page_size = 0 /\ pdpt_at m sp i = physical_to_virtual x /\
  table_entry_at (pdpt_at m sp i) y = slot x y.
Proof using Hroot Hij.
  destruct (path_facts i j k Hij) as (Hi & Hj & Hk & H1 & H2). intros Hw Hy.
  destruct (step_pointer m root i x Hw) as [Hx E]. split; [done|].
  assert (E' : pdpt_at m sp i = physical_to_virtual x) by (unfold pdpt_at; by rewrite space_entry_slot).
  split; [done|]. rewrite E'. by apply table_entry_slot.
Qed.

Lemma pdt_slot x y :
  walk m root [i; j] = Some x -> 0 <= y < table_entry_count ->
  x mod page_size = 0 /\ pdt_at m (pdpt_at m sp i) j = physical_to_virtual x /\
  table_entry_at (pdt_at m (pdpt_at m sp i) j) y = slot x y.
Proof using Hroot Hij.
  destruct (path_facts i j k Hij) as (Hi & Hj & Hk & H1 & H2). intros Hw Hy.
  change [i; j] with ([i] ++ [j]) in Hw. rewrite walk_snoc in Hw.
  destruct (walk m root [i]) as [t|] eqn:Et; [|done]. cbn [mbind option_bind] in Hw.
  destruct (step_pointer m t j x Hw) as [Hx E]. split; [done|].
  assert (E' : pdt_at m (pdpt_at m sp i) j = physical_to_virtual x).
  { unfold pdt_at, accessible_address_of. by rewrite (proj2 (proj2 (pdpt_slot t j Et Hj))). }
  split; [done|]. rewrite E'. by apply table_entry_slot.
Qed.

Lemma pt_slot x y :
  walk m root [i; j; k] = Some x -> 0 <= y < table_entry_count ->
  table_entry_at (pt_at m (pdt_at m (pdpt_at m sp i) j) k) y = slot x y.
Proof using Hroot Hij.
  destruct (path_facts i j k Hij) as (Hi & Hj & Hk & H1 & H2). intros Hw Hy.
  change [i; j; k] with ([i; j] ++ [k]) in Hw. rewrite walk_snoc in Hw.
  destruct (walk m root [i; j]) as [t|] eqn:Et; [|done]. cbn [mbind option_bind] in Hw.
  destruct (step_pointer m t k x Hw) as [Hx E].
  unfold pt_at, accessible_address_of at 1. rewrite (proj2 (proj2 (pdt_slot t k Et Hk))).
  fold (entry_in m t k). rewrite E. by apply table_entry_slot.
Qed.
End pointers.

(** ** Adding the tables a page needs *)

(** No huge page lies on the path. *)
Definition no_huge (m : memory) (root : Z) (path : list Z) : Prop :=
  forall p i t, p ++ [i] `prefix_of` path -> walk m root p = Some t ->
    is_present (entry_in m t i) = true -> is_huge (entry_in m t i) = false.

(** The attributes a mapped page gets. *)
Definition page_attributes (is_supervisor : IsSupervisor) : Z :=
  if decide (is_supervisor = YES) then 3 else 7.

(** Every table on the path gives the rights of such a page, as the processor asks of all levels. *)
Definition allows (is_supervisor : IsSupervisor) (m : memory) (root : Z) (path : list Z) : Prop :=
  forall p i t, p ++ [i] `prefix_of` path -> walk m root p = Some t ->
    is_present (entry_in m t i) = true ->
    Z.land (attributes (entry_in m t i)) (page_attributes is_supervisor) = page_attributes is_supervisor.

(** Paths keep giving the rights: the tables that are added give them. *)
Definition keeps_rights (is_supervisor : IsSupervisor) (root : Z) (m m' : memory) : Prop :=
  forall q, valid_path q -> (length q <= 3)%nat -> allows is_supervisor m root q -> allows is_supervisor m' root q.

(** The pages taken from the free ones. *)
Record took (l l' : list pregion) (new : list Z) : Prop := {
  took_nodup : NoDup new;
  took_free x : x ∈ new -> page_free l x;
  took_free_now x : page_free l' x <-> page_free l x /\ x ∉ new;
  took_allocated_now x : page_allocated l' x <-> page_allocated l x \/ x ∈ new;
  took_count : free_pages l' = free_pages l - Z.of_nat (length new);
}.

Lemma took_nil l : took l l [].
Proof. split; try (intros x; set_solver); [constructor|simpl; lia]. Qed.

Lemma took_app l1 l2 l3 n1 n2 : took l1 l2 n1 -> took l2 l3 n2 -> took l1 l3 (n1 ++ n2).
Proof.
  intros [A1 A2 A3 A4 A5] [B1 B2 B3 B4 B5]. split.
  - apply NoDup_app. split_and!; try done. intros x Hx Hx'. apply B2, A3 in Hx'. tauto.
  - intros x Hx. apply elem_of_app in Hx as [Hx|Hx]; [by apply A2|]. apply B2, A3 in Hx. tauto.
  - intros x. rewrite B3, A3, not_elem_of_app. tauto.
  - intros x. rewrite B4, A4, elem_of_app. tauto.
  - rewrite B5, A5, length_app. lia.
Qed.

(** What creating empty tables preserves. *)
Record grown (root : Z) (sp : address_space) (k : kernel) (sp' : address_space) (k' : kernel) : Prop := {
  g_main : m_main_page sp' = m_main_page sp;
  g_mm : wf_mm (k_mm k');
  g_wf : wf_tables (k_memory k') (m_physical_regions (k_mm k')) root;
  g_translate a b c d : valid_path [a; b; c; d] ->
    translate (k_memory k') root a b c d = translate (k_memory k) root a b c d;
  g_huge q : valid_path q -> (length q <= 3)%nat -> no_huge (k_memory k) root q -> no_huge (k_memory k') root q;
  g_walk q t : valid_path q -> (length q <= 3)%nat -> walk (k_memory k) root q = Some t ->
    walk (k_memory k') root q = Some t;
  g_tables q t : valid_path q -> (length q <= 3)%nat -> walk (k_memory k') root q = Some t ->
    walk (k_memory k) root q = Some t \/ page_free (m_physical_regions (k_mm k)) t;
  g_pages : exists new, m_physical_pages sp' = m_physical_pages sp ++ new /\
    took (m_physical_regions (k_mm k)) (m_physical_regions (k_mm k')) (page_address <$> new);
  g_frame x w : table_page (m_physical_regions (k_mm k)) x ->
    (forall q, valid_path q -> (length q <= 3)%nat -> walk (k_memory k) root q <> Some x) ->
    in_run (physical_to_virtual x) page_size w = true -> k_memory k' w = k_memory k w;
}.

Lemma grown_refl root sp k :
  wf_mm (k_mm k) -> wf_tables (k_memory k) (m_physical_regions (k_mm k)) root -> grown root sp k sp k.
Proof.
  intros H1 H2. split; try done; [by left|]. exists []. by rewrite app_nil_r; split; [|apply took_nil].
Qed.

Lemma grown_trans root sp1 k1 sp2 k2 sp3 k3 :
  grown root sp1 k1 sp2 k2 -> grown root sp2 k2 sp3 k3 -> grown root sp1 k1 sp3 k3.
Proof.
  intros A B. destruct (g_pages _ _ _ _ _ A) as (n1 & E1 & T1), (g_pages _ _ _ _ _ B) as (n2 & E2 & T2).
  split.
  - by rewrite (g_main _ _ _ _ _ B), (g_main _ _ _ _ _ A).
  - apply B.
  - apply B.
  - intros. by rewrite (g_translate _ _ _ _ _ B), (g_translate _ _ _ _ _ A).
  - intros. eapply g_huge; [exact B|done..|]. by eapply g_huge.
  - intros. eapply g_walk; [exact B|done..|]. by eapply g_walk.
  - intros q t Hq Hl Hw. destruct (g_tables _ _ _ _ _ B q t Hq Hl Hw) as [H|H].
    + by apply (g_tables _ _ _ _ _ A).
    + right. by apply (took_free_now _ _ _ T1) in H as [H _].
  - exists (n1 ++ n2). rewrite E2, E1, app_assoc, fmap_app. split; [done|]. by eapply took_app.
  - intros x w Hx Hno Hin. rewrite (g_frame _ _ _ _ _ B x w); [by apply (g_frame _ _ _ _ _ A x)| | |done].
    + destruct Hx as (H1 & H2 & H3). split; [done|]. split; [done|].
      rewrite (took_free_now _ _ _ T1). tauto.
    + intros q Hq Hl Hw. destruct (g_tables _ _ _ _ _ A q x Hq Hl Hw) as [H|H].
      * by apply (Hno q).
      * by apply Hx.
Qed.

Lemma load_wf m l root t i : wf_tables m l root -> wf_entry (entry_in m t i).
Proof. intros H. apply entry_of_word_wf, (wft_words m l root H). Qed.

(** The entry [point_entry] writes. *)
Definition pointed (e : entry) (address : Z) (is_supervisor : IsSupervisor) : entry :=
  let e := set_physical_address e address in
  if decide (is_supervisor = YES) then make_supervisor_present e else make_user_present e.

Lemma pointed_fields e address is_supervisor :
  wf_entry e -> mappable address ->
  wf_entry (pointed e address is_supervisor) /\
  physical_address (pointed e address is_supervisor) = address /\
  attributes (pointed e address is_supervisor) = page_attributes is_supervisor /\
  is_present (pointed e address is_supervisor) = true /\
  is_huge (pointed e address is_supervisor) = false.
Proof.
  intros He Ha. pose proof (physical_address_set e address Ha) as Hp.
  unfold pointed, page_attributes. case_decide; (split; [eauto with kernel|]); done.
Qed.

Lemma point_entry_slot m t i address is_supervisor :
  point_entry m (slot t i) address is_supervisor =
  store_entry m (slot t i) (pointed (entry_in m t i) address is_supervisor).
Proof. done. Qed.

Section ensure.
Context (sp : address_space) (k : kernel) (is_supervisor : IsSupervisor).
Let root := page_address (m_main_page sp).
Context (Hmm : wf_mm (k_mm k)) (Hwf : wf_tables (k_memory k) (m_physical_regions (k_mm k)) root).

Lemma ensure_table_Ok (pointer : memory -> Z) path t i :
  valid_path (path ++ [i]) -> (length path <= 2)%nat -> walk (k_memory k) root path = Some t ->
  no_huge (k_memory k) root (path ++ [i]) ->
  (forall m, walk m root path = Some t -> pointer m = slot t i) ->
  (exists sp' k' x, ensure_table pointer is_supervisor sp k = Ok (sp', k') /\
     grown root sp k sp' k' /\ keeps_rights is_supervisor root (k_memory k) (k_memory k') /\
     walk (k_memory k') root (path ++ [i]) = Some x /\
     free_pages (m_physical_regions (k_mm k)) - 1 <= free_pages (m_physical_regions (k_mm k'))) \/
  (ensure_table pointer is_supervisor sp k = Fault KernelPanic /\
   free_pages (m_physical_regions (k_mm k)) = 0 /\ step (k_memory k) t i = None).
Proof using Hmm Hwf.
  intros Hv Hlen Hw Hnh Hptr. pose proof Hv as Hv'. apply valid_snoc in Hv' as [Hvp Hi].
  unfold ensure_table. rewrite (Hptr _ Hw). fold (entry_in (k_memory k) t i).
  destruct (is_present (entry_in (k_memory k) t i)) eqn:Epr; cbn [negb].
  { left. exists sp, k, (physical_address (entry_in (k_memory k) t i)). split; [done|].
    split; [by apply grown_refl|]. split; [by intros q Hq Hl|]. split; [|lia]. rewrite walk_snoc, Hw. cbn [mbind option_bind].
    unfold step, table_of. by rewrite Epr, (Hnh path i t). }
  assert (Hstep : step (k_memory k) t i = None) by (unfold step, table_of; by rewrite Epr).
  pose proof (wfm_regions _ Hmm) as Hr. destruct (free_pages_nonneg _ Hr) as [Hnn _].
  destruct (decide (free_pages (m_physical_regions (k_mm k)) = 0)) as [E0|E0].
  { right. split; [|done]. unfold mm_allocate_page.
    destruct (allocate_from_regions_Ok _ Hr) as (r & l' & -> & Hl' & _ & H). run.
    destruct r as [page|]; [|done]. destruct H as [H _]. destruct (free_pages_nonneg _ Hl'). lia. }
  left. destruct (mm_allocate_page_Ok (k_mm k) (k_memory k) true Hmm)
    as (page & mm' & -> & Hmm' & Hfree & Hcnt & Hf' & Ha'); [lia|]. run.
  set (p := page_address page) in *. set (m1 := zero_memory (k_memory k) (physical_to_virtual p) page_size).
  assert (Hw1 : walk m1 root path = Some t).
  { unfold m1. rewrite (walk_zeroed _ (m_physical_regions (k_mm k))); (done || lia). }
  rewrite (Hptr _ Hw1), point_entry_slot.
  assert (Hpm : mappable p).
  { destruct (page_in_range _ _ p Hr Hfree). unfold mappable. lia. }
  pose proof (wf_tables_zeroed _ _ root p Hwf Hr Hfree) as Hwf1.
  destruct (pointed_fields (entry_in m1 t i) p is_supervisor (load_wf _ _ _ t i Hwf1) Hpm)
    as (He & Hea & Hat & Hep & Heh).
  set (e := pointed (entry_in m1 t i) p is_supervisor) in *.
  assert (Hte : table_of e = Some p) by (unfold table_of; by rewrite Hep, Heh, Hea).
  eexists _, _, p. split; [done|]. cbn [k_memory k_mm m_physical_regions].
  pose proof (walk_new _ _ root p Hwf Hr Hfree path t i e Hvp Hlen Hw Hi He Hte) as Hnew.
  pose proof (walk_new_cases _ _ root p Hwf Hr Hfree path t i e Hvp Hlen Hw Hi He Hte) as Hcases.
  pose proof (entry_new _ _ root p Hwf Hr Hfree path t i e Hvp Hlen Hw Hi) as Hzero.
  pose proof (entry_new_other _ _ root p Hwf Hr Hfree path t i e Hvp Hlen Hw Hi) as Hother.
  pose proof (walk_new_other _ _ root p Hwf Hr Hfree path t i e Hvp Hlen Hw Hi) as Hwalk.
  fold m1 in Hnew, Hcases, Hzero, Hother, Hwalk.
  (* what holds of the entries of a path, and of the new one *)
  assert (Hpath : forall (P : entry -> Prop) q, valid_path q -> (length q <= 3)%nat -> P e ->
    (forall q1 j x, q1 ++ [j] `prefix_of` q -> walk (k_memory k) root q1 = Some x ->
       is_present (entry_in (k_memory k) x j) = true -> P (entry_in (k_memory k) x j)) ->
    forall q1 j x, q1 ++ [j] `prefix_of` q -> walk (store_entry m1 (slot t i) e) root q1 = Some x ->
      is_present (entry_in (store_entry m1 (slot t i) e) x j) = true -> P (entry_in (store_entry m1 (slot t i) e) x j)).
  { intros P q Hq Hlq HP Hnq q1 j x Hpre Hx.
    assert (Hq1 : valid_path (q1 ++ [j])).
    { destruct Hpre as [r ->]. by apply Forall_app in Hq as [Hq _]. }
    apply valid_snoc in Hq1 as [Hq1 Hj]. pose proof (prefix_length _ _ Hpre) as Hlp.
    rewrite length_app in Hlp. simpl in Hlp.
    destruct (Hcases q1 x Hq1 ltac:(lia) Hx) as [Hold|[-> ->]].
    - destruct (decide ((q1, j) = (path, i))) as [[= -> ->]|Hne].
      + simplify_eq. unfold entry_in. rewrite load_store_same by done. done.
      + rewrite (Hother q1); try (done || lia). by apply (Hnq q1).
    - by rewrite Hzero. }
  split; [|split; [|split; [exact Hnew|lia]]].
  2:{ intros q Hq Hlq Hall.
      refine (Hpath (fun e => Z.land (attributes e) (page_attributes is_supervisor) = page_attributes is_supervisor) q Hq Hlq _ Hall).
      rewrite Hat. apply Z.land_diag. }
  split; cbn [k_memory k_mm m_physical_regions m_main_page m_physical_pages]; try done.
  - by apply (wf_tables_new _ (m_physical_regions (k_mm k)) root p Hwf Hr Hfree path t i e Hvp Hlen Hw Hi He Hte).
  - intros a b c d. by apply (translate_new _ (m_physical_regions (k_mm k)) root p Hwf Hr Hfree path t i e).
  - intros q Hq Hlq Hnq. exact (Hpath (fun e => is_huge e = false) q Hq Hlq Heh Hnq).
  - intros q x Hq Hlq Hx. rewrite Hwalk; try done.
    intros [r ->]. rewrite walk_None in Hx; [done|]. by rewrite walk_snoc, Hw.
  - intros q x Hq Hlq Hx. destruct (Hcases q x Hq Hlq Hx) as [H|[_ ->]]; [by left|by right].
  - exists [page]. split; [done|]. cbn [fmap list_fmap length]. fold p. split.
    + apply NoDup_singleton.
    + intros x Hx. by apply list_elem_of_singleton in Hx as ->.
    + intros x. by rewrite Hf', list_elem_of_singleton.
    + intros x. by rewrite Ha', list_elem_of_singleton.
    + rewrite Hcnt. simpl. lia.
  - (* other pages are untouched *)
    intros x w (Hx1 & Hx2 & Hx3) Hno Hin. unfold store_entry, store.
    destruct (wft_page _ _ root Hwf path t Hvp ltac:(lia) Hw) as (Ht1 & Ht2 & _).
    rewrite decide_False.
    2:{ intros ->. rewrite (slot_outside t i x) in Hin; try done. intros ->. apply (Hno path); (done || lia). }
    unfold m1, zero_memory. destruct (in_run (physical_to_virtual p) page_size w) eqn:Ew; [|done]. exfalso.
    apply Hx3. replace x with p; [done|]. destruct (page_in_range _ _ p Hr Hfree) as [Hp1 Hp2].
    apply in_run_spec in Ew, Hin. rewrite !physical_to_virtual_eq in * by done.
    unfold page_size in *. dlia.
Qed.
End ensure.

(** ** Addresses and indices *)

(** The addresses four levels of tables translate: bits 48 to 63 repeat bit 47. *)
Definition canonical (va : Z) : Prop := 0 <= va < 2 ^ 47 \/ W64 - 2 ^ 47 <= va < W64.

(** The page of virtual memory with these indices. *)
Definition address_of_indices (ix : Z * Z * Z * Z) : Z :=
  let '(i, j, k, l) := ix in
  let a := ((i * 512 + j) * 512 + k) * 512 * 4096 + l * 4096 in
  if i <? 256 then a else a + (W64 - 2 ^ 48).

Lemma indices_eq va :
  virtual_address_as_paging_indices va =
  (va / 2 ^ 39 mod 512, va / 2 ^ 30 mod 512, va / 2 ^ 21 mod 512, va / 2 ^ 12 mod 512).
Proof.
  unfold virtual_address_as_paging_indices, table_entry_count.
  rewrite !(land_ones_mod _ 9) by done. by rewrite !Z.shiftr_div_pow2 by lia.
Qed.

Lemma indices_valid va :
  let '(i, j, k, l) := virtual_address_as_paging_indices va in valid_path [i; j; k; l].
Proof.
  rewrite indices_eq, valid_quad. unfold table_entry_count.
  split; split; apply Z.mod_pos_bound; lia.
Qed.

Lemma address_of_indices_eq va :
  canonical va -> va mod page_size = 0 -> address_of_indices (virtual_address_as_paging_indices va) = va.
Proof.
  intros Hc Ha. rewrite indices_eq. unfold address_of_indices, page_size in *.
  destruct (Z.ltb_spec (va / 2 ^ 39 mod 512) 256); destruct Hc; dlia.
Qed.

Lemma indices_inj va va' :
  canonical va -> canonical va' -> va mod page_size = 0 -> va' mod page_size = 0 ->
  virtual_address_as_paging_indices va = virtual_address_as_paging_indices va' -> va = va'.
Proof. intros H1 H2 H3 H4 E. rewrite <- (address_of_indices_eq va), E by done. by apply address_of_indices_eq. Qed.
