(* ===== verification/AddressSpaceMaps.v ===== *)
(** The theorems on mapping, unmapping and destroying address spaces
    (Kernel/Memory/AddressSpace.cpp, MemoryManager::free_address_space). *)
From S2P Require Import Prelude Page Range Utilities BitArray PhysicalRegion PagingEntry PhysicalMemory AddressSpace PageWalk AddressSpaceCorrect.

Abbreviation regions k := (m_physical_regions (k_mm k)).
Abbreviation top sp := (page_address (m_main_page sp)).

(** An address space: its tables form a tree, and the pages it lists as its own are
    distinct allocated pages, none of them the top table. *)
Record wf_space (sp : address_space) (k : kernel) : Prop := {
  wfs_mm : wf_mm (k_mm k);
  wfs_tables : wf_tables (k_memory k) (regions k) (top sp);
  wfs_nodup : NoDup (page_address <$> m_physical_pages sp);
  wfs_owned page : page ∈ m_physical_pages sp -> page_allocated (regions k) (page_address page);
  wfs_main : top sp ∉ page_address <$> m_physical_pages sp;
}.

(** The page and attributes of a virtual address. *)
Definition translate_address (m : memory) (sp : address_space) (va : Z) : option (Z * Z) :=
  let '(i, j, k, l) := virtual_address_as_paging_indices va in translate m (top sp) i j k l.

(** The tables above the page of an address hold no huge page. *)
Definition no_huge_at (m : memory) (sp : address_space) (va : Z) : Prop :=
  let '(i, j, k, _) := virtual_address_as_paging_indices va in no_huge m (top sp) [i; j; k].

(** The tables above the page of an address give the rights asked for. *)
Definition allows_at (is_supervisor : IsSupervisor) (m : memory) (sp : address_space) (va : Z) : Prop :=
  let '(i, j, k, _) := virtual_address_as_paging_indices va in allows is_supervisor m (top sp) [i; j; k].

Definition page_of_memory (va : Z) : Prop := canonical va /\ va mod page_size = 0.

(** Words of allocated pages that are not tables of this address space. *)
Definition untouched (sp : address_space) (k : kernel) (m' : memory) : Prop :=
  forall x w, table_page (regions k) x ->
    (forall q, valid_path q -> (length q <= 3)%nat -> walk (k_memory k) (top sp) q <> Some x) ->
    in_run (physical_to_virtual x) page_size w = true -> m' w = k_memory k w.

(** ** The tables of a path *)

Lemma top_aligned sp k : wf_space sp k -> top sp mod page_size = 0.
Proof. intros Hs. by destruct (wft_root _ _ _ (wfs_tables _ _ Hs)) as (_ & ? & _). Qed.

Lemma grown_space sp k sp' k' :
  wf_space sp k -> grown (top sp) sp k sp' k' -> wf_space sp' k'.
Proof.
  intros Hs G. pose proof (g_main _ _ _ _ _ G) as Em.
  destruct (g_pages _ _ _ _ _ G) as (new & E & T).
  assert (Hdis : forall x, x ∈ page_address <$> m_physical_pages sp -> x ∉ page_address <$> new).
  { intros x Hx Hn. apply (took_free _ _ _ T) in Hn.
    apply list_elem_of_fmap in Hx as (page & -> & Hx). apply (wfs_owned sp k Hs) in Hx.
    by apply (page_free_allocated (regions k) (page_address page) (wfm_regions _ (wfs_mm sp k Hs))). }
  split.
  - apply G.
  - rewrite Em. apply G.
  - rewrite E, fmap_app. apply NoDup_app. split; [apply Hs|]. split; [done|apply T].
  - intros page Hp. rewrite E in Hp. apply (took_allocated_now _ _ _ T).
    apply elem_of_app in Hp as [Hp|Hp]; [left; by apply (wfs_owned sp k Hs)|right].
    by apply list_elem_of_fmap_2.
  - rewrite E, fmap_app, Em, not_elem_of_app. split; [apply Hs|]. intros Hn.
    apply (took_free _ _ _ T) in Hn. by apply (wft_root _ _ _ (wfs_tables sp k Hs)).
Qed.

Lemma no_huge_prefix m root p q : p `prefix_of` q -> no_huge m root q -> no_huge m root p.
Proof. intros Hp H r i t Hr. apply H. by etransitivity. Qed.

Section path.
Context (sp : address_space) (k0 : kernel) (is_supervisor : IsSupervisor) (i j k : Z).
Context (Hs : wf_space sp k0) (Hv : valid_path [i; j; k]).

Lemma ensure_two :
  no_huge (k_memory k0) (top sp) [i; j] ->
  let run := ('(sp, k) ← ensure_table (fun _ => space_entry_at sp i) is_supervisor sp k0;
              ensure_table (fun m => table_entry_at (pdpt_at m sp i) j) is_supervisor sp k) in
  (exists sp' k' x, run = Ok (sp', k') /\ grown (top sp) sp k0 sp' k' /\
     keeps_rights is_supervisor (top sp) (k_memory k0) (k_memory k') /\
     walk (k_memory k') (top sp) [i; j] = Some x /\
     free_pages (regions k0) - 2 <= free_pages (regions k')) \/
  (run = Fault KernelPanic /\ free_pages (regions k0) < 2).
Proof using Hs Hv.
  intros Hnh. destruct (path_facts i j k Hv) as (Hi & Hj & Hk & H1 & H2). cbv zeta.
  destruct (ensure_table_Ok sp k0 is_supervisor (wfs_mm _ _ Hs) (wfs_tables _ _ Hs)
    (fun _ => space_entry_at sp i) [] (top sp) i) as [(sp1 & k1 & x1 & -> & G1 & A1 & W1 & F1)|(-> & F & _)];
    [done|simpl; lia|done|by eapply no_huge_prefix; [|exact Hnh]; exists [j]| | |right; split; [done|lia]].
  { intros m _. apply space_entry_slot; [|done]. apply (wft_root _ _ _ (wfs_tables _ _ Hs)). }
  run. pose proof (grown_space _ _ _ _ Hs G1) as Hs1. pose proof (g_main _ _ _ _ _ G1) as Em.
  destruct (ensure_table_Ok sp1 k1 is_supervisor (wfs_mm _ _ Hs1) (wfs_tables _ _ Hs1)
    (fun m => table_entry_at (pdpt_at m sp1 i) j) [i] x1 j) as [(sp2 & k2 & x2 & -> & G2 & A2 & W2 & F2)|(-> & F & _)];
    rewrite ?Em; [done|simpl; lia|done| | | |right; split; [done|lia]].
  - eapply g_huge; [exact G1|done|simpl; lia|done].
  - intros m Hm. rewrite <- Em in Hm. apply (pdpt_slot m sp1 (top_aligned _ _ Hs1) i j k); done.
  - left. rewrite Em in *. exists sp2, k2, x2. split; [done|]. split; [by eapply grown_trans|].
    split; [intros q Hq Hl Ha; by apply A2, A1|]. split; [exact W2|lia].
Qed.
End path.

(** Writing an entry of one of the space's tables keeps the space and touches no other
    page. *)
Lemma store_space sp k path t i e :
  wf_space sp k -> valid_path path -> (length path <= 3)%nat ->
  walk (k_memory k) (top sp) path = Some t -> 0 <= i < table_entry_count -> wf_entry e ->
  length path = 3%nat \/ table_of e = None ->
  wf_space sp (Kernel (k_mm k) (store_entry (k_memory k) (slot t i) e)) /\
  untouched sp k (store_entry (k_memory k) (slot t i) e).
Proof.
  intros Hs Hv Hlen Hw Hi He Hleaf. split.
  - destruct Hs as [H1 H2 H3 H4 H5]. split; try done. by eapply wf_tables_store.
  - intros x w (Hx1 & Hx2 & Hx3) Hno Hin. unfold store_entry, store. rewrite decide_False; [done|].
    intros ->. destruct (wft_page _ _ _ (wfs_tables _ _ Hs) path t Hv Hlen Hw) as (Ht1 & Ht2 & _).
    rewrite (slot_outside t i x) in Hin; try done. intros ->. by apply (Hno path).
Qed.

Lemma untouched_trans sp k sp' k' m :
  grown (top sp) sp k sp' k' -> untouched sp' k' m -> untouched sp k m.
Proof.
  intros G U x w Hx Hno Hin. destruct (g_pages _ _ _ _ _ G) as (new & _ & T).
  rewrite (U x w); [by eapply g_frame| | |done].
  - destruct Hx as (H1 & H2 & H3). split; [done|]. split; [done|].
    rewrite (took_free_now _ _ _ T). tauto.
  - rewrite (g_main _ _ _ _ _ G). intros q Hq Hl Hw.
    destruct (g_tables _ _ _ _ _ G q x Hq Hl Hw) as [H|H]; [by apply (Hno q)|by apply Hx].
Qed.

(** What mapping a page changes: the translation of the page, and of no other. *)
Record mapped (target : Z -> option (Z * Z)) (pages : Z -> Prop)
    (sp : address_space) (k : kernel) (sp' : address_space) (k' : kernel) : Prop := {
  mp_space : wf_space sp' k';
  mp_main : m_main_page sp' = m_main_page sp;
  mp_here va' : page_of_memory va' -> pages va' ->
    translate_address (k_memory k') sp' va' = target va';
  mp_there va' : page_of_memory va' -> ~ pages va' ->
    translate_address (k_memory k') sp' va' = translate_address (k_memory k) sp va';
  mp_pages : exists new, m_physical_pages sp' = m_physical_pages sp ++ new /\
    took (regions k) (regions k') (page_address <$> new);
  mp_tables q x : valid_path q -> (length q <= 3)%nat -> walk (k_memory k') (top sp) q = Some x ->
    walk (k_memory k) (top sp) q = Some x \/ page_free (regions k) x;
  mp_frame : untouched sp k (k_memory k');
}.

(** Writing a last-level entry changes one page's translation. *)
Section leaf.
Context (sp : address_space) (k : kernel) (va i j n o t : Z) (e : entry).
Context (Hs : wf_space sp k) (Hva : page_of_memory va).
Context (Eix : virtual_address_as_paging_indices va = (i, j, n, o)).
Context (Hw : walk (k_memory k) (top sp) [i; j; n] = Some t) (He : wf_entry e).

Lemma va_valid : valid_path [i; j; n; o].
Proof using Eix. pose proof (indices_valid va) as H. by rewrite Eix in H. Qed.

Lemma leaf_translate va' :
  page_of_memory va' ->
  translate_address (store_entry (k_memory k) (slot t o) e) sp va' =
    if decide (va' = va) then if is_present e then Some (physical_address e, attributes e) else None
    else translate_address (k_memory k) sp va'.
Proof using Hs Hva Eix Hw He.
  intros [Hc' Ha']. destruct Hva as [Hc Ha]. unfold translate_address.
  pose proof (indices_valid va') as Hv'.
  destruct (virtual_address_as_paging_indices va') as [[[a b] c] d] eqn:E'.
  rewrite (translate_leaf (k_memory k) _ _ (wfs_tables _ _ Hs) i j n o t e a b c d va_valid Hv' Hw He).
  destruct (decide (va' = va)) as [->|Hne].
  - rewrite Eix in E'. injection E' as -> -> -> ->. by rewrite decide_True.
  - rewrite decide_False; [done|]. intros E. apply Hne. apply indices_inj; try done. by rewrite E', Eix, E.
Qed.

Lemma leaf_path (P : entry -> Prop) va' :
  let '(a, b, c, _) := virtual_address_as_paging_indices va' in
  (forall p x y, p ++ [x] `prefix_of` [a; b; c] -> walk (k_memory k) (top sp) p = Some y ->
     is_present (entry_in (k_memory k) y x) = true -> P (entry_in (k_memory k) y x)) ->
  let m := store_entry (k_memory k) (slot t o) e in
  forall p x y, p ++ [x] `prefix_of` [a; b; c] -> walk m (top sp) p = Some y ->
    is_present (entry_in m y x) = true -> P (entry_in m y x).
Proof using Hs Hva Eix Hw.
  pose proof va_valid as Hv. apply valid_quad in Hv as ([Hi Hj] & Hn & Ho).
  assert (H3 : valid_path [i; j; n]) by vpath.
  pose proof (indices_valid va') as Hv'.
  destruct (virtual_address_as_paging_indices va') as [[[a b] c] d]. intros Hnh m p x y Hp Hy. unfold m in *.
  assert (Hlen : (length p <= 2)%nat).
  { apply prefix_length in Hp. rewrite length_app in Hp. simpl in Hp. lia. }
  assert (Hpv : valid_path (p ++ [x])).
  { destruct Hp as [r Hr]. change [a; b; c; d] with ([a; b; c] ++ [d]) in Hv'. rewrite Hr in Hv'.
    rewrite <- app_assoc in Hv'. by apply Forall_app in Hv' as [Hv' _]. }
  apply valid_snoc in Hpv as [Hpv Hx].
  rewrite (walk_store _ _ _ (wfs_tables _ _ Hs) [i; j; n]) in Hy;
    try (done || (simpl; lia)); [|apply app_not_prefix; simpl; lia].
  rewrite (entry_store _ _ _ (wfs_tables _ _ Hs) [i; j; n] t o e p y x); try (done || (simpl; lia)).
  - by apply (Hnh p).
  - intros E. injection E as E _. rewrite E in Hlen. simpl in Hlen. lia.
Qed.

Lemma leaf_no_huge va' :
  no_huge_at (k_memory k) sp va' -> no_huge_at (store_entry (k_memory k) (slot t o) e) sp va'.
Proof using Hs Hva Eix Hw.
  pose proof (leaf_path (fun e => is_huge e = false) va') as H. unfold no_huge_at.
  destruct (virtual_address_as_paging_indices va') as [[[a b] c] d]. exact H.
Qed.

Lemma leaf_allows is_supervisor va' :
  allows_at is_supervisor (k_memory k) sp va' -> allows_at is_supervisor (store_entry (k_memory k) (slot t o) e) sp va'.
Proof using Hs Hva Eix Hw.
  pose proof (leaf_path (fun e => Z.land (attributes e) (page_attributes is_supervisor) = page_attributes is_supervisor) va') as H.
  unfold allows_at. destruct (virtual_address_as_paging_indices va') as [[[a b] c] d]. exact H.
Qed.
End leaf.

Lemma grown_translate_address sp k sp' k' va :
  grown (top sp) sp k sp' k' ->
  translate_address (k_memory k') sp' va = translate_address (k_memory k) sp va.
Proof.
  intros G. unfold translate_address. pose proof (indices_valid va) as Hv.
  destruct (virtual_address_as_paging_indices va) as [[[i j] n] o].
  rewrite (g_main _ _ _ _ _ G). by eapply g_translate.
Qed.

Lemma grown_no_huge sp k sp' k' va :
  grown (top sp) sp k sp' k' -> no_huge_at (k_memory k) sp va -> no_huge_at (k_memory k') sp' va.
Proof.
  intros G. unfold no_huge_at. pose proof (indices_valid va) as Hv.
  destruct (virtual_address_as_paging_indices va) as [[[i j] n] o].
  rewrite (g_main _ _ _ _ _ G). apply (g_huge _ _ _ _ _ G); [|simpl; lia].
  apply valid_quad in Hv as ([Hi Hj] & Hn & Ho). vpath.
Qed.

Lemma keeps_allows is_supervisor sp k sp' k' va :
  m_main_page sp' = m_main_page sp -> keeps_rights is_supervisor (top sp) (k_memory k) (k_memory k') ->
  allows_at is_supervisor (k_memory k) sp va -> allows_at is_supervisor (k_memory k') sp' va.
Proof.
  intros E K. unfold allows_at. pose proof (indices_valid va) as Hv.
  destruct (virtual_address_as_paging_indices va) as [[[i j] n] o]. rewrite E. apply K; [|simpl; lia].
  apply valid_quad in Hv as ([Hi Hj] & Hn & Ho). vpath.
Qed.

Lemma map_page_Ok va pa is_supervisor sp k :
  wf_space sp k -> page_of_memory va -> mappable pa -> no_huge_at (k_memory k) sp va ->
  (exists sp' k', map_page va pa is_supervisor sp k = Ok (sp', k') /\
     mapped (fun _ => Some (pa, page_attributes is_supervisor)) (eq va) sp k sp' k' /\
     (forall va', no_huge_at (k_memory k) sp va' -> no_huge_at (k_memory k') sp' va') /\
     (forall va', allows_at is_supervisor (k_memory k) sp va' -> allows_at is_supervisor (k_memory k') sp' va') /\
     free_pages (regions k) - 3 <= free_pages (regions k')) \/
  (map_page va pa is_supervisor sp k = Fault KernelPanic /\ free_pages (regions k) < 3).
Proof.
  intros Hs [Hcan Hal] Hpa Hnh. unfold map_page. unfold no_huge_at in Hnh.
  rewrite (proj2 (is_aligned_spec va) Hal), (proj2 (is_aligned_spec pa) (proj2 Hpa)). run.
  pose proof (indices_valid va) as Hv. destruct (virtual_address_as_paging_indices va) as [[[i j] n] o] eqn:Eix.
  apply valid_quad in Hv as Hq. destruct Hq as ([Hi Hj] & Hn & Ho).
  assert (H3 : valid_path [i; j; n]) by vpath. assert (H2 : valid_path [i; j]) by vpath.
  assert (Hnh2 : no_huge (k_memory k) (top sp) [i; j]) by (by eapply no_huge_prefix; [|exact Hnh]; exists [n]).
  pose proof (ensure_two sp k is_supervisor i j n Hs H3 Hnh2) as H. cbv zeta in H.
  destruct (ensure_table (fun _ => space_entry_at sp i) is_supervisor sp k) as [[sp1 k1]|f];
    cbn [mbind result_bind] in H |- *; [|naive_solver lia].
  destruct H as [(sp2 & k2 & x2 & -> & G2 & A2 & W2 & F2)|[-> F]]; run; [|right; split; [done|lia]].
  pose proof (grown_space _ _ _ _ Hs G2) as Hs2. pose proof (g_main _ _ _ _ _ G2) as Em.
  destruct (ensure_table_Ok sp2 k2 is_supervisor (wfs_mm _ _ Hs2) (wfs_tables _ _ Hs2)
    (fun m => table_entry_at (pdt_at m (pdpt_at m sp2 i) j) n) [i; j] x2 n)
    as [(sp3 & k3 & x3 & -> & G3 & A3 & W3 & F3)|(-> & F & _)];
    rewrite ?Em; [done|simpl; lia|done| | | |right; split; [done|lia]].
  { eapply g_huge; [exact G2|done|simpl; lia|done]. }
  { intros m Hm. rewrite <- Em in Hm. apply (pdt_slot m sp2 (top_aligned _ _ Hs2) i j n); done. }
  run. left. rewrite Em in G3, W3, A3. pose proof (grown_trans _ _ _ _ _ _ _ G2 G3) as G.
  pose proof (grown_space _ _ _ _ Hs G) as Hs3. pose proof (g_main _ _ _ _ _ G) as Em3.
  rewrite <- Em3 in W3.
  rewrite (pt_slot (k_memory k3) sp3 (top_aligned _ _ Hs3) i j n H3 x3 o W3 Ho), point_entry_slot.
  destruct (pointed_fields (entry_in (k_memory k3) x3 o) pa is_supervisor
    (load_wf _ _ _ _ _ (wfs_tables _ _ Hs3)) Hpa) as (He & Hea & Hat & Hep & Heh).
  destruct (store_space sp3 k3 [i; j; n] x3 o _ Hs3 H3 ltac:(simpl; lia) W3 Ho He ltac:(by left)) as [Hs4 U].
  eexists _, _. split; [done|]. split; [split|split; [|split]].
  - exact Hs4.
  - done.
  - intros va' Hva' <-. cbn [k_memory]. rewrite (leaf_translate sp3 k3 va i j n o) by done.
    rewrite decide_True, Hep, Hea, Hat by done. done.
  - intros va' Hva' Hne. cbn [k_memory]. rewrite (leaf_translate sp3 k3 va i j n o) by done.
    rewrite decide_False by done. by apply grown_translate_address.
  - apply (g_pages _ _ _ _ _ G).
  - intros q x Hq Hlq Hx. cbn [k_memory] in Hx. rewrite <- Em3 in Hx.
    rewrite (walk_store _ _ _ (wfs_tables _ _ Hs3) [i; j; n]) in Hx;
      try (done || (simpl; lia)); [|apply app_not_prefix; simpl; lia].
    rewrite Em3 in Hx. by apply (g_tables _ _ _ _ _ G).
  - by eapply untouched_trans.
  - intros va' Hva'. apply (leaf_no_huge sp3 k3 va i j n o); try done. by eapply grown_no_huge.
  - intros va' Hva'. apply (leaf_allows sp3 k3 va i j n o); try done.
    apply (keeps_allows is_supervisor sp k); try done. intros q Hq Hl Ha. by apply A3, A2.
  - cbn [k_mm]. lia.
Qed.

(** Mappings compose. *)
Lemma mapped_trans target P Q sp1 k1 sp2 k2 sp3 k3 :
  (forall va, Q va \/ ~ Q va) ->
  mapped target P sp1 k1 sp2 k2 -> mapped target Q sp2 k2 sp3 k3 ->
  mapped target (fun va => P va \/ Q va) sp1 k1 sp3 k3.
Proof.
  intros Hdec A B. destruct (mp_pages _ _ _ _ _ _ A) as (n1 & E1 & T1), (mp_pages _ _ _ _ _ _ B) as (n2 & E2 & T2).
  pose proof (mp_main _ _ _ _ _ _ A) as Em. split.
  - apply B.
  - by rewrite (mp_main _ _ _ _ _ _ B).
  - intros va Hva HPQ. destruct (Hdec va) as [HQ|HQ]; [by eapply mp_here|].
    rewrite (mp_there _ _ _ _ _ _ B) by done. destruct HPQ; [by eapply mp_here|done].
  - intros va Hva HPQ. rewrite (mp_there _ _ _ _ _ _ B), (mp_there _ _ _ _ _ _ A); tauto.
  - exists (n1 ++ n2). rewrite E2, E1, app_assoc, fmap_app. split; [done|]. by eapply took_app.
  - intros q x Hq Hl Hw. pose proof (mp_tables _ _ _ _ _ _ B q x Hq Hl) as H. rewrite Em in H.
    destruct (H Hw) as [H'|H']; [by apply (mp_tables _ _ _ _ _ _ A)|].
    right. by apply (took_free_now _ _ _ T1) in H' as [H' _].
  - intros x w Hx Hno Hin. rewrite (mp_frame _ _ _ _ _ _ B x w); [by apply (mp_frame _ _ _ _ _ _ A x)| | |done].
    + destruct Hx as (H1 & H2 & H3). split; [done|]. split; [done|]. rewrite (took_free_now _ _ _ T1). tauto.
    + rewrite Em. intros q Hq Hl Hw.
      destruct (mp_tables _ _ _ _ _ _ A q x Hq Hl Hw) as [H|H]; [by apply (Hno q)|by apply Hx].
Qed.

Lemma mapped_ext target target' P P' sp k sp' k' :
  (forall va, P va <-> P' va) -> (forall va, P va -> target va = target' va) ->
  mapped target P sp k sp' k' -> mapped target' P' sp k sp' k'.
Proof.
  intros HP Ht [A1 A2 A3 A4 A5 A6 A7]. split; try done.
  - intros va Hva H. apply HP in H. rewrite <- Ht by done. by apply A3.
  - intros va Hva H. rewrite <- HP in H. by apply A4.
Qed.

Lemma mapped_none target sp k : wf_space sp k -> mapped target (fun _ => False) sp k sp k.
Proof.
  intros Hs. split; try done; [|by left]. exists []. rewrite app_nil_r. split; [done|apply took_nil].
Qed.

(** ** Lookup *)

Lemma physical_address_of_leaf va sp k i j n o t :
  wf_space sp k -> page_of_memory va -> virtual_address_as_paging_indices va = (i, j, n, o) ->
  walk (k_memory k) (top sp) [i; j; n] = Some t ->
  physical_address_of va sp (k_memory k) = Ok (physical_address (entry_in (k_memory k) t o)).
Proof.
  intros Hs [_ Hal] Eix Hw. unfold physical_address_of. rewrite (proj2 (is_aligned_spec va) Hal), Eix. run.
  pose proof (va_valid va i j n o Eix) as Hv. apply valid_quad in Hv as ([Hi Hj] & Hn & Ho).
  assert (H3 : valid_path [i; j; n]) by vpath. pose proof (top_aligned _ _ Hs) as Ht.
  set (m := k_memory k) in *.
  assert (Hpre : forall p x y, walk m (top sp) (p ++ [x]) = Some y ->
    exists z, walk m (top sp) p = Some z /\ is_present (entry_in m z x) = true).
  { intros p x y Hp. rewrite walk_snoc in Hp. destruct (walk m (top sp) p) as [z|]; [|done].
    exists z. split; [done|]. cbn in Hp. unfold step, table_of in Hp. by destruct (is_present _). }
  destruct (Hpre [i; j] n t Hw) as (z2 & W2 & P2). destruct (Hpre [i] j z2 W2) as (z1 & W1 & P1).
  destruct (Hpre [] i z1 W1) as (z0 & W0 & P0). injection W0 as <-.
  rewrite (space_entry_slot sp Ht i Hi).
  destruct (pdpt_slot m sp Ht i j n H3 z1 j W1 Hj) as (_ & _ & ->).
  destruct (pdt_slot m sp Ht i j n H3 z2 n W2 Hn) as (_ & _ & ->).
  rewrite (pt_slot m sp Ht i j n H3 t o Hw Ho).
  fold (entry_in m (top sp) i) (entry_in m z1 j) (entry_in m z2 n) (entry_in m t o).
  by rewrite P0, P1, P2.
Qed.

(** A page mapped with a 4 KiB entry has a table. *)
Lemma translate_has_table m root i j n o pa attrs :
  translate m root i j n o = Some (pa, attrs) -> no_huge m root [i; j; n] ->
  exists t, walk m root [i; j; n] = Some t /\ is_present (entry_in m t o) = true /\
    physical_address (entry_in m t o) = pa /\ attributes (entry_in m t o) = attrs.
Proof.
  unfold translate. intros H Hnh. destruct (walk m root [i; j]) as [x|] eqn:E; [|done].
  cbn [mbind option_bind] in H. destruct (is_present (entry_in m x n)) eqn:E1; [|done]. cbn [negb] in H.
  rewrite (Hnh [i; j] n x) in H by done.
  exists (physical_address (entry_in m x n)). split.
  - rewrite (walk_three m root i j n x E). unfold step, table_of. by rewrite E1, (Hnh [i; j] n x).
  - destruct (is_present (entry_in m (physical_address (entry_in m x n)) o)) eqn:E2; [|done].
    by injection H as <- <-.
Qed.

Lemma physical_address_of_Ok va sp k pa attrs :
  wf_space sp k -> page_of_memory va -> no_huge_at (k_memory k) sp va ->
  translate_address (k_memory k) sp va = Some (pa, attrs) ->
  physical_address_of va sp (k_memory k) = Ok pa.
Proof.
  unfold translate_address, no_huge_at. intros Hs Hva Hnh Ht.
  destruct (virtual_address_as_paging_indices va) as [[[i j] n] o] eqn:Eix.
  destruct (translate_has_table _ _ _ _ _ _ _ _ Ht Hnh) as (t & Hw & _ & Hp & _).
  by rewrite (physical_address_of_leaf va sp k i j n o t), Hp.
Qed.

(** ** Ranges *)

(** [count] pages from [vb], on one side of the address space. *)
Definition run_of_pages (vb : Z) (count : Z) : Prop :=
  vb mod page_size = 0 /\ 0 <= count /\
  (0 <= vb /\ vb + count * page_size <= 2 ^ 47 \/
   W64 - 2 ^ 47 <= vb /\ vb + count * page_size <= W64 - page_size).

Definition in_pages (vb count va : Z) : Prop :=
  va mod page_size = 0 /\ vb <= va < vb + count * page_size.

Lemma run_page vb count i : run_of_pages vb count -> 0 <= i < count -> page_of_memory (vb + i * page_size).
Proof. intros (H1 & H2 & H3) Hi. unfold page_of_memory, canonical, page_size in *. split; [nia|dlia]. Qed.

Lemma map_range_loop_Ok count i vr pr is_supervisor sp k :
  wf_space sp k -> 0 <= i ->
  run_of_pages (r_begin vr) (i + Z.of_nat count) ->
  0 <= r_begin pr -> r_begin pr mod page_size = 0 -> r_begin pr + (i + Z.of_nat count) * page_size <= 2 ^ 52 ->
  (forall x, 0 <= x < i + Z.of_nat count -> no_huge_at (k_memory k) sp (r_begin vr + x * page_size)) ->
  (exists sp' k', map_range_loop count i vr pr is_supervisor sp k = Ok (sp', k') /\
     mapped (fun va => Some (r_begin pr + (va - r_begin vr), page_attributes is_supervisor))
       (in_pages (r_begin vr + i * page_size) (Z.of_nat count)) sp k sp' k' /\
     (forall va, no_huge_at (k_memory k) sp va -> no_huge_at (k_memory k') sp' va) /\
     (forall va, allows_at is_supervisor (k_memory k) sp va -> allows_at is_supervisor (k_memory k') sp' va)) \/
  (map_range_loop count i vr pr is_supervisor sp k = Fault KernelPanic /\
   free_pages (regions k) < 3 * Z.of_nat count).
Proof.
  revert i sp k. induction count as [|count IH]; intros i sp k Hs Hi Hv Hp0 Hpa Hp Hnh.
  { left. eexists _, _. split; [done|]. split; [|done]. eapply mapped_ext; [| |by apply mapped_none]; [|done].
    intros va. unfold in_pages. lia. }
  cbn [map_range_loop]. assert (Hvi := run_page _ _ i Hv ltac:(lia)).
  assert (Hr : 0 <= r_begin vr /\ r_begin vr + (i + 1) * page_size < W64 /\ 0 <= i * page_size).
  { destruct Hv as (? & ? & ?). unfold page_size in *. lia. }
  unfold page_size in Hr. unfold page_size in Hp.
  rewrite (wrap64_small (i * page_size)) by (unfold is_u64, page_size; lia).
  rewrite (wrap64_small (r_begin vr + _)) by (unfold is_u64, page_size; lia).
  rewrite (wrap64_small (r_begin pr + _)) by (unfold is_u64, page_size; lia).
  assert (Hmp : mappable (r_begin pr + i * page_size)).
  { unfold mappable, page_size in *. split; [lia|dlia]. }
  destruct (map_page_Ok _ _ is_supervisor sp k Hs Hvi Hmp (Hnh i ltac:(lia)))
    as [(sp1 & k1 & -> & M1 & N1 & A1 & F1)|[-> F]]; run; [|right; split; [done|lia]].
  destruct (IH (i + 1) sp1 k1) as [(sp2 & k2 & -> & M2 & N2 & A2)|[-> F2]].
  - apply M1.
  - lia.
  - by replace (i + 1 + Z.of_nat count) with (i + Z.of_nat (S count)) by lia.
  - done.
  - done.
  - unfold page_size. lia.
  - intros x Hx. apply N1, Hnh. lia.
  - left. eexists _, _. split; [done|]. split; [|by auto].
    eapply mapped_ext; [| |eapply mapped_trans; [|eapply mapped_ext; [| |exact M1]|exact M2]].
    4: by intros va; split; intros H; exact H.
    + intros va. cbv beta. destruct Hv as [Hva _]. unfold in_pages, page_size in *.
      split; [intros [<-|]; split; [dlia|lia|lia|lia]|]. intros [H1 H2].
      destruct (decide (va = r_begin vr + i * 4096)); [by left|right]. split; [done|dlia].
    + done.
    + intros va. unfold in_pages. lia.
    + intros va <-. do 2 f_equal. lia.
  - right. split; [done|lia].
Qed.

(** ** Unmapping *)

(** The last-level table of the address exists. *)
Definition has_table (m : memory) (sp : address_space) (va : Z) : Prop :=
  let '(i, j, k, _) := virtual_address_as_paging_indices va in
  is_Some (walk m (top sp) [i; j; k]).

Lemma leaf_has_table sp k va i j n o t e va' :
  wf_space sp k -> virtual_address_as_paging_indices va = (i, j, n, o) ->
  walk (k_memory k) (top sp) [i; j; n] = Some t ->
  has_table (k_memory k) sp va' -> has_table (store_entry (k_memory k) (slot t o) e) sp va'.
Proof.
  intros Hs Eix Hw. pose proof (va_valid va i j n o Eix) as Hv. apply valid_quad in Hv as ([Hi Hj] & Hn & Ho).
  assert (H3 : valid_path [i; j; n]) by vpath.
  unfold has_table. pose proof (indices_valid va') as Hv'.
  destruct (virtual_address_as_paging_indices va') as [[[a b] c] d].
  apply valid_quad in Hv' as ([Ha Hb] & Hc & Hd). assert (H4 : valid_path [a; b; c]) by vpath.
  rewrite (walk_store _ _ _ (wfs_tables _ _ Hs) [i; j; n]);
    try (done || (simpl; lia)). apply app_not_prefix; simpl; lia.
Qed.

Lemma local_unmap_page_Ok va sp k :
  wf_space sp k -> page_of_memory va -> has_table (k_memory k) sp va ->
  exists m', local_unmap_page va sp (k_memory k) = Ok m' /\
    mapped (fun _ => None) (eq va) sp k sp (Kernel (k_mm k) m') /\
    (forall va', has_table (k_memory k) sp va' -> has_table m' sp va').
Proof.
  intros Hs Hva Ht. pose proof Hva as [_ Hal]. unfold local_unmap_page, has_table in *.
  rewrite (proj2 (is_aligned_spec va) Hal). run.
  destruct (virtual_address_as_paging_indices va) as [[[i j] n] o] eqn:Eix.
  destruct Ht as [t Hw]. pose proof (va_valid va i j n o Eix) as Hv.
  apply valid_quad in Hv as ([Hi Hj] & Hn & Ho). assert (H3 : valid_path [i; j; n]) by vpath.
  rewrite (pt_slot (k_memory k) sp (top_aligned _ _ Hs) i j n H3 t o Hw Ho).
  fold (entry_in (k_memory k) t o). set (e := set_present (entry_in (k_memory k) t o) false).
  pose proof (load_wf _ _ _ t o (wfs_tables _ _ Hs)) as Hw0.
  assert (He : wf_entry e) by by apply set_present_wf.
  destruct (set_present_false _ Hw0) as [Hpr _].
  destruct (store_space sp k [i; j; n] t o e Hs H3 ltac:(simpl; lia) Hw Ho He ltac:(by left)) as [Hs' U].
  eexists; split; [done|]. split; [|intros va' Hva'; by apply (leaf_has_table sp k va i j n o t)].
  split; try done; cbn [k_memory k_mm].
  - intros va' Hva' <-. rewrite (leaf_translate sp k va i j n o) by done.
    rewrite decide_True by done. unfold e. by rewrite Hpr.
  - intros va' Hva' Hne. rewrite (leaf_translate sp k va i j n o) by done. by rewrite decide_False.
  - exists []. rewrite app_nil_r. split; [done|apply took_nil].
  - intros q x Hq Hlq Hx. left. rewrite (walk_store _ _ _ (wfs_tables _ _ Hs) [i; j; n]) in Hx;
      try (done || (simpl; lia)). apply app_not_prefix; simpl; lia.
Qed.

Lemma local_unmap_range_loop_Ok count i r sp k :
  wf_space sp k -> 0 <= i -> run_of_pages (r_begin r) (i + Z.of_nat count) ->
  (forall x, 0 <= x < i + Z.of_nat count -> has_table (k_memory k) sp (r_begin r + x * page_size)) ->
  exists m', local_unmap_range_loop count i r sp (k_memory k) = Ok m' /\
    mapped (fun _ => None) (in_pages (r_begin r + i * page_size) (Z.of_nat count)) sp k sp (Kernel (k_mm k) m').
Proof.
  revert i k. induction count as [|count IH]; intros i k Hs Hi Hv Ht.
  { eexists. split; [done|]. destruct k as [mm m].
    eapply mapped_ext; [| |by apply mapped_none]; [|done]. intros va. unfold in_pages. lia. }
  cbn [local_unmap_range_loop]. assert (Hvi := run_page _ _ i Hv ltac:(lia)).
  assert (Hr : 0 <= r_begin r /\ r_begin r + (i + 1) * page_size < W64 /\ 0 <= i * page_size).
  { destruct Hv as (? & ? & ?). unfold page_size in *. lia. }
  unfold page_size in Hr.
  rewrite (wrap64_small (i * page_size)) by (unfold is_u64, page_size; lia).
  rewrite (wrap64_small (r_begin r + _)) by (unfold is_u64, page_size; lia).
  destruct (local_unmap_page_Ok _ sp k Hs Hvi (Ht i ltac:(lia))) as (m1 & -> & M1 & N1). run.
  destruct (IH (i + 1) (Kernel (k_mm k) m1)) as (m2 & E2 & M2).
  - apply M1.
  - lia.
  - by replace (i + 1 + Z.of_nat count) with (i + Z.of_nat (S count)) by lia.
  - intros x Hx. apply N1, Ht. lia.
  - cbn [k_memory k_mm] in *. eexists; split; [exact E2|].
    eapply mapped_ext; [| |eapply mapped_trans; [|exact M1|exact M2]]; [|done|].
    + intros va. cbv beta. destruct Hv as [Hva _]. unfold in_pages, page_size in *.
      split; [intros [<-|]; split; [dlia|lia|lia|lia]|]. intros [H1 H2].
      destruct (decide (va = r_begin r + i * 4096)); [by left|right]. split; [done|dlia].
    + intros va. unfold in_pages. lia.
Qed.

(** ** Destruction *)

Lemma free_page_list_Ok pages mm :
  wf_mm mm -> NoDup (page_address <$> pages) ->
  (forall page, page ∈ pages -> page_allocated (m_physical_regions mm) (page_address page)) ->
  exists mm', free_page_list pages mm = Ok mm' /\ wf_mm mm' /\
    m_free_physical_bytes mm' = m_free_physical_bytes mm + Z.of_nat (length pages) * page_size /\
    (forall x, page_free (m_physical_regions mm') x <->
       page_free (m_physical_regions mm) x \/ x ∈ page_address <$> pages) /\
    (forall x, page_allocated (m_physical_regions mm') x <->
       page_allocated (m_physical_regions mm) x /\ x ∉ page_address <$> pages).
Proof.
  revert mm. induction pages as [|page pages IH]; intros mm Hmm Hnd Hall.
  { exists mm. split; [done|]. split; [done|]. split; [simpl; lia|].
    cbn [fmap list_fmap]. split; intros x; rewrite elem_of_nil; tauto. }
  cbn [fmap list_fmap] in Hnd. apply NoDup_cons in Hnd as [Hni Hnd]. cbn [free_page_list].
  destruct (mm_free_page_Ok mm page Hmm (Hall page (list_elem_of_here _ _)))
    as (mm1 & -> & Hmm1 & Hc & Ha & Hf). run.
  destruct (IH mm1 Hmm1 Hnd) as (mm2 & -> & Hmm2 & Hc2 & Hf2 & Ha2).
  - intros q Hq. apply Ha. split; [by apply Hall, list_elem_of_further|]. intros E. apply Hni.
    rewrite <- E. by apply list_elem_of_fmap_2.
  - exists mm2. split; [done|]. split; [done|]. split.
    + rewrite Hc2, (wfm_bytes _ Hmm1), (wfm_bytes _ Hmm), Hc. simpl length. unfold page_size. lia.
    + cbn [fmap list_fmap]. split; intros x.
      * rewrite Hf2, Hf, elem_of_cons. tauto.
      * rewrite Ha2, Ha, not_elem_of_cons. tauto.
Qed.

(** ** Huge pages *)

Definition huge_page_of (va va' : Z) : Prop := va' mod page_size = 0 /\ va <= va' < va + huge_size.

Lemma huge_indices va va' :
  page_of_memory va -> page_of_memory va' -> va mod huge_size = 0 ->
  let '(i, j, k, _) := virtual_address_as_paging_indices va in
  let '(a, b, c, d) := virtual_address_as_paging_indices va' in
  (huge_page_of va va' -> (a, b, c) = (i, j, k) /\ d * page_size = va' - va) /\
  ((a, b, c) = (i, j, k) -> huge_page_of va va').
Proof.
  intros [Hc Ha] [Hc' Ha'] Hhuge.
  pose proof (address_of_indices_eq va Hc Ha) as E. pose proof (address_of_indices_eq va' Hc' Ha') as E'.
  pose proof (indices_valid va) as Hv. pose proof (indices_valid va') as Hv'.
  assert (Hl : let '(_, _, _, l) := virtual_address_as_paging_indices va in l = 0).
  { rewrite indices_eq. unfold huge_size, page_size in *. dlia. }
  assert (Hsame : huge_page_of va va' ->
    let '(i, j, k, _) := virtual_address_as_paging_indices va in
    let '(a, b, c, _) := virtual_address_as_paging_indices va' in (a, b, c) = (i, j, k)).
  { intros [_ H]. rewrite !indices_eq. unfold huge_size, page_size in *.
    f_equal; [f_equal|]; dlia. }
  destruct (virtual_address_as_paging_indices va) as [[[i j] n] o].
  destruct (virtual_address_as_paging_indices va') as [[[a b] c] d].
  apply valid_quad in Hv as ([Hi Hj] & Hn & Ho). apply valid_quad in Hv' as ([Ha1 Hb1] & Hc1 & Hd1).
  unfold address_of_indices in E, E'. subst o. unfold table_entry_count, huge_size, page_size in *. split.
  - intros H. pose proof (Hsame H) as Hs. split; [done|]. injection Hs as -> -> ->. destruct (i <? 256); lia.
  - intros [= -> -> ->]. split; [done|]. unfold huge_size. destruct (i <? 256); lia.
Qed.

Lemma huge_pointed_fields e pa is_supervisor :
  wf_entry e -> mappable pa ->
  let e' := set_huge (pointed e pa is_supervisor) true in
  wf_entry e' /\ physical_address e' = pa /\ attributes e' = page_attributes is_supervisor + PAGE_2MB /\
  is_present e' = true /\ is_huge e' = true.
Proof.
  intros He Hpa. destruct (pointed_fields e pa is_supervisor He Hpa) as (H1 & H2 & H3 & _).
  cbv zeta. split; [by apply set_huge_wf|]. split; [exact H2|].
  unfold set_huge, is_present, is_huge, attributes, set_attributes. cbn [m_attributes].
  unfold attributes in H3. rewrite H3. unfold page_attributes. by case_decide.
Qed.

Lemma map_huge_page_Ok va pa is_supervisor sp k :
  wf_space sp k -> page_of_memory va -> mappable pa -> va mod huge_size = 0 -> pa mod huge_size = 0 ->
  no_huge_at (k_memory k) sp va ->
  (exists sp' k', map_huge_page va pa is_supervisor sp k = Ok (sp', k') /\
     mapped (fun va' => Some (pa + (va' - va), page_attributes is_supervisor + PAGE_2MB)) (huge_page_of va)
       sp k sp' k' /\
     free_pages (regions k) - 2 <= free_pages (regions k')) \/
  (map_huge_page va pa is_supervisor sp k = Fault KernelPanic /\ free_pages (regions k) < 2).
Proof.
  intros Hs Hva Hpa Hvh Hph Hnh. unfold map_huge_page. unfold no_huge_at in Hnh.
  unfold is_huge_aligned. rewrite Hvh, Hph. cbn [Z.eqb]. run.
  pose proof (indices_valid va) as Hv. pose proof (huge_indices va) as Hix.
  destruct (virtual_address_as_paging_indices va) as [[[i j] n] o] eqn:Eix.
  apply valid_quad in Hv as Hq. destruct Hq as ([Hi Hj] & Hn & Ho).
  assert (H3 : valid_path [i; j; n]) by vpath. assert (H2 : valid_path [i; j]) by vpath.
  assert (Hnh2 : no_huge (k_memory k) (top sp) [i; j]) by (by eapply no_huge_prefix; [|exact Hnh]; exists [n]).
  pose proof (ensure_two sp k is_supervisor i j n Hs H3 Hnh2) as H. cbv zeta in H.
  destruct (ensure_table (fun _ => space_entry_at sp i) is_supervisor sp k) as [[sp1 k1]|f];
    cbn [mbind result_bind] in H |- *; [|naive_solver lia].
  destruct H as [(sp2 & k2 & x2 & -> & G & _ & W & F2)|[-> F]]; run; [|right; split; [done|lia]].
  left. pose proof (grown_space _ _ _ _ Hs G) as Hs2. pose proof (g_main _ _ _ _ _ G) as Em.
  rewrite <- Em in W.
  destruct (pdt_slot (k_memory k2) sp2 (top_aligned _ _ Hs2) i j n H3 x2 n W Hn) as (_ & _ & ->).
  fold (entry_in (k_memory k2) x2 n) (pointed (entry_in (k_memory k2) x2 n) pa is_supervisor).
  pose proof (load_wf _ _ _ x2 n (wfs_tables _ _ Hs2)) as Hw0.
  destruct (huge_pointed_fields _ pa is_supervisor Hw0 Hpa) as (He & Hea & Hat & Hep & Heh).
  set (e := set_huge (pointed (entry_in (k_memory k2) x2 n) pa is_supervisor) true) in *.
  assert (Hte : table_of e = None) by (unfold table_of; by rewrite Hep, Heh).
  destruct (store_space sp2 k2 [i; j] x2 n e Hs2 H2 ltac:(simpl; lia) W Hn He ltac:(by right)) as [Hs4 U].
  assert (Htr : forall va', page_of_memory va' ->
    translate_address (store_entry (k_memory k2) (slot x2 n) e) sp2 va' =
    let '(a, b, c, d) := virtual_address_as_paging_indices va' in
    if decide ((a, b, c) = (i, j, n)) then Some (pa + d * page_size, page_attributes is_supervisor + PAGE_2MB)
    else translate_address (k_memory k2) sp2 va').
  { intros va' _. unfold translate_address. pose proof (indices_valid va') as Hv'.
    destruct (virtual_address_as_paging_indices va') as [[[a b] c] d].
    rewrite (translate_huge _ _ _ (wfs_tables _ _ Hs2) i j n o) by done. by rewrite Hea, Hat. }
  eexists _, _. split; [done|]. split; [split|]; cbn [k_memory k_mm].
  - exact Hs4.
  - done.
  - intros va' Hva' Hin. rewrite Htr by done. specialize (Hix va' Hva Hva' Hvh).
    destruct (virtual_address_as_paging_indices va') as [[[a b] c] d].
    destruct Hix as [Hix _]. destruct (Hix Hin) as [E ->]. by rewrite decide_True.
  - intros va' Hva' Hin. rewrite Htr by done. specialize (Hix va' Hva Hva' Hvh).
    pose proof (grown_translate_address _ _ _ _ va' G) as Hg.
    destruct (virtual_address_as_paging_indices va') as [[[a b] c] d].
    rewrite decide_False; [done|]. intros E. apply Hin. by apply Hix.
  - apply (g_pages _ _ _ _ _ G).
  - intros q x Hq Hlq Hx. rewrite <- Em in Hx.
    destruct (decide ([i; j] ++ [n] `prefix_of` q)) as [[r ->]|Hno].
    + exfalso. rewrite walk_None in Hx; [done|].
      rewrite walk_snoc, (walk_store _ _ _ (wfs_tables _ _ Hs2) [i; j] x2 n e [i; j]), W;
        try (done || (simpl; lia)); [|apply app_not_prefix; simpl; lia].
      cbn [mbind option_bind]. unfold step, entry_in. by rewrite load_store_same.
    + rewrite (walk_store _ _ _ (wfs_tables _ _ Hs2) [i; j]) in Hx; try (done || (simpl; lia)).
      rewrite Em in Hx. by apply (g_tables _ _ _ _ _ G).
  - by eapply untouched_trans.
  - lia.
Qed.
