(* ===== verification/AddressSpaceTheorems.v ===== *)
(** The properties of address spaces: index arithmetic, mapping and unmapping of ranges,
    huge pages, creation and destruction (Kernel/Memory/AddressSpace.cpp and the parts of
    MemoryManager.cpp that create and free address spaces). *)
From S2P Require Import Prelude Page Range Utilities BitArray PhysicalRegion PagingEntry PhysicalMemory AddressSpace PageWalk AddressSpaceCorrect AddressSpaceMaps.

(** ** Indices *)

(** C40: the four table indices of an address are below 512, and together they determine
    the page: every canonical page-aligned address is rebuilt from its indices, and every
    four indices are the indices of exactly one canonical page. *)
Theorem paging_indices_bijective (va i j k l : Z) :
  page_of_memory va -> valid_path [i; j; k; l] ->
  (let '(i, j, k, l) := virtual_address_as_paging_indices va in valid_path [i; j; k; l]) /\
  address_of_indices (virtual_address_as_paging_indices va) = va /\
  page_of_memory (address_of_indices (i, j, k, l)) /\
  virtual_address_as_paging_indices (address_of_indices (i, j, k, l)) = (i, j, k, l).
Proof.
  intros [Hc Ha] Hv. split; [apply indices_valid|]. split; [by apply address_of_indices_eq|].
  apply valid_quad in Hv as ([Hi Hj] & Hk & Hl). rewrite indices_eq.
  unfold page_of_memory, canonical, address_of_indices, table_entry_count, page_size in *.
  destruct (Z.ltb_spec i 256); (split; [split; [lia|dlia]|]); repeat f_equal; dlia.
Qed.

Lemma paging_indices_bijective_witness :
  virtual_address_as_paging_indices 0xFFFF800000001000 = (256, 0, 0, 1) /\
  address_of_indices (256, 0, 0, 1) = 0xFFFF800000001000.
Proof.
  assert (Hp : page_of_memory 0xFFFF800000001000) by (split; [right; lia|reflexivity]).
  assert (Hv : valid_path [256; 0; 0; 1])
    by (unfold valid_path, table_entry_count; repeat (constructor; [lia|]); constructor).
  destruct (paging_indices_bijective _ _ _ _ _ Hp Hv) as (_ & _ & _ & _).
  split; reflexivity.
Defined.

(** ** An example address space *)

(** An empty top table at physical 0x50000, outside the two regions of
    [example_regions]. *)
Definition example_space : address_space := AddressSpace [] {| page_address := 0x50000 |}.

Lemma zero_walk root path : (0 < length path)%nat -> walk (fun _ => 0) root path = None.
Proof. destruct path as [|i path]; simpl; [lia|]. intros _. by apply (walk_None _ root [i] path). Qed.

Lemma example_space_wf mm : example_regions = Ok mm -> wf_space example_space (Kernel mm (fun _ => 0)).
Proof.
  intros E. pose proof (example_regions_wf mm E) as Hmm.
  assert (Hp : table_page (m_physical_regions mm) 0x50000).
  { split; [lia|]. split; [reflexivity|]. vm_compute in E. injection E as <-. intros (p & Hp & [Hin _] & _).
    cbn [m_physical_regions] in Hp. unfold in_range in Hin.
    repeat (apply elem_of_cons in Hp as [->|Hp]; [cbn in Hin; lia|]). by apply elem_of_nil in Hp. }
  split; cbn [k_mm k_memory example_space m_physical_pages m_main_page page_address].
  - exact Hmm.
  - split.
    + intros a. unfold is_u64. lia.
    + intros path t Hv Hlen Hw. destruct path; [by injection Hw as <-|].
      rewrite zero_walk in Hw by (simpl; lia). done.
    + intros p q t _ _ _ _ Hp' Hq'. destruct p, q; try done; rewrite zero_walk in * by (simpl; lia); done.
  - constructor.
  - intros page H. by apply elem_of_nil in H.
  - intros H. by apply elem_of_nil in H.
Qed.

Lemma zero_no_huge sp va : no_huge_at (fun _ => 0) sp va.
Proof.
  unfold no_huge_at. destruct (virtual_address_as_paging_indices va) as [[[i j] k] l].
  intros p x t _ _ H. discriminate H.
Qed.

(** ** Mapping *)

(** C18: [map_range], on an address space without huge pages in the way, maps every page of the
    virtual range to the page at the same offset of the physical range, the last-level entry
    having the attributes asked for, and changes the translation of no other page;
    [physical_address_of] returns the address just mapped.  The tables it adds give the rights asked
    for on every level: a page whose tables, as far as they existed, gave them can be accessed with
    them, and so can every other page that could before.  The tables stay a tree of distinct
    allocated pages, new tables come from the free pages and are recorded as the space's own, and
    no word of any other allocated page is written.  When the free pages run out, which takes
    fewer than three of them per page, the kernel panics. *)
Theorem map_range_correct (vr pr : range) (is_supervisor : IsSupervisor) (sp : address_space) (k : kernel) :
  let count := r_length vr / page_size in
  wf_space sp k -> run_of_pages (r_begin vr) count ->
  0 <= r_begin pr -> r_begin pr mod page_size = 0 -> r_begin pr + count * page_size <= 2 ^ 52 ->
  (forall x, 0 <= x < count -> no_huge_at (k_memory k) sp (r_begin vr + x * page_size)) ->
  (exists sp' k', map_range vr pr is_supervisor sp k = Ok (sp', k') /\
     mapped (fun va => Some (r_begin pr + (va - r_begin vr), page_attributes is_supervisor))
       (in_pages (r_begin vr) count) sp k sp' k' /\
     (forall va, allows_at is_supervisor (k_memory k) sp va -> allows_at is_supervisor (k_memory k') sp' va) /\
     forall x, 0 <= x < count ->
       physical_address_of (r_begin vr + x * page_size) sp' (k_memory k') = Ok (r_begin pr + x * page_size)) \/
  (map_range vr pr is_supervisor sp k = Fault KernelPanic /\ free_pages (regions k) < 3 * count).
Proof.
  intros count Hs Hv Hp0 Hpa Hp Hnh. unfold map_range. fold count.
  rewrite (proj2 (is_aligned_spec _) (proj1 Hv)), (proj2 (is_aligned_spec _) Hpa). run.
  assert (Hc : 0 <= count) by apply Hv.
  pose proof (map_range_loop_Ok (Z.to_nat count) 0 vr pr is_supervisor sp k Hs) as H.
  rewrite Z2Nat.id, Z.add_0_l in H by done. destruct H as [(sp' & k' & E & M & N & A)|H]; try done; [|by right].
  rewrite Z.mul_0_l, Z.add_0_r in M. left. exists sp', k'. split; [done|]. split; [done|]. split; [done|].
  intros x Hx. pose proof (run_page _ _ x Hv Hx) as Hpage.
  eapply physical_address_of_Ok; [apply M|done|by apply N, Hnh|].
  rewrite (mp_here _ _ _ _ _ _ M); [do 2 f_equal; lia|done|].
  split; [apply Hpage|]. unfold page_size in *. lia.
Qed.

Lemma map_range_correct_witness :
  exists mm sp' k', example_regions = Ok mm /\
    map_range (Range 0x400000 0x401000) (Range 0xB8000 0xB9000) NO example_space
      (Kernel mm (fun _ => 0)) = Ok (sp', k') /\
    physical_address_of 0x400000 sp' (k_memory k') = Ok 0xB8000.
Proof.
  destruct example_regions as [mm|] eqn:E; [|vm_compute in E; discriminate E].
  pose proof (example_space_wf mm E) as Hs. exists mm.
  destruct (map_range_correct (Range 0x400000 0x401000) (Range 0xB8000 0xB9000) NO example_space
    (Kernel mm (fun _ => 0)) Hs) as [(sp' & k' & E' & _ & _ & H)|[_ H]].
  - change (r_length (Range 0x400000 0x401000) / page_size) with 1. split; [reflexivity|].
    split; [lia|]. left. unfold page_size. simpl. lia.
  - simpl. lia.
  - reflexivity.
  - change (r_length (Range 0x400000 0x401000) / page_size) with 1. unfold page_size. simpl. lia.
  - intros x _. apply zero_no_huge.
  - exists sp', k'. split; [reflexivity|]. split; [exact E'|]. apply (H 0).
    change (r_length (Range 0x400000 0x401000) / page_size) with 1. lia.
  - exfalso. vm_compute in E. injection E as <-. vm_compute in H. discriminate H.
Defined.

(** [map_huge_page] maps the 512 pages of a 2 MiB page at once, each to its part of
    the physical page, replaces whatever 4 KiB pages were mapped there, and changes
    nothing else; it needs at most two new tables and panics when they cannot be had. *)
Theorem map_huge_page_correct (va pa : Z) (is_supervisor : IsSupervisor) (sp : address_space) (k : kernel) :
  wf_space sp k -> page_of_memory va -> mappable pa -> va mod huge_size = 0 -> pa mod huge_size = 0 ->
  no_huge_at (k_memory k) sp va ->
  (exists sp' k', map_huge_page va pa is_supervisor sp k = Ok (sp', k') /\
     mapped (fun va' => Some (pa + (va' - va), page_attributes is_supervisor + PAGE_2MB)) (huge_page_of va)
       sp k sp' k') \/
  (map_huge_page va pa is_supervisor sp k = Fault KernelPanic /\ free_pages (regions k) < 2).
Proof.
  intros Hs Hva Hpa Hvh Hph Hnh.
  destruct (map_huge_page_Ok va pa is_supervisor sp k) as [(sp' & k' & E & M & _)|H]; try done; [|by right].
  left. by exists sp', k'.
Qed.

Lemma map_huge_page_correct_witness :
  exists mm sp' k', example_regions = Ok mm /\
    map_huge_page 0x400000 0x200000 YES example_space (Kernel mm (fun _ => 0)) = Ok (sp', k') /\
    translate_address (k_memory k') sp' 0x401000 = Some (0x201000, 0x83).
Proof.
  destruct example_regions as [mm|] eqn:E; [|vm_compute in E; discriminate E].
  pose proof (example_space_wf mm E) as Hs. exists mm.
  destruct (map_huge_page_correct 0x400000 0x200000 YES example_space (Kernel mm (fun _ => 0)) Hs)
    as [(sp' & k' & E' & M)|[_ H]].
  - split; [left; lia|reflexivity].
  - split; [lia|reflexivity].
  - reflexivity.
  - reflexivity.
  - apply zero_no_huge.
  - exists sp', k'. split; [reflexivity|]. split; [exact E'|].
    rewrite (mp_here _ _ _ _ _ _ M); [reflexivity| |].
    + split; [left; lia|reflexivity].
    + split; [reflexivity|]. unfold huge_size. lia.
  - exfalso. vm_compute in E. injection E as <-. vm_compute in H. discriminate H.
Defined.

(** ** Unmapping *)

(** [local_unmap_range] on pages whose tables exist removes the translation of every
    page of the range and of no other, allocates nothing and writes no word outside the
    tables of the address space. *)
Theorem local_unmap_range_correct (r : range) (sp : address_space) (k : kernel) :
  let count := r_length r / page_size in
  wf_space sp k -> run_of_pages (r_begin r) count ->
  (forall x, 0 <= x < count -> has_table (k_memory k) sp (r_begin r + x * page_size)) ->
  exists m', local_unmap_range r sp (k_memory k) = Ok m' /\
    mapped (fun _ => None) (in_pages (r_begin r) count) sp k sp (Kernel (k_mm k) m').
Proof.
  intros count Hs Hv Ht. unfold local_unmap_range. fold count.
  rewrite (proj2 (is_aligned_spec _) (proj1 Hv)). run. assert (Hc : 0 <= count) by apply Hv.
  destruct (local_unmap_range_loop_Ok (Z.to_nat count) 0 r sp k Hs) as (m' & E & M);
    rewrite ?Z2Nat.id, ?Z.add_0_l in *; try done.
  exists m'. split; [exact E|]. by rewrite Z.mul_0_l, Z.add_0_r in M.
Qed.

Lemma local_unmap_range_correct_witness :
  exists mm sp k m', example_regions = Ok mm /\
    map_page 0x400000 0xB8000 NO example_space (Kernel mm (fun _ => 0)) = Ok (sp, k) /\
    translate_address (k_memory k) sp 0x400000 = Some (0xB8000, 7) /\
    local_unmap_range (Range 0x400000 0x401000) sp (k_memory k) = Ok m' /\
    translate_address m' sp 0x400000 = None.
Proof.
  destruct example_regions as [mm|] eqn:E; [|vm_compute in E; discriminate E].
  pose proof (example_space_wf mm E) as Hs. exists mm.
  assert (Hva : page_of_memory 0x400000) by (split; [left; lia|reflexivity]).
  assert (Hpa : mappable 0xB8000) by (split; [lia|reflexivity]).
  destruct (map_page_Ok 0x400000 0xB8000 NO example_space _ Hs Hva Hpa (zero_no_huge _ _))
    as [(sp & k & E' & M & N & _)|[_ H]].
  2:{ exfalso. vm_compute in E. injection E as <-. vm_compute in H. discriminate H. }
  assert (Ht : translate_address (k_memory k) sp 0x400000 = Some (0xB8000, 7))
    by exact (mp_here _ _ _ _ _ _ M 0x400000 Hva eq_refl).
  destruct (local_unmap_range_correct (Range 0x400000 0x401000) sp k (mp_space _ _ _ _ _ _ M)) as (m' & E2 & M2).
  - change (r_length (Range 0x400000 0x401000) / page_size) with 1. split; [reflexivity|].
    split; [lia|]. left. unfold page_size. simpl. lia.
  - change (r_length (Range 0x400000 0x401000) / page_size) with 1. intros x Hx.
    replace x with 0 by lia. unfold translate_address in Ht. pose proof (N 0x400000 (zero_no_huge _ _)) as Hn.
    unfold no_huge_at in Hn. unfold has_table.
    change (r_begin (Range 0x400000 0x401000) + 0 * page_size) with 0x400000.
    destruct (virtual_address_as_paging_indices 0x400000) as [[[i j] n] o].
    destruct (translate_has_table _ _ _ _ _ _ _ _ Ht Hn) as (t & Hw & _). exists t. exact Hw.
  - exists sp, k, m'. split; [reflexivity|]. split; [exact E'|]. split; [exact Ht|]. split; [exact E2|].
    refine (mp_here _ _ _ _ _ _ M2 0x400000 Hva _).
    change (r_length (Range 0x400000 0x401000) / page_size) with 1.
    split; [reflexivity|]. unfold page_size. simpl. lia.
Defined.

(** ** Creation *)

Lemma walk_cons m root i path : walk m root (i :: path) = step m root i ≫= fun t => walk m t path.
Proof.
  unfold walk. cbn [foldl mbind option_bind]. destruct (step m root i) as [t|]; [done|].
  cbn [mbind option_bind]. induction path as [|j path IH]; [done|]. exact IH.
Qed.

Section creation.
Context (cur : address_space) (k : kernel) (p : Z).
Context (Hs : wf_space cur k) (Hp : page_free (regions k) p).

Let new := AddressSpace [] {| page_address := p |}.
Let m1 := zero_memory (k_memory k) (physical_to_virtual p) page_size.
Let m2 := initialize_space cur new m1.

Lemma new_page_bounds : 0 <= p < 2 ^ 47 /\ p mod page_size = 0.
Proof using Hs Hp. exact (page_in_range _ _ p (wfm_regions _ (wfs_mm _ _ Hs)) Hp). Qed.

(** The entries of the new top table. *)
Lemma new_top_entry i :
  0 <= i < table_entry_count ->
  entry_in m2 p i = if decide (i < kernel_first_table_index) then entry_of_word 0
                    else entry_in (k_memory k) (top cur) i.
Proof using Hs Hp.
  intros Hi. destruct new_page_bounds as [Hp1 Hp2].
  destruct (wft_root _ _ _ (wfs_tables _ _ Hs)) as (Hc1 & Hc2 & Hc3).
  assert (Hne : top cur <> p) by (intros E; by rewrite E in Hc3).
  unfold entry_in, load_entry, m2, initialize_space. cbn [new m_main_page page_address].
  unfold kernel_first_table_index, kernel_last_table_index.
  replace (in_run _ _ (slot p i)) with (negb (i <? 256)).
  2:{ unfold slot, in_run, table_entry_size, table_entry_count in *. lia. }
  case_decide as Hlt.
  - replace (i <? 256) with true by lia. cbn [negb]. unfold m1, zero_memory. by rewrite slot_inside.
  - replace (i <? 256) with false by lia. cbn [negb].
    replace (physical_to_virtual (top cur) + (slot p i - physical_to_virtual p)) with (slot (top cur) i)
      by (unfold slot; lia).
    unfold m1, zero_memory. by rewrite slot_outside.
Qed.

(** The tables of the current space are untouched. *)
Lemma old_table_entry t i :
  table_page (regions k) t -> 0 <= i < table_entry_count -> entry_in m2 t i = entry_in (k_memory k) t i.
Proof using Hs Hp.
  intros (Ht1 & Ht2 & Ht3) Hi. destruct new_page_bounds as [Hp1 Hp2].
  assert (Hne : t <> p) by (intros E; by rewrite E in Ht3).
  pose proof (slot_outside t i p Ht1 Ht2 Hp1 Hp2 Hne Hi) as Hout.
  unfold entry_in, load_entry, m2, initialize_space. cbn [new m_main_page page_address].
  unfold kernel_first_table_index, kernel_last_table_index, table_entry_size.
  replace (in_run _ _ (slot t i)) with false.
  - unfold m1, zero_memory. by rewrite Hout.
  - symmetry. unfold in_run, page_size in *. lia.
Qed.

Lemma new_walk i path :
  valid_path (i :: path) -> (length path <= 2)%nat ->
  walk m2 p (i :: path) =
    if decide (i < kernel_first_table_index) then None else walk (k_memory k) (top cur) (i :: path).
Proof using Hs Hp.
  intros Hv Hlen. pose proof Hv as Hv'. apply Forall_cons in Hv' as [Hi Hvp].
  rewrite !walk_cons. unfold step at 1. rewrite new_top_entry by done. case_decide; [done|].
  fold (step (k_memory k) (top cur) i). destruct (step (k_memory k) (top cur) i) as [t|] eqn:Et; [|done].
  cbn [mbind option_bind]. apply walk_ext; [done|]. intros q j t' Hq Hpre Hw.
  pose proof (prefix_length _ _ Hpre) as Hl. rewrite length_app in Hl. simpl in Hl.
  apply valid_snoc in Hq as [Hq Hj]. unfold step. f_equal. apply old_table_entry; [|done].
  apply (wft_page _ _ _ (wfs_tables _ _ Hs) (i :: q)); [by apply Forall_cons|simpl; lia|].
  by rewrite walk_cons, Et.
Qed.

Lemma new_space_wf mm' :
  wf_mm mm' -> (forall x, page_free (m_physical_regions mm') x <-> page_free (regions k) x /\ x <> p) ->
  wf_space new (Kernel mm' m2).
Proof using Hs Hp.
  intros Hmm Hf. destruct new_page_bounds as [Hp1 Hp2].
  assert (Hold : forall i path t, valid_path (i :: path) -> (length path <= 2)%nat ->
    walk m2 p (i :: path) = Some t -> walk (k_memory k) (top cur) (i :: path) = Some t).
  { intros i path t Hv Hl Hw. rewrite new_walk in Hw by done. by case_decide. }
  assert (Hnp : forall i path, valid_path (i :: path) -> (length path <= 2)%nat ->
    walk m2 p (i :: path) <> Some p).
  { intros i path Hv Hl Hw. apply Hold in Hw; [|done..].
    by destruct (wft_page _ _ _ (wfs_tables _ _ Hs) (i :: path) p Hv ltac:(simpl; lia) Hw) as (_ & _ & ?). }
  split; cbn [k_mm k_memory new m_physical_pages m_main_page page_address].
  - done.
  - split.
    + intros a. unfold m2, initialize_space, m1, zero_memory.
      repeat case_match; try (unfold is_u64; lia); apply (wft_words _ _ _ (wfs_tables _ _ Hs)).
    + intros [|i path] t Hv Hl Hw.
      * injection Hw as <-. split; [done|]. split; [done|]. rewrite Hf. tauto.
      * apply Hold in Hw; [|done|simpl in Hl; lia].
        destruct (wft_page _ _ _ (wfs_tables _ _ Hs) (i :: path) t Hv Hl Hw) as (? & ? & ?).
        split; [done|]. split; [done|]. rewrite Hf. tauto.
    + intros [|i a] [|j b] t Ha Hb Hla Hlb Hwa Hwb; simpl in Hla, Hlb; [done| | |].
      * injection Hwa as <-. exfalso. by apply (Hnp j b); [|lia|].
      * injection Hwb as <-. exfalso. by apply (Hnp i a); [|lia|].
      * apply Hold in Hwa, Hwb; try (done || lia).
        apply (wft_inj _ _ _ (wfs_tables _ _ Hs) (i :: a) (j :: b) t); (done || (simpl; lia)).
  - constructor.
  - intros page H. by apply elem_of_nil in H.
  - intros H. by apply elem_of_nil in H.
Qed.

Lemma new_translate i j n o :
  valid_path [i; j; n; o] ->
  translate m2 p i j n o =
    if decide (i < kernel_first_table_index) then None else translate (k_memory k) (top cur) i j n o.
Proof using Hs Hp.
  intros Hv. apply valid_quad in Hv as ([Hi Hj] & Hn & Ho).
  assert (H2 : valid_path [i; j]) by vpath. assert (H3 : valid_path [i; j; n]) by vpath.
  unfold translate. rewrite new_walk by (done || (simpl; lia)). case_decide; [done|].
  destruct (walk (k_memory k) (top cur) [i; j]) as [t|] eqn:Et; [|done]. cbn [mbind option_bind].
  pose proof (wft_page _ _ _ (wfs_tables _ _ Hs) [i; j] t H2 ltac:(simpl; lia) Et) as Ht.
  rewrite (old_table_entry t n) by done.
  destruct (is_present (entry_in (k_memory k) t n)) eqn:E1; [|done].
  destruct (is_huge (entry_in (k_memory k) t n)) eqn:E2; [done|]. cbn [negb].
  rewrite (old_table_entry _ o); [done| |done].
  apply (wft_page _ _ _ (wfs_tables _ _ Hs) [i; j; n] _ H3 ltac:(simpl; lia)).
  rewrite (walk_three _ _ i j n t Et). unfold step, table_of. by rewrite E1, E2.
Qed.
End creation.

(** A new address space starts on a page of its own that was free, translates every
    kernel address exactly as the current space does and no user address, and is well
    formed, with the kernel's tables shared; creating it panics only when no page is
    free. *)
Theorem make_address_space_correct (cur : address_space) (k : kernel) :
  wf_space cur k ->
  (free_pages (regions k) = 0 -> make_address_space cur k = Fault KernelPanic) /\
  (0 < free_pages (regions k) ->
   exists sp k', make_address_space cur k = Ok (sp, k') /\ wf_space sp k' /\
     m_physical_pages sp = [] /\ took (regions k) (regions k') [top sp] /\
     forall va, page_of_memory va ->
       translate_address (k_memory k') sp va =
         if decide (va < 2 ^ 47) then None else translate_address (k_memory k) cur va).
Proof.
  intros Hs. pose proof (wfs_mm _ _ Hs) as Hmm. pose proof (wfm_regions _ Hmm) as Hr.
  unfold make_address_space. split.
  - intros H0. unfold mm_allocate_page. destruct (allocate_from_regions_Ok _ Hr) as (r & l' & -> & Hl' & _ & H). run.
    destruct r as [page|]; [|done]. destruct H as [H _]. destruct (free_pages_nonneg _ Hl'). lia.
  - intros Hpos. destruct (mm_allocate_page_Ok (k_mm k) (k_memory k) true Hmm Hpos)
      as (page & mm' & -> & Hmm' & Hfree & Hcnt & Hf & Ha). run. destruct page as [p].
    cbn [page_address] in *. eexists _, _. split; [done|].
    split; [by apply (new_space_wf cur k p Hs Hfree)|]. split; [done|].
    cbn [k_mm m_main_page page_address]. split.
    + split.
      * apply NoDup_singleton.
      * intros x Hx. by apply list_elem_of_singleton in Hx as ->.
      * intros x. by rewrite Hf, list_elem_of_singleton.
      * intros x. by rewrite Ha, list_elem_of_singleton.
      * rewrite Hcnt. simpl. lia.
    + intros va [Hc Hal]. unfold translate_address. pose proof (indices_valid va) as Hv.
      assert (Hhalf : let '(i, _, _, _) := virtual_address_as_paging_indices va in
        i < kernel_first_table_index <-> va < 2 ^ 47).
      { rewrite indices_eq. unfold kernel_first_table_index. destruct Hc; dlia. }
      destruct (virtual_address_as_paging_indices va) as [[[i j] n] o].
      pose proof (new_translate cur k p Hs Hfree i j n o Hv) as Ht. cbn [m_main_page page_address] in *.
      cbn [k_memory]. rewrite Ht. repeat case_decide; tauto.
Qed.

Lemma make_address_space_correct_witness :
  exists mm sp k', example_regions = Ok mm /\
    make_address_space example_space (Kernel mm (fun _ => 0)) = Ok (sp, k') /\ wf_space sp k' /\
    translate_address (k_memory k') sp 0x400000 = None.
Proof.
  destruct example_regions as [mm|] eqn:E; [|vm_compute in E; discriminate E].
  pose proof (example_space_wf mm E) as Hs. exists mm.
  destruct (make_address_space_correct example_space (Kernel mm (fun _ => 0)) Hs) as [_ H].
  destruct H as (sp & k' & E' & Hs' & _ & _ & Ht).
  { vm_compute in E. injection E as <-. reflexivity. }
  exists sp, k'. split; [reflexivity|]. split; [exact E'|]. split; [exact Hs'|].
  rewrite Ht; [reflexivity|]. split; [left; lia|reflexivity].
Defined.

(** ** Destruction *)

(** C34: [free_address_space] of an inactive user space frees its top table and every
    table it allocated, and nothing else: all those pages and only those become free and
    the free-memory counter grows by their size.  The kernel's own space and the active
    one are refused by an assertion. *)
Theorem free_address_space_correct (active of_kernel : Z) (sp : address_space) (k : kernel) :
  wf_space sp k -> page_allocated (regions k) (top sp) ->
  let pages := (page_address <$> m_physical_pages sp) ++ [top sp] in
  ((top sp = of_kernel \/ top sp = active) ->
   free_address_space active of_kernel sp (k_mm k) = Fault AssertionFailed) /\
  (top sp <> of_kernel -> top sp <> active ->
   exists mm', free_address_space active of_kernel sp (k_mm k) = Ok mm' /\ wf_mm mm' /\
     m_free_physical_bytes mm' = m_free_physical_bytes (k_mm k) + Z.of_nat (length pages) * page_size /\
     (forall x, page_free (m_physical_regions mm') x <-> page_free (regions k) x \/ x ∈ pages) /\
     (forall x, page_allocated (m_physical_regions mm') x <-> page_allocated (regions k) x /\ x ∉ pages)).
Proof.
  intros Hs Hmain pages. unfold free_address_space. split.
  - intros [E|E]; [by rewrite (proj2 (Z.eqb_eq _ _) E)|].
    rewrite (proj2 (Z.eqb_eq (top sp) active) E). by destruct (top sp =? of_kernel).
  - intros H1 H2. rewrite (proj2 (Z.eqb_neq _ _) H1), (proj2 (Z.eqb_neq _ _) H2). runb.
    destruct (free_page_list_Ok (m_physical_pages sp) (k_mm k) (wfs_mm _ _ Hs) (wfs_nodup _ _ Hs) (wfs_owned _ _ Hs))
      as (mm1 & -> & Hmm1 & Hb1 & Hf1 & Ha1). run.
    destruct (mm_free_page_Ok mm1 (m_main_page sp) Hmm1) as (mm2 & -> & Hmm2 & Hc2 & Ha2 & Hf2).
    { apply Ha1. split; [done|apply Hs]. }
    exists mm2. split; [done|]. split; [done|]. split; [|split].
    + unfold pages. rewrite length_app, length_fmap. simpl length.
      rewrite (wfm_bytes _ Hmm2), Hc2. rewrite (wfm_bytes _ Hmm1) in Hb1. lia.
    + intros x. unfold pages. rewrite Hf2, Hf1, elem_of_app, list_elem_of_singleton. tauto.
    + intros x. unfold pages. rewrite Ha2, Ha1, not_elem_of_app, list_elem_of_singleton. tauto.
Qed.

Lemma free_address_space_correct_witness :
  exists mm sp k mm', example_regions = Ok mm /\
    make_address_space example_space (Kernel mm (fun _ => 0)) = Ok (sp, k) /\
    free_address_space 0x50000 0x50000 sp (k_mm k) = Ok mm' /\
    m_free_physical_bytes mm' = 0x7000.
Proof.
  destruct example_regions as [mm|] eqn:E; [|vm_compute in E; discriminate E].
  pose proof (example_space_wf mm E) as Hs. exists mm.
  pose proof (wfs_mm _ _ Hs) as Hmm.
  destruct (mm_allocate_page_Ok mm (fun _ => 0) true Hmm) as (page & mm1 & E1 & Hmm1 & Hfree & Hc & Hf & Ha).
  { vm_compute in E. injection E as <-. reflexivity. }
  destruct page as [p]. cbn [page_address] in *.
  assert (Hp : p = 0x100000).
  { vm_compute in E. injection E as <-.
    apply (f_equal (fun r => match r with Ok (p, _, _) => page_address p | Fault _ => 0 end)) in E1.
    vm_compute in E1. symmetry. exact E1. }
  pose proof (new_space_wf example_space (Kernel mm (fun _ => 0)) p Hs Hfree mm1 Hmm1 Hf) as Hs'.
  assert (Hal : page_allocated (m_physical_regions mm1) p) by (apply Ha; right; reflexivity).
  destruct (free_address_space_correct 0x50000 0x50000 _ _ Hs' Hal) as [_ H].
  destruct H as (mm' & E2 & _ & Hb & _);
    [cbn [m_main_page page_address]; rewrite Hp; discriminate..|].
  eexists _, _, mm'. split; [reflexivity|]. split; [unfold make_address_space; cbn [k_mm k_memory]; rewrite E1; reflexivity|].
  split; [exact E2|]. rewrite Hb. cbn [k_mm m_physical_pages m_main_page fmap list_fmap app length].
  rewrite (wfm_bytes _ Hmm1), Hc. vm_compute in E. injection E as <-. reflexivity.
Defined.

(** ** Behaviours the operations do not check *)

(** Looking up a page that has been unmapped still returns its old physical address: the
    present bit of the last-level entry is not looked at. *)
Example lookup_after_unmap :
  (mm ← example_regions;
   '(sp, k) ← map_page 0x400000 0xB8000 NO example_space (Kernel mm (fun _ => 0));
   m ← local_unmap_page 0x400000 sp (k_memory k);
   physical_address_of 0x400000 sp m) = Ok 0xB8000.
Proof. vm_compute. reflexivity. Qed.

(** Unmapping a page whose tables were never created follows the zero address of the
    absent entries and clears a bit of physical page 0. *)
Example unmap_without_tables_writes_page_zero :
  (m ← local_unmap_page 0x1000 example_space
     (fun a => if decide (a = 0xFFFF800000000008) then 0xF1 else 0);
   mret (m 0xFFFF800000000008)) = Ok 0xF0.
Proof. vm_compute. reflexivity. Qed.

(** A page inside a huge page has a translation, but [physical_address_of] reads the
    huge page's contents as a table. *)
Example lookup_inside_huge_page :
  (mm ← example_regions;
   '(sp, k) ← map_huge_page 0x400000 0x200000 YES example_space (Kernel mm (fun _ => 0));
   pa ← physical_address_of 0x401000 sp (k_memory k);
   mret (pa, translate_address (k_memory k) sp 0x401000)) = Ok (0, Some (0x201000, 0x83)).
Proof. vm_compute. reflexivity. Qed.
