(* ===== verification/MemoryMap.v ===== *)
(** Kernel/Memory/MemoryMap.{h,cpp}: the native physical memory map, built at boot from
    the BIOS (E820) map by aligning, sorting and resolving overlaps, and edited by the boot
    allocator.  The entries live in a fixed buffer; [mm_capacity] is its size, and an
    entry placed past it is written outside the buffer (the code only warns). *)
From S2P Require Import Prelude Page Range Utilities.

(** ** Data *)

(** [Kernel/Memory/MemoryMap.h:18-24] E820MemoryMap::PhysicalRange *)
Record e820_entry := E820 { base_address : Z; e820_length : Z; e820_type : Z }.

(** [Kernel/Memory/MemoryMap.h:42-52] PhysicalRange::Type *)
Definition FREE : Z := 1.
Definition RESERVED : Z := 2.
Definition RECLAIMABLE : Z := 3.
Definition NON_VOLATILE : Z := 4.
Definition BAD : Z := 5.
Definition KERNEL_IMAGE : Z := 0xFFFFFFFF + 1.
Definition KERNEL_MODULE : Z := 0xFFFFFFFF + 2.
Definition INITIAL_HEAP_BLOCK : Z := 0xFFFFFFFF + 3.
Definition GENERIC_BOOTALLOC_RESERVED : Z := 0xFFFFFFFF + 4.

(** [Kernel/Memory/MemoryMap.h:41-52] PhysicalRange
    The type is the 64-bit value of the enumeration: entries are cast from the BIOS's
    32-bit one, so values without a name occur. *)
Record phys := Phys { ph_range : range; ph_type : Z }.

#[export] Instance phys_eq_dec : EqDecision phys.
Proof. solve_decision. Defined.

Definition ph_begin (p : phys) : Z := r_begin (ph_range p).
Definition ph_end (p : phys) : Z := r_end (ph_range p).

(** [Kernel/Memory/MemoryMap.h:235-238] MemoryMap *)
Record memory_map := MemoryMap { mm_entries : list phys; mm_capacity : Z }.

(** ** PhysicalRange *)

(** [Kernel/Memory/MemoryMap.h:59-59] PhysicalRange() *)
Definition null_phys : phys := Phys null_range RESERVED.

(** [Kernel/Memory/MemoryMap.h:61-65] PhysicalRange(Address64, size_t, Type) *)
Definition phys_make (start length type : Z) : result phys :=
  r ← range_make start length; mret (Phys r type).

(** [Kernel/Memory/MemoryMap.h:67-70] is_free *)
Definition is_free (p : phys) : bool := ph_type p =? FREE.

(** [Kernel/Memory/MemoryMap.h:72-75] is_reserved *)
Definition is_reserved (p : phys) : bool := negb (is_free p).

(** [Kernel/Memory/MemoryMap.h:103-106] operator< *)
Definition phys_lt (p other : phys) : bool := r_lt (ph_range p) (ph_range other).

(** [Kernel/Memory/MemoryMap.h:108-111] operator== *)
Definition phys_eq (p other : phys) : bool :=
  r_eq (ph_range p) (ph_range other) && (ph_type p =? ph_type other).

(** [Kernel/Memory/MemoryMap.h:118-125] PhysicalRange::aligned_to *)
Definition phys_aligned_to (p : phys) (alignment : Z) : result phys :=
  r ← aligned_to (ph_range p) alignment; mret (Phys r (ph_type p)).

(** [Kernel/Memory/MemoryMap.h:127-134] PhysicalRange::constrained_by *)
Definition phys_constrained_by (p : phys) (lowest highest : Z) : result phys :=
  r ← constrained_by (ph_range p) lowest highest; mret (Phys r (ph_type p)).

(** [Kernel/Memory/MemoryMap.cpp:57-96] shatter_against
    Splits or merges two overlapping ranges by their types: three ranges, some null. *)
Definition shatter_against (self other : phys) : result (phys * phys * phys) :=
  _ ← ASSERT (r_contains (ph_range self) (ph_begin other));
  let set_end p e := Phys (set_end (ph_range p) e) (ph_type p) in
  let set_begin p b := Phys (set_begin (ph_range p) b) (ph_type p) in
  let r0 := set_end self (ph_begin other) in
  if ph_type self =? ph_type other then
    mret (set_end r0 (if ph_end self >? ph_end other then ph_end self else ph_end other),
          null_phys, null_phys)
  else
    r2 ← (if ph_end other <=? ph_end self then
            r ← reset_with_two_pointers (ph_end other) (ph_end self);
            mret (Phys r (ph_type self))
          else mret null_phys);
    if ph_type self >? ph_type other then
      let r0 := set_end r0 (ph_end self) in
      if ph_end self <=? ph_end other then
        mret (r0, set_begin other (ph_end r0), r2)
      else mret (r0, null_phys, null_phys)
    else mret (r0, other, r2).

(** ** The entry list *)

(** [Kernel/Memory/MemoryMap.h:171-171] entry_count *)
Definition entry_count (m : memory_map) : Z := Z.of_nat (length (mm_entries m)).

(** [Kernel/Memory/MemoryMap.h:160-166] highest_address *)
Definition highest_address (m : memory_map) : result Z :=
  _ ← ASSERT (entry_count m >? 0);
  p ← read_at (mm_entries m) (entry_count m - 1);
  mret (ph_end p).

(** [Kernel/Memory/MemoryMap.h:180-188] emplace_range *)
Definition emplace_range (m : memory_map) (p : phys) : result memory_map :=
  if entry_count m >=? mm_capacity m then Fault OutOfBounds
  else mret (MemoryMap (mm_entries m ++ [p]) (mm_capacity m)).

(** [Kernel/Memory/MemoryMap.h:190-208] emplace_range_at *)
Definition emplace_range_at (m : memory_map) (index : Z) (p : phys) : result memory_map :=
  _ ← ASSERT (index <=? entry_count m);
  if index =? entry_count m then emplace_range m p
  else if entry_count m >=? mm_capacity m then Fault OutOfBounds
  else
    let i := Z.to_nat index in
    mret (MemoryMap (take i (mm_entries m) ++ p :: drop i (mm_entries m)) (mm_capacity m)).

(** [Kernel/Memory/MemoryMap.cpp:98-111] erase_range_at *)
Definition erase_range_at (m : memory_map) (index : Z) : result memory_map :=
  _ ← ASSERT (index <? entry_count m);
  let i := Z.to_nat index in
  mret (MemoryMap (take i (mm_entries m) ++ drop (S i) (mm_entries m)) (mm_capacity m)).

(** [m_entries[i] = p] *)
Definition set_entry (m : memory_map) (i : Z) (p : phys) : result memory_map :=
  l ← write_at (mm_entries m) i p; mret (MemoryMap l (mm_capacity m)).

(** ** Building the map *)

(** Trims a free range to whole pages. *)
Definition trim_free (p : phys) : result phys :=
  p ← phys_aligned_to p page_size;
  mret (Phys (set_length (ph_range p) (round_down (r_length (ph_range p)))) (ph_type p)).

(** [Kernel/Memory/MemoryMap.cpp:13-46] copy_aligned_from *)
Fixpoint copy_aligned_from (m : memory_map) (e820 : list e820_entry) : result memory_map :=
  match e820 with
  | [] => mret m
  | dirty_entry :: e820 =>
    new_range ← phys_make (base_address dirty_entry) (e820_length dirty_entry)
                  (e820_type dirty_entry);
    if negb (ph_type new_range =? FREE) then
      m ← emplace_range m new_range;
      copy_aligned_from m e820
    else
      aligned ← phys_aligned_to new_range page_size;
      if r_empty (ph_range aligned) || (r_length (ph_range aligned) <? page_size) then
        copy_aligned_from m e820
      else
        let r := set_length (ph_range aligned) (round_down (r_length (ph_range aligned))) in
        m ← emplace_range m (Phys r (ph_type aligned));
        copy_aligned_from m e820
  end.

(** [Kernel/Memory/MemoryMap.cpp:48-54] sort_by_address *)
Definition sort_by_address (m : memory_map) : result memory_map :=
  l ← insertion_sort phys_lt (mm_entries m); mret (MemoryMap l (mm_capacity m)).

(** [Kernel/Memory/MemoryMap.cpp:118-120] trivially_mergeable *)
Definition trivially_mergeable (l r : phys) : bool :=
  (ph_end l =? ph_begin r) && (ph_type l =? ph_type r).

(** [Kernel/Memory/MemoryMap.cpp:133-140] the pieces kept after a shatter: free pieces are
    trimmed to pages, and a piece is valid if it is not empty and either reserved or at
    least a page. *)
Definition valid_piece (p : phys) : result (option phys) :=
  p ← (if is_free p then trim_free p else mret p);
  mret (if r_valid (ph_range p) && ((r_length (ph_range p) >=? page_size) || is_reserved p)
        then Some p else None).

(** [Kernel/Memory/MemoryMap.cpp:142-154] placing the valid pieces from index [i]: the
    first two overwrite the shattered entries, a third is inserted after them. *)
Definition place_piece (m : memory_map) (i j : Z) (piece : option phys)
  : result (memory_map * Z) :=
  match piece with
  | None => mret (m, j)
  | Some p =>
    if j - i =? 2 then m ← emplace_range_at m j p; mret (m, j + 1)
    else m ← set_entry m j p; mret (m, j + 1)
  end.

(** [Kernel/Memory/MemoryMap.cpp:124-172] one turn of the inner loop: the new map and the
    index it continues from. *)
Definition correct_step (m : memory_map) (i : Z) (a b : phys) : result (memory_map * Z) :=
  if trivially_mergeable a b then
    m ← set_entry m i (Phys (set_end (ph_range a) (ph_end b)) (ph_type a));
    m ← erase_range_at m (i + 1);
    mret (m, i)
  else
    '(r0, r1, r2) ← shatter_against a b;
    p0 ← valid_piece r0;
    p1 ← valid_piece r1;
    p2 ← valid_piece r2;
    '(m, j) ← place_piece m i i p0;
    '(m, j) ← place_piece m i j p1;
    '(m, j) ← place_piece m i j p2;
    _ ← panic_if (j =? i);
    m ← (if j - i =? 1 then erase_range_at m j else mret m);
    mret (m, if i =? 0 then i else i - 1).

(** [Kernel/Memory/MemoryMap.cpp:122-174] the two nested loops of
    correct_overlapping_ranges: the inner one is entered again while the entries at [i]
    touch, the outer one advances [i]. *)
Fixpoint correct_loop (fuel : nat) (m : memory_map) (i : Z) : result memory_map :=
  match fuel with
  | O => Fault OutOfFuel
  | S fuel =>
    if i <? entry_count m - 1 then
      a ← read_at (mm_entries m) i;
      b ← read_at (mm_entries m) (i + 1);
      if r_overlaps (ph_range a) (ph_range b) || trivially_mergeable a b then
        '(m, i) ← correct_step m i a b;
        correct_loop fuel m i
      else correct_loop fuel m (i + 1)
    else mret m
  end.

(** Enough turns for [n] entries (theorem [correct_overlapping_ranges_correct]). *)
Definition correct_fuel (n : nat) : nat := 6 * n * n + 4 * n + 1.

(** [Kernel/Memory/MemoryMap.cpp:114-175] correct_overlapping_ranges *)
Definition correct_overlapping_ranges (m : memory_map) (hint : Z) : result memory_map :=
  _ ← ASSERT (negb (entry_count m =? 0));
  correct_loop (correct_fuel (length (mm_entries m))) m hint.

(** [Kernel/Memory/MemoryMap.cpp:177-190] generate_from, given the BIOS map of the loader
    context and the number of entries the static buffer holds. *)
Definition generate_from (capacity : Z) (e820 : list e820_entry) : result memory_map :=
  m ← copy_aligned_from (MemoryMap [] capacity) e820;
  m ← sort_by_address m;
  correct_overlapping_ranges m 0.

(** [Kernel/Memory/MemoryMap.cpp:10-11] the capacity of the static buffer: a page of
    24-byte entries. *)
Definition map_capacity : Z := page_size / 24.
