(* ===== verification/OrderedSet.v ===== *)
(** The interface of Kernel/Common/Set.h that the kernel's clients use: an ordered set with
    iterators.  [OrderedSet] lists the operations, [OrderedSetLaws] what a client may rely
    on, both over the in-order sequence of the elements; clients (VirtualAllocator.v) are
    proved against them.  An iterator is [Some] element, or [None] for [end()]: elements
    are unique, so an element names its node, and it stays valid while the element stays
    in the set.  [SortedList] is the reference implementation, an ordered list. *)
From S2P Require Import Prelude.

(** ** Interface *)

Class OrderedSet (T A : Type) := {
  os_null : T;                                      (** a set after [clear()] *)
  os_size : T -> nat;
  os_begin : T -> option A;
  os_lower_bound : T -> (A -> bool) -> option A;    (** the argument: [element < key] *)
  os_next : T -> option A -> result (option A);     (** [++iterator] *)
  os_prev : T -> option A -> result (option A);     (** [--iterator] *)
  os_emplace : T -> A -> result T;
  os_remove : T -> option A -> result T;
}.

Definition os_empty `{OrderedSet T A} (s : T) : bool := bool_decide (os_size s = 0%nat).

(** [*iterator]: asserts that the iterator is not [end()]. *)
Definition deref {A} (it : option A) : result A :=
  match it with Some x => Ok x | None => Fault AssertionFailed end.

(** [os_rep s l]: the elements of [s], in order, are [l]. *)
Class OrderedSetLaws (T A : Type) (lt : A -> A -> bool) `{OrderedSet T A}
    (os_rep : T -> list A -> Prop) : Prop := {
  os_null_rep : os_rep os_null [];
  os_size_rep s l : os_rep s l -> os_size s = length l;
  os_begin_rep s l : os_rep s l -> os_begin s = head l;
  os_lower_bound_rep s l1 l2 below :
    os_rep s (l1 ++ l2) -> Forall (fun x => below x = true) l1 ->
    Forall (fun x => below x = false) l2 -> os_lower_bound s below = head l2;
  os_next_rep s l1 x l2 :
    os_rep s (l1 ++ x :: l2) -> os_next s (Some x) = Ok (head l2);
  os_prev_rep s l1 x l2 :
    os_rep s (l1 ++ x :: l2) -> os_prev s (Some x) = Ok (last l1);
  os_prev_end_rep s l x : os_rep s (l ++ [x]) -> os_prev s None = Ok (Some x);
  os_emplace_rep s l1 l2 x :
    os_rep s (l1 ++ l2) -> Forall (fun y => lt y x = true) l1 ->
    Forall (fun y => lt x y = true) l2 ->
    exists s', os_emplace s x = Ok s' /\ os_rep s' (l1 ++ x :: l2);
  os_remove_rep s l1 x l2 :
    os_rep s (l1 ++ x :: l2) ->
    exists s', os_remove s (Some x) = Ok s' /\ os_rep s' (l1 ++ l2);
}.

(** ** Reference implementation *)

(** A strict order on the elements. *)
Class StrictOrder {A} (lt : A -> A -> bool) : Prop := {
  lt_irrefl x : lt x x = false;
  lt_transitive x y z : lt x y = true -> lt y z = true -> lt x z = true;
}.

Section sorted_list.
Context {A : Type} (lt : A -> A -> bool) `{!StrictOrder lt}.

Definition same (x y : A) : bool := negb (lt x y) && negb (lt y x).

Fixpoint sl_emplace (l : list A) (x : A) : list A :=
  match l with
  | [] => [x]
  | y :: l' =>
    if lt y x then y :: sl_emplace l' x
    else if lt x y then x :: l else l
  end.

Fixpoint sl_remove (l : list A) (x : A) : list A :=
  match l with
  | [] => []
  | y :: l' => if same y x then l' else y :: sl_remove l' x
  end.

Fixpoint sl_find (l : list A) (below : A -> bool) : option A :=
  match l with
  | [] => None
  | y :: l' => if below y then sl_find l' below else Some y
  end.

Fixpoint sl_next (l : list A) (x : A) : result (option A) :=
  match l with
  | [] => Fault OutOfBounds
  | y :: l' => if same y x then Ok (head l') else sl_next l' x
  end.

Fixpoint sl_prev (before : option A) (l : list A) (x : A) : result (option A) :=
  match l with
  | [] => Fault OutOfBounds
  | y :: l' => if same y x then Ok before else sl_prev (Some y) l' x
  end.

Definition sorted_list_set : OrderedSet (list A) A := {|
  os_null := [];
  os_size := length;
  os_begin := head;
  os_lower_bound := sl_find;
  os_next l it := x ← deref it; sl_next l x;
  os_prev l it :=
    match it with
    | None => match last l with Some x => Ok (Some x) | None => Fault OutOfBounds end
    | Some x => sl_prev None l x
    end;
  os_emplace l x := Ok (sl_emplace l x);
  os_remove l it := x ← deref it; Ok (sl_remove l x);
|}.

Definition sorted_list_rep (s l : list A) : Prop :=
  s = l /\ StronglySorted (fun x y => lt x y = true) l.

Lemma same_refl x : same x x = true.
Proof. unfold same. by rewrite (lt_irrefl (lt:=lt)). Qed.

Lemma same_lt x y : lt x y = true -> same x y = false.
Proof. unfold same. by intros ->. Qed.

Lemma sorted_mid l1 x l2 :
  StronglySorted (fun a b => lt a b = true) (l1 ++ x :: l2) ->
  Forall (fun y => lt y x = true) l1 /\ Forall (fun y => lt x y = true) l2 /\
  StronglySorted (fun a b => lt a b = true) (l1 ++ l2).
Proof.
  induction l1 as [|y l1 IH]; simpl; intros H; inversion H as [|? ? Hs Hf]; subst.
  - done.
  - apply IH in Hs as (H1 & H2 & H3). rewrite Forall_app, Forall_cons in Hf.
    destruct Hf as (Hf1 & Hf2 & Hf3). split_and!; [by constructor|done|].
    constructor; [done|]. apply Forall_app; done.
Qed.

Lemma sorted_insert l1 x l2 :
  StronglySorted (fun a b => lt a b = true) (l1 ++ l2) ->
  Forall (fun y => lt y x = true) l1 -> Forall (fun y => lt x y = true) l2 ->
  StronglySorted (fun a b => lt a b = true) (l1 ++ x :: l2).
Proof.
  induction l1 as [|y l1 IH]; simpl; intros H H1 H2; [by constructor|].
  inversion H as [|? ? Hs Hf]; subst. apply Forall_cons in H1 as [Hyx H1].
  constructor; [by apply IH|]. apply Forall_app in Hf as [Hf1 Hf2].
  apply Forall_app; split; [done|]. constructor; [done|].
  eapply Forall_impl; [exact H2|]. simpl. intros z Hz. by eapply lt_transitive.
Qed.

Lemma sl_emplace_app l1 l2 x :
  Forall (fun y => lt y x = true) l1 -> Forall (fun y => lt x y = true) l2 ->
  sl_emplace (l1 ++ l2) x = l1 ++ x :: l2.
Proof.
  intros H1 H2. induction H1 as [|y l1 Hy _ IH]; simpl.
  - destruct l2 as [|z l2]; simpl; [done|]. apply Forall_cons in H2 as [Hz _].
    destruct (lt z x) eqn:E; [|by rewrite Hz].
    pose proof (lt_transitive _ _ _ Hz E) as Hx. by rewrite (lt_irrefl (lt:=lt)) in Hx.
  - by rewrite Hy, IH.
Qed.

(** The position of an element in a sorted list, for a function that skips the others. *)
Lemma skip_smaller {B} (f : list A -> B) l1 x l2 :
  Forall (fun y => lt y x = true) l1 ->
  (forall y l, lt y x = true -> f (y :: l) = f l) -> f (l1 ++ x :: l2) = f (x :: l2).
Proof. intros H1 Hf. induction H1; simpl; [done|]. by rewrite Hf. Qed.

#[export] Instance sorted_list_laws :
  @OrderedSetLaws (list A) A lt sorted_list_set sorted_list_rep.
Proof.
  split; unfold sorted_list_rep; simpl.
  - split; [done|constructor].
  - by intros s l [-> _].
  - by intros s l [-> _].
  - intros s l1 l2 below [-> _] H1 H2. induction H1 as [|y l1 Hy _ IH]; simpl.
    + destruct H2 as [|y l2 Hy]; simpl; [done|]. by rewrite Hy.
    + by rewrite Hy.
  - intros s l1 x l2 [-> Hs]. apply sorted_mid in Hs as (H1 & _).
    unfold mbind, result_bind. rewrite (skip_smaller (fun l => sl_next l x)); simpl.
    + by rewrite same_refl.
    + done.
    + intros y l Hy. by rewrite same_lt.
  - intros s l1 x l2 [-> Hs]. apply sorted_mid in Hs as (H1 & _).
    enough (forall b, sl_prev b (l1 ++ x :: l2) x = Ok (match last l1 with None => b | y => y end)) as H.
    { rewrite H. by destruct (last l1). }
    induction H1 as [|y l1 Hy _ IH]; intros b; simpl; [by rewrite same_refl|].
    rewrite same_lt, IH by done. destruct l1 as [|z l1]; [done|].
    rewrite last_cons_cons. by destruct (last (z :: l1)) eqn:E; [|apply last_None in E].
  - intros s l x [-> _]. by rewrite last_snoc.
  - intros s l1 l2 x [-> Hs] H1 H2. eexists; split; [done|]. split.
    + by apply sl_emplace_app.
    + by apply sorted_insert.
  - intros s l1 x l2 [-> Hs]. eexists; split; [done|]. apply sorted_mid in Hs as (H1 & _ & Hs).
    split; [|done]. clear Hs. induction H1 as [|y l1 Hy _ IH]; simpl; [by rewrite same_refl|].
    by rewrite same_lt, IH by done.
Qed.
End sorted_list.
