(* ===== verification/VirtualRegions.v ===== *)
(** Kernel/Memory/VirtualRegion.{h,cpp}, PrivateVirtualRegion, SharedVirtualRegion and
    NonOwningVirtualRegion, and the parts of MemoryManager.cpp that work on them: the
    search for the region of an address, the page fault handler, preallocation, and the
    mapping of shared regions.  The region trees are used through the ordered-set
    interface.  A region is an object with an identity; the pages of a shared region
    live in a block that its clones share. *)
From S2P Require Import Prelude Page Range Utilities OrderedSet PhysicalRegion PagingEntry PhysicalMemory AddressSpace.

(** ** Properties *)

(** [Kernel/Memory/VirtualRegion.h:69-84] Properties, with the values of Type and Specifier *)
Definition VR_SUPERVISOR : Z := Z.shiftl 1 0.
Definition VR_PRIVATE : Z := Z.shiftl 1 1.
Definition VR_SHARED : Z := Z.shiftl 1 2.
Definition VR_NON_OWNING : Z := Z.shiftl 1 3.
Definition VR_STACK : Z := Z.shiftl 1 4.
Definition VR_ETERNAL : Z := Z.shiftl 1 5.
Definition VR_INVALID : Z := Z.shiftl 1 31.

(** [Kernel/Memory/VirtualRegion.h:51-62] Type and Specifier *)
Inductive region_type := INVALID | PRIVATE | SHARED | NON_OWNING.
Inductive region_specifier := NONE | STACK | ETERNAL.

#[export] Instance region_type_eq_dec : EqDecision region_type.
Proof. solve_decision. Defined.

(** [Kernel/Memory/VirtualRegion.h:106-114] type_to_properties and specifier_to_properties *)
Definition type_to_properties (t : region_type) : Z :=
  match t with INVALID => 0 | PRIVATE => VR_PRIVATE | SHARED => VR_SHARED | NON_OWNING => VR_NON_OWNING end.
Definition specifier_to_properties (s : region_specifier) : Z :=
  match s with NONE => 0 | STACK => VR_STACK | ETERNAL => VR_ETERNAL end.

(** [Kernel/Memory/VirtualRegion.h:116-127] make_properties *)
Definition make_properties (is_supervisor : IsSupervisor) (t : region_type) (s : region_specifier) : Z :=
  let props := if decide (is_supervisor = YES) then VR_SUPERVISOR else 0 in
  Z.lor (Z.lor props (type_to_properties t)) (specifier_to_properties s).

(** [Kernel/Memory/VirtualRegion.h:142-145] operator& on Properties *)
Definition property_set (properties property : Z) : bool := negb (Z.land properties property =? 0).

(** [Kernel/Memory/VirtualRegion.h:214-226] ensure_properties_are_sane *)
Definition ensure_properties_are_sane (properties : Z) : result unit :=
  _ ← ASSERT (negb (property_set properties VR_INVALID));
  _ ← (if property_set properties VR_ETERNAL then ASSERT (property_set properties VR_SUPERVISOR) else mret tt);
  _ ← (if property_set properties VR_PRIVATE then ASSERT (negb (property_set properties VR_SHARED)) else mret tt);
  if property_set properties VR_STACK then ASSERT (property_set properties VR_PRIVATE) else mret tt.

(** ** Regions *)

(** [Kernel/Memory/SharedVirtualRegion.h:22-26] SharedBlock *)
Record shared_block := SharedBlock {
  sb_pages : list Z;
  sb_ref_count : Z;
}.

(** What the subclasses add: the pages a private region owns, the block a shared region
    refers to, the physical range of a window. *)
Inductive region_body :=
  | Private (owned_pages : list Z)
  | Shared (block : Z)
  | NonOwning (physical_range : range).

(** [Kernel/Memory/VirtualRegion.h:237-243] VirtualRegion, without its name *)
Record vregion := VRegion {
  vr_range : range;
  vr_properties : Z;
  vr_released : bool;
  vr_body : region_body;
}.

(** [Kernel/Memory/VirtualRegion.h:167-178] is_property_set and the predicates on it *)
Definition vr_is (r : vregion) (property : Z) : bool := property_set (vr_properties r) property.
Definition vr_is_supervisor (r : vregion) : IsSupervisor := if vr_is r VR_SUPERVISOR then YES else NO.

(** [Kernel/Memory/VirtualRegion.h:129-138] Specification, without the purpose *)
Record specification := Specification {
  sp_is_supervisor : IsSupervisor;
  sp_region_type : region_type;
  sp_region_specifier : region_specifier;
  sp_virtual_range : range;
  sp_physical_range : range;
}.

(** [Kernel/Memory/VirtualRegion.cpp:8-31] from_specification; a shared region gets a new block *)
Definition from_specification (spec : specification) (blocks : list shared_block)
  : result (vregion * list shared_block) :=
  _ ← ASSERT (bool_decide (sp_region_type spec <> INVALID));
  _ ← ASSERT (bool_decide (sp_is_supervisor spec <> UNSPECIFIED));
  let properties := make_properties (sp_is_supervisor spec) (sp_region_type spec) (sp_region_specifier spec) in
  _ ← ensure_properties_are_sane properties;
  match sp_region_type spec with
  | INVALID => Fault AssertionFailed
  | PRIVATE => mret (VRegion (sp_virtual_range spec) properties false (Private []), blocks)
  | NON_OWNING =>
      mret (VRegion (sp_virtual_range spec) properties false (NonOwning (sp_physical_range spec)), blocks)
  | SHARED =>
      mret (VRegion (sp_virtual_range spec) properties false (Shared (Z.of_nat (length blocks))),
            blocks ++ [SharedBlock [] 1])
  end.

(** [Kernel/Memory/SharedVirtualRegion.cpp:13-28] clone and the cloning constructor *)
Definition shared_clone (r : vregion) (virtual_range : range) (is_supervisor : IsSupervisor)
    (blocks : list shared_block) : result (vregion * list shared_block) :=
  match vr_body r with
  | Shared b =>
      let props := Z.lor (if decide (is_supervisor = YES) then VR_SUPERVISOR else 0) VR_SHARED in
      block ← read_at blocks b;
      blocks ← write_at blocks b (SharedBlock (sb_pages block) (sb_ref_count block +! 1));
      _ ← ensure_properties_are_sane props;
      mret (VRegion virtual_range props false (Shared b), blocks)
  | _ => Fault OutOfBounds
  end.

(** ** The pages of a region *)

(** The offset of an address in the pages of a region. *)
Definition page_offset (r : range) (virtual_address : Z) : Z :=
  (virtual_address -! r_begin r) / page_size.

(** [Kernel/Memory/PrivateVirtualRegion.cpp:25-34] page_at; no page is address 0 *)
Definition page_at (r : range) (owned : list Z) (virtual_address : Z) : Z :=
  let offset := page_offset r virtual_address in
  if Z.of_nat (length owned) <=? offset then 0
  else match owned !! Z.to_nat offset with Some page => page | None => 0 end.

(** [DynamicArray::expand_to] with null pages. *)
Definition expand_pages (owned : list Z) (count : nat) : list Z :=
  owned ++ replicate (count - length owned) 0.

(** [Kernel/Memory/PrivateVirtualRegion.cpp:36-43] store_page *)
Definition store_page (r : range) (owned : list Z) (page virtual_address : Z) : list Z :=
  let offset := Z.to_nat (page_offset r virtual_address) in
  <[offset := page]> (expand_pages owned (S offset)).

(** ** Finding the region of an address *)

Section tree.
Context {A T : Type} `{EqDecision A} `{OrderedSet T A} (extract_range : A -> range).

(** [Kernel/Memory/Utilities.h:12-30] find_address_in_range_tree *)
Definition find_address_in_range_tree (tree : T) (address : Z) : result (option A) :=
  let range_itr := os_lower_bound tree (fun x => r_begin (extract_range x) <? address) in
  let elsewhere :=
    match range_itr with
    | None => true
    | Some x => negb (r_begin (extract_range x) =? address)
    end in
  if elsewhere then
    if bool_decide (range_itr = os_begin tree) then mret None
    else
      range_itr ← os_prev tree range_itr;
      x ← deref range_itr;
      mret (if r_contains (extract_range x) address then Some x else None)
  else mret range_itr.
End tree.

(** ** Page faults *)

(** The state the handler works on.  [vm_tree] and [vm_process_tree] hold the kernel's
    and the current process' regions, each as its range and its identity. *)
Record vm {T : Type} := VM {
  vm_regions : list vregion;
  vm_blocks : list shared_block;
  vm_tree : T;
  vm_process_tree : T;
  vm_space : address_space;
  vm_kernel : kernel;
}.
Arguments vm : clear implicits.
Arguments VM {T} _ _ _ _ _ _.

(** How a handled fault ends: the faulting instruction runs again, the safe operation
    returns an error to its caller, or the process is killed. *)
Inductive fault_outcome (S : Type) :=
  | Resume (s : S)
  | AbandonSafeOperation
  | CrashProcess.
Arguments Resume {S} _.
Arguments AbandonSafeOperation {S}.
Arguments CrashProcess {S}.

(** [Kernel/Memory/MemoryManager.cpp:360-392] a fault in a private region *)
Definition fault_in_private (r : vregion) (owned : list Z) (aligned_address : Z)
    (sp : address_space) (k : kernel) : result (list Z * address_space * kernel) :=
  _ ← panic_if (vr_released r);
  _ ← panic_if (vr_is r VR_STACK && (aligned_address =? r_begin (vr_range r)));
  if negb (page_at (vr_range r) owned aligned_address =? 0) then mret (owned, sp, k)
  else
    '(page, mm, m) ← mm_allocate_page (k_mm k) (k_memory k) true;
    let owned := store_page (vr_range r) owned (page_address page) aligned_address in
    '(sp, k) ← map_page aligned_address (page_address page) (vr_is_supervisor r) sp (Kernel mm m);
    mret (owned, sp, k).

(** [Kernel/Memory/MemoryManager.cpp:393-419] a fault in a shared region, on the pages of its block *)
Definition fault_in_shared (r : vregion) (owned : list Z) (aligned_address : Z)
    (sp : address_space) (k : kernel) : result (list Z * address_space * kernel) :=
  _ ← panic_if (vr_released r);
  let this_page := page_at (vr_range r) owned aligned_address in
  if negb (this_page =? 0) then
    '(sp, k) ← map_page aligned_address this_page (vr_is_supervisor r) sp k;
    mret (owned, sp, k)
  else
    '(new_page, mm, m) ← mm_allocate_page (k_mm k) (k_memory k) true;
    let owned := store_page (vr_range r) owned (page_address new_page) aligned_address in
    '(sp, k) ← map_page aligned_address (page_address new_page) (vr_is_supervisor r) sp (Kernel mm m);
    mret (owned, sp, k).

Section fault.
Context {T : Type} `{OrderedSet T (range * Z)}.

(** [Kernel/Memory/MemoryManager.cpp:270-297] virtual_region_responsible_for_address: the identity of the region *)
Definition virtual_region_responsible_for_address (s : vm T) (address : Z) : result (option Z) :=
  let aligned_address := round_down address in
  let tree := if address >=? physical_memory_base then vm_tree s else vm_process_tree s in
  region ← find_address_in_range_tree (@fst range Z) tree aligned_address;
  mret (option_map snd region).

(** [Kernel/Memory/MemoryManager.cpp:357-422] the part of handle_page_fault after the region is known *)
Definition fault_in_region (s : vm T) (id aligned_address : Z) : result (vm T) :=
  region ← read_at (vm_regions s) id;
  match vr_body region with
  | Private owned =>
      '(owned, sp, k) ← fault_in_private region owned aligned_address (vm_space s) (vm_kernel s);
      let region := VRegion (vr_range region) (vr_properties region) (vr_released region) (Private owned) in
      regions ← write_at (vm_regions s) id region;
      mret (VM regions (vm_blocks s) (vm_tree s) (vm_process_tree s) sp k)
  | Shared b =>
      block ← read_at (vm_blocks s) b;
      '(owned, sp, k) ← fault_in_shared region (sb_pages block) aligned_address (vm_space s) (vm_kernel s);
      blocks ← write_at (vm_blocks s) b (SharedBlock owned (sb_ref_count block));
      mret (VM (vm_regions s) blocks (vm_tree s) (vm_process_tree s) sp k)
  | NonOwning _ => Fault AssertionFailed
  end.

(** [Kernel/Memory/MemoryManager.cpp:314-422] handle_page_fault; [safe] says whether the instruction pointer is inside the safe memory operations *)
Definition handle_page_fault (s : vm T) (address : Z) (is_supervisor : IsSupervisor) (safe : bool)
  : result (fault_outcome (vm T)) :=
  virtual_region ←
    (if (address <? userspace_usable_ceiling) || bool_decide (is_supervisor = YES)
     then virtual_region_responsible_for_address s address else mret None);
  match virtual_region with
  | None =>
      if safe then mret AbandonSafeOperation
      else if bool_decide (is_supervisor = NO) then mret CrashProcess
      else Fault KernelPanic
  | Some id =>
      s ← fault_in_region s id (round_down address);
      mret (Resume s)
  end.
End fault.

(** ** Preallocation *)

(** [Kernel/Memory/MemoryManager.h:291-300] the loop of preallocate_unchecked, from page [i] *)
Fixpoint preallocate_loop (count : nat) (i : Z) (r : vregion) (start : Z) (should_zero : bool)
    (owned : list Z) (sp : address_space) (k : kernel) : result (list Z * address_space * kernel) :=
  match count with
  | O => mret (owned, sp, k)
  | S count =>
      let virtual_offset := start +! i *! page_size in
      if negb (page_at (vr_range r) owned virtual_offset =? 0) then
        preallocate_loop count (i + 1) r start should_zero owned sp k
      else
        '(page, mm, m) ← mm_allocate_page (k_mm k) (k_memory k) should_zero;
        '(sp, k) ← map_page virtual_offset (page_address page) (vr_is_supervisor r) sp (Kernel mm m);
        let owned := store_page (vr_range r) owned (page_address page) virtual_offset in
        preallocate_loop count (i + 1) r start should_zero owned sp k
  end.

(** [Kernel/Memory/MemoryManager.cpp:468-500] preallocate_specific, on the pages of the region *)
Definition preallocate_specific (r : vregion) (requested_range : range) (should_zero : bool)
    (owned : list Z) (sp : address_space) (k : kernel) : result (list Z * address_space * kernel) :=
  rng ← (if r_empty requested_range then mret (vr_range r)
         else _ ← ASSERT (r_contains_range (vr_range r) requested_range); mret requested_range);
  _ ← ASSERT (is_aligned (r_begin rng));
  _ ← ASSERT (is_aligned (r_end rng));
  let page_count := r_length rng / page_size in
  page_start ← (if vr_is r VR_STACK && bool_decide (vr_is_supervisor r = YES)
                then _ ← ASSERT (page_count >? 1); mret 1 else mret 0);
  let start := r_begin rng +! page_start *! page_size in
  if vr_is r VR_PRIVATE || vr_is r VR_SHARED then
    preallocate_loop (Z.to_nat (page_count -! page_start)) 0 r start should_zero owned sp k
  else Fault AssertionFailed.

(** [Kernel/Memory/PrivateVirtualRegion.cpp:11-15] preallocate_entire *)
Definition preallocate_entire (r : vregion) (zeroed : bool) (owned : list Z) (sp : address_space) (k : kernel)
  : result (list Z * address_space * kernel) :=
  let owned := expand_pages owned (Z.to_nat (r_length (vr_range r) / page_size)) in
  preallocate_specific r null_range zeroed owned sp k.

(** [Kernel/Memory/MemoryManager.cpp:634-642] mapping the pages a shared region already has, from page [i] *)
Fixpoint map_shared_pages (pages : list Z) (count : nat) (i : Z) (virtual_range : range)
    (is_supervisor : IsSupervisor) (sp : address_space) (k : kernel) : result (address_space * kernel) :=
  match pages, count with
  | page :: pages, S count =>
      let offset := i *! page_size in
      '(sp, k) ← (if page =? 0 then mret (sp, k)
                  else map_page (r_begin virtual_range +! offset) page is_supervisor sp k);
      map_shared_pages pages count (i + 1) virtual_range is_supervisor sp k
  | _, _ => mret (sp, k)
  end.

(** [Kernel/Memory/MemoryManager.h:308-317] release_all_pages *)
Fixpoint release_all_pages (owned : list Z) (mm : memory_manager) : result memory_manager :=
  match owned with
  | [] => mret mm
  | page :: owned =>
      if page =? 0 then release_all_pages owned mm
      else mm ← mm_free_page mm {| page_address := page |}; release_all_pages owned mm
  end.

(** ** Physical ranges of a buffer *)

(** [Kernel/Memory/Utilities.cpp:20-43] the loop of accumulate_contiguous_physical_ranges *)
Fixpoint accumulate_loop (fuel : nat) (byte_length current_address max_bytes_per_range : Z) (current_range : range)
    (contiguous_ranges : list range) (sp : address_space) (m : memory) : result (list range * range) :=
  match fuel with
  | O => Fault OutOfFuel
  | S fuel =>
      if byte_length =? 0 then mret (contiguous_ranges, current_range)
      else
        let byte_length := byte_length - Z.min page_size byte_length in
        physical_address ← physical_address_of current_address sp m;
        _ ← ASSERT (negb (physical_address =? 0));
        '(contiguous_ranges, current_range) ←
          (if r_valid current_range then
             if r_end current_range =? physical_address
             then mret (contiguous_ranges, extend_by current_range page_size)
             else r ← range_make physical_address page_size; mret (contiguous_ranges ++ [current_range], r)
           else r ← range_make physical_address page_size; mret (contiguous_ranges, r));
        let '(contiguous_ranges, current_range) :=
          if r_length current_range =? max_bytes_per_range
          then (contiguous_ranges ++ [current_range], r_reset) else (contiguous_ranges, current_range) in
        accumulate_loop fuel byte_length (current_address +! page_size) max_bytes_per_range current_range
          contiguous_ranges sp m
  end.

(** [Kernel/Memory/Utilities.cpp:8-49] accumulate_contiguous_physical_ranges *)
Definition accumulate_contiguous_physical_ranges (virtual_address byte_length max_bytes_per_range : Z)
    (sp : address_space) (m : memory) : result (list range) :=
  _ ← ASSERT (max_bytes_per_range >=? page_size);
  _ ← ASSERT (is_aligned max_bytes_per_range);
  _ ← ASSERT (virtual_address >? physical_memory_base);
  '(contiguous_ranges, current_range) ←
    accumulate_loop (S (Z.to_nat (byte_length / page_size) + 1)) byte_length virtual_address
      max_bytes_per_range null_range [] sp m;
  mret (if r_valid current_range then contiguous_ranges ++ [current_range] else contiguous_ranges).
