(* ===== verification/VirtualRegionsCorrect.v ===== *)
(** The correctness of the region search, the page fault handler, preallocation and the
    collection of physical ranges (VirtualRegions.v) over the physical allocator and the
    address spaces. *)
From S2P Require Import Prelude Page Range Utilities OrderedSet BitArray PhysicalRegion PagingEntry PhysicalMemory AddressSpace PageWalk AddressSpaceCorrect AddressSpaceMaps AddressSpaceTheorems VirtualRegions.

(** ** The search *)

Section search.
Context {A T : Type} `{EqDecision A} {less : A -> A -> bool} `{OrderedSetLaws T A less os_rep} (extract_range : A -> range).

(** Non-empty ranges, in order and apart. *)
Definition ordered_ranges (l : list A) : Prop :=
  Forall (fun x => r_begin (extract_range x) < r_end (extract_range x)) l /\
  StronglySorted (fun x y => r_end (extract_range x) <= r_begin (extract_range y)) l.

Lemma ordered_ranges_app l1 l2 :
  ordered_ranges (l1 ++ l2) ->
  ordered_ranges l1 /\ ordered_ranges l2 /\
  forall x y, x ∈ l1 -> y ∈ l2 -> r_end (extract_range x) <= r_begin (extract_range y).
Proof.
  intros [Hn Hs]. apply Forall_app in Hn as [Hn1 Hn2].
  induction l1 as [|z l1 IH]; cbn in Hs.
  { split; [split; constructor|]. split; [done|]. intros x y Hx. by apply elem_of_nil in Hx. }
  inversion Hs as [|? ? Hs' Hf]; subst. apply Forall_app in Hf as [Hf1 Hf2].
  inversion Hn1; subst. destruct IH as ((? & ?) & ? & Hxy); [done..|].
  split; [split; constructor; done|]. split; [done|]. intros x y Hx Hy.
  apply elem_of_cons in Hx as [->|Hx]; [|by apply Hxy]. rewrite Forall_forall in Hf2. by apply Hf2.
Qed.

Lemma split_ranges l address :
  ordered_ranges l ->
  exists l1 l2, l = l1 ++ l2 /\ Forall (fun x => (r_begin (extract_range x) <? address) = true) l1 /\
    Forall (fun x => (r_begin (extract_range x) <? address) = false) l2.
Proof.
  induction l as [|x l IH]; intros Ho; [by exists [], []|].
  destruct (ordered_ranges_app [x] l Ho) as ([Hx _] & Hl & Hxl). rewrite Forall_singleton in Hx.
  destruct (Z.ltb_spec (r_begin (extract_range x)) address) as [Hlt|Hge].
  - destruct (IH Hl) as (l1 & l2 & -> & H1 & H2). exists (x :: l1), l2. split; [done|].
    split; [|done]. constructor; [by apply Z.ltb_lt|done].
  - exists [], (x :: l). split; [done|]. split; [constructor|]. constructor; [by apply Z.ltb_ge|].
    apply Forall_forall. intros y Hy. specialize (Hxl x y (list_elem_of_here _ _) Hy). apply Z.ltb_ge. lia.
Qed.

Lemma find_address_Ok tree l address :
  os_rep tree l -> ordered_ranges l ->
  exists r, find_address_in_range_tree extract_range tree address = Ok r /\
    match r with
    | Some x => x ∈ l /\ in_range (extract_range x) address
    | None => forall x, x ∈ l -> ~ in_range (extract_range x) address
    end.
Proof.
  intros Hr Ho. destruct (split_ranges l address Ho) as (l1 & l2 & -> & H1 & H2).
  destruct (ordered_ranges_app l1 l2 Ho) as ((Hn1 & Hs1) & (Hn2 & Hs2) & H12).
  rewrite Forall_forall in H1, H2, Hn1, Hn2. unfold find_address_in_range_tree.
  rewrite (os_lower_bound_rep tree l1 l2) by (done || by apply Forall_forall).
  rewrite (os_begin_rep tree (l1 ++ l2)) by done.
  assert (Habove : forall x, x ∈ l2 -> r_begin (extract_range x) <> address -> ~ in_range (extract_range x) address).
  { intros x Hx Hne Hin. specialize (H2 x Hx). unfold in_range in Hin. bool_to_prop. lia. }
  assert (Hhere : forall x r, l2 = x :: r -> r_begin (extract_range x) = address -> in_range (extract_range x) address).
  { intros x r -> E. specialize (Hn2 x (list_elem_of_here _ _)). unfold in_range. lia. }
  assert (Hrest : forall x r, l2 = x :: r -> r_begin (extract_range x) <> address ->
    forall y, y ∈ l2 -> ~ in_range (extract_range y) address).
  { intros x r -> Hne y Hy. apply elem_of_cons in Hy as [->|Hy]; [apply Habove; [left|done]|].
    apply Habove; [by right|]. inversion Hs2 as [|? ? _ Hf]; subst. rewrite Forall_forall in Hf. specialize (Hf y Hy).
    specialize (Hn2 x (list_elem_of_here _ _)). specialize (H2 x (list_elem_of_here _ _)). bool_to_prop. lia. }
  destruct (match head l2 with Some x => _ | None => _ end) eqn:Eelse.
  2:{ destruct l2 as [|x r]; [done|]. cbn in Eelse. bool_to_prop. exists (Some x). split; [done|].
      split; [rewrite elem_of_app; right; left|by apply (Hhere x r)]. }
  assert (Hno2 : forall y, y ∈ l2 -> ~ in_range (extract_range y) address).
  { destruct l2 as [|x r]; [intros y Hy; by apply elem_of_nil in Hy|]. cbn in Eelse. bool_to_prop. by apply (Hrest x r). }
  destruct (decide (l1 = [])) as [->|Hne1].
  { cbn [app]. rewrite bool_decide_true by done. exists None. split; [done|]. done. }
  destruct (exists_last Hne1) as (l1' & z & ->).
  rewrite bool_decide_false.
  2:{ intros E. destruct l2 as [|x r]; [by destruct l1'|]. cbn in E.
      assert (Hx : x ∈ l1' ++ [z]) by (destruct l1'; cbn in *; injection E as ->; left).
      specialize (H12 x x Hx (list_elem_of_here _ _)). specialize (Hn1 x Hx). lia. }
  assert (Hprev : os_prev tree (head l2) = Ok (Some z)).
  { destruct l2 as [|x r]; cbn.
    - apply (os_prev_end_rep tree l1' z). by rewrite app_nil_r in Hr.
    - rewrite (os_prev_rep tree (l1' ++ [z]) x r) by done. by rewrite last_snoc. }
  rewrite Hprev. run. cbn [deref]. run. eexists; split; [done|].
  assert (Hz : z ∈ l1' ++ [z]) by (rewrite elem_of_app; right; left).
  destruct (r_contains (extract_range z) address) eqn:Ec.
  - apply r_contains_spec in Ec. split; [rewrite elem_of_app; by left|done].
  - apply r_contains_false in Ec. intros y Hy. apply elem_of_app in Hy as [Hy|Hy]; [|by apply Hno2].
    apply elem_of_app in Hy as [Hy|Hy]; [|by apply list_elem_of_singleton in Hy as ->].
    destruct (ordered_ranges_app l1' [z]) as (_ & _ & Hyz); [split; [by apply Forall_forall|done]|].
    specialize (Hyz y z Hy (list_elem_of_here _ _)). specialize (H1 z Hz). bool_to_prop.
    unfold in_range. lia.
Qed.
End search.

(** ** The pages of a region *)

(** A region as [from_specification] makes it: page aligned. *)
Definition wf_region (r : vregion) : Prop :=
  wf_range (vr_range r) /\ r_begin (vr_range r) mod page_size = 0.

Lemma page_offset_eq r va : wf_range r -> in_range r va -> page_offset r va = (va - r_begin r) / page_size.
Proof.
  intros [? ?] [? ?]. unfold page_offset. by rewrite wrap64_small by (unfold is_u64; lia).
Qed.

Lemma page_at_store r owned page va va' :
  wf_range r -> in_range r va -> in_range r va' ->
  page_at r (store_page r owned page va) va' =
    if decide (page_offset r va' = page_offset r va) then page else page_at r owned va'.
Proof.
  intros Hr Hva Hva'. unfold page_at, store_page, expand_pages.
  assert (H0 : 0 <= page_offset r va) by (rewrite page_offset_eq by done; destruct Hva; unfold page_size; dlia).
  assert (H1 : 0 <= page_offset r va') by (rewrite page_offset_eq by done; destruct Hva'; unfold page_size; dlia).
  set (o := page_offset r va) in *. set (o' := page_offset r va') in *.
  rewrite length_insert, length_app, length_replicate.
  destruct (decide (o' = o)) as [->|Hne].
  - rewrite (proj2 (Z.leb_gt _ _)) by lia. rewrite list_lookup_insert_eq; [done|].
    rewrite length_app, length_replicate. lia.
  - rewrite list_lookup_insert_ne by lia.
    destruct (decide (o' < Z.of_nat (length owned))).
    + rewrite lookup_app_l by lia. by rewrite !(proj2 (Z.leb_gt _ o')) by lia.
    + rewrite (proj2 (Z.leb_le (Z.of_nat (length owned)) o')) by lia.
      destruct (Z.leb_spec (Z.of_nat (length owned + (S (Z.to_nat o) - length owned))) o'); [done|].
      rewrite lookup_app_r by lia. rewrite lookup_replicate_2 by lia. done.
Qed.

(** ** Backing an address with a fresh page *)

Section zeroed.
Context (sp : address_space) (k : kernel) (p : Z) (Hs : wf_space sp k) (Hp : page_free (regions k) p).
Let m1 := zero_memory (k_memory k) (physical_to_virtual p) page_size.

Lemma zeroed_translate va : translate_address m1 sp va = translate_address (k_memory k) sp va.
Proof using Hs Hp.
  unfold translate_address. pose proof (indices_valid va) as Hv.
  destruct (virtual_address_as_paging_indices va) as [[[i j] n] o].
  apply valid_quad in Hv as ([Hi Hj] & Hn & Ho).
  assert (H2 : valid_path [i; j]) by vpath. assert (H3 : valid_path [i; j; n]) by vpath.
  pose proof (wfs_tables _ _ Hs) as Ht. pose proof (wfm_regions _ (wfs_mm _ _ Hs)) as Hr.
  unfold translate, m1. rewrite (walk_zeroed _ _ _ p Ht Hr Hp) by (done || (simpl; lia)).
  destruct (walk (k_memory k) (top sp) [i; j]) as [t|] eqn:Et; [|done]. cbn [mbind option_bind].
  rewrite (entry_zeroed _ _ _ p Ht Hr Hp [i; j] t n) by (done || (simpl; lia)).
  destruct (is_present (entry_in (k_memory k) t n)) eqn:E1; [|done].
  destruct (is_huge (entry_in (k_memory k) t n)) eqn:E2; [done|]. cbn [negb].
  rewrite (entry_zeroed _ _ _ p Ht Hr Hp [i; j; n] _ o); try done.
  rewrite (walk_three _ _ i j n t Et). unfold step, table_of. by rewrite E1, E2.
Qed.

Lemma zeroed_path (P : entry -> Prop) va :
  let '(i, j, n, _) := virtual_address_as_paging_indices va in
  (forall q x y, q ++ [x] `prefix_of` [i; j; n] -> walk (k_memory k) (top sp) q = Some y ->
     is_present (entry_in (k_memory k) y x) = true -> P (entry_in (k_memory k) y x)) ->
  forall q x y, q ++ [x] `prefix_of` [i; j; n] -> walk m1 (top sp) q = Some y ->
    is_present (entry_in m1 y x) = true -> P (entry_in m1 y x).
Proof using Hs Hp.
  pose proof (indices_valid va) as Hv.
  destruct (virtual_address_as_paging_indices va) as [[[i j] n] o]. intros Hnh q x y Hq Hy.
  apply valid_quad in Hv as ([Hi Hj] & Hn & Ho). assert (H3 : valid_path [i; j; n]) by vpath.
  pose proof (wfs_tables _ _ Hs) as Ht. pose proof (wfm_regions _ (wfs_mm _ _ Hs)) as Hr.
  assert (Hv : valid_path (q ++ [x])).
  { destruct Hq as [r Er]. rewrite Er in H3. by apply Forall_app in H3 as [H3 _]. }
  pose proof (prefix_length _ _ Hq) as Hl. rewrite length_app in Hl. simpl in Hl.
  apply valid_snoc in Hv as [Hvq Hx].
  unfold m1 in *. rewrite (walk_zeroed _ _ _ p Ht Hr Hp) in Hy by (done || lia).
  rewrite (entry_zeroed _ _ _ p Ht Hr Hp q y x) by (done || lia). by apply (Hnh q).
Qed.

Lemma zeroed_no_huge va : no_huge_at (k_memory k) sp va -> no_huge_at m1 sp va.
Proof using Hs Hp.
  pose proof (zeroed_path (fun e => is_huge e = false) va) as H. unfold no_huge_at.
  destruct (virtual_address_as_paging_indices va) as [[[i j] n] o]. exact H.
Qed.

Lemma zeroed_allows is_supervisor va : allows_at is_supervisor (k_memory k) sp va -> allows_at is_supervisor m1 sp va.
Proof using Hs Hp.
  pose proof (zeroed_path (fun e => Z.land (attributes e) (page_attributes is_supervisor) = page_attributes is_supervisor) va) as H.
  unfold allows_at. destruct (virtual_address_as_paging_indices va) as [[[i j] n] o]. exact H.
Qed.
End zeroed.

(** A page was taken: the space stays as it was, and the page belongs to no table. *)
Lemma allocate_space sp k should_zero :
  wf_space sp k -> 0 < free_pages (regions k) ->
  exists page mm' m', let a := page_address page in
    mm_allocate_page (k_mm k) (k_memory k) should_zero = Ok (page, mm', m') /\
    wf_space sp (Kernel mm' m') /\ page_free (regions k) a /\
    took (regions k) (m_physical_regions mm') [a] /\
    (forall va, translate_address m' sp va = translate_address (k_memory k) sp va) /\
    (forall va, no_huge_at (k_memory k) sp va -> no_huge_at m' sp va) /\
    (forall u va, allows_at u (k_memory k) sp va -> allows_at u m' sp va) /\
    (forall q, valid_path q -> (length q <= 3)%nat -> walk m' (top sp) q <> Some a) /\
    (forall w, m' w = if should_zero && in_run (physical_to_virtual a) page_size w then 0 else k_memory k w).
Proof.
  intros Hs Hpos. pose proof (wfs_mm _ _ Hs) as Hmm. pose proof (wfm_regions _ Hmm) as Hr.
  pose proof (wfs_tables _ _ Hs) as Ht.
  destruct (mm_allocate_page_Ok (k_mm k) (k_memory k) should_zero Hmm Hpos)
    as (page & mm' & -> & Hmm' & Hfree & Hcnt & Hf & Ha). set (a := page_address page) in *.
  eexists _, _, _. cbv zeta. fold a. split; [done|].
  assert (T : took (regions k) (m_physical_regions mm') [a]).
  { split; [apply NoDup_singleton|intros x Hx; by apply list_elem_of_singleton in Hx as ->|..].
    - intros x. by rewrite Hf, list_elem_of_singleton.
    - intros x. by rewrite Ha, list_elem_of_singleton.
    - rewrite Hcnt. simpl. lia. }
  set (m' := if should_zero then zero_memory (k_memory k) (physical_to_virtual a) page_size else k_memory k).
  assert (Ht' : wf_tables m' (m_physical_regions mm') (top sp)).
  { assert (Ht1 : wf_tables m' (regions k) (top sp)).
    { unfold m'. destruct should_zero; [|done]. by apply wf_tables_zeroed. }
    destruct Ht1 as [W1 W2 W3]. split; try done. intros path t Hv Hl Hw.
    destruct (W2 path t Hv Hl Hw) as (? & ? & ?). split; [done|]. split; [done|]. rewrite Hf. tauto. }
  split; [|split; [done|split; [done|split; [|split; [|split; [|split]]]]]].
  - destruct Hs as [_ _ S3 S4 S5]. split; try done. intros q Hq. cbn [k_mm]. apply Ha. left. by apply S4.
  - intros va. unfold m'. destruct should_zero; [|done]. by apply (zeroed_translate sp k a).
  - intros va. unfold m'. destruct should_zero; [|done]. by apply (zeroed_no_huge sp k a).
  - intros u va. unfold m'. destruct should_zero; [|done]. by apply (zeroed_allows sp k a).
  - intros q Hq Hl Hw.
    assert (Hw0 : walk (k_memory k) (top sp) q = Some a).
    { unfold m' in Hw. destruct should_zero; [|done].
      by rewrite (walk_zeroed _ _ _ a Ht Hr Hfree) in Hw by (done || lia). }
    by apply (table_not_new _ _ _ a Ht Hfree q a Hq Hl Hw0).
  - intros w. unfold m'. by destruct should_zero.
Qed.

(** What backing the page [va] with a new page [a] does. *)
Record backed (va a : Z) (is_supervisor : IsSupervisor) (should_zero : bool)
    (sp : address_space) (k : kernel) (sp' : address_space) (k' : kernel) : Prop := {
  bk_space : wf_space sp' k';
  bk_main : m_main_page sp' = m_main_page sp;
  bk_fresh : page_free (regions k) a /\ ~ page_free (regions k') a;
  bk_here : translate_address (k_memory k') sp' va = Some (a, page_attributes is_supervisor);
  bk_there va' : page_of_memory va' -> va' <> va ->
    translate_address (k_memory k') sp' va' = translate_address (k_memory k) sp va';
  bk_no_huge va' : no_huge_at (k_memory k) sp va' -> no_huge_at (k_memory k') sp' va';
  bk_allows va' : allows_at is_supervisor (k_memory k) sp va' -> allows_at is_supervisor (k_memory k') sp' va';
  bk_shrinks x : page_free (regions k') x -> page_free (regions k) x;
  bk_allocated x : page_allocated (regions k) x -> page_allocated (regions k') x /\ x <> a;
  bk_contents w : in_run (physical_to_virtual a) page_size w = true ->
    k_memory k' w = if should_zero then 0 else k_memory k w;
  bk_free : free_pages (regions k) - 4 <= free_pages (regions k');
}.

Lemma back_page_Ok va is_supervisor should_zero sp k :
  wf_space sp k -> page_of_memory va -> no_huge_at (k_memory k) sp va ->
  let run := ('(page, mm, m) ← mm_allocate_page (k_mm k) (k_memory k) should_zero;
              '(sp, k) ← map_page va (page_address page) is_supervisor sp (Kernel mm m);
              mret (page_address page, sp, k)) in
  (exists a sp' k', run = Ok (a, sp', k') /\ backed va a is_supervisor should_zero sp k sp' k') \/
  (run = Fault KernelPanic /\ free_pages (regions k) < 4).
Proof.
  intros Hs Hva Hnh. cbv zeta. pose proof (wfm_regions _ (wfs_mm _ _ Hs)) as Hr.
  destruct (free_pages_nonneg _ Hr) as [Hnn _].
  destruct (decide (free_pages (regions k) = 0)) as [E0|E0].
  { right. split; [|lia]. unfold mm_allocate_page.
    destruct (allocate_from_regions_Ok _ Hr) as (r & l' & -> & Hl' & _ & H). run.
    destruct r as [page|]; [|done]. destruct H as [H _]. destruct (free_pages_nonneg _ Hl'). lia. }
  destruct (allocate_space sp k should_zero Hs ltac:(lia)) as (page & mm' & m' & -> & Hs1 & Hfree & T & Htr & Hn1 & Hal1 & Hnt & Hw). run.
  set (a := page_address page) in *. destruct (page_in_range _ _ a Hr Hfree) as [Ha1 Ha2].
  assert (Hma : mappable a) by (split; [lia|done]). pose proof (took_count _ _ _ T) as Hc. simpl in Hc.
  destruct (map_page_Ok va a is_supervisor sp (Kernel mm' m') Hs1 Hva Hma (Hn1 va Hnh))
    as [(sp2 & k2 & -> & M & N & A & F)|[-> F]]; run; cbn [k_mm k_memory] in *; [|right; split; [done|lia]].
  left. exists a, sp2, k2. split; [done|]. destruct (mp_pages _ _ _ _ _ _ M) as (new & _ & T2). cbn [k_mm] in T2.
  split.
  - apply M.
  - apply M.
  - split; [done|]. rewrite (took_free_now _ _ _ T2), (took_free_now _ _ _ T), list_elem_of_singleton. tauto.
  - by apply (mp_here _ _ _ _ _ _ M).
  - intros va' Hva' Hne. rewrite (mp_there _ _ _ _ _ _ M) by (done || congruence). apply Htr.
  - intros va' H. by apply N, Hn1.
  - intros va' H. by apply A, Hal1.
  - intros x. rewrite (took_free_now _ _ _ T2), (took_free_now _ _ _ T). tauto.
  - intros x Hx. split.
    + apply (took_allocated_now _ _ _ T2). left. apply (took_allocated_now _ _ _ T). by left.
    + intros ->. by apply (page_free_allocated (regions k) a Hr).
  - intros w Hin. rewrite (mp_frame _ _ _ _ _ _ M a w); [by rewrite Hw, Hin, andb_true_r|..]; [|done|done].
    split; [done|]. split; [done|]. cbn [k_mm]. rewrite (took_free_now _ _ _ T), list_elem_of_singleton. tauto.
  - lia.
Qed.

(** The private handler on a region's pages. *)
Lemma fault_in_private_Ok r owned va sp k :
  wf_space sp k -> wf_region r -> in_range (vr_range r) va -> page_of_memory va ->
  no_huge_at (k_memory k) sp va -> vr_released r = false ->
  vr_is r VR_STACK && (va =? r_begin (vr_range r)) = false ->
  (page_at (vr_range r) owned va <> 0 -> fault_in_private r owned va sp k = Ok (owned, sp, k)) /\
  (page_at (vr_range r) owned va = 0 ->
   (exists a sp' k', fault_in_private r owned va sp k = Ok (store_page (vr_range r) owned a va, sp', k') /\
      backed va a (vr_is_supervisor r) true sp k sp' k') \/
   (fault_in_private r owned va sp k = Fault KernelPanic /\ free_pages (regions k) < 4)).
Proof.
  intros Hs Hr Hin Hva Hnh Hrel Hg. unfold fault_in_private. rewrite Hrel, Hg. run. split.
  - intros Hp. by rewrite (proj2 (Z.eqb_neq _ _) Hp).
  - intros Hp. rewrite Hp. cbn [Z.eqb negb].
    pose proof (back_page_Ok va (vr_is_supervisor r) true sp k Hs Hva Hnh) as H. cbv zeta in H.
    destruct (mm_allocate_page (k_mm k) (k_memory k) true) as [[[page mm] m]|f];
      cbn [mbind result_bind] in H |- *; [|right; destruct H as [(? & ? & ? & [=] & _)|[[= ->] ?]]; done].
    destruct (map_page va (page_address page) (vr_is_supervisor r) sp (Kernel mm m)) as [[sp' k']|f];
      cbn [mbind result_bind mret result_ret] in H |- *.
    + destruct H as [(a & sp2 & k2 & [= <- <- <-] & B)|[[=] _]]. left. eauto.
    + right. destruct H as [(? & ? & ? & [=] & _)|[[= ->] ?]]. done.
Qed.

(** The shared handler on its block's pages. *)
Lemma fault_in_shared_Ok r owned va sp k :
  wf_space sp k -> wf_region r -> in_range (vr_range r) va -> page_of_memory va ->
  no_huge_at (k_memory k) sp va -> vr_released r = false ->
  (page_at (vr_range r) owned va <> 0 -> mappable (page_at (vr_range r) owned va)) ->
  let p := page_at (vr_range r) owned va in
  (p <> 0 ->
   (exists sp' k', fault_in_shared r owned va sp k = Ok (owned, sp', k') /\
      mapped (fun _ => Some (p, page_attributes (vr_is_supervisor r))) (eq va) sp k sp' k') \/
   (fault_in_shared r owned va sp k = Fault KernelPanic /\ free_pages (regions k) < 3)) /\
  (p = 0 ->
   (exists a sp' k', fault_in_shared r owned va sp k = Ok (store_page (vr_range r) owned a va, sp', k') /\
      backed va a (vr_is_supervisor r) true sp k sp' k') \/
   (fault_in_shared r owned va sp k = Fault KernelPanic /\ free_pages (regions k) < 4)).
Proof.
  intros Hs Hr Hin Hva Hnh Hrel Hmap. cbv zeta. unfold fault_in_shared. rewrite Hrel. run. split.
  - intros Hp. rewrite (proj2 (Z.eqb_neq _ _) Hp). cbn [negb].
    destruct (map_page_Ok va _ (vr_is_supervisor r) sp k Hs Hva (Hmap Hp) Hnh)
      as [(sp' & k' & -> & M & _ & _ & _)|[-> F]]; run; [left|right]; eauto.
  - intros Hp. rewrite Hp. cbn [Z.eqb negb].
    pose proof (back_page_Ok va (vr_is_supervisor r) true sp k Hs Hva Hnh) as H. cbv zeta in H.
    destruct (mm_allocate_page (k_mm k) (k_memory k) true) as [[[page mm] m]|f];
      cbn [mbind result_bind] in H |- *; [|right; destruct H as [(? & ? & ? & [=] & _)|[[= ->] ?]]; done].
    destruct (map_page va (page_address page) (vr_is_supervisor r) sp (Kernel mm m)) as [[sp' k']|f];
      cbn [mbind result_bind mret result_ret] in H |- *.
    + destruct H as [(a & sp2 & k2 & [= <- <- <-] & B)|[[=] _]]. left. eauto.
    + right. destruct H as [(? & ? & ? & [=] & _)|[[= ->] ?]]. done.
Qed.

(** ** Page faults *)

Section faults.
Context {T : Type} {less : range * Z -> range * Z -> bool} `{OrderedSetLaws T (range * Z) less os_rep}.

(** The trees hold the ranges and identities of regions, in order and apart; the current
    space is well formed; page 0 is never handed out. *)
Record wf_vm (s : vm T) (lk lp : list (range * Z)) : Prop := {
  wv_tree : os_rep (vm_tree s) lk;
  wv_process_tree : os_rep (vm_process_tree s) lp;
  wv_ordered : ordered_ranges fst lk /\ ordered_ranges fst lp;
  wv_regions rng id : (rng, id) ∈ lk ++ lp -> exists r,
    0 <= id /\ vm_regions s !! Z.to_nat id = Some r /\ vr_range r = rng /\ wf_region r;
  wv_space : wf_space (vm_space s) (vm_kernel s);
  wv_page_zero : ~ page_free (regions (vm_kernel s)) 0;
}.

(** The regions the handler looks at for an address. *)
Definition visible (lk lp : list (range * Z)) (address : Z) (is_supervisor : IsSupervisor) : list (range * Z) :=
  if address >=? physical_memory_base then if decide (is_supervisor = YES) then lk else []
  else if decide (address < userspace_usable_ceiling \/ is_supervisor = YES) then lp else [].

Lemma ordered_unique (l : list (range * Z)) x y a :
  ordered_ranges fst l -> x ∈ l -> y ∈ l -> in_range (fst x) a -> in_range (fst y) a -> x = y.
Proof.
  intros [_ Hs]. induction Hs as [|z l Hs IH Hf]; [by intros Hx; apply elem_of_nil in Hx|].
  rewrite Forall_forall in Hf. unfold in_range. rewrite !elem_of_cons. intros [->|Hx] [->|Hy] Hxa Hya.
  - done.
  - specialize (Hf y Hy). lia.
  - specialize (Hf x Hx). lia.
  - by apply IH.
Qed.

Lemma region_search s lk lp address is_supervisor :
  wf_vm s lk lp -> is_u64 address ->
  let l := visible lk lp address is_supervisor in
  exists r, (if (address <? userspace_usable_ceiling) || bool_decide (is_supervisor = YES)
             then virtual_region_responsible_for_address s address else mret None) = Ok r /\
    match r with
    | Some id => exists rng, (rng, id) ∈ l /\ in_range rng (round_down address)
    | None => forall x, x ∈ l -> ~ in_range (fst x) (round_down address)
    end.
Proof.
  intros Hwf Hu l. unfold l, visible, virtual_region_responsible_for_address.
  assert (Hfind : forall tree l, os_rep tree l -> ordered_ranges fst l ->
    exists r, (region ← find_address_in_range_tree (@fst range Z) tree (round_down address); mret (option_map snd region)) = Ok r /\
    match r with
    | Some id => exists rng, (rng, id) ∈ l /\ in_range rng (round_down address)
    | None => forall x, x ∈ l -> ~ in_range (fst x) (round_down address)
    end).
  { intros tree l' Ht Ho. destruct (find_address_Ok fst tree l' (round_down address) Ht Ho) as (r & -> & Hr). run.
    eexists; split; [done|]. destruct r as [[rng id]|]; [|done]. exists rng. exact Hr. }
  destruct (wv_ordered _ _ _ Hwf) as [Hok Hop].
  destruct (address >=? physical_memory_base) eqn:Ek.
  - replace (address <? userspace_usable_ceiling) with false
      by (bool_to_prop; unfold physical_memory_base, userspace_usable_ceiling in *; lia).
    cbn [orb]. destruct (decide (is_supervisor = YES)) as [Hy|Hn].
    + rewrite bool_decide_true by done. apply Hfind; [apply Hwf|done].
    + rewrite bool_decide_false by done. eexists; split; [done|]. intros x Hx. by apply elem_of_nil in Hx.
  - destruct (Z.ltb_spec address userspace_usable_ceiling) as [Hlt|Hge]; cbn [orb].
    + rewrite decide_True by by left. apply Hfind; [apply Hwf|done].
    + case_bool_decide.
      * rewrite decide_True by by right. apply Hfind; [apply Hwf|done].
      * rewrite decide_False by lia || (intros [?|?]; [lia|done]).
        eexists; split; [done|]. intros x Hx. by apply elem_of_nil in Hx.
Qed.

Lemma visible_sub lk lp address is_supervisor x :
  x ∈ visible lk lp address is_supervisor -> x ∈ lk ++ lp.
Proof.
  unfold visible. rewrite elem_of_app. repeat case_match; try tauto; intros Hx; by apply elem_of_nil in Hx.
Qed.

Lemma visible_ordered s lk lp address is_supervisor :
  wf_vm s lk lp -> ordered_ranges fst (visible lk lp address is_supervisor).
Proof.
  intros Hwf. destruct (wv_ordered _ _ _ Hwf). unfold visible.
  repeat case_match; try done; split; constructor.
Qed.

(** The search finds the region a visible address lies in. *)
Lemma region_found s lk lp address is_supervisor rng id :
  wf_vm s lk lp -> is_u64 address -> (rng, id) ∈ visible lk lp address is_supervisor ->
  in_range rng (round_down address) ->
  (if (address <? userspace_usable_ceiling) || bool_decide (is_supervisor = YES)
   then virtual_region_responsible_for_address s address else mret None) = Ok (Some id).
Proof.
  intros Hwf Hu Hin Hr. destruct (region_search s lk lp address is_supervisor Hwf Hu) as (r & -> & H').
  destruct r as [id'|]; [|by destruct (H' _ Hin)]. destruct H' as (rng' & Hin' & Hr').
  pose proof (ordered_unique _ (rng, id) (rng', id') (round_down address)
    (visible_ordered s lk lp address is_supervisor Hwf) Hin Hin' Hr Hr') as E. by injection E as _ <-.
Qed.

(** Changing the pages of one region or block, the space and the kernel. *)
Lemma wf_vm_update s lk lp regions' blocks' sp' k' :
  wf_vm s lk lp -> wf_space sp' k' -> ~ page_free (regions k') 0 ->
  (forall i r, vm_regions s !! i = Some r -> exists r', regions' !! i = Some r' /\ vr_range r' = vr_range r) ->
  wf_vm (VM regions' blocks' (vm_tree s) (vm_process_tree s) sp' k') lk lp.
Proof.
  intros Hwf Hs Hz Hreg. split; cbn [vm_tree vm_process_tree vm_regions vm_space vm_kernel]; try apply Hwf; try done.
  intros rng id Hin. destruct (wv_regions _ _ _ Hwf rng id Hin) as (r & Hid & Hr & E & Hw).
  destruct (Hreg _ _ Hr) as (r' & Hr' & E'). exists r'. unfold wf_region in *. rewrite E', E in *. done.
Qed.

Lemma round_down_page address : canonical address -> page_of_memory (round_down address).
Proof.
  intros Hc. rewrite round_down_eq by (unfold is_u64; destruct Hc; lia).
  unfold page_of_memory, canonical, page_size in *. split; [destruct Hc; [left|right]; dlia|dlia].
Qed.

(** C17: the page fault handler, for a fault at any canonical address.  Outside every
    region it may look at (a user fault never looks at kernel regions) the handler
    abandons a safe memory operation, else kills the process of a user fault and panics
    on a kernel fault.  In a private region that has not been released, and with no huge page
    in the way, it panics on the guard page of a stack and changes nothing when the page is already
    there; otherwise it takes a free page, zero-fills it, maps it at the faulting page, the
    last-level entry having the region's rights and the tables it adds giving them on
    every level, records it in the region, and changes no other translation, no other page
    of the region and no other memory that is in use.  It panics there only if fewer than four
    pages were free. *)
Theorem page_fault_private_correct (s : vm T) (lk lp : list (range * Z)) (address : Z) (is_supervisor : IsSupervisor) (safe : bool) :
  wf_vm s lk lp -> canonical address ->
  let va := round_down address in
  let l := visible lk lp address is_supervisor in
  ((forall x, x ∈ l -> ~ in_range (fst x) va) ->
   handle_page_fault s address is_supervisor safe =
     if safe then Ok AbandonSafeOperation
     else if decide (is_supervisor = NO) then Ok CrashProcess else Fault KernelPanic) /\
  (forall rng id r owned, (rng, id) ∈ l -> in_range rng va ->
   vm_regions s !! Z.to_nat id = Some r -> vr_body r = Private owned -> vr_released r = false ->
   no_huge_at (k_memory (vm_kernel s)) (vm_space s) va ->
   if vr_is r VR_STACK && (va =? r_begin rng)
   then handle_page_fault s address is_supervisor safe = Fault KernelPanic
   else if page_at rng owned va =? 0
   then
     (exists a s', handle_page_fault s address is_supervisor safe = Ok (Resume s') /\ wf_vm s' lk lp /\
        backed va a (vr_is_supervisor r) true (vm_space s) (vm_kernel s) (vm_space s') (vm_kernel s') /\
        exists owned', vm_regions s' = <[Z.to_nat id := VRegion rng (vr_properties r) false (Private owned')]> (vm_regions s) /\
          forall va', in_range rng va' ->
            page_at rng owned' va' = if decide (page_offset rng va' = page_offset rng va) then a else page_at rng owned va') \/
     (handle_page_fault s address is_supervisor safe = Fault KernelPanic /\
      free_pages (regions (vm_kernel s)) < 4)
   else handle_page_fault s address is_supervisor safe = Ok (Resume s)).
Proof.
  intros Hwf Hc va l. assert (Hu : is_u64 address) by (unfold is_u64; destruct Hc; lia).
  pose proof (round_down_page address Hc) as Hva. fold va in Hva. split.
  - intros Hno. unfold handle_page_fault.
    destruct (region_search s lk lp address is_supervisor Hwf Hu) as (r & -> & Hr). run.
    destruct r as [id|]; [destruct Hr as (rng & Hin & Hr); by destruct (Hno _ Hin)|].
    destruct safe; [done|]. by repeat (case_bool_decide || case_decide).
  - intros rng id r owned Hin Hrng Hid Hb Hrel Hnh. unfold handle_page_fault.
    rewrite (region_found s lk lp address is_supervisor rng id Hwf Hu Hin Hrng). run. fold va.
    destruct (wv_regions _ _ _ Hwf rng id (visible_sub _ _ _ _ _ Hin)) as (r' & Hid0 & Hid' & <- & Hwr).
    rewrite Hid in Hid'. injection Hid' as <-. unfold fault_in_region.
    rewrite (proj2 (read_at_Ok _ _ r)) by done. run. rewrite Hb.
    destruct (vr_is r VR_STACK && (va =? r_begin (vr_range r))) eqn:Eg.
    { unfold fault_in_private. by rewrite Hrel, Eg. }
    destruct (fault_in_private_Ok r owned va _ _ (wv_space _ _ _ Hwf) Hwr Hrng Hva Hnh Hrel Eg) as [Hold Hnew].
    assert (Hlt : 0 <= id < Z.of_nat (length (vm_regions s))) by (apply lookup_lt_Some in Hid; lia).
    destruct (Z.eqb_spec (page_at (vr_range r) owned va) 0) as [Ep|Ep].
    + destruct (Hnew Ep) as [(a & sp' & k' & -> & B)|[-> F]]; run; [left|right; done].
      erewrite (proj2 (write_at_Ok _ _ _ _)) by done. run. rewrite Hrel.
      eexists a, _. split; [done|]. split; [|split; [exact B|]].
      * apply (wf_vm_update s lk lp); [done|apply B| |].
        -- intros Hz. by apply (wv_page_zero _ _ _ Hwf), (bk_shrinks _ _ _ _ _ _ _ _ B).
        -- intros i x Hx. destruct (decide (i = Z.to_nat id)) as [->|Hne].
           ++ rewrite list_lookup_insert_eq by by apply lookup_lt_Some in Hid. rewrite Hid in Hx.
              injection Hx as <-. by eexists.
           ++ rewrite list_lookup_insert_ne by done. by eexists.
      * eexists. split; [done|]. intros va' Hva'. apply page_at_store; try done. apply Hwr.
    + rewrite (Hold Ep). run. rewrite <- Hb.
      erewrite (proj2 (write_at_Ok _ _ _ _)) by done. run.
      replace (VRegion _ _ _ _) with r by by destruct r. rewrite list_insert_id by done. by destruct s.
Qed.

(** A fault in a shared region ends with the faulting page mapped to the page its
    shared block has at that offset: a page the block already has is never replaced, so
    every region that shares the block sees the same memory, and only when it has none is
    a fresh zero-filled page taken and recorded in the block.  No other translation and
    no other page of the block changes; the handler panics when fewer than four pages
    were free. *)
Theorem page_fault_shared_correct (s : vm T) (lk lp : list (range * Z)) (address : Z)
    (is_supervisor : IsSupervisor) (safe : bool) (rng : range) (id b : Z) (r : vregion) (block : shared_block) :
  let va := round_down address in
  let p := page_at rng (sb_pages block) va in
  wf_vm s lk lp -> canonical address ->
  (rng, id) ∈ visible lk lp address is_supervisor -> in_range rng va ->
  vm_regions s !! Z.to_nat id = Some r -> vr_body r = Shared b -> vr_released r = false ->
  0 <= b -> vm_blocks s !! Z.to_nat b = Some block -> (p <> 0 -> mappable p) ->
  no_huge_at (k_memory (vm_kernel s)) (vm_space s) va ->
  (exists a s' pages', handle_page_fault s address is_supervisor safe = Ok (Resume s') /\ wf_vm s' lk lp /\
     translate_address (k_memory (vm_kernel s')) (vm_space s') va = Some (a, page_attributes (vr_is_supervisor r)) /\
     (forall va', page_of_memory va' -> va' <> va ->
        translate_address (k_memory (vm_kernel s')) (vm_space s') va' =
        translate_address (k_memory (vm_kernel s)) (vm_space s) va') /\
     vm_blocks s' = <[Z.to_nat b := SharedBlock pages' (sb_ref_count block)]> (vm_blocks s) /\
     (p <> 0 -> a = p /\ pages' = sb_pages block) /\
     (p = 0 -> backed va a (vr_is_supervisor r) true (vm_space s) (vm_kernel s) (vm_space s') (vm_kernel s')) /\
     forall va', in_range rng va' ->
       page_at rng pages' va' = if decide (page_offset rng va' = page_offset rng va) then a
                                else page_at rng (sb_pages block) va') \/
  (handle_page_fault s address is_supervisor safe = Fault KernelPanic /\
   free_pages (regions (vm_kernel s)) < 4).
Proof.
  intros va p Hwf Hc Hin Hrng Hid Hb Hrel Hb0 Hblk Hmap Hnh.
  assert (Hu : is_u64 address) by (unfold is_u64; destruct Hc; lia).
  pose proof (round_down_page address Hc) as Hva. fold va in Hva.
  unfold handle_page_fault. rewrite (region_found s lk lp address is_supervisor rng id Hwf Hu Hin Hrng). run. fold va.
  destruct (wv_regions _ _ _ Hwf rng id (visible_sub _ _ _ _ _ Hin)) as (r' & Hid0 & Hid' & <- & Hwr).
  rewrite Hid in Hid'. injection Hid' as <-. unfold fault_in_region.
  rewrite (proj2 (read_at_Ok _ _ r)) by done. run. rewrite Hb.
  rewrite (proj2 (read_at_Ok _ _ block)) by done. run.
  assert (Hlt : 0 <= b < Z.of_nat (length (vm_blocks s))) by (apply lookup_lt_Some in Hblk; lia).
  destruct (fault_in_shared_Ok r (sb_pages block) va _ _ (wv_space _ _ _ Hwf) Hwr Hrng Hva Hnh Hrel Hmap)
    as [Hold Hnew].
  assert (Hsame : forall i x, vm_regions s !! i = Some x -> exists x', vm_regions s !! i = Some x' /\ vr_range x' = vr_range x)
    by eauto.
  destruct (decide (p = 0)) as [Ep|Ep].
  - destruct (Hnew Ep) as [(a & sp' & k' & -> & B)|[-> F]]; run; [left|right; done].
    erewrite (proj2 (write_at_Ok _ _ _ _)) by done. run. eexists a, _, _. split; [done|].
    split; [|split; [exact (bk_here _ _ _ _ _ _ _ _ B)|split; [exact (bk_there _ _ _ _ _ _ _ _ B)|
      split; [done|split; [done|split; [intros _; exact B|]]]]]].
    + apply (wf_vm_update s lk lp); [done|apply B| |done].
      intros Hz. by apply (wv_page_zero _ _ _ Hwf), (bk_shrinks _ _ _ _ _ _ _ _ B).
    + intros va' Hva'. apply page_at_store; try done. apply Hwr.
  - destruct (Hold Ep) as [(sp' & k' & -> & M)|[-> F]]; run; [left|right; split; [done|lia]].
    erewrite (proj2 (write_at_Ok _ _ _ _)) by done. run. eexists p, _, _. split; [done|].
    split; [|split; [by apply (mp_here _ _ _ _ _ _ M)|split;
      [intros va' Hva' Hne; apply (mp_there _ _ _ _ _ _ M); [done|congruence]|
      split; [done|split; [done|split; [done|]]]]]].
    + apply (wf_vm_update s lk lp); [done|apply M| |done].
      destruct (mp_pages _ _ _ _ _ _ M) as (new & _ & T2). rewrite (took_free_now _ _ _ T2).
      intros [Hz _]. by apply (wv_page_zero _ _ _ Hwf).
    + intros va' Hva'. case_decide as E; [|done]. unfold p, page_at. by rewrite E.
Qed.

End faults.

(** ** Examples *)

(** One private region of four pages and one shared region of two, at user addresses, in
    the example address space; the trees are ordered lists. *)
Definition example_private : vregion :=
  VRegion (Range 0x400000 0x404000) (make_properties NO PRIVATE NONE) false (Private []).
Definition example_shared : vregion :=
  VRegion (Range 0x500000 0x502000) (make_properties NO SHARED NONE) false (Shared 0).

Definition id_lt (x y : range * Z) : bool := r_lt (fst x) (fst y).

#[export] Instance id_lt_order : StrictOrder id_lt.
Proof.
  split; unfold id_lt, r_lt.
  - intros x. apply Z.ltb_irrefl.
  - intros x y z. rewrite !Z.ltb_lt. lia.
Qed.

#[local] Instance example_set : OrderedSet (list (range * Z)) (range * Z) := sorted_list_set id_lt.
#[local] Instance example_laws : OrderedSetLaws (list (range * Z)) (range * Z) id_lt (sorted_list_rep id_lt) :=
  sorted_list_laws id_lt.

Definition example_vm (mm : memory_manager) : vm (list (range * Z)) :=
  VM [example_private; example_shared] [SharedBlock [] 1] []
    [(Range 0x400000 0x404000, 0); (Range 0x500000 0x502000, 1)] example_space (Kernel mm (fun _ => 0)).

Lemma example_vm_wf mm :
  example_regions = Ok mm ->
  wf_vm (os_rep := sorted_list_rep id_lt) (example_vm mm) []
    [(Range 0x400000 0x404000, 0); (Range 0x500000 0x502000, 1)].
Proof.
  intros E. split; cbn [vm_tree vm_process_tree vm_regions vm_space vm_kernel example_vm].
  - split; [done|constructor].
  - split; [done|]. repeat constructor.
  - split; split; repeat constructor; unfold r_end, r_begin, fst; simpl; lia.
  - intros rng id Hin. cbn [app] in Hin.
    apply elem_of_cons in Hin as [[= -> ->]|Hin]; [exists example_private|].
    + split_and!; try done; simpl; lia.
    + apply list_elem_of_singleton in Hin as [= -> ->]. exists example_shared. split_and!; try done; simpl; lia.
  - by apply example_space_wf.
  - vm_compute in E. injection E as <-. intros (p & Hp & [Hin _] & _). cbn in Hp. unfold in_range in Hin.
    repeat (apply elem_of_cons in Hp as [->|Hp]; [cbn in Hin; lia|]). by apply elem_of_nil in Hp.
Qed.

Lemma page_fault_private_correct_witness :
  exists mm a s', example_regions = Ok mm /\
    handle_page_fault (example_vm mm) 0x401234 NO false = Ok (Resume s') /\
    translate_address (k_memory (vm_kernel s')) (vm_space s') 0x401000 = Some (a, 7) /\
    handle_page_fault (example_vm mm) 0x600000 NO false = Ok CrashProcess.
Proof.
  destruct example_regions as [mm|] eqn:E; [|vm_compute in E; discriminate E].
  pose proof (example_vm_wf mm E) as Hwf. exists mm.
  assert (Hc : canonical 0x401234) by (left; lia). assert (Hc2 : canonical 0x600000) by (left; lia).
  destruct (page_fault_private_correct (less := id_lt) _ _ _ 0x401234 NO false Hwf Hc) as [_ H].
  destruct (page_fault_private_correct (less := id_lt) _ _ _ 0x600000 NO false Hwf Hc2) as [H2 _].
  specialize (H (Range 0x400000 0x404000) 0 example_private []).
  destruct H as [(a & s' & E' & _ & B & _)|[_ F]].
  - left.
  - change (round_down 0x401234) with 0x401000. unfold in_range. simpl. lia.
  - reflexivity.
  - reflexivity.
  - reflexivity.
  - apply zero_no_huge.
  - exists a, s'. split; [reflexivity|]. split; [exact E'|]. split; [exact (bk_here _ _ _ _ _ _ _ _ B)|].
    apply H2. intros x Hx. change (round_down 0x600000) with 0x600000. change (visible _ _ _ _) with [(Range 0x400000 0x404000, 0); (Range 0x500000 0x502000, 1)] in Hx.
    apply elem_of_cons in Hx as [->|Hx]; [unfold in_range; simpl; lia|].
    apply list_elem_of_singleton in Hx as ->. unfold in_range. simpl. lia.
  - exfalso. vm_compute in E. injection E as <-. vm_compute in F. discriminate F.
Defined.

Lemma page_fault_shared_correct_witness :
  exists mm a s', example_regions = Ok mm /\
    handle_page_fault (example_vm mm) 0x500008 NO false = Ok (Resume s') /\
    translate_address (k_memory (vm_kernel s')) (vm_space s') 0x500000 = Some (a, 7) /\
    vm_blocks s' = [SharedBlock [a] 1].
Proof.
  destruct example_regions as [mm|] eqn:E; [|vm_compute in E; discriminate E].
  pose proof (example_vm_wf mm E) as Hwf. exists mm.
  assert (Hc : canonical 0x500008) by (left; lia).
  destruct (page_fault_shared_correct (less := id_lt) _ _ _ 0x500008 NO false (Range 0x500000 0x502000) 1 0
    example_shared (SharedBlock [] 1) Hwf Hc) as [(a & s' & pages' & E' & _ & Ht & _)|[_ F]].
  - right. left.
  - change (round_down 0x500008) with 0x500000. unfold in_range. simpl. lia.
  - reflexivity.
  - reflexivity.
  - reflexivity.
  - lia.
  - reflexivity.
  - intros Hp. exfalso. apply Hp. reflexivity.
  - apply zero_no_huge.
  - exists a, s'. split; [reflexivity|]. split; [exact E'|]. split; [exact Ht|].
    assert (Ha : a = 0x100000).
    { vm_compute in E. injection E as <-.
      apply (f_equal (fun r => match r with
        | Ok (Resume s) => translate_address (k_memory (vm_kernel s)) (vm_space s) 0x500000 | _ => None end)) in E'.
      change (round_down 0x500008) with 0x500000 in Ht. rewrite Ht in E'. vm_compute in E'. congruence. }
    rewrite Ha. vm_compute in E. injection E as <-.
    apply (f_equal (fun r => match r with Ok (Resume s) => vm_blocks s | _ => [] end)) in E'.
    vm_compute in E'. symmetry. exact E'.
  - exfalso. vm_compute in E. injection E as <-. vm_compute in F. discriminate F.
Defined.

(** ** Preallocation *)

(** Every page the region has is mapped where it belongs, with the region's rights. *)
Definition region_backed (r : vregion) (owned : list Z) (sp : address_space) (k : kernel) : Prop :=
  forall va, page_of_memory va -> in_range (vr_range r) va -> page_at (vr_range r) owned va <> 0 ->
    translate_address (k_memory k) sp va =
      Some (page_at (vr_range r) owned va, page_attributes (vr_is_supervisor r)).

Lemma page_offset_inj r va va' :
  wf_range r -> r_begin r mod page_size = 0 -> in_range r va -> in_range r va' ->
  va mod page_size = 0 -> va' mod page_size = 0 -> page_offset r va = page_offset r va' -> va = va'.
Proof.
  intros Hr Hb Hva Hva' Ha Ha'. rewrite !page_offset_eq by done. unfold page_size in *. intros E. dlia.
Qed.

Lemma backed_region r owned va a zeroed sp k sp' k' :
  wf_region r -> page_of_memory va -> in_range (vr_range r) va ->
  region_backed r owned sp k -> backed va a (vr_is_supervisor r) zeroed sp k sp' k' ->
  region_backed r (store_page (vr_range r) owned a va) sp' k'.
Proof.
  intros [Hr Hb] Hva Hin HR B va' Hva' Hin'. rewrite page_at_store by done.
  case_decide as E.
  - intros _. replace va' with va; [apply (bk_here _ _ _ _ _ _ _ _ B)|].
    apply (page_offset_inj (vr_range r)); try done; [apply Hva|apply Hva'].
  - intros Hp. rewrite (bk_there _ _ _ _ _ _ _ _ B va' Hva'); [by apply HR|]. congruence.
Qed.

Lemma preallocate_loop_Ok count i r start should_zero owned sp k :
  wf_space sp k -> wf_region r -> 0 <= i -> 0 <= start -> run_of_pages start (i + Z.of_nat count) ->
  (forall x, 0 <= x < i + Z.of_nat count -> in_range (vr_range r) (start + x * page_size) /\
     no_huge_at (k_memory k) sp (start + x * page_size)) ->
  region_backed r owned sp k -> ~ page_free (regions k) 0 ->
  (exists owned' sp' k', preallocate_loop count i r start should_zero owned sp k = Ok (owned', sp', k') /\
     wf_space sp' k' /\ region_backed r owned' sp' k' /\
     (forall va, in_range (vr_range r) va -> page_at (vr_range r) owned va <> 0 ->
        page_at (vr_range r) owned' va = page_at (vr_range r) owned va) /\
     (forall x, i <= x < i + Z.of_nat count -> page_at (vr_range r) owned' (start + x * page_size) <> 0)) \/
  (preallocate_loop count i r start should_zero owned sp k = Fault KernelPanic /\
   free_pages (regions k) < 4 * Z.of_nat count).
Proof.
  revert i owned sp k. induction count as [|count IH]; intros i owned sp k Hs Hr Hi Hst Hv Hx HR Hz.
  { left. eexists _, _, _. split; [done|]. split_and!; try done. intros x. lia. }
  cbn [preallocate_loop]. pose proof (run_page _ _ i Hv ltac:(lia)) as Hpg.
  destruct (Hx i ltac:(lia)) as [Hin Hnh].
  assert (Hb : start + (i + 1) * page_size < W64 /\ 0 <= i * page_size).
  { destruct Hv as (? & ? & ?). unfold page_size in *. lia. }
  unfold page_size in Hb. rewrite (wrap64_small (i * page_size)) by (unfold is_u64, page_size; lia).
  rewrite (wrap64_small (start + _)) by (unfold is_u64, page_size; lia).
  assert (Hsz : i + 1 + Z.of_nat count = i + Z.of_nat (S count)) by lia.
  destruct (Z.eqb_spec (page_at (vr_range r) owned (start + i * page_size)) 0) as [Ep|Ep]; cbn [negb].
  - pose proof (back_page_Ok (start + i * page_size) (vr_is_supervisor r) should_zero sp k Hs Hpg Hnh) as H. cbv zeta in H.
    destruct (mm_allocate_page (k_mm k) (k_memory k) should_zero) as [[[page mm] m]|f];
      cbn [mbind result_bind] in H |- *; [|right; destruct H as [(? & ? & ? & [=] & _)|[[= ->] ?]]; split; [done|lia]].
    destruct (map_page (start + i * page_size) (page_address page) (vr_is_supervisor r) sp (Kernel mm m)) as [[sp1 k1]|f];
      cbn [mbind result_bind mret result_ret] in H |- *;
      [|right; destruct H as [(? & ? & ? & [=] & _)|[[= ->] ?]]; split; [done|lia]].
    destruct H as [(a & sp2 & k2 & [= <- <- <-] & B)|[[=] _]].
    set (va := start + i * page_size) in *. set (a := page_address page) in *.
    pose proof (bk_free _ _ _ _ _ _ _ _ B) as HF.
    destruct (IH (i + 1) (store_page (vr_range r) owned a va) sp1 k1) as [(o' & sp' & k' & -> & Hs' & HR' & Hk & Hn)|[-> F]].
    + apply B.
    + done.
    + lia.
    + done.
    + by rewrite Hsz.
    + rewrite Hsz. intros x Hxx. destruct (Hx x Hxx). split; [done|]. by apply (bk_no_huge _ _ _ _ _ _ _ _ B).
    + by apply (backed_region r owned va a should_zero sp k).
    + intros H0. by apply Hz, (bk_shrinks _ _ _ _ _ _ _ _ B).
    + left. exists o', sp', k'. split; [done|]. split; [done|]. split; [done|].
      assert (Ha : a <> 0).
      { intros E. destruct (bk_fresh _ _ _ _ _ _ _ _ B) as [Hf _]. apply Hz. by rewrite <- E. }
      assert (Hst' : forall va', in_range (vr_range r) va' -> page_at (vr_range r) owned va' <> 0 ->
        page_at (vr_range r) (store_page (vr_range r) owned a va) va' = page_at (vr_range r) owned va').
      { intros va' Hva' Hp. rewrite page_at_store by (apply Hr || done). case_decide as E; [|done].
        unfold page_at in Hp, Ep. rewrite E in Hp. done. }
      split.
      * intros va' Hva' Hp. rewrite Hk; [by apply Hst'|done|by rewrite Hst'].
      * intros x Hxx. destruct (decide (x = i)) as [->|]; [|apply Hn; lia]. fold va.
        assert (Hnew : page_at (vr_range r) (store_page (vr_range r) owned a va) va = a).
        { rewrite page_at_store by (apply Hr || done). by rewrite decide_True. }
        rewrite Hk; rewrite ?Hnew; done.
    + right. split; [done|lia].
  - destruct (IH (i + 1) owned sp k) as [(o' & sp' & k' & -> & Hs' & HR' & Hk & Hn)|[-> F]]; try done; try lia.
    + by rewrite Hsz.
    + by rewrite Hsz.
    + left. exists o', sp', k'. split; [done|]. split; [done|]. split; [done|]. split; [done|].
      intros x Hxx. destruct (decide (x = i)) as [->|]; [by rewrite Hk|apply Hn; lia].
    + right. split; [done|lia].
Qed.

Lemma page_at_expand r owned n va :
  wf_range r -> in_range r va -> page_at r (expand_pages owned n) va = page_at r owned va.
Proof.
  intros Hr Hva. unfold page_at, expand_pages. rewrite length_app, length_replicate.
  assert (H0 : 0 <= page_offset r va) by (rewrite page_offset_eq by done; destruct Hva; unfold page_size; dlia).
  destruct (Z.leb_spec (Z.of_nat (length owned)) (page_offset r va)).
  - destruct (Z.leb_spec (Z.of_nat (length owned + (n - length owned))) (page_offset r va)); [done|].
    rewrite lookup_app_r by lia. by rewrite lookup_replicate_2 by lia.
  - rewrite (proj2 (Z.leb_gt _ _)) by lia. by rewrite lookup_app_l by lia.
Qed.

(** The pages of a region that are never mapped: the guard page of a kernel stack. *)
Definition guard_pages (r : vregion) : Z :=
  if vr_is r VR_STACK && bool_decide (vr_is_supervisor r = YES) then 1 else 0.

(** [preallocate_entire] gives every page of the region but the guard page of a kernel
    stack a physical page and maps it with the region's rights, keeping the pages that
    were there; after it no access inside the region faults.  It panics when the free
    pages run out, which takes fewer than four of them per page. *)
Theorem preallocate_entire_correct (r : vregion) (zeroed : bool) (owned : list Z) (sp : address_space) (k : kernel) :
  let rng := vr_range r in
  let count := r_length rng / page_size in
  wf_space sp k -> wf_region r -> vr_is r VR_PRIVATE || vr_is r VR_SHARED = true ->
  r_end rng mod page_size = 0 -> guard_pages r < count -> run_of_pages (r_begin rng) count ->
  (forall x, 0 <= x < count -> no_huge_at (k_memory k) sp (r_begin rng + x * page_size)) ->
  region_backed r owned sp k -> ~ page_free (regions k) 0 ->
  (exists owned' sp' k', preallocate_entire r zeroed owned sp k = Ok (owned', sp', k') /\ wf_space sp' k' /\
     (forall x, guard_pages r <= x < count ->
        let p := page_at rng owned' (r_begin rng + x * page_size) in
        p <> 0 /\ translate_address (k_memory k') sp' (r_begin rng + x * page_size) =
          Some (p, page_attributes (vr_is_supervisor r))) /\
     (forall va, in_range rng va -> page_at rng owned va <> 0 -> page_at rng owned' va = page_at rng owned va)) \/
  (preallocate_entire r zeroed owned sp k = Fault KernelPanic /\ free_pages (regions k) < 4 * count).
Proof.
  intros rng count Hs Hr Hkind He Hg Hv Hnh HR Hz. pose proof Hr as [Hwr Hb].
  unfold preallocate_entire, preallocate_specific. fold rng count.
  change (r_empty null_range) with true. run.
  fold rng in Hb, Hwr. unfold is_aligned. rewrite Hb, He. cbn [Z.eqb]. run. fold rng count.
  rewrite Hkind. set (g := guard_pages r) in *.
  assert (Eg : (if vr_is r VR_STACK && bool_decide (vr_is_supervisor r = YES)
      then _ ← ASSERT (count >? 1); mret 1 else mret 0) = Ok g).
  { unfold g, guard_pages in *. case_match; [|done]. by rewrite Z.gtb_ltb, (proj2 (Z.ltb_lt _ _) Hg). }
  rewrite Eg. run.
  assert (Hg0 : 0 <= g <= 1) by (unfold g, guard_pages; case_match; lia).
  assert (Hcw : 0 <= r_begin rng /\ 0 <= count /\ r_begin rng + count * page_size < W64).
  { destruct Hv as (? & ? & ?). unfold page_size in *. lia. }
  unfold page_size in Hcw. rewrite (wrap64_small (g * page_size)) by (unfold is_u64, page_size; lia).
  rewrite (wrap64_small (r_begin rng + _)) by (unfold is_u64, page_size; lia).
  rewrite (wrap64_small (count - g)) by (unfold is_u64; lia).
  assert (Hlen : r_end rng = r_begin rng + count * page_size).
  { unfold count. rewrite r_length_wf by done. unfold page_size in *. dlia. }
  set (start := r_begin rng + g * page_size).
  assert (Hinr : forall x, 0 <= x < count -> in_range rng (r_begin rng + x * page_size)).
  { intros x Hx. unfold in_range. rewrite Hlen. unfold page_size. lia. }
  set (owned1 := expand_pages owned (Z.to_nat count)).
  assert (Hp1 : forall va, in_range rng va -> page_at rng owned1 va = page_at rng owned va)
    by (intros va Hva; by apply page_at_expand).
  destruct (preallocate_loop_Ok (Z.to_nat (count - g)) 0 r start zeroed owned1 sp k)
    as [(o' & sp' & k' & -> & Hs' & HR' & Hk & Hn)|[-> F]].
  - done.
  - done.
  - lia.
  - unfold start, page_size. lia.
  - rewrite Z.add_0_l, Z2Nat.id by lia. unfold start. destruct Hv as (H1 & H2 & H3).
    unfold run_of_pages, page_size in *. split; [dlia|]. lia.
  - rewrite Z.add_0_l, Z2Nat.id by lia. intros x Hx.
    replace (start + x * page_size) with (r_begin rng + (g + x) * page_size) by (unfold start; lia).
    split; [apply Hinr; lia|apply Hnh; lia].
  - intros va Hva Hin. fold rng. rewrite Hp1 by done. by apply HR.
  - done.
  - left. exists o', sp', k'. split; [done|]. split; [done|]. split.
    + intros x Hx. cbv zeta.
      assert (Hp : page_at rng o' (r_begin rng + x * page_size) <> 0).
      { replace (r_begin rng + x * page_size) with (start + (x - g) * page_size) by (unfold start; lia).
        apply Hn. lia. }
      split; [done|]. apply HR'; [|apply Hinr; lia|done]. apply (run_page _ count); [done|lia].
    + intros va Hva Hp. rewrite Hk; [by apply Hp1|done|]. by rewrite Hp1.
  - right. split; [done|lia].
Qed.

Lemma preallocate_entire_correct_witness :
  exists mm owned sp k p, example_regions = Ok mm /\
    preallocate_entire (VRegion (Range 0x400000 0x401000) (make_properties NO PRIVATE NONE) false (Private []))
      true [] example_space (Kernel mm (fun _ => 0)) = Ok (owned, sp, k) /\
    translate_address (k_memory k) sp 0x400000 = Some (p, 7).
Proof.
  destruct example_regions as [mm|] eqn:E; [|vm_compute in E; discriminate E].
  pose proof (example_vm_wf mm E) as Hwf. pose proof (wv_space _ _ _ Hwf) as Hs. exists mm.
  destruct (preallocate_entire_correct
    (VRegion (Range 0x400000 0x401000) (make_properties NO PRIVATE NONE) false (Private []))
    true [] example_space (Kernel mm (fun _ => 0)) Hs) as [(o & sp & k & E' & _ & H & _)|[_ F]].
  - split; [unfold wf_range; simpl; lia|reflexivity].
  - reflexivity.
  - reflexivity.
  - reflexivity.
  - cbn [vr_range]. change (r_length (Range 0x400000 0x401000) / page_size) with 1. split; [reflexivity|].
    split; [lia|]. left. unfold page_size. simpl. lia.
  - intros x _. apply zero_no_huge.
  - intros va _ _ Hp. exfalso. apply Hp. unfold page_at. simpl. destruct (_ <=? _); reflexivity.
  - exact (wv_page_zero _ _ _ Hwf).
  - destruct (H 0) as [_ Ht]; [cbn [vr_range]; change (r_length (Range 0x400000 0x401000) / page_size) with 1;
      change (guard_pages _) with 0; lia|].
    eexists o, sp, k, _. split; [reflexivity|]. split; [exact E'|]. exact Ht.
  - exfalso. vm_compute in E. injection E as <-. vm_compute in F. discriminate F.
Defined.
