(* ===== verification/PhysicalRanges.v ===== *)
(** [accumulate_contiguous_physical_ranges] of Kernel/Memory/Utilities.cpp: the physical
    ranges behind a buffer of kernel memory, as drivers hand them to hardware. *)
From S2P Require Import Prelude Page Range Utilities OrderedSet BitArray PhysicalRegion PagingEntry PhysicalMemory AddressSpace PageWalk AddressSpaceCorrect AddressSpaceMaps AddressSpaceTheorems VirtualRegions.

(** The pages of a range, in order. *)
Definition pages_of (r : range) : list Z :=
  (fun i => r_begin r + Z.of_nat i * page_size) <$> seq 0 (Z.to_nat ((r_end r - r_begin r) / page_size)).

Lemma pages_of_one p : pages_of (Range p (p + page_size)) = [p].
Proof.
  unfold pages_of. cbn [r_begin r_end]. replace ((p + page_size - p) / page_size) with 1
    by (unfold page_size; dlia). change (Z.to_nat 1) with 1%nat. cbn. by rewrite Z.add_0_r.
Qed.

Lemma pages_of_extend b n : 0 <= n ->
  pages_of (Range b (b + n * page_size + page_size)) =
    pages_of (Range b (b + n * page_size)) ++ [b + n * page_size].
Proof.
  intros Hn. unfold pages_of. cbn [r_begin r_end].
  replace ((b + n * page_size + page_size - b) / page_size) with (n + 1) by (unfold page_size; dlia).
  replace ((b + n * page_size - b) / page_size) with n by (unfold page_size; dlia).
  replace (Z.to_nat (n + 1)) with (Z.to_nat n + 1)%nat by lia. rewrite seq_app, fmap_app. cbn.
  by rewrite Z2Nat.id.
Qed.

(** A non-empty run of whole pages of at most [max] bytes. *)
Definition page_run (max : Z) (r : range) : Prop :=
  exists n, 0 < n /\ n * page_size <= max /\ 0 <= r_begin r /\ r_end r = r_begin r + n * page_size /\
    r_end r < W64 /\ r_begin r mod page_size = 0.

(** No two neighbours could have been merged. *)
Definition split_needed (max : Z) (r r' : range) : Prop :=
  r_end r <> r_begin r' \/ r_end r - r_begin r = max.

Definition greedy (max : Z) (l : list range) : Prop :=
  forall l1 r r' l2, l = l1 ++ r :: r' :: l2 -> split_needed max r r'.

Lemma greedy_snoc max l r r' :
  greedy max (l ++ [r]) -> split_needed max r r' -> greedy max (l ++ [r; r']).
Proof.
  intros Hg Hs l1 a b l2 E. destruct l2 as [|c l2] using rev_ind.
  - apply app_inj_2 in E as [_ E]; [|done]. by injection E as <- <-.
  - clear IHl2. apply (Hg l1 a b l2). change (l1 ++ a :: b :: l2 ++ [c]) with (l1 ++ (a :: b :: l2) ++ [c]) in E.
    rewrite app_assoc in E. change [r; r'] with ([r] ++ [r']) in E. rewrite app_assoc in E.
    by apply app_inj_tail in E as [-> _].
Qed.

Lemma greedy_one max r : greedy max [r].
Proof.
  intros l1 a b l2 E. apply (f_equal length) in E. rewrite length_app in E. simpl in E. lia.
Qed.

Lemma page_run_length max r : page_run max r -> r_length r = r_end r - r_begin r.
Proof.
  intros (n & H1 & H2 & H3 & H4 & H5 & H6). unfold r_length, page_size in *.
  apply wrap64_small. unfold is_u64. lia.
Qed.

Section loop.
Context (sp : address_space) (m : memory) (max : Z).
Context (Hmax : page_size <= max) (Hal : max mod page_size = 0) (Hmaxu : max < W64).

(** The state of the loop: [rs] are finished; the current range is empty, or a run that
    can still grow. *)
Definition accumulating (rs : list range) (cur : range) (done : list Z) : Prop :=
  Forall (page_run max) rs /\
  ((cur = null_range /\ concat (pages_of <$> rs) = done /\ greedy max rs /\
    (forall r, last rs = Some r -> r_end r - r_begin r = max)) \/
   (page_run max cur /\ r_end cur - r_begin cur < max /\
    concat (pages_of <$> (rs ++ [cur])) = done /\ greedy max (rs ++ [cur]))).

Lemma range_make_page p :
  mappable p -> range_make p page_size = Ok (Range p (p + page_size)) /\ page_run max (Range p (p + page_size)).
Proof using Hmax.
  intros [Hp Hpa]. unfold range_make. rewrite wrap64_small by (unfold is_u64, page_size; lia). split.
  - cbn [r_begin r_end]. rewrite (proj2 (Z.leb_le _ _)) by (unfold page_size; lia). done.
  - exists 1. unfold page_size in *. cbn [r_begin r_end]. split_and!; (lia || done).
Qed.

(** Finishing the current range when it is full. *)
Definition settle (rs : list range) (cur : range) : list range * range :=
  if r_length cur =? max then (rs ++ [cur], r_reset) else (rs, cur).

Lemma settle_Ok rs cur pages :
  Forall (page_run max) rs -> page_run max cur -> concat (pages_of <$> (rs ++ [cur])) = pages ->
  greedy max (rs ++ [cur]) -> let '(rs', cur') := settle rs cur in accumulating rs' cur' pages.
Proof using Hmax Hal.
  intros Hrs Hcur Hp Hg. unfold settle. rewrite (page_run_length max cur Hcur).
  destruct (Z.eqb_spec (r_end cur - r_begin cur) max) as [E|E].
  - split; [by apply Forall_app; split; [|constructor]|]. left. split; [done|]. split; [done|].
    split; [done|]. intros r Hr. rewrite last_snoc in Hr. by injection Hr as <-.
  - split; [done|]. right. split; [done|]. split; [|done].
    destruct Hcur as (n & ? & ? & ? & ? & ? & ?). unfold page_size in *. lia.
Qed.

Lemma step_Ok rs cur pages p :
  accumulating rs cur pages -> mappable p -> p <> 0 ->
  exists rs' cur',
    (if r_valid cur then
       if r_end cur =? p then mret (rs, extend_by cur page_size)
       else r ← range_make p page_size; mret (rs ++ [cur], r)
     else r ← range_make p page_size; mret (rs, r)) = Ok (rs', cur') /\
    let '(rs', cur') := settle rs' cur' in accumulating rs' cur' (pages ++ [p]).
Proof using Hmax Hal Hmaxu.
  intros [Hrs Hcur] Hp Hp0. destruct (range_make_page p Hp) as [Emk Hone].
  destruct Hcur as [(-> & Hpg & Hg & Hl)|(Hcur & Hlt & Hpg & Hg)].
  - unfold r_valid, r_empty, null_range. cbn [r_begin r_end Z.eqb negb]. rewrite Emk. run.
    eexists _, _. split; [done|]. apply settle_Ok; try done.
    + rewrite fmap_app, concat_app, Hpg. cbn [fmap list_fmap concat]. by rewrite pages_of_one, app_nil_r.
    + destruct rs as [|r rs] using rev_ind; [apply greedy_one|]. clear IHrs. rewrite <- app_assoc.
      apply greedy_snoc; [done|]. right. apply Hl. by rewrite last_snoc.
  - pose proof Hcur as (n & Hn1 & Hn2 & Hb & He & Hu & Ha).
    replace (r_valid cur) with true.
    2:{ unfold r_valid, r_empty. symmetry. apply negb_true_iff, Z.eqb_neq. unfold page_size in *. lia. }
    destruct (Z.eqb_spec (r_end cur) p) as [E|E].
    + eexists _, _. split; [done|].
      assert (Hlt' : r_end cur + page_size - r_begin cur <= max).
      { unfold page_size in *. dlia. }
      assert (Hext : extend_by cur page_size = Range (r_begin cur) (r_begin cur + n * page_size + page_size)).
      { unfold extend_by. rewrite He. f_equal. apply wrap64_small. unfold is_u64, page_size in *.
        destruct Hp as [Hp _]. lia. }
      rewrite Hext. apply settle_Ok.
      * done.
      * exists (n + 1). cbn [r_begin r_end]. unfold page_size in *. destruct Hp. split_and!; (lia || done).
      * rewrite fmap_app, concat_app in Hpg |- *. cbn [fmap list_fmap concat] in *. rewrite app_nil_r in *.
        rewrite pages_of_extend by lia. rewrite <- He at 2. rewrite E.
        rewrite app_assoc. f_equal. rewrite <- Hpg. f_equal. destruct cur as [b e]. cbn [r_begin r_end] in *. by rewrite He.
      * intros l1 r r' l2 E'. destruct l2 as [|c l2] using rev_ind.
        -- change (r :: [r']) with ([r] ++ [r']) in E'. rewrite app_assoc in E'.
           apply app_inj_tail in E' as [-> <-].
           specialize (Hg l1 r cur []). rewrite <- app_assoc in Hg. specialize (Hg eq_refl).
           exact Hg.
        -- clear IHl2. change (l1 ++ r :: r' :: l2 ++ [c]) with (l1 ++ (r :: r' :: l2) ++ [c]) in E'.
           rewrite app_assoc in E'. apply app_inj_tail in E' as [E' _].
           apply (Hg l1 r r' (l2 ++ [cur])). by rewrite E', <- app_assoc.
    + rewrite Emk. run. eexists _, _. split; [done|]. apply settle_Ok.
      * by apply Forall_app; split; [|constructor].
      * done.
      * rewrite fmap_app, concat_app, Hpg. cbn [fmap list_fmap concat]. by rewrite pages_of_one, app_nil_r.
      * rewrite <- app_assoc. apply greedy_snoc; [done|]. by left.
Qed.
(** The pages of the buffer that are still to come. *)
Definition backing (va : Z) (ps : list Z) : Prop :=
  forall i p, ps !! i = Some p ->
    physical_address_of (va + Z.of_nat i * page_size) sp m = Ok p /\ mappable p /\ p <> 0.

Lemma accumulate_loop_Ok ps fuel byte_length va cur rs pages :
  (length ps < fuel)%nat -> 0 <= byte_length ->
  (Z.of_nat (length ps) - 1) * page_size < byte_length <= Z.of_nat (length ps) * page_size ->
  0 <= va -> va + Z.of_nat (length ps) * page_size < W64 -> backing va ps ->
  accumulating rs cur pages ->
  exists rs' cur', accumulate_loop fuel byte_length va max cur rs sp m = Ok (rs', cur') /\
    accumulating rs' cur' (pages ++ ps).
Proof using Hmax Hal Hmaxu.
  revert fuel byte_length va cur rs pages.
  induction ps as [|p ps IH]; intros fuel byte_length va cur rs pages Hf Hb0 Hb Hv0 Hv Hps Hacc;
    (destruct fuel as [|fuel]; [simpl in Hf; lia|]); cbn [accumulate_loop].
  { simpl length in Hb. unfold page_size in Hb. rewrite (proj2 (Z.eqb_eq _ _)) by lia.
    exists rs, cur. by rewrite app_nil_r. }
  simpl length in *. unfold page_size in Hb, Hv. rewrite (proj2 (Z.eqb_neq _ _)) by lia.
  destruct (Hps 0%nat p eq_refl) as (Hpa & Hpm & Hp0). rewrite Z.mul_0_l, Z.add_0_r in Hpa. rewrite Hpa. run.
  rewrite (proj2 (Z.eqb_neq _ _) Hp0). runb.
  destruct (step_Ok rs cur pages p Hacc Hpm Hp0) as (rs1 & cur1 & -> & Hset). run. unfold settle in Hset.
  destruct (r_length cur1 =? max) eqn:Efull.
  - destruct (IH fuel (byte_length - Z.min page_size byte_length) (va +! page_size) r_reset (rs1 ++ [cur1]) (pages ++ [p]))
      as (rs' & cur' & E & H); try done; try lia.
    + unfold page_size. lia.
    + rewrite wrap64_small by (unfold is_u64, page_size; lia). unfold page_size. lia.
    + rewrite wrap64_small by (unfold is_u64, page_size; lia). unfold page_size. lia.
    + rewrite wrap64_small by (unfold is_u64, page_size; lia). intros i q Hq.
      destruct (Hps (S i) q Hq) as [Hq1 Hq2]. split; [|done]. rewrite <- Hq1. f_equal. unfold page_size. lia.
    + exists rs', cur'. split; [done|]. by rewrite <- app_assoc in H.
  - destruct (IH fuel (byte_length - Z.min page_size byte_length) (va +! page_size) cur1 rs1 (pages ++ [p]))
      as (rs' & cur' & E & H); try done; try lia.
    + unfold page_size. lia.
    + rewrite wrap64_small by (unfold is_u64, page_size; lia). unfold page_size. lia.
    + rewrite wrap64_small by (unfold is_u64, page_size; lia). unfold page_size. lia.
    + rewrite wrap64_small by (unfold is_u64, page_size; lia). intros i q Hq.
      destruct (Hps (S i) q Hq) as [Hq1 Hq2]. split; [|done]. rewrite <- Hq1. f_equal. unfold page_size. lia.
    + exists rs', cur'. split; [done|]. by rewrite <- app_assoc in H.
Qed.
End loop.

(** [accumulate_contiguous_physical_ranges] covers a mapped kernel buffer exactly: the
    pages of the ranges it returns, in order, are the physical pages behind the buffer;
    every range is a non-empty run of whole pages of at most the size asked for, and two
    neighbours are split only where the pages are not contiguous or the first is full. *)
Theorem contiguous_ranges_correct (va byte_length max : Z) (ps : list Z) (sp : address_space) (m : memory) :
  page_size <= max < W64 -> max mod page_size = 0 -> physical_memory_base < va -> 0 <= byte_length ->
  (Z.of_nat (length ps) - 1) * page_size < byte_length <= Z.of_nat (length ps) * page_size ->
  va + Z.of_nat (length ps) * page_size < W64 -> backing sp m va ps ->
  exists rs, accumulate_contiguous_physical_ranges va byte_length max sp m = Ok rs /\
    concat (pages_of <$> rs) = ps /\ Forall (page_run max) rs /\ greedy max rs.
Proof.
  intros [Hmax Hmu] Hal Hva Hb0 Hb Hv Hps. unfold accumulate_contiguous_physical_ranges.
  rewrite Z.geb_leb, (proj2 (Z.leb_le _ _) Hmax), (proj2 (is_aligned_spec max) Hal), Z.gtb_ltb, (proj2 (Z.ltb_lt _ _) Hva).
  run. destruct (accumulate_loop_Ok sp m max Hmax Hal Hmu ps (S (Z.to_nat (byte_length / page_size) + 1))
    byte_length va null_range [] []) as (rs & cur & -> & Hrs & Hcur).
  - unfold page_size in *. dlia.
  - done.
  - done.
  - unfold physical_memory_base in Hva. lia.
  - done.
  - done.
  - split; [constructor|]. left. split; [done|]. split; [done|]. split; [|done].
    intros l1 r r' l2 E. by destruct l1.
  - run. cbn [app] in Hcur. destruct Hcur as [(-> & Hp & Hg & _)|(Hc & _ & Hp & Hg)].
    + exists rs. done.
    + exists (rs ++ [cur]). destruct Hc as (n & Hc).
      replace (r_valid cur) with true.
      2:{ unfold r_valid, r_empty. symmetry. apply negb_true_iff, Z.eqb_neq. unfold page_size in *. lia. }
      split; [done|]. split; [done|]. split; [|done]. apply Forall_app. split; [done|]. constructor; [by exists n|constructor].
Qed.

(** Two pages of the kernel half mapped to neighbouring physical pages. *)
Lemma contiguous_ranges_correct_witness :
  exists mm sp k rs, example_regions = Ok mm /\
    map_range (Range 0xFFFF900000000000 0xFFFF900000002000) (Range 0x300000 0x302000) YES example_space
      (Kernel mm (fun _ => 0)) = Ok (sp, k) /\
    accumulate_contiguous_physical_ranges 0xFFFF900000000000 5000 8192 sp (k_memory k) = Ok rs /\
    concat (pages_of <$> rs) = [0x300000; 0x301000].
Proof.
  destruct example_regions as [mm|] eqn:E; [|vm_compute in E; discriminate E].
  pose proof (example_space_wf mm E) as Hs. exists mm.
  destruct (map_range_loop_Ok 2 0 (Range 0xFFFF900000000000 0xFFFF900000002000) (Range 0x300000 0x302000) YES
    example_space (Kernel mm (fun _ => 0)) Hs) as [(sp & k & Em & M & N & _)|[_ F]].
  - lia.
  - split; [reflexivity|]. split; [lia|]. right. unfold page_size. simpl. lia.
  - simpl. lia.
  - reflexivity.
  - unfold page_size. simpl. lia.
  - intros x _. apply zero_no_huge.
  - assert (Hpa : forall i, 0 <= i < 2 -> physical_address_of (0xFFFF900000000000 + i * page_size) sp (k_memory k) = Ok (0x300000 + i * page_size)).
    { intros i Hi. assert (Hpg : page_of_memory (0xFFFF900000000000 + i * page_size)).
      { split; [right; unfold page_size; lia|]. unfold page_size. dlia. }
      apply (physical_address_of_Ok _ sp k _ 3); [apply M|exact Hpg|apply N, zero_no_huge|].
      rewrite (mp_here _ _ _ _ _ _ M _ Hpg); [cbn [r_begin]; do 2 f_equal; unfold page_size; lia|].
      split; [apply Hpg|]. cbn [r_begin]. unfold page_size. lia. }
    destruct (contiguous_ranges_correct 0xFFFF900000000000 5000 8192 [0x300000; 0x301000] sp (k_memory k))
      as (rs & Er & Hr & _).
    + unfold page_size. lia.
    + reflexivity.
    + reflexivity.
    + lia.
    + unfold page_size. simpl. lia.
    + unfold page_size. simpl. lia.
    + intros i p Hi. assert (Hi2 : (i < 2)%nat) by (apply lookup_lt_Some in Hi; exact Hi).
      rewrite (Hpa (Z.of_nat i)) by lia. destruct i as [|[|i]]; cbn in Hi; [| |lia]; injection Hi as <-.
      * split; [reflexivity|]. split; [split; [lia|reflexivity]|discriminate].
      * split; [reflexivity|]. split; [split; [lia|reflexivity]|discriminate].
    + exists sp, k, rs. split; [reflexivity|]. split; [exact Em|]. split; [exact Er|exact Hr].
  - exfalso. vm_compute in E. injection E as <-. vm_compute in F. discriminate F.
Defined.
