(* ===== verification/VirtualAllocator.v ===== *)
(** Kernel/Memory/VirtualAllocator.{h,cpp}: the allocator of virtual address ranges.  Its
    state is the managed range and a [Set] of the allocated ranges, merged when they
    touch; the set is used through the interface of OrderedSet.v.  The abstract state is
    the set of allocated addresses, [covered].  The spin lock each operation holds makes
    it atomic and is not part of the state. *)
From S2P Require Import Prelude Page Range OrderedSet.

(** ** Operations *)

Section operations.
Context `{OrderedSet T range}.

(** [Kernel/Memory/VirtualAllocator.h:42-48] VirtualAllocator *)
Record virtual_allocator := VirtualAllocator {
  m_base_range : range;
  m_allocated_ranges : T;
}.

(** [Kernel/Memory/VirtualAllocator.cpp:9-12] VirtualAllocator(Address, Address) *)
Definition va_make (b e : Z) : result virtual_allocator :=
  r ← range_make b (e -! b); mret (VirtualAllocator r os_null).

(** [Kernel/Memory/VirtualAllocator.cpp:29-35] reset_with *)
Definition va_reset_with (v : virtual_allocator) (b e : Z) : result virtual_allocator :=
  r ← reset_with_two_pointers b e; mret (VirtualAllocator r os_null).

(** [Kernel/Memory/VirtualAllocator.cpp:37-57] is_allocated *)
Definition is_allocated (v : virtual_allocator) (address : Z) : result bool :=
  let s := m_allocated_ranges v in
  if negb (r_contains (m_base_range v) address) then mret false
  else if os_empty s then mret false
  else
    let it := os_lower_bound s (fun r => r_lt_addr r address) in
    let missed := match it with None => true | Some r => negb (r_begin r =? address) end in
    if missed then
      if bool_decide (it = os_begin s) then mret false
      else it ← os_prev s it; r ← deref it; mret (r_contains r address)
    else r ← deref it; mret (r_contains r address).

(** [Kernel/Memory/VirtualAllocator.cpp:59-80] merge_and_emplace *)
Definition merge_and_emplace (s : T) (before after : option range) (new_range : range)
  : result T :=
  let before_mergeable :=
    match before with Some b => r_end b =? r_begin new_range | None => false end in
  let after_mergeable :=
    match after with Some a => r_begin a =? r_end new_range | None => false end in
  if before_mergeable && after_mergeable then
    b ← deref before;
    a ← deref after;
    merged_range ← from_two_pointers (r_begin b) (r_end a);
    s ← os_remove s before;
    s ← os_remove s after;
    os_emplace s merged_range
  else if before_mergeable then
    b ← deref before;
    merged_range ← from_two_pointers (r_begin b) (r_end new_range);
    s ← os_remove s before;
    os_emplace s merged_range
  else if after_mergeable then
    a ← deref after;
    merged_range ← from_two_pointers (r_begin new_range) (r_end a);
    s ← os_remove s after;
    os_emplace s merged_range
  else os_emplace s new_range.

(** [Kernel/Memory/VirtualAllocator.cpp:132-144] the search for the first gap before an
    allocated range: the iterators around the gap, where the last gap begins, and the
    range found, empty if there is none. *)
Fixpoint find_gap (fuel : nat) (s : T) (range_before range_after : option range)
    (gap_begin length alignment : Z) : result (option range * option range * Z * range) :=
  match fuel with
  | O => Fault OutOfFuel
  | S fuel =>
    match range_after with
    | None => mret (range_before, None, gap_begin, null_range)
    | Some after =>
      gap ← from_two_pointers gap_begin (r_begin after);
      potential_range ← aligned_to gap alignment;
      if negb (r_valid potential_range) || (r_length potential_range <? length) then
        next ← os_next s range_after;
        find_gap fuel s range_after next (r_end after) length alignment
      else mret (range_before, range_after, gap_begin, set_length potential_range length)
    end
  end.

(** [Kernel/Memory/VirtualAllocator.cpp:82-164] allocate(size_t, size_t) *)
Definition va_allocate (v : virtual_allocator) (length alignment : Z)
  : result (range * virtual_allocator) :=
  _ ← ASSERT (negb (length =? 0));
  let alignment := if alignment <? page_size then page_size else alignment in
  _ ← ASSERT (Z.land alignment (lnot64 alignment_mask) =? 0);
  let rounded_up_length := round_up length in
  _ ← panic_if (rounded_up_length <? length);
  let length := rounded_up_length in
  let s := m_allocated_ranges v in
  if os_empty s then
    allocated_range ← aligned_to (m_base_range v) alignment;
    _ ← panic_if (negb (r_valid allocated_range) || (r_length allocated_range <? length));
    let allocated_range := set_length allocated_range length in
    s ← os_emplace s allocated_range;
    mret (allocated_range, VirtualAllocator (m_base_range v) s)
  else
    '(range_before, range_after, gap_begin, allocated_range) ←
      find_gap (S (os_size s)) s None (os_begin s) (r_begin (m_base_range v))
        length alignment;
    '(range_before, allocated_range) ←
      (if r_empty allocated_range then
         gap ← from_two_pointers gap_begin (r_end (m_base_range v));
         potential_range ← aligned_to gap alignment;
         _ ← panic_if (negb (r_valid potential_range) || (r_length potential_range <? length));
         range_before ← os_prev s None;
         mret (range_before, set_length potential_range length)
       else mret (range_before, allocated_range));
    s ← merge_and_emplace s range_before range_after allocated_range;
    mret (allocated_range, VirtualAllocator (m_base_range v) s).

(** [Kernel/Memory/VirtualAllocator.cpp:218-221] contains(Address) *)
Definition va_contains (v : virtual_allocator) (address : Z) : bool :=
  r_contains (m_base_range v) address.

(** [Kernel/Memory/VirtualAllocator.cpp:223-226] contains(const Range&) *)
Definition va_contains_range (v : virtual_allocator) (r : range) : bool :=
  r_contains (m_base_range v) (r_begin r) && r_contains (m_base_range v) (r_end r -! 1).

(** [Kernel/Memory/VirtualAllocator.cpp:193-205] the allocated ranges around a new one *)
Definition neighbours (s : T) (r : range) : result (option range * option range) :=
  let it := os_lower_bound s (fun x => r_lt x r) in
  let missed := match it with None => true | Some x => negb (r_begin x =? r_begin r) end in
  if missed then
    if bool_decide (it <> os_begin s) then p ← os_prev s it; mret (p, it)
    else mret (None, it)
  else n ← os_next s it; mret (it, n).

(** [Kernel/Memory/VirtualAllocator.cpp:166-216] allocate(Range) *)
Definition va_allocate_range (v : virtual_allocator) (r : range)
  : result (range * virtual_allocator) :=
  _ ← ASSERT (negb (r_empty r));
  _ ← ASSERT (va_contains_range v r);
  let b := round_down (r_begin r) in
  let length := round_up ((r_length r +! r_begin r) -! b) in
  r ← range_make b length;
  let s := m_allocated_ranges v in
  if os_empty s then
    s ← os_emplace s r;
    mret (r, VirtualAllocator (m_base_range v) s)
  else
    '(it, range_after) ← neighbours s r;
    _ ← panic_if (match range_after with
                  | Some a => r_contains a (r_end r -! 1)
                  | None => false
                  end);
    _ ← panic_if (match it with
                  | Some x => (r_begin x =? r_begin r) || r_contains x (r_begin r)
                  | None => false
                  end);
    s ← merge_and_emplace s it range_after r;
    mret (r, VirtualAllocator (m_base_range v) s).

(** [Kernel/Memory/VirtualAllocator.cpp:263-274] the end of deallocate: the range [r] is
    cut out of the range found, and what is left of that one is put back. *)
Definition carve (s : T) (it : option range) (r : range) : result T :=
  _ ← panic_if (match it with None => true | Some x => negb (r_contains_range x r) end);
  x ← deref it;
  range_before ← clipped_with_end x (r_begin r);
  range_after ← clipped_with_begin x (r_end r);
  s ← os_remove s it;
  s ← (if r_valid range_before then os_emplace s range_before else mret s);
  (if r_valid range_after then os_emplace s range_after else mret s).

(** [Kernel/Memory/VirtualAllocator.cpp:228-275] deallocate *)
Definition va_deallocate (v : virtual_allocator) (r : range) : result virtual_allocator :=
  let s := m_allocated_ranges v in
  _ ← ASSERT (is_aligned (r_begin r));
  _ ← ASSERT (is_aligned (r_length r));
  _ ← panic_if (negb (va_contains_range v r));
  _ ← panic_if (os_empty s);
  let it := os_lower_bound s (fun x => r_lt x r) in
  let missed := match it with None => true | Some x => negb (r_begin x =? r_begin r) end in
  it ← (if missed then
          _ ← panic_if (bool_decide (it = os_begin s));
          os_prev s it
        else mret it);
  s ← carve s it r;
  mret (VirtualAllocator (m_base_range v) s).

End operations.
Arguments virtual_allocator : clear implicits.
Arguments VirtualAllocator {T} _ _.

(** ** Semantics *)

(** The addresses a list of ranges covers. *)
Definition covered (l : list range) (x : Z) : Prop := Exists (fun r => in_range r x) l.

(** A range of the allocator: not empty and inside the managed range. *)
Definition inside (base r : range) : Prop :=
  r_begin r < r_end r /\ r_begin base <= r_begin r /\ r_end r <= r_end base.

(** Disjoint, ascending, and with a hole in between. *)
Definition apart (a b : range) : Prop := r_end a < r_begin b.

Definition wf_ranges (base : range) (l : list range) : Prop :=
  Forall (inside base) l /\ StronglySorted apart l.

Lemma covered_app l1 l2 x : covered (l1 ++ l2) x <-> covered l1 x \/ covered l2 x.
Proof. apply Exists_app. Qed.

Lemma covered_cons r l x : covered (r :: l) x <-> in_range r x \/ covered l x.
Proof. apply Exists_cons. Qed.

Lemma covered_nil x : covered [] x <-> False.
Proof. apply Exists_nil. Qed.

Lemma covered_elem l x : covered l x <-> exists r, r ∈ l /\ in_range r x.
Proof. apply Exists_exists. Qed.

Lemma wf_ranges_app base l1 l2 :
  wf_ranges base (l1 ++ l2) <->
  wf_ranges base l1 /\ wf_ranges base l2 /\ forall a b, a ∈ l1 -> b ∈ l2 -> apart a b.
Proof. unfold wf_ranges. rewrite Forall_app, StronglySorted_app. tauto. Qed.

Lemma wf_ranges_cons base r l :
  wf_ranges base (r :: l) <->
  inside base r /\ wf_ranges base l /\ forall b, b ∈ l -> apart r b.
Proof.
  unfold wf_ranges. rewrite Forall_cons, StronglySorted_cons, !Forall_forall. tauto.
Qed.

Lemma wf_ranges_nil base : wf_ranges base [].
Proof. split; constructor. Qed.

Lemma wf_ranges_inside base l r : wf_ranges base l -> r ∈ l -> inside base r.
Proof. intros [H _] Hr. rewrite Forall_forall in H. by apply H. Qed.

Create Rewrite HintDb covered.
#[export] Hint Rewrite covered_app covered_cons covered_nil : covered.

(** Membership of a list built from pieces. *)
Ltac in_lists :=
  repeat match goal with
  | H : _ ∈ _ ++ _ |- _ => apply elem_of_app in H as [H|H]
  | H : _ ∈ _ :: _ |- _ => apply elem_of_cons in H as [->|H]
  | H : _ ∈ [] |- _ => by apply not_elem_of_nil in H
  end.

(** Before a covered address there is no later range, and so on: the ranges of a
    well-formed list that can cover an address, by where it lies. *)
Lemma covered_left base l1 r l2 x :
  wf_ranges base (l1 ++ r :: l2) -> r_begin r <= x ->
  covered (l1 ++ r :: l2) x -> covered (r :: l2) x.
Proof.
  intros Hwf Hx Hc. apply wf_ranges_app in Hwf as (_ & _ & Hs).
  apply covered_app in Hc as [Hc|Hc]; [|done].
  apply covered_elem in Hc as (a & Ha & Hin). specialize (Hs a r Ha ltac:(set_solver)).
  unfold apart, in_range in *. lia.
Qed.

Lemma covered_right base l1 r l2 x :
  wf_ranges base (l1 ++ r :: l2) -> x <= r_end r ->
  covered (l1 ++ r :: l2) x -> covered (l1 ++ [r]) x.
Proof.
  intros Hwf Hx Hc. replace (l1 ++ r :: l2) with ((l1 ++ [r]) ++ l2) in *
    by by rewrite <- app_assoc.
  apply wf_ranges_app in Hwf as (_ & _ & Hs). apply covered_app in Hc as [Hc|Hc]; [done|].
  apply covered_elem in Hc as (a & Ha & Hin). specialize (Hs r a ltac:(set_solver) Ha).
  unfold apart, in_range in *. lia.
Qed.

(** ** Refinement lemmas, against the interface of the set *)

Section refinement.
Context `{OrderedSetLaws T range r_lt os_rep}.

(** The state represents the list [l] of allocated ranges. *)
Definition va_rep (v : virtual_allocator T) (l : list range) : Prop :=
  wf_range (m_base_range v) /\ wf_ranges (m_base_range v) l /\
  os_rep (m_allocated_ranges v) l.

(** Emplacing a range in the hole between two lists. *)
Lemma emplace_between base s l1 l2 r :
  os_rep s (l1 ++ l2) -> wf_ranges base (l1 ++ l2) -> inside base r ->
  (forall a, a ∈ l1 -> r_end a < r_begin r) -> (forall b, b ∈ l2 -> r_end r < r_begin b) ->
  exists s', os_emplace s r = Ok s' /\ os_rep s' (l1 ++ r :: l2) /\
    wf_ranges base (l1 ++ r :: l2).
Proof.
  intros Hs Hwf Hr H1 H2.
  destruct (os_emplace_rep (lt:=r_lt) s l1 l2 r Hs) as (s' & E & Hs').
  - apply Forall_forall. intros a Ha. specialize (H1 a Ha).
    apply wf_ranges_app in Hwf as (Hwf & _). pose proof (wf_ranges_inside _ _ _ Hwf Ha) as Hi.
    unfold r_lt, inside in *. lia.
  - apply Forall_forall. intros b Hb. specialize (H2 b Hb). unfold r_lt, inside in *. lia.
  - exists s'. split_and!; [done|done|]. apply wf_ranges_app in Hwf as (W1 & W2 & Hs12).
    rewrite wf_ranges_app, wf_ranges_cons. split_and!; try done.
    intros a b Ha Hb. in_lists; [by apply H1|by apply Hs12].
Qed.

(** The neighbour before a new range: touching it, or no range before touches it. *)
Lemma before_cases base l1 r :
  wf_ranges base l1 -> (forall a, a ∈ l1 -> r_end a <= r_begin r) ->
  let m := match last l1 with Some b => r_end b =? r_begin r | None => false end in
  (m = true /\ exists l1' b, l1 = l1' ++ [b] /\ r_end b = r_begin r /\
     forall a, a ∈ l1' -> r_end a < r_begin b) \/
  (m = false /\ forall a, a ∈ l1 -> r_end a < r_begin r).
Proof.
  intros Hwf H1 m. subst m. destruct l1 as [|b l1 _] using rev_ind; [right; set_solver|].
  rewrite last_snoc. apply wf_ranges_app in Hwf as (_ & W & Hs1).
  pose proof (wf_ranges_inside _ _ b W ltac:(set_solver)) as Hib.
  specialize (H1 b ltac:(set_solver)).
  destruct (Z.eqb_spec (r_end b) (r_begin r)) as [E|E]; [left|right]; (split; [done|]).
  - exists l1, b. split_and!; [done|done|]. intros a Ha. apply Hs1; set_solver.
  - intros a Ha. in_lists; [|lia]. specialize (Hs1 a b Ha ltac:(set_solver)).
    unfold apart, inside in *. lia.
Qed.

Lemma after_cases base l2 r :
  wf_ranges base l2 -> (forall b, b ∈ l2 -> r_end r <= r_begin b) ->
  let m := match head l2 with Some a => r_begin a =? r_end r | None => false end in
  (m = true /\ exists a l2', l2 = a :: l2' /\ r_begin a = r_end r /\
     forall b, b ∈ l2' -> r_end a < r_begin b) \/
  (m = false /\ forall b, b ∈ l2 -> r_end r < r_begin b).
Proof.
  intros Hwf H2 m. subst m. destruct l2 as [|a l2]; simpl; [right; set_solver|].
  apply wf_ranges_cons in Hwf as (Hia & _ & Hs2). specialize (H2 a ltac:(set_solver)).
  destruct (Z.eqb_spec (r_begin a) (r_end r)) as [E|E]; [left|right]; (split; [done|]).
  - exists a, l2. split_and!; [done|done|]. intros b Hb. by apply Hs2.
  - intros b Hb. in_lists; [lia|]. specialize (Hs2 b Hb). unfold apart, inside in *. lia.
Qed.

(** Removing an element of the set. *)
Lemma remove_Ok s l1 x l2 :
  os_rep s (l1 ++ x :: l2) ->
  exists s', os_remove s (Some x) = Ok s' /\ os_rep s' (l1 ++ l2).
Proof. apply (os_remove_rep (lt:=r_lt)). Qed.

Lemma merge_and_emplace_Ok base s l1 l2 r :
  os_rep s (l1 ++ l2) -> wf_ranges base (l1 ++ l2) -> inside base r ->
  (forall a, a ∈ l1 -> r_end a <= r_begin r) -> (forall b, b ∈ l2 -> r_end r <= r_begin b) ->
  exists s' l', merge_and_emplace s (last l1) (head l2) r = Ok s' /\ os_rep s' l' /\
    wf_ranges base l' /\ forall x, covered l' x <-> covered (l1 ++ l2) x \/ in_range r x.
Proof.
  intros Hs Hwf Hr H1 H2. unfold merge_and_emplace.
  pose proof Hwf as Hwf'. apply wf_ranges_app in Hwf' as (W1 & W2 & W12).
  destruct (before_cases base l1 r W1 H1) as [(-> & l1' & b & -> & Eb & Hb)|(-> & Hb)],
    (after_cases base l2 r W2 H2) as [(-> & a & l2' & -> & Ea & Ha)|(-> & Ha)];
    rewrite ?last_snoc; cbn [head deref]; runb; unfold from_two_pointers.
  all: try (pose proof (wf_ranges_inside _ _ b W1 ltac:(set_solver)) as Ib).
  all: try (pose proof (wf_ranges_inside _ _ a W2 ltac:(set_solver)) as Ia).
  all: try apply wf_ranges_app in W1 as (W1 & _); try apply wf_ranges_cons in W2 as (_ & W2 & _).
  all: unfold inside in *.
  - replace (r_begin b <=? r_end a) with true by lia. run. rewrite <- app_assoc in Hs.
    destruct (remove_Ok _ _ _ _ Hs) as (s1 & -> & Hs1). run.
    destruct (remove_Ok _ _ _ _ Hs1) as (s2 & -> & Hs2). run.
    destruct (emplace_between base s2 l1' l2' (Range (r_begin b) (r_end a)))
      as (s3 & -> & R & W); simpl; try done.
    + apply wf_ranges_app. split_and!; [done|done|]. intros; apply W12; set_solver.
    + unfold inside; simpl; lia.
    + eexists _, _. split_and!; [done..|].
      intros x. autorewrite with covered. unfold in_range; simpl.
      assert ((r_begin b <= x < r_end a) <->
        (r_begin b <= x < r_end b) \/ (r_begin a <= x < r_end a) \/ (r_begin r <= x < r_end r))
        by lia. tauto.
  - replace (r_begin b <=? r_end r) with true by lia. run. rewrite <- app_assoc in Hs.
    destruct (remove_Ok _ _ _ _ Hs) as (s1 & -> & Hs1). run.
    destruct (emplace_between base s1 l1' l2 (Range (r_begin b) (r_end r)))
      as (s3 & -> & R & W); simpl; try done.
    + apply wf_ranges_app. split_and!; [done|done|]. intros; apply W12; set_solver.
    + unfold inside; simpl; lia.
    + eexists _, _. split_and!; [done..|].
      intros x. autorewrite with covered. unfold in_range; simpl.
      assert ((r_begin b <= x < r_end r) <->
        (r_begin b <= x < r_end b) \/ (r_begin r <= x < r_end r)) by lia. tauto.
  - replace (r_begin r <=? r_end a) with true by lia. run.
    destruct (remove_Ok _ _ _ _ Hs) as (s1 & -> & Hs1). run.
    destruct (emplace_between base s1 l1 l2' (Range (r_begin r) (r_end a)))
      as (s3 & -> & R & W); simpl; try done.
    + apply wf_ranges_app. split_and!; [done|done|]. intros; apply W12; set_solver.
    + unfold inside; simpl; lia.
    + eexists _, _. split_and!; [done..|].
      intros x. autorewrite with covered. unfold in_range; simpl.
      assert ((r_begin r <= x < r_end a) <->
        (r_begin a <= x < r_end a) \/ (r_begin r <= x < r_end r)) by lia. tauto.
  - destruct (emplace_between base s l1 l2 r) as (s3 & -> & R & W); try done.
    eexists _, _. split_and!; [done..|]. intros x. autorewrite with covered. tauto.
Qed.

(** ** Lookup *)

Lemma split_at base l k :
  wf_ranges base l ->
  exists l1 l2, l = l1 ++ l2 /\ (forall r, r ∈ l1 -> r_begin r < k) /\
    (forall r, r ∈ l2 -> k <= r_begin r).
Proof.
  induction l as [|r l IH]; intros Hwf; [exists [], []; set_solver|].
  apply wf_ranges_cons in Hwf as (Hr & Hwf & Hs). destruct (decide (r_begin r < k)).
  - destruct (IH Hwf) as (l1 & l2 & -> & H1 & H2). exists (r :: l1), l2.
    split_and!; [done| |done]. intros q Hq. in_lists; [done|by apply H1].
  - exists [], (r :: l). split_and!; [done|set_solver|]. intros q Hq. in_lists; [lia|].
    specialize (Hs q Hq). unfold apart, inside in *. lia.
Qed.

(** The lookup the operations share: [lower_bound], stepped back when it missed.  It
    finds the last range that begins at or before the key, if there is one. *)
Lemma locate_Ok base s l k :
  wf_ranges base l -> os_rep s l ->
  let it := os_lower_bound s (fun r => r_begin r <? k) in
  let missed := match it with None => true | Some r => negb (r_begin r =? k) end in
  (exists l1 x l2, l = l1 ++ x :: l2 /\ (forall r, r ∈ l2 -> k < r_begin r) /\
     ((missed = false /\ it = Some x /\ r_begin x = k) \/
      (missed = true /\ it = head l2 /\ it <> os_begin s /\ os_prev s it = Ok (Some x) /\
       r_begin x < k))) \/
  (missed = true /\ it = head l /\ it = os_begin s /\ forall r, r ∈ l -> k < r_begin r).
Proof.
  intros Hwf Hs. destruct (split_at base l k Hwf) as (l1 & l2 & -> & H1 & H2).
  assert (E : os_lower_bound s (fun r => r_begin r <? k) = head l2).
  { apply (os_lower_bound_rep (lt:=r_lt) s l1 l2); [done|..]; apply Forall_forall; intros r Hr.
    - specialize (H1 r Hr). lia.
    - specialize (H2 r Hr). lia. }
  cbv zeta. rewrite E. apply wf_ranges_app in Hwf as (Hwf1 & Hwf & Hsep).
  destruct l2 as [|a l2]; cbn [head].
  - destruct l1 as [|x l1 _] using rev_ind.
    + right. simpl. rewrite (os_begin_rep (lt:=r_lt) _ _ Hs). set_solver.
    + left. exists l1, x, []. rewrite app_nil_r in *. split_and!; [done|set_solver|].
      right. split_and!; [done|done| |by apply (os_prev_end_rep (lt:=r_lt) _ _ _ Hs)|].
      * rewrite (os_begin_rep (lt:=r_lt) _ _ Hs). by destruct l1.
      * apply H1. set_solver.
  - apply wf_ranges_cons in Hwf as (Ha & _ & Hs2).
    assert (Hl2 : forall r, r ∈ l2 -> k < r_begin r).
    { intros r Hr. specialize (H2 a ltac:(set_solver)). specialize (Hs2 r Hr).
      unfold apart, inside in *. lia. }
    destruct (Z.eqb_spec (r_begin a) k) as [Ek|Ek]; runb.
    { left. exists l1, a, l2. split_and!; [done|done|]. by left. }
    assert (Hl : forall r, r ∈ a :: l2 -> k < r_begin r).
    { intros r Hr. specialize (H2 r Hr). in_lists; [lia|]. by apply Hl2. }
    destruct l1 as [|x l1 _] using rev_ind.
    + right. simpl. rewrite (os_begin_rep (lt:=r_lt) _ _ Hs). done.
    + left. exists l1, x, (a :: l2). rewrite <- app_assoc in *. split_and!; [done|done|].
      right. split_and!; [done|done| | |apply H1; set_solver].
      * rewrite (os_begin_rep (lt:=r_lt) _ _ Hs). intros Hh.
        assert (Hin : a ∈ l1 ++ [x]).
        { destruct l1; simpl in Hh; injection Hh as ->; set_solver. }
        specialize (H1 a Hin). specialize (H2 a ltac:(set_solver)). lia.
      * replace (l1 ++ [x] ++ a :: l2) with ((l1 ++ [x]) ++ a :: l2) in Hs
          by by rewrite <- app_assoc.
        rewrite (os_prev_rep (lt:=r_lt) _ _ _ _ Hs). by rewrite last_snoc.
Qed.

(** Which range covers an address at or after the located one begins. *)
Lemma covered_located base l1 x l2 k y :
  wf_ranges base (l1 ++ x :: l2) -> r_begin x <= y -> y <= k ->
  (forall r, r ∈ l2 -> k < r_begin r) -> covered (l1 ++ x :: l2) y <-> in_range x y.
Proof.
  intros Hwf Hx Hy H2. autorewrite with covered. split; [|tauto].
  intros [Hc|[Hc|Hc]]; [|done|]; apply covered_elem in Hc as (r & Hr & Hin).
  - apply wf_ranges_app in Hwf as (_ & _ & Hs). specialize (Hs r x Hr ltac:(set_solver)).
    unfold apart, in_range in *. lia.
  - specialize (H2 r Hr). unfold in_range in Hin. lia.
Qed.

Lemma not_covered_before l k : (forall r, r ∈ l -> k < r_begin r) -> ~ covered l k.
Proof.
  intros Hl Hc. apply covered_elem in Hc as (r & Hr & Hin). specialize (Hl r Hr).
  unfold in_range in Hin. lia.
Qed.

Lemma covered_inside base l x : wf_ranges base l -> covered l x -> in_range base x.
Proof.
  intros Hwf Hc. apply covered_elem in Hc as (r & Hr & Hin).
  pose proof (wf_ranges_inside _ _ _ Hwf Hr). unfold inside, in_range in *. lia.
Qed.

(** [is_allocated] decides membership in the set of allocated addresses. *)
Theorem is_allocated_correct (v : virtual_allocator T) (l : list range) (x : Z) :
  va_rep v l -> exists b, is_allocated v x = Ok b /\ (b = true <-> covered l x).
Proof.
  intros (Hb & Hwf & Hs). unfold is_allocated.
  destruct (r_contains (m_base_range v) x) eqn:Ex; runb.
  2: { exists false. split; [done|]. split; [done|]. intros Hc.
       apply r_contains_false in Ex. by eapply covered_inside in Hc. }
  unfold os_empty. rewrite (os_size_rep (lt:=r_lt) _ _ Hs).
  case_bool_decide as El.
  { exists false. split; [done|]. destruct l; [|done]. by rewrite covered_nil. }
  unfold r_lt_addr. cbv zeta.
  destruct (locate_Ok _ _ l x Hwf Hs) as [(l1 & q & l2 & -> & H2 & [(-> & -> & E)|
    (-> & _ & Hne & -> & E)])|(-> & _ & E & Hall)]; cbn [deref]; run.
  - exists (r_contains q x). split; [done|]. rewrite r_contains_spec.
    symmetry. eapply covered_located; [done|lia| |done]. lia.
  - rewrite bool_decide_eq_false_2 by done. exists (r_contains q x). split; [done|].
    rewrite r_contains_spec. symmetry. eapply covered_located; [done|lia| |done]. lia.
  - rewrite bool_decide_eq_true_2 by done. exists false. split; [done|]. split; [done|].
    intros Hc. by apply not_covered_before in Hc.
Qed.

(** ** Allocation by length *)

(** [a] is an aligned start of [len] free bytes inside the managed range. *)
Definition placement (base : range) (l : list range) (len al a : Z) : Prop :=
  a mod al = 0 /\ r_begin base <= a /\ a + len <= r_end base /\
  forall x, a <= x < a + len -> ~ covered l x.

(** The aligned part of a hole: the code's test decides whether it is long enough. *)
Lemma hole_fit lo hi al len :
  0 <= lo <= hi -> hi < W64 -> 0 < al < W64 -> 0 < len ->
  exists p, aligned_to (Range lo hi) al = Ok p /\
    ((negb (r_valid p) || (r_length p <? len) = true /\
        forall a, lo <= a -> a mod al = 0 -> hi < a + len) \/
     (negb (r_valid p) || (r_length p <? len) = false /\
        exists a, set_length p len = Range a (a + len) /\ lo <= a /\ a mod al = 0 /\
          a + len <= hi /\ forall a', lo <= a' -> a' mod al = 0 -> a <= a')).
Proof.
  intros Hlo Hhi Hal Hlen.
  destruct (aligned_to_cases (Range lo hi) al) as (Hm & Hb & E); [split; simpl; lia|done|].
  cbn [r_begin r_end] in *. set (b := lo + - lo mod al) in *.
  assert (Hleast : forall a', lo <= a' -> a' mod al = 0 -> b <= a').
  { intros x Hx Hx'. apply Z.mod_divide in Hm as [p Hp]; [|lia].
    apply Z.mod_divide in Hx' as [q Hq]; [|lia].
    assert (p < q + 1) by (apply (Z.mul_lt_mono_pos_r al); lia). nia. }
  eexists; split; [exact E|]. destruct (Z.ltb_spec b hi) as [Hlt|Hge].
  - rewrite r_length_wf by (split; simpl; lia). unfold r_valid, r_empty. cbn [r_begin r_end].
    replace (b =? hi) with false by lia. runb.
    destruct (Z.ltb_spec (hi - b) len); [left|right]; (split; [done|]).
    + intros a Ha Ham. specialize (Hleast a Ha Ham). lia.
    + exists b. unfold set_length. cbn [r_begin]. rewrite wrap64_small by (unfold is_u64; lia).
      split_and!; try done; lia.
  - left. split; [done|]. intros a Ha Ham. specialize (Hleast a Ha Ham). lia.
Qed.

(** A free block that does not fit before a range starts after it. *)
Lemma placement_after base l len al a r :
  r ∈ l -> r_begin r < r_end r -> placement base l len al a -> 0 < len ->
  r_begin r < a + len -> r_end r <= a.
Proof.
  intros Hr Hne (_ & _ & _ & Hfree) Hlen Hlt. destruct (decide (r_end r <= a)); [done|].
  exfalso. apply (Hfree (Z.max a (r_begin r))); [lia|].
  apply covered_elem. exists r. split; [done|]. unfold in_range. lia.
Qed.

(** The ranges on both sides of a split at [a], [a + len]. *)
Definition splits (l1 l2 : list range) (a len : Z) : Prop :=
  (forall r, r ∈ l1 -> r_end r <= a) /\ (forall r, r ∈ l2 -> a + len <= r_begin r).

Lemma splits_placement base l1 l2 len al a :
  splits l1 l2 a len -> a mod al = 0 -> r_begin base <= a -> a + len <= r_end base ->
  placement base (l1 ++ l2) len al a.
Proof.
  intros [S1 S2] Hm Hb He. split_and!; try done. intros x Hx Hc.
  apply covered_elem in Hc as (r & Hr & Hin). unfold in_range in Hin.
  in_lists; [specialize (S1 r Hr)|specialize (S2 r Hr)]; lia.
Qed.

Lemma find_gap_Ok base s al len fuel l1 l2 gap :
  wf_range base -> wf_ranges base (l1 ++ l2) -> os_rep s (l1 ++ l2) ->
  0 < al < W64 -> 0 < len -> (length l2 < fuel)%nat ->
  r_begin base <= gap <= r_end base ->
  (forall r, r ∈ l1 -> r_end r <= gap) -> (forall r, r ∈ l2 -> gap <= r_begin r) ->
  (forall a, placement base (l1 ++ l2) len al a -> gap <= a) ->
  exists l1' l2' gap' r,
    find_gap fuel s (last l1) (head l2) gap len al = Ok (last l1', head l2', gap', r) /\
    l1 ++ l2 = l1' ++ l2' /\
    ((r = null_range /\ l2' = [] /\ r_begin base <= gap' <= r_end base /\
        (forall r, r ∈ l1' -> r_end r <= gap') /\
        (forall a, placement base (l1 ++ l2) len al a -> gap' <= a)) \/
     (exists a, r = Range a (a + len) /\ splits l1' l2' a len /\
        placement base (l1 ++ l2) len al a /\
        forall a', placement base (l1 ++ l2) len al a' -> a <= a')).
Proof.
  intros Hbase Hwf Hs Hal Hlen. revert l1 l2 gap Hwf Hs.
  induction fuel as [|fuel IH]; intros l1 l2 gap Hwf Hs Hf Hg H1 H2 Hp; [lia|].
  destruct l2 as [|r l2]; simpl.
  { exists l1, [], gap, null_range. split; [done|]. split; [done|]. left. split_and!; done || lia. }
  assert (Hr : inside base r) by (eapply wf_ranges_inside; [exact Hwf|set_solver]).
  specialize (H2 r ltac:(set_solver)) as Hgr. unfold from_two_pointers.
  replace (gap <=? r_begin r) with true by lia. run. unfold inside, wf_range in *.
  destruct (hole_fit gap (r_begin r) al len) as (p & -> & Hfit); try lia. run.
  destruct Hfit as [[-> Hno]|[-> (a & -> & Ha1 & Ha2 & Ha3 & Ha4)]].
  - rewrite (os_next_rep (lt:=r_lt) _ _ _ _ Hs). run.
    replace (l1 ++ r :: l2) with ((l1 ++ [r]) ++ l2) in * by by rewrite <- app_assoc.
    replace (Some r) with (last (l1 ++ [r])) by apply last_snoc.
    apply (IH (l1 ++ [r]) l2 (r_end r)); try done; try lia.
    + simpl in Hf. lia.
    + intros q Hq. in_lists; [|lia]. specialize (H1 q Hq). lia.
    + intros q Hq. apply wf_ranges_app in Hwf as (_ & _ & Hsep).
      specialize (Hsep r q ltac:(set_solver) Hq). unfold apart in *. lia.
    + intros a Ha. apply (placement_after base ((l1 ++ [r]) ++ l2) len al a r
        ltac:(set_solver) ltac:(lia) Ha Hlen).
      apply Hno; [by apply Hp|apply Ha].
  - exists l1, (r :: l2), gap, (Range a (a + len)). split; [done|]. split; [done|]. right.
    assert (Hsp : splits l1 (r :: l2) a len).
    { split; intros q Hq; [specialize (H1 q Hq); lia|]. in_lists; [lia|].
      apply wf_ranges_app in Hwf as (_ & Hwf & _). apply wf_ranges_cons in Hwf as (_ & _ & Hsep).
      specialize (Hsep q Hq). unfold apart in *. lia. }
    exists a. split; [done|]. split; [done|]. split.
    + apply splits_placement; try done; lia.
    + intros a' Ha'. apply Ha4; [by apply Hp|]. by destruct Ha'.
Qed.

(** What an allocation of [len] bytes at [al] gives: the lowest placement, marked
    allocated, or a panic because there is none. *)
Definition allocation_spec (v : virtual_allocator T) (l : list range) (len al : Z)
    (o : result (range * virtual_allocator T)) : Prop :=
  (exists a v' l', o = Ok (Range a (a + len), v') /\
     placement (m_base_range v) l len al a /\
     (forall a', placement (m_base_range v) l len al a' -> a <= a') /\
     m_base_range v' = m_base_range v /\ va_rep v' l' /\
     forall x, covered l' x <-> covered l x \/ a <= x < a + len) \/
  (o = Fault KernelPanic /\ forall a, ~ placement (m_base_range v) l len al a).

Lemma merge_allocation v l1 l2 len al a :
  va_rep v (l1 ++ l2) -> 0 < len -> splits l1 l2 a len ->
  placement (m_base_range v) (l1 ++ l2) len al a ->
  (forall a', placement (m_base_range v) (l1 ++ l2) len al a' -> a <= a') ->
  allocation_spec v (l1 ++ l2) len al
    (s ← merge_and_emplace (m_allocated_ranges v) (last l1) (head l2) (Range a (a + len));
     mret (Range a (a + len), VirtualAllocator (m_base_range v) s)).
Proof.
  intros (Hb & Hwf & Hs) Hlen [S1 S2] Hp Hmin. left.
  destruct (merge_and_emplace_Ok (m_base_range v) _ l1 l2 (Range a (a + len)) Hs Hwf)
    as (s' & l' & -> & Hs' & Hwf' & Hc).
  - destruct Hp as (_ & ? & ? & _). unfold inside; simpl; lia.
  - done.
  - done.
  - exists a, (VirtualAllocator (m_base_range v) s'), l'. run. by split_and!.
Qed.

Lemma first_allocation v len al :
  va_rep v [] -> 0 < len -> 0 < al < W64 ->
  allocation_spec v [] len al
    (allocated_range ← aligned_to (m_base_range v) al;
     _ ← panic_if (negb (r_valid allocated_range) || (r_length allocated_range <? len));
     s ← os_emplace (m_allocated_ranges v) (set_length allocated_range len);
     mret (set_length allocated_range len, VirtualAllocator (m_base_range v) s)).
Proof.
  intros (Hb & Hwf & Hs) Hlen Hal. destruct (m_base_range v) as [lo hi] eqn:Ev.
  destruct Hb as [Hb1 Hb2]. cbn [r_begin r_end] in *.
  destruct (hole_fit lo hi al len) as (p & -> & Hfit); [done|done|done|done|]. run.
  destruct Hfit as [[-> Hno]|[-> (a & -> & Ha1 & Ha2 & Ha3 & Ha4)]]; run.
  - right. split; [done|]. rewrite Ev. intros a (Hm & Hlo & Hhi & _). simpl in *.
    specialize (Hno a Hlo Hm). lia.
  - left. destruct (emplace_between (Range lo hi) _ [] [] (Range a (a + len)) Hs Hwf)
      as (s' & -> & Hs' & Hwf'); [unfold inside; simpl; lia|set_solver..|]. run.
    exists a, (VirtualAllocator (Range lo hi) s'), [Range a (a + len)]. rewrite Ev. simpl.
    split_and!; try done.
    + split_and!; simpl; try done. intros x _ Hx. by apply covered_nil in Hx.
    + intros a' (Hm & Hlo & _). by apply Ha4.
    + intros x. autorewrite with covered. unfold in_range; simpl. tauto.
Qed.

Lemma gap_allocation v l len al :
  va_rep v l -> l <> [] -> 0 < len -> 0 < al < W64 ->
  allocation_spec v l len al
    ('(range_before, range_after, gap_begin, allocated_range) ←
      find_gap (S (os_size (m_allocated_ranges v))) (m_allocated_ranges v) None
        (os_begin (m_allocated_ranges v)) (r_begin (m_base_range v)) len al;
    '(range_before, allocated_range) ←
      (if r_empty allocated_range then
         gap ← from_two_pointers gap_begin (r_end (m_base_range v));
         potential_range ← aligned_to gap al;
         _ ← panic_if (negb (r_valid potential_range) || (r_length potential_range <? len));
         range_before ← os_prev (m_allocated_ranges v) None;
         mret (range_before, set_length potential_range len)
       else mret (range_before, allocated_range));
    s ← merge_and_emplace (m_allocated_ranges v) range_before range_after allocated_range;
    mret (allocated_range, VirtualAllocator (m_base_range v) s)).
Proof.
  intros Hrep Hne Hlen Hal. pose proof Hrep as (Hb & Hwf & Hs).
  rewrite (os_size_rep (lt:=r_lt) _ _ Hs), (os_begin_rep (lt:=r_lt) _ _ Hs).
  destruct (find_gap_Ok (m_base_range v) (m_allocated_ranges v) al len (S (length l)) [] l
    (r_begin (m_base_range v)) Hb Hwf Hs Hal Hlen) as (l1 & l2 & gap & r & E & El & Hr);
    [lia|unfold wf_range in Hb; lia|set_solver| |by intros a (_ & ? & _)|].
  { intros r Hr. by destruct (wf_ranges_inside _ _ _ Hwf Hr) as (_ & ? & _). }
  cbn [last] in E. rewrite E. simpl in El. subst l. run.
  destruct Hr as [(-> & -> & Hg & H1 & Hp)|(a & -> & Hsp & Hp & Hmin)].
  - cbn [r_empty null_range r_begin r_end Z.eqb]. unfold from_two_pointers.
    replace (gap <=? r_end (m_base_range v)) with true by lia. run. destruct Hb as [Hb1 Hb2].
    destruct (hole_fit gap (r_end (m_base_range v)) al len) as (p & -> & Hfit);
      [lia|done..|]. run. rewrite app_nil_r in *.
    destruct Hfit as [[-> Hno]|[-> (a & -> & Ha1 & Ha2 & Ha3 & Ha4)]]; run.
    + right. split; [done|]. intros a Ha. pose proof (Hp a Ha) as Hga.
      destruct Ha as (Hm & _ & Hhi & _). specialize (Hno a Hga Hm). lia.
    + destruct l1 as [|b l1 _] using rev_ind; [done|].
      rewrite (os_prev_end_rep (lt:=r_lt) _ _ _ Hs). run.
      rewrite <- (app_nil_r (l1 ++ [b])) in Hrep |- *.
      replace (Some b) with (last (l1 ++ [b])) by apply last_snoc.
      assert (Hsp : splits (l1 ++ [b]) [] a len).
      { split; [intros q Hq; specialize (H1 q Hq); lia|set_solver]. }
      apply (merge_allocation v (l1 ++ [b]) [] len al a); try done.
      * apply splits_placement; try done; lia.
      * intros a' Ha'. apply Ha4; [apply Hp; by rewrite app_nil_r in Ha'|by destruct Ha'].
  - replace (r_empty (Range a (a + len))) with false by (unfold r_empty; simpl; lia). run.
    by apply merge_allocation.
Qed.

(** The mask of the alignment assertion. *)
Lemma page_mask x : Z.land x (lnot64 alignment_mask) = x mod page_size.
Proof. by apply (land_low 12). Qed.

(** C32: [allocate(length, alignment)] is first fit: it returns the lowest aligned free
    block of the managed range that holds the length rounded up to pages, marks exactly
    those addresses allocated and keeps the invariant (ranges inside the base range,
    ascending, disjoint and merged when they touch); it panics exactly when there is no
    such block, and on a length whose rounding overflows. *)
Theorem va_allocate_correct (v : virtual_allocator T) (l : list range) (len al : Z) :
  va_rep v l -> 0 < len < W64 -> is_u64 al ->
  let al' := if al <? page_size then page_size else al in
  al' mod page_size = 0 ->
  (len <= W64 - page_size -> allocation_spec v l (round_up len) al' (va_allocate v len al)) /\
  (W64 - page_size < len -> va_allocate v len al = Fault KernelPanic).
Proof.
  intros Hrep Hlen Hal al' Hm. unfold va_allocate. replace (len =? 0) with false by lia. runb.
  fold al'. rewrite page_mask, Hm. cbn [Z.eqb]. run.
  assert (Hal' : 0 < al' < W64).
  { unfold is_u64, al', page_size in *. case_match; lia. }
  split; intros Hle.
  - destruct (round_up_bounds len) as (_ & Hr1 & Hr2); [lia|].
    replace (round_up len <? len) with false by lia. run.
    pose proof Hrep as (_ & _ & Hs).
    unfold os_empty. rewrite (os_size_rep (lt:=r_lt) _ _ Hs).
    destruct l as [|r l]; cbn [length].
    + rewrite bool_decide_eq_true_2 by done. apply first_allocation; [done|lia|done].
    + rewrite bool_decide_eq_false_2 by done.
      pose proof (gap_allocation v (r :: l) (round_up len) al' Hrep) as Hg.
      rewrite (os_size_rep (lt:=r_lt) _ _ Hs) in Hg. apply Hg; [done|lia|done].
  - replace (round_up len <? len) with true; [done|]. symmetry. apply Z.ltb_lt.
    rewrite round_up_eq by lia. unfold page_size in *.
    replace (len + (- len) mod 4096) with W64 by dlia. change (wrap64 W64) with 0. lia.
Qed.

(** ** Deallocation *)

(** What an allocated range covers outside a block it contains. *)
Lemma covered_without base l1 x l2 r y :
  wf_ranges base (l1 ++ x :: l2) -> r_begin x <= r_begin r < r_end r -> r_end r <= r_end x ->
  covered (l1 ++ x :: l2) y /\ ~ in_range r y <->
  covered l1 y \/ in_range (Range (r_begin x) (r_begin r)) y \/
    in_range (Range (r_end r) (r_end x)) y \/ covered l2 y.
Proof.
  intros Hwf Hb He. apply wf_ranges_app in Hwf as (W1 & W2 & Hsep).
  apply wf_ranges_cons in W2 as (Ix & W2 & Hsep2).
  autorewrite with covered. rewrite !covered_elem. unfold in_range; simpl.
  split; [intros [[?|[?|?]] ?]; [tauto|lia|tauto]|].
  intros [(a & Ha & Hin)|[?|[?|(b & Hb' & Hin)]]]; try (split; lia).
  - split; [eauto|]. specialize (Hsep a x Ha ltac:(set_solver)). unfold apart in *. lia.
  - split; [eauto|]. specialize (Hsep2 b Hb'). unfold apart in Hsep2. lia.
Qed.

(** Putting back a piece, if it is not empty. *)
Lemma put_back base s l1 l2 p :
  os_rep s (l1 ++ l2) -> wf_ranges base (l1 ++ l2) ->
  r_begin base <= r_begin p <= r_end p -> r_end p <= r_end base ->
  (forall a, a ∈ l1 -> r_end a < r_begin p) -> (forall b, b ∈ l2 -> r_end p < r_begin b) ->
  exists s' l', (if r_valid p then os_emplace s p else mret s) = Ok s' /\
    os_rep s' (l1 ++ l' ++ l2) /\ wf_ranges base (l1 ++ l' ++ l2) /\
    (l' = [] \/ l' = [p]) /\ forall y, covered l' y <-> in_range p y.
Proof.
  intros Hs Hwf Hp Hpe H1 H2. unfold r_valid, r_empty.
  destruct (Z.eqb_spec (r_begin p) (r_end p)) as [E|E]; runb.
  - exists s, []. split_and!; [done..|by left|]. intros y. rewrite covered_nil.
    unfold in_range. lia.
  - destruct (emplace_between base s l1 l2 p) as (s' & -> & Hs' & Hwf'); try done.
    { unfold inside. lia. }
    exists s', [p]. split_and!; [done..|by right|]. intros y. autorewrite with covered. tauto.
Qed.

Lemma carve_Ok base s l1 x l2 r :
  os_rep s (l1 ++ x :: l2) -> wf_ranges base (l1 ++ x :: l2) ->
  r_begin x <= r_begin r < r_end r -> r_end r <= r_end x ->
  exists s' l', carve s (Some x) r = Ok s' /\ os_rep s' l' /\ wf_ranges base l' /\
    forall y, covered l' y <-> covered (l1 ++ x :: l2) y /\ ~ in_range r y.
Proof.
  intros Hs Hwf Hb He. unfold carve, clipped_with_end, clipped_with_begin, from_two_pointers.
  replace (r_contains_range x r) with true by (unfold r_contains_range, r_contains; blia).
  cbn [deref]. runb.
  replace (r_contains x (r_begin r) || _) with true by (unfold r_contains; blia).
  replace (r_contains x (r_end r) || _) with true by (unfold r_contains; blia).
  replace (r_begin x <=? r_begin r) with true by lia.
  replace (r_end r <=? r_end x) with true by lia. run.
  destruct (remove_Ok _ _ _ _ Hs) as (s1 & -> & Hs1). run.
  pose proof Hwf as Hwf'. apply wf_ranges_app in Hwf' as (W1 & W2 & Hsep).
  apply wf_ranges_cons in W2 as (Ix & W2 & Hsep2). unfold inside, apart in *.
  assert (H1 : forall a, a ∈ l1 -> r_end a < r_begin x) by (intros; apply Hsep; set_solver).
  destruct (put_back base s1 l1 l2 (Range (r_begin x) (r_begin r)) Hs1)
    as (s2 & p1 & -> & Hs2 & Hwf2 & Hp1 & Hc1); simpl; try lia.
  { apply wf_ranges_app. split_and!; [done..|]. intros; apply Hsep; set_solver. }
  { done. }
  { intros b Hb'. specialize (Hsep2 b Hb'). lia. }
  run. rewrite app_assoc in *.
  destruct (put_back base s2 (l1 ++ p1) l2 (Range (r_end r) (r_end x)) Hs2 Hwf2)
    as (s3 & p2 & -> & Hs3 & Hwf3 & _ & Hc2); simpl; try lia.
  { intros a Ha. apply elem_of_app in Ha as [Ha|Ha]; [specialize (H1 a Ha); lia|].
    destruct Hp1 as [->| ->]; in_lists. simpl. lia. }
  { done. }
  exists s3, ((l1 ++ p1) ++ p2 ++ l2). split_and!; [done..|]. intros y.
  rewrite (covered_without base) by done. autorewrite with covered. rewrite Hc1, Hc2. tauto.
Qed.

Lemma va_contains_range_spec (v : virtual_allocator T) r :
  wf_range (m_base_range v) -> 0 <= r_begin r < r_end r -> r_end r < W64 ->
  va_contains_range v r = true <-> inside (m_base_range v) r.
Proof.
  intros [Hb1 Hb2] Hr He. unfold va_contains_range, r_contains, inside.
  rewrite wrap64_small by (unfold is_u64; lia). split.
  - intros E. bool_to_prop. lia.
  - intros Hi. blia.
Qed.

(** A range whose last address is covered by the range that covers its first one. *)
Lemma contains_range_spec x r :
  r_begin r < r_end r ->
  r_contains_range x r = true <-> r_begin x <= r_begin r /\ r_end r <= r_end x.
Proof. intros Hr. unfold r_contains_range, r_contains. lia. Qed.

(** The address just after a range is free: ranges that touch are merged. *)
Lemma end_not_covered base l1 x l2 :
  wf_ranges base (l1 ++ x :: l2) -> ~ covered (l1 ++ x :: l2) (r_end x).
Proof.
  intros Hwf Hc.
  assert (Hx : inside base x) by (eapply wf_ranges_inside; [exact Hwf|set_solver]).
  apply (covered_left base) in Hc; [|done|unfold inside in *; lia].
  apply wf_ranges_app in Hwf as (_ & Hwf & _). apply wf_ranges_cons in Hwf as (_ & _ & Hsep).
  apply covered_cons in Hc as [Hc|Hc]; [unfold in_range in Hc; lia|].
  apply covered_elem in Hc as (q & Hq & Hqin). specialize (Hsep q Hq).
  unfold apart, in_range in *. lia.
Qed.

(** Whether the range located for a block holds all of it. *)
Lemma located_block base l1 x l2 r :
  wf_ranges base (l1 ++ x :: l2) -> r_begin r < r_end r -> r_begin x <= r_begin r ->
  (forall q, q ∈ l2 -> r_begin r < r_begin q) ->
  (r_end r <= r_end x /\ forall y, in_range r y -> covered (l1 ++ x :: l2) y) \/
  (r_contains_range x r = false /\ exists y, in_range r y /\ ~ covered (l1 ++ x :: l2) y).
Proof.
  intros Hwf Hr Hx H2. destruct (r_contains_range x r) eqn:Ex; [left|right].
  - apply contains_range_spec in Ex; [|lia]. split; [lia|]. intros y Hy.
    autorewrite with covered. unfold in_range in *. right. left. lia.
  - split; [done|]. apply not_true_iff_false in Ex. rewrite contains_range_spec in Ex by lia.
    destruct (decide (r_begin r < r_end x)).
    + exists (r_end x). split; [unfold in_range; lia|]. by eapply end_not_covered.
    + exists (r_begin r). split; [unfold in_range; lia|].
      rewrite (covered_located base l1 x l2 (r_begin r)) by (done || lia).
      unfold in_range. lia.
Qed.

Lemma not_inside_uncovered base l r :
  wf_ranges base l -> r_begin r < r_end r -> ~ inside base r ->
  exists y, in_range r y /\ ~ covered l y.
Proof.
  intros Hwf Hr Hni. destruct (decide (r_begin base <= r_begin r)).
  - exists (r_end r - 1). split; [unfold in_range; lia|]. intros Hc.
    eapply covered_inside in Hc; [|done]. unfold inside, in_range in *. lia.
  - exists (r_begin r). split; [unfold in_range; lia|]. intros Hc.
    eapply covered_inside in Hc; [|done]. unfold in_range in *. lia.
Qed.

(** C37: [deallocate] of a page-aligned, non-empty range succeeds exactly when every
    address of the range is allocated; it then frees those addresses and no others and
    keeps the invariant, splitting an allocated range when its middle is freed.
    Otherwise it panics. *)
Theorem va_deallocate_correct (v : virtual_allocator T) (l : list range) (r : range) :
  va_rep v l -> 0 <= r_begin r < r_end r -> r_end r < W64 ->
  r_begin r mod page_size = 0 -> r_end r mod page_size = 0 ->
  (exists v' l', va_deallocate v r = Ok v' /\ m_base_range v' = m_base_range v /\
     va_rep v' l' /\ (forall x, in_range r x -> covered l x) /\
     forall x, covered l' x <-> covered l x /\ ~ in_range r x) \/
  (va_deallocate v r = Fault KernelPanic /\ exists x, in_range r x /\ ~ covered l x).
Proof.
  intros (Hb & Hwf & Hs) Hr He Hm Hm'. unfold va_deallocate, is_aligned.
  rewrite r_length_wf by (split; lia). rewrite Hm.
  replace ((r_end r - r_begin r) mod page_size) with 0 by (unfold page_size in *; dlia).
  cbn [Z.eqb]. run.
  destruct (va_contains_range v r) eqn:Ec; runb.
  2: { right. split; [done|]. eapply not_inside_uncovered; [done|lia|].
       apply not_true_iff_false in Ec. by rewrite va_contains_range_spec in Ec. }
  unfold os_empty. rewrite (os_size_rep (lt:=r_lt) _ _ Hs).
  destruct (bool_decide_reflect (length l = 0%nat)) as [El|El]; run.
  { right. split; [done|]. exists (r_begin r). split; [unfold in_range; lia|].
    destruct l; [|done]. intros Hc. by apply covered_nil in Hc. }
  unfold r_lt. cbv zeta.
  assert (Hgo : forall l1 x l2, l = l1 ++ x :: l2 -> r_begin x <= r_begin r ->
    (forall q, q ∈ l2 -> r_begin r < r_begin q) ->
    (exists s' l', carve (m_allocated_ranges v) (Some x) r = Ok s' /\ os_rep s' l' /\
       wf_ranges (m_base_range v) l' /\ (forall y, in_range r y -> covered l y) /\
       forall y, covered l' y <-> covered l y /\ ~ in_range r y) \/
    (carve (m_allocated_ranges v) (Some x) r = Fault KernelPanic /\
       exists y, in_range r y /\ ~ covered l y)).
  { intros l1 x l2 -> Hx H2.
    destruct (located_block _ l1 x l2 r Hwf ltac:(lia) Hx H2) as [[Hle Hall]|[E Hun]].
    - left. destruct (carve_Ok _ _ l1 x l2 r Hs Hwf ltac:(lia) Hle)
        as (s' & l' & E & Hs' & Hwf' & Hc). exists s', l'. by split_and!.
    - right. unfold carve. rewrite E. by runb. }
  destruct (locate_Ok _ _ l (r_begin r) Hwf Hs) as [(l1 & x & l2 & El' & H2 & Hx)|
    (-> & _ & E & Hall)].
  - assert (Hx' : r_begin x <= r_begin r) by (destruct Hx as [(_ & _ & ?)|(_ & _ & _ & _ & ?)]; lia).
    destruct Hx as [(-> & -> & E)|(-> & _ & Hne & -> & E)];
      rewrite ?(bool_decide_eq_false_2 _ Hne); run;
      (destruct (Hgo l1 x l2 El' Hx' H2) as [(s' & l' & -> & Hs' & Hwf' & Hall & Hc)|[-> Hun]]; run;
       [left; eexists _, l'; by split_and!|by right]).
  - rewrite bool_decide_eq_true_2 by done. run. right. split; [done|].
    exists (r_begin r). split; [unfold in_range; lia|]. by apply not_covered_before.
Qed.

(** ** Allocation of a given range *)

Lemma neighbours_Ok base s l r :
  wf_ranges base l -> os_rep s l ->
  exists l1 l2, l = l1 ++ l2 /\ neighbours s r = Ok (last l1, head l2) /\
    (forall q, q ∈ l1 -> r_begin q <= r_begin r) /\ (forall q, q ∈ l2 -> r_begin r < r_begin q).
Proof.
  intros Hwf Hs. unfold neighbours, r_lt. cbv zeta.
  destruct (locate_Ok base s l (r_begin r) Hwf Hs) as [(l1 & x & l2 & -> & H2 & Hx)|
    (-> & E & Eb & Hall)].
  - assert (Hx' : r_begin x <= r_begin r) by (destruct Hx as [(_ & _ & ?)|(_ & _ & _ & _ & ?)]; lia).
    exists (l1 ++ [x]), l2. split; [by rewrite <- app_assoc|]. rewrite last_snoc. split.
    + destruct Hx as [(-> & -> & E)|(-> & E & Hne & Ep & E')].
      * by rewrite (os_next_rep (lt:=r_lt) _ _ _ _ Hs).
      * rewrite bool_decide_eq_true_2, Ep by done. run. by rewrite E.
    + split; [|done]. intros q Hq. apply elem_of_app in Hq as [Hq|Hq]; in_lists; [|lia].
      apply wf_ranges_app in Hwf as (W1 & _ & Hsep). specialize (Hsep q x Hq ltac:(set_solver)).
      pose proof (wf_ranges_inside _ _ _ W1 Hq). unfold apart, inside in *. lia.
  - exists [], l. rewrite bool_decide_eq_false_2 by naive_solver. rewrite E. set_solver.
Qed.

(** The page-aligned cover of a range, the block [allocate(Range)] takes. *)
Definition page_cover (r : range) : range :=
  Range (round_down (r_begin r)) (r_end r + (- r_end r) mod page_size).

Lemma page_cover_Ok base r :
  wf_range base -> r_begin base mod page_size = 0 -> r_end base mod page_size = 0 ->
  inside base r ->
  let b := round_down (r_begin r) in
  range_make b (round_up ((r_length r +! r_begin r) -! b)) = Ok (page_cover r) /\
  inside base (page_cover r).
Proof.
  intros [Hb1 Hb2] Ha Ha' (Hr1 & Hr2 & Hr3) b.
  assert (Eb : b = r_begin r - r_begin r mod page_size)
    by (apply round_down_eq; unfold is_u64; lia).
  assert (Hmod : 0 <= r_begin r mod page_size < page_size) by (apply Z.mod_pos_bound; done).
  assert (Hbb : r_begin base <= b) by (unfold page_size in *; dlia).
  assert (Hee : r_end r + (- r_end r) mod page_size <= r_end base) by (unfold page_size in *; dlia).
  rewrite r_length_wf by (split; lia).
  rewrite (wrap64_small (r_end r - _ + _)) by (unfold is_u64; lia).
  rewrite (wrap64_small (r_end r - _ + _ - _)) by (unfold is_u64; lia).
  rewrite round_up_eq by lia.
  assert (E : b + (r_end r - r_begin r + r_begin r - b +
    (- (r_end r - r_begin r + r_begin r - b)) mod page_size)
    = r_end r + (- r_end r) mod page_size) by (unfold page_size in *; dlia).
  pose proof (Z.mod_pos_bound (- (r_end r - r_begin r + r_begin r - b)) page_size ltac:(done)).
  rewrite wrap64_small by (unfold is_u64; lia). split.
  - apply range_make_Ok; [unfold is_u64; lia..|]. rewrite E. split; [lia|done].
  - unfold inside, page_cover; simpl. fold b.
    pose proof (Z.mod_pos_bound (- r_end r) page_size ltac:(done)). lia.
Qed.

(** The overlap tests of [allocate(Range)]. *)
Definition taken (before after : option range) (r : range) : bool :=
  match after with Some a => r_contains a (r_end r -! 1) | None => false end ||
  match before with
  | Some x => (r_begin x =? r_begin r) || r_contains x (r_begin r)
  | None => false
  end.

Lemma taken_spec base l1 l2 r :
  wf_range base -> wf_ranges base (l1 ++ l2) -> inside base r ->
  (forall q, q ∈ l1 -> r_begin q <= r_begin r) -> (forall q, q ∈ l2 -> r_begin r < r_begin q) ->
  (forall q, q ∈ l1 ++ l2 -> ~ (r_begin r < r_begin q /\ r_end q < r_end r)) ->
  taken (last l1) (head l2) r = true <-> exists x, in_range r x /\ covered (l1 ++ l2) x.
Proof.
  intros [Hb1 Hb2] Hwf (Ir1 & Ir2 & Ir3) H1 H2 Hno. unfold taken.
  rewrite orb_true_iff. rewrite wrap64_small by (unfold is_u64; lia). split.
  - intros [E|E].
    + destruct l2 as [|a l2]; [done|]. simpl in E. apply r_contains_spec in E.
      exists (r_end r - 1). split; [unfold in_range in *; lia|]. autorewrite with covered. tauto.
    + destruct l1 as [|x l1 _] using rev_ind; [done|]. rewrite last_snoc in E.
      exists (r_begin r). split; [unfold in_range; lia|]. autorewrite with covered.
      left. right. left. apply wf_ranges_app in Hwf as (Hwf & _).
      pose proof (wf_ranges_inside _ _ x Hwf ltac:(set_solver)) as Ix.
      unfold inside, in_range, r_contains in *. lia.
  - intros (y & Hy & Hc). apply covered_app in Hc as [Hc|Hc]; apply covered_elem in Hc as (q & Hq & Hin);
      unfold in_range in *.
    + right. destruct l1 as [|x l1 _] using rev_ind; [set_solver|]. rewrite last_snoc.
      apply wf_ranges_app in Hwf as (Hwf & _). apply wf_ranges_app in Hwf as (_ & _ & Hsep).
      pose proof (H1 x ltac:(set_solver)). unfold r_contains.
      in_lists; [|lia]. specialize (Hsep q x Hq ltac:(set_solver)). unfold apart in *. lia.
    + left. destruct l2 as [|a l2]; [set_solver|]. simpl.
      pose proof (Hno a ltac:(set_solver)). pose proof (H2 a ltac:(set_solver)).
      apply wf_ranges_app in Hwf as (_ & Hwf & _). apply wf_ranges_cons in Hwf as (Ia & _ & Hsep).
      unfold r_contains. in_lists; [lia|]. specialize (Hsep q Hq). unfold apart, inside in *. lia.
Qed.

(** [allocate(range)] on a page-aligned allocator takes the pages the range touches:
    if all their addresses are free it marks exactly them allocated, returns their range
    and keeps the invariant; if some are allocated it panics, provided that no allocated
    range lies strictly inside the requested pages. *)
Theorem va_allocate_range_correct (v : virtual_allocator T) (l : list range) (r : range) :
  va_rep v l -> r_begin (m_base_range v) mod page_size = 0 ->
  r_end (m_base_range v) mod page_size = 0 -> inside (m_base_range v) r ->
  (forall q, q ∈ l ->
     ~ (r_begin (page_cover r) < r_begin q /\ r_end q < r_end (page_cover r))) ->
  ((forall x, in_range (page_cover r) x -> ~ covered l x) ->
   exists v' l', va_allocate_range v r = Ok (page_cover r, v') /\
     m_base_range v' = m_base_range v /\ va_rep v' l' /\
     forall x, covered l' x <-> covered l x \/ in_range (page_cover r) x) /\
  ((exists x, in_range (page_cover r) x /\ covered l x) ->
   va_allocate_range v r = Fault KernelPanic).
Proof.
  intros (Hb & Hwf & Hs) Ha Ha' Hr Hno. unfold va_allocate_range.
  destruct (page_cover_Ok _ r Hb Ha Ha' Hr) as (E & Hi).
  replace (r_empty r) with false by (unfold r_empty, inside in *; blia).
  replace (va_contains_range v r) with true
    by (symmetry; apply va_contains_range_spec; unfold inside, wf_range in *; done || lia).
  runb. rewrite E. run. unfold os_empty. rewrite (os_size_rep (lt:=r_lt) _ _ Hs).
  destruct (bool_decide_reflect (length l = 0%nat)) as [El|El].
  { destruct l; [|done]. split; [|intros (x & _ & Hc); by apply covered_nil in Hc]. intros _.
    destruct (emplace_between _ _ [] [] (page_cover r) Hs Hwf Hi) as (s' & -> & Hs' & Hwf');
      [set_solver..|]. run. eexists _, [page_cover r]. split_and!; [done..|]. intros x.
    autorewrite with covered. tauto. }
  destruct (neighbours_Ok _ _ _ (page_cover r) Hwf Hs) as (l1 & l2 & -> & -> & H1 & H2). run.
  pose proof (taken_spec _ l1 l2 _ Hb Hwf Hi H1 H2 Hno) as Ht. unfold taken in Ht.
  split; intros Hx.
  - assert (Hf : taken (last l1) (head l2) (page_cover r) = false).
    { apply not_true_iff_false. unfold taken. rewrite Ht. naive_solver. }
    apply orb_false_iff in Hf as [-> ->]. run.
    destruct (merge_and_emplace_Ok _ _ l1 l2 (page_cover r) Hs Hwf Hi)
      as (s' & l' & -> & Hs' & Hwf' & Hc).
    + intros a Hal. specialize (H1 a Hal). destruct (decide (r_end a <= r_begin (page_cover r))); [done|].
      exfalso. apply (Hx (r_begin (page_cover r))); [unfold in_range, inside in *; lia|].
      apply covered_elem. exists a. split; [set_solver|]. unfold in_range. lia.
    + intros b Hbl. specialize (H2 b Hbl). destruct (decide (r_end (page_cover r) <= r_begin b)); [done|].
      exfalso. apply (Hx (r_begin b)); [unfold in_range; lia|].
      apply covered_elem. exists b. split; [set_solver|].
      pose proof (wf_ranges_inside _ _ b Hwf ltac:(set_solver)). unfold in_range, inside in *. lia.
    + run. eexists _, l'. by split_and!.
  - apply Ht in Hx. apply orb_true_iff in Hx as [->| ->]; run; [done|].
    by destruct (match head l2 with Some _ => _ | None => _ end).
Qed.
End refinement.

(** ** Witnesses: the sorted list as the set *)

#[local] Instance range_lt_order : StrictOrder r_lt.
Proof. split; unfold r_lt; intros; lia. Qed.

#[local] Instance range_set : OrderedSet (list range) range := sorted_list_set r_lt.
#[local] Instance range_set_laws : OrderedSetLaws (list range) range r_lt (sorted_list_rep r_lt) :=
  sorted_list_laws r_lt.

(** An allocator of 16 pages with pages 2 and 3 taken. *)
Definition va_example : virtual_allocator (list range) :=
  VirtualAllocator (Range 0x1000 0x11000) [Range 0x2000 0x4000].

Lemma va_example_rep :
  va_rep (os_rep:=sorted_list_rep r_lt) va_example [Range 0x2000 0x4000].
Proof.
  split; [unfold wf_range; simpl; lia|]. split.
  - split; [repeat constructor; unfold inside; simpl; lia|repeat constructor].
  - split; [done|repeat constructor].
Qed.

Lemma is_allocated_correct_witness :
  is_allocated va_example 0x3FFF = Ok true /\ covered [Range 0x2000 0x4000] 0x3FFF.
Proof.
  destruct (is_allocated_correct va_example _ 0x3FFF va_example_rep) as (b & E & Hb).
  split; [reflexivity|]. apply Hb. injection E as <-. reflexivity.
Defined.

Lemma va_allocate_correct_witness :
  va_allocate va_example 0x1800 0x2000 =
    Ok (Range 0x4000 0x6000, VirtualAllocator (Range 0x1000 0x11000) [Range 0x2000 0x6000]) /\
  placement (Range 0x1000 0x11000) [Range 0x2000 0x4000] 0x2000 0x2000 0x4000.
Proof.
  split; [reflexivity|].
  destruct (va_allocate_correct va_example _ 0x1800 0x2000 va_example_rep) as [Hs _];
    [lia|unfold is_u64; lia|reflexivity|].
  destruct Hs as [(a & v' & l' & E & Hp & _)|[E _]]; [unfold page_size; lia| |discriminate E].
  vm_compute in E. injection E as Ea _ _. subst a. exact Hp.
Defined.

Lemma va_deallocate_correct_witness :
  va_deallocate va_example (Range 0x3000 0x4000) =
    Ok (VirtualAllocator (Range 0x1000 0x11000) [Range 0x2000 0x3000]) /\
  covered [Range 0x2000 0x4000] 0x3000.
Proof.
  split; [reflexivity|].
  destruct (va_deallocate_correct va_example _ (Range 0x3000 0x4000) va_example_rep)
    as [(v' & l' & _ & _ & _ & Hc & _)|[E _]];
    [simpl; lia|simpl; lia|reflexivity|reflexivity| |discriminate E].
  apply Hc. unfold in_range; simpl; lia.
Defined.

Lemma va_allocate_range_correct_witness :
  va_allocate_range va_example (Range 0x4800 0x4900) =
    Ok (Range 0x4000 0x5000, VirtualAllocator (Range 0x1000 0x11000) [Range 0x2000 0x5000]) /\
  va_allocate_range va_example (Range 0x3800 0x4900) = Fault KernelPanic.
Proof.
  split; [reflexivity|].
  destruct (va_allocate_range_correct va_example _ (Range 0x3800 0x4900) va_example_rep)
    as [_ Hp]; [reflexivity|reflexivity|unfold inside; simpl; lia| |].
  - intros q Hq. in_lists. unfold page_cover; simpl.
    vm_compute. intros [E _]. discriminate E.
  - apply Hp. exists 0x3000. split; [vm_compute; split; [discriminate|reflexivity]|].
    apply covered_elem. exists (Range 0x2000 0x4000). split; [set_solver|].
    unfold in_range; simpl; lia.
Defined.

(** A range strictly inside the requested pages is not noticed: its addresses are
    allocated twice. *)
Example va_allocate_range_swallows :
  va_allocate_range va_example (Range 0x1000 0x5000) =
    Ok (Range 0x1000 0x5000,
        VirtualAllocator (Range 0x1000 0x11000) [Range 0x1000 0x5000; Range 0x2000 0x4000]).
Proof. reflexivity. Qed.
