(* ===== verification/HeapAllocator.v ===== *)
(** Kernel/Memory/HeapAllocator.{h,cpp}: the kernel heap.  A heap block is a header, a
    bitmap of two bits per chunk and the chunks; the two bits are an id, 0 for a free
    chunk, and an allocation is a run of chunks of one id, different from its neighbours'.
    The abstract state of a block is the list of its allocations (first chunk, number of
    chunks).  The bytes of the chunks are the clients' and are not modelled; the allocation
    and the refill spin locks make each operation atomic, and whether the refill lock was
    taken is an input. *)
From stdpp Require Import gmap.
From S2P Require Import Prelude Page.

(** ** Data *)

(** [Kernel/Memory/HeapAllocator.h:48-62] HeapBlockHeader
    [hb_address] is the address of the header; the bitmap follows it. *)
Record heap_block := HeapBlock {
  hb_address : Z;
  hb_data : Z;
  hb_chunk_count : Z;
  hb_chunk_size : Z;
  hb_free_chunks : Z;
  hb_bitmap : list Z;
}.

(** [Kernel/Memory/HeapAllocator.h:62-66] the static state: the list of blocks from
    s_heap_block, the atomic counter of free bytes and the statistics. *)
Record heap := Heap {
  heap_blocks : list heap_block;
  total_free_bytes : Z;
  calls_to_allocate : Z;
  calls_to_free : Z;
  is_being_refilled : bool;
}.

(** [Kernel/Memory/HeapAllocator.h:17-18] upper_allocation_threshold, chunk_size *)
Definition upper_allocation_threshold : Z := 2 * 1024 * 1024.
Definition default_chunk_size : Z := 32.

Definition sizeof_HeapBlockHeader : Z := 40.

(** [Kernel/Memory/HeapAllocator.h:57-61] end, which_bit, free_bytes, contains *)
Definition hb_end (b : heap_block) : Z := hb_data b +! (hb_chunk_count b *! hb_chunk_size b).
Definition which_bit (b : heap_block) (ptr : Z) : Z :=
  ((ptr - hb_data b) / hb_chunk_size b) *! 2.
Definition free_bytes (b : heap_block) : Z := hb_free_chunks b *! hb_chunk_size b.
Definition hb_contains (b : heap_block) (ptr : Z) : bool :=
  (ptr <=? hb_end b) && (ptr >=? hb_data b).

Definition set_bitmap (b : heap_block) (bm : list Z) (free : Z) : heap_block :=
  HeapBlock (hb_address b) (hb_data b) (hb_chunk_count b) (hb_chunk_size b) free bm.

(** ** The bitmap *)

(** The two bits at [bit_index] of a control byte. *)
Definition id_mask (bit_index : Z) : Z :=
  wrap8 (Z.lor (Z.shiftl 1 (bit_index + 1)) (Z.shiftl 1 bit_index)).

(** The id at bit [i], where it is in the byte, and its bit index there. *)
Definition scaled_id (bm : list Z) (i : Z) : result (Z * Z) :=
  let byte_index := i / 8 in
  let bit_index := i - 8 * byte_index in
  control_byte ← read_at bm byte_index;
  mret (Z.land control_byte (id_mask bit_index), bit_index).

Definition chunk_id (bm : list Z) (i : Z) : result Z :=
  '(id, bit_index) ← scaled_id bm i; mret (Z.shiftr id bit_index).

(** ** Feeding *)

(** [Kernel/Memory/HeapAllocator.cpp:52-102] feed_block *)
Definition feed_block (h : heap) (ptr size chunk_size_in_bytes : Z) : heap :=
  let pure_size := size -! sizeof_HeapBlockHeader in
  let chunk_count := pure_size / chunk_size_in_bytes in
  let bitmap_bytes := 1 +! ((chunk_count -! 1) / 4) in
  let data_ptr := ptr +! sizeof_HeapBlockHeader +! bitmap_bytes in
  let alignment_overhead :=
    if negb (data_ptr mod chunk_size_in_bytes =? 0)
    then chunk_size_in_bytes -! (data_ptr mod chunk_size_in_bytes) else 0 in
  let bitmap_bytes := bitmap_bytes +! alignment_overhead in
  let pure_size := pure_size -! bitmap_bytes in
  let pure_size :=
    if negb (pure_size mod chunk_size_in_bytes =? 0)
    then pure_size -! (pure_size mod chunk_size_in_bytes) else pure_size in
  let chunk_count := pure_size / chunk_size_in_bytes in
  let new_heap :=
    HeapBlock ptr (ptr +! sizeof_HeapBlockHeader +! bitmap_bytes) chunk_count
      chunk_size_in_bytes chunk_count (replicate (Z.to_nat bitmap_bytes) 0) in
  Heap (match heap_blocks h with
        | first :: rest => first :: new_heap :: rest
        | [] => [new_heap]
        end)
    (total_free_bytes h +! (chunk_count *! chunk_size_in_bytes))
    (calls_to_allocate h) (calls_to_free h) (is_being_refilled h).

(** [Kernel/Memory/HeapAllocator.cpp:104-128] refill_if_needed
    [region] is the range of the region MemoryManager::allocate_kernel_private_anywhere
    returns, [None] before the memory manager or the address space is initialized. *)
Definition refill_if_needed (region : option (Z * Z)) (h : heap) (bytes_left : Z)
  : result heap :=
  if bytes_left >? upper_allocation_threshold then mret h
  else
    let set b h := Heap (heap_blocks h) (total_free_bytes h) (calls_to_allocate h)
                     (calls_to_free h) b in
    let h := set true h in
    match region with
    | None => _ ← panic_if (bytes_left =? 0); mret h
    | Some (base, length) => mret (set false (feed_block h base length default_chunk_size))
    end.

(** ** Allocation *)

(** [Kernel/Memory/HeapAllocator.cpp:130-139] count_set_bits *)
Fixpoint count_set_bits (width : nat) (number : Z) : Z :=
  match width with
  | O => 0
  | S width => (if Z.odd number then 1 else 0) + count_set_bits width (Z.div2 number)
  end.

(** [Kernel/Memory/HeapAllocator.cpp:195-228] the search of a block: the bit where a run of
    [chunks_needed] free chunks starts, at an aligned offset. *)
Fixpoint find_chunks (fuel : nat) (b : heap_block)
    (chunks_needed bits_per_aligned_block aligned_offset : Z)
    (i current_free_block at_bit : Z) : result (option Z) :=
  match fuel with
  | O => Fault OutOfFuel
  | S fuel =>
    if i <? hb_chunk_count b *! 2 then
      '(allocation_id, _) ← scaled_id (hb_bitmap b) i;
      if allocation_id =? 0 then
        let current_free_block := current_free_block +! 1 in
        let at_bit := if current_free_block =? 1 then i else at_bit in
        if current_free_block =? chunks_needed then mret (Some at_bit)
        else find_chunks fuel b chunks_needed bits_per_aligned_block aligned_offset
               (i +! 2) current_free_block at_bit
      else
        let i :=
          if bits_per_aligned_block >? 2 then
            (Z.land ((i -! aligned_offset) +! bits_per_aligned_block)
               (lnot64 (bits_per_aligned_block -! 1)) +! aligned_offset) -! 2
          else i in
        find_chunks fuel b chunks_needed bits_per_aligned_block aligned_offset
          (i +! 2) 0 0
    else mret None
  end.

(** [Kernel/Memory/HeapAllocator.cpp:262-263] the smallest id the neighbours do not have *)
Fixpoint unique_id (fuel : nat) (left_neighbor right_neighbor this_id : Z) : result Z :=
  match fuel with
  | O => Fault OutOfFuel
  | S fuel =>
    if (this_id =? left_neighbor) || (this_id =? right_neighbor) || (this_id =? 0)
    then unique_id fuel left_neighbor right_neighbor (wrap8 (this_id + 1))
    else mret this_id
  end.

(** [Kernel/Memory/HeapAllocator.cpp:265-274] marking [chunks] chunks from bit [at_bit] *)
Fixpoint mark_chunks (chunks : nat) (bm : list Z) (at_bit this_id : Z) : result (list Z) :=
  match chunks with
  | O => mret bm
  | S chunks =>
    let byte_index := at_bit / 8 in
    let bit_index := at_bit - 8 * byte_index in
    control_byte ← read_at bm byte_index;
    bm ← write_at bm byte_index (wrap8 (Z.lor control_byte (Z.shiftl this_id bit_index)));
    mark_chunks chunks bm (at_bit +! 2) this_id
  end.

(** [Kernel/Memory/HeapAllocator.cpp:176-292] one turn of the allocation loop: what a block
    can give. *)
Definition block_allocate (b : heap_block) (bytes alignment : Z)
  : result (option (Z * Z * heap_block)) :=
  if free_bytes b <? bytes then mret None
  else
    let chunks_needed := 1 + (bytes - 1) / hb_chunk_size b in
    let bits_per_aligned_block := Z.max ((alignment / hb_chunk_size b) *! 2) 2 in
    let aligned_offset :=
      if alignment >? hb_chunk_size b then
        let rem := hb_data b mod alignment in
        if negb (rem =? 0) then ((alignment -! rem) / hb_chunk_size b) *! 2 else 0
      else 0 in
    found ← find_chunks (S (Z.to_nat (hb_chunk_count b))) b chunks_needed
              bits_per_aligned_block aligned_offset aligned_offset 0 0;
    match found with
    | None => mret None
    | Some at_bit =>
      left_neighbor ← (if negb (at_bit =? 0) then chunk_id (hb_bitmap b) (at_bit - 2)
                       else mret 0);
      right_neighbor ← (if at_bit / 2 <? hb_chunk_count b
                        then chunk_id (hb_bitmap b) (at_bit +! (chunks_needed *! 2))
                        else mret 0);
      this_id ← unique_id 4 left_neighbor right_neighbor 0;
      bm ← mark_chunks (Z.to_nat chunks_needed) (hb_bitmap b) at_bit this_id;
      mret (Some (hb_data b +! ((at_bit / 2) *! hb_chunk_size b),
                  chunks_needed *! hb_chunk_size b,
                  set_bitmap b bm (hb_free_chunks b -! chunks_needed)))
    end.

(** [Kernel/Memory/HeapAllocator.cpp:175-293] the allocation loop over the blocks *)
Fixpoint allocate_from (bs : list heap_block) (bytes alignment : Z)
  : result (option (Z * Z * list heap_block)) :=
  match bs with
  | [] => mret None
  | b :: bs =>
    r ← block_allocate b bytes alignment;
    match r with
    | Some (data, taken, b) => mret (Some (data, taken, b :: bs))
    | None =>
      r ← allocate_from bs bytes alignment;
      match r with
      | Some (data, taken, bs) => mret (Some (data, taken, b :: bs))
      | None => mret None
      end
    end
  end.

(** [Kernel/Memory/HeapAllocator.cpp:141-312] allocate
    [refill] is [None] when the refill lock is held by someone else, otherwise the region
    for [refill_if_needed]. *)
Definition heap_allocate (refill : option (option (Z * Z))) (h : heap) (bytes alignment : Z)
  : result (Z * heap) :=
  _ ← panic_if ((bytes =? 0) || (bytes >? upper_allocation_threshold));
  _ ← panic_if (negb (count_set_bits 64 alignment =? 1) || (alignment >? 4096));
  h ← match refill with
      | None => mret h
      | Some region =>
        let bytes_left_after_allocation :=
          if bytes >? total_free_bytes h then 0 else total_free_bytes h - bytes in
        refill_if_needed region h bytes_left_after_allocation
      end;
  r ← allocate_from (heap_blocks h) bytes alignment;
  match r with
  | None => Fault KernelPanic
  | Some (data, taken, bs) =>
    mret (data, Heap bs (total_free_bytes h -! taken) (calls_to_allocate h +! 1)
                  (calls_to_free h) (is_being_refilled h))
  end.

(** ** Freeing *)

(** [Kernel/Memory/HeapAllocator.cpp:344-376] clearing the run of chunks that starts at bit
    [i]: the new bitmap and the number of chunks freed. *)
Fixpoint free_chunks (fuel : nat) (bm : list Z) (i allocation_id freed : Z)
  : result (list Z * Z) :=
  match fuel with
  | O => Fault OutOfFuel
  | S fuel =>
    let byte_index := i / 8 in
    let bit_index := i - 8 * byte_index in
    control_byte ← read_at bm byte_index;
    if allocation_id =? 0 then
      let scaled_id := Z.land control_byte (id_mask bit_index) in
      let allocation_id := Z.shiftr scaled_id bit_index in
      _ ← panic_if (allocation_id =? 0);
      bm ← write_at bm byte_index (Z.lxor control_byte scaled_id);
      free_chunks fuel bm (i +! 2) allocation_id (freed + 1)
    else
      let scaled_id := Z.shiftl allocation_id bit_index in
      if negb (Z.land control_byte (Z.shiftl 3 bit_index) =? scaled_id) then mret (bm, freed)
      else
        bm ← write_at bm byte_index (Z.lxor control_byte scaled_id);
        free_chunks fuel bm (i +! 2) allocation_id (freed + 1)
  end.

(** [Kernel/Memory/HeapAllocator.cpp:334-385] the loop over the blocks: the first one that
    contains the pointer frees it. *)
Fixpoint free_from (bs : list heap_block) (ptr : Z) : result (list heap_block * Z) :=
  match bs with
  | [] => Fault KernelPanic
  | b :: bs =>
    if hb_contains b ptr then
      '(bm, freed) ← free_chunks (S (4 * length (hb_bitmap b))) (hb_bitmap b)
                       (which_bit b ptr) 0 0;
      mret (set_bitmap b bm (hb_free_chunks b +! freed) :: bs, freed *! hb_chunk_size b)
    else
      '(bs, freed) ← free_from bs ptr;
      mret (b :: bs, freed)
  end.

(** [Kernel/Memory/HeapAllocator.cpp:314-392] free *)
Definition heap_free (h : heap) (ptr : Z) : result heap :=
  if ptr =? 0 then mret h
  else
    '(bs, freed) ← free_from (heap_blocks h) ptr;
    mret (Heap bs (total_free_bytes h +! freed) (calls_to_allocate h)
            (calls_to_free h +! 1) (is_being_refilled h)).

(** [Kernel/Memory/HeapAllocator.h:26-32] Stats *)
Record heap_stats := Stats {
  st_heap_blocks : Z; st_free_bytes : Z; st_total_bytes : Z;
  st_calls_to_free : Z; st_calls_to_allocate : Z;
}.

(** [Kernel/Memory/HeapAllocator.cpp:394-412] stats *)
Definition stats (h : heap) : result heap_stats :=
  _ ← ASSERT (negb (bool_decide (heap_blocks h = [])));
  mret (foldl (fun st b =>
    Stats (st_heap_blocks st +! 1) (st_free_bytes st +! free_bytes b)
      (st_total_bytes st +! (hb_chunk_count b *! hb_chunk_size b))
      (st_calls_to_free st) (st_calls_to_allocate st))
    (Stats 0 0 0 (calls_to_free h) (calls_to_allocate h)) (heap_blocks h)).

(** ** Chunk ids *)

(** The id of chunk [q] of a control byte, and of chunk [k] of a bitmap. *)
Definition byte_id (c q : Z) : Z := (c / 4 ^ q) mod 4.
Definition cid (bm : list Z) (k : Z) : Z :=
  byte_id (default 0 (bm !! Z.to_nat (k / 4))) (k mod 4).

Definition wf_bitmap (bm : list Z) : Prop := Forall is_u8 bm.

Lemma byte_read c q :
  0 <= c < 256 -> 0 <= q < 4 ->
  Z.land c (id_mask (2 * q)) = Z.shiftl (byte_id c q) (2 * q) /\
  Z.land c (Z.shiftl 3 (2 * q)) = Z.shiftl (byte_id c q) (2 * q) /\
  Z.shiftr (Z.shiftl (byte_id c q) (2 * q)) (2 * q) = byte_id c q /\
  (Z.shiftl (byte_id c q) (2 * q) =? 0) = (byte_id c q =? 0).
Proof.
  intros Hc Hq.
  assert (H : all_below 256 (fun c => all_below 4 (fun q =>
    (Z.land c (id_mask (2 * q)) =? Z.shiftl (byte_id c q) (2 * q)) &&
    (Z.land c (Z.shiftl 3 (2 * q)) =? Z.shiftl (byte_id c q) (2 * q)) &&
    (Z.shiftr (Z.shiftl (byte_id c q) (2 * q)) (2 * q) =? byte_id c q) &&
    Bool.eqb (Z.shiftl (byte_id c q) (2 * q) =? 0) (byte_id c q =? 0))) = true)
    by (vm_compute; reflexivity).
  apply (all_below_spec _ _ c) in H; [|done]. apply (all_below_spec _ _ q) in H; [|done].
  repeat (apply andb_true_iff in H as [H ?]). bool_to_prop.
  split_and!; try done. by apply Bool.eqb_prop.
Qed.

Lemma byte_write c q id :
  0 <= c < 256 -> 0 <= q < 4 -> 0 <= id < 4 ->
  is_u8 (wrap8 (Z.lor c (Z.shiftl id (2 * q)))) /\
  is_u8 (Z.lxor c (Z.shiftl (byte_id c q) (2 * q))) /\
  forall q', 0 <= q' < 4 ->
    (byte_id c q = 0 -> byte_id (wrap8 (Z.lor c (Z.shiftl id (2 * q)))) q' =
                        if q' =? q then id else byte_id c q') /\
    byte_id (Z.lxor c (Z.shiftl (byte_id c q) (2 * q))) q' =
      if q' =? q then 0 else byte_id c q'.
Proof.
  intros Hc Hq Hid. unfold is_u8.
  assert (H : all_below 256 (fun c => all_below 4 (fun q =>
    ((0 <=? Z.lxor c (Z.shiftl (byte_id c q) (2 * q))) &&
     (Z.lxor c (Z.shiftl (byte_id c q) (2 * q)) <? 256) &&
     all_below 4 (fun q' => byte_id (Z.lxor c (Z.shiftl (byte_id c q) (2 * q))) q' =?
       if q' =? q then 0 else byte_id c q')) &&
    all_below 4 (fun id => all_below 4 (fun q' => negb (byte_id c q =? 0) ||
      (byte_id (wrap8 (Z.lor c (Z.shiftl id (2 * q)))) q' =?
         if q' =? q then id else byte_id c q'))))) = true)
    by (vm_compute; reflexivity).
  apply (all_below_spec _ _ c) in H; [|done]. apply (all_below_spec _ _ q) in H; [|done].
  apply andb_true_iff in H as [H1 H2]. apply (all_below_spec _ _ id) in H2; [|done].
  apply andb_true_iff in H1 as [H1 H3]. bool_to_prop.
  split; [apply Z.mod_pos_bound; done|]. split; [done|]. intros q' Hq'.
  apply (all_below_spec _ _ q') in H2; [|done]. apply (all_below_spec _ _ q') in H3; [|done].
  split; [|by apply Z.eqb_eq]. intros E. rewrite E in H2. by apply Z.eqb_eq in H2.
Qed.

Lemma byte_ext c c' :
  0 <= c < 256 -> 0 <= c' < 256 ->
  (forall q, 0 <= q < 4 -> byte_id c q = byte_id c' q) -> c = c'.
Proof.
  intros Hc Hc' H. pose proof (H 0) as H0. pose proof (H 1) as H1. pose proof (H 2) as H2.
  pose proof (H 3) as H3. unfold byte_id in *.
  change (4 ^ 0) with 1 in *. change (4 ^ 1) with 4 in *. change (4 ^ 2) with 16 in *.
  change (4 ^ 3) with 64 in *. dlia.
Qed.

Lemma byte_id_range c q : 0 <= byte_id c q < 4.
Proof. by apply Z.mod_pos_bound. Qed.

Section bitmap.
Context (bm : list Z) (Hbm : wf_bitmap bm).

Lemma bitmap_byte k :
  0 <= k < 4 * Z.of_nat (length bm) ->
  exists c, read_at bm (k / 4) = Ok c /\ is_u8 c /\ cid bm k = byte_id c (k mod 4) /\
    0 <= k / 4 < Z.of_nat (length bm) /\ 0 <= k mod 4 < 4 /\
    2 * k / 8 = k / 4 /\ 2 * k - 8 * (k / 4) = 2 * (k mod 4).
Proof.
  intros Hk. assert (Hd : 0 <= k / 4 < Z.of_nat (length bm)) by dlia.
  destruct (read_at_lt bm (k / 4) Hd) as (c & E). exists c. split; [done|].
  apply read_at_Ok in E as [_ E]. split_and!; try (done || dlia).
  - unfold wf_bitmap in Hbm. rewrite Forall_lookup in Hbm. by eapply Hbm.
  - unfold cid. by rewrite E.
Qed.

Lemma cid_range k : 0 <= cid bm k < 4.
Proof. apply byte_id_range. Qed.

Lemma scaled_id_Ok k :
  0 <= k < 4 * Z.of_nat (length bm) ->
  exists v, scaled_id bm (2 * k) = Ok (v, 2 * (k mod 4)) /\
    (v =? 0) = (cid bm k =? 0) /\ Z.shiftr v (2 * (k mod 4)) = cid bm k.
Proof.
  intros Hk. destruct (bitmap_byte k Hk) as (c & E & Hc & -> & Hd & Hm & E8 & E9).
  unfold scaled_id. rewrite E8, E9, E. run.
  destruct (byte_read c (k mod 4) Hc Hm) as (-> & _ & Hs & Hz). eexists; split; [done|]. done.
Qed.

Lemma chunk_id_Ok k :
  0 <= k < 4 * Z.of_nat (length bm) -> chunk_id bm (2 * k) = Ok (cid bm k).
Proof.
  intros Hk. destruct (scaled_id_Ok k Hk) as (v & E & _ & Ev). unfold chunk_id.
  rewrite E. run. by rewrite Ev.
Qed.

(** Replacing the control byte of chunk [k] changes the ids of that byte only. *)
Lemma cid_insert k c v :
  0 <= k < 4 * Z.of_nat (length bm) -> is_u8 c ->
  (forall q, 0 <= q < 4 -> byte_id c q =
     if q =? k mod 4 then v else cid bm (4 * (k / 4) + q)) ->
  let bm' := <[Z.to_nat (k / 4) := c]> bm in
  wf_bitmap bm' /\ length bm' = length bm /\
  forall j, 0 <= j -> cid bm' j = if j =? k then v else cid bm j.
Proof.
  intros Hk Hc Hq bm'. unfold bm'. rewrite length_insert.
  split; [by apply Forall_insert|]. split; [done|]. intros j Hj.
  destruct (decide (j / 4 = k / 4)) as [E|E].
  - unfold cid at 1. rewrite E, list_lookup_insert_eq by dlia. simpl.
    rewrite Hq by dlia. rewrite <- E. replace (4 * (j / 4) + j mod 4) with j by dlia.
    destruct (Z.eqb_spec (j mod 4) (k mod 4)), (Z.eqb_spec j k); try done; exfalso; dlia.
  - unfold cid at 1. rewrite list_lookup_insert_ne by dlia.
    destruct (Z.eqb_spec j k) as [->|]; [done|]. done.
Qed.
End bitmap.

Lemma bitmap_ext bm bm' :
  wf_bitmap bm -> wf_bitmap bm' -> length bm = length bm' ->
  (forall k, 0 <= k < 4 * Z.of_nat (length bm) -> cid bm k = cid bm' k) -> bm = bm'.
Proof.
  intros H H' Hl Hk. apply list_eq_same_length with (n := length bm); [done|done|].
  intros i c c' Hi E E'. unfold wf_bitmap in *. rewrite Forall_lookup in H, H'.
  apply byte_ext; [by eapply H|by eapply H'|]. intros q Hq.
  specialize (Hk (4 * Z.of_nat i + q) ltac:(lia)). unfold cid in Hk.
  replace (Z.to_nat ((4 * Z.of_nat i + q) / 4)) with i in Hk by dlia.
  replace ((4 * Z.of_nat i + q) mod 4) with q in Hk by dlia. by rewrite E, E' in Hk.
Qed.

(** ** Marking and clearing runs *)

(** The bitmap is small enough for its bit indices not to wrap. *)
Definition small_bitmap (bm : list Z) : Prop := 64 * Z.of_nat (length bm) < W64.

Lemma shiftl_eqb a b k : 0 <= k -> (Z.shiftl a k =? Z.shiftl b k) = (a =? b).
Proof.
  intros Hk. rewrite !Z.shiftl_mul_pow2 by done.
  destruct (Z.eqb_spec a b) as [->|Hne]; [apply Z.eqb_refl|].
  apply Z.eqb_neq. assert (0 < 2 ^ k) by lia. nia.
Qed.

Lemma mark_chunks_Ok n bm s id :
  wf_bitmap bm -> small_bitmap bm -> 0 <= s -> s + Z.of_nat n <= 4 * Z.of_nat (length bm) ->
  0 <= id < 4 -> (forall k, s <= k < s + Z.of_nat n -> cid bm k = 0) ->
  exists bm', mark_chunks n bm (2 * s) id = Ok bm' /\ wf_bitmap bm' /\
    length bm' = length bm /\
    forall j, 0 <= j -> cid bm' j = if in_run s (Z.of_nat n) j then id else cid bm j.
Proof.
  intros Hbm Hsm Hs Hle Hid. revert bm s Hbm Hsm Hs Hle.
  induction n as [|n IH]; intros bm s Hbm Hsm Hs Hle Hfree; cbn [mark_chunks].
  - exists bm. split_and!; try done. intros j Hj.
    by replace (in_run s (Z.of_nat 0) j) with false by in_run_lia.
  - destruct (bitmap_byte bm Hbm s) as (c & E & Hc & Ec & Hd & Hm & E8 & E9); [lia|].
    rewrite E8, E9, E. run. rewrite Hfree in Ec by lia.
    destruct (byte_write c (s mod 4) id Hc Hm Hid) as (Hw & _ & Hb).
    unfold write_at. rewrite decide_True by done. run.
    destruct (cid_insert bm Hbm s (wrap8 (Z.lor c (Z.shiftl id (2 * (s mod 4))))) id)
      as (Hwf & Hlen & Hcid); [lia|done| |].
    { intros q Hq. rewrite (proj1 (Hb q Hq)) by done.
      destruct (Z.eqb_spec q (s mod 4)); [done|].
      unfold cid. replace ((4 * (s / 4) + q) / 4) with (s / 4) by dlia.
      replace ((4 * (s / 4) + q) mod 4) with q by dlia. apply read_at_Ok in E as [_ ->]. done. }
    set (bm1 := <[_ := _]> bm) in *. clearbody bm1. unfold small_bitmap in *.
    rewrite wrap64_small by (unfold is_u64; lia). replace (2 * s + 2) with (2 * (s + 1)) by lia.
    destruct (IH bm1 (s + 1)) as (bm' & -> & Hwf' & Hlen' & Hcid'); try done; try lia.
    { intros k Hk. rewrite Hcid by lia. replace (k =? s) with false by lia. apply Hfree. lia. }
    exists bm'. split_and!; try done; [lia|]. intros j Hj. rewrite Hcid', Hcid by done.
    destruct (Z.eqb_spec j s).
    + replace (in_run (s + 1) (Z.of_nat n) j) with false by in_run_lia.
      by replace (in_run s (Z.of_nat (S n)) j) with true by in_run_lia.
    + replace (Z.of_nat n) with (Z.of_nat (S n) - 1) by lia. by rewrite in_run_shift.
Qed.

(** Clearing the id of a chunk. *)
Lemma clear_chunk bm k c :
  wf_bitmap bm -> 0 <= k < 4 * Z.of_nat (length bm) -> read_at bm (k / 4) = Ok c ->
  is_u8 c -> cid bm k = byte_id c (k mod 4) ->
  let bm' := <[Z.to_nat (k / 4) :=
    Z.lxor c (Z.shiftl (byte_id c (k mod 4)) (2 * (k mod 4)))]> bm in
  wf_bitmap bm' /\ length bm' = length bm /\
  forall j, 0 <= j -> cid bm' j = if j =? k then 0 else cid bm j.
Proof.
  intros Hbm Hk E Hc Ec. assert (Hm : 0 <= k mod 4 < 4) by dlia.
  destruct (byte_write c (k mod 4) 0 Hc Hm) as (_ & Hx & Hb); [lia|].
  apply cid_insert; try done. intros q Hq. destruct (Hb q Hq) as [_ ->].
  destruct (Z.eqb_spec q (k mod 4)); [done|].
  unfold cid. replace ((4 * (k / 4) + q) / 4) with (k / 4) by dlia.
  replace ((4 * (k / 4) + q) mod 4) with q by dlia. apply read_at_Ok in E as [_ ->]. done.
Qed.

Lemma free_chunks_loop m fuel bm k id freed :
  wf_bitmap bm -> small_bitmap bm -> 0 <= k -> k + Z.of_nat m < 4 * Z.of_nat (length bm) ->
  id <> 0 -> (forall j, k <= j < k + Z.of_nat m -> cid bm j = id) ->
  cid bm (k + Z.of_nat m) <> id -> (m < fuel)%nat ->
  exists bm', free_chunks fuel bm (2 * k) id freed = Ok (bm', freed + Z.of_nat m) /\
    wf_bitmap bm' /\ length bm' = length bm /\
    forall j, 0 <= j -> cid bm' j = if in_run k (Z.of_nat m) j then 0 else cid bm j.
Proof.
  intros Hbm Hsm Hk Hle Hid. revert fuel bm k freed Hbm Hsm Hk Hle.
  induction m as [|m IH]; intros fuel bm k freed Hbm Hsm Hk Hle Hrun Hend Hf;
    (destruct fuel as [|fuel]; [lia|]); cbn [free_chunks];
    destruct (bitmap_byte bm Hbm k) as (c & E & Hc & Ec & Hd & Hm & E8 & E9); try lia;
    rewrite E8, E9, E; run; replace (id =? 0) with false by lia; cbv zeta;
    destruct (byte_read c (k mod 4) Hc Hm) as (_ & -> & _); rewrite shiftl_eqb by lia;
    rewrite <- Ec.
  - rewrite Z.add_0_r in *. replace (cid bm k =? id) with false by lia. run.
    exists bm. split_and!; try done. intros j Hj.
    by replace (in_run k (Z.of_nat 0) j) with false by in_run_lia.
  - rewrite (Hrun k) in * by lia. rewrite Z.eqb_refl. runb.
    unfold write_at. rewrite decide_True by done. run.
    destruct (clear_chunk bm k c Hbm ltac:(lia) E Hc) as (Hwf & Hlen & Hcid);
      [by rewrite Hrun by lia|]. rewrite <- Ec in *.
    set (bm1 := <[_ := _]> bm) in *. clearbody bm1. unfold small_bitmap in *.
    rewrite wrap64_small by (unfold is_u64; lia). replace (2 * k + 2) with (2 * (k + 1)) by lia.
    destruct (IH fuel bm1 (k + 1) (freed + 1)) as (bm' & -> & Hwf' & Hlen' & Hcid');
      try done; try lia.
    { intros j Hj. rewrite Hcid by lia. replace (j =? k) with false by lia. apply Hrun. lia. }
    { rewrite Hcid by lia. replace (k + 1 + Z.of_nat m =? k) with false by lia.
      by replace (k + 1 + Z.of_nat m) with (k + Z.of_nat (S m)) by lia. }
    exists bm'. replace (freed + 1 + Z.of_nat m) with (freed + Z.of_nat (S m)) by lia.
    split_and!; try done; [lia|]. intros j Hj. rewrite Hcid', Hcid by done.
    destruct (Z.eqb_spec j k).
    + replace (in_run (k + 1) (Z.of_nat m) j) with false by in_run_lia.
      by replace (in_run k (Z.of_nat (S m)) j) with true by in_run_lia.
    + replace (Z.of_nat m) with (Z.of_nat (S m) - 1) by lia. by rewrite in_run_shift.
Qed.

(** [free] from the first chunk of a run clears the run; from a free chunk it panics. *)
Lemma free_chunks_Ok fuel bm s n :
  wf_bitmap bm -> small_bitmap bm -> 0 <= s -> 0 < n -> s + n < 4 * Z.of_nat (length bm) ->
  cid bm s <> 0 -> (forall j, s <= j < s + n -> cid bm j = cid bm s) ->
  cid bm (s + n) <> cid bm s -> n < Z.of_nat fuel ->
  exists bm', free_chunks fuel bm (2 * s) 0 0 = Ok (bm', n) /\
    wf_bitmap bm' /\ length bm' = length bm /\
    forall j, 0 <= j -> cid bm' j = if in_run s n j then 0 else cid bm j.
Proof.
  intros Hbm Hsm Hs Hn Hle Hid Hrun Hend Hf. destruct fuel as [|fuel]; [lia|].
  cbn [free_chunks]. destruct (bitmap_byte bm Hbm s) as (c & E & Hc & Ec & Hd & Hm & E8 & E9); [lia|].
  rewrite E8, E9, E. run. cbn [Z.eqb]. cbv zeta.
  destruct (byte_read c (s mod 4) Hc Hm) as (-> & _ & -> & _). rewrite <- Ec.
  replace (cid bm s =? 0) with false by lia. run.
  unfold write_at. rewrite decide_True by done. run.
  destruct (clear_chunk bm s c Hbm ltac:(lia) E Hc Ec) as (Hwf & Hlen & Hcid).
  rewrite <- Ec in *. set (bm1 := <[_ := _]> bm) in *. clearbody bm1. unfold small_bitmap in *.
  rewrite wrap64_small by (unfold is_u64; lia). replace (2 * s + 2) with (2 * (s + 1)) by lia.
  destruct (free_chunks_loop (Z.to_nat (n - 1)) fuel bm1 (s + 1) (cid bm s) (0 + 1))
    as (bm' & -> & Hwf' & Hlen' & Hcid'); try done; try (unfold small_bitmap; lia).
  { intros j Hj. rewrite Hcid by lia. replace (j =? s) with false by lia. apply Hrun. lia. }
  { rewrite Hcid by lia. replace (s + 1 + Z.of_nat _) with (s + n) by lia.
    by replace (s + n =? s) with false by lia. }
  exists bm'. replace (0 + 1 + Z.of_nat (Z.to_nat (n - 1))) with n by lia.
  split_and!; try done; [lia|]. intros j Hj. rewrite Hcid', Hcid by done.
  replace (Z.of_nat (Z.to_nat (n - 1))) with (n - 1) by lia.
  destruct (Z.eqb_spec j s).
  - replace (in_run (s + 1) (n - 1) j) with false by in_run_lia.
    by replace (in_run s n j) with true by in_run_lia.
  - by rewrite in_run_shift.
Qed.

Lemma unique_id_Ok l r :
  0 <= l < 4 -> 0 <= r < 4 ->
  exists id, unique_id 4 l r 0 = Ok id /\ 0 < id < 4 /\ id <> l /\ id <> r.
Proof.
  intros Hl Hr.
  assert (H : all_below 4 (fun l => all_below 4 (fun r =>
    match unique_id 4 l r 0 with
    | Ok id => (0 <? id) && (id <? 4) && negb (id =? l) && negb (id =? r)
    | Fault _ => false
    end)) = true) by (vm_compute; reflexivity).
  apply (all_below_spec _ _ l) in H; [|done]. apply (all_below_spec _ _ r) in H; [|done]. cbv beta in H.
  destruct (unique_id 4 l r 0) as [id|]; [|done]. exists id. split; [done|]. bool_to_prop. lia.
Qed.

(** ** Searching *)

Definition free_run (bm : list Z) (s n : Z) : Prop :=
  forall k, s <= k < s + n -> cid bm k = 0.

(** A place for [n] chunks at [off] plus a multiple of [a]. *)
Definition slot (b : heap_block) (a off n s : Z) : Prop :=
  off <= s /\ (s - off) mod a = 0 /\ s + n <= hb_chunk_count b /\ free_run (hb_bitmap b) s n.

(** The bound on the sizes under which indices do not wrap. *)
Definition wf_block (b : heap_block) : Prop :=
  wf_bitmap (hb_bitmap b) /\ small_bitmap (hb_bitmap b) /\
  0 <= hb_chunk_count b < 4 * Z.of_nat (length (hb_bitmap b)) /\
  hb_chunk_size b = default_chunk_size /\
  0 < hb_data b /\ hb_data b mod default_chunk_size = 0 /\
  hb_data b + default_chunk_size * hb_chunk_count b < W64.

(** The start of the next aligned block after [k]. *)
Definition next_aligned (a off k : Z) : Z := off + ((k - off) / a + 1) * a.

Lemma next_aligned_spec a off k :
  0 < a -> off <= k ->
  k < next_aligned a off k <= k + a /\ (next_aligned a off k - off) mod a = 0 /\
  forall s, k < s -> (s - off) mod a = 0 -> next_aligned a off k <= s.
Proof.
  intros Ha Hk. unfold next_aligned. pose proof (Z.div_mod (k - off) a).
  pose proof (Z.mod_pos_bound (k - off) a Ha). split; [nia|]. split.
  - replace (off + ((k - off) / a + 1) * a - off) with (((k - off) / a + 1) * a) by lia.
    apply Z.mod_mul. lia.
  - intros s Hs Hm. apply Z.mod_divide in Hm as [q Hq]; [|lia].
    assert ((k - off) / a < q) by (apply Z.div_lt_upper_bound; nia). nia.
Qed.

(** The skip of the search, as the code computes it. *)
Lemma skip_eq m off k :
  0 <= m <= 10 -> 0 <= off <= k -> k < W64 / 8 ->
  let a := 2 ^ m in
  (if 2 * a >? 2 then
     (Z.land ((2 * k -! 2 * off) +! 2 * a) (lnot64 (2 * a -! 1)) +! 2 * off) -! 2
   else 2 * k) +! 2 = 2 * next_aligned a off k.
Proof.
  intros Hm Hoff Hk a. assert (Ha : 1 <= a <= 1024).
  { unfold a. split; [lia|]. change 1024 with (2 ^ 10). apply Z.pow_le_mono_r; lia. }
  assert (Ha2 : 2 * a = 2 ^ (m + 1)) by (unfold a; rewrite Z.pow_add_r; lia).
  pose proof (next_aligned_spec a off k ltac:(lia) ltac:(lia)) as (Hn & _).
  change (W64 / 8) with 2305843009213693952 in Hk. rewrite Z.gtb_ltb.
  destruct (Z.ltb_spec 2 (2 * a)).
  - rewrite (wrap64_small (2 * k - _)) by (unfold is_u64; lia).
    rewrite (wrap64_small (_ + 2 * a)) by (unfold is_u64; lia).
    rewrite (wrap64_small (2 * a - 1)) by (unfold is_u64; lia).
    replace (lnot64 (2 * a - 1)) with (W64 - 2 ^ (m + 1)) by (unfold lnot64; lia).
    rewrite (land_high (m + 1)) by (lia || unfold is_u64; lia). rewrite <- Ha2.
    replace (2 * k - 2 * off + 2 * a) with (2 * (k - off) + 1 * (2 * a)) by lia.
    rewrite Z.mod_add by lia. rewrite Z.mul_mod_distr_l by lia.
    unfold next_aligned in *. pose proof (Z.div_mod (k - off) a).
    pose proof (Z.mod_pos_bound (k - off) a ltac:(lia)).
    assert (0 <= (k - off) / a) by (apply Z.div_pos; lia).
    rewrite (wrap64_small (_ + 2 * off)) by (unfold is_u64; nia).
    rewrite (wrap64_small (_ - 2)) by (unfold is_u64; nia).
    rewrite wrap64_small by (unfold is_u64; nia). nia.
  - assert (a = 1) as -> by lia. unfold next_aligned. rewrite Z.div_1_r.
    rewrite wrap64_small by (unfold is_u64; lia). lia.
Qed.

Lemma find_chunks_Ok fuel b n m off k c at_bit :
  wf_block b -> 0 < n -> 0 <= m <= 10 -> 0 <= off <= 1024 ->
  let a := 2 ^ m in
  0 <= c < n -> off <= k - c -> (k - c - off) mod a = 0 -> k <= hb_chunk_count b + 2048 ->
  free_run (hb_bitmap b) (k - c) c -> (0 < c -> at_bit = 2 * (k - c)) ->
  (forall s, slot b a off n s -> k - c <= s) ->
  Z.max 0 (hb_chunk_count b - k) < Z.of_nat fuel ->
  exists o, find_chunks fuel b n (2 * a) (2 * off) (2 * k) c at_bit = Ok o /\
    ((o = None /\ forall s, ~ slot b a off n s) \/
     (exists s, o = Some (2 * s) /\ slot b a off n s /\ forall s', slot b a off n s' -> s <= s')).
Proof.
  intros Hwf Hn Hm Hoff a. pose proof Hwf as (Hbm & Hsm & Hcnt & _).
  assert (Ha : 1 <= a <= 1024).
  { unfold a. split; [lia|]. change 1024 with (2 ^ 10). apply Z.pow_le_mono_r; lia. }
  unfold small_bitmap in Hsm. revert k c at_bit. induction fuel as [|fuel IH];
    intros k c at_bit Hc Hk Hal Hkb Hfree Hat Hno Hf; cbn [find_chunks]; [lia|].
  rewrite (wrap64_small (hb_chunk_count b * 2)) by (unfold is_u64; lia).
  destruct (Z.ltb_spec (2 * k) (hb_chunk_count b * 2)) as [Hlt|Hge].
  2: { exists None. split; [done|]. left. split; [done|]. intros s Hs. pose proof (Hno s Hs).
       destruct Hs as (_ & _ & Hs & _). lia. }
  destruct (scaled_id_Ok _ Hbm k ltac:(lia)) as (v & -> & Ev & _). run. rewrite Ev.
  destruct (Z.eqb_spec (cid (hb_bitmap b) k) 0) as [E0|E0]; cbv zeta.
  - rewrite (wrap64_small (c + 1)) by (unfold is_u64; lia).
    set (at_bit' := if c + 1 =? 1 then 2 * k else at_bit).
    assert (Hat' : at_bit' = 2 * (k - c)).
    { unfold at_bit'. destruct (Z.eqb_spec (c + 1) 1); [lia|apply Hat; lia]. }
    clearbody at_bit'.
    assert (Hfree' : free_run (hb_bitmap b) (k - c) (c + 1)).
    { intros j Hj. destruct (decide (j = k)) as [->|]; [done|]. apply Hfree. lia. }
    destruct (Z.eqb_spec (c + 1) n) as [En|En].
    + exists (Some at_bit'). split; [done|]. right. exists (k - c).
      split; [by rewrite Hat'|]. split; [|done]. rewrite <- En. by split_and!; try lia.
    + rewrite wrap64_small by (unfold is_u64; lia). replace (2 * k + 2) with (2 * (k + 1)) by lia.
      apply IH; replace (k + 1 - (c + 1)) with (k - c) by lia; done || lia.
  - assert (Hk8 : k < W64 / 8) by (change (W64 / 8) with 2305843009213693952; lia).
    pose proof (skip_eq m off k Hm ltac:(lia) Hk8) as Hskip. cbv zeta in Hskip. fold a in Hskip.
    rewrite Hskip.
    destruct (next_aligned_spec a off k) as (Hn1 & Hn2 & Hn3); [lia|lia|].
    apply IH; rewrite ?Z.sub_0_r; try done; try lia.
    + intros j Hj. lia.
    + intros s Hs. apply Hn3; [|by destruct Hs as (_ & ? & _)].
      pose proof (Hno s Hs) as Hks. destruct (decide (k < s)); [done|]. exfalso. apply E0.
      destruct Hs as (_ & _ & _ & Hr). apply Hr. lia.
Qed.

(** ** Blocks *)

(** Block [b] holds the allocations [A]: from first chunk to number of chunks.  An
    allocation is a run of one id that the chunk after it does not have. *)
Record block_rep (b : heap_block) (A : gmap Z Z) : Prop := {
  br_wf : wf_block b;
  br_free : hb_free_chunks b =
    count_if (fun k => cid (hb_bitmap b) k =? 0) (Z.to_nat (hb_chunk_count b));
  br_tail k : hb_chunk_count b <= k < 4 * Z.of_nat (length (hb_bitmap b)) ->
    cid (hb_bitmap b) k = 0;
  br_run s n : A !! s = Some n ->
    0 <= s /\ 0 < n /\ s + n <= hb_chunk_count b /\ cid (hb_bitmap b) s <> 0 /\
    (forall k, s <= k < s + n -> cid (hb_bitmap b) k = cid (hb_bitmap b) s) /\
    cid (hb_bitmap b) (s + n) <> cid (hb_bitmap b) s;
  br_disjoint s n s' n' : A !! s = Some n -> A !! s' = Some n' -> s < s' -> s + n <= s';
  br_owned k : 0 <= k < hb_chunk_count b -> cid (hb_bitmap b) k <> 0 ->
    exists s n, A !! s = Some n /\ s <= k < s + n;
}.

(** The parameters of the search for an alignment describe the aligned chunks. *)
Lemma aligned_params data al j :
  0 <= data < W64 -> data mod default_chunk_size = 0 -> al = 2 ^ j -> 0 <= j <= 12 ->
  exists m off, 0 <= m <= 10 /\ 0 <= off <= 1024 /\
    Z.max ((al / default_chunk_size) *! 2) 2 = 2 * 2 ^ m /\
    (if al >? default_chunk_size then
       let rem := data mod al in
       if negb (rem =? 0) then ((al -! rem) / default_chunk_size) *! 2 else 0
     else 0) = 2 * off /\
    forall s, 0 <= s ->
      (off <= s /\ (s - off) mod 2 ^ m = 0) <-> (data + default_chunk_size * s) mod al = 0.
Proof.
  unfold default_chunk_size. intros Hd Hm Hal Hj.
  assert (Hcase : j = 0 \/ j = 1 \/ j = 2 \/ j = 3 \/ j = 4 \/ j = 5 \/ j = 6 \/ j = 7 \/ j = 8 \/
                  j = 9 \/ j = 10 \/ j = 11 \/ j = 12) by lia.
  exists (Z.max 0 (j - 5)).
  exists (if j <=? 5 then 0 else (- (data / 32)) mod 2 ^ (j - 5)).
  split; [lia|].
  repeat (destruct Hcase as [->|Hcase]); try subst j; subst al;
    match goal with
    | |- context [2 ^ Z.max 0 ?x] =>
        let v := eval vm_compute in (2 ^ Z.max 0 x) in change (2 ^ Z.max 0 x) with v
    end; cbn [Z.leb Z.compare Pos.compare Pos.compare_cont];
    repeat match goal with
    | |- context [2 ^ ?k] => let v := eval vm_compute in (2 ^ k) in change (2 ^ k) with v
    end.
  all: try (split; [lia|]; split; [reflexivity|]; split; [reflexivity|];
            intros s Hs; split; intros; dlia).
  all: split; [dlia|]; split; [reflexivity|]; split;
    [cbn [Z.gtb Z.compare Pos.compare Pos.compare_cont]; cbv zeta;
     match goal with |- context [?d mod ?x =? 0] => destruct (Z.eqb_spec (d mod x) 0) end;
     cbn [negb]; [dlia|];
     unfold wrap64; rewrite !Z.mod_small by dlia; dlia|];
    intros s Hs; split; intros; dlia.
Qed.

(** The same block, apart from the bitmap's contents and the free counter. *)
Definition same_header (b b' : heap_block) : Prop :=
  hb_address b' = hb_address b /\ hb_data b' = hb_data b /\
  hb_chunk_count b' = hb_chunk_count b /\ hb_chunk_size b' = hb_chunk_size b /\
  length (hb_bitmap b') = length (hb_bitmap b).

(** [s] is the first of [n] free chunks, at an address aligned to [al]. *)
Definition fits (b : heap_block) (n al s : Z) : Prop :=
  0 <= s /\ s + n <= hb_chunk_count b /\ free_run (hb_bitmap b) s n /\
  (hb_data b + default_chunk_size * s) mod al = 0.

Definition chunks_for (bytes : Z) : Z := 1 + (bytes - 1) / default_chunk_size.

Lemma chunks_for_bounds bytes :
  0 < bytes -> 0 < chunks_for bytes /\
  bytes <= default_chunk_size * chunks_for bytes < bytes + default_chunk_size.
Proof. unfold chunks_for, default_chunk_size. dlia. Qed.

(** Giving a free run an id: the free chunks without the run. *)
Lemma count_marked bm bm' id s n cnt :
  id <> 0 -> 0 <= s -> 0 <= n -> s + n <= cnt -> free_run bm s n ->
  (forall k, 0 <= k -> cid bm' k = if in_run s n k then id else cid bm k) ->
  count_if (fun k => cid bm k =? 0) (Z.to_nat cnt) =
  count_if (fun k => cid bm' k =? 0) (Z.to_nat cnt) + n.
Proof.
  intros Hid Hs Hn Hle Hfree Hc.
  transitivity (count_if (fun k => cid bm' k =? 0) (Z.to_nat cnt)
                + count_if (in_run s n) (Z.to_nat cnt)); [|by rewrite count_if_run by lia].
  apply count_if_disjoint. intros i Hi. rewrite Hc by lia.
  destruct (in_run s n i) eqn:E.
  - apply in_run_spec in E. rewrite Hfree by lia. split; [by rewrite orb_true_r|].
    replace (id =? 0) with false by lia. done.
  - by rewrite orb_false_r, andb_false_r.
Qed.

(** Marking a free run with an id its neighbours do not have. *)
Lemma mark_rep b A s n id bm' :
  block_rep b A -> 0 <= s -> 0 < n -> s + n <= hb_chunk_count b ->
  free_run (hb_bitmap b) s n -> 0 < id < 4 ->
  (0 < s -> cid (hb_bitmap b) (s - 1) <> id) -> cid (hb_bitmap b) (s + n) <> id ->
  wf_bitmap bm' -> length bm' = length (hb_bitmap b) ->
  (forall k, 0 <= k -> cid bm' k = if in_run s n k then id else cid (hb_bitmap b) k) ->
  block_rep (set_bitmap b bm' (hb_free_chunks b - n)) (<[s := n]> A).
Proof.
  intros [Hwf Hfr Htl Hrun Hdis Hown] Hs Hn Hle Hfree Hid Hleft Hright Hbm Hlen Hc.
  assert (Hnew : forall s' n', A !! s' = Some n' -> s' + n' <= s \/ s + n <= s').
  { intros s' n' E. destruct (Hrun s' n' E) as (? & ? & ? & Hne & Hid' & _).
    destruct (decide (s' + n' <= s)); [by left|]. right.
    destruct (decide (s + n <= s')); [done|]. exfalso. apply Hne.
    rewrite <- (Hid' (Z.max s s')) by lia. apply Hfree. lia. }
  destruct Hwf as (_ & Hsm & Hcnt & Hcs & Hd). constructor; cbn [hb_bitmap hb_chunk_count
    hb_free_chunks set_bitmap hb_data].
  - split; [done|]. unfold small_bitmap in *. simpl. by rewrite Hlen.
  - rewrite Hfr, (count_marked _ bm' id s n) by (done || lia). lia.
  - intros k Hk. rewrite Hlen in Hk. rewrite Hc by lia.
    replace (in_run s n k) with false by in_run_lia. by apply Htl.
  - intros s' n' E. destruct (decide (s' = s)) as [->|Hne].
    + rewrite lookup_insert_eq in E. injection E as <-. rewrite !Hc by lia.
      replace (in_run s n s) with true by in_run_lia.
      replace (in_run s n (s + n)) with false by in_run_lia. split_and!; try done; try lia.
      intros k Hk. rewrite Hc by lia. by replace (in_run s n k) with true by in_run_lia.
    + rewrite lookup_insert_ne in E by done. destruct (Hrun _ _ E) as (? & ? & ? & Hz & Hr & He).
      pose proof (Hnew _ _ E) as Hor. rewrite !Hc by lia.
      replace (in_run s n s') with false by in_run_lia. split_and!; try done.
      * intros k Hk. rewrite Hc by lia. replace (in_run s n k) with false by in_run_lia. by apply Hr.
      * destruct (in_run s n (s' + n')) eqn:Ei; [|done]. apply in_run_spec in Ei.
        assert (s' + n' = s) as E' by lia. rewrite <- (Hr (s - 1)) by lia. intros Heq.
        by apply Hleft; [lia|].
  - intros s1 n1 s2 n2 E1 E2 Hlt.
    apply lookup_insert_Some in E1 as [[<- <-]|[_ E1]], E2 as [[<- <-]|[_ E2]]; try lia.
    + destruct (Hnew _ _ E2); [|done]. destruct (Hrun _ _ E2). lia.
    + destruct (Hnew _ _ E1); lia.
    + by eapply Hdis.
  - intros k Hk. rewrite Hc by lia. destruct (in_run s n k) eqn:Ei.
    + apply in_run_spec in Ei. intros _. exists s, n. by rewrite lookup_insert_eq.
    + intros Hnz. destruct (Hown k Hk Hnz) as (s' & n' & E & Hk'). exists s', n'.
      rewrite lookup_insert_ne; [done|]. intros ->.
      destruct (Hrun _ _ E) as (_ & _ & _ & Hz & _). apply Hz. apply Hfree. lia.
Qed.

Lemma free_run_count b A s n :
  block_rep b A -> 0 <= s -> 0 <= n -> s + n <= hb_chunk_count b ->
  free_run (hb_bitmap b) s n -> n <= hb_free_chunks b.
Proof.
  intros Hrep Hs Hn Hle Hfree. rewrite (br_free _ _ Hrep).
  rewrite (count_if_disjoint _ (fun k => (cid (hb_bitmap b) k =? 0) && negb (in_run s n k))
    (in_run s n)).
  - rewrite count_if_run by lia.
    pose proof (count_if_bounds (fun k => (cid (hb_bitmap b) k =? 0) && negb (in_run s n k))
      (Z.to_nat (hb_chunk_count b))). lia.
  - intros i Hi. destruct (in_run s n i) eqn:E.
    + apply in_run_spec in E. rewrite (Hfree i) by lia. done.
    + by rewrite orb_false_r, andb_true_r, andb_false_r.
Qed.

Lemma free_chunks_bounds b A :
  block_rep b A -> 0 <= hb_free_chunks b <= hb_chunk_count b.
Proof.
  intros Hrep. rewrite (br_free _ _ Hrep). destruct (br_wf _ _ Hrep) as (_ & _ & ? & _).
  pose proof (count_if_bounds (fun k => cid (hb_bitmap b) k =? 0)
    (Z.to_nat (hb_chunk_count b))). lia.
Qed.

Lemma free_bytes_eq b A :
  block_rep b A -> free_bytes b = default_chunk_size * hb_free_chunks b.
Proof.
  intros Hrep. pose proof (free_chunks_bounds _ _ Hrep).
  destruct (br_wf _ _ Hrep) as (_ & _ & ? & Hcs & ? & _ & ?). unfold free_bytes.
  rewrite Hcs. unfold default_chunk_size in *. rewrite wrap64_small by (unfold is_u64; lia). lia.
Qed.

(** What a block gives for a request, as a function of its allocations. *)
Lemma block_allocate_Ok b A bytes al j :
  block_rep b A -> 0 < bytes -> al = 2 ^ j -> 0 <= j <= 12 ->
  let n := chunks_for bytes in
  (block_allocate b bytes al = Ok None /\ forall s, ~ fits b n al s) \/
  (exists s b' id, block_allocate b bytes al =
      Ok (Some (hb_data b + default_chunk_size * s, default_chunk_size * n, b')) /\
    fits b n al s /\ (forall s', fits b n al s' -> s <= s') /\
    block_rep b' (<[s := n]> A) /\ same_header b b' /\
    hb_free_chunks b' = hb_free_chunks b - n /\
    forall k, 0 <= k -> cid (hb_bitmap b') k = if in_run s n k then id else cid (hb_bitmap b) k).
Proof.
  intros Hrep Hb Hal Hj n. pose proof (chunks_for_bounds bytes Hb) as (Hn & Hnb).
  fold n in Hn, Hnb. unfold block_allocate.
  destruct (br_wf _ _ Hrep) as (Hbm & Hsm & Hcnt & Hcs & Hd & Hdm & Hdw).
  rewrite (free_bytes_eq _ _ Hrep), Hcs. fold (chunks_for bytes) n.
  destruct (Z.ltb_spec (default_chunk_size * hb_free_chunks b) bytes) as [Hlt|Hge].
  { left. split; [done|]. intros s (Hs1 & Hs2 & Hs3 & _).
    pose proof (free_run_count _ _ s n Hrep Hs1 ltac:(lia) Hs2 Hs3).
    unfold default_chunk_size in *. lia. }
  destruct (aligned_params (hb_data b) al j) as (m & off & Hm & Hoff & E1 & E2 & Hal');
    [unfold default_chunk_size in *; lia|done..|].
  cbv zeta in E2 |- *. rewrite E1, E2.
  assert (Hslot : forall s, slot b (2 ^ m) off n s <-> fits b n al s).
  { intros s. unfold slot, fits. split.
    - intros (H1 & H2 & H3 & H4). split_and!; try done; [lia|]. apply Hal'; [lia|done].
    - intros (H1 & H2 & H3 & H4). apply Hal' in H4 as [H5 H6]; done. }
  destruct (find_chunks_Ok (S (Z.to_nat (hb_chunk_count b))) b n m off off 0 0)
    as (o & -> & Ho); try done; try lia.
  { by rewrite Z.sub_0_r, Z.sub_diag. }
  { intros k Hk. lia. }
  { intros s (Hs & _). lia. }
  run. destruct Ho as [[-> Hno]|(s & -> & Hs & Hmin)].
  { left. split; [done|]. intros s Hs. by apply (Hno s), Hslot. }
  right. apply Hslot in Hs. pose proof Hs as (Hs1 & Hs2 & Hs3 & _).
  unfold small_bitmap in Hsm. unfold default_chunk_size in Hdw, Hge.
  assert (El : (if negb (2 * s =? 0) then chunk_id (hb_bitmap b) (2 * s - 2) else mret 0)
    = Ok (if s =? 0 then 0 else cid (hb_bitmap b) (s - 1))).
  { destruct (Z.eqb_spec s 0) as [->|]; [done|]. replace (2 * s =? 0) with false by lia. runb.
    replace (2 * s - 2) with (2 * (s - 1)) by lia. apply chunk_id_Ok; [done|lia]. }
  rewrite El. run. clear E1 E2 Hal'.
  replace (2 * s / 2) with s by (rewrite Z.mul_comm; symmetry; apply Z.div_mul; lia).
  replace (s <? hb_chunk_count b) with true by lia.
  rewrite (wrap64_small (n * 2)) by (unfold is_u64; lia).
  rewrite (wrap64_small (2 * s + _)) by (unfold is_u64; lia).
  replace (2 * s + n * 2) with (2 * (s + n)) by lia.
  rewrite chunk_id_Ok by (done || lia). run.
  destruct (unique_id_Ok (if s =? 0 then 0 else cid (hb_bitmap b) (s - 1))
    (cid (hb_bitmap b) (s + n))) as (id & -> & Hid & Hl & Hr);
    [destruct (s =? 0); [lia|apply cid_range]|apply cid_range|]. run.
  destruct (mark_chunks_Ok (Z.to_nat n) (hb_bitmap b) s id) as (bm' & -> & Hbm' & Hlen & Hc);
    try done; try (unfold small_bitmap; lia).
  { intros k Hk. apply Hs3. lia. }
  rewrite Z2Nat.id in Hc by lia. run.
  pose proof (free_chunks_bounds _ _ Hrep).
  pose proof (free_run_count _ _ s n Hrep Hs1 ltac:(lia) Hs2 Hs3).
  rewrite (wrap64_small (hb_free_chunks b - n)) by (unfold is_u64; lia).
  eexists s, _, id. split.
  { do 4 f_equal; unfold default_chunk_size; rewrite ?(wrap64_small (s * 32)) by (unfold is_u64; lia);
      rewrite wrap64_small by (unfold is_u64; lia); lia. }
  split; [done|]. split; [intros s' Hs'; by apply Hmin, Hslot|]. split.
  { apply (mark_rep b A s n id); try done; try lia.
    intros Hpos. by replace (s =? 0) with false in Hl by lia. }
  by split_and!.
Qed.

(** Clearing the run of an allocation. *)
Lemma unmark_rep b A s n bm' :
  block_rep b A -> A !! s = Some n ->
  wf_bitmap bm' -> length bm' = length (hb_bitmap b) ->
  (forall k, 0 <= k -> cid bm' k = if in_run s n k then 0 else cid (hb_bitmap b) k) ->
  block_rep (set_bitmap b bm' (hb_free_chunks b + n)) (delete s A).
Proof.
  intros [Hwf Hfr Htl Hrun Hdis Hown] Hs Hbm Hlen Hc.
  destruct (Hrun s n Hs) as (Hs0 & Hn & Hle & Hid & Hall & Hend).
  assert (Hother : forall s' n', A !! s' = Some n' -> s' <> s -> s' + n' <= s \/ s + n <= s').
  { intros s' n' E Hne. destruct (decide (s' < s)).
    - left. by eapply Hdis.
    - right. eapply Hdis; [done..|lia]. }
  destruct Hwf as (_ & Hsm & Hcnt & Hcs & Hd).
  constructor; cbn [hb_bitmap hb_chunk_count hb_free_chunks set_bitmap hb_data].
  - split; [done|]. unfold small_bitmap in *. simpl. by rewrite Hlen.
  - rewrite Hfr. symmetry. apply (count_marked bm' _ (cid (hb_bitmap b) s) s n); try done; try lia.
    + intros k Hk. rewrite Hc by lia. by replace (in_run s n k) with true by in_run_lia.
    + intros k Hk. destruct (in_run s n k) eqn:E; [apply in_run_spec in E; by apply Hall|].
      rewrite Hc by lia. by rewrite E.
  - intros k Hk. rewrite Hlen in Hk. rewrite Hc by lia.
    replace (in_run s n k) with false by in_run_lia. by apply Htl.
  - intros s' n' E. apply lookup_delete_Some in E as [Hne E].
    destruct (Hrun _ _ E) as (? & ? & ? & Hz & Hr & He).
    pose proof (Hother _ _ E ltac:(done)) as Hor. rewrite !Hc by lia.
    replace (in_run s n s') with false by in_run_lia. split_and!; try done.
    + intros k Hk. rewrite Hc by lia. replace (in_run s n k) with false by in_run_lia. by apply Hr.
    + by destruct (in_run s n (s' + n')).
  - intros s1 n1 s2 n2 E1 E2. apply lookup_delete_Some in E1 as [_ E1], E2 as [_ E2].
    by eapply Hdis.
  - intros k Hk. rewrite Hc by lia. destruct (in_run s n k) eqn:Ei; [done|]. intros Hnz.
    destruct (Hown k Hk Hnz) as (s' & n' & E & Hk'). exists s', n'.
    rewrite lookup_delete_ne; [done|]. intros ->. rewrite Hs in E. injection E as ->.
    assert (in_run s' n' k = true) by (apply in_run_spec; lia). congruence.
Qed.

(** A pointer to chunk [s] of a block. *)
Lemma chunk_pointer b s :
  wf_block b -> 0 <= s <= hb_chunk_count b ->
  let p := hb_data b + default_chunk_size * s in
  hb_contains b p = true /\ which_bit b p = 2 * s /\
  hb_end b = hb_data b + default_chunk_size * hb_chunk_count b.
Proof.
  intros (_ & Hsm & Hcnt & Hcs & Hd & _ & Hw) Hs p.
  unfold hb_contains, which_bit, hb_end, p, small_bitmap in *. rewrite Hcs.
  unfold default_chunk_size in *.
  rewrite (wrap64_small (hb_chunk_count b * 32)) by (unfold is_u64; lia).
  rewrite (wrap64_small (hb_data b + _)) by (unfold is_u64; lia).
  replace (hb_data b + 32 * s - hb_data b) with (s * 32) by lia. rewrite Z.div_mul by lia.
  rewrite wrap64_small by (unfold is_u64; lia). split_and!; lia.
Qed.

(** Freeing an allocation of a block. *)
Lemma block_free_Ok b A s n :
  block_rep b A -> A !! s = Some n ->
  let p := hb_data b + default_chunk_size * s in
  hb_contains b p = true /\
  exists bm', free_chunks (S (4 * length (hb_bitmap b))) (hb_bitmap b) (which_bit b p) 0 0 =
      Ok (bm', n) /\
    hb_free_chunks b +! n = hb_free_chunks b + n /\
    n *! hb_chunk_size b = default_chunk_size * n /\
    block_rep (set_bitmap b bm' (hb_free_chunks b + n)) (delete s A) /\
    length bm' = length (hb_bitmap b) /\
    forall k, 0 <= k -> cid bm' k = if in_run s n k then 0 else cid (hb_bitmap b) k.
Proof.
  intros Hrep Hs p. destruct (br_run _ _ Hrep s n Hs) as (Hs0 & Hn & Hle & Hid & Hall & Hend).
  pose proof (br_wf _ _ Hrep) as Hwf. pose proof Hwf as (Hbm & Hsm & Hcnt & Hcs & Hd & _ & Hw).
  destruct (chunk_pointer b s Hwf ltac:(lia)) as (Hin & Hwb & _). fold p in Hin, Hwb.
  split; [done|]. rewrite Hwb.
  destruct (free_chunks_Ok (S (4 * length (hb_bitmap b))) (hb_bitmap b) s n)
    as (bm' & E & Hbm' & Hlen & Hc); try done; try lia.
  pose proof (unmark_rep b A s n bm' Hrep Hs Hbm' Hlen Hc) as Hrep'.
  pose proof (free_chunks_bounds _ _ Hrep') as Hb'. pose proof (free_chunks_bounds _ _ Hrep) as Hb.
  cbn [hb_free_chunks hb_chunk_count set_bitmap] in Hb'.
  exists bm'. rewrite Hcs. unfold default_chunk_size in *.
  rewrite !wrap64_small by (unfold is_u64; lia). split_and!; try done. lia.
Qed.

(** ** Heaps *)

(** The data of two blocks do not touch. *)
Definition blocks_apart (b b' : heap_block) : Prop :=
  hb_end b < hb_data b' \/ hb_end b' < hb_data b.

Definition sum_free (bs : list heap_block) : Z :=
  foldr (fun b acc => default_chunk_size * hb_free_chunks b + acc) 0 bs.

Record heap_rep (h : heap) (AA : list (gmap Z Z)) : Prop := {
  hr_blocks : Forall2 block_rep (heap_blocks h) AA;
  hr_apart : StronglySorted blocks_apart (heap_blocks h);
  hr_total : total_free_bytes h = sum_free (heap_blocks h);
  hr_small : sum_free (heap_blocks h) < W64;
}.

Lemma sum_free_app bs1 bs2 : sum_free (bs1 ++ bs2) = sum_free bs1 + sum_free bs2.
Proof. induction bs1; simpl; lia. Qed.

Lemma sum_free_cons b bs :
  sum_free (b :: bs) = default_chunk_size * hb_free_chunks b + sum_free bs.
Proof. done. Qed.

Lemma sum_free_nonneg bs AA : Forall2 block_rep bs AA -> 0 <= sum_free bs.
Proof.
  induction 1 as [|b A bs AA Hb _ IH]; simpl; [lia|].
  pose proof (free_chunks_bounds _ _ Hb). unfold default_chunk_size. lia.
Qed.

Lemma same_header_end b b' : same_header b b' -> hb_end b' = hb_end b /\ hb_data b' = hb_data b.
Proof. intros (_ & H1 & H2 & H3 & _). unfold hb_end. by rewrite H1, H2, H3. Qed.

Lemma set_bitmap_restore b b' :
  same_header b b' -> set_bitmap b' (hb_bitmap b) (hb_free_chunks b) = b.
Proof. destruct b, b'. intros (E1 & E2 & E3 & E4 & _). simpl in *. by subst. Qed.

(** Replacing one block keeps the blocks apart. *)
Lemma apart_replace bs1 b b' bs2 :
  same_header b b' -> StronglySorted blocks_apart (bs1 ++ b :: bs2) ->
  StronglySorted blocks_apart (bs1 ++ b' :: bs2).
Proof.
  intros Hh. apply same_header_end in Hh as [He Hd].
  rewrite !StronglySorted_app, !StronglySorted_cons. unfold blocks_apart.
  intros (H12 & H1 & H2 & H3). split_and!; try done.
  - intros x y Hx Hy. apply elem_of_cons in Hy as [->|Hy].
    + rewrite He, Hd. apply H12; [done|set_solver].
    + apply H12; [done|set_solver].
  - eapply Forall_impl; [exact H2|]. simpl. intros y. by rewrite He, Hd.
Qed.

Lemma allocate_from_Ok bs AA bytes al j :
  Forall2 block_rep bs AA -> 0 < bytes -> al = 2 ^ j -> 0 <= j <= 12 ->
  let n := chunks_for bytes in
  (allocate_from bs bytes al = Ok None /\ forall b s, b ∈ bs -> ~ fits b n al s) \/
  (exists bs1 b bs2 AA1 A AA2 s b' id,
    bs = bs1 ++ b :: bs2 /\ AA = AA1 ++ A :: AA2 /\ Forall2 block_rep bs1 AA1 /\
    Forall2 block_rep bs2 AA2 /\ block_rep b A /\
    (forall c s, c ∈ bs1 -> ~ fits c n al s) /\
    allocate_from bs bytes al = Ok (Some (hb_data b + default_chunk_size * s,
      default_chunk_size * n, bs1 ++ b' :: bs2)) /\
    fits b n al s /\ (forall s', fits b n al s' -> s <= s') /\
    block_rep b' (<[s := n]> A) /\ same_header b b' /\
    hb_free_chunks b' = hb_free_chunks b - n /\
    forall k, 0 <= k -> cid (hb_bitmap b') k = if in_run s n k then id else cid (hb_bitmap b) k).
Proof.
  intros HF Hb Hal Hj n. induction HF as [|b A bs AA Hrep HF IH]; cbn [allocate_from].
  { left. split; [done|]. set_solver. }
  destruct (block_allocate_Ok b A bytes al j Hrep Hb Hal Hj)
    as [[-> Hno]|(s & b' & id & -> & Hfit & Hmin & Hrep' & Hh & Hfr & Hc)]; run.
  - destruct IH as [[-> Hno']|(bs1 & c & bs2 & AA1 & C & AA2 & s & c' & id & -> & -> & F1 & F2 &
      Hc & Hno' & -> & Hrest)]; run.
    + left. split; [done|]. intros c s Hc. apply elem_of_cons in Hc as [->|Hc]; [by apply Hno|].
      by apply Hno'.
    + right. exists (b :: bs1), c, bs2, (A :: AA1), C, AA2, s, c', id.
      split_and!; try done; try (by constructor); try apply Hrest.
      intros d s' Hd. apply elem_of_cons in Hd as [->|Hd]; [by apply Hno|]. by apply Hno'.
  - right. exists [], b, bs, [], A, AA, s, b', id. split_and!; try done; try constructor.
    set_solver.
Qed.

Lemma free_from_Ok bs1 b bs2 ptr bm freed :
  (forall c, c ∈ bs1 -> hb_contains c ptr = false) -> hb_contains b ptr = true ->
  free_chunks (S (4 * length (hb_bitmap b))) (hb_bitmap b) (which_bit b ptr) 0 0 = Ok (bm, freed) ->
  free_from (bs1 ++ b :: bs2) ptr =
    Ok (bs1 ++ set_bitmap b bm (hb_free_chunks b +! freed) :: bs2, freed *! hb_chunk_size b).
Proof.
  intros Hno Hin Hf. induction bs1 as [|c bs1 IH]; cbn [free_from app].
  - rewrite Hin, Hf. done.
  - rewrite Hno by set_solver. rewrite IH by set_solver. done.
Qed.

(** A pointer into one block is in no other. *)
Lemma contains_unique bs1 b bs2 AA s :
  Forall2 block_rep (bs1 ++ b :: bs2) AA -> StronglySorted blocks_apart (bs1 ++ b :: bs2) ->
  0 <= s <= hb_chunk_count b ->
  forall c, c ∈ bs1 -> hb_contains c (hb_data b + default_chunk_size * s) = false.
Proof.
  intros HF Hap Hs c Hc. apply Forall2_app_inv_l in HF as (A1 & A2 & F1 & F2 & ->).
  apply Forall2_cons_inv_l in F2 as (A & A2' & Hrep & _ & ->).
  destruct (chunk_pointer b s (br_wf _ _ Hrep) Hs) as (Hin & _ & He).
  apply StronglySorted_app in Hap as (Hap & _). specialize (Hap c b Hc ltac:(set_solver)).
  unfold blocks_apart, hb_contains, default_chunk_size in *. blia.
Qed.

Lemma pow2_alignment al :
  0 <= al <= 4096 -> count_set_bits 64 al = 1 -> exists j, al = 2 ^ j /\ 0 <= j <= 12.
Proof.
  intros Hal Hc.
  assert (H : all_below 4097 (fun al => negb (count_set_bits 64 al =? 1) ||
    existsb (fun j => al =? 2 ^ Z.of_nat j) (seq 0 13)) = true) by (vm_compute; reflexivity).
  apply (all_below_spec _ _ al) in H; [|lia]. cbv beta in H. rewrite Hc in H.
  cbn [Z.eqb Pos.eqb negb orb] in H. apply existsb_exists in H as (j & Hj & E).
  apply in_seq in Hj. exists (Z.of_nat j). lia.
Qed.

(** ** Properties *)

Lemma heap_allocate_Ok (h : heap) (AA : list (gmap Z Z)) (bytes al : Z) :
  heap_rep h AA -> 0 < bytes <= upper_allocation_threshold ->
  0 <= al <= 4096 -> count_set_bits 64 al = 1 ->
  let n := chunks_for bytes in
  (exists bs1 b bs2 AA1 A AA2 s b' h',
    heap_blocks h = bs1 ++ b :: bs2 /\ AA = AA1 ++ A :: AA2 /\ length bs1 = length AA1 /\
    heap_allocate None h bytes al = Ok (hb_data b + default_chunk_size * s, h') /\
    fits b n al s /\ (forall s', fits b n al s' -> s <= s') /\
    (forall c s', c ∈ bs1 -> ~ fits c n al s') /\
    heap_blocks h' = bs1 ++ b' :: bs2 /\ same_header b b' /\
    heap_rep h' (AA1 ++ <[s := n]> A :: AA2) /\ A !! s = None /\
    total_free_bytes h' = total_free_bytes h - default_chunk_size * n) \/
  (heap_allocate None h bytes al = Fault KernelPanic /\
   forall b s, b ∈ heap_blocks h -> ~ fits b n al s).
Proof.
  intros [HF Hap Htot Hsm] Hb Hal Hp n. subst n.
  pose proof (chunks_for_bounds bytes ltac:(lia)) as (Hn & _).
  destruct (pow2_alignment al Hal Hp) as (j & Ej & Hj).
  unfold heap_allocate. rewrite Hp.
  replace ((bytes =? 0) || (bytes >? upper_allocation_threshold)) with false by blia.
  replace (negb (1 =? 1) || (al >? 4096)) with false by blia. run.
  destruct (allocate_from_Ok (heap_blocks h) AA bytes al j HF ltac:(lia) Ej Hj)
    as [[-> Hno]|(bs1 & b & bs2 & AA1 & A & AA2 & s & b' & id & Ebs & -> & F1 & F2 & Hrep & Hno &
      -> & Hfit & Hmin & Hrep' & Hh & Hfr & _)]; run; [by right|left].
  eexists bs1, b, bs2, AA1, A, AA2, s, b', _.
  split_and!; try done; [by eapply Forall2_length| | |].
  - pose proof (sum_free_nonneg _ _ F1). pose proof (sum_free_nonneg _ _ F2).
    pose proof (free_chunks_bounds _ _ Hrep'). pose proof (free_chunks_bounds _ _ Hrep).
    rewrite Ebs in *. rewrite sum_free_app, sum_free_cons in *.
    constructor; cbn [heap_blocks total_free_bytes]; rewrite ?sum_free_app, ?sum_free_cons;
      cbn [hb_free_chunks set_bitmap].
    + apply Forall2_app; [done|]. by constructor.
    + by eapply apart_replace.
    + unfold default_chunk_size in *. rewrite wrap64_small by (unfold is_u64; lia). lia.
    + unfold default_chunk_size in *. lia.
  - destruct (A !! s) as [n'|] eqn:E; [|done]. destruct (br_run _ _ Hrep _ _ E) as (_ & _ & _ & Hz & _).
    destruct Hfit as (_ & _ & Hfree & _). exfalso. apply Hz, Hfree. lia.
  - cbn [total_free_bytes]. pose proof (sum_free_nonneg _ _ F1). pose proof (sum_free_nonneg _ _ F2).
    pose proof (free_chunks_bounds _ _ Hrep'). rewrite Ebs in *. rewrite sum_free_app, sum_free_cons in *.
    unfold default_chunk_size in *. rewrite wrap64_small by (unfold is_u64; lia). lia.
Qed.

(** C7: [allocate] takes the first block with room and in it the lowest free run of
    chunks that holds the request and starts at an address aligned as asked; the new
    allocation is added to the allocations of that block, no other changes, the
    accounting of free bytes stays exact; it panics exactly when no block has such a
    run.  (The case in which it does not refill.) *)
Theorem heap_allocate_correct (h : heap) (AA : list (gmap Z Z)) (bytes al : Z) :
  heap_rep h AA -> 0 < bytes <= upper_allocation_threshold ->
  0 <= al <= 4096 -> count_set_bits 64 al = 1 ->
  let n := chunks_for bytes in
  (exists bs1 b bs2 AA1 A AA2 s b' h',
    heap_blocks h = bs1 ++ b :: bs2 /\ AA = AA1 ++ A :: AA2 /\ length bs1 = length AA1 /\
    heap_allocate None h bytes al = Ok (hb_data b + default_chunk_size * s, h') /\
    fits b n al s /\ (forall s', fits b n al s' -> s <= s') /\
    (forall c s', c ∈ bs1 -> ~ fits c n al s') /\
    heap_blocks h' = bs1 ++ b' :: bs2 /\ same_header b b' /\
    heap_rep h' (AA1 ++ <[s := n]> A :: AA2) /\ A !! s = None /\
    total_free_bytes h' = total_free_bytes h - default_chunk_size * n) \/
  (heap_allocate None h bytes al = Fault KernelPanic /\
   forall b s, b ∈ heap_blocks h -> ~ fits b n al s).
Proof. apply heap_allocate_Ok. Qed.

(** C8: [free] of the pointer of an allocation releases exactly the chunks of that
    allocation, in the block that owns the pointer: the allocation is gone from the
    block, everything else stays, and the free bytes grow by its size. *)
Theorem heap_free_correct (h : heap) (bs1 : list heap_block) (b : heap_block)
    (bs2 : list heap_block) (AA1 : list (gmap Z Z)) (A : gmap Z Z) (AA2 : list (gmap Z Z))
    (s n : Z) :
  heap_rep h (AA1 ++ A :: AA2) -> heap_blocks h = bs1 ++ b :: bs2 ->
  length bs1 = length AA1 -> A !! s = Some n -> sum_free (heap_blocks h) + default_chunk_size * n < W64 ->
  exists h', heap_free h (hb_data b + default_chunk_size * s) = Ok h' /\
    heap_rep h' (AA1 ++ delete s A :: AA2) /\
    total_free_bytes h' = total_free_bytes h + default_chunk_size * n.
Proof.
  intros [HF Hap Htot Hsm] Ebs Hlen Hs Hnw. rewrite Ebs in *.
  pose proof HF as HF'. apply Forall2_app_inv in HF' as [F1 F2]; [|done].
  apply Forall2_cons in F2 as [Hrep F2].
  destruct (br_run _ _ Hrep s n Hs) as (Hs0 & Hn & Hle & _).
  destruct (block_free_Ok b A s n Hrep Hs) as (Hin & bm' & Ef & Ew & Em & Hrep' & Hlen' & _).
  pose proof (br_wf _ _ Hrep) as (_ & _ & _ & _ & Hd & _ & _).
  unfold heap_free. replace (hb_data b + default_chunk_size * s =? 0) with false
    by (unfold default_chunk_size; blia).
  rewrite Ebs, (free_from_Ok bs1 b bs2 _ bm' n) by
    (done || (intros c Hc; eapply contains_unique; try done; lia)).
  run. rewrite Ew, Em. eexists; split; [done|]. cbn [total_free_bytes].
  pose proof (sum_free_nonneg _ _ HF). rewrite sum_free_app, sum_free_cons in *.
  unfold default_chunk_size in *.
  rewrite (wrap64_small (total_free_bytes h + _)) by (unfold is_u64; lia). split; [|lia].
  constructor; cbn [heap_blocks total_free_bytes]; rewrite ?sum_free_app, ?sum_free_cons;
      cbn [hb_free_chunks set_bitmap].
  - apply Forall2_app; [done|]. by constructor.
  - eapply apart_replace; [|done]. done.
  - unfold default_chunk_size. lia.
  - unfold default_chunk_size. lia.
Qed.

(** [free] undoes [allocate]: freeing the pointer just returned succeeds and gives
    back the same blocks, bitmaps included, and the same amount of free bytes. *)
Theorem heap_allocate_free (h : heap) (AA : list (gmap Z Z)) (bytes al p : Z) (h' : heap) :
  heap_rep h AA -> 0 < bytes <= upper_allocation_threshold ->
  0 <= al <= 4096 -> count_set_bits 64 al = 1 ->
  heap_allocate None h bytes al = Ok (p, h') ->
  exists h'', heap_free h' p = Ok h'' /\ heap_blocks h'' = heap_blocks h /\
    total_free_bytes h'' = total_free_bytes h.
Proof.
  intros [HF Hap Htot Hsm] Hb Hal Hp E. destruct (pow2_alignment al Hal Hp) as (j & Ej & Hj).
  unfold heap_allocate in E. rewrite Hp in E.
  replace ((bytes =? 0) || (bytes >? upper_allocation_threshold)) with false in E by blia.
  replace (negb (1 =? 1) || (al >? 4096)) with false in E by blia.
  cbn [mbind result_bind mret result_ret panic_if] in E.
  destruct (allocate_from_Ok (heap_blocks h) AA bytes al j HF ltac:(lia) Ej Hj)
    as [[Ea _]|(bs1 & b & bs2 & AA1 & A & AA2 & s & b' & id & Ebs & -> & F1 & F2 & Hrep & Hno &
      Ea & Hfit & Hmin & Hrep' & Hh & Hfr & Hc)]; rewrite Ea in E; [done|].
  cbn [mbind result_bind mret result_ret] in E. injection E as <- <-.
  set (n := chunks_for bytes) in *.
  pose proof (chunks_for_bounds bytes ltac:(lia)) as (Hn & _). fold n in Hn.
  destruct Hfit as (Hs0 & Hle & Hfree & _).
  destruct (block_free_Ok b' _ s n Hrep' (lookup_insert_eq _ _ _))
    as (Hin & bm' & Ef & Ew & Em & Hrep'' & Hlen' & Hc').
  pose proof Hh as (Ha & Hd & Hcnt & Hcs & Hl).
  assert (Ebm : bm' = hb_bitmap b).
  { apply bitmap_ext; [apply (br_wf _ _ Hrep'')|apply (br_wf _ _ Hrep)|congruence|].
    intros k Hk. rewrite Hc', Hc by lia. destruct (in_run s n k) eqn:Ei; [|done].
    apply in_run_spec in Ei. symmetry. apply Hfree. lia. }
  pose proof (br_wf _ _ Hrep) as (_ & _ & _ & _ & Hd0 & _ & _).
  unfold heap_free. replace (hb_data b + default_chunk_size * s =? 0) with false
    by (unfold default_chunk_size; blia).
  assert (HF' : Forall2 block_rep (bs1 ++ b' :: bs2) (AA1 ++ <[s := n]> A :: AA2))
    by (apply Forall2_app; [done|by constructor]).
  rewrite <- Hd in *. cbn [heap_blocks total_free_bytes].
  rewrite (free_from_Ok bs1 b' bs2 _ bm' n); [|..|exact Ef].
  - run. rewrite Ew, Em, Hfr, Ebm. eexists; split; [done|]. cbn [heap_blocks total_free_bytes].
    split.
    + rewrite Ebs, Z.sub_add. by rewrite set_bitmap_restore.
    + pose proof (sum_free_nonneg _ _ F1). pose proof (sum_free_nonneg _ _ F2).
      pose proof (free_chunks_bounds _ _ Hrep'). rewrite Htot, Ebs, sum_free_app, sum_free_cons in *.
      unfold default_chunk_size in *.
      rewrite (wrap64_small (_ - 32 * n)) by (unfold is_u64; lia).
      rewrite wrap64_small by (unfold is_u64; lia). lia.
  - rewrite Ebs in Hap. intros c Hcc.
    eapply (contains_unique bs1 b' bs2); [exact HF'|by eapply apart_replace|rewrite Hcnt; lia|done].
  - done.
Qed.

(** ** Feeding a block *)

Lemma cid_replicate n k : cid (replicate n 0) k = 0.
Proof.
  assert (Hz : forall q, byte_id 0 q = 0) by (intros q; unfold byte_id; by rewrite Zdiv_0_l).
  unfold cid. destruct (replicate n 0 !! _) eqn:E; simpl; [|apply Hz].
  apply lookup_replicate in E as [-> _]. apply Hz.
Qed.

(** The sizes [feed_block] computes, without wrapping. *)
Lemma feed_sizes ptr size :
  0 < ptr -> 4136 <= size -> ptr + size < W64 ->
  exists bytes count, let data := ptr + sizeof_HeapBlockHeader + bytes in
    feed_block (Heap [] 0 0 0 false) ptr size default_chunk_size =
      Heap [HeapBlock ptr data count default_chunk_size count (replicate (Z.to_nat bytes) 0)]
        (default_chunk_size * count) 0 0 false /\
    0 < bytes <= size / 128 + 32 /\ 0 <= count < 4 * bytes /\
    data mod default_chunk_size = 0 /\ data + default_chunk_size * count <= ptr + size /\
    size - size / 128 - 136 <= default_chunk_size * count.
Proof.
  intros Hp Hs Hw. unfold feed_block, default_chunk_size, sizeof_HeapBlockHeader.
  cbn [heap_blocks total_free_bytes calls_to_allocate calls_to_free is_being_refilled].
  rewrite (wrap64_small (size - 40)) by (unfold is_u64; lia).
  set (n0 := (size - 40) / 32). assert (Hn0 : 128 <= n0 <= size / 32) by (unfold n0; dlia).
  assert (Hs32 : size / 32 * 32 <= size) by dlia.
  rewrite (wrap64_small (n0 - 1)) by (unfold is_u64; lia).
  set (bb := (n0 - 1) / 4). assert (Hbb : 4 * bb <= n0 - 1 < 4 * bb + 4) by (unfold bb; dlia).
  clearbody bb. rewrite (wrap64_small (1 + bb)) by (unfold is_u64; lia).
  rewrite (wrap64_small (ptr + 40)) by (unfold is_u64; lia).
  rewrite (wrap64_small (ptr + 40 + (1 + bb))) by (unfold is_u64; lia).
  set (over := if negb _ then _ else 0).
  assert (Hover : 0 <= over < 32 /\ (ptr + 40 + (1 + bb) + over) mod 32 = 0).
  { unfold over. destruct (Z.eqb_spec ((ptr + 40 + (1 + bb)) mod 32) 0); cbn [negb].
    - rewrite Z.add_0_r. lia.
    - rewrite wrap64_small by (unfold is_u64; dlia). dlia. }
  clearbody over. destruct Hover as [Ho Hom].
  rewrite (wrap64_small (1 + bb + over)) by (unfold is_u64; lia).
  rewrite (wrap64_small (size - 40 - _)) by (unfold is_u64; lia).
  set (pure := size - 40 - (1 + bb + over)). set (pure' := if negb _ then _ else pure).
  assert (Hpure : pure' = 32 * (pure / 32)).
  { unfold pure'. destruct (Z.eqb_spec (pure mod 32) 0); cbn [negb]; [dlia|].
    rewrite wrap64_small by (unfold is_u64, pure; dlia). dlia. }
  clearbody pure'. subst pure'.
  replace (32 * (pure / 32) / 32) with (pure / 32) by dlia.
  set (count := pure / 32). assert (Hcount : 32 * count <= pure < 32 * count + 32) by (unfold count; dlia).
  assert (H128 : 128 * (size / 128) <= size < 128 * (size / 128) + 128) by dlia.
  assert (Hn0' : 32 * n0 <= size - 40 < 32 * n0 + 32) by (unfold n0; dlia).
  clearbody n0 count.
  rewrite (wrap64_small (ptr + 40 + _)) by (unfold is_u64; lia).
  rewrite (wrap64_small (count * 32)) by (unfold is_u64, pure in *; lia).
  rewrite wrap64_small by (unfold is_u64, pure in *; lia).
  exists (1 + bb + over), count. cbv zeta. split.
  { f_equal. lia. }
  replace (ptr + 40 + (1 + bb + over)) with (ptr + 40 + (1 + bb) + over) by lia.
  unfold pure in *. split_and!; try done; lia.
Qed.

Lemma feed_block_shape h ptr size :
  feed_block h ptr size default_chunk_size =
  let f := feed_block (Heap [] 0 0 0 false) ptr size default_chunk_size in
  Heap (match heap_blocks h with
        | first :: rest => first :: heap_blocks f ++ rest
        | [] => heap_blocks f
        end) (total_free_bytes h +! total_free_bytes f)
    (calls_to_allocate h) (calls_to_free h) (is_being_refilled h).
Proof.
  unfold feed_block. cbn [heap_blocks total_free_bytes calls_to_allocate calls_to_free
    is_being_refilled app]. cbv zeta. f_equal.
  unfold wrap64. rewrite Z.add_0_l, !Z.mod_mod by lia. by rewrite Zplus_mod_idemp_r.
Qed.

(** The new block has no allocations. *)
Lemma fresh_block ptr data bytes count :
  0 < data -> data mod default_chunk_size = 0 ->
  data + default_chunk_size * count < W64 -> 0 <= count < 4 * bytes -> 64 * bytes < W64 ->
  block_rep (HeapBlock ptr data count default_chunk_size count (replicate (Z.to_nat bytes) 0)) ∅.
Proof.
  intros Hd Hm Hw Hc Hb. constructor; cbn [hb_bitmap hb_chunk_count hb_free_chunks].
  - split_and!; cbn; rewrite ?length_replicate; try done; try lia.
    + apply Forall_replicate. unfold is_u8. lia.
    + unfold small_bitmap. rewrite length_replicate. lia.
  - rewrite count_if_true; [lia|]. intros i Hi. by rewrite cid_replicate.
  - intros k _. apply cid_replicate.
  - intros s n E. by rewrite lookup_empty in E.
  - intros s n s' n' E. by rewrite lookup_empty in E.
  - intros k _ Hne. by rewrite cid_replicate in Hne.
Qed.

Lemma feed_block_Ok (h : heap) (AA : list (gmap Z Z)) (ptr size : Z) :
  heap_rep h AA -> 0 < ptr -> 4136 <= size -> ptr + size < W64 ->
  (forall b, b ∈ heap_blocks h -> hb_end b <= ptr \/ ptr + size < hb_data b) ->
  sum_free (heap_blocks h) + size < W64 ->
  let h' := feed_block h ptr size default_chunk_size in
  heap_rep h' (match AA with A :: AA => A :: ∅ :: AA | [] => [∅] end) /\
  exists b, b ∈ heap_blocks h' /\ hb_address b = ptr /\
    ptr + sizeof_HeapBlockHeader + Z.of_nat (length (hb_bitmap b)) = hb_data b /\
    hb_end b <= ptr + size /\
    size - size / 128 - 136 <= default_chunk_size * hb_chunk_count b /\
    total_free_bytes h' = total_free_bytes h + default_chunk_size * hb_chunk_count b.
Proof.
  intros [HF Hap Htot Hsm] Hp Hs Hw Hdis Hsum h'. unfold h'. rewrite feed_block_shape.
  destruct (feed_sizes ptr size Hp Hs Hw) as (bytes & count & -> & Hb & Hc & Hm & He & Hsz).
  set (data := ptr + sizeof_HeapBlockHeader + bytes) in *.
  cbn [heap_blocks total_free_bytes app].
  set (b := HeapBlock ptr data count default_chunk_size count (replicate (Z.to_nat bytes) 0)).
  unfold sizeof_HeapBlockHeader, default_chunk_size in *.
  assert (Hfresh : block_rep b ∅).
  { apply fresh_block; unfold default_chunk_size; try done; try lia. dlia. }
  destruct (chunk_pointer b 0 (br_wf _ _ Hfresh)) as (_ & _ & Hend); [simpl; lia|].
  change (hb_end b = data + 32 * count) in Hend.
  assert (Hap' : forall c, c ∈ heap_blocks h -> blocks_apart c b /\ blocks_apart b c).
  { intros c Hcc. unfold blocks_apart. rewrite Hend. change (hb_data b) with data.
    destruct (Hdis c Hcc); unfold data in *; lia. }
  pose proof (sum_free_nonneg _ _ HF). rewrite wrap64_small by (unfold is_u64; lia).
  assert (Hin : b ∈ match heap_blocks h with [] => [b] | first :: rest => first :: b :: rest end)
    by (destruct (heap_blocks h); set_solver).
  split.
  - destruct HF as [|c A bs AA Hc0 HF]; constructor; cbn [heap_blocks total_free_bytes].
    + by apply Forall2_cons.
    + repeat constructor.
    + rewrite Htot. cbn. unfold default_chunk_size. lia.
    + cbn. unfold default_chunk_size. lia.
    + by rewrite !Forall2_cons.
    + apply StronglySorted_cons in Hap as [Hap1 Hap2].
      rewrite !StronglySorted_cons, Forall_cons. split_and!; try done.
      * apply Hap'. set_solver.
      * apply Forall_forall. intros d Hd. apply Hap'. set_solver.
    + rewrite Htot, !sum_free_cons. cbn [hb_free_chunks b]. unfold default_chunk_size. lia.
    + rewrite !sum_free_cons in *. cbn [hb_free_chunks b]. unfold default_chunk_size in *. lia.
  - exists b. split; [done|]. rewrite Hend. cbn [hb_address hb_data hb_bitmap hb_chunk_count b].
    rewrite length_replicate. unfold data in *. split_and!; try done; lia.
Qed.

(** [feed_block] on a region of more than a page that overlaps no other block adds an
    empty block whose header, bitmap and chunks lie inside the region, with a spare id
    after the last chunk; all but 1/128 of the region and a fixed 136 bytes become
    chunks, and the heap stays well formed. *)
Theorem feed_block_correct (h : heap) (AA : list (gmap Z Z)) (ptr size : Z) :
  heap_rep h AA -> 0 < ptr -> 4136 <= size -> ptr + size < W64 ->
  (forall b, b ∈ heap_blocks h -> hb_end b <= ptr \/ ptr + size < hb_data b) ->
  sum_free (heap_blocks h) + size < W64 ->
  let h' := feed_block h ptr size default_chunk_size in
  heap_rep h' (match AA with A :: AA => A :: ∅ :: AA | [] => [∅] end) /\
  exists b, b ∈ heap_blocks h' /\ hb_address b = ptr /\
    ptr + sizeof_HeapBlockHeader + Z.of_nat (length (hb_bitmap b)) = hb_data b /\
    hb_end b <= ptr + size /\
    size - size / 128 - 136 <= default_chunk_size * hb_chunk_count b /\
    total_free_bytes h' = total_free_bytes h + default_chunk_size * hb_chunk_count b.
Proof. apply feed_block_Ok. Qed.

(** [free] detects bad pointers: a pointer outside every block panics, and so does a
    pointer into a chunk that belongs to no allocation, a double free. *)
Theorem heap_free_rejects (h : heap) (AA : list (gmap Z Z)) (p : Z) :
  heap_rep h AA -> p <> 0 ->
  ((forall b, b ∈ heap_blocks h -> hb_contains b p = false) ->
   heap_free h p = Fault KernelPanic) /\
  (forall bs1 b bs2 k, heap_blocks h = bs1 ++ b :: bs2 -> 0 <= k < hb_chunk_count b ->
     p = hb_data b + default_chunk_size * k -> cid (hb_bitmap b) k = 0 ->
     heap_free h p = Fault KernelPanic).
Proof.
  intros [HF Hap _ _] Hp. unfold heap_free. replace (p =? 0) with false by lia. split.
  - intros Hno. clear HF Hap. induction (heap_blocks h) as [|b bs IH]; cbn [free_from]; [done|].
    rewrite Hno by set_solver. destruct (free_from bs p) as [[]|e] eqn:E; run.
    + exfalso. discriminate IH. set_solver.
    + apply IH. set_solver.
  - intros bs1 b bs2 k Ebs Hk -> Hfree. rewrite Ebs in *.
    pose proof (contains_unique bs1 b bs2 AA k HF Hap ltac:(lia)) as Hno.
    apply Forall2_app_inv_l in HF as (A1 & A2 & F1 & F2 & ->).
    apply Forall2_cons_inv_l in F2 as (A & A2' & Hrep & _ & ->).
    destruct (br_wf _ _ Hrep) as (Hbm & Hrest).
    destruct (chunk_pointer b k (br_wf _ _ Hrep) ltac:(lia)) as (Hin & Hwb & _).
    assert (Ef : free_chunks (S (4 * length (hb_bitmap b))) (hb_bitmap b)
      (which_bit b (hb_data b + default_chunk_size * k)) 0 0 = Fault KernelPanic).
    { rewrite Hwb. cbn [free_chunks].
      destruct (bitmap_byte _ Hbm k) as (c & E & Hc & Ec & Hd & Hm & E8 & E9); [lia|].
      rewrite E8, E9, E. run. cbn [Z.eqb]. cbv zeta.
      destruct (byte_read c (k mod 4) Hc Hm) as (-> & _ & -> & _). by rewrite <- Ec, Hfree. }
    clear -Hno Hin Ef. induction bs1 as [|c bs1 IH]; cbn [free_from app].
    + by rewrite Hin, Ef.
    + rewrite Hno by set_solver. destruct (free_from (bs1 ++ b :: bs2) _) as [[]|e] eqn:E; run.
      * exfalso. discriminate IH. set_solver.
      * apply IH. set_solver.
Qed.

(** ** Witnesses *)

(** A heap of one block of two pages. *)
Definition empty_heap : heap := Heap [] 0 0 0 false.
Definition heap_example : heap := feed_block empty_heap 0x100000 8192 default_chunk_size.

Lemma empty_heap_rep : heap_rep empty_heap [].
Proof. split; try constructor; done. Qed.

Lemma heap_example_rep : heap_rep heap_example [∅].
Proof.
  apply (feed_block_Ok empty_heap [] 0x100000 8192 empty_heap_rep); try lia; [|done].
  intros b Hb. by apply not_elem_of_nil in Hb.
Qed.

Lemma feed_block_correct_witness :
  heap_rep (feed_block empty_heap 0x100000 8192 default_chunk_size) [∅] /\
  total_free_bytes heap_example = 8064.
Proof.
  split; [|vm_compute; reflexivity].
  apply (feed_block_correct empty_heap [] 0x100000 8192 empty_heap_rep);
    [lia|lia|lia| |vm_compute; reflexivity].
  intros b Hb. exfalso. apply (not_elem_of_nil _ Hb).
Defined.

Lemma heap_allocate_correct_witness :
  exists h', heap_allocate None heap_example 100 256 = Ok (0x100100, h') /\
    total_free_bytes h' = 8064 - 128.
Proof.
  destruct (heap_allocate_correct heap_example [∅] 100 256 heap_example_rep)
    as [(bs1 & b & bs2 & AA1 & A & AA2 & s & b' & h' & _ & _ & _ & E & _ & _ & _ & _ & _ & _ & _ & Ht)|
      [E _]];
    [unfold upper_allocation_threshold; lia|lia|reflexivity| |].
  - exists h'. rewrite Ht. split; [|reflexivity]. rewrite E. f_equal. f_equal.
    vm_compute in E. injection E as E _. symmetry. exact E.
  - vm_compute in E. discriminate E.
Defined.

(** The example after one allocation. *)
Definition heap_example' : heap :=
  match heap_allocate None heap_example 100 32 with Ok (_, h) => h | Fault _ => heap_example end.

Lemma heap_allocate_free_witness :
  heap_allocate None heap_example 100 32 = Ok (0x100080, heap_example') /\
  exists h'', heap_free heap_example' 0x100080 = Ok h'' /\
    heap_blocks h'' = heap_blocks heap_example.
Proof.
  assert (E : heap_allocate None heap_example 100 32 = Ok (0x100080, heap_example'))
    by (vm_compute; reflexivity).
  split; [exact E|].
  destruct (heap_allocate_free heap_example [∅] 100 32 0x100080 heap_example' heap_example_rep)
    as (h'' & Ef & Eb & _); [unfold upper_allocation_threshold; lia|lia|reflexivity|exact E|].
  exists h''. split; [exact Ef|exact Eb].
Defined.

Lemma heap_free_correct_witness :
  exists p h' h'', heap_allocate None heap_example 100 32 = Ok (p, h') /\
    heap_free h' p = Ok h'' /\ total_free_bytes h'' = total_free_bytes h' + 128.
Proof.
  destruct (heap_allocate_Ok heap_example [∅] 100 32 heap_example_rep)
    as [(bs1 & b & bs2 & AA1 & A & AA2 & s & b' & h' & _ & _ & El & E & _ & _ & _ & Eb & Hh & Hr & _ & Ht)|
      [E _]]; [unfold upper_allocation_threshold; lia|lia|reflexivity| |].
  - destruct (heap_free_correct h' bs1 b' bs2 AA1 _ AA2 s (chunks_for 100) Hr Eb El)
      as (h'' & Ef & _ & Ht'').
    + apply lookup_insert_eq.
    + rewrite <- (hr_total _ _ Hr), Ht. vm_compute. reflexivity.
    + exists (hb_data b + default_chunk_size * s), h', h''. split; [exact E|].
      destruct Hh as (_ & Hd & _). rewrite Hd in Ef. split; [exact Ef|exact Ht''].
  - vm_compute in E. discriminate E.
Defined.

Lemma heap_free_rejects_witness :
  heap_free heap_example 0x5000 = Fault KernelPanic /\
  heap_free heap_example 0x100080 = Fault KernelPanic.
Proof.
  split.
  - apply (heap_free_rejects heap_example [∅] 0x5000 heap_example_rep); [lia|].
    intros b Hb. apply elem_of_cons in Hb as [->|Hb]; [vm_compute; reflexivity|].
    exfalso. apply (not_elem_of_nil _ Hb).
  - destruct (heap_free_rejects heap_example [∅] 0x100080 heap_example_rep) as [_ Hk]; [lia|].
    destruct (heap_blocks heap_example) as [|b bs] eqn:E; [vm_compute in E; discriminate E|].
    apply (Hk [] b bs 0 eq_refl); vm_compute in E; injection E as <- <-;
      vm_compute; (split; [discriminate|reflexivity]) || reflexivity.
Defined.

(** A block whose bitmap has no spare id: feeding 3136 page-aligned bytes gives 96 chunks
    and a 24-byte bitmap, and the allocation of the last chunk reads the id after it, a
    byte of the chunks' data. *)
Example exact_bitmap_reads_data :
  let h := feed_block empty_heap 0x100000 3136 default_chunk_size in
  heap_allocate None h (96 * 32) 32 = Fault OutOfBounds.
Proof. vm_compute. reflexivity. Qed.
