(* ===== verification/Time.v ===== *)
(** Kernel/Time/Time.{h,cpp} and RTC.cpp: the system clock, conversion between Unix time and
    calendar dates, and decoding of the CMOS real-time clock. *)
From S2P Require Import Prelude.

(** ** Data *)

(** [Kernel/Time/Time.h:11-19] the unit constants and epoch_year *)
Definition nanoseconds_in_second : Z := 1000000000.
Definition seconds_in_day : Z := 86400.
Definition seconds_in_hour : Z := 3600.
Definition seconds_in_minute : Z := 60.
Definition epoch_year : Z := 1970.

(** [Kernel/Time/Time.h:67-76] HumanReadable *)
Record human_readable := HumanReadable {
  hr_year : Z; hr_month : Z; hr_day : Z; hr_hour : Z; hr_minute : Z; hr_second : Z;
}.

#[export] Instance human_readable_eq_dec : EqDecision human_readable.
Proof. solve_decision. Defined.

(** [Kernel/Time/Time.h:130-132] the static clock: nanoseconds not yet counted and seconds *)
Record clock := Clock { s_ns : Z; s_now : Z }.

(** ** The clock *)

(** [Kernel/Time/Time.cpp:181-189] check_if_second_passed *)
Definition check_if_second_passed (c : clock) : clock :=
  let seconds_passed := s_ns c / nanoseconds_in_second in
  if seconds_passed =? 0 then c
  else Clock (s_ns c -! (seconds_passed *! nanoseconds_in_second)) (s_now c +! seconds_passed).

(** [Kernel/Time/Time.cpp:16-20] on_timer_tick, for a timer of the given frequency *)
Definition on_timer_tick (frequency : Z) (c : clock) : clock :=
  check_if_second_passed (Clock (s_ns c +! (nanoseconds_in_second / frequency)) (s_now c)).

(** ** The calendar *)

(** [Kernel/Time/Time.cpp:22-32] is_leap_year *)
Definition is_leap_year (year : Z) : bool :=
  if negb (year mod 4 =? 0) then false
  else if negb (year mod 100 =? 0) then true
  else if negb (year mod 400 =? 0) then false
  else true.

(** [Kernel/Time/Time.cpp:40-42] the loop of days_in_years_since_epoch_before *)
Fixpoint sum_years (fuel : nat) (current_year days_total : Z) : result Z :=
  match fuel with
  | O => Fault OutOfFuel
  | S fuel =>
    if current_year >=? epoch_year then
      sum_years fuel (wrap16 (current_year - 1))
        (wrap32 (days_total + (if is_leap_year current_year then 366 else 365)))
    else mret days_total
  end.

(** [Kernel/Time/Time.cpp:34-45] days_in_years_since_epoch_before *)
Definition days_in_years_since_epoch_before (current_year : Z) : result Z :=
  sum_years (Z.to_nat 65536) (wrap16 (current_year - 1)) 0.

(** [Kernel/Time/Time.cpp:47-91] days_in_months_since_start_of
    The cases fall through from the month before [current] down to January. *)
Definition days_in_months_since_start_of (year current : Z) : result Z :=
  let february := if is_leap_year year then 29 else 28 in
  let current := wrap8 (current - 1) in
  match current with
  | 12 => Fault AssertionFailed
  | 11 => mret (30 + 31 + 30 + 31 + 31 + 30 + 31 + 30 + 31 + february + 31)
  | 10 => mret (31 + 30 + 31 + 31 + 30 + 31 + 30 + 31 + february + 31)
  | 9 => mret (30 + 31 + 31 + 30 + 31 + 30 + 31 + february + 31)
  | 8 => mret (31 + 31 + 30 + 31 + 30 + 31 + february + 31)
  | 7 => mret (31 + 30 + 31 + 30 + 31 + february + 31)
  | 6 => mret (30 + 31 + 30 + 31 + february + 31)
  | 5 => mret (31 + 30 + 31 + february + 31)
  | 4 => mret (30 + 31 + february + 31)
  | 3 => mret (31 + february + 31)
  | 2 => mret (february + 31)
  | 1 => mret 31
  | _ => mret 0
  end.

(** [Kernel/Time/Time.cpp:93-123] days_in_month *)
Definition days_in_month (month of_year : Z) : Z :=
  match month with
  | 12 => 31
  | 11 => 30
  | 10 => 31
  | 9 => 30
  | 8 => 31
  | 7 => 31
  | 6 => 30
  | 5 => 31
  | 4 => 30
  | 3 => 31
  | 2 => if is_leap_year of_year then 29 else 28
  | 1 => 31
  | _ => 0
  end.

(** [Kernel/Time/Time.cpp:125-130] to_unix *)
Definition to_unix (time : human_readable) : result Z :=
  years ← days_in_years_since_epoch_before (hr_year time);
  months ← days_in_months_since_start_of (hr_year time) (hr_month time);
  mret (years *! seconds_in_day +! (months *! seconds_in_day)
        +! ((hr_day time - 1) *! seconds_in_day) +! (hr_hour time *! seconds_in_hour)
        +! (hr_minute time *! seconds_in_minute) +! hr_second time).

Definition seconds_in_year : Z := seconds_in_day * 365.
Definition seconds_in_leap_year : Z := seconds_in_day * 366.

(** [Kernel/Time/Time.cpp:142-151] the year loop of from_unix *)
Fixpoint find_year (fuel : nat) (year time : Z) : result (Z * Z) :=
  match fuel with
  | O => Fault OutOfFuel
  | S fuel =>
    if time >=? seconds_in_year then
      let is_leap := is_leap_year year in
      if is_leap && (time <? seconds_in_leap_year) then mret (year, time)
      else find_year fuel (wrap16 (year + 1))
             (time -! (if is_leap then seconds_in_leap_year else seconds_in_year))
    else mret (year, time)
  end.

(** [Kernel/Time/Time.cpp:153-162] the month loop of from_unix *)
Fixpoint find_month (fuel : nat) (year month time : Z) : result (Z * Z) :=
  match fuel with
  | O => Fault OutOfFuel
  | S fuel =>
    let seconds_in_this_month := days_in_month month year * seconds_in_day in
    if time <? seconds_in_this_month then mret (month, time)
    else find_month fuel year (wrap8 (month + 1)) (time -! seconds_in_this_month)
  end.

(** [Kernel/Time/Time.cpp:132-179] from_unix *)
Definition from_unix (time : Z) : result human_readable :=
  '(year, time) ← find_year (S (Z.to_nat (time / seconds_in_year))) epoch_year time;
  '(month, time) ← find_month 13 year 1 time;
  let day := wrap8 (time / seconds_in_day + 1) in
  let time := if day >? 1 then time -! ((day - 1) *! seconds_in_day) else time in
  let hour := wrap8 (time / seconds_in_hour) in
  let time := if negb (hour =? 0) then time -! (hour *! seconds_in_hour) else time in
  let minute := wrap8 (time / seconds_in_minute) in
  let time := if negb (minute =? 0) then time -! (minute *! seconds_in_minute) else time in
  mret (HumanReadable year month day hour minute (wrap8 time)).

(** ** The real-time clock *)

(** [Kernel/Common/Conversions.h:147-152] bcd_to_binary of a byte *)
Definition bcd_to_binary8 (v : Z) : Z :=
  wrap8 (Z.shiftr (Z.land v 0xF0) 4 * 10 + Z.land v 0x0F).

(** [Kernel/Common/Conversions.h:153-157] bcd_to_binary of a 16-bit value *)
Definition bcd_to_binary16 (v : Z) : Z :=
  wrap16 (Z.shiftr (Z.land v 0xF000) 12 * 1000 + Z.shiftr (Z.land v 0x0F00) 8 * 100
          + Z.shiftr (Z.land v 0x00F0) 4 * 10 + Z.land v 0x000F).

(** [Kernel/Time/RTC.cpp:45-62] the loop that reads the clock until two readings agree:
    [readings] are what successive reads of the registers give. *)
Fixpoint stable_reading (last : human_readable) (readings : list human_readable)
  : option human_readable :=
  match readings with
  | [] => None
  | t :: readings =>
    if negb (hr_second t =? hr_second last) || negb (hr_minute t =? hr_minute last) ||
       negb (hr_hour t =? hr_hour last) || negb (hr_day t =? hr_day last) ||
       negb (hr_year t =? hr_year last)
    then stable_reading t readings
    else Some t
  end.

(** [Kernel/Time/RTC.cpp:65-79] decoding a reading under the given time format *)
Definition decode_reading (time_format : Z) (t : human_readable) : human_readable :=
  let is_12_hours := Z.land time_format 2 =? 0 in
  let is_bcd := Z.land time_format 4 =? 0 in
  let t :=
    if is_bcd then
      HumanReadable (bcd_to_binary16 (hr_year t)) (bcd_to_binary8 (hr_month t))
        (bcd_to_binary8 (hr_day t)) (bcd_to_binary8 (hr_hour t))
        (bcd_to_binary8 (hr_minute t)) (bcd_to_binary8 (hr_second t))
    else t in
  let pm_bit := 128 in
  let hour :=
    if is_12_hours && negb (Z.land (hr_hour t) pm_bit =? 0)
    then (Z.land (hr_hour t) (255 - pm_bit) + 12) mod 24 else hr_hour t in
  HumanReadable (wrap16 (hr_year t + 2000)) (hr_month t) (hr_day t) hour
    (hr_minute t) (hr_second t).

(** [Kernel/Time/RTC.cpp:18-82] synchronize_system_clock: [None] while the readings do not
    settle. *)
Definition synchronize_system_clock (time_format : Z) (readings : list human_readable)
    (c : clock) : option (result clock) :=
  match readings with
  | [] => None
  | first :: readings =>
    t ← stable_reading first readings;
    Some (now ← to_unix (decode_reading time_format t); mret (Clock (s_ns c) now))
  end.

(** ** The Gregorian calendar, independently of the code *)

Definition gregorian_leap (y : Z) : bool :=
  ((y mod 4 =? 0) && negb (y mod 100 =? 0)) || (y mod 400 =? 0).

Definition month_length (y m : Z) : Z :=
  nth (Z.to_nat (m - 1))
    [31; if gregorian_leap y then 29 else 28; 31; 30; 31; 30; 31; 31; 30; 31; 30; 31] 0.

Definition valid_date (t : human_readable) : Prop :=
  1970 <= hr_year t < 65535 /\ 1 <= hr_month t <= 12 /\
  1 <= hr_day t <= month_length (hr_year t) (hr_month t) /\
  0 <= hr_hour t < 24 /\ 0 <= hr_minute t < 60 /\ 0 <= hr_second t < 60.

(** The date one second later. *)
Definition next_second (t : human_readable) : human_readable :=
  let '(HumanReadable y mo d h mi s) := t in
  if s <? 59 then HumanReadable y mo d h mi (s + 1)
  else if mi <? 59 then HumanReadable y mo d h (mi + 1) 0
  else if h <? 23 then HumanReadable y mo d (h + 1) 0 0
  else if d <? month_length y mo then HumanReadable y mo (d + 1) 0 0 0
  else if mo <? 12 then HumanReadable y (mo + 1) 1 0 0 0
  else HumanReadable (y + 1) 1 1 0 0 0.

Definition year_length (y : Z) : Z := if is_leap_year y then 366 else 365.

(** Days from the epoch to the start of the year [n] years after it. *)
Fixpoint days_before (n : nat) : Z :=
  match n with
  | O => 0
  | S n => days_before n + year_length (epoch_year + Z.of_nat n)
  end.

Definition days_to_year (y : Z) : Z := days_before (Z.to_nat (y - epoch_year)).

(** Days from the start of the year to the start of the month. *)
Definition days_to_month (y m : Z) : Z :=
  match m with
  | 1 => 0 | 2 => 31
  | 3 => 59 + (year_length y - 365) | 4 => 90 + (year_length y - 365)
  | 5 => 120 + (year_length y - 365) | 6 => 151 + (year_length y - 365)
  | 7 => 181 + (year_length y - 365) | 8 => 212 + (year_length y - 365)
  | 9 => 243 + (year_length y - 365) | 10 => 273 + (year_length y - 365)
  | 11 => 304 + (year_length y - 365) | 12 => 334 + (year_length y - 365)
  | _ => 0
  end.

Definition unix_of (t : human_readable) : Z :=
  86400 * (days_to_year (hr_year t) + days_to_month (hr_year t) (hr_month t) + (hr_day t - 1))
  + 3600 * hr_hour t + 60 * hr_minute t + hr_second t.

(** ** Lemmas *)

Lemma leap_eq y : is_leap_year y = gregorian_leap y.
Proof.
  unfold is_leap_year, gregorian_leap.
  destruct (Z.eqb_spec (y mod 4) 0), (Z.eqb_spec (y mod 100) 0), (Z.eqb_spec (y mod 400) 0);
    simpl; try done; exfalso; dlia.
Qed.

Ltac month_cases m :=
  let H := fresh in
  assert (H : m = 1 \/ m = 2 \/ m = 3 \/ m = 4 \/ m = 5 \/ m = 6 \/ m = 7 \/ m = 8 \/ m = 9 \/
              m = 10 \/ m = 11 \/ m = 12) by lia;
  repeat (destruct H as [H|H]); subst m.

Lemma days_in_month_eq y m : 1 <= m <= 12 -> days_in_month m y = month_length y m.
Proof. intros Hm. unfold month_length. month_cases m; simpl; by rewrite ?leap_eq. Qed.

Lemma month_length_pos y m : 1 <= m <= 12 -> 28 <= month_length y m <= 31.
Proof. intros Hm. unfold month_length. month_cases m; simpl; try lia. case_match; lia. Qed.

Lemma days_to_month_step y m :
  1 <= m < 12 -> days_to_month y (m + 1) = days_to_month y m + month_length y m.
Proof.
  intros Hm. unfold month_length, days_to_month, year_length. rewrite <- leap_eq.
  month_cases m; try lia; simpl; destruct (is_leap_year y); lia.
Qed.

Lemma days_to_month_last y : days_to_month y 12 + month_length y 12 = year_length y.
Proof. unfold days_to_month, month_length, year_length. simpl. lia. Qed.

Lemma days_to_month_bounds y m :
  1 <= m <= 12 -> 0 <= days_to_month y m /\ days_to_month y m + month_length y m <= year_length y.
Proof.
  intros Hm. unfold month_length, days_to_month, year_length. rewrite <- leap_eq.
  month_cases m; simpl; destruct (is_leap_year y); lia.
Qed.

Lemma days_to_month_lt y m m' :
  1 <= m <= 12 -> 1 <= m' <= 12 -> m < m' ->
  days_to_month y m + month_length y m <= days_to_month y m'.
Proof.
  intros Hm Hm' Hlt. unfold month_length, days_to_month, year_length. rewrite <- leap_eq.
  month_cases m; month_cases m'; try lia; simpl; destruct (is_leap_year y); lia.
Qed.

Lemma days_to_year_step y :
  epoch_year <= y -> days_to_year (y + 1) = days_to_year y + year_length y.
Proof.
  intros Hy. unfold days_to_year. replace (Z.to_nat (y + 1 - epoch_year)) with
    (S (Z.to_nat (y - epoch_year))) by lia.
  cbn [days_before]. do 2 f_equal. lia.
Qed.

Lemma year_length_bounds y : 365 <= year_length y <= 366.
Proof. unfold year_length. case_match; lia. Qed.

Lemma days_to_year_mono y y' :
  epoch_year <= y <= y' ->
  days_to_year y + 365 * (y' - y) <= days_to_year y' <= days_to_year y + 366 * (y' - y).
Proof.
  intros Hy. replace y' with (y + Z.of_nat (Z.to_nat (y' - y))) by lia.
  generalize (Z.to_nat (y' - y)) as n. intros n. induction n as [|n IH]; [rewrite Z.add_0_r; lia|].
  replace (y + Z.of_nat (S n)) with (y + Z.of_nat n + 1) by lia.
  rewrite days_to_year_step by lia. pose proof (year_length_bounds (y + Z.of_nat n)). lia.
Qed.

Lemma days_to_year_epoch : days_to_year 1970 = 0.
Proof. done. Qed.

#[local] Opaque days_to_year.

Lemma sum_years_Ok fuel y acc :
  epoch_year <= y + 1 -> y < 65536 -> y - epoch_year + 1 < Z.of_nat fuel ->
  0 <= acc -> acc + 366 * (y - epoch_year + 1) < 4294967296 ->
  sum_years fuel y acc = Ok (acc + days_to_year (y + 1)).
Proof.
  revert y acc. induction fuel as [|fuel IH]; intros y acc Hy Hu Hf Ha Hb; [lia|].
  cbn [sum_years]. unfold epoch_year in *. rewrite Z.geb_leb.
  destruct (Z.leb_spec 1970 y) as [Hle|Hgt].
  - unfold wrap16. rewrite (Z.mod_small (y - 1)) by lia.
    fold (year_length y). pose proof (year_length_bounds y). unfold wrap32.
    rewrite (Z.mod_small (acc + _)) by lia. rewrite IH by lia.
    rewrite (days_to_year_step y) by (unfold epoch_year; lia).
    replace (y - 1 + 1) with y by lia. f_equal. lia.
  - assert (y = 1969) as -> by lia. change (1969 + 1) with 1970.
    by rewrite days_to_year_epoch, Z.add_0_r.
Qed.

Lemma days_in_years_Ok y :
  epoch_year <= y < 65536 -> days_in_years_since_epoch_before y = Ok (days_to_year y).
Proof.
  intros Hy. unfold days_in_years_since_epoch_before, wrap16, epoch_year in *.
  rewrite Z.mod_small by lia. rewrite sum_years_Ok by (unfold epoch_year; lia).
  f_equal. rewrite Z.add_0_l. f_equal. lia.
Qed.

Lemma days_in_months_Ok y m :
  1 <= m <= 12 -> days_in_months_since_start_of y m = Ok (days_to_month y m).
Proof.
  intros Hm. unfold days_in_months_since_start_of, days_to_month, year_length.
  month_cases m; cbn; destruct (is_leap_year y); reflexivity.
Qed.

(** The day of the year of a valid date. *)
Lemma day_of_year_bounds t :
  valid_date t ->
  0 <= days_to_month (hr_year t) (hr_month t) + (hr_day t - 1) < year_length (hr_year t).
Proof.
  intros (_ & Hm & Hd & _). pose proof (days_to_month_bounds (hr_year t) _ Hm). lia.
Qed.

Lemma to_unix_Ok t : valid_date t -> to_unix t = Ok (unix_of t).
Proof.
  intros Ht. pose proof (day_of_year_bounds t Ht) as Hdoy.
  pose proof Ht as (Hy & Hm & Hd & Hh & Hmi & Hs). unfold to_unix.
  rewrite days_in_years_Ok by (unfold epoch_year; lia). run. rewrite days_in_months_Ok by done. run.
  pose proof (days_to_year_mono 1970 (hr_year t) ltac:(unfold epoch_year; lia)) as Hb.
  rewrite days_to_year_epoch in Hb. pose proof (year_length_bounds (hr_year t)).
  pose proof (days_to_month_bounds (hr_year t) _ Hm). pose proof (month_length_pos (hr_year t) _ Hm).
  unfold unix_of, seconds_in_day, seconds_in_hour, seconds_in_minute.
  unwrap64. f_equal. lia.
Qed.

(** ** Back from Unix time *)

Lemma find_year_Ok last fuel y r :
  last <= 65535 -> epoch_year <= y -> 0 <= r -> r / seconds_in_year < Z.of_nat fuel ->
  86400 * days_to_year y + r < 86400 * days_to_year last -> y <= last ->
  exists y' r', find_year fuel y r = Ok (y', r') /\ y <= y' < last /\
    0 <= r' < 86400 * year_length y' /\
    86400 * days_to_year y' + r' = 86400 * days_to_year y + r.
Proof.
  intros Hlast. revert y r. induction fuel as [|fuel IH]; intros y r Hy Hr Hf Hb Hy'.
  { exfalso. assert (0 <= r / seconds_in_year) by (apply Z.div_pos; [lia|reflexivity]). lia. }
  assert (Hlt : y < last).
  { destruct (decide (y = last)) as [->|]; lia. }
  pose proof (year_length_bounds y) as Hyl.
  destruct (decide (86400 * year_length y <= r)) as [Hge|Hlt'].
  - pose proof (days_to_year_mono (y + 1) last ltac:(unfold epoch_year in *; lia)) as Hmono.
    rewrite days_to_year_step in Hmono by done.
    assert (E : find_year (S fuel) y r = find_year fuel (y + 1) (r - 86400 * year_length y)).
    { cbn [find_year]. unfold seconds_in_year, seconds_in_leap_year, seconds_in_day in *.
      replace (r >=? 86400 * 365) with true by lia. cbv zeta.
      unfold wrap16. rewrite (Z.mod_small (y + 1)) by (unfold epoch_year in *; lia).
      unfold year_length in *. destruct (is_leap_year y); cbn [andb].
      - replace (r <? 86400 * 366) with false by lia. f_equal. apply wrap64_small. unfold is_u64.
        pose proof (days_to_year_mono 1970 last ltac:(unfold epoch_year in *; lia)) as Hm.
        rewrite days_to_year_epoch in Hm.
        pose proof (days_to_year_mono 1970 y ltac:(unfold epoch_year in *; lia)). lia.
      - f_equal. apply wrap64_small. unfold is_u64.
        pose proof (days_to_year_mono 1970 last ltac:(unfold epoch_year in *; lia)) as Hm.
        rewrite days_to_year_epoch in Hm.
        pose proof (days_to_year_mono 1970 y ltac:(unfold epoch_year in *; lia)). lia. }
    rewrite E. destruct (IH (y + 1) (r - 86400 * year_length y)) as (y' & r' & E' & Hy1 & Hr1 & Hs);
      try (unfold epoch_year in *; lia).
    + unfold seconds_in_year, seconds_in_day in *. dlia.
    + rewrite days_to_year_step by done. lia.
    + exists y', r'. rewrite days_to_year_step in Hs by done. split_and!; try done; lia.
  - exists y, r. split; [|split_and!; done || lia]. cbn [find_year].
    unfold seconds_in_year, seconds_in_leap_year, seconds_in_day, year_length in *.
    rewrite Z.geb_leb. destruct (Z.leb_spec (86400 * 365) r); [|done]. cbv zeta.
    destruct (is_leap_year y); [|lia]. replace (r <? 86400 * 366) with true by lia. done.
Qed.

Lemma find_month_Ok fuel y m r :
  1 <= m <= 12 -> 13 - m <= Z.of_nat fuel -> 0 <= r ->
  86400 * days_to_month y m + r < 86400 * year_length y ->
  exists m' r', find_month fuel y m r = Ok (m', r') /\ m <= m' <= 12 /\
    0 <= r' < 86400 * month_length y m' /\
    86400 * days_to_month y m' + r' = 86400 * days_to_month y m + r.
Proof.
  revert m r. induction fuel as [|fuel IH]; intros m r Hm Hf Hr Hb; [lia|].
  cbn [find_month]. rewrite days_in_month_eq by done. unfold seconds_in_day in *.
  pose proof (month_length_pos y m Hm). pose proof (year_length_bounds y).
  pose proof (days_to_month_bounds y m Hm).
  destruct (Z.ltb_spec r (month_length y m * 86400)).
  - exists m, r. split_and!; done || lia.
  - assert (m < 12).
    { destruct (decide (m = 12)) as [->|]; [|lia]. pose proof (days_to_month_last y). lia. }
    unfold wrap8. rewrite (Z.mod_small (m + 1)) by lia. rewrite wrap64_small by (unfold is_u64; lia).
    pose proof (days_to_month_step y m ltac:(lia)).
    destruct (IH (m + 1) (r - month_length y m * 86400)) as (m' & r' & -> & Hm1 & Hr1 & Hs); try lia.
    exists m', r'. split_and!; done || lia.
Qed.

Lemma from_unix_Ok last t :
  epoch_year <= last <= 65535 -> 0 <= t < 86400 * days_to_year last ->
  exists d, from_unix t = Ok d /\ valid_date d /\ unix_of d = t.
Proof.
  intros Hlast Ht. unfold from_unix.
  destruct (find_year_Ok last (S (Z.to_nat (t / seconds_in_year))) epoch_year t)
    as (y & r & -> & Hy & Hr & Es); try (unfold epoch_year in *; lia).
  { change epoch_year with 1970. rewrite days_to_year_epoch. lia. }
  change epoch_year with 1970 in Es. rewrite days_to_year_epoch in Es. run.
  destruct (find_month_Ok 13 y 1 r) as (m & r' & -> & Hm & Hr' & Em); [lia|lia|lia|simpl; lia|]. run.
  pose proof (month_length_pos y m Hm) as Hml. change (days_to_month y 1) with 0 in Em.
  unfold seconds_in_day, seconds_in_hour, seconds_in_minute, wrap8. cbv zeta.
  set (d := r' / 86400). assert (Hd : 0 <= d < month_length y m) by (unfold d; dlia).
  set (q := r' - d * 86400). assert (Hq : 0 <= q < 86400) by (unfold q, d; dlia).
  rewrite (Z.mod_small (d + 1)) by lia.
  replace (if d + 1 >? 1 then r' -! ((d + 1 - 1) *! 86400) else r') with q.
  2: { unfold q. destruct (Z.gtb_spec (d + 1) 1).
       - rewrite (wrap64_small (_ * _)) by (unfold is_u64; lia). rewrite wrap64_small; [lia|].
         unfold is_u64, q in *. lia.
       - lia. }
  set (h := q / 3600). assert (Hh : 0 <= h < 24) by (unfold h; dlia).
  set (q' := q - h * 3600). assert (Hq' : 0 <= q' < 3600) by (unfold q', h; dlia).
  rewrite (Z.mod_small h) by lia.
  replace (if negb (h =? 0) then q -! (h *! 3600) else q) with q'.
  2: { unfold q'. destruct (Z.eqb_spec h 0) as [->|]; cbn [negb]; [lia|].
       rewrite (wrap64_small (_ * _)) by (unfold is_u64; lia). rewrite wrap64_small; [lia|].
       unfold is_u64, q' in *. lia. }
  set (mi := q' / 60). assert (Hmi : 0 <= mi < 60) by (unfold mi; dlia).
  set (s := q' - mi * 60). assert (Hs : 0 <= s < 60) by (unfold s, mi; dlia).
  rewrite (Z.mod_small mi) by lia.
  replace (if negb (mi =? 0) then q' -! (mi *! 60) else q') with s.
  2: { unfold s. destruct (Z.eqb_spec mi 0) as [->|]; cbn [negb]; [lia|].
       rewrite (wrap64_small (_ * _)) by (unfold is_u64; lia). rewrite wrap64_small; [lia|].
       unfold is_u64, s in *. lia. }
  rewrite (Z.mod_small s) by lia. eexists; split; [done|]. unfold valid_date, unix_of; simpl.
  unfold epoch_year in *. split; [split_and!; lia|]. unfold s, q', q in *. lia.
Qed.

(** Two valid dates with the same Unix time are the same. *)
Lemma unix_of_inj t t' : valid_date t -> valid_date t' -> unix_of t = unix_of t' -> t = t'.
Proof.
  intros H H' E. pose proof (day_of_year_bounds t H). pose proof (day_of_year_bounds t' H').
  destruct t as [y m d h mi s], t' as [y' m' d' h' mi' s']. unfold valid_date, unix_of in *.
  simpl in *.
  assert (Hyy : forall a b, epoch_year <= a -> a < b -> days_to_year a + year_length a <= days_to_year b).
  { intros a b Ha Hab. rewrite <- days_to_year_step by done.
    pose proof (days_to_year_mono (a + 1) b ltac:(unfold epoch_year in *; lia)). lia. }
  assert (y = y') as <-.
  { destruct (Z.lt_trichotomy y y') as [Hlt|[?|Hlt]]; [|done|];
      apply Hyy in Hlt; unfold epoch_year; lia. }
  assert (m = m') as <-.
  { destruct (Z.lt_trichotomy m m') as [Hlt|[?|Hlt]]; [|done|];
      apply (days_to_month_lt y) in Hlt; lia. }
  f_equal; lia.
Qed.

Lemma valid_next_second t :
  valid_date t -> valid_date (next_second t) \/ hr_year (next_second t) = 65535.
Proof.
  intros Ht. destruct t as [y m d h mi s]. unfold valid_date, next_second in *. simpl in *.
  pose proof (month_length_pos y m ltac:(lia)).
  pose proof (month_length_pos y (m + 1)). pose proof (month_length_pos (y + 1) 1 ltac:(lia)).
  destruct (Z.ltb_spec s 59); [simpl; lia|]. destruct (Z.ltb_spec mi 59); [simpl; lia|].
  destruct (Z.ltb_spec h 23); [simpl; lia|]. destruct (Z.ltb_spec d (month_length y m)); [simpl; lia|].
  destruct (Z.ltb_spec m 12); simpl; lia.
Qed.

Lemma unix_of_next t : valid_date t -> unix_of (next_second t) = unix_of t + 1.
Proof.
  intros Ht. destruct t as [y m d h mi s]. unfold valid_date, next_second, unix_of in *. simpl in *.
  destruct (Z.ltb_spec s 59); [simpl; lia|]. destruct (Z.ltb_spec mi 59); [simpl; lia|].
  destruct (Z.ltb_spec h 23); [simpl; lia|]. destruct (Z.ltb_spec d (month_length y m)); [simpl; lia|].
  destruct (Z.ltb_spec m 12); cbn [hr_year hr_month hr_day hr_hour hr_minute hr_second].
  - rewrite days_to_month_step by lia. lia.
  - assert (m = 12) as -> by lia. rewrite days_to_year_step by (unfold epoch_year; lia).
    pose proof (days_to_month_last y). change (days_to_month (y + 1) 1) with 0. lia.
Qed.

(** ** Properties *)

(** [to_unix] counts seconds along the Gregorian calendar: the epoch is 0, and the
    date one second after a valid date has the next number, across minutes, days,
    months, leap days and years. *)
Theorem to_unix_counts (t : human_readable) :
  valid_date t -> valid_date (next_second t) ->
  to_unix (HumanReadable 1970 1 1 0 0 0) = Ok 0 /\
  exists n, to_unix t = Ok n /\ to_unix (next_second t) = Ok (n + 1).
Proof.
  intros Ht Hn. split; [vm_compute; reflexivity|]. exists (unix_of t).
  rewrite !to_unix_Ok by done. by rewrite unix_of_next.
Qed.

(** [from_unix] and [to_unix] are inverse: every second before the end of the last
    year decodes, with both loops ending, to a valid date that encodes to it, and every
    valid date is decoded from its encoding. *)
Theorem unix_roundtrip (last t : Z) (d : human_readable) :
  1970 <= last <= 65535 -> 0 <= t < 86400 * days_to_year last -> valid_date d ->
  (exists d', from_unix t = Ok d' /\ valid_date d' /\ to_unix d' = Ok t) /\
  (exists n, to_unix d = Ok n /\ from_unix n = Ok d).
Proof.
  intros Hl Ht Hd. split.
  - destruct (from_unix_Ok last t Hl Ht) as (d' & E & Hv & Eu). exists d'.
    rewrite to_unix_Ok by done. by rewrite Eu.
  - exists (unix_of d). rewrite to_unix_Ok by done. split; [done|].
    pose proof (day_of_year_bounds d Hd) as Hdoy. pose proof Hd as (Hy & Hm & Hdd & Hh & Hmi & Hs).
    destruct (from_unix_Ok (hr_year d + 1) (unix_of d)) as (d' & E & Hv & Eu).
    + unfold epoch_year. lia.
    + rewrite days_to_year_step by (unfold epoch_year; lia). unfold unix_of.
      pose proof (days_to_year_mono 1970 (hr_year d) ltac:(unfold epoch_year; lia)) as Hb.
      rewrite days_to_year_epoch in Hb. lia.
    + rewrite E. f_equal. by apply unix_of_inj.
Qed.

(** The timer tick neither loses nor gains time: the total of whole seconds and
    left-over nanoseconds grows by exactly one timer period, and less than a second is
    left over. *)
Theorem timer_tick_exact (frequency : Z) (c : clock) :
  0 < frequency -> 0 <= s_ns c < nanoseconds_in_second ->
  0 <= s_now c < W64 - nanoseconds_in_second ->
  let c' := on_timer_tick frequency c in
  s_now c' * nanoseconds_in_second + s_ns c' =
    s_now c * nanoseconds_in_second + s_ns c + nanoseconds_in_second / frequency /\
  0 <= s_ns c' < nanoseconds_in_second.
Proof.
  intros Hf Hns Hnow. unfold on_timer_tick, check_if_second_passed, nanoseconds_in_second in *.
  assert (Hp : 0 <= 1000000000 / frequency <= 1000000000).
  { split; [apply Z.div_pos; lia|]. apply Z.div_le_upper_bound; nia. }
  set (p := 1000000000 / frequency) in *. clearbody p. cbn [s_ns s_now].
  rewrite (wrap64_small (s_ns c + p)) by (unfold is_u64; lia).
  destruct (Z.eqb_spec ((s_ns c + p) / 1000000000) 0) as [E|E]; cbn [s_ns s_now]; [dlia|].
  assert ((s_ns c + p) / 1000000000 = 1) as -> by dlia.
  rewrite (wrap64_small (1 * _)) by (unfold is_u64; lia).
  assert (1000000000 <= s_ns c + p) by dlia.
  rewrite !wrap64_small by (unfold is_u64; lia). lia.
Qed.

(** The BCD code of a two-digit number. *)
Definition to_bcd (n : Z) : Z := 16 * (n / 10) + n mod 10.

Definition rtc_bcd (t : human_readable) : human_readable :=
  HumanReadable (to_bcd (hr_year t - 2000)) (to_bcd (hr_month t)) (to_bcd (hr_day t))
    (to_bcd (hr_hour t)) (to_bcd (hr_minute t)) (to_bcd (hr_second t)).

Lemma bcd_roundtrip n :
  0 <= n < 100 -> bcd_to_binary8 (to_bcd n) = n /\ bcd_to_binary16 (to_bcd n) = n.
Proof.
  intros Hn.
  assert (H : forallb (fun i => let n := Z.of_nat i in
    (bcd_to_binary8 (to_bcd n) =? n) && (bcd_to_binary16 (to_bcd n) =? n)) (seq 0 100) = true)
    by (vm_compute; reflexivity).
  rewrite forallb_forall in H. specialize (H (Z.to_nat n)).
  rewrite Z2Nat.id in H by lia. cbv zeta in H. apply andb_true_iff in H; [lia|].
  apply in_seq. lia.
Qed.

(** Synchronising with a clock in 24-hour mode that shows the same valid date of
    2000-2099 in two successive readings, in BCD or in binary, sets the system time to
    that date. *)
Theorem rtc_synchronize_correct (t : human_readable) (rest : list human_readable) (c : clock) :
  valid_date t -> 2000 <= hr_year t < 2100 ->
  (forall n, to_unix t = Ok n ->
    synchronize_system_clock 2 (rtc_bcd t :: rtc_bcd t :: rest) c = Some (Ok (Clock (s_ns c) n))) /\
  (forall n, to_unix t = Ok n ->
    let t' := HumanReadable (hr_year t - 2000) (hr_month t) (hr_day t) (hr_hour t)
                (hr_minute t) (hr_second t) in
    synchronize_system_clock 6 (t' :: t' :: rest) c = Some (Ok (Clock (s_ns c) n))).
Proof.
  intros (Hy & Hm & Hd & Hh & Hmi & Hs) Hy2.
  pose proof (month_length_pos (hr_year t) _ Hm) as Hml.
  assert (Hst : forall x, stable_reading x (x :: rest) = Some x).
  { intros x. cbn [stable_reading]. by rewrite !Z.eqb_refl. }
  assert (Hw : wrap16 (hr_year t) = hr_year t) by (apply Z.mod_small; lia).
  split; intros n E; unfold synchronize_system_clock; rewrite Hst;
    cbn [mbind option_bind]; unfold decode_reading, rtc_bcd; cbv zeta;
    repeat match goal with
    | |- context [Z.land ?a ?b =? 0] =>
        let v := eval vm_compute in (Z.land a b =? 0) in change (Z.land a b =? 0) with v
    end; cbn [hr_year hr_month hr_day hr_hour hr_minute hr_second andb].
  - destruct (bcd_roundtrip (hr_year t - 2000) ltac:(lia)) as [_ ->].
    destruct (bcd_roundtrip (hr_month t) ltac:(lia)) as [-> _].
    destruct (bcd_roundtrip (hr_day t) ltac:(lia)) as [-> _].
    destruct (bcd_roundtrip (hr_hour t) ltac:(lia)) as [-> _].
    destruct (bcd_roundtrip (hr_minute t) ltac:(lia)) as [-> _].
    destruct (bcd_roundtrip (hr_second t) ltac:(lia)) as [-> _]. rewrite Z.sub_add, Hw.
    replace (HumanReadable _ _ _ _ _ _) with t by by destruct t. by rewrite E.
  - rewrite Z.sub_add, Hw. replace (HumanReadable _ _ _ _ _ _) with t by by destruct t.
    by rewrite E.
Qed.

(** ** Witnesses *)

Lemma to_unix_counts_witness :
  exists n, to_unix (HumanReadable 2020 2 29 23 59 59) = Ok n /\
    to_unix (HumanReadable 2020 3 1 0 0 0) = Ok (n + 1).
Proof.
  destruct (to_unix_counts (HumanReadable 2020 2 29 23 59 59)) as [_ Hn];
    [vm_compute; intuition discriminate|vm_compute; intuition discriminate|exact Hn].
Defined.

Lemma unix_roundtrip_witness :
  from_unix 1582934400 = Ok (HumanReadable 2020 2 29 0 0 0) /\
  exists d, from_unix 1582934400 = Ok d /\ valid_date d.
Proof.
  split; [vm_compute; reflexivity|].
  destruct (unix_roundtrip 2100 1582934400 (HumanReadable 1970 1 1 0 0 0)) as [(d & E & Hv & _) _];
    [lia|vm_compute; intuition discriminate|vm_compute; intuition discriminate|].
  exists d. split; [exact E|exact Hv].
Defined.

Lemma timer_tick_exact_witness :
  on_timer_tick 100 (Clock 999000000 7) = Clock 9000000 8 /\
  8 * nanoseconds_in_second + 9000000 =
  7 * nanoseconds_in_second + 999000000 + nanoseconds_in_second / 100.
Proof.
  split; [reflexivity|].
  destruct (timer_tick_exact 100 (Clock 999000000 7)) as [E _];
    [lia|vm_compute; intuition discriminate|vm_compute; intuition discriminate|exact E].
Defined.

Lemma rtc_synchronize_correct_witness :
  synchronize_system_clock 2
    [HumanReadable 0x20 0x02 0x29 0 0 0; HumanReadable 0x20 0x02 0x29 0 0 0] (Clock 0 0)
  = Some (Ok (Clock 0 1582934400)).
Proof.
  destruct (rtc_synchronize_correct (HumanReadable 2020 2 29 0 0 0) [] (Clock 0 0)) as [H _];
    [vm_compute; intuition discriminate|simpl; lia|].
  apply (H 1582934400). vm_compute. reflexivity.
Defined.

(** In 12-hour mode noon is read as midnight. *)
Example rtc_noon_is_midnight :
  hr_hour (decode_reading 4 (HumanReadable 20 1 1 (128 + 12) 0 0)) = 0.
Proof. reflexivity. Qed.

(** A month that changes between the two readings is not noticed. *)
Example rtc_month_not_compared :
  stable_reading (HumanReadable 20 1 1 0 0 0) [HumanReadable 20 2 1 0 0 0]
  = Some (HumanReadable 20 2 1 0 0 0).
Proof. reflexivity. Qed.
