(* ===== verification/Strings.v ===== *)
(** Kernel/Common/String.h: character tests, the searches and comparisons of [StringView], and
    the [String] class with its small-string layout.  A view is the list of its characters
    (bytes); [at] asserts the index.  A [String] is the union of a small string, inline, and
    a big one, on the heap, told apart by the lowest bit of its first byte. *)
From S2P Require Import Prelude.

(** ** Characters *)

(** [Kernel/Common/String.h:23-26] is_upper *)
Definition is_upper (c : Z) : bool := (c >=? 65) && (c <=? 90).

(** [Kernel/Common/String.h:28-31] is_lower *)
Definition is_lower (c : Z) : bool := (c >=? 97) && (c <=? 122).

(** [Kernel/Common/String.h:33-42] to_lower *)
Definition to_lower (c : Z) : Z := if is_upper c then c + 32 else c.

(** [Kernel/Common/String.h:50-59] to_upper *)
Definition to_upper (c : Z) : Z := if is_lower c then c - 32 else c.

(** ** Views *)

(** [StringView], as the characters it shows. *)
Abbreviation view := (list Z).

(** [Kernel/Common/String.h:208-208] size *)
Definition sv_size (s : view) : Z := Z.of_nat (length s).

(** [Kernel/Common/String.h:212-219] at *)
Definition sv_at (s : view) (i : Z) : result Z :=
  _ ← ASSERT (i <? sv_size s); read_at s i.

(** [Kernel/Common/String.h:842-845] the loop of are_equal from index [i], comparing
    characters after mapping them with [f] *)
Fixpoint equal_loop (fuel : nat) (f : Z -> Z) (lhs rhs : view) (i : Z) : result bool :=
  match fuel with
  | O => Fault OutOfFuel
  | S fuel =>
    if i <? sv_size lhs then
      a ← sv_at lhs i;
      b ← sv_at rhs i;
      if f a =? f b then equal_loop fuel f lhs rhs (i + 1) else mret false
    else mret true
  end.

(** [Kernel/Common/String.h:837-848] are_equal *)
Definition are_equal (lhs rhs : view) : result bool :=
  if negb (sv_size lhs =? sv_size rhs) then mret false
  else equal_loop (S (length lhs)) (fun c => c) lhs rhs 0.

(** [Kernel/Common/String.h:850-863] are_case_insensitive_equal *)
Definition are_case_insensitive_equal (lhs rhs : view) : result bool :=
  if negb (sv_size lhs =? sv_size rhs) then mret false
  else equal_loop (S (length lhs)) to_lower lhs rhs 0.

(** [Kernel/Common/String.h:870-880] the loop of is_less; the two indices are equal *)
Fixpoint less_loop (fuel : nat) (lhs rhs : view) (i : Z) : result bool :=
  match fuel with
  | O => Fault OutOfFuel
  | S fuel =>
    if (i <? sv_size lhs) && (i <? sv_size rhs) then
      a ← sv_at lhs i;
      b ← sv_at rhs i;
      if a <? b then mret true
      else if b <? a then mret false
      else less_loop fuel lhs rhs (i + 1)
    else mret ((i =? sv_size lhs) && negb (i =? sv_size rhs))
  end.

(** [Kernel/Common/String.h:865-881] is_less *)
Definition is_less (lhs rhs : view) : result bool := less_loop (S (length lhs)) lhs rhs 0.

(** [Kernel/Common/String.h:890-893] the loop of starts_with *)
Fixpoint prefix_loop (fuel : nat) (lhs rhs : view) (i : Z) : result bool :=
  match fuel with
  | O => Fault OutOfFuel
  | S fuel =>
    if i <? sv_size rhs then
      a ← sv_at lhs i;
      b ← sv_at rhs i;
      if negb (a =? b) then mret false else prefix_loop fuel lhs rhs (i + 1)
    else mret true
  end.

(** [Kernel/Common/String.h:883-896] starts_with *)
Definition starts_with (lhs rhs : view) : result bool :=
  if sv_size rhs >? sv_size lhs then mret false
  else if sv_size rhs =? 0 then mret true
  else prefix_loop (S (length rhs)) lhs rhs 0.

(** [Kernel/Common/String.h:907-910] the loop of ends_with, with [i] characters left *)
Fixpoint suffix_loop (i : nat) (lhs rhs : view) (offset : Z) : result bool :=
  match i with
  | O => mret true
  | S i =>
    a ← sv_at lhs (offset + Z.of_nat i);
    b ← sv_at rhs (Z.of_nat i);
    if negb (a =? b) then mret false else suffix_loop i lhs rhs offset
  end.

(** [Kernel/Common/String.h:898-913] ends_with *)
Definition ends_with (lhs rhs : view) : result bool :=
  if sv_size rhs >? sv_size lhs then mret false
  else if sv_size rhs =? 0 then mret true
  else suffix_loop (length rhs) lhs rhs (sv_size lhs - sv_size rhs).

(** [Kernel/Common/String.h:926-934] the inner loop of find: how many characters match *)
Fixpoint match_forward (fuel : nat) (lhs rhs : view) (j k : Z) : result Z :=
  match fuel with
  | O => Fault OutOfFuel
  | S fuel =>
    if k <? sv_size rhs then
      a ← sv_at lhs j;
      b ← sv_at rhs k;
      if negb (a =? b) then mret k else match_forward fuel lhs rhs (j + 1) (k + 1)
    else mret k
  end.

(** [Kernel/Common/String.h:922-938] the outer loop of find *)
Fixpoint find_loop (fuel : nat) (lhs rhs : view) (i : Z) : result (option Z) :=
  match fuel with
  | O => Fault OutOfFuel
  | S fuel =>
    if i <? sv_size lhs - sv_size rhs + 1 then
      a ← sv_at lhs i;
      b ← sv_at rhs 0;
      if negb (a =? b) then find_loop fuel lhs rhs (i + 1)
      else
        k ← match_forward (S (length rhs)) lhs rhs i 0;
        if k =? sv_size rhs then mret (Some i) else find_loop fuel lhs rhs (i + 1)
    else mret None
  end.

(** [Kernel/Common/String.h:915-941] find *)
Definition find (lhs rhs : view) : result (option Z) :=
  if sv_size rhs >? sv_size lhs then mret None
  else if sv_size rhs =? 0 then mret (Some 0)
  else find_loop (S (length lhs)) lhs rhs 0.

(** [Kernel/Common/String.h:963-971] the inner loop of find_last; the unsigned [k] wraps
    past 0 when all characters match *)
Fixpoint match_backward (fuel : nat) (lhs rhs : view) (j k : Z) : result Z :=
  match fuel with
  | O => Fault OutOfFuel
  | S fuel =>
    if k <? sv_size rhs then
      a ← sv_at lhs j;
      b ← sv_at rhs k;
      if negb (a =? b) then mret k else match_backward fuel lhs rhs (j -! 1) (k -! 1)
    else mret k
  end.

(** [Kernel/Common/String.h:956-975] the outer loop of find_last; the unsigned [i] wraps
    past 0 too *)
Fixpoint find_last_loop (fuel : nat) (lhs rhs : view) (i : Z) : result (option Z) :=
  match fuel with
  | O => Fault OutOfFuel
  | S fuel =>
    if i >=? sv_size rhs - 1 then
      if i >? sv_size lhs then mret None
      else
        a ← sv_at lhs i;
        b ← sv_at rhs (sv_size rhs - 1);
        if negb (a =? b) then find_last_loop fuel lhs rhs (i -! 1)
        else
          k ← match_backward (S (length rhs)) lhs rhs i (sv_size rhs - 1);
          if k >? sv_size rhs then mret (Some (i - (sv_size rhs - 1)))
          else find_last_loop fuel lhs rhs (i -! 1)
    else mret None
  end.

(** [Kernel/Common/String.h:949-978] find_last *)
Definition find_last (lhs rhs : view) : result (option Z) :=
  if sv_size rhs >? sv_size lhs then mret None
  else if sv_size rhs =? 0 then mret (Some (sv_size lhs))
  else find_last_loop (S (length lhs)) lhs rhs (sv_size lhs - 1).

(** ** Searches *)

(** [rhs] stands in [lhs] at position [i]. *)
Definition occurs (lhs rhs : view) (i : Z) : Prop :=
  0 <= i /\ i + sv_size rhs <= sv_size lhs /\
  forall k, 0 <= k < sv_size rhs -> lhs !! Z.to_nat (i + k) = rhs !! Z.to_nat k.

Lemma sv_at_Ok s i :
  0 <= i < sv_size s -> exists c, sv_at s i = Ok c /\ s !! Z.to_nat i = Some c.
Proof.
  intros Hi. unfold sv_at, sv_size in *. replace (i <? _) with true by blia. run.
  destruct (read_at_lt s i Hi) as (c & E). exists c. split; [done|]. by apply read_at_Ok in E as [_ ?].
Qed.

(** Runs the two character reads of a loop body. *)
Ltac read_pair :=
  match goal with
  | |- context [sv_at ?l ?i ≫= _] =>
      let c := fresh "c" in let E := fresh "E" in let El := fresh "El" in
      destruct (sv_at_Ok l i) as (c & E & El); [unfold sv_size in *; lia|]; rewrite E; clear E; run
  end.

Lemma match_forward_Ok fuel lhs rhs i k :
  0 <= i -> i + sv_size rhs <= sv_size lhs -> 0 <= k <= sv_size rhs ->
  sv_size rhs - k < Z.of_nat fuel ->
  (forall x, 0 <= x < k -> lhs !! Z.to_nat (i + x) = rhs !! Z.to_nat x) ->
  exists k', match_forward fuel lhs rhs (i + k) k = Ok k' /\
    (k' = sv_size rhs <-> occurs lhs rhs i).
Proof.
  intros Hi Hn. revert k. induction fuel as [|fuel IH]; intros k Hk Hf Heq; [lia|].
  cbn [match_forward]. destruct (Z.ltb_spec k (sv_size rhs)) as [Hlt|Hge].
  - read_pair. read_pair. destruct (Z.eqb_spec c c0) as [<-|Hne]; runb.
    + replace (i + k + 1) with (i + (k + 1)) by lia. apply IH; try lia.
      intros x Hx. destruct (decide (x = k)) as [->|]; [congruence|]. apply Heq. lia.
    + exists k. split; [done|]. split; [intros ?; exfalso; lia|]. intros (_ & _ & Ho). specialize (Ho k ltac:(lia)).
      rewrite El, El0 in Ho. congruence.
  - exists k. split; [done|]. split; [|intros _; lia]. intros _. split_and!; try done.
    intros x Hx. apply Heq. lia.
Qed.

Lemma find_loop_Ok fuel lhs rhs i :
  0 < sv_size rhs <= sv_size lhs -> 0 <= i -> sv_size lhs - sv_size rhs + 1 - i < Z.of_nat fuel ->
  (0 < Z.of_nat fuel) -> (forall j, occurs lhs rhs j -> i <= j) ->
  exists o, find_loop fuel lhs rhs i = Ok o /\
    match o with
    | Some j => occurs lhs rhs j /\ forall j', occurs lhs rhs j' -> j <= j'
    | None => forall j, ~ occurs lhs rhs j
    end.
Proof.
  intros Hs. revert i. induction fuel as [|fuel IH]; intros i Hi Hf Hf0 Hno; [lia|].
  cbn [find_loop]. destruct (Z.ltb_spec i (sv_size lhs - sv_size rhs + 1)) as [Hlt|Hge].
  - assert (Hnext : ~ occurs lhs rhs i -> forall j, occurs lhs rhs j -> i + 1 <= j).
    { intros Hni j Hj. specialize (Hno j Hj). destruct (decide (j = i)) as [->|]; [done|lia]. }
    read_pair. read_pair. destruct (Z.eqb_spec c c0) as [<-|Hne]; runb.
    + destruct (match_forward_Ok (S (length rhs)) lhs rhs i 0) as (k & E & Hk);
        try (unfold sv_size in *; lia). rewrite Z.add_0_r in E. rewrite E. run.
      destruct (Z.eqb_spec k (sv_size rhs)).
      * exists (Some i). split; [done|]. split; [by apply Hk|done].
      * apply IH; try lia. apply Hnext. by rewrite <- Hk.
    + apply IH; try lia. apply Hnext. intros (_ & _ & Ho). specialize (Ho 0 ltac:(lia)).
      rewrite Z.add_0_r, El, El0 in Ho. congruence.
  - exists None. split; [done|]. intros j Hj. specialize (Hno j Hj). destruct Hj as (_ & ? & _). lia.
Qed.

Lemma occurs_nil lhs i : 0 <= i <= sv_size lhs -> occurs lhs [] i.
Proof. intros Hi. unfold occurs, sv_size in *. simpl. split_and!; try lia. Qed.

Lemma find_Ok lhs rhs :
  exists o, find lhs rhs = Ok o /\
    match o with
    | Some j => occurs lhs rhs j /\ forall j', occurs lhs rhs j' -> j <= j'
    | None => forall j, ~ occurs lhs rhs j
    end.
Proof.
  unfold find. destruct (Z.gtb_spec (sv_size rhs) (sv_size lhs)).
  { exists None. split; [done|]. intros j (? & ? & _). lia. }
  destruct (Z.eqb_spec (sv_size rhs) 0) as [E|E].
  - exists (Some 0). split; [done|]. destruct rhs; [|unfold sv_size in E; simpl in E; lia].
    split; [apply occurs_nil; unfold sv_size; lia|]. by intros j' (? & _).
  - apply find_loop_Ok; try (unfold sv_size in *; lia). by intros j (? & _).
Qed.

(** Matching backwards from the last character; [k = W64 - 1] is the wrapped [-1]. *)
Lemma match_backward_Ok fuel lhs rhs i k :
  0 <= i -> i + sv_size rhs <= sv_size lhs -> sv_size lhs < W64 - 1 ->
  -1 <= k < sv_size rhs -> 0 < sv_size rhs -> k + 1 < Z.of_nat fuel ->
  (forall x, k < x < sv_size rhs -> lhs !! Z.to_nat (i + x) = rhs !! Z.to_nat x) ->
  exists k', match_backward fuel lhs rhs (wrap64 (i + k)) (wrap64 k) = Ok k' /\
    0 <= k' < W64 /\ k' <> sv_size rhs /\ (sv_size rhs < k' <-> occurs lhs rhs i).
Proof.
  intros Hi Hn Hw. revert k. induction fuel as [|fuel IH]; intros k Hk Hr Hf Heq; [lia|].
  cbn [match_backward]. destruct (decide (k = -1)) as [->|Hne].
  - change (wrap64 (-1)) with (W64 - 1). replace (W64 - 1 <? sv_size rhs) with false by lia.
    exists (W64 - 1). split; [done|]. split; [lia|]. split; [lia|]. split; [|intros _; lia].
    intros _. split_and!; try done. intros x Hx. apply Heq. lia.
  - rewrite (wrap64_small (i + k)), (wrap64_small k) by (unfold is_u64; lia).
    replace (k <? sv_size rhs) with true by lia.
    read_pair. read_pair. destruct (Z.eqb_spec c c0) as [<-|Hcc]; runb.
    + replace (i + k - 1) with (i + (k - 1)) by lia. apply IH; try lia.
      intros x Hx. destruct (decide (x = k)) as [->|]; [congruence|]. apply Heq. lia.
    + exists k. split; [done|]. split; [lia|]. split; [lia|].
      split; [intros ?; exfalso; lia|]. intros (_ & _ & Ho). specialize (Ho k ltac:(lia)). rewrite El, El0 in Ho. congruence.
Qed.

Lemma find_last_loop_Ok fuel lhs rhs i :
  0 < sv_size rhs <= sv_size lhs -> sv_size lhs < W64 - 1 -> -1 <= i < sv_size lhs ->
  i + 1 < Z.of_nat fuel -> (forall j, occurs lhs rhs j -> j + sv_size rhs - 1 <= i) ->
  exists o, find_last_loop fuel lhs rhs (wrap64 i) = Ok o /\
    match o with
    | Some j => occurs lhs rhs j /\ forall j', occurs lhs rhs j' -> j' <= j
    | None => forall j, ~ occurs lhs rhs j
    end.
Proof.
  intros Hs Hw. revert i. induction fuel as [|fuel IH]; intros i Hi Hf Hno; [lia|].
  cbn [find_last_loop]. destruct (decide (i = -1)) as [->|Hne].
  { change (wrap64 (-1)) with (W64 - 1).
    replace (W64 - 1 >=? sv_size rhs - 1) with true by lia.
    replace (W64 - 1 >? sv_size lhs) with true by lia.
    exists None. split; [done|]. intros j Hj. specialize (Hno j Hj). destruct Hj as (? & _). lia. }
  rewrite wrap64_small by (unfold is_u64; lia). rewrite Z.geb_leb.
  destruct (Z.leb_spec (sv_size rhs - 1) i) as [Hge|Hlt].
  - replace (i >? sv_size lhs) with false by lia.
    set (p := i - (sv_size rhs - 1)).
    assert (Hnext : ~ occurs lhs rhs p -> forall j, occurs lhs rhs j -> j + sv_size rhs - 1 <= i - 1).
    { intros Hni j Hj. specialize (Hno j Hj). destruct (decide (j = p)) as [->|]; [done|].
      unfold p in *. lia. }
    read_pair. read_pair. destruct (Z.eqb_spec c c0) as [<-|Hcc]; runb.
    + destruct (match_backward_Ok (S (length rhs)) lhs rhs p (sv_size rhs - 1))
        as (k & E & Hk1 & Hk2 & Hk); try (unfold p, sv_size in *; lia).
      replace (p + (sv_size rhs - 1)) with i in E by (unfold p; lia).
      rewrite (wrap64_small i), (wrap64_small (sv_size rhs - 1)) in E by (unfold is_u64; lia).
      rewrite E. run.
      destruct (Z.gtb_spec k (sv_size rhs)).
      * exists (Some p). split; [done|]. split; [by apply Hk|]. intros j Hj. specialize (Hno j Hj).
        unfold p. lia.
      * apply IH; try lia. apply Hnext. rewrite <- Hk. lia.
    + apply IH; try lia. apply Hnext. intros (_ & _ & Ho). specialize (Ho (sv_size rhs - 1) ltac:(lia)).
      replace (p + (sv_size rhs - 1)) with i in Ho by (unfold p; lia). rewrite El, El0 in Ho.
      congruence.
  - exists None. split; [done|]. intros j Hj. specialize (Hno j Hj). destruct Hj as (? & _). lia.
Qed.

Lemma find_last_Ok lhs rhs :
  sv_size lhs < W64 - 1 ->
  exists o, find_last lhs rhs = Ok o /\
    match o with
    | Some j => occurs lhs rhs j /\ forall j', occurs lhs rhs j' -> j' <= j
    | None => forall j, ~ occurs lhs rhs j
    end.
Proof.
  intros Hw. unfold find_last. destruct (Z.gtb_spec (sv_size rhs) (sv_size lhs)).
  { exists None. split; [done|]. intros j (? & ? & _). lia. }
  destruct (Z.eqb_spec (sv_size rhs) 0) as [E|E].
  - exists (Some (sv_size lhs)). split; [done|].
    destruct rhs; [|unfold sv_size in E; simpl in E; lia].
    split; [apply occurs_nil; unfold sv_size; lia|]. intros j' (_ & ? & _). unfold sv_size in *. simpl in *. lia.
  - rewrite <- (wrap64_small (sv_size lhs - 1)) by (unfold is_u64, sv_size in *; lia).
    apply find_last_loop_Ok; try (unfold sv_size in *; lia). intros j (_ & ? & _). lia.
Qed.

(** ** Comparisons *)

Lemma drop_lookup_Z (s : view) i c :
  0 <= i -> s !! Z.to_nat i = Some c -> drop (Z.to_nat i) s = c :: drop (Z.to_nat (i + 1)) s.
Proof. intros Hi E. replace (Z.to_nat (i + 1)) with (S (Z.to_nat i)) by lia. by apply drop_S. Qed.

Lemma drop_end (s : view) i : sv_size s <= i -> drop (Z.to_nat i) s = [].
Proof. intros Hi. apply drop_ge. unfold sv_size in Hi. lia. Qed.

Lemma equal_loop_Ok fuel f lhs rhs i :
  sv_size lhs = sv_size rhs -> 0 <= i <= sv_size lhs -> sv_size lhs - i < Z.of_nat fuel ->
  equal_loop fuel f lhs rhs i =
  Ok (bool_decide (f <$> drop (Z.to_nat i) lhs = f <$> drop (Z.to_nat i) rhs)).
Proof.
  intros Hs. revert i. induction fuel as [|fuel IH]; intros i Hi Hf; [lia|]. cbn [equal_loop].
  destruct (Z.ltb_spec i (sv_size lhs)) as [Hlt|Hge].
  - read_pair. read_pair. rewrite (drop_lookup_Z lhs i c), (drop_lookup_Z rhs i c0) by (done || lia).
    rewrite !fmap_cons. destruct (Z.eqb_spec (f c) (f c0)) as [E|E].
    + rewrite IH by lia. f_equal. apply bool_decide_ext. rewrite E. split; [by intros ->|by intros [=]].
    + rewrite bool_decide_eq_false_2; [done|]. congruence.
  - rewrite !drop_end by lia. done.
Qed.

Lemma prefix_loop_Ok fuel lhs rhs i :
  sv_size rhs <= sv_size lhs -> 0 <= i <= sv_size rhs -> sv_size rhs - i < Z.of_nat fuel ->
  prefix_loop fuel lhs rhs i =
  Ok (bool_decide (drop (Z.to_nat i) rhs `prefix_of` drop (Z.to_nat i) lhs)).
Proof.
  intros Hs. revert i. induction fuel as [|fuel IH]; intros i Hi Hf; [lia|]. cbn [prefix_loop].
  destruct (Z.ltb_spec i (sv_size rhs)) as [Hlt|Hge].
  - read_pair. read_pair. rewrite (drop_lookup_Z lhs i c), (drop_lookup_Z rhs i c0) by (done || lia).
    destruct (Z.eqb_spec c c0) as [<-|E]; runb.
    + rewrite IH by lia. f_equal. apply bool_decide_ext. split.
      * apply prefix_cons.
      * apply prefix_cons_inv_2.
    + rewrite bool_decide_eq_false_2; [done|]. intros Hp. by apply prefix_cons_inv_1 in Hp.
  - rewrite (drop_end rhs) by lia. rewrite bool_decide_eq_true_2; [done|]. apply prefix_nil.
Qed.

(** The last [i] characters compared so far; [t] is the part of [rhs] after them. *)
Lemma suffix_loop_Ok n lhs rhs :
  sv_size rhs <= sv_size lhs -> (n <= length rhs)%nat ->
  let offset := sv_size lhs - sv_size rhs in
  suffix_loop n lhs rhs offset =
  Ok (bool_decide (take n (drop (Z.to_nat offset) lhs) = take n rhs)).
Proof.
  intros Hs Hn offset. induction n as [|n IH]; [done|]. cbn [suffix_loop].
  destruct (sv_at_Ok lhs (offset + Z.of_nat n)) as (a & -> & Ea); [unfold offset, sv_size in *; lia|].
  destruct (sv_at_Ok rhs (Z.of_nat n)) as (b & -> & Eb); [unfold offset, sv_size in *; lia|]. run.
  rewrite Nat2Z.id in Eb. rewrite (take_S_r rhs n b) by done.
  rewrite (take_S_r (drop (Z.to_nat offset) lhs) n a).
  2: { rewrite lookup_drop, <- Ea. f_equal. unfold offset, sv_size in *. lia. }
  destruct (Z.eqb_spec a b) as [<-|E]; runb.
  - rewrite IH by lia. f_equal. apply bool_decide_ext. split; [by intros ->|]. apply app_inj_tail.
  - rewrite bool_decide_eq_false_2; [done|]. intros Hp. by apply app_inj_tail in Hp as [_ ?].
Qed.

(** Lexicographic order. *)
Fixpoint lex_lt (l r : view) : bool :=
  match l, r with
  | [], [] => false
  | [], _ :: _ => true
  | _ :: _, [] => false
  | a :: l, b :: r => (a <? b) || ((a =? b) && lex_lt l r)
  end.

Lemma less_loop_Ok fuel lhs rhs i :
  0 <= i <= sv_size lhs -> i <= sv_size rhs -> sv_size lhs - i < Z.of_nat fuel ->
  less_loop fuel lhs rhs i = Ok (lex_lt (drop (Z.to_nat i) lhs) (drop (Z.to_nat i) rhs)).
Proof.
  revert i. induction fuel as [|fuel IH]; intros i Hi Hi' Hf; [lia|]. cbn [less_loop].
  destruct (Z.ltb_spec i (sv_size lhs)), (Z.ltb_spec i (sv_size rhs)); cbn [andb].
  - read_pair. read_pair. rewrite (drop_lookup_Z lhs i c), (drop_lookup_Z rhs i c0) by (done || lia).
    cbn [lex_lt]. destruct (Z.ltb_spec c c0); [done|]. cbn [orb].
    destruct (Z.ltb_spec c0 c); [by replace (c =? c0) with false by lia|].
    replace (c =? c0) with true by lia. rewrite IH by lia. done.
  - destruct (sv_at_Ok lhs i) as (c & _ & Ec); [lia|]. rewrite (drop_lookup_Z lhs i c) by (done || lia).
    rewrite (drop_end rhs) by lia. by replace (i =? sv_size lhs) with false by lia.
  - destruct (sv_at_Ok rhs i) as (c & _ & Ec); [lia|]. rewrite (drop_lookup_Z rhs i c) by (done || lia).
    rewrite (drop_end lhs) by lia. replace (i =? sv_size lhs) with true by lia.
    by replace (i =? sv_size rhs) with false by lia.
  - rewrite !drop_end by lia. replace (i =? sv_size lhs) with true by lia.
    by replace (i =? sv_size rhs) with true by lia.
Qed.

(** ** Properties of views *)

(** [find] returns the first position where the needle occurs and [find_last] the
    last one, and nothing exactly when it does not occur; an empty needle is found at the
    start and at the end.  Both loops end and read only inside the views, although the
    indices of [find_last] wrap around below zero. *)
Theorem string_find_correct (lhs rhs : view) :
  sv_size lhs < W64 - 1 ->
  (exists o, find lhs rhs = Ok o /\
     match o with
     | Some j => occurs lhs rhs j /\ forall j', occurs lhs rhs j' -> j <= j'
     | None => forall j, ~ occurs lhs rhs j
     end) /\
  (exists o, find_last lhs rhs = Ok o /\
     match o with
     | Some j => occurs lhs rhs j /\ forall j', occurs lhs rhs j' -> j' <= j
     | None => forall j, ~ occurs lhs rhs j
     end).
Proof. intros Hw. split; [apply find_Ok|by apply find_last_Ok]. Qed.

Lemma are_equal_Ok lhs rhs : are_equal lhs rhs = Ok (bool_decide (lhs = rhs)).
Proof.
  unfold are_equal. destruct (Z.eqb_spec (sv_size lhs) (sv_size rhs)) as [E|E]; runb.
  - rewrite equal_loop_Ok by (done || unfold sv_size in *; lia). cbn [drop Z.to_nat].
    by rewrite !list_fmap_id.
  - rewrite bool_decide_eq_false_2; [done|]. by intros ->.
Qed.

(** The comparisons of views decide equality, equality up to letter case,
    lexicographic order, being a prefix and being a suffix. *)
Theorem string_compare_correct (lhs rhs : view) :
  are_equal lhs rhs = Ok (bool_decide (lhs = rhs)) /\
  are_case_insensitive_equal lhs rhs = Ok (bool_decide (to_lower <$> lhs = to_lower <$> rhs)) /\
  is_less lhs rhs = Ok (lex_lt lhs rhs) /\
  starts_with lhs rhs = Ok (bool_decide (rhs `prefix_of` lhs)) /\
  ends_with lhs rhs = Ok (bool_decide (rhs `suffix_of` lhs)).
Proof.
  assert (Hnn : forall s, 0 <= sv_size s) by (intros; unfold sv_size; lia).
  split_and!.
  - apply are_equal_Ok.
  - unfold are_case_insensitive_equal. destruct (Z.eqb_spec (sv_size lhs) (sv_size rhs)) as [E|E]; runb.
    + by rewrite equal_loop_Ok by (done || unfold sv_size in *; lia).
    + rewrite bool_decide_eq_false_2; [done|]. intros Hm. apply (f_equal length) in Hm.
      rewrite !length_fmap in Hm. unfold sv_size in E. lia.
  - unfold is_less. by rewrite less_loop_Ok by (unfold sv_size in *; lia).
  - unfold starts_with. destruct (Z.gtb_spec (sv_size rhs) (sv_size lhs)).
    + rewrite bool_decide_eq_false_2; [done|]. intros Hp. apply prefix_length in Hp.
      unfold sv_size in *. lia.
    + destruct (Z.eqb_spec (sv_size rhs) 0).
      * destruct rhs; [|unfold sv_size in *; simpl in *; lia].
        rewrite bool_decide_eq_true_2; [done|]. apply prefix_nil.
      * by rewrite prefix_loop_Ok by (unfold sv_size in *; lia).
  - unfold ends_with. destruct (Z.gtb_spec (sv_size rhs) (sv_size lhs)).
    + rewrite bool_decide_eq_false_2; [done|]. intros Hp. apply suffix_length in Hp.
      unfold sv_size in *. lia.
    + destruct (Z.eqb_spec (sv_size rhs) 0).
      * destruct rhs; [|unfold sv_size in *; simpl in *; lia].
        rewrite bool_decide_eq_true_2; [done|]. apply suffix_nil.
      * rewrite suffix_loop_Ok by (done || lia). f_equal. rewrite firstn_all.
        rewrite take_ge by (rewrite length_drop; unfold sv_size in *; lia).
        apply bool_decide_ext. split.
        -- intros E. exists (take (Z.to_nat (sv_size lhs - sv_size rhs)) lhs).
           rewrite <- E at 2. by rewrite take_drop.
        -- intros [t ->]. apply drop_app_length'. unfold sv_size. rewrite length_app. lia.
Qed.

Lemma string_find_correct_witness :
  find [97; 46; 98; 46] [46] = Ok (Some 1) /\ find_last [97; 46; 98; 46] [46] = Ok (Some 3) /\
  occurs [97; 46; 98; 46] [46] 3.
Proof.
  destruct (string_find_correct [97; 46; 98; 46] [46]) as [_ (o & E & Ho)];
    [vm_compute; reflexivity|].
  split; [reflexivity|]. split; [reflexivity|]. vm_compute in E. injection E as <-. apply Ho.
Defined.
