(* ===== verification/StringClass.v ===== *)
(** Kernel/Common/String.h: the [String] class.  It is a union of a small string of up to 22
    characters, stored inline with its size in a meta byte, and a big one with a heap
    buffer; the lowest bit of the first byte, set in the meta byte and clear in an even
    capacity, tells which.  [junk] is what a fresh heap buffer holds. *)
From S2P Require Import Prelude Strings.

(** ** Data *)

(** [Kernel/Common/String.h:707-751] BigString, SmallString and their union *)
Inductive string_rep :=
  | Small (meta : Z) (characters : list Z)
  | Big (capacity size : Z) (characters : list Z).

(** [Kernel/Common/String.h:721-721] SmallString::capacity *)
Definition small_capacity : Z := 24 - 2.

(** [Kernel/Common/String.h:726-728] SmallString::set_size, size *)
Definition meta_of_size (size : Z) : Z := wrap8 (Z.lor (Z.shiftl size 1) 1).
Definition size_of_meta (meta : Z) : Z := Z.shiftr meta 1.

(** [Kernel/Common/String.h:733-739] is_small: the lowest bit of the first byte, which is
    the meta byte or the low byte of the capacity *)
Definition is_small (s : string_rep) : bool :=
  match s with
  | Small meta _ => negb (Z.land meta 1 =? 0)
  | Big capacity _ _ => negb (Z.land capacity 1 =? 0)
  end.

(** [Kernel/Common/String.h:741-745] reset_small_string *)
Definition reset_small_string : string_rep := Small (meta_of_size 0) (replicate 23 0).

(** The member the code accesses must be the one last written. *)
Definition as_small (s : string_rep) : result (Z * list Z) :=
  match s with Small meta chars => Ok (meta, chars) | Big _ _ _ => Fault OutOfBounds end.
Definition as_big (s : string_rep) : result (Z * Z * list Z) :=
  match s with Big c n chars => Ok (c, n, chars) | Small _ _ => Fault OutOfBounds end.

(** [Kernel/Common/String.h:657-663] size, capacity, data *)
Definition str_size (s : string_rep) : result Z :=
  if is_small s then '(meta, _) ← as_small s; mret (size_of_meta meta)
  else '(_, n, _) ← as_big s; mret n.
Definition str_capacity (s : string_rep) : result Z :=
  if is_small s then mret small_capacity else '(c, _, _) ← as_big s; mret c.
Definition str_data (s : string_rep) : result (list Z) :=
  if is_small s then '(_, chars) ← as_small s; mret chars
  else '(_, _, chars) ← as_big s; mret chars.

(** Storing a buffer and a size in the current member. *)
Definition set_chars (s : string_rep) (chars : list Z) (size : Z) : result string_rep :=
  if is_small s then '(_, _) ← as_small s; mret (Small (meta_of_size size) chars)
  else '(c, _, _) ← as_big s; mret (Big c size chars).

(** [copy_memory] of the bytes [src] to offset [off] of a buffer. *)
Definition copy_to (buf : list Z) (off : Z) (src : list Z) : result (list Z) :=
  if decide (0 <= off /\ off + Z.of_nat (length src) <= Z.of_nat (length buf)) then
    Ok (take (Z.to_nat off) buf ++ src ++ drop (Z.to_nat off + length src) buf)
  else Fault OutOfBounds.

(** The first [n] bytes of a buffer, for [copy_memory] to read. *)
Definition read_bytes (buf : list Z) (n : Z) : result (list Z) :=
  if decide (0 <= n <= Z.of_nat (length buf)) then Ok (take (Z.to_nat n) buf)
  else Fault OutOfBounds.

(** ** Operations *)

(** [Kernel/Common/String.h:502-531] reserve *)
Definition reserve (junk : Z) (s : string_rep) (character_count : Z) : result string_rep :=
  let character_count :=
    if negb (Z.land character_count 1 =? 0) then character_count +! 1 else character_count in
  current_capacity ← str_capacity s;
  if current_capacity >=? character_count then mret s
  else
    let character_count := Z.max character_count (current_capacity *! 2) in
    let new_characters := replicate (Z.to_nat (character_count + 1)) junk in
    if is_small s then
      '(meta, chars) ← as_small s;
      let size := size_of_meta meta in
      bytes ← read_bytes chars (size + 1);
      new_characters ← copy_to new_characters 0 bytes;
      mret (Big character_count size new_characters)
    else
      '(capacity, size, chars) ← as_big s;
      bytes ← read_bytes chars (size + 1);
      new_characters ← copy_to new_characters 0 bytes;
      mret (Big capacity size new_characters).

(** [Kernel/Common/String.h:533-558] write *)
Definition str_write (junk : Z) (s : string_rep) (v : view) : result string_rep :=
  if sv_size v =? 0 then mret s
  else
    original_size ← str_size s;
    let new_size := original_size +! sv_size v in
    s ← reserve junk s new_size;
    chars ← str_data s;
    chars ← copy_to chars original_size v;
    chars ← write_at chars (original_size + sv_size v) 0;
    set_chars s chars new_size.

(** [Kernel/Common/String.h:688-697] clear *)
Definition str_clear (s : string_rep) : result string_rep :=
  if is_small s then mret reset_small_string
  else
    '(capacity, _, chars) ← as_big s;
    chars ← write_at chars 0 0;
    mret (Big capacity 0 chars).

(** [Kernel/Common/String.h:639-655] pop_back *)
Definition str_pop_back (s : string_rep) : result string_rep :=
  size ← str_size s;
  _ ← ASSERT (negb (size =? 0));
  chars ← str_data s;
  chars ← write_at chars (size - 1) 0;
  set_chars s chars (size - 1).

(** [Kernel/Common/String.h:480-490] at *)
Definition str_at (s : string_rep) (index : Z) : result Z :=
  size ← str_size s;
  _ ← ASSERT (index <? size);
  chars ← str_data s;
  read_at chars index.

(** [Kernel/Common/String.h:406-426] operator=(const String&), for another string *)
Definition str_assign (junk : Z) (s other : string_rep) : result string_rep :=
  size_to_copy ← str_size other;
  if size_to_copy =? 0 then str_clear s
  else
    s ← reserve junk s size_to_copy;
    src ← str_data other;
    bytes ← read_bytes src (size_to_copy + 1);
    chars ← str_data s;
    chars ← copy_to chars 0 bytes;
    set_chars s chars size_to_copy.

(** [Kernel/Common/String.h:365-380] String(const String&) *)
Definition str_copy (junk : Z) (other : string_rep) : result string_rep :=
  str_assign junk reset_small_string other.

(** [Kernel/Common/String.h:382-392] String(String&&): the new string and what is left *)
Definition str_move (other : string_rep) : result (string_rep * string_rep) :=
  if is_small other then '(meta, chars) ← as_small other; mret (Small meta chars, reset_small_string)
  else '(c, n, chars) ← as_big other; mret (Big c n chars, reset_small_string).

(** [Kernel/Common/String.h:428-462] operator=(String&&), for another string *)
Definition str_move_assign (s other : string_rep) : result (string_rep * string_rep) :=
  other_size ← str_size other;
  if other_size =? 0 then s ← str_clear s; mret (s, other)
  else if is_small other then
    if is_small s then mret (other, other)
    else
      '(_, ochars) ← as_small other;
      '(capacity, _, chars) ← as_big s;
      bytes ← read_bytes ochars (other_size + 1);
      chars ← copy_to chars 0 bytes;
      mret (Big capacity other_size chars, other)
  else mret (other, reset_small_string).

(** [Kernel/Common/String.h:672-686] to_lower, to_upper of the characters *)
Definition str_map (f : Z -> Z) (s : string_rep) : result string_rep :=
  size ← str_size s;
  if size =? 0 then mret s
  else
    chars ← str_data s;
    bytes ← read_bytes chars size;
    chars ← copy_to chars 0 (f <$> bytes);
    set_chars s chars size.
Definition str_to_lower : string_rep -> result string_rep := str_map to_lower.
Definition str_to_upper : string_rep -> result string_rep := str_map to_upper.

(** [Kernel/Common/String.h:609-615] the scan of rstrip: the index of the last character
    that is kept, -1 (wrapped) if there is none *)
Fixpoint rscan (i : nat) (chars : list Z) (c : Z) : result Z :=
  match i with
  | O => mret (wrap64 (-1))
  | S i =>
    x ← read_at chars (Z.of_nat i);
    if x =? c then rscan i chars c else mret (Z.of_nat i)
  end.

(** [Kernel/Common/String.h:601-637] rstrip *)
Definition str_rstrip (s : string_rep) (c : Z) : result string_rep :=
  chars ← str_data s;
  sz ← str_size s;
  if sz =? 0 then mret s
  else
    i ← rscan (Z.to_nat sz) chars c;
    if i =? sz - 1 then mret s
    else if i >? sz then str_clear s
    else
      let new_size := i + 1 in
      chars ← write_at chars new_size 0;
      set_chars s chars new_size.

(** [Kernel/Common/String.h:568-570] the forward scan of strip *)
Fixpoint lscan (fuel : nat) (chars : list Z) (c sz i : Z) : result Z :=
  match fuel with
  | O => Fault OutOfFuel
  | S fuel =>
    if i <? sz then
      x ← read_at chars i;
      if x =? c then lscan fuel chars c sz (i + 1) else mret i
    else mret i
  end.

(** [Kernel/Common/String.h:577-579] the backward scan of strip *)
Fixpoint bscan (fuel : nat) (chars : list Z) (c i j : Z) : result Z :=
  match fuel with
  | O => Fault OutOfFuel
  | S fuel =>
    if j >? i then
      x ← read_at chars j;
      if x =? c then bscan fuel chars c i (j - 1) else mret j
    else mret j
  end.

(** [Kernel/Common/String.h:560-599] strip *)
Definition str_strip (s : string_rep) (c : Z) : result string_rep :=
  chars ← str_data s;
  sz ← str_size s;
  if sz =? 0 then mret s
  else
    i ← lscan (S (Z.to_nat sz)) chars c sz 0;
    if i =? sz then str_clear s
    else
      j ← bscan (S (Z.to_nat sz)) chars c i (sz - 1);
      if (i =? 0) && (j =? sz - 1) then mret s
      else
        chars ← (if negb (i =? 0) then
                   bytes ← read_bytes (drop (Z.to_nat i) chars) (sz - i);
                   copy_to chars 0 bytes
                 else mret chars);
        let new_size := j - i + 1 in
        chars ← write_at chars new_size 0;
        set_chars s chars new_size.

(** ** Contents *)

(** The string [s] holds the characters [l], followed by a null character. *)
Definition str_rep (s : string_rep) (l : list Z) : Prop :=
  Z.of_nat (length l) < 2 ^ 61 /\
  match s with
  | Small meta chars =>
    meta = 2 * Z.of_nat (length l) + 1 /\ length chars = 23%nat /\
    (exists t, chars = l ++ 0 :: t)
  | Big capacity size chars =>
    capacity mod 2 = 0 /\ 44 <= capacity < 2 ^ 62 /\ size = Z.of_nat (length l) /\
    capacity < Z.of_nat (length chars) /\ (exists t, chars = l ++ 0 :: t)
  end.

Lemma land_1 x : Z.land x 1 = x mod 2.
Proof. exact (Z.land_ones x 1 ltac:(lia)). Qed.

Lemma meta_of_size_eq n : 0 <= n <= 22 -> meta_of_size n = 2 * n + 1.
Proof.
  intros Hn.
  assert (H : all_below 23 (fun n => meta_of_size n =? 2 * n + 1) = true)
    by (vm_compute; reflexivity).
  apply (all_below_spec _ _ n) in H; [|lia]. by apply Z.eqb_eq in H.
Qed.

Lemma size_of_meta_eq n : size_of_meta (2 * n + 1) = n.
Proof. unfold size_of_meta. rewrite Z.shiftr_div_pow2 by lia. change (2 ^ 1) with 2. dlia. Qed.

(** What the accessors give, and what may be stored back. *)
Lemma rep_open s l :
  str_rep s l ->
  exists cap chars t,
    str_size s = Ok (Z.of_nat (length l)) /\ str_data s = Ok chars /\
    str_capacity s = Ok cap /\ chars = l ++ 0 :: t /\ cap < Z.of_nat (length chars) /\
    cap mod 2 = 0 /\ 0 < cap < 2 ^ 62 /\
    forall chars' l' t', chars' = l' ++ 0 :: t' -> length chars' = length chars ->
      Z.of_nat (length l') < 2 ^ 61 ->
      exists s', set_chars s chars' (Z.of_nat (length l')) = Ok s' /\ str_rep s' l'.
Proof.
  intros [Hl Hs]. unfold str_size, str_data, str_capacity, set_chars. destruct s as [meta chars|cap size chars].
  - destruct Hs as (-> & Hlen & t & ->). assert (Esm : is_small (Small (2 * Z.of_nat (length l) + 1) (l ++ 0 :: t)) = true).
    { unfold is_small. rewrite land_1. replace ((2 * Z.of_nat (length l) + 1) mod 2) with 1 by dlia. done. }
    rewrite Esm. cbn [as_small]. run. exists small_capacity, (l ++ 0 :: t), t.
    rewrite size_of_meta_eq, Hlen. split_and!; try done.
    intros chars' l' t' -> Hlen' Hl'. eexists; split; [done|]. split; [done|].
    assert (length l' <= 22)%nat by (rewrite length_app in Hlen'; simpl in Hlen'; lia).
    rewrite meta_of_size_eq by lia. split_and!; eauto.
  - destruct Hs as (Heven & Hcap & -> & Hc & t & ->).
    assert (Esm : is_small (Big cap (Z.of_nat (length l)) (l ++ 0 :: t)) = false).
    { unfold is_small. rewrite land_1, Heven. done. }
    rewrite Esm. cbn [as_big]. run. exists cap, (l ++ 0 :: t), t. split_and!; try done; try lia.
    intros chars' l' t' -> Hlen' Hl'. eexists; split; [done|]. split; [done|].
    rewrite Hlen'. split_and!; eauto; lia.
Qed.

Lemma read_bytes_Ok buf n :
  0 <= n <= Z.of_nat (length buf) -> read_bytes buf n = Ok (take (Z.to_nat n) buf).
Proof. intros H. unfold read_bytes. by rewrite decide_True. Qed.

Lemma copy_to_Ok buf off src :
  0 <= off -> off + Z.of_nat (length src) <= Z.of_nat (length buf) ->
  copy_to buf off src = Ok (take (Z.to_nat off) buf ++ src ++ drop (Z.to_nat off + length src) buf).
Proof. intros H H'. unfold copy_to. by rewrite decide_True. Qed.

(** Growing: the contents stay and there is room for [n] characters, provided that they
    are not fewer than what the string holds. *)
Lemma reserve_Ok junk s l n :
  str_rep s l -> 0 <= n < 2 ^ 61 - 1 ->
  (Z.of_nat (length l) <= n \/ exists cap, str_capacity s = Ok cap /\ n + 1 <= cap) ->
  exists s' chars, reserve junk s n = Ok s' /\ str_rep s' l /\ str_data s' = Ok chars /\
    n < Z.of_nat (length chars).
Proof.
  intros Hrep Hn Hle. pose proof (rep_open s l Hrep)
    as (cap & chars & t & Esz & Ed & Ec & -> & Hc & Hev & Hcap & _).
  unfold reserve. rewrite Ec. run. rewrite land_1.
  set (n' := if negb (n mod 2 =? 0) then n +! 1 else n).
  assert (Hn' : n <= n' <= n + 1 /\ n' mod 2 = 0).
  { unfold n'. destruct (Z.eqb_spec (n mod 2) 0); cbn [negb]; [lia|].
    rewrite wrap64_small by (unfold is_u64; lia). split; [lia|dlia]. }
  clearbody n'. destruct Hn' as [Hn' Hn2]. rewrite Z.geb_leb.
  destruct (Z.leb_spec n' cap) as [Hle'|Hgt].
  { exists s, (l ++ 0 :: t). split_and!; try done. lia. }
  assert (Hll : Z.of_nat (length l) <= n).
  { destruct Hle as [?|(cap' & E & ?)]; [done|]. rewrite Ec in E. injection E as <-. lia. }
  rewrite wrap64_small by (unfold is_u64; lia). set (m := Z.max n' (cap * 2)).
  assert (Hm : n' <= m <= Z.max n' (cap * 2) /\ cap * 2 <= m) by (unfold m; lia).
  assert (Hm2 : m mod 2 = 0) by (unfold m; dlia). clearbody m.
  assert (Hbuf : exists t', copy_to (replicate (Z.to_nat (m + 1)) junk) 0
    (take (Z.to_nat (Z.of_nat (length l) + 1)) (l ++ 0 :: t)) = Ok (l ++ 0 :: t') /\
    Z.of_nat (length (l ++ 0 :: t')) = m + 1).
  { replace (take _ (l ++ 0 :: t)) with (l ++ [0]).
    2: { replace (Z.to_nat _) with (length (l ++ [0])) by (rewrite length_app; simpl; lia).
         change (l ++ 0 :: t) with (l ++ [0] ++ t). rewrite app_assoc. by rewrite take_app_length. }
    eexists (drop _ _). rewrite copy_to_Ok by (rewrite ?length_app, ?length_replicate; simpl; lia).
    cbn [take Z.to_nat]. simpl. rewrite <- app_assoc. split; [done|].
    rewrite !length_app. simpl. rewrite length_drop, length_replicate, ?length_app. simpl. lia. }
  destruct Hbuf as (t' & Hbuf & Hlen').
  unfold str_size, str_data, str_capacity in *. destruct (is_small s) eqn:Esm.
  - destruct s as [meta c|]; [|done]. cbn [as_small] in *. cbn [mbind result_bind mret result_ret] in *.
    injection Esz as Esz. injection Ed as ->. injection Ec as <-. unfold small_capacity in *.
    rewrite Esz, read_bytes_Ok by (rewrite length_app; simpl; lia). run. rewrite Hbuf. run.
    assert (Hb : is_small (Big m (Z.of_nat (length l)) (l ++ 0 :: t')) = false).
    { unfold is_small. by rewrite land_1, Hm2. }
    eexists _, _. split; [done|]. rewrite Hb. cbn [as_big]. run. split; [|split; [done|lia]].
    destruct Hrep as [Hl _]. split; [done|]. split_and!; eauto; lia.
  - destruct s as [|c sz ch]; [done|]. cbn [as_big] in *. cbn [mbind result_bind mret result_ret] in *.
    injection Esz as ->. injection Ed as ->. injection Ec as ->.
    rewrite read_bytes_Ok by (rewrite length_app; simpl; lia). run. rewrite Hbuf. run.
    eexists _, _. split; [done|]. replace (is_small (Big cap _ _)) with false by done.
    cbn [as_big]. run. split; [|split; [done|lia]].
    destruct Hrep as [Hl (_ & Hcap44 & _)]. split; [done|]. split_and!; eauto; lia.
Qed.

(** ** The operations on the contents *)

(** Terminating a buffer after [k] characters. *)
Lemma terminate_Ok buf k :
  0 <= k < Z.of_nat (length buf) ->
  exists t, write_at buf k 0 = Ok (take (Z.to_nat k) buf ++ 0 :: t) /\
    length (take (Z.to_nat k) buf ++ 0 :: t) = length buf.
Proof.
  intros Hk. exists (drop (S (Z.to_nat k)) buf). unfold write_at. rewrite decide_True by done.
  rewrite insert_take_drop by lia. split; [done|].
  rewrite length_app, length_take. simpl. rewrite length_drop. lia.
Qed.

(** Cutting the string to its first [k] characters. *)
Lemma cut_Ok s l k chars :
  str_rep s l -> str_data s = Ok chars -> 0 <= k <= Z.of_nat (length l) ->
  exists chars' s', write_at chars k 0 = Ok chars' /\ set_chars s chars' k = Ok s' /\
    str_rep s' (take (Z.to_nat k) l).
Proof.
  intros Hrep Ed Hk. pose proof Hrep as [Hl _]. destruct (rep_open s l Hrep)
    as (cap & chars0 & t & Esz & Ed' & Ec & -> & Hc & Hev & Hcap & Hset).
  rewrite Ed in Ed'. injection Ed' as ->.
  destruct (terminate_Ok (l ++ 0 :: t) k) as (t' & E & Hlen); [rewrite length_app; simpl; lia|].
  rewrite take_app_le in E, Hlen by lia.
  destruct (Hset _ (take (Z.to_nat k) l) t' eq_refl Hlen) as (s' & Es & Hrep').
  { rewrite length_take. lia. }
  replace (Z.of_nat (length (take (Z.to_nat k) l))) with k in Es by (rewrite length_take; lia).
  eauto.
Qed.

Lemma clear_Ok s l : str_rep s l -> exists s', str_clear s = Ok s' /\ str_rep s' [].
Proof.
  intros Hrep. unfold str_clear. destruct (is_small s) eqn:E.
  - eexists; split; [done|]. split; [done|]. split_and!; try done. by exists (replicate 22 0).
  - destruct (rep_open s l Hrep) as (cap & chars & t & Esz & Ed & Ec & -> & Hc & Hev & Hcap & _).
    unfold str_data, str_capacity in *. rewrite E in *. destruct s as [|c n ch]; [by destruct Hrep|].
    cbn [as_big] in *. cbn [mbind result_bind mret result_ret] in *. injection Ed as ->.
    injection Ec as ->. run.
    destruct (terminate_Ok (l ++ 0 :: t) 0) as (t' & -> & Hlen); [rewrite length_app; simpl; lia|].
    run. eexists; split; [done|]. split; [done|]. cbn [take Z.to_nat app] in Hlen |- *.
    rewrite Hlen. destruct Hrep as [_ (_ & Hcap44 & _)]. split_and!; eauto; lia.
Qed.

Lemma write_Ok junk s l v :
  str_rep s l -> Z.of_nat (length l) + sv_size v < 2 ^ 61 - 1 ->
  exists s', str_write junk s v = Ok s' /\ str_rep s' (l ++ v).
Proof.
  intros Hrep Hsz. unfold str_write. destruct (Z.eqb_spec (sv_size v) 0) as [E|E].
  { exists s. split; [done|]. destruct v; [by rewrite app_nil_r|unfold sv_size in E; simpl in E; lia]. }
  destruct (rep_open s l Hrep) as (_ & _ & _ & -> & _). run. unfold sv_size in *.
  rewrite wrap64_small by (unfold is_u64; lia).
  destruct (reserve_Ok junk s l (Z.of_nat (length l) + Z.of_nat (length v)))
    as (s1 & ch & -> & Hrep1 & Ed & Hroom); [done|lia|left; lia|]. run.
  destruct (rep_open s1 l Hrep1) as (cap & chars & t & _ & Ed' & _ & -> & _ & _ & _ & Hset).
  rewrite Ed in Ed'. injection Ed' as ->. rewrite Ed. run. rewrite length_app in Hroom. simpl in Hroom.
  rewrite copy_to_Ok by (rewrite ?length_app; simpl; lia). run.
  rewrite Nat2Z.id, take_app_length, drop_app_add. 
  set (buf := l ++ v ++ _).
  assert (Hbl : length buf = length (l ++ 0 :: t)).
  { unfold buf. rewrite !length_app, length_drop. simpl in *. lia. }
  destruct (terminate_Ok buf (Z.of_nat (length l) + Z.of_nat (length v))) as (t' & -> & Hlen).
  { rewrite Hbl, length_app. simpl. lia. }
  run. assert (Et : take (Z.to_nat (Z.of_nat (length l) + Z.of_nat (length v))) buf = l ++ v).
  { unfold buf. rewrite app_assoc. apply take_app_length'. rewrite length_app. lia. }
  rewrite Et in *.
  destruct (Hset _ (l ++ v) t' eq_refl) as (s' & Es & Hrep'); [lia|rewrite length_app; lia|].
  rewrite length_app, Nat2Z.inj_add in Es. eauto.
Qed.

(** Replacing the characters by as many others. *)
Lemma replace_Ok s l l' chars :
  str_rep s l -> str_data s = Ok chars -> length l' = length l ->
  exists chars' s', copy_to chars 0 l' = Ok chars' /\
    set_chars s chars' (Z.of_nat (length l)) = Ok s' /\ str_rep s' l'.
Proof.
  intros Hrep Ed Hlen. pose proof Hrep as [Hl _]. destruct (rep_open s l Hrep)
    as (cap & chars0 & t & _ & Ed' & _ & -> & _ & _ & _ & Hset).
  rewrite Ed in Ed'. injection Ed' as ->.
  rewrite copy_to_Ok by (rewrite ?length_app; simpl; lia). cbn [take Z.to_nat app].
  rewrite Nat.add_0_l, Hlen, drop_app_length.
  destruct (Hset (l' ++ 0 :: t) l' t eq_refl) as (s' & Es & Hrep');
    [rewrite !length_app; lia|lia|]. rewrite Hlen in Es. eauto.
Qed.

Lemma map_Ok f s l : str_rep s l -> exists s', str_map f s = Ok s' /\ str_rep s' (f <$> l).
Proof.
  intros Hrep. unfold str_map. destruct (rep_open s l Hrep)
    as (cap & chars & t & -> & Ed & _ & -> & _ & _ & _ & _). run.
  destruct (Z.eqb_spec (Z.of_nat (length l)) 0) as [E|E].
  { exists s. split; [done|]. destruct l; [done|simpl in E; lia]. }
  rewrite Ed. run. rewrite read_bytes_Ok by (rewrite length_app; lia). run.
  rewrite Nat2Z.id, take_app_length.
  destruct (replace_Ok s l (f <$> l) _ Hrep Ed) as (chars' & s' & -> & Es & Hrep');
    [by rewrite length_fmap|]. run. eauto.
Qed.

(** ** Stripping *)

Fixpoint strip_front (c : Z) (l : list Z) : list Z :=
  match l with
  | [] => []
  | x :: l' => if x =? c then strip_front c l' else l
  end.

Definition strip_back (c : Z) (l : list Z) : list Z := reverse (strip_front c (reverse l)).

Lemma strip_back_snoc c l x :
  strip_back c (l ++ [x]) = if x =? c then strip_back c l else l ++ [x].
Proof.
  unfold strip_back. rewrite reverse_app. simpl.
  destruct (x =? c); [done|]. by rewrite reverse_cons, reverse_involutive.
Qed.

Lemma read_at_take {A} (l : list A) n x :
  l !! n = Some x -> read_at l (Z.of_nat n) = Ok x.
Proof. intros E. apply read_at_Ok. split; [lia|]. by rewrite Nat2Z.id. Qed.

Lemma rscan_Ok n chars c :
  (n <= length chars)%nat -> Z.of_nat n < W64 - 1 ->
  exists i, rscan n chars c = Ok i /\
    ((i = W64 - 1 /\ strip_back c (take n chars) = []) \/
     (0 <= i < Z.of_nat n /\ strip_back c (take n chars) = take (Z.to_nat (i + 1)) chars)).
Proof.
  intros Hn Hw. induction n as [|n IH]; cbn [rscan].
  { exists (W64 - 1). split; [done|]. by left. }
  destruct (lookup_lt_is_Some_2 chars n) as (x & Ex); [lia|].
  rewrite (read_at_take _ _ x Ex). run. rewrite (take_S_r chars n x Ex), strip_back_snoc.
  destruct (Z.eqb_spec x c) as [->|Hne].
  - destruct IH as (i & E & Hi); [lia|lia|]. exists i. split; [done|].
    destruct Hi as [?|[? ?]]; [by left|right]. split; [lia|done].
  - exists (Z.of_nat n). split; [done|]. right. split; [lia|].
    replace (Z.to_nat (Z.of_nat n + 1)) with (S n) by lia. by rewrite (take_S_r chars n x Ex).
Qed.

Lemma rstrip_Ok s l c :
  str_rep s l -> exists s', str_rstrip s c = Ok s' /\ str_rep s' (strip_back c l).
Proof.
  intros Hrep. unfold str_rstrip. pose proof Hrep as [Hl _]. destruct (rep_open s l Hrep)
    as (cap & chars & t & Esz & Ed & _ & Ech & _ & _ & _ & _). rewrite Ed. run. rewrite Esz. run.
  destruct (Z.eqb_spec (Z.of_nat (length l)) 0) as [E|E].
  { exists s. split; [done|]. destruct l; [done|simpl in E; lia]. }
  rewrite Nat2Z.id.
  destruct (rscan_Ok (length l) chars c) as (i & -> & Hi);
    [subst chars; rewrite length_app; lia|lia|]. run.
  rewrite Ech, take_app_length in Hi.
  destruct Hi as [[-> Hb]|[Hi Hb]].
  - replace (W64 - 1 =? Z.of_nat (length l) - 1) with false by blia.
    replace (W64 - 1 >? Z.of_nat (length l)) with true by blia.
    rewrite Hb. by eapply clear_Ok.
  - rewrite take_app_le in Hb by lia. rewrite Hb.
    destruct (Z.eqb_spec i (Z.of_nat (length l) - 1)) as [->|Hne].
    + exists s. split; [done|]. by rewrite take_ge by lia.
    + replace (i >? Z.of_nat (length l)) with false by blia.
      destruct (cut_Ok s l (i + 1) chars Hrep Ed) as (chars' & s' & -> & Es & Hrep'); [lia|].
      run. eauto.
Qed.

Lemma lscan_Ok fuel chars c l t i :
  chars = l ++ t -> 0 <= i <= Z.of_nat (length l) -> Z.of_nat (length l) - i < Z.of_nat fuel ->
  strip_front c l = strip_front c (drop (Z.to_nat i) l) ->
  exists j, lscan fuel chars c (Z.of_nat (length l)) i = Ok j /\
    i <= j <= Z.of_nat (length l) /\ strip_front c l = drop (Z.to_nat j) l /\
    (j < Z.of_nat (length l) -> exists x, l !! Z.to_nat j = Some x /\ x <> c).
Proof.
  intros ->. revert i. induction fuel as [|fuel IH]; intros i Hi Hf Hs; [lia|]. cbn [lscan].
  destruct (Z.ltb_spec i (Z.of_nat (length l))) as [Hlt|Hge].
  - destruct (lookup_lt_is_Some_2 l (Z.to_nat i)) as (x & Ex); [lia|].
    assert (E : read_at (l ++ t) i = Ok x).
    { apply read_at_Ok. split; [lia|]. by apply lookup_app_l_Some. }
    rewrite E. run. rewrite (drop_S l x) in Hs by done. cbn [strip_front] in Hs.
    destruct (Z.eqb_spec x c) as [Hxc|Hne].
    + destruct (IH (i + 1)) as (j & Ej & Hj & Hr); try lia.
      { replace (Z.to_nat (i + 1)) with (S (Z.to_nat i)) by lia. done. }
      exists j. split; [done|]. split; [lia|done].
    + exists i. split; [done|]. split; [lia|]. split; [|eauto]. by rewrite (drop_S l x).
  - exists i. split; [done|]. split; [lia|]. split; [|lia].
    rewrite Hs. by rewrite drop_ge by lia.
Qed.

Lemma bscan_Ok fuel chars c l t i j x :
  chars = l ++ t -> 0 <= i <= j -> j < Z.of_nat (length l) -> j - i < Z.of_nat fuel ->
  l !! Z.to_nat i = Some x -> x <> c ->
  exists j', bscan fuel chars c i j = Ok j' /\ i <= j' <= j /\
    strip_back c (take (Z.to_nat (j - i + 1)) (drop (Z.to_nat i) l)) =
    take (Z.to_nat (j' - i + 1)) (drop (Z.to_nat i) l).
Proof.
  intros -> Hij Hj Hf Ex Hne. revert j Hij Hj Hf.
  induction fuel as [|fuel IH]; intros j Hij Hj Hf; [lia|]. cbn [bscan].
  destruct (lookup_lt_is_Some_2 l (Z.to_nat j)) as (y & Ey); [lia|].
  assert (Et : take (Z.to_nat (j - i + 1)) (drop (Z.to_nat i) l) =
    take (Z.to_nat (j - i)) (drop (Z.to_nat i) l) ++ [y]).
  { replace (Z.to_nat (j - i + 1)) with (S (Z.to_nat (j - i))) by lia. apply take_S_r.
    rewrite lookup_drop, <- Ey. f_equal. lia. }
  rewrite Et, strip_back_snoc. destruct (Z.gtb_spec j i) as [Hgt|Hle].
  - assert (E : read_at (l ++ t) j = Ok y).
    { apply read_at_Ok. split; [lia|]. by apply lookup_app_l_Some. }
    rewrite E. run. destruct (Z.eqb_spec y c) as [->|Hyc].
    + destruct (IH (j - 1)) as (j' & Ej & Hj' & Hs); try lia. exists j'. split; [done|].
      split; [lia|]. rewrite <- Hs. do 2 f_equal. lia.
    + exists j. split; [done|]. split; [lia|]. by rewrite Et.
  - assert (j = i) as -> by lia. assert (y = x) as -> by congruence.
    exists i. split; [done|]. split; [lia|]. rewrite Et. by replace (x =? c) with false by lia.
Qed.

Lemma strip_Ok s l c :
  str_rep s l -> exists s', str_strip s c = Ok s' /\ str_rep s' (strip_back c (strip_front c l)).
Proof.
  intros Hrep. unfold str_strip. pose proof Hrep as [Hl _]. destruct (rep_open s l Hrep)
    as (cap & chars & t & Esz & Ed & _ & Ech & _ & _ & _ & Hset). rewrite Ed. run. rewrite Esz. run.
  destruct (Z.eqb_spec (Z.of_nat (length l)) 0) as [E|E].
  { exists s. split; [done|]. destruct l; [done|simpl in E; lia]. }
  destruct (lscan_Ok (S (Z.to_nat (Z.of_nat (length l)))) chars c l (0 :: t) 0)
    as (i & -> & Hi & Hf & Hx); [done|lia|lia|done|]. run. rewrite Hf.
  destruct (Z.eqb_spec i (Z.of_nat (length l))) as [->|Hne].
  { rewrite drop_ge by lia. by eapply clear_Ok. }
  destruct Hx as (x & Ex & Hxc); [lia|].
  destruct (bscan_Ok (S (Z.to_nat (Z.of_nat (length l)))) chars c l (0 :: t) i
    (Z.of_nat (length l) - 1) x) as (j & -> & Hj & Hb); try done; try lia. run.
  rewrite take_ge in Hb by (rewrite length_drop; lia). rewrite Hb.
  destruct (Z.eqb_spec i 0) as [->|Hi0]; cbn [andb negb].
  - destruct (Z.eqb_spec j (Z.of_nat (length l) - 1)) as [->|Hj0].
    + exists s. split; [done|]. change (Z.to_nat 0) with 0%nat. rewrite drop_0. by rewrite take_ge by lia.
    + run. destruct (cut_Ok s l (j - 0 + 1) chars Hrep Ed) as (chars' & s' & -> & Es & Hrep'); [lia|].
      run. eauto.
  - rewrite read_bytes_Ok by (rewrite length_drop; subst chars; rewrite length_app; cbn [length]; lia). run.
    assert (Eb : take (Z.to_nat (Z.of_nat (length l) - i)) (drop (Z.to_nat i) chars) =
      drop (Z.to_nat i) l).
    { subst chars. rewrite drop_app_le by lia. apply take_app_length'. rewrite length_drop. lia. }
    rewrite Eb. rewrite copy_to_Ok by (rewrite ?length_drop; subst chars; rewrite ?length_app; cbn [length]; lia).
    run. change (Z.to_nat 0) with 0%nat. rewrite take_0, app_nil_l, Nat.add_0_l. set (buf := drop (Z.to_nat i) l ++ _).
    assert (Hbl : length buf = length chars).
    { unfold buf. rewrite length_app, !length_drop. subst chars. rewrite length_app. simpl. lia. }
    destruct (terminate_Ok buf (j - i + 1)) as (t' & -> & Hlen).
    { rewrite Hbl. subst chars. rewrite length_app. simpl. lia. }
    run. assert (Et : take (Z.to_nat (j - i + 1)) buf = take (Z.to_nat (j - i + 1)) (drop (Z.to_nat i) l)).
    { unfold buf. apply take_app_le. rewrite length_drop. lia. }
    rewrite Et in *.
    destruct (Hset _ (take (Z.to_nat (j - i + 1)) (drop (Z.to_nat i) l)) t' eq_refl)
      as (s' & Es & Hrep'); [lia| |].
    { rewrite length_take, length_drop. lia. }
    replace (Z.of_nat (length (take _ (drop _ l)))) with (j - i + 1) in Es
      by (rewrite length_take, length_drop; lia). eauto.
Qed.

(** ** Properties *)

Lemma assign_Ok junk s l other l' :
  str_rep s l -> str_rep other l' -> Z.of_nat (length l') < 2 ^ 61 - 1 ->
  (Z.of_nat (length l) <= Z.of_nat (length l') \/
   exists cap, str_capacity s = Ok cap /\ Z.of_nat (length l') + 1 <= cap) ->
  exists s', str_assign junk s other = Ok s' /\ str_rep s' l'.
Proof.
  intros Hrep Hrep' Hl' Hle. unfold str_assign. pose proof (rep_open other l' Hrep')
    as (cap' & chars' & t' & Esz' & Ed' & _ & Ech' & _). rewrite Esz'. run.
  destruct (Z.eqb_spec (Z.of_nat (length l')) 0) as [E|E].
  { destruct l'; [by eapply clear_Ok|simpl in E; lia]. }
  destruct (reserve_Ok junk s l (Z.of_nat (length l'))) as (s1 & ch & -> & Hrep1 & Ed & Hroom);
    [done|lia|done|]. run. rewrite Ed'. run.
  rewrite read_bytes_Ok by (subst chars'; rewrite length_app; cbn [length]; lia). run.
  rewrite Ed. run. destruct (rep_open s1 l Hrep1) as (cap & chars & t & _ & Ed1 & _ & Ech & _ & _ & _ & Hset).
  rewrite Ed in Ed1. injection Ed1 as ->.
  assert (Et : take (Z.to_nat (Z.of_nat (length l') + 1)) chars' = l' ++ [0]).
  { subst chars'. change (l' ++ 0 :: t') with (l' ++ [0] ++ t'). rewrite app_assoc.
    apply take_app_length'. rewrite length_app. cbn [length]. lia. }
  rewrite Et. rewrite copy_to_Ok by (rewrite ?length_app; cbn [length]; lia). run.
  change (Z.to_nat 0) with 0%nat. rewrite take_0, app_nil_l, <- app_assoc, Nat.add_0_l.
  destruct (Hset _ l' (drop (length (l' ++ [0])) chars) eq_refl) as (s' & Es & Hrep'');
    [|lia|simpl in Es |- *; eauto].
  rewrite !length_app. cbn [length]. rewrite length_drop, ?length_app. cbn [length]. lia.
Qed.

(** A [String] behaves as the list of its characters, in both layouts and across the
    switch from the small to the big one: appending, clearing, removing the last
    character (asserting that there is one), changing letter case and stripping give
    exactly the contents of the list operations, never write outside the buffers, and
    keep the terminating null and the layout's invariant. *)
Theorem string_operations_correct (junk : Z) (s : string_rep) (l v : list Z) (c : Z) :
  str_rep s l -> Z.of_nat (length l) + Z.of_nat (length v) < 2 ^ 61 - 1 ->
  str_size s = Ok (Z.of_nat (length l)) /\
  (exists s', str_write junk s v = Ok s' /\ str_rep s' (l ++ v)) /\
  (exists s', str_clear s = Ok s' /\ str_rep s' []) /\
  (forall l0 x, l = l0 ++ [x] -> exists s', str_pop_back s = Ok s' /\ str_rep s' l0) /\
  (l = [] -> str_pop_back s = Fault AssertionFailed) /\
  (exists s', str_to_upper s = Ok s' /\ str_rep s' (to_upper <$> l)) /\
  (exists s', str_to_lower s = Ok s' /\ str_rep s' (to_lower <$> l)) /\
  (exists s', str_rstrip s c = Ok s' /\ str_rep s' (strip_back c l)) /\
  (exists s', str_strip s c = Ok s' /\ str_rep s' (strip_back c (strip_front c l))).
Proof.
  intros Hrep Hl. pose proof (rep_open s l Hrep) as (cap & chars & t & Esz & Ed & _ & Ech & _).
  split; [done|]. split; [by apply write_Ok|]. split; [by eapply clear_Ok|]. split.
  { intros l0 x ->. unfold str_pop_back. rewrite Esz, length_app. cbn [length]. run.
    replace (Z.of_nat (length l0 + 1) =? 0) with false by blia. runb. rewrite Ed. run.
    replace (Z.of_nat (length l0 + 1) - 1) with (Z.of_nat (length l0)) by lia.
    destruct (cut_Ok s _ (Z.of_nat (length l0)) chars Hrep Ed) as (chars' & s' & -> & Es & Hr);
      [rewrite length_app; lia|]. run. rewrite Nat2Z.id, take_app_length in Hr. eauto. }
  split; [intros ->; unfold str_pop_back; by rewrite Esz|].
  split; [by apply map_Ok|]. split; [by apply map_Ok|].
  split; [by apply rstrip_Ok|by apply strip_Ok].
Qed.

(** Copying and moving strings keep the contents: the copy and the moved-to string
    hold the characters of the source, a string that does not have to shrink its buffer
    too. *)
Theorem string_copy_correct (junk : Z) (s other : string_rep) (l l' : list Z) :
  str_rep s l -> str_rep other l' -> Z.of_nat (length l') < 2 ^ 61 - 1 ->
  (exists s', str_copy junk other = Ok s' /\ str_rep s' l') /\
  (Z.of_nat (length l) <= Z.of_nat (length l') ->
   exists s', str_assign junk s other = Ok s' /\ str_rep s' l') /\
  (exists s' o', str_move other = Ok (s', o') /\ str_rep s' l' /\ str_rep o' []) /\
  (exists s' o', str_move_assign s other = Ok (s', o') /\ str_rep s' l').
Proof.
  intros Hrep Hrep' Hl'. assert (H0 : str_rep reset_small_string []).
  { split; [done|]. split_and!; try done. by exists (replicate 22 0). }
  split; [eapply assign_Ok; [exact H0|done|done|left; simpl; lia]|].
  split; [intros; eapply assign_Ok; eauto|].
  pose proof (rep_open other l' Hrep') as (cap & chars & t & Esz & Ed & _ & Ech & _).
  split.
  - unfold str_move, str_data in *. destruct (is_small other) eqn:E; destruct other as [m ch|k n ch];
      cbn [as_small as_big] in *; try done; run; eauto 10.
  - unfold str_move_assign. rewrite Esz. run.
    destruct (Z.eqb_spec (Z.of_nat (length l')) 0) as [E0|E0].
    { destruct l'; [|simpl in E0; lia]. destruct (clear_Ok s l Hrep) as (s' & -> & Hc). run. eauto. }
    destruct (is_small other) eqn:E; [|eauto]. destruct (is_small s) eqn:E'; [run; eauto|].
    unfold str_data in Ed. rewrite E in Ed. destruct other as [m och|]; [|done].
    cbn [as_small] in *. cbn [mbind result_bind mret result_ret] in Ed. injection Ed as ->. run.
    pose proof (rep_open s l Hrep) as (cap' & chars' & t' & _ & Ed' & Ec' & Ech' & Hc & Hev & Hcap & _).
    unfold str_data, str_capacity in *. rewrite E' in *. destruct s as [|c0 n0 ch0]; [by destruct Hrep|].
    cbn [as_big] in *. cbn [mbind result_bind mret result_ret] in Ed', Ec'.
    injection Ed' as ->. injection Ec' as ->. run.
    destruct Hrep' as [Hl2 (_ & Hlen & _)]. rewrite Ech in *. rewrite length_app in Hlen. cbn [length] in Hlen.
    rewrite read_bytes_Ok by (rewrite length_app; cbn [length]; lia). run.
    replace (take _ (l' ++ 0 :: t)) with (l' ++ [0]).
    2: { change (l' ++ 0 :: t) with (l' ++ [0] ++ t). rewrite app_assoc. symmetry.
         apply take_app_length'. rewrite length_app. cbn [length]. lia. }
    destruct Hrep as [_ (_ & Hcap' & _)].
    rewrite copy_to_Ok by (rewrite ?length_app; cbn [length]; lia). run.
    change (Z.to_nat 0) with 0%nat. rewrite take_0, app_nil_l, <- app_assoc, Nat.add_0_l.
    eexists _, _. split; [done|]. split; [done|]. split_and!; try done; try lia; [|by eexists].
    rewrite !length_app, length_drop. cbn [length]. rewrite ?length_app in *. cbn [length] in *. lia.
Qed.

Lemma reset_rep : str_rep reset_small_string [].
Proof. split; [done|]. split_and!; try done. by exists (replicate 22 0). Qed.

Lemma string_operations_correct_witness :
  exists s, str_write 0 reset_small_string [97; 98; 32] = Ok s /\ str_rep s [97; 98; 32] /\
    exists s', str_rstrip s 32 = Ok s' /\ str_rep s' [97; 98].
Proof.
  destruct (string_operations_correct 0 reset_small_string [] [97; 98; 32] 32 reset_rep)
    as (_ & (s & E & Hs) & _); [vm_compute; reflexivity|].
  exists s. split; [exact E|]. split; [exact Hs|].
  destruct (string_operations_correct 0 s [97; 98; 32] [] 32 Hs)
    as (_ & _ & _ & _ & _ & _ & _ & (s' & E' & Hs') & _); [vm_compute; reflexivity|].
  exists s'. split; [exact E'|exact Hs'].
Defined.

Lemma string_copy_correct_witness :
  exists s, str_copy 0 reset_small_string = Ok s /\ str_rep s [].
Proof.
  destruct (string_copy_correct 0 reset_small_string reset_small_string [] [] reset_rep reset_rep)
    as (H & _); [vm_compute; reflexivity|exact H].
Defined.

(** [reserve] does not record the capacity of a big string that grows.  A string of 100
    characters that grew in two steps has a recorded capacity of 44; assigning 50
    characters to it moves the 101 bytes it holds into a buffer of 89. *)
Example assign_overflows :
  (s ← str_write 0 reset_small_string (replicate 40 65);
   s ← str_write 0 s (replicate 60 65);
   other ← str_write 0 reset_small_string (replicate 50 66);
   str_assign 0 s other) = Fault OutOfBounds.
Proof. vm_compute. reflexivity. Qed.
