(* ===== verification/LogRing.v ===== *)
(** Kernel/Common/CircularBuffer.h and Kernel/Common/LogRing.h: the queue that keeps the last
    elements, and the ring of log rows with its iterators.  The rows of a ring are an array
    of records; a row is the characters of a record up to its length. *)
From S2P Require Import Prelude.

(** ** The circular buffer *)

(** [Kernel/Common/CircularBuffer.h:69-73] the members of CircularBuffer *)
Record circular_buffer (T : Type) := CircularBuffer {
  cb_end : Z;
  cb_begin : Z;
  cb_enqueued_count : Z;
  cb_buffer : list T;
}.
Arguments CircularBuffer {T} _ _ _ _.
Arguments cb_end {T} _.
Arguments cb_begin {T} _.
Arguments cb_enqueued_count {T} _.
Arguments cb_buffer {T} _.

Section circular_buffer.
  Context {T : Type} (Size : Z).

(** [Kernel/Common/CircularBuffer.h:60-66] increment *)
Definition cb_increment (index : Z) : Z := if index =? Size - 1 then 0 else index + 1.

(** [Kernel/Common/CircularBuffer.h:49-58] on_element_enqueued *)
Definition on_element_enqueued (b : circular_buffer T) : circular_buffer T :=
  let count := cb_enqueued_count b + 1 in
  let end_ := cb_increment (cb_end b) in
  if count >? Size then CircularBuffer end_ (cb_increment (cb_begin b)) Size (cb_buffer b)
  else CircularBuffer end_ (cb_begin b) count (cb_buffer b).

(** [Kernel/Common/CircularBuffer.h:11-21] enqueue *)
Definition cb_enqueue (b : circular_buffer T) (elem : T) : result (circular_buffer T) :=
  buffer ← write_at (cb_buffer b) (cb_end b) elem;
  Ok (on_element_enqueued (CircularBuffer (cb_end b) (cb_begin b) (cb_enqueued_count b) buffer)).

(** [Kernel/Common/CircularBuffer.h:23-33] dequeue *)
Definition cb_dequeue (b : circular_buffer T) : result (T * circular_buffer T) :=
  _ ← ASSERT (negb (cb_enqueued_count b =? 0));
  elem ← read_at (cb_buffer b) (cb_begin b);
  Ok (elem, CircularBuffer (cb_end b) (cb_increment (cb_begin b)) (cb_enqueued_count b - 1) (cb_buffer b)).

(** The elements in the buffer, oldest first. *)
Definition slot_of (begin i : Z) : Z := (begin + i) mod Size.

Record holds_queue (b : circular_buffer T) (l : list T) : Prop := HoldsQueue {
  hq_size : Z.of_nat (length (cb_buffer b)) = Size;
  hq_count : cb_enqueued_count b = Z.of_nat (length l) /\ Z.of_nat (length l) <= Size;
  hq_begin : 0 <= cb_begin b < Size;
  hq_end : cb_end b = slot_of (cb_begin b) (Z.of_nat (length l));
  hq_elements : forall i x, l !! i = Some x ->
    cb_buffer b !! Z.to_nat (slot_of (cb_begin b) (Z.of_nat i)) = Some x;
}.

Lemma increment_slot begin i : 0 <= begin < Size -> cb_increment (slot_of begin i) = slot_of begin (i + 1).
Proof.
  intros H. unfold cb_increment, slot_of. pose proof (Z.mod_pos_bound (begin + i) Size ltac:(lia)).
  rewrite Z.add_assoc, (Z.add_mod (begin + i) 1) by lia. destruct (Z.eqb_spec ((begin + i) mod Size) (Size - 1)) as [E|E].
  - rewrite E. destruct (decide (Size = 1)) as [->|]; [done|]. rewrite (Z.mod_small 1 Size) by lia.
    replace (Size - 1 + 1) with Size by lia. by rewrite Z.mod_same by lia.
  - destruct (decide (Size = 1)) as [->|]; [rewrite Z.mod_1_r in *; lia|].
    rewrite (Z.mod_small 1 Size), (Z.mod_small ((begin + i) mod Size + 1) Size) by lia. done.
Qed.

Lemma increment_begin begin : 0 <= begin < Size -> cb_increment begin = slot_of begin 1 /\ 0 <= cb_increment begin < Size.
Proof.
  intros H. pose proof (increment_slot begin 0 H) as E. unfold slot_of in *. rewrite Z.add_0_r, Z.mod_small in E by lia.
  rewrite E. split; [done|]. apply Z.mod_pos_bound. lia.
Qed.

Lemma slot_shift begin i : 0 <= begin < Size -> slot_of (cb_increment begin) i = slot_of begin (i + 1).
Proof.
  intros H. destruct (increment_begin begin H) as [-> _]. unfold slot_of.
  rewrite Z.add_mod_idemp_l by lia. f_equal. lia.
Qed.

Lemma slot_of_inj begin i j :
  0 <= begin < Size -> 0 <= i < Size -> 0 <= j < Size -> slot_of begin i = slot_of begin j -> i = j.
Proof.
  intros H Hi Hj E. unfold slot_of in E.
  assert (Hm : forall k, 0 <= k < Size -> (begin + k) mod Size = if begin + k <? Size then begin + k else begin + k - Size).
  { intros k Hk. destruct (Z.ltb_spec (begin + k) Size); [apply Z.mod_small; lia|].
    rewrite <- (Z.mod_add (begin + k) (-1) Size), Z.mod_small by lia. lia. }
  rewrite !Hm in E by done. destruct (Z.ltb_spec (begin + i) Size), (Z.ltb_spec (begin + j) Size); lia.
Qed.

Lemma enqueue_Ok b l x :
  0 < Size -> holds_queue b l ->
  exists b', cb_enqueue b x = Ok b' /\
    holds_queue b' (if Z.of_nat (length l) =? Size then tail l ++ [x] else l ++ [x]).
Proof.
  intros Hs [H1 [H2 H2'] H3 H4 H5]. unfold cb_enqueue, write_at.
  pose proof (Z.mod_pos_bound (cb_begin b + Z.of_nat (length l)) Size Hs) as Hend. fold (slot_of (cb_begin b) (Z.of_nat (length l))) in Hend.
  rewrite decide_True by lia. run. eexists. split; [done|]. unfold on_element_enqueued. cbn [cb_enqueued_count cb_end cb_begin cb_buffer].
  rewrite H2, H4, increment_slot, Z.gtb_ltb by done.
  destruct (Z.eqb_spec (Z.of_nat (length l)) Size) as [Efull|Hroom].
  - rewrite (proj2 (Z.ltb_lt _ _)) by lia. destruct l as [|y l]; [simpl in Efull; lia|]. simpl tail. simpl length in *.
    destruct (increment_begin (cb_begin b) H3) as [_ Hb].
    constructor; cbn [cb_enqueued_count cb_end cb_begin cb_buffer]; rewrite ?length_insert, ?length_app; simpl; try lia.
    + rewrite slot_shift by done. f_equal. lia.
    + intros i z Hi. rewrite slot_shift by done. apply lookup_app_Some in Hi as [Hi|[Hge Hi]].
      * apply lookup_lt_Some in Hi as Hlt. rewrite list_lookup_insert_ne.
        -- replace (Z.of_nat i + 1) with (Z.of_nat (S i)) by lia. by apply H5.
        -- pose proof (Z.mod_pos_bound (cb_begin b + (Z.of_nat i + 1)) Size Hs) as Hr. fold (slot_of (cb_begin b) (Z.of_nat i + 1)) in Hr.
           intros E. apply Z2Nat.inj in E; [|lia|lia]. unfold slot_of in E at 1.
           rewrite Efull in E. replace (cb_begin b + Size) with (cb_begin b + 0 + 1 * Size) in E by lia.
           rewrite Z.mod_add in E by lia. apply (slot_of_inj (cb_begin b) 0 (Z.of_nat i + 1)) in E; lia.
      * assert (i = length l) as -> by (apply lookup_lt_Some in Hi; simpl in Hi; lia).
        rewrite Nat.sub_diag in Hi. injection Hi as <-. replace (Z.of_nat (length l) + 1) with (Z.of_nat (S (length l))) by lia.
        apply list_lookup_insert_eq. lia.
  - rewrite (proj2 (Z.ltb_ge _ _)) by lia.
    constructor; cbn [cb_enqueued_count cb_end cb_begin cb_buffer]; rewrite ?length_insert, ?length_app; simpl; try lia.
    + f_equal. lia.
    + intros i z Hi. apply lookup_app_Some in Hi as [Hi|[Hge Hi]].
      * apply lookup_lt_Some in Hi as Hlt. rewrite list_lookup_insert_ne; [by apply H5|].
        pose proof (Z.mod_pos_bound (cb_begin b + Z.of_nat i) Size Hs) as Hr. fold (slot_of (cb_begin b) (Z.of_nat i)) in Hr.
        intros E. apply Z2Nat.inj in E; [|lia|lia]. apply slot_of_inj in E; lia.
      * assert (i = length l) as -> by (apply lookup_lt_Some in Hi; simpl in Hi; lia).
        rewrite Nat.sub_diag in Hi. injection Hi as <-. apply list_lookup_insert_eq. lia.
Qed.

Lemma dequeue_Ok b l :
  0 < Size -> holds_queue b l ->
  match l with
  | [] => cb_dequeue b = Fault AssertionFailed
  | x :: l => exists b', cb_dequeue b = Ok (x, b') /\ holds_queue b' l
  end.
Proof.
  intros Hs [H1 [H2 H2'] H3 H4 H5]. unfold cb_dequeue. rewrite H2. destruct l as [|x l]; [done|].
  rewrite (proj2 (Z.eqb_neq _ _)) by (simpl; lia). run.
  pose proof (H5 0%nat x eq_refl) as H0. unfold slot_of in H0. rewrite Z.add_0_r, Z.mod_small in H0 by lia.
  rewrite (proj2 (read_at_Ok (cb_buffer b) (cb_begin b) x)) by (split; [lia|done]). run.
  eexists. split; [done|]. destruct (increment_begin (cb_begin b) H3) as [_ Hb]. simpl length in *.
  constructor; cbn [cb_enqueued_count cb_end cb_begin cb_buffer]; try lia; try done.
  - rewrite slot_shift, H4 by done. f_equal. lia.
  - intros i z Hi. rewrite slot_shift by done. replace (Z.of_nat i + 1) with (Z.of_nat (S i)) by lia. by apply H5.
Qed.
End circular_buffer.

(** ** The log ring *)

(** [Kernel/Common/LogRing.h:136-139] LogRecord *)
Record log_record := LogRecord {
  lr_message : list Z;
  lr_length : Z;
}.

(** [Kernel/Common/LogRing.h:141-145] the members of LogRing *)
Record log_ring := LogRing {
  m_log_records : list log_record;
  m_earliest_record : Z;
  m_current_record : Z;
  m_current_record_untouched : bool;
  m_buffer_full : bool;
}.

(** [Kernel/Common/LogRing.h:51-53] the members of Iterator *)
Record log_iterator := LogIterator {
  m_read_offset : Z;
  m_met_ourselves : bool;
}.

Section log_ring.
  Context (RowCapacity CharactersPerRow : Z).

(** [Kernel/Common/LogRing.h:119-129] advance_earliest_record_if_needed *)
Definition advance_earliest_record_if_needed (r : log_ring) : Z :=
  if negb (m_buffer_full r) then m_earliest_record r
  else
    let earliest := if m_current_record r =? m_earliest_record r
                    then m_earliest_record r + 1 else m_earliest_record r in
    if earliest =? RowCapacity then 0 else earliest.

(** [Kernel/Common/LogRing.h:108-114] the character is stored in the current record *)
Definition put_character (r : log_ring) (c : Z) : result log_ring :=
  record ← read_at (m_log_records r) (m_current_record r);
  let '(earliest, record) :=
    if m_current_record_untouched r
    then (advance_earliest_record_if_needed r, LogRecord (lr_message record) 0)
    else (m_earliest_record r, record) in
  message ← write_at (lr_message record) (lr_length record) c;
  records ← write_at (m_log_records r) (m_current_record r) (LogRecord message (lr_length record + 1));
  Ok (LogRing records earliest (m_current_record r) false (m_buffer_full r)).

(** [Kernel/Common/LogRing.h:88-115] the body of the loop of write *)
Definition log_write_character (r : log_ring) (c : Z) : result log_ring :=
  record ← read_at (m_log_records r) (m_current_record r);
  if (negb (m_current_record_untouched r) && (lr_length record =? CharactersPerRow)) || (c =? 10) then
    if m_current_record_untouched r then Ok r
    else
      let current := m_current_record r + 1 in
      let '(current, full) := if current =? RowCapacity then (0, true) else (current, m_buffer_full r) in
      let r := LogRing (m_log_records r) (m_earliest_record r) current true full in
      if c =? 10 then Ok r else put_character r c
  else put_character r c.

(** [Kernel/Common/LogRing.h:86-116] write *)
Fixpoint log_write_message (r : log_ring) (message : list Z) : result log_ring :=
  match message with
  | [] => Ok r
  | c :: message => r ← log_write_character r c; log_write_message r message
  end.

(** [Kernel/Common/LogRing.h:56-67] begin *)
Definition log_begin (r : log_ring) : log_iterator :=
  let should_wrap := m_buffer_full r ||
    (negb (m_current_record_untouched r) && (m_current_record r + 1 =? RowCapacity)) in
  LogIterator (m_earliest_record r) (negb should_wrap).

(** [Kernel/Common/LogRing.h:69-84] end *)
Definition log_end (r : log_ring) : log_iterator :=
  if m_buffer_full r then LogIterator (m_earliest_record r) true
  else
    let end_record := m_current_record r + (if m_current_record_untouched r then 0 else 1) in
    LogIterator (if end_record =? RowCapacity then 0 else end_record) true.

(** [Kernel/Common/LogRing.h:37-48] operator!=, which also changes the iterator *)
Definition log_not_equal (it other : log_iterator) : bool * log_iterator :=
  if m_read_offset it =? m_read_offset other then
    if m_met_ourselves it then (false, it) else (true, LogIterator (m_read_offset it) true)
  else (true, it).

(** [Kernel/Common/LogRing.h:23-35] operator* and operator++, in a range-based for loop *)
Fixpoint log_rows (fuel : nat) (r : log_ring) (it end_ : log_iterator) : result (list (list Z)) :=
  match fuel with
  | O => Fault OutOfFuel
  | S fuel =>
    let '(more, it) := log_not_equal it end_ in
    if more then
      record ← read_at (m_log_records r) (m_read_offset it);
      let row := take (Z.to_nat (lr_length record)) (lr_message record) in
      let offset := m_read_offset it + 1 in
      let it := LogIterator (if offset =? RowCapacity then 0 else offset) (m_met_ourselves it) in
      rows ← log_rows fuel r it end_;
      Ok (row :: rows)
    else Ok []
  end.

(** The rows a loop over the ring visits. *)
Definition log_contents (r : log_ring) : result (list (list Z)) :=
  log_rows (S (Z.to_nat RowCapacity)) r (log_begin r) (log_end r).

Definition empty_ring : log_ring :=
  LogRing (replicate (Z.to_nat RowCapacity) (LogRecord (replicate (Z.to_nat CharactersPerRow) 0) 0))
    0 0 true false.

(** ** What a log is *)

(** The rows kept, and whether the last one is still being written. *)
Abbreviation log := (list (list Z) * bool)%type.

(** A character goes to the last row if it is open, or starts a row, which pushes the oldest
    one out when there are as many as fit. *)
Definition log_push (l : log) (c : Z) : log :=
  let (rows, open) := l in
  if open then (removelast rows ++ [default [] (last rows) ++ [c]], true)
  else ((if Z.of_nat (length rows) =? RowCapacity then tail rows else rows) ++ [[c]], true).

(** A line feed closes the row, and so does a character for which it has no room. *)
Definition log_character (l : log) (c : Z) : log :=
  let (rows, open) := l in
  if c =? 10 then (rows, false)
  else if open && (Z.of_nat (length (default [] (last rows))) =? CharactersPerRow)
  then log_push (rows, false) c
  else log_push (rows, open) c.

(** ** The ring holds a log *)

(** The record of a row: its characters, then room up to the end of the record. *)
Definition record_of (rec : log_record) (row : list Z) : Prop :=
  Z.of_nat (length (lr_message rec)) = CharactersPerRow /\
  lr_length rec = Z.of_nat (length row) /\ take (length row) (lr_message rec) = row.

Definition row_at (r : log_ring) (earliest i : Z) (row : list Z) : Prop :=
  exists rec, m_log_records r !! Z.to_nat (slot_of RowCapacity earliest i) = Some rec /\ record_of rec row.

Record holds_log (r : log_ring) (rows : list (list Z)) (open : bool) : Prop := HoldsLog {
  hl_records : Z.of_nat (length (m_log_records r)) = RowCapacity;
  hl_messages : Forall (fun rec => Z.of_nat (length (lr_message rec)) = CharactersPerRow) (m_log_records r);
  hl_count : Z.b2z open <= Z.of_nat (length rows) <= RowCapacity;
  hl_earliest : 0 <= m_earliest_record r < RowCapacity;
  hl_current : m_current_record r = slot_of RowCapacity (m_earliest_record r) (Z.of_nat (length rows) - Z.b2z open);
  hl_full : if m_buffer_full r then Z.of_nat (length rows) = RowCapacity
            else m_earliest_record r = 0 /\ Z.of_nat (length rows) - Z.b2z open < RowCapacity;
  hl_untouched : m_current_record_untouched r = negb open;
  hl_rows : forall i row, rows !! i = Some row -> row_at r (m_earliest_record r) (Z.of_nat i) row;
}.

Context (Hrows : 0 < RowCapacity) (Hcolumns : 0 < CharactersPerRow).

Lemma slot_bounds e i : 0 <= slot_of RowCapacity e i < RowCapacity.
Proof. apply Z.mod_pos_bound. lia. Qed.

Lemma slot_round e i : slot_of RowCapacity e (i + RowCapacity) = slot_of RowCapacity e i.
Proof.
  unfold slot_of. replace (e + (i + RowCapacity)) with (e + i + 1 * RowCapacity) by lia. apply Z.mod_add. lia.
Qed.

Lemma slot_ne e i j :
  0 <= e < RowCapacity -> 0 <= i < RowCapacity -> 0 <= j < RowCapacity -> i <> j ->
  Z.to_nat (slot_of RowCapacity e i) <> Z.to_nat (slot_of RowCapacity e j).
Proof.
  intros He Hi Hj Hne E. pose proof (slot_bounds e i). pose proof (slot_bounds e j).
  apply Z2Nat.inj in E; [|lia|lia]. by apply slot_of_inj in E.
Qed.

Lemma slot_zero i : 0 <= i < RowCapacity -> slot_of RowCapacity 0 i = i.
Proof. intros. apply Z.mod_small. lia. Qed.

(** Both ways the code writes the increment that wraps around. *)
Lemma wrap_increment i : (if i + 1 =? RowCapacity then 0 else i + 1) = cb_increment RowCapacity i.
Proof. unfold cb_increment. destruct (Z.eqb_spec (i + 1) RowCapacity), (Z.eqb_spec i (RowCapacity - 1)); lia. Qed.

(** Storing a character appends it to the row of the record, which has room for it. *)
Lemma record_push rec row c :
  record_of rec row -> Z.of_nat (length row) < CharactersPerRow ->
  exists message, write_at (lr_message rec) (lr_length rec) c = Ok message /\
    record_of (LogRecord message (lr_length rec + 1)) (row ++ [c]).
Proof.
  intros (Hm & Hl & Ht) Hroom. unfold write_at. rewrite decide_True by lia. eexists. split; [done|].
  unfold record_of. cbn [lr_message lr_length]. rewrite length_insert, length_app. simpl. split_and!; [done|lia|].
  rewrite Hl, Nat2Z.id. apply list_eq. intros i.
  destruct (decide (i < length row)%nat) as [Hi|Hi].
  - rewrite lookup_take_lt, list_lookup_insert_ne, lookup_app_l by lia. rewrite <- Ht at 1. by rewrite lookup_take_lt by lia.
  - destruct (decide (i = length row)) as [->|].
    + rewrite lookup_take_lt, list_lookup_insert_eq, lookup_app_r, Nat.sub_diag by lia. done.
    + rewrite lookup_take_ge by lia. symmetry. apply lookup_ge_None. rewrite length_app. simpl. lia.
Qed.

Lemma fresh_record rec : Z.of_nat (length (lr_message rec)) = CharactersPerRow -> record_of (LogRecord (lr_message rec) 0) [].
Proof. done. Qed.

(** Replacing the record of one slot keeps the rows of the others. *)
Lemma row_at_insert r r' e i j rec row :
  m_log_records r' = <[Z.to_nat (slot_of RowCapacity e i) := rec]> (m_log_records r) ->
  0 <= e < RowCapacity -> 0 <= i < RowCapacity -> 0 <= j < RowCapacity -> i <> j ->
  row_at r e j row -> row_at r' e j row.
Proof.
  intros E He Hi Hj Hne (rec' & Hrec & Hrow). exists rec'. split; [|done].
  rewrite E, list_lookup_insert_ne by (by apply slot_ne). done.
Qed.

Lemma row_at_new r r' e i rec row :
  Z.of_nat (length (m_log_records r)) = RowCapacity ->
  m_log_records r' = <[Z.to_nat (slot_of RowCapacity e i) := rec]> (m_log_records r) ->
  record_of rec row -> row_at r' e i row.
Proof.
  intros Hl E Hrow. exists rec. split; [|done]. pose proof (slot_bounds e i).
  rewrite E. apply list_lookup_insert_eq. lia.
Qed.

(** Closing the row that is open moves to the next record. *)
Definition close_row (r : log_ring) : log_ring :=
  let '(current, full) :=
    if m_current_record r + 1 =? RowCapacity then (0, true) else (m_current_record r + 1, m_buffer_full r) in
  LogRing (m_log_records r) (m_earliest_record r) current true full.

Lemma close_row_Ok r rows : holds_log r rows true -> holds_log (close_row r) rows false.
Proof.
  intros [H1 H2 H3 H4 H5 H6 H7 H8]. unfold close_row. simpl Z.b2z in *.
  pose proof (increment_slot RowCapacity (m_earliest_record r) (Z.of_nat (length rows) - 1) H4) as E.
  unfold cb_increment in E. rewrite <- H5 in E. replace (Z.of_nat (length rows) - 1 + 1) with (Z.of_nat (length rows) - 0) in E by lia.
  pose proof (slot_bounds (m_earliest_record r) (Z.of_nat (length rows) - 1)) as Hb. rewrite <- H5 in Hb.
  destruct (Z.eqb_spec (m_current_record r + 1) RowCapacity) as [Ew|Ew].
  - rewrite (proj2 (Z.eqb_eq _ _)) in E by lia.
    constructor; cbn [m_log_records m_earliest_record m_current_record m_current_record_untouched m_buffer_full]; try done; simpl; try lia.
    destruct (m_buffer_full r); [done|]. destruct H6 as [H0 H6]. rewrite H0, slot_zero in H5 by lia. lia.
  - rewrite (proj2 (Z.eqb_neq _ _)) in E by lia.
    constructor; cbn [m_log_records m_earliest_record m_current_record m_current_record_untouched m_buffer_full]; try done; simpl; try lia.
    destruct (m_buffer_full r); [done|]. destruct H6 as [H0 H6]. rewrite H0, slot_zero in H5 by lia. split; lia.
Qed.

Lemma current_record_Ok r rows open :
  holds_log r rows open ->
  exists rec, read_at (m_log_records r) (m_current_record r) = Ok rec /\
    m_log_records r !! Z.to_nat (m_current_record r) = Some rec /\
    Z.of_nat (length (lr_message rec)) = CharactersPerRow.
Proof.
  intros [H1 H2 H3 H4 H5 H6 H7 H8].
  pose proof (slot_bounds (m_earliest_record r) (Z.of_nat (length rows) - Z.b2z open)) as Hb. rewrite <- H5 in Hb.
  destruct (lookup_lt_is_Some_2 (m_log_records r) (Z.to_nat (m_current_record r)) ltac:(lia)) as [rec Hrec].
  exists rec. split_and!; [apply read_at_Ok; split; [lia|done]|done|]. by eapply Forall_lookup_1 in H2.
Qed.

(** The record written keeps the capacity of all of them. *)
Lemma messages_insert r i rec row :
  Forall (fun rec => Z.of_nat (length (lr_message rec)) = CharactersPerRow) (m_log_records r) -> record_of rec row ->
  Forall (fun rec => Z.of_nat (length (lr_message rec)) = CharactersPerRow) (<[i := rec]> (m_log_records r)).
Proof. intros H [Hm _]. by apply Forall_insert. Qed.

Lemma put_open r rows row c :
  holds_log r (rows ++ [row]) true -> Z.of_nat (length row) < CharactersPerRow ->
  exists r', put_character r c = Ok r' /\ holds_log r' (rows ++ [row ++ [c]]) true.
Proof.
  intros H Hroom. destruct (current_record_Ok r _ _ H) as (rec & Hread & Hrec & Hm).
  destruct H as [H1 H2 H3 H4 H5 H6 H7 H8]. rewrite length_app in *. simpl in H3, H5, H6, H7.
  replace (Z.of_nat (length rows + 1) - 1) with (Z.of_nat (length rows)) in * by lia.
  destruct (H8 (length rows) row) as (rec' & Hrec' & Hrow); [by rewrite lookup_app_r, Nat.sub_diag by lia|].
  rewrite <- H5, Hrec in Hrec'. injection Hrec' as <-.
  destruct (record_push rec row c Hrow Hroom) as (message & Hw & Hrow').
  unfold put_character. rewrite Hread. run. rewrite H7. cbn iota. rewrite Hw. run.
  pose proof (slot_bounds (m_earliest_record r) (Z.of_nat (length rows))) as Hb.
  unfold write_at. rewrite decide_True by lia. run. eexists. split; [done|].
  constructor; cbn [m_log_records m_earliest_record m_current_record m_current_record_untouched m_buffer_full];
    rewrite ?length_insert, ?length_app; simpl; try done; try lia.
  - by eapply messages_insert.
  - rewrite H5. f_equal. lia.
  - destruct (m_buffer_full r); [lia|]. split; [tauto|]. lia.
  - intros i z Hi. apply lookup_app_Some in Hi as [Hi|[Hge Hi]].
    + apply lookup_lt_Some in Hi as Hlt.
      eapply (row_at_insert r _ (m_earliest_record r) (Z.of_nat (length rows))); cbn [m_log_records]; try lia; [by rewrite H5|].
      apply H8. by apply lookup_app_l_Some.
    + assert (i = length rows) as -> by (apply lookup_lt_Some in Hi; simpl in Hi; lia).
      rewrite Nat.sub_diag in Hi. injection Hi as <-. eapply row_at_new; [done| |done]. cbn [m_log_records]. by rewrite H5.
Qed.

Lemma put_closed r rows c :
  holds_log r rows false ->
  exists r', put_character r c = Ok r' /\
    holds_log r' ((if Z.of_nat (length rows) =? RowCapacity then tail rows else rows) ++ [[c]]) true.
Proof.
  intros H. destruct (current_record_Ok r _ _ H) as (rec & Hread & Hrec & Hm).
  destruct H as [H1 H2 H3 H4 H5 H6 H7 H8]. simpl in H3, H5, H6, H7. rewrite Z.sub_0_r in *.
  destruct (record_push _ [] c (fresh_record rec Hm) Hcolumns) as (message & Hw & Hrow').
  unfold put_character. rewrite Hread. run. rewrite H7. cbn iota zeta beta. cbn [lr_message lr_length] in *. rewrite Hw. run.
  pose proof (slot_bounds (m_earliest_record r) (Z.of_nat (length rows))) as Hb.
  unfold write_at. rewrite decide_True by lia. run. eexists. split; [done|].
  unfold advance_earliest_record_if_needed. destruct (m_buffer_full r) eqn:Hf; cbn [negb].
  - (* the oldest row gives way *)
    rewrite H6, Z.eqb_refl. rewrite H6 in H5. replace RowCapacity with (0 + RowCapacity) in H5 at 2 by lia.
    rewrite slot_round in H5. unfold slot_of in H5. rewrite Z.add_0_r, Z.mod_small in H5 by lia.
    rewrite H5, Z.eqb_refl. destruct rows as [|row rows]; [simpl in H6; lia|]. simpl tail. simpl length in *.
    destruct (increment_begin RowCapacity (m_earliest_record r) H4) as [_ Hbe].
    rewrite wrap_increment.
    assert (Hlast : m_earliest_record r = slot_of RowCapacity (cb_increment RowCapacity (m_earliest_record r)) (Z.of_nat (length rows))).
    { rewrite slot_shift by done. replace (Z.of_nat (length rows) + 1) with (0 + RowCapacity) by lia. rewrite slot_round.
      unfold slot_of. by rewrite Z.add_0_r, Z.mod_small by lia. }
    constructor; cbn [m_log_records m_earliest_record m_current_record m_current_record_untouched m_buffer_full];
      rewrite ?length_insert, ?length_app; simpl; try done; try lia.
    + by eapply messages_insert.
    + rewrite Hlast at 1. f_equal. lia.
    + intros i z Hi. apply lookup_app_Some in Hi as [Hi|[Hge Hi]].
      * apply lookup_lt_Some in Hi as Hlt.
        eapply (row_at_insert r _ _ (Z.of_nat (length rows))); cbn [m_log_records]; try lia; [by rewrite <- Hlast|].
        unfold row_at. rewrite slot_shift by done. replace (Z.of_nat i + 1) with (Z.of_nat (S i)) by lia. by apply H8.
      * assert (i = length rows) as -> by (apply lookup_lt_Some in Hi; simpl in Hi; lia).
        rewrite Nat.sub_diag in Hi. injection Hi as <-. eapply row_at_new; [done| |done]. cbn [m_log_records]. by rewrite <- Hlast.
  - (* a record is free *)
    destruct H6 as [H0 H6]. rewrite (proj2 (Z.eqb_neq _ _)) by lia.
    constructor; cbn [m_log_records m_earliest_record m_current_record m_current_record_untouched m_buffer_full];
      rewrite ?length_insert, ?length_app; simpl; try done; try lia.
    + by eapply messages_insert.
    + rewrite H5. f_equal. lia.
    + intros i z Hi. apply lookup_app_Some in Hi as [Hi|[Hge Hi]].
      * apply lookup_lt_Some in Hi as Hlt.
        eapply (row_at_insert r _ _ (Z.of_nat (length rows))); cbn [m_log_records]; try lia; [by rewrite H5|]. by apply H8.
      * assert (i = length rows) as -> by (apply lookup_lt_Some in Hi; simpl in Hi; lia).
        rewrite Nat.sub_diag in Hi. injection Hi as <-. eapply row_at_new; [done| |done]. cbn [m_log_records]. by rewrite H5.
Qed.

Lemma open_row r rows :
  holds_log r rows true ->
  exists before row rec, rows = before ++ [row] /\ Z.of_nat (length row) <= CharactersPerRow /\
    read_at (m_log_records r) (m_current_record r) = Ok rec /\ lr_length rec = Z.of_nat (length row).
Proof.
  intros H. destruct (current_record_Ok r _ _ H) as (rec & Hread & Hrec & Hm).
  destruct H as [H1 H2 H3 H4 H5 H6 H7 H8]. simpl in H3, H5.
  destruct (exists_last (l := rows)) as (before & row & ->); [intros ->; simpl in H3; lia|].
  exists before, row, rec. split; [done|].
  destruct (H8 (length before) row) as (rec' & Hrec' & Hm' & Hl & Ht); [by rewrite lookup_app_r, Nat.sub_diag by lia|].
  rewrite length_app in H5. simpl in H5. replace (Z.of_nat (length before + 1) - 1) with (Z.of_nat (length before)) in H5 by lia.
  rewrite <- H5, Hrec in Hrec'. injection Hrec' as <-. split_and!; [|done|done].
  rewrite <- Hm'. rewrite <- Ht at 1. rewrite length_take. lia.
Qed.

(** Writing a character to a ring that holds a log gives a ring that holds the log with it. *)
Lemma write_character_Ok r rows open c :
  holds_log r rows open ->
  exists r', log_write_character r c = Ok r' /\
    holds_log r' (log_character (rows, open) c).1 (log_character (rows, open) c).2.
Proof.
  intros H. pose proof (hl_untouched _ _ _ H) as Hu. unfold log_write_character, log_character. destruct open; simpl in Hu.
  - destruct (open_row r rows H) as (before & row & rec & -> & Hle & Hread & Hl). rewrite Hread. run. rewrite Hu, Hl. cbn [negb andb].
    rewrite last_snoc. cbn [default from_option id].
    pose proof (close_row_Ok r _ H) as Hc. unfold close_row in Hc.
    destruct (Z.eqb_spec c 10) as [Ec|Ec].
    + rewrite orb_true_r. destruct (m_current_record r + 1 =? RowCapacity); eexists; (split; [reflexivity|exact Hc]).
    + rewrite orb_false_r. destruct (Z.eqb_spec (Z.of_nat (length row)) CharactersPerRow) as [El|El].
      * destruct (put_closed _ _ c Hc) as (r' & Hr' & Hh). exists r'. split; [|exact Hh]. rewrite <- Hr'.
        by destruct (m_current_record r + 1 =? RowCapacity).
      * destruct (put_open r before row c H ltac:(lia)) as (r' & Hr' & Hh). exists r'. split; [done|].
        unfold log_push. rewrite removelast_last, last_snoc. exact Hh.
  - destruct (current_record_Ok r _ _ H) as (rec & Hread & _). rewrite Hread. run. rewrite Hu. cbn [negb andb orb].
    destruct (Z.eqb_spec c 10); [by eexists|]. exact (put_closed r rows c H).
Qed.

Lemma write_message_Ok message r rows open :
  holds_log r rows open ->
  exists r', log_write_message r message = Ok r' /\
    holds_log r' (fold_left log_character message (rows, open)).1 (fold_left log_character message (rows, open)).2.
Proof.
  revert r rows open. induction message as [|c message IH]; intros r rows open H; [by eexists|].
  destruct (write_character_Ok r rows open c H) as (r' & Hr & H'). cbn [log_write_message fold_left]. rewrite Hr. run.
  destruct (log_character (rows, open) c) as [rows' open']. by apply IH.
Qed.

Lemma empty_ring_Ok : holds_log empty_ring [] false.
Proof.
  constructor; cbn [m_log_records m_earliest_record m_current_record m_current_record_untouched m_buffer_full empty_ring]; simpl; try done; try lia.
  - rewrite length_replicate. lia.
  - apply Forall_replicate. simpl. rewrite length_replicate. lia.
Qed.

(** *** Iteration *)

(** The iterators of the range: the first row, and one past the last. *)
Lemma range_Ok r rows open :
  holds_log r rows open ->
  log_begin r = LogIterator (m_earliest_record r) (negb (Z.of_nat (length rows) =? RowCapacity)) /\
  log_end r = LogIterator (slot_of RowCapacity (m_earliest_record r) (Z.of_nat (length rows))) true.
Proof.
  intros [H1 H2 H3 H4 H5 H6 H7 H8]. unfold log_begin, log_end. rewrite H7.
  destruct (m_buffer_full r) eqn:Hf.
  - rewrite H6, Z.eqb_refl. split; [done|]. f_equal. replace RowCapacity with (0 + RowCapacity) at 2 by lia.
    rewrite slot_round. unfold slot_of. by rewrite Z.add_0_r, Z.mod_small by lia.
  - destruct H6 as [H0 H6]. rewrite H0 in *. rewrite slot_zero in H5 by (destruct open; simpl in *; lia).
    rewrite negb_involutive. cbn [orb]. destruct open; simpl in H5, H6, H3; cbn [negb andb].
    + replace (m_current_record r + 1) with (Z.of_nat (length rows)) by lia. split; [done|].
      destruct (Z.eqb_spec (Z.of_nat (length rows)) RowCapacity) as [E|E]; [|by rewrite slot_zero by lia].
      rewrite E. unfold slot_of. by rewrite Z.add_0_l, Z.mod_same by lia.
    + replace (m_current_record r + 0) with (Z.of_nat (length rows)) by lia.
      rewrite (proj2 (Z.eqb_neq _ _)) by lia. by rewrite slot_zero by lia.
Qed.

Lemma rows_Ok r rows open fuel i :
  holds_log r rows open -> (i <= length rows)%nat -> (length rows - i < fuel)%nat ->
  log_rows fuel r
    (LogIterator (slot_of RowCapacity (m_earliest_record r) (Z.of_nat i))
       (negb ((i =? 0)%nat && (Z.of_nat (length rows) =? RowCapacity))))
    (LogIterator (slot_of RowCapacity (m_earliest_record r) (Z.of_nat (length rows))) true) = Ok (drop i rows).
Proof.
  intros H. revert i. induction fuel as [|fuel IH]; intros i Hi Hfuel; [lia|].
  pose proof (hl_count _ _ _ H) as Hn. pose proof (hl_earliest _ _ _ H) as He.
  cbn [log_rows]. unfold log_not_equal. cbn [m_read_offset m_met_ourselves].
  destruct (decide (i = length rows)) as [->|Hne].
  { rewrite Z.eqb_refl. replace ((length rows =? 0)%nat && _) with false; [by rewrite drop_all|].
    destruct (Nat.eqb_spec (length rows) 0) as [E|]; [|done]. rewrite E. symmetry. apply Z.eqb_neq. lia. }
  destruct (lookup_lt_is_Some_2 rows i ltac:(lia)) as [row Hrow].
  destruct (hl_rows _ _ _ H i row Hrow) as (rec & Hrec & Hm & Hl & Ht).
  pose proof (slot_bounds (m_earliest_record r) (Z.of_nat i)) as Hb.
  assert (Hstep : forall it, it = slot_of RowCapacity (m_earliest_record r) (Z.of_nat i) ->
    (record ← read_at (m_log_records r) it;
     rows' ← log_rows fuel r (LogIterator (if it + 1 =? RowCapacity then 0 else it + 1) true)
       (LogIterator (slot_of RowCapacity (m_earliest_record r) (Z.of_nat (length rows))) true);
     Ok (take (Z.to_nat (lr_length record)) (lr_message record) :: rows')) = Ok (drop i rows)).
  { intros it ->. rewrite (proj2 (read_at_Ok _ _ rec)) by (split; [lia|done]). run.
    rewrite wrap_increment, increment_slot by done. replace (Z.of_nat i + 1) with (Z.of_nat (S i)) by lia.
    specialize (IH (S i) ltac:(lia) ltac:(lia)). cbn [Nat.eqb andb negb] in IH. rewrite IH. run.
    rewrite Hl, Nat2Z.id, Ht. by rewrite (drop_S rows row i Hrow). }
  destruct (Z.eqb_spec (slot_of RowCapacity (m_earliest_record r) (Z.of_nat i))
              (slot_of RowCapacity (m_earliest_record r) (Z.of_nat (length rows)))) as [E|E].
  - assert (i = 0%nat /\ Z.of_nat (length rows) = RowCapacity) as [-> En].
    { destruct (decide (Z.of_nat (length rows) = RowCapacity)) as [En|En]; [|apply slot_of_inj in E; lia].
      split; [|done]. rewrite En in E. replace RowCapacity with (0 + RowCapacity) in E at 3 by lia.
      rewrite slot_round in E. apply slot_of_inj in E; lia. }
    rewrite (proj2 (Z.eqb_eq _ _) En). cbn [Nat.eqb andb negb m_read_offset m_met_ourselves]. by apply Hstep.
  - cbn [m_read_offset m_met_ourselves]. destruct (Nat.eqb_spec i 0) as [Ei|Ei]; cbn [andb negb].
    + destruct (Z.eqb_spec (Z.of_nat (length rows)) RowCapacity) as [En|En]; [|by apply Hstep].
      exfalso. apply E. rewrite En, Ei. symmetry. apply (slot_round (m_earliest_record r) 0).
    + by apply Hstep.
Qed.

Lemma contents_Ok r rows open : holds_log r rows open -> log_contents r = Ok rows.
Proof.
  intros H. unfold log_contents. destruct (range_Ok r rows open H) as [-> ->].
  pose proof (hl_count _ _ _ H). pose proof (hl_earliest _ _ _ H).
  pose proof (rows_Ok r rows open (S (Z.to_nat RowCapacity)) 0 H ltac:(lia) ltac:(lia)) as E.
  cbn [Nat.eqb andb] in E. unfold slot_of in E at 1. by rewrite Z.add_0_r, Z.mod_small in E by lia.
Qed.

(** C27: refinement of the log ring.  Whatever is written to a new ring, write stores every
    character inside the records, and the loop over the ring ends and visits exactly the rows
    of the log: lines of at most CharactersPerRow characters, oldest first, of which the last
    RowCapacity are kept, empty lines being skipped.  The cases include the ring that has just
    become full and the one whose last record is still open. *)
Theorem log_ring_refines (message : list Z) :
  exists r, log_write_message empty_ring message = Ok r /\
    log_contents r = Ok (fold_left log_character message ([], false)).1.
Proof.
  destruct (write_message_Ok message _ _ _ empty_ring_Ok) as (r & Hr & H). exists r. split; [exact Hr|].
  by eapply contents_Ok.
Qed.
End log_ring.

(** Three rows of four characters: the first line is longer than a row, and its head is lost
    when the fourth row is started. *)
Lemma log_ring_refines_witness :
  exists r, log_write_message 3 4 (empty_ring 3 4) [97; 98; 99; 100; 101; 10; 10; 102; 103; 10; 104] = Ok r /\
    log_contents 3 r = Ok [[101]; [102; 103]; [104]].
Proof. exact (log_ring_refines 3 4 eq_refl eq_refl [97; 98; 99; 100; 101; 10; 10; 102; 103; 10; 104]). Defined.
