(* ===== verification/IntrusiveList.v ===== *)
(** Kernel/Common/List.h, the list of standalone nodes: the pointer code that links the threads of
    the scheduler, the blocks of the disk cache and the open files.  Nodes are addresses; the
    fields of all nodes are maps, and the address of a list is that of its sentinel m_end.  The
    lists are sequences: every operation of the pointer code does on the pointers what its
    description says on sequences of nodes, for any number of lists that exchange nodes. *)
From S2P Require Import Prelude.
From stdpp Require Import gmap.
#[local] Open Scope Z_scope.

(** ** The code *)

(** [Kernel/Common/List.h:516-519] the members of StandaloneListNode, of all nodes
    [Kernel/Common/List.h:473-474] the size of the lists *)
Record node_heap := NodeHeap {
  h_next : gmap Z Z;
  h_previous : gmap Z Z;
  h_my_list : gmap Z Z;
  h_size : gmap Z Z;
}.

Definition nullptr : Z := 0.

(** A field of an object: outside the objects an access is undefined. *)
Definition get_field (f : gmap Z Z) (node : Z) : result Z :=
  match f !! node with Some v => Ok v | None => Fault OutOfBounds end.

Definition put_field (f : gmap Z Z) (node v : Z) : result (gmap Z Z) :=
  match f !! node with Some _ => Ok (<[ node := v ]> f) | None => Fault OutOfBounds end.

(** [Kernel/Common/List.h:488-489] next *)
Definition node_next (node : Z) (h : node_heap) : result Z := get_field (h_next h) node.
(** [Kernel/Common/List.h:491-492] previous *)
Definition node_previous (node : Z) (h : node_heap) : result Z := get_field (h_previous h) node.

(** [Kernel/Common/List.h:494-494] set_next *)
Definition set_next (node v : Z) (h : node_heap) : result node_heap :=
  f ← put_field (h_next h) node v; Ok (NodeHeap f (h_previous h) (h_my_list h) (h_size h)).
(** [Kernel/Common/List.h:495-495] set_previous *)
Definition set_previous (node v : Z) (h : node_heap) : result node_heap :=
  f ← put_field (h_previous h) node v; Ok (NodeHeap (h_next h) f (h_my_list h) (h_size h)).

(** [Kernel/Common/List.h:509-513] set_my_list *)
Definition set_my_list (node l : Z) (h : node_heap) : result node_heap :=
  mine ← get_field (h_my_list h) node;
  _ ← ASSERT ((l =? nullptr) || (mine =? nullptr));
  f ← put_field (h_my_list h) node l; Ok (NodeHeap (h_next h) (h_previous h) f (h_size h)).

Definition set_list_size (l v : Z) (h : node_heap) : result node_heap :=
  f ← put_field (h_size h) l v; Ok (NodeHeap (h_next h) (h_previous h) (h_my_list h) f).

(** [m_size++] and [m_size--] *)
Definition add_size (l d : Z) (h : node_heap) : result node_heap :=
  n ← get_field (h_size h) l; set_list_size l (wrap64 (n + d)) h.

(** [Kernel/Common/List.h:523-536] insert_back *)
Definition insert_back (l node : Z) (h : node_heap) : result node_heap :=
  previous ← node_previous l h;
  h ← set_next previous node h;
  h ← set_previous node previous h;
  h ← set_previous l node h;
  h ← set_next node l h;
  h ← set_my_list node l h;
  add_size l 1 h.

(** [Kernel/Common/List.h:539-552] insert_front *)
Definition insert_front (l node : Z) (h : node_heap) : result node_heap :=
  next ← node_next l h;
  h ← set_previous next node h;
  h ← set_next node next h;
  h ← set_next l node h;
  h ← set_previous node l h;
  h ← set_my_list node l h;
  add_size l 1 h.

(** [node->previous()->set_next(node->next()); node->next()->set_previous(node->previous())] *)
Definition unlink (node : Z) (h : node_heap) : result node_heap :=
  previous ← node_previous node h;
  next ← node_next node h;
  h ← set_next previous next h;
  next ← node_next node h;
  previous ← node_previous node h;
  set_previous next previous h.

(** [Kernel/Common/List.h:555-571] pop *)
Definition list_pop (l node : Z) (h : node_heap) : result (node_heap * Z) :=
  _ ← ASSERT (negb (node =? l));
  h ← unlink node h;
  h ← set_next node nullptr h;
  h ← set_previous node nullptr h;
  h ← set_my_list node nullptr h;
  h ← add_size l (-1) h;
  Ok (h, node).

(** [Kernel/Common/List.h:500-504] pop_off *)
Definition pop_off (node : Z) (h : node_heap) : result (node_heap * Z) :=
  l ← get_field (h_my_list h) node;
  _ ← ASSERT (negb (l =? nullptr));
  list_pop l node h.

(** [Kernel/Common/List.h:438-438] empty *)
Definition list_empty (l : Z) (h : node_heap) : result bool := n ← get_field (h_size h) l; Ok (n =? 0).

(** [Kernel/Common/List.h:414-419] pop_front *)
Definition pop_front (l : Z) (h : node_heap) : result (node_heap * Z) :=
  e ← list_empty l h; _ ← ASSERT (negb e);
  node ← node_next l h; list_pop l node h.

(** [Kernel/Common/List.h:421-426] pop_back *)
Definition pop_back (l : Z) (h : node_heap) : result (node_heap * Z) :=
  e ← list_empty l h; _ ← ASSERT (negb e);
  node ← node_previous l h; list_pop l node h.

(** [Kernel/Common/List.h:590-601] the end of splice, which moves the node *)
Definition move_node (l after node : Z) (h : node_heap) : result node_heap :=
  _ ← ASSERT (negb (node =? l));
  prev ← node_previous node h;
  next ← node_next node h;
  h ← set_next prev next h;
  h ← set_previous next prev h;
  h ← set_next node after h;
  prev ← node_previous after h;
  h ← set_previous node prev h;
  prev ← node_previous after h;
  h ← set_next prev node h;
  set_previous after node h.

(** [Kernel/Common/List.h:574-602] splice *)
Definition list_splice (l after source node : Z) (h : node_heap) : result node_heap :=
  if negb (l =? source) then
    h ← add_size source (-1) h;
    h ← add_size l 1 h;
    h ← set_my_list node nullptr h;
    h ← set_my_list node l h;
    _ ← ASSERT (negb (node =? source));
    move_node l after node h
  else
    if after =? node then Ok h
    else next ← node_next node h; if next =? after then Ok h else move_node l after node h.

(** [Kernel/Common/List.h:609-613] the loop of set_nodes_owner_pointer *)
Fixpoint owner_loop (count : nat) (next_node owner : Z) (h : node_heap) : result node_heap :=
  match count with
  | O => Ok h
  | S count =>
    next ← node_next next_node h;
    h ← set_my_list next_node owner h;
    owner_loop count next owner h
  end.

(** [Kernel/Common/List.h:605-614] set_nodes_owner_pointer *)
Definition set_nodes_owner_pointer (l owner : Z) (h : node_heap) : result node_heap :=
  next_node ← node_next l h;
  n ← get_field (h_size h) l;
  owner_loop (Z.to_nat n) next_node owner h.

(** [Kernel/Common/List.h:440-446] clear *)
Definition list_clear (l : Z) (h : node_heap) : result node_heap :=
  h ← set_nodes_owner_pointer l nullptr h;
  h ← set_next l l h;
  h ← set_previous l l h;
  set_list_size l 0 h.

(** [Kernel/Common/List.h:453-470] become *)
Definition become (l other : Z) (h : node_heap) : result node_heap :=
  e ← list_empty other h;
  if (e : bool) then Ok h
  else
    first ← node_next other h;
    h ← set_next l first h;
    first ← node_next other h;
    h ← set_previous first l h;
    h ← set_next other other h;
    last ← node_previous other h;
    h ← set_previous l last h;
    last ← node_previous other h;
    h ← set_next last l h;
    h ← set_previous other other h;
    n ← get_field (h_size h) l;
    n' ← get_field (h_size h) other;
    h ← set_list_size l n' h;
    h ← set_list_size other n h;
    h ← set_nodes_owner_pointer l nullptr h;
    set_nodes_owner_pointer l l h.

(** [Kernel/Common/List.h:341-350] operator= from a list that is moved *)
Definition move_assign (l other : Z) (h : node_heap) : result node_heap :=
  if l =? other then Ok h
  else h ← list_clear l h; become l other h.

(** [Kernel/Common/List.h:372-376] the nodes a loop from begin to end visits *)
Fixpoint visit_nodes (fuel : nat) (node end_ : Z) (h : node_heap) : result (list Z) :=
  match fuel with
  | O => Fault OutOfFuel
  | S fuel =>
    if node =? end_ then Ok []
    else next ← node_next node h; rest ← visit_nodes fuel next end_ h; Ok (node :: rest)
  end.

(** [Kernel/Common/List.h:428-429] begin and end, in a loop over the list *)
Definition list_nodes (l : Z) (h : node_heap) : result (list Z) :=
  n ← get_field (h_size h) l; first ← node_next l h; visit_nodes (S (Z.to_nat n)) first l h.

(** ** Chains of nodes *)

(** Each node of the sequence points to the next one, and that one back. *)
Fixpoint chain (nx pv : gmap Z Z) (s : list Z) : Prop :=
  match s with
  | x :: (y :: _) as s => nx !! x = Some y /\ pv !! y = Some x /\ chain nx pv s
  | _ => True
  end.

Lemma chain_app nx pv s1 x s2 : chain nx pv (s1 ++ x :: s2) <-> chain nx pv (s1 ++ [x]) /\ chain nx pv (x :: s2).
Proof.
  induction s1 as [|y s1 IH]; [simpl; tauto|]. destruct s1 as [|z s1]; [simpl; tauto|].
  cbn [app chain] in *. rewrite IH. tauto.
Qed.

(** The links of a sequence are the next pointers of all its nodes but the last, and the previous
    pointers of all but the first. *)
Lemma chain_frame nx pv nx' pv' s :
  chain nx pv s -> (forall x, In x (removelast s) -> nx' !! x = nx !! x) -> (forall x, In x (tail s) -> pv' !! x = pv !! x) ->
  chain nx' pv' s.
Proof.
  induction s as [|x [|y s] IH]; [done|done|]. intros (H1 & H2 & H3) Hn Hp.
  split_and!; [rewrite Hn by (by left); done|rewrite Hp by (by left); done|].
  apply IH; [done|intros z Hz; apply Hn; by right|intros z Hz; apply Hp; by right].
Qed.

Lemma in_removelast (x : Z) s : In x (removelast s) -> In x s.
Proof.
  induction s as [|y [|z s] IH]; [done|done|]. intros [->|H]; [by left|right]. by apply IH.
Qed.

(** Changing the pointers that link [p] and [q], and those of a node [n] elsewhere, keeps the parts
    before and after. *)
Section around.
Context (nx pv nx' pv' : gmap Z Z) (s1 : list Z) (p n q : Z) (s2 : list Z).
Hypothesis Hn : forall x, x <> p -> x <> n -> nx' !! x = nx !! x.
Hypothesis Hp : forall x, x <> q -> x <> n -> pv' !! x = pv !! x.
Hypothesis P1 : ~ In p s1.
Hypothesis P2 : ~ In p (removelast (q :: s2)).
Hypothesis Q1 : ~ In q (tail (s1 ++ [p])).
Hypothesis Q2 : ~ In q s2.
Hypothesis N1 : ~ In n (s1 ++ [p]).
Hypothesis N2 : ~ In n (q :: s2).

Lemma chain_before : chain nx pv (s1 ++ [p]) -> chain nx' pv' (s1 ++ [p]).
Proof using Hn Hp P1 Q1 N1.
  intros H. apply (chain_frame nx pv); [done| |].
  - intros x Hx. rewrite removelast_last in Hx. apply Hn; [congruence|]. intros ->. apply N1, in_or_app. by left.
  - intros x Hx. apply Hp; [congruence|]. intros ->. apply N1. by destruct s1; [|right].
Qed.

Lemma chain_after : chain nx pv (q :: s2) -> chain nx' pv' (q :: s2).
Proof using Hn Hp P2 Q2 N2.
  intros H. apply (chain_frame nx pv); [done| |].
  - intros x Hx. apply Hn; [congruence|]. intros ->. by apply N2, in_removelast.
  - intros x Hx. apply Hp; [simpl in Hx; congruence|]. intros ->. apply N2. by right.
Qed.

(** A node put between [p] and [q]. *)
Lemma chain_link :
  chain nx pv (s1 ++ [p]) -> chain nx pv (q :: s2) ->
  nx' !! p = Some n -> nx' !! n = Some q -> pv' !! n = Some p -> pv' !! q = Some n ->
  chain nx' pv' (s1 ++ p :: n :: q :: s2).
Proof using Hn Hp P1 P2 Q1 Q2 N1 N2.
  intros H1 H2 Ep En Ep' Eq. apply chain_app. split; [by apply chain_before|].
  refine (conj Ep (conj Ep' (conj En (conj Eq _)))). by apply chain_after.
Qed.

(** A node taken out from between them. *)
Lemma chain_unlink :
  chain nx pv (s1 ++ p :: n :: q :: s2) -> nx' !! p = Some q -> pv' !! q = Some p ->
  chain nx' pv' (s1 ++ p :: q :: s2).
Proof using Hn Hp P1 P2 Q1 Q2 N1 N2.
  intros H Ep Eq. apply chain_app in H as [H1 H2]. destruct H2 as (_ & _ & _ & _ & H2).
  apply chain_app. split; [by apply chain_before|]. refine (conj Ep (conj Eq _)). by apply chain_after.
Qed.
End around.

(** ** Rings *)

(** The nodes [l] of the list [e], from its sentinel back to it. *)
Definition ring (nx pv : gmap Z Z) (e : Z) (l : list Z) : Prop := chain nx pv (e :: l ++ [e]).

Definition before (e : Z) (l : list Z) : Z := List.last l e.
Definition after (e : Z) (l : list Z) : Z := List.hd e l.

Lemma before_snoc e l : exists s, e :: l = s ++ [before e l].
Proof.
  unfold before. destruct l as [|x l] using rev_ind; [by exists []|]. exists (e :: l). by rewrite last_last.
Qed.

Lemma after_cons e l : exists s, l ++ [e] = after e l :: s.
Proof. destruct l as [|x l]; [by exists []|]. by exists (l ++ [e]). Qed.

(** The pointers across a gap between two nodes of a ring. *)
Lemma ring_gap nx pv e l1 l2 :
  ring nx pv e (l1 ++ l2) -> nx !! before e l1 = Some (after e l2) /\ pv !! after e l2 = Some (before e l1).
Proof.
  unfold ring. intros H. destruct (before_snoc e l1) as [s1 E1], (after_cons e l2) as [s2 E2].
  rewrite <- app_assoc, app_comm_cons, E1, E2, <- app_assoc in H. cbn [app] in H. apply chain_app in H as [_ (H1 & H2 & _)]. done.
Qed.

(** What the ends of a gap are not, in a list without repetitions. *)
Lemma gap_fresh e l1 l2 n s1 s2 :
  NoDup (e :: l1 ++ l2) -> ~ In n (e :: l1 ++ l2) ->
  e :: l1 = s1 ++ [before e l1] -> l2 ++ [e] = after e l2 :: s2 ->
  ~ In (before e l1) s1 /\ ~ In (before e l1) (removelast (after e l2 :: s2)) /\
  ~ In (after e l2) (tail (s1 ++ [before e l1])) /\ ~ In (after e l2) s2 /\
  ~ In n (s1 ++ [before e l1]) /\ ~ In n (after e l2 :: s2).
Proof.
  intros Hnd Hn E1 E2. rewrite <- E1, <- E2, removelast_last. cbn [tail].
  assert (Hp : In (before e l1) (e :: l1)) by (rewrite E1; apply in_or_app; right; by left).
  assert (Hq : In (after e l2) (l2 ++ [e])) by (rewrite E2; by left).
  assert (Hnd1 : NoDup (s1 ++ [before e l1])) by (rewrite <- E1; rewrite app_comm_cons in Hnd; by apply NoDup_app in Hnd as [? _]).
  assert (Hnd2 : NoDup (after e l2 :: s2)).
  { rewrite <- E2. apply NoDup_cons in Hnd as [He Hnd]. apply NoDup_app in Hnd as (_ & _ & Hnd).
    apply NoDup_app. split_and!; [done| |apply NoDup_singleton]. intros x Hx ->%list_elem_of_singleton. apply He, elem_of_app. by right. }
  setoid_rewrite <- list_elem_of_In. setoid_rewrite <- list_elem_of_In in Hp. setoid_rewrite <- list_elem_of_In in Hq. setoid_rewrite <- list_elem_of_In in Hn.
  rewrite app_comm_cons in Hnd. apply NoDup_app in Hnd as (Hnd3 & Hdis & Hnd4). split_and!.
  - apply NoDup_app in Hnd1 as (_ & Hd & _). intros Hx. apply (Hd _ Hx). by left.
  - intros Hx. by apply (Hdis _ Hp).
  - apply NoDup_cons in Hnd3 as [He _]. intros Hx. apply elem_of_app in Hq as [Hq|Hq].
    + apply (Hdis (after e l2)); [by right|done].
    + apply list_elem_of_singleton in Hq. congruence.
  - by apply NoDup_cons in Hnd2 as [? _].
  - intros Hx. apply Hn. rewrite app_comm_cons, elem_of_app. by left.
  - intros Hx. apply Hn. apply elem_of_app in Hx as [Hx|Hx%list_elem_of_singleton].
    + right. apply elem_of_app. by right.
    + subst. by left.
Qed.

Lemma ring_link nx pv nx' pv' e l1 l2 n :
  ring nx pv e (l1 ++ l2) -> NoDup (e :: l1 ++ l2) -> ~ In n (e :: l1 ++ l2) ->
  nx' !! before e l1 = Some n -> nx' !! n = Some (after e l2) -> pv' !! n = Some (before e l1) -> pv' !! after e l2 = Some n ->
  (forall x, x <> before e l1 -> x <> n -> nx' !! x = nx !! x) -> (forall x, x <> after e l2 -> x <> n -> pv' !! x = pv !! x) ->
  ring nx' pv' e (l1 ++ n :: l2).
Proof.
  unfold ring. intros H Hnd Hn E1 E2 E3 E4 Fn Fp. destruct (before_snoc e l1) as [s1 S1], (after_cons e l2) as [s2 S2].
  destruct (gap_fresh e l1 l2 n s1 s2 Hnd Hn S1 S2) as (P1 & P2 & Q1 & Q2 & N1 & N2).
  rewrite <- app_assoc, app_comm_cons, S1, S2, <- app_assoc in H. cbn [app] in H. apply chain_app in H as [H1 (_ & _ & H2)].
  rewrite <- app_assoc, app_comm_cons, S1. cbn [app]. rewrite S2, <- app_assoc. cbn [app]. by eapply (chain_link nx pv).
Qed.

Lemma ring_unlink nx pv nx' pv' e l1 l2 n :
  ring nx pv e (l1 ++ n :: l2) -> NoDup (e :: l1 ++ n :: l2) ->
  nx' !! before e l1 = Some (after e l2) -> pv' !! after e l2 = Some (before e l1) ->
  (forall x, x <> before e l1 -> x <> n -> nx' !! x = nx !! x) -> (forall x, x <> after e l2 -> x <> n -> pv' !! x = pv !! x) ->
  ring nx' pv' e (l1 ++ l2).
Proof.
  unfold ring. intros H Hnd E1 E2 Fn Fp. destruct (before_snoc e l1) as [s1 S1], (after_cons e l2) as [s2 S2].
  assert (Hperm : e :: l1 ++ n :: l2 ≡ₚ n :: e :: l1 ++ l2) by solve_Permutation.
  rewrite Hperm in Hnd. apply NoDup_cons in Hnd as [Hn Hnd]. rewrite list_elem_of_In in Hn.
  destruct (gap_fresh e l1 l2 n s1 s2 Hnd Hn S1 S2) as (P1 & P2 & Q1 & Q2 & N1 & N2).
  rewrite <- app_assoc, app_comm_cons, S1 in H. cbn [app] in H. rewrite S2, <- app_assoc in H. cbn [app] in H.
  rewrite <- app_assoc, app_comm_cons, S1, S2, <- app_assoc. cbn [app]. by eapply (chain_unlink nx pv _ _ _ _ n).
Qed.

(** ** Heaps of lists *)

(** The list [e] has the nodes [l], which know that they are on it. *)
Record list_at (h : node_heap) (e : Z) (l : list Z) : Prop := ListAt {
  la_not_null : e <> nullptr;
  la_nodup : NoDup (e :: l);
  la_ring : ring (h_next h) (h_previous h) e l;
  la_owner : forall n, n ∈ e :: l -> h_my_list h !! n = Some e;
  la_size : h_size h !! e = Some (Z.of_nat (length l)) /\ Z.of_nat (length l) < W64;
}.

(** The lists of a heap, and the nodes that are on none. *)
Record heap_of (h : node_heap) (L : gmap Z (list Z)) (free : gset Z) : Prop := HeapOf {
  ho_nodes : forall n, is_Some (h_my_list h !! n) -> is_Some (h_next h !! n) /\ is_Some (h_previous h !! n);
  ho_lists : forall e l, L !! e = Some l -> list_at h e l;
  ho_free : forall n, n ∈ free -> h_my_list h !! n = Some nullptr;
}.

Lemma get_field_Ok f x v : f !! x = Some v -> get_field f x = Ok v.
Proof. intros H. unfold get_field. by rewrite H. Qed.

Lemma put_field_Ok f x v : is_Some (f !! x) -> put_field f x v = Ok (<[ x := v ]> f).
Proof. intros [y H]. unfold put_field. by rewrite H. Qed.

Lemma insert_is_Some (f : gmap Z Z) x y v : is_Some (f !! x) -> is_Some (<[ y := v ]> f !! x).
Proof. intros H. destruct (decide (x = y)) as [->|]; [rewrite lookup_insert_eq; by eexists|by rewrite lookup_insert_ne]. Qed.
#[local] Hint Resolve insert_is_Some : core.
#[local] Hint Extern 1 (is_Some _) => by eexists : core.

(** A list whose nodes were not touched is as it was. *)
Definition same_node (h h' : node_heap) (x : Z) : Prop :=
  h_next h' !! x = h_next h !! x /\ h_previous h' !! x = h_previous h !! x /\ h_my_list h' !! x = h_my_list h !! x.

Lemma list_at_frame h h' e l :
  list_at h e l -> (forall x, x ∈ e :: l -> same_node h h' x) -> h_size h' !! e = h_size h !! e -> list_at h' e l.
Proof.
  intros [H1 H2 H3 H4 H5] Hs Hsize. split; [done|done| |intros n Hn|by rewrite Hsize].
  - unfold ring in *. apply (chain_frame (h_next h) (h_previous h)); [done| |].
    + intros x Hx. apply Hs, list_elem_of_In. rewrite app_comm_cons, removelast_last in Hx. done.
    + intros x Hx. cbn [tail] in Hx. apply Hs, list_elem_of_In. apply in_app_or in Hx as [Hx|[->|[]]]; [by right|by left].
  - destruct (Hs n Hn) as (_ & _ & ->). by apply H4.
Qed.

(** Nodes of different lists are different. *)
Lemma owner_ne h e l e' n : list_at h e l -> n ∈ e :: l -> h_my_list h !! n <> Some e' -> e <> e'.
Proof. intros H Hn Hne ->. by apply Hne, (la_owner _ _ _ H). Qed.

Lemma before_in e l : before e l ∈ e :: l.
Proof. destruct (before_snoc e l) as [s E]. rewrite E. apply elem_of_app. right. by left. Qed.

Lemma after_in e l : after e l ∈ e :: l.
Proof. destruct l; [by left|]. right. by left. Qed.

(** The fields of the nodes of a list can be accessed. *)
Lemma node_ok h L free e l n :
  heap_of h L free -> L !! e = Some l -> n ∈ e :: l ->
  is_Some (h_next h !! n) /\ is_Some (h_previous h !! n) /\ h_my_list h !! n = Some e.
Proof.
  intros H Hl Hn. pose proof (la_owner _ _ _ (ho_lists _ _ _ H e l Hl) n Hn) as Ho.
  destruct (ho_nodes _ _ _ H n) as [? ?]; [by eexists|done].
Qed.

Lemma free_ok h L free n :
  heap_of h L free -> n ∈ free ->
  is_Some (h_next h !! n) /\ is_Some (h_previous h !! n) /\ h_my_list h !! n = Some nullptr.
Proof.
  intros H Hn. pose proof (ho_free _ _ _ H n Hn) as Ho. destruct (ho_nodes _ _ _ H n) as [? ?]; [by eexists|done].
Qed.

Lemma free_not_in h L free e l n : heap_of h L free -> L !! e = Some l -> n ∈ free -> n ∉ e :: l.
Proof.
  intros H Hl Hn Hin. pose proof (ho_free _ _ _ H n Hn) as E1. pose proof (la_owner _ _ _ (ho_lists _ _ _ H e l Hl) n Hin) as E2.
  pose proof (la_not_null _ _ _ (ho_lists _ _ _ H e l Hl)). congruence.
Qed.

(** Linking a free node into a list at a gap: what [insert_back], [insert_front] and [splice] end with. *)
Definition linked (h h' : node_heap) (e : Z) (l1 l2 : list Z) (n : Z) : Prop :=
  h_next h' = <[ n := after e l2 ]> (<[ before e l1 := n ]> (h_next h)) /\
  h_previous h' = <[ after e l2 := n ]> (<[ n := before e l1 ]> (h_previous h)) /\
  h_my_list h' = <[ n := e ]> (h_my_list h) /\
  h_size h' = <[ e := Z.of_nat (S (length (l1 ++ l2))) ]> (h_size h).

Lemma linked_Ok h h' L free e l1 l2 n :
  heap_of h L free -> L !! e = Some (l1 ++ l2) -> n ∈ free -> Z.of_nat (S (length (l1 ++ l2))) < W64 ->
  linked h h' e l1 l2 n -> heap_of h' (<[ e := l1 ++ n :: l2 ]> L) (free ∖ {[ n ]}).
Proof.
  intros H Hl Hn Hlt (En & Ep & Em & Es). pose proof (ho_lists _ _ _ H _ _ Hl) as Ha. pose proof Ha as [A1 A2 A3 A4 A5].
  pose proof (free_not_in _ _ _ _ _ _ H Hl Hn) as Hni.
  assert (Hb : before e l1 ∈ e :: l1 ++ l2) by (rewrite app_comm_cons; apply elem_of_app; left; apply before_in).
  assert (Hq : after e l2 ∈ e :: l1 ++ l2).
  { pose proof (after_in e l2) as Hq. apply elem_of_cons in Hq as [->|Hq]; [by left|]. right. apply elem_of_app. by right. }
  assert (Hne1 : before e l1 <> n) by congruence. assert (Hne2 : after e l2 <> n) by congruence.
  split.
  - intros x Hx. rewrite Em in Hx. rewrite En, Ep. assert (Hx' : is_Some (h_my_list h !! x)).
    { destruct (decide (x = n)) as [->|]; [rewrite (ho_free _ _ _ H n Hn); by eexists|by rewrite lookup_insert_ne in Hx]. }
    destruct (ho_nodes _ _ _ H x Hx'). auto.
  - intros e' l' Hl'. destruct (decide (e' = e)) as [->|Hne].
    + rewrite lookup_insert_eq in Hl'. injection Hl' as <-. split; [done| | |intros x Hx|].
      * assert (Hperm : e :: l1 ++ n :: l2 ≡ₚ n :: e :: l1 ++ l2) by solve_Permutation. rewrite Hperm. by constructor.
      * rewrite En, Ep. apply (ring_link (h_next h) (h_previous h)); try done.
        -- by rewrite <- list_elem_of_In.
        -- rewrite lookup_insert_ne, lookup_insert_eq by done. done.
        -- by rewrite lookup_insert_eq.
        -- rewrite lookup_insert_ne, lookup_insert_eq by done. done.
        -- by rewrite lookup_insert_eq.
        -- intros x ??. by rewrite !lookup_insert_ne by done.
        -- intros x ??. by rewrite !lookup_insert_ne by done.
      * rewrite Em. destruct (decide (x = n)) as [->|]; [by rewrite lookup_insert_eq|]. rewrite lookup_insert_ne by done. apply A4.
        set_solver.
      * rewrite Es, lookup_insert_eq. rewrite !length_app in *. simpl. split; [f_equal|]; lia.
    + rewrite lookup_insert_ne in Hl' by done. pose proof (ho_lists _ _ _ H _ _ Hl') as Ha'.
      apply (list_at_frame h); [done| |by rewrite Es, lookup_insert_ne]. intros x Hx.
      assert (Hxe : forall y, y ∈ e :: l1 ++ l2 -> x <> y).
      { intros y Hy ->. apply Hne. pose proof (la_owner _ _ _ Ha' y Hx). pose proof (A4 y Hy). congruence. }
      assert (Hxn : x <> n) by (intros ->; by apply (free_not_in _ _ _ _ _ _ H Hl' Hn)).
      pose proof (Hxe _ Hb). pose proof (Hxe _ Hq). unfold same_node. rewrite En, Ep, Em, !lookup_insert_ne by done. done.
  - intros x Hx. rewrite Em. rewrite lookup_insert_ne by set_solver. apply (ho_free _ _ _ H). set_solver.
Qed.

(** Taking a node out of a list: what [pop] ends with, and [splice] begins with. *)
Definition unlinked (h h' : node_heap) (e : Z) (l1 l2 : list Z) (n x y : Z) : Prop :=
  h_next h' = <[ n := x ]> (<[ before e l1 := after e l2 ]> (h_next h)) /\
  h_previous h' = <[ n := y ]> (<[ after e l2 := before e l1 ]> (h_previous h)) /\
  h_my_list h' = <[ n := nullptr ]> (h_my_list h) /\
  h_size h' = <[ e := Z.of_nat (length (l1 ++ l2)) ]> (h_size h).

Lemma unlinked_Ok h h' L free e l1 l2 n x y :
  heap_of h L free -> L !! e = Some (l1 ++ n :: l2) -> unlinked h h' e l1 l2 n x y ->
  heap_of h' (<[ e := l1 ++ l2 ]> L) (free ∪ {[ n ]}).
Proof.
  intros H Hl (En & Ep & Em & Es). pose proof (ho_lists _ _ _ H _ _ Hl) as Ha. pose proof Ha as [A1 A2 A3 A4 A5].
  assert (Hperm : e :: l1 ++ n :: l2 ≡ₚ n :: e :: l1 ++ l2) by solve_Permutation.
  pose proof A2 as Hnd. rewrite Hperm in Hnd. apply NoDup_cons in Hnd as [Hni Hnd].
  assert (Hb : before e l1 ∈ e :: l1 ++ l2) by (rewrite app_comm_cons; apply elem_of_app; left; apply before_in).
  assert (Hq : after e l2 ∈ e :: l1 ++ l2).
  { pose proof (after_in e l2) as Hq. apply elem_of_cons in Hq as [->|Hq]; [by left|]. right. apply elem_of_app. by right. }
  assert (Hne1 : before e l1 <> n) by congruence. assert (Hne2 : after e l2 <> n) by congruence.
  split.
  - intros z Hz. rewrite Em in Hz. rewrite En, Ep. assert (Hz' : is_Some (h_my_list h !! z)).
    { destruct (decide (z = n)) as [->|]; [rewrite (A4 n) by (rewrite Hperm; by left); by eexists|by rewrite lookup_insert_ne in Hz]. }
    destruct (ho_nodes _ _ _ H z Hz'). auto.
  - intros e' l' Hl'. destruct (decide (e' = e)) as [->|Hne].
    + rewrite lookup_insert_eq in Hl'. injection Hl' as <-. split; [done|done| |intros z Hz|].
      * rewrite En, Ep. apply (ring_unlink (h_next h) (h_previous h) _ _ _ _ _ n); try done.
        -- rewrite lookup_insert_ne, lookup_insert_eq by done. done.
        -- rewrite lookup_insert_ne, lookup_insert_eq by done. done.
        -- intros z ??. by rewrite !lookup_insert_ne by done.
        -- intros z ??. by rewrite !lookup_insert_ne by done.
      * rewrite Em, lookup_insert_ne by congruence. apply A4. rewrite Hperm. by right.
      * rewrite Es, lookup_insert_eq. rewrite !length_app in *. simpl in A5. split; [done|lia].
    + rewrite lookup_insert_ne in Hl' by done. pose proof (ho_lists _ _ _ H _ _ Hl') as Ha'.
      apply (list_at_frame h); [done| |by rewrite Es, lookup_insert_ne]. intros z Hz.
      assert (Hze : forall w, w ∈ e :: l1 ++ n :: l2 -> z <> w).
      { intros w Hw ->. apply Hne. pose proof (la_owner _ _ _ Ha' w Hz). pose proof (A4 w Hw). congruence. }
      pose proof (Hze (before e l1) ltac:(rewrite Hperm; by right)). pose proof (Hze (after e l2) ltac:(rewrite Hperm; by right)).
      pose proof (Hze n ltac:(rewrite Hperm; by left)). unfold same_node. rewrite En, Ep, Em, !lookup_insert_ne by done. done.
  - intros z Hz. rewrite Em. destruct (decide (z = n)) as [->|]; [by rewrite lookup_insert_eq|].
    rewrite lookup_insert_ne by done. apply (ho_free _ _ _ H). set_solver.
Qed.

(** ** The operations *)

(** Runs an access whose field is known. *)
Ltac field_step :=
  first
    [ rewrite put_field_Ok by auto; run
    | erewrite get_field_Ok by eassumption; run ].
Ltac fields :=
  unfold node_next, node_previous, set_next, set_previous, set_list_size in *;
  cbn [h_next h_previous h_my_list h_size];
  repeat (field_step; cbn [h_next h_previous h_my_list h_size]).

Lemma wrap_size (k : nat) : Z.of_nat k < W64 -> wrap64 (Z.of_nat k) = Z.of_nat k.
Proof. intros H. apply wrap64_small. unfold is_u64. lia. Qed.

Lemma insert_back_Ok h L free e l n :
  heap_of h L free -> L !! e = Some l -> n ∈ free -> Z.of_nat (S (length l)) < W64 ->
  exists h', insert_back e n h = Ok h' /\ heap_of h' (<[ e := l ++ [n] ]> L) (free ∖ {[ n ]}).
Proof.
  intros H Hl Hn Hlt. pose proof (ho_lists _ _ _ H _ _ Hl) as [A1 A2 A3 A4 [A5 A6]].
  rewrite <- (app_nil_r l) in A3. destruct (ring_gap _ _ _ _ _ A3) as [G1 G2]. unfold after in G2. cbn in G2.
  destruct (node_ok _ _ _ _ _ _ H Hl (before_in e l)) as (B1 & B2 & B3). destruct (free_ok _ _ _ _ H Hn) as (N1 & N2 & N3).
  destruct (node_ok _ _ _ _ _ e H Hl ltac:(by left)) as (E1 & E2 & E3).
  unfold insert_back, set_my_list, add_size. fields.
  rewrite orb_true_r. run. fields. eexists. split; [reflexivity|].
  rewrite <- (app_nil_r l) in Hl. apply (linked_Ok h _ L free e l [] n); try done; [by rewrite app_nil_r|].
  unfold linked. cbn [h_next h_previous h_my_list h_size]. unfold after. cbn [List.hd]. split_and!; try done.
  rewrite app_nil_r. f_equal. replace (Z.of_nat (length l) + 1) with (Z.of_nat (S (length l))) by lia. by apply wrap_size.
Qed.

Lemma insert_front_Ok h L free e l n :
  heap_of h L free -> L !! e = Some l -> n ∈ free -> Z.of_nat (S (length l)) < W64 ->
  exists h', insert_front e n h = Ok h' /\ heap_of h' (<[ e := n :: l ]> L) (free ∖ {[ n ]}).
Proof.
  intros H Hl Hn Hlt. pose proof (ho_lists _ _ _ H _ _ Hl) as [A1 A2 A3 A4 [A5 A6]].
  destruct (ring_gap _ _ e [] l A3) as [G1 G2]. unfold before in G1. cbn in G1.
  destruct (node_ok _ _ _ _ _ _ H Hl (after_in e l)) as (B1 & B2 & B3). destruct (free_ok _ _ _ _ H Hn) as (N1 & N2 & N3).
  destruct (node_ok _ _ _ _ _ e H Hl ltac:(by left)) as (E1 & E2 & E3).
  pose proof (free_not_in _ _ _ _ _ _ H Hl Hn) as Hni. pose proof (after_in e l) as Hq.
  assert (e <> n) by (intros ->; apply Hni; by left). assert (after e l <> n) by congruence.
  unfold insert_front, set_my_list, add_size. fields.
  rewrite orb_true_r. run. fields. eexists. split; [reflexivity|].
  apply (linked_Ok h _ L free e [] l n); try done.
  unfold linked. cbn [h_next h_previous h_my_list h_size app before List.last]. split_and!; try done.
  - by apply insert_insert_ne.
  - by apply insert_insert_ne.
  - f_equal. replace (Z.of_nat (length l) + 1) with (Z.of_nat (S (length l))) by lia. by apply wrap_size.
Qed.

Lemma list_pop_Ok h L free e l1 n l2 :
  heap_of h L free -> L !! e = Some (l1 ++ n :: l2) ->
  exists h', list_pop e n h = Ok (h', n) /\ heap_of h' (<[ e := l1 ++ l2 ]> L) (free ∪ {[ n ]}).
Proof.
  intros H Hl. pose proof (ho_lists _ _ _ H _ _ Hl) as [A1 A2 A3 A4 [A5 A6]].
  destruct (ring_gap _ _ e l1 (n :: l2) A3) as [_ G2]. cbn in G2.
  rewrite (app_assoc l1 [n] l2 : l1 ++ n :: l2 = _) in A3. destruct (ring_gap _ _ e (l1 ++ [n]) l2 A3) as [G1 _].
  unfold before in G1 at 1. rewrite last_last in G1.
  assert (Hperm : e :: l1 ++ n :: l2 ≡ₚ n :: e :: l1 ++ l2) by solve_Permutation.
  rewrite Hperm in A2. apply NoDup_cons in A2 as [Hni Hnd].
  assert (Hb : before e l1 ∈ e :: l1 ++ l2) by (rewrite app_comm_cons; apply elem_of_app; left; apply before_in).
  assert (Hq : after e l2 ∈ e :: l1 ++ l2).
  { pose proof (after_in e l2) as Hq. apply elem_of_cons in Hq as [->|Hq]; [by left|]. right. apply elem_of_app. by right. }
  assert (Hne1 : before e l1 <> n) by congruence. assert (Hne2 : after e l2 <> n) by congruence.
  assert (Hne3 : n <> e) by (intros ->; apply Hni; by left).
  destruct (node_ok _ _ _ _ _ (before e l1) H Hl ltac:(rewrite Hperm; by right)) as (B1 & B2 & _).
  destruct (node_ok _ _ _ _ _ (after e l2) H Hl ltac:(rewrite Hperm; by right)) as (Q1 & Q2 & _).
  destruct (node_ok _ _ _ _ _ n H Hl ltac:(rewrite Hperm; by left)) as (N1 & N2 & N3).
  unfold list_pop. rewrite (proj2 (Z.eqb_neq n e)) by done. cbn [negb]. run. unfold unlink, set_my_list, add_size. fields.
  rewrite (get_field_Ok _ n (after e l2)) by (by rewrite lookup_insert_ne). run. fields.
  change (nullptr =? nullptr) with true. cbn [orb]. run. fields. eexists. split; [reflexivity|].
  apply (unlinked_Ok h _ L free e l1 l2 n nullptr nullptr); try done.
  unfold unlinked. cbn [h_next h_previous h_my_list h_size]. split_and!; try done. f_equal.
  rewrite length_app in *. cbn [length] in *. replace (Z.of_nat (length l1 + S (length l2)) + -1) with (Z.of_nat (length l1 + length l2)) by lia.
  rewrite length_app. apply wrap_size. lia.
Qed.

Lemma pop_off_Ok h L free e l1 n l2 :
  heap_of h L free -> L !! e = Some (l1 ++ n :: l2) ->
  exists h', pop_off n h = Ok (h', n) /\ heap_of h' (<[ e := l1 ++ l2 ]> L) (free ∪ {[ n ]}).
Proof.
  intros H Hl. destruct (node_ok _ _ _ _ _ n H Hl ltac:(set_solver)) as (_ & _ & E). unfold pop_off. rewrite (get_field_Ok _ _ _ E). run.
  rewrite (proj2 (Z.eqb_neq _ _)) by apply (la_not_null _ _ _ (ho_lists _ _ _ H _ _ Hl)). cbn [negb]. run. by apply list_pop_Ok.
Qed.

Lemma list_empty_Ok h e l : list_at h e l -> list_empty e h = Ok (bool_decide (l = [])).
Proof.
  intros [_ _ _ _ [E _]]. unfold list_empty. rewrite (get_field_Ok _ _ _ E). run. f_equal. destruct l; [done|].
  rewrite bool_decide_false by done. apply Z.eqb_neq. simpl. lia.
Qed.

Lemma pop_front_Ok h L free e l :
  heap_of h L free -> L !! e = Some l ->
  match l with
  | [] => pop_front e h = Fault AssertionFailed
  | n :: l => exists h', pop_front e h = Ok (h', n) /\ heap_of h' (<[ e := l ]> L) (free ∪ {[ n ]})
  end.
Proof.
  intros H Hl. pose proof (ho_lists _ _ _ H _ _ Hl) as Ha. unfold pop_front. rewrite (list_empty_Ok _ _ _ Ha). run.
  destruct l as [|n l]; [done|]. rewrite bool_decide_false by done. cbn [negb]. run.
  destruct (ring_gap _ _ e [] (n :: l) (la_ring _ _ _ Ha)) as [G _]. change (before e []) with e in G.
  unfold node_next. rewrite (get_field_Ok _ _ _ G). run. by apply (list_pop_Ok h L free e [] n l).
Qed.

Lemma pop_back_Ok h L free e l n :
  heap_of h L free -> L !! e = Some (l ++ [n]) ->
  exists h', pop_back e h = Ok (h', n) /\ heap_of h' (<[ e := l ]> L) (free ∪ {[ n ]}).
Proof.
  intros H Hl. pose proof (ho_lists _ _ _ H _ _ Hl) as Ha. unfold pop_back. rewrite (list_empty_Ok _ _ _ Ha). run.
  rewrite bool_decide_false by (by destruct l). cbn [negb]. run.
  pose proof (la_ring _ _ _ Ha) as R. rewrite <- (app_nil_r (l ++ [n])) in R. destruct (ring_gap _ _ e (l ++ [n]) [] R) as [_ G].
  unfold before, after in G. rewrite last_last in G. cbn in G. unfold node_previous. rewrite (get_field_Ok _ _ _ G). run.
  destruct (list_pop_Ok h L free e l n [] H Hl) as (h' & E & H'). rewrite app_nil_r in H'. eauto.
Qed.

(** The pointers that [splice] writes. *)
Lemma move_node_maps e a n b c p h :
  h_next h !! n = Some c -> h_previous h !! n = Some b -> <[ c := b ]> (h_previous h) !! a = Some p ->
  is_Some (h_next h !! b) -> is_Some (h_previous h !! c) -> is_Some (h_next h !! p) -> is_Some (h_previous h !! a) ->
  n <> e -> a <> n ->
  move_node e a n h =
    Ok (NodeHeap (<[ p := n ]> (<[ n := a ]> (<[ b := c ]> (h_next h)))) (<[ a := n ]> (<[ n := p ]> (<[ c := b ]> (h_previous h))))
          (h_my_list h) (h_size h)).
Proof.
  intros E1 E2 E3 B C P A Hne Hna. unfold move_node. rewrite (proj2 (Z.eqb_neq n e)) by done. cbn [negb]. run. fields.
  rewrite (get_field_Ok _ a p) by (by rewrite lookup_insert_ne). run. by fields.
Qed.

(** A node taken out of one place and linked at another. *)
Lemma moved_Ok h L free e l1 n l2 d m1 m2 my size :
  heap_of h L free -> L !! e = Some (l1 ++ n :: l2) ->
  <[ e := l1 ++ l2 ]> L !! d = Some (m1 ++ m2) -> Z.of_nat (S (length (m1 ++ m2))) < W64 ->
  after d m2 <> n -> n <> d ->
  my = <[ n := d ]> (<[ n := nullptr ]> (h_my_list h)) ->
  size = <[ d := Z.of_nat (S (length (m1 ++ m2))) ]> (<[ e := Z.of_nat (length (l1 ++ l2)) ]> (h_size h)) ->
  exists h', move_node d (after d m2) n (NodeHeap (h_next h) (h_previous h) my size) = Ok h' /\
    heap_of h' (<[ d := m1 ++ n :: m2 ]> (<[ e := l1 ++ l2 ]> L)) ((free ∪ {[ n ]}) ∖ {[ n ]}).
Proof.
  assert (Hnf : n ∈ free ∪ {[ n ]}) by set_solver. intros H Hl Hd Hlt Hna Hnd Hmy Hsize. pose proof (ho_lists _ _ _ H _ _ Hl) as [A1 A2 A3 A4 _].
  destruct (ring_gap _ _ e l1 (n :: l2) A3) as [_ G2]. cbn in G2.
  rewrite (app_assoc l1 [n] l2 : l1 ++ n :: l2 = _) in A3. destruct (ring_gap _ _ e (l1 ++ [n]) l2 A3) as [G1 _].
  unfold before in G1 at 1. rewrite last_last in G1.
  assert (Hperm : e :: l1 ++ n :: l2 ≡ₚ n :: e :: l1 ++ l2) by solve_Permutation.
  rewrite Hperm in A2. apply NoDup_cons in A2 as [Hni _].
  assert (Hb : before e l1 ∈ e :: l1 ++ l2) by (rewrite app_comm_cons; apply elem_of_app; left; apply before_in).
  assert (Hq : after e l2 ∈ e :: l1 ++ l2).
  { pose proof (after_in e l2) as Hq. apply elem_of_cons in Hq as [->|Hq]; [by left|]. right. apply elem_of_app. by right. }
  set (a := after d m2) in *. set (p := before d m1) in *.
  set (h1 := NodeHeap (<[ n := a ]> (<[ before e l1 := after e l2 ]> (h_next h))) (<[ n := p ]> (<[ after e l2 := before e l1 ]> (h_previous h)))
               (<[ n := nullptr ]> (h_my_list h)) (<[ e := Z.of_nat (length (l1 ++ l2)) ]> (h_size h))).
  assert (H1 : heap_of h1 (<[ e := l1 ++ l2 ]> L) (free ∪ {[ n ]})) by (by apply (unlinked_Ok h h1 L free e l1 l2 n a p)).
  pose proof (ho_lists _ _ _ H1 _ _ Hd) as D. destruct (ring_gap _ _ d m1 m2 (la_ring _ _ _ D)) as [_ G3].
  assert (Hpin : p ∈ d :: m1 ++ m2) by (rewrite app_comm_cons; apply elem_of_app; left; apply before_in).
  assert (Hain : a ∈ d :: m1 ++ m2).
  { pose proof (after_in d m2) as Ha. fold a in Ha. apply elem_of_cons in Ha as [->|Ha]; [by left|]. right. apply elem_of_app. by right. }
  assert (Hpn : p <> n).
  { intros E. apply (free_not_in _ _ _ _ _ n H1 Hd Hnf). by rewrite <- E. }
  assert (Hold : forall x, x ∈ d :: m1 ++ m2 -> is_Some (h_next h !! x) /\ is_Some (h_previous h !! x)).
  { intros x Hx. apply (ho_nodes _ _ _ H). pose proof (la_owner _ _ _ D x Hx) as Ho. cbn [h_my_list h1] in Ho.
    destruct (decide (x = n)) as [->|]; [|rewrite lookup_insert_ne in Ho by done; by eexists].
    exfalso. by apply (free_not_in _ _ _ _ _ n H1 Hd Hnf). }
  destruct (node_ok _ _ _ _ _ (before e l1) H Hl ltac:(rewrite Hperm; by right)) as (B1 & B2 & _).
  destruct (node_ok _ _ _ _ _ (after e l2) H Hl ltac:(rewrite Hperm; by right)) as (Q1 & Q2 & _).
  fold p a in G3. cbn [h1 h_previous] in G3. rewrite lookup_insert_ne in G3 by done.
  erewrite (move_node_maps d a n (before e l1) (after e l2) p); cbn [h_next h_previous]; try done; try apply Hold; try done.
  eexists. split; [reflexivity|]. apply (linked_Ok h1 _ _ _ d m1 m2 n); try done.
  unfold linked. fold a p. cbn [h_next h_previous h_my_list h_size h1]. split_and!.
  - rewrite (insert_insert_ne _ n p) by done. by rewrite insert_insert_eq.
  - by rewrite insert_insert_eq.
  - done.
  - done.
Qed.

Lemma free_back h L free e l n : heap_of h L free -> L !! e = Some l -> n ∈ e :: l -> (free ∪ {[ n ]}) ∖ {[ n ]} = free.
Proof.
  intros H Hl Hn. assert (n ∉ free) by (intros Hf; by apply (free_not_in _ _ _ _ _ _ H Hl Hf)). set_solver.
Qed.

Lemma splice_other_Ok h L free e l1 n l2 d m1 m2 :
  heap_of h L free -> L !! e = Some (l1 ++ n :: l2) -> L !! d = Some (m1 ++ m2) -> d <> e -> Z.of_nat (S (length (m1 ++ m2))) < W64 ->
  exists h', list_splice d (after d m2) e n h = Ok h' /\ heap_of h' (<[ d := m1 ++ n :: m2 ]> (<[ e := l1 ++ l2 ]> L)) free.
Proof.
  intros H Hl Hd Hne Hlt. pose proof (ho_lists _ _ _ H _ _ Hl) as [A1 A2 A3 A4 [A5 A6]].
  pose proof (ho_lists _ _ _ H _ _ Hd) as [D1 D2 D3 D4 [D5 D6]].
  destruct (node_ok _ _ _ _ _ n H Hl ltac:(set_solver)) as (N1 & N2 & N3).
  assert (Hnin : forall x, x ∈ d :: m1 ++ m2 -> x <> n) by (intros x Hx ->; pose proof (D4 n Hx); congruence).
  assert (Hne2 : n <> e) by (intros ->; apply NoDup_cons in A2 as [A2 _]; apply A2; set_solver).
  assert (Hain : after d m2 ∈ d :: m1 ++ m2).
  { pose proof (after_in d m2) as Ha. apply elem_of_cons in Ha as [->|Ha]; [by left|]. right. apply elem_of_app. by right. }
  rewrite <- (free_back _ _ _ _ _ n H Hl ltac:(set_solver)).
  unfold list_splice. rewrite (proj2 (Z.eqb_neq d e)) by done. cbn [negb]. unfold add_size, set_my_list. fields.
  rewrite (get_field_Ok _ d (Z.of_nat (length (m1 ++ m2)))) by (by rewrite lookup_insert_ne). run. fields.
  change (nullptr =? nullptr) with true. cbn [orb]. run. fields.
  rewrite (get_field_Ok _ n nullptr) by (by rewrite lookup_insert_eq). run. rewrite orb_true_r. run. fields.
  rewrite (proj2 (Z.eqb_neq n e)) by done. cbn [negb]. run.
  apply (moved_Ok h L free e l1 n l2 d m1 m2); try done.
  - by rewrite lookup_insert_ne.
  - by apply Hnin.
  - intros <-. apply (Hnin n); [by left|done].
  - replace (Z.of_nat (length (m1 ++ m2)) + 1) with (Z.of_nat (S (length (m1 ++ m2)))) by lia. rewrite (wrap_size (S _)) by done.
    do 2 f_equal. rewrite length_app in A6. simpl in A6.
    replace (Z.of_nat (length (l1 ++ n :: l2)) + -1) with (Z.of_nat (length (l1 ++ l2))) by (rewrite !length_app; simpl; lia).
    apply wrap_size. rewrite length_app. lia.
Qed.

(** The node after a gap determines the gap. *)
Lemma after_inj e l1 l2 m1 m2 :
  NoDup (e :: m1 ++ m2) -> l1 ++ l2 = m1 ++ m2 -> after e l2 = after e m2 -> l1 = m1 /\ l2 = m2.
Proof.
  intros Hnd E Ha. pose proof Hnd as [He Hnd']%NoDup_cons.
  destruct l2 as [|x l2], m2 as [|y m2]; cbn in Ha.
  - rewrite !app_nil_r in E. done.
  - subst y. exfalso. apply He. set_solver.
  - subst x. exfalso. apply He. rewrite <- E. set_solver.
  - subst y. assert (Hl : length l1 = length m1).
    { apply (NoDup_lookup (m1 ++ x :: m2) _ _ x); [done| |by apply list_lookup_middle]. rewrite <- E. by apply list_lookup_middle. }
    apply app_inj_1 in E; [|done]. done.
Qed.

Lemma splice_same_Ok h L free e l1 n l2 m1 m2 :
  heap_of h L free -> L !! e = Some (l1 ++ n :: l2) -> l1 ++ l2 = m1 ++ m2 ->
  exists h', list_splice e (after e m2) e n h = Ok h' /\ heap_of h' (<[ e := m1 ++ n :: m2 ]> L) free.
Proof.
  intros H Hl E. pose proof (ho_lists _ _ _ H _ _ Hl) as Ha. pose proof Ha as [A1 A2 A3 A4 [A5 A6]].
  rewrite (app_assoc l1 [n] l2 : l1 ++ n :: l2 = _) in A3. destruct (ring_gap _ _ e (l1 ++ [n]) l2 A3) as [G1 _].
  unfold before in G1 at 1. rewrite last_last in G1.
  assert (Hperm : e :: l1 ++ n :: l2 ≡ₚ n :: e :: m1 ++ m2) by (rewrite <- E; solve_Permutation).
  rewrite Hperm in A2. apply NoDup_cons in A2 as [Hni Hnd].
  assert (Hain : after e m2 ∈ e :: m1 ++ m2).
  { pose proof (after_in e m2) as Hx. apply elem_of_cons in Hx as [->|Hx]; [by left|]. right. apply elem_of_app. by right. }
  unfold list_splice. rewrite Z.eqb_refl. cbn [negb]. destruct (Z.eqb_spec (after e m2) n) as [En|Hna]; [rewrite En in Hain; done|].
  unfold node_next. rewrite (get_field_Ok _ _ _ G1). run. destruct (Z.eqb_spec (after e l2) (after e m2)) as [Ea|Ha'].
  - destruct (after_inj e l1 l2 m1 m2 Hnd E Ea) as [<- <-]. exists h. by rewrite insert_id.
  - destruct (moved_Ok h L free e l1 n l2 e m1 m2 (h_my_list h) (h_size h)) as (h' & E' & H'); try done.
    + by rewrite lookup_insert_eq, E.
    + rewrite <- E. rewrite length_app in *. simpl in A6. lia.
    + intros ->. apply Hni. by left.
    + rewrite insert_insert_eq, insert_id; [done|]. apply A4. set_solver.
    + rewrite insert_insert_eq, insert_id; [done|]. rewrite A5, <- E. rewrite !length_app. simpl. f_equal. lia.
    + exists h'. destruct h; cbn in E'. rewrite insert_insert_eq in H'.
      rewrite (free_back _ _ _ _ _ n H Hl ltac:(set_solver)) in H'. done.
Qed.

(** ** Clearing and moving lists *)

Lemma owner_loop_Ok owner z l h :
  chain (h_next h) (h_previous h) (l ++ [z]) -> NoDup l ->
  (forall n, n ∈ l -> exists mine, h_my_list h !! n = Some mine /\ (owner = nullptr \/ mine = nullptr)) ->
  exists my, owner_loop (length l) (after z l) owner h = Ok (NodeHeap (h_next h) (h_previous h) my (h_size h)) /\
    forall n, my !! n = if decide (n ∈ l) then Some owner else h_my_list h !! n.
Proof.
  revert h. induction l as [|x l IH]; intros h Hc Hnd Hmy; cbn [owner_loop length].
  - exists (h_my_list h). split; [by destruct h|]. intros n. by rewrite decide_False by set_solver.
  - assert (Hx : h_next h !! x = Some (after z l) /\ chain (h_next h) (h_previous h) (l ++ [z])).
    { destruct l as [|y l]; cbn in Hc; [tauto|]. destruct Hc as (H1 & _ & H2). done. }
    destruct Hx as [Hx Hc']. destruct (Hmy x ltac:(by left)) as (mine & Em & Ho). apply NoDup_cons in Hnd as [Hxl Hnd].
    change (after z (x :: l)) with x. unfold node_next, set_my_list. rewrite (get_field_Ok _ _ _ Hx), (get_field_Ok _ _ _ Em). run.
    replace ((owner =? nullptr) || (mine =? nullptr)) with true by (destruct Ho as [-> | ->]; rewrite Z.eqb_refl; by rewrite ?orb_true_r).
    run. rewrite put_field_Ok by (by eexists). run.
    destruct (IH (NodeHeap (h_next h) (h_previous h) (<[ x := owner ]> (h_my_list h)) (h_size h))) as (my & E & Hm); cbn [h_next h_previous h_my_list h_size]; try done.
    { intros n Hn. rewrite lookup_insert_ne by congruence. apply Hmy. by right. }
    exists my. split; [exact E|]. intros n. rewrite Hm. cbn [h_my_list].
    destruct (decide (n = x)) as [->|Hnx]; [rewrite (decide_False (P := x ∈ l)), decide_True by (done || by left); by rewrite lookup_insert_eq|].
    rewrite lookup_insert_ne by done. repeat case_decide; set_solver.
Qed.

(** The nodes of a list get an owner, or none. *)
Lemma set_owner_Ok h e l owner :
  ring (h_next h) (h_previous h) e l -> NoDup (e :: l) -> h_size h !! e = Some (Z.of_nat (length l)) ->
  (forall n, n ∈ l -> exists mine, h_my_list h !! n = Some mine /\ (owner = nullptr \/ mine = nullptr)) ->
  exists my, set_nodes_owner_pointer e owner h = Ok (NodeHeap (h_next h) (h_previous h) my (h_size h)) /\
    forall n, my !! n = if decide (n ∈ l) then Some owner else h_my_list h !! n.
Proof.
  intros Hr Hnd Hs Hmy. destruct (ring_gap _ _ e [] l Hr) as [G _]. change (before e []) with e in G.
  unfold set_nodes_owner_pointer, node_next. rewrite (get_field_Ok _ _ _ G), (get_field_Ok _ _ _ Hs). run. rewrite Nat2Z.id.
  apply NoDup_cons in Hnd as [_ Hnd]. apply owner_loop_Ok; try done. unfold ring in Hr. destruct l as [|x l]; [done|]. by destruct Hr as (_ & _ & ?).
Qed.

Lemma empty_ring_at nx pv e : nx !! e = Some e -> pv !! e = Some e -> ring nx pv e [].
Proof. intros H1 H2. by split_and!. Qed.

Lemma list_clear_Ok h L free e l :
  heap_of h L free -> L !! e = Some l ->
  exists h', list_clear e h = Ok h' /\ heap_of h' (<[ e := [] ]> L) (free ∪ list_to_set l).
Proof.
  intros H Hl. pose proof (ho_lists _ _ _ H _ _ Hl) as Ha. pose proof Ha as [A1 A2 A3 A4 [A5 A6]].
  destruct (set_owner_Ok h e l nullptr A3 A2 A5) as (my & E & Hmy).
  { intros n Hn. exists e. split; [apply A4; by right|by left]. }
  destruct (node_ok _ _ _ _ _ e H Hl ltac:(by left)) as (E1 & E2 & E3).
  unfold list_clear. rewrite E. run. fields. eexists. split; [reflexivity|]. split; cbn [h_next h_previous h_my_list h_size].
  - intros n Hn. rewrite Hmy in Hn. destruct (ho_nodes _ _ _ H n) as [N1 N2]; [|auto]. case_decide; [|done].
    rewrite (A4 n) by (by right). by eexists.
  - intros e' l' Hl'. destruct (decide (e' = e)) as [->|Hne].
    + rewrite lookup_insert_eq in Hl'. injection Hl' as <-. split; cbn [h_next h_previous h_my_list h_size].
      * done.
      * apply NoDup_singleton.
      * apply empty_ring_at; by rewrite lookup_insert_eq.
      * intros n ->%list_elem_of_singleton. rewrite Hmy, decide_False; [done|]. by apply NoDup_cons in A2 as [? _].
      * by rewrite lookup_insert_eq.
    + rewrite lookup_insert_ne in Hl' by done. pose proof (ho_lists _ _ _ H _ _ Hl') as Ha'.
      apply (list_at_frame h); [done| |cbn; by rewrite lookup_insert_ne]. intros x Hx. unfold same_node. cbn [h_next h_previous h_my_list].
      assert (Hxe : x ∉ e :: l).
      { intros Hx'. apply Hne. pose proof (la_owner _ _ _ Ha' x Hx). pose proof (A4 x Hx'). congruence. }
      apply not_elem_of_cons in Hxe as [Hxe Hxl]. rewrite !lookup_insert_ne, Hmy, decide_False by done. done.
  - intros n Hn. rewrite Hmy. case_decide as Hd; [done|]. apply (ho_free _ _ _ H). apply elem_of_union in Hn as [Hn|Hn]; [done|].
    by apply elem_of_list_to_set in Hn.
Qed.

(** The nodes of a ring between the sentinel of another list. *)
Lemma ring_move nx pv nx' pv' e d l :
  ring nx pv e l -> l <> [] -> NoDup (e :: l) ->
  nx' !! d = Some (after e l) -> nx' !! before e l = Some d -> pv' !! after e l = Some d -> pv' !! d = Some (before e l) ->
  (forall x, x ∈ l -> x <> before e l -> nx' !! x = nx !! x) -> (forall x, x ∈ l -> x <> after e l -> pv' !! x = pv !! x) ->
  ring nx' pv' d l.
Proof.
  intros Hr Hne Hnd E1 E2 E3 E4 Hn Hp. unfold ring in *.
  destruct (exists_last Hne) as (s & y & Ey). assert (Hy : before e l = y) by (unfold before; rewrite Ey; apply last_last).
  rewrite Hy in *. apply NoDup_cons in Hnd as [_ Hnd].
  assert (Hc : chain nx pv l).
  { rewrite Ey, <- app_assoc in Hr. apply (chain_app nx pv (e :: s) y [e]) in Hr as [Hr _]. cbn [app] in Hr. rewrite <- Ey in Hr.
    destruct l; [done|]. by destruct Hr as (_ & _ & ?). }
  assert (Hc' : chain nx' pv' l).
  { apply (chain_frame nx pv); [done| |].
    - intros x Hx. rewrite Ey, removelast_last in Hx. apply list_elem_of_In in Hx. apply Hn; [rewrite Ey; set_solver|].
      intros ->. rewrite Ey in Hnd. apply NoDup_app in Hnd as (_ & Hnd & _). apply (Hnd y Hx). by left.
    - intros x Hx. destruct l as [|z l]; [done|]. cbn in Hx. apply list_elem_of_In in Hx. apply Hp; [by right|].
      change (after e (z :: l)) with z. intros ->. by apply NoDup_cons in Hnd as [? _]. }
  rewrite Ey, <- app_assoc. apply (chain_app nx' pv' (d :: s) y [d]). split.
  - cbn [app]. rewrite <- Ey. destruct l as [|z l]; [done|]. cbn [after List.hd] in *. by split_and!.
  - by split_and!.
Qed.

Lemma become_Ok h L free d e l :
  heap_of h L free -> L !! e = Some l -> L !! d = Some [] -> d <> e ->
  exists h', become d e h = Ok h' /\ heap_of h' (<[ d := l ]> (<[ e := [] ]> L)) free.
Proof.
  intros H Hl Hd Hne. pose proof (ho_lists _ _ _ H _ _ Hl) as Ha. pose proof Ha as [A1 A2 A3 A4 [A5 A6]].
  pose proof (ho_lists _ _ _ H _ _ Hd) as [D1 D2 D3 D4 [D5 _]].
  unfold become. rewrite (list_empty_Ok _ _ _ Ha). run. destruct (decide (l = [])) as [->|Hl0].
  { rewrite bool_decide_true by done. exists h. split; [done|]. rewrite (insert_id L e) by done. by rewrite insert_id. }
  rewrite bool_decide_false by done.
  destruct (ring_gap _ _ e [] l A3) as [G1 _]. change (before e []) with e in G1.
  pose proof A3 as A3'. rewrite <- (app_nil_r l) in A3'. destruct (ring_gap _ _ e l [] A3') as [_ G2]. change (after e []) with e in G2.
  assert (Hx : after e l ∈ l) by (destruct l; [done|by left]).
  assert (Hy : before e l ∈ l) by (destruct (exists_last Hl0) as (s & y & ->); unfold before; rewrite last_last; set_solver).
  assert (He : e ∉ l) by (by apply NoDup_cons in A2 as [? _]).
  assert (Hdl : d ∉ l) by (intros Hin; pose proof (A4 d ltac:(by right)); pose proof (D4 d ltac:(by left)); congruence).
  assert (Hxe : after e l <> e) by congruence. assert (Hye : before e l <> e) by congruence.
  assert (Hxd : after e l <> d) by congruence. assert (Hyd : before e l <> d) by congruence.
  destruct (node_ok _ _ _ _ _ e H Hl ltac:(by left)) as (E1 & E2 & _). destruct (node_ok _ _ _ _ _ d H Hd ltac:(by left)) as (F1 & F2 & F3).
  destruct (node_ok _ _ _ _ _ (after e l) H Hl ltac:(by right)) as (X1 & X2 & _).
  destruct (node_ok _ _ _ _ _ (before e l) H Hl ltac:(by right)) as (Y1 & Y2 & _).
  fields. rewrite (get_field_Ok _ e (after e l)) by (by rewrite lookup_insert_ne). run. fields.
  rewrite (get_field_Ok _ e (before e l)) by (by rewrite lookup_insert_ne). run. fields.
  rewrite (get_field_Ok _ e (before e l)) by (by rewrite !lookup_insert_ne). run. fields.
  set (nx := <[ before e l := d ]> _). set (pv := <[ e := e ]> _). set (sz := <[ e := _ ]> _).
  assert (Hring : ring nx pv d l).
  { unfold nx, pv. apply (ring_move (h_next h) (h_previous h) _ _ e d); try done.
    - rewrite !lookup_insert_ne, lookup_insert_eq by done. done.
    - by rewrite lookup_insert_eq.
    - rewrite !lookup_insert_ne, lookup_insert_eq by done. done.
    - rewrite lookup_insert_ne, lookup_insert_eq by done. done.
    - intros x Hin ?. rewrite !lookup_insert_ne by congruence. done.
    - intros x Hin ?. rewrite !lookup_insert_ne by congruence. done. }
  assert (Hnd' : NoDup (d :: l)) by (apply NoDup_cons; split; [done|by apply NoDup_cons in A2 as [_ ?]]).
  assert (Hsz : sz !! d = Some (Z.of_nat (length l))) by (unfold sz; by rewrite lookup_insert_ne, lookup_insert_eq by done).
  destruct (set_owner_Ok (NodeHeap nx pv (h_my_list h) sz) d l nullptr Hring Hnd' Hsz) as (my1 & -> & Hmy1).
  { intros n Hn. exists e. split; [apply A4; by right|by left]. }
  run. cbn [h_next h_previous h_size].
  destruct (set_owner_Ok (NodeHeap nx pv my1 sz) d l d Hring Hnd' Hsz) as (my2 & -> & Hmy2).
  { intros n Hn. exists nullptr. split; [cbn; by rewrite Hmy1, decide_True by done|by right]. }
  cbn [h_next h_previous h_size h_my_list] in *. eexists. split; [reflexivity|].
  assert (Hmy : forall n, my2 !! n = if decide (n ∈ l) then Some d else h_my_list h !! n).
  { intros n. rewrite Hmy2, Hmy1. by case_decide. }
  split; cbn [h_next h_previous h_my_list h_size].
  - intros n Hn. rewrite Hmy in Hn. destruct (ho_nodes _ _ _ H n) as [N1 N2]; [|unfold nx, pv; auto 8]. case_decide; [|done].
    rewrite (A4 n) by (by right). by eexists.
  - intros e' l' Hl'. destruct (decide (e' = d)) as [->|Hed]; [|destruct (decide (e' = e)) as [->|Hee]].
    + rewrite lookup_insert_eq in Hl'. injection Hl' as <-. split; cbn [h_next h_previous h_my_list h_size]; try done.
      intros n Hn. rewrite Hmy. apply elem_of_cons in Hn as [->|Hn]; [by rewrite decide_False|by rewrite decide_True].
    + rewrite lookup_insert_ne, lookup_insert_eq in Hl' by done. injection Hl' as <-. split; cbn [h_next h_previous h_my_list h_size].
      * done.
      * apply NoDup_singleton.
      * apply empty_ring_at; unfold nx, pv; [rewrite lookup_insert_ne, lookup_insert_eq by done; done|by rewrite lookup_insert_eq].
      * intros n ->%list_elem_of_singleton. rewrite Hmy, decide_False by done. apply A4. by left.
      * unfold sz. by rewrite lookup_insert_eq.
    + rewrite !lookup_insert_ne in Hl' by done. pose proof (ho_lists _ _ _ H _ _ Hl') as Ha'.
      apply (list_at_frame h); [done| |cbn; unfold sz; by rewrite !lookup_insert_ne]. intros x Hin. unfold same_node. cbn [h_next h_previous h_my_list].
      pose proof (la_owner _ _ _ Ha' x Hin) as Ho.
      assert (Hxl : x ∉ l) by (intros Hin'; pose proof (A4 x ltac:(by right)); congruence).
      assert (x <> e) by (intros ->; pose proof (A4 e ltac:(by left)); congruence).
      assert (x <> d) by (intros ->; congruence).
      assert (x <> before e l /\ x <> after e l) as [??] by (split; congruence).
      unfold nx, pv. rewrite !lookup_insert_ne, Hmy, decide_False by done. done.
  - intros n Hn. rewrite Hmy, decide_False; [by apply (ho_free _ _ _ H)|]. intros Hin.
    apply (free_not_in _ _ _ _ _ _ H Hl Hn). by right.
Qed.


(** The operations; [PopOff e n] takes the node [n] off its list, which is [e]. *)
Inductive list_op :=
  | InsertBack (e n : Z)
  | InsertFront (e n : Z)
  | PopOff (e n : Z)
  | PopFront (e : Z)
  | PopBack (e : Z)
  | Splice (d a e n : Z)
  | Clear (e : Z)
  | MoveAssign (d e : Z).

Definition no_node (r : result node_heap) : result (node_heap * Z) := h ← r; Ok (h, nullptr).

Definition do_list_op (op : list_op) (h : node_heap) : result (node_heap * Z) :=
  match op with
  | InsertBack e n => no_node (insert_back e n h)
  | InsertFront e n => no_node (insert_front e n h)
  | PopOff _ n => pop_off n h
  | PopFront e => pop_front e h
  | PopBack e => pop_back e h
  | Splice d a e n => no_node (list_splice d a e n h)
  | Clear e => no_node (list_clear e h)
  | MoveAssign d e => no_node (move_assign d e h)
  end.

Fixpoint do_list_ops (ops : list list_op) (h : node_heap) : result (node_heap * list Z) :=
  match ops with
  | [] => Ok (h, [])
  | op :: ops => '(h, r) ← do_list_op op h; '(h, rs) ← do_list_ops ops h; Ok (h, r :: rs)
  end.

(** ** Sequences *)

Fixpoint without_node (n : Z) (l : list Z) : list Z :=
  match l with
  | [] => []
  | x :: l => if decide (x = n) then l else x :: without_node n l
  end.

(** Before the node [a], or at the end. *)
Fixpoint put_before (a n : Z) (l : list Z) : list Z :=
  match l with
  | [] => [n]
  | x :: l => if decide (x = a) then n :: x :: l else x :: put_before a n l
  end.

(** Sequences by the address of their list, and the nodes on none. *)
Abbreviation sequences := (gmap Z (list Z) * gset Z)%type.

Definition put_node (e n : Z) (put : list Z -> list Z) (st : sequences) : option (sequences * Z) :=
  l ← st.1 !! e;
  if decide (n ∈ st.2 /\ Z.of_nat (S (length l)) < W64) then Some ((<[ e := put l ]> st.1, st.2 ∖ {[ n ]}), nullptr) else None.

Definition take_node (e n : Z) (rest : list Z) (st : sequences) : option (sequences * Z) :=
  Some ((<[ e := rest ]> st.1, st.2 ∪ {[ n ]}), n).

Definition ideal_list_op (op : list_op) (st : sequences) : option (sequences * Z) :=
  match op with
  | InsertBack e n => put_node e n (fun l => l ++ [n]) st
  | InsertFront e n => put_node e n (fun l => n :: l) st
  | PopOff e n => l ← st.1 !! e; if decide (n ∈ l) then take_node e n (without_node n l) st else None
  | PopFront e => l ← st.1 !! e; n ← head l; take_node e n (tail l) st
  | PopBack e => l ← st.1 !! e; n ← last l; take_node e n (removelast l) st
  | Splice d a e n =>
      l ← st.1 !! e;
      if decide (n ∈ l) then
        let without := <[ e := without_node n l ]> st.1 in
        m ← without !! d;
        if decide (d = e /\ a = n) then Some (st, nullptr)
        else if decide (a ∈ d :: m /\ Z.of_nat (S (length m)) < W64) then Some ((<[ d := put_before a n m ]> without, st.2), nullptr)
        else None
      else None
  | Clear e => l ← st.1 !! e; Some ((<[ e := [] ]> st.1, st.2 ∪ list_to_set l), nullptr)
  | MoveAssign d e =>
      m ← st.1 !! d; l ← st.1 !! e;
      if decide (d = e) then Some (st, nullptr)
      else Some ((<[ d := l ]> (<[ e := [] ]> (<[ d := [] ]> st.1)), st.2 ∪ list_to_set m), nullptr)
  end.

Fixpoint ideal_list_ops (ops : list list_op) (st : sequences) : option (sequences * list Z) :=
  match ops with
  | [] => Some (st, [])
  | op :: ops => '(st, r) ← ideal_list_op op st; '(st, rs) ← ideal_list_ops ops st; Some (st, r :: rs)
  end.

(** ** The pointers follow *)

Lemma without_node_split n l : n ∈ l -> exists l1 l2, l = l1 ++ n :: l2 /\ without_node n l = l1 ++ l2.
Proof.
  induction l as [|x l IH]; intros H; [by apply not_elem_of_nil in H|]. cbn [without_node].
  destruct (decide (x = n)) as [->|Hne]; [by exists [], l|].
  apply elem_of_cons in H as [->|H]; [done|]. destruct (IH H) as (l1 & l2 & -> & ->). by exists (x :: l1), l2.
Qed.

Lemma put_before_split d a n m : d ∉ m -> a ∈ d :: m -> exists m1 m2, m = m1 ++ m2 /\ a = after d m2 /\ put_before a n m = m1 ++ n :: m2.
Proof.
  induction m as [|x m IH]; intros Hd Ha; cbn [put_before].
  - apply list_elem_of_singleton in Ha as ->. by exists [], [].
  - destruct (decide (x = a)) as [->|Hne]; [by exists [], (a :: m)|].
    apply not_elem_of_cons in Hd as [_ Hd]. destruct (IH Hd) as (m1 & m2 & -> & E & ->); [|by exists (x :: m1), m2].
    apply elem_of_cons in Ha as [->|Ha]; [by left|]. apply elem_of_cons in Ha as [->|Ha]; [done|by right].
Qed.

Lemma visit_nodes_Ok h e l fuel :
  chain (h_next h) (h_previous h) (l ++ [e]) -> e ∉ l -> (length l < fuel)%nat -> visit_nodes fuel (after e l) e h = Ok l.
Proof.
  revert fuel. induction l as [|x l IH]; intros fuel Hc He Hf; (destruct fuel as [|fuel]; [lia|]); cbn [visit_nodes].
  - cbn. by rewrite Z.eqb_refl.
  - change (after e (x :: l)) with x. apply not_elem_of_cons in He as [Hx He]. rewrite (proj2 (Z.eqb_neq x e)) by done.
    assert (Hn : h_next h !! x = Some (after e l) /\ chain (h_next h) (h_previous h) (l ++ [e])).
    { destruct l as [|y l]; cbn in Hc; [tauto|]. destruct Hc as (H1 & _ & H2). done. }
    destruct Hn as [Hn Hc']. unfold node_next. rewrite (get_field_Ok _ _ _ Hn). run. simpl in Hf. rewrite IH by (done || lia). done.
Qed.

(** The loop over a list visits its nodes. *)
Lemma list_nodes_Ok h e l : list_at h e l -> list_nodes e h = Ok l.
Proof.
  intros [H1 H2 H3 H4 [H5 H6]]. unfold list_nodes. rewrite (get_field_Ok _ _ _ H5). run.
  destruct (ring_gap _ _ e [] l H3) as [G _]. change (before e []) with e in G. unfold node_next. rewrite (get_field_Ok _ _ _ G). run.
  apply visit_nodes_Ok; [|by apply NoDup_cons in H2 as [? _]|lia]. unfold ring in H3. destruct l as [|x l]; [done|]. by destruct H3 as (_ & _ & ?).
Qed.

Lemma splice_Ok h L free d a e n l m :
  heap_of h L free -> L !! e = Some l -> n ∈ l -> <[ e := without_node n l ]> L !! d = Some m -> ~ (d = e /\ a = n) ->
  a ∈ d :: m -> Z.of_nat (S (length m)) < W64 ->
  exists h', list_splice d a e n h = Ok h' /\ heap_of h' (<[ d := put_before a n m ]> (<[ e := without_node n l ]> L)) free.
Proof.
  intros H Hl Hn Hm Hna Ha Hlt. destruct (without_node_split n l Hn) as (l1 & l2 & -> & E). rewrite E in *.
  destruct (decide (d = e)) as [->|Hne].
  - rewrite lookup_insert_eq in Hm. injection Hm as <-.
    pose proof (la_nodup _ _ _ (ho_lists _ _ _ H _ _ Hl)) as [He _]%NoDup_cons.
    destruct (put_before_split e a n (l1 ++ l2)) as (m1 & m2 & Em & -> & ->); [set_solver|done|].
    rewrite insert_insert_eq. by apply splice_same_Ok with (l1 := l1) (l2 := l2).
  - rewrite lookup_insert_ne in Hm by done. pose proof (la_nodup _ _ _ (ho_lists _ _ _ H _ _ Hm)) as [Hd _]%NoDup_cons.
    destruct (put_before_split d a n m Hd Ha) as (m1 & m2 & -> & -> & ->). by apply splice_other_Ok.
Qed.

Lemma move_assign_Ok h L free d e m l :
  heap_of h L free -> L !! d = Some m -> L !! e = Some l -> d <> e ->
  exists h', move_assign d e h = Ok h' /\ heap_of h' (<[ d := l ]> (<[ e := [] ]> (<[ d := [] ]> L))) (free ∪ list_to_set m).
Proof.
  intros H Hm Hl Hne. unfold move_assign. rewrite (proj2 (Z.eqb_neq d e)) by done.
  destruct (list_clear_Ok h L free d m H Hm) as (h1 & -> & H1). run.
  apply (become_Ok h1 _ _ d e l H1); [by rewrite lookup_insert_ne|by rewrite lookup_insert_eq|done].
Qed.

(** One operation. *)
Lemma list_op_Ok op h L free L' free' r :
  heap_of h L free -> ideal_list_op op (L, free) = Some ((L', free'), r) ->
  exists h', do_list_op op h = Ok (h', r) /\ heap_of h' L' free'.
Proof.
  intros H E. destruct op as [e n|e n|e n|e|e|d a e n|e|d e]; cbn [ideal_list_op do_list_op] in *; unfold put_node, take_node in *; cbn [fst snd] in E.
  - destruct (L !! e) as [l|] eqn:Hl; [|done]. cbn in E. case_decide as Hg; [|done]. injection E as <- <- <-. destruct Hg as [Hn Hlt].
    destruct (insert_back_Ok h L free e l n H Hl Hn Hlt) as (h' & -> & H'). by exists h'.
  - destruct (L !! e) as [l|] eqn:Hl; [|done]. cbn in E. case_decide as Hg; [|done]. injection E as <- <- <-. destruct Hg as [Hn Hlt].
    destruct (insert_front_Ok h L free e l n H Hl Hn Hlt) as (h' & -> & H'). by exists h'.
  - destruct (L !! e) as [l|] eqn:Hl; [|done]. cbn in E. case_decide as Hn; [|done]. injection E as <- <- <-.
    destruct (without_node_split n l Hn) as (l1 & l2 & -> & ->). by apply pop_off_Ok.
  - destruct (L !! e) as [l|] eqn:Hl; [|done]. destruct l as [|n l]; [done|]. injection E as <- <- <-.
    exact (pop_front_Ok h L free e (n :: l) H Hl).
  - destruct (L !! e) as [l|] eqn:Hl; [|done]. cbn in E. destruct l as [|n l _] using rev_ind; [done|].
    rewrite last_snoc in E. cbn in E. rewrite removelast_last in E. injection E as <- <- <-. by apply pop_back_Ok.
  - destruct (L !! e) as [l|] eqn:Hl; [|done]. cbn in E. case_decide as Hn; [|done].
    destruct (<[ e := without_node n l ]> L !! d) as [m|] eqn:Hm; [|done]. cbn in E. case_decide as Hs.
    + destruct Hs as [-> ->]. injection E as <- <- <-. exists h. split; [|done]. unfold list_splice. by rewrite !Z.eqb_refl.
    + case_decide as Hg; [|done]. destruct Hg as [Ha Hlt]. injection E as <- <- <-.
      destruct (splice_Ok h L free d a e n l m H Hl Hn Hm Hs Ha Hlt) as (h' & -> & H'). by exists h'.
  - destruct (L !! e) as [l|] eqn:Hl; [|done]. injection E as <- <- <-.
    destruct (list_clear_Ok h L free e l H Hl) as (h' & -> & H'). by exists h'.
  - destruct (L !! d) as [m|] eqn:Hm; [|done]. destruct (L !! e) as [l|] eqn:Hl; [|done]. cbn in E. case_decide as Hd.
    + subst. injection E as <- <- <-. exists h. unfold move_assign. by rewrite Z.eqb_refl.
    + injection E as <- <- <-. destruct (move_assign_Ok h L free d e m l H Hm Hl Hd) as (h' & -> & H'). by exists h'.
Qed.

(** C23: refinement of the intrusive lists.  In a heap whose lists hold sequences of nodes, any
    sequence of insertions at the ends, removals by node or at the ends, moves of a node from any
    place of a list to any place of the same or another list, clearing and moving of whole lists
    leaves the pointers of all lists, and the owners and sizes they keep, as the operations on
    sequences say, returns the nodes removed, and passes every assertion; a loop over any of the
    lists afterwards visits its sequence. *)
Theorem intrusive_lists_refine ops h L free L' free' rs :
  heap_of h L free -> ideal_list_ops ops (L, free) = Some ((L', free'), rs) ->
  exists h', do_list_ops ops h = Ok (h', rs) /\ heap_of h' L' free' /\
    forall e l, L' !! e = Some l -> list_nodes e h' = Ok l.
Proof.
  revert h L free rs. induction ops as [|op ops IH]; intros h L free rs H E; cbn [ideal_list_ops do_list_ops] in *.
  - injection E as <- <- <-. exists h. split_and!; [done|done|]. intros e l Hl. apply list_nodes_Ok, (ho_lists _ _ _ H _ _ Hl).
  - destruct (ideal_list_op op (L, free)) as [[[L1 free1] r]|] eqn:E1; [|done]. cbn in E.
    destruct (ideal_list_ops ops (L1, free1)) as [[[L2 free2] rs2]|] eqn:E2; [|done]. cbn in E. injection E as <- <- <-.
    destruct (list_op_Ok op h L free L1 free1 r H E1) as (h1 & -> & H1). run.
    destruct (IH h1 L1 free1 rs2 H1 E2) as (h' & -> & H' & Hv). run. by exists h'.
Qed.

(** Two empty lists and three nodes. *)
Definition example_heap : node_heap :=
  NodeHeap (list_to_map [(10, 10); (20, 20); (1, 0); (2, 0); (3, 0)]) (list_to_map [(10, 10); (20, 20); (1, 0); (2, 0); (3, 0)])
    (list_to_map [(10, 10); (20, 20); (1, 0); (2, 0); (3, 0)]) (list_to_map [(10, 0); (20, 0)]).

Lemma example_heap_ok : heap_of example_heap (list_to_map [(10, []); (20, [])]) {[ 1; 2; 3 ]}.
Proof.
  split.
  - intros n Hn. by split.
  - intros e l Hl. apply elem_of_list_to_map_2 in Hl.
    apply elem_of_cons in Hl as [E|Hl]; [|apply elem_of_cons in Hl as [E|Hl]; [|by apply not_elem_of_nil in Hl]]; injection E as -> ->.
    all: split; [done|apply NoDup_singleton|by split_and!|by intros n ->%list_elem_of_singleton|done].
  - intros n Hn. assert (n = 1 \/ n = 2 \/ n = 3) as [->|[->| ->]] by set_solver; reflexivity.
Qed.

(** Three nodes on the first list, one moved before another of them, one moved to the second list, which
    is then moved to the first. *)
Lemma intrusive_lists_refine_witness :
  exists h, do_list_ops [InsertBack 10 1; InsertBack 10 2; InsertFront 10 3; Splice 10 3 10 2; Splice 20 20 10 1; PopBack 10; MoveAssign 10 20]
      example_heap = Ok (h, [0; 0; 0; 0; 0; 3; 0]) /\ list_nodes 10 h = Ok [1] /\ list_nodes 20 h = Ok [].
Proof.
  set (ops := [InsertBack 10 1; _; _; _; _; _; _]). set (L := list_to_map [(10, []); (20, [])] : gmap Z (list Z)).
  destruct (ideal_list_ops ops (L, {[ 1; 2; 3 ]})) as [[[L' free'] rs]|] eqn:E; [|vm_compute in E; discriminate].
  destruct (intrusive_lists_refine ops example_heap L {[ 1; 2; 3 ]} L' free' rs example_heap_ok E) as (h & Hr & _ & Hv).
  exists h. vm_compute in E. injection E as <- <- <-. split_and!; [exact Hr| |]; apply Hv; reflexivity.
Defined.
