(* ===== verification/Numerals.v ===== *)
(** Digits and the numbers they stand for, which the number conversions of the kernel and the
    formatted output of the C library share; and a piece of a list replaced in place: what storing a
    text in a buffer or bytes in a file does. *)
From S2P Require Import Prelude.

Definition digit_char (d : Z) : Z := if d <? 10 then 48 + d else 55 + d.

(** The number a list of digits stands for. *)
Definition value (base : Z) (ds : list Z) : Z := fold_left (fun v d => v * base + d) ds 0.

(** The digits of [n], without leading zeroes. *)
Record numeral (base : Z) (ds : list Z) (n : Z) : Prop := Numeral {
  nu_digits : Forall (fun d => 0 <= d < base) ds;
  nu_value : value base ds = n;
  nu_nonempty : ds <> [];
  nu_head : head ds = Some 0 -> ds = [0];
}.

Lemma value_snoc base ds d : value base (ds ++ [d]) = value base ds * base + d.
Proof. unfold value. by rewrite fold_left_app. Qed.

Section digits.
Context (base : Z).
Hypothesis Hbase : 2 <= base.

Lemma value_nonneg ds : Forall (fun d => 0 <= d < base) ds -> 0 <= value base ds.
Proof using Hbase.
  induction ds as [|d ds IH] using rev_ind; intros H; [done|]. apply Forall_app in H as [H Hd].
  rewrite Forall_singleton in Hd. rewrite value_snoc. specialize (IH H). nia.
Qed.

(** The last digit, and the number of the others. *)
Lemma value_split ds d :
  Forall (fun d => 0 <= d < base) (ds ++ [d]) ->
  value base (ds ++ [d]) / base = value base ds /\ value base (ds ++ [d]) mod base = d.
Proof using Hbase.
  intros H. apply Forall_app in H as [_ Hd]. rewrite Forall_singleton in Hd. rewrite value_snoc, (Z.add_comm _ d).
  rewrite Z.div_add, Z.mod_add, Z.div_small, Z.mod_small by lia. lia.
Qed.

Lemma value_positive ds :
  Forall (fun d => 0 <= d < base) ds -> ds <> [] -> head ds <> Some 0 -> 0 < value base ds.
Proof using Hbase.
  induction ds as [|d ds IH] using rev_ind; intros H Hne Hh; [done|]. apply Forall_app in H as [H Hd].
  rewrite Forall_singleton in Hd. rewrite value_snoc. destruct (decide (ds = [])) as [->|Hds].
  - simpl in Hh. unfold value. simpl. assert (d <> 0) by congruence. lia.
  - specialize (IH H Hds ltac:(by destruct ds)). nia.
Qed.

(** Every positive number has digits, and they are few when it is small. *)
Lemma digits_exist n x :
  0 < x < base ^ Z.of_nat n ->
  exists ds, Forall (fun d => 0 <= d < base) ds /\ value base ds = x /\ ds <> [] /\ head ds <> Some 0 /\ (length ds <= n)%nat.
Proof using Hbase.
  revert x. induction n as [|n IH]; intros x Hx; [simpl in Hx; lia|].
  rewrite Nat2Z.inj_succ, Z.pow_succ_r in Hx by lia. pose proof (Z.mod_pos_bound x base ltac:(lia)) as Hm.
  pose proof (Z.div_mod x base ltac:(lia)) as E.
  destruct (decide (x / base = 0)) as [E0|E0].
  - exists [x mod base]. split_and!; [by apply Forall_singleton|unfold value; simpl; lia|done| |simpl; lia].
    simpl. intros [= E1]. lia.
  - destruct (IH (x / base)) as (ds & Hd & Hv & Hne & Hh & Hl).
    { pose proof (Z.div_pos x base ltac:(lia) ltac:(lia)). split; [lia|]. apply Z.div_lt_upper_bound; lia. }
    exists (ds ++ [x mod base]). split_and!.
    + apply Forall_app. split; [done|]. by apply Forall_singleton.
    + rewrite value_snoc, Hv. lia.
    + by destruct ds.
    + by destruct ds.
    + rewrite length_app. simpl. lia.
Qed.

(** Digits without leading zeroes are determined by their number. *)
Lemma digits_unique ds ds' :
  Forall (fun d => 0 <= d < base) ds -> Forall (fun d => 0 <= d < base) ds' ->
  head ds <> Some 0 -> head ds' <> Some 0 -> value base ds = value base ds' -> ds = ds'.
Proof using Hbase.
  revert ds'. induction ds as [|d ds IH] using rev_ind; intros ds' H H' Hh Hh' E.
  - destruct ds'; [done|]. pose proof (value_positive _ H' ltac:(done) Hh') as Hp. rewrite <- E in Hp. done.
  - destruct ds' as [|d' ds' _] using rev_ind.
    { pose proof (value_positive _ H ltac:(by destruct ds) Hh) as Hp. rewrite E in Hp. done. }
    destruct (value_split _ _ H) as [Hq Hm], (value_split _ _ H') as [Hq' Hm']. rewrite E in Hq, Hm.
    apply Forall_app in H as [H _]. apply Forall_app in H' as [H' _].
    f_equal; [|congruence]. apply IH; [done|done|by destruct ds|by destruct ds'|congruence].
Qed.

Lemma numeral_unique ds ds' n : numeral base ds n -> numeral base ds' n -> ds = ds'.
Proof using Hbase.
  intros [H1 H2 H3 H4] [H1' H2' H3' H4'].
  destruct (decide (head ds = Some 0)) as [E|E], (decide (head ds' = Some 0)) as [E'|E'].
  - by rewrite (H4 E), (H4' E').
  - rewrite (H4 E) in H2. pose proof (value_positive _ H1' H3' E'). unfold value in H2 at 1. simpl in H2. lia.
  - rewrite (H4' E') in H2'. pose proof (value_positive _ H1 H3 E). unfold value in H2' at 1. simpl in H2'. lia.
  - apply digits_unique; try done. congruence.
Qed.
End digits.


Section pieces.
Context {A : Type}.
Implicit Types text string : list A.

(** The list with [text] at [p]. *)
Definition overwrite (p : nat) (text string : list A) : list A :=
  take p string ++ text ++ drop (p + length text) string.

Lemma overwrite_nil p string : overwrite p [] string = string.
Proof. unfold overwrite. simpl. by rewrite Nat.add_0_r, take_drop. Qed.

Lemma length_overwrite p text string :
  (p + length text <= length string)%nat -> length (overwrite p text string) = length string.
Proof. intros H. unfold overwrite. rewrite !length_app, length_take, length_drop. lia. Qed.

Lemma write_overwrite string i c :
  0 <= i < Z.of_nat (length string) -> write_at string i c = Ok (overwrite (Z.to_nat i) [c] string).
Proof.
  intros H. unfold write_at. rewrite decide_True by done. f_equal. unfold overwrite. simpl.
  rewrite insert_take_drop by lia. do 3 f_equal. lia.
Qed.

Lemma lookup_overwrite p text string i :
  (p + length text <= length string)%nat ->
  overwrite p text string !! i = if decide (p <= i < p + length text)%nat then text !! (i - p)%nat else string !! i.
Proof.
  intros H. unfold overwrite. destruct (decide (i < p)%nat) as [Hi|Hi].
  - rewrite decide_False by lia. rewrite lookup_app_l by (rewrite length_take; lia). by apply lookup_take_lt.
  - rewrite lookup_app_r by (rewrite length_take; lia). rewrite length_take, Nat.min_l by lia. case_decide.
    + by rewrite lookup_app_l by lia.
    + rewrite lookup_app_r, lookup_drop by lia. f_equal. lia.
Qed.

(** Pieces that do not overlap can be written in any order. *)
Lemma overwrite_comm p text p' text' string :
  (p + length text <= p')%nat -> (p' + length text' <= length string)%nat ->
  overwrite p' text' (overwrite p text string) = overwrite p text (overwrite p' text' string).
Proof.
  intros H H'. apply list_eq. intros i. repeat rewrite lookup_overwrite by (rewrite ?length_overwrite; lia).
  repeat case_decide; done || lia.
Qed.

(** Neighbouring pieces make one. *)
Lemma overwrite_before p text text' string :
  (p + length text <= length string)%nat ->
  overwrite p text (overwrite (p + length text) text' string) = overwrite p (text ++ text') string.
Proof.
  intros H. unfold overwrite. rewrite take_app_le by (rewrite length_take; lia). rewrite take_take, Nat.min_l by lia.
  f_equal. rewrite <- app_assoc. f_equal. rewrite drop_app_length' by (rewrite length_take; lia).
  rewrite !length_app. do 2 f_equal. lia.
Qed.

Lemma overwrite_after p text text' string :
  (p + length text <= length string)%nat ->
  overwrite (p + length text) text' (overwrite p text string) = overwrite p (text ++ text') string.
Proof.
  intros H. unfold overwrite. rewrite (app_assoc (take p string)).
  rewrite take_app_length' by (rewrite length_app, length_take; lia).
  rewrite drop_app_ge by (rewrite length_app, length_take; lia). rewrite drop_drop, length_app, length_take, length_app.
  rewrite <- !app_assoc. do 4 f_equal. lia.
Qed.

Lemma take_overwrite text string : (length text <= length string)%nat -> take (length text) (overwrite 0 text string) = text.
Proof. intros H. unfold overwrite. simpl. by apply take_app_length. Qed.
End pieces.
