(* ===== verification/Conversions.v ===== *)
(** Kernel/Common/Conversions.h and the numbers of StreamingFormatter (Kernel/Common/String.h):
    decimal and hexadecimal text of the integers, binary coded decimals.  A text is written
    into an array of characters. *)
From S2P Require Import Prelude Strings Numerals.

(** ** Decimal *)

(** [Kernel/Common/Conversions.h:25-25] the negation of a number of [bits] bits, at its width *)
Definition negate (bits number : Z) : Z :=
  if number =? - 2 ^ (bits - 1) then number else - number.

(** [Kernel/Common/Conversions.h:31-34] the loop that counts the digits *)
Fixpoint count_digits (fuel : nat) (copy required_size : Z) : result Z :=
  match fuel with
  | O => Fault OutOfFuel
  | S fuel => if copy =? 0 then Ok required_size else count_digits fuel (Z.quot copy 10) (required_size + 1)
  end.

(** [Kernel/Common/Conversions.h:40-44] the loop that stores the digits, last one first *)
Fixpoint store_digits (count : nat) (string : list Z) (number required_size divisor : Z) : result (list Z) :=
  match count with
  | O => Ok string
  | S count =>
    string ← write_at string (required_size - (divisor + 1)) (wrap8 (Z.rem number 10 + 48));
    store_digits count string (Z.quot number 10) required_size (divisor + 1)
  end.

(** [Kernel/Common/Conversions.h:9-53] to_string of an integral type: the array and the returned count *)
Definition to_string (bits number : Z) (string : list Z) (max_size : Z) (null_terminate : bool) :
    result (list Z * Z) :=
  if number =? 0 then
    if max_size >=? (if null_terminate then 2 else 1) then
      string ← write_at string 0 48;
      string ← (if null_terminate then write_at string 1 0 else Ok string);
      Ok (string, if null_terminate then 2 else 1)
    else Ok (string, 0)
  else
    let is_negative := number <? 0 in
    let number := if is_negative then negate bits number else number in
    required_size ← count_digits 65 number (Z.b2z is_negative);
    if required_size + Z.b2z null_terminate >? max_size then Ok (string, 0)
    else
      string ← store_digits (Z.to_nat (required_size - Z.b2z is_negative)) string number required_size 0;
      string ← (if is_negative then write_at string 0 45 else Ok string);
      string ← (if null_terminate then write_at string required_size 0 else Ok string);
      Ok (string, required_size).

(** ** Hexadecimal *)

(** [Kernel/Common/Conversions.h:116-116] hex_digits *)
Definition hex_digits : list Z := [48; 49; 50; 51; 52; 53; 54; 55; 56; 57; 65; 66; 67; 68; 69; 70].

(** [Kernel/Common/Conversions.h:118-122] the loop of to_hex_string; j is 4 i *)
Fixpoint store_hex (count : nat) (string : list Z) (number required_length i : Z) : result (list Z) :=
  match count with
  | O => Ok string
  | S count =>
    digit ← read_at hex_digits (Z.land (Z.shiftr number (4 * i)) 15);
    string ← write_at string (required_length - i - 1) digit;
    store_hex count string number required_length (i + 1)
  end.

(** [Kernel/Common/Conversions.h:102-125] to_hex_string of an integral type of [size] bytes *)
Definition to_hex_string (size number : Z) (string : list Z) (max_size : Z) (null_terminate : bool) :
    result (list Z * Z) :=
  let required_length := size * 2 + 2 in
  if max_size <? required_length + Z.b2z null_terminate then Ok (string, 0)
  else
    string ← write_at string 0 48;
    string ← write_at string 1 120;
    string ← (if null_terminate then write_at string required_length 0 else Ok string);
    string ← store_hex (Z.to_nat (size * 2)) string number required_length 0;
    Ok (string, required_length).

(** ** Appending numbers *)

(** [Kernel/Common/String.h:281-295] append of a number: the characters appended *)
Definition append_number (as_hex : bool) (size number : Z) (number_buffer : list Z) : result view :=
  '(buffer, chars_written) ←
    (if as_hex then to_hex_string size number number_buffer 32 false
     else to_string (8 * size) number number_buffer 32 false);
  Ok (take (Z.to_nat chars_written) buffer).

(** ** Binary coded decimals *)

(** [Kernel/Common/Conversions.h:158-166] bcd_to_binary of a 32-bit value *)
Definition bcd_to_binary32 (v : Z) : Z :=
  Z.shiftr (Z.land v 0xF0000000) 28 * 10000000 + Z.shiftr (Z.land v 0x0F000000) 24 * 1000000 +
  Z.shiftr (Z.land v 0x00F00000) 20 * 100000 + Z.shiftr (Z.land v 0x000F0000) 16 * 10000 +
  Z.shiftr (Z.land v 0x0000F000) 12 * 1000 + Z.shiftr (Z.land v 0x00000F00) 8 * 100 +
  Z.shiftr (Z.land v 0x000000F0) 4 * 10 + Z.land v 0x0000000F.

(** [Kernel/Common/Conversions.h:167-183] bcd_to_binary of a 64-bit value *)
Definition bcd_to_binary64 (v : Z) : Z := wrap64 (
  Z.shiftr (Z.land v 0xF000000000000000) 60 * 1000000000000000 +
  Z.shiftr (Z.land v 0x0F00000000000000) 56 * 100000000000000 +
  Z.shiftr (Z.land v 0x00F0000000000000) 52 * 10000000000000 +
  Z.shiftr (Z.land v 0x000F000000000000) 48 * 1000000000000 +
  Z.shiftr (Z.land v 0x0000F00000000000) 44 * 100000000000 +
  Z.shiftr (Z.land v 0x00000F0000000000) 42 * 10000000000 +
  Z.shiftr (Z.land v 0x000000F000000000) 40 * 1000000000 +
  Z.shiftr (Z.land v 0x0000000F00000000) 36 * 100000000 +
  Z.shiftr (Z.land v 0x00000000F0000000) 32 * 10000000 +
  Z.shiftr (Z.land v 0x000000000F000000) 28 * 1000000 +
  Z.shiftr (Z.land v 0x0000000000F00000) 24 * 100000 +
  Z.shiftr (Z.land v 0x00000000000F0000) 20 * 10000 +
  Z.shiftr (Z.land v 0x000000000000F000) 16 * 1000 +
  Z.shiftr (Z.land v 0x0000000000000F00) 12 * 100 +
  Z.shiftr (Z.land v 0x00000000000000F0) 8 * 10 + Z.land v 0x000000000000000F).

(** ** The digits are those of the number *)

Lemma count_digits_Ok ds fuel r :
  Forall (fun d => 0 <= d < 10) ds -> head ds <> Some 0 -> (length ds < fuel)%nat ->
  count_digits fuel (value 10 ds) r = Ok (r + Z.of_nat (length ds)).
Proof.
  revert fuel r. induction ds as [|d ds IH] using rev_ind; intros fuel r H Hh Hf;
    (destruct fuel as [|fuel]; [lia|]); cbn [count_digits].
  - unfold value. simpl. by rewrite Z.add_0_r.
  - pose proof (value_positive 10 ltac:(lia) _ H ltac:(by destruct ds) Hh) as Hp.
    rewrite (proj2 (Z.eqb_neq _ _)) by lia. destruct (value_split 10 ltac:(lia) ds d H) as [Hq _].
    rewrite Z.quot_div_nonneg, Hq by lia. rewrite length_app in *. simpl in Hf |- *.
    apply Forall_app in H as [H _]. rewrite IH; [f_equal; lia|done| |lia]. by destruct ds.
Qed.

Lemma store_digits_Ok ds string required divisor p :
  Forall (fun d => 0 <= d < 10) ds -> 0 <= divisor -> required - divisor - Z.of_nat (length ds) = Z.of_nat p ->
  required - divisor <= Z.of_nat (length string) ->
  store_digits (length ds) string (value 10 ds) required divisor = Ok (overwrite p (digit_char <$> ds) string).
Proof.
  revert string divisor. induction ds as [|d ds IH] using rev_ind; intros string divisor H Hd Hp Hl.
  - simpl. by rewrite overwrite_nil.
  - rewrite length_app in *. simpl length in *. replace (length ds + 1)%nat with (S (length ds)) in * by lia. cbn [store_digits].
    destruct (value_split 10 ltac:(lia) ds d H) as [Hq Hm]. pose proof (value_nonneg 10 ltac:(lia) _ H) as Hv.
    rewrite Z.rem_mod_nonneg, Hm, Z.quot_div_nonneg, Hq by lia. apply Forall_app in H as [H Hd'].
    rewrite Forall_singleton in Hd'. rewrite write_overwrite by lia. run.
    rewrite IH; [|done|lia|lia|rewrite length_overwrite; simpl; lia].
    replace (Z.to_nat (required - (divisor + 1))) with (p + length (digit_char <$> ds))%nat by (rewrite length_fmap; lia).
    rewrite overwrite_before by (rewrite length_fmap; lia). rewrite fmap_app. simpl. do 4 f_equal.
    unfold wrap8, digit_char. rewrite (proj2 (Z.ltb_lt _ _)), Z.mod_small by lia. lia.
Qed.

Definition minus_sign (number : Z) : list Z := if number <? 0 then [45] else [].

(** The decimal text of a number. *)
Definition decimal_text (number : Z) (text : list Z) : Prop :=
  exists ds, numeral 10 ds (Z.abs number) /\ text = minus_sign number ++ (digit_char <$> ds).

Definition terminator (null_terminate : bool) : list Z := if null_terminate then [0] else [].

(** [to_string] writes the decimal text and nothing else of the array, or, when the text and its
    terminator do not fit in [max_size], nothing at all. *)
Lemma to_string_Ok bits number string max_size null_terminate :
  0 < bits <= 64 -> - 2 ^ (bits - 1) < number < 2 ^ 64 -> max_size <= Z.of_nat (length string) ->
  exists text, decimal_text number text /\
    to_string bits number string max_size null_terminate =
      let size := Z.of_nat (length text) + Z.b2z null_terminate in
      if size <=? max_size
      then Ok (overwrite 0 (text ++ terminator null_terminate) string, if number =? 0 then size else Z.of_nat (length text))
      else Ok (string, 0).
Proof.
  intros Hbits Hn Hs. unfold to_string. destruct (Z.eqb_spec number 0) as [->|Hne].
  { exists [48]. split; [exists [0]; split; [constructor; [apply Forall_singleton; lia|done|done|done]|done]|].
    cbn zeta. simpl (length [48]). rewrite Z.geb_leb. destruct null_terminate; cbn [Z.b2z terminator].
    - change (Z.of_nat 1 + 1) with 2. destruct (Z.leb_spec 2 max_size); [|done]. rewrite (write_overwrite string) by lia. run.
      rewrite write_overwrite by (rewrite length_overwrite; simpl; lia). run. do 2 f_equal.
      apply (overwrite_after 0 [48] [0]). simpl. lia.
    - change (Z.of_nat 1 + 0) with 1. destruct (Z.leb_spec 1 max_size); [|done]. by rewrite (write_overwrite string) by lia. }
  set (number' := if number <? 0 then negate bits number else number).
  assert (En : number' = Z.abs number).
  { unfold number', negate. destruct (Z.ltb_spec number 0); [rewrite (proj2 (Z.eqb_neq _ _)) by lia|]; lia. }
  assert (Habs : 0 < Z.abs number < 10 ^ 20).
  { pose proof (Z.pow_le_mono_r 2 (bits - 1) 63 ltac:(lia) ltac:(lia)). lia. }
  destruct (digits_exist 10 ltac:(lia) 20 (Z.abs number) Habs) as (ds & Hd & Hv & Hds & Hh & Hlen).
  exists (minus_sign number ++ (digit_char <$> ds)). split; [exists ds; split; [by constructor|done]|].
  cbn zeta. fold number'. rewrite En, <- Hv, count_digits_Ok by (done || lia). run.
  assert (Elen : Z.of_nat (length (minus_sign number ++ (digit_char <$> ds))) = Z.b2z (number <? 0) + Z.of_nat (length ds)).
  { rewrite length_app, length_fmap. unfold minus_sign. destruct (number <? 0); simpl; lia. }
  rewrite Elen, Z.gtb_ltb, Z.ltb_antisym. destruct (Z.leb_spec (Z.b2z (number <? 0) + Z.of_nat (length ds) + Z.b2z null_terminate) max_size) as [Hfit|Hfit];
    cbn [negb]; [|done].
  set (sign := Z.b2z (number <? 0)) in *. assert (Hsign : 0 <= sign <= 1) by (unfold sign; destruct (number <? 0); simpl; lia).
  assert (Hnul : 0 <= Z.b2z null_terminate <= 1) by (destruct null_terminate; simpl; lia).
  replace (Z.to_nat (sign + Z.of_nat (length ds) - sign)) with (length ds) by lia.
  rewrite (store_digits_Ok ds string _ 0 (Z.to_nat sign)) by (done || lia). run.
  assert (Esign : (if number <? 0 then write_at (overwrite (Z.to_nat sign) (digit_char <$> ds) string) 0 45
      else Ok (overwrite (Z.to_nat sign) (digit_char <$> ds) string)) = Ok (overwrite 0 (minus_sign number ++ (digit_char <$> ds)) string)).
  { unfold minus_sign, sign in *. destruct (number <? 0); simpl Z.b2z in *; [|done].
    rewrite write_overwrite by (rewrite length_overwrite; rewrite ?length_fmap; lia). f_equal.
    apply (overwrite_before 0 [45]). simpl. lia. }
  rewrite Esign. run. destruct null_terminate; cbn [Z.b2z terminator] in *.
  - rewrite write_overwrite by (rewrite length_overwrite by lia; lia). run. do 2 f_equal.
    replace (Z.to_nat _) with (0 + length (minus_sign number ++ (digit_char <$> ds)))%nat by lia.
    apply overwrite_after. lia.
  - run. by rewrite app_nil_r.
Qed.

(** The last [n] hexadecimal digits of a number. *)
Fixpoint nibbles (n : nat) (x : Z) : list Z :=
  match n with
  | O => []
  | S n => nibbles n (x / 16) ++ [x mod 16]
  end.

Lemma length_nibbles n x : length (nibbles n x) = n.
Proof. revert x. induction n as [|n IH]; intros x; simpl; [done|]. rewrite length_app, IH. simpl. lia. Qed.

Lemma nibbles_digits n x : Forall (fun d => 0 <= d < 16) (nibbles n x).
Proof.
  revert x. induction n as [|n IH]; intros x; simpl; [constructor|]. apply Forall_app. split; [apply IH|].
  apply Forall_singleton. by apply Z.mod_pos_bound.
Qed.

Lemma value_nibbles n x : value 16 (nibbles n x) = x mod 16 ^ Z.of_nat n.
Proof.
  revert x. induction n as [|n IH]; intros x; cbn [nibbles].
  - change (16 ^ Z.of_nat 0) with 1. by rewrite Z.mod_1_r.
  - rewrite value_snoc, IH, Nat2Z.inj_succ, Z.pow_succ_r by lia.
    rewrite Z.rem_mul_r by lia. lia.
Qed.

Lemma hex_digit d : 0 <= d < 16 -> read_at hex_digits d = Ok (digit_char d).
Proof.
  intros H. pose proof (all_below_spec 16 (fun d => bool_decide (read_at hex_digits d = Ok (digit_char d))) d) as A.
  apply bool_decide_eq_true in A; [done|reflexivity|done].
Qed.

Lemma store_hex_Ok count string number required i p :
  0 <= i -> required - i - Z.of_nat count = Z.of_nat p -> required - i <= Z.of_nat (length string) ->
  store_hex count string number required i =
    Ok (overwrite p (digit_char <$> nibbles count (Z.shiftr number (4 * i))) string).
Proof.
  revert string i. induction count as [|count IH]; intros string i Hi Hp Hl; cbn [store_hex nibbles].
  - simpl. by rewrite overwrite_nil.
  - change 15 with (Z.ones 4). rewrite Z.land_ones by lia. change (2 ^ 4) with 16.
    rewrite hex_digit by (by apply Z.mod_pos_bound). run. rewrite write_overwrite by lia. run.
    rewrite IH by (try rewrite length_overwrite; simpl; lia).
    assert (E : Z.shiftr number (4 * (i + 1)) = Z.shiftr number (4 * i) / 16).
    { replace (4 * (i + 1)) with (4 * i + 4) by lia. rewrite <- Z.shiftr_shiftr by lia. by rewrite (Z.shiftr_div_pow2 _ 4) by lia. }
    rewrite E, fmap_app. set (ds := nibbles count _).
    assert (Hlen : length (digit_char <$> ds) = count) by (rewrite length_fmap; apply length_nibbles).
    replace (Z.to_nat (required - i - 1)) with (p + length (digit_char <$> ds))%nat by lia.
    by rewrite overwrite_before by lia.
Qed.

(** The hexadecimal text of a number of [size] bytes: all its digits. *)
Definition hex_text (size number : Z) (text : list Z) : Prop :=
  exists ds, length ds = Z.to_nat (2 * size) /\ Forall (fun d => 0 <= d < 16) ds /\
    value 16 ds = number mod 2 ^ (8 * size) /\ text = [48; 120] ++ (digit_char <$> ds).

Lemma to_hex_string_Ok size number string max_size null_terminate :
  0 < size -> max_size <= Z.of_nat (length string) ->
  exists text, hex_text size number text /\
    to_hex_string size number string max_size null_terminate =
      if Z.of_nat (length text) + Z.b2z null_terminate <=? max_size
      then Ok (overwrite 0 (text ++ terminator null_terminate) string, Z.of_nat (length text))
      else Ok (string, 0).
Proof.
  intros Hsize Hs. set (ds := nibbles (Z.to_nat (2 * size)) number).
  assert (Hds : length (digit_char <$> ds) = Z.to_nat (2 * size)) by (rewrite length_fmap; apply length_nibbles).
  exists ([48; 120] ++ (digit_char <$> ds)). split.
  { exists ds. split_and!; [apply length_nibbles|apply nibbles_digits| |done]. unfold ds.
    rewrite value_nibbles, Z2Nat.id by lia. f_equal. change 16 with (2 ^ 4). rewrite <- Z.pow_mul_r by lia. f_equal. lia. }
  unfold to_hex_string. cbn zeta. rewrite length_app, Hds. simpl (length [48; 120]).
  replace (Z.of_nat (2 + Z.to_nat (2 * size))) with (size * 2 + 2) by lia.
  assert (Hnul : 0 <= Z.b2z null_terminate <= 1) by (destruct null_terminate; simpl; lia).
  rewrite Z.ltb_antisym. destruct (Z.leb_spec (size * 2 + 2 + Z.b2z null_terminate) max_size) as [Hfit|Hfit]; cbn [negb]; [|done].
  rewrite (write_overwrite string) by lia. run. rewrite write_overwrite by (rewrite length_overwrite; simpl; lia). run.
  replace (overwrite (Z.to_nat 1) [120] (overwrite (Z.to_nat 0) [48] string)) with (overwrite 0 [48; 120] string)
    by (symmetry; apply (overwrite_after 0 [48] [120]); simpl; lia).
  set (rest := overwrite (Z.to_nat (size * 2 + 2)) (terminator null_terminate) string).
  assert (Erest : (if null_terminate then write_at (overwrite 0 [48; 120] string) (size * 2 + 2) 0
      else Ok (overwrite 0 [48; 120] string)) = Ok (overwrite 0 [48; 120] rest)).
  { unfold rest. destruct null_terminate; cbn [terminator Z.b2z] in *; [|by rewrite overwrite_nil].
    rewrite write_overwrite by (rewrite length_overwrite; simpl; lia). f_equal. apply overwrite_comm; simpl; lia. }
  assert (Hterm : Z.of_nat (length (terminator null_terminate)) = Z.b2z null_terminate) by by destruct null_terminate.
  assert (Hrest : length rest = length string) by (unfold rest; apply length_overwrite; lia).
  rewrite Erest. run. rewrite (store_hex_Ok _ _ _ _ _ 2) by (rewrite ?length_overwrite; simpl; lia). run.
  replace (Z.to_nat (size * 2)) with (Z.to_nat (2 * size)) by lia. change (Z.shiftr number (4 * 0)) with number. fold ds.
  do 2 f_equal. rewrite (overwrite_after 0 [48; 120] (digit_char <$> ds) rest) by (simpl; lia). unfold rest.
  set (text := [48; 120] ++ (digit_char <$> ds)).
  assert (Htext : Z.of_nat (length text) = size * 2 + 2) by (unfold text; rewrite length_app, Hds; simpl; lia).
  replace (Z.to_nat (size * 2 + 2)) with (0 + length text)%nat by lia. apply overwrite_before. lia.
Qed.

Lemma digit_char_inj d d' : 0 <= d < 10 -> 0 <= d' < 10 -> digit_char d = digit_char d' -> d = d'.
Proof. unfold digit_char. intros H H'. rewrite !(proj2 (Z.ltb_lt _ _)) by lia. lia. Qed.

Lemma digits_inj ds ds' :
  Forall (fun d => 0 <= d < 10) ds -> Forall (fun d => 0 <= d < 10) ds' ->
  digit_char <$> ds = digit_char <$> ds' -> ds = ds'.
Proof.
  intros H. revert ds'. induction H as [|d ds Hd H IH]; intros [|d' ds'] H' E; try done.
  inversion H' as [|? ? Hd' H'']; subst. injection E as E1 E2. f_equal; [by apply digit_char_inj|by apply IH].
Qed.

(** A text is the decimal text of one number only. *)
Lemma decimal_text_inj n n' text : decimal_text n text -> decimal_text n' text -> n = n'.
Proof.
  intros (ds & [H1 H2 H3 _] & E) (ds' & [H1' H2' H3' _] & E'). rewrite E in E'.
  assert (Hfirst : forall ds rest, Forall (fun d => 0 <= d < 10) ds -> ds <> [] -> digit_char <$> ds = 45 :: rest -> False).
  { intros [|d l] rest Hd Hne Eq; [done|]. inversion Hd; subst. injection Eq as Eq _. unfold digit_char in Eq.
    rewrite (proj2 (Z.ltb_lt _ _)) in Eq by lia. lia. }
  unfold minus_sign in E'. destruct (Z.ltb_spec n 0), (Z.ltb_spec n' 0); cbn [app] in E'.
  - injection E' as E'. apply digits_inj in E' as ->; [lia|done|done].
  - symmetry in E'. by apply Hfirst in E'.
  - by apply Hfirst in E'.
  - apply digits_inj in E' as ->; [lia|done|done].
Qed.

Lemma decimal_text_short n text : Z.abs n < 10 ^ 20 -> decimal_text n text -> (length text <= 21)%nat.
Proof.
  intros Hn (ds & [H1 H2 H3 H4] & ->). rewrite length_app, length_fmap.
  assert (length ds <= 20)%nat; [|unfold minus_sign; destruct (n <? 0); simpl; lia].
  destruct (decide (head ds = Some 0)) as [E|E]; [rewrite (H4 E); simpl; lia|].
  destruct (digits_exist 10 ltac:(lia) 20 (Z.abs n)) as (ds' & Hd' & Hv' & Hne' & Hh' & Hl').
  { split; [|lia]. rewrite <- H2. by apply value_positive. }
  rewrite (digits_unique 10 ltac:(lia) ds ds'); try done. congruence.
Qed.

Lemma decimal_text_unique n text text' : decimal_text n text -> decimal_text n text' -> text = text'.
Proof. intros (ds & H & ->) (ds' & H' & ->). by rewrite (numeral_unique 10 ltac:(lia) ds ds' _ H H'). Qed.

(** The number appended in decimal. *)
Lemma append_decimal_Ok size number buffer :
  0 < size <= 8 -> length buffer = 32%nat -> - 2 ^ (8 * size - 1) < number < 2 ^ (8 * size) ->
  exists text, append_number false size number buffer = Ok text /\ decimal_text number text.
Proof.
  intros Hs Hl Hn. pose proof (Z.pow_le_mono_r 2 (8 * size) 64 ltac:(lia) ltac:(lia)).
  pose proof (Z.pow_le_mono_r 2 (8 * size - 1) 63 ltac:(lia) ltac:(lia)). unfold append_number.
  destruct (to_string_Ok (8 * size) number buffer 32 false) as (text & Ht & E); [lia..|]. exists text.
  assert (length text <= 21)%nat by (apply (decimal_text_short number); [lia|done]).
  rewrite E. cbn [Z.b2z terminator]. cbn zeta. rewrite Z.add_0_r, app_nil_r, (proj2 (Z.leb_le _ _)) by lia. run.
  split; [|done]. replace (if number =? 0 then _ else _) with (Z.of_nat (length text)) by (destruct (number =? 0); lia).
  rewrite Nat2Z.id. by rewrite take_overwrite by lia.
Qed.

(** Appending a number to a string or a log appends its numeral: in decimal the digits
    without leading zeroes and a minus sign for a negative number, for every number of the type
    but the least one, and the text determines the number; in hexadecimal "0x" and all digits of
    the representation.  The buffer of 32 characters is enough for every type. *)
Theorem append_number_correct size number buffer :
  In size [1; 2; 4; 8] -> length buffer = 32%nat -> - 2 ^ (8 * size - 1) < number < 2 ^ (8 * size) ->
  (exists text, append_number false size number buffer = Ok text /\ decimal_text number text /\
     forall number', decimal_text number' text -> number' = number) /\
  (exists text, append_number true size number buffer = Ok text /\ hex_text size number text).
Proof.
  intros Hsize Hl Hn. assert (Hs : 1 <= size <= 8) by (simpl in Hsize; lia). split.
  - destruct (append_decimal_Ok size number buffer) as (text & E & Ht); [lia|done|lia|]. exists text. split_and!; [done|done|].
    intros. by eapply decimal_text_inj.
  - unfold append_number. destruct (to_hex_string_Ok size number buffer 32 false) as (text & Ht & E); [lia..|]. exists text. split; [|done].
    assert (length text <= 18)%nat.
    { destruct Ht as (ds & Hds & _ & _ & ->). rewrite length_app, length_fmap, Hds. simpl. lia. }
    rewrite E. cbn [Z.b2z terminator]. rewrite Z.add_0_r, app_nil_r, (proj2 (Z.leb_le _ _)) by lia. run.
    rewrite Nat2Z.id. by rewrite take_overwrite by lia.
Qed.

(** Minus 75 in four bytes: "-75" and "0xFFFFFFB5". *)
Lemma append_number_correct_witness :
  (exists text, append_number false 4 (-75) (replicate 32 0) = Ok text /\ decimal_text (-75) text /\
     forall number', decimal_text number' text -> number' = -75) /\
  (exists text, append_number true 4 (-75) (replicate 32 0) = Ok text /\ hex_text 4 (-75) text).
Proof. apply (append_number_correct 4 (-75) (replicate 32 0)); [simpl; tauto|reflexivity|lia]. Defined.

(** ** Where the conversions go wrong *)

(** The least number of a type has no negation in it, and its digits are below the character 0. *)
Example to_string_least : append_number false 4 (- 2 ^ 31) (replicate 32 0) = Ok [45; 46; 47; 44; 41; 44; 40; 45; 42; 44; 40].
Proof. reflexivity. Qed.

(** The count returned for zero includes the terminator, for every other number it does not. *)
Example to_string_zero_count :
  to_string 32 0 [1; 1; 1] 3 true = Ok ([48; 0; 1], 2) /\ to_string 32 5 [1; 1; 1] 3 true = Ok ([53; 0; 1], 1).
Proof. by vm_compute. Qed.

(** The 64-bit conversion from BCD shifts the low digits out: 42 becomes 2, 12345678 becomes 8. *)
Example bcd_to_binary64_drops : bcd_to_binary64 0x42 = 2 /\ bcd_to_binary64 0x12345678 = 8 /\ bcd_to_binary32 0x12345678 = 12345678.
Proof. by vm_compute. Qed.
