(* ===== verification/Paths.v ===== *)
(** Kernel/FileSystem/Utilities.h: validation of paths, splitting of the volume prefix and
    iteration over the components of a path.  Pointers into the path are offsets. *)
From S2P Require Import Prelude Strings.

Definition slash : Z := 47.
Definition dot : Z := 46.
Definition colon : Z := 58.

(** ** Validation *)

(** [Kernel/FileSystem/Utilities.h:19-26] the loop of is_valid_path *)
Fixpoint dots_loop (fuel : nat) (path : view) (i : Z) : result bool :=
  match fuel with
  | O => Fault OutOfFuel
  | S fuel =>
    if i <? sv_size path then
      lhs ← (if negb (i =? 0) then sv_at path (i - 1) else mret 97);
      rhs ← (if i <? sv_size path - 1 then sv_at path (i + 1) else mret 97);
      cur ← sv_at path i;
      if (cur =? dot) && ((lhs =? dot) && (rhs =? dot)) then mret false
      else dots_loop fuel path (i + 1)
    else mret true
  end.

(** [Kernel/FileSystem/Utilities.h:9-29] is_valid_path *)
Definition is_valid_path (path : view) : result bool :=
  if sv_size path =? 0 then mret false
  else
    s ← starts_with path [slash];
    if negb s then mret false else dots_loop (S (length path)) path 0.

(** [Kernel/FileSystem/Utilities.h:31-42] is_valid_prefix *)
Definition is_alnum (c : Z) : bool :=
  ((c >=? 97) && (c <=? 122)) || ((c >=? 65) && (c <=? 90)) || ((c >=? 48) && (c <=? 57)).
Fixpoint is_valid_prefix (prefix : view) : bool :=
  match prefix with
  | [] => true
  | c :: prefix => if negb (is_alnum c) then false else is_valid_prefix prefix
  end.

(** [Kernel/FileSystem/Utilities.h:44-63] split_prefix_and_path *)
Definition split_prefix_and_path (path : view) : result (option (view * view)) :=
  pref ← find path [colon; colon];
  let '(prefix, rest) :=
    match pref with
    | Some i => (take (Z.to_nat i) path,
                 take (Z.to_nat (sv_size path - i - 2)) (drop (Z.to_nat (i + 2)) path))
    | None => ([], path)
    end in
  if negb (is_valid_prefix prefix) then mret None
  else
    v ← is_valid_path rest;
    if negb v then mret None else mret (Some (prefix, rest)).

(** ** Iteration *)

(** [Kernel/FileSystem/Utilities.h:69-70] the loop of next_path_node over slashes *)
Fixpoint skip_slashes (fuel : nat) (path : view) (current : Z) : result Z :=
  match fuel with
  | O => Fault OutOfFuel
  | S fuel =>
    if negb (current =? sv_size path) then
      c ← read_at path current;
      if c =? slash then skip_slashes fuel path (current + 1) else mret current
    else mret current
  end.

(** [Kernel/FileSystem/Utilities.h:72-73] the loop of next_path_node over a name *)
Fixpoint name_length (fuel : nat) (path : view) (current length : Z) : result Z :=
  match fuel with
  | O => Fault OutOfFuel
  | S fuel =>
    if negb (current + length =? sv_size path) then
      c ← read_at path (current + length);
      if negb (c =? slash) then name_length fuel path current (length + 1) else mret length
    else mret length
  end.

(** [Kernel/FileSystem/Utilities.h:65-76] next_path_node: where the node begins and ends *)
Definition next_path_node (path : view) (current : Z) : result (Z * Z) :=
  current ← skip_slashes (S (length path)) path current;
  length ← name_length (S (length path)) path current 0;
  mret (current, current + length).

(** [Kernel/FileSystem/Utilities.h:126-130] IterablePath; the end is the size of the path *)
Record path_iter := PathIter { it_current : Z; it_current_end : Z }.

(** [Kernel/FileSystem/Utilities.h:113-124] next *)
Definition path_next (path : view) (it : path_iter) : result path_iter :=
  let current := if it_current_end it =? sv_size path then sv_size path else it_current it in
  if current =? sv_size path then mret (PathIter current (it_current_end it))
  else
    '(b, e) ← next_path_node path (it_current_end it);
    mret (PathIter b e).

(** [Kernel/FileSystem/Utilities.h:80-86] IterablePath(StringView) *)
Definition path_begin (path : view) : result path_iter := path_next path (PathIter 0 0).

(** [Kernel/FileSystem/Utilities.h:88-91] operator* *)
Definition path_deref (path : view) (it : path_iter) : view :=
  take (Z.to_nat (it_current_end it - it_current it)) (drop (Z.to_nat (it_current it)) path).

(** The nodes a [for] loop over the path visits: [operator!=] compares the current
    position with that of the end iterator. *)
Fixpoint visit (fuel : nat) (path : view) (it : path_iter) : result (list view) :=
  match fuel with
  | O => Fault OutOfFuel
  | S fuel =>
    if it_current it =? sv_size path then mret []
    else
      let node := path_deref path it in
      it ← path_next path it;
      rest ← visit fuel path it;
      mret (node :: rest)
  end.

Definition path_nodes (path : view) : result (list view) :=
  it ← path_begin path; visit (S (length path)) path it.

(** ** Specification *)

(** The pieces between slashes, and the non-empty ones. *)
Fixpoint segments (acc : view) (l : view) : list view :=
  match l with
  | [] => [acc]
  | c :: l => if c =? slash then acc :: segments [] l else segments (acc ++ [c]) l
  end.

Definition nodes_of (l : view) : list view := filter (fun s => s <> []) (segments [] l).

Lemma segments_name acc name rest :
  Forall (fun c => c <> slash) name -> segments acc (name ++ rest) = segments (acc ++ name) rest.
Proof.
  intros H. revert acc. induction H as [|c name Hc _ IH]; intros acc; simpl; [by rewrite app_nil_r|].
  replace (c =? slash) with false by lia. rewrite IH, <- app_assoc. done.
Qed.

Lemma nodes_of_slash l : nodes_of (slash :: l) = nodes_of l.
Proof. done. Qed.

Lemma nodes_of_name name rest :
  Forall (fun c => c <> slash) name -> name <> [] ->
  (rest = [] \/ exists l, rest = slash :: l) ->
  nodes_of (name ++ rest) = name :: nodes_of rest.
Proof.
  intros H Hne Hr. unfold nodes_of. rewrite segments_name, app_nil_l by done.
  destruct Hr as [->|[l ->]]; simpl.
  - rewrite filter_cons_True by done. done.
  - rewrite filter_cons_True by done. done.
Qed.

(** ** Loops *)

Lemma read_drop (l : view) i : 0 <= i < sv_size l ->
  exists c, read_at l i = Ok c /\ drop (Z.to_nat i) l = c :: drop (Z.to_nat (i + 1)) l.
Proof.
  intros Hi. destruct (read_at_lt l i) as (c & E); [unfold sv_size in Hi; lia|]. exists c.
  split; [done|]. apply read_at_Ok in E as [? E]. by apply drop_lookup_Z.
Qed.

Lemma skip_slashes_Ok fuel path cur :
  0 <= cur <= sv_size path -> sv_size path - cur < Z.of_nat fuel ->
  exists b, skip_slashes fuel path cur = Ok b /\ cur <= b <= sv_size path /\
    nodes_of (drop (Z.to_nat cur) path) = nodes_of (drop (Z.to_nat b) path) /\
    (b < sv_size path -> exists c, path !! Z.to_nat b = Some c /\ c <> slash).
Proof.
  revert cur. induction fuel as [|fuel IH]; intros cur Hc Hf; [lia|]. cbn [skip_slashes].
  destruct (Z.eqb_spec cur (sv_size path)) as [->|Hne]; cbn [negb].
  { exists (sv_size path). split_and!; done || lia. }
  destruct (read_drop path cur) as (c & E & Ed); [lia|]. rewrite E. run.
  destruct (Z.eqb_spec c slash) as [->|Hcs].
  - destruct (IH (cur + 1)) as (b & Eb & Hb & Hn & Hx); [lia|lia|]. exists b. rewrite Ed, nodes_of_slash.
    split_and!; done || lia.
  - exists cur. split_and!; try done; try lia. intros _. exists c. apply read_at_Ok in E as [_ E]. done.
Qed.

Lemma name_length_Ok fuel path cur len :
  0 <= cur -> 0 <= len -> cur + len <= sv_size path -> sv_size path - cur - len < Z.of_nat fuel ->
  Forall (fun c => c <> slash) (take (Z.to_nat len) (drop (Z.to_nat cur) path)) ->
  exists n, name_length fuel path cur len = Ok n /\ len <= n /\ cur + n <= sv_size path /\
    Forall (fun c => c <> slash) (take (Z.to_nat n) (drop (Z.to_nat cur) path)) /\
    (drop (Z.to_nat (cur + n)) path = [] \/ exists l, drop (Z.to_nat (cur + n)) path = slash :: l) /\
    (forall c, path !! Z.to_nat (cur + len) = Some c -> c <> slash -> len < n).
Proof.
  intros Hcur. revert len. induction fuel as [|fuel IH]; intros len Hl Hc Hf Hname; [lia|].
  cbn [name_length]. destruct (Z.eqb_spec (cur + len) (sv_size path)) as [E|Hne]; cbn [negb].
  { exists len. split_and!; try done; try lia.
    - left. apply drop_end. lia.
    - intros c Hlk. apply lookup_lt_Some in Hlk. unfold sv_size in *. lia. }
  destruct (read_drop path (cur + len)) as (c & E & Ed); [lia|]. rewrite E. run.
  apply read_at_Ok in E as [_ E].
  destruct (Z.eqb_spec c slash) as [->|Hcs]; cbn [negb].
  - exists len. split_and!; try done; try lia; [by right; eauto|]. intros c' Hlk Hcs. exfalso.
    apply Hcs. rewrite Hlk in E. by injection E.
  - destruct (IH (len + 1)) as (n & En & Hn & Hcn & Hf' & Hd & _); try lia.
    + replace (Z.to_nat (len + 1)) with (S (Z.to_nat len)) by lia.
      rewrite (take_S_r _ _ c); [by apply Forall_app_2; [|constructor]|].
      rewrite lookup_drop, <- E. f_equal. lia.
    + exists n. split_and!; try done; lia.
Qed.

(** The next node from a position, or none. *)
Lemma next_path_node_Ok path cur :
  0 <= cur <= sv_size path ->
  exists b e, next_path_node path cur = Ok (b, e) /\ cur <= b <= e /\ e <= sv_size path /\
    ((b = sv_size path /\ nodes_of (drop (Z.to_nat cur) path) = []) \/
     (b < e /\ nodes_of (drop (Z.to_nat cur) path) =
        path_deref path (PathIter b e) :: nodes_of (drop (Z.to_nat e) path))).
Proof.
  intros Hc. unfold next_path_node.
  destruct (skip_slashes_Ok (S (length path)) path cur) as (b & -> & Hb & Hn & Hx);
    [done|unfold sv_size in *; lia|]. run.
  destruct (name_length_Ok (S (length path)) path b 0) as (n & -> & Hn0 & Hbn & Hname & Hd & Hpos);
    try (unfold sv_size in *; lia); [constructor|]. run. exists b, (b + n).
  split; [done|]. split; [lia|]. split; [lia|]. rewrite Hn.
  destruct (decide (b = sv_size path)) as [->|Hne].
  - left. split; [done|]. by rewrite drop_end by lia.
  - right. destruct Hx as (c & Ec & Hcs); [lia|].
    specialize (Hpos c). rewrite Z.add_0_r in Hpos. specialize (Hpos Ec Hcs). split; [lia|].
    unfold path_deref. cbn [it_current it_current_end]. replace (b + n - b) with n by lia.
    replace (Z.to_nat (b + n)) with (Z.to_nat b + Z.to_nat n)%nat in * by lia.
    rewrite <- drop_drop in Hd |- *. rewrite <- nodes_of_name by
      (done || (intros Hnil; apply (f_equal length) in Hnil; rewrite length_take, length_drop in Hnil;
                unfold sv_size in *; simpl in Hnil; lia)).
    by rewrite take_drop.
Qed.

Lemma visit_Ok fuel path b e :
  0 <= b <= e -> e <= sv_size path -> (b < e \/ b = sv_size path) ->
  sv_size path - b < Z.of_nat fuel ->
  visit fuel path (PathIter b e) =
  Ok (if b =? sv_size path then []
      else path_deref path (PathIter b e) :: nodes_of (drop (Z.to_nat e) path)).
Proof.
  revert b e. induction fuel as [|fuel IH]; intros b e Hbe He Hne Hf; [lia|]. cbn [visit it_current].
  destruct (Z.eqb_spec b (sv_size path)) as [->|Hb]; [done|]. unfold path_next.
  cbn [it_current it_current_end].
  destruct (Z.eqb_spec e (sv_size path)) as [->|Hes].
  - rewrite Z.eqb_refl. run. rewrite IH by (lia || auto). rewrite Z.eqb_refl. run.
    by rewrite drop_end by lia.
  - replace (b =? sv_size path) with false by lia.
    destruct (next_path_node_Ok path e) as (b' & e' & -> & Hbe' & He' & Hcase); [lia|]. run.
    rewrite IH by lia. run. destruct Hcase as [[-> Hn]|[Hlt Hn]].
    + rewrite Z.eqb_refl, Hn. done.
    + replace (b' =? sv_size path) with false by lia. by rewrite Hn.
Qed.

(** No three dots in a row from position [i] on. *)
Lemma dots_loop_Ok fuel path i :
  0 <= i -> (i = 0 \/ i <= sv_size path) -> Z.max 0 (sv_size path - i) < Z.of_nat fuel ->
  exists r, dots_loop fuel path i = Ok r /\
    (r = false <-> exists j, i - 1 <= j /\ occurs path [dot; dot; dot] j).
Proof.
  revert i. induction fuel as [|fuel IH]; intros i Hi Hi' Hf; [lia|]. cbn [dots_loop].
  assert (Hocc : forall j, occurs path [dot; dot; dot] j <-> 0 <= j /\ j + 3 <= sv_size path /\
    path !! Z.to_nat j = Some dot /\ path !! Z.to_nat (j + 1) = Some dot /\
    path !! Z.to_nat (j + 2) = Some dot).
  { intros j. unfold occurs. change (sv_size [dot; dot; dot]) with 3. split.
    - intros (H1 & H2 & H3). pose proof (H3 0 ltac:(lia)) as E0. pose proof (H3 1 ltac:(lia)) as E1.
      pose proof (H3 2 ltac:(lia)) as E2. rewrite Z.add_0_r in E0. done.
    - intros (H1 & H2 & E0 & E1 & E2). split_and!; try done. intros k Hk.
      assert (k = 0 \/ k = 1 \/ k = 2) as [->|[->| ->]] by lia; [by rewrite Z.add_0_r|done|done]. }
  destruct (Z.ltb_spec i (sv_size path)) as [Hlt|Hge].
  2: { exists true. split; [done|]. split; [done|]. intros (j & Hj & Hoj). apply Hocc in Hoj. lia. }
  assert (El : exists l, (if negb (i =? 0) then sv_at path (i - 1) else mret 97) = Ok l /\
    (l = dot <-> 0 < i /\ path !! Z.to_nat (i - 1) = Some dot)).
  { destruct (Z.eqb_spec i 0) as [->|]; cbn [negb]; [exists 97; split; [done|]; unfold dot; lia|].
    destruct (sv_at_Ok path (i - 1)) as (l & -> & El); [lia|]. exists l. split; [done|].
    rewrite El. split; [intros ->; split; [lia|done]|by intros [_ [= ->]]]. }
  assert (Er : exists r, (if i <? sv_size path - 1 then sv_at path (i + 1) else mret 97) = Ok r /\
    (r = dot <-> i + 1 < sv_size path /\ path !! Z.to_nat (i + 1) = Some dot)).
  { destruct (Z.ltb_spec i (sv_size path - 1)); [|exists 97; split; [done|]; unfold dot; lia].
    destruct (sv_at_Ok path (i + 1)) as (r & -> & Er); [lia|]. exists r. split; [done|].
    rewrite Er. split; [intros ->; split; [lia|done]|by intros [_ [= ->]]]. }
  destruct El as (l & -> & Hl), Er as (r & -> & Hr). run.
  destruct (sv_at_Ok path i) as (c & -> & Ec); [lia|]. run.
  destruct ((c =? dot) && ((l =? dot) && (r =? dot))) eqn:Eb.
  - bool_to_prop. subst c l r. exists false. split; [done|]. split; [|done]. intros _.
    exists (i - 1). split; [lia|]. apply Hocc. destruct Hl as [Hl _], Hr as [Hr _].
    specialize (Hl eq_refl). specialize (Hr eq_refl).
    replace (i - 1 + 1) with i by lia. replace (i - 1 + 2) with (i + 1) by lia.
    split_and!; try apply Hl; try apply Hr; try done; lia.
  - destruct (IH (i + 1)) as (b & -> & Hb); [lia|lia|lia|]. exists b. split; [done|]. rewrite Hb.
    split; intros (j & Hj & Ho); exists j; (split; [|done]); [lia|].
    destruct (decide (j = i - 1)) as [->|]; [|lia]. exfalso. apply Hocc in Ho as (H1 & H2 & E0 & E1 & E2).
    replace (i - 1 + 1) with i in E1 by lia. replace (i - 1 + 2) with (i + 1) in E2 by lia.
    assert (l = dot) as -> by (apply Hl; split; [lia|done]).
    assert (r = dot) as -> by (apply Hr; split; [lia|done]).
    assert (c = dot) as -> by congruence. done.
Qed.

(** ** Properties *)

(** Iterating over a path visits exactly its non-empty components, in order, whatever
    the number of slashes before, between and after them, and always ends. *)
Theorem path_nodes_correct (path : view) : path_nodes path = Ok (nodes_of path).
Proof.
  assert (Hnn : 0 <= sv_size path) by (unfold sv_size; lia).
  unfold path_nodes, path_begin, path_next. cbn [it_current it_current_end].
  destruct (Z.eqb_spec 0 (sv_size path)) as [E|E].
  - rewrite Z.eqb_refl. run. cbn [visit it_current]. rewrite Z.eqb_refl.
    destruct path; [done|unfold sv_size in E; simpl in E; lia].
  - destruct (Z.eqb_spec 0 (sv_size path)) as [|_]; [done|].
    destruct (next_path_node_Ok path 0) as (b & e & -> & Hbe & He & Hcase); [lia|]. run.
    change (drop (Z.to_nat 0) path) with path in Hcase.
    rewrite visit_Ok; try (unfold sv_size in *; lia). f_equal.
    destruct Hcase as [[-> ->]|[Hlt ->]]; [by rewrite Z.eqb_refl|].
    by replace (b =? sv_size path) with false by lia.
Qed.

Lemma is_valid_path_Ok path :
  exists r, is_valid_path path = Ok r /\
    (r = true <-> [slash] `prefix_of` path /\ forall j, ~ occurs path [dot; dot; dot] j).
Proof.
  unfold is_valid_path. destruct (Z.eqb_spec (sv_size path) 0) as [E|E].
  { exists false. split; [done|]. split; [done|]. intros [Hp _]. apply prefix_length in Hp.
    unfold sv_size in E. simpl in Hp. lia. }
  destruct path as [|c path]; [done|].
  assert (Es : starts_with (c :: path) [slash] = Ok (c =? slash)).
  { unfold starts_with. replace (sv_size [slash] >? sv_size (c :: path)) with false
      by (unfold sv_size; cbn [length]; blia). change (sv_size [slash] =? 0) with false.
    rewrite prefix_loop_Ok by (unfold sv_size; cbn [length]; lia). f_equal.
    change (drop (Z.to_nat 0) ?l) with l. destruct (Z.eqb_spec c slash) as [->|Hc].
    - apply bool_decide_eq_true_2. apply prefix_cons, prefix_nil.
    - apply bool_decide_eq_false_2. intros Hp. by apply prefix_cons_inv_1 in Hp. }
  rewrite Es. run. destruct (Z.eqb_spec c slash) as [->|Hc]; cbn [negb].
  - destruct (dots_loop_Ok (S (length (slash :: path))) (slash :: path) 0) as (r & -> & Hr);
      [lia|auto|unfold sv_size; lia|]. exists r. split; [done|]. split.
    + intros ->. split; [by apply prefix_cons, prefix_nil|]. intros j Ho.
      destruct Hr as [_ Hr]. assert (true = false); [|done]. apply Hr. exists j. split; [|done].
      destruct Ho as (? & _). lia.
    + intros [_ Hno]. destruct r; [done|]. destruct Hr as [Hr _].
      destruct (Hr eq_refl) as (j & _ & Ho). by apply Hno in Ho.
  - exists false. split; [done|]. split; [done|]. intros [Hp _]. by apply prefix_cons_inv_1 in Hp.
Qed.

Lemma is_valid_prefix_spec p : is_valid_prefix p = true <-> Forall (fun c => is_alnum c = true) p.
Proof.
  induction p as [|c p IH]; simpl; [by split; [constructor|]|]. rewrite Forall_cons, <- IH.
  destruct (is_alnum c); simpl; naive_solver.
Qed.

(** [split_prefix_and_path] accepts a path exactly when it is an alphanumeric prefix
    and a "::" (the first one) followed by a valid path, or just a valid path without
    "::"; a path is valid when it starts with a slash and has no three dots in a row.  It
    returns the two parts. *)
Theorem split_prefix_and_path_correct (path : view) :
  exists o, split_prefix_and_path path = Ok o /\
  forall prefix rest,
    o = Some (prefix, rest) <->
    ((path = prefix ++ [colon; colon] ++ rest /\
      forall j, occurs path [colon; colon] j -> sv_size prefix <= j) \/
     (prefix = [] /\ rest = path /\ forall j, ~ occurs path [colon; colon] j)) /\
    Forall (fun c => is_alnum c = true) prefix /\
    [slash] `prefix_of` rest /\ forall j, ~ occurs rest [dot; dot; dot] j.
Proof.
  unfold split_prefix_and_path. destruct (find_Ok path [colon; colon]) as (pref & -> & Hpref). run.
  set (pr := match pref with Some i => _ | None => _ end).
  assert (Hpr : forall prefix rest, pr = (prefix, rest) <->
    ((path = prefix ++ [colon; colon] ++ rest /\
      forall j, occurs path [colon; colon] j -> sv_size prefix <= j) \/
     (prefix = [] /\ rest = path /\ forall j, ~ occurs path [colon; colon] j))).
  { intros prefix rest. unfold pr. destruct pref as [i|].
    - destruct Hpref as [Hoc Hmin]. pose proof Hoc as (Hi & Hle & Hch).
      change (sv_size [colon; colon]) with 2 in *. unfold sv_size in Hle.
      pose proof (Hch 0 ltac:(lia)) as E0. pose proof (Hch 1 ltac:(lia)) as E1. rewrite Z.add_0_r in E0.
      assert (Epath : path = take (Z.to_nat i) path ++ [colon; colon] ++ drop (Z.to_nat (i + 2)) path).
      { rewrite <- (take_drop (Z.to_nat i) path) at 1. f_equal.
        rewrite (drop_lookup_Z path i colon), (drop_lookup_Z path (i + 1) colon) by (done || lia).
        simpl. do 3 f_equal. lia. }
      assert (Etk : take (Z.to_nat (sv_size path - i - 2)) (drop (Z.to_nat (i + 2)) path) =
        drop (Z.to_nat (i + 2)) path).
      { apply take_ge. rewrite length_drop. unfold sv_size. lia. }
      rewrite Etk. split.
      + intros [= <- <-]. left. split; [done|]. intros j Hj. specialize (Hmin j Hj).
        unfold sv_size. rewrite length_take. lia.
      + intros [[Ep Hfirst]|(-> & -> & Hno)]; [|by apply Hno in Hoc].
        assert (Hocc : occurs path [colon; colon] (sv_size prefix)).
        { rewrite Ep. unfold occurs, sv_size. rewrite !length_app. simpl. split_and!; try lia.
          intros k Hk. rewrite lookup_app_r by lia. replace (Z.to_nat _ - length prefix)%nat with (Z.to_nat k) by lia.
          by assert (k = 0 \/ k = 1) as [->| ->] by lia. }
        specialize (Hfirst i Hoc). specialize (Hmin _ Hocc). assert (i = sv_size prefix) as -> by lia.
        rewrite Ep. unfold sv_size. rewrite Nat2Z.id, take_app_length. f_equal.
        rewrite app_assoc, drop_app_length'; [done|]. rewrite length_app. simpl. lia.
    - split.
      + intros [= <- <-]. right. done.
      + intros [[Ep _]|(-> & -> & _)]; [|done]. exfalso. apply (Hpref (sv_size prefix)). rewrite Ep.
        unfold occurs, sv_size. rewrite !length_app. simpl. split_and!; try lia.
        intros k Hk. rewrite lookup_app_r by lia. replace (Z.to_nat _ - length prefix)%nat with (Z.to_nat k) by lia.
        by assert (k = 0 \/ k = 1) as [->| ->] by lia. }
  clearbody pr. destruct pr as [p0 r0].
  destruct (is_valid_path_Ok r0) as (v & Ev & Hv).
  pose proof (is_valid_prefix_spec p0) as Hp.
  destruct (is_valid_prefix p0) eqn:Ep; cbn [negb]; run.
  - rewrite Ev. run. destruct v; cbn [negb].
    + eexists; split; [done|]. intros prefix rest. rewrite <- Hpr. split; [|by intros [[= -> ->] _]].
      intros [= <- <-]. split; [done|]. split; [by apply Hp|by apply Hv].
    + eexists; split; [done|]. intros prefix rest. rewrite <- Hpr. split; [done|].
      intros ([= <- <-] & _ & Hvv). apply Hv in Hvv. done.
  - eexists; split; [done|]. intros prefix rest. rewrite <- Hpr. split; [done|].
    intros ([= <- <-] & Hpp & _). by apply Hp in Hpp.
Qed.
