(* ===== verification/FatNames.v ===== *)
(** Kernel/FileSystem/FAT32/Utilities.h: the 8.3 short names of FAT32 directory entries:
    generation from a long name, the next name with a numeric tail, and the checksum that
    ties long-name entries to the short one.  Strings are their characters. *)
From S2P Require Import Prelude Strings.

(** [Kernel/FileSystem/FAT32/Utilities.h:7-9] short_name_length, short_extension_length *)
Definition short_name_length : Z := 8.
Definition short_extension_length : Z := 3.

Definition ch_dot : Z := 46.
Definition ch_space : Z := 32.
Definition ch_tilde : Z := 126.
Definition ch_0 : Z := 48.
Definition ch_9 : Z := 57.

(** [Kernel/FileSystem/FAT32/Utilities.h:11-24] length_of_name_and_extension *)
Definition length_of_name_and_extension (file_name : view) : result (Z * Z) :=
  last_dot ← find_last file_name [ch_dot];
  let name_length := default (sv_size file_name) last_dot in
  let extension_length :=
    if name_length =? 0 then sv_size file_name
    else if name_length <? sv_size file_name then sv_size file_name - name_length - 1
    else 0 in
  mret (name_length, extension_length).

(** [Kernel/FileSystem/FAT32/Utilities.h:39-49] the loop that copies the name *)
Fixpoint copy_name (fuel : nat) (long_name : view) (name_length to_copy i copied : Z)
    (short_name : view) : result (view * Z) :=
  match fuel with
  | O => Fault OutOfFuel
  | S fuel =>
    if i <? name_length then
      c ← sv_at long_name i;
      if (c =? ch_dot) || (c =? ch_space) then
        copy_name fuel long_name name_length to_copy (i + 1) copied short_name
      else
        let short_name := short_name ++ [c] in
        let copied := copied + 1 in
        if to_copy =? copied then mret (short_name, copied)
        else copy_name fuel long_name name_length to_copy (i + 1) copied short_name
    else mret (short_name, copied)
  end.

(** [Kernel/FileSystem/FAT32/Utilities.h:68-69] the loop that copies the extension *)
Fixpoint copy_extension (chars : nat) (long_name : view) (i : Z) (short_name : view)
  : result view :=
  match chars with
  | O => mret short_name
  | S chars =>
    c ← sv_at long_name i;
    copy_extension chars long_name (i + 1) (short_name ++ [c])
  end.

(** [Kernel/FileSystem/FAT32/Utilities.h:26-77] generate_short_name
    The paddings are counted down by [while (padding_chars--)]. *)
Definition generate_short_name (long_name : view) : result view :=
  '(name_length, extension_length) ← length_of_name_and_extension long_name;
  let needs_numeric_tail :=
    (name_length >? short_name_length) || (extension_length >? short_extension_length) in
  let name_chars_to_copy :=
    Z.min (if needs_numeric_tail then short_name_length - 2 else short_name_length) name_length in
  '(short_name, copied) ← copy_name (S (Z.to_nat name_length)) long_name name_length
                            name_chars_to_copy 0 0 [];
  let '(short_name, copied) :=
    if needs_numeric_tail then (short_name ++ [ch_tilde; ch_0 + 1], copied + 2)
    else (short_name, copied) in
  let padding_chars := short_name_length -! copied in
  let short_name := short_name ++ replicate (Z.to_nat padding_chars) ch_space in
  let extension_chars := Z.min short_extension_length extension_length in
  let padding_chars := short_extension_length - extension_chars in
  short_name ← copy_extension (Z.to_nat extension_chars) long_name (name_length + 1) short_name;
  let short_name := short_name ++ replicate (Z.to_nat padding_chars) ch_space in
  mret (to_upper <$> short_name).

(** [Kernel/FileSystem/FAT32/Utilities.h:106-110] reading the numeric tail *)
Fixpoint read_tail (chars : nat) (s : view) (i number : Z) (would_overflow : bool)
  : result (Z * bool) :=
  match chars with
  | O => mret (number, would_overflow)
  | S chars =>
    c ← sv_at s i;
    read_tail chars s (i + 1) (number *! 10 +! (c - ch_0)) (would_overflow && (c =? ch_9))
  end.

(** [Kernel/FileSystem/FAT32/Utilities.h:115-118] writing [chars] digits up to index [i] *)
Fixpoint write_tail (chars : nat) (s : view) (i number : Z) : result view :=
  match chars with
  | O => mret s
  | S chars =>
    _ ← ASSERT (i <? sv_size s);
    s ← write_at s i (number mod 10 + ch_0);
    write_tail chars s (i - 1) (number / 10)
  end.

(** [Kernel/FileSystem/FAT32/Utilities.h:79-135] next_short_name: [None] when [ok] is
    false *)
Definition next_short_name (current : view) : result (option view) :=
  last ← are_equal (take 7 (drop 1 current)) [ch_tilde; ch_9; ch_9; ch_9; ch_9; ch_9; ch_9];
  if (last : bool) then mret None
  else
    numeric_tail_pos ← find_last current [ch_tilde];
    end_of_name ← find current [ch_space];
    match numeric_tail_pos with
    | None =>
      let new_tail_pos :=
        Z.min (short_name_length - 2) (default (short_name_length - 2) end_of_name) in
      s ← write_at current new_tail_pos ch_tilde;
      s ← write_at s (new_tail_pos + 1) (ch_0 + 1);
      mret (Some s)
    | Some pos =>
      let end_of_numeric_tail :=
        Z.min (default (short_name_length + 1) end_of_name) short_name_length in
      '(number, would_overflow) ←
        read_tail (Z.to_nat (end_of_numeric_tail - (pos + 1))) current (pos + 1) 0 true;
      let number := number +! 1 in
      if negb would_overflow then
        s ← write_tail (Z.to_nat (end_of_numeric_tail - 1 - pos)) current
              (end_of_numeric_tail - 1) number;
        mret (Some s)
      else
        let can_grow_downwards := negb (end_of_numeric_tail =? short_name_length) in
        let new_start := if can_grow_downwards then pos else pos - 1 in
        let new_end := if can_grow_downwards then end_of_numeric_tail + 1
                       else end_of_numeric_tail in
        s ← write_tail (Z.to_nat (new_end - 1 - new_start)) current (new_end - 1) number;
        s ← write_at s new_start ch_tilde;
        mret (Some s)
    end.

(** [Kernel/FileSystem/FAT32/Utilities.h:137-148] generate_short_name_checksum, over the
    eleven bytes of the name *)
Definition checksum_step (sum byte : Z) : Z :=
  wrap8 (wrap8 (Z.shiftr sum 1 + Z.shiftl (Z.land sum 1) 7) + byte).
Definition generate_short_name_checksum (name : view) : result Z :=
  bytes ← (if decide (11 <= length name)%nat then Ok (take 11 name) else Fault OutOfBounds);
  mret (foldl checksum_step 0 bytes).

(** ** Searching a character *)

Lemma occurs_char (s : view) c i :
  occurs s [c] i <-> 0 <= i /\ s !! Z.to_nat i = Some c.
Proof.
  unfold occurs, sv_size. simpl length. split.
  - intros (H0 & H1 & H2). specialize (H2 0). replace (i + 0) with i in H2 by lia.
    split; [lia|]. rewrite H2 by lia. done.
  - intros (H0 & H1). pose proof (lookup_lt_Some _ _ _ H1). split_and!; try lia.
    intros k Hk. replace k with 0 by lia. replace (i + 0) with i by lia. done.
Qed.

Lemma find_char a c b : c ∉ a -> find (a ++ c :: b) [c] = Ok (Some (sv_size a)).
Proof.
  intros Ha. destruct (find_Ok (a ++ c :: b) [c]) as (o & -> & Ho).
  assert (Hc : occurs (a ++ c :: b) [c] (sv_size a)).
  { apply occurs_char. unfold sv_size. split; [lia|]. rewrite Nat2Z.id. by apply list_lookup_middle. }
  destruct o as [j|]; [|by destruct (Ho _ Hc)]. destruct Ho as [Hj Hmin].
  apply Hmin in Hc. apply occurs_char in Hj as [H0 Hj]. do 2 f_equal.
  destruct (decide (j < sv_size a)); [|lia]. exfalso. apply Ha.
  rewrite lookup_app_l in Hj by (unfold sv_size in *; lia). by eapply list_elem_of_lookup_2.
Qed.

Lemma find_char_none s c : c ∉ s -> find s [c] = Ok None.
Proof.
  intros Hs. destruct (find_Ok s [c]) as (o & -> & Ho). destruct o as [j|]; [|done].
  destruct Ho as [Hj _]. apply occurs_char in Hj as [_ Hj]. exfalso. apply Hs.
  by eapply list_elem_of_lookup_2.
Qed.

Lemma find_last_char a c b :
  sv_size (a ++ c :: b) < W64 - 1 -> c ∉ b ->
  find_last (a ++ c :: b) [c] = Ok (Some (sv_size a)).
Proof.
  intros Hs Hb. destruct (find_last_Ok (a ++ c :: b) [c]) as (o & -> & Ho); [done|].
  assert (Hc : occurs (a ++ c :: b) [c] (sv_size a)).
  { apply occurs_char. unfold sv_size. split; [lia|]. rewrite Nat2Z.id. by apply list_lookup_middle. }
  destruct o as [j|]; [|by destruct (Ho _ Hc)]. destruct Ho as [Hj Hmax].
  apply Hmax in Hc. apply occurs_char in Hj as [H0 Hj]. do 2 f_equal.
  destruct (decide (sv_size a < j)); [|lia]. exfalso. apply Hb. unfold sv_size in *.
  rewrite lookup_app_r in Hj by lia.
  destruct (Z.to_nat j - length a)%nat as [|m] eqn:E; [lia|]. by eapply list_elem_of_lookup_2.
Qed.

Lemma find_last_char_none s c :
  sv_size s < W64 - 1 -> c ∉ s -> find_last s [c] = Ok None.
Proof.
  intros Hl Hs. destruct (find_last_Ok s [c] Hl) as (o & -> & Ho). destruct o as [j|]; [|done].
  destruct Ho as [Hj _]. apply occurs_char in Hj as [_ Hj]. exfalso. apply Hs.
  by eapply list_elem_of_lookup_2.
Qed.

Lemma sv_at_app a c b : sv_at (a ++ c :: b) (sv_size a) = Ok c.
Proof.
  destruct (sv_at_Ok (a ++ c :: b) (sv_size a)) as (c' & -> & E).
  { unfold sv_size. rewrite length_app. simpl. lia. }
  unfold sv_size in E. rewrite Nat2Z.id, list_lookup_middle in E by done. by simplify_eq.
Qed.

Lemma write_at_app {A} (a : list A) x b y :
  write_at (a ++ x :: b) (Z.of_nat (length a)) y = Ok (a ++ y :: b).
Proof.
  apply write_at_Ok. rewrite length_app. simpl. split; [lia|].
  rewrite Nat2Z.id. by rewrite insert_app_r_alt, Nat.sub_diag by lia.
Qed.

(** ** Short names *)

(** A field of [n] characters, padded with spaces. *)
Definition pad (n : nat) (s : view) : view := s ++ replicate (n - length s) ch_space.

(** A character of the stem that a short name keeps. *)
Definition keeps (c : Z) : Prop := c <> ch_dot /\ c <> ch_space.
#[export] Instance keeps_dec c : Decision (keeps c).
Proof. unfold keeps. solve_decision. Defined.

(** The short name of [stem.ext]. *)
Definition short_name_of (stem ext : view) : view :=
  let name :=
    if decide (8 < length stem \/ 3 < length ext)%nat
    then take 6 (filter keeps stem) ++ [ch_tilde; ch_0 + 1]
    else filter keeps stem in
  to_upper <$> pad 8 name ++ pad 3 (take 3 ext).

Lemma copy_name_Ok fuel done_ stem rest to_copy out :
  (length stem < fuel)%nat -> Z.of_nat (length out) < to_copy ->
  exists out', 
    copy_name fuel (done_ ++ stem ++ rest) (sv_size (done_ ++ stem)) to_copy (sv_size done_)
      (Z.of_nat (length out)) out = Ok (out', Z.of_nat (length out')) /\
    out' = take (Z.to_nat to_copy) (out ++ filter keeps stem).
Proof.
  revert done_ stem out. induction fuel as [|fuel IH]; intros done_ stem out Hf Hc; [lia|].
  cbn [copy_name]. destruct stem as [|c stem].
  { rewrite !app_nil_r. replace (_ <? _) with false by blia. eexists. split; [done|].
    cbn [filter list_filter]. rewrite ?app_nil_r, take_ge by lia. done. }
  replace (_ <? _) with true by (unfold sv_size; rewrite length_app; simpl; blia).
  rewrite <- app_comm_cons, sv_at_app. run.
  replace (done_ ++ c :: stem ++ rest) with ((done_ ++ [c]) ++ stem ++ rest) by by rewrite <- app_assoc.
  replace (done_ ++ c :: stem) with ((done_ ++ [c]) ++ stem) by by rewrite <- app_assoc.
  replace (sv_size done_ + 1) with (sv_size (done_ ++ [c])) by (unfold sv_size; rewrite length_app; simpl; lia).
  simpl in Hf. destruct (decide (keeps c)) as [Hk|Hk].
  - replace (_ || _) with false by (destruct Hk; blia). rewrite filter_cons_True by done.
    assert (E : Z.of_nat (length out) + 1 = Z.of_nat (length (out ++ [c])))
      by (rewrite length_app; simpl; lia).
    rewrite E. destruct (Z.eqb_spec to_copy (Z.of_nat (length (out ++ [c])))) as [->|].
    + eexists. split; [done|].
      replace (out ++ c :: filter keeps stem) with ((out ++ [c]) ++ filter keeps stem) by by rewrite <- app_assoc.
      by rewrite Nat2Z.id, take_app_length.
    + destruct (IH (done_ ++ [c]) stem (out ++ [c])) as (out' & -> & ->); [lia|lia|].
      eexists. split; [done|]. by rewrite <- app_assoc.
  - replace (_ || _) with true by (unfold keeps in Hk; blia).
    rewrite filter_cons_False by done. apply IH; lia.
Qed.

Lemma copy_extension_Ok n done_ ext out :
  (n <= length ext)%nat ->
  copy_extension n (done_ ++ ext) (sv_size done_) out = Ok (out ++ take n ext).
Proof.
  revert done_ ext out. induction n as [|n IH]; intros done_ ext out Hn; cbn [copy_extension].
  { by rewrite take_0, app_nil_r. }
  destruct ext as [|c ext]; simpl in Hn; [lia|]. rewrite sv_at_app. run.
  replace (done_ ++ c :: ext) with ((done_ ++ [c]) ++ ext) by by rewrite <- app_assoc.
  replace (sv_size done_ + 1) with (sv_size (done_ ++ [c])) by (unfold sv_size; rewrite length_app; simpl; lia).
  rewrite IH by lia. by rewrite <- app_assoc.
Qed.

Lemma length_of_with_dot stem ext :
  sv_size (stem ++ ch_dot :: ext) < W64 - 1 -> stem <> [] -> ch_dot ∉ ext ->
  length_of_name_and_extension (stem ++ ch_dot :: ext) = Ok (sv_size stem, sv_size ext).
Proof.
  intros Hs Hne He. unfold length_of_name_and_extension. rewrite find_last_char by done. run.
  cbn [default from_option id]. unfold sv_size. rewrite length_app. simpl length.
  destruct stem as [|c stem]; [done|]. simpl length.
  replace (_ =? 0) with false by blia. replace (_ <? _) with true by blia.
  unfold mret, result_ret. f_equal. f_equal; lia.
Qed.

Lemma length_of_without_dot stem :
  sv_size stem < W64 - 1 -> ch_dot ∉ stem ->
  length_of_name_and_extension stem = Ok (sv_size stem, 0).
Proof.
  intros Hs He. unfold length_of_name_and_extension. rewrite find_last_char_none by done. run.
  cbn [default from_option id]. destruct (Z.eqb_spec (sv_size stem) 0) as [->|]; [done|].
  by rewrite Z.ltb_irrefl.
Qed.

(** A long name is its stem alone, or its stem, a dot and its extension. *)
Definition splits (long stem ext : view) : Prop :=
  (long = stem /\ ext = []) \/ long = stem ++ ch_dot :: ext.

Lemma take_min {A} (l : list A) n m : (length l <= m)%nat -> take (n `min` m) l = take n l.
Proof.
  intros Hl. destruct (decide (n <= m)%nat); [by rewrite Nat.min_l by lia|].
  rewrite Nat.min_r by lia. by rewrite !take_ge by lia.
Qed.

Lemma copy_stem long stem ext (limit : nat) :
  splits long stem ext -> (0 < limit)%nat ->
  copy_name (S (Z.to_nat (sv_size stem))) long (sv_size stem)
    (Z.min (Z.of_nat limit) (sv_size stem)) 0 0 [] =
  Ok (let n := take limit (filter keeps stem) in (n, Z.of_nat (length n))).
Proof.
  intros Hs Hl. destruct stem as [|c stem]; [simpl; by destruct limit|].
  set (stem' := c :: stem) in *.
  destruct (copy_name_Ok (S (length stem')) [] stem' (if decide (long = stem') then [] else ch_dot :: ext)
    (Z.min (Z.of_nat limit) (sv_size stem')) []) as (out & Hout & Eout).
  { lia. } { unfold sv_size, stem'. simpl. lia. }
  cbn [app] in Hout, Eout.
  assert (Elong : stem' ++ (if decide (long = stem') then [] else ch_dot :: ext) = long).
  { case_decide as E; [by rewrite app_nil_r|]. by destruct Hs as [[]|]. }
  rewrite Elong in Hout. unfold sv_size in *. rewrite Nat2Z.id.
  change (Z.of_nat (length [])) with 0 in Hout. rewrite Hout, Eout. cbn zeta. unfold id.
  rewrite <- Nat2Z.inj_min, Nat2Z.id, take_min; [done|apply length_filter].
Qed.

Lemma copy_parts_extension long stem ext out :
  splits long stem ext ->
  copy_extension (Z.to_nat (Z.min short_extension_length (sv_size ext))) long (sv_size stem + 1) out =
  Ok (out ++ take 3 ext).
Proof.
  intros [[_ ->]| ->].
  { simpl. by rewrite app_nil_r. }
  replace (stem ++ ch_dot :: ext) with ((stem ++ [ch_dot]) ++ ext) by by rewrite <- app_assoc.
  replace (sv_size stem + 1) with (sv_size (stem ++ [ch_dot])) by (unfold sv_size; rewrite length_app; simpl; lia).
  unfold short_extension_length, sv_size at 1. rewrite copy_extension_Ok by lia.
  change 3 with (Z.of_nat 3). by rewrite <- Nat2Z.inj_min, Nat2Z.id, take_min.
Qed.

Lemma generate_parts long stem ext :
  splits long stem ext ->
  length_of_name_and_extension long = Ok (sv_size stem, sv_size ext) ->
  generate_short_name long = Ok (short_name_of stem ext).
Proof.
  intros Hs E. unfold generate_short_name. rewrite E. run. unfold short_name_of.
  set (tail := (_ || _) : bool).
  assert (Ht : tail = bool_decide (8 < length stem \/ 3 < length ext)%nat).
  { symmetry. unfold tail, sv_size, short_name_length, short_extension_length.
    case_bool_decide; blia. }
  replace (if tail then short_name_length - 2 else short_name_length)
    with (Z.of_nat (if tail then 6 else 8)) by (by destruct tail).
  rewrite (copy_stem _ _ ext) by (done || destruct tail; lia). run. cbn zeta.
  set (name := take (if tail then 6 else 8) (filter keeps stem)).
  assert (Hn : (length name <= if tail then 6 else 8)%nat)
    by (unfold name; rewrite length_take; destruct tail; lia).
  assert (Hpad : forall o, o ++ replicate (Z.to_nat (short_extension_length -
      Z.min short_extension_length (sv_size ext))) ch_space =
      o ++ replicate (3 - length (take 3 ext)) ch_space).
  { intros o. do 2 f_equal. rewrite length_take. unfold short_extension_length, sv_size. lia. }
  assert (En : tail = false -> name = filter keeps stem).
  { intros Et. unfold name. rewrite Et in *. apply take_ge.
    pose proof (length_filter keeps stem). symmetry in Ht. apply bool_decide_eq_false in Ht. lia. }
  assert (En' : tail = true -> take 6 (filter keeps stem) = name) by (unfold name; by intros ->).
  clearbody name. unfold pad, short_name_length. destruct tail; symmetry in Ht.
  - apply bool_decide_eq_true in Ht. rewrite decide_True by done. rewrite En' by done.
    rewrite (copy_parts_extension _ stem) by done. run. rewrite Hpad, length_app. simpl length.
    rewrite wrap64_small by (unfold is_u64; lia). do 2 f_equal. rewrite <- !app_assoc.
    repeat f_equal. lia.
  - apply bool_decide_eq_false in Ht. rewrite decide_False by done. rewrite <- En by done.
    rewrite (copy_parts_extension _ stem) by done. run. rewrite Hpad.
    rewrite wrap64_small by (unfold is_u64; lia). do 2 f_equal. rewrite <- !app_assoc.
    repeat f_equal. lia.
Qed.

Lemma length_pad n s : (length s <= n)%nat -> length (pad n s) = n.
Proof. intros H. unfold pad. rewrite length_app, length_replicate. lia. Qed.

(** ** Numeric tails *)

(** The last [d] decimal digits of [n]. *)
Fixpoint to_digits (d : nat) (n : Z) : view :=
  match d with
  | O => []
  | S d => to_digits d (n / 10) ++ [n mod 10 + ch_0]
  end.

(** The number of decimal digits of a number below a million. *)
Definition width (n : Z) : nat :=
  if n <? 10 then 1 else if n <? 100 then 2 else if n <? 1000 then 3
  else if n <? 10000 then 4 else if n <? 100000 then 5 else 6.

(** The short name [STEM~n] with the extension field [ext]: as much of the stem as the
    tail leaves room for. *)
Definition tailed (stem ext : view) (n : Z) : view :=
  pad 8 (take (7 - width n) stem ++ ch_tilde :: to_digits (width n) n) ++ ext.

Lemma length_to_digits d n : length (to_digits d n) = d.
Proof. revert n. induction d; intros; simpl; [done|]. rewrite length_app, IHd. simpl. lia. Qed.

Lemma to_digits_cons d n :
  0 <= n -> to_digits (S d) n = n / 10 ^ Z.of_nat d mod 10 + ch_0 :: to_digits d n.
Proof.
  revert n. induction d as [|d IH]; intros n Hn.
  { simpl. by rewrite Z.div_1_r. }
  change (to_digits (S (S d)) n) with (to_digits (S d) (n / 10) ++ [n mod 10 + ch_0]).
  rewrite IH by dlia. simpl to_digits. rewrite <- app_comm_cons. f_equal. f_equal. f_equal.
  rewrite Z.div_div by lia. f_equal. rewrite Nat2Z.inj_succ, Z.pow_succ_r by lia. lia.
Qed.

Lemma to_digits_range d n c : c ∈ to_digits d n -> ch_0 <= c <= ch_9.
Proof.
  revert n. induction d as [|d IH]; intros n; simpl; [by intros ?%not_elem_of_nil|].
  rewrite elem_of_app, list_elem_of_singleton. intros [H| ->]; [by eapply IH|].
  pose proof (Z.mod_pos_bound n 10). unfold ch_0, ch_9. lia.
Qed.

Lemma read_tail_Ok d pre n rest acc ov :
  0 <= n -> 0 <= acc -> (acc + 1) * 10 ^ Z.of_nat d < W64 ->
  read_tail d (pre ++ to_digits d n ++ rest) (sv_size pre) acc ov =
  Ok (acc * 10 ^ Z.of_nat d + n mod 10 ^ Z.of_nat d,
      ov && (n mod 10 ^ Z.of_nat d =? 10 ^ Z.of_nat d - 1)).
Proof.
  revert pre acc ov. induction d as [|d IH]; intros pre acc ov Hn Ha Hb.
  { cbn [read_tail]. simpl. rewrite Z.mod_1_r, andb_true_r. unfold mret, result_ret. do 2 f_equal. lia. }
  rewrite to_digits_cons by done. cbn [read_tail]. rewrite <- app_comm_cons, sv_at_app. run.
  set (dg := n / 10 ^ Z.of_nat d mod 10). set (P := 10 ^ Z.of_nat d) in *.
  assert (HP : 0 < P) by (apply Z.pow_pos_nonneg; lia).
  assert (Hdg : 0 <= dg < 10) by (apply Z.mod_pos_bound; lia).
  rewrite Nat2Z.inj_succ, Z.pow_succ_r in * by lia. fold P in Hb |- *.
  replace (dg + ch_0 - ch_0) with dg by lia.
  assert (Hacc : (acc * 10 + dg + 1) * P < W64) by nia.
  assert (acc * 10 + dg < W64) by nia.
  rewrite (wrap64_small (acc * 10)) by (unfold is_u64; lia).
  rewrite wrap64_small by (unfold is_u64; lia).
  replace (pre ++ dg + ch_0 :: to_digits d n ++ rest)
    with ((pre ++ [dg + ch_0]) ++ to_digits d n ++ rest) by by rewrite <- app_assoc.
  replace (sv_size pre + 1) with (sv_size (pre ++ [dg + ch_0])) by (unfold sv_size; rewrite length_app; simpl; lia).
  rewrite IH by (lia || done). fold P.
  assert (Em : n mod (10 * P) = dg * P + n mod P).
  { unfold dg. rewrite (Z.mul_comm 10 P), Z.rem_mul_r by lia. lia. }
  rewrite Em. pose proof (Z.mod_pos_bound n P HP). f_equal. f_equal; [lia|].
  rewrite <- andb_assoc. f_equal. apply eq_true_iff_eq.
  rewrite andb_true_iff, !Z.eqb_eq. unfold ch_0, ch_9. split; [intros []; nia|].
  intros ?. assert (dg = 9) by nia. lia.
Qed.

Lemma write_tail_Ok d pre old n rest :
  length old = d ->
  write_tail d (pre ++ old ++ rest) (sv_size pre + Z.of_nat d - 1) n =
  Ok (pre ++ to_digits d n ++ rest).
Proof.
  revert old n rest. induction d as [|d IH]; intros old n rest Ho.
  { by destruct old. }
  destruct old as [|c old _] using rev_ind; [done|]. rewrite length_app in Ho. simpl in Ho.
  cbn [write_tail]. replace (sv_size pre + Z.of_nat (S d) - 1) with (Z.of_nat (length (pre ++ old)))
    by (unfold sv_size; rewrite length_app; lia).
  replace (pre ++ (old ++ [c]) ++ rest) with ((pre ++ old) ++ c :: rest) by by rewrite <- !app_assoc.
  replace (_ <? _) with true by (unfold sv_size; rewrite (length_app _ (c :: rest)); simpl length; blia).
  run. rewrite write_at_app. run. rewrite <- app_assoc.
  replace (Z.of_nat (length (pre ++ old)) - 1) with (sv_size pre + Z.of_nat d - 1)
    by (unfold sv_size; rewrite length_app; lia).
  rewrite IH by lia. simpl to_digits. by rewrite <- app_assoc.
Qed.

Lemma pow10_cases (d : nat) : (d <= 6)%nat ->
  10 ^ Z.of_nat d = match d with 0%nat => 1 | 1%nat => 10 | 2%nat => 100 | 3%nat => 1000
                             | 4%nat => 10000 | 5%nat => 100000 | _ => 1000000 end.
Proof. intros H. by do 7 (destruct d as [|d]; [done|]); lia. Qed.

Lemma width_spec n :
  1 <= n < 1000000 ->
  (1 <= width n <= 6)%nat /\ 10 ^ Z.of_nat (width n) <= 10 * n /\ n < 10 ^ Z.of_nat (width n).
Proof.
  intros H. unfold width.
  repeat match goal with |- context [?a <? ?b] => destruct (Z.ltb_spec a b) end;
    rewrite pow10_cases by lia; lia.
Qed.

Lemma width_unique n (d : nat) :
  (1 <= d <= 6)%nat -> 10 ^ Z.of_nat d <= 10 * n -> n < 10 ^ Z.of_nat d -> width n = d.
Proof.
  intros Hd. rewrite pow10_cases by lia. unfold width.
  do 7 (destruct d as [|d]; [lia || intros;
    repeat match goal with |- context [?a <? ?b] => destruct (Z.ltb_spec a b) end; lia|]).
  lia.
Qed.

(** Where the name part of a short name ends, as [next_short_name] computes it. *)
Lemma end_of_name_Ok name rest :
  ch_space ∉ name -> (length name <= 8)%nat ->
  (length name = 8)%nat \/ (exists rest', rest = ch_space :: rest') ->
  exists o, find (name ++ rest) [ch_space] = Ok o /\
    Z.min (default (short_name_length + 1) o) short_name_length = sv_size name /\
    Z.min (short_name_length - 2) (default (short_name_length - 2) o) = Z.min 6 (sv_size name).
Proof.
  intros Hs Hl Hend. unfold short_name_length.
  destruct (decide (ch_space ∈ rest)) as [Hin|Hin].
  - apply list_elem_of_split_l in Hin as (r1 & r2 & Er & Hr1).
    rewrite Er, app_assoc, find_char by (rewrite elem_of_app; tauto). eexists. split; [done|].
    unfold default, from_option, id, sv_size. rewrite length_app.
    destruct Hend as [H8|[r' Er']]; [lia|]. destruct r1; [simpl; lia|].
    exfalso. apply Hr1. simplify_eq/=. apply list_elem_of_here.
  - rewrite find_char_none by (rewrite elem_of_app; tauto). eexists. split; [done|].
    unfold default, from_option, id, sv_size. destruct Hend as [H8|[r' ->]]; [lia|].
    exfalso. apply Hin. apply list_elem_of_here.
Qed.

Section next.
Context (base : view) (d : nat) (n : Z) (rest : view).
Context (Hbase : ch_space ∉ base) (Hrest : ch_tilde ∉ rest) (Hd : (1 <= d <= 6)%nat).
Context (Hn : 0 <= n < 10 ^ Z.of_nat d) (Hlen : (length base + 1 + d <= 8)%nat).
Context (Hend : (length base + 1 + d = 8)%nat \/ exists rest', rest = ch_space :: rest').
Context (Hsize : (length (base ++ ch_tilde :: to_digits d n ++ rest) = 11)%nat).

Lemma tail_parts :
  exists o, find (base ++ ch_tilde :: to_digits d n ++ rest) [ch_space] = Ok o /\
    Z.min (default (short_name_length + 1) o) short_name_length =
      Z.of_nat (length base + 1 + d) /\
    find_last (base ++ ch_tilde :: to_digits d n ++ rest) [ch_tilde] = Ok (Some (sv_size base)).
Proof.
  destruct (end_of_name_Ok (base ++ ch_tilde :: to_digits d n) rest) as (o & E1 & E2 & _).
  - rewrite elem_of_app, elem_of_cons. intros [?|[?|H]]; [done|done|].
    apply to_digits_range in H. by destruct H.
  - rewrite length_app. simpl. rewrite length_to_digits. lia.
  - rewrite length_app. simpl. rewrite length_to_digits. destruct Hend; [left; lia|by right].
  - exists o. rewrite <- app_assoc in E1. split; [done|]. split.
    + rewrite E2. unfold sv_size. rewrite length_app. simpl. rewrite length_to_digits. lia.
    + apply find_last_char; [unfold sv_size; lia|]. rewrite elem_of_app.
      intros [H|?]; [|done]. apply to_digits_range in H. by destruct H.
Qed.

(** What [next_short_name] writes: the successor in place, or, after a run of nines, one
    digit more, into the padding where there is some and over the stem otherwise. *)
Lemma next_tail :
  base <> [] ->
  take 7 (drop 1 (base ++ ch_tilde :: to_digits d n ++ rest)) <> ch_tilde :: to_digits 6 999999 ->
  next_short_name (base ++ ch_tilde :: to_digits d n ++ rest) = Ok (Some
    (if decide (n + 1 < 10 ^ Z.of_nat d) then base ++ ch_tilde :: to_digits d (n + 1) ++ rest
     else if decide (length base + 1 + d = 8)%nat
     then take (length base - 1) base ++ ch_tilde :: to_digits (S d) (n + 1) ++ rest
     else base ++ ch_tilde :: to_digits (S d) (n + 1) ++ drop 1 rest)).
Proof.
  intros Hne Hlast. unfold next_short_name. rewrite are_equal_Ok. run.
  rewrite bool_decide_eq_false_2 by done.
  destruct tail_parts as (o & -> & Ho & ->). run. rewrite Ho.
  assert (Hp : 10 ^ Z.of_nat d <= 1000000) 
    by (change 1000000 with (10 ^ 6); apply Z.pow_le_mono_r; lia).
  assert (Epre : sv_size base + 1 = sv_size (base ++ [ch_tilde])) by (unfold sv_size; rewrite length_app; simpl; lia).
  assert (Ecur : forall ds r, base ++ ch_tilde :: ds ++ r = (base ++ [ch_tilde]) ++ ds ++ r) by (intros; by rewrite <- app_assoc).
  replace (Z.to_nat (_ - (sv_size base + 1))) with d by (unfold sv_size; lia).
  rewrite Epre, Ecur, read_tail_Ok by lia. run. rewrite Z.mod_small by lia.
  rewrite wrap64_small by (unfold is_u64; lia). replace (0 * _ + n + 1) with (n + 1) by lia.
  case_decide as Hov.
  - replace (_ && _) with false by blia. runb.
    replace (Z.to_nat (_ - 1 - sv_size base)) with d by (unfold sv_size; lia).
    replace (Z.of_nat (length base + 1 + d) - 1) with (sv_size (base ++ [ch_tilde]) + Z.of_nat d - 1)
      by (unfold sv_size; rewrite length_app; simpl; lia).
    rewrite write_tail_Ok by apply length_to_digits. run. by rewrite <- app_assoc.
  - replace (_ && _) with true by blia. runb. case_decide as H8.
    + replace (_ =? short_name_length) with true by (unfold short_name_length; blia). runb.
      replace (Z.to_nat _) with (S d) by (unfold sv_size; lia).
      replace (Z.of_nat (length base + 1 + d) - 1) with (sv_size base + Z.of_nat (S d) - 1)
        by (unfold sv_size; lia).
      rewrite <- Ecur, app_comm_cons, write_tail_Ok by (simpl; by rewrite length_to_digits). run.
      destruct base as [|c b _] using rev_ind; [done|]. rewrite length_app in *. simpl length in *.
      rewrite <- app_assoc. unfold sv_size. rewrite length_app. simpl length. simpl app at 2.
      replace (Z.of_nat _ - 1) with (Z.of_nat (length b)) by lia. rewrite write_at_app. run.
      do 3 f_equal. replace (length b + 1 - 1)%nat with (length b) by lia. by rewrite take_app_length.
    + replace (_ =? short_name_length) with false by (unfold short_name_length; blia). runb.
      destruct Hend as [|[rest' Er]]; [lia|]. rewrite Er. simpl drop. rewrite drop_0.
      replace (Z.to_nat _) with (S d) by (unfold sv_size; lia).
      replace (Z.of_nat (length base + 1 + d) + 1 - 1) with (sv_size (base ++ [ch_tilde]) + Z.of_nat (S d) - 1)
        by (unfold sv_size; rewrite length_app; simpl; lia).
      replace (to_digits d n ++ ch_space :: rest') with ((to_digits d n ++ [ch_space]) ++ rest') by by rewrite <- app_assoc.
      rewrite write_tail_Ok by (rewrite length_app, length_to_digits; simpl; lia). run.
      rewrite <- app_assoc. simpl app at 2. unfold sv_size. by rewrite write_at_app.
Qed.

End next.

(** A tailed name, taken apart. *)
Lemma tailed_parts stem ext n :
  tailed stem ext n =
  take (7 - width n) stem ++ ch_tilde :: to_digits (width n) n ++
  replicate (7 - width n - length stem) ch_space ++ ext.
Proof.
  unfold tailed, pad. rewrite <- !app_assoc. simpl app. do 5 f_equal.
  rewrite length_app, length_take. simpl. rewrite length_to_digits. lia.
Qed.

Lemma to_digits_inj d n m :
  0 <= n < 10 ^ Z.of_nat d -> 0 <= m < 10 ^ Z.of_nat d -> to_digits d n = to_digits d m -> n = m.
Proof.
  revert n m. induction d as [|d IH]; intros n m Hn Hm E; [simpl in *; lia|].
  simpl in E. apply app_inj_tail in E as [E1 E2]. unfold ch_0 in E2.
  rewrite Nat2Z.inj_succ, Z.pow_succ_r in * by lia.
  assert (n / 10 = m / 10).
  { apply IH; [..|done]; split; try dlia; apply Z.div_lt_upper_bound; lia. }
  pose proof (Z.div_mod n 10). pose proof (Z.div_mod m 10). lia.
Qed.

Section counting.
Context (stem ext : view).
Context (Hne : stem <> []) (Hsp : ch_space ∉ stem) (Hle : (length stem <= 8)%nat).
Context (Hext : length ext = 3%nat) (Htl : ch_tilde ∉ ext).

Lemma tailed_length n : (width n <= 6)%nat -> length (tailed stem ext n) = 11%nat.
Proof.
  intros Hw. rewrite tailed_parts, length_app. simpl.
  rewrite !length_app, length_take, length_to_digits, length_replicate. lia.
Qed.

Lemma tailed_not_last n :
  1 <= n < 999999 -> take 7 (drop 1 (tailed stem ext n)) <> ch_tilde :: to_digits 6 999999.
Proof.
  intros Hn E. destruct (width_spec n) as (Hw & Hlo & Hhi); [lia|].
  assert (E' : take 7 (drop 1 (tailed stem ext n)) !! (length (take (7 - width n) stem) - 1)%nat
    = Some ch_tilde).
  { rewrite lookup_take_lt, lookup_drop by (rewrite length_take; lia).
    rewrite tailed_parts. destruct stem as [|c st]; [done|].
    replace (1 + (length (take (7 - width n) (c :: st)) - 1))%nat
      with (length (take (7 - width n) (c :: st))) by (rewrite length_take; simpl; lia).
    by apply list_lookup_middle. }
  rewrite E in E'. destruct (length (take (7 - width n) stem) - 1)%nat as [|k] eqn:Ek.
  2: { simpl in E'. apply list_elem_of_lookup_2 in E'. vm_compute in E'. set_solver. }
  assert (Hb : (length (take (7 - width n) stem) = 1)%nat)
    by (destruct stem; [done|]; rewrite length_take in *; simpl in *; lia).
  assert (Hb' := Hb). rewrite length_take in Hb'.
  rewrite tailed_parts in E. destruct (take (7 - width n) stem) as [|c [|]] eqn:Es; [done| |done].
  remember (to_digits 6 999999) as nines eqn:E9. simpl in E. injection E as E.
  destruct (decide (width n = 6%nat)) as [E6|].
  - rewrite E6, take_app_length' in E by by rewrite length_to_digits.
    rewrite E9 in E. apply (to_digits_inj 6 n 999999) in E; [lia| |lia]. rewrite E6 in Hhi. lia.
  - assert (Hin : ch_space ∈ nines).
    { rewrite <- E.
      rewrite take_app_ge by (rewrite length_to_digits; lia). rewrite length_to_digits.
      apply elem_of_app. right. apply list_elem_of_lookup. exists 0%nat.
      rewrite lookup_take_lt by lia.
      destruct (7 - width n - length stem)%nat eqn:Er; [lia|done]. }
    rewrite E9 in Hin. vm_compute in Hin. set_solver.
Qed.

Lemma next_tailed n :
  1 <= n < 999999 -> next_short_name (tailed stem ext n) = Ok (Some (tailed stem ext (n + 1))).
Proof.
  intros Hn. destruct (width_spec n) as (Hw & Hlo & Hhi); [lia|].
  pose proof (tailed_not_last n Hn) as Hlast. rewrite tailed_parts in Hlast |- *.
  assert (Hlen : (length (take (7 - width n) stem) = (7 - width n) `min` length stem)%nat)
    by apply length_take.
  rewrite next_tail; [| | |lia|lia|lia| |rewrite <- tailed_parts; apply tailed_length; lia| |done].
  - do 2 f_equal. rewrite tailed_parts. case_decide as Hov.
    + replace (width (n + 1)) with (width n) by (symmetry; apply width_unique; lia). done.
    + assert (Hp : 10 ^ Z.of_nat (S (width n)) = 10 * 10 ^ Z.of_nat (width n))
        by (rewrite Nat2Z.inj_succ, Z.pow_succ_r by lia; done).
      assert (Hw6 : width n <> 6%nat) by (intros E6; rewrite E6 in Hov; lia).
      replace (width (n + 1)) with (S (width n)) by (symmetry; apply width_unique; lia).
      case_decide as H8.
      * rewrite take_take. replace (_ `min` _)%nat with (7 - S (width n))%nat by lia.
        replace (7 - width n - length stem)%nat with 0%nat by lia.
        by replace (7 - S (width n) - length stem)%nat with 0%nat by lia.
      * rewrite !(take_ge stem) by lia.
        by replace (7 - width n - length stem)%nat with (S (7 - S (width n) - length stem)) by lia.
  - intros H. apply Hsp. rewrite <- (take_drop (7 - width n) stem). apply elem_of_app. by left.
  - rewrite elem_of_app, elem_of_replicate. by intros [[]|].
  - destruct (decide (length stem < 7 - width n)%nat); [right|left; lia].
    destruct (7 - width n - length stem)%nat eqn:E; [lia|]. by eexists.
  - intros H. apply (f_equal length) in H. destruct stem; [done|]. simpl in *. lia.
Qed.

Lemma next_untailed :
  ch_tilde ∉ stem -> next_short_name (pad 8 stem ++ ext) = Ok (Some (tailed stem ext 1)).
Proof.
  intros Ht. assert (Hnt : ch_tilde ∉ pad 8 stem ++ ext).
  { unfold pad. rewrite !elem_of_app, elem_of_replicate. by intros [[?|[]]|]. }
  assert (Hsz : length (pad 8 stem ++ ext) = 11%nat) by (rewrite length_app, length_pad; lia).
  unfold next_short_name. rewrite are_equal_Ok, bool_decide_eq_false_2. 2: {
    intros E. apply Hnt. rewrite <- (take_drop 1 (pad 8 stem ++ ext)). apply elem_of_app. right.
    rewrite <- (take_drop 7 (drop 1 _)), E. apply elem_of_app. left. apply list_elem_of_here. }
  run. rewrite find_last_char_none by (done || unfold sv_size; lia). run.
  destruct (end_of_name_Ok stem (replicate (8 - length stem) ch_space ++ ext)) as (o & E & _ & Eo); [done|lia| |].
  { destruct (decide (length stem = 8%nat)); [by left|right].
    destruct (8 - length stem)%nat eqn:E8; [lia|]. by eexists. }
  rewrite app_assoc in E. fold (pad 8 stem) in E. rewrite E. run. rewrite Eo.
  set (k := (6 `min` length stem)%nat).
  replace (Z.min 6 (sv_size stem)) with (Z.of_nat k) by (unfold sv_size, k; lia).
  destruct (drop k (pad 8 stem)) as [|x [|y r]] eqn:Ek;
    try (apply (f_equal length) in Ek; rewrite length_drop, length_pad in Ek by lia; simpl in Ek; lia).
  rewrite <- (take_drop k (pad 8 stem)), Ek, <- app_assoc. simpl app at 2.
  assert (Htk : take k (pad 8 stem) = take 6 stem).
  { unfold pad. rewrite take_app_le by lia. unfold k. rewrite take_min by lia. done. }
  rewrite Htk. replace (Z.of_nat k) with (Z.of_nat (length (take 6 stem))) by (rewrite length_take; lia).
  rewrite write_at_app. run.
  replace (Z.of_nat (length (take 6 stem)) + 1) with (Z.of_nat (length (take 6 stem ++ [ch_tilde])))
    by (rewrite length_app; simpl; lia).
  replace (take 6 stem ++ ch_tilde :: y :: r ++ ext) with ((take 6 stem ++ [ch_tilde]) ++ y :: r ++ ext)
    by by rewrite <- app_assoc.
  rewrite write_at_app. run. do 2 f_equal. rewrite tailed_parts. rewrite <- app_assoc. simpl.
  do 3 f_equal. f_equal.
  assert (Er : r = drop 2 (drop k (pad 8 stem))) by by rewrite Ek. rewrite drop_drop in Er.
  rewrite Er. unfold pad. destruct (decide (length stem <= k + 2)%nat).
  - rewrite drop_app_ge, drop_replicate by lia. f_equal. unfold k. lia.
  - unfold k in *. lia.
Qed.

End counting.

(** ** The short names of a file *)

(** The short name generated for [stem.ext] (or for a name without a dot) has eleven
    characters: the upper-cased stem without dots and spaces, cut to six characters and
    tailed with [~1] when the stem is longer than eight characters or the extension longer
    than three, padded to eight, and the extension cut and padded to three. *)
Theorem generate_short_name_correct (stem ext : view) :
  sv_size stem + sv_size ext + 1 < W64 - 1 -> stem <> [] -> ch_dot ∉ ext ->
  generate_short_name (stem ++ ch_dot :: ext) = Ok (short_name_of stem ext) /\
  length (short_name_of stem ext) = 11%nat /\
  (ch_dot ∉ stem -> generate_short_name stem = Ok (short_name_of stem [])).
Proof.
  intros Hs Hne Hd. split_and!.
  - apply generate_parts; [by right|]. apply length_of_with_dot; [|done..].
    unfold sv_size in *. rewrite length_app. simpl. lia.
  - unfold short_name_of. rewrite length_fmap, length_app, (length_pad 3) by (rewrite length_take; lia).
    rewrite length_pad; [done|]. case_decide.
    + rewrite length_app, length_take. cbn [length]. lia.
    + pose proof (length_filter keeps stem). lia.
  - intros Hn. apply generate_parts; [by left|]. apply length_of_without_dot; [|done].
    unfold sv_size in *. lia.
Qed.

(** Successive short names count: after the untailed name comes the tail [~1], after
    the tail [~n] the tail [~(n+1)], the stem giving way to the digits only when the
    padding is used up, and after [~999999] there is none. *)
Theorem next_short_name_counts (stem ext : view) (n : Z) :
  stem <> [] -> ch_space ∉ stem -> (length stem <= 8)%nat -> length ext = 3%nat ->
  ch_tilde ∉ ext -> 1 <= n <= 999999 ->
  (ch_tilde ∉ stem -> next_short_name (pad 8 stem ++ ext) = Ok (Some (tailed stem ext 1))) /\
  next_short_name (tailed stem ext n) =
    Ok (if n =? 999999 then None else Some (tailed stem ext (n + 1))) /\
  length (tailed stem ext n) = 11%nat.
Proof.
  intros Hne Hsp Hle Hx Ht Hn. destruct (width_spec n) as (Hw & _ & _); [lia|]. split_and!.
  - by apply next_untailed.
  - destruct (Z.eqb_spec n 999999) as [->|]; [|apply next_tailed; [done..|lia]].
    unfold next_short_name. rewrite are_equal_Ok, bool_decide_eq_true_2; [done|].
    rewrite tailed_parts. destruct stem as [|c st]; [done|]. simpl. by rewrite take_0.
  - apply tailed_length; [done..|lia].
Qed.

(** [".ab"]: the last dot is the first character, the extension is taken to be the whole
    name, and the copy reads past its end. *)
Example short_name_of_dotfile :
  generate_short_name [ch_dot; 97; 98] = Fault AssertionFailed.
Proof. reflexivity. Qed.

Lemma generate_short_name_correct_witness :
  generate_short_name [114; 46; 97; 46; 99] = Ok (short_name_of [114; 46; 97] [99]).
Proof.
  refine (proj1 (generate_short_name_correct [114; 46; 97] [99] _ _ _)); [done|done|].
  rewrite list_elem_of_singleton. done.
Defined.

Lemma next_short_name_counts_witness :
  next_short_name (tailed [65; 66; 67; 68; 69; 70; 71; 72] [84; 88; 84] 99) =
  Ok (Some [65; 66; 67; 68; 126; 49; 48; 48; 84; 88; 84]).
Proof.
  refine (proj1 (proj2 (next_short_name_counts [65; 66; 67; 68; 69; 70; 71; 72] [84; 88; 84] 99
    _ _ _ _ _ _))); try done; try (simpl; lia); unfold ch_space, ch_tilde;
    rewrite ?not_elem_of_cons; split_and!; try lia; apply not_elem_of_nil.
Defined.
