(* ===== verification/RedBlackTree.v ===== *)
(** Kernel/Common/RedBlackTree.h: the red-black tree under [Set], [MultiSet] and [Map], at
    the level of its nodes and pointers.  The nodes of a tree are a finite map from
    addresses; a read or write through a null or freed pointer faults.  The tree's embedded
    sentinel [m_super_root] has its own address, no parent, and keeps the leftmost and the
    rightmost node.  Comparators are a boolean function [lt] on values; a search takes its
    key as two tests, [below x] for [x < key] and [above x] for [key < x], so that it covers
    transparent comparators. *)
From stdpp Require Import gmap.
From S2P Require Import Prelude.

(** ** Nodes *)

Inductive ptr := null | super | at_ (a : positive).

#[export] Instance ptr_eq_dec : EqDecision ptr.
Proof. solve_decision. Defined.

(** [Kernel/Common/RedBlackTree.h:354-357] Color *)
Inductive Color := RED | BLACK.

#[export] Instance Color_eq_dec : EqDecision Color.
Proof. solve_decision. Defined.

(** [Kernel/Common/RedBlackTree.h:345-359] ValueNode, with the links of Node (274-276) *)
Record vnode (A : Type) := Node_ {
  parent : ptr;
  left : ptr;
  right : ptr;
  color : Color;
  value : A;
}.
Arguments Node_ {A} _ _ _ _ _.
Arguments parent {A} _.
Arguments left {A} _.
Arguments right {A} _.
Arguments color {A} _.
Arguments value {A} _.

(** [Kernel/Common/RedBlackTree.h:1230-1233] the fields of RedBlackTree; [m_size] counts
    the live nodes, which are fewer than the addresses *)
Record rbtree (A : Type) := RBTree {
  heap : gmap positive (vnode A);
  m_root : ptr;
  super_left : ptr;
  super_right : ptr;
  m_size : Z;
}.
Arguments RBTree {A} _ _ _ _ _.
Arguments heap {A} _.
Arguments m_root {A} _.
Arguments super_left {A} _.
Arguments super_right {A} _.
Arguments m_size {A} _.

Section code.
Context {A : Type} (lt : A -> A -> bool).
Implicit Types (s : rbtree A) (p q node : ptr) (n : vnode A).

Definition ptr_eq (p q : ptr) : bool := bool_decide (p = q).
Definition null_tree : rbtree A := RBTree ∅ null null null 0.

(** *** Accesses *)

Definition with_heap s h : rbtree A := RBTree h (m_root s) (super_left s) (super_right s) (m_size s).
Definition with_root s p : rbtree A := RBTree (heap s) p (super_left s) (super_right s) (m_size s).
Definition with_super_left s p : rbtree A := RBTree (heap s) (m_root s) p (super_right s) (m_size s).
Definition with_super_right s p : rbtree A := RBTree (heap s) (m_root s) (super_left s) p (m_size s).
Definition with_size s k : rbtree A := RBTree (heap s) (m_root s) (super_left s) (super_right s) k.

(** The node a pointer to a [ValueNode] designates. *)
Definition node_at s p : result (vnode A) :=
  match p with
  | at_ a => match heap s !! a with Some n => Ok n | None => Fault OutOfBounds end
  | _ => Fault OutOfBounds
  end.

Definition get_parent s p : result ptr :=
  match p with super => Ok null | _ => n ← node_at s p; Ok (parent n) end.
Definition get_left s p : result ptr :=
  match p with super => Ok (super_left s) | _ => n ← node_at s p; Ok (left n) end.
Definition get_right s p : result ptr :=
  match p with super => Ok (super_right s) | _ => n ← node_at s p; Ok (right n) end.
Definition get_color s p : result Color := n ← node_at s p; Ok (color n).
Definition get_value s p : result A := n ← node_at s p; Ok (value n).

Definition update s p (f : vnode A -> vnode A) : result (rbtree A) :=
  match p with
  | at_ a =>
    match heap s !! a with
    | Some n => Ok (with_heap s (<[a := f n]> (heap s)))
    | None => Fault OutOfBounds
    end
  | _ => Fault OutOfBounds
  end.

Definition set_parent s p q : result (rbtree A) :=
  update s p (fun n => Node_ q (left n) (right n) (color n) (value n)).
Definition set_left s p q : result (rbtree A) :=
  match p with
  | super => Ok (with_super_left s q)
  | _ => update s p (fun n => Node_ (parent n) q (right n) (color n) (value n))
  end.
Definition set_right s p q : result (rbtree A) :=
  match p with
  | super => Ok (with_super_right s q)
  | _ => update s p (fun n => Node_ (parent n) (left n) q (color n) (value n))
  end.
Definition set_color s p c : result (rbtree A) :=
  update s p (fun n => Node_ (parent n) (left n) (right n) c (value n)).

(** [if (p) p->parent = q;] *)
Definition set_parent_if s p q : result (rbtree A) :=
  if ptr_eq p null then mret s else set_parent s p q.

(** [new ValueNode(...)] at an address that is not in use, and [delete]. *)
Definition new_node s n : rbtree A * ptr :=
  let a := fresh (dom (heap s)) in (with_heap s (<[a := n]> (heap s)), at_ a).
Definition delete_node s p : result (rbtree A) :=
  match p with
  | at_ a =>
    match heap s !! a with
    | Some _ => Ok (with_heap s (delete a (heap s)))
    | None => Fault OutOfBounds
    end
  | _ => Fault OutOfBounds
  end.

(** [Kernel/Common/RedBlackTree.h:340-340] is_null *)
Definition is_null s p : result bool := q ← get_parent s p; mret (ptr_eq q null).

(** [Kernel/Common/RedBlackTree.h:278-286] is_left_child, is_right_child *)
Definition is_left_child s p : result bool :=
  q ← get_parent s p;
  if ptr_eq q null then mret true
  else
    nu ← is_null s q;
    if (nu : bool) then mret true
    else l ← get_left s q; mret (ptr_eq l p).
Definition is_right_child s p : result bool := b ← is_left_child s p; mret (negb b).

(** [Kernel/Common/RedBlackTree.h:288-294] grandparent *)
Definition grandparent s p : result ptr :=
  q ← get_parent s p;
  if ptr_eq q null then mret null
  else nu ← is_null s q; if (nu : bool) then mret null else get_parent s q.

(** [Kernel/Common/RedBlackTree.h:296-309] aunt *)
Definition aunt s p : result ptr :=
  g ← grandparent s p;
  if ptr_eq g null then mret null
  else
    q ← get_parent s p;
    _ ← ASSERT (negb (ptr_eq q null));
    b ← is_left_child s q;
    if (b : bool) then get_right s g else get_left s g.

(** [Kernel/Common/RedBlackTree.h:311-316] Position *)
Inductive Position := LEFT_LEFT | LEFT_RIGHT | RIGHT_LEFT | RIGHT_RIGHT.

(** [Kernel/Common/RedBlackTree.h:318-328] position_with_respect_to_grandparent *)
Definition position_with_respect_to_grandparent s p : result Position :=
  left_child ← is_left_child s p;
  q ← get_parent s p;
  _ ← ASSERT (negb (ptr_eq q null));
  b ← is_left_child s q;
  mret (if (b : bool) then if (left_child : bool) then LEFT_LEFT else LEFT_RIGHT
        else if (left_child : bool) then RIGHT_LEFT else RIGHT_RIGHT).

(** [Kernel/Common/RedBlackTree.h:330-338] sibling *)
Definition sibling s p : result ptr :=
  q ← get_parent s p;
  _ ← ASSERT (negb (ptr_eq q null));
  b ← is_left_child s p;
  if (b : bool) then get_right s q else get_left s q.

(** [Kernel/Common/RedBlackTree.h:364-365] left_child_color, right_child_color, and the
    colour of a node that may be missing *)
Definition color_or_black s p : result Color :=
  if ptr_eq p null then mret BLACK else get_color s p.
Definition left_child_color s p : result Color := l ← get_left s p; color_or_black s l.
Definition right_child_color s p : result Color := r ← get_right s p; color_or_black s r.

(** [Kernel/Common/RedBlackTree.h:367-380] is_aunt_black, is_aunt_red *)
Definition is_aunt_black s p : result bool :=
  a ← aunt s p;
  if ptr_eq a null then mret true else c ← get_color s a; mret (bool_decide (c = BLACK)).
Definition is_aunt_red s p : result bool := b ← is_aunt_black s p; mret (negb b).

(** *** Iteration *)

(** A bound on every walk: the number of nodes, and one. *)
Definition walk s : nat := S (size (heap s)).

(** [Kernel/Common/RedBlackTree.h:20-22] going left as far as possible *)
Fixpoint left_most_of (fuel : nat) s node : result ptr :=
  match fuel with
  | O => Fault OutOfFuel
  | S fuel => l ← get_left s node; if ptr_eq l null then mret node else left_most_of fuel s l
  end.

(** [Kernel/Common/RedBlackTree.h:29-32] going up from a right child *)
Fixpoint climb_right (fuel : nat) s node p : result ptr :=
  match fuel with
  | O => Fault OutOfFuel
  | S fuel =>
    nu ← is_null s p;
    if (nu : bool) then mret p
    else
      b ← is_right_child s node;
      if (b : bool) then q ← get_parent s p; climb_right fuel s p q else mret p
  end.

(** [Kernel/Common/RedBlackTree.h:11-35] inorder_successor_of *)
Definition inorder_successor_of s node : result ptr :=
  _ ← ASSERT (negb (ptr_eq node null));
  nu ← is_null s node;
  _ ← ASSERT (negb nu);
  r ← get_right s node;
  if negb (ptr_eq r null) then left_most_of (walk s) s r
  else p ← get_parent s node; climb_right (walk s) s node p.

(** [Kernel/Common/RedBlackTree.h:46-48] going right as far as possible *)
Fixpoint right_most_of (fuel : nat) s node : result ptr :=
  match fuel with
  | O => Fault OutOfFuel
  | S fuel => r ← get_right s node; if ptr_eq r null then mret node else right_most_of fuel s r
  end.

(** [Kernel/Common/RedBlackTree.h:55-58] going up from a left child *)
Fixpoint climb_left (fuel : nat) s node p : result ptr :=
  match fuel with
  | O => Fault OutOfFuel
  | S fuel =>
    nu ← is_null s p;
    if (nu : bool) then mret p
    else
      b ← is_left_child s node;
      if (b : bool) then q ← get_parent s p; climb_left fuel s p q else mret p
  end.

(** [Kernel/Common/RedBlackTree.h:37-61] inorder_predecessor_of *)
Definition inorder_predecessor_of s node : result ptr :=
  _ ← ASSERT (negb (ptr_eq node null));
  nu ← is_null s node;
  _ ← ASSERT (negb nu);
  l ← get_left s node;
  if negb (ptr_eq l null) then right_most_of (walk s) s l
  else p ← get_parent s node; climb_left (walk s) s node p.

(** [Kernel/Common/RedBlackTree.h:77-81] operator* of an iterator *)
Definition it_deref s it : result A :=
  _ ← ASSERT (negb (ptr_eq it null));
  nu ← is_null s it;
  _ ← ASSERT (negb nu);
  get_value s it.

(** [Kernel/Common/RedBlackTree.h:83-90] operator++ *)
Definition it_next s it : result ptr :=
  _ ← ASSERT (negb (ptr_eq it null));
  nu ← is_null s it;
  _ ← ASSERT (negb nu);
  inorder_successor_of s it.

(** [Kernel/Common/RedBlackTree.h:103-112] operator--, with decrement (145-154) *)
Definition it_prev s it : result ptr :=
  _ ← ASSERT (negb (ptr_eq it null));
  nu ← is_null s it;
  if (nu : bool) then get_right s it else inorder_predecessor_of s it.

(** [Kernel/Common/RedBlackTree.h:651-664] super_root_as_value_node, left_most_node,
    right_most_node *)
Definition left_most_node s : ptr := if m_size s =? 0 then super else super_left s.
Definition right_most_node s : ptr := if m_size s =? 0 then super else super_right s.

(** [Kernel/Common/RedBlackTree.h:386-394] begin, end *)
Definition rb_begin s : ptr := left_most_node s.
Definition rb_end : ptr := super.

(** *** Searches *)

(** [Kernel/Common/RedBlackTree.h:740-747] the loop of upper_bound_node *)
Fixpoint upper_loop (fuel : nat) s (above : A -> bool) node result_ : result ptr :=
  match fuel with
  | O => Fault OutOfFuel
  | S fuel =>
    if ptr_eq node null then mret result_
    else
      v ← get_value s node;
      if above v then l ← get_left s node; upper_loop fuel s above l node
      else r ← get_right s node; upper_loop fuel s above r result_
  end.

(** [Kernel/Common/RedBlackTree.h:731-750] upper_bound_node *)
Definition upper_bound_node s (above : A -> bool) : result ptr :=
  if ptr_eq (m_root s) null then mret super
  else upper_loop (walk s) s above (m_root s) super.

(** [Kernel/Common/RedBlackTree.h:761-768] the loop of lower_bound_node *)
Fixpoint lower_loop (fuel : nat) s (below : A -> bool) node result_ : result ptr :=
  match fuel with
  | O => Fault OutOfFuel
  | S fuel =>
    if ptr_eq node null then mret result_
    else
      v ← get_value s node;
      if below v then r ← get_right s node; lower_loop fuel s below r result_
      else l ← get_left s node; lower_loop fuel s below l node
  end.

(** [Kernel/Common/RedBlackTree.h:752-771] lower_bound_node *)
Definition lower_bound_node s (below : A -> bool) : result ptr :=
  if m_size s =? 0 then mret super
  else lower_loop (walk s) s below (m_root s) super.

(** [Kernel/Common/RedBlackTree.h:781-789] the loop of find_node *)
Fixpoint rb_find_loop (fuel : nat) s (below above : A -> bool) node : result ptr :=
  match fuel with
  | O => Fault OutOfFuel
  | S fuel =>
    if ptr_eq node null then mret super
    else
      v ← get_value s node;
      if below v then r ← get_right s node; rb_find_loop fuel s below above r
      else if above v then l ← get_left s node; rb_find_loop fuel s below above l
      else mret node
  end.

(** [Kernel/Common/RedBlackTree.h:773-792] find_node *)
Definition find_node s (below above : A -> bool) : result ptr :=
  if m_size s =? 0 then mret super
  else rb_find_loop (walk s) s below above (m_root s).

(** [Kernel/Common/RedBlackTree.h:504-521] get and contains *)
Definition rb_get s (below above : A -> bool) : result A :=
  p ← find_node s below above;
  _ ← ASSERT (negb (ptr_eq p super));
  get_value s p.
Definition rb_contains s (below above : A -> bool) : result bool :=
  p ← find_node s below above; mret (negb (ptr_eq p super)).

(** *** Rotations *)

(** [Kernel/Common/RedBlackTree.h:1183-1190] a child in the place of [node] under
    [node]'s parent [p], which is [m_root] for the root *)
Definition replace_child s node p child : result (rbtree A) :=
  if negb (ptr_eq p super) then
    b ← is_left_child s node;
    if (b : bool) then set_left s p child else set_right s p child
  else mret (with_root s child).

(** [Kernel/Common/RedBlackTree.h:1168-1194] rotate_left *)
Definition rotate_left s node : result (rbtree A) :=
  _ ← ASSERT (negb (ptr_eq node null));
  nu ← is_null s node;
  _ ← ASSERT (negb nu);
  p ← get_parent s node;
  right_child ← get_right s node;
  b ← get_left s right_child;
  s ← set_right s node b;
  s ← set_parent_if s b node;
  s ← set_parent s right_child p;
  s ← replace_child s node p right_child;
  s ← set_left s right_child node;
  set_parent s node right_child.

(** [Kernel/Common/RedBlackTree.h:1196-1222] rotate_right *)
Definition rotate_right s node : result (rbtree A) :=
  _ ← ASSERT (negb (ptr_eq node null));
  nu ← is_null s node;
  _ ← ASSERT (negb nu);
  p ← get_parent s node;
  left_child ← get_left s node;
  b ← get_right s left_child;
  s ← set_left s node b;
  s ← set_parent_if s b node;
  s ← set_parent s left_child p;
  s ← replace_child s node p left_child;
  s ← set_right s left_child node;
  set_parent s node left_child.

(** *** Insertion *)

(** [Kernel/Common/RedBlackTree.h:1136-1160] the rotations and colours of one step of
    fix_insertion_violations_if_needed *)
Definition insertion_rotation s node g : result (rbtree A) :=
  position ← position_with_respect_to_grandparent s node;
  let recolor s node :=
    s ← set_color s g RED;
    q ← get_parent s node;
    s ← set_color s q BLACK;
    set_color s node RED in
  match position with
  | LEFT_RIGHT =>
    q ← get_parent s node;
    s ← rotate_left s q;
    node ← get_left s node;
    s ← recolor s node;
    rotate_right s g
  | LEFT_LEFT => s ← recolor s node; rotate_right s g
  | RIGHT_LEFT =>
    q ← get_parent s node;
    s ← rotate_right s q;
    node ← get_right s node;
    s ← recolor s node;
    rotate_left s g
  | RIGHT_RIGHT => s ← recolor s node; rotate_left s g
  end.

(** [Kernel/Common/RedBlackTree.h:1120-1165] the loop of
    fix_insertion_violations_if_needed *)
Fixpoint fix_insertion_loop (fuel : nat) s node : result (rbtree A) :=
  match fuel with
  | O => Fault OutOfFuel
  | S fuel =>
    nu ← is_null s node;
    if (nu : bool) || ptr_eq node (m_root s) then mret s
    else
      q ← get_parent s node;
      qc ← get_color s q;
      nc ← get_color s node;
      if bool_decide (qc = BLACK) || bool_decide (nc = BLACK) then mret s
      else
        g ← grandparent s node;
        red ← is_aunt_red s node;
        s ← (if (red : bool) then
               _ ← ASSERT (negb (ptr_eq g null));
               s ← (if negb (ptr_eq g (m_root s)) then set_color s g RED else mret s);
               l ← get_left s g;
               s ← set_color s l BLACK;
               r ← get_right s g;
               set_color s r BLACK
             else insertion_rotation s node g);
        _ ← ASSERT (negb (ptr_eq g null));
        fix_insertion_loop fuel s g
  end.

(** [Kernel/Common/RedBlackTree.h:1115-1166] fix_insertion_violations_if_needed *)
Definition fix_insertion_violations_if_needed s node : result (rbtree A) :=
  _ ← ASSERT (negb (ptr_eq node null));
  nu ← is_null s node;
  _ ← ASSERT (negb nu);
  fix_insertion_loop (walk s) s node.

(** [Kernel/Common/RedBlackTree.h:433-439] smaller_than_left *)
Definition smaller_than_left s v : result bool :=
  if ptr_eq (super_left s) null then mret true
  else l ← get_value s (super_left s); mret (lt v l).

(** [Kernel/Common/RedBlackTree.h:441-447] greater_than_right *)
Definition greater_than_right s v : result bool :=
  if ptr_eq (super_right s) null then mret true
  else r ← get_value s (super_right s); mret (lt r v).

(** [Kernel/Common/RedBlackTree.h:430-455] the leftmost and rightmost nodes after
    [new_node], with value [v], came in *)
Definition update_extremes s new_node v : result (rbtree A) :=
  smaller ← smaller_than_left s v;
  let s := if (smaller : bool) then with_super_left s new_node else s in
  greater ← greater_than_right s v;
  let s := if (greater : bool) then with_super_right s new_node else s in
  if negb smaller && negb greater then
    l ← get_value s (super_left s);
    let s := if negb (lt l v) then with_super_left s new_node else s in
    r ← get_value s (super_right s);
    mret (if negb (lt v r) then with_super_right s new_node else s)
  else mret s.

(** [Kernel/Common/RedBlackTree.h:467-487] the descent to the place of [new_node] *)
Fixpoint descend (fuel : nat) s current new_node v : result (rbtree A) :=
  match fuel with
  | O => Fault OutOfFuel
  | S fuel =>
    c ← get_value s current;
    if lt c v then
      r ← get_right s current;
      if ptr_eq r null then s ← set_right s current new_node; set_parent s new_node current
      else descend fuel s r new_node v
    else
      l ← get_left s current;
      if ptr_eq l null then s ← set_left s current new_node; set_parent s new_node current
      else descend fuel s l new_node v
  end.

(** [Kernel/Common/RedBlackTree.h:416-493] emplace: the tree, the node, whether it is new *)
Definition rb_emplace (allow_duplicates : bool) s v : result (rbtree A * ptr * bool) :=
  location ←
    (if negb allow_duplicates then find_node s (fun x => lt x v) (fun x => lt v x)
     else mret super);
  if negb (ptr_eq location super) then mret (s, location, false)
  else
    let '(s, new_node) := new_node s (Node_ null null null RED v) in
    s ← update_extremes s new_node v;
    if ptr_eq (m_root s) null then
      let s := with_root s new_node in
      s ← set_parent s (m_root s) super;
      s ← set_color s (m_root s) BLACK;
      mret (with_size s 1, new_node, true)
    else
      s ← descend (walk s) s (m_root s) new_node v;
      s ← fix_insertion_violations_if_needed s new_node;
      mret (with_size s (m_size s + 1), new_node, true).

(** *** Removal *)

(** [Kernel/Common/RedBlackTree.h:1000-1111] the cases of fix_double_black, which recurse
    through [rec]: [p] is the parent, [sib] the sibling *)
Definition double_black_cases (rec : rbtree A -> ptr -> result (rbtree A)) s node p sib
    (parent_color sibling_color sibling_left_child_color sibling_right_child_color : Color)
    (on_left : bool) : result (rbtree A) :=
  match parent_color, sibling_color, sibling_left_child_color, sibling_right_child_color with
  | BLACK, RED, BLACK, BLACK =>
    s ← set_color s p RED;
    s ← set_color s sib BLACK;
    s ← (if on_left then rotate_left s p else rotate_right s p);
    rec s node
  | BLACK, BLACK, BLACK, BLACK =>
    s ← (if ptr_eq sib null then mret s else set_color s sib RED);
    s ← set_color s node BLACK;
    rec s p
  | RED, BLACK, BLACK, BLACK =>
    s ← set_color s p BLACK;
    s ← (if ptr_eq sib null then mret s else set_color s sib RED);
    set_color s node BLACK
  | _, _, _, _ =>
    match on_left, sibling_color, sibling_left_child_color, sibling_right_child_color with
    | true, BLACK, RED, BLACK =>
      s ← set_color s sib RED;
      l ← get_left s sib;
      s ← set_color s l BLACK;
      s ← rotate_right s sib;
      rec s node
    | false, BLACK, BLACK, RED =>
      s ← set_color s sib RED;
      r ← get_right s sib;
      s ← set_color s r BLACK;
      s ← rotate_left s sib;
      rec s node
    | true, BLACK, _, RED =>
      s ← set_color s sib parent_color;
      s ← set_color s p BLACK;
      r ← get_right s sib;
      s ← set_color s r BLACK;
      s ← set_color s node BLACK;
      rotate_left s p
    | false, BLACK, RED, _ =>
      s ← set_color s sib parent_color;
      s ← set_color s p BLACK;
      l ← get_left s sib;
      s ← set_color s l BLACK;
      s ← set_color s node BLACK;
      rotate_right s p
    | _, _, _, _ => Fault AssertionFailed
    end
  end.

(** [Kernel/Common/RedBlackTree.h:980-1112] fix_double_black *)
Fixpoint fix_double_black (fuel : nat) s node : result (rbtree A) :=
  match fuel with
  | O => Fault OutOfFuel
  | S fuel =>
    _ ← ASSERT (negb (ptr_eq node null));
    nu ← is_null s node;
    _ ← ASSERT (negb nu);
    if ptr_eq node (m_root s) then set_color s node BLACK
    else
      p ← get_parent s node;
      _ ← ASSERT (negb (ptr_eq p null));
      sib ← sibling s node;
      sibling_color ← color_or_black s sib;
      sibling_left_child_color ← (if ptr_eq sib null then mret BLACK else left_child_color s sib);
      sibling_right_child_color ← (if ptr_eq sib null then mret BLACK else right_child_color s sib);
      parent_color ← get_color s p;
      on_left ← is_left_child s node;
      double_black_cases (fix_double_black fuel) s node p sib parent_color sibling_color
        sibling_left_child_color sibling_right_child_color on_left
  end.

(** [Kernel/Common/RedBlackTree.h:966-977] fix_removal_violations_if_needed *)
Definition fix_removal_violations_if_needed s child (deleted_node_color : Color)
  : result (rbtree A) :=
  child_color ← color_or_black s child;
  if bool_decide (child_color = RED) || bool_decide (deleted_node_color = RED) then
    if ptr_eq child null then mret s else set_color s child BLACK
  else fix_double_black (S (S (walk s))) s child.

(** [Kernel/Common/RedBlackTree.h:896-901] the link of [p] that held [node] *)
Definition set_child s p (is_left : bool) q : result (rbtree A) :=
  if is_left then set_left s p q else set_right s p q.

(** [Kernel/Common/RedBlackTree.h:863-964] swap_node_with_successor *)
Definition swap_node_with_successor s node successor : result (rbtree A) :=
  _ ← ASSERT (negb (ptr_eq node null));
  nu ← is_null s node;
  _ ← ASSERT (negb nu);
  _ ← ASSERT (negb (ptr_eq successor null));
  nu ← is_null s successor;
  _ ← ASSERT (negb nu);
  node_parent ← get_parent s node;
  node_right ← get_right s node;
  node_left ← get_left s node;
  node_color ← get_color s node;
  node_is_left_child ← is_left_child s node;
  successor_parent ← get_parent s successor;
  successor_right ← get_right s successor;
  successor_left ← get_left s successor;
  successor_color ← get_color s successor;
  successor_is_left_child ← is_left_child s successor;
  s ← (if ptr_eq successor_parent node then
         s ← set_parent s node successor;
         s ← set_right s node successor_right;
         s ← set_left s node successor_left;
         s ← set_color s node successor_color;
         s ← set_parent s successor node_parent;
         s ← set_right s successor (if (successor_is_left_child : bool) then node_right else node);
         s ← set_left s successor (if (successor_is_left_child : bool) then node else node_left);
         s ← set_color s successor node_color;
         s ← set_parent_if s successor_right node;
         s ← (if negb (ptr_eq node (m_root s)) then set_child s node_parent node_is_left_child successor
              else mret s);
         set_parent_if s node_left successor
       else if ptr_eq node_parent successor then
         s ← set_parent s node successor_parent;
         s ← set_right s node (if (node_is_left_child : bool) then successor_right else successor);
         s ← set_left s node (if (node_is_left_child : bool) then successor else successor_left);
         s ← set_color s node successor_color;
         s ← set_parent s successor node;
         s ← set_right s successor node_right;
         s ← set_left s successor node_left;
         s ← set_color s successor node_color;
         s ← set_parent_if s node_right node;
         s ← set_parent_if s node_left node;
         s ← (if negb (ptr_eq successor (m_root s))
              then set_child s successor_parent successor_is_left_child node else mret s);
         set_parent_if s successor_left node
       else
         s ← set_parent s node successor_parent;
         s ← set_right s node successor_right;
         s ← set_left s node successor_left;
         s ← set_color s node successor_color;
         s ← set_parent s successor node_parent;
         s ← set_right s successor node_right;
         s ← set_left s successor node_left;
         s ← set_color s successor node_color;
         s ← set_parent_if s successor_right node;
         s ← set_child s successor_parent successor_is_left_child node;
         s ← set_parent_if s node_right successor;
         s ← set_parent_if s node_left successor;
         if negb (ptr_eq node (m_root s)) then set_child s node_parent node_is_left_child successor
         else mret s);
  mret (if ptr_eq node (m_root s) then with_root s successor else s).

(** [Kernel/Common/RedBlackTree.h:801-854] remove_node for a node with a missing child *)
Definition remove_outer_node s node : result (rbtree A) :=
  l ← get_left s node;
  r ← get_right s node;
  let child := if negb (ptr_eq l null) then l else r in
  if ptr_eq node (m_root s) then
    s ← delete_node s node;
    let s := with_root s child in
    s ← (if negb (ptr_eq child null) then
           s ← set_parent s child super; set_color s child BLACK
         else mret s);
    mret (with_size s (if negb (ptr_eq child null) then 1 else 0))
  else
    p ← get_parent s node;
    c ← get_color s node;
    is_left ← is_left_child s node;
    s ← (if negb (ptr_eq child null) then
           s ← set_child s p is_left child;
           s ← set_parent s child p;
           delete_node s node
         else set_color s node BLACK);
    let s := with_size s (m_size s - 1) in
    s ← fix_removal_violations_if_needed s (if negb (ptr_eq child null) then child else node) c;
    if ptr_eq child null then
      is_left ← is_left_child s node;
      p ← get_parent s node;
      s ← set_child s p is_left null;
      delete_node s node
    else mret s.

(** [Kernel/Common/RedBlackTree.h:794-861] remove_node: it recurses after swapping a node
    that has both children with its successor *)
Fixpoint remove_node (fuel : nat) s node : result (rbtree A) :=
  match fuel with
  | O => Fault OutOfFuel
  | S fuel =>
    if ptr_eq node null then mret s
    else
      nu ← is_null s node;
      _ ← ASSERT (negb nu);
      l ← get_left s node;
      r ← get_right s node;
      if ptr_eq l null || ptr_eq r null then remove_outer_node s node
      else
        successor ← inorder_successor_of s node;
        s ← swap_node_with_successor s node successor;
        remove_node fuel s node
  end.

(** [Kernel/Common/RedBlackTree.h:523-539] remove(ConstIterator) *)
Definition rb_remove_at s node : result (rbtree A) :=
  _ ← ASSERT (negb (ptr_eq node null) && negb (ptr_eq node super));
  s ← (if ptr_eq node (m_root s) && (m_size s =? 1) then
         mret (with_super_right (with_super_left s null) null)
       else if ptr_eq node (left_most_node s) then
         q ← inorder_successor_of s node; mret (with_super_left s q)
       else if ptr_eq node (right_most_node s) then
         q ← inorder_predecessor_of s node; mret (with_super_right s q)
       else mret s);
  remove_node 2 s node.

(** [Kernel/Common/RedBlackTree.h:541-549] remove(KeyType) *)
Definition rb_remove s (below above : A -> bool) : result (rbtree A) :=
  p ← find_node s below above;
  if ptr_eq p super then mret s else rb_remove_at s p.

(** *** Clearing and copying *)

(** [Kernel/Common/RedBlackTree.h:712-729] recursive_clear_all *)
Fixpoint recursive_clear_all (fuel : nat) s node : result (rbtree A) :=
  match fuel with
  | O => Fault OutOfFuel
  | S fuel =>
    _ ← ASSERT (negb (ptr_eq node null));
    nu ← is_null s node;
    _ ← ASSERT (negb nu);
    l ← get_left s node;
    r ← get_right s node;
    if ptr_eq l null && ptr_eq r null then delete_node s node
    else
      s ← (if negb (ptr_eq l null) then recursive_clear_all fuel s l else mret s);
      r ← get_right s node;
      s ← (if negb (ptr_eq r null) then recursive_clear_all fuel s r else mret s);
      delete_node s node
  end.

(** [Kernel/Common/RedBlackTree.h:631-643] clear *)
Definition rb_clear s : result (rbtree A) :=
  if m_size s =? 0 then mret s
  else
    s ← recursive_clear_all (walk s) s (m_root s);
    mret (RBTree (heap s) null null null 0).

(** [Kernel/Common/RedBlackTree.h:690-710] recursive_copy_all: [o] is the tree copied
    from; the copy of a node has its links, which are then replaced *)
Fixpoint recursive_copy_all (fuel : nat) (o : rbtree A) s new_parent node_to_be_copied
  : result (rbtree A) :=
  match fuel with
  | O => Fault OutOfFuel
  | S fuel =>
    _ ← ASSERT (negb (ptr_eq new_parent null));
    _ ← ASSERT (negb (ptr_eq node_to_be_copied null));
    nu ← is_null s new_parent;
    _ ← ASSERT (negb nu);
    nu ← is_null o node_to_be_copied;
    _ ← ASSERT (negb nu);
    n ← node_at o node_to_be_copied;
    let '(s, child) := new_node s n in
    b ← is_left_child o node_to_be_copied;
    s ← set_child s new_parent b child;
    s ← set_parent s child new_parent;
    s ← (if negb (ptr_eq (left n) null) then recursive_copy_all fuel o s child (left n) else mret s);
    if negb (ptr_eq (right n) null) then recursive_copy_all fuel o s child (right n) else mret s
  end.

(** [Kernel/Common/RedBlackTree.h:666-688] become, for a copy of [o]; [find_node] is
    given the value to look for *)
Definition rb_become s (o : rbtree A) : result (rbtree A) :=
  s ← rb_clear s;
  if m_size o =? 0 then mret s
  else
    n ← node_at o (m_root o);
    let '(s, root) := new_node s n in
    let s := with_root s root in
    s ← set_parent s root super;
    let s := with_size s (m_size o) in
    s ← (if negb (ptr_eq (left n) null) then recursive_copy_all (walk o) o s root (left n) else mret s);
    s ← (if negb (ptr_eq (right n) null) then recursive_copy_all (walk o) o s root (right n) else mret s);
    lv ← get_value o (super_left o);
    l ← find_node s (fun x => lt x lv) (fun x => lt lv x);
    let s := with_super_left s l in
    rv ← get_value o (super_right o);
    r ← find_node s (fun x => lt x rv) (fun x => lt rv x);
    let s := with_super_right s r in
    _ ← ASSERT (negb (ptr_eq l super));
    _ ← ASSERT (negb (ptr_eq r super));
    mret s.

End code.

Arguments node_at : simpl never.
Arguments get_parent : simpl never.
Arguments get_left : simpl never.
Arguments get_right : simpl never.
Arguments get_color : simpl never.
Arguments get_value : simpl never.
Arguments update : simpl never.
Arguments set_parent : simpl never.
Arguments set_left : simpl never.
Arguments set_right : simpl never.
Arguments set_color : simpl never.
Arguments set_parent_if : simpl never.
Arguments new_node : simpl never.
Arguments delete_node : simpl never.
Arguments is_null : simpl never.
Arguments ptr_eq : simpl never.
Arguments walk : simpl never.
