(* ===== verification/RedBlackTreeRep.v ===== *)
(** The functional view of RedBlackTree.v: trees whose nodes carry their addresses, the
    nodes such a tree occupies, contexts for a focused subtree, and the rules that run one
    access or one rotation of the pointer code on them. *)
From stdpp Require Import gmap.
From S2P Require Import Prelude RedBlackTree.

(** ** Addressed trees *)

Inductive tree (A : Type) :=
  | Leaf
  | Node (c : Color) (l : tree A) (a : positive) (v : A) (r : tree A).
Arguments Leaf {A}.
Arguments Node {A} _ _ _ _ _.

(** A node above the focus: the side the focus is on, the node, the other subtree. *)
Inductive side := Lft | Rgt.
Definition is_lft (d : side) : bool := match d with Lft => true | Rgt => false end.
Record frame (A : Type) := Frame {
  fside : side;
  fcolor : Color;
  faddr : positive;
  fvalue : A;
  fother : tree A;
}.
Arguments Frame {A} _ _ _ _ _.
Arguments fside {A} _.
Arguments fcolor {A} _.
Arguments faddr {A} _.
Arguments fvalue {A} _.
Arguments fother {A} _.

Section rep.
Context {A : Type}.
Implicit Types (t u l r : tree A) (k : list (frame A)) (f : frame A) (s : rbtree A) (n : vnode A).
Implicit Types (a b x y : positive).

Definition root t : ptr := match t with Leaf => null | Node _ _ a _ _ => at_ a end.

(** The node with child [t] on side [d] and [u] on the other. *)
Definition mk (d : side) (c : Color) t a (v : A) u : tree A :=
  match d with Lft => Node c t a v u | Rgt => Node c u a v t end.

Definition fill f t : tree A := mk (fside f) (fcolor f) t (faddr f) (fvalue f) (fother f).

Fixpoint plug k t : tree A :=
  match k with [] => t | f :: k => plug k (fill f t) end.

(** The parent of the focus. *)
Definition top k : ptr := match k with [] => super | f :: _ => at_ (faddr f) end.

(** The in-order sequence of nodes. *)
Fixpoint nodes t : list (positive * A) :=
  match t with Leaf => [] | Node _ l a v r => nodes l ++ (a, v) :: nodes r end.

Fixpoint before k : list (positive * A) :=
  match k with
  | [] => []
  | f :: k => before k ++ match fside f with Lft => [] | Rgt => nodes (fother f) ++ [(faddr f, fvalue f)] end
  end.
Fixpoint after k : list (positive * A) :=
  match k with
  | [] => []
  | f :: k => match fside f with Lft => (faddr f, fvalue f) :: nodes (fother f) | Rgt => [] end ++ after k
  end.

Lemma nodes_plug k t : nodes (plug k t) = before k ++ nodes t ++ after k.
Proof.
  revert t. induction k as [|f k IH]; intros t; simpl; [by rewrite app_nil_r|].
  rewrite IH. unfold fill. destruct (fside f); simpl; rewrite <- !app_assoc; [done|].
  by rewrite <- app_comm_cons.
Qed.

Lemma plug_app k k' t : plug (k ++ k') t = plug k' (plug k t).
Proof. revert t. induction k as [|f k IH]; intros t; simpl; [done|]. apply IH. Qed.

Lemma root_fill f t : root (fill f t) = at_ (faddr f).
Proof. unfold fill. by destruct (fside f). Qed.

Lemma root_plug k t t' : root t = root t' -> root (plug k t) = root (plug k t').
Proof. revert t t'. induction k as [|f k IH]; simpl; intros; [done|]. apply IH. by rewrite !root_fill. Qed.

Lemma root_plug_cons f k t t' : root (plug (f :: k) t) = root (plug (f :: k) t').
Proof. simpl. apply root_plug. by rewrite !root_fill. Qed.

(** ** The nodes of a tree *)

(** The nodes of [t], whose root has the parent [p]. *)
Fixpoint entries (p : ptr) t : list (positive * vnode A) :=
  match t with
  | Leaf => []
  | Node c l a v r => (a, Node_ p (root l) (root r) c v) :: entries (at_ a) l ++ entries (at_ a) r
  end.

Definition link (d : side) (p h o : ptr) (c : Color) (v : A) : vnode A :=
  match d with Lft => Node_ p h o c v | Rgt => Node_ p o h c v end.

(** The nodes of a context whose focus has the root [h]. *)
Fixpoint centries k (h : ptr) : list (positive * vnode A) :=
  match k with
  | [] => []
  | f :: k =>
    (faddr f, link (fside f) (top k) h (root (fother f)) (fcolor f) (fvalue f)) ::
    entries (at_ (faddr f)) (fother f) ++ centries k (at_ (faddr f))
  end.

Lemma entries_mk p d c t a v u :
  entries p (mk d c t a v u) ≡ₚ
  (a, link d p (root t) (root u) c v) :: entries (at_ a) t ++ entries (at_ a) u.
Proof. destruct d; simpl; [done|]. by rewrite (Permutation_app_comm (entries _ u)). Qed.

Lemma entries_plug k t :
  entries super (plug k t) ≡ₚ centries k (root t) ++ entries (top k) t.
Proof.
  revert t. induction k as [|f k IH]; intros t; simpl; [done|].
  rewrite IH, root_fill. unfold fill. rewrite entries_mk. solve_Permutation.
Qed.

Lemma entries_nodes p t a : a ∈ (entries p t).*1 <-> a ∈ (nodes t).*1.
Proof.
  revert p. induction t as [|c l IHl b v r IHr]; intros p; simpl; [done|].
  rewrite !fmap_app, fmap_cons, elem_of_cons, !elem_of_app, elem_of_cons, IHl, IHr. tauto.
Qed.

Lemma length_entries p t : length (entries p t) = length (nodes t).
Proof.
  revert p. induction t as [|c l IHl b v r IHr]; intros p; simpl; [done|].
  rewrite !length_app, IHl, IHr. simpl. lia.
Qed.

(** ** States *)

(** The heap holds exactly the nodes [L]. *)
Definition holds (h : gmap positive (vnode A)) (L : list (positive * vnode A)) : Prop :=
  NoDup L.*1 /\ h = list_to_map L.

(** A state: its nodes, and its other fields. *)
Record st s (L : list (positive * vnode A)) (R SL SR : ptr) (Z_ : Z) : Prop := {
  st_holds : holds (heap s) L;
  st_root : m_root s = R;
  st_left : super_left s = SL;
  st_right : super_right s = SR;
  st_size : m_size s = Z_;
}.

(** The tree [plug k t], focused on [t]. *)
Definition st_at s k t : ptr -> ptr -> Z -> Prop :=
  st s (centries k (root t) ++ entries (top k) t) (root (plug k t)).

#[global] Instance holds_Proper h : Proper ((≡ₚ) ==> iff) (holds h).
Proof.
  assert (forall L L', L ≡ₚ L' -> holds h L -> holds h L').
  { intros L L' E [HN ->]. split; [by rewrite <- E|]. by apply list_to_map_proper. }
  intros L L' E. split; [by apply H|]. apply H. by symmetry.
Qed.

#[global] Instance st_Proper s : Proper ((≡ₚ) ==> (=) ==> (=) ==> (=) ==> (=) ==> iff) (st s).
Proof.
  intros L L' E R ? <- SL ? <- SR ? <- Z_ ? <-.
  split; intros [H1 H2 H3 H4 H5]; split; try done; by rewrite E in * || by rewrite <- E in *.
Qed.

Lemma st_lookup s L R SL SR Z_ a n :
  st s L R SL SR Z_ -> (a, n) ∈ L -> heap s !! a = Some n.
Proof. intros [[HN E] _ _ _ _] Hin. rewrite E. by apply elem_of_list_to_map_1. Qed.

Lemma st_walk s L R SL SR Z_ : st s L R SL SR Z_ -> walk s = S (length L).
Proof.
  intros [[HN E] _ _ _ _]. unfold walk. rewrite E. f_equal.
  rewrite <- (length_map_to_list (list_to_map L)).
  by rewrite (map_to_list_to_map L).
Qed.

Lemma st_ne s a n b m L R SL SR Z_ : st s ((a, n) :: (b, m) :: L) R SL SR Z_ -> a <> b.
Proof.
  intros [[HN _] _ _ _ _] ->. simpl in HN. apply NoDup_cons in HN as [H _]. apply H, list_elem_of_here.
Qed.

Lemma st_update s a n L R SL SR Z_ (g : vnode A -> vnode A) :
  st s ((a, n) :: L) R SL SR Z_ ->
  exists s', update s (at_ a) g = Ok s' /\ st s' ((a, g n) :: L) R SL SR Z_.
Proof.
  intros H. unfold update. rewrite (st_lookup _ _ _ _ _ _ a n H) by apply list_elem_of_here.
  eexists. split; [done|]. destruct H as [[HN E] H2 H3 H4 H5]. split; try done.
  split; [done|]. simpl. rewrite E. simpl. by rewrite insert_insert_eq.
Qed.

Lemma st_delete s a n L R SL SR Z_ :
  st s ((a, n) :: L) R SL SR Z_ ->
  exists s', delete_node s (at_ a) = Ok s' /\ st s' L R SL SR Z_.
Proof.
  intros H. unfold delete_node. rewrite (st_lookup _ _ _ _ _ _ a n H) by apply list_elem_of_here.
  eexists. split; [done|]. destruct H as [[HN E] H2 H3 H4 H5]. simpl in HN.
  apply NoDup_cons in HN as [Ha HN]. split; try done. split; [done|]. simpl. rewrite E. simpl.
  apply delete_insert_id. by apply not_elem_of_list_to_map_1.
Qed.

Lemma st_new s n L R SL SR Z_ :
  st s L R SL SR Z_ ->
  exists s' a, new_node s n = (s', at_ a) /\ st s' ((a, n) :: L) R SL SR Z_.
Proof.
  intros [[HN E] H2 H3 H4 H5]. unfold new_node. do 2 eexists. split; [done|].
  pose proof (is_fresh (dom (heap s))) as Hf. rewrite not_elem_of_dom in Hf.
  split; try done. split; [|simpl; by rewrite E]. simpl. apply NoDup_cons. split; [|done].
  rewrite E in Hf |- *. by apply not_elem_of_list_to_map.
Qed.

(** ** Accesses *)

Section access.
Context s L R SL SR Z_ (H : st s L R SL SR Z_).

Lemma get_parent_st a n : (a, n) ∈ L -> get_parent s (at_ a) = Ok (parent n).
Proof. intros Hin. unfold get_parent, node_at. by rewrite (st_lookup _ _ _ _ _ _ _ _ H Hin). Qed.
Lemma get_left_st a n : (a, n) ∈ L -> get_left s (at_ a) = Ok (left n).
Proof. intros Hin. unfold get_left, node_at. by rewrite (st_lookup _ _ _ _ _ _ _ _ H Hin). Qed.
Lemma get_right_st a n : (a, n) ∈ L -> get_right s (at_ a) = Ok (right n).
Proof. intros Hin. unfold get_right, node_at. by rewrite (st_lookup _ _ _ _ _ _ _ _ H Hin). Qed.
Lemma get_color_st a n : (a, n) ∈ L -> get_color s (at_ a) = Ok (color n).
Proof. intros Hin. unfold get_color, node_at. by rewrite (st_lookup _ _ _ _ _ _ _ _ H Hin). Qed.
Lemma get_value_st a n : (a, n) ∈ L -> get_value s (at_ a) = Ok (value n).
Proof. intros Hin. unfold get_value, node_at. by rewrite (st_lookup _ _ _ _ _ _ _ _ H Hin). Qed.
Lemma is_null_st a n : (a, n) ∈ L -> is_null s (at_ a) = Ok (ptr_eq (parent n) null).
Proof. intros Hin. unfold is_null. by rewrite (get_parent_st _ _ Hin). Qed.
Lemma node_at_st a n : (a, n) ∈ L -> node_at s (at_ a) = Ok n.
Proof. intros Hin. unfold node_at. by rewrite (st_lookup _ _ _ _ _ _ _ _ H Hin). Qed.
End access.

Lemma set_parent_st q s a n L R SL SR Z_ :
  st s ((a, n) :: L) R SL SR Z_ ->
  exists s', set_parent s (at_ a) q = Ok s' /\
    st s' ((a, Node_ q (left n) (right n) (color n) (value n)) :: L) R SL SR Z_.
Proof. apply st_update. Qed.
Lemma set_left_st q s a n L R SL SR Z_ :
  st s ((a, n) :: L) R SL SR Z_ ->
  exists s', set_left s (at_ a) q = Ok s' /\
    st s' ((a, Node_ (parent n) q (right n) (color n) (value n)) :: L) R SL SR Z_.
Proof. apply st_update. Qed.
Lemma set_right_st q s a n L R SL SR Z_ :
  st s ((a, n) :: L) R SL SR Z_ ->
  exists s', set_right s (at_ a) q = Ok s' /\
    st s' ((a, Node_ (parent n) (left n) q (color n) (value n)) :: L) R SL SR Z_.
Proof. apply st_update. Qed.
Lemma set_color_st c s a n L R SL SR Z_ :
  st s ((a, n) :: L) R SL SR Z_ ->
  exists s', set_color s (at_ a) c = Ok s' /\
    st s' ((a, Node_ (parent n) (left n) (right n) c (value n)) :: L) R SL SR Z_.
Proof. apply st_update. Qed.

Lemma st_perm s L L' R SL SR Z_ : st s L R SL SR Z_ -> L ≡ₚ L' -> st s L' R SL SR Z_.
Proof. intros H E. by rewrite <- E. Qed.

Lemma st_with_root s L R R' SL SR Z_ : st s L R SL SR Z_ -> st (with_root s R') L R' SL SR Z_.
Proof. by intros []. Qed.

Lemma ptr_eq_refl p : ptr_eq p p = true.
Proof. by apply bool_decide_eq_true_2. Qed.
Lemma ptr_eq_ne p q : p <> q -> ptr_eq p q = false.
Proof. apply bool_decide_eq_false_2. Qed.
Lemma top_not_null k : ptr_eq (top k) null = false.
Proof. by destruct k. Qed.
Lemma root_not_super t : ptr_eq (root t) super = false.
Proof. by destruct t. Qed.

(** [if (p) p->parent = q;] on the root of a subtree. *)
Lemma set_parent_if_st p q s t L R SL SR Z_ :
  st s (entries p t ++ L) R SL SR Z_ ->
  exists s', set_parent_if s (root t) q = Ok s' /\ st s' (entries q t ++ L) R SL SR Z_.
Proof.
  unfold set_parent_if. destruct t as [|c l a v r]; simpl; intros H; [by exists s|].
  by apply (set_parent_st q) in H.
Qed.

(** An address is not also the root of another subtree. *)
Lemma st_root_ne s a n p t L R SL SR Z_ :
  st s ((a, n) :: entries p t ++ L) R SL SR Z_ -> at_ a <> root t.
Proof. destruct t; simpl; [done|]. intros H E. simplify_eq. by eapply st_ne in H. Qed.

Lemma set_child_st d q s c a v p h o R SL SR Z_ L :
  st s ((a, link d p h o c v) :: L) R SL SR Z_ ->
  exists s', set_child s (at_ a) (is_lft d) q = Ok s' /\
    st s' ((a, link d p q o c v) :: L) R SL SR Z_.
Proof. destruct d; simpl; intros H; [by apply (set_left_st q) in H|by apply (set_right_st q) in H]. Qed.
End rep.


(** ** Automation *)

(** [(a, ?n) ∈ L] by finding the node. *)
Ltac mem :=
  first [ apply list_elem_of_here
        | apply list_elem_of_further; mem
        | apply elem_of_app; left; mem
        | apply elem_of_app; right; mem ].

Ltac remove_entry a L :=
  match L with
  | (a, ?n) :: ?L' => constr:((n, L'))
  | ?e :: ?L' => let r := remove_entry a L' in
      match r with (?n, ?L'') => constr:((n, e :: L'')) end
  | ?L1 ++ ?L2 => let r := remove_entry a L1 in
      match r with (?n, ?L'') => constr:((n, L'' ++ L2)) end
  | ?L1 ++ ?L2 => let r := remove_entry a L2 in
      match r with (?n, ?L'') => constr:((n, L1 ++ L'')) end
  end.
Ltac remove_chunk C L :=
  match L with
  | C => let T := type of C in constr:(([] : T))
  | C ++ ?L' => constr:(L')
  | ?e :: ?L' => let r := remove_chunk C L' in constr:(e :: r)
  | ?L1 ++ ?L2 => let r := remove_chunk C L1 in constr:(r ++ L2)
  | ?L1 ++ ?L2 => let r := remove_chunk C L2 in constr:(L1 ++ r)
  end.

(** [bring a in H]: the node at [a] comes first; [bring_chunk C in H]: a group of nodes. *)
Ltac permute H L' :=
  lazymatch type of H with
  | st ?s ?L ?R ?SL ?SR ?Z_ =>
    let H' := fresh "H" in
    assert (H' : st s L' R SL SR Z_) by (eapply st_perm; [exact H|solve_Permutation]);
    clear H; rename H' into H
  end.
Ltac bring a H :=
  lazymatch type of H with
  | st ?s ?L _ _ _ _ =>
    let r := remove_entry a L in
    lazymatch r with (?n, ?L') => permute H ((a, n) :: L') end
  end.
Ltac bring_chunk C H :=
  lazymatch type of H with
  | st ?s ?L _ _ _ _ => let L' := remove_chunk C L in permute H (C ++ L')
  end.

Ltac fields := cbn [parent left right color value link] in *.

(** [rd H]: run a read; [wr H]: run a write. *)
Ltac rd_with H lem call :=
  let E := fresh "E" in
  eassert (E : call = Ok _) by (eapply lem; [exact H|mem]);
  cbn [parent left right color value link] in E; rewrite E; clear E; run.
(** The computation that runs next. *)
Ltac head_of t := lazymatch t with mbind _ ?m => head_of m | _ => t end.
Ltac at_head tac :=
  match goal with
  | |- context [mbind ?f ?m] => let h := head_of m in tac h
  | |- ?t = Ok _ => tac t
  | |- exists _, ?t = Ok _ /\ _ => tac t
  | |- exists _ _, ?t = Ok _ /\ _ => tac t
  end.
Ltac rd H :=
  at_head ltac:(fun h =>
  lazymatch h with
  | get_parent ?s (at_ ?a) => rd_with H (@get_parent_st) h
  | get_left ?s (at_ ?a) => rd_with H (@get_left_st) h
  | get_right ?s (at_ ?a) => rd_with H (@get_right_st) h
  | get_color ?s (at_ ?a) => rd_with H (@get_color_st) h
  | get_value ?s (at_ ?a) => rd_with H (@get_value_st) h
  | is_null ?s (at_ ?a) => rd_with H (@is_null_st) h
  end).
Ltac wr_with H lem a q :=
  bring a H; apply (lem _ q) in H;
  let s := fresh "s" in let E := fresh "E" in
  destruct H as (s & E & H); rewrite E; clear E; run; fields.
Ltac wr H :=
  at_head ltac:(fun h =>
  lazymatch h with
  | set_parent ?s (at_ ?a) ?q => wr_with H (@set_parent_st) a q
  | set_left ?s (at_ ?a) ?q => wr_with H (@set_left_st) a q
  | set_right ?s (at_ ?a) ?q => wr_with H (@set_right_st) a q
  | set_color ?s (at_ ?a) ?q => wr_with H (@set_color_st) a q
  end).
Ltac wr_parent_if H :=
  match goal with
  | |- context [set_parent_if ?s (root ?t) ?q] =>
    lazymatch type of H with
    | context [entries ?p t] =>
      bring_chunk (entries p t) H; apply (set_parent_if_st p q) in H;
      let s := fresh "s" in let E := fresh "E" in
      destruct H as (s & E & H); rewrite E; clear E; run; fields
    end
  end.

(** Comparisons of pointers that are decided. *)
Ltac ptrs :=
  repeat (rewrite ?ptr_eq_refl, ?top_not_null, ?root_not_super; cbn [negb andb orb];
          change (ptr_eq (at_ _) null) with false; change (ptr_eq (at_ _) super) with false;
          change (ptr_eq super null) with false; change (ptr_eq null (at_ _)) with false;
          change (ptr_eq super (at_ _)) with false; change (ptr_eq null super) with false;
          cbn [negb andb orb]); run.

Section moves.
Context {A : Type}.
Implicit Types (t u l r : tree A) (k : list (frame A)) (f : frame A) (s : rbtree A) (n : vnode A).
Implicit Types (a b x y : positive).

(** The side of the focus; the root counts as a left child. *)
Definition focus_side k : bool := match k with [] => true | f :: _ => is_lft (fside f) end.

Lemma is_left_child_st s k x n L R SL SR Z_ :
  st s (centries k (at_ x) ++ (x, n) :: L) R SL SR Z_ -> parent n = top k ->
  is_left_child s (at_ x) = Ok (focus_side k).
Proof.
  intros H Hp. unfold is_left_child. rd H. rewrite Hp, top_not_null.
  destruct k as [|[d c a v u] k]; simpl in *; [done|].
  rd H. replace (parent _) with (top k) by (by destruct d). rewrite top_not_null.
  rd H. destruct d; simpl; [by rewrite ptr_eq_refl|].
  rewrite ptr_eq_ne; [done|]. intros E. symmetry in E. revert E.
  bring_chunk (entries (at_ a) u) H. bring x H. by eapply st_root_ne.
Qed.

(** A child takes the place of the focused node. *)
Lemma replace_child_st s k x n (y : ptr) t t' L SL SR Z_ :
  st s (centries k (at_ x) ++ (x, n) :: L) (root (plug k t)) SL SR Z_ -> parent n = top k ->
  root t' = y ->
  exists s', replace_child s (at_ x) (top k) y = Ok s' /\
    st s' (centries k y ++ (x, n) :: L) (root (plug k t')) SL SR Z_.
Proof.
  intros H Hp Hy. unfold replace_child. rewrite (is_left_child_st _ _ _ _ _ _ _ _ _ H Hp).
  destruct k as [|f k]; simpl top.
  - ptrs. eexists. split; [done|]. simpl. rewrite Hy. by eapply st_with_root.
  - ptrs. rewrite (root_plug_cons f k t t') in H. simpl in H.
    apply (set_child_st (fside f) y) in H as (s' & E & H). unfold set_child in E.
    simpl focus_side. rewrite E. by eexists.
Qed.

Lemma st_at_down s k f t SL SR Z_ : st_at s k (fill f t) SL SR Z_ <-> st_at s (f :: k) t SL SR Z_.
Proof.
  unfold st_at. rewrite root_fill. simpl. unfold fill. rewrite entries_mk.
  split; intros H; (eapply st_perm; [exact H|]; solve_Permutation).
Qed.

Lemma st_at_plug s k t SL SR Z_ : st_at s [] (plug k t) SL SR Z_ <-> st_at s k t SL SR Z_.
Proof.
  revert t. induction k as [|f k IH]; intros t; [done|]. simpl plug. rewrite IH. apply st_at_down.
Qed.

(** *** Rotations *)

Definition rotate (d : side) s (x : ptr) : result (rbtree A) :=
  match d with Lft => rotate_left s x | Rgt => rotate_right s x end.
Definition opp (d : side) : side := match d with Lft => Rgt | Rgt => Lft end.

(** Rotating [x] to the left lifts its right child [y]; and conversely. *)
Lemma rotate_st d s k c1 c2 t x vx u y vy w SL SR Z_ :
  st_at s k (mk d c1 t x vx (mk d c2 u y vy w)) SL SR Z_ ->
  exists s', rotate d s (at_ x) = Ok s' /\
    st_at s' k (mk d c2 (mk d c1 t x vx u) y vy w) SL SR Z_.
Proof.
  unfold st_at. intros H. destruct d; simpl in *.
  - unfold rotate_left. rd H. ptrs. rd H. rd H. rd H. wr H. wr_parent_if H. wr H.
    bring x H. bring_chunk (centries k (at_ x)) H.
    eapply (replace_child_st _ _ _ _ (at_ y) _ (Node c2 (Node c1 t x vx u) y vy w)) in H
      as (s' & E & H); [|done..].
    rewrite E. run. wr H. wr H. eexists. split; [done|]. simpl in H.
    eapply st_perm; [exact H|]. solve_Permutation.
  - unfold rotate_right. rd H. ptrs. rd H. rd H. rd H. wr H. wr_parent_if H. wr H.
    bring x H. bring_chunk (centries k (at_ x)) H.
    eapply (replace_child_st _ _ _ _ (at_ y) _ (Node c2 w y vy (Node c1 u x vx t))) in H
      as (s' & E & H); [|done..].
    rewrite E. run. wr H. wr H. eexists. split; [done|]. simpl in H.
    eapply st_perm; [exact H|]. solve_Permutation.
Qed.

(** *** Accesses around the focus *)

Definition tcolor t : Color := match t with Leaf => BLACK | Node c _ _ _ _ => c end.

Lemma st_at_ne_root s f k c l a v r SL SR Z_ :
  st_at s (f :: k) (Node c l a v r) SL SR Z_ -> ptr_eq (at_ a) (m_root s) = false.
Proof.
  intros H. unfold st_at in H. pose proof (st_root _ _ _ _ _ _ H) as ->. apply ptr_eq_ne. intros E.
  assert (Hin : forall f k t h, exists b n, root (plug (f :: k) t) = at_ b /\ (b, n) ∈ centries (f :: k) h).
  { clear. intros f k. revert f. induction k as [|g k IH]; intros f t h.
    - simpl. rewrite root_fill. do 2 eexists. split; [done|apply list_elem_of_here].
    - destruct (IH g (fill f t) (at_ (faddr f))) as (b & n & E & Hin). exists b, n.
      split; [exact E|]. simpl. apply list_elem_of_further, elem_of_app. by right. }
  destruct (Hin f k (Node c l a v r) (at_ a)) as (b & n & Eb & Hb). rewrite Eb in E. simplify_eq.
  destruct H as [[HN _] _ _ _ _]. rewrite fmap_app in HN. apply NoDup_app in HN as (_ & HN & _).
  apply (HN b); [|simpl; apply list_elem_of_here]. apply list_elem_of_fmap. by exists (b, n).
Qed.

Lemma m_root_at s k t SL SR Z_ : st_at s k t SL SR Z_ -> m_root s = root (plug k t).
Proof. apply st_root. Qed.

Lemma is_left_child_at s k c l a v r SL SR Z_ :
  st_at s k (Node c l a v r) SL SR Z_ -> is_left_child s (at_ a) = Ok (focus_side k).
Proof. intros H. by eapply is_left_child_st. Qed.

Lemma is_null_at s k c l a v r SL SR Z_ :
  st_at s k (Node c l a v r) SL SR Z_ -> is_null s (at_ a) = Ok false.
Proof. intros H. unfold st_at in H. simpl in H. rd H. by rewrite top_not_null. Qed.

Lemma get_parent_at s k c l a v r SL SR Z_ :
  st_at s k (Node c l a v r) SL SR Z_ -> get_parent s (at_ a) = Ok (top k).
Proof. intros H. unfold st_at in H. simpl in H. by rd H. Qed.
Lemma get_left_at s k c l a v r SL SR Z_ :
  st_at s k (Node c l a v r) SL SR Z_ -> get_left s (at_ a) = Ok (root l).
Proof. intros H. unfold st_at in H. simpl in H. by rd H. Qed.
Lemma get_right_at s k c l a v r SL SR Z_ :
  st_at s k (Node c l a v r) SL SR Z_ -> get_right s (at_ a) = Ok (root r).
Proof. intros H. unfold st_at in H. simpl in H. by rd H. Qed.
Lemma get_color_at s k c l a v r SL SR Z_ :
  st_at s k (Node c l a v r) SL SR Z_ -> get_color s (at_ a) = Ok c.
Proof. intros H. unfold st_at in H. simpl in H. by rd H. Qed.
Lemma get_value_at s k c l a v r SL SR Z_ :
  st_at s k (Node c l a v r) SL SR Z_ -> get_value s (at_ a) = Ok v.
Proof. intros H. unfold st_at in H. simpl in H. by rd H. Qed.

Lemma set_color_at c' s k c l a v r SL SR Z_ :
  st_at s k (Node c l a v r) SL SR Z_ ->
  exists s', set_color s (at_ a) c' = Ok s' /\ st_at s' k (Node c' l a v r) SL SR Z_.
Proof.
  intros H. unfold st_at in *. simpl in *. rewrite (root_plug _ _ (Node c' l a v r)) in H by done.
  wr H. eexists. split; [done|]. eapply st_perm; [exact H|]. solve_Permutation.
Qed.

Lemma color_or_black_at s k t SL SR Z_ :
  st_at s k t SL SR Z_ -> color_or_black s (root t) = Ok (tcolor t).
Proof. intros H. destruct t; [done|]. unfold color_or_black. simpl. by eapply get_color_at. Qed.

(** The focus moves to the other side of a frame. *)
Definition turn f t : frame A := Frame (opp (fside f)) (fcolor f) (faddr f) (fvalue f) t.

Lemma fill_turn f t : fill (turn f t) (fother f) = fill f t.
Proof. destruct f as [[] c a v u]; done. Qed.

Lemma st_at_turn s f k t SL SR Z_ :
  st_at s (f :: k) t SL SR Z_ <-> st_at s (turn f t :: k) (fother f) SL SR Z_.
Proof. by rewrite <- !st_at_down, fill_turn. Qed.

Lemma st_at_up s f k t SL SR Z_ :
  st_at s (f :: k) t SL SR Z_ <->
  st_at s k (match fside f with Lft => Node (fcolor f) t (faddr f) (fvalue f) (fother f)
                          | Rgt => Node (fcolor f) (fother f) (faddr f) (fvalue f) t end) SL SR Z_.
Proof. rewrite <- st_at_down. unfold fill. by destruct (fside f). Qed.

Lemma sibling_at s f k c l a v r SL SR Z_ :
  st_at s (f :: k) (Node c l a v r) SL SR Z_ -> sibling s (at_ a) = Ok (root (fother f)).
Proof.
  intros H. unfold sibling. rewrite (get_parent_at _ _ _ _ _ _ _ _ _ _ H). run. simpl top. ptrs.
  rewrite (is_left_child_at _ _ _ _ _ _ _ _ _ _ H). run. apply st_at_up in H. simpl focus_side.
  destruct (fside f); simpl; [by eapply get_right_at|by eapply get_left_at].
Qed.

Lemma grandparent_at s f k c l a v r SL SR Z_ :
  st_at s (f :: k) (Node c l a v r) SL SR Z_ -> grandparent s (at_ a) = Ok (top k).
Proof.
  intros H. unfold grandparent. rewrite (get_parent_at _ _ _ _ _ _ _ _ _ _ H). run. simpl top. ptrs.
  apply st_at_up in H. destruct (fside f);
    rewrite (is_null_at _ _ _ _ _ _ _ _ _ _ H), (get_parent_at _ _ _ _ _ _ _ _ _ _ H); done.
Qed.

Lemma is_left_parent_at s f k c l a v r SL SR Z_ :
  st_at s (f :: k) (Node c l a v r) SL SR Z_ -> is_left_child s (at_ (faddr f)) = Ok (focus_side k).
Proof. intros H. apply st_at_up in H. destruct (fside f); by eapply is_left_child_at. Qed.

Lemma get_color_parent_at s f k t SL SR Z_ :
  st_at s (f :: k) t SL SR Z_ -> get_color s (at_ (faddr f)) = Ok (fcolor f).
Proof. intros H. apply st_at_up in H. destruct (fside f); by eapply get_color_at. Qed.

Lemma aunt_at s f g k c l a v r SL SR Z_ :
  st_at s (f :: g :: k) (Node c l a v r) SL SR Z_ -> aunt s (at_ a) = Ok (root (fother g)).
Proof.
  intros H. unfold aunt. rewrite (grandparent_at _ _ _ _ _ _ _ _ _ _ _ H). run. simpl top. ptrs.
  rewrite (get_parent_at _ _ _ _ _ _ _ _ _ _ H). run. simpl top. ptrs.
  rewrite (is_left_parent_at _ _ _ _ _ _ _ _ _ _ _ H). run.
  apply st_at_up in H. rewrite st_at_up in H. simpl focus_side.
  destruct (fside g); simpl; [by eapply get_right_at|by eapply get_left_at].
Qed.

Lemma is_aunt_red_at s f g k c l a v r SL SR Z_ :
  st_at s (f :: g :: k) (Node c l a v r) SL SR Z_ ->
  is_aunt_red s (at_ a) = Ok (bool_decide (tcolor (fother g) = RED)).
Proof.
  intros H. unfold is_aunt_red, is_aunt_black. rewrite (aunt_at _ _ _ _ _ _ _ _ _ _ _ _ H). run.
  apply st_at_down, st_at_turn in H. destruct (fother g) as [|[] ul ua uv ur]; simpl in *; [done|..];
    ptrs; rewrite (get_color_at _ _ _ _ _ _ _ _ _ _ H); done.
Qed.

Lemma position_at s f g k c l a v r SL SR Z_ :
  st_at s (f :: g :: k) (Node c l a v r) SL SR Z_ ->
  position_with_respect_to_grandparent s (at_ a) =
  Ok (match fside g, fside f with
      | Lft, Lft => LEFT_LEFT | Lft, Rgt => LEFT_RIGHT
      | Rgt, Lft => RIGHT_LEFT | Rgt, Rgt => RIGHT_RIGHT end).
Proof.
  intros H. unfold position_with_respect_to_grandparent.
  rewrite (is_left_child_at _ _ _ _ _ _ _ _ _ _ H), (get_parent_at _ _ _ _ _ _ _ _ _ _ H). run.
  simpl top. ptrs. rewrite (is_left_parent_at _ _ _ _ _ _ _ _ _ _ _ H). run.
  simpl. by destruct (fside f), (fside g).
Qed.
End moves.

(** [ra H]: run a read of the focused node. *)
Ltac ra H :=
  at_head ltac:(fun h =>
  lazymatch h with
  | is_null _ _ => rewrite (is_null_at _ _ _ _ _ _ _ _ _ _ H)
  | get_parent _ _ => rewrite (get_parent_at _ _ _ _ _ _ _ _ _ _ H)
  | get_left _ _ => rewrite (get_left_at _ _ _ _ _ _ _ _ _ _ H)
  | get_right _ _ => rewrite (get_right_at _ _ _ _ _ _ _ _ _ _ H)
  | get_color _ _ => rewrite (get_color_at _ _ _ _ _ _ _ _ _ _ H)
  | get_value _ _ => rewrite (get_value_at _ _ _ _ _ _ _ _ _ _ H)
  | is_left_child _ _ => rewrite (is_left_child_at _ _ _ _ _ _ _ _ _ _ H)
  | is_aunt_red _ _ => rewrite (is_aunt_red_at _ _ _ _ _ _ _ _ _ _ _ _ H)
  | position_with_respect_to_grandparent _ _ => rewrite (position_at _ _ _ _ _ _ _ _ _ _ _ _ H)
  | grandparent _ _ => rewrite (grandparent_at _ _ _ _ _ _ _ _ _ _ _ H)
  | sibling _ _ => rewrite (sibling_at _ _ _ _ _ _ _ _ _ _ _ H)
  end);
  run; cbn [root]; simpl top; ptrs.

(** The colour of the parent of the focus. *)
Ltac rp H :=
  let E := fresh "E" in
  pose proof (get_color_parent_at _ _ _ _ _ _ _ H) as E;
  cbn [faddr fcolor] in E; rewrite E; clear E; run.

(** [paint H]: run a colour change of the focused node; [turn_tree H]: a rotation. *)
Ltac paint H :=
  match goal with
  | |- context [set_color ?s (at_ _) ?c] =>
    apply (set_color_at c) in H;
    let s' := fresh "s" in let E := fresh "E" in
    destruct H as (s' & E & H); rewrite E; clear E; run
  end.
Ltac turn_tree H :=
  let s' := fresh "s" in let E := fresh "E" in
  match goal with
  | |- context [rotate_left _ _] => apply (rotate_st Lft) in H
  | |- context [rotate_right _ _] => apply (rotate_st Rgt) in H
  end;
  destruct H as (s' & E & H); cbn [rotate mk] in E, H; rewrite E; clear E; run.

(** Moving the focus: to a child, and to the parent. *)
Ltac down_left H :=
  match type of H with
  | st_at ?s ?k (Node ?c ?l ?a ?v ?r) _ _ _ =>
    apply (proj1 (st_at_down s k (Frame Lft c a v r) l _ _ _)) in H
  end.
Ltac down_right H :=
  match type of H with
  | st_at ?s ?k (Node ?c ?l ?a ?v ?r) _ _ _ =>
    apply (proj1 (st_at_down s k (Frame Rgt c a v l) r _ _ _)) in H
  end.
Ltac up H := rewrite st_at_up in H; cbn [fside fcolor faddr fvalue fother] in H.

(** Equal in-order sequences. *)
Ltac norm_nodes := repeat progress (rewrite <- ?app_assoc; simpl); done.
