(* ===== verification/RedBlackTreeSearch.v ===== *)
(** Reading the trees of RedBlackTreeRep.v: the searches find the place their key has in
    the in-order sequence, the iterators walk along it. *)
From stdpp Require Import gmap.
From S2P Require Import Prelude RedBlackTree RedBlackTreeRep.

(** ** Sequences that a test splits *)

Section split.
Context {X : Type} (P : X -> bool).

Lemma split_before l1 l2 m x m' :
  Forall (fun y => P y = true) l1 -> Forall (fun y => P y = false) l2 ->
  l1 ++ l2 = m ++ x :: m' -> P x = true -> Forall (fun y => P y = true) m.
Proof.
  intros H1 H2. revert m. induction H1 as [|y l1 Hy H1 IH]; simpl; intros m E Hx.
  - subst l2. apply Forall_app in H2 as [_ H2]. apply Forall_cons in H2 as [H2 _]. congruence.
  - destruct m as [|z m]; [constructor|]. simplify_eq/=. constructor; [done|]. by eapply IH.
Qed.

Lemma split_after l1 l2 m x m' :
  Forall (fun y => P y = true) l1 -> Forall (fun y => P y = false) l2 ->
  l1 ++ l2 = m ++ x :: m' -> P x = false -> Forall (fun y => P y = false) m'.
Proof.
  intros H1 H2. revert m. induction H1 as [|y l1 Hy H1 IH]; simpl; intros m E Hx.
  - subst l2. apply Forall_app in H2 as [_ H2]. by apply Forall_cons in H2 as [_ H2].
  - destruct m as [|z m]; simplify_eq/=; [congruence|by eapply IH].
Qed.

Lemma split_unique l1 l2 m1 m2 :
  Forall (fun y => P y = true) l1 -> Forall (fun y => P y = false) l2 ->
  Forall (fun y => P y = true) m1 -> Forall (fun y => P y = false) m2 ->
  l1 ++ l2 = m1 ++ m2 -> l1 = m1 /\ l2 = m2.
Proof.
  intros H1 H2. revert m1. induction H1 as [|y l1 Hy H1 IH]; simpl; intros m1 H3 H4 E.
  - destruct H3 as [|z m1 Hz]; [done|]. subst l2. simpl in H2. apply Forall_cons in H2 as [H2 _]. congruence.
  - destruct H3 as [|z m1 Hz H3]; simplify_eq/=.
    + apply Forall_cons in H4 as [H4 _]. congruence.
    + edestruct IH; [done..|]. by subst.
Qed.
End split.

Section search.
Context {A : Type}.
Implicit Types (t u l r : tree A) (k : list (frame A)) (f : frame A) (s : rbtree A).

(** The node a sequence starts with, or the sentinel; and the node it ends with. *)
Definition first_ptr (e : ptr) (l : list (positive * A)) : ptr :=
  match l with [] => e | x :: _ => at_ x.1 end.
Definition last_ptr (e : ptr) (l : list (positive * A)) : ptr :=
  match last l with None => e | Some x => at_ x.1 end.

Fixpoint height t : nat :=
  match t with Leaf => 0 | Node _ l _ _ r => S (Nat.max (height l) (height r)) end.

Lemma height_le t : (height t <= length (nodes t))%nat.
Proof. induction t; simpl; [lia|]. rewrite length_app. simpl. lia. Qed.

Lemma length_centries k h : (length k <= length (centries (A:=A) k h))%nat.
Proof. revert h. induction k as [|f k IH]; intros h; simpl; [lia|]. rewrite length_app. specialize (IH (at_ (faddr f))). lia. Qed.

(** The bound [walk] is larger than a tree is high or a focus deep. *)
Lemma walk_at s k t SL SR Z_ :
  st_at s k t SL SR Z_ -> (length (nodes t) < walk s)%nat /\ (length k < walk s)%nat.
Proof.
  intros H. rewrite (st_walk _ _ _ _ _ _ H), length_app, length_entries.
  pose proof (length_centries k (root t)). lia.
Qed.

(** *** Searches *)

Lemma lower_loop_Ok fuel s k t below m1 m2 SL SR Z_ :
  st_at s k t SL SR Z_ -> (height t < fuel)%nat -> nodes (plug k t) = m1 ++ m2 ->
  Forall (fun x => below x.2 = true) m1 -> Forall (fun x => below x.2 = false) m2 ->
  Forall (fun x => below x.2 = true) (before k) -> Forall (fun x => below x.2 = false) (after k) ->
  lower_loop fuel s below (root t) (first_ptr super (after k)) = Ok (first_ptr super m2).
Proof.
  intros H Hf E H1 H2. revert k t H Hf E. induction fuel as [|fuel IH]; intros k t H Hf E Hb Ha; [lia|].
  rewrite nodes_plug in E. cbn [lower_loop]. destruct t as [|c l a v r]; simpl root; ptrs.
  - edestruct (split_unique (fun x => below x.2) (before k) (after k)) as [_ ->]; [..|exact E|]; done.
  - ra H. simpl nodes in E. rewrite <- app_assoc, app_assoc in E. simpl in E, Hf.
    symmetry in E. destruct (below v) eqn:Ev.
    + ra H. assert (H' := H). down_right H'. rewrite <- (IH (Frame Rgt c a v l :: k) r); [done|done|lia|..].
      * simpl. rewrite nodes_plug. simpl. by rewrite E, <- !app_assoc.
      * pose proof (split_before (fun x => below x.2) _ _ _ _ _ H1 H2 E Ev) as Hs. simpl.
        rewrite !Forall_app in *. rewrite Forall_cons. naive_solver.
      * done.
    + ra H. assert (H' := H). down_left H'. rewrite <- (IH (Frame Lft c a v r :: k) l); [done|done|lia|..].
      * simpl. rewrite nodes_plug. simpl. by rewrite E, <- !app_assoc.
      * simpl. by rewrite app_nil_r.
      * pose proof (split_after (fun x => below x.2) _ _ _ _ _ H1 H2 E Ev) as Hs. simpl.
        by rewrite Forall_cons.
Qed.

Lemma upper_loop_Ok fuel s k t above m1 m2 SL SR Z_ :
  st_at s k t SL SR Z_ -> (height t < fuel)%nat -> nodes (plug k t) = m1 ++ m2 ->
  Forall (fun x => above x.2 = false) m1 -> Forall (fun x => above x.2 = true) m2 ->
  Forall (fun x => above x.2 = false) (before k) -> Forall (fun x => above x.2 = true) (after k) ->
  upper_loop fuel s above (root t) (first_ptr super (after k)) = Ok (first_ptr super m2).
Proof.
  intros H Hf E H1 H2 Hb Ha.
  assert (Hneg : forall fuel p q, upper_loop fuel s above p q = lower_loop fuel s (fun x => negb (above x)) p q).
  { clear. induction fuel as [|fuel IH]; intros p q; [done|]. cbn [upper_loop lower_loop].
    destruct (ptr_eq p null); [done|]. destruct (get_value s p) as [v|]; run; [|done].
    destruct (above v); simpl; [destruct (get_left s p)|destruct (get_right s p)]; run; by rewrite ?IH. }
  rewrite Hneg. eapply lower_loop_Ok; eauto;
    (eapply Forall_impl; [eassumption|]; simpl; by intros ? ->).
Qed.

Lemma rb_find_loop_Ok fuel s k t below above m1 m2 m3 SL SR Z_ :
  st_at s k t SL SR Z_ -> (height t < fuel)%nat -> nodes (plug k t) = m1 ++ m2 ++ m3 ->
  Forall (fun x => below x.2 = true /\ above x.2 = false) m1 ->
  Forall (fun x => below x.2 = false /\ above x.2 = false) m2 ->
  Forall (fun x => below x.2 = false /\ above x.2 = true) m3 ->
  Forall (fun x => below x.2 = true) (before k) -> Forall (fun x => above x.2 = true) (after k) ->
  exists p, rb_find_loop fuel s below above (root t) = Ok p /\
    ((m2 = [] /\ p = super) \/ exists x, x ∈ m2 /\ p = at_ x.1).
Proof.
  intros H Hf E H1 H2 H3. revert k t H Hf E. induction fuel as [|fuel IH]; intros k t H Hf E Hb Ha; [lia|].
  rewrite nodes_plug in E. cbn [rb_find_loop]. destruct t as [|c l a v r]; simpl root; ptrs.
  - exists super. split; [done|]. left. split; [|done]. destruct m2 as [|x m2]; [done|exfalso].
    apply Forall_cons in H2 as [[Hx1 Hx2] _].
    assert (Hin : x ∈ before k ++ after k) by (simpl in E; rewrite E; set_solver).
    apply elem_of_app in Hin as [Hin|Hin]; rewrite Forall_forall in Hb, Ha;
      [specialize (Hb _ Hin)|specialize (Ha _ Hin)]; simpl in *; congruence.
  - ra H. simpl nodes in E. assert (E' := E). rewrite <- app_assoc, app_assoc in E. simpl in E, Hf.
    symmetry in E. assert (Hb12 : Forall (fun x => below x.2 = false) (m2 ++ m3))
      by (apply Forall_app; split; eapply Forall_impl; [exact H2|naive_solver|exact H3|naive_solver]).
    assert (Hb1 : Forall (fun x => below x.2 = true) m1) by (eapply Forall_impl; [exact H1|naive_solver]).
    destruct (below v) eqn:Ev.
    + ra H. assert (H' := H). down_right H'. destruct (IH (Frame Rgt c a v l :: k) r) as (p & Ep & Hp); [done|lia|..].
      * simpl. rewrite nodes_plug. simpl. by rewrite E, <- !app_assoc.
      * pose proof (split_before (fun x => below x.2) _ _ _ _ _ Hb1 Hb12 E Ev) as Hs. simpl.
        rewrite !Forall_app in *. rewrite Forall_cons. naive_solver.
      * done.
      * eauto.
    + destruct (above v) eqn:Ev'.
      * ra H. assert (H' := H). down_left H'. destruct (IH (Frame Lft c a v r :: k) l) as (p & Ep & Hp); [done|lia|..].
        -- simpl. rewrite nodes_plug. simpl. by rewrite E, <- !app_assoc.
        -- simpl. by rewrite app_nil_r.
        -- rewrite app_assoc in E.
           assert (Hs : Forall (fun x => negb (above x.2) = false) (nodes r ++ after k)).
           { eapply (split_after (fun x => negb (above x.2)) (m1 ++ m2) m3); [..|exact E|simpl; by rewrite Ev'].
             - apply Forall_app; split; eapply Forall_impl; [exact H1|..|exact H2|]; simpl; by intros ? [_ ->].
             - eapply Forall_impl; [exact H3|]; simpl; by intros ? [_ ->]. }
           simpl. rewrite Forall_cons. split; [done|]. eapply Forall_impl; [exact Hs|]. simpl.
           intros x. by destruct (above x.2).
        -- eauto.
      * exists (at_ a). split; [done|]. right. exists (a, v). split; [|done].
        assert (Hin : (a, v) ∈ m1 ++ m2 ++ m3) by (rewrite E; set_solver).
        rewrite !elem_of_app in Hin. rewrite Forall_forall in H1, H3.
        destruct Hin as [Hin|[Hin|Hin]]; [|done|]; [apply H1 in Hin|apply H3 in Hin]; simpl in Hin; destruct Hin; congruence.
Qed.

(** *** Iteration *)

Lemma left_most_of_Ok fuel s k t SL SR Z_ :
  st_at s k t SL SR Z_ -> t <> Leaf -> (height t <= fuel)%nat ->
  left_most_of fuel s (root t) = Ok (first_ptr null (nodes t)).
Proof.
  revert k t. induction fuel as [|fuel IH]; intros k t H Hne Hf; destruct t as [|c l a v r]; simpl in Hf; [done|lia|done|].
  cbn [left_most_of]. simpl root. ra H. destruct l as [|lc ll la lv lr]; simpl root; ptrs; [done|].
  down_left H. change (at_ la) with (root (Node lc ll la lv lr)).
  rewrite (IH _ _ H) by (done || simpl in *; lia). simpl. by destruct (nodes ll).
Qed.

Lemma right_most_of_Ok fuel s k t SL SR Z_ :
  st_at s k t SL SR Z_ -> t <> Leaf -> (height t <= fuel)%nat ->
  right_most_of fuel s (root t) = Ok (last_ptr null (nodes t)).
Proof.
  revert k t. induction fuel as [|fuel IH]; intros k t H Hne Hf; destruct t as [|c l a v r]; simpl in Hf; [done|lia|done|].
  cbn [right_most_of]. simpl root. ra H. unfold last_ptr.
  destruct r as [|rc rl ra_ rv rr]; simpl root; ptrs; [simpl; by rewrite last_snoc|].
  down_right H. change (at_ ra_) with (root (Node rc rl ra_ rv rr)).
  rewrite (IH _ _ H) by (done || simpl in *; lia). unfold last_ptr. simpl.
  by rewrite app_comm_cons, app_assoc, !last_app_cons.
Qed.

Lemma climb_right_Ok fuel s k c l a v r SL SR Z_ :
  st_at s k (Node c l a v r) SL SR Z_ -> (length k < fuel)%nat ->
  climb_right fuel s (at_ a) (top k) = Ok (first_ptr super (after k)).
Proof.
  revert k c l a v r. induction fuel as [|fuel IH]; intros k c l a v r H Hf; [lia|].
  cbn [climb_right]. destruct k as [|[d fc fa fv u] k]; [done|]. simpl top.
  assert (H' := H). up H'. unfold is_right_child.
  destruct d; ra H'; ra H; simpl; [done|]. ra H'. by eapply IH; [exact H'|simpl in Hf; lia].
Qed.

Lemma climb_left_Ok fuel s k c l a v r SL SR Z_ :
  st_at s k (Node c l a v r) SL SR Z_ -> (length k < fuel)%nat ->
  climb_left fuel s (at_ a) (top k) = Ok (last_ptr super (before k)).
Proof.
  revert k c l a v r. induction fuel as [|fuel IH]; intros k c l a v r H Hf; [lia|].
  cbn [climb_left]. destruct k as [|[d fc fa fv u] k]; [done|]. simpl top.
  assert (H' := H). up H'.
  destruct d; ra H'; ra H; simpl; [|by unfold last_ptr; rewrite app_assoc, last_snoc].
  ra H'. rewrite app_nil_r. by eapply IH; [exact H'|simpl in Hf; lia].
Qed.

Lemma inorder_successor_of_Ok s k c l a v r SL SR Z_ :
  st_at s k (Node c l a v r) SL SR Z_ ->
  inorder_successor_of s (at_ a) = Ok (first_ptr super (nodes r ++ after k)).
Proof.
  intros H. destruct (walk_at _ _ _ _ _ _ H) as [Hw1 Hw2]. unfold inorder_successor_of. ptrs. ra H. ra H.
  destruct r as [|rc rl ra_ rv rr]; simpl root; ptrs.
  - ra H. by eapply climb_right_Ok.
  - down_right H. change (at_ ra_) with (root (Node rc rl ra_ rv rr)).
    rewrite (left_most_of_Ok _ _ _ _ _ _ _ H); [simpl; by destruct (nodes rl)|done|].
    pose proof (height_le (Node rc rl ra_ rv rr)).
    change (nodes (Node c l a v ?r)) with (nodes l ++ (a, v) :: nodes r) in Hw1.
    rewrite length_app in Hw1. cbn [length] in Hw1. lia.
Qed.

Lemma inorder_predecessor_of_Ok s k c l a v r SL SR Z_ :
  st_at s k (Node c l a v r) SL SR Z_ ->
  inorder_predecessor_of s (at_ a) = Ok (last_ptr super (before k ++ nodes l)).
Proof.
  intros H. destruct (walk_at _ _ _ _ _ _ H) as [Hw1 Hw2]. unfold inorder_predecessor_of. ptrs. ra H. ra H.
  destruct l as [|lc ll la lv lr]; simpl root; ptrs.
  - ra H. cbn [nodes]. rewrite app_nil_r. by eapply climb_left_Ok.
  - down_left H. change (at_ la) with (root (Node lc ll la lv lr)).
    rewrite (right_most_of_Ok _ _ _ _ _ _ _ H); [|done|].
    + unfold last_ptr. simpl nodes. rewrite app_assoc, !last_app_cons.
      destruct (last (_ :: nodes lr)) eqn:E; [done|]. by apply last_None in E.
    + pose proof (height_le (Node lc ll la lv lr)).
      change (nodes (Node c ?l a v r)) with (nodes l ++ (a, v) :: nodes r) in Hw1.
      rewrite length_app in Hw1. lia.
Qed.
End search.
