(* ===== verification/RedBlackTreeInsert.v ===== *)
(** The red-black invariant of the trees of RedBlackTreeRep.v, and insertion: the descent
    finds the place of the new node and the fix-up restores the invariant. *)
From stdpp Require Import gmap.
From S2P Require Import Prelude OrderedSet RedBlackTree RedBlackTreeRep RedBlackTreeSearch.

Section insert.
Context {A : Type}.
Implicit Types (t u l r : tree A) (k : list (frame A)) (f : frame A) (s : rbtree A).

(** ** The invariant *)

(** [RB dm t c n]: [t] has a root of colour [c], no red node has a red child, and every
    path down has [n] black nodes.  While a black leaf is being removed it is still in the
    tree, but no longer counts: [dm] is its address. *)
Inductive RB (dm : option positive) : tree A -> Color -> nat -> Prop :=
  | RB_leaf : RB dm Leaf BLACK 0
  | RB_doomed a v : dm = Some a -> RB dm (Node BLACK Leaf a v Leaf) BLACK 0
  | RB_red l a v r n :
      dm <> Some a -> RB dm l BLACK n -> RB dm r BLACK n -> RB dm (Node RED l a v r) RED n
  | RB_black l a v r c1 c2 n :
      dm <> Some a -> RB dm l c1 n -> RB dm r c2 n -> RB dm (Node BLACK l a v r) BLACK (S n).

(** [CTX dm k acc n]: around the focus there is a red-black tree with a black root, that
    expects [n] black nodes on the paths of the focus, and a red focus only if [acc]. *)
Inductive CTX (dm : option positive) : list (frame A) -> bool -> nat -> Prop :=
  | CTX_top n : CTX dm [] false n
  | CTX_red d a v u k n :
      dm <> Some a -> RB dm u BLACK n -> CTX dm k true n -> CTX dm (Frame d RED a v u :: k) false n
  | CTX_black d a v u k c acc n :
      dm <> Some a -> RB dm u c n -> CTX dm k acc (S n) -> CTX dm (Frame d BLACK a v u :: k) true n.

Lemma RB_color dm t c n : RB dm t c n -> tcolor t = c.
Proof. by destruct 1. Qed.

Lemma RB_mk_red dm d t a v u n :
  dm <> Some a -> RB dm t BLACK n -> RB dm u BLACK n -> RB dm (mk d RED t a v u) RED n.
Proof. destruct d; by constructor. Qed.

Lemma RB_mk_black dm d t a v u c1 c2 n :
  dm <> Some a -> RB dm t c1 n -> RB dm u c2 n -> RB dm (mk d BLACK t a v u) BLACK (S n).
Proof. destruct d; by econstructor. Qed.

Lemma RB_plug dm k t c acc n :
  CTX dm k acc n -> RB dm t c n -> (c = RED -> acc = true) -> exists m, RB dm (plug k t) BLACK m.
Proof.
  intros Hk. revert t c. induction Hk as [n|d a v u k n Ha Hu Hk IH|d a v u k c' acc n Ha Hu Hk IH];
    intros t c Ht Hc; simpl.
  - destruct c; [naive_solver|]. by exists n.
  - destruct c; [naive_solver|]. eapply IH; [by apply RB_mk_red|done].
  - eapply IH; [by eapply RB_mk_black|done].
Qed.

Lemma RB_unplug dm k t m :
  (t <> Leaf \/ dm = None) -> RB dm (plug k t) BLACK m ->
  exists acc n c, CTX dm k acc n /\ RB dm t c n /\ (c = RED -> acc = true).
Proof.
  revert t. induction k as [|f k IH]; simpl; intros t Ht H.
  { exists false, m, BLACK. split_and!; [constructor|done|done]. }
  destruct (IH (fill f t)) as (acc & n & c & Hk & Hf & Hc); [left; by destruct f as [[] ?]|done|].
  destruct f as [d fc a v u]. unfold fill in Hf. simpl in Hf.
  destruct d; simpl in Hf; inversion Hf; subst; (try by destruct Ht; congruence).
  all: try match goal with H : ?x = Some _ |- _ => by destruct Ht end.
  - exists false, n, BLACK. split_and!; [|done|done]. constructor; auto. by rewrite <- Hc.
  - exists true, n0, c1. split_and!; [by econstructor|done|done].
  - exists false, n, BLACK. split_and!; [|done|done]. constructor; auto. by rewrite <- Hc.
  - exists true, n0, c2. split_and!; [by econstructor|done|done].
Qed.

(** ** The fix-up after an insertion *)

(** Below a red parent with a black aunt: one or two rotations end the violation. *)
Lemma insertion_rotation_Ok s d1 d2 p pv u1 g gv u2 k l a v r n SL SR Z_ :
  st_at s (Frame d1 RED p pv u1 :: Frame d2 BLACK g gv u2 :: k) (Node RED l a v r) SL SR Z_ ->
  RB None l BLACK n -> RB None r BLACK n -> RB None u1 BLACK n -> RB None u2 BLACK n ->
  exists s' d y yv w gl gr,
    let t := Node RED gl g gv gr in
    insertion_rotation s (at_ a) (at_ g) = Ok s' /\
    st_at s' (Frame d BLACK y yv w :: k) t SL SR Z_ /\
    RB None (fill (Frame d BLACK y yv w) t) BLACK (S n) /\
    nodes (fill (Frame d BLACK y yv w) t) =
    nodes (fill (Frame d2 BLACK g gv u2) (fill (Frame d1 RED p pv u1) (Node RED l a v r))).
Proof.
  intros H Hl Hr Hu1 Hu2. unfold insertion_rotation. ra H. simpl fside.
  destruct d2, d1; cbn match.
  - up H. up H. paint H. down_left H. down_left H. ra H. up H. paint H. down_left H. paint H.
    up H. up H. turn_tree H. down_right H. do 7 eexists;
      (split; [reflexivity|split; [exact H|]]); unfold fill; simpl;
      split; [eapply RB_black; [done|by apply RB_red..]|norm_nodes].
  - ra H. up H. turn_tree H. ra H. up H. paint H. down_left H. down_left H. ra H. up H. paint H.
    down_left H. paint H. up H. up H. turn_tree H. down_right H. do 7 eexists;
      (split; [reflexivity|split; [exact H|]]); unfold fill; simpl;
      split; [eapply RB_black; [done|by apply RB_red..]|norm_nodes].
  - ra H. up H. turn_tree H. ra H. up H. paint H. down_right H. down_right H. ra H. up H. paint H.
    down_right H. paint H. up H. up H. turn_tree H. down_left H. do 7 eexists;
      (split; [reflexivity|split; [exact H|]]); unfold fill; simpl;
      split; [eapply RB_black; [done|by apply RB_red..]|norm_nodes].
  - up H. up H. paint H. down_right H. down_right H. ra H. up H. paint H. down_right H. paint H.
    up H. up H. turn_tree H. down_left H. do 7 eexists;
      (split; [reflexivity|split; [exact H|]]); unfold fill; simpl;
      split; [eapply RB_black; [done|by apply RB_red..]|norm_nodes].
Qed.

Lemma fix_insertion_stop fuel s d p pv u k l a v r SL SR Z_ :
  (0 < fuel)%nat ->
  st_at s (Frame d BLACK p pv u :: k) (Node RED l a v r) SL SR Z_ ->
  fix_insertion_loop fuel s (at_ a) = Ok s.
Proof.
  intros Hf H. destruct fuel as [|fuel]; [lia|]. cbn [fix_insertion_loop]. ra H.
  rewrite (st_at_ne_root _ _ _ _ _ _ _ _ _ _ _ H). ra H.
  rp H. ra H. done.
Qed.

(** Below a red parent with a red aunt: three colours change, and the grandparent, unless
    it is the root, may now violate the invariant. *)
Lemma insertion_recolor_Ok s d1 d2 p pv u1 g gv ul b bv ur k l a v r SL SR Z_ :
  st_at s (Frame d1 RED p pv u1 :: Frame d2 BLACK g gv (Node RED ul b bv ur) :: k)
    (Node RED l a v r) SL SR Z_ ->
  exists s',
    (s0 ← (if negb (ptr_eq (at_ g) (m_root s)) then set_color s (at_ g) RED else mret s);
     gl ← get_left s0 (at_ g);
     s1 ← set_color s0 gl BLACK;
     gr ← get_right s1 (at_ g);
     set_color s1 gr BLACK) = Ok s' /\
    st_at s' k (mk d2 (match k with [] => BLACK | _ => RED end)
                  (mk d1 BLACK (Node RED l a v r) p pv u1) g gv (Node BLACK ul b bv ur)) SL SR Z_.
Proof.
  intros H. up H. destruct d1; destruct d2; up H; destruct k as [|f k];
    try (rewrite (st_at_ne_root _ _ _ _ _ _ _ _ _ _ _ H); cbn [negb]; paint H);
    try (rewrite (m_root_at _ _ _ _ _ _ H); cbn [plug root]; rewrite ptr_eq_refl; runb).
  all: ra H; down_left H; paint H; up H; ra H; down_right H.
  all: match goal with |- context [set_color _ _ BLACK] => 
         apply (set_color_at BLACK) in H; destruct H as (s' & -> & H) end.
  all: exists s'; split; [done|]; up H; exact H.
Qed.

Lemma fix_insertion_loop_Ok fuel s k l a v r n acc SL SR Z_ :
  st_at s k (Node RED l a v r) SL SR Z_ -> k <> [] -> (length k < fuel)%nat ->
  RB None l BLACK n -> RB None r BLACK n -> CTX None k acc n ->
  exists s' t' m, fix_insertion_loop fuel s (at_ a) = Ok s' /\
    st_at s' [] t' SL SR Z_ /\ RB None t' BLACK m /\
    nodes t' = nodes (plug k (Node RED l a v r)).
Proof.
  revert s k l a v r n acc. induction fuel as [|fuel IH]; intros s k l a v r n acc H Hk Hf Hl Hr Hc; [lia|].
  destruct Hc as [|d p pv u k n' Hp Hu Hc|d p pv u k c acc n' Hp Hu Hc]; [done| |].
  2: { rewrite (fix_insertion_stop (S fuel) _ _ _ _ _ _ _ _ _ _ _ _ _ ltac:(lia) H).
       edestruct (RB_plug None (Frame d BLACK p pv u :: k) (Node RED l a v r)) as [m Hm];
         [by econstructor|by constructor|done|].
       exists s, (plug (Frame d BLACK p pv u :: k) (Node RED l a v r)), m.
       split_and!; try done. by apply st_at_plug. }
  inversion Hc as [| |d2 g gv u2 k2 c acc2 n2 Hg Hu2 Hk2]; subst.
  cbn [fix_insertion_loop]. ra H. rewrite (st_at_ne_root _ _ _ _ _ _ _ _ _ _ _ H). ra H.
  rp H. ra H. cbn [fcolor].
  change (bool_decide (RED = BLACK)) with false. cbn [orb]. ra H. ra H. cbn [fother].
  rewrite (RB_color _ _ _ _ Hu2). simpl in Hf. destruct c.
  - inversion Hu2 as [| |ul b bv ur ? Hb Hul Hur|]; subst. rewrite bool_decide_eq_true_2 by done. run.
    destruct (insertion_recolor_Ok _ _ _ _ _ _ _ _ _ _ _ _ _ _ _ _ _ _ _ _ H) as (s' & E & H').
    unfold mbind in E |- *. rewrite E. clear E. run. destruct k2 as [|f2 k2].
    + destruct fuel as [|fuel]; [lia|]. cbn [fix_insertion_loop].
      exists s', (mk d2 BLACK (mk d BLACK (Node RED l a v r) p pv u) g gv (Node BLACK ul b bv ur)), (S (S n')).
      split; [|split; [exact H'|split]].
      * destruct d2; (ra H'; rewrite (m_root_at _ _ _ _ _ _ H'); simpl; by rewrite ptr_eq_refl).
      * eapply RB_mk_black; [done| |by eapply RB_black]. eapply RB_mk_black; [done|by apply RB_red|done].
      * by destruct d2, d.
    + assert (Hblk : RB None (mk d BLACK (Node RED l a v r) p pv u) BLACK (S n'))
        by (eapply RB_mk_black; [done|by apply RB_red|done]).
      assert (Haunt : RB None (Node BLACK ul b bv ur) BLACK (S n')) by by eapply RB_black.
      destruct d2; cbn [mk] in H';
        (edestruct (IH s' (f2 :: k2)) as (s2 & t2 & m & E & H2 & HR & HN);
         [exact H'|done|simpl in *; lia|done|done|done|]; exists s2, t2, m; split_and!; try done;
         rewrite HN;
         cbn [plug]; rewrite !nodes_plug; unfold fill; by destruct d, (fside f2)).
  - rewrite bool_decide_eq_false_2 by done.
    destruct (insertion_rotation_Ok _ _ _ _ _ _ _ _ _ _ _ _ _ _ _ _ _ _ H Hl Hr Hu Hu2)
      as (s' & d' & y & yv & w & gl & gr & E & H' & HR & HN).
    rewrite E. run. ptrs. rewrite (fix_insertion_stop fuel _ _ _ _ _ _ _ _ _ _ _ _ _ ltac:(lia) H').
    edestruct (RB_plug None k2) as [m Hm]; [exact Hk2|exact HR|done|].
    eexists s', _, m. split_and!; [done| |exact Hm|].
    + by apply (st_at_plug s' (Frame d' BLACK y yv w :: k2)).
    + rewrite nodes_plug, HN. simpl plug. by rewrite nodes_plug.
Qed.

(** ** Insertion *)

(** A well-formed tree: its nodes, the sentinel's links to the first and the last of them,
    their number, and the red-black invariant. *)
Record tree_inv s t : Prop := {
  ti_st : st_at s [] t (first_ptr null (nodes t)) (last_ptr null (nodes t))
            (Z.of_nat (length (nodes t)));
  ti_rb : exists n, RB None t BLACK n;
}.

Lemma entries_value p t a v :
  (a, v) ∈ nodes t -> exists n, (a, n) ∈ entries p t /\ value n = v.
Proof.
  revert p. induction t as [|c l IHl b w r IHr]; intros p; simpl; [by intros ?%not_elem_of_nil|].
  rewrite elem_of_app, elem_of_cons. intros [H|[H|H]].
  - destruct (IHl (at_ b) H) as (n & Hn & <-). exists n. split; [|done]. set_solver.
  - simplify_eq. eexists. split; [apply list_elem_of_here|done].
  - destruct (IHr (at_ b) H) as (n & Hn & <-). exists n. split; [|done]. set_solver.
Qed.

Context (lt : A -> A -> bool) `{!StrictOrder lt}.

Lemma lt_asym x y : lt x y = true -> lt y x = false.
Proof.
  intros H. destruct (lt y x) eqn:E; [|done].
  pose proof (lt_transitive _ _ _ H E) as Hx. by rewrite (lt_irrefl (lt:=lt)) in Hx.
Qed.

(** The state between the allocation of the new node and its linking. *)
Definition st_new_at s k t b v : ptr -> ptr -> Z -> Prop :=
  st s (centries k (root t) ++ entries (top k) t ++ [(b, Node_ null null null RED v)]) (root (plug k t)).

Lemma get_value_new s t b v SL SR Z_ x :
  st_new_at s [] t b v SL SR Z_ -> x ∈ nodes t -> get_value s (at_ x.1) = Ok x.2.
Proof.
  intros H Hin. destruct x as [a x]. destruct (entries_value super t a x Hin) as (n & Hn & <-).
  eapply get_value_st; [exact H|]. set_solver.
Qed.

Lemma smaller_than_left_Ok s t b v m1 m2 Z_ SR :
  nodes t = m1 ++ m2 ->
  Forall (fun x => lt x.2 v = true) m1 -> Forall (fun x => lt v x.2 = true) m2 ->
  st_new_at s [] t b v (first_ptr null (nodes t)) SR Z_ ->
  smaller_than_left lt s v = Ok (match m1 with [] => true | _ => false end).
Proof.
  intros E H1 H2 H. unfold smaller_than_left. rewrite (st_left _ _ _ _ _ _ H).
  rewrite Forall_forall in H1, H2. rewrite E in *.
  destruct m1 as [|x m1']; [destruct m2 as [|x m2']|]; simpl; ptrs; [done|..];
    rewrite (get_value_new _ _ _ _ _ _ _ _ H) by (rewrite E; set_solver); run.
  - rewrite H2 by set_solver. done.
  - rewrite lt_asym by (apply H1; set_solver). done.
Qed.

Lemma greater_than_right_Ok s t b v m1 m2 Z_ SL :
  nodes t = m1 ++ m2 ->
  Forall (fun x => lt x.2 v = true) m1 -> Forall (fun x => lt v x.2 = true) m2 ->
  st_new_at s [] t b v SL (last_ptr null (nodes t)) Z_ ->
  greater_than_right lt s v = Ok (match m2 with [] => true | _ => false end).
Proof.
  intros E H1 H2 H. unfold greater_than_right. rewrite (st_right _ _ _ _ _ _ H).
  rewrite Forall_forall in H1, H2. unfold last_ptr. destruct m2 as [|y m2' _] using rev_ind.
  - rewrite E, app_nil_r. destruct m1 as [|y m1' _] using rev_ind; [done|]. rewrite last_snoc. ptrs.
    rewrite (get_value_new _ _ _ _ _ _ _ _ H) by (rewrite E; set_solver). run.
    rewrite H1 by set_solver. done.
  - rewrite E, app_assoc, last_snoc. ptrs.
    rewrite (get_value_new _ _ _ _ _ _ _ _ H) by (rewrite E; set_solver). run.
    rewrite lt_asym by (apply H2; set_solver). by destruct m2'.
Qed.

Lemma first_ptr_insert t b v m1 m2 :
  nodes t = m1 ++ m2 ->
  first_ptr null (m1 ++ (b, v) :: m2) =
  match m1 with [] => at_ b | _ => first_ptr null (nodes t) end.
Proof. intros ->. by destruct m1. Qed.

Lemma last_ptr_insert t b v m1 m2 :
  nodes t = m1 ++ m2 ->
  last_ptr null (m1 ++ (b, v) :: m2) =
  match m2 with [] => at_ b | _ => last_ptr null (nodes t) end.
Proof.
  intros ->. unfold last_ptr. rewrite last_app_cons. destruct m2; [done|]. by rewrite last_app_cons.
Qed.

Lemma update_extremes_Ok s t b v m1 m2 Z_ :
  nodes t = m1 ++ m2 ->
  Forall (fun x => lt x.2 v = true) m1 -> Forall (fun x => lt v x.2 = true) m2 ->
  st_new_at s [] t b v (first_ptr null (nodes t)) (last_ptr null (nodes t)) Z_ ->
  exists s', update_extremes lt s (at_ b) v = Ok s' /\
    st_new_at s' [] t b v (first_ptr null (m1 ++ (b, v) :: m2)) (last_ptr null (m1 ++ (b, v) :: m2)) Z_.
Proof.
  intros E H1 H2 H. unfold update_extremes. rewrite (smaller_than_left_Ok _ _ _ _ _ _ _ _ E H1 H2 H). run.
  rewrite (first_ptr_insert t), (last_ptr_insert t) by done.
  destruct m1 as [|x m1'] eqn:Em1; [set (s1 := with_super_left s (at_ b))|].
  - assert (H' : st_new_at s1 [] t b v (at_ b) (last_ptr null (nodes t)) Z_) by by destruct H.
    rewrite (greater_than_right_Ok _ _ _ _ _ _ _ _ E H1 H2 H'). run. cbn [negb andb].
    destruct m2; eexists; (split; [done|]); [by destruct H'|done].
  - rewrite (greater_than_right_Ok _ _ _ _ _ _ _ _ E H1 H2 H). run. cbn [negb andb].
    destruct m2 as [|y m2' _] eqn:Em2 using rev_ind; cbn [negb]; [eexists; (split; [done|]); by destruct H|].
    assert (Hm2 : match m2' ++ [y] with [] => true | _ => false end = false) by (by destruct m2').
    rewrite Hm2. cbn [negb]. replace (match m2' ++ [y] with [] => _ | _ => _ end) with (last_ptr null (nodes t))
      by (by destruct m2').
    rewrite Forall_forall in H1, H2.
    rewrite (st_left _ _ _ _ _ _ H), E. simpl first_ptr.
    rewrite (get_value_new _ _ _ _ _ _ _ _ H) by (rewrite E; set_solver). run. rewrite H1 by set_solver. cbn [negb].
    rewrite (st_right _ _ _ _ _ _ H), E. unfold last_ptr. rewrite app_assoc, last_snoc.
    rewrite (get_value_new _ _ _ _ _ _ _ _ H) by (rewrite E; set_solver). run. rewrite H2 by set_solver. cbn [negb].
    eexists. split; [done|]. rewrite E in H. unfold last_ptr in H. by rewrite app_assoc, last_snoc in H.
Qed.

Lemma st_new_down s f k t b v SL SR Z_ :
  st_new_at s k (fill f t) b v SL SR Z_ -> st_new_at s (f :: k) t b v SL SR Z_.
Proof.
  unfold st_new_at. rewrite root_fill. simpl. unfold fill. rewrite entries_mk.
  intros H. eapply st_perm; [exact H|]. solve_Permutation.
Qed.

(** The new node takes the place of an empty subtree. *)
Lemma link_new s d f k b v q SL SR Z_ :
  f = Frame d (fcolor f) (faddr f) (fvalue f) (fother f) -> q = at_ (faddr f) ->
  st_new_at s (f :: k) Leaf b v SL SR Z_ ->
  exists s', (s0 ← set_child s q (is_lft d) (at_ b); set_parent s0 (at_ b) q) = Ok s' /\
    st_at s' (f :: k) (Node RED Leaf b v Leaf) SL SR Z_.
Proof.
  intros Hf -> H. unfold st_new_at, st_at in *. rewrite (root_plug_cons f k _ (Node RED Leaf b v Leaf)) in H.
  simpl in H |- *. rewrite Hf in H |- *. cbn [fside fcolor faddr fvalue fother] in *.
  apply (set_child_st d (at_ b)) in H as (s1 & -> & H). run.
  wr H. eexists. split; [done|]. eapply st_perm; [exact H|]. solve_Permutation.
Qed.

Lemma descend_Ok fuel s k t b v m1 m2 SL SR Z_ :
  t <> Leaf -> (length (nodes t) < fuel)%nat -> st_new_at s k t b v SL SR Z_ ->
  nodes (plug k t) = m1 ++ m2 ->
  Forall (fun x => lt x.2 v = true) m1 -> Forall (fun x => lt x.2 v = false) m2 ->
  Forall (fun x => lt x.2 v = true) (before k) -> Forall (fun x => lt x.2 v = false) (after k) ->
  exists s' f k', descend lt fuel s (root t) (at_ b) v = Ok s' /\
    st_at s' (f :: k') (Node RED Leaf b v Leaf) SL SR Z_ /\ plug (f :: k') Leaf = plug k t /\
    before (f :: k') = m1 /\ after (f :: k') = m2.
Proof.
  intros Hne Hf H E H1 H2. revert k t Hne Hf H E.
  induction fuel as [|fuel IH]; intros k t Hne Hf H E Hb Ha; [lia|]. destruct t as [|c l a x r]; [done|].
  cbn [descend]. simpl root.
  rewrite (get_value_st _ _ _ _ _ _ H a (Node_ (top k) (root l) (root r) c x)) by (simpl; mem). run.
  assert (E' := E). rewrite nodes_plug in E'. simpl in E', Hf. rewrite length_app in Hf. simpl in Hf.
  rewrite <- app_assoc, app_assoc in E'. simpl in E'. symmetry in E'. cbn [value].
  destruct (lt x v) eqn:Ex.
  - assert (Hb' : Forall (fun x => lt x.2 v = true) (before (Frame Rgt c a x l :: k))).
    { pose proof (split_before (fun x => lt x.2 v) _ _ _ _ _ H1 H2 E' Ex) as Hs. simpl.
      rewrite !Forall_app in *. rewrite Forall_cons. naive_solver. }
    apply (st_new_down s (Frame Rgt c a x l)) in H as H'.
    rewrite (get_right_st _ _ _ _ _ _ H a (Node_ (top k) (root l) (root r) c x)) by (simpl; mem).
    run. cbn [right]. destruct r as [|rc rl ra_ rv rr]; simpl root; ptrs.
    + destruct (link_new s Rgt (Frame Rgt c a x l) k b v (at_ a) SL SR Z_ eq_refl eq_refl H') as (s' & E2 & H3).
      cbn [set_child is_lft] in E2. rewrite E2.
      edestruct (split_unique (fun x => lt x.2 v) (before (Frame Rgt c a x l :: k)) (after (Frame Rgt c a x l :: k)))
        as [Em1 Em2]; [exact Hb'|exact Ha|exact H1|exact H2| |].
      { rewrite <- E. change (plug k ?t) with (plug (Frame Rgt c a x l :: k) Leaf). by rewrite nodes_plug. }
      exists s', (Frame Rgt c a x l), k. done.
    + apply (IH (Frame Rgt c a x l :: k) (Node rc rl ra_ rv rr)); [done|simpl in *; lia|done|done|done|done].
  - assert (Ha' : Forall (fun x => lt x.2 v = false) (after (Frame Lft c a x r :: k))).
    { pose proof (split_after (fun x => lt x.2 v) _ _ _ _ _ H1 H2 E' Ex) as Hs. simpl.
      by rewrite Forall_cons. }
    assert (Hb' : Forall (fun x => lt x.2 v = true) (before (Frame Lft c a x r :: k))) by (simpl; by rewrite app_nil_r).
    apply (st_new_down s (Frame Lft c a x r)) in H as H'.
    rewrite (get_left_st _ _ _ _ _ _ H a (Node_ (top k) (root l) (root r) c x)) by (simpl; mem).
    run. cbn [left]. destruct l as [|lc ll la lv lr]; simpl root; ptrs.
    + destruct (link_new s Lft (Frame Lft c a x r) k b v (at_ a) SL SR Z_ eq_refl eq_refl H') as (s' & E2 & H3).
      cbn [set_child is_lft] in E2. rewrite E2.
      edestruct (split_unique (fun x => lt x.2 v) (before (Frame Lft c a x r :: k)) (after (Frame Lft c a x r :: k)))
        as [Em1 Em2]; [exact Hb'|exact Ha'|exact H1|exact H2| |].
      { rewrite <- E. change (plug k ?t) with (plug (Frame Lft c a x r :: k) Leaf). by rewrite nodes_plug. }
      exists s', (Frame Lft c a x r), k. done.
    + apply (IH (Frame Lft c a x r :: k) (Node lc ll la lv lr)); [done|simpl in *; lia|done|done|done|done].
Qed.

Lemma find_node_Ok s t below above m1 m2 m3 SL SR :
  st_at s [] t SL SR (Z.of_nat (length (nodes t))) -> nodes t = m1 ++ m2 ++ m3 ->
  Forall (fun x => below x.2 = true /\ above x.2 = false) m1 ->
  Forall (fun x => below x.2 = false /\ above x.2 = false) m2 ->
  Forall (fun x => below x.2 = false /\ above x.2 = true) m3 ->
  exists p, find_node s below above = Ok p /\
    ((m2 = [] /\ p = super) \/ exists x, x ∈ m2 /\ p = at_ x.1).
Proof.
  intros H E H1 H2 H3. unfold find_node. rewrite (st_size _ _ _ _ _ _ H).
  destruct (Z.eqb_spec (Z.of_nat (length (nodes t))) 0) as [E0|].
  - exists super. split; [done|]. left. split; [|done]. rewrite E in E0.
    destruct m1, m2; done || (rewrite ?length_app in E0; simpl in E0; lia).
  - rewrite (m_root_at _ _ _ _ _ _ H). simpl plug.
    eapply rb_find_loop_Ok; [exact H| |exact E|done..|constructor|constructor].
    pose proof (height_le t). pose proof (proj1 (walk_at _ _ _ _ _ _ H)). lia.
Qed.

Lemma st_with_size s L R SL SR Z_ Z' : st s L R SL SR Z_ -> st (with_size s Z') L R SL SR Z'.
Proof. by intros []. Qed.

(** A value that is not in the tree yet. *)
Lemma rb_emplace_Ok dup s t v m1 m2 :
  tree_inv s t -> nodes t = m1 ++ m2 ->
  Forall (fun x => lt x.2 v = true) m1 -> Forall (fun x => lt v x.2 = true) m2 ->
  exists s' t' b, rb_emplace lt dup s v = Ok (s', at_ b, true) /\ tree_inv s' t' /\
    nodes t' = m1 ++ (b, v) :: m2.
Proof.
  intros Hi E H1 H2. unfold rb_emplace.
  assert (H2' : Forall (fun x => lt x.2 v = false) m2) by (eapply Forall_impl; [exact H2|]; simpl; intros; by apply lt_asym).
  assert (Hloc : (if negb dup then find_node s (fun x => lt x v) (fun x => lt v x) else mret super) = Ok super).
  { destruct dup; [done|]. simpl.
    destruct (find_node_Ok s t (fun x => lt x v) (fun x => lt v x) m1 [] m2 _ _ (ti_st _ _ Hi)) as (p & -> & [[_ ->]|(x & Hx & _)]); try done.
    - eapply Forall_impl; [exact H1|]. simpl. intros. split; [done|by apply lt_asym].
    - eapply Forall_impl; [exact H2|]. simpl. intros. split; [by apply lt_asym|done].
    - by apply not_elem_of_nil in Hx. }
  rewrite Hloc. run. ptrs. destruct Hi as [H (n & HR)].
  destruct (st_new _ (Node_ null null null RED v) _ _ _ _ _ H) as (s1 & b & -> & H').
  assert (Hn : st_new_at s1 [] t b v (first_ptr null (nodes t)) (last_ptr null (nodes t)) (Z.of_nat (length (nodes t)))).
  { eapply st_perm; [exact H'|]. simpl. solve_Permutation. }
  clear H'. destruct (update_extremes_Ok _ _ _ _ _ _ _ E H1 H2 Hn) as (s2 & -> & Hn2). run.
  rewrite (st_root _ _ _ _ _ _ Hn2). destruct t as [|c l a x r]; simpl root; ptrs.
  - unfold st_new_at in Hn2. simpl in Hn2. simpl in E. destruct m1, m2; try done. simpl in Hn2.
    apply (st_with_root _ _ _ (at_ b)) in Hn2. simpl m_root. wr Hn2.
    rewrite (st_root _ _ _ _ _ _ Hn2). wr Hn2.
    eexists _, (Node BLACK Leaf b v Leaf), b. split; [done|]. split; [|done]. split.
    + simpl. by eapply st_with_size.
    + exists 1%nat. by repeat econstructor.
  - change (at_ a) with (root (Node c l a x r)).
    edestruct (descend_Ok (walk s2) s2 [] (Node c l a x r)) as (s3 & f & k & -> & H3 & Hpl & Hbe & Haf);
      [done| |exact Hn2|exact E|done|done|constructor|constructor|].
    { rewrite (st_walk _ _ _ _ _ _ Hn2), length_app, length_app, length_entries. simpl length. lia. }
    run. unfold fix_insertion_violations_if_needed. ptrs. ra H3.
    edestruct (RB_unplug None (f :: k) Leaf n) as (acc & n' & c' & Hc & Hl & _); [by right|by rewrite Hpl|].
    assert (n' = 0%nat) as -> by by inversion Hl.
    edestruct (fix_insertion_loop_Ok (walk s3) s3 (f :: k) Leaf b v Leaf) as (s4 & t4 & m & -> & H4 & HR4 & HN4);
      [exact H3|done| |constructor|constructor|exact Hc|].
    { pose proof (proj2 (walk_at _ _ _ _ _ _ H3)). done. }
    run. rewrite nodes_plug, Hbe, Haf in HN4. simpl in HN4.
    eexists _, t4, b. split; [done|]. split; [|done]. split; [|by exists m].
    rewrite HN4, (st_size _ _ _ _ _ _ H4), E. replace (Z.of_nat (length (m1 ++ (b, v) :: m2)))
      with (Z.of_nat (length (m1 ++ m2)) + 1) by (rewrite !length_app; simpl; lia).
    eapply st_with_size, H4.
Qed.
End insert.
