(* ===== verification/RedBlackTreeRemove.v ===== *)
(** Removal from the trees of RedBlackTreeRep.v: the swap with the successor, the fix-up of
    a black node that went missing, and the unlinking. *)
From stdpp Require Import gmap.
From S2P Require Import Prelude OrderedSet RedBlackTree RedBlackTreeRep RedBlackTreeSearch RedBlackTreeInsert.

Section remove.
Context {A : Type}.
Implicit Types (t u l r : tree A) (k : list (frame A)) (f : frame A) (s : rbtree A).

Definition left_of t : tree A := match t with Leaf => Leaf | Node _ l _ _ _ => l end.
Definition right_of t : tree A := match t with Leaf => Leaf | Node _ _ _ _ r => r end.

(** What [fix_double_black] reads before it looks at the cases. *)
Lemma fix_double_black_step fuel s d pc p pv u k c l a v r SL SR Z_ :
  st_at s (Frame d pc p pv u :: k) (Node c l a v r) SL SR Z_ ->
  fix_double_black (S fuel) s (at_ a) =
  double_black_cases (fix_double_black fuel) s (at_ a) (at_ p) (root u) pc (tcolor u)
    (tcolor (left_of u)) (tcolor (right_of u)) (is_lft d).
Proof.
  intros H. cbn [fix_double_black]. ptrs. ra H. rewrite (st_at_ne_root _ _ _ _ _ _ _ _ _ _ _ H).
  ra H. ra H. cbn [fother]. assert (Hu := H). apply st_at_turn in Hu. cbn [fother] in Hu.
  rewrite (color_or_black_at _ _ _ _ _ _ Hu). run. destruct u as [|uc ul b bv ur]; simpl root; ptrs.
  - rp H. ra H. done.
  - unfold left_child_color, right_child_color. ra Hu.
    assert (Hl := Hu). down_left Hl. rewrite (color_or_black_at _ _ _ _ _ _ Hl). run. ra Hu.
    assert (Hr := Hu). down_right Hr. rewrite (color_or_black_at _ _ _ _ _ _ Hr). run.
    rp H. ra H. done.
Qed.

(** The parent's colour and the black height around it. *)
Definition fits dm k (c : Color) (n : nat) : Prop :=
  exists acc, CTX dm k acc (match c with RED => n | BLACK => S n end) /\ (c = RED -> acc = true).

Lemma fits_plug dm k t c n :
  fits dm k c n -> RB dm t c (match c with RED => n | BLACK => S n end) -> exists m, RB dm (plug k t) BLACK m.
Proof. intros (acc & Hk & Hc) Ht. by eapply RB_plug. Qed.

(** A black sibling whose far child is red: case 6. *)
Lemma fix_double_black_6 dm fuel s d pc p pv near b bv far k l a v r c1 n SL SR Z_ :
  let t := Node BLACK l a v r in
  st_at s (Frame d pc p pv (mk d BLACK near b bv far) :: k) t SL SR Z_ ->
  RB dm t BLACK n -> RB dm near c1 n -> RB dm far RED n -> fits dm k pc (S n) ->
  dm <> Some p -> dm <> Some b ->
  exists s' t' m, fix_double_black (S fuel) s (at_ a) = Ok s' /\
    st_at s' [] t' SL SR Z_ /\ RB dm t' BLACK m /\
    nodes t' = nodes (plug (Frame d pc p pv (mk d BLACK near b bv far) :: k) t).
Proof.
  intros t H Ht Hn Hf Hk Hp Hb. rewrite (fix_double_black_step _ _ _ _ _ _ _ _ _ _ _ _ _ _ _ _ H).
  inversion Hf as [| |fl fa fv fr ? Hfa Hfl Hfr|]; subst. unfold t in *.
  assert (HR : forall d, exists m, RB dm (plug k (mk d pc (mk d BLACK (Node BLACK l a v r) p pv near) b bv
      (Node BLACK fl fa fv fr))) BLACK m).
  { intros d'. eapply fits_plug; [exact Hk|]. destruct pc;
      [apply RB_mk_red|eapply RB_mk_black]; (done || by eapply RB_mk_black || by eapply RB_black). }
  destruct (HR d) as (m & HRd). clear HR.
  destruct d; cbn [mk] in *; cbn [tcolor left_of right_of is_lft].
  - replace (double_black_cases _ _ _ _ _ _ _ _ _ _) with
      (s ← set_color s (at_ b) pc; s ← set_color s (at_ p) BLACK; r ← get_right s (at_ b);
       s ← set_color s r BLACK; s ← set_color s (at_ a) BLACK; rotate_left s (at_ p))
      by (by destruct pc, (tcolor near)).
    up H. down_right H. paint H. up H. paint H. down_right H. ra H. down_right H. paint H. up H. up H.
    down_left H. paint H. up H. turn_tree H. eexists _, _, m. split; [done|].
    split; [by apply (proj2 (st_at_plug _ _ _ _ _ _) H)|]. split; [done|].
    simpl plug. rewrite !nodes_plug. unfold fill. simpl. norm_nodes.
  - replace (double_black_cases _ _ _ _ _ _ _ _ _ _) with
      (s ← set_color s (at_ b) pc; s ← set_color s (at_ p) BLACK; l ← get_left s (at_ b);
       s ← set_color s l BLACK; s ← set_color s (at_ a) BLACK; rotate_right s (at_ p))
      by (by destruct pc, (tcolor near)).
    up H. down_left H. paint H. up H. paint H. down_left H. ra H. down_left H. paint H. up H. up H.
    down_right H. paint H. up H. turn_tree H. eexists _, _, m. split; [done|].
    split; [by apply (proj2 (st_at_plug _ _ _ _ _ _) H)|]. split; [done|].
    simpl plug. rewrite !nodes_plug. unfold fill. simpl. norm_nodes.
Qed.

(** A black sibling with a red child, near or far: cases 5 and 6. *)
Lemma fix_double_black_56 dm fuel s d pc p pv near b bv far k l a v r c1 c2 n SL SR Z_ :
  let t := Node BLACK l a v r in
  st_at s (Frame d pc p pv (mk d BLACK near b bv far) :: k) t SL SR Z_ ->
  RB dm t BLACK n -> RB dm near c1 n -> RB dm far c2 n -> c1 = RED \/ c2 = RED ->
  fits dm k pc (S n) -> dm <> Some p -> dm <> Some b ->
  exists s' t' m, fix_double_black (S (S fuel)) s (at_ a) = Ok s' /\
    st_at s' [] t' SL SR Z_ /\ RB dm t' BLACK m /\
    nodes t' = nodes (plug (Frame d pc p pv (mk d BLACK near b bv far) :: k) t).
Proof.
  intros t H Ht Hn Hf Hc Hk Hp Hb. destruct c2; [by eapply fix_double_black_6|].
  destruct Hc as [->|]; [|done]. unfold t in *.
  rewrite (fix_double_black_step _ _ _ _ _ _ _ _ _ _ _ _ _ _ _ _ H).
  pose proof (RB_color _ _ _ _ Hf) as Ef.
  inversion Hn as [| |nl na nv nr ? Hna Hnl Hnr|]; subst.
  set (near' := mk d RED (match d with Lft => nr | Rgt => nl end) b bv far).
  assert (Hcase : exists s', double_black_cases (fix_double_black (S fuel)) s (at_ a) (at_ p)
      (root (mk d BLACK (Node RED nl na nv nr) b bv far)) pc BLACK
      (tcolor (left_of (mk d BLACK (Node RED nl na nv nr) b bv far)))
      (tcolor (right_of (mk d BLACK (Node RED nl na nv nr) b bv far))) (is_lft d) =
      fix_double_black (S fuel) s' (at_ a) /\
    st_at s' (Frame d pc p pv (mk d BLACK (match d with Lft => nl | Rgt => nr end) na nv near') :: k)
      (Node BLACK l a v r) SL SR Z_).
  { destruct d; unfold near'; cbn [mk] in *; cbn [tcolor left_of right_of is_lft root]; rewrite Ef.
    - replace (double_black_cases _ _ _ _ _ _ _ _ _ _) with
        (s ← set_color s (at_ b) RED; l ← get_left s (at_ b); s ← set_color s l BLACK;
         s ← rotate_right s (at_ b); fix_double_black (S fuel) s (at_ a)) by (by destruct pc).
      up H. down_right H. paint H. ra H. down_left H. paint H. up H. turn_tree H. up H. down_left H.
      eexists. split; [done|]. exact H.
    - replace (double_black_cases _ _ _ _ _ _ _ _ _ _) with
        (s ← set_color s (at_ b) RED; r ← get_right s (at_ b); s ← set_color s r BLACK;
         s ← rotate_left s (at_ b); fix_double_black (S fuel) s (at_ a)) by (by destruct pc).
      up H. down_left H. paint H. ra H. down_right H. paint H. up H. turn_tree H. up H. down_right H.
      eexists. split; [done|]. exact H. }
  destruct Hcase as (s' & E & H').
  replace (tcolor (mk d BLACK _ b bv far)) with BLACK by (by destruct d). rewrite E.
  edestruct (fix_double_black_6 dm fuel s' d pc p pv) as (sf & tf & m & E2 & H2 & HR & HN);
    [exact H'|done| |apply RB_mk_red; [done| |done]|done|done|done|].
  { by destruct d. } { by destruct d. }
  exists sf, tf, m. split_and!; try done. rewrite HN. simpl plug. rewrite !nodes_plug. unfold fill, near'.
  destruct d; simpl; norm_nodes.
Qed.

(** A black subtree with a black node on every path is a black node. *)
Lemma RB_black_inv dm u n :
  RB dm u BLACK (S n) ->
  exists ul b bv ur c1 c2, u = Node BLACK ul b bv ur /\ dm <> Some b /\ RB dm ul c1 n /\ RB dm ur c2 n.
Proof. inversion 1; subst. by do 6 eexists. Qed.

(** The black sibling and both its children, all black: the sibling turns red. *)
Lemma paint_sibling s d p pv ul b bv ur k l a v r pc pc' SL SR Z_ :
  st_at s (Frame d pc p pv (Node BLACK ul b bv ur) :: k) (Node BLACK l a v r) SL SR Z_ ->
  exists s',
    (s ← (if bool_decide (pc' = pc) then mret s else set_color s (at_ p) pc');
     s ← set_color s (at_ b) RED; set_color s (at_ a) BLACK) = Ok s' /\
    st_at s' (Frame d pc' p pv (Node RED ul b bv ur) :: k) (Node BLACK l a v r) SL SR Z_.
Proof.
  intros H. up H. destruct d; (case_bool_decide; [subst pc'; run|paint H]).
  1,2: down_right H; paint H; up H; down_left H; apply (set_color_at BLACK) in H;
    destruct H as (s' & -> & H); by exists s'.
  all: down_left H; paint H; up H; down_right H; apply (set_color_at BLACK) in H;
    destruct H as (s' & -> & H); by exists s'.
Qed.

(** Below a red parent. *)
Lemma fix_double_black_red dm fuel s d p pv u k l a v r n SL SR Z_ :
  let t := Node BLACK l a v r in
  st_at s (Frame d RED p pv u :: k) t SL SR Z_ ->
  RB dm t BLACK n -> RB dm u BLACK (S n) -> CTX dm k true (S n) -> dm <> Some p ->
  exists s' t' m, fix_double_black (S (S fuel)) s (at_ a) = Ok s' /\
    st_at s' [] t' SL SR Z_ /\ RB dm t' BLACK m /\
    nodes t' = nodes (plug (Frame d RED p pv u :: k) t).
Proof.
  intros t H Ht Hu Hk Hp. destruct (RB_black_inv _ _ _ Hu) as (ul & b & bv & ur & c1 & c2 & -> & Hb & Hl & Hr).
  destruct (decide (c1 = BLACK /\ c2 = BLACK)) as [[-> ->]|Hc].
  - rewrite (fix_double_black_step _ _ _ _ _ _ _ _ _ _ _ _ _ _ _ _ H).
    cbn [left_of right_of tcolor]. rewrite (RB_color _ _ _ _ Hl), (RB_color _ _ _ _ Hr).
    unfold t in *. destruct (paint_sibling _ _ _ _ _ _ _ _ _ _ _ _ _ _ BLACK _ _ _ H) as (s' & E & H').
    cbn [double_black_cases]. simpl root. ptrs. change (bool_decide (BLACK = RED)) with false in E. rewrite E.
    edestruct (RB_plug dm k (fill (Frame d BLACK p pv (Node RED ul b bv ur)) (Node BLACK l a v r))) as [m Hm];
      [exact Hk|by eapply RB_mk_black; [..|apply RB_red]|done|].
    eexists s', _, m. split; [done|]. split; [by apply (proj2 (st_at_plug _ _ _ _ _ _) H')|]. split; [done|].
    simpl plug. rewrite !nodes_plug. unfold fill. by destruct d.
  - destruct d.
    + eapply (fix_double_black_56 dm fuel _ Lft); [exact H|exact Ht|exact Hl|exact Hr| |by exists true|done|done].
      destruct c1, c2; tauto.
    + eapply (fix_double_black_56 dm fuel _ Rgt); [exact H|exact Ht|exact Hr|exact Hl| |by exists true|done|done].
      destruct c1, c2; tauto.
Qed.

Lemma fix_double_black_Ok dm fuel s k l a v r acc n SL SR Z_ :
  let t := Node BLACK l a v r in
  st_at s k t SL SR Z_ -> RB dm t BLACK n -> CTX dm k acc (S n) -> (length k + 3 <= fuel)%nat ->
  exists s' t' m, fix_double_black fuel s (at_ a) = Ok s' /\
    st_at s' [] t' SL SR Z_ /\ RB dm t' BLACK m /\ nodes t' = nodes (plug k t).
Proof.
  intros t. unfold t. clear t.
  revert s k l a v r acc n. induction fuel as [|fuel IH]; intros s k l a v r acc n H Ht Hk Hf; [lia|].
  destruct fuel as [|[|fuel]]; [lia..|]. inversion Hk as [|d p pv u k' n' Hp Hu Hk'|d p pv u k' c acc' n' Hp Hu Hk']; subst.
  - cbn [fix_double_black]. ptrs. ra H. rewrite (m_root_at _ _ _ _ _ _ H). simpl. rewrite ptr_eq_refl.
    apply (set_color_at BLACK) in H as (s' & -> & H). by exists s', (Node BLACK l a v r), n.
  - by eapply fix_double_black_red.
  - destruct c.
    + (* a red sibling: case 2 *)
      inversion Hu as [| |ul b bv ur ? Hb Hul Hur|]; subst.
      assert (Hul' := RB_color _ _ _ _ Hul). assert (Hur' := RB_color _ _ _ _ Hur).
      rewrite (fix_double_black_step _ _ _ _ _ _ _ _ _ _ _ _ _ _ _ _ H).
      cbn [left_of right_of tcolor double_black_cases root]. rewrite Hul', Hur'. cbn [double_black_cases].
      up H. destruct d; cbn [is_lft].
      * paint H. down_right H. paint H. up H. turn_tree H. down_left H. down_left H.
        edestruct (fix_double_black_red dm fuel) as (sf & tf & m & E2 & H2 & HR & HN);
          [exact H|exact Ht|exact Hul|by econstructor|done|].
        exists sf, tf, m. split_and!; try done. rewrite HN. simpl plug. rewrite !nodes_plug. unfold fill. simpl. norm_nodes.
      * paint H. down_left H. paint H. up H. turn_tree H. down_right H. down_right H.
        edestruct (fix_double_black_red dm fuel) as (sf & tf & m & E2 & H2 & HR & HN);
          [exact H|exact Ht|exact Hur|by econstructor|done|].
        exists sf, tf, m. split_and!; try done. rewrite HN. simpl plug. rewrite !nodes_plug. unfold fill. simpl. norm_nodes.
    + destruct (RB_black_inv _ _ _ Hu) as (ul & b & bv & ur & c1 & c2 & -> & Hb & Hl & Hr).
      destruct (decide (c1 = BLACK /\ c2 = BLACK)) as [[-> ->]|Hc].
      * (* everything is black: case 3 *)
        rewrite (fix_double_black_step _ _ _ _ _ _ _ _ _ _ _ _ _ _ _ _ H).
        cbn [left_of right_of tcolor]. rewrite (RB_color _ _ _ _ Hl), (RB_color _ _ _ _ Hr).
        destruct (paint_sibling _ _ _ _ _ _ _ _ _ _ _ _ _ _ BLACK _ _ _ H) as (s' & E & H').
        cbn [double_black_cases]. simpl root. ptrs. change (bool_decide (BLACK = BLACK)) with true in E.
        cbn [mbind result_bind mret result_ret] in E.
        assert (Hblk : RB dm (mk d BLACK (Node BLACK l a v r) p pv (Node RED ul b bv ur)) BLACK (S n))
          by (by eapply RB_mk_black; [..|apply RB_red]).
        apply (proj2 (st_at_down _ _ _ _ _ _ _)) in H'. unfold fill in H'. simpl in H'. simpl in Hf.
        assert (Hstep : forall rec, (s ← set_color s (at_ b) RED; s ← set_color s (at_ a) BLACK; rec s (at_ p)) = rec s' (at_ p) :> result (rbtree A)).
        { intros rec. destruct (set_color s (at_ b) RED); run; [|done]. cbn [mbind result_bind] in E. by rewrite E. }
        rewrite Hstep. destruct d; cbn [mk] in *;
          (edestruct (IH s' k') as (sf & tf & m & E2 & H2 & HR & HN);
           [exact H'|exact Hblk|exact Hk'|lia|]; exists sf, tf, m; split_and!; try done;
           rewrite HN; simpl plug; rewrite !nodes_plug; done).
      * destruct d.
        -- eapply (fix_double_black_56 dm (S fuel) _ Lft); [exact H|exact Ht|exact Hl|exact Hr| |by exists acc'|done|done].
           destruct c1, c2; tauto.
        -- eapply (fix_double_black_56 dm (S fuel) _ Rgt); [exact H|exact Ht|exact Hr|exact Hl| |by exists acc'|done|done].
           destruct c1, c2; tauto.
Qed.

(** ** Swapping a node with its successor *)

(** The nodes of a context below a node [p] other than the sentinel. *)
Definition top_in k (p : ptr) : ptr := match k with [] => p | f :: _ => at_ (faddr f) end.
Fixpoint centries_in k (h p : ptr) : list (positive * vnode A) :=
  match k with
  | [] => []
  | f :: k =>
    (faddr f, link (fside f) (top_in k p) h (root (fother f)) (fcolor f) (fvalue f)) ::
    entries (at_ (faddr f)) (fother f) ++ centries_in k (at_ (faddr f)) p
  end.

Lemma entries_plug_in k t p :
  entries p (plug k t) ≡ₚ centries_in k (root t) p ++ entries (top_in k p) t.
Proof.
  revert t. induction k as [|f k IH]; intros t; simpl; [done|].
  rewrite IH, root_fill. unfold fill. rewrite entries_mk. solve_Permutation.
Qed.

Lemma set_parent_in q s k t h p L R SL SR Z_ :
  k <> [] -> st s (centries_in k h p ++ L) R SL SR Z_ ->
  exists s', set_parent_if s (root (plug k t)) q = Ok s' /\
    st s' (centries_in k h q ++ L) R SL SR Z_.
Proof.
  revert t h L. induction k as [|f k IH]; intros t h L Hne H; [done|]. destruct k as [|g k].
  - simpl in *. rewrite root_fill. unfold set_parent_if. ptrs. wr H. eexists. split; [done|].
    destruct (fside f); done.
  - change (plug (f :: g :: k) t) with (plug (g :: k) (fill f t)).
    set (e := (faddr f, link (fside f) (at_ (faddr g)) h (root (fother f)) (fcolor f) (fvalue f))).
    assert (Hcons : forall p, centries_in (f :: g :: k) h p =
      e :: entries (at_ (faddr f)) (fother f) ++ centries_in (g :: k) (at_ (faddr f)) p) by done.
    rewrite Hcons in H. rewrite Hcons. remember (g :: k) as k'.
    destruct (IH (fill f t) (at_ (faddr f)) (e :: entries (at_ (faddr f)) (fother f) ++ L)) as (s' & E & H').
    { by subst k'. } { eapply st_perm; [exact H|]. solve_Permutation. }
    exists s'. split; [done|]. eapply st_perm; [exact H'|]. solve_Permutation.
Qed.

(** The leftmost node of a subtree. *)
Lemma leftmost_split r :
  r <> Leaf -> exists ks c y v u, r = plug ks (Node c Leaf y v u) /\
    Forall (fun f => fside f = Lft) ks /\ before ks = [] /\ nodes r = (y, v) :: nodes u ++ after ks.
Proof.
  induction r as [|c l IHl a v r _]; [done|]. intros _. destruct l as [|lc ll la lv lr].
  - exists [], c, a, v, r. simpl. by rewrite app_nil_r.
  - destruct IHl as (ks & c' & y & v' & u & E & Hk & Hb & HN); [done|].
    exists (ks ++ [Frame Lft c a v r]), c', y, v', u. split_and!.
    + by rewrite plug_app, <- E.
    + apply Forall_app. by repeat constructor.
    + clear -Hb. induction ks as [|f ks IH]; simpl in *; [done|].
      apply app_nil in Hb as [Hb ->]. rewrite app_nil_r. by apply IH.
    + change (nodes (Node c ?l a v r)) with (nodes l ++ (a, v) :: nodes r). rewrite HN. simpl. f_equal.
      rewrite <- app_assoc. f_equal. clear. induction ks as [|f ks IH]; simpl; [by rewrite app_nil_r|].
      by rewrite <- app_assoc, IH.
Qed.

(** [y] takes the place of [x] under the parent of [x], and as the root. *)
Lemma relink_st s k x y t L SL SR Z_ :
  ptr_eq (at_ x) (root (plug k t)) = match k with [] => true | _ => false end ->
  st s (centries k (at_ x) ++ L) (root (plug k t)) SL SR Z_ ->
  exists s', (if negb (ptr_eq (at_ x) (m_root s)) then set_child s (top k) (focus_side k) (at_ y)
              else mret s) = Ok s' /\
    st s' (centries k (at_ y) ++ L) (root (plug k t)) SL SR Z_.
Proof.
  intros Hr H. rewrite (st_root _ _ _ _ _ _ H), Hr. destruct k as [|f k]; [by exists s|].
  simpl in H |- *. by apply (set_child_st (fside f) (at_ y)) in H as (s' & E & H); exists s'.
Qed.

Lemma reroot_st s k x y t t' L SL SR Z_ :
  ptr_eq (at_ x) (root (plug k t)) = match k with [] => true | _ => false end -> root t' = at_ y ->
  st s L (root (plug k t)) SL SR Z_ ->
  st (if ptr_eq (at_ x) (m_root s) then with_root s (at_ y) else s) L (root (plug k t')) SL SR Z_.
Proof.
  intros Hr Ht H. rewrite (st_root _ _ _ _ _ _ H), Hr. destruct k as [|f k].
  - simpl. rewrite Ht. by eapply st_with_root.
  - by rewrite (root_plug_cons f k t' t).
Qed.

Section swap.
Context (s : rbtree A) (k : list (frame A)) (cx : Color) (l : tree A) (x : positive) (vx : A).
Context (ks : list (frame A)) (cy : Color) (y : positive) (vy : A) (u : tree A) (SL SR : ptr) (Z_ : Z).
Context (H0 : st_at s k (Node cx l x vx (plug ks (Node cy Leaf y vy u))) SL SR Z_).
Context (Hks : Forall (fun f => fside f = Lft) ks).
Let Y := Node cy Leaf y vy u.
Let X := Node cx l x vx (plug ks Y).

Lemma swap_flat :
  st s (centries k (at_ x) ++ (x, Node_ (top k) (root l) (root (plug ks Y)) cx vx) ::
        entries (at_ x) l ++ centries_in ks (at_ y) (at_ x) ++
        (y, Node_ (top_in ks (at_ x)) null (root u) cy vy) :: entries (at_ y) u)
     (root (plug k X)) SL SR Z_.
Proof. eapply st_perm; [exact H0|]. simpl. rewrite entries_plug_in. simpl. done. Qed.

Lemma swap_focus_y : st_at s (ks ++ Frame Rgt cx x vx l :: k) Y SL SR Z_.
Proof. rewrite <- st_at_plug, plug_app. apply (proj2 (st_at_plug _ _ _ _ _ _) H0). Qed.

Lemma swap_is_root : ptr_eq (at_ x) (root (plug k X)) = match k with [] => true | _ => false end.
Proof.
  destruct k as [|f k']; [simpl; by rewrite ptr_eq_refl|].
  pose proof (st_at_ne_root _ _ _ _ _ _ _ _ _ _ _ H0) as E.
  by rewrite (m_root_at _ _ _ _ _ _ H0) in E.
Qed.

Lemma swap_not_parent : ptr_eq (top k) (at_ y) = false.
Proof.
  apply ptr_eq_ne. assert (H := swap_flat). destruct k as [|f k']; [done|]. simpl in *.
  bring (faddr f) H. bring y H. apply st_ne in H. congruence.
Qed.

Lemma swap_succ_parent : ptr_eq (top_in ks (at_ x)) (at_ x) = bool_decide (ks = []).
Proof.
  assert (H := swap_flat). destruct ks as [|f ks']; simpl in *; [by rewrite ptr_eq_refl|].
  apply ptr_eq_ne. bring (faddr f) H. bring x H. apply st_ne in H. congruence.
Qed.
End swap.

(** The reads of swap_node_with_successor. *)
Ltac swap_reads H0 Hy :=
  unfold swap_node_with_successor; ptrs; ra H0; ra Hy; ra H0; ra H0; ra H0; ra H0; ra H0;
  ra Hy; ra Hy; ra Hy; ra Hy; ra Hy.

Lemma swap_adjacent s k cx l x vx cy y vy u SL SR Z_ :
  st_at s k (Node cx l x vx (Node cy Leaf y vy u)) SL SR Z_ ->
  exists s', swap_node_with_successor s (at_ x) (at_ y) = Ok s' /\
    st_at s' k (Node cx l y vy (Node cy Leaf x vx u)) SL SR Z_.
Proof.
  intros H0. pose proof (swap_focus_y s k cx l x vx [] cy y vy u SL SR Z_ H0) as Hy.
  pose proof (swap_flat s k cx l x vx [] cy y vy u SL SR Z_ H0) as H.
  pose proof (swap_is_root s k cx l x vx [] cy y vy u SL SR Z_ H0) as Hroot.
  simpl in *. swap_reads H0 Hy. simpl focus_side at 1.
  wr H. wr H. wr H. wr H. wr H. wr H. wr H. wr H. wr_parent_if H.
  bring_chunk (centries k (at_ x)) H.
  apply (relink_st _ _ _ y) in H as (s' & E & H); [|done]. rewrite E. run. wr_parent_if H.
  eexists. split; [done|].
  apply (reroot_st _ _ _ y _ (Node cx l y vy (Node cy Leaf x vx u)) _ _ _ _ Hroot eq_refl) in H.
  eapply st_perm; [exact H|]. simpl. solve_Permutation.
Qed.

Lemma swap_far s k cx l x vx f ks cy y vy u SL SR Z_ :
  st_at s k (Node cx l x vx (plug (f :: ks) (Node cy Leaf y vy u))) SL SR Z_ ->
  Forall (fun f => fside f = Lft) (f :: ks) ->
  exists s', swap_node_with_successor s (at_ x) (at_ y) = Ok s' /\
    st_at s' k (Node cx l y vy (plug (f :: ks) (Node cy Leaf x vx u))) SL SR Z_.
Proof.
  intros H0 Hks. pose proof (swap_focus_y s k cx l x vx _ cy y vy u SL SR Z_ H0) as Hy.
  pose proof (swap_flat s k cx l x vx _ cy y vy u SL SR Z_ H0) as H.
  pose proof (swap_is_root s k cx l x vx _ cy y vy u SL SR Z_ H0) as Hroot.
  pose proof (swap_not_parent s k cx l x vx _ cy y vy u SL SR Z_ H0) as Hnp.
  pose proof (swap_succ_parent s k cx l x vx _ cy y vy u SL SR Z_ H0 Hks) as Hsp.
  apply Forall_cons in Hks as [Hf _]. destruct f as [d fc fa fv fo]. simpl in Hf. subst d.
  set (F := Frame Lft fc fa fv fo) in *. set (Y := Node cy Leaf y vy u) in *.
  simpl app in Hy. simpl top_in in Hsp. rewrite bool_decide_eq_false_2 in Hsp by done.
  swap_reads H0 Hy. rewrite Hsp, Hnp. cbn [focus_side]. change (is_lft (fside F)) with true. cbn match.
  wr H. wr H. wr H. wr H. wr H. wr H. wr H. wr H. wr_parent_if H.
  simpl centries_in in H. cbn [set_child]. wr H.
  set (Q := root (plug (F :: ks) Y)) in *.
  eapply (st_perm _ _ (centries_in (F :: ks) (at_ x) (at_ x) ++
    (x, Node_ (at_ fa) null (root u) cy vx) :: (y, Node_ (top k) (root l) Q cx vy) ::
    entries (at_ x) l ++ entries (at_ x) u ++ centries k (at_ x))) in H; [|simpl; solve_Permutation].
  apply (set_parent_in (at_ y) _ _ Y) in H as (s1' & E & H); [|done]. unfold Q. rewrite E. run.
  wr_parent_if H. bring_chunk (centries k (at_ x)) H.
  apply (relink_st _ _ _ y) in H as (s' & E' & H); [|done]. rewrite E'. run.
  eexists. split; [done|]. set (X' := Node cy Leaf x vx u).
  apply (reroot_st _ _ _ y _ (Node cx l y vy (plug (F :: ks) X')) _ _ _ _ Hroot eq_refl) in H.
  eapply st_perm; [exact H|]. simpl entries. rewrite entries_plug_in. unfold Q.
  rewrite (root_plug_cons F ks Y X'). simpl. solve_Permutation.
Qed.

(** ** Addresses *)

Lemma entries_addresses p t : (entries p t).*1 ≡ₚ (nodes t).*1.
Proof.
  revert p. induction t as [|c l IHl b v r IHr]; intros p; simpl; [done|].
  rewrite !fmap_app, fmap_cons, IHl, IHr. simpl. apply Permutation_middle.
Qed.

Lemma st_nodup s k t SL SR Z_ : st_at s k t SL SR Z_ -> NoDup (nodes (plug k t)).*1.
Proof.
  intros H. apply st_at_plug in H. destruct H as [[HN _] _ _ _ _]. simpl in HN.
  by rewrite <- (entries_addresses super).
Qed.

(** A node of a tree, in focus. *)
Lemma focus_on x v t :
  (x, v) ∈ nodes t -> exists k c l r, t = plug k (Node c l x v r).
Proof.
  induction t as [|c l IHl b w r IHr]; simpl; [by intros ?%not_elem_of_nil|].
  rewrite elem_of_app, elem_of_cons. intros [H|[H|H]].
  - destruct (IHl H) as (k & c' & l' & r' & ->). exists (k ++ [Frame Lft c b w r]), c', l', r'.
    by rewrite plug_app.
  - simplify_eq. by exists [], c, l, r.
  - destruct (IHr H) as (k & c' & l' & r' & ->). exists (k ++ [Frame Rgt c b w l]), c', l', r'.
    by rewrite plug_app.
Qed.

Lemma nodup_split {X} (m1 m2 m1' m2' : list (positive * X)) x v v' :
  NoDup (m1 ++ (x, v) :: m2).*1 -> m1 ++ (x, v) :: m2 = m1' ++ (x, v') :: m2' ->
  m1 = m1' /\ m2 = m2'.
Proof.
  revert m1'. induction m1 as [|y m1 IH]; intros m1' HN E; destruct m1' as [|y' m1']; simplify_eq/=; [done|..].
  - apply NoDup_cons in HN as [HN _]. destruct HN. rewrite fmap_app. set_solver.
  - apply NoDup_cons in HN as [HN _]. destruct HN. rewrite fmap_app. set_solver.
  - apply NoDup_cons in HN as [_ HN].
    match goal with E : _ ++ _ = _ ++ _ |- _ => by destruct (IH _ HN E) as [-> ->] end.
Qed.

Lemma before_app k k' : before (k ++ k') = before k' ++ before (A:=A) k.
Proof. induction k as [|f k IH]; simpl; [by rewrite app_nil_r|]. by rewrite IH, <- app_assoc. Qed.
Lemma after_app k k' : after (k ++ k') = after (A:=A) k ++ after k'.
Proof. induction k as [|f k IH]; simpl; [done|]. by rewrite IH, <- app_assoc. Qed.

(** ** The invariant and the node that is going away *)

Lemma RB_doom x t c n : RB None t c n -> x ∉ (nodes t).*1 -> RB (Some x) t c n.
Proof.
  induction 1 as [|?|l a v r n _ _ IHl _ IHr|l a v r c1 c2 n _ _ IHl _ IHr]; intros Hx; [constructor|done|..];
    simpl in Hx; rewrite fmap_app, fmap_cons, elem_of_app, elem_of_cons in Hx.
  - constructor; [intros [=]; simpl in *; tauto|apply IHl; tauto|apply IHr; tauto].
  - econstructor; [intros [=]; simpl in *; tauto|apply IHl; tauto|apply IHr; tauto].
Qed.

Lemma RB_undoom x t c n : RB (Some x) t c n -> x ∉ (nodes t).*1 -> RB None t c n.
Proof.
  induction 1 as [|a v E|l a v r n _ _ IHl _ IHr|l a v r c1 c2 n _ _ IHl _ IHr]; intros Hx; [constructor|..].
  - simplify_eq. simpl in Hx. set_solver.
  - simpl in Hx; rewrite fmap_app, fmap_cons, elem_of_app, elem_of_cons in Hx.
    constructor; [done|apply IHl; tauto|apply IHr; tauto].
  - simpl in Hx; rewrite fmap_app, fmap_cons, elem_of_app, elem_of_cons in Hx.
    econstructor; [done|apply IHl; tauto|apply IHr; tauto].
Qed.

(** The addresses of a context. *)
Definition ctx_nodes k : list positive := (before k ++ after k).*1.

Lemma ctx_nodes_cons f k x :
  x ∉ ctx_nodes (f :: k) -> x <> faddr f /\ (x ∉ (nodes (fother f)).*1) /\ x ∉ ctx_nodes k.
Proof.
  unfold ctx_nodes. simpl. destruct (fside f); simpl; rewrite ?app_nil_r; simpl;
    rewrite ?fmap_app; simpl; rewrite ?fmap_app; simpl; set_solver.
Qed.

Lemma CTX_doom x k acc n : CTX None k acc n -> x ∉ ctx_nodes k -> CTX (Some x) k acc n.
Proof.
  induction 1; intros Hx; [constructor|..]; apply ctx_nodes_cons in Hx as (Hx1 & Hx2 & Hx3); simpl in *;
    econstructor; (congruence || by apply RB_doom || by auto).
Qed.

Lemma CTX_undoom x k acc n : CTX (Some x) k acc n -> x ∉ ctx_nodes k -> CTX None k acc n.
Proof.
  induction 1; intros Hx; [constructor|..]; apply ctx_nodes_cons in Hx as (Hx1 & Hx2 & Hx3); simpl in *;
    econstructor; (congruence || by eapply RB_undoom || by auto).
Qed.

Lemma focus_not_in_ctx k c l x v r :
  NoDup (nodes (plug k (Node c l x v r))).*1 -> x ∉ ctx_nodes k.
Proof.
  rewrite nodes_plug. simpl. unfold ctx_nodes. rewrite !fmap_app. simpl.
  intros HN Hin. apply elem_of_app in Hin as [Hin|Hin].
  - apply NoDup_app in HN as (_ & HN & _). apply (HN x); [done|]. set_solver.
  - apply NoDup_app in HN as (_ & _ & HN). rewrite <- app_assoc in HN. apply NoDup_app in HN as (_ & _ & HN).
    simpl in HN. apply NoDup_cons in HN as [HN _]. apply HN. set_solver.
Qed.

(** ** Unlinking *)

Lemma set_child_at s f k t p L R SL SR Z_ :
  st s (centries (f :: k) p ++ L) R SL SR Z_ ->
  exists s', set_child s (at_ (faddr f)) (is_lft (fside f)) (root t) = Ok s' /\
    st s' (centries (f :: k) (root t) ++ L) R SL SR Z_.
Proof. simpl. intros H. by apply (set_child_st (fside f) (root t)) in H as (s' & E & H); exists s'. Qed.

(** A leaf below another node is unlinked and freed. *)
Lemma unlink_leaf s f k c x v SL SR Z_ :
  st_at s (f :: k) (Node c Leaf x v Leaf) SL SR Z_ ->
  exists s',
    (is_left ← is_left_child s (at_ x); p ← get_parent s (at_ x);
     s ← set_child s p is_left null; delete_node s (at_ x)) = Ok s' /\
    st_at s' (f :: k) Leaf SL SR Z_.
Proof.
  intros H. ra H. ra H. unfold st_at in H. rewrite (root_plug_cons f k _ Leaf) in H.
  apply (set_child_at s f k Leaf) in H as (s1 & E & H). simpl focus_side. simpl in E. rewrite E. run.
  simpl entries in H. bring x H. apply st_delete in H as (s2 & -> & H).
  eexists. split; [done|]. eapply st_perm; [exact H|]. simpl. by rewrite app_nil_r.
Qed.

(** The node with one child is unlinked and freed. *)
Lemma unlink_inner s f k c l x v r t SL SR Z_ :
  st_at s (f :: k) (Node c l x v r) SL SR Z_ -> t <> Leaf -> (l = Leaf /\ r = t) \/ (l = t /\ r = Leaf) ->
  exists s',
    (s ← set_child s (at_ (faddr f)) (is_lft (fside f)) (root t);
     s ← set_parent s (root t) (at_ (faddr f)); delete_node s (at_ x)) = Ok s' /\
    st_at s' (f :: k) t SL SR Z_.
Proof.
  intros H Ht Hlr. assert (E : entries (at_ x) l ++ entries (at_ x) r = entries (at_ x) t).
  { destruct Hlr as [[-> ->]|[-> ->]]; simpl; by rewrite ?app_nil_r. }
  unfold st_at in H. simpl entries in H. rewrite E in H. rewrite (root_plug_cons f k _ t) in H.
  apply (set_child_at s f k t) in H as (s1 & E1 & H). rewrite E1. run.
  bring_chunk (entries (at_ x) t) H. apply (set_parent_if_st _ (at_ (faddr f))) in H as (s2 & E2 & H).
  unfold set_parent_if in E2. destruct t as [|tc tl a tv tr]; [done|]. simpl root in *.
  change (ptr_eq (at_ a) null) with false in E2. rewrite E2. run.
  bring x H. apply st_delete in H as (s3 & -> & H). eexists. split; [done|].
  eapply st_perm; [exact H|]. simpl. solve_Permutation.
Qed.

(** A subtree without black nodes is empty or one red node. *)
Lemma RB_zero t c : RB None t c 0 -> t = Leaf \/ exists a v, t = Node RED Leaf a v Leaf.
Proof.
  inversion 1 as [| |l a v r ? ? Hl Hr|]; subst; [by left|done|]. right. exists a, v.
  inversion Hl; subst; [|done]. by inversion Hr; subst.
Qed.

Lemma st_with_size_at s k t SL SR Z_ Z' : st_at s k t SL SR Z_ -> st_at (with_size s Z') k t SL SR Z'.
Proof. apply st_with_size. Qed.

(** The black leaf goes through [fix_double_black] while it is still linked. *)
Lemma remove_black_leaf s f k x v acc SL SR Z_ :
  st_at s (f :: k) (Node BLACK Leaf x v Leaf) SL SR Z_ -> CTX None (f :: k) acc 1 ->
  exists s' t' m,
    (s ← fix_double_black (S (S (walk s))) s (at_ x);
     is_left ← is_left_child s (at_ x); p ← get_parent s (at_ x);
     s ← set_child s p is_left null; delete_node s (at_ x)) = Ok s' /\
    st_at s' [] t' SL SR Z_ /\ RB None t' BLACK m /\ nodes t' = before (f :: k) ++ after (f :: k).
Proof.
  intros H Hk. pose proof (st_nodup _ _ _ _ _ _ H) as HN.
  pose proof (focus_not_in_ctx _ _ _ _ _ _ HN) as Hx.
  destruct (walk_at _ _ _ _ _ _ H) as [_ Hw].
  destruct (fix_double_black_Ok (Some x) (S (S (walk s))) s (f :: k) Leaf x v Leaf acc 0 SL SR Z_)
    as (s1 & t1 & m & -> & H1 & HR & HN1); [exact H|by constructor|by apply CTX_doom|lia|].
  run. destruct (focus_on x v t1) as (k2 & c2 & l2 & r2 & ->).
  { rewrite HN1, nodes_plug. simpl. set_solver. }
  apply (proj1 (st_at_plug _ _ _ _ _ _)) in H1.
  destruct (RB_unplug (Some x) k2 (Node c2 l2 x v r2) m) as (acc2 & n2 & c3 & Hk2 & Ht2 & _); [by left|done|].
  inversion Ht2; subst; try done. pose proof (focus_not_in_ctx _ _ _ _ _ _ (st_nodup _ _ _ _ _ _ H1)) as Hx2.
  assert (Hsplit : before k2 = before (f :: k) /\ after k2 = after (f :: k)).
  { rewrite !nodes_plug in HN1. rewrite nodes_plug in HN. simpl nodes in *. simpl app in *.
    rewrite <- HN1 in HN. by eapply nodup_split. }
  destruct Hsplit as [Eb Ea]. destruct k2 as [|f2 k2].
  { exfalso. simpl in Eb, Ea. destruct (fside f); [done|]. symmetry in Eb. apply app_nil in Eb as [_ Eb].
    by apply app_nil in Eb as [_ Eb]. }
  destruct (unlink_leaf _ _ _ _ _ _ _ _ _ H1) as (s3 & E3 & H3). rewrite E3.
  destruct (RB_plug None (f2 :: k2) Leaf BLACK acc2 0) as [m' Hm']; [by eapply CTX_undoom|constructor|done|].
  exists s3, (plug (f2 :: k2) Leaf), m'. split_and!; try done; [by apply st_at_plug|].
  by rewrite nodes_plug, Eb, Ea.
Qed.

(** A node with a missing child is removed. *)
Lemma remove_outer_root s c l x v r m SL SR Z_ :
  st_at s [] (Node c l x v r) SL SR Z_ -> l = Leaf \/ r = Leaf -> RB None (Node c l x v r) BLACK m ->
  exists s' t' m', remove_outer_node s (at_ x) = Ok s' /\
    st_at s' [] t' SL SR (Z.of_nat (length (nodes t'))) /\ RB None t' BLACK m' /\
    nodes t' = nodes l ++ nodes r.
Proof.
  intros H Hlr HR. inversion HR as [| | |? ? ? ? c1 c2 n _ Hl Hr]; subst; [done|].
  unfold remove_outer_node. ra H. ra H. rewrite (m_root_at _ _ _ _ _ _ H). simpl plug. simpl root. ptrs.
  unfold st_at in H. simpl in H. apply st_delete in H as (s1 & -> & H). run.
  assert (n = 0%nat) as -> by (destruct Hlr as [->| ->]; [by inversion Hl|by inversion Hr]).
  apply RB_zero in Hl. apply RB_zero in Hr.
  assert (Hch : (l = Leaf /\ r = Leaf) \/ exists a w, (l = Node RED Leaf a w Leaf /\ r = Leaf) \/
    (l = Leaf /\ r = Node RED Leaf a w Leaf)) by (destruct Hlr as [->| ->]; naive_solver).
  destruct Hch as [[-> ->]|(a & w & Hch)].
  - simpl root. ptrs. eexists _, Leaf, 0%nat. split; [done|]. split; [|by split; [constructor|]].
    eapply st_with_size, st_with_root, H.
  - assert (Ech : (if negb (ptr_eq (root l) null) then root l else root r) = at_ a /\
      entries (at_ x) l ++ entries (at_ x) r = entries (at_ x) (Node RED Leaf a w Leaf) /\
      nodes l ++ nodes r = [(a, w)]) by (by destruct Hch as [[-> ->]|[-> ->]]).
    destruct Ech as (-> & Ee & ->). ptrs. rewrite Ee in H. simpl in H.
    apply (st_with_root _ _ _ (at_ a)) in H. wr H. wr H.
    eexists _, (Node BLACK Leaf a w Leaf), 1%nat. split; [done|]. split; [by eapply st_with_size|].
    split; [|done]. by repeat econstructor.
Qed.

Lemma one_child c l x v r c' n :
  RB None (Node c l x v r) c' n -> l = Leaf \/ r = Leaf -> ~ (root l = null /\ root r = null) ->
  exists a w, c = BLACK /\ n = 1%nat /\
    ((l = Leaf /\ r = Node RED Leaf a w Leaf) \/ (l = Node RED Leaf a w Leaf /\ r = Leaf)).
Proof.
  intros Ht Hlr Hne.
  inversion Ht as [| |? ? ? ? ? ? Hl Hr|? ? ? ? c1 c2 n' ? Hl Hr]; subst; [done|..].
  - exfalso. assert (n = 0%nat) as -> by (destruct Hlr as [->| ->]; [by inversion Hl|by inversion Hr]).
    apply Hne. by inversion Hl; subst; inversion Hr.
  - assert (n' = 0%nat) as -> by (destruct Hlr as [->| ->]; [by inversion Hl|by inversion Hr]).
    apply RB_zero in Hl. apply RB_zero in Hr.
    destruct Hl as [->|(a & w & ->)], Hr as [->|(a' & w' & ->)]; simpl in Hne.
    + by destruct Hne.
    + exists a', w'. split_and!; [done..|by left].
    + exists a, w. split_and!; [done..|by right].
    + by destruct Hlr.
Qed.

Lemma remove_outer_inner s f k c l x v r m SL SR Z_ :
  st_at s (f :: k) (Node c l x v r) SL SR Z_ -> l = Leaf \/ r = Leaf ->
  RB None (plug (f :: k) (Node c l x v r)) BLACK m ->
  exists s' t' m', remove_outer_node s (at_ x) = Ok s' /\
    st_at s' [] t' SL SR (Z_ - 1) /\ RB None t' BLACK m' /\
    nodes t' = before (f :: k) ++ nodes l ++ nodes r ++ after (f :: k).
Proof.
  intros H Hlr HR. unfold remove_outer_node. ra H. ra H.
  rewrite (st_at_ne_root _ _ _ _ _ _ _ _ _ _ _ H). ra H. ra H. ra H.
  destruct (RB_unplug None (f :: k) (Node c l x v r) m) as (acc & n & c' & Hk & Ht & _); [by left|done|].
  destruct (decide (root l = null /\ root r = null)) as [[El Er]|Hne].
  - assert (l = Leaf /\ r = Leaf) as [-> ->] by (by destruct l, r). simpl root. ptrs. paint H.
    rewrite (st_size _ _ _ _ _ _ H). apply (st_with_size_at _ _ _ _ _ _ (Z_ - 1)) in H.
    set (s1 := with_size s0 (Z_ - 1)) in *. unfold fix_removal_violations_if_needed.
    pose proof (color_or_black_at _ _ _ _ _ _ H) as Ec. simpl in Ec. rewrite Ec. run.
    change (bool_decide (BLACK = RED)) with false. cbn [orb].
    inversion Ht as [| |? ? ? ? ? ? Hl Hr|? ? ? ? c1 c2 n' ? Hl Hr]; subst; [done|..].
    + rewrite bool_decide_eq_true_2 by done. ptrs. paint H.
      destruct (unlink_leaf _ _ _ _ _ _ _ _ _ H) as (s3 & E3 & H3).
      rewrite E3. inversion Hl; subst.
      destruct (RB_plug None (f :: k) Leaf BLACK acc 0) as [m' Hm']; [done|constructor|done|].
      exists s3, (plug (f :: k) Leaf), m'. split_and!; [done|by apply st_at_plug|done|by rewrite nodes_plug].
    + rewrite bool_decide_eq_false_2 by done. inversion Hl; subst.
      destruct (remove_black_leaf _ _ _ _ _ _ _ _ _ H Hk) as (s3 & t3 & m3 & E3 & H3 & HR3 & HN3).
      rewrite E3. by exists s3, t3, m3.
  - destruct (one_child _ _ _ _ _ _ _ Ht Hlr Hne) as (a & w & -> & -> & Hch).
    set (t := Node RED Leaf a w Leaf) in *.
    assert (Ech : (if negb (ptr_eq (root l) null) then root l else root r) = at_ a /\
      nodes l ++ nodes r = nodes t) by (by destruct Hch as [[-> ->]|[-> ->]]).
    destruct Ech as [-> En]. ptrs.
    destruct (unlink_inner s f k BLACK l x v r t SL SR Z_ H) as (s1 & E1 & H1); [done|done|].
    simpl focus_side. simpl root in E1. cbn [mbind result_bind] in E1 |- *. rewrite E1. run.
    rewrite (st_size _ _ _ _ _ _ H1). apply (st_with_size_at _ _ _ _ _ _ (Z_ - 1)) in H1.
    set (s2 := with_size s1 (Z_ - 1)) in *. unfold fix_removal_violations_if_needed.
    pose proof (color_or_black_at _ _ _ _ _ _ H1) as Ec. simpl in Ec. rewrite Ec. run.
    rewrite bool_decide_eq_true_2 by done. ptrs. unfold t in H1. paint H1.
    destruct (RB_plug None (f :: k) (Node BLACK Leaf a w Leaf) BLACK acc 1) as [m' Hm'];
      [done|by repeat econstructor|done|].
    eexists _, (plug (f :: k) (Node BLACK Leaf a w Leaf)), m'.
    split_and!; [done|by apply st_at_plug|done|]. by rewrite nodes_plug, (app_assoc (nodes l)), En.
Qed.


(** ** Removal *)

(** The invariant depends on colours only. *)
Fixpoint skeleton t : tree unit :=
  match t with Leaf => Leaf | Node c l _ _ r => Node c (skeleton l) 1%positive tt (skeleton r) end.

Lemma RB_skeleton t t' c n : skeleton t = skeleton t' -> RB None t c n -> RB None t' c n.
Proof.
  intros E H. revert t' E.
  induction H as [|?|l a v r n _ _ IHl _ IHr|l a v r c1 c2 n _ _ IHl _ IHr]; intros t' E; [|done|..];
    destruct t' as [|c' l' a' v' r']; simplify_eq/=; [constructor|..].
  - constructor; auto.
  - econstructor; auto.
Qed.

Lemma skeleton_plug k t t' : skeleton t = skeleton t' -> skeleton (plug k t) = skeleton (plug k t').
Proof.
  revert t t'. induction k as [|f k IH]; simpl; intros t t' E; [done|]. apply IH. unfold fill.
  destruct (fside f); simpl; by rewrite E.
Qed.

Lemma remove_outer_Ok s k c l x v r m SL SR :
  st_at s k (Node c l x v r) SL SR (Z.of_nat (length (nodes (plug k (Node c l x v r))))) ->
  l = Leaf \/ r = Leaf -> RB None (plug k (Node c l x v r)) BLACK m ->
  exists s' t' m', remove_outer_node s (at_ x) = Ok s' /\
    st_at s' [] t' SL SR (Z.of_nat (length (nodes t'))) /\ RB None t' BLACK m' /\
    nodes t' = before k ++ nodes l ++ nodes r ++ after k.
Proof.
  intros H Hlr HR. destruct k as [|f k].
  - destruct (remove_outer_root _ _ _ _ _ _ _ _ _ _ H Hlr HR) as (s' & t' & m' & E & H' & HR' & HN).
    exists s', t', m'. split_and!; try done. simpl. by rewrite HN, app_nil_r.
  - destruct (remove_outer_inner _ _ _ _ _ _ _ _ _ _ _ _ H Hlr HR) as (s' & t' & m' & E & H' & HR' & HN).
    exists s', t', m'. split_and!; try done. rewrite HN. rewrite nodes_plug in H'. simpl nodes in H'.
    replace (Z.of_nat _) with (Z.of_nat (length (before (f :: k) ++ (nodes l ++ (x, v) :: nodes r) ++ after (f :: k))) - 1).
    { done. }
    rewrite !length_app. simpl length. rewrite ?length_app. lia.
Qed.

Lemma remove_node_Ok s k c l x v r m SL SR :
  st_at s k (Node c l x v r) SL SR (Z.of_nat (length (nodes (plug k (Node c l x v r))))) ->
  RB None (plug k (Node c l x v r)) BLACK m ->
  exists s' t' m', remove_node 2 s (at_ x) = Ok s' /\
    st_at s' [] t' SL SR (Z.of_nat (length (nodes t'))) /\ RB None t' BLACK m' /\
    nodes t' = before k ++ nodes l ++ nodes r ++ after k.
Proof.
  intros H HR. cbn [remove_node]. ptrs. ra H. ra H. ra H.
  assert (Hd : (l = Leaf \/ r = Leaf) \/ ~ (l = Leaf \/ r = Leaf)) by (destruct l, r; naive_solver).
  destruct Hd as [Hlr|Hlr].
  { replace (ptr_eq (root l) null || ptr_eq (root r) null) with true.
    { by eapply remove_outer_Ok. }
    destruct Hlr as [->| ->]; simpl; [done|]. rewrite ptr_eq_refl. by destruct (ptr_eq _ _). }
  replace (ptr_eq (root l) null || ptr_eq (root r) null) with false by (destruct l, r; [tauto..|done]).
  destruct (leftmost_split r) as (ks & cy & y & vy & u & -> & Hks & Hbe & HN); [tauto|].
  rewrite (inorder_successor_of_Ok _ _ _ _ _ _ _ _ _ _ H), HN. run. simpl first_ptr.
  assert (Hsw : exists s', swap_node_with_successor s (at_ x) (at_ y) = Ok s' /\
    st_at s' k (Node c l y vy (plug ks (Node cy Leaf x v u))) SL SR
      (Z.of_nat (length (nodes (plug k (Node c l x v (plug ks (Node cy Leaf y vy u)))))))).
  { destruct ks as [|f ks]; [by apply swap_adjacent|by apply swap_far]. }
  destruct Hsw as (s1 & -> & H1). run.
  set (K := ks ++ Frame Rgt c y vy l :: k).
  assert (EK : plug k (Node c l y vy (plug ks (Node cy Leaf x v u))) = plug K (Node cy Leaf x v u))
    by (unfold K; by rewrite plug_app).
  assert (H2 : st_at s1 K (Node cy Leaf x v u) SL SR (Z.of_nat (length (nodes (plug K (Node cy Leaf x v u)))))).
  { apply st_at_plug. rewrite <- EK. apply (proj2 (st_at_plug _ _ _ _ _ _)) in H1.
    replace (length (nodes (plug k (Node c l y vy _)))) with
      (length (nodes (plug k (Node c l x v (plug ks (Node cy Leaf y vy u)))))); [done|].
    rewrite !nodes_plug. simpl. rewrite !nodes_plug. simpl. rewrite !length_app. simpl.
    rewrite !length_app. simpl. rewrite !length_app. lia. }
  ptrs. ra H2. ra H2. ra H2. simpl root. ptrs.
  destruct (remove_outer_Ok s1 K cy Leaf x v u m SL SR H2) as (s' & t' & m' & E & H' & HR' & HN'); [by left| |].
  { rewrite <- EK. eapply RB_skeleton; [|exact HR]. apply skeleton_plug. simpl. f_equal.
    by apply skeleton_plug. }
  exists s', t', m'. split_and!; try done. rewrite HN'. unfold K. rewrite before_app, after_app, Hbe.
  simpl. norm_nodes.
Qed.

Lemma first_ptr_app e m1 x (v : A) m2 :
  first_ptr e (m1 ++ (x, v) :: m2) = match m1 with [] => at_ x | y :: _ => at_ y.1 end.
Proof. by destruct m1. Qed.

Lemma last_ptr_app e m1 x (v : A) m2 :
  last_ptr e (m1 ++ (x, v) :: m2) = match last m2 with None => at_ x | Some y => at_ y.1 end.
Proof.
  unfold last_ptr. rewrite last_app_cons. destruct m2 as [|y m2]; [done|].
  rewrite last_cons_cons. by destruct (last (y :: m2)) eqn:E; [|apply last_None in E].
Qed.

(** The sentinel's links when [x] goes. *)
Lemma remove_extremes s k c l x v r :
  let t := plug k (Node c l x v r) in
  let m1 := before k ++ nodes l in let m2 := nodes r ++ after k in
  st_at s k (Node c l x v r) (first_ptr null (nodes t)) (last_ptr null (nodes t)) (Z.of_nat (length (nodes t))) ->
  exists s',
    (if ptr_eq (at_ x) (m_root s) && (m_size s =? 1) then
       mret (with_super_right (with_super_left s null) null)
     else if ptr_eq (at_ x) (left_most_node s) then
       q ← inorder_successor_of s (at_ x); mret (with_super_left s q)
     else if ptr_eq (at_ x) (right_most_node s) then
       q ← inorder_predecessor_of s (at_ x); mret (with_super_right s q)
     else mret s) = Ok s' /\
    st_at s' k (Node c l x v r) (first_ptr null (m1 ++ m2)) (last_ptr null (m1 ++ m2)) (Z.of_nat (length (nodes t))).
Proof.
  intros t m1 m2 H. assert (Hset : forall SL SR,
    st_at (with_super_right (with_super_left s SL) SR) k (Node c l x v r) SL SR (Z.of_nat (length (nodes t)))).
  { by destruct H. }
  assert (HN : nodes t = m1 ++ (x, v) :: m2).
  { unfold t, m1, m2. rewrite nodes_plug. simpl. by rewrite <- !app_assoc. }
  pose proof (st_nodup _ _ _ _ _ _ H) as Hnd. fold t in Hnd. rewrite HN in Hnd.
  pose proof (m_root_at _ _ _ _ _ _ H) as Hr. pose proof (st_size _ _ _ _ _ _ H) as Hz.
  pose proof (st_left _ _ _ _ _ _ H) as Hl. pose proof (st_right _ _ _ _ _ _ H) as Hrt.
  unfold left_most_node, right_most_node. rewrite Hz, Hl, Hrt.
  replace (Z.of_nat (length (nodes t)) =? 0) with false by (rewrite HN, length_app; simpl; blia).
  rewrite (inorder_successor_of_Ok _ _ _ _ _ _ _ _ _ _ H), (inorder_predecessor_of_Ok _ _ _ _ _ _ _ _ _ _ H).
  fold m1 m2. run. rewrite HN, first_ptr_app, last_ptr_app in *.
  destruct m1 as [|[a w] m1'] eqn:Em1.
  - rewrite ptr_eq_refl. destruct m2 as [|b m2'] eqn:Em2.
    + replace (ptr_eq (at_ x) (m_root s)) with true.
      { eexists. split; [done|]. simpl. exact (Hset null null). }
      rewrite Hr. destruct k as [|f k']; [simpl; by rewrite ptr_eq_refl|exfalso].
      unfold m1, m2 in *. simpl in Em1, Em2. destruct (fside f).
      * apply app_nil in Em2 as [_ Em2]. simplify_eq.
      * apply app_nil in Em1 as [Em1 _]. apply app_nil in Em1 as [_ Em1]. by apply app_nil in Em1 as [_ Em1].
    + rewrite andb_false_intro2 by (cbn [length app]; blia). eexists. split; [done|]. simpl first_ptr.
      replace (with_super_left s (at_ b.1)) with (with_super_right (with_super_left s (at_ b.1)) (super_right s)) by by destruct s.
      rewrite Hrt. unfold last_ptr. simpl app. destruct (last (b :: m2')) eqn:E; [|by apply last_None in E].
      apply Hset.
  - rewrite andb_false_intro2 by (rewrite length_app; cbn [length]; blia).
    simpl in Hnd. apply NoDup_cons in Hnd as [Hax Hnd]. cbn [fst].
    rewrite (ptr_eq_ne (at_ x) (at_ a)) by (intros [=]; subst; apply Hax; rewrite fmap_app; set_solver).
    destruct m2 as [|b m2' _] using rev_ind.
    + simpl last. rewrite ptr_eq_refl. eexists. split; [done|]. rewrite app_nil_r. simpl first_ptr.
      replace (with_super_right s _) with (with_super_right (with_super_left s (super_left s)) (last_ptr super ((a, w) :: m1')))
        by by destruct s.
      rewrite Hl. replace (last_ptr null ((a, w) :: m1')) with (last_ptr super ((a, w) :: m1')); [apply Hset|].
      unfold last_ptr. by destruct (last ((a, w) :: m1')) eqn:E; [|apply last_None in E].
    + rewrite last_snoc. rewrite ptr_eq_ne.
      * eexists. split; [done|]. simpl first_ptr. unfold last_ptr. rewrite app_assoc, last_snoc.
        by rewrite last_snoc in H.
      * intros [=]. subst. rewrite fmap_app in Hnd. apply NoDup_app in Hnd as (_ & _ & Hnd).
        simpl in Hnd. apply NoDup_cons in Hnd as [Hnd _]. apply Hnd. rewrite fmap_app. set_solver.
Qed.

Lemma rb_remove_at_Ok s t m1 x v m2 :
  tree_inv s t -> nodes t = m1 ++ (x, v) :: m2 ->
  exists s' t', rb_remove_at s (at_ x) = Ok s' /\ tree_inv s' t' /\ nodes t' = m1 ++ m2.
Proof.
  intros [H (n & HR)] E. destruct (focus_on x v t) as (k & c & l & r & ->); [rewrite E; set_solver|].
  apply (proj1 (st_at_plug _ _ _ _ _ _)) in H. pose proof (st_nodup _ _ _ _ _ _ H) as Hnd.
  assert (Hm : m1 = before k ++ nodes l /\ m2 = nodes r ++ after k).
  { rewrite E in Hnd. eapply nodup_split; [exact Hnd|]. rewrite <- E, nodes_plug. simpl. by rewrite <- !app_assoc. }
  destruct Hm as [-> ->]. unfold rb_remove_at. ptrs.
  destruct (remove_extremes _ _ _ _ _ _ _ H) as (s1 & -> & H1). run.
  destruct (remove_node_Ok _ _ _ _ _ _ _ _ _ _ H1 HR) as (s2 & t2 & m & -> & H2 & HR2 & HN2).
  rewrite <- !app_assoc in *. exists s2, t2. split_and!; [done|split; [by rewrite HN2 in *|by exists m]|done].
Qed.
End remove.
