(* ===== verification/RedBlackTreeSet.v ===== *)
(** The red-black tree as an ordered set: clearing and copying, the height of the tree, the
    interface of OrderedSet.v implemented by the pointer code of RedBlackTree.v, and the
    properties of the whole structure over the sequence of its elements. *)
From stdpp Require Import gmap.
From S2P Require Import Prelude OrderedSet RedBlackTree RedBlackTreeRep RedBlackTreeSearch RedBlackTreeInsert RedBlackTreeRemove.

Section set.
Context {A : Type}.
Implicit Types (t u : tree A) (k : list (frame A)) (f : frame A) (s : rbtree A).

(** ** Height *)

Lemma RB_size dm t c n : RB dm t c n -> (2 ^ n <= S (length (nodes t)))%nat.
Proof.
  induction 1 as [|?|l a v r n _ _ IHl _ IHr|l a v r c1 c2 n _ _ IHl _ IHr]; simpl; [lia|lia|..];
    rewrite length_app; simpl; lia.
Qed.

Lemma RB_height t c n :
  RB None t c n -> (height t <= 2 * n + match c with RED => 1 | BLACK => 0 end)%nat.
Proof.
  induction 1 as [|?|l a v r n _ _ IHl _ IHr|l a v r c1 c2 n _ _ IHl _ IHr]; simpl; [lia|done|lia|].
  destruct c1, c2; lia.
Qed.

Lemma tree_height s t :
  tree_inv s t -> (height t <= 2 * Nat.log2 (S (length (nodes t))))%nat.
Proof.
  intros [_ (n & H)]. apply RB_height in H as Hh. apply RB_size in H.
  pose proof (Nat.log2_le_mono _ _ H) as Hl. rewrite Nat.log2_pow2 in Hl by lia. lia.
Qed.

(** ** Clearing *)

Lemma clear_tree_Ok fuel s p t L R SL SR Z_ :
  st s (entries p t ++ L) R SL SR Z_ -> t <> Leaf -> p <> null -> (height t <= fuel)%nat ->
  exists s', recursive_clear_all fuel s (root t) = Ok s' /\ st s' L R SL SR Z_.
Proof.
  revert s p t L. induction fuel as [|fuel IH]; intros s p t L H Ht Hp Hf;
    destruct t as [|c l a v r]; simpl in Hf; [done|lia|done|].
  cbn [recursive_clear_all root]. simpl in H. ptrs. rd H. rewrite ptr_eq_ne by done. ptrs. rd H. rd H.
  assert (Hsub : forall s u n L, st s ((a, n) :: entries (at_ a) u ++ L) R SL SR Z_ -> (height u <= fuel)%nat ->
    exists s', (if negb (ptr_eq (root u) null) then recursive_clear_all fuel s (root u) else mret s) = Ok s' /\
      st s' ((a, n) :: L) R SL SR Z_).
  { intros s0 u n L0 H0 Hu. destruct u as [|uc ul b w ur] eqn:Eu; [by exists s0|].
    rewrite <- Eu in *. assert (Hne : u <> Leaf) by by subst. replace (ptr_eq (root u) null) with false by by subst.
    simpl negb. apply (IH s0 (at_ a) u); [|done|done|done]. eapply st_perm; [exact H0|]. solve_Permutation. }
  rewrite <- app_assoc in H. destruct (Hsub s l _ _ H) as (s1 & E1 & H1); [lia|].
  destruct (Hsub s1 r _ _ H1) as (s2 & E2 & H2); [lia|].
  destruct (ptr_eq (root l) null && ptr_eq (root r) null) eqn:Elr.
  - apply andb_true_iff in Elr as [El Err]. rewrite El in E1. rewrite Err in E2. simpl in E1, E2.
    injection E1 as <-. injection E2 as <-. by apply st_delete in H2.
  - rewrite E1. run. rd H1. rewrite E2. run. by apply st_delete in H2.
Qed.

Lemma rb_clear_Ok s t : tree_inv s t -> exists s', rb_clear s = Ok s' /\ s' = null_tree.
Proof.
  intros [H _]. unfold rb_clear. rewrite (st_size _ _ _ _ _ _ H).
  destruct (Z.eqb_spec (Z.of_nat (length (nodes t))) 0) as [E0|E0].
  - exists s. split; [done|]. destruct t as [|c l a v r]; [|simpl in E0; rewrite length_app in E0; simpl in E0; lia].
    destruct s, H as [[_ Hh] Hr Hl Hrt Hz]. simpl in *. by subst.
  - rewrite (m_root_at _ _ _ _ _ _ H). simpl plug.
    destruct (clear_tree_Ok (walk s) s super t [] (root t) (first_ptr null (nodes t)) (last_ptr null (nodes t))
      (Z.of_nat (length (nodes t)))) as (s1 & -> & H1).
    + by rewrite app_nil_r.
    + by intros ->.
    + done.
    + pose proof (height_le t). pose proof (proj1 (walk_at _ _ _ _ _ _ H)). lia.
    + run. eexists. split; [done|]. destruct H1 as [[_ ->] _ _ _ _]. done.
Qed.

(** ** Copying *)

(** A tree without its addresses. *)
Fixpoint erase t : tree A :=
  match t with Leaf => Leaf | Node c l _ v r => Node c (erase l) 1%positive v (erase r) end.

Lemma erase_values t u : erase t = erase u -> (nodes t).*2 = (nodes u).*2.
Proof.
  revert u. induction t as [|c l IHl a v r IHr]; intros [|c' l' a' v' r'] E; simplify_eq/=; [done|].
  rewrite !fmap_app, !fmap_cons. rewrite (IHl l') by done. by rewrite (IHr r') by done.
Qed.

Lemma erase_RB t u c n : erase t = erase u -> RB None t c n -> RB None u c n.
Proof.
  intros E. apply RB_skeleton. revert u E.
  induction t as [|ct l IHl a v r IHr]; intros [|c' l' a' v' r'] E; simplify_eq/=; [done|].
  rewrite (IHl l') by done. by rewrite (IHr r') by done.
Qed.

(** The copy of one child of the node [np]. *)
Definition copies_child fuel (o : rbtree A) t (d : side) : Prop :=
  forall s np p h q c v L R SL SR Z_,
  st s ((np, link d p h q c v) :: L) R SL SR Z_ -> p <> null -> (t = Leaf -> h = null) ->
  exists s' t',
    (if negb (ptr_eq (root t) null) then recursive_copy_all fuel o s (at_ np) (root t) else mret s) = Ok s' /\
    st s' ((np, link d p (root t') q c v) :: entries (at_ np) t' ++ L) R SL SR Z_ /\ erase t' = erase t.

Lemma copy_Ok fuel o f k t SL0 SR0 Z0 :
  st_at o (f :: k) t SL0 SR0 Z0 -> (height t <= fuel)%nat -> copies_child fuel o t (fside f).
Proof.
  revert f k t. induction fuel as [|fuel IH]; intros f k t Ho Hf s np p h q c v L R SL SR Z_ H Hp Hh;
    destruct t as [|ct l a w r]; simpl in Hf; try lia;
    try (exists s, Leaf; split_and!; [done|by rewrite Hh in H|done]).
  simpl root. ptrs. cbn [recursive_copy_all]. ptrs. 
  rewrite (is_null_st _ _ _ _ _ _ H np _ (list_elem_of_here _ _)). run.
  replace (parent (link (fside f) p h q c v)) with p by (by destruct (fside f)). rewrite ptr_eq_ne by done. ptrs.
  ra Ho. assert (Hn := Ho). unfold st_at in Hn. simpl entries in Hn.
  rewrite (node_at_st _ _ _ _ _ _ Hn a (Node_ (top (f :: k)) (root l) (root r) ct w)) by mem. run.
  set (n0 := Node_ (top (f :: k)) (root l) (root r) ct w).
  destruct (st_new s n0 _ _ _ _ _ H) as (s1 & b & -> & H1). ra Ho. simpl focus_side.
  permute H1 ((np, link (fside f) p h q c v) :: (b, n0) :: L).
  apply (set_child_st _ (at_ b)) in H1 as (s2 & -> & H1). run. unfold n0 in *. wr H1.
  assert (Hl := Ho). down_left Hl. assert (Hr := Ho). down_right Hr.
  destruct (IH _ _ _ Hl ltac:(lia) s0 b (at_ np) (root l) (root r) ct w _ _ _ _ _ H1)
    as (s3 & l' & E3 & H3 & El); [done|by intros ->|].
  rewrite E3. run.
  destruct (IH _ _ _ Hr ltac:(lia) s3 b (at_ np) (root r) (root l') ct w _ _ _ _ _ H3)
    as (s4 & r' & E4 & H4 & Er); [done|by intros ->|].
  rewrite E4. exists s4, (Node ct l' b w r'). split_and!; [done| |simpl; by rewrite El, Er].
  eapply st_perm; [exact H4|]. simpl. solve_Permutation.
Qed.

(** The sequence of the elements is strictly increasing. *)
Context (lt : A -> A -> bool) `{!StrictOrder lt}.
Definition ordered (l : list A) : Prop := StronglySorted (fun x y => lt x y = true) l.

Lemma ordered_mid l1 x l2 :
  ordered (l1 ++ x :: l2) ->
  Forall (fun y => lt y x = true) l1 /\ Forall (fun y => lt x y = true) l2 /\ ordered (l1 ++ l2).
Proof. apply sorted_mid. Qed.

(** Looking up an element finds its node. *)
Lemma find_element s t m1 x v m2 SL SR :
  st_at s [] t SL SR (Z.of_nat (length (nodes t))) -> ordered (nodes t).*2 ->
  nodes t = m1 ++ (x, v) :: m2 ->
  find_node s (fun y => lt y v) (fun y => lt v y) = Ok (at_ x).
Proof.
  intros H Ho E. assert (Ho' := Ho). rewrite E, fmap_app, fmap_cons in Ho'. simpl in Ho'.
  apply ordered_mid in Ho' as (H1 & H2 & _). rewrite Forall_fmap in H1, H2.
  destruct (find_node_Ok s t (fun y => lt y v) (fun y => lt v y) m1 [(x, v)] m2 SL SR H E)
    as (p & -> & [[? _]|(y & Hy & ->)]); [..|done|].
  - eapply Forall_impl; [exact H1|]. simpl. intros. split; [done|by apply (lt_asym lt)].
  - repeat constructor; apply lt_irrefl.
  - eapply Forall_impl; [exact H2|]. simpl. intros. split; [by apply (lt_asym lt)|done].
  - apply list_elem_of_singleton in Hy. by subst.
Qed.

Lemma get_value_in s t x v SL SR Z_ :
  st_at s [] t SL SR Z_ -> (x, v) ∈ nodes t -> get_value s (at_ x) = Ok v.
Proof.
  intros H Hin. destruct (entries_value super t x v Hin) as (n & Hn & <-).
  eapply get_value_st; [exact H|]. simpl. done.
Qed.

Lemma first_ptr_super (m : list (positive * A)) : m <> [] -> first_ptr null m = first_ptr super m.
Proof. by destruct m. Qed.
Lemma last_ptr_super (m : list (positive * A)) : m <> [] -> last_ptr null m = last_ptr super m.
Proof. intros Hm. unfold last_ptr. destruct (last m) eqn:E; [done|]. by apply last_None in E. Qed.

Lemma first_ptr_ne (m : list (positive * A)) : m <> [] -> first_ptr super m <> super.
Proof. by destruct m. Qed.
Lemma last_ptr_ne (m : list (positive * A)) : m <> [] -> last_ptr super m <> super.
Proof. intros Hm. unfold last_ptr. destruct (last m) eqn:E; [done|]. by apply last_None in E. Qed.

(** The first and the last node of a copy are found under the values of the original's. *)
Lemma copied_end s o t t' SL SR Z_ SL' SR' :
  st_at o [] t SL SR Z_ -> st_at s [] t' SL' SR' (Z.of_nat (length (nodes t'))) ->
  ordered (nodes t').*2 -> (nodes t').*2 = (nodes t).*2 -> nodes t <> [] ->
  (exists v, get_value o (first_ptr null (nodes t)) = Ok v /\
     find_node s (fun x => lt x v) (fun x => lt v x) = Ok (first_ptr super (nodes t'))) /\
  (exists v, get_value o (last_ptr null (nodes t)) = Ok v /\
     find_node s (fun x => lt x v) (fun x => lt v x) = Ok (last_ptr super (nodes t'))).
Proof.
  intros Ho Hs Hord Ev Hne. split.
  - destruct (nodes t) as [|[x v] m] eqn:E; [done|]. exists v. split.
    { eapply get_value_in; [exact Ho|]. rewrite E. set_solver. }
    destruct (nodes t') as [|[x' v'] m'] eqn:E'; [done|]. simplify_eq/=.
    apply (find_element s t' [] x' v m' SL' SR'); [by rewrite E'|by rewrite E'|done].
  - unfold last_ptr. destruct (nodes t) as [|[x v] m _] eqn:E using rev_ind; [done|]. exists v.
    rewrite last_snoc. split.
    { eapply get_value_in; [exact Ho|]. rewrite E. set_solver. }
    destruct (nodes t') as [|[x' v'] m' _] eqn:E' using rev_ind; rewrite !fmap_app in Ev; simpl in Ev.
    { by destruct (m.*2). }
    apply app_inj_tail in Ev as [_ Ev]. subst. rewrite last_snoc.
    apply (find_element s t' m' x' v [] SL' SR'); [by rewrite E'|by rewrite E'|done].
Qed.

Lemma rb_become_Ok s t0 o t :
  tree_inv s t0 -> tree_inv o t -> ordered (nodes t).*2 ->
  exists s' t', rb_become lt s o = Ok s' /\ tree_inv s' t' /\ (nodes t').*2 = (nodes t).*2.
Proof.
  intros Hs [Ho (n & HR)] Hord. unfold rb_become. destruct (rb_clear_Ok _ _ Hs) as (s1 & -> & ->). run.
  rewrite (st_size _ _ _ _ _ _ Ho). destruct (Z.eqb_spec (Z.of_nat (length (nodes t))) 0) as [E0|E0].
  { exists null_tree, Leaf. destruct (nodes t) eqn:E; [|simpl in E0; lia]. split_and!; [done|split|done].
    - split; [split; [constructor|]|..]; done.
    - exists 0%nat. constructor. }
  destruct t as [|c l a v r]; [done|].
  rewrite (m_root_at _ _ _ _ _ _ Ho). simpl plug. simpl root.
  assert (Hn := Ho). unfold st_at in Hn. simpl entries in Hn. simpl app in Hn.
  rewrite (node_at_st _ _ _ _ _ _ Hn a _ (list_elem_of_here _ _)). run. cbn [left right].
  assert (H0 : st (null_tree (A:=A)) [] null null null 0) by (split; [split; [constructor|done]|done..]).
  destruct (st_new null_tree (Node_ super (root l) (root r) c v) _ _ _ _ _ H0) as (s1 & b & -> & H1).
  apply (st_with_root _ _ _ (at_ b)) in H1. wr H1.
  apply (st_with_size _ _ _ _ _ _ (Z.of_nat (length (nodes (Node c l a v r))))) in H1.
  assert (Hl := Ho). down_left Hl. assert (Hr := Ho). down_right Hr.
  destruct (walk_at _ _ _ _ _ _ Ho) as [Hw _]. pose proof (height_le (Node c l a v r)) as Hh. simpl height in Hh.
  destruct (copy_Ok (walk o) _ _ _ _ _ _ _ Hl ltac:(lia) _ b super (root l) (root r) c v _ _ _ _ _ H1)
    as (s3 & l' & -> & H3 & El); [done|by intros ->|]. run.
  destruct (copy_Ok (walk o) _ _ _ _ _ _ _ Hr ltac:(lia) _ b super (root r) (root l') c v _ _ _ _ _ H3)
    as (s4 & r' & -> & H4 & Er); [done|by intros ->|]. run.
  set (t' := Node c l' b v r'). set (t := Node c l a v r) in *.
  assert (Ee : erase t' = erase t) by (simpl; by rewrite El, Er). assert (Ev := erase_values _ _ Ee).
  assert (Elen : length (nodes t) = length (nodes t')) by (rewrite <- (length_fmap snd (nodes t)), <- Ev; apply length_fmap).
  assert (H5 : st_at s4 [] t' null null (Z.of_nat (length (nodes t')))).
  { rewrite <- Elen. eapply st_perm; [exact H4|]. simpl. solve_Permutation. }
  assert (Hord' : ordered (nodes t').*2) by by rewrite Ev.
  clear H4 H3 H1. rewrite (st_left _ _ _ _ _ _ Ho), (st_right _ _ _ _ _ _ Ho).
  assert (Hnt : nodes t <> []) by (intros E; by rewrite E in E0).
  destruct (copied_end s4 o t t' _ _ _ _ _ Ho H5 Hord' Ev Hnt) as [(lv & -> & E1) _]. run. rewrite E1. run.
  assert (H6 : st_at (with_super_left s4 (first_ptr super (nodes t'))) [] t' (first_ptr super (nodes t')) null
    (Z.of_nat (length (nodes t')))) by by destruct H5.
  destruct (copied_end _ o t t' _ _ _ _ _ Ho H6 Hord' Ev Hnt) as [_ (rv & -> & E2)]. run. rewrite E2. run.
  assert (Hne : nodes t' <> []) by (intros E; apply Hnt; rewrite E in Elen; by apply nil_length_inv).
  rewrite !(ptr_eq_ne _ super) by (by apply first_ptr_ne || by apply last_ptr_ne). run.
  eexists _, t'. split; [done|]. split; [|done].
  split; [rewrite (first_ptr_super (nodes t')), (last_ptr_super (nodes t')) by done; by destruct H5|].
  exists n. by eapply erase_RB.
Qed.

(** ** The sequence of elements *)

(** The tree is well formed and its elements, in order, are [l]. *)
Definition represents s (l : list A) : Prop :=
  exists t, tree_inv s t /\ (nodes t).*2 = l /\ ordered l.

Lemma represents_app s l1 l2 :
  represents s (l1 ++ l2) ->
  exists t m1 m2, tree_inv s t /\ nodes t = m1 ++ m2 /\ m1.*2 = l1 /\ m2.*2 = l2 /\ ordered (l1 ++ l2).
Proof.
  intros (t & Hi & E & Ho). apply fmap_app_inv in E as (m1 & m2 & -> & -> & E). by exists t, m1, m2.
Qed.

Lemma represents_mid s l1 x l2 :
  represents s (l1 ++ x :: l2) ->
  exists t m1 a m2, tree_inv s t /\ nodes t = m1 ++ (a, x) :: m2 /\ m1.*2 = l1 /\ m2.*2 = l2 /\
    ordered (nodes t).*2.
Proof.
  intros (t & m1 & m2' & Hi & E & <- & E2 & Ho)%represents_app. rewrite <- E2 in Ho.
  apply fmap_cons_inv in E2 as ([a y] & m2 & -> & -> & ->).
  exists t, m1, a, m2. split_and!; try done. rewrite E, fmap_app. done.
Qed.

Lemma represents_find s l1 x l2 :
  represents s (l1 ++ x :: l2) ->
  exists t m1 a m2, tree_inv s t /\ nodes t = m1 ++ (a, x) :: m2 /\ m1.*2 = l1 /\ m2.*2 = l2 /\
    find_node s (fun y => lt y x) (fun y => lt x y) = Ok (at_ a).
Proof.
  intros (t & m1 & a & m2 & Hi & E & H1 & H2 & Ho)%represents_mid. exists t, m1, a, m2. split_and!; try done.
  eapply find_element; [apply Hi|done|done].
Qed.

Lemma represents_null : represents null_tree [].
Proof.
  exists Leaf. split_and!; [split|done|constructor].
  - split; [split; [constructor|done]|done..].
  - exists 0%nat. constructor.
Qed.

Lemma it_deref_Ok s t a v : tree_inv s t -> (a, v) ∈ nodes t -> it_deref s (at_ a) = Ok v.
Proof.
  intros [H _] Hin. destruct (focus_on a v t Hin) as (k & c & l & r & ->).
  apply (proj1 (st_at_plug _ _ _ _ _ _)) in H. unfold it_deref. ptrs. ra H. by rewrite (get_value_at _ _ _ _ _ _ _ _ _ _ H).
Qed.

Lemma represents_emplace dup s l1 l2 x :
  represents s (l1 ++ l2) -> Forall (fun y => lt y x = true) l1 -> Forall (fun y => lt x y = true) l2 ->
  exists s' b, rb_emplace lt dup s x = Ok (s', at_ b, true) /\ represents s' (l1 ++ x :: l2) /\
    it_deref s' (at_ b) = Ok x.
Proof.
  intros (t & m1 & m2 & Hi & E & <- & <- & Ho)%represents_app H1 H2.
  destruct (rb_emplace_Ok lt dup s t x m1 m2 Hi E) as (s' & t' & b & Ee & Hi' & E');
    [by rewrite Forall_fmap in H1|by rewrite Forall_fmap in H2|].
  exists s', b. split_and!; [done| |].
  - exists t'. split_and!; [done|by rewrite E', fmap_app|]. by apply sorted_insert.
  - eapply it_deref_Ok; [exact Hi'|]. rewrite E'. set_solver.
Qed.

Lemma represents_remove s l1 x l2 :
  represents s (l1 ++ x :: l2) ->
  exists s' p, find_node s (fun y => lt y x) (fun y => lt x y) = Ok p /\ p <> super /\
    rb_remove_at s p = Ok s' /\ represents s' (l1 ++ l2).
Proof.
  intros H. assert (Ho : ordered (l1 ++ x :: l2)) by (by destruct H as (? & _ & _ & Ho)).
  apply represents_find in H as (t & m1 & a & m2 & Hi & E & <- & <- & Ef).
  destruct (rb_remove_at_Ok s t m1 a x m2 Hi E) as (s' & t' & Er & Hi' & E').
  exists s', (at_ a). split_and!; try done. exists t'. split_and!; [done|by rewrite E', fmap_app|].
  by apply ordered_mid in Ho as (_ & _ & ?).
Qed.

(** The element an iterator is at. *)
Definition element s (p : ptr) : result (option A) :=
  if ptr_eq p super then Ok None else v ← get_value s p; Ok (Some v).

Lemma element_first s t m1 m2 :
  tree_inv s t -> nodes t = m1 ++ m2 -> element s (first_ptr super m2) = Ok (head m2.*2).
Proof.
  intros Hi E. destruct m2 as [|[a x] m2]; [done|]. unfold element. simpl first_ptr. ptrs.
  rewrite (get_value_in s t a x _ _ _ (ti_st _ _ Hi)) by (rewrite E; set_solver). done.
Qed.

Lemma element_last s t m1 m2 :
  tree_inv s t -> nodes t = m1 ++ m2 -> element s (last_ptr super m1) = Ok (last m1.*2).
Proof.
  intros Hi E. unfold last_ptr. rewrite fmap_last. destruct (last m1) as [[a x]|] eqn:El; [|done].
  apply last_Some in El as [m ->]. unfold element. simpl. ptrs.
  rewrite (get_value_in s t a x _ _ _ (ti_st _ _ Hi)) by (rewrite E; set_solver). done.
Qed.

Lemma it_next_Ok s t m1 a x m2 :
  tree_inv s t -> nodes t = m1 ++ (a, x) :: m2 -> it_next s (at_ a) = Ok (first_ptr super m2).
Proof.
  intros [H _] E. pose proof (st_nodup _ _ _ _ _ _ H) as Hnd. simpl plug in Hnd.
  destruct (focus_on a x t) as (k & c & l & r & ->); [rewrite E; set_solver|].
  apply (proj1 (st_at_plug _ _ _ _ _ _)) in H. unfold it_next. ptrs. ra H.
  rewrite (inorder_successor_of_Ok _ _ _ _ _ _ _ _ _ _ H). do 2 f_equal.
  rewrite nodes_plug in E, Hnd. simpl in E, Hnd. rewrite <- app_assoc, app_assoc, <- app_comm_cons in E, Hnd.
  by destruct (nodup_split _ _ _ _ _ _ _ Hnd E) as [_ ->].
Qed.

Lemma it_prev_Ok s t m1 a x m2 :
  tree_inv s t -> nodes t = m1 ++ (a, x) :: m2 -> it_prev s (at_ a) = Ok (last_ptr super m1).
Proof.
  intros [H _] E. pose proof (st_nodup _ _ _ _ _ _ H) as Hnd. simpl plug in Hnd.
  destruct (focus_on a x t) as (k & c & l & r & ->); [rewrite E; set_solver|].
  apply (proj1 (st_at_plug _ _ _ _ _ _)) in H. unfold it_prev. ptrs. ra H.
  rewrite (inorder_predecessor_of_Ok _ _ _ _ _ _ _ _ _ _ H). do 2 f_equal.
  rewrite nodes_plug in E, Hnd. simpl in E, Hnd. rewrite <- app_assoc, app_assoc, <- app_comm_cons in E, Hnd.
  by destruct (nodup_split _ _ _ _ _ _ _ Hnd E) as [-> _].
Qed.

Lemma it_prev_end s t : tree_inv s t -> it_prev s super = Ok (last_ptr null (nodes t)).
Proof. intros [H _]. unfold it_prev. ptrs. simpl. unfold get_right. by rewrite (st_right _ _ _ _ _ _ H). Qed.

Lemma rb_begin_Ok s t : tree_inv s t -> rb_begin s = first_ptr super (nodes t).
Proof.
  intros [H _]. unfold rb_begin, left_most_node. rewrite (st_size _ _ _ _ _ _ H), (st_left _ _ _ _ _ _ H).
  destruct (nodes t); done.
Qed.

Lemma lower_bound_node_Ok s t below m1 m2 :
  tree_inv s t -> nodes t = m1 ++ m2 ->
  Forall (fun x => below x.2 = true) m1 -> Forall (fun x => below x.2 = false) m2 ->
  lower_bound_node s below = Ok (first_ptr super m2).
Proof.
  intros [H _] E H1 H2. unfold lower_bound_node. rewrite (st_size _ _ _ _ _ _ H).
  destruct (Z.eqb_spec (Z.of_nat (length (nodes t))) 0) as [E0|E0].
  - rewrite E, length_app in E0. by destruct m2; [|simpl in E0; lia].
  - rewrite (m_root_at _ _ _ _ _ _ H). simpl plug. eapply (lower_loop_Ok _ _ []); [exact H| |exact E|done..| |];
      [|constructor|constructor].
    pose proof (height_le t). pose proof (proj1 (walk_at _ _ _ _ _ _ H)). lia.
Qed.

Lemma upper_bound_node_Ok s t above m1 m2 :
  tree_inv s t -> nodes t = m1 ++ m2 ->
  Forall (fun x => above x.2 = false) m1 -> Forall (fun x => above x.2 = true) m2 ->
  upper_bound_node s above = Ok (first_ptr super m2).
Proof.
  intros [H _] E H1 H2. unfold upper_bound_node. rewrite (m_root_at _ _ _ _ _ _ H). simpl plug.
  destruct t as [|c l a v r]; simpl root; ptrs.
  - symmetry in E. by apply app_nil in E as [_ ->].
  - change (at_ a) with (root (Node c l a v r)).
    eapply (upper_loop_Ok _ _ []); [exact H| |exact E|done..| |]; [|constructor|constructor].
    pose proof (height_le (Node c l a v r)). pose proof (proj1 (walk_at _ _ _ _ _ _ H)). lia.
Qed.

(** ** The interface *)

Definition node_of s (it : option A) : result ptr :=
  match it with Some x => find_node s (fun y => lt y x) (fun y => lt x y) | None => Ok super end.
Definition element_or_end s (p : result ptr) : option A :=
  match p ≫= element s with Ok o => o | Fault _ => None end.

#[export] Instance rb_set : OrderedSet (rbtree A) A := {|
  os_null := null_tree;
  os_size s := Z.to_nat (m_size s);
  os_begin s := element_or_end s (Ok (rb_begin s));
  os_lower_bound s below := element_or_end s (lower_bound_node s below);
  os_next s it := p ← node_of s it; q ← it_next s p; element s q;
  os_prev s it := p ← node_of s it; q ← it_prev s p; element s q;
  os_emplace s x := '(s, _, _) ← rb_emplace lt false s x; Ok s;
  os_remove s it := p ← node_of s it; rb_remove_at s p;
|}.

#[export] Instance rb_set_laws : OrderedSetLaws (rbtree A) A lt represents.
Proof.
  split; simpl.
  - apply represents_null.
  - intros s l (t & [H _] & <- & _). rewrite (st_size _ _ _ _ _ _ H), Nat2Z.id. by rewrite length_fmap.
  - intros s l (t & Hi & <- & _). unfold element_or_end. run. rewrite (rb_begin_Ok s t Hi).
    by rewrite (element_first s t [] _ Hi).
  - intros s l1 l2 below (t & m1 & m2 & Hi & E & <- & <- & _)%represents_app H1 H2. unfold element_or_end.
    rewrite Forall_fmap in H1, H2. rewrite (lower_bound_node_Ok s t below m1 m2 Hi E) by done. run.
    by rewrite (element_first s t m1 m2 Hi E).
  - intros s l1 x l2 (t & m1 & a & m2 & Hi & E & <- & <- & ->)%represents_find. run.
    rewrite (it_next_Ok s t m1 a x m2 Hi E). run. eapply (element_first s t (m1 ++ [(a, x)])); [done|].
    by rewrite <- app_assoc.
  - intros s l1 x l2 (t & m1 & a & m2 & Hi & E & <- & <- & ->)%represents_find. run.
    rewrite (it_prev_Ok s t m1 a x m2 Hi E). run. by eapply element_last.
  - intros s l x (t & Hi & E & _). rewrite (st_right _ _ _ _ _ _ (ti_st _ _ Hi)).
    rewrite last_ptr_super by (intros E'; rewrite E' in E; by destruct l).
    rewrite (element_last s t (nodes t) []); [|done|by rewrite app_nil_r]. by rewrite E, last_snoc.
  - intros s l1 l2 x H H1 H2. destruct (represents_emplace false s l1 l2 x H H1 H2) as (s' & b & -> & Hs & _).
    by exists s'.
  - intros s l1 x l2 H. destruct (represents_remove s l1 x l2 H) as (s' & p & -> & _ & Er & Hs). run. by exists s'.
Qed.

(** ** Properties *)

Lemma represents_size s l : represents s l -> m_size s = Z.of_nat (length l).
Proof. intros (t & [H _] & <- & _). rewrite (st_size _ _ _ _ _ _ H). by rewrite length_fmap. Qed.

(** A key that is not in the tree. *)
Lemma find_absent s l1 l2 below above :
  represents s (l1 ++ l2) ->
  Forall (fun y => below y = true /\ above y = false) l1 ->
  Forall (fun y => below y = false /\ above y = true) l2 ->
  find_node s below above = Ok super.
Proof.
  intros (t & m1 & m2 & Hi & E & <- & <- & _)%represents_app H1 H2. rewrite Forall_fmap in H1, H2.
  destruct (find_node_Ok s t below above m1 [] m2 _ _ (ti_st _ _ Hi) E) as (p & -> & [[_ ->]|(x & Hx & _)]); try done.
  by apply not_elem_of_nil in Hx.
Qed.

(** A value equal to one in the tree. *)
Lemma find_equal s l1 x l2 v :
  represents s (l1 ++ x :: l2) -> lt x v = false -> lt v x = false ->
  Forall (fun y => lt y v = true) l1 -> Forall (fun y => lt v y = true) l2 ->
  exists a, find_node s (fun y => lt y v) (fun y => lt v y) = Ok (at_ a) /\ it_deref s (at_ a) = Ok x.
Proof.
  intros (t & m1 & a & m2 & Hi & E & <- & <- & Ho)%represents_mid Hx1 Hx2 H1 H2. rewrite Forall_fmap in H1, H2.
  destruct (find_node_Ok s t (fun y => lt y v) (fun y => lt v y) m1 [(a, x)] m2 _ _ (ti_st _ _ Hi) E)
    as (p & -> & [[? _]|(y & Hy & ->)]); [..|done|].
  - eapply Forall_impl; [exact H1|]. simpl. intros. split; [done|by apply (lt_asym lt)].
  - by repeat constructor.
  - eapply Forall_impl; [exact H2|]. simpl. intros. split; [by apply (lt_asym lt)|done].
  - apply list_elem_of_singleton in Hy. subst. exists a. split; [done|]. eapply it_deref_Ok; [done|].
    rewrite E. set_solver.
Qed.

(** C1: inserting a value that is not in the tree puts a new node with it in its place in
    the order, keeps the red-black invariant, the sentinel's links and the count, and
    returns an iterator to it; inserting an equal one into a set changes nothing and
    returns the element that is there. *)
Theorem rb_emplace_correct s l1 l2 v :
  represents s (l1 ++ l2) ->
  Forall (fun y => lt y v = true) l1 -> Forall (fun y => lt v y = true) l2 ->
  (exists s' p, rb_emplace lt false s v = Ok (s', p, true) /\ represents s' (l1 ++ v :: l2) /\
     it_deref s' p = Ok v /\ m_size s' = m_size s + 1) /\
  (forall r x w, represents r (l1 ++ x :: l2) -> lt x w = false -> lt w x = false ->
     Forall (fun y => lt y w = true) l1 -> Forall (fun y => lt w y = true) l2 ->
     exists p, rb_emplace lt false r w = Ok (r, p, false) /\ it_deref r p = Ok x).
Proof.
  intros H H1 H2. split.
  - destruct (represents_emplace false s l1 l2 v H H1 H2) as (s' & b & E & Hs & Hv).
    exists s', (at_ b). split_and!; [done..|].
    rewrite (represents_size _ _ H), (represents_size _ _ Hs), !length_app. simpl. lia.
  - intros r x w Hr Hx1 Hx2 H3 H4. destruct (find_equal r l1 x l2 w Hr Hx1 Hx2 H3 H4) as (a & Ef & Ed).
    exists (at_ a). split; [|done]. unfold rb_emplace. simpl negb. rewrite Ef. run. ptrs. done.
Qed.

(** C2: removing an element takes exactly it out, keeps the invariants and the count, and
    removing a key that is not there changes nothing. *)
Theorem rb_remove_correct s l1 x l2 :
  represents s (l1 ++ x :: l2) ->
  (exists s', rb_remove s (fun y => lt y x) (fun y => lt x y) = Ok s' /\ represents s' (l1 ++ l2) /\
     m_size s' = m_size s - 1) /\
  (forall r below above, represents r (l1 ++ l2) ->
     Forall (fun y => below y = true /\ above y = false) l1 ->
     Forall (fun y => below y = false /\ above y = true) l2 -> rb_remove r below above = Ok r).
Proof.
  intros H. split.
  - destruct (represents_remove s l1 x l2 H) as (s' & p & Ef & Hp & Er & Hs). exists s'. split_and!; [|done|].
    + unfold rb_remove. rewrite Ef. run. by rewrite ptr_eq_ne.
    + rewrite (represents_size _ _ H), (represents_size _ _ Hs), !length_app. simpl. lia.
  - intros r below above Hr H1 H2. unfold rb_remove. by rewrite (find_absent r l1 l2 below above Hr H1 H2).
Qed.

(** For a key that splits the elements into those below it, those equal to it and those
    above it, [lower_bound] is at the first element not below it, [upper_bound] at the
    first above it, and [find], [get] and [contains] tell whether there is an equal one. *)
Theorem rb_search_correct s l1 l2 l3 below above :
  represents s (l1 ++ l2 ++ l3) ->
  Forall (fun y => below y = true /\ above y = false) l1 ->
  Forall (fun y => below y = false /\ above y = false) l2 ->
  Forall (fun y => below y = false /\ above y = true) l3 ->
  (lower_bound_node s below ≫= element s) = Ok (head (l2 ++ l3)) /\
  (upper_bound_node s above ≫= element s) = Ok (head l3) /\
  rb_contains s below above = Ok (negb (bool_decide (l2 = []))) /\
  (rb_get s below above = Fault AssertionFailed <-> l2 = []) /\
  (l2 <> [] -> exists x, x ∈ l2 /\ rb_get s below above = Ok x).
Proof.
  intros (t & m1 & m23 & Hi & E & <- & E23 & _)%represents_app H1 H2 H3.
  apply fmap_app_inv in E23 as (m2 & m3 & -> & -> & ->). rewrite !Forall_fmap in *.
  assert (Hb1 : Forall (fun y => below y.2 = true) m1) by (eapply Forall_impl; [exact H1|simpl; naive_solver]).
  assert (Hb23 : Forall (fun y => below y.2 = false) (m2 ++ m3))
    by (apply Forall_app; split; eapply Forall_impl; [exact H2|simpl; naive_solver|exact H3|simpl; naive_solver]).
  assert (Ha12 : Forall (fun y => above y.2 = false) (m1 ++ m2))
    by (apply Forall_app; split; eapply Forall_impl; [exact H1|simpl; naive_solver|exact H2|simpl; naive_solver]).
  assert (Ha3 : Forall (fun y => above y.2 = true) m3) by (eapply Forall_impl; [exact H3|simpl; naive_solver]).
  rewrite (lower_bound_node_Ok s t below m1 (m2 ++ m3) Hi E) by done.
  rewrite (upper_bound_node_Ok s t above (m1 ++ m2) m3 Hi) by (done || by rewrite <- app_assoc). run.
  rewrite (element_first s t m1 (m2 ++ m3) Hi E), fmap_app.
  rewrite (element_first s t (m1 ++ m2) m3 Hi) by (by rewrite <- app_assoc).
  unfold rb_contains, rb_get.
  destruct (find_node_Ok s t below above m1 m2 m3 _ _ (ti_st _ _ Hi) E) as (p & -> & [[-> ->]|([a x] & Hx & ->)]);
    [done..| |]; cbn [fst]; run; ptrs; [done|].
  rewrite (get_value_in s t a x _ _ _ (ti_st _ _ Hi)) by (rewrite E; set_solver).
  assert (Hne : m2.*2 <> []) by (intros Hm; apply fmap_nil_inv in Hm; subst; by apply not_elem_of_nil in Hx).
  split_and!; try done.
  - by rewrite bool_decide_eq_false_2.
  - intros _. exists x. split; [|done]. apply list_elem_of_fmap. by exists (a, x).
Qed.

(** Walking with [++] from an iterator to [end()], and with [--] from [end()]. *)
Fixpoint walk_forward (fuel : nat) s (it : ptr) : result (list A) :=
  match fuel with
  | O => Fault OutOfFuel
  | S fuel =>
    if ptr_eq it rb_end then Ok []
    else v ← it_deref s it; it ← it_next s it; l ← walk_forward fuel s it; Ok (v :: l)
  end.
Fixpoint walk_backward (n : nat) s (it : ptr) : result (list A) :=
  match n with
  | O => Ok []
  | S n => it ← it_prev s it; v ← it_deref s it; l ← walk_backward n s it; Ok (v :: l)
  end.

Lemma walk_forward_Ok s t fuel m1 m2 :
  tree_inv s t -> nodes t = m1 ++ m2 -> (length m2 < fuel)%nat ->
  walk_forward fuel s (first_ptr super m2) = Ok m2.*2.
Proof.
  intros Hi. revert m1 m2. induction fuel as [|fuel IH]; intros m1 m2 E Hf; [lia|]. cbn [walk_forward].
  destruct m2 as [|[a x] m2]; [done|]. simpl first_ptr. unfold rb_end. ptrs.
  rewrite (it_deref_Ok s t a x Hi) by (rewrite E; set_solver). run.
  rewrite (it_next_Ok s t m1 a x m2 Hi E). run. simpl in Hf.
  rewrite (IH (m1 ++ [(a, x)]) m2); [done|by rewrite <- app_assoc|lia].
Qed.

Lemma walk_backward_Ok s t m1 m2 :
  tree_inv s t -> nodes t = m1 ++ m2 ->
  walk_backward (length m1) s (match m2 with [] => super | x :: _ => at_ x.1 end) = Ok (reverse m1.*2).
Proof.
  intros Hi. revert m2. induction m1 as [|[a x] m1 IH] using rev_ind; intros m2 E; [done|].
  rewrite length_app, Nat.add_comm. cbn [length Nat.add walk_backward].
  assert (Ep : it_prev s (match m2 with [] => super | x :: _ => at_ x.1 end) = Ok (at_ a)).
  { destruct m2 as [|[b y] m2].
    - rewrite (it_prev_end s t Hi), E, app_nil_r. unfold last_ptr. by rewrite last_snoc.
    - simpl. rewrite (it_prev_Ok s t (m1 ++ [(a, x)]) b y m2 Hi E). unfold last_ptr. by rewrite last_snoc. }
  rewrite Ep. run. rewrite (it_deref_Ok s t a x Hi) by (rewrite E; set_solver). run.
  rewrite <- app_assoc in E. specialize (IH ((a, x) :: m2) E). simpl in IH. rewrite IH. run.
  by rewrite fmap_app, reverse_app.
Qed.

(** Walking from [begin()] with [++] visits the elements in increasing order and stops
    at [end()] after the last; walking back from [end()] with [--] visits them in reverse. *)
Theorem rb_iteration_correct s l :
  represents s l ->
  walk_forward (S (length l)) s (rb_begin s) = Ok l /\
  walk_backward (length l) s rb_end = Ok (reverse l).
Proof.
  intros (t & Hi & <- & _). rewrite length_fmap. split.
  - rewrite (rb_begin_Ok s t Hi). eapply (walk_forward_Ok s t _ []); [done|done|lia].
  - apply (walk_backward_Ok s t (nodes t) [] Hi). by rewrite app_nil_r.
Qed.

Lemma rb_find_loop_total fuel s k t below above SL SR Z_ :
  st_at s k t SL SR Z_ -> (height t < fuel)%nat -> exists p, rb_find_loop fuel s below above (root t) = Ok p.
Proof.
  revert k t. induction fuel as [|fuel IH]; intros k t H Hf; [lia|]. cbn [rb_find_loop].
  destruct t as [|c l a v r]; simpl root; simpl in Hf; ptrs; [by eexists|]. ra H.
  destruct (below v); [ra H; down_right H; eapply IH; [exact H|lia]|].
  destruct (above v); [ra H; down_left H; eapply IH; [exact H|lia]|by eexists].
Qed.

Lemma lower_loop_total fuel s k t below SL SR Z_ q :
  st_at s k t SL SR Z_ -> (height t < fuel)%nat -> exists p, lower_loop fuel s below (root t) q = Ok p.
Proof.
  revert k t q. induction fuel as [|fuel IH]; intros k t q H Hf; [lia|]. cbn [lower_loop].
  destruct t as [|c l a v r]; simpl root; simpl in Hf; ptrs; [by eexists|]. ra H.
  destruct (below v); ra H; [down_right H|down_left H]; eapply IH; (exact H || lia).
Qed.

(** C33: the tree is balanced: with any key, a search looks at no more than
    [2 * log2 (n + 1)] of its [n] nodes. *)
Theorem rb_search_logarithmic s l below above :
  represents s l ->
  let steps := S (2 * Nat.log2 (S (length l))) in
  (exists p, rb_find_loop steps s below above (m_root s) = Ok p) /\
  (exists p, lower_loop steps s below (m_root s) super = Ok p).
Proof.
  intros (t & Hi & <- & _). rewrite length_fmap. pose proof (tree_height s t Hi). destruct Hi as [H0 _].
  rewrite (m_root_at _ _ _ _ _ _ H0). simpl plug. split.
  - eapply rb_find_loop_total; [exact H0|lia].
  - eapply lower_loop_total; [exact H0|lia].
Qed.

(** [clear] frees every node and leaves an empty tree; copying a tree over another
    leaves a well-formed tree with the same elements, and frees the old ones. *)
Theorem rb_copy_correct s l o l' :
  represents s l -> represents o l' ->
  rb_clear s = Ok null_tree /\
  exists s', rb_become lt s o = Ok s' /\ represents s' l' /\ size (heap s') = length l'.
Proof.
  intros (t & Hi & <- & _) (t' & Hi' & <- & Ho). split.
  - by destruct (rb_clear_Ok s t Hi) as (? & E & ->).
  - destruct (rb_become_Ok s t o t' Hi Hi' Ho) as (s' & t2 & E & Hi2 & E2). exists s'. split_and!; [done| |].
    + exists t2. by rewrite E2.
    + rewrite <- E2, length_fmap. pose proof (st_walk _ _ _ _ _ _ (ti_st _ _ Hi2)) as Hw. unfold walk in Hw.
      simpl in Hw. rewrite length_entries in Hw. lia.
Qed.
End set.

(** ** Examples *)

#[export] Instance Z_strict : StrictOrder Z.ltb.
Proof. split; intros; lia. Qed.

Definition push (s : result (rbtree Z)) (v : Z) : result (rbtree Z) :=
  s ← s; '(s, _, _) ← rb_emplace Z.ltb false s v; Ok s.
Definition example_tree : rbtree Z :=
  match foldl push (Ok null_tree) [5; 3; 8; 1; 4; 7; 9] with Ok s => s | Fault _ => null_tree end.

Lemma example_represents : represents Z.ltb example_tree [1; 3; 4; 5; 7; 8; 9].
Proof.
  assert (H : forall s l1 v l2, represents Z.ltb s (l1 ++ l2) ->
    Forall (fun y => (y <? v) = true) l1 -> Forall (fun y => (v <? y) = true) l2 ->
    exists s', push (Ok s) v = Ok s' /\ represents Z.ltb s' (l1 ++ v :: l2)).
  { intros s l1 v l2 H H1 H2. destruct (represents_emplace Z.ltb false s l1 l2 v H H1 H2) as (s' & b & E & Hs & _).
    exists s'. unfold push. run. by rewrite E. }
  destruct (H null_tree [] 5 [] (represents_null _)) as (s1 & E1 & H1); [by repeat constructor..|].
  destruct (H s1 [] 3 [5] H1) as (s2 & E2 & H2); [by repeat constructor..|].
  destruct (H s2 [3; 5] 8 [] H2) as (s3 & E3 & H3); [by repeat constructor..|].
  destruct (H s3 [] 1 [3; 5; 8] H3) as (s4 & E4 & H4); [by repeat constructor..|].
  destruct (H s4 [1; 3] 4 [5; 8] H4) as (s5 & E5 & H5); [by repeat constructor..|].
  destruct (H s5 [1; 3; 4; 5] 7 [8] H5) as (s6 & E6 & H6); [by repeat constructor..|].
  destruct (H s6 [1; 3; 4; 5; 7; 8] 9 [] H6) as (s7 & E7 & H7); [by repeat constructor..|].
  unfold example_tree. cbn [foldl]. by rewrite E1, E2, E3, E4, E5, E6, E7.
Qed.

Lemma rb_emplace_correct_witness :
  exists s' p, rb_emplace Z.ltb false example_tree 6 = Ok (s', p, true) /\
    represents Z.ltb s' [1; 3; 4; 5; 6; 7; 8; 9] /\ it_deref s' p = Ok 6 /\ m_size s' = m_size example_tree + 1.
Proof.
  refine (proj1 (rb_emplace_correct Z.ltb example_tree [1; 3; 4; 5] [7; 8; 9] 6 example_represents _ _));
    by repeat constructor.
Defined.

Lemma rb_remove_correct_witness :
  exists s', rb_remove example_tree (fun y => y <? 5) (fun y => 5 <? y) = Ok s' /\
    represents Z.ltb s' [1; 3; 4; 7; 8; 9] /\ m_size s' = m_size example_tree - 1.
Proof. exact (proj1 (rb_remove_correct Z.ltb example_tree [1; 3; 4] 5 [7; 8; 9] example_represents)). Defined.

Lemma rb_search_correct_witness :
  (lower_bound_node example_tree (fun y => y <? 6) ≫= element example_tree) = Ok (Some 7).
Proof.
  refine (proj1 (rb_search_correct Z.ltb example_tree [1; 3; 4; 5] [] [7; 8; 9] (fun y => y <? 6)
    (fun y => 6 <? y) example_represents _ _ _)); by repeat constructor.
Defined.

Lemma rb_iteration_correct_witness :
  walk_forward 8 example_tree (rb_begin example_tree) = Ok [1; 3; 4; 5; 7; 8; 9].
Proof. exact (proj1 (rb_iteration_correct Z.ltb example_tree _ example_represents)). Defined.

Lemma rb_search_logarithmic_witness :
  exists p, rb_find_loop 7 example_tree (fun y => y <? 9) (fun y => 9 <? y) (m_root example_tree) = Ok p.
Proof. exact (proj1 (rb_search_logarithmic Z.ltb example_tree _ _ _ example_represents)). Defined.

Lemma rb_copy_correct_witness :
  exists s', rb_become Z.ltb null_tree example_tree = Ok s' /\
    represents Z.ltb s' [1; 3; 4; 5; 7; 8; 9] /\ size (heap s') = 7%nat.
Proof. exact (proj2 (rb_copy_correct Z.ltb null_tree [] example_tree _ (represents_null _) example_represents)). Defined.

(** With duplicates allowed, a second element equal to the greatest goes in before it, yet
    becomes the sentinel's rightmost node; once it is removed, through the branch for the
    leftmost node, the sentinel keeps a pointer to the freed node. *)
Example multiset_dangling_last :
  (s ← (r ← rb_emplace Z.ltb true null_tree 5; Ok r.1.1);
   '(s, new, _) ← rb_emplace Z.ltb true s 5;
   s ← rb_remove_at s new;
   it ← it_prev s rb_end;
   it_deref s it) = Fault OutOfBounds.
Proof. vm_compute. reflexivity. Qed.
