(* ===== verification/Scheduler.v ===== *)
(** The scheduler: Multitasking/Blocker, Thread, Process, Scheduler and TaskFinalizer.

    The kernel's objects live in finite maps keyed by their address (a [nat] here): threads,
    blockers, processes, processors.  The queues of the scheduler are the lists of thread
    addresses [m_ready_threads], [m_deferred_deleted_dead_threads] and the two queues of the
    TaskFinalizer, and [m_sleeping_threads] is the list of the sleeping blockers in the order
    of the MultiSet: the content of its tree, whose pointer code is in RedBlackTree.v.  The
    MultiSet keeps that content while no two sleeping threads wake up at the same time; with
    equal times its sentinel can point to a freed node, which the next emplace reads
    (RedBlackTree.h:453), so that [no_tie] of SchedulerSafety.v excludes them.  Every function that runs under [s_queues_lock] is one transition of the
    state; an [ASSERT] that fails is a [Fault].  A thread's registers, its FPU state and its
    address space are not modelled: they do not influence which thread runs. *)
From S2P Require Import Prelude.
From stdpp Require Import gmap.
#[local] Open Scope Z_scope.

(** ** Data *)

(** [Kernel/Multitasking/Blocker.h:12-19] Blocker::Type *)
Inductive blocker_type := DISK_IO | MUTEX | IO | PROCESS_LOAD | SLEEP | IRQ.
(** [Kernel/Multitasking/Blocker.h:21-26] Blocker::Result *)
Inductive blocker_result := RESULT_UNDEFINED | UNBLOCKED | INTERRUPTED | TIMEOUT.

(** [Kernel/Multitasking/Blocker.h:10-48] Blocker, with the wake time of a SleepBlocker *)
Record blocker := Blocker {
  b_thread : nat;
  b_type : blocker_type;
  b_result : blocker_result;
  b_should_block : bool;
  b_wake_time : Z }.

(** [Kernel/Multitasking/Thread.h:22-28] Thread::State *)
Inductive thread_state := UNDEFINED | RUNNING | DEAD | BLOCKED | READY.

(** [Kernel/Multitasking/Thread.h:194-213] the members of Thread that the scheduler uses *)
Record thread := Thread {
  t_owner : nat;
  t_state : thread_state;
  t_requested : thread_state;
  t_blocker : option nat;
  t_should_die : bool;
  t_invulnerable : bool;
  t_kill_all : bool;
  t_exit_code : Z }.

(** [Kernel/Multitasking/Process.h:19-23] Process::State *)
Inductive process_state := ALIVE | EXITING | EXITED.

(** [Kernel/Multitasking/Process.h:128-144] the members of Process that the scheduler uses *)
Record process := Process {
  p_state : process_state;
  p_exit_code : Z;
  p_threads : list nat;
  p_alive : Z }.

Record processor := Processor { c_current : nat; c_idle : nat }.

(** [Kernel/Multitasking/Scheduler.h:56-67] Scheduler, and the queues of TaskFinalizer *)
Record sched := Sched {
  s_threads : gmap nat thread;
  s_blockers : gmap nat blocker;
  s_processes : gmap nat process;
  s_registered : gset nat;
  s_cpus : gmap nat processor;
  s_ready : list nat;
  s_sleeping : list nat;
  s_deferred : list nat;
  s_to_free : list nat;
  s_being_freed : list nat }.

#[export] Instance blocker_type_eq_dec : EqDecision blocker_type.
Proof. solve_decision. Defined.
#[export] Instance blocker_result_eq_dec : EqDecision blocker_result.
Proof. solve_decision. Defined.
#[export] Instance thread_state_eq_dec : EqDecision thread_state.
Proof. solve_decision. Defined.
#[export] Instance process_state_eq_dec : EqDecision process_state.
Proof. solve_decision. Defined.

(** Reading through a pointer to an object that does not exist is undefined. *)
Definition deref {A} (m : gmap nat A) (p : nat) : result A :=
  match m !! p with
  | Some a => Ok a
  | None => Fault OutOfBounds
  end.

Definition with_threads f st :=
  Sched (f (s_threads st)) (s_blockers st) (s_processes st) (s_registered st) (s_cpus st) (s_ready st) (s_sleeping st) (s_deferred st) (s_to_free st) (s_being_freed st).
Definition with_blockers f st :=
  Sched (s_threads st) (f (s_blockers st)) (s_processes st) (s_registered st) (s_cpus st) (s_ready st) (s_sleeping st) (s_deferred st) (s_to_free st) (s_being_freed st).
Definition with_processes f st :=
  Sched (s_threads st) (s_blockers st) (f (s_processes st)) (s_registered st) (s_cpus st) (s_ready st) (s_sleeping st) (s_deferred st) (s_to_free st) (s_being_freed st).
Definition with_registered f st :=
  Sched (s_threads st) (s_blockers st) (s_processes st) (f (s_registered st)) (s_cpus st) (s_ready st) (s_sleeping st) (s_deferred st) (s_to_free st) (s_being_freed st).
Definition with_cpus f st :=
  Sched (s_threads st) (s_blockers st) (s_processes st) (s_registered st) (f (s_cpus st)) (s_ready st) (s_sleeping st) (s_deferred st) (s_to_free st) (s_being_freed st).
Definition with_ready f st :=
  Sched (s_threads st) (s_blockers st) (s_processes st) (s_registered st) (s_cpus st) (f (s_ready st)) (s_sleeping st) (s_deferred st) (s_to_free st) (s_being_freed st).
Definition with_sleeping f st :=
  Sched (s_threads st) (s_blockers st) (s_processes st) (s_registered st) (s_cpus st) (s_ready st) (f (s_sleeping st)) (s_deferred st) (s_to_free st) (s_being_freed st).
Definition with_deferred f st :=
  Sched (s_threads st) (s_blockers st) (s_processes st) (s_registered st) (s_cpus st) (s_ready st) (s_sleeping st) (f (s_deferred st)) (s_to_free st) (s_being_freed st).
Definition with_to_free f st :=
  Sched (s_threads st) (s_blockers st) (s_processes st) (s_registered st) (s_cpus st) (s_ready st) (s_sleeping st) (s_deferred st) (f (s_to_free st)) (s_being_freed st).
Definition with_being_freed f st :=
  Sched (s_threads st) (s_blockers st) (s_processes st) (s_registered st) (s_cpus st) (s_ready st) (s_sleeping st) (s_deferred st) (s_to_free st) (f (s_being_freed st)).

Definition put_thread (t : nat) (th : thread) : sched -> sched := with_threads (insert t th).
Definition put_blocker (b : nat) (blk : blocker) : sched -> sched := with_blockers (insert b blk).
Definition put_process (p : nat) (pr : process) : sched -> sched := with_processes (insert p pr).

(** [Kernel/Multitasking/Thread.h:169-169] Thread::set_state *)
Definition set_state (s : thread_state) (th : thread) : thread :=
  Thread (t_owner th) s (t_requested th) (t_blocker th) (t_should_die th) (t_invulnerable th) (t_kill_all th) (t_exit_code th).
(** [Kernel/Multitasking/Thread.h:189-189] Thread::set_blocker *)
Definition set_blocker (b : option nat) (th : thread) : thread :=
  Thread (t_owner th) (t_state th) (t_requested th) b (t_should_die th) (t_invulnerable th) (t_kill_all th) (t_exit_code th).
(** [Kernel/Multitasking/Thread.h:73-76] Thread::request_state, a compare and exchange *)
Definition request_state (new expected : thread_state) (th : thread) : thread :=
  Thread (t_owner th) (t_state th) 
    (if decide (t_requested th = expected) then new else t_requested th) (t_blocker th) (t_should_die th) (t_invulnerable th) (t_kill_all th) (t_exit_code th).
(** [Kernel/Multitasking/Thread.h:159-163] Thread::exit *)
Definition thread_exit (code : Z) (th : thread) : thread :=
  Thread (t_owner th) (t_state th) (t_requested th) (t_blocker th) true (t_invulnerable th) (t_kill_all th) code.
(** [Kernel/Multitasking/Thread.h:151-151] Thread::kill_all_threads_on_exit *)
Definition kill_all_threads_on_exit (th : thread) : thread :=
  Thread (t_owner th) (t_state th) (t_requested th) (t_blocker th) (t_should_die th) (t_invulnerable th) true (t_exit_code th).
(** [Kernel/Multitasking/Thread.h:71-71] Thread::set_invulnerable *)
Definition set_invulnerable (v : bool) (th : thread) : thread :=
  Thread (t_owner th) (t_state th) (t_requested th) (t_blocker th) (t_should_die th) v (t_kill_all th) (t_exit_code th).

(** A thread is an intrusive list node: it is on at most one list, and
    [StandaloneListNode::set_my_list] asserts it is on none when it is inserted. *)
Definition on_a_list (st : sched) (t : nat) : bool :=
  bool_decide (t ∈ s_ready st ++ s_deferred st ++ s_to_free st ++ s_being_freed st).

Definition insert_ready (t : nat) (st : sched) : result sched :=
  ASSERT (negb (on_a_list st t)) ;; Ok (with_ready (fun l => l ++ [t]) st).

(** ** Blocker and Thread *)

(** [Kernel/Multitasking/Blocker.h:38-98] Blocker::is_interruptable and its overrides *)
Definition is_interruptable (b : blocker) : bool :=
  match b_type b with
  | DISK_IO | MUTEX | PROCESS_LOAD => false
  | IO | SLEEP | IRQ => true
  end.

(** [Kernel/Multitasking/Blocker.cpp:27-32] Blocker::set_result *)
Definition set_result (r : blocker_result) (b : blocker) : blocker :=
  if decide (b_result b = RESULT_UNDEFINED)
  then Blocker (b_thread b) (b_type b) r false (b_wake_time b)
  else b.

(** [Kernel/Multitasking/Blocker.cpp:62-65] SleepBlocker::should_be_woken_up *)
Definition should_be_woken_up (now : Z) (b : blocker) : bool := b_wake_time b <=? now.

(** [Kernel/Multitasking/Thread.h:143-149] Thread::block *)
Definition thread_block (t b : nat) (st : sched) : result sched :=
  th ← deref (s_threads st) t;
  ASSERT (bool_decide (t_blocker th = None)) ;;
  Ok (put_thread t (request_state BLOCKED UNDEFINED (set_blocker (Some b) th)) st).

(** [Kernel/Multitasking/Thread.cpp:207-218] Thread::unblock *)
Definition thread_unblock (t : nat) (st : sched) : result sched :=
  th ← deref (s_threads st) t;
  match t_blocker th with
  | None => Fault AssertionFailed
  | Some b =>
      blk ← deref (s_blockers st) b;
      let blk := if b_should_block blk then set_result UNBLOCKED blk else blk in
      let th := set_blocker None th in
      let th := if decide (t_state th = BLOCKED) then set_state READY th else th in
      Ok (put_thread t th (put_blocker b blk st))
  end.

(** [Kernel/Multitasking/Thread.cpp:220-232] Thread::interrupt *)
Definition thread_interrupt (t : nat) (st : sched) : result (sched * bool) :=
  th ← deref (s_threads st) t;
  match t_blocker th with
  | None => Fault AssertionFailed
  | Some b =>
      blk ← deref (s_blockers st) b;
      if negb (is_interruptable blk) then Ok (st, false) else
      Ok (put_thread t (set_state READY (set_blocker None th))
            (put_blocker b (set_result INTERRUPTED blk) st), true)
  end.

(** [Kernel/Multitasking/Thread.cpp:178-194] Thread::activate *)
Definition activate (cpu t : nat) (st : sched) : result sched :=
  th ← deref (s_threads st) t;
  ASSERT (bool_decide (t_state th = READY)) ;;
  c ← deref (s_cpus st) cpu;
  Ok (with_cpus (insert cpu (Processor t (c_idle c))) (put_thread t (set_state RUNNING th) st)).

(** [Kernel/Multitasking/Thread.cpp:196-205] Thread::deactivate *)
Definition deactivate (t : nat) (st : sched) : result sched :=
  th ← deref (s_threads st) t;
  if negb (bool_decide (t_state th = RUNNING)) then Ok st
  else Ok (put_thread t (set_state READY th) st).

(** ** Process *)

(** [Kernel/Multitasking/Process.h:58-67] Process::exit *)
Definition process_exit (code : Z) (p : process) : process * bool :=
  if decide (p_state p = ALIVE)
  then (Process EXITING code (p_threads p) (p_alive p), true)
  else (p, false).

(** [Kernel/Multitasking/Process.h:107-107] Process::increment_alive_thread_count *)
Definition increment_alive_thread_count (p : process) : process :=
  Process (p_state p) (p_exit_code p) (p_threads p) (wrap32 (p_alive p + 1)).

(** [Kernel/Multitasking/Process.h:108-115] Process::decrement_alive_thread_count *)
Definition decrement_alive_thread_count (p : process) : result (process * Z) :=
  ASSERT (negb (p_alive p =? 0)) ;;
  Ok (Process (p_state p) (p_exit_code p) (p_threads p) (wrap32 (p_alive p - 1)),
      wrap32 (p_alive p - 1)).

(** [Kernel/Multitasking/Process.h:121-125] Process::mark_as_released *)
Definition mark_as_released (p : process) : result process :=
  ASSERT (bool_decide (p_state p = EXITING)) ;;
  Ok (Process EXITED (p_exit_code p) (p_threads p) (p_alive p)).

(** [Kernel/Multitasking/TaskFinalizer.cpp:48-52] TaskFinalizer::free_thread *)
Definition free_thread (t : nat) (st : sched) : result sched :=
  ASSERT (negb (on_a_list st t)) ;; Ok (with_to_free (fun l => l ++ [t]) st).

(** ** Scheduler *)

(** [Kernel/Multitasking/Scheduler.cpp:229-242] Scheduler::unblock_unchecked *)
Definition unblock_unchecked (b : nat) (st : sched) : result sched :=
  blk ← deref (s_blockers st) b;
  let t := b_thread blk in
  th ← deref (s_threads st) t;
  if negb (bool_decide (t_state th = BLOCKED)) then
    Ok (put_blocker b (set_result UNBLOCKED blk) st)
  else
    st ← thread_unblock t st;
    insert_ready t st.

(** [Kernel/Multitasking/Blocker.cpp:19-25] Blocker::unblock, which calls Scheduler::unblock *)
Definition blocker_unblock (b : nat) (st : sched) : result sched :=
  blk ← deref (s_blockers st) b;
  if negb (b_should_block blk) then Ok st else unblock_unchecked b st.

Definition wake_time_of (st : sched) (b : nat) : Z :=
  match s_blockers st !! b with
  | Some blk => b_wake_time blk
  | None => 0
  end.

(** [Kernel/Multitasking/Scheduler.cpp:297-298] m_sleeping_threads.emplace: descending the
    MultiSet ends before the first blocker that does not wake up earlier *)
Fixpoint emplace_sleeping (st : sched) (b : nat) (l : list nat) : list nat :=
  match l with
  | [] => [b]
  | x :: l' => if wake_time_of st x <? wake_time_of st b then x :: emplace_sleeping st b l'
               else b :: l
  end.

(** [Kernel/Multitasking/Scheduler.cpp:38-51] Scheduler::wake_ready_threads *)
Fixpoint wake_loop (now : Z) (l : list nat) (st : sched) : result sched :=
  match l with
  | [] => Ok st
  | b :: l' =>
      blk ← deref (s_blockers st) b;
      if negb (should_be_woken_up now blk) then Ok st
      else st ← unblock_unchecked b (with_sleeping (fun _ => l') st);
           wake_loop now l' st
  end.
Definition wake_ready_threads (now : Z) (st : sched) : result sched :=
  wake_loop now (s_sleeping st) st.

(** [Kernel/Multitasking/Scheduler.cpp:99-106] Scheduler::free_deferred_threads.  The iterator
    is the index of its node, the length of the list standing for [end()], and [++] on [end()]
    is [begin()].  It is advanced twice per iteration. *)
Fixpoint free_deferred_loop (fuel i : nat) (st : sched) : result sched :=
  if decide (i = length (s_deferred st)) then Ok st else
  match fuel, s_deferred st !! i with
  | S fuel, Some t =>
      st ← free_thread t (with_deferred (fun l => take i l ++ drop (S i) l) st);
      free_deferred_loop fuel (if decide (i = length (s_deferred st)) then O else S i) st
  | O, _ => Fault OutOfFuel
  | _, None => Fault OutOfBounds
  end.
Definition free_deferred_threads (st : sched) : result sched :=
  free_deferred_loop (length (s_deferred st)) 0 st.

(** [Kernel/Multitasking/Scheduler.cpp:127-137] the lambda remove_sleeping_blocker *)
Fixpoint remove_from (b : nat) (l : list nat) : result (list nat) :=
  match l with
  | [] => Fault AssertionFailed
  | x :: l' => if decide (x = b) then Ok l' else l' ← remove_from b l'; Ok (x :: l')
  end.
Fixpoint remove_sleeping_blocker (st : sched) (b : nat) (l : list nat) : result (list nat) :=
  match l with
  | [] => Fault AssertionFailed
  | x :: l' => if wake_time_of st x <? wake_time_of st b
               then l' ← remove_sleeping_blocker st b l'; Ok (x :: l')
               else remove_from b l
  end.

Definition decrement_alive (p : nat) (st : sched) : result (sched * Z) :=
  pr ← deref (s_processes st) p;
  '(pr, n) ← decrement_alive_thread_count pr;
  Ok (put_process p pr st, n).

(** [Kernel/Common/List.h:500-504] StandaloneListNode::pop_off of a thread on the ready list *)
Definition pop_off_ready (t : nat) (st : sched) : result sched :=
  ASSERT (on_a_list st t) ;; Ok (with_ready (filter (fun x => x <> t)) st).

(** [Kernel/Multitasking/Scheduler.cpp:147-162] kill_current_thread, a thread of the process other than the killer *)
Definition kill_other_thread (p t : nat) (st : sched) : result sched :=
  th ← deref (s_threads st) t;
  let st := put_thread t (thread_exit 0 th) st in
  match t_state th with
  | BLOCKED =>
      match t_blocker th with
      | None => Fault OutOfBounds
      | Some b =>
          blk ← deref (s_blockers st) b;
          if decide (b_type blk = SLEEP) then
            '(st, _) ← decrement_alive p st;
            l ← remove_sleeping_blocker st b (s_sleeping st);
            free_thread t (with_sleeping (fun _ => l) st)
          else
            '(st, interrupted) ← thread_interrupt t st;
            if (interrupted : bool) then insert_ready t st else Ok st
      end
  | READY =>
      '(st, _) ← decrement_alive p st;
      st ← pop_off_ready t st;
      free_thread t st
  | _ => Ok st
  end.

Definition insert_deferred (t : nat) (st : sched) : result sched :=
  ASSERT (negb (on_a_list st t)) ;; Ok (with_deferred (fun l => l ++ [t]) st).

(** [Kernel/Multitasking/Scheduler.cpp:139-163] kill_current_thread, the loop of the process killer *)
Fixpoint kill_threads (cur p : nat) (ts : list nat) (st : sched) : result sched :=
  match ts with
  | [] => Ok st
  | t :: ts =>
      st ← (if decide (t = cur) then
              '(st, _) ← decrement_alive p st;
              insert_deferred cur st
            else kill_other_thread p t st);
      kill_threads cur p ts st
  end.

(** [Kernel/Multitasking/Scheduler.cpp:108-164] Scheduler::kill_current_thread *)
Definition kill_current_thread (cur : nat) (st : sched) : result sched :=
  th ← deref (s_threads st) cur;
  let st := put_thread cur (set_state DEAD th) st in
  let p := t_owner th in
  if negb (t_kill_all th) then
    '(st, n) ← decrement_alive p st;
    pr ← deref (s_processes st) p;
    let st := if n =? 0 then put_process p (process_exit (t_exit_code th) pr).1 st else st in
    insert_deferred cur st
  else
    pr ← deref (s_processes st) p;
    kill_threads cur p (p_threads pr) st.

(** [Kernel/Multitasking/Scheduler.cpp:269-275] Scheduler::pick_next_thread *)
Definition pick_next_thread (c : processor) (st : sched) : nat * sched :=
  match s_ready st with
  | [] => (c_idle c, st)
  | t :: _ => (t, with_ready tail st)
  end.

(** [Kernel/Multitasking/Scheduler.cpp:292-307] pick_next, the state the current thread asked for *)
Definition apply_request (cur : nat) (st : sched) : result sched :=
  th ← deref (s_threads st) cur;
  match t_requested th with
  | UNDEFINED => Ok st
  | BLOCKED =>
      match t_blocker th with
      | None => Fault OutOfBounds
      | Some b =>
          blk ← deref (s_blockers st) b;
          st ← (if b_should_block blk then
                  let st := put_thread cur (set_state BLOCKED th) st in
                  Ok (if decide (b_type blk = SLEEP)
                      then with_sleeping (emplace_sleeping st b) st else st)
                else thread_unblock cur st);
          th ← deref (s_threads st) cur;
          Ok (put_thread cur (request_state UNDEFINED BLOCKED th) st)
      end
  | _ => Fault AssertionFailed
  end.

(** [Kernel/Multitasking/Scheduler.cpp:310-318] pick_next, switching to the next thread *)
Definition switch_to_next (cpu : nat) (c : processor) (st : sched) : result sched :=
  let cur := c_current c in
  th ← deref (s_threads st) cur;
  st ← (if bool_decide (t_state th = RUNNING) && negb (bool_decide (cur = c_idle c))
        then insert_ready cur st else Ok st);
  let '(next, st) := pick_next_thread c st in
  if decide (cur = next) then Ok st
  else st ← deactivate cur st; activate cpu next st.

(** [Kernel/Multitasking/Scheduler.cpp:277-323] Scheduler::pick_next at time [now] *)
Definition pick_next (cpu : nat) (now : Z) (st : sched) : result sched :=
  c ← deref (s_cpus st) cpu;
  let cur := c_current c in
  st ← free_deferred_threads st;
  st ← wake_ready_threads now st;
  th ← deref (s_threads st) cur;
  st ← (if t_should_die th && negb (t_invulnerable th)
        then kill_current_thread cur st
        else apply_request cur st);
  switch_to_next cpu c st.

(** ** The entry points *)

(** [Kernel/Multitasking/Scheduler.cpp:214-221] Scheduler::block, up to [pick_next] *)
Definition scheduler_block (cpu b : nat) (st : sched) : result sched :=
  c ← deref (s_cpus st) cpu;
  thread_block (c_current c) b st.

(** [Kernel/Multitasking/Scheduler.cpp:32-36] Scheduler::sleep, up to [pick_next]; the
    SleepBlocker is constructed at the free address [b] *)
Definition scheduler_sleep (cpu b : nat) (wake_time : Z) (st : sched) : result sched :=
  c ← deref (s_cpus st) cpu;
  scheduler_block cpu b
    (put_blocker b (Blocker (c_current c) SLEEP RESULT_UNDEFINED true wake_time) st).

(** [Kernel/Multitasking/Scheduler.cpp:53-61] Scheduler::exit_thread, up to [pick_next] *)
Definition exit_thread (cpu : nat) (code : Z) (st : sched) : result sched :=
  c ← deref (s_cpus st) cpu;
  th ← deref (s_threads st) (c_current c);
  Ok (put_thread (c_current c) (thread_exit code th) st).

(** [Kernel/Multitasking/Scheduler.cpp:63-77] Scheduler::exit_process, up to [pick_next] *)
Definition exit_process (cpu : nat) (code : Z) (st : sched) : result sched :=
  c ← deref (s_cpus st) cpu;
  th ← deref (s_threads st) (c_current c);
  pr ← deref (s_processes st) (t_owner th);
  let '(pr, first) := process_exit code pr in
  let th := if first : bool then kill_all_threads_on_exit th else th in
  Ok (put_thread (c_current c) (thread_exit code th) (put_process (t_owner th) pr st)).

(** [Kernel/Multitasking/Scheduler.cpp:80-97] Scheduler::crash, up to [pick_next] *)
Definition crash (cpu : nat) (code : Z) (st : sched) : result sched :=
  c ← deref (s_cpus st) cpu;
  th ← deref (s_threads st) (c_current c);
  pr ← deref (s_processes st) (t_owner th);
  let '(pr, first) := process_exit (- code) pr in
  let th := if first : bool then kill_all_threads_on_exit th else th in
  let pr := Process (p_state pr) (- code) (p_threads pr) (p_alive pr) in
  Ok (put_thread (c_current c) (thread_exit (- code) th) (put_process (t_owner th) pr st)).

Definition set_ready_and_count (p t : nat) (st : sched) : result sched :=
  th ← deref (s_threads st) t;
  pr ← deref (s_processes st) p;
  insert_ready t (put_process p (increment_alive_thread_count pr)
                    (put_thread t (set_state READY th) st)).

(** [Kernel/Multitasking/Scheduler.cpp:174-178] the loop of register_process *)
Fixpoint register_threads (p : nat) (ts : list nat) (st : sched) : result sched :=
  match ts with
  | [] => Ok st
  | t :: ts => st ← set_ready_and_count p t st; register_threads p ts st
  end.

(** [Kernel/Multitasking/Scheduler.cpp:166-179] Scheduler::register_process *)
Definition register_process (p : nat) (st : sched) : result sched :=
  ASSERT (negb (bool_decide (p ∈ s_registered st))) ;;
  pr ← deref (s_processes st) p;
  register_threads p (p_threads pr) (with_registered (union {[ p ]}) st).

(** [Kernel/Multitasking/Scheduler.cpp:181-192] Scheduler::unregister_process *)
Definition unregister_process (p : nat) (st : sched) : result sched :=
  ASSERT (bool_decide (p ∈ s_registered st)) ;;
  Ok (with_registered (fun g => g ∖ {[ p ]}) st).

(** [Kernel/Multitasking/Scheduler.cpp:194-212] Scheduler::register_thread *)
Definition register_thread (t : nat) (st : sched) : result (sched * bool) :=
  th ← deref (s_threads st) t;
  let p := t_owner th in
  pr ← deref (s_processes st) p;
  if negb (bool_decide (p_state pr = ALIVE)) then
    st ← free_thread t (put_thread t (set_state DEAD (thread_exit 0 th)) st);
    Ok (st, false)
  else
    ASSERT (bool_decide (p ∈ s_registered st)) ;;
    st ← set_ready_and_count p t st;
    Ok (st, true).

(** [Kernel/Multitasking/Process.cpp:59-86] Process::create_thread of a supervisor process; the
    new Thread object is at the free address [t] *)
Definition create_thread (p t : nat) (st : sched) : result (sched * bool) :=
  pr ← deref (s_processes st) p;
  if negb (bool_decide (p_state pr = ALIVE)) then Ok (st, false) else
  let th := Thread p UNDEFINED UNDEFINED None false false false 0 in
  register_thread t
    (put_thread t th (put_process p (Process (p_state pr) (p_exit_code pr) (p_threads pr ++ [t])
                                       (p_alive pr)) st)).

(** [Kernel/Multitasking/Process.cpp:26-41] Process::create_supervisor: the Process and its main
    Thread are at the free addresses [p] and [t] *)
Definition create_supervisor (p t : nat) (st : sched) : result sched :=
  let th := Thread p UNDEFINED UNDEFINED None false false false 0 in
  register_process p (put_thread t th (put_process p (Process ALIVE 0 [t] 0) st)).

(** ** TaskFinalizer *)

(** [Kernel/Multitasking/TaskFinalizer.cpp:42-46] TaskFinalizer::swap_queues *)
Definition swap_queues (st : sched) : sched :=
  with_to_free (fun _ => s_being_freed st) (with_being_freed (fun _ => s_to_free st) st).

(** [Kernel/Multitasking/TaskFinalizer.cpp:78-108] TaskFinalizer::do_free_thread: whether the
    process is to be freed too *)
Definition do_free_thread (t : nat) (st : sched) : result (sched * option nat) :=
  th ← deref (s_threads st) t;
  let p := t_owner th in
  pr ← deref (s_processes st) p;
  let pr := Process (p_state pr) (p_exit_code pr) (filter (fun x => x <> t) (p_threads pr))
              (p_alive pr) in
  let st := with_threads (delete t) (put_process p pr st) in
  if negb (bool_decide (p_threads pr = [])) then Ok (st, None)
  else st ← unregister_process p st; Ok (st, Some p).

(** [Kernel/Multitasking/TaskFinalizer.cpp:61-65] the first loop of finalize_task_queue *)
Fixpoint free_queued (ts : list nat) (st : sched) : result (sched * list nat) :=
  match ts with
  | [] => Ok (st, [])
  | t :: ts =>
      '(st, p) ← do_free_thread t (with_being_freed (fun _ => ts) st);
      '(st, ps) ← free_queued ts st;
      Ok (st, option_list p ++ ps)
  end.

(** [Kernel/Multitasking/TaskFinalizer.cpp:110-124] TaskFinalizer::do_free_process: its last
    reference is dropped *)
Definition do_free_process (p : nat) (st : sched) : result sched :=
  pr ← deref (s_processes st) p;
  pr ← mark_as_released pr;
  ASSERT (bool_decide (p_state pr = EXITED)) ;;
  Ok (with_processes (delete p) st).

(** [Kernel/Multitasking/TaskFinalizer.cpp:67-73] the second loop of finalize_task_queue *)
Fixpoint free_processes (ps : list nat) (st : sched) : result sched :=
  match ps with
  | [] => Ok st
  | p :: ps => st ← do_free_process p st; free_processes ps st
  end.

(** [Kernel/Multitasking/TaskFinalizer.cpp:54-76] TaskFinalizer::finalize_task_queue *)
Definition finalize_task_queue (st : sched) : result (sched * bool) :=
  ASSERT (bool_decide (s_being_freed st = [])) ;;
  let st := swap_queues st in
  let did_work := negb (bool_decide (s_being_freed st = [])) in
  '(st, ps) ← free_queued (s_being_freed st) st;
  st ← free_processes ps st;
  Ok (st, did_work).
