(* ===== verification/SchedulerInv.v ===== *)
(** The invariant of the scheduler's state, and that every operation under [s_queues_lock]
    preserves it without an assertion failing.

    While a processor is inside [pick_next] its current thread may already be blocked or dead:
    the invariant [sched_inv] is relative to a [hole], the processor that is switching or whose
    current thread is being killed. *)
From S2P Require Import Prelude Scheduler.
From stdpp Require Import gmap.
#[local] Open Scope Z_scope.

Inductive hole := NoHole | Switching (cpu : nat) | Dying (cpu : nat).

Definition hole_at (h : hole) (cpu : nat) : Prop :=
  match h with
  | NoHole => False
  | Switching c | Dying c => c = cpu
  end.

Section Places.
Context (st : sched).

(** [t] is the current thread of a processor other than the hole. *)
Definition current_beyond (h : hole) (t : nat) : Prop :=
  exists cpu c, s_cpus st !! cpu = Some c /\ c_current c = t /\ ~ hole_at h cpu.
(** [t] is marked dead, and not yet counted as such. *)
Definition dying (h : hole) (t : nat) : Prop :=
  match h with
  | Dying cpu => match s_cpus st !! cpu with
                 | Some c => c_current c = t
                 | None => False
                 end
  | _ => False
  end.
Definition is_idle (t : nat) : Prop :=
  exists cpu c, s_cpus st !! cpu = Some c /\ c_idle c = t.
Definition freed (t : nat) : Prop := t ∈ s_to_free st \/ t ∈ s_being_freed st.

(** The thread [t] waits on the armed blocker [b]. *)
Definition waits_on (t : nat) (th : thread) (b : nat) (blk : blocker) : Prop :=
  t_blocker th = Some b /\ s_blockers st !! b = Some blk /\ b_thread blk = t.

(** What the scheduler relies on for a thread in each of its states. *)
Definition thread_ok (h : hole) (t : nat) (th : thread) : Prop :=
  match t_state th with
  | UNDEFINED =>
      ~ current_beyond NoHole t /\ ~ is_idle t /\ (t ∉ s_ready st) /\ (t ∉ s_deferred st) /\ ~ freed t /\
      t_requested th = UNDEFINED /\ t_blocker th = None
  | RUNNING =>
      current_beyond NoHole t /\ (t ∉ s_ready st) /\ (t ∉ s_deferred st) /\ ~ freed t /\
      ((t_requested th = UNDEFINED /\ t_blocker th = None) \/
       (t_requested th = BLOCKED /\ ~ is_idle t /\
        exists b blk, waits_on t th b blk /\ (b ∉ s_sleeping st))) /\
      (is_idle t -> t_should_die th = false)
  | READY =>
      ~ current_beyond h t /\ (t ∉ s_deferred st) /\
      t_requested th = UNDEFINED /\ t_blocker th = None /\
      ((is_idle t /\ (t ∉ s_ready st) /\ ~ freed t /\ t_should_die th = false) \/
       (~ is_idle t /\ t ∈ s_ready st /\ ~ freed t) \/
       (~ is_idle t /\ (t ∉ s_ready st) /\ freed t /\ t_should_die th = true))
  | BLOCKED =>
      ~ current_beyond h t /\ ~ is_idle t /\ (t ∉ s_ready st) /\ (t ∉ s_deferred st) /\
      t_requested th = UNDEFINED /\
      exists b blk, waits_on t th b blk /\ b_should_block blk = true /\
        ((~ freed t /\ (b_type blk = SLEEP <-> b ∈ s_sleeping st)) \/
         ((b ∉ s_sleeping st) /\ freed t /\ t_should_die th = true))
  | DEAD =>
      ~ current_beyond h t /\ ~ is_idle t /\ (t ∉ s_ready st) /\ t_should_die th = true /\
      (dying h t /\ (t ∉ s_deferred st) /\ ~ freed t \/ ~ dying h t /\ (t ∈ s_deferred st \/ freed t))
  end.

(** A thread that counts as alive in its process. *)
Definition live (h : hole) (t : nat) : Prop :=
  match s_threads st !! t with
  | Some th => dying h t \/ t_state th <> UNDEFINED /\ t_state th <> DEAD /\ ~ freed t
  | None => False
  end.
#[global] Instance freed_dec t : Decision (freed t).
Proof. unfold freed. apply _. Defined.
#[global] Instance dying_dec h t : Decision (dying h t).
Proof. unfold dying. destruct h as [| |cpu]; [apply _..|]. destruct (s_cpus st !! cpu); apply _. Defined.
#[global] Instance live_dec h t : Decision (live h t).
Proof. unfold live. destruct (s_threads st !! t); apply _. Defined.

Definition alive_count (h : hole) (p : process) : Z :=
  Z.of_nat (length (filter (live h) (p_threads p))).

(** What holds of a process: its threads, the count of the live ones, and that at most one of
    them, and only once the process is exiting, kills the others. *)
Record process_ok (h : hole) (p : nat) (pr : process) : Prop := {
  pok_nodup : NoDup (p_threads pr);
  pok_bound : Z.of_nat (length (p_threads pr)) < 4294967296;
  pok_owned : forall t, t ∈ p_threads pr ->
    exists th, s_threads st !! t = Some th /\ t_owner th = p /\ ~ is_idle t;
  pok_alive : p_alive pr = alive_count h pr;
  pok_killer : forall t th, s_threads st !! t = Some th -> t_owner th = p ->
    t_kill_all th = true -> t_should_die th = true /\ p_state pr <> ALIVE;
  pok_one_killer : forall t th t' th', s_threads st !! t = Some th -> t_owner th = p ->
    s_threads st !! t' = Some th' -> t_owner th' = p ->
    t_kill_all th = true -> t_kill_all th' = true -> t = t';
  pok_killed : forall t th t' th', s_threads st !! t = Some th -> t_owner th = p ->
    s_threads st !! t' = Some th' -> t_owner th' = p ->
    freed t -> t_state th <> DEAD -> t_kill_all th' = true -> t_state th' = DEAD;
  pok_freed : forall t th, s_threads st !! t = Some th -> t_owner th = p ->
    freed t -> t_state th <> DEAD -> p_state pr <> ALIVE }.

Definition wakes_no_later (b b' : nat) : Prop := wake_time_of st b <= wake_time_of st b'.

Record sched_inv (h : hole) : Prop := {
  inv_threads : forall t th, s_threads st !! t = Some th -> thread_ok h t th;
  inv_listed : forall t, t ∈ s_ready st ++ s_deferred st ++ s_to_free st ++ s_being_freed st ->
    is_Some (s_threads st !! t);
  inv_nodup : NoDup (s_ready st ++ s_deferred st ++ s_to_free st ++ s_being_freed st);
  inv_sleeping : forall b, b ∈ s_sleeping st -> exists blk th,
    s_blockers st !! b = Some blk /\ b_type blk = SLEEP /\
    s_threads st !! b_thread blk = Some th /\ t_state th = BLOCKED /\ t_blocker th = Some b;
  inv_sleeping_nodup : NoDup (s_sleeping st);
  inv_sorted : StronglySorted wakes_no_later (s_sleeping st);
  inv_cpus : forall cpu c, s_cpus st !! cpu = Some c ->
    is_Some (s_threads st !! c_current c) /\
    exists th, s_threads st !! c_idle c = Some th /\ (t_state th = RUNNING \/ t_state th = READY);
  inv_current : forall cpu c cpu' c', s_cpus st !! cpu = Some c -> s_cpus st !! cpu' = Some c' ->
    c_current c = c_current c' \/ c_idle c = c_idle c' \/ c_current c = c_idle c' -> cpu = cpu';
  inv_blockers : forall b blk, s_blockers st !! b = Some blk ->
    b_should_block blk = true <-> b_result blk = RESULT_UNDEFINED;
  inv_owner : forall t th, s_threads st !! t = Some th -> ~ is_idle t ->
    exists pr, s_processes st !! t_owner th = Some pr /\ t ∈ p_threads pr;
  inv_processes : forall p pr, s_processes st !! p = Some pr -> process_ok h p pr }.

End Places.

(** ** Changing one thread *)

Lemma thread_ok_frame st st' h h' t th :
  (current_beyond st' NoHole t <-> current_beyond st NoHole t) ->
  (current_beyond st' h' t <-> current_beyond st h t) ->
  (dying st' h' t <-> dying st h t) ->
  (is_idle st' t <-> is_idle st t) ->
  (t ∈ s_ready st' <-> t ∈ s_ready st) -> (t ∈ s_deferred st' <-> t ∈ s_deferred st) ->
  (freed st' t <-> freed st t) ->
  (forall b blk, waits_on st t th b blk ->
     waits_on st' t th b blk /\ (b ∈ s_sleeping st' <-> b ∈ s_sleeping st)) ->
  thread_ok st h t th -> thread_ok st' h' t th.
Proof.
  intros Hc Hh Hy Hi Hr Hd Hf Hb. unfold thread_ok.
  destruct (t_state th); rewrite ?Hc, ?Hh, ?Hy, ?Hi, ?Hr, ?Hd, ?Hf; try tauto.
  - intros (? & ? & ? & ? & [?|(? & ? & b & blk & Hw & ?)] & ?); split_and!; try tauto.
    right. split_and!; try done. exists b, blk. destruct (Hb _ _ Hw) as [? ->]. tauto.
  - intros (? & ? & ? & ? & ? & b & blk & Hw & ? & H). split_and!; try tauto.
    exists b, blk. destruct (Hb _ _ Hw) as [? ->]. tauto.
Qed.

Definition count_live (st : sched) (h : hole) (t : nat) : Z :=
  if decide (live st h t) then 1 else 0.

(** The operations change one thread [t], its place in the queues, its blockers and the alive
    count of its process.  This is what such a change [st -> st'] owes. *)
Record changes_thread (st st' : sched) (h h' : hole) (t : nat) (th th' : thread) : Prop := {
  ch_old : s_threads st !! t = Some th;
  ch_new : s_threads st' = <[ t := th' ]> (s_threads st);
  ch_cpus : s_cpus st' = s_cpus st;
  ch_hole : forall t', t' <> t -> current_beyond st h' t' <-> current_beyond st h t';
  ch_dying : forall t', t' <> t -> dying st h' t' <-> dying st h t';
  ch_ready : forall t', t' <> t -> t' ∈ s_ready st' <-> t' ∈ s_ready st;
  ch_deferred : forall t', t' <> t -> t' ∈ s_deferred st' <-> t' ∈ s_deferred st;
  ch_freed : forall t', t' <> t -> freed st' t' <-> freed st t';
  ch_nodup : NoDup (s_ready st' ++ s_deferred st' ++ s_to_free st' ++ s_being_freed st');
  ch_blockers_keep : forall b blk, s_blockers st !! b = Some blk -> b_thread blk <> t ->
    s_blockers st' !! b = Some blk /\ (b ∈ s_sleeping st' <-> b ∈ s_sleeping st);
  ch_blockers_old : forall b blk', s_blockers st' !! b = Some blk' -> exists blk,
    s_blockers st !! b = Some blk /\ b_thread blk = b_thread blk' /\
    (b_should_block blk' = true <-> b_result blk' = RESULT_UNDEFINED);
  ch_sleeping : forall b, b ∈ s_sleeping st' -> exists blk, s_blockers st' !! b = Some blk /\
    (b_thread blk = t -> b_type blk = SLEEP /\ t_state th' = BLOCKED /\ t_blocker th' = Some b);
  ch_sleeping_nodup : NoDup (s_sleeping st');
  ch_sorted : StronglySorted (wakes_no_later st) (s_sleeping st');
  ch_wake : forall b, wake_time_of st' b = wake_time_of st b;
  ch_ok : thread_ok st' h' t th';
  ch_owner : t_owner th' = t_owner th;
  ch_idle : is_idle st t -> t_state th' = RUNNING \/ t_state th' = READY;
  ch_should_die : t_should_die th = true -> t_should_die th' = true;
  ch_dead : t_state th = DEAD -> t_state th' = DEAD;
  ch_process :
    (is_idle st t /\ s_processes st' = s_processes st /\ t_kill_all th' = t_kill_all th) \/
    (~ is_idle st t /\ exists pr pr', s_processes st !! t_owner th = Some pr /\
       s_processes st' = <[ t_owner th := pr' ]> (s_processes st) /\
       p_threads pr' = p_threads pr /\
       p_alive pr' = p_alive pr - count_live st h t + count_live st' h' t /\
       (p_state pr <> ALIVE -> p_state pr' <> ALIVE) /\
       (t_kill_all th' = t_kill_all th \/
        p_state pr = ALIVE /\ p_state pr' <> ALIVE /\ t_should_die th' = true) /\
       (freed st' t -> t_state th' <> DEAD ->
          freed st t /\ t_state th <> DEAD /\ t_kill_all th' = t_kill_all th \/
          p_state pr <> ALIVE /\ t_kill_all th' = false /\
          forall t' u, t' <> t -> s_threads st !! t' = Some u -> t_owner u = t_owner th ->
            t_kill_all u = true -> t_state u = DEAD)) }.

Lemma StronglySorted_weaken {A} (R R' : A -> A -> Prop) l :
  (forall x y, R x y -> R' x y) -> StronglySorted R l -> StronglySorted R' l.
Proof.
  intros H. induction 1; constructor; [done|]. eapply Forall_impl; [done|]. auto.
Qed.

Section Change.
Context (st st' : sched) (h h' : hole) (t : nat) (th th' : thread).
Context (I : sched_inv st h) (C : changes_thread st st' h h' t th th').

Lemma change_lookup t' u :
  s_threads st' !! t' = Some u ->
  t' = t /\ u = th' \/ t' <> t /\ s_threads st !! t' = Some u.
Proof.
  rewrite (ch_new _ _ _ _ _ _ _ C). destruct (decide (t' = t)) as [->|];
    rewrite ?lookup_insert_eq, ?lookup_insert_ne by done; naive_solver.
Qed.

Lemma change_idle t' : is_idle st' t' <-> is_idle st t'.
Proof. unfold is_idle. by rewrite (ch_cpus _ _ _ _ _ _ _ C). Qed.

Lemma change_current k t' : current_beyond st' k t' <-> current_beyond st k t'.
Proof. unfold current_beyond. by rewrite (ch_cpus _ _ _ _ _ _ _ C). Qed.

Lemma change_dying k t' : dying st' k t' <-> dying st k t'.
Proof. unfold dying. by rewrite (ch_cpus _ _ _ _ _ _ _ C). Qed.

Lemma change_live t' : t' <> t -> live st' h' t' <-> live st h t'.
Proof.
  intros Ht. unfold live. rewrite (ch_new _ _ _ _ _ _ _ C), lookup_insert_ne by done.
  destruct (s_threads st !! t'); [|done].
  by rewrite (ch_freed _ _ _ _ _ _ _ C), change_dying, (ch_dying _ _ _ _ _ _ _ C).
Qed.

Lemma change_count (l : list nat) :
  NoDup l ->
  Z.of_nat (length (filter (live st' h') l)) =
  Z.of_nat (length (filter (live st h) l)) +
  (if decide (t ∈ l) then count_live st' h' t - count_live st h t else 0).
Proof.
  induction l as [|x l IH]; intros Hnd; [done|]. inversion_clear Hnd as [|?? Hx Hl].
  specialize (IH Hl). rewrite !filter_cons.
  destruct (decide (x = t)) as [->|Hne].
  - rewrite (decide_True (P:=t ∈ t :: l)) by (apply elem_of_cons; by left).
    rewrite (decide_False (P:=t ∈ l)) in IH by done.
    unfold count_live. repeat case_decide; cbn [length]; lia.
  - pose proof (change_live x Hne). assert (Hin : t ∈ x :: l <-> t ∈ l) by (rewrite elem_of_cons; naive_solver).
    rewrite (decide_ext _ _ _ _ Hin).
    destruct (decide (live st h x)), (decide (live st' h' x)); try tauto; cbn [length]; lia.
Qed.

Lemma change_process_old p pr :
  s_processes st' !! p = Some pr -> exists pr0,
    s_processes st !! p = Some pr0 /\ p_threads pr = p_threads pr0 /\
    p_alive pr = p_alive pr0 + (if decide (t ∈ p_threads pr0) then count_live st' h' t - count_live st h t else 0) /\
    (p_state pr0 <> ALIVE -> p_state pr <> ALIVE) /\
    (t_owner th = p -> t_kill_all th' = t_kill_all th \/
        p_state pr0 = ALIVE /\ p_state pr <> ALIVE /\ t_should_die th' = true) /\
    (t_owner th = p -> freed st' t -> t_state th' <> DEAD ->
          freed st t /\ t_state th <> DEAD /\ t_kill_all th' = t_kill_all th \/
          p_state pr0 <> ALIVE /\ t_kill_all th' = false /\
          forall t' u, t' <> t -> s_threads st !! t' = Some u -> t_owner u = t_owner th ->
            t_kill_all u = true -> t_state u = DEAD).
Proof.
  intros Hp. destruct C as [Hold _ _ _ _ _ _ _ _ _ _ _ _ _ _ Hok _ Hi _ _ HP].
  destruct HP as [(Hid & E & Hk)|(Hid & pr0 & pr1 & H0 & E & H1 & H2 & H3 & H4 & H5)]; rewrite E in Hp.
  - exists pr. split_and!; try done; [|by left|].
    + rewrite decide_False; [lia|]. intros Ht.
      destruct (pok_owned _ _ _ _ (inv_processes _ _ I _ _ Hp) _ Ht) as (? & ? & ? & ?). done.
    + intros _ Hf Hd. exfalso. unfold thread_ok in Hok.
      destruct (Hi Hid) as [Hs|Hs]; rewrite Hs, change_idle in Hok; tauto.
  - destruct (decide (p = t_owner th)) as [->|Hne].
    + rewrite lookup_insert_eq in Hp. simplify_eq. exists pr0. split_and!; try done; [|naive_solver..].
      case_decide as Ht; [lia|]. exfalso. apply Ht.
      destruct (inv_owner _ _ I _ _ Hold Hid) as (? & ? & ?). by simplify_eq.
    + rewrite lookup_insert_ne in Hp by done. exists pr. split_and!; try done; [|naive_solver..].
      rewrite decide_False; [lia|]. intros Ht.
      destruct (pok_owned _ _ _ _ (inv_processes _ _ I _ _ Hp) _ Ht) as (? & ? & ? & ?). congruence.
Qed.

Lemma change_process p pr :
  s_processes st' !! p = Some pr -> process_ok st' h' p pr.
Proof.
  intros Hp. destruct (change_process_old p pr Hp) as (pr0 & H0 & Ets & Eal & Hst & Hk & Hf).
  destruct (inv_processes _ _ I p pr0 H0) as [H1 H2 H3 H4 H5 H6 H7 H8].
  assert (Hlook := change_lookup). assert (Hold := ch_old _ _ _ _ _ _ _ C).
  assert (Hown := ch_owner _ _ _ _ _ _ _ C). assert (Hdie := ch_should_die _ _ _ _ _ _ _ C).
  assert (Hdead := ch_dead _ _ _ _ _ _ _ C). assert (Hfr := ch_freed _ _ _ _ _ _ _ C).
  split; rewrite ?Ets; try done.
  - intros t' Ht'. destruct (H3 t' Ht') as (u & Hu & Ho & Hi).
    rewrite (ch_new _ _ _ _ _ _ _ C). rewrite <- change_idle in Hi.
    destruct (decide (t' = t)) as [->|]; rewrite ?lookup_insert_eq, ?lookup_insert_ne by done;
      naive_solver.
  - unfold alive_count in *. rewrite Ets, change_count, Eal, H4 by done. done.
  - intros t' u Hu Ho Hku. destruct (Hlook _ _ Hu) as [[-> ->]|[Hne Hu']].
    + destruct Hk as [E|?]; [congruence| |tauto]. rewrite E in Hku.
      destruct (H5 _ _ Hold) as [??]; [congruence|done|]. tauto.
    + destruct (H5 _ _ Hu' Ho Hku). tauto.
  - intros t1 u1 t2 u2 Hu1 Ho1 Hu2 Ho2 Hk1 Hk2.
    destruct (Hlook _ _ Hu1) as [[-> ->]|[Hne1 Hu1']], (Hlook _ _ Hu2) as [[-> ->]|[Hne2 Hu2']]; try done.
    + destruct Hk as [E|?]; [congruence| |].
      * apply (H6 _ th _ u2); try done; congruence.
      * destruct (H5 _ _ Hu2' Ho2 Hk2). tauto.
    + destruct Hk as [E|?]; [congruence| |].
      * apply (H6 _ u1 _ th); try done; congruence.
      * destruct (H5 _ _ Hu1' Ho1 Hk1). tauto.
    + by apply (H6 _ u1 _ u2).
  - intros t1 u1 t2 u2 Hu1 Ho1 Hu2 Ho2 Hf1 Hd1 Hk2.
    destruct (Hlook _ _ Hu1) as [[-> ->]|[Hne1 Hu1']], (Hlook _ _ Hu2) as [[-> ->]|[Hne2 Hu2']].
    + exfalso. destruct Hf as [(?&?&E)|(?&?&?)]; [congruence|done|done| |congruence].
      match goal with H : t_state th <> DEAD |- _ => apply H end.
      apply (H7 t th t th); congruence || done.
    + destruct Hf as [(?&?&E)|(?&?&Ha)]; [congruence|done|done| |].
      * apply (H7 t th t2 u2); congruence || done.
      * apply (Ha _ _ Hne2 Hu2'); congruence || done.
    + apply Hfr in Hf1; [|done]. apply Hdead. destruct Hk as [E|(?&?&?)]; [congruence| |].
      * apply (H7 t1 u1 t th); congruence || done.
      * exfalso. by apply (H8 _ _ Hu1' Ho1 Hf1).
    + apply Hfr in Hf1; [|done]. by apply (H7 t1 u1 t2 u2).
  - intros t1 u1 Hu1 Ho1 Hf1 Hd1. destruct (Hlook _ _ Hu1) as [[-> ->]|[Hne1 Hu1']].
    + apply Hst. destruct Hf as [(?&?&E)|(?&?&Ha)]; [congruence|done|done| |done].
      apply (H8 _ _ Hold); congruence || done.
    + apply Hst. apply (H8 _ _ Hu1' Ho1); [by apply Hfr|done].
Qed.

(** A change of one thread keeps the invariant. *)
Lemma sched_inv_change : sched_inv st' h'.
Proof.
  assert (Hlook := change_lookup).
  destruct C as [Hold Hnew Hcpus Hhole Hdy Hr Hd Hf Hnd Hbk Hbo Hs Hsn Hss Hw Hok Hown Hidle Hdie Hdead _].
  split.
  - intros t' u Hu. destruct (Hlook _ _ Hu) as [[-> ->]|[Hne Hu']]; [done|].
    apply (thread_ok_frame st st' h h'); auto using change_current, change_idle.
    + by rewrite change_current, Hhole.
    + by rewrite change_dying, Hdy.
    + intros b blk (? & Hb & ?). destruct (Hbk _ _ Hb) as [??]; [congruence|]. by unfold waits_on.
    + by apply (inv_threads _ _ I).
  - intros t' Ht'. destruct (decide (t' = t)) as [->|Hne].
    { rewrite Hnew, lookup_insert_eq. by eexists. }
    rewrite Hnew, lookup_insert_ne by done. apply (inv_listed _ _ I).
    rewrite !elem_of_app in *. rewrite Hr, Hd in Ht' by done. unfold freed in Hf.
    specialize (Hf t' Hne). tauto.
  - done.
  - intros b Hb. destruct (Hs b Hb) as (blk & Hblk & Ht).
    destruct (Hbo _ _ Hblk) as (blk0 & Hblk0 & Et & _).
    destruct (decide (b_thread blk = t)) as [E|Hne].
    + destruct (Ht E) as (? & ? & ?). exists blk, th'. rewrite Hnew, E, lookup_insert_eq. done.
    + destruct (Hbk _ _ Hblk0) as [Hb' Hin]; [congruence|].
      destruct (inv_sleeping _ _ I b) as (blk1 & u & ? & ? & ? & ? & ?); [tauto|]. simplify_eq.
      exists blk, u. by rewrite Hnew, lookup_insert_ne.
  - done.
  - eapply StronglySorted_weaken; [|exact Hss]. intros b b'. unfold wakes_no_later. by rewrite !Hw.
  - intros cpu c Hc. rewrite Hcpus in Hc. destruct (inv_cpus _ _ I cpu c Hc) as (H1 & u & H2 & H3).
    rewrite Hnew. split.
    + destruct (decide (c_current c = t)) as [->|]; rewrite ?lookup_insert_eq, ?lookup_insert_ne by done; eauto.
    + destruct (decide (c_idle c = t)) as [E|]; rewrite ?lookup_insert_ne by done; [|eauto].
      rewrite E, lookup_insert_eq. exists th'. split; [done|]. apply Hidle. by exists cpu, c.
  - rewrite Hcpus. apply (inv_current _ _ I).
  - intros b blk Hb. by destruct (Hbo _ _ Hb) as (? & ? & ? & ?).
  - intros t' u Hu Hi. rewrite change_idle in Hi.
    assert (exists u0, s_threads st !! t' = Some u0 /\ t_owner u0 = t_owner u) as (u0 & Hu0 & <-).
    { destruct (Hlook _ _ Hu) as [[-> ->]|[Hne Hu']]; eauto. }
    destruct (inv_owner _ _ I _ _ Hu0 Hi) as (pr & Hpr & Hin).
    destruct (ch_process _ _ _ _ _ _ _ C) as [(Hid & E & Hk)|(Hid & pr0 & pr1 & H0 & E & H1 & _)];
      rewrite E; [eauto|].
    destruct (decide (t_owner u0 = t_owner th)) as [E1|]; rewrite ?lookup_insert_ne by done; [|eauto].
    rewrite E1, lookup_insert_eq. exists pr1. split; [done|]. rewrite H1. congruence.
  - apply change_process.
Qed.
End Change.
