(* ===== verification/SchedulerOps.v ===== *)
(** Every transition of the scheduler keeps [sched_inv] and fails no assertion. *)
From S2P Require Import Prelude Scheduler SchedulerInv.
From stdpp Require Import gmap.
#[local] Open Scope Z_scope.

(** [fields] reduces the members of an updated state, thread or blocker. *)
Ltac fields :=
  cbn [s_threads s_blockers s_processes s_registered s_cpus s_ready s_sleeping s_deferred s_to_free
       s_being_freed with_threads with_blockers with_processes with_registered with_cpus with_ready
       with_sleeping with_deferred with_to_free with_being_freed put_thread put_blocker put_process
       t_owner t_state t_requested t_blocker t_should_die t_invulnerable t_kill_all t_exit_code
       set_state set_blocker request_state thread_exit kill_all_threads_on_exit set_invulnerable
       b_thread b_type b_result b_should_block b_wake_time p_state p_exit_code p_threads p_alive
       c_current c_idle] in *.

Lemma deref_Ok {A} (m : gmap nat A) p a : m !! p = Some a -> deref m p = Ok a.
Proof. unfold deref. by intros ->. Qed.

Lemma set_result_thread r b : b_thread (set_result r b) = b_thread b.
Proof. unfold set_result. by case_decide. Qed.
Lemma set_result_type r b : b_type (set_result r b) = b_type b.
Proof. unfold set_result. by case_decide. Qed.
Lemma set_result_wake r b : b_wake_time (set_result r b) = b_wake_time b.
Proof. unfold set_result. by case_decide. Qed.
Lemma set_result_released r b :
  r <> RESULT_UNDEFINED ->
  (b_should_block b = true <-> b_result b = RESULT_UNDEFINED) ->
  b_should_block (set_result r b) = false /\ b_result (set_result r b) <> RESULT_UNDEFINED.
Proof.
  unfold set_result. intros. case_decide; fields; [done|].
  destruct (b_should_block b); naive_solver.
Qed.

Lemma wake_time_put st b blk blk' x :
  s_blockers st !! b = Some blk -> b_wake_time blk' = b_wake_time blk ->
  wake_time_of (put_blocker b blk' st) x = wake_time_of st x.
Proof.
  intros H E. unfold wake_time_of. fields. destruct (decide (x = b)) as [->|].
  - by rewrite lookup_insert_eq, H.
  - by rewrite lookup_insert_ne.
Qed.

(** A list gains or loses one thread. *)
Lemma nodup_snoc (t : nat) (l l' : list nat) :
  NoDup (l ++ l') -> (t ∉ l ++ l') -> NoDup ((l ++ [t]) ++ l').
Proof.
  intros H Ht. assert (E : (l ++ [t]) ++ l' ≡ₚ t :: l ++ l') by solve_Permutation.
  rewrite E. by constructor.
Qed.

Lemma NoDup_perm (l l' : list nat) : l ≡ₚ l' -> NoDup l -> NoDup l'.
Proof. by intros ->. Qed.

Lemma NoDup_add (t : nat) (l l' : list nat) : NoDup l -> (t ∉ l) -> l' ≡ₚ t :: l -> NoDup l'.
Proof. intros Hl Ht ->. by constructor. Qed.

Lemma not_on_a_list st t :
  (t ∉ s_ready st) -> (t ∉ s_deferred st) -> ~ freed st t -> on_a_list st t = false.
Proof.
  unfold on_a_list, freed. intros. apply bool_decide_eq_false. rewrite !elem_of_app. tauto.
Qed.

Lemma process_ok_hole st h h' p pr :
  (forall t, dying st h t <-> dying st h' t) -> process_ok st h p pr -> process_ok st h' p pr.
Proof.
  intros Hd [H1 H2 H3 H4 H5 H6 H7 H8]. split; try done.
  rewrite H4. unfold alive_count. f_equal. f_equal. apply list_filter_iff. intros t.
  unfold live. destruct (s_threads st !! t); [|done]. by rewrite Hd.
Qed.

Lemma sched_inv_hole st cpu : sched_inv st NoHole -> sched_inv st (Switching cpu).
Proof.
  intros I. destruct I as [H1 H2 H3 H4 H5 H6 H7 H8 H9 H10 H11]. split; try done.
  - intros t th Ht. specialize (H1 t th Ht). revert H1. unfold thread_ok.
    assert (current_beyond st (Switching cpu) t -> current_beyond st NoHole t).
    { intros (k & c & ? & ? & ?). exists k, c. split_and!; auto. }
    destruct (t_state th); cbn [dying]; tauto.
  - intros p pr Hp. apply (process_ok_hole st NoHole); [done|auto].
Qed.

(** The hole can be closed when its thread runs. *)
Lemma sched_inv_close st cpu c th :
  s_cpus st !! cpu = Some c -> s_threads st !! c_current c = Some th -> t_state th = RUNNING ->
  sched_inv st (Switching cpu) -> sched_inv st NoHole.
Proof.
  intros Hc Hth Hs I. destruct I as [H1 H2 H3 H4 H5 H6 H7 H8 H9 H10 H11]. split; try done.
  - intros t u Ht. specialize (H1 t u Ht). revert H1. unfold thread_ok.
    assert (t_state u <> RUNNING -> current_beyond st NoHole t -> current_beyond st (Switching cpu) t).
    { intros Hu (k & c' & Hk & Ek & _). exists k, c'. split_and!; try done. intros <-.
      by simplify_eq. }
    destruct (t_state u); cbn [dying]; try tauto; intros; split_and!; try tauto; naive_solver.
  - intros p pr Hp. apply (process_ok_hole st (Switching cpu)); [done|auto].
Qed.

(** ** Unblocking *)

Lemma count_live_same st st' h t th th' :
  s_threads st !! t = Some th -> s_threads st' !! t = Some th' -> s_cpus st' = s_cpus st ->
  (t_state th' <> UNDEFINED /\ t_state th' <> DEAD /\ ~ freed st' t <->
   t_state th <> UNDEFINED /\ t_state th <> DEAD /\ ~ freed st t) ->
  count_live st' h t = count_live st h t.
Proof.
  intros H H' Hc Hs. unfold count_live. apply decide_ext. unfold live, dying. rewrite H, H', Hc. tauto.
Qed.

Lemma process_unchanged st st' h h' t th th' :
  sched_inv st h -> s_threads st !! t = Some th -> s_processes st' = s_processes st ->
  ~ is_idle st t -> count_live st' h' t = count_live st h t -> t_kill_all th' = t_kill_all th ->
  (freed st' t -> t_state th' <> DEAD -> freed st t /\ t_state th <> DEAD) ->
  ~ is_idle st t /\ exists pr pr', s_processes st !! t_owner th = Some pr /\
       s_processes st' = <[ t_owner th := pr' ]> (s_processes st) /\
       p_threads pr' = p_threads pr /\
       p_alive pr' = p_alive pr - count_live st h t + count_live st' h' t /\
       (p_state pr <> ALIVE -> p_state pr' <> ALIVE) /\
       (t_kill_all th' = t_kill_all th \/
        p_state pr = ALIVE /\ p_state pr' <> ALIVE /\ t_should_die th' = true) /\
       (freed st' t -> t_state th' <> DEAD ->
          freed st t /\ t_state th <> DEAD /\ t_kill_all th' = t_kill_all th \/
          p_state pr <> ALIVE /\ t_kill_all th' = false /\
          forall t' u, t' <> t -> s_threads st !! t' = Some u -> t_owner u = t_owner th ->
            t_kill_all u = true -> t_state u = DEAD).
Proof.
  intros I Ht Hp Hi Hc Hk Hf. split; [done|]. destruct (inv_owner _ _ I _ _ Ht Hi) as (pr & Hpr & _).
  exists pr, pr. rewrite Hp, insert_id by done. split_and!; try done; [lia|tauto|].
  intros H1 H2. left. destruct (Hf H1 H2). done.
Qed.

(** The process is untouched, and the thread stays as alive as it was. *)
Ltac keep_process th th' :=
  right; match goal with
  | |- context [_ - count_live ?s ?h ?t + count_live ?s' ?h' ?t] =>
      apply (process_unchanged s s' h h' t th th'); try done
  end.

(** The queues are in the order they had. *)
Ltac old_order I :=
  first [exact (inv_nodup _ _ I) | exact (inv_sleeping_nodup _ _ I) | exact (inv_sorted _ _ I)].

(** The state is the one of [H], written differently. *)
Ltac inv_as H :=
  match type of H with
  | sched_inv ?s ?h => match goal with |- sched_inv ?s' ?h => replace s' with s; [exact H|] end
  end.

(** [set_result] on the blocker of a thread that is not blocked (yet). *)
Lemma release_armed st h b blk t th :
  sched_inv st h -> s_blockers st !! b = Some blk -> b_thread blk = t ->
  s_threads st !! t = Some th -> t_state th <> BLOCKED -> ~ is_idle st t ->
  sched_inv (put_blocker b (set_result UNBLOCKED blk) st) h.
Proof.
  intros I Hb Hbt Ht Hs Hi.
  assert (Hns : b ∉ s_sleeping st).
  { intros Hin. destruct (inv_sleeping _ _ I b Hin) as (? & ? & ? & ? & ? & ? & ?). by simplify_eq. }
  apply (sched_inv_change st _ h h t th th I). split; fields; try done.
  - by rewrite insert_id.
  - apply (inv_nodup _ _ I).
  - intros b' blk' Hb' Hne. rewrite lookup_insert_ne; [done|]. intros <-. by simplify_eq.
  - intros b' blk'. destruct (decide (b' = b)) as [->|]; rewrite ?lookup_insert_eq, ?lookup_insert_ne by done.
    + intros [= <-]. exists blk. rewrite set_result_thread. split_and!; try done.
      all: destruct (set_result_released UNBLOCKED blk) as [-> ?]; try done; by apply (inv_blockers _ _ I b).
    + intros Hb'. exists blk'. split_and!; try done. all: by apply (inv_blockers _ _ I b').
  - intros b' Hb'. destruct (inv_sleeping _ _ I b' Hb') as (blk' & u & ? & ? & ? & ? & ?).
    exists blk'. rewrite lookup_insert_ne by (intros ->; done). split; [done|]. intros E. rewrite E in *. by simplify_eq.
  - apply (inv_sleeping_nodup _ _ I).
  - apply (inv_sorted _ _ I).
  - intros x. apply (wake_time_put st b blk); [done|apply set_result_wake].
  - assert (Hok := inv_threads _ _ I _ _ Ht). revert Hok. unfold thread_ok.
    destruct (t_state th); try done. intros (? & ? & ? & ? & Hr & ?). split_and!; try done.
    destruct Hr as [?|(? & ? & b' & blk' & (? & ? & ?) & ?)]; [by left|right]. split_and!; try done.
    unfold waits_on. fields. destruct (decide (b' = b)) as [->|].
    + simplify_eq. exists b, (set_result UNBLOCKED blk). by rewrite lookup_insert_eq, set_result_thread.
    + exists b', blk'. by rewrite lookup_insert_ne.
  - keep_process th th.
Qed.

(** A blocked thread is made ready: its blocker [b] leaves the sleeping ones, if it was there. *)
Definition readied (t b : nat) (th : thread) (blk : blocker) (l : list nat) (st : sched) : sched :=
  with_ready (fun r => r ++ [t])
    (put_thread t (set_state READY (set_blocker None th))
       (put_blocker b blk (with_sleeping (fun _ => l) st))).

Lemma unblock_blocked st h t th b blk r l :
  sched_inv st h -> s_threads st !! t = Some th -> t_state th = BLOCKED -> ~ freed st t ->
  t_blocker th = Some b -> s_blockers st !! b = Some blk -> r <> RESULT_UNDEFINED ->
  (forall x, x ∈ l <-> x ∈ s_sleeping st /\ x <> b) -> NoDup l ->
  StronglySorted (wakes_no_later st) l ->
  sched_inv (readied t b th (set_result r blk) l st) h.
Proof.
  intros I Ht Hs Hf Hb Hblk Hr Hl Hnd Hsort.
  pose proof (inv_threads _ _ I _ _ Ht) as Hok. unfold thread_ok in Hok. rewrite Hs in Hok.
  destruct Hok as (Hcur & Hi & Hnr & Hndf & Hq & b' & blk' & (? & ? & Hbt) & Hsb & Hsl). simplify_eq.
  apply (sched_inv_change st _ h h (b_thread blk) th (set_state READY (set_blocker None th)) I).
  unfold readied. split; fields; try done; try by (intros; congruence || auto).
  - intros t' Hne. set_solver.
  - apply nodup_snoc; [apply (inv_nodup _ _ I)|]. unfold freed in Hf. rewrite !elem_of_app. tauto.
  - intros b' blk' Hb' Hne. assert (b' <> b) by (intros ->; by simplify_eq).
    rewrite lookup_insert_ne by done. split; [done|]. rewrite Hl. tauto.
  - intros b' blk'. destruct (decide (b' = b)) as [->|]; rewrite ?lookup_insert_eq, ?lookup_insert_ne by done.
    + intros [= <-]. exists blk. rewrite set_result_thread. split_and!; try done.
      all: destruct (set_result_released r blk) as [-> ?]; try done; by apply (inv_blockers _ _ I b).
    + intros Hb'. exists blk'. split_and!; try done. all: by apply (inv_blockers _ _ I b').
  - intros b' Hb'. apply Hl in Hb' as [Hb' Hne].
    destruct (inv_sleeping _ _ I b' Hb') as (blk' & u & ? & ? & ? & ? & ?).
    exists blk'. rewrite lookup_insert_ne by done. split; [done|]. intros E. rewrite E in *. by simplify_eq.
  - intros x. apply (wake_time_put st b blk); [done|apply set_result_wake].
  - unfold thread_ok. fields. split_and!; try done. right. left. split_and!; try done. set_solver.
  - keep_process th (set_state READY (set_blocker None th)). apply (count_live_same _ _ _ _ th (set_state READY (set_blocker None th))); try done.
    + fields. by rewrite lookup_insert_eq.
    + fields. rewrite Hs. unfold freed. fields. naive_solver.
Qed.

(** Who may call [unblock] on [b]: the thread that made the blocker exists, and if it is blocked
    then it is blocked on [b], which is not a sleep. *)
Definition unblockable (st : sched) (b : nat) : Prop :=
  exists blk th, s_blockers st !! b = Some blk /\ s_threads st !! b_thread blk = Some th /\
    ~ is_idle st (b_thread blk) /\
    (t_state th = BLOCKED -> t_blocker th = Some b /\ b_type blk <> SLEEP /\ ~ freed st (b_thread blk)).

Lemma unblock_unchecked_blocked st h t th b blk l :
  sched_inv st h -> s_blockers st !! b = Some blk -> b_thread blk = t ->
  s_threads st !! t = Some th -> t_state th = BLOCKED -> t_blocker th = Some b -> ~ freed st t ->
  unblock_unchecked b (with_sleeping (fun _ => l) st) =
  Ok (readied t b th (set_result UNBLOCKED blk) l st).
Proof.
  intros I Hb Hbt Ht Hs Hbl Hf. pose proof (inv_threads _ _ I _ _ Ht) as Hok.
  unfold thread_ok in Hok. rewrite Hs in Hok.
  destruct Hok as (_ & _ & Hnr & Hnd & _ & ? & ? & (? & ? & _) & Hsb & _). simplify_eq.
  unfold unblock_unchecked, thread_unblock, insert_ready, readied. fields.
  rewrite (deref_Ok _ _ _ Hb). run. rewrite (deref_Ok _ _ _ Ht). run.
  rewrite bool_decide_true by done. cbn [negb]. run. rewrite Hbl, (deref_Ok _ _ _ Hb). run.
  rewrite Hsb, decide_True by done.
  rewrite not_on_a_list by (fields; done). done.
Qed.

Lemma with_sleeping_id st : with_sleeping (fun _ => s_sleeping st) st = st.
Proof. by destruct st. Qed.

Lemma blocker_unblock_Ok st b :
  sched_inv st NoHole -> unblockable st b ->
  exists st', blocker_unblock b st = Ok st' /\ sched_inv st' NoHole.
Proof.
  intros I (blk & th & Hb & Ht & Hi & Hbl). unfold blocker_unblock. rewrite (deref_Ok _ _ _ Hb). run.
  destruct (b_should_block blk) eqn:Esb; cbn [negb]; [|by exists st].
  destruct (decide (t_state th = BLOCKED)) as [Hs|Hs].
  - destruct (Hbl Hs) as (Htb & Hty & Hf).
    pose proof (unblock_unchecked_blocked st NoHole _ th b blk (s_sleeping st) I Hb eq_refl Ht Hs Htb Hf) as E.
    rewrite with_sleeping_id in E. rewrite E. eexists. split; [done|].
    apply unblock_blocked; try done; [|apply I..].
    intros x. split; [|tauto]. intros Hx. split; [done|]. intros ->.
    destruct (inv_sleeping _ _ I b Hx) as (? & ? & ? & ? & _). by simplify_eq.
  - unfold unblock_unchecked. rewrite (deref_Ok _ _ _ Hb). run. rewrite (deref_Ok _ _ _ Ht). run.
    rewrite bool_decide_false by done. cbn [negb]. eexists. split; [done|].
    by apply (release_armed _ _ _ _ (b_thread blk) th).
Qed.

(** ** Waking the sleeping threads *)

(** The blockers of the front of the queue whose time has come. *)
Fixpoint due (st : sched) (now : Z) (l : list nat) : list nat :=
  match l with
  | [] => []
  | b :: l => if wake_time_of st b <=? now then b :: due st now l else []
  end.

Definition thread_of (st : sched) (b : nat) : nat :=
  match s_blockers st !! b with
  | Some blk => b_thread blk
  | None => O
  end.

(** What waking keeps: everything but the threads and blockers of the sleepers. *)
Record wakes (now : Z) (st st' : sched) : Prop := {
  wk_ready : s_ready st' = s_ready st ++ map (thread_of st) (due st now (s_sleeping st));
  wk_sleeping : s_sleeping st' = drop (length (due st now (s_sleeping st))) (s_sleeping st);
  wk_cpus : s_cpus st' = s_cpus st;
  wk_processes : s_processes st' = s_processes st;
  wk_deferred : s_deferred st' = s_deferred st;
  wk_to_free : s_to_free st' = s_to_free st;
  wk_being_freed : s_being_freed st' = s_being_freed st;
  wk_wake : forall b, wake_time_of st' b = wake_time_of st b;
  wk_thread_of : forall b, thread_of st' b = thread_of st b;
  wk_threads : forall t th, s_threads st !! t = Some th -> t_state th <> BLOCKED ->
    s_threads st' !! t = Some th;
  wk_die : forall t u', s_threads st' !! t = Some u' -> exists u, s_threads st !! t = Some u /\
    t_should_die u' = t_should_die u;
  wk_others : forall t, (t ∉ map (thread_of st) (due st now (s_sleeping st))) ->
    s_threads st' !! t = s_threads st !! t;
  wk_released : forall b blk, b ∈ due st now (s_sleeping st) -> s_blockers st !! b = Some blk ->
    s_blockers st' !! b = Some (set_result UNBLOCKED blk);
  wk_blockers : forall b blk, s_blockers st !! b = Some blk -> (b ∉ s_sleeping st) ->
    s_blockers st' !! b = Some blk }.

Lemma readied_wakes t b th blk r l st :
  s_threads st !! t = Some th -> t_state th = BLOCKED -> s_blockers st !! b = Some blk ->
  let st' := readied t b th (set_result r blk) l st in
  (forall x, wake_time_of st' x = wake_time_of st x) /\
  (forall x, thread_of st' x = thread_of st x) /\
  (forall x u, s_threads st !! x = Some u -> t_state u <> BLOCKED -> s_threads st' !! x = Some u) /\
  (forall x u, s_blockers st !! x = Some u -> x <> b -> s_blockers st' !! x = Some u) /\
  s_blockers st' !! b = Some (set_result r blk) /\
  (forall x, x <> t -> s_threads st' !! x = s_threads st !! x).
Proof.
  intros Ht Hs Hb st'. split_and!.
  - intros x. apply (wake_time_put st b blk); [done|apply set_result_wake].
  - intros x. unfold thread_of, st', readied. fields. destruct (decide (x = b)) as [->|].
    + by rewrite lookup_insert_eq, Hb, set_result_thread.
    + by rewrite lookup_insert_ne.
  - intros x u Hx Hu. unfold st', readied. fields. rewrite lookup_insert_ne; [done|]. naive_solver.
  - intros x u Hx Hu. unfold st', readied. fields. by rewrite lookup_insert_ne.
  - unfold st', readied. fields. by rewrite lookup_insert_eq.
  - intros x Hx. unfold st', readied. fields. by rewrite lookup_insert_ne.
Qed.

Lemma due_ext st st' now l :
  (forall x, wake_time_of st' x = wake_time_of st x) -> due st' now l = due st now l.
Proof. intros E. induction l as [|b l IH]; cbn [due]; [done|]. by rewrite E, IH. Qed.

Lemma sleeping_not_freed st h b blk th :
  sched_inv st h -> b ∈ s_sleeping st -> s_blockers st !! b = Some blk ->
  s_threads st !! b_thread blk = Some th -> t_state th = BLOCKED -> t_blocker th = Some b ->
  ~ freed st (b_thread blk).
Proof.
  intros I Hin Hb Ht Hs Htb. pose proof (inv_threads _ _ I _ _ Ht) as Hok.
  unfold thread_ok in Hok. rewrite Hs in Hok.
  destruct Hok as (_ & _ & _ & _ & _ & ? & ? & (? & ? & _) & _ & Hsl). simplify_eq. tauto.
Qed.

Lemma wake_loop_Ok now st h l :
  sched_inv st h -> s_sleeping st = l ->
  exists st', wake_loop now l st = Ok st' /\ sched_inv st' h /\ wakes now st st'.
Proof.
  revert st. induction l as [|b l IH]; intros st I El; cbn [wake_loop].
  - exists st. split_and!; try done. split; try done; rewrite ?El; cbn; [by rewrite app_nil_r|done|eauto|by intros ? ? ?%elem_of_nil].
  - destruct (inv_sleeping _ _ I b) as (blk & th & Hb & Hty & Ht & Hs & Htb); [rewrite El; by left|].
    rewrite (deref_Ok _ _ _ Hb). run. unfold should_be_woken_up.
    assert (Ew : wake_time_of st b = b_wake_time blk) by (unfold wake_time_of; by rewrite Hb).
    destruct (b_wake_time blk <=? now) eqn:Ed; cbn [negb].
    + assert (Hf := sleeping_not_freed _ _ _ _ _ I ltac:(rewrite El; by left) Hb Ht Hs Htb).
      rewrite (unblock_unchecked_blocked st h _ th b blk l I Hb eq_refl Ht Hs Htb Hf). run.
      assert (Hnd := inv_sleeping_nodup _ _ I). assert (Hso := inv_sorted _ _ I).
      rewrite El in Hnd, Hso. inversion_clear Hnd as [|?? Hbl Hl]. inversion_clear Hso as [|?? Hsl _].
      destruct (readied_wakes _ b th blk UNBLOCKED l st Ht Hs Hb) as (W1 & W2 & W3 & W4 & W5 & W6).
      destruct (IH (readied (b_thread blk) b th (set_result UNBLOCKED blk) l st)) as (st' & E & I' & W); [|done|].
      { apply unblock_blocked; try done. rewrite El. intros x. rewrite elem_of_cons. naive_solver. }
      exists st'. split_and!; [done..|]. destruct W as [V1 V2 V3 V4 V5 V6 V7 V8 V9 V10 V14 V12 V13 V11].
      rewrite (due_ext st _ now) in V1, V2, V12, V13 by done. rewrite (map_ext _ (thread_of st)) in V1, V12 by done.
      change (s_sleeping (readied _ _ _ _ l st)) with l in *.
      change (s_ready (readied _ _ _ _ l st)) with (s_ready st ++ [b_thread blk]) in V1.
      assert (Ed' : due st now (s_sleeping st) = b :: due st now l).
      { rewrite El. cbn [due]. by rewrite Ew, Ed. }
      split; try done; rewrite ?Ed'.
      * rewrite V1. cbn [map]. unfold thread_of at 2. rewrite Hb. by rewrite <- app_assoc.
      * rewrite V2. by rewrite El.
      * intros x. by rewrite V8.
      * intros x. by rewrite V9.
      * intros x u Hx Hu. apply V10; [|done]. by apply W3.
      * intros x u' Hu'. destruct (V14 x u' Hu') as (u & Hu & Edie). destruct (decide (x = b_thread blk)) as [->|Hne].
        -- unfold readied in Hu. fields. rewrite lookup_insert_eq in Hu. injection Hu as <-. by exists th.
        -- rewrite W6 in Hu by done. by exists u.
      * intros x. cbn [map]. unfold thread_of at 1. rewrite Hb, not_elem_of_cons. intros [Hne Hx].
        rewrite V12 by done. by apply W6.
      * intros x u [->|Hx]%elem_of_cons Hu.
        -- simplify_eq. apply V11; [done|]. done.
        -- apply V13; [done|]. apply W4; [done|]. intros ->. apply Hbl.
           clear -Hx. revert Hx. generalize l. intros l'. induction l' as [|y l' IH]; cbn [due]; [done|].
           destruct (_ <=? _); [|by intros ?%elem_of_nil]. intros [->|?]%elem_of_cons; [by left|right; auto].
      * intros x u Hx Hu. rewrite El in Hu. apply V11; [apply W4; set_solver|]. set_solver.
    + exists st. split_and!; try done. split; try done; rewrite ?El; cbn [due]; rewrite ?Ew, ?Ed; cbn; [by rewrite app_nil_r|done|eauto|by intros ? ? ?%elem_of_nil].
Qed.

(** ** Handing the dead threads to the TaskFinalizer *)

(** Only the two queues change, and what leaves one is in the other. *)
Record frees (st st' : sched) : Prop := {
  fr_threads : s_threads st' = s_threads st;
  fr_blockers : s_blockers st' = s_blockers st;
  fr_processes : s_processes st' = s_processes st;
  fr_registered : s_registered st' = s_registered st;
  fr_cpus : s_cpus st' = s_cpus st;
  fr_ready : s_ready st' = s_ready st;
  fr_sleeping : s_sleeping st' = s_sleeping st;
  fr_being_freed : s_being_freed st' = s_being_freed st;
  fr_perm : s_deferred st' ++ s_to_free st' ≡ₚ s_deferred st ++ s_to_free st;
  fr_to_free : s_to_free st `prefix_of` s_to_free st';
  fr_shrinks : (length (s_deferred st') <= length (s_deferred st))%nat }.

Lemma frees_refl st : frees st st.
Proof. by split. Qed.
Lemma frees_trans a b c : frees a b -> frees b c -> frees a c.
Proof.
  intros [] []. split; try congruence; [etrans; eassumption..|lia].
Qed.

Lemma free_one_Ok st h i t :
  sched_inv st h -> s_deferred st !! i = Some t ->
  let st' := with_to_free (fun l => l ++ [t])
               (with_deferred (fun l => take i l ++ drop (S i) l) st) in
  free_thread t (with_deferred (fun l => take i l ++ drop (S i) l) st) = Ok st' /\
  sched_inv st' h /\ frees st st' /\ t ∈ s_to_free st' /\
  S (length (s_deferred st')) = length (s_deferred st).
Proof.
  intros I Hi st'. assert (Hin : t ∈ s_deferred st) by (by eapply list_elem_of_lookup_2).
  assert (Esplit : s_deferred st = take i (s_deferred st) ++ t :: drop (S i) (s_deferred st)).
  { by rewrite take_drop_middle. }
  assert (Hperm : s_deferred st ≡ₚ t :: take i (s_deferred st) ++ drop (S i) (s_deferred st)).
  { rewrite Esplit at 1. solve_Permutation. }
  assert (Hmem : forall x, x ∈ s_deferred st <->
    x = t \/ x ∈ take i (s_deferred st) ++ drop (S i) (s_deferred st)).
  { intros x. rewrite Hperm at 1. by rewrite elem_of_cons. }
  assert (Hnd := inv_nodup _ _ I). rewrite Hperm in Hnd.
  assert (Hnd' : NoDup (t :: s_ready st ++ (take i (s_deferred st) ++ drop (S i) (s_deferred st)) ++
                        s_to_free st ++ s_being_freed st)).
  { eapply NoDup_perm; [|exact Hnd]. solve_Permutation. }
  apply NoDup_cons in Hnd' as [Hnot Hnd']. unfold st'. split_and!.
  - unfold free_thread. rewrite not_on_a_list; [done|..]; unfold freed; fields; set_solver.
  - destruct (inv_listed _ _ I t) as [th Ht]; [rewrite !elem_of_app; tauto|].
    pose proof (inv_threads _ _ I _ _ Ht) as Hok.
    assert (Hdead : t_state th = DEAD) by (unfold thread_ok in Hok; destruct (t_state th); tauto).
    apply (sched_inv_change st _ h h t th th I). split; fields; try done; try old_order I.
    + by rewrite insert_id.
    + intros t' Hne. rewrite Hmem. tauto.
    + unfold freed. fields. set_solver.
    + eapply NoDup_perm; [|apply (proj2 (NoDup_cons _ _) (conj Hnot Hnd'))]. solve_Permutation.
    + intros b blk Hb. exists blk. split_and!; try done; by apply (inv_blockers _ _ I b).
    + intros b Hb. destruct (inv_sleeping _ _ I b Hb) as (blk & u & ? & ? & ? & ? & ?).
      exists blk. split; [done|]. intros <-. by simplify_eq.
    + unfold thread_ok in *. rewrite Hdead in *. destruct Hok as (? & ? & ? & ? & Hd).
      split_and!; try done. right. unfold freed. fields.
      split; [|right; left; set_solver]. destruct Hd; [tauto|]. tauto.
    + intros Hid. unfold thread_ok in Hok. rewrite Hdead in Hok. tauto.
    + assert (Hni : ~ is_idle st t) by (unfold thread_ok in Hok; rewrite Hdead in Hok; tauto).
      keep_process th th. by apply (count_live_same _ _ _ _ th th); rewrite ?Hdead; try done; tauto.
  - pose proof (Permutation_length Hperm) as Hl. cbn [length] in Hl.
    split; fields; try done; try lia; try by apply prefix_app_r.
    rewrite Hperm at 3. solve_Permutation.
  - fields. set_solver.
  - pose proof (Permutation_length Hperm) as Hl. by cbn [length] in Hl.
Qed.

Lemma free_deferred_loop_Ok fuel i st h :
  sched_inv st h -> (i <= length (s_deferred st))%nat -> (length (s_deferred st) <= fuel)%nat ->
  exists st', free_deferred_loop fuel i st = Ok st' /\ sched_inv st' h /\ frees st st' /\
    (forall t, s_deferred st !! i = Some t -> t ∈ s_to_free st').
Proof.
  revert i st. induction fuel as [|fuel IH]; intros i st I Hi Hfuel; cbn [free_deferred_loop].
  - rewrite decide_True by lia. exists st. split_and!; try done; try apply frees_refl.
    intros t Ht%lookup_lt_Some. lia.
  - case_decide as E.
    { exists st. split_and!; try done; try apply frees_refl. intros t Ht%lookup_lt_Some. lia. }
    destruct (lookup_lt_is_Some_2 (s_deferred st) i) as [t Ht]; [lia|]. rewrite Ht.
    destruct (free_one_Ok st h i t I Ht) as (E1 & I1 & F1 & Hin & Hlen). rewrite E1. run.
    set (st1 := with_to_free _ _) in *.
    destruct (IH (if decide (i = length (s_deferred st1)) then 0%nat else S i) st1) as (st' & E' & I' & F' & _);
      [done|case_decide; lia|lia|].
    exists st'. split_and!; try done; [by eapply frees_trans|]. intros t' [= <-].
    destruct (fr_to_free _ _ F') as [l ->]. apply elem_of_app. by left.
Qed.

Lemma free_deferred_Ok st h :
  sched_inv st h ->
  exists st', free_deferred_threads st = Ok st' /\ sched_inv st' h /\ frees st st' /\
    (forall t l, s_deferred st = t :: l -> t ∈ s_to_free st').
Proof.
  intros I. destruct (free_deferred_loop_Ok (length (s_deferred st)) 0 st h I) as (st' & ? & ? & ? & H); [lia..|].
  exists st'. split_and!; try done. intros t l E. apply H. by rewrite E.
Qed.

(** ** The request of the current thread *)

Lemma emplace_sleeping_elem st b l x : x ∈ emplace_sleeping st b l <-> x = b \/ x ∈ l.
Proof.
  induction l as [|y l IH]; cbn [emplace_sleeping]; [set_solver|].
  destruct (_ <? _); rewrite !elem_of_cons, ?IH, ?elem_of_cons; tauto.
Qed.

Lemma emplace_sleeping_perm st b l : emplace_sleeping st b l ≡ₚ b :: l.
Proof.
  induction l as [|y l IH]; cbn [emplace_sleeping]; [done|].
  destruct (_ <? _); [rewrite IH; constructor|done].
Qed.

Lemma emplace_sleeping_sorted st b l :
  StronglySorted (wakes_no_later st) l -> StronglySorted (wakes_no_later st) (emplace_sleeping st b l).
Proof.
  induction 1 as [|y l Hl IH Hy]; cbn [emplace_sleeping]; [repeat constructor|].
  destruct (_ <? _) eqn:E; bool_to_prop.
  - constructor; [done|]. apply Forall_forall. intros x Hx.
    apply emplace_sleeping_elem in Hx as [->|Hx]; [unfold wakes_no_later; lia|].
    by apply (proj1 (Forall_forall _ _) Hy).
  - constructor; [by constructor|]. constructor; [done|].
    eapply Forall_impl; [exact Hy|]. unfold wakes_no_later. intros. lia.
Qed.

Lemma emplace_sleeping_ext st st' b l :
  s_blockers st' = s_blockers st -> emplace_sleeping st' b l = emplace_sleeping st b l.
Proof.
  intros E. induction l as [|y l IH]; cbn [emplace_sleeping]; [done|].
  unfold wake_time_of in *. by rewrite E, IH.
Qed.

(** The state the thread of the hole ends up in. *)
Record requested (st st' : sched) (cur : nat) (th th' : thread) : Prop := {
  rq_thread : s_threads st' = <[ cur := th' ]> (s_threads st);
  rq_cpus : s_cpus st' = s_cpus st;
  rq_ready : s_ready st' = s_ready st;
  rq_processes : s_processes st' = s_processes st;
  rq_blockers : s_blockers st' = s_blockers st;
  rq_sleeping : forall b, b ∈ s_sleeping st' <-> b ∈ s_sleeping st \/
    t_state th' = BLOCKED /\ t_blocker th = Some b /\
    exists blk, s_blockers st !! b = Some blk /\ b_type blk = SLEEP;
  rq_state : t_state th' = BLOCKED \/ t_state th' = RUNNING;
  rq_die : t_should_die th' = t_should_die th;
  rq_keeps : t_state th' = BLOCKED -> t_blocker th' = t_blocker th;
  rq_done : t_state th' = RUNNING -> t_requested th' = UNDEFINED /\ t_blocker th' = None;
  rq_blocks : t_state th' = BLOCKED <->
    exists b blk, t_requested th = BLOCKED /\ t_blocker th = Some b /\
      s_blockers st !! b = Some blk /\ b_should_block blk = true }.

Lemma block_current_Ok st cpu c th b blk :
  sched_inv st (Switching cpu) -> s_cpus st !! cpu = Some c ->
  s_threads st !! c_current c = Some th -> t_state th = RUNNING -> t_requested th = BLOCKED ->
  t_blocker th = Some b -> s_blockers st !! b = Some blk -> b_should_block blk = true ->
  let th' := request_state UNDEFINED BLOCKED (set_state BLOCKED th) in
  let l := if decide (b_type blk = SLEEP) then emplace_sleeping st b (s_sleeping st) else s_sleeping st in
  sched_inv (put_thread (c_current c) th' (with_sleeping (fun _ => l) st)) (Switching cpu).
Proof.
  intros I Hc Ht Hs Hq Htb Hb Hsb th' l.
  pose proof (inv_threads _ _ I _ _ Ht) as Hok. unfold thread_ok in Hok. rewrite Hs in Hok.
  destruct Hok as (Hcur & Hnr & Hnd & Hf & [[? ?]|(_ & Hi & b' & blk' & (? & ? & Hbt) & Hns)] & Hdie);
    [congruence|]. simplify_eq.
  assert (Hl : forall x, x ∈ l <-> b_type blk = SLEEP /\ x = b \/ x ∈ s_sleeping st).
  { intros x. unfold l. case_decide; rewrite ?emplace_sleeping_elem; tauto. }
  assert (Hq' : t_requested th' = UNDEFINED).
  { unfold th'. fields. by rewrite Hq. }
  assert (Hncur : ~ current_beyond st (Switching cpu) (c_current c)).
  { intros (k & c' & Hk & Ek & Hne). apply Hne. apply (inv_current _ _ I cpu c k c' Hc Hk). by left. }
  apply (sched_inv_change st _ (Switching cpu) (Switching cpu) (c_current c) th th' I).
  split; fields; try done; try old_order I; try by (intros; congruence).
  - intros b1 blk1 Hb1 Hne1. split; [done|]. rewrite Hl. split; [|tauto].
    intros [[? ->]|?]; [|done]. by simplify_eq.
  - intros b1 blk1 Hb1. exists blk1. split_and!; try done; by apply (inv_blockers _ _ I b1).
  - intros b1 [[? ->]|Hb1]%Hl; [by exists blk|].
    destruct (inv_sleeping _ _ I b1 Hb1) as (blk1 & u & ? & ? & Hu & Hsu & ?). exists blk1. split; [done|].
    intros E. rewrite E in Hu. by simplify_eq.
  - unfold l. case_decide; [|apply I]. rewrite emplace_sleeping_perm. constructor; [done|apply I].
  - unfold l. case_decide; [|apply I]. apply emplace_sleeping_sorted, I.
  - unfold thread_ok. unfold th' at 1. fields. split_and!; try done. exists b, blk. split_and!; try done.
    left. split; [done|]. rewrite Hl. tauto.
  - keep_process th th'. apply (count_live_same _ _ _ _ th th'); try done.
    + fields. by rewrite lookup_insert_eq.
    + unfold th'. fields. rewrite Hs. naive_solver.
Qed.

Lemma resume_current_Ok st cpu c th b :
  sched_inv st (Switching cpu) -> s_cpus st !! cpu = Some c ->
  s_threads st !! c_current c = Some th -> t_state th = RUNNING -> t_requested th = BLOCKED ->
  t_blocker th = Some b ->
  let th' := request_state UNDEFINED BLOCKED (set_blocker None th) in
  sched_inv (put_thread (c_current c) th' st) (Switching cpu).
Proof.
  intros I Hc Ht Hs Hq Htb th'.
  pose proof (inv_threads _ _ I _ _ Ht) as Hok. unfold thread_ok in Hok. rewrite Hs in Hok.
  destruct Hok as (Hcur & Hnr & Hnd & Hf & Hrq & Hdie).
  assert (Hi : ~ is_idle st (c_current c)) by (destruct Hrq as [[? ?]|?]; [congruence|tauto]).
  assert (Hq' : t_requested th' = UNDEFINED).
  { unfold th'. fields. by rewrite Hq. }
  apply (sched_inv_change st _ (Switching cpu) (Switching cpu) (c_current c) th th' I).
  split; fields; try done; try old_order I; try by (intros; congruence).
  - intros b1 blk1 Hb1. exists blk1. split_and!; try done; by apply (inv_blockers _ _ I b1).
  - intros b1 Hb1. destruct (inv_sleeping _ _ I b1 Hb1) as (blk1 & u & ? & ? & Hu & Hsu & ?).
    exists blk1. split; [done|]. intros E. rewrite E in Hu. congruence.
  - assert (Hs' : t_state th' = RUNNING) by done. unfold thread_ok. rewrite Hs'. split_and!; try done. by left.
  - keep_process th th'. apply (count_live_same _ _ _ _ th th'); try done.
    fields. by rewrite lookup_insert_eq.
Qed.

Lemma apply_request_Ok st cpu c th :
  sched_inv st (Switching cpu) -> s_cpus st !! cpu = Some c ->
  s_threads st !! c_current c = Some th -> t_state th = RUNNING ->
  exists st' th', apply_request (c_current c) st = Ok st' /\ sched_inv st' (Switching cpu) /\
    requested st st' (c_current c) th th'.
Proof.
  intros I Hc Ht Hs. unfold apply_request. rewrite (deref_Ok _ _ _ Ht). run.
  pose proof (inv_threads _ _ I _ _ Ht) as Hok. unfold thread_ok in Hok. rewrite Hs in Hok.
  destruct Hok as (Hcur & Hnr & Hnd & Hf & [[Hq Htb]|(Hq & Hi & b & blk & (Htb & Hb & Hbt) & Hns)] & Hdie); rewrite Hq.
  - exists st, th. split_and!; try done. split; try done; [by rewrite insert_id| |by right|].
    + intros b. rewrite Hs. naive_solver.
    + rewrite Hs, Hq. naive_solver.
  - rewrite Htb, (deref_Ok _ _ _ Hb). run. destruct (b_should_block blk) eqn:Esb.
    + run. pose proof (block_current_Ok st cpu c th b blk I Hc Ht Hs Hq Htb Hb Esb) as I'. cbv zeta in I'.
      eexists _, (request_state UNDEFINED BLOCKED (set_state BLOCKED th)). split.
      { rewrite (deref_Ok _ _ (set_state BLOCKED th)); [reflexivity|].
        case_decide; fields; by rewrite lookup_insert_eq. }
      split.
      { inv_as I'. unfold put_thread, with_sleeping, with_threads. case_decide; fields.
        all: rewrite insert_insert_eq; f_equal. symmetry. by apply emplace_sleeping_ext. }
      split; try (case_decide; done).
      * case_decide; fields; by rewrite insert_insert_eq.
      * intros x. fields. rewrite Htb. case_decide as Hty; fields; rewrite ?emplace_sleeping_elem; naive_solver.
      * by left.
      * fields. split; [|done]. intros _. by exists b, blk.
    + unfold thread_unblock. rewrite (deref_Ok _ _ _ Ht). run. rewrite Htb, (deref_Ok _ _ _ Hb). run.
      rewrite Esb. fields. rewrite Hs, decide_False by done.
      eexists _, (request_state UNDEFINED BLOCKED (set_blocker None th)). split.
      { rewrite (deref_Ok _ _ (set_blocker None th)); [reflexivity|]. fields. by rewrite lookup_insert_eq. }
      split.
      { pose proof (resume_current_Ok st cpu c th b I Hc Ht Hs Hq Htb) as I'. cbv zeta in I'. inv_as I'.
        unfold put_thread, put_blocker, with_blockers, with_threads. fields.
        by rewrite insert_insert_eq, (insert_id _ b). }
      split; try done.
      * fields. by rewrite insert_insert_eq.
      * fields. by rewrite insert_id.
      * intros x. fields. rewrite Hs. naive_solver.
      * fields. by right.
      * fields. congruence.
      * fields. by rewrite Hq.
      * fields. rewrite Hs. split; [done|]. intros (b1 & blk1 & ? & ? & ? & ?). congruence.
Qed.

(** ** Killing *)

Lemma live_counted st h p pr t :
  process_ok st h p pr -> t ∈ p_threads pr -> live st h t -> 1 <= p_alive pr < 4294967296.
Proof.
  intros P Ht Hl. rewrite (pok_alive _ _ _ _ P). unfold alive_count.
  pose proof (pok_bound _ _ _ _ P).
  assert (t ∈ filter (live st h) (p_threads pr)) as [l1 [l2 E]]%list_elem_of_split by (by apply list_elem_of_filter).
  pose proof (length_filter (live st h) (p_threads pr)). rewrite E in *. rewrite length_app in *. cbn [length] in *. lia.
Qed.

(** One thread fewer is alive. *)
Definition one_less (pr : process) : process :=
  Process (p_state pr) (p_exit_code pr) (p_threads pr) (p_alive pr - 1).

Lemma decrement_alive_Ok st h p pr t :
  sched_inv st h -> s_processes st !! p = Some pr -> t ∈ p_threads pr -> live st h t ->
  decrement_alive p st = Ok (put_process p (one_less pr) st, p_alive pr - 1).
Proof.
  intros I Hp Ht Hl. destruct (live_counted _ _ _ _ _ (inv_processes _ _ I _ _ Hp) Ht Hl).
  unfold decrement_alive, decrement_alive_thread_count. rewrite (deref_Ok _ _ _ Hp). run.
  replace (p_alive pr =? 0) with false by blia. cbn [negb]. run.
  unfold wrap32. rewrite Z.mod_small by lia. done.
Qed.

(** The dying thread is marked: it still counts as alive. *)
Lemma mark_dead_Ok st cpu c th :
  sched_inv st (Switching cpu) -> s_cpus st !! cpu = Some c ->
  s_threads st !! c_current c = Some th -> t_state th = RUNNING -> t_should_die th = true ->
  sched_inv (put_thread (c_current c) (set_state DEAD th) st) (Dying cpu).
Proof.
  intros I Hc Ht Hs Hd.
  pose proof (inv_threads _ _ I _ _ Ht) as Hok. unfold thread_ok in Hok. rewrite Hs in Hok.
  destruct Hok as (Hcur & Hnr & Hnd & Hf & Hrq & Hdie).
  assert (Hi : ~ is_idle st (c_current c)) by (intros ?; by rewrite Hdie in Hd).
  apply (sched_inv_change st _ (Switching cpu) (Dying cpu) (c_current c) th (set_state DEAD th) I).
  split; fields; try done; try old_order I; try by (intros; congruence).
  - intros t' Hne. unfold dying. rewrite Hc. naive_solver.
  - intros b1 blk1 Hb1. exists blk1. split_and!; try done; by apply (inv_blockers _ _ I b1).
  - intros b1 Hb1. destruct (inv_sleeping _ _ I b1 Hb1) as (blk1 & u & ? & ? & Hu & Hsu & ?).
    exists blk1. split; [done|]. intros E. rewrite E in Hu. congruence.
  - unfold thread_ok. fields. split_and!; try done.
    + intros (k & c' & Hk & Ek & Hne). apply Hne. apply (inv_current _ _ I cpu c k c' Hc Hk). by left.
    + left. unfold dying, freed. fields. by rewrite Hc.
  - keep_process th (set_state DEAD th). unfold count_live. rewrite !decide_True; [done| |].
    + unfold live. rewrite Ht, Hs. naive_solver.
    + unfold live, dying. fields. rewrite lookup_insert_eq, Hc. by left.
Qed.

(** It is queued for the TaskFinalizer and no longer counts. *)
Lemma bury_Ok st cpu c th pr s e :
  sched_inv st (Dying cpu) -> s_cpus st !! cpu = Some c ->
  s_threads st !! c_current c = Some th -> t_state th = DEAD ->
  s_processes st !! t_owner th = Some pr -> (p_state pr <> ALIVE -> s <> ALIVE) ->
  let pr' := Process s e (p_threads pr) (p_alive pr - 1) in
  let st' := put_process (t_owner th) pr' st in
  insert_deferred (c_current c) st' = Ok (with_deferred (fun l => l ++ [c_current c]) st') /\
  sched_inv (with_deferred (fun l => l ++ [c_current c]) st') (Switching cpu).
Proof.
  intros I Hc Ht Hs Hp Hst pr' st'.
  pose proof (inv_threads _ _ I _ _ Ht) as Hok. unfold thread_ok in Hok. rewrite Hs in Hok.
  destruct Hok as (Hcur & Hi & Hnr & Hd & Hdy). 
  assert (Hdc : dying st (Dying cpu) (c_current c)) by (unfold dying; by rewrite Hc).
  destruct Hdy as [(_ & Hnd & Hf)|?]; [|tauto]. split.
  { unfold insert_deferred. rewrite not_on_a_list; try done. }
  apply (sched_inv_change st _ (Dying cpu) (Switching cpu) (c_current c) th th I). unfold st'.
  split; fields; try done; try old_order I; try by (intros; congruence).
  - by rewrite insert_id.
  - intros t' Hne. unfold dying. rewrite Hc. naive_solver.
  - intros t' Hne. set_solver.
  - apply (NoDup_add (c_current c) _ _ (inv_nodup _ _ I)); [|solve_Permutation].
    unfold freed in Hf. rewrite !elem_of_app. tauto.
  - intros b1 blk1 Hb1. exists blk1. split_and!; try done; by apply (inv_blockers _ _ I b1).
  - intros b1 Hb1. destruct (inv_sleeping _ _ I b1 Hb1) as (blk1 & u & ? & ? & Hu & Hsu & ?).
    exists blk1. split; [done|]. intros E. rewrite E in Hu. congruence.
  - unfold thread_ok. rewrite Hs. fields. split_and!; try done. right. split; [by intros []|]. left. set_solver.
  - right. split; [done|]. exists pr, pr'. split_and!; try done; try (by left); try congruence.
    unfold count_live. rewrite decide_True by (unfold live; rewrite Ht; by left).
    rewrite decide_False; [unfold pr'; fields; lia|].
    unfold live. fields. rewrite Ht, Hs. cbn [dying]. naive_solver.
Qed.
