(* ===== verification/SchedulerKill.v ===== *)
(** Killing the current thread, and the threads of an exiting process. *)
From S2P Require Import Prelude Scheduler SchedulerInv SchedulerOps.
From stdpp Require Import gmap.
#[local] Open Scope Z_scope.

Lemma exit_flag_Ok st h t th code :
  sched_inv st h -> s_threads st !! t = Some th -> ~ is_idle st t ->
  sched_inv (put_thread t (thread_exit code th) st) h.
Proof.
  intros I Ht Hi. pose proof (inv_threads _ _ I _ _ Ht) as Hok.
  apply (sched_inv_change st _ h h t th (thread_exit code th) I).
  split; fields; try done; try old_order I; try by (intros; congruence).
  - intros b1 blk1 Hb1. exists blk1. split_and!; try done; by apply (inv_blockers _ _ I b1).
  - intros b1 Hb1. destruct (inv_sleeping _ _ I b1 Hb1) as (blk1 & u & ? & ? & Hu & Hsu & ?).
    exists blk1. split; [done|]. intros E. rewrite E in Hu. simplify_eq. done.
  - revert Hok. unfold thread_ok. fields. destruct (t_state th); try tauto.
    intros (? & ? & ? & ? & ? & b & blk & ? & ? & Hs). split_and!; try done.
    exists b, blk. split_and!; try done. destruct Hs; [left|right]; tauto.
  - keep_process th (thread_exit code th). apply (count_live_same _ _ _ _ th (thread_exit code th)); try done.
    fields. by rewrite lookup_insert_eq.
Qed.

(** What the process killer knows of its process. *)
Definition killing (st : sched) (p : nat) (pr : process) : Prop :=
  s_processes st !! p = Some pr /\ p_state pr <> ALIVE /\
  forall t u, s_threads st !! t = Some u -> t_owner u = p -> t_kill_all u = true -> t_state u = DEAD.

Lemma filter_ne_elem (t x : nat) (l : list nat) : x ∈ filter (fun y => y <> t) l <-> x <> t /\ x ∈ l.
Proof. by rewrite list_elem_of_filter. Qed.

Lemma filter_ne_id (t : nat) (l : list nat) : (t ∉ l) -> filter (fun y => y <> t) l = l.
Proof.
  induction l as [|x l IH]; [done|]. intros [Hx Hl]%not_elem_of_cons.
  rewrite filter_cons_True by done. by rewrite IH.
Qed.

Lemma nodup_filter_app (t : nat) (l l' : list nat) : NoDup (l ++ l') -> NoDup (filter (fun y => y <> t) l ++ l').
Proof.
  rewrite !NoDup_app. intros (H1 & H2 & H3). split_and!; try done.
  - by apply NoDup_filter.
  - intros x Hx. apply H2. by apply filter_ne_elem in Hx as [_ ?].
Qed.

(** A ready or sleeping thread of the process is handed to the TaskFinalizer: it leaves the
    ready list and, with its blocker, the sleeping ones. *)
Lemma free_live_Ok st h t th pr l :
  sched_inv st h -> s_threads st !! t = Some th -> ~ is_idle st t -> ~ dying st h t ->
  t_state th = READY \/ t_state th = BLOCKED -> ~ freed st t -> t_should_die th = true ->
  killing st (t_owner th) pr ->
  (forall x, x ∈ l <-> x ∈ s_sleeping st /\ t_blocker th <> Some x) -> NoDup l ->
  StronglySorted (wakes_no_later st) l ->
  let st' := with_ready (filter (fun y => y <> t)) (with_to_free (fun f => f ++ [t])
               (with_sleeping (fun _ => l) (put_process (t_owner th) (one_less pr) st))) in
  sched_inv st' h.
Proof.
  intros I Ht Hi Hdy Hs Hf Hd (Hp & Hna & Hk) Hl Hnd Hso st'.
  pose proof (inv_threads _ _ I _ _ Ht) as Hok.
  assert (Hkt : t_kill_all th = false).
  { destruct (t_kill_all th) eqn:E; [|done]. rewrite (Hk t th) in Hs by done. by destruct Hs. }
  assert (Hnl : t ∉ s_deferred st) by (unfold thread_ok in Hok; destruct Hs as [Hs|Hs]; rewrite Hs in Hok; tauto).
  apply (sched_inv_change st _ h h t th th I). unfold st'.
  split; fields; try done; try by (intros; congruence).
  - by rewrite insert_id.
  - intros t' Hne. rewrite filter_ne_elem. tauto.
  - intros t' Hne. unfold freed. fields. set_solver.
  - apply (NoDup_add t (filter (fun y => y <> t) (s_ready st) ++ s_deferred st ++ s_to_free st ++ s_being_freed st)).
    + apply nodup_filter_app, I.
    + unfold freed in Hf. rewrite !elem_of_app, filter_ne_elem. tauto.
    + solve_Permutation.
  - intros b blk Hb Hne. split; [done|]. rewrite Hl. split; [tauto|]. intros Hin. split; [done|].
    intros E. destruct (inv_sleeping _ _ I b Hin) as (? & u & ? & ? & Hu & ? & ?). simplify_eq.
    unfold thread_ok in Hok. destruct Hs as [Hs|Hs]; rewrite Hs in Hok.
    + destruct Hok as (_ & _ & _ & ? & _). congruence.
    + destruct Hok as (_ & _ & _ & _ & _ & ? & ? & (? & ? & ?) & _). by simplify_eq.
  - intros b1 blk1 Hb1. exists blk1. split_and!; try done; by apply (inv_blockers _ _ I b1).
  - intros b [Hb Hne]%Hl. destruct (inv_sleeping _ _ I b Hb) as (blk1 & u & ? & ? & Hu & Hsu & ?).
    exists blk1. split; [done|]. intros E. rewrite E in Hu. by simplify_eq.
  - unfold thread_ok in *. destruct Hs as [Hs|Hs]; rewrite Hs in *.
    + destruct Hok as (? & ? & ? & ? & Ho). split_and!; try done. right. right. fields.
      rewrite filter_ne_elem. unfold freed. fields. set_solver.
    + destruct Hok as (? & ? & ? & ? & ? & b & blk & (Htb & ? & ?) & ? & Ho). split_and!; try done.
      { fields. rewrite filter_ne_elem. tauto. }
      exists b, blk. split_and!; try done. right. fields. rewrite Hl, Htb. unfold freed. fields. set_solver.
  - right. split; [done|]. exists pr, (one_less pr). split_and!; try done; try by left.
    + unfold count_live. rewrite decide_True.
      2:{ unfold live. rewrite Ht. right. destruct Hs as [->| ->]; done. }
      rewrite decide_False; [unfold one_less; fields; lia|].
      unfold live. fields. rewrite Ht. intros [?|(_ & _ & Hnf)]; [done|]. apply Hnf.
      unfold freed. fields. set_solver.
    + intros _ _. right. split_and!; try done. intros t' u _ Hu Ho. by apply (Hk t').
Qed.

Lemma remove_from_Ok b l :
  b ∈ l -> NoDup l -> remove_from b l = Ok (filter (fun y => y <> b) l).
Proof.
  induction l as [|x l IH]; intros Hb Hnd; [by apply not_elem_of_nil in Hb|]. cbn [remove_from].
  apply NoDup_cons in Hnd as [Hx Hl]. case_decide as E.
  - subst x. by rewrite filter_cons_False, filter_ne_id by auto.
  - rewrite filter_cons_True by done. rewrite IH; [done| |done].
    apply elem_of_cons in Hb as [->|?]; done.
Qed.

Lemma remove_sleeping_blocker_Ok st b l :
  b ∈ l -> NoDup l -> remove_sleeping_blocker st b l = Ok (filter (fun y => y <> b) l).
Proof.
  induction l as [|x l IH]; intros Hb Hnd; [by apply not_elem_of_nil in Hb|].
  cbn [remove_sleeping_blocker]. destruct (_ <? _) eqn:E.
  - assert (x <> b) by (intros ->; bool_to_prop; lia). apply NoDup_cons in Hnd as [Hx Hl].
    rewrite filter_cons_True by done. rewrite IH; [done| |done].
    apply elem_of_cons in Hb as [->|?]; done.
  - by apply remove_from_Ok.
Qed.

Lemma sorted_filter st b l :
  StronglySorted (wakes_no_later st) l -> StronglySorted (wakes_no_later st) (filter (fun y => y <> b) l).
Proof.
  induction 1 as [|x l Hl IH Hx]; [constructor|]. rewrite filter_cons. case_decide; [|done].
  constructor; [done|]. apply Forall_forall. intros y [_ Hy]%filter_ne_elem. by apply (proj1 (Forall_forall _ _) Hx).
Qed.

(** What killing one thread leaves alone. *)
Record kills (st st' : sched) (t p : nat) (pr : process) : Prop := {
  ki_cpus : s_cpus st' = s_cpus st;
  ki_deferred : s_deferred st' = s_deferred st;
  ki_other : forall t', t' <> t -> s_threads st' !! t' = s_threads st !! t' /\ (freed st' t' <-> freed st t');
  ki_killing : exists pr', killing st' p pr' /\ p_threads pr' = p_threads pr /\
    forall p', p' <> p -> s_processes st' !! p' = s_processes st !! p' }.

Lemma killing_put st p pr pr' t th :
  killing st p pr -> s_processes st !! p = Some pr -> p_state pr' = p_state pr ->
  s_threads st !! t = Some th ->
  forall st' th', s_threads st' = <[ t := th' ]> (s_threads st) ->
    s_processes st' = <[ p := pr' ]> (s_processes st) ->
    t_owner th' = t_owner th -> t_kill_all th' = t_kill_all th ->
    (t_state th = DEAD -> t_state th' = DEAD) -> killing st' p pr'.
Proof.
  intros (Hp & Hna & Hk) _ Es Ht st' th' E Ep Eo Ek Ed. split_and!; rewrite ?E, ?Ep.
  - by rewrite lookup_insert_eq.
  - congruence.
  - intros t' u. destruct (decide (t' = t)) as [->|];
      rewrite ?lookup_insert_eq, ?lookup_insert_ne by done; [|by apply Hk].
    intros [= <-] Ho Hka. apply Ed, (Hk t); congruence.
Qed.

Lemma on_ready_list st t : t ∈ s_ready st -> on_a_list st t = true.
Proof. intros H. apply bool_decide_eq_true. apply elem_of_app. by left. Qed.

Lemma kill_other_Ok st h p pr t th :
  sched_inv st h -> killing st p pr -> t ∈ p_threads pr -> s_threads st !! t = Some th ->
  ~ dying st h t -> (t_state th <> DEAD -> ~ freed st t) ->
  exists st', kill_other_thread p t st = Ok st' /\ sched_inv st' h /\ kills st st' t p pr.
Proof.
  intros I K Hin Ht Hdy Hf. pose proof K as (Hp & Hna & Hk).
  destruct (pok_owned _ _ _ _ (inv_processes _ _ I _ _ Hp) t Hin) as (? & ? & Ho & Hi). simplify_eq.
  set (th1 := thread_exit 0 th). set (st1 := put_thread t th1 st).
  assert (I1 : sched_inv st1 h) by (by apply exit_flag_Ok).
  assert (Ht1 : s_threads st1 !! t = Some th1) by (unfold st1; fields; by rewrite lookup_insert_eq).
  assert (K1 : killing st1 (t_owner th) pr).
  { eapply (killing_put st (t_owner th) pr pr t th K Hp eq_refl Ht st1 th1); try done.
    unfold st1. fields. by rewrite insert_id. }
  pose proof (inv_threads _ _ I _ _ Ht) as Hok.
  unfold kill_other_thread. rewrite (deref_Ok _ _ _ Ht). run. fold th1 st1.
  assert (Hsame : forall st', (exists pr', killing st' (t_owner th) pr' /\ p_threads pr' = p_threads pr /\
     forall p', p' <> t_owner th -> s_processes st' !! p' = s_processes st1 !! p') ->
    s_cpus st' = s_cpus st1 -> s_deferred st' = s_deferred st1 ->
    (forall t', t' <> t -> s_threads st' !! t' = s_threads st1 !! t' /\ (freed st' t' <-> freed st1 t')) ->
    kills st st' t (t_owner th) pr).
  { intros st' HK E1 E2 E3. split; try done. intros t' Hne. rewrite (proj1 (E3 t' Hne)). split; [|by apply E3].
    unfold st1. fields. by rewrite lookup_insert_ne. }
  assert (Hnochange : kills st st1 t (t_owner th) pr) by (apply Hsame; try done; by exists pr).
  unfold thread_ok in Hok. destruct (t_state th) eqn:Hs; try (by exists st1).
  - destruct Hok as (Hc & _ & Hnr & Hnd & Hq & b & blk & (Htb & Hb & Hbt) & Hsb & Hsl). rewrite Htb.
    assert (Hsl' : b_type blk = SLEEP <-> b ∈ s_sleeping st) by (destruct Hsl as [?|(?&?&?)]; [tauto|]; by destruct Hf).
    assert (Hb1 : s_blockers st1 !! b = Some blk) by done.
    rewrite (deref_Ok _ _ _ Hb1). run. case_decide as Hty.
    + assert (Hlive : live st1 h t).
      { unfold live. rewrite Ht1. right. unfold th1. fields. rewrite Hs. split_and!; try done. by apply Hf. }
      rewrite (decrement_alive_Ok st1 h _ pr t I1 (proj1 K1) Hin Hlive). run.
      fields. rewrite remove_sleeping_blocker_Ok; [run| |apply (inv_sleeping_nodup _ _ I)]; [|by apply Hsl'].
      eexists. split.
      { unfold free_thread. rewrite not_on_a_list; [reflexivity|..]; fields; try done. by apply Hf. }
      assert (I2 := free_live_Ok st1 h t th1 pr (filter (fun y => y <> b) (s_sleeping st)) I1 Ht1 Hi Hdy).
      cbv zeta in I2. split; [inv_as (I2 ltac:(by right) (Hf ltac:(done)) eq_refl K1
        ltac:(intros x; rewrite filter_ne_elem; unfold th1; fields; rewrite Htb; naive_solver)
        ltac:(by apply NoDup_filter, I) ltac:(apply sorted_filter, I))|].
      { unfold with_ready, with_to_free, with_sleeping, put_process, with_processes, st1. fields.
        by rewrite filter_ne_id. }
      apply Hsame; try done; [|intros t' Hne; unfold freed; fields; set_solver].
      exists (one_less pr). split_and!; try done; [|intros; fields; by rewrite lookup_insert_ne].
      apply (killing_put st1 (t_owner th) pr (one_less pr) t th1 K1 (proj1 K1) eq_refl Ht1 _ th1); try done.
      fields. by rewrite insert_id.
    + unfold thread_interrupt. rewrite (deref_Ok _ _ _ Ht1). run. unfold th1 at 1. fields. rewrite Htb.
      rewrite (deref_Ok _ _ _ Hb1). run. destruct (is_interruptable blk) eqn:Eint; cbn [negb]; [|by exists st1].
      eexists. split.
      { run. unfold insert_ready. rewrite not_on_a_list; [reflexivity|..]; fields; try done. by apply Hf. }
      assert (I2 := unblock_blocked st1 h t th1 b blk INTERRUPTED (s_sleeping st) I1 Ht1 Hs (Hf ltac:(done)) Htb Hb
        ltac:(done)
        ltac:(intros x; split; [intros Hx; split; [done|]; intros ->; by apply Hty, Hsl'|tauto])
        ltac:(apply I) ltac:(apply I)). split; [inv_as I2; by destruct st|].
      apply Hsame; try done; [|intros t' Hne; fields; by rewrite lookup_insert_ne].
      exists pr. split_and!; try done.
      apply (killing_put st1 (t_owner th) pr pr t th1 K1 (proj1 K1) eq_refl Ht1 _ (set_state READY (set_blocker None th1))); try done.
      * fields. by rewrite insert_id.
      * unfold th1. fields. congruence.
  - destruct Hok as (Hc & Hnd & Hq & Htb & Hrd).
    assert (Hlive : live st1 h t).
    { unfold live. rewrite Ht1. right. unfold th1. fields. rewrite Hs. split_and!; try done. by apply Hf. }
    rewrite (decrement_alive_Ok st1 h _ pr t I1 (proj1 K1) Hin Hlive). run.
    assert (Hr : t ∈ s_ready st) by (destruct Hrd as [?|[?|(?&?&?&?)]]; [tauto|tauto|]; by destruct Hf).
    eexists. split.
    { unfold pop_off_ready. rewrite on_ready_list by done. run. unfold free_thread.
      rewrite not_on_a_list; [reflexivity|..]; fields; [rewrite filter_ne_elem; tauto|done|by apply Hf]. }
    assert (I2 := free_live_Ok st1 h t th1 pr (s_sleeping st) I1 Ht1 Hi Hdy ltac:(by left) (Hf ltac:(done)) eq_refl K1
        ltac:(intros x; unfold th1; fields; rewrite Htb; naive_solver) ltac:(apply I) ltac:(apply I)).
    cbv zeta in I2. split; [inv_as I2; by destruct st|].
    apply Hsame; try done; [|intros t' Hne; unfold freed; fields; set_solver].
    exists (one_less pr). split_and!; try done; [|intros; fields; by rewrite lookup_insert_ne].
    apply (killing_put st1 (t_owner th) pr (one_less pr) t th1 K1 (proj1 K1) eq_refl Ht1 _ th1); try done.
    fields. by rewrite insert_id.
Qed.

(** The threads of a list that may be killed one after the other. *)
Definition killable (st : sched) (h : hole) (p : nat) (pr : process) (ts : list nat) : Prop :=
  killing st p pr /\ NoDup ts /\ forall t, t ∈ ts ->
    t ∈ p_threads pr /\ ~ dying st h t /\
    forall th, s_threads st !! t = Some th -> t_state th <> DEAD -> ~ freed st t.

Record kills_all (st st' : sched) (ts : list nat) (p : nat) (pr : process) : Prop := {
  ka_cpus : s_cpus st' = s_cpus st;
  ka_other : forall t', (t' ∉ ts) -> s_threads st' !! t' = s_threads st !! t' /\ (freed st' t' <-> freed st t');
  ka_killing : exists pr', killing st' p pr' /\ p_threads pr' = p_threads pr }.

Lemma kill_others_Ok cur ts st h p pr :
  sched_inv st h -> killable st h p pr ts -> (cur ∉ ts) ->
  exists st', kill_threads cur p ts st = Ok st' /\ sched_inv st' h /\ kills_all st st' ts p pr.
Proof.
  revert st pr. induction ts as [|t ts IH]; intros st pr I (K & Hnd & Hts) Hcur; cbn [kill_threads].
  - exists st. split_and!; try done. split; try done. by exists pr.
  - apply not_elem_of_cons in Hcur as [Hne Hcur]. apply NoDup_cons in Hnd as [Hnot Hnd].
    rewrite decide_False by done.
    destruct (Hts t) as (Hin & Hdy & Hf); [by left|].
    destruct (pok_owned _ _ _ _ (inv_processes _ _ I _ _ (proj1 K)) t Hin) as (th & Ht & _ & _).
    destruct (kill_other_Ok st h p pr t th I K Hin Ht Hdy (Hf th Ht)) as (st1 & E1 & I1 & [C1 D1 O1 (pr1 & K1 & P1 & _)]).
    rewrite E1. run.
    destruct (IH st1 pr1 I1) as (st' & E & I' & [C' O' K']); [|done|].
    { split_and!; try done. intros t' Ht'. destruct (Hts t') as (Hin' & Hdy' & Hf'); [by right|].
      assert (t' <> t) by (intros ->; done). destruct (O1 t') as [Eth Efr]; [done|].
      split_and!; [by rewrite P1|unfold dying; by rewrite C1|]. intros u. rewrite Eth, Efr. apply Hf'. }
    exists st'. split_and!; try done. split; [congruence| |].
    + intros t' [? ?]%not_elem_of_cons. destruct (O' t') as [-> ->]; [done|]. by apply O1.
    + destruct K' as (pr' & ? & ?). exists pr'. split; congruence.
Qed.

Lemma kill_threads_app cur p a b st :
  kill_threads cur p (a ++ b) st = (kill_threads cur p a st ≫= kill_threads cur p b).
Proof.
  revert st. induction a as [|t a IH]; intros st; [done|]. cbn [kill_threads app].
  destruct (if decide (t = cur) then _ else _); run; [apply IH|done].
Qed.

(** A process being killed has no thread that was already freed alive. *)
Lemma killer_first st cpu c th pr t u :
  sched_inv st (Switching cpu) -> s_threads st !! c_current c = Some th -> t_state th = RUNNING ->
  t_kill_all th = true -> s_processes st !! t_owner th = Some pr -> s_threads st !! t = Some u ->
  t_owner u = t_owner th -> t_state u <> DEAD -> ~ freed st t.
Proof.
  intros I Ht Hs Hk Hp Hu Ho Hd Hf.
  assert (t_state th = DEAD) by (by apply (pok_killed _ _ _ _ (inv_processes _ _ I _ _ Hp) t u _ _ Hu Ho Ht)).
  congruence.
Qed.

Lemma killing_self st cpu c th pr :
  sched_inv st (Switching cpu) -> s_threads st !! c_current c = Some th -> t_kill_all th = true ->
  s_processes st !! t_owner th = Some pr ->
  killing (put_thread (c_current c) (set_state DEAD th) st) (t_owner th) pr.
Proof.
  intros I Ht Hk Hp. assert (P := inv_processes _ _ I _ _ Hp). split_and!; [done| |].
  - by apply (pok_killer _ _ _ _ P _ _ Ht).
  - fields. intros t u Hu Ho Hku. destruct (decide (t = c_current c)) as [->|Hne].
    + rewrite lookup_insert_eq in Hu. by simplify_eq.
    + rewrite lookup_insert_ne in Hu by done. exfalso. apply Hne.
      by apply (pok_one_killer _ _ _ _ P _ u _ th).
Qed.

(** The current thread, marked dead. *)
Section Kill.
Context (st : sched) (cpu : nat) (c : processor) (th : thread) (pr : process).
Context (I : sched_inv st (Switching cpu)) (Hc : s_cpus st !! cpu = Some c).
Context (Ht : s_threads st !! c_current c = Some th) (Hs : t_state th = RUNNING).
Context (Hd : t_should_die th = true).
Context (Hp : s_processes st !! t_owner th = Some pr) (Hin : c_current c ∈ p_threads pr).
Let th1 := set_state DEAD th.
Let st1 := put_thread (c_current c) th1 st.
Let I1 : sched_inv st1 (Dying cpu) := mark_dead_Ok st cpu c th I Hc Ht Hs Hd.

Lemma marked_lookup : s_threads st1 !! c_current c = Some th1.
Proof. unfold st1. fields. by rewrite lookup_insert_eq. Qed.

Lemma marked_live : live st1 (Dying cpu) (c_current c).
Proof. unfold live, dying. rewrite marked_lookup. left. unfold st1. fields. by rewrite Hc. Qed.

(** It dies alone. *)
Lemma kill_alone_Ok :
  exists st', ('(st, n) ← decrement_alive (t_owner th) st1;
     pr ← deref (s_processes st) (t_owner th);
     let st := if n =? 0 then put_process (t_owner th) (process_exit (t_exit_code th) pr).1 st else st in
     insert_deferred (c_current c) st) = Ok st' /\ sched_inv st' (Switching cpu) /\
    s_cpus st' = s_cpus st /\ s_threads st' !! c_current c = Some th1.
Proof.
  assert (Ht1 := marked_lookup).
  rewrite (decrement_alive_Ok st1 _ _ pr (c_current c) I1 Hp Hin marked_live). run.
  rewrite (deref_Ok _ _ (one_less pr)) by (fields; by rewrite lookup_insert_eq). run.
  assert (Hput : put_process (t_owner th) (process_exit (t_exit_code th) (one_less pr)).1
      (put_process (t_owner th) (one_less pr) st1) =
    put_process (t_owner th) (process_exit (t_exit_code th) (one_less pr)).1 st1).
  { unfold put_process, with_processes. fields. by rewrite insert_insert_eq. }
  rewrite Hput.
  set (pr' := if p_alive pr - 1 =? 0 then (process_exit (t_exit_code th) (one_less pr)).1 else one_less pr).
  assert (E : (if p_alive pr - 1 =? 0 then put_process (t_owner th) (process_exit (t_exit_code th) (one_less pr)).1 st1
    else put_process (t_owner th) (one_less pr) st1) = put_process (t_owner th) pr' st1).
  { unfold pr'. by destruct (_ =? 0). }
  rewrite E.
  assert (Hpr' : pr' = Process (p_state pr') (p_exit_code pr') (p_threads pr) (p_alive pr - 1) /\
    (p_state pr <> ALIVE -> p_state pr' <> ALIVE)).
  { unfold pr', process_exit. destruct (_ =? 0); [case_decide|]; done. }
  destruct Hpr' as [Epr Hst].
  destruct (bury_Ok st1 cpu c th1 pr (p_state pr') (p_exit_code pr') I1 Hc Ht1 eq_refl Hp Hst) as [E3 I3].
  cbv zeta in E3, I3. rewrite <- Epr in E3, I3. change (t_owner th1) with (t_owner th) in *. rewrite E3.
  eexists. by split_and!.
Qed.

(** What the killer relies on, in the state with its own death marked. *)
Lemma killer_facts :
  t_kill_all th = true ->
  killing st1 (t_owner th) pr /\
  forall t, t ∈ p_threads pr -> forall u, s_threads st1 !! t = Some u -> t_state u <> DEAD -> ~ freed st1 t.
Proof.
  intros Hk. split; [by apply (killing_self st cpu c th)|]. intros t Hint u Hu Hnd.
  assert (Ho : t_owner u = t_owner th).
  { destruct (pok_owned _ _ _ _ (inv_processes _ _ I1 _ _ Hp) t Hint) as (? & ? & ? & _). by simplify_eq. }
  unfold st1 in Hu. fields. destruct (decide (t = c_current c)) as [->|Hne].
  { rewrite lookup_insert_eq in Hu. by simplify_eq. }
  rewrite lookup_insert_ne in Hu by done. by apply (killer_first st cpu c th pr t u).
Qed.

(** It takes its process with it. *)
Lemma kill_process_Ok :
  t_kill_all th = true ->
  exists st', kill_threads (c_current c) (t_owner th) (p_threads pr) st1 = Ok st' /\
    sched_inv st' (Switching cpu) /\ s_cpus st' = s_cpus st /\ s_threads st' !! c_current c = Some th1.
Proof.
  intros Hk. assert (Ht1 := marked_lookup). destruct (killer_facts Hk) as [K1 Hfr].
  destruct (list_elem_of_split _ _ Hin) as (pre & post & Ets).
  assert (Hnd := pok_nodup _ _ _ _ (inv_processes _ _ I _ _ Hp)). rewrite Ets in Hnd |- *.
  apply NoDup_app in Hnd as (Hpre & Hdis & [Hcp Hpost]%NoDup_cons).
  assert (Hcpre : c_current c ∉ pre) by (intros H; apply (Hdis _ H); by left).
  rewrite kill_threads_app.
  destruct (kill_others_Ok (c_current c) pre st1 _ (t_owner th) pr I1) as (st2 & E2 & I2 & [C2 O2 (pr2 & K2 & P2)]).
  { split_and!; try done. intros t Htp. assert (t ∈ p_threads pr) by (rewrite Ets; set_solver).
    split_and!; [done| |by apply Hfr]. unfold dying, st1. fields. rewrite Hc. intros <-. done. }
  { done. }
  rewrite E2. run. cbn [kill_threads]. rewrite decide_True by done.
  destruct (O2 _ Hcpre) as [Et2 Ef2]. rewrite Ht1 in Et2.
  rewrite (decrement_alive_Ok st2 (Dying cpu) _ pr2 (c_current c) I2 (proj1 K2)); [run|by rewrite P2|].
  2:{ unfold live, dying. rewrite Et2, C2. left. unfold st1. fields. by rewrite Hc. }
  assert (Hc2 : s_cpus st2 !! cpu = Some c) by (by rewrite C2).
  destruct (bury_Ok st2 cpu c th1 pr2 (p_state pr2) (p_exit_code pr2) I2 Hc2 Et2 eq_refl (proj1 K2) id) as [E3 I3].
  cbv zeta in E3, I3. fold (one_less pr2) in E3, I3. change (t_owner th1) with (t_owner th) in E3, I3. rewrite E3. run.
  set (st3 := with_deferred _ _) in *.
  destruct (kill_others_Ok (c_current c) post st3 _ (t_owner th) (one_less pr2) I3) as (st4 & E4 & I4 & [C4 O4 _]); [|done|].
  { split_and!; [|done|].
    - destruct K2 as (H1 & H2 & H3). split_and!; try done. unfold st3. fields. by rewrite lookup_insert_eq.
    - intros t Htp. assert (t ∈ p_threads pr) by (rewrite Ets; set_solver).
      assert (t ∉ pre) by (intros Hin'; apply (Hdis _ Hin'); by right).
      split_and!; [unfold one_less; fields; by rewrite P2|by intros []|].
      unfold st3. fields. intros u Hu Hu'. destruct (O2 t) as [Eq1 Eq2]; [done|].
      rewrite Eq1 in Hu. change (~ freed st2 t). rewrite Eq2. by apply (Hfr t ltac:(done) u). }
  exists st4. split_and!; try done; [by rewrite C4|]. destruct (O4 _ Hcp) as [-> _]. done.
Qed.
End Kill.

Lemma kill_current_Ok st cpu c th :
  sched_inv st (Switching cpu) -> s_cpus st !! cpu = Some c ->
  s_threads st !! c_current c = Some th -> t_state th = RUNNING -> t_should_die th = true ->
  exists st' th', kill_current_thread (c_current c) st = Ok st' /\ sched_inv st' (Switching cpu) /\
    s_cpus st' = s_cpus st /\ s_threads st' !! c_current c = Some th' /\ t_state th' = DEAD.
Proof.
  intros I Hc Ht Hs Hd.
  assert (Hi : ~ is_idle st (c_current c)).
  { pose proof (inv_threads _ _ I _ _ Ht) as Hok. unfold thread_ok in Hok. rewrite Hs in Hok.
    intros Hi. destruct Hok as (_ & _ & _ & _ & _ & Hok). by rewrite Hok in Hd. }
  destruct (inv_owner _ _ I _ _ Ht Hi) as (pr & Hp & Hin).
  unfold kill_current_thread. rewrite (deref_Ok _ _ _ Ht). run.
  destruct (t_kill_all th) eqn:Hk; cbn [negb].
  - rewrite (deref_Ok _ _ pr) by done. run.
    destruct (kill_process_Ok st cpu c th pr I Hc Ht Hs Hd Hp Hin Hk) as (st' & ? & ? & ? & ?). by eexists _, _.
  - destruct (kill_alone_Ok st cpu c th pr I Hc Ht Hs Hd Hp Hin) as (st' & ? & ? & ? & ?). by eexists _, _.
Qed.
