(* ===== verification/SchedulerPick.v ===== *)
(** [Scheduler::pick_next]: it always succeeds, keeps the invariant, and serves the ready threads
    in the order in which they became ready. *)
From S2P Require Import Prelude Scheduler SchedulerInv SchedulerOps SchedulerKill.
From stdpp Require Import gmap.
#[local] Open Scope Z_scope.

Lemma process_ok_frame st st' h h' p pr :
  s_threads st' = s_threads st -> (forall t, freed st' t <-> freed st t) ->
  (forall t, is_idle st' t <-> is_idle st t) -> (forall t, dying st' h' t <-> dying st h t) ->
  process_ok st h p pr -> process_ok st' h' p pr.
Proof.
  intros Et Ef Ei Ed [H1 H2 H3 H4 H5 H6 H7 H8]. split; rewrite ?Et; try done.
  - intros t Ht. destruct (H3 t Ht) as (th & ? & ? & ?). exists th. by rewrite Ei.
  - rewrite H4. unfold alive_count. do 2 f_equal. apply list_filter_iff. intros t.
    unfold live. rewrite Et. destruct (s_threads st !! t); [|done]. by rewrite Ef, Ed.
  - intros t th t' th' ? ? ? ? Hf. apply Ef in Hf. by apply (H7 t th t' th').
  - intros t th ? ? Hf. apply Ef in Hf. by apply (H8 t).
Qed.

(** The processor of the hole takes another current thread. *)
Lemma set_current_Ok st cpu c th next nth :
  sched_inv st (Switching cpu) -> s_cpus st !! cpu = Some c ->
  s_threads st !! c_current c = Some th -> t_state th <> RUNNING ->
  s_threads st !! next = Some nth -> t_state nth = READY ->
  next ∈ s_ready st \/ next = c_idle c ->
  sched_inv (with_cpus (insert cpu (Processor next (c_idle c))) st) (Switching cpu).
Proof.
  intros I Hc Ht Hs Hn Hr Hnext.
  pose proof (inv_threads _ _ I _ _ Hn) as Hok. unfold thread_ok in Hok. rewrite Hr in Hok.
  destruct Hok as (Hncur & _ & _ & _ & Hplace).
  set (st' := with_cpus _ st).
  assert (Hcpu : forall k d, s_cpus st' !! k = Some d <->
    k = cpu /\ d = Processor next (c_idle c) \/ k <> cpu /\ s_cpus st !! k = Some d).
  { intros k d. unfold st'. fields. destruct (decide (k = cpu)) as [->|];
      rewrite ?lookup_insert_eq, ?lookup_insert_ne by done; naive_solver. }
  assert (Hidle : forall t, is_idle st' t <-> is_idle st t).
  { intros t. split; intros (k & d & Hk & Ed).
    - apply Hcpu in Hk as [[-> ->]|[? Hk]]; [by exists cpu, c|by exists k, d].
    - destruct (decide (k = cpu)) as [->|]; [|by exists k, d; rewrite Hcpu; auto].
      exists cpu, (Processor next (c_idle c)). rewrite Hcpu. simplify_eq. auto. }
  assert (Hbey : forall t, current_beyond st' (Switching cpu) t <-> current_beyond st (Switching cpu) t).
  { intros t. split; intros (k & d & Hk & Ed & Hne); exists k, d; split_and!; try done.
    - by apply Hcpu in Hk as [[-> _]|[_ Hk]].
    - apply Hcpu. right. split; [|done]. intros ->. by apply Hne. }
  assert (Hno : forall t, t <> c_current c -> current_beyond st NoHole t -> current_beyond st' NoHole t).
  { intros t Hne (k & d & Hk & Ed & _). exists k, d. split_and!; [|done|by intros []].
    apply Hcpu. right. split; [|done]. intros ->. by simplify_eq. }
  assert (Hon : forall t, t <> next -> current_beyond st' NoHole t -> current_beyond st NoHole t).
  { intros t Hne (k & d & Hk & Ed & _). apply Hcpu in Hk as [[-> ->]|[_ Hk]]; [by fields|].
    exists k, d. split_and!; try done. by intros []. }
  destruct I as [H1 H2 H3 H4 H5 H6 H7 H8 H9 H10 H11]. split; try done.
  - intros t u Hu. change (s_threads st !! t = Some u) in Hu.
    specialize (H1 t u Hu). revert H1. unfold thread_ok.
    destruct (t_state u) eqn:Hsu; rewrite ?Hbey, ?Hidle; cbn [dying]; try done.
    + intros (? & ?). split; [|done]. intros Hc'. apply Hon in Hc'; [done|]. intros ->. congruence.
    + intros (? & ?). split; [|done]. apply Hno; [|done]. intros ->. congruence.
  - intros k d [[-> ->]|[_ Hk]]%Hcpu; fields; [|by apply (H7 k)].
    split; [by eexists|]. by apply (H7 cpu c Hc).
  - intros k d k' d' [[-> ->]|[Hk1 Hk]]%Hcpu [[-> ->]|[Hk2 Hk']]%Hcpu; try done; fields.
    + intros [E|[E|E]].
      * exfalso. apply Hncur. exists k', d'. split_and!; try done. by intros ->.
      * apply (H8 cpu c k' d' Hc Hk'). tauto.
      * destruct Hnext as [Hn'|Hn'].
        -- exfalso. assert (is_idle st next) by (by exists k', d').
           destruct Hplace as [?|[?|?]]; tauto.
        -- apply (H8 cpu c k' d' Hc Hk'). right. left. congruence.
    + intros [E|[E|E]].
      * exfalso. apply Hncur. exists k, d. split_and!; try done. by intros ->.
      * apply (H8 k d cpu c Hk Hc). tauto.
      * apply (H8 k d cpu c Hk Hc). tauto.
    + by apply (H8 k d k' d').
  - intros t u Hu Hi. rewrite Hidle in Hi. by apply (H10 t).
  - intros p pr Hp. eapply process_ok_frame; [..|by apply H11]; done.
Qed.

(** [Thread::activate] of the next thread closes the hole. *)
Lemma run_next_Ok st cpu c th next nth r :
  sched_inv st (Switching cpu) -> s_cpus st !! cpu = Some c ->
  s_threads st !! c_current c = Some th -> t_state th <> RUNNING ->
  s_threads st !! next = Some nth -> t_state nth = READY ->
  next ∈ s_ready st \/ next = c_idle c ->
  (forall x, x ∈ r <-> x ∈ s_ready st /\ x <> next) -> NoDup r ->
  let st' := with_cpus (insert cpu (Processor next (c_idle c)))
               (put_thread next (set_state RUNNING nth) (with_ready (fun _ => r) st)) in
  activate cpu next (with_ready (fun _ => r) st) = Ok st' /\ sched_inv st' NoHole.
Proof.
  intros I0 Hc Ht Hs Hn Hrn Hnext Hr Hnd st'. split.
  { unfold activate. fields. rewrite (deref_Ok _ _ _ Hn). run. rewrite bool_decide_true by done. run.
    by rewrite (deref_Ok _ _ _ Hc). }
  assert (I := set_current_Ok st cpu c th next nth I0 Hc Ht Hs Hn Hrn Hnext).
  set (st1 := with_cpus _ st) in I.
  pose proof (inv_threads _ _ I _ _ Hn) as Hok. unfold thread_ok in Hok. rewrite Hrn in Hok.
  destruct Hok as (Hcur & Hdf & Hq & Htb & Hplace).
  assert (Hc1 : s_cpus st1 !! cpu = Some (Processor next (c_idle c))) by (unfold st1; fields; by rewrite lookup_insert_eq).
  assert (Hnf : ~ freed st next).
  { destruct Hplace as [(?&?&?&?)|[(?&?&?)|(?&?&?&?)]]; try done. destruct Hnext as [?|E]; [done|].
    exfalso. apply H. exists cpu, (Processor next (c_idle c)). by fields. }
  apply (sched_inv_change st1 _ (Switching cpu) NoHole next nth (set_state RUNNING nth) I). unfold st'.
  split; fields; try done; try old_order I; try by (intros; congruence).
  - intros t' Hne. split; intros (k & d & Hk & Ed & Hh); exists k, d; split_and!; try done; [|by intros []].
    intros <-. rewrite Hc1 in Hk. by simplify_eq.
  - intros t' Hne. rewrite Hr. tauto.
  - apply (NoDup_app r). split_and!; [done| |].
    + intros x [Hx _]%Hr. by apply (proj1 (proj2 (proj1 (NoDup_app _ _) (inv_nodup _ _ I0)))).
    + by apply (proj1 (NoDup_app _ _) (inv_nodup _ _ I0)).
  - intros b1 blk1 Hb1. exists blk1. split_and!; try done; by apply (inv_blockers _ _ I b1).
  - intros b1 Hb1. destruct (inv_sleeping _ _ I b1 Hb1) as (blk1 & u & ? & ? & Hu & Hsu & ?).
    exists blk1. split; [done|]. intros E. rewrite E in Hu. unfold st1 in Hu. fields. congruence.
  - unfold thread_ok. fields. split_and!; try done.
    + exists cpu, (Processor next (c_idle c)). split_and!; try done. by intros [].
    + rewrite Hr. tauto.
    + by left.
    + intros Hid. change (is_idle st1 next) in Hid. destruct Hplace as [?|[?|?]]; tauto.
  - by left.
  - destruct Hplace as [(?&?&?&?)|Hplace]; [by left|].
    assert (~ is_idle st1 next) by tauto. keep_process nth (set_state RUNNING nth).
    unfold count_live. rewrite !decide_True; [done| |].
    + unfold live. unfold st1. fields. rewrite Hn, Hrn. naive_solver.
    + unfold live. fields. rewrite lookup_insert_eq. right. by fields.
Qed.

(** The current thread is preempted: it becomes ready, at the back of the queue unless it is the
    idle thread. *)
Lemma preempt_Ok st cpu c th r :
  sched_inv st (Switching cpu) -> s_cpus st !! cpu = Some c ->
  s_threads st !! c_current c = Some th -> t_state th = RUNNING ->
  t_requested th = UNDEFINED -> t_blocker th = None ->
  (c_current c = c_idle c /\ r = s_ready st \/
   c_current c <> c_idle c /\ r = s_ready st ++ [c_current c]) ->
  sched_inv (put_thread (c_current c) (set_state READY th) (with_ready (fun _ => r) st)) (Switching cpu).
Proof.
  intros I Hc Ht Hs Hq Htb Hr.
  pose proof (inv_threads _ _ I _ _ Ht) as Hok. unfold thread_ok in Hok. rewrite Hs in Hok.
  destruct Hok as (Hcur & Hnr & Hnd & Hf & _ & Hdie).
  assert (Hidle : is_idle st (c_current c) <-> c_current c = c_idle c).
  { split; [|intros E; by exists cpu, c]. intros (k & d & Hk & Ed).
    assert (cpu = k) as <- by (apply (inv_current _ _ I cpu c k d Hc Hk); by right; right). by simplify_eq. }
  assert (Hmem : forall t, t <> c_current c -> t ∈ r <-> t ∈ s_ready st).
  { intros t Hne. destruct Hr as [[_ ->]|[_ ->]]; set_solver. }
  apply (sched_inv_change st _ (Switching cpu) (Switching cpu) (c_current c) th (set_state READY th) I).
  split; fields; try done; try old_order I; try by (intros; congruence).
  - destruct Hr as [[_ ->]|[_ ->]]; [apply I|]. apply nodup_snoc; [apply I|].
    unfold freed in Hf. rewrite !elem_of_app. tauto.
  - intros b1 blk1 Hb1. exists blk1. split_and!; try done; by apply (inv_blockers _ _ I b1).
  - intros b1 Hb1. destruct (inv_sleeping _ _ I b1 Hb1) as (blk1 & u & ? & ? & Hu & Hsu & ?).
    exists blk1. split; [done|]. intros E. rewrite E in Hu. congruence.
  - unfold thread_ok. fields. split_and!; try done.
    + intros (k & d & Hk & Ed & Hne). apply Hne. cbn [hole_at].
      apply (inv_current _ _ I cpu c k d Hc Hk). by left.
    + change (is_idle _ _) with (is_idle st (c_current c)).
      destruct Hr as [[E ->]|[E ->]]; [left|right; left]; split_and!; try done; try tauto. set_solver.
  - by right.
  - destruct Hr as [[E ->]|[E ->]]; [left; tauto|]. assert (~ is_idle st (c_current c)) by tauto.
    keep_process th (set_state READY th). apply (count_live_same _ _ _ _ th (set_state READY th)); try done.
    + fields. by rewrite lookup_insert_eq.
    + fields. rewrite Hs. naive_solver.
Qed.

(** A thread that at most became ready or running. *)
Definition same_thread (a b : thread) : Prop :=
  t_owner b = t_owner a /\ t_requested b = t_requested a /\ t_blocker b = t_blocker a /\
  t_should_die b = t_should_die a /\ t_invulnerable b = t_invulnerable a /\
  (t_state b = BLOCKED <-> t_state a = BLOCKED) /\
  (t_state b = UNDEFINED <-> t_state a = UNDEFINED).

Definition same_threads (st st' : sched) : Prop :=
  forall t, option_Forall2 same_thread (s_threads st !! t) (s_threads st' !! t).

Lemma same_thread_refl a : same_thread a a.
Proof. by unfold same_thread. Qed.
Lemma same_thread_trans a b c : same_thread a b -> same_thread b c -> same_thread a c.
Proof. unfold same_thread. intros (? & ? & ? & ? & ? & ? & ?) (? & ? & ? & ? & ? & ? & ?). split_and!; try congruence; tauto. Qed.

Lemma same_threads_refl st : same_threads st st.
Proof. intros t. destruct (s_threads st !! t); constructor. apply same_thread_refl. Qed.
Lemma same_threads_trans a b c : same_threads a b -> same_threads b c -> same_threads a c.
Proof.
  intros H1 H2 t. specialize (H1 t). specialize (H2 t).
  destruct (s_threads a !! t), (s_threads b !! t), (s_threads c !! t);
    inversion H1; inversion H2; subst; constructor. by eapply same_thread_trans.
Qed.

Lemma same_threads_put st st' t th th' :
  s_threads st' = <[ t := th' ]> (s_threads st) -> s_threads st !! t = Some th -> same_thread th th' ->
  same_threads st st'.
Proof.
  intros E Ht H x. rewrite E. destruct (decide (x = t)) as [->|].
  - rewrite Ht, lookup_insert_eq. by constructor.
  - rewrite lookup_insert_ne by done. apply same_threads_refl.
Qed.

(** The queue [pick_next] takes the next thread from. *)
Definition run_queue (c : processor) (th : thread) (st : sched) : list nat :=
  s_ready st ++
  (if bool_decide (t_state th = RUNNING) && negb (bool_decide (c_current c = c_idle c))
   then [c_current c] else []).

Record switched (st st' : sched) (cpu : nat) (c : processor) (th : thread) : Prop := {
  sw_ready : s_ready st' = tail (run_queue c th st);
  sw_cpus : s_cpus st' = <[ cpu := Processor (hd (c_idle c) (run_queue c th st)) (c_idle c) ]> (s_cpus st);
  sw_sleeping : s_sleeping st' = s_sleeping st;
  sw_blockers : s_blockers st' = s_blockers st;
  sw_deferred : s_deferred st' = s_deferred st;
  sw_same : same_threads st st';
  sw_threads : forall t, t <> c_current c \/ t_state th <> RUNNING ->
    t <> hd (c_idle c) (run_queue c th st) ->
    s_threads st' !! t = s_threads st !! t }.

Lemma idle_ready st cpu c th :
  sched_inv st (Switching cpu) -> s_cpus st !! cpu = Some c -> s_threads st !! c_idle c = Some th ->
  c_current c <> c_idle c -> t_state th = READY.
Proof.
  intros I Hc Ht Hne. destruct (inv_cpus _ _ I cpu c Hc) as (_ & th' & ? & [Hs|Hs]); simplify_eq; [|done].
  pose proof (inv_threads _ _ I _ _ Ht) as Hok. unfold thread_ok in Hok. rewrite Hs in Hok.
  destruct Hok as ((k & d & Hk & Ed & _) & _). exfalso. apply Hne.
  assert (k = cpu) as -> by (apply (inv_current _ _ I k d cpu c Hk Hc); tauto). by simplify_eq.
Qed.

Lemma ready_READY st h t l :
  sched_inv st h -> s_ready st = t :: l ->
  exists th, s_threads st !! t = Some th /\ t_state th = READY /\ ~ is_idle st t.
Proof.
  intros I E. destruct (inv_listed _ _ I t) as [th Ht]; [rewrite E; by left|].
  pose proof (inv_threads _ _ I _ _ Ht) as Hok. exists th. split; [done|].
  assert (t ∈ s_ready st) by (rewrite E; by left).
  unfold thread_ok in Hok. destruct (t_state th); tauto.
Qed.

Lemma NoDup_ready st h : sched_inv st h -> NoDup (s_ready st).
Proof. intros I. by apply (proj1 (NoDup_app _ _) (inv_nodup _ _ I)). Qed.

Lemma switch_away_Ok st cpu c th next r :
  sched_inv st (Switching cpu) -> s_cpus st !! cpu = Some c ->
  s_threads st !! c_current c = Some th -> t_state th <> RUNNING ->
  (c_current c <> c_idle c \/ s_ready st <> []) ->
  next = hd (c_idle c) (s_ready st) -> r = tail (s_ready st) ->
  exists st', activate cpu next (with_ready (fun _ => r) st) = Ok st' /\ sched_inv st' NoHole /\
    s_ready st' = r /\ s_cpus st' = <[ cpu := Processor next (c_idle c) ]> (s_cpus st) /\
    s_sleeping st' = s_sleeping st /\ s_blockers st' = s_blockers st /\ s_deferred st' = s_deferred st /\
    same_threads st st' /\ (forall t, t <> next -> s_threads st' !! t = s_threads st !! t).
Proof.
  intros I Hc Ht Hs Hor -> ->.
  assert (exists nth, s_threads st !! hd (c_idle c) (s_ready st) = Some nth /\ t_state nth = READY /\
    (forall x, x ∈ tail (s_ready st) <-> x ∈ s_ready st /\ x <> hd (c_idle c) (s_ready st)) /\
    (hd (c_idle c) (s_ready st) ∈ s_ready st \/ hd (c_idle c) (s_ready st) = c_idle c))
    as (nth & Hn & Hr & Hmem & Hin).
  { destruct (s_ready st) as [|t l] eqn:E; cbn [hd tail].
    - destruct (inv_cpus _ _ I cpu c Hc) as (_ & u & Hu & _). exists u.
      split_and!; [done|apply (idle_ready st cpu c u); try done; tauto|set_solver|by right].
    - destruct (ready_READY st _ t l I E) as (u & ? & ? & _). exists u.
      assert (Hnd := NoDup_ready _ _ I). rewrite E in Hnd. apply NoDup_cons in Hnd as [Hnot _].
      split_and!; try done; [|left; by left]. intros x. rewrite elem_of_cons. naive_solver. }
  destruct (run_next_Ok st cpu c th _ nth (tail (s_ready st)) I Hc Ht Hs Hn Hr Hin Hmem) as [E I'].
  { assert (Hnd := NoDup_ready _ _ I). destruct (s_ready st); [constructor|]. by apply NoDup_cons in Hnd as [_ ?]. }
  eexists. split; [exact E|]. split; [exact I'|]. fields. split_and!; try done.
  - eapply same_threads_put; [done|exact Hn|]. unfold same_thread. fields. by rewrite Hr.
  - intros t Hne. by rewrite lookup_insert_ne.
Qed.

Lemma requeue_Ok st c th :
  (c_current c ∉ s_ready st) -> (c_current c ∉ s_deferred st) -> ~ freed st (c_current c) ->
  (if bool_decide (t_state th = RUNNING) && negb (bool_decide (c_current c = c_idle c))
   then insert_ready (c_current c) st else Ok st) = Ok (with_ready (fun _ => run_queue c th st) st).
Proof.
  intros Hr Hd Hf. unfold run_queue. destruct (_ && _).
  - unfold insert_ready. by rewrite not_on_a_list.
  - rewrite app_nil_r. by destruct st.
Qed.

(** A current thread that can go on, and a current thread that cannot. *)
Lemma switch_running_Ok st cpu c th :
  sched_inv st (Switching cpu) -> s_cpus st !! cpu = Some c ->
  s_threads st !! c_current c = Some th ->
  t_state th = RUNNING -> t_requested th = UNDEFINED -> t_blocker th = None ->
  exists st', switch_to_next cpu c st = Ok st' /\ sched_inv st' NoHole /\ switched st st' cpu c th.
Proof.
  intros I Hc Ht Hs Hq Htb. unfold switch_to_next. rewrite (deref_Ok _ _ _ Ht). run.
  pose proof (inv_threads _ _ I _ _ Ht) as Hok. unfold thread_ok in Hok. rewrite Hs in Hok.
  destruct Hok as (Hcur & Hnr & Hnd & Hf & _ & _).
  rewrite requeue_Ok by done. run. unfold pick_next_thread. fields.
  assert (HQ : c_current c = c_idle c /\ run_queue c th st = s_ready st \/
    c_current c <> c_idle c /\ run_queue c th st = s_ready st ++ [c_current c]).
  { unfold run_queue. rewrite bool_decide_true by done. case_bool_decide; [left|right]; [by rewrite app_nil_r|done]. }
  assert (I1 := preempt_Ok st cpu c th _ I Hc Ht Hs Hq Htb HQ). set (st1 := put_thread _ _ _) in I1.
  assert (Hgo : c_current c <> hd (c_idle c) (run_queue c th st) ->
    exists st', (st0 ← deactivate (c_current c) (with_ready (fun _ => tail (run_queue c th st)) st);
      activate cpu (hd (c_idle c) (run_queue c th st)) st0) = Ok st' /\ sched_inv st' NoHole /\ switched st st' cpu c th).
  { intros Hne. unfold deactivate. fields. rewrite (deref_Ok _ _ _ Ht). run. rewrite bool_decide_true by done. cbn [negb]. run.
    destruct (switch_away_Ok st1 cpu c (set_state READY th) (hd (c_idle c) (run_queue c th st)) (tail (run_queue c th st)) I1 Hc)
      as (st' & E & I' & E1 & E2 & E3 & E4 & E5 & E7 & E6); try done.
    { unfold st1. fields. by rewrite lookup_insert_eq. }
    { destruct (run_queue c th st) eqn:EQ; [left|right]; [by cbn in Hne|]. unfold st1. by fields. }
    exists st'. split_and!; [exact E|done|]. split; try done.
    { eapply same_threads_trans; [|exact E7]. eapply same_threads_put; [done|exact Ht|].
      unfold same_thread. fields. by rewrite Hs. }
    intros t H1 H2. rewrite E6 by done. unfold st1. fields. rewrite lookup_insert_ne; [done|].
    intros <-. by destruct H1. }
  assert (Hstay : with_ready (fun _ => s_ready st) st = st) by (by destruct st).
  destruct (run_queue c th st) as [|t l] eqn:EQ.
  - destruct HQ as [[E EQ']|[E EQ']]; [|symmetry in EQ'; by apply app_eq_nil in EQ' as [_ ?]].
    rewrite <- E, decide_True by done. rewrite EQ', Hstay. exists st. split_and!; try done.
    + by apply (sched_inv_close st cpu c th).
    + split; rewrite ?EQ; try done; [|apply same_threads_refl].
      cbn [hd]. rewrite <- E. rewrite insert_id; [done|]. rewrite Hc. by destruct c; fields; subst.
  - case_decide as E; [|by apply Hgo].
    assert (s_ready st = [] /\ t = c_current c /\ l = [] ) as (Er & _ & ->).
    { destruct HQ as [[_ EQ']|[_ EQ']]; destruct (s_ready st) as [|x y] eqn:Er; simplify_eq; set_solver. }
    exists st. split_and!.
    + f_equal. destruct st; fields; by subst.
    + by apply (sched_inv_close st cpu c th).
    + split; rewrite ?EQ; try done; [|apply same_threads_refl].
      cbn [hd]. rewrite <- E. rewrite insert_id; [done|]. rewrite Hc. by destruct c.
Qed.

Lemma switch_to_next_Ok st cpu c th :
  sched_inv st (Switching cpu) -> s_cpus st !! cpu = Some c ->
  s_threads st !! c_current c = Some th ->
  (t_state th = RUNNING /\ t_requested th = UNDEFINED /\ t_blocker th = None \/
   (t_state th = BLOCKED \/ t_state th = DEAD)) ->
  exists st', switch_to_next cpu c st = Ok st' /\ sched_inv st' NoHole /\ switched st st' cpu c th.
Proof.
  intros I Hc Ht [(? & ? & ?)|Hs]; [by apply switch_running_Ok|].
  pose proof (inv_threads _ _ I _ _ Ht) as Hok.
  assert (t_state th <> RUNNING /\ ~ is_idle st (c_current c) /\ (c_current c ∉ s_ready st)) as (Hnr & Hi & Hr).
  { unfold thread_ok in Hok. destruct Hs as [Hs|Hs]; rewrite Hs in *; naive_solver. }
  assert (Hne : c_current c <> c_idle c) by (intros E; apply Hi; by exists cpu, c).
  unfold switch_to_next. rewrite (deref_Ok _ _ _ Ht). run.
  rewrite bool_decide_false by done. cbn [andb]. run.
  assert (EQ : run_queue c th st = s_ready st).
  { unfold run_queue. rewrite bool_decide_false by done. by rewrite app_nil_r. }
  destruct (switch_away_Ok st cpu c th (hd (c_idle c) (s_ready st)) (tail (s_ready st)) I Hc Ht Hnr)
      as (st' & E & I' & E1 & E2 & E3 & E4 & E5 & E7 & E6); try done; [by left|].
  assert (Hne' : c_current c <> hd (c_idle c) (s_ready st)).
  { destruct (s_ready st) as [|t l]; [done|]. cbn. intros <-. apply Hr. by left. }
  exists st'. split_and!; [|done|split; rewrite ?EQ; auto]. rewrite <- E.
  assert (Est : pick_next_thread c st = (hd (c_idle c) (s_ready st), with_ready (fun _ => tail (s_ready st)) st)).
  { unfold pick_next_thread. destruct st as [? ? ? ? ? [|? ?] ? ? ? ?]; done. }
  rewrite Est. rewrite decide_False by done. unfold deactivate. fields. rewrite (deref_Ok _ _ _ Ht). run.
  by rewrite bool_decide_false.
Qed.

(** What [pick_next] does to the queues. *)
Lemma pick_next_Ok st cpu c now th :
  sched_inv st NoHole -> s_cpus st !! cpu = Some c -> s_threads st !! c_current c = Some th ->
  exists st' st2 th2, pick_next cpu now st = Ok st' /\ sched_inv st' NoHole /\
    (exists st1, frees st st1 /\ wakes now st1 st2) /\
    (t_should_die th && negb (t_invulnerable th) = false ->
     exists st3, requested st2 st3 (c_current c) th th2 /\ switched st3 st' cpu c th2).
Proof.
  intros I Hc Ht. unfold pick_next. rewrite (deref_Ok _ _ _ Hc). run.
  assert (Hs : t_state th = RUNNING).
  { pose proof (inv_threads _ _ I _ _ Ht) as Hok. unfold thread_ok in Hok.
    assert (current_beyond st NoHole (c_current c)) by (exists cpu, c; split_and!; try done; by intros []).
    destruct (t_state th); tauto. }
  destruct (free_deferred_Ok st _ (sched_inv_hole st cpu I)) as (st1 & E1 & I1 & F1 & _). rewrite E1. run.
  destruct (wake_loop_Ok now st1 _ _ I1 eq_refl) as (st2 & E2 & I2 & W2).
  unfold wake_ready_threads. rewrite E2. run.
  assert (Ht2 : s_threads st2 !! c_current c = Some th).
  { apply (wk_threads _ _ _ W2); [|congruence]. by rewrite (fr_threads _ _ F1). }
  assert (Hc2 : s_cpus st2 !! cpu = Some c) by (by rewrite (wk_cpus _ _ _ W2), (fr_cpus _ _ F1)).
  rewrite (deref_Ok _ _ _ Ht2). run. destruct (_ && _) eqn:Ed.
  - apply andb_true_iff in Ed as [Ed _].
    destruct (kill_current_Ok st2 cpu c th I2 Hc2 Ht2 Hs Ed) as (st3 & th3 & E3 & I3 & C3 & T3 & D3). rewrite E3. run.
    destruct (switch_to_next_Ok st3 cpu c th3 I3) as (st' & E' & I' & _); [by rewrite C3|done|tauto|].
    exists st', st2, th3. split_and!; try done. by exists st1.
  - destruct (apply_request_Ok st2 cpu c th I2 Hc2 Ht2 Hs) as (st3 & th3 & E3 & I3 & R3). rewrite E3. run.
    destruct (switch_to_next_Ok st3 cpu c th3 I3) as (st' & E' & I' & S'); try done.
    { by rewrite (rq_cpus _ _ _ _ _ R3). }
    { by rewrite (rq_thread _ _ _ _ _ R3), lookup_insert_eq. }
    { destruct (rq_state _ _ _ _ _ R3) as [Hb|Hr]; [tauto|]. left. split; [done|]. by apply (rq_done _ _ _ _ _ R3). }
    exists st', st2, th3. split_and!; try done; [by exists st1|]. intros _. by exists st3.
Qed.
