(* ===== verification/SchedulerSteps.v ===== *)
(** The scheduler as a state machine: the operations of all processors in any order, and what
    holds in every state they reach. *)
From S2P Require Import Prelude Scheduler SchedulerInv SchedulerOps SchedulerKill SchedulerPick.
From stdpp Require Import gmap.
#[local] Open Scope Z_scope.

(** ** The other operations keep the invariant *)

Lemma current_running st cpu c :
  sched_inv st NoHole -> s_cpus st !! cpu = Some c ->
  exists th, s_threads st !! c_current c = Some th /\ t_state th = RUNNING.
Proof.
  intros I Hc. destruct (inv_cpus _ _ I cpu c Hc) as [[th Ht] _]. exists th. split; [done|].
  pose proof (inv_threads _ _ I _ _ Ht) as Hok. unfold thread_ok in Hok.
  assert (current_beyond st NoHole (c_current c)) by (exists cpu, c; split_and!; try done; by intros []).
  destruct (t_state th); tauto.
Qed.

(** The address [b] is not the one of a blocker in use. *)
Definition blocker_free (st : sched) (b : nat) : Prop :=
  forall t th, s_threads st !! t = Some th -> t_blocker th <> Some b.

Lemma new_blocker_Ok st b blk :
  sched_inv st NoHole -> blocker_free st b -> b_should_block blk = true ->
  b_result blk = RESULT_UNDEFINED -> sched_inv (put_blocker b blk st) NoHole.
Proof.
  intros I Hfree Hsb Hres.
  assert (Hns : b ∉ s_sleeping st).
  { intros Hin. destruct (inv_sleeping _ _ I b Hin) as (? & th & ? & ? & Ht & ? & ?). by apply (Hfree _ _ Ht). }
  assert (Hlk : forall x, x ∈ s_sleeping st -> s_blockers (put_blocker b blk st) !! x = s_blockers st !! x).
  { intros x Hx. fields. rewrite lookup_insert_ne; [done|]. by intros ->. }
  assert (Hw : forall x, x ∈ s_sleeping st -> wake_time_of (put_blocker b blk st) x = wake_time_of st x).
  { intros x Hx. unfold wake_time_of. by rewrite Hlk. }
  destruct I as [H1 H2 H3 H4 H5 H6 H7 H8 H9 H10 H11]. split; try done.
  - intros t th Ht. apply (thread_ok_frame st _ NoHole NoHole); try done; [|by apply H1].
    intros b' blk' (Hb' & Hbb & Hbt). split; [|done]. split_and!; try done. fields.
    rewrite lookup_insert_ne; [done|]. intros <-. by apply (Hfree t th).
  - intros x Hx. rewrite Hlk by done. by apply H4.
  - fields. clear -H6 Hw. revert Hw H6. generalize (s_sleeping st). intros l Hw Hs.
    induction Hs as [|x l Hl IH Hx]; [constructor|]. constructor.
    + apply IH. intros y Hy. apply Hw. by right.
    + apply Forall_forall. intros y Hy. unfold wakes_no_later. rewrite !Hw by (by left || by right).
      by apply (proj1 (Forall_forall _ _) Hx).
  - intros x u Hx. fields. destruct (decide (x = b)) as [->|].
    + rewrite lookup_insert_eq in Hx. by simplify_eq.
    + rewrite lookup_insert_ne in Hx by done. by apply (H9 x).
  - intros p pr Hp. eapply process_ok_frame; [..|by apply H11]; done.
Qed.

(** [Thread::block]: the current thread asks to be blocked. *)
Lemma scheduler_block_Ok st cpu c th b blk :
  sched_inv st NoHole -> s_cpus st !! cpu = Some c -> s_threads st !! c_current c = Some th ->
  c_current c <> c_idle c -> t_blocker th = None ->
  s_blockers st !! b = Some blk -> b_thread blk = c_current c ->
  exists st', scheduler_block cpu b st = Ok st' /\ sched_inv st' NoHole /\
    st' = put_thread (c_current c) (request_state BLOCKED UNDEFINED (set_blocker (Some b) th)) st.
Proof.
  intros I Hc Ht Hni Htb Hb Hbt. unfold scheduler_block, thread_block. rewrite (deref_Ok _ _ _ Hc). run.
  rewrite (deref_Ok _ _ _ Ht). run. rewrite bool_decide_true by done. run. eexists. split_and!; [done| |done].
  destruct (current_running st cpu c I Hc) as (u & Hu & Hs). rewrite Ht in Hu. injection Hu as <-.
  pose proof (inv_threads _ _ I _ _ Ht) as Hok. unfold thread_ok in Hok. rewrite Hs in Hok.
  destruct Hok as (Hcur & Hnr & Hnd & Hf & Hrq & Hdie).
  assert (Hq : t_requested th = UNDEFINED).
  { destruct Hrq as [[? _]|(_ & _ & ? & ? & (? & _) & _)]; congruence. }
  assert (Hi : ~ is_idle st (c_current c)).
  { intros (k & d & Hk & Ed). apply Hni.
    assert (cpu = k) as <- by (apply (inv_current _ _ I cpu c k d Hc Hk); by right; right). by simplify_eq. }
  assert (Hns : b ∉ s_sleeping st).
  { intros Hin. destruct (inv_sleeping _ _ I b Hin) as (? & u & ? & ? & Hu & ? & ?). simplify_eq. rewrite Hbt in Hu. congruence. }
  set (th1 := request_state _ _ _). assert (Hq1 : t_requested th1 = BLOCKED) by (unfold th1; fields; by rewrite Hq).
  apply (sched_inv_change st _ NoHole NoHole (c_current c) th th1 I).
  split; fields; try done; try old_order I; try by (intros; congruence).
  - intros b1 blk1 Hb1. exists blk1. split_and!; try done; by apply (inv_blockers _ _ I b1).
  - intros b1 Hb1. destruct (inv_sleeping _ _ I b1 Hb1) as (blk1 & u & ? & ? & Hu & Hsu & ?).
    exists blk1. split; [done|]. intros E. rewrite E in Hu. congruence.
  - assert (Hs1 : t_state th1 = RUNNING) by done. unfold thread_ok. rewrite Hs1. split_and!; try done.
    right. split_and!; try done. by exists b, blk.
  - keep_process th th1. apply (count_live_same _ _ _ _ th th1); try done.
    fields. by rewrite lookup_insert_eq.
Qed.

Lemma current_not_idle st cpu c :
  sched_inv st NoHole -> s_cpus st !! cpu = Some c -> c_current c <> c_idle c ->
  ~ is_idle st (c_current c).
Proof.
  intros I Hc Hni (k & d & Hk & Ed). apply Hni.
  assert (cpu = k) as <- by (apply (inv_current _ _ I cpu c k d Hc Hk); by right; right). by simplify_eq.
Qed.

Lemma exit_thread_Ok st cpu c code :
  sched_inv st NoHole -> s_cpus st !! cpu = Some c -> c_current c <> c_idle c ->
  exists st', exit_thread cpu code st = Ok st' /\ sched_inv st' NoHole.
Proof.
  intros I Hc Hni. destruct (current_running st cpu c I Hc) as (th & Ht & Hs).
  unfold exit_thread. rewrite (deref_Ok _ _ _ Hc). run. rewrite (deref_Ok _ _ _ Ht). run.
  eexists. split; [done|]. apply exit_flag_Ok; try done. by apply (current_not_idle st cpu).
Qed.

(** [Thread::set_invulnerable] by the current thread. *)
Lemma invulnerable_Ok st cpu c th v :
  sched_inv st NoHole -> s_cpus st !! cpu = Some c -> s_threads st !! c_current c = Some th ->
  c_current c <> c_idle c -> sched_inv (put_thread (c_current c) (set_invulnerable v th) st) NoHole.
Proof.
  intros I Hc Ht Hni. assert (Hi := current_not_idle st cpu c I Hc Hni).
  apply (sched_inv_change st _ NoHole NoHole (c_current c) th (set_invulnerable v th) I).
  split; fields; try done; try old_order I; try by (intros; congruence).
  - intros b1 blk1 Hb1. exists blk1. split_and!; try done; by apply (inv_blockers _ _ I b1).
  - intros b1 Hb1. destruct (inv_sleeping _ _ I b1 Hb1) as (blk1 & u & ? & ? & Hu & Hsu & ?).
    exists blk1. split; [done|]. intros E. rewrite E in Hu. by simplify_eq.
  - exact (inv_threads _ _ I _ _ Ht).
  - keep_process th (set_invulnerable v th). apply (count_live_same _ _ _ _ th (set_invulnerable v th)); try done.
    fields. by rewrite lookup_insert_eq.
Qed.

(** [exit_process] and [crash] differ in the exit code they leave: [e] is the one of the process. *)
Lemma leave_process_Ok st cpu c th pr code e :
  sched_inv st NoHole -> s_cpus st !! cpu = Some c -> s_threads st !! c_current c = Some th ->
  c_current c <> c_idle c -> s_processes st !! t_owner th = Some pr ->
  let th' := thread_exit code (if decide (p_state pr = ALIVE) then kill_all_threads_on_exit th else th) in
  let s := if decide (p_state pr = ALIVE) then EXITING else p_state pr in
  sched_inv (put_thread (c_current c) th'
    (put_process (t_owner th) (Process s e (p_threads pr) (p_alive pr)) st)) NoHole.
Proof.
  intros I Hc Ht Hni Hp th' s. assert (Hi := current_not_idle st cpu c I Hc Hni).
  destruct (current_running st cpu c I Hc) as (u & Hu & Hs). rewrite Ht in Hu. injection Hu as <-.
  pose proof (inv_threads _ _ I _ _ Ht) as Hok. unfold thread_ok in Hok. rewrite Hs in Hok.
  destruct Hok as (Hcur & Hnr & Hnd & Hf & Hrq & Hdie).
  assert (Eo : t_owner th' = t_owner th) by (unfold th'; case_decide; done).
  assert (Es : t_state th' = t_state th) by (unfold th'; case_decide; done).
  assert (Eq : t_requested th' = t_requested th) by (unfold th'; case_decide; done).
  assert (Eb : t_blocker th' = t_blocker th) by (unfold th'; case_decide; done).
  apply (sched_inv_change st _ NoHole NoHole (c_current c) th th' I).
  split; fields; try done; try old_order I; try by (intros; congruence).
  - intros b1 blk1 Hb1. exists blk1. split_and!; try done; by apply (inv_blockers _ _ I b1).
  - intros b1 Hb1. destruct (inv_sleeping _ _ I b1 Hb1) as (blk1 & u & ? & ? & Hu' & Hsu & ?).
    exists blk1. split; [done|]. intros E. rewrite E in Hu'. congruence.
  - unfold thread_ok. rewrite Es, Hs, Eq, Eb. split_and!; try done.
    destruct Hrq as [?|(? & ? & b & blk & (? & ? & ?) & ?)]; [by left|right]. split_and!; try done.
    exists b, blk. unfold waits_on. by rewrite Eb.
  - right. split; [done|]. exists pr, (Process s e (p_threads pr) (p_alive pr)). fields. split_and!; try done.
    + assert (count_live (put_thread (c_current c) th' (put_process (t_owner th) (Process s e (p_threads pr) (p_alive pr)) st))
        NoHole (c_current c) = count_live st NoHole (c_current c)); [|lia].
      apply (count_live_same _ _ _ _ th th'); try done; [|by rewrite Es]. fields. by rewrite lookup_insert_eq.
    + unfold s. case_decide; done.
    + unfold th', s. case_decide; [right|left]; done.
Qed.

Lemma exit_process_Ok st cpu c th pr code :
  sched_inv st NoHole -> s_cpus st !! cpu = Some c -> s_threads st !! c_current c = Some th ->
  c_current c <> c_idle c -> s_processes st !! t_owner th = Some pr ->
  exists st', exit_process cpu code st = Ok st' /\ sched_inv st' NoHole.
Proof.
  intros I Hc Ht Hni Hp. unfold exit_process. rewrite (deref_Ok _ _ _ Hc). run.
  rewrite (deref_Ok _ _ _ Ht). run. rewrite (deref_Ok _ _ _ Hp). run.
  pose proof (leave_process_Ok st cpu c th pr code (if decide (p_state pr = ALIVE) then code else p_exit_code pr) I Hc Ht Hni Hp) as I'.
  cbv zeta in I'. revert I'. unfold process_exit.
  case_decide; intros I'; eexists; (split; [done|]); [exact I'|]. inv_as I'. by destruct pr.
Qed.

Lemma crash_Ok st cpu c th pr code :
  sched_inv st NoHole -> s_cpus st !! cpu = Some c -> s_threads st !! c_current c = Some th ->
  c_current c <> c_idle c -> s_processes st !! t_owner th = Some pr ->
  exists st', crash cpu code st = Ok st' /\ sched_inv st' NoHole.
Proof.
  intros I Hc Ht Hni Hp. unfold crash. rewrite (deref_Ok _ _ _ Hc). run.
  rewrite (deref_Ok _ _ _ Ht). run. rewrite (deref_Ok _ _ _ Hp). run.
  pose proof (leave_process_Ok st cpu c th pr (- code) (- code) I Hc Ht Hni Hp) as I'.
  cbv zeta in I'. revert I'. unfold process_exit.
  case_decide; intros I'; eexists; (split; [done|]); exact I'.
Qed.

(** ** Threads and processes come and go *)

Definition new_thread (p : nat) : thread := Thread p UNDEFINED UNDEFINED None false false false 0.

(** A new thread object of [p], which may be a new process. *)
Definition adds_thread (st : sched) (p t : nat) (pr' : process) : Prop :=
  s_threads st !! t = None /\
  match s_processes st !! p with
  | Some pr => pr' = Process (p_state pr) (p_exit_code pr) (p_threads pr ++ [t]) (p_alive pr) /\
      Z.of_nat (length (p_threads pr)) < 4294967295
  | None => pr' = Process ALIVE 0 [t] 0 /\
      forall t' u, s_threads st !! t' = Some u -> t_owner u <> p
  end.

Section Add.
Context (st : sched) (p t : nat) (pr' : process).
Context (I : sched_inv st NoHole) (A : adds_thread st p t pr').
Let st' := put_thread t (new_thread p) (put_process p pr' st).

Lemma add_lookup t' u :
  s_threads st' !! t' = Some u -> t' = t /\ u = new_thread p \/ t' <> t /\ s_threads st !! t' = Some u.
Proof.
  unfold st'. fields. destruct (decide (t' = t)) as [->|];
    rewrite ?lookup_insert_eq, ?lookup_insert_ne by done; naive_solver.
Qed.

Lemma add_keeps t' u : s_threads st !! t' = Some u -> s_threads st' !! t' = Some u.
Proof.
  intros H. unfold st'. fields. rewrite lookup_insert_ne; [done|]. intros <-. destruct A. congruence.
Qed.

Lemma add_unlisted : (t ∉ s_ready st) /\ (t ∉ s_deferred st) /\ ~ freed st t.
Proof.
  assert (H : t ∉ s_ready st ++ s_deferred st ++ s_to_free st ++ s_being_freed st).
  { intros Hin. destruct (inv_listed _ _ I t Hin) as [? ?]. destruct A. congruence. }
  unfold freed. rewrite !elem_of_app in H. tauto.
Qed.

Lemma add_not_running : ~ current_beyond st NoHole t /\ ~ is_idle st t.
Proof.
  pose proof A as [A0 _]. split.
  - intros (k & c & Hk & <- & _). destruct (inv_cpus _ _ I k c Hk) as [[? ?] _]. congruence.
  - intros (k & c & Hk & <-). destruct (inv_cpus _ _ I k c Hk) as (_ & ? & ? & _). congruence.
Qed.

Lemma add_live t' : live st' NoHole t' <-> live st NoHole t'.
Proof.
  unfold live. destruct (decide (t' = t)) as [->|].
  - unfold st'. fields. rewrite lookup_insert_eq. pose proof A as [-> _]. cbn [dying]. naive_solver.
  - unfold st'. fields. by rewrite lookup_insert_ne.
Qed.

Lemma add_process_ok p' q : s_processes st' !! p' = Some q -> process_ok st' NoHole p' q.
Proof.
  assert (Hl := add_lookup). assert (Hk := add_keeps). assert (Hnr := add_not_running).
  assert (Hul := add_unlisted). assert (Hlv := add_live). pose proof A as [At Ap].
  assert (Hfr : forall x, freed st' x <-> freed st x) by done.
  intros Hq. destruct (decide (p' = p)) as [->|Hne].
  - unfold st' in Hq. fields. rewrite lookup_insert_eq in Hq. injection Hq as <-.
    destruct (s_processes st !! p) as [pr|] eqn:Ep.
    + destruct Ap as [-> Hb]. destruct (inv_processes _ _ I p pr Ep) as [H1 H2 H3 H4 H5 H6 H7 H8].
      assert (Hnt : t ∉ p_threads pr) by (intros Hin; destruct (H3 t Hin) as (? & ? & _); congruence).
      split; fields; rewrite ?length_app; try (cbn; lia).
      * apply NoDup_app. split_and!; [done| |apply NoDup_singleton]. intros x Hx ->%list_elem_of_singleton. done.
      * intros x [Hx| ->%list_elem_of_singleton]%elem_of_app.
        -- destruct (H3 x Hx) as (u & ? & ? & ?). exists u. auto.
        -- exists (new_thread p). unfold st'. fields. rewrite lookup_insert_eq. split_and!; try done. apply Hnr.
      * rewrite H4. unfold alive_count. fields. rewrite filter_app. 
        rewrite (filter_cons_False _ t); [|rewrite Hlv; unfold live; rewrite At; by intros []].
        rewrite app_nil_r. do 2 f_equal. apply list_filter_iff. intros x. by rewrite Hlv.
      * intros x u [[-> ->]|[_ Hu]]%Hl; [done|]. by apply (H5 x).
      * intros x u y v [[-> ->]|[_ Hu]]%Hl ? [[-> ->]|[_ Hv]]%Hl ?; try done. by apply (H6 x u y v).
      * intros x u y v [[-> ->]|[_ Hu]]%Hl ? [[-> ->]|[_ Hv]]%Hl ?; try done.
        -- intros Hf. exfalso. by apply Hul.
        -- by apply (H7 x u y v).
      * intros x u [[-> ->]|[_ Hu]]%Hl ?; [intros Hf; exfalso; by apply Hul|]. by apply (H8 x u).
    + destruct Ap as [-> Hnone]. split; fields; try (cbn; lia).
      * apply NoDup_singleton.
      * intros x ->%list_elem_of_singleton. exists (new_thread p). unfold st'. fields.
        rewrite lookup_insert_eq. split_and!; try done. apply Hnr.
      * unfold alive_count. fields. rewrite (filter_cons_False _ t); [done|]. rewrite Hlv. unfold live. rewrite At. by intros [].
      * intros x u [[-> ->]|[_ Hu]]%Hl; [done|]. intros ?. by destruct (Hnone x u).
      * intros x u y v [[-> ->]|[_ Hu]]%Hl ? [[-> ->]|[_ Hv]]%Hl ?; try done. by destruct (Hnone x u).
      * intros x u y v [[-> ->]|[_ Hu]]%Hl ? [[-> ->]|[_ Hv]]%Hl ?; try done; [by destruct (Hnone y v)|by destruct (Hnone x u)].
      * intros x u [[-> ->]|[_ Hu]]%Hl ?; [intros Hf; exfalso; by apply Hul|]. by destruct (Hnone x u).
  - unfold st' in Hq. fields. rewrite lookup_insert_ne in Hq by done.
    destruct (inv_processes _ _ I p' q Hq) as [H1 H2 H3 H4 H5 H6 H7 H8]. split; try done.
    + intros x Hx. destruct (H3 x Hx) as (u & ? & ? & ?). exists u. auto.
    + rewrite H4. unfold alive_count. do 2 f_equal. apply list_filter_iff. intros x. by rewrite Hlv.
    + intros x u [[-> ->]|[_ Hu]]%Hl; [done|]. by apply (H5 x).
    + intros x u y v [[-> ->]|[_ Hu]]%Hl ? [[-> ->]|[_ Hv]]%Hl ?; try done. by apply (H6 x u y v).
    + intros x u y v [[-> ->]|[_ Hu]]%Hl ? [[-> ->]|[_ Hv]]%Hl ?; try done. by apply (H7 x u y v).
    + intros x u [[-> ->]|[_ Hu]]%Hl ?; [done|]. by apply (H8 x u).
Qed.

Lemma add_thread_Ok : sched_inv st' NoHole.
Proof.
  assert (Hl := add_lookup). assert (Hk := add_keeps). assert (Hnr := add_not_running).
  assert (Hul := add_unlisted). assert (Hp := add_process_ok). pose proof A as [At Ap].
  destruct I as [H1 H2 H3 H4 H5 H6 H7 H8 H9 H10 H11]. split; try done.
  - intros x u [[-> ->]|[_ Hu]]%Hl; [|by apply H1]. unfold thread_ok, new_thread. fields.
    split_and!; try done; try apply Hnr; apply Hul.
  - intros x Hx. destruct (H2 x Hx) as [u Hu]. exists u. by apply Hk.
  - intros b Hb. destruct (H4 b Hb) as (blk & u & ? & ? & ? & ? & ?). exists blk, u. auto.
  - intros k c Hkc. destruct (H7 k c Hkc) as ([u ?] & v & ? & ?). split; [|by exists v; auto]. exists u. auto.
  - intros x u [[-> ->]|[Hne Hu]]%Hl Hi.
    + exists pr'. unfold st', new_thread. fields. rewrite lookup_insert_eq. split; [done|].
      destruct (s_processes st !! p); destruct Ap as [-> _]; fields; set_solver.
    + destruct (H10 x u Hu Hi) as (pr & Hpr & Hin). unfold st'. fields.
      destruct (decide (t_owner u = p)) as [Eo|]; rewrite ?lookup_insert_ne by done; [|by exists pr].
      rewrite Eo, lookup_insert_eq. exists pr'. split; [done|]. rewrite <- Eo in *. rewrite Hpr in Ap.
      destruct Ap as [-> _]. fields. set_solver.
Qed.
End Add.

Lemma set_ready_Ok st p t th pr :
  sched_inv st NoHole -> s_threads st !! t = Some th -> t_state th = UNDEFINED -> t_owner th = p ->
  s_processes st !! p = Some pr ->
  exists st', set_ready_and_count p t st = Ok st' /\ sched_inv st' NoHole /\
    s_ready st' = s_ready st ++ [t].
Proof.
  intros I Ht Hs Ho Hp. pose proof (inv_threads _ _ I _ _ Ht) as Hok. unfold thread_ok in Hok. rewrite Hs in Hok.
  destruct Hok as (Hcur & Hi & Hnr & Hnd & Hf & Hq & Htb).
  unfold set_ready_and_count. rewrite (deref_Ok _ _ _ Ht). run. rewrite (deref_Ok _ _ _ Hp). run.
  unfold insert_ready. rewrite not_on_a_list by done. run. eexists. split; [done|]. split; [|done].
  assert (P := inv_processes _ _ I _ _ Hp).
  assert (Hal : 0 <= p_alive pr < 4294967295).
  { rewrite (pok_alive _ _ _ _ P). unfold alive_count. pose proof (pok_bound _ _ _ _ P).
    destruct (inv_owner _ _ I _ _ Ht Hi) as (pr0 & Hpr0 & Hin). rewrite Ho in Hpr0. simplify_eq.
    destruct (list_elem_of_split _ _ Hin) as (a & b & E). rewrite E in *. rewrite filter_app, length_app in *.
    rewrite (filter_cons_False _ t); [|unfold live; rewrite Ht, Hs; cbn [dying]; naive_solver].
    pose proof (length_filter (live st NoHole) a). pose proof (length_filter (live st NoHole) b). cbn [length] in *. lia. }
  apply (sched_inv_change st _ NoHole NoHole t th (set_state READY th) I).
  split; fields; try done; try old_order I; try by (intros; congruence).
  - intros t' Hne. set_solver.
  - apply nodup_snoc; [apply I|]. unfold freed in Hf. rewrite !elem_of_app. tauto.
  - intros b1 blk1 Hb1. exists blk1. split_and!; try done; by apply (inv_blockers _ _ I b1).
  - intros b1 Hb1. destruct (inv_sleeping _ _ I b1 Hb1) as (blk1 & u & ? & ? & Hu & Hsu & ?).
    exists blk1. split; [done|]. intros E. rewrite E in Hu. congruence.
  - unfold thread_ok. fields. split_and!; try done. right. left. split_and!; try done. set_solver.
  - right. split; [done|]. exists pr, (increment_alive_thread_count pr). rewrite Ho. split_and!; try done; try by left.
    + unfold count_live. rewrite decide_False; [|unfold live; rewrite Ht, Hs; cbn [dying]; naive_solver].
      rewrite decide_True; [|unfold live; fields; rewrite lookup_insert_eq; right; by fields].
      unfold increment_alive_thread_count. fields. unfold wrap32. rewrite Z.mod_small by lia. lia.
Qed.

Lemma create_thread_Ok st p t pr :
  sched_inv st NoHole -> s_processes st !! p = Some pr -> (p_state pr = ALIVE -> p ∈ s_registered st) ->
  s_threads st !! t = None -> Z.of_nat (length (p_threads pr)) < 4294967295 ->
  exists st' ok, create_thread p t st = Ok (st', ok) /\ sched_inv st' NoHole.
Proof.
  intros I Hp Hreg Ht Hb. unfold create_thread. rewrite (deref_Ok _ _ _ Hp). run.
  destruct (decide (p_state pr = ALIVE)) as [Hal|Hal].
  2:{ rewrite bool_decide_false by done. by exists st, false. }
  rewrite bool_decide_true by done. cbn [negb].
  set (pr' := Process _ _ _ _).
  assert (I1 : sched_inv (put_thread t (new_thread p) (put_process p pr' st)) NoHole).
  { apply add_thread_Ok; [done|]. split; [done|]. by rewrite Hp. }
  unfold register_thread. fold (new_thread p). set (st1 := put_thread _ _ _) in *.
  assert (Ht1 : s_threads st1 !! t = Some (new_thread p)) by (unfold st1; fields; by rewrite lookup_insert_eq).
  assert (Hp1 : s_processes st1 !! p = Some pr') by (unfold st1; fields; by rewrite lookup_insert_eq).
  rewrite (deref_Ok _ _ _ Ht1). run. change (t_owner (new_thread p)) with p.
  rewrite (deref_Ok _ _ _ Hp1). run. change (p_state pr') with (p_state pr). rewrite bool_decide_true by done.
  cbn [negb]. rewrite bool_decide_true by (by apply Hreg). run.
  destruct (set_ready_Ok st1 p t _ pr' I1 Ht1 eq_refl eq_refl Hp1) as (st' & E & I' & _). rewrite E. run.
  by exists st', true.
Qed.

Lemma create_supervisor_Ok st p t :
  sched_inv st NoHole -> s_processes st !! p = None -> (p ∉ s_registered st) ->
  (forall t' u, s_threads st !! t' = Some u -> t_owner u <> p) -> s_threads st !! t = None ->
  exists st', create_supervisor p t st = Ok st' /\ sched_inv st' NoHole.
Proof.
  intros I Hp Hreg Hown Ht. unfold create_supervisor, register_process. fold (new_thread p).
  set (pr' := Process ALIVE 0 [t] 0).
  assert (I1 : sched_inv (put_thread t (new_thread p) (put_process p pr' st)) NoHole).
  { apply add_thread_Ok; [done|]. split; [done|]. by rewrite Hp. }
  rewrite bool_decide_false by done. run.
  set (st1 := put_thread _ _ _) in *.
  assert (Ht1 : s_threads st1 !! t = Some (new_thread p)) by (unfold st1; fields; by rewrite lookup_insert_eq).
  assert (Hp1 : s_processes st1 !! p = Some pr') by (unfold st1; fields; by rewrite lookup_insert_eq).
  rewrite (deref_Ok _ _ _ Hp1). run. cbn [register_threads pr' p_threads].
  set (st2 := with_registered _ st1).
  assert (I2 : sched_inv st2 NoHole).
  { destruct I1 as [H1 H2 H3 H4 H5 H6 H7 H8 H9 H10 H11]. split; try done.
    intros q qr Hq. by eapply process_ok_frame; [..|apply H11]. }
  destruct (set_ready_Ok st2 p t _ pr' I2 Ht1 eq_refl eq_refl Hp1) as (st' & E & I' & _). rewrite E. run.
  by exists st'.
Qed.

(** The TaskFinalizer destroys the thread at the front of its queue. *)
Section Free.
Context (st : sched) (t : nat) (ts : list nat) (th : thread) (pr : process).
Context (I : sched_inv st NoHole) (Hq : s_being_freed st = t :: ts).
Context (Ht : s_threads st !! t = Some th) (Hp : s_processes st !! t_owner th = Some pr).
Let pr' := Process (p_state pr) (p_exit_code pr) (filter (fun x => x <> t) (p_threads pr)) (p_alive pr).
Let st' := with_threads (delete t) (put_process (t_owner th) pr' (with_being_freed (fun _ => ts) st)).

Lemma free_facts :
  freed st t /\ ~ current_beyond st NoHole t /\ ~ is_idle st t /\ ~ live st NoHole t /\
  (t ∉ s_ready st) /\ (t ∉ s_deferred st) /\ (t ∉ s_to_free st) /\ (t ∉ ts).
Proof.
  assert (Hf : freed st t) by (right; rewrite Hq; by left). assert (Hok := inv_threads _ _ I _ _ Ht).
  assert (Hnd := inv_nodup _ _ I). rewrite Hq in Hnd.
  assert (Hnd' : NoDup (t :: s_ready st ++ s_deferred st ++ s_to_free st ++ ts)).
  { eapply NoDup_perm; [|exact Hnd]. solve_Permutation. }
  apply NoDup_cons in Hnd' as [Hnot _]. rewrite !elem_of_app in Hnot.
  split_and!; try done; try tauto.
  - unfold thread_ok in Hok. destruct (t_state th); tauto.
  - unfold thread_ok in Hok. destruct (t_state th); try tauto; naive_solver.
  - unfold live. rewrite Ht. cbn [dying]. tauto.
Qed.

Lemma free_lookup t' u : s_threads st' !! t' = Some u <-> t' <> t /\ s_threads st !! t' = Some u.
Proof. unfold st'. fields. rewrite lookup_delete_Some. naive_solver. Qed.

Lemma free_freed t' : freed st' t' <-> t' <> t /\ freed st t'.
Proof.
  assert (F := free_facts). unfold freed, st'. fields. rewrite Hq, elem_of_cons. 
  destruct F as (_ & _ & _ & _ & _ & _ & ? & ?). destruct (decide (t' = t)) as [->|]; tauto.
Qed.

Lemma free_process_ok p q : s_processes st' !! p = Some q -> process_ok st' NoHole p q.
Proof.
  assert (Hl := free_lookup). assert (Hfr := free_freed). assert (F := free_facts).
  destruct F as (_ & _ & Hi & Hnl & _ & _ & _ & _).
  assert (Hlive : forall x, live st' NoHole x <-> x <> t /\ live st NoHole x).
  { intros x. unfold live. destruct (decide (x = t)) as [->|Hne].
    - destruct (s_threads st' !! t) eqn:E; [by apply Hl in E as [? _]|tauto].
    - destruct (s_threads st !! x) as [u|] eqn:E.
      + rewrite (proj2 (Hl x u)) by done. rewrite Hfr. cbn [dying]. tauto.
      + destruct (s_threads st' !! x) eqn:E'; [|tauto]. apply Hl in E' as [_ E']. congruence. }
  assert (Hcount : forall l : list nat, filter (live st' NoHole) l = filter (live st NoHole) l).
  { intros l. apply list_filter_iff. intros x. rewrite Hlive. split; [tauto|]. intros Hx. split; [|done]. by intros ->. }
  intros Hq'. assert (exists q0, s_processes st !! p = Some q0 /\ p_state q = p_state q0 /\ p_alive q = p_alive q0 /\
    p_threads q = filter (fun x => x <> t) (p_threads q0)) as (q0 & Hq0 & Es & Ea & Et).
  { unfold st' in Hq'. fields. destruct (decide (p = t_owner th)) as [->|Hne].
    - rewrite lookup_insert_eq in Hq'. injection Hq' as <-. by exists pr.
    - rewrite lookup_insert_ne in Hq' by done. exists q. split_and!; try done. symmetry. apply filter_ne_id.
      intros Hin. destruct (pok_owned _ _ _ _ (inv_processes _ _ I _ _ Hq') t Hin) as (? & ? & ? & _). congruence. }
  destruct (inv_processes _ _ I p q0 Hq0) as [H1 H2 H3 H4 H5 H6 H7 H8]. split; rewrite ?Es, ?Ea, ?Et.
  - by apply NoDup_filter.
  - pose proof (length_filter (fun x => x <> t) (p_threads q0)). lia.
  - intros x [Hx Hin]%filter_ne_elem. destruct (H3 x Hin) as (u & ? & ? & ?). exists u. rewrite Hl. auto.
  - rewrite H4. unfold alive_count. rewrite Et, Hcount. do 2 f_equal. rewrite list_filter_filter. apply list_filter_iff.
    intros x. split; [|tauto]. intros Hx. split; [done|]. by intros ->.
  - intros x u [_ Hu]%Hl. by apply (H5 x).
  - intros x u y v [_ Hu]%Hl ? [_ Hv]%Hl. by apply (H6 x u y v).
  - intros x u y v [_ Hu]%Hl ? [_ Hv]%Hl ? [_ Hf]%Hfr. by apply (H7 x u y v).
  - intros x u [_ Hu]%Hl ? [_ Hf]%Hfr. by apply (H8 x u).
Qed.

Lemma free_inv : sched_inv st' NoHole.
Proof.
  assert (Hl := free_lookup). assert (Hfr := free_freed). assert (F := free_facts). assert (HP := free_process_ok).
  destruct F as (Hft & Hcur & Hi & Hnl & Hnr & Hnd & Hnf & Hnts).
  destruct I as [H1 H2 H3 H4 H5 H6 H7 H8 H9 H10 H11]. split; try done.
  - intros x u [Hne Hu]%Hl. apply (thread_ok_frame st _ NoHole NoHole); try done; [|by apply H1].
    rewrite Hfr. tauto.
  - intros x Hx. unfold st' in Hx. fields. assert (x <> t).
    { intros ->. rewrite !elem_of_app in Hx. tauto. }
    destruct (H2 x) as [u Hu]; [rewrite Hq; set_solver|]. exists u. by apply Hl.
  - unfold st'. fields. rewrite Hq in H3.
    assert (Hnd' : NoDup (t :: s_ready st ++ s_deferred st ++ s_to_free st ++ ts)).
    { eapply NoDup_perm; [|exact H3]. solve_Permutation. }
    by apply NoDup_cons in Hnd' as [_ ?].
  - intros b Hb. destruct (H4 b Hb) as (blk & u & Hb' & ? & Hu & Hs & ?). exists blk, u. split_and!; try done.
    apply Hl. split; [|done]. intros E. rewrite E in Hu. rewrite Hu in Ht. injection Ht as ->.
    by apply (sleeping_not_freed st NoHole b blk th); try done; rewrite ?E.
  - intros k c Hkc. destruct (H7 k c Hkc) as ([u ?] & v & ? & ?). split.
    + exists u. apply Hl. split; [|done]. intros <-. apply Hcur. exists k, c. split_and!; try done. by intros [].
    + exists v. rewrite Hl. split; [|done]. split; [|done]. intros E. apply Hi. by exists k, c.
  - intros x u [Hne Hu]%Hl Hi'. destruct (H10 x u Hu Hi') as (q & Hq1 & Hin). unfold st'. fields.
    destruct (decide (t_owner u = t_owner th)) as [Eo|]; rewrite ?lookup_insert_ne by done; [|by exists q].
    rewrite Eo, lookup_insert_eq. exists pr'. split; [done|]. unfold pr'. fields. apply filter_ne_elem.
    split; [done|]. congruence.
Qed.
End Free.

Lemma do_free_thread_Ok st t ts :
  sched_inv st NoHole -> s_being_freed st = t :: ts ->
  (forall th, s_threads st !! t = Some th -> t_owner th ∈ s_registered st) ->
  exists st' p, do_free_thread t (with_being_freed (fun _ => ts) st) = Ok (st', p) /\
    sched_inv st' NoHole /\ s_threads st' !! t = None.
Proof.
  intros I Hq Hreg. destruct (inv_listed _ _ I t) as [th Ht]; [rewrite Hq; set_solver|].
  destruct (free_facts st t ts th I Hq Ht) as (_ & _ & Hi & _).
  destruct (inv_owner _ _ I _ _ Ht Hi) as (pr & Hp & Hin).
  assert (I' := free_inv st t ts th pr I Hq Ht Hp).
  unfold do_free_thread. fields. rewrite (deref_Ok _ _ _ Ht). run. rewrite (deref_Ok _ _ _ Hp). run.
  case_bool_decide; cbn [negb].
  - unfold unregister_process. fields. rewrite bool_decide_true by (by apply Hreg). run.
    eexists _, _. split; [done|]. split; [|fields; by rewrite lookup_delete_eq].
    destruct I' as [H1 H2 H3 H4 H5 H6 H7 H8 H9 H10 H11]. split; try done.
    intros q qr Hqr. by eapply process_ok_frame; [..|apply H11].
  - eexists _, _. split; [done|]. split; [exact I'|]. fields. by rewrite lookup_delete_eq.
Qed.

Lemma swap_queues_Ok st : sched_inv st NoHole -> s_being_freed st = [] -> sched_inv (swap_queues st) NoHole.
Proof.
  intros I Hb. assert (Hf : forall t, freed (swap_queues st) t <-> freed st t).
  { intros t. unfold freed, swap_queues. fields. tauto. }
  destruct I as [H1 H2 H3 H4 H5 H6 H7 H8 H9 H10 H11]. split; try done.
  - intros t th Ht. apply (thread_ok_frame st _ NoHole NoHole); try done. by apply H1.
  - intros t Ht. apply H2. unfold swap_queues in Ht. fields. rewrite !elem_of_app in *. tauto.
  - eapply NoDup_perm; [|exact H3]. unfold swap_queues. fields. solve_Permutation.
  - intros p pr Hp. by eapply process_ok_frame; [..|apply H11].
Qed.
