(* ===== verification/SchedulerSafety.v ===== *)
(** What the scheduler guarantees in every state that its operations can reach, from all
    processors and in any order: no assertion fails, the queues are consistent with the states of
    the threads, ready threads run in turn, sleeping threads wake in time and no wake-up is lost. *)
From S2P Require Import Prelude Scheduler SchedulerInv SchedulerOps SchedulerKill SchedulerPick SchedulerSteps.
From stdpp Require Import gmap.
#[local] Open Scope Z_scope.

(** ** The state machine *)

(** [Kernel/Multitasking/Thread.cpp:17-30] Thread::create_idle of each of [n] processors: processor [i] runs its idle thread *)
Definition idle_thread (i : nat) : thread := Thread 0 RUNNING UNDEFINED None false false false 0.
(** [Kernel/Multitasking/Process.cpp:11-24] Process::create_idle_for_this_processor of each of [n] processors *)
Definition boot (n : nat) : sched :=
  Sched (list_to_map ((fun i => (i, idle_thread i)) <$> seq 0 n)) ∅ ∅ ∅
    (list_to_map ((fun i => (i, Processor i i)) <$> seq 0 n)) [] [] [] [] [].

(** An operation of a processor, of an interrupt handler or of the TaskFinalizer. *)
Inductive operation :=
  | Tick (cpu : nat) (now : Z)
  | Make_blocker (cpu b : nat) (type : blocker_type) (wake_time : Z)
  | Block (cpu b : nat)
  | Unblock (b : nat)
  | Set_invulnerable (cpu : nat) (v : bool)
  | Exit_thread (cpu : nat) (code : Z)
  | Exit_process (cpu : nat) (code : Z)
  | Crash (cpu : nat) (code : Z)
  | Create_thread (p t : nat)
  | Create_process (p t : nat)
  | Swap_queues
  | Free_thread.

Definition make_blocker (cpu b : nat) (type : blocker_type) (wake_time : Z) (st : sched) : result sched :=
  c ← deref (s_cpus st) cpu;
  Ok (put_blocker b (Blocker (c_current c) type RESULT_UNDEFINED true wake_time) st).

Definition make_invulnerable (cpu : nat) (v : bool) (st : sched) : result sched :=
  c ← deref (s_cpus st) cpu;
  th ← deref (s_threads st) (c_current c);
  Ok (put_thread (c_current c) (set_invulnerable v th) st).

Definition perform (op : operation) (st : sched) : result sched :=
  match op with
  | Tick cpu now => pick_next cpu now st
  | Make_blocker cpu b type wake_time => make_blocker cpu b type wake_time st
  | Block cpu b => scheduler_block cpu b st
  | Unblock b => blocker_unblock b st
  | Set_invulnerable cpu v => make_invulnerable cpu v st
  | Exit_thread cpu code => exit_thread cpu code st
  | Exit_process cpu code => exit_process cpu code st
  | Crash cpu code => crash cpu code st
  | Create_thread p t => '(st, _) ← create_thread p t st; Ok st
  | Create_process p t => create_supervisor p t st
  | Swap_queues => Ok (swap_queues st)
  | Free_thread =>
      match s_being_freed st with
      | [] => Fault AssertionFailed
      | t :: ts => '(st, _) ← do_free_thread t (with_being_freed (fun _ => ts) st); Ok st
      end
  end.

(** The current thread of a processor, when it is not the idle one. *)
Definition busy (st : sched) (cpu t : nat) (th : thread) : Prop :=
  exists c, s_cpus st !! cpu = Some c /\ c_current c = t /\ t <> c_idle c /\ s_threads st !! t = Some th.

(** The current thread of [c] does not ask to sleep until the very time at which another sleeping
    thread wakes up: the multiset [m_sleeping_threads] holds no two equal elements, and so works as
    the [Set] of RedBlackTreeSet.v does.  (With equal elements it keeps a pointer to a freed node,
    as the example [multiset_dangling_last] shows.) *)
Definition no_tie (st : sched) (c : processor) : Prop :=
  forall th b blk, s_threads st !! c_current c = Some th -> t_blocker th = Some b ->
    s_blockers st !! b = Some blk -> b_type blk = SLEEP -> b_wake_time blk ∉ wake_time_of st <$> s_sleeping st.

(** What the callers of the scheduler owe: addresses of new objects are free, a thread that calls
    the scheduler runs, a blocker is used by the thread that made it and is not released after
    the thread is gone, and the TaskFinalizer swaps its queues only when it is through with the one
    it works on. *)
Definition allowed (op : operation) (st : sched) : Prop :=
  match op with
  | Tick cpu _ => exists c, s_cpus st !! cpu = Some c /\ no_tie st c
  | Make_blocker cpu b _ _ => (exists t th, busy st cpu t th) /\ blocker_free st b
  | Block cpu b => exists t th blk, busy st cpu t th /\ t_blocker th = None /\
      s_blockers st !! b = Some blk /\ b_thread blk = t
  | Unblock b => unblockable st b
  | Set_invulnerable cpu _ | Exit_thread cpu _ | Exit_process cpu _ | Crash cpu _ => exists t th, busy st cpu t th
  | Create_thread p t => exists pr, s_processes st !! p = Some pr /\
      s_threads st !! t = None /\ Z.of_nat (length (p_threads pr)) < 4294967295
  | Create_process p t => s_processes st !! p = None /\
      (forall t' u, s_threads st !! t' = Some u -> t_owner u <> p) /\ s_threads st !! t = None
  | Swap_queues => s_being_freed st = []
  | Free_thread => exists t ts, s_being_freed st = t :: ts
  end.

Inductive reachable (n : nat) : sched -> Prop :=
  | reachable_boot : reachable n (boot n)
  | reachable_step op st st' :
      reachable n st -> allowed op st -> perform op st = Ok st' -> reachable n st'.

Lemma boot_lookup {A} (f : nat -> A) n i a :
  (list_to_map ((fun i => (i, f i)) <$> seq 0 n) : gmap nat A) !! i = Some a <-> (i < n)%nat /\ a = f i.
Proof.
  rewrite <- elem_of_list_to_map.
  - rewrite list_elem_of_fmap. split.
    + intros (j & [= -> ->] & Hj%elem_of_seq). split; [lia|done].
    + intros [Hi ->]. exists i. split; [done|]. apply elem_of_seq. lia.
  - rewrite <- list_fmap_compose. unfold compose. cbn. rewrite list_fmap_id. apply NoDup_seq.
Qed.

Lemma boot_inv n : sched_inv (boot n) NoHole.
Proof.
  split; unfold boot; cbn -[seq]; try done; try constructor; try (intros *; by rewrite elem_of_nil).
  - intros t th [Ht ->]%boot_lookup. unfold thread_ok. cbn -[seq]. split_and!; try (by intros ?%elem_of_nil).
    + exists t, (Processor t t). split_and!; [by apply boot_lookup|done|by intros []].
    + intros [?%elem_of_nil|?%elem_of_nil]; done.
    + by left.
    + done.
  - apply boot_lookup in H as [? ->]. cbn -[seq]. exists (idle_thread cpu). by apply boot_lookup.
  - apply boot_lookup in H as [? ->]. exists (idle_thread cpu). split; [by apply boot_lookup|by left].
  - intros cpu c cpu' c' [? ->]%boot_lookup [? ->]%boot_lookup. cbn. naive_solver.
  - intros t th [Ht ->]%boot_lookup Hi. exfalso. apply Hi. exists t, (Processor t t). cbn -[seq]. split; [|done]. by apply boot_lookup.
Qed.

(** ** Registered processes *)

(** The registered processes exist, a process that owns threads is registered, and a process that
    is alive has a live thread. *)
Record reg_inv (st : sched) : Prop := {
  reg_exists : forall p, p ∈ s_registered st -> is_Some (s_processes st !! p);
  reg_threads : forall p pr, s_processes st !! p = Some pr -> p_threads pr <> [] -> p ∈ s_registered st;
  reg_alive : forall p pr, s_processes st !! p = Some pr -> p_state pr = ALIVE -> p_alive pr <> 0 }.

(** An operation that leaves the processes alone, and what the threads keep for life or change
    themselves. *)
Definition keeps_owner (th th' : thread) : Prop :=
  t_owner th' = t_owner th /\ t_kill_all th' = t_kill_all th /\
  t_should_die th' = t_should_die th /\ t_invulnerable th' = t_invulnerable th.
Definition same_owners (st st' : sched) : Prop :=
  s_processes st' = s_processes st /\ s_registered st' = s_registered st /\
  forall t, option_Forall2 keeps_owner (s_threads st !! t) (s_threads st' !! t).
(** An operation that changes no list of threads, brings no process to life and leaves no live
    process without live threads. *)
Definition same_lists (st st' : sched) : Prop :=
  s_registered st' = s_registered st /\
  forall p, match s_processes st !! p, s_processes st' !! p with
            | Some pr, Some pr' => p_threads pr' = p_threads pr /\
                (p_state pr' = ALIVE -> p_state pr = ALIVE /\ (p_alive pr' = 0 -> p_alive pr = 0))
            | None, None => True
            | _, _ => False
            end.

Lemma same_owners_threads st st' :
  s_processes st' = s_processes st -> s_registered st' = s_registered st -> s_threads st' = s_threads st ->
  same_owners st st'.
Proof. intros ? ? E. split_and!; [done..|]. intros t. rewrite E. by destruct (s_threads st !! t); constructor. Qed.
Lemma same_owners_refl st : same_owners st st.
Proof. by apply same_owners_threads. Qed.
Lemma same_owners_trans st st1 st' : same_owners st st1 -> same_owners st1 st' -> same_owners st st'.
Proof.
  intros (E1 & E2 & H) (F1 & F2 & G). split_and!; [congruence..|]. intros t. specialize (H t). specialize (G t).
  destruct (s_threads st !! t), (s_threads st1 !! t), (s_threads st' !! t); inversion H; inversion G; subst; constructor.
  unfold keeps_owner in *. naive_solver congruence.
Qed.
Lemma same_owners_put st t th th' :
  s_threads st !! t = Some th -> keeps_owner th th' -> same_owners st (put_thread t th' st).
Proof.
  intros Ht Hk. split_and!; [done..|]. intros x. fields. destruct (decide (x = t)) as [->|].
  - rewrite Ht, lookup_insert_eq. by constructor.
  - rewrite lookup_insert_ne by done. by destruct (s_threads st !! x); constructor.
Qed.
Lemma same_lists_refl st : same_lists st st.
Proof. split; [done|]. intros p. by destruct (s_processes st !! p). Qed.
Lemma same_lists_trans st st1 st' : same_lists st st1 -> same_lists st1 st' -> same_lists st st'.
Proof.
  intros (E & H) (F & G). split; [congruence|]. intros p. specialize (H p). specialize (G p).
  destruct (s_processes st !! p), (s_processes st1 !! p), (s_processes st' !! p); try done.
  destruct H as [H1 H2], G as [G1 G2]. split; [congruence|]. intros A. destruct (G2 A) as [B ?]. destruct (H2 B). tauto.
Qed.
Lemma same_lists_eq st st' :
  s_processes st' = s_processes st -> s_registered st' = s_registered st -> same_lists st st'.
Proof. intros E1 E2. split; [done|]. intros p. rewrite E1. by destruct (s_processes st !! p). Qed.
Lemma same_lists_put st p pr pr' :
  s_processes st !! p = Some pr -> p_threads pr' = p_threads pr ->
  (p_state pr' = ALIVE -> p_state pr = ALIVE /\ (p_alive pr' = 0 -> p_alive pr = 0)) ->
  same_lists st (put_process p pr' st).
Proof.
  intros Hp Ht Ha. split; [done|]. intros q. fields. destruct (decide (q = p)) as [->|].
  - by rewrite Hp, lookup_insert_eq.
  - rewrite lookup_insert_ne by done. by destruct (s_processes st !! q).
Qed.

Lemma deref_Some {A} (m : gmap nat A) k a : deref m k = Ok a -> m !! k = Some a.
Proof. unfold deref. destruct (m !! k); naive_solver. Qed.

#[local] Hint Resolve same_owners_refl same_lists_refl : core.

(** The state is unchanged but for fields other than the processes and the threads. *)
Ltac owners_step := by apply same_owners_threads.

Lemma insert_ready_owners t st st' : insert_ready t st = Ok st' -> same_owners st st'.
Proof. unfold insert_ready. intros H. inv_ok. owners_step. Qed.
Lemma free_thread_owners t st st' : free_thread t st = Ok st' -> same_owners st st'.
Proof. unfold free_thread. intros H. inv_ok. owners_step. Qed.
Lemma thread_unblock_owners t st st' : thread_unblock t st = Ok st' -> same_owners st st'.
Proof.
  unfold thread_unblock. intros H. inv_ok. destruct (t_blocker _); [|done]. inv_ok.
  apply deref_Some in E. eapply same_owners_trans; [|eapply same_owners_put; [fields; done|by case_decide]].
  owners_step.
Qed.
Lemma unblock_unchecked_owners b st st' : unblock_unchecked b st = Ok st' -> same_owners st st'.
Proof.
  unfold unblock_unchecked. intros H. inv_ok. destruct (negb _); inv_ok; [owners_step|].
  eapply same_owners_trans; [by eapply thread_unblock_owners|by eapply insert_ready_owners].
Qed.
Lemma blocker_unblock_owners b st st' : blocker_unblock b st = Ok st' -> same_owners st st'.
Proof.
  unfold blocker_unblock. intros H. inv_ok. destruct (negb _); inv_ok; [done|]. by eapply unblock_unchecked_owners.
Qed.
Lemma free_deferred_owners fuel i st st' : free_deferred_loop fuel i st = Ok st' -> same_owners st st'.
Proof.
  revert i st. induction fuel as [|fuel IH]; intros i st; cbn [free_deferred_loop]; case_decide; intros E; inv_ok; [done..|].
  destruct (s_deferred st !! i); [|done]. inv_ok.
  eapply same_owners_trans; [|by eapply IH]. eapply same_owners_trans; [|by eapply free_thread_owners]. owners_step.
Qed.
Lemma wake_loop_owners now l st st' : wake_loop now l st = Ok st' -> same_owners st st'.
Proof.
  revert st. induction l as [|b l IH]; intros st; cbn [wake_loop]; intros H; inv_ok; [done|].
  destruct (negb _); inv_ok; [done|]. eapply same_owners_trans; [|by eapply IH].
  eapply same_owners_trans; [|by eapply unblock_unchecked_owners]. owners_step.
Qed.

Lemma owners_lists st st' : same_owners st st' -> same_lists st st'.
Proof. intros (? & ? & _). by apply same_lists_eq. Qed.

Lemma not_alive_lists st st' p :
  same_lists st st' -> (forall pr, s_processes st !! p = Some pr -> p_state pr <> ALIVE) ->
  forall pr, s_processes st' !! p = Some pr -> p_state pr <> ALIVE.
Proof.
  intros [_ H] Hn pr Hp Ha. specialize (H p). rewrite Hp in H.
  destruct (s_processes st !! p) as [pr0|]; [|done]. destruct H as [_ H]. by apply (Hn pr0), H.
Qed.

Lemma decrement_alive_lists p st st' n :
  decrement_alive p st = Ok (st', n) -> (forall pr, s_processes st !! p = Some pr -> p_state pr <> ALIVE) ->
  same_lists st st'.
Proof.
  unfold decrement_alive, decrement_alive_thread_count. intros H Hn. inv_ok. simplify_eq.
  apply deref_Some in E. eapply same_lists_put; [done..|]. fields. intros A. by destruct (Hn v E).
Qed.

Lemma thread_interrupt_lists t st st' b : thread_interrupt t st = Ok (st', b) -> same_lists st st'.
Proof.
  unfold thread_interrupt. intros H. inv_ok. destruct (t_blocker _); [|done]. inv_ok.
  destruct (negb _); inv_ok; [done|]. by apply same_lists_eq.
Qed.

Lemma kill_other_lists p t st st' :
  kill_other_thread p t st = Ok st' -> (forall pr, s_processes st !! p = Some pr -> p_state pr <> ALIVE) ->
  same_lists st st'.
Proof.
  unfold kill_other_thread. intros H Hn. inv_ok.
  assert (H0 : same_lists st (put_thread t (thread_exit 0 v) st)) by by apply same_lists_eq.
  eapply same_lists_trans; [exact H0|]. pose proof (not_alive_lists _ _ p H0 Hn) as Hn1. clear H0 Hn.
  set (st0 := put_thread _ _ _) in *. clearbody st0. destruct (t_state v); inv_ok; try done.
  - destruct (t_blocker v); [|done]. inv_ok. case_decide.
    + inv_ok. destruct v1 as [st1 n1]. inv_ok. eapply same_lists_trans; [by eapply decrement_alive_lists|].
      eapply same_lists_trans; [|by eapply owners_lists, free_thread_owners]. by apply same_lists_eq.
    + inv_ok. destruct v1 as [st1 []]; inv_ok; (eapply same_lists_trans; [by eapply thread_interrupt_lists|]); [|done].
      by eapply owners_lists, insert_ready_owners.
  - destruct v0 as [st1 n1]. inv_ok. eapply same_lists_trans; [by eapply decrement_alive_lists|].
    eapply same_lists_trans; [|by eapply owners_lists, free_thread_owners].
    unfold pop_off_ready in *. inv_ok. by apply same_lists_eq.
Qed.

Lemma kill_threads_lists cur p ts st st' :
  kill_threads cur p ts st = Ok st' -> (forall pr, s_processes st !! p = Some pr -> p_state pr <> ALIVE) ->
  same_lists st st'.
Proof.
  revert st. induction ts as [|t ts IH]; intros st; cbn [kill_threads]; intros H Hn; inv_ok; [done|].
  assert (same_lists st v) as Hv.
  { case_decide; [|by eapply kill_other_lists]. inv_ok. destruct v0 as [st1 n1]. unfold insert_deferred in *. inv_ok.
    eapply same_lists_trans; [by eapply decrement_alive_lists|]. by apply same_lists_eq. }
  eapply same_lists_trans; [exact Hv|]. eapply IH; [done|]. by eapply not_alive_lists.
Qed.

Lemma kill_current_lists cur th st st' :
  s_threads st !! cur = Some th ->
  (t_kill_all th = true -> forall pr, s_processes st !! t_owner th = Some pr -> p_state pr <> ALIVE) ->
  kill_current_thread cur st = Ok st' -> same_lists st st'.
Proof.
  intros Ht Hk. unfold kill_current_thread. rewrite (deref_Ok _ _ _ Ht). run. destruct (t_kill_all th); cbn [negb]; intros H.
  - inv_ok. eapply same_lists_trans; [|eapply kill_threads_lists; [done|]]; [by apply same_lists_eq|]. fields. by apply Hk.
  - unfold decrement_alive, decrement_alive_thread_count, insert_deferred in H. inv_ok. fields.
    injection E as <-. inv_ok. apply deref_Some in E0, E. fields. rewrite lookup_insert_eq in E. injection E as <-.
    destruct (wrap32 (p_alive v0 - 1) =? 0) eqn:En.
    + split; [done|]. intros q. unfold put_process. fields. destruct (decide (q = t_owner th)) as [->|].
      * rewrite lookup_insert_eq, E0. unfold process_exit. fields. case_decide; fields; [done|]. split; [done|]. done.
      * rewrite !lookup_insert_ne by done. by destruct (s_processes st !! q).
    + eapply same_lists_trans; [apply (same_lists_put _ _ v0 (Process (p_state v0) (p_exit_code v0) (p_threads v0)
        (wrap32 (p_alive v0 - 1))) E0 eq_refl)|by apply same_lists_eq]. fields. bool_to_prop. done.
Qed.

Lemma apply_request_owners cur st st' : apply_request cur st = Ok st' -> same_owners st st'.
Proof.
  unfold apply_request. intros H. inv_ok. destruct (t_requested v); inv_ok; try done.
  destruct (t_blocker v); [|done]. inv_ok. apply deref_Some in E, E2.
  apply (same_owners_trans _ v1); [|by eapply same_owners_put].
  destruct (b_should_block _); inv_ok; [|by eapply thread_unblock_owners].
  eapply same_owners_trans; [by apply (same_owners_put st cur v (set_state BLOCKED v))|]. case_decide; [owners_step|done].
Qed.

Lemma deactivate_owners t st st' : deactivate t st = Ok st' -> same_owners st st'.
Proof.
  unfold deactivate. intros H. inv_ok. apply deref_Some in E. destruct (negb _); inv_ok; [done|by eapply same_owners_put].
Qed.
Lemma activate_owners cpu t st st' : activate cpu t st = Ok st' -> same_owners st st'.
Proof.
  unfold activate. intros H. inv_ok. apply deref_Some in E.
  eapply same_owners_trans; [by apply (same_owners_put st t v (set_state RUNNING v))|owners_step].
Qed.

Lemma switch_owners cpu c st st' : switch_to_next cpu c st = Ok st' -> same_owners st st'.
Proof.
  unfold switch_to_next, pick_next_thread. intros H. inv_ok.
  eapply (same_owners_trans _ v0).
  { destruct (_ && _); inv_ok; [by eapply insert_ready_owners|done]. }
  destruct (s_ready v0); case_decide; inv_ok; try done; try owners_step.
  - eapply same_owners_trans; [by eapply deactivate_owners|by eapply activate_owners].
  - eapply same_owners_trans; [|eapply same_owners_trans; [by eapply deactivate_owners|by eapply activate_owners]]. owners_step.
Qed.

Lemma pick_next_lists cpu now st st' :
  sched_inv st NoHole -> pick_next cpu now st = Ok st' -> same_lists st st'.
Proof.
  unfold pick_next, free_deferred_threads, wake_ready_threads. intros I H. inv_ok.
  apply free_deferred_owners in E0. apply wake_loop_owners in E1. assert (E4 := same_owners_trans _ _ _ E0 E1).
  eapply same_lists_trans; [by apply owners_lists|]. eapply same_lists_trans; [|by eapply owners_lists, switch_owners].
  apply deref_Some in E2. destruct (_ && _); [|by eapply owners_lists, apply_request_owners].
  eapply kill_current_lists; [done| |done]. intros Hk pr Hp.
  destruct E4 as (E4 & _ & E5). rewrite E4 in Hp. specialize (E5 (c_current v)). rewrite E2 in E5.
  destruct (s_threads st !! c_current v) as [th|] eqn:Ht; [|by inversion E5].
  assert (keeps_owner th v2) as (Eo & Ek & _) by (by inversion E5).
  apply (pok_killer _ _ _ _ (inv_processes _ _ I _ _ Hp) _ th Ht); congruence.
Qed.

(** A scheduling decision that kills nobody leaves the owners and the flags of all threads alone. *)
Lemma pick_next_owners cpu c now th st st' :
  s_cpus st !! cpu = Some c -> s_threads st !! c_current c = Some th ->
  t_should_die th && negb (t_invulnerable th) = false -> pick_next cpu now st = Ok st' -> same_owners st st'.
Proof.
  unfold pick_next, free_deferred_threads, wake_ready_threads. intros Hc Ht Hd H. rewrite (deref_Ok _ _ _ Hc) in H.
  revert H. run. intros H. inv_ok. apply free_deferred_owners in E. apply wake_loop_owners in E0.
  assert (E4 := same_owners_trans _ _ _ E E0). apply deref_Some in E1.
  assert (keeps_owner th v1) as (_ & _ & Es & Ei).
  { destruct E4 as (_ & _ & E4). specialize (E4 (c_current c)). rewrite Ht, E1 in E4. by inversion E4. }
  rewrite Es, Ei, Hd in E2. eapply same_owners_trans; [exact E4|].
  eapply same_owners_trans; [by eapply apply_request_owners|by eapply switch_owners].
Qed.

(** The operations of the threads that run, of the processors and of the interrupt handlers. *)
Lemma perform_lists op st st' :
  sched_inv st NoHole -> perform op st = Ok st' ->
  match op with
  | Create_thread _ _ | Create_process _ _ | Free_thread => True
  | _ => same_lists st st'
  end.
Proof.
  intros I. destruct op; cbn [perform]; try done; intros H.
  - by eapply pick_next_lists.
  - unfold make_blocker in H. inv_ok. by apply same_lists_eq.
  - unfold scheduler_block, thread_block in H. inv_ok. by apply same_lists_eq.
  - by eapply owners_lists, blocker_unblock_owners.
  - unfold make_invulnerable in H. inv_ok. by apply same_lists_eq.
  - unfold exit_thread in H. inv_ok. by apply same_lists_eq.
  - unfold exit_process, process_exit in H. inv_ok. apply deref_Some in E1. case_decide; inv_ok;
      (eapply same_lists_trans; [|by apply same_lists_eq]); eapply same_lists_put; try done; fields; done.
  - unfold crash, process_exit in H. inv_ok. apply deref_Some in E1. case_decide; inv_ok;
      (eapply same_lists_trans; [|by apply same_lists_eq]); eapply same_lists_put; try done; fields; done.
  - inv_ok. by apply same_lists_eq.
Qed.

Lemma reg_lists st st' : same_lists st st' -> reg_inv st -> reg_inv st'.
Proof.
  intros [Er H] [R1 R2 R3]. split.
  - intros p Hp. rewrite Er in Hp. destruct (R1 p Hp) as [pr Hpr]. specialize (H p). rewrite Hpr in H.
    destruct (s_processes st' !! p); [eauto|done].
  - intros p pr' Hp Hne. specialize (H p). rewrite Hp in H. destruct (s_processes st !! p) as [pr|] eqn:Hpr; [|done].
    rewrite Er. apply (R2 p pr); [done|]. destruct H as [<- _]. done.
  - intros p pr' Hp Ha. specialize (H p). rewrite Hp in H. destruct (s_processes st !! p) as [pr|] eqn:Hpr; [|done].
    destruct H as [_ H]. destruct (H Ha) as [Ha' Hz]. intros E. by apply (R3 p pr Hpr), Hz.
Qed.

(** A process that is alive owns a thread, so that it is registered. *)
Lemma alive_registered st p pr :
  sched_inv st NoHole -> reg_inv st -> s_processes st !! p = Some pr -> p_state pr = ALIVE -> p ∈ s_registered st.
Proof.
  intros I R Hp Ha. apply (reg_threads _ R p pr Hp). intros E. apply (reg_alive _ R p pr Hp Ha).
  rewrite (pok_alive _ _ _ _ (inv_processes _ _ I _ _ Hp)). unfold alive_count. by rewrite E.
Qed.

Lemma set_ready_processes p t st st' :
  set_ready_and_count p t st = Ok st' -> exists pr, s_processes st !! p = Some pr /\
    s_registered st' = s_registered st /\ s_processes st' = <[ p := increment_alive_thread_count pr ]> (s_processes st).
Proof. unfold set_ready_and_count, insert_ready. intros H. inv_ok. apply deref_Some in E0. eauto. Qed.

(** A live process gets a thread, and is registered. *)
Lemma reg_add st st' p pr' :
  reg_inv st -> s_processes st' = <[ p := pr' ]> (s_processes st) ->
  s_registered st' = s_registered st ∪ {[ p ]} -> p_alive pr' <> 0 -> reg_inv st'.
Proof.
  intros [R1 R2 R3] E1 E2 Ha. split; rewrite E1, ?E2.
  - intros q. destruct (decide (q = p)) as [->|]; [rewrite lookup_insert_eq; eauto|].
    rewrite lookup_insert_ne by done. rewrite elem_of_union, elem_of_singleton. intros [?|?]; [auto|done].
  - intros q qr. rewrite elem_of_union, elem_of_singleton. destruct (decide (q = p)) as [->|]; [tauto|].
    rewrite lookup_insert_ne by done. eauto.
  - intros q qr. destruct (decide (q = p)) as [->|]; [rewrite lookup_insert_eq; by intros [= <-]|].
    rewrite lookup_insert_ne by done. apply R3.
Qed.

Lemma alive_some st h p pr : sched_inv st h -> s_processes st !! p = Some pr -> 0 <= p_alive pr <= Z.of_nat (length (p_threads pr)).
Proof.
  intros I Hp. rewrite (pok_alive _ _ _ _ (inv_processes _ _ I _ _ Hp)). unfold alive_count.
  pose proof (length_filter (live st h) (p_threads pr)). lia.
Qed.

Lemma create_thread_reg st p t pr st' :
  sched_inv st NoHole -> reg_inv st -> s_processes st !! p = Some pr ->
  Z.of_nat (length (p_threads pr)) < 4294967295 -> perform (Create_thread p t) st = Ok st' -> reg_inv st'.
Proof.
  intros I R Hp Hb. cbn [perform]. unfold create_thread, register_thread. rewrite (deref_Ok _ _ _ Hp). run.
  destruct (decide (p_state pr = ALIVE)) as [Ha|Ha].
  2:{ rewrite bool_decide_false by done. cbn [negb]. run. intros [= <-]. done. }
  rewrite bool_decide_true by done. cbn [negb]. fields. unfold deref at 1 2. rewrite lookup_insert_eq. run. fields. rewrite lookup_insert_eq. run. fields.
  rewrite (bool_decide_true (p_state pr = ALIVE)) by done. cbn [negb]. intros H. inv_ok. simplify_eq.
  apply set_ready_processes in E1 as (pr1 & Hp1 & Er & Ep). fields. rewrite lookup_insert_eq in Hp1. injection Hp1 as <-.
  rewrite insert_insert_eq in Ep. apply bool_decide_eq_true in E0. pose proof (alive_some st NoHole p pr I Hp).
  apply (reg_add st _ p _ R Ep).
  { rewrite Er, (comm_L (∪)). symmetry. by apply subseteq_union_1_L, singleton_subseteq_l. }
  unfold increment_alive_thread_count. fields.
  unfold wrap32. rewrite Z.mod_small by lia. lia.
Qed.

Lemma create_process_reg st p t st' :
  reg_inv st -> perform (Create_process p t) st = Ok st' -> reg_inv st'.
Proof.
  intros R. cbn [perform]. unfold create_supervisor, register_process. fields. unfold deref at 1. rewrite lookup_insert_eq.
  intros H. inv_ok. cbn [register_threads p_threads] in H. inv_ok. apply set_ready_processes in E0 as (pr1 & Hp1 & Er & Ep). fields.
  rewrite lookup_insert_eq in Hp1. injection Hp1 as <-. rewrite insert_insert_eq in Ep.
  apply (reg_add st _ p _ R Ep); [by rewrite Er, (comm_L (∪))|done].
Qed.

(** The owner of a thread that is not idle is registered. *)
Lemma owner_registered st t th :
  sched_inv st NoHole -> reg_inv st -> s_threads st !! t = Some th -> ~ is_idle st t -> t_owner th ∈ s_registered st.
Proof.
  intros I R Ht Hi. destruct (inv_owner _ _ I t th Ht Hi) as (pr & Hp & Hin). apply (reg_threads _ R _ pr Hp).
  intros E. rewrite E in Hin. by apply elem_of_nil in Hin.
Qed.

Lemma free_thread_reg st st' :
  reg_inv st -> perform Free_thread st = Ok st' -> reg_inv st'.
Proof.
  intros R H. cbn [perform] in H. destruct (s_being_freed st) as [|t ts]; [done|].
  unfold do_free_thread, unregister_process in H. fields. inv_ok. destruct v. inv_ok. simplify_eq.
  apply deref_Some in E0, E1. set (pr' := Process _ _ _ _) in *. destruct R as [R1 R2 R3].
  assert (Hq : forall q qr, <[ t_owner v0 := pr' ]> (s_processes st) !! q = Some qr ->
    exists pr, s_processes st !! q = Some pr /\ p_state qr = p_state pr /\ p_alive qr = p_alive pr /\
      (p_threads qr <> [] -> p_threads pr <> [])).
  { intros q qr. destruct (decide (q = t_owner v0)) as [->|].
    - rewrite lookup_insert_eq. intros [= <-]. exists v1. split_and!; try done. intros Hn Ex. apply Hn. unfold pr'. cbn [p_threads]. by rewrite Ex.
    - rewrite lookup_insert_ne by done. eauto 6. }
  assert (Hex : forall q, is_Some (s_processes st !! q) -> is_Some (<[ t_owner v0 := pr' ]> (s_processes st) !! q)).
  { intros q Hs. destruct (decide (q = t_owner v0)) as [->|]; [by rewrite lookup_insert_eq; eauto|by rewrite lookup_insert_ne]. }
  destruct (negb _) eqn:Enil; inv_ok; simplify_eq; split; fields.
  - auto.
  - intros q qr (pr & ? & _ & _ & ?)%Hq ?. eauto.
  - intros q qr (pr & ? & -> & -> & _)%Hq. eauto.
  - intros q [? _]%elem_of_difference. auto.
  - intros q qr Hqr Hne. apply elem_of_difference. rewrite elem_of_singleton. split.
    + destruct (Hq q qr Hqr) as (pr & ? & _ & _ & ?). eauto.
    + intros ->. rewrite lookup_insert_eq in Hqr. injection Hqr as <-. apply Hne. unfold pr'. cbn [p_threads].
      by apply negb_false_iff, bool_decide_eq_true in Enil.
  - intros q qr (pr & ? & -> & -> & _)%Hq. eauto.
Qed.

Lemma perform_reg op st st' :
  sched_inv st NoHole -> reg_inv st -> allowed op st -> perform op st = Ok st' -> reg_inv st'.
Proof.
  intros I R Ha E. pose proof (perform_lists op st st' I E) as H.
  destruct op; try (by eapply reg_lists).
  - destruct Ha as (pr & Hp & _ & Hb). by eapply create_thread_reg.
  - by eapply create_process_reg.
  - by eapply free_thread_reg.
Qed.

Lemma perform_Ok op st :
  sched_inv st NoHole -> reg_inv st -> allowed op st -> exists st', perform op st = Ok st' /\ sched_inv st' NoHole.
Proof.
  intros I R. destruct op; cbn [allowed perform].
  - intros (c & Hc & _). destruct (current_running st cpu c I Hc) as (th & Ht & _).
    destruct (pick_next_Ok st cpu c now th I Hc Ht) as (st' & _ & _ & E & I' & _). eauto.
  - intros [(t & th & c & Hc & <- & Hni & Ht) Hfree]. unfold make_blocker. rewrite (deref_Ok _ _ _ Hc). run.
    eexists. split; [done|]. by apply new_blocker_Ok.
  - intros (t & th & blk & (c & Hc & <- & Hni & Ht) & Htb & Hb & Hbt).
    destruct (scheduler_block_Ok st cpu c th b blk I Hc Ht) as (st' & ? & ? & _); try done. eauto.
  - intros Hu. by apply blocker_unblock_Ok.
  - intros (t & th & c & Hc & <- & Hni & Ht). unfold make_invulnerable. rewrite (deref_Ok _ _ _ Hc). run.
    rewrite (deref_Ok _ _ _ Ht). run. eexists. split; [done|]. by apply (invulnerable_Ok st cpu).
  - intros (t & th & c & Hc & <- & Hni & Ht). by apply (exit_thread_Ok st cpu c).
  - intros (t & th & c & Hc & <- & Hni & Ht).
    destruct (inv_owner _ _ I _ _ Ht) as (pr & Hp & _); [by apply (current_not_idle st cpu c)|].
    by apply (exit_process_Ok st cpu c th pr).
  - intros (t & th & c & Hc & <- & Hni & Ht).
    destruct (inv_owner _ _ I _ _ Ht) as (pr & Hp & _); [by apply (current_not_idle st cpu c)|].
    by apply (crash_Ok st cpu c th pr).
  - intros (pr & Hp & Ht & Hb).
    destruct (create_thread_Ok st p t pr I Hp (fun Ha => alive_registered st p pr I R Hp Ha) Ht Hb) as (st' & ok & -> & I').
    run. eauto.
  - intros (Hp & Ho & Ht). apply create_supervisor_Ok; try done.
    intros [pr Hr]%(reg_exists _ R). congruence.
  - intros Hq. eexists. split; [done|]. by apply swap_queues_Ok.
  - intros (t & ts & Hq). rewrite Hq.
    destruct (do_free_thread_Ok st t ts I Hq) as (st' & p & -> & I' & _); [|run; by eauto].
    intros th Ht. apply (owner_registered st t th I R Ht). by apply (free_facts st t ts th I Hq Ht).
Qed.

Lemma boot_reg n : reg_inv (boot n).
Proof. split; unfold boot; cbn -[seq]; [by intros p ?%elem_of_empty|done..]. Qed.

Lemma reachable_invs n st : reachable n st -> sched_inv st NoHole /\ reg_inv st.
Proof.
  induction 1 as [|op st st' _ [I R] Ha E]; [split; [apply boot_inv|apply boot_reg]|].
  destruct (perform_Ok op st I R Ha) as (st1 & E1 & I1). rewrite E in E1. injection E1 as <-.
  split; [done|]. by apply (perform_reg op st).
Qed.

Lemma reachable_inv n st : reachable n st -> sched_inv st NoHole.
Proof. intros H. by apply (reachable_invs n). Qed.

(** ** Consequences *)

Lemma tick_queue st cpu c now th st' :
  sched_inv st NoHole -> s_cpus st !! cpu = Some c -> s_threads st !! c_current c = Some th ->
  t_should_die th && negb (t_invulnerable th) = false -> pick_next cpu now st = Ok st' ->
  exists extra, s_ready st' = tail (s_ready st ++ extra) /\
    s_cpus st' = <[ cpu := Processor (hd (c_idle c) (s_ready st ++ extra)) (c_idle c) ]> (s_cpus st).
Proof.
  intros I Hc Ht Hd E. destruct (pick_next_Ok st cpu c now th I Hc Ht) as (st1 & st2 & th2 & E1 & _ & (sf & F & W) & H).
  rewrite E in E1. injection E1 as <-. destruct (H Hd) as (st3 & R & S). clear H.
  destruct S as [S1 S2 _ _ _ _ _]. unfold run_queue in S1, S2.
  rewrite (rq_ready _ _ _ _ _ R), (wk_ready _ _ _ W), (fr_ready _ _ F) in S1, S2.
  rewrite (rq_cpus _ _ _ _ _ R), (wk_cpus _ _ _ W), (fr_cpus _ _ F) in S2.
  rewrite <- app_assoc in S1, S2. eauto.
Qed.

(** Scheduling decisions of the processors [l], one after the other and nothing else in between,
    none of which finds a thread to kill or puts one to sleep until the wake time of another. *)
Inductive ticks : list nat -> sched -> sched -> Prop :=
  | ticks_nil st : ticks [] st st
  | ticks_cons cpu now c th l st st1 st' :
      s_cpus st !! cpu = Some c -> s_threads st !! c_current c = Some th ->
      t_should_die th && negb (t_invulnerable th) = false -> no_tie st c ->
      pick_next cpu now st = Ok st1 -> ticks l st1 st' -> ticks (cpu :: l) st st'.

Lemma ticks_fifo l cpu st st' t :
  sched_inv st NoHole -> s_ready st !! length l = Some t -> ticks (l ++ [cpu]) st st' ->
  exists c, s_cpus st' !! cpu = Some c /\ c_current c = t.
Proof.
  revert st. induction l as [|k l IH]; intros st I Hk T; cbn [app length] in *.
  - inversion_clear T as [|? now c th ? ? st1 ? Hc Ht Hd _ E T']. inversion T'; subst.
    destruct (tick_queue _ _ _ _ _ _ I Hc Ht Hd E) as (extra & _ & Ec).
    exists (Processor t (c_idle c)). rewrite Ec, lookup_insert_eq. split; [|done].
    destruct (s_ready st); [done|]. by injection Hk as ->.
  - inversion_clear T as [|? now c th ? ? st1 ? Hc Ht Hd _ E T'].
    destruct (tick_queue _ _ _ _ _ _ I Hc Ht Hd E) as (extra & Er & _).
    destruct (pick_next_Ok st k c now th I Hc Ht) as (st2 & _ & _ & E2 & I2 & _).
    rewrite E in E2. injection E2 as <-. apply (IH st1); try done. rewrite Er.
    destruct (s_ready st) as [|x q] eqn:Eq; [done|]. cbn [tail app]. rewrite lookup_app_l; [done|].
    by apply lookup_lt_Some in Hk; cbn in Hk; lia.
Qed.


(** C28: bounded waiting over consecutive scheduling decisions, with no other operation between them,
    none of them finding a thread to kill and no two threads sleeping until the same time: a
    thread with [length l] threads before it in the ready queue is the one that the processor of the [length l + 1]-st decision runs, whatever
    the processors [l] that took the decisions before, the threads they ran, and the threads
    that they woke meanwhile. *)
Theorem scheduler_fifo n st st' l cpu t :
  reachable n st -> s_ready st !! length l = Some t -> ticks (l ++ [cpu]) st st' ->
  exists c, s_cpus st' !! cpu = Some c /\ c_current c = t.
Proof. intros R. apply ticks_fifo. by apply (reachable_inv n). Qed.

(** ** Waking up *)

Lemma due_sorted st now l b :
  StronglySorted (wakes_no_later st) l -> b ∈ l -> b ∈ due st now l <-> wake_time_of st b <= now.
Proof.
  induction 1 as [|x l Hl IH Hx]; intros Hb; [by apply elem_of_nil in Hb|]. cbn [due].
  rewrite Forall_forall in Hx. destruct (_ <=? _) eqn:E; bool_to_prop.
  - rewrite elem_of_cons in *. destruct Hb as [->|Hb]; [naive_solver|]. rewrite <- IH by done.
    split; [|tauto]. intros [->|?]; [|done]. apply IH; [done|]. done.
  - rewrite elem_of_nil. split; [done|]. apply elem_of_cons in Hb as [->|Hb]; [lia|].
    specialize (Hx _ Hb). unfold wakes_no_later in Hx. lia.
Qed.

Lemma due_sleeping st now l b : b ∈ due st now l -> b ∈ l.
Proof.
  induction l as [|x l IH]; cbn [due]; [done|]. destruct (_ <=? _); [|by intros ?%elem_of_nil].
  intros [->|?]%elem_of_cons; [by left|right; auto].
Qed.

Lemma due_prefix st now l : due st now l ++ drop (length (due st now l)) l = l.
Proof.
  induction l as [|x l IH]; cbn [due]; [done|]. destruct (_ <=? _); [|done]. cbn. by rewrite IH.
Qed.

Lemma kept_sorted st now l b :
  StronglySorted (wakes_no_later st) l -> NoDup l -> b ∈ l ->
  b ∈ drop (length (due st now l)) l <-> now < wake_time_of st b.
Proof.
  intros Hs Hnd Hb. assert (Hd := due_sorted st now l b Hs Hb).
  rewrite <- (due_prefix st now l) in Hnd, Hb. apply NoDup_app in Hnd as (_ & Hdis & _).
  rewrite elem_of_app in Hb. specialize (Hdis b).
  destruct (decide (b ∈ due st now l)) as [Hin|Hout].
  - apply Hd in Hin as Hle. split; [intros Hk; by destruct (Hdis Hin)|lia].
  - assert (~ wake_time_of st b <= now) by tauto. split; [lia|tauto].
Qed.

Lemma sleeping_not_current st cpu c th b :
  sched_inv st NoHole -> s_cpus st !! cpu = Some c -> s_threads st !! c_current c = Some th ->
  b ∈ s_sleeping st -> t_blocker th <> Some b.
Proof.
  intros I Hc Ht Hin Htb. destruct (inv_sleeping _ _ I b Hin) as (blk' & u & Hb' & _ & Hu & Hsu & _).
  destruct (current_running st cpu c I Hc) as (th' & Ht' & Hs'). simplify_eq.
  pose proof (inv_threads _ _ I _ _ Ht) as Hok. unfold thread_ok in Hok. rewrite Hs' in Hok.
  destruct Hok as (_ & _ & _ & _ & [[_ ?]|(_ & _ & b1 & blk1 & (? & ? & Eb1) & _)] & _); [congruence|].
  simplify_eq. rewrite Eb1 in Hu. congruence.
Qed.

(** A thread that asked to be blocked is not an idle one, and nobody has it in a queue. *)
Lemma asleep_elsewhere st cpu c th now b :
  sched_inv st NoHole -> s_cpus st !! cpu = Some c -> s_threads st !! c_current c = Some th ->
  t_blocker th = Some b ->
  c_current c <> c_idle c /\
  (c_current c ∉ s_ready st ++ map (thread_of st) (due st now (s_sleeping st))).
Proof.
  intros I Hc Ht Htb. destruct (current_running st cpu c I Hc) as (th' & Ht' & Hs). simplify_eq.
  pose proof (inv_threads _ _ I _ _ Ht) as Hok. unfold thread_ok in Hok. rewrite Hs in Hok.
  destruct Hok as (_ & Hr & _ & _ & [[_ ?]|(_ & Hi & _)] & _); [congruence|]. split.
  { intros E. apply Hi. by exists cpu, c. }
  rewrite elem_of_app. intros [?|Hin]; [done|]. apply list_elem_of_fmap in Hin as (b' & Eb & Hb').
  assert (Hin : b' ∈ s_sleeping st).
  { rewrite <- (due_prefix st now (s_sleeping st)). apply elem_of_app. by left. }
  destruct (inv_sleeping _ _ I b' Hin) as (blk' & u & Hb1 & _ & Hu & Hsu & _).
  unfold thread_of in Eb. rewrite Hb1 in Eb. rewrite <- Eb in Hu. congruence.
Qed.

(** Waking the others leaves the current thread and its blocker alone. *)
Lemma current_unmoved st cpu c th now sf st2 :
  sched_inv st NoHole -> s_cpus st !! cpu = Some c -> s_threads st !! c_current c = Some th ->
  frees st sf -> wakes now sf st2 ->
  s_threads st2 !! c_current c = Some th /\
  forall b, t_blocker th = Some b -> s_blockers st2 !! b = s_blockers st !! b.
Proof.
  intros I Hc Ht F W. destruct (current_running st cpu c I Hc) as (th' & Ht' & Hs'). simplify_eq. split.
  - apply (wk_threads _ _ _ W); [by rewrite (fr_threads _ _ F)|congruence].
  - intros b Htb. pose proof (inv_threads _ _ I _ _ Ht) as Hok. unfold thread_ok in Hok. rewrite Hs' in Hok.
    destruct Hok as (_ & _ & _ & _ & [[_ ?]|(_ & _ & b1 & blk1 & (? & Hb & _) & _)] & _); [congruence|]. simplify_eq.
    rewrite Hb. apply (wk_blockers _ _ _ W); [by rewrite (fr_blockers _ _ F)|].
    rewrite (fr_sleeping _ _ F). intros Hin. by apply (sleeping_not_current st cpu c th b).
Qed.

(** The threads [pick_next] leaves alone when it does not kill. *)
Lemma tick_details st cpu c now th st' :
  sched_inv st NoHole -> s_cpus st !! cpu = Some c -> s_threads st !! c_current c = Some th ->
  t_should_die th && negb (t_invulnerable th) = false -> pick_next cpu now st = Ok st' ->
  let woken := due st now (s_sleeping st) in
  exists th2 again,
    s_ready st' = tail (s_ready st ++ map (thread_of st) woken ++ again) /\
    s_cpus st' = <[ cpu := Processor (hd (c_idle c) (s_ready st ++ map (thread_of st) woken ++ again)) (c_idle c) ]>
                   (s_cpus st) /\
    again = (if bool_decide (t_state th2 = RUNNING) && negb (bool_decide (c_current c = c_idle c))
             then [c_current c] else []) /\
    (t_state th2 = BLOCKED \/ t_state th2 = RUNNING) /\
    (t_state th2 = BLOCKED <-> exists b blk, t_requested th = BLOCKED /\ t_blocker th = Some b /\
       s_blockers st !! b = Some blk /\ b_should_block blk = true) /\
    (forall b blk, b ∈ woken -> s_blockers st !! b = Some blk ->
       s_blockers st' !! b = Some (set_result UNBLOCKED blk)) /\
    (forall b, b ∈ s_sleeping st' <-> b ∈ drop (length woken) (s_sleeping st) \/
       t_state th2 = BLOCKED /\ t_blocker th = Some b /\ exists blk, s_blockers st !! b = Some blk /\ b_type blk = SLEEP) /\
    (forall b, thread_of st' b = thread_of st b) /\ sched_inv st' NoHole /\
    (t_state th2 = BLOCKED -> s_threads st' !! c_current c = Some th2).
Proof.
  intros I Hc Ht Hd E woken.
  destruct (pick_next_Ok st cpu c now th I Hc Ht) as (st1 & st2 & th2 & E1 & I1 & (sf & F & W) & H).
  rewrite E in E1. injection E1 as <-. destruct (H Hd) as (st3 & R & S). clear H.
  assert (Edue : due sf now (s_sleeping sf) = woken).
  { rewrite (fr_sleeping _ _ F). apply due_ext. intros x. unfold wake_time_of. by rewrite (fr_blockers _ _ F). }
  assert (Ethr : forall x, thread_of sf x = thread_of st x).
  { intros x. unfold thread_of. by rewrite (fr_blockers _ _ F). }
  assert (Er2 : s_ready st2 = s_ready st ++ map (thread_of st) woken).
  { rewrite (wk_ready _ _ _ W), Edue, (fr_ready _ _ F). f_equal. by apply map_ext. }
  destruct (current_unmoved st cpu c th now sf st2 I Hc Ht F W) as [_ Hun].
  exists th2, (if bool_decide (t_state th2 = RUNNING) && negb (bool_decide (c_current c = c_idle c)) then [c_current c] else []).
  destruct S as [S1 S2 S3 S4 _ _ S6].
  assert (Hblk : t_state th2 = BLOCKED -> s_threads st' !! c_current c = Some th2).
  { intros Hb2. assert (Hnr : t_state th2 <> RUNNING) by congruence.
    rewrite S6, (rq_thread _ _ _ _ _ R), lookup_insert_eq; [done|by right|].
    apply (rq_blocks _ _ _ _ _ R) in Hb2 as (b & _ & Hq & Htb & _).
    destruct (asleep_elsewhere st cpu c th now b I Hc Ht Htb) as [Hni Hn].
    unfold run_queue. rewrite bool_decide_false by done. rewrite app_nil_r, (rq_ready _ _ _ _ _ R), Er2.
    destruct (s_ready st ++ _) as [|x q]; [done|]. cbn. intros <-. apply Hn. by left. }
  unfold run_queue in S1, S2.
  rewrite (rq_ready _ _ _ _ _ R), Er2, <- app_assoc in S1, S2.
  rewrite (rq_cpus _ _ _ _ _ R), (wk_cpus _ _ _ W), (fr_cpus _ _ F) in S2.
  split_and!; try done; [apply (rq_state _ _ _ _ _ R)| | | |].
  - rewrite (rq_blocks _ _ _ _ _ R). split; intros (b & blk & ? & Htb & Hb & ?); exists b, blk;
      [rewrite <- (Hun b Htb)|rewrite (Hun b Htb)]; done.
  - intros b blk Hb Hb1. rewrite S4, (rq_blockers _ _ _ _ _ R). apply (wk_released _ _ _ W); [by rewrite Edue|].
    by rewrite (fr_blockers _ _ F).
  - intros b. rewrite S3, (rq_sleeping _ _ _ _ _ R), (wk_sleeping _ _ _ W), Edue, (fr_sleeping _ _ F).
    split; (intros [?|(? & Htb & blk & ? & ?)]; [by left|]); right; split_and!; try done; exists blk;
      [rewrite <- (Hun b Htb)|rewrite (Hun b Htb)]; done.
  - intros b. rewrite <- Ethr, <- (wk_thread_of _ _ _ W). unfold thread_of. by rewrite S4, (rq_blockers _ _ _ _ _ R).
Qed.

(** The threads and the blockers after a scheduling decision that does not kill. *)
Lemma tick_threads st cpu c now th st' :
  sched_inv st NoHole -> s_cpus st !! cpu = Some c -> s_threads st !! c_current c = Some th ->
  t_should_die th && negb (t_invulnerable th) = false -> pick_next cpu now st = Ok st' ->
  (forall t u, t <> c_current c -> s_threads st !! t = Some u ->
     (forall b, t_blocker u = Some b -> b ∉ s_sleeping st) ->
     exists u', s_threads st' !! t = Some u' /\ same_thread u u') /\
  (exists u', s_threads st' !! c_current c = Some u' /\ t_state u' <> UNDEFINED /\
     (t_state u' = BLOCKED <-> exists b blk, t_requested th = BLOCKED /\ t_blocker th = Some b /\
       s_blockers st !! b = Some blk /\ b_should_block blk = true) /\
     t_blocker u' = if decide (t_state u' = BLOCKED) then t_blocker th else None) /\
  (forall b blk, s_blockers st !! b = Some blk -> (b ∉ s_sleeping st) -> s_blockers st' !! b = Some blk) /\
  (forall t u', s_threads st' !! t = Some u' -> exists u, s_threads st !! t = Some u /\ t_should_die u' = t_should_die u).
Proof.
  intros I Hc Ht Hd E.
  destruct (pick_next_Ok st cpu c now th I Hc Ht) as (st1 & st2 & th2 & E1 & I1 & (sf & F & W) & H).
  rewrite E in E1. injection E1 as <-. destruct (H Hd) as (st3 & R & S). clear H.
  destruct (current_unmoved st cpu c th now sf st2 I Hc Ht F W) as [Hth Hun].
  assert (Hsame := sw_same _ _ _ _ _ S). split_and!.
  - intros t u Hne Hu Hb.
    assert (Hu2 : s_threads st3 !! t = Some u).
    { rewrite (rq_thread _ _ _ _ _ R), lookup_insert_ne by done.
      rewrite (wk_others _ _ _ W), (fr_threads _ _ F); [done|]. intros Hin.
      apply list_elem_of_fmap in Hin as (b & Eb & Hin). apply due_sleeping in Hin. rewrite (fr_sleeping _ _ F) in Hin.
      destruct (inv_sleeping _ _ I b Hin) as (blk & u1 & Hbl & _ & Hu1 & _ & Htb).
      unfold thread_of in Eb. rewrite (fr_blockers _ _ F), Hbl in Eb. subst t. simplify_eq. by apply (Hb b). }
    specialize (Hsame t). rewrite Hu2 in Hsame. inversion Hsame; subst. eauto.
  - pose proof (Hsame (c_current c)) as Hs. rewrite (rq_thread _ _ _ _ _ R), lookup_insert_eq in Hs.
    inversion Hs as [? u' Hsu Ea Eb|]; subst. exists u'. split; [done|].
    destruct Hsu as (_ & _ & Hbl & _ & _ & Hblk & Hund). split_and!.
    + rewrite Hund. destruct (rq_state _ _ _ _ _ R); congruence.
    + rewrite Hblk, (rq_blocks _ _ _ _ _ R). split; intros (b & blk & ? & Htb & Hb & ?); exists b, blk;
        [rewrite <- (Hun b Htb)|rewrite (Hun b Htb)]; done.
    + rewrite Hbl. destruct (rq_state _ _ _ _ _ R) as [Hs2|Hs2].
      * rewrite decide_True by tauto. by apply (rq_keeps _ _ _ _ _ R).
      * rewrite decide_False by (rewrite Hblk; congruence). by apply (rq_done _ _ _ _ _ R).
  - intros b blk Hb Hns. rewrite (sw_blockers _ _ _ _ _ S), (rq_blockers _ _ _ _ _ R).
    apply (wk_blockers _ _ _ W); [by rewrite (fr_blockers _ _ F)|by rewrite (fr_sleeping _ _ F)].
  - intros t u' Hu'. specialize (Hsame t). rewrite Hu' in Hsame.
    inversion Hsame as [u3 ? Hsu Ea Eb|]; subst. destruct Hsu as (_ & _ & _ & Hdie & _). rewrite Hdie.
    symmetry in Ea. rewrite (rq_thread _ _ _ _ _ R) in Ea.
    assert (exists u2, s_threads st2 !! t = Some u2 /\ t_should_die u3 = t_should_die u2) as (u2 & Hu2 & ->).
    { destruct (decide (t = c_current c)) as [->|Hne].
      - rewrite lookup_insert_eq in Ea. injection Ea as <-. exists th. by split; [|apply (rq_die _ _ _ _ _ R)].
      - rewrite lookup_insert_ne in Ea by done. eauto. }
    destruct (wk_die _ _ _ W t u2 Hu2) as (u & Hu & ->). rewrite (fr_threads _ _ F) in Hu. eauto.
Qed.

Lemma head_or_tail {A} (d x : A) l : x ∈ l -> x = hd d l \/ x ∈ tail l.
Proof. destruct l as [|y l]; [by intros ?%elem_of_nil|]. by intros [->|?]%elem_of_cons; [left|right]. Qed.

(** A scheduling decision at time [now] that kills no thread wakes exactly the sleeping
    threads whose time has come: their blocker is released with the result [UNBLOCKED] and the
    thread is in the ready queue or already on the processor; every other sleeping thread keeps
    sleeping, and stays blocked. *)
Theorem scheduler_wakes n st st' cpu c now th b blk :
  reachable n st -> s_cpus st !! cpu = Some c -> s_threads st !! c_current c = Some th ->
  t_should_die th && negb (t_invulnerable th) = false -> pick_next cpu now st = Ok st' ->
  b ∈ s_sleeping st -> s_blockers st !! b = Some blk ->
  if b_wake_time blk <=? now then
    (b ∉ s_sleeping st') /\ s_blockers st' !! b = Some (set_result UNBLOCKED blk) /\
    (b_thread blk ∈ s_ready st' \/
     exists c', s_cpus st' !! cpu = Some c' /\ c_current c' = b_thread blk)
  else
    b ∈ s_sleeping st' /\
    exists u, s_threads st' !! b_thread blk = Some u /\ t_state u = BLOCKED.
Proof.
  intros R Hc Ht Hd E Hb Hblk. assert (I := reachable_inv n st R).
  destruct (tick_details st cpu c now th st' I Hc Ht Hd E) as (th2 & again & Er & Ec & _ & _ & _ & Hrel & Hsl & Hto & I' & _).
  assert (Hw : wake_time_of st b = b_wake_time blk) by (unfold wake_time_of; by rewrite Hblk).
  assert (Ht' : thread_of st b = b_thread blk) by (unfold thread_of; by rewrite Hblk).
  assert (Hkept := kept_sorted st now _ b (inv_sorted _ _ I) (inv_sleeping_nodup _ _ I) Hb).
  destruct (_ <=? now) eqn:Ew; bool_to_prop.
  - assert (Hdue : b ∈ due st now (s_sleeping st)) by (apply due_sorted; [apply I|done|lia]).
    split_and!; [|by apply Hrel|].
    + rewrite Hsl. intros [?|(_ & Htb & _)]; [apply Hkept in H; lia|].
      by apply (sleeping_not_current st cpu c th b).
    + rewrite Er, Ec, lookup_insert_eq.
      destruct (head_or_tail (c_idle c) (b_thread blk) (s_ready st ++ map (thread_of st) (due st now (s_sleeping st)) ++ again))
        as [Eh|Hin]; [|right; eexists; by split|by left].
      rewrite !elem_of_app. right. left. apply list_elem_of_fmap. by exists b.
  - assert (Hin : b ∈ s_sleeping st') by (rewrite Hsl; left; apply Hkept; lia). split; [done|].
    destruct (inv_sleeping _ _ I' b Hin) as (blk' & u & Hb' & _ & Hu & Hsu & _). exists u.
    specialize (Hto b). unfold thread_of at 1 in Hto. rewrite Hb', Ht' in Hto. by rewrite <- Hto.
Qed.

(** ** No wake-up is lost *)

(** [unblock] of a blocker other than a sleep always succeeds and leaves the blocker released
    with the result [UNBLOCKED]; its thread, if it was blocked, is in the ready queue afterwards,
    and if it was not blocked yet, nothing but the blocker changes. *)
Theorem unblock_releases n st b blk th :
  reachable n st -> s_blockers st !! b = Some blk -> s_threads st !! b_thread blk = Some th ->
  ~ is_idle st (b_thread blk) -> b_should_block blk = true ->
  (t_state th = BLOCKED -> t_blocker th = Some b /\ b_type blk <> SLEEP /\ ~ freed st (b_thread blk)) ->
  exists st', blocker_unblock b st = Ok st' /\
    (exists blk', s_blockers st' !! b = Some blk' /\ b_should_block blk' = false /\ b_result blk' = UNBLOCKED) /\
    if decide (t_state th = BLOCKED) then b_thread blk ∈ s_ready st'
    else st' = put_blocker b (set_result UNBLOCKED blk) st.
Proof.
  intros R Hb Ht Hi Hsb Hbl. assert (I := reachable_inv n st R).
  assert (Hres : b_should_block (set_result UNBLOCKED blk) = false /\ b_result (set_result UNBLOCKED blk) = UNBLOCKED).
  { apply (inv_blockers _ _ I b blk Hb) in Hsb. unfold set_result. by rewrite decide_True. }
  unfold blocker_unblock. rewrite (deref_Ok _ _ _ Hb). run. rewrite Hsb. cbn [negb]. case_decide as Hs.
  - destruct (Hbl Hs) as (Htb & _ & Hf).
    pose proof (unblock_unchecked_blocked st NoHole _ th b blk (s_sleeping st) I Hb eq_refl Ht Hs Htb Hf) as E.
    rewrite with_sleeping_id in E. rewrite E. eexists. split_and!; [done| |].
    + exists (set_result UNBLOCKED blk). unfold readied. fields. by rewrite lookup_insert_eq.
    + unfold readied. fields. set_solver.
  - unfold unblock_unchecked. rewrite (deref_Ok _ _ _ Hb). run. rewrite (deref_Ok _ _ _ Ht). run.
    rewrite bool_decide_false by done. cbn [negb]. eexists. split_and!; [done| |done].
    exists (set_result UNBLOCKED blk). fields. by rewrite lookup_insert_eq.
Qed.

(** C38: a wake-up that comes before its thread has gone to sleep is not lost.  In every state
    reachable under the callers' obligations (as for the safety of the scheduler), when the
    current thread of a processor has asked to be blocked on a blocker and is not about to be
    killed, the next scheduling decision of that processor blocks it if the blocker has not been
    released, and leaves it runnable if it has: then it is still the current thread, or in the
    ready queue. *)
Theorem early_unblock_not_lost n st st' cpu c now th b blk :
  reachable n st -> s_cpus st !! cpu = Some c -> s_threads st !! c_current c = Some th ->
  t_requested th = BLOCKED -> t_blocker th = Some b -> s_blockers st !! b = Some blk ->
  t_should_die th && negb (t_invulnerable th) = false -> pick_next cpu now st = Ok st' ->
  if b_should_block blk then
    exists u, s_threads st' !! c_current c = Some u /\ t_state u = BLOCKED
  else
    c_current c ∈ s_ready st' \/ exists c', s_cpus st' !! cpu = Some c' /\ c_current c' = c_current c.
Proof.
  intros R Hc Ht Hq Htb Hb Hd E. assert (I := reachable_inv n st R).
  destruct (tick_details st cpu c now th st' I Hc Ht Hd E)
    as (th2 & again & Er & Ec & Ea & Hst & Hbl & _ & _ & _ & I' & Hth).
  destruct (asleep_elsewhere st cpu c th now b I Hc Ht Htb) as [Hni _].
  destruct (b_should_block blk) eqn:Esb.
  - assert (t_state th2 = BLOCKED) by (apply Hbl; by exists b, blk). eauto.
  - assert (Hrun : t_state th2 = RUNNING).
    { destruct Hst as [Hs|?]; [|done]. apply Hbl in Hs as (b' & blk' & _ & ? & ? & ?). congruence. }
    rewrite bool_decide_true, bool_decide_false in Ea by done. cbn [andb negb] in Ea.
    rewrite Er, Ec, lookup_insert_eq.
    destruct (head_or_tail (c_idle c) (c_current c) (s_ready st ++ map (thread_of st) (due st now (s_sleeping st)) ++ again))
        as [Eh|Hin]; [rewrite Ea; set_solver|right; eexists; by split|by left].
Qed.

(** ** Concrete runs *)

Definition run_op (op : operation) (st : sched) : sched :=
  match perform op st with
  | Ok st' => st'
  | Fault _ => st
  end.

Lemma nobody_sleeps st c : s_sleeping st = [] -> no_tie st c.
Proof. intros E th b blk _ _ _ _. rewrite E. apply not_elem_of_nil. Qed.

(** One processor, two processes of one thread each (20 and 21); the first thread runs, goes to
    sleep until 100, and the second one runs. *)
Definition two_processes : sched := run_op (Create_process 11 21) (run_op (Create_process 10 20) (boot 1)).
Definition one_runs : sched := run_op (Tick 0 0) two_processes.
Definition one_asks : sched := run_op (Block 0 5) (run_op (Make_blocker 0 5 SLEEP 100) one_runs).
Definition one_sleeps : sched := run_op (Tick 0 50) one_asks.

(** A property of all the values of a concrete map, checked by evaluation. *)
Lemma all_values {A} (f : A -> bool) (m : gmap nat A) :
  forallb (fun kv => f kv.2) (map_to_list m) = true -> forall t u, m !! t = Some u -> f u = true.
Proof.
  intros E t u Hu. rewrite forallb_forall in E. apply (E (t, u)).
  by apply list_elem_of_In, elem_of_map_to_list.
Qed.

Ltac reach op st :=
  apply (reachable_step 1 op st); [| |vm_compute; reflexivity].
Ltac values f :=
  let t := fresh "t" in let u := fresh "u" in let H := fresh "H" in intros t u H;
  apply (all_values f) in H; [|vm_compute; reflexivity].
Ltac decided := match goal with |- ?P => apply (bool_decide_eq_true_1 P); vm_compute; reflexivity end.

Lemma reachable_two_processes : reachable 1 two_processes.
Proof.
  reach (Create_process 11 21) (run_op (Create_process 10 20) (boot 1)).
  - reach (Create_process 10 20) (boot 1); [constructor|].
    split_and!; [reflexivity| |reflexivity].
    values (fun u => (t_owner u <? 10)%nat). apply Nat.ltb_lt in H. intros E. lia.
  - split_and!; [reflexivity| |reflexivity].
    values (fun u => (t_owner u <? 11)%nat). apply Nat.ltb_lt in H. intros E. lia.
Qed.

Lemma reachable_one_runs : reachable 1 one_runs.
Proof. reach (Tick 0 0) two_processes; [apply reachable_two_processes|]. exists (Processor 0 0). split; [done|]. apply nobody_sleeps. vm_compute. reflexivity. Qed.

Lemma one_runs_busy : exists th, busy one_runs 0 20 th.
Proof. eexists. exists (Processor 20 0). split_and!; [reflexivity|done|done|vm_compute; reflexivity]. Qed.

Lemma reachable_made type time : reachable 1 (run_op (Make_blocker 0 5 type time) one_runs).
Proof.
  reach (Make_blocker 0 5 type time) one_runs; [apply reachable_one_runs|]. split.
  - destruct one_runs_busy as [th H]. by exists 20%nat, th.
  - values (fun u => match t_blocker u with None => true | _ => false end).
    by destruct (t_blocker u).
Qed.

Definition asks (type : blocker_type) (time : Z) : sched :=
  run_op (Block 0 5) (run_op (Make_blocker 0 5 type time) one_runs).

Lemma reachable_asks type time : reachable 1 (asks type time).
Proof.
  reach (Block 0 5) (run_op (Make_blocker 0 5 type time) one_runs); [apply reachable_made|].
  exists 20%nat, (Thread 10 RUNNING UNDEFINED None false false false 0), (Blocker 20 type RESULT_UNDEFINED true time).
  split_and!; [|reflexivity..].
  exists (Processor 20 0). split_and!; [reflexivity|done|done|vm_compute; reflexivity].
Qed.

Lemma reachable_one_sleeps : reachable 1 one_sleeps.
Proof.
  reach (Tick 0 50) one_asks; [apply reachable_asks|]. exists (Processor 20 0). split; [done|].
  apply nobody_sleeps. vm_compute. reflexivity.
Qed.


Lemma scheduler_fifo_witness :
  exists c, s_cpus (run_op (Tick 0 1) one_runs) !! 0%nat = Some c /\ c_current c = 21%nat.
Proof.
  apply (scheduler_fifo 1 two_processes _ [0%nat] 0 21 reachable_two_processes); [reflexivity|].
  apply (ticks_cons 0 0 (Processor 0 0) (idle_thread 0) _ _ one_runs); [reflexivity..| |vm_compute; reflexivity|].
  { apply nobody_sleeps. vm_compute. reflexivity. }
  eapply (ticks_cons 0 1 (Processor 20 0)); [reflexivity|reflexivity|reflexivity| |vm_compute; reflexivity|constructor].
  apply nobody_sleeps. vm_compute. reflexivity.
Defined.

Lemma scheduler_wakes_witness :
  5%nat ∈ s_sleeping one_sleeps /\ (5%nat ∉ s_sleeping (run_op (Tick 0 100) one_sleeps)).
Proof.
  split; [decided|].
  assert (Hb : exists blk, s_blockers one_sleeps !! 5%nat = Some blk /\ b_wake_time blk = 100) by (eexists; split; reflexivity).
  destruct Hb as (blk & Hb & Hw).
  pose proof (scheduler_wakes 1 one_sleeps (run_op (Tick 0 100) one_sleeps) 0 (Processor 21 0) 100
    (Thread 11 RUNNING UNDEFINED None false false false 0) 5 blk reachable_one_sleeps ltac:(reflexivity)
    ltac:(reflexivity) ltac:(reflexivity) ltac:(vm_compute; reflexivity) ltac:(decided) Hb) as H.
  rewrite Hw in H. by destruct H.
Defined.

Lemma unblock_releases_witness :
  exists st', blocker_unblock 5 (asks MUTEX 0) = Ok st'.
Proof.
  destruct (unblock_releases 1 (asks MUTEX 0) 5 (Blocker 20 MUTEX RESULT_UNDEFINED true 0)
    (Thread 10 RUNNING BLOCKED (Some 5%nat) false false false 0) (reachable_asks MUTEX 0)) as (st' & E & _);
    [reflexivity|reflexivity| |reflexivity|done|by exists st'].
  intros (k & c & Hk & Hc). assert (Hall : forall j d, s_cpus (asks MUTEX 0) !! j = Some d -> c_idle d = 0%nat).
  { values (fun d => (c_idle d =? 0)%nat). by apply Nat.eqb_eq. }
  specialize (Hall k c Hk). rewrite Hall in Hc. discriminate Hc.
Defined.

Lemma early_unblock_not_lost_witness :
  exists u, s_threads (run_op (Tick 0 1) (asks MUTEX 0)) !! 20%nat = Some u /\ t_state u = BLOCKED.
Proof.
  exact (early_unblock_not_lost 1 (asks MUTEX 0) (run_op (Tick 0 1) (asks MUTEX 0)) 0 (Processor 20 0) 1
    (Thread 10 RUNNING BLOCKED (Some 5%nat) false false false 0) 5 (Blocker 20 MUTEX RESULT_UNDEFINED true 0)
    (reachable_asks MUTEX 0) ltac:(reflexivity) ltac:(reflexivity) ltac:(reflexivity) ltac:(reflexivity)
    ltac:(reflexivity) ltac:(reflexivity) ltac:(vm_compute; reflexivity)).
Defined.

(** A process whose thread 22 was preempted while it is invulnerable, as it is while it owns a
    mutex: the exit of the process from thread 20 hands thread 22 to the TaskFinalizer all the
    same. *)
Definition invulnerable_ready : sched :=
  run_op (Tick 0 2) (run_op (Set_invulnerable 0 true) (run_op (Tick 0 1)
    (run_op (Tick 0 0) (run_op (Create_thread 10 22) (run_op (Create_process 10 20) (boot 1)))))).

Example killer_ignores_invulnerability :
  s_ready invulnerable_ready = [22%nat] /\
  t_invulnerable <$> (s_threads invulnerable_ready !! 22%nat) = Some true /\
  s_to_free (run_op (Tick 0 3) (run_op (Exit_process 0 1) invulnerable_ready)) = [22%nat].
Proof. split_and!; vm_compute; reflexivity. Qed.
