(* ===== verification/Parking.v ===== *)
(** The interface between the scheduler and the locks: what [Blocker::block] and
    [Blocker::unblock] promise to a thread that waits on a MutexBlocker.  The class states it, and
    the instance discharges it with the scheduler, while no thread is being killed. *)
From S2P Require Import Prelude Scheduler SchedulerInv SchedulerOps SchedulerKill SchedulerPick SchedulerSteps SchedulerSafety.
From stdpp Require Import gmap.
#[local] Open Scope Z_scope.

(** How far a thread has got with its blocker: constructed, [Blocker::block] called, blocked, and
    running again.  The flag says whether somebody has released the blocker already. *)
Inductive park := Made (released : bool) | Asked (released : bool) | Asleep | Awake.

#[export] Instance park_eq_dec : EqDecision park.
Proof. solve_decision. Defined.

Definition park_released (p : park) : bool :=
  match p with
  | Made r | Asked r => r
  | Asleep => false
  | Awake => true
  end.
(** What [unblock] does to it. *)
Definition release (p : park) : park :=
  match p with
  | Made _ => Made true
  | Asked _ => Asked true
  | Asleep | Awake => Awake
  end.
(** What the scheduling decision of its own processor does to it. *)
Definition decide_park (p : park) : park :=
  match p with
  | Asked false => Asleep
  | Asked true => Awake
  | p => p
  end.

Class Parking (S : Type) := {
  pk_inv : S -> Prop;
  (** [t] is the current thread of [cpu], and not an idle thread *)
  pk_runs : S -> nat -> nat -> Prop;
  pk_runnable : S -> nat -> Prop;
  pk_online : S -> nat -> Prop;
  (** [t] has not called [Blocker::block] *)
  pk_free : S -> nat -> Prop;
  (** [b] is a MutexBlocker of [t], which is at [p] with it *)
  pk_waits : S -> nat -> nat -> park -> Prop;
  pk_result : nat -> S -> result blocker_result;
  (** [Thread::is_invulnerable], and the threads for which it says so *)
  pk_invulnerable : nat -> S -> result bool;
  pk_guarded : S -> nat -> Prop;
  (** [Thread::set_invulnerable] on the current thread *)
  pk_guard : nat -> bool -> S -> result S;
  (** no blocker in use is at the address *)
  pk_fresh : S -> nat -> Prop;
  pk_make : nat -> nat -> S -> result S;
  pk_block : nat -> nat -> S -> result S;
  pk_unblock : nat -> S -> result S;
  pk_tick : nat -> Z -> S -> result S;
  (** nothing changes for the threads other than those of [ts], and for their blockers *)
  pk_frame (s s' : S) (ts : list nat) : Prop :=
    (forall b t p, (t ∉ ts) -> pk_waits s b t p -> pk_waits s' b t p) /\
    (forall t, (t ∉ ts) -> pk_free s t -> pk_free s' t);
  pk_guarded_law s t : pk_guarded s t -> pk_invulnerable t s = Ok true;
  pk_waits_thread s b t t' p p' : pk_waits s b t p -> pk_waits s b t' p' -> t = t';
  pk_fresh_unused s b t p : pk_fresh s b -> ~ pk_waits s b t p;
  pk_free_runnable s t : pk_inv s -> pk_free s t -> pk_runnable s t;
  pk_waits_runnable s b t p : pk_inv s -> pk_waits s b t p -> p <> Asleep -> pk_runnable s t;
  pk_asleep_stopped s b t cpu : pk_inv s -> pk_waits s b t Asleep -> ~ pk_runs s cpu t;
  pk_awake s b t : pk_waits s b t Awake -> pk_result b s = Ok UNBLOCKED /\ pk_free s t;
  pk_make_law s cpu b t :
    pk_inv s -> pk_runs s cpu t -> pk_free s t -> pk_fresh s b ->
    exists s', pk_make cpu b s = Ok s' /\ pk_inv s' /\ pk_waits s' b t (Made false) /\
      (forall b' t' p, b' <> b -> pk_waits s b' t' p -> pk_waits s' b' t' p) /\
      (forall t', pk_free s t' -> pk_free s' t') /\ (forall k u, pk_runs s' k u <-> pk_runs s k u) /\
      (forall t', pk_guarded s t' -> pk_guarded s' t');
  pk_guard_law s cpu t v :
    pk_inv s -> pk_runs s cpu t -> exists s', pk_guard cpu v s = Ok s' /\ pk_inv s' /\
      (forall b' t' p, pk_waits s b' t' p -> pk_waits s' b' t' p) /\
      (forall t', pk_free s t' -> pk_free s' t') /\ (forall k u, pk_runs s' k u <-> pk_runs s k u) /\
      (forall t', t' <> t -> pk_guarded s t' -> pk_guarded s' t') /\ (v = true -> pk_guarded s' t);
  pk_block_law s cpu b t r :
    pk_inv s -> pk_runs s cpu t -> pk_waits s b t (Made r) ->
    exists s', pk_block cpu b s = Ok s' /\ pk_inv s' /\ pk_waits s' b t (Asked r) /\
      pk_frame s s' [t] /\ (forall k u, pk_runs s' k u <-> pk_runs s k u) /\
      (forall t', pk_guarded s t' -> pk_guarded s' t');
  pk_unblock_law s b t p :
    pk_inv s -> pk_waits s b t p -> park_released p = false ->
    exists s', pk_unblock b s = Ok s' /\ pk_inv s' /\ pk_waits s' b t (release p) /\
      pk_frame s s' [t] /\ (forall k u, pk_runs s' k u <-> pk_runs s k u) /\
      (forall t', pk_guarded s t' -> pk_guarded s' t');
  pk_tick_law s cpu now :
    pk_inv s -> pk_online s cpu ->
    exists s', pk_tick cpu now s = Ok s' /\ pk_inv s' /\
    exists t, (forall u, pk_runs s cpu u -> u = t) /\ pk_frame s s' [t] /\ (pk_free s t -> pk_free s' t) /\
      (forall b p, pk_waits s b t p -> pk_runs s cpu t /\ pk_waits s' b t (decide_park p)) /\
      (forall t', pk_guarded s t' -> pk_guarded s' t') }.

(** ** The scheduler provides it *)

(** No thread is being killed. *)
Definition calm (st : sched) : Prop :=
  forall t th, s_threads st !! t = Some th -> t_should_die th = false.

Definition park_inv (st : sched) : Prop := sched_inv st NoHole /\ calm st.

Definition park_runs (st : sched) (cpu t : nat) : Prop :=
  exists c, s_cpus st !! cpu = Some c /\ c_current c = t /\ t <> c_idle c.

Definition park_runnable (st : sched) (t : nat) : Prop :=
  t ∈ s_ready st \/ exists cpu, park_runs st cpu t.

(** The blocker [b] is one of [t], which is at [p] with it. *)
Definition park_waits (st : sched) (b t : nat) (p : park) : Prop :=
  exists blk th, s_blockers st !! b = Some blk /\ b_thread blk = t /\ b_type blk = MUTEX /\
    s_threads st !! t = Some th /\ ~ is_idle st t /\ t_state th <> UNDEFINED /\
    b_should_block blk = negb (park_released p) /\
    (park_released p = true -> b_result blk = UNBLOCKED) /\
    match p with
    | Made _ | Awake => t_blocker th = None /\ t_state th <> BLOCKED
    | Asked _ => t_blocker th = Some b /\ t_state th <> BLOCKED
    | Asleep => t_blocker th = Some b /\ t_state th = BLOCKED
    end.

Definition park_free (st : sched) (t : nat) : Prop :=
  exists th, s_threads st !! t = Some th /\ ~ is_idle st t /\ t_state th <> UNDEFINED /\
    t_state th <> BLOCKED /\ t_blocker th = None.

Definition park_fresh (st : sched) (b : nat) : Prop :=
  blocker_free st b /\ forall t p, ~ park_waits st b t p.

Definition park_frame (st st' : sched) (ts : list nat) : Prop :=
  (forall b t p, (t ∉ ts) -> park_waits st b t p -> park_waits st' b t p) /\
  (forall t, (t ∉ ts) -> park_free st t -> park_free st' t).

Definition park_result (b : nat) (st : sched) : result blocker_result :=
  blk ← deref (s_blockers st) b; Ok (b_result blk).

Definition park_invulnerable (t : nat) (st : sched) : result bool :=
  th ← deref (s_threads st) t; Ok (t_invulnerable th).

Definition park_guarded (st : sched) (t : nat) : Prop :=
  exists th, s_threads st !! t = Some th /\ t_invulnerable th = true.

(** The processor exists, and the multiset of the sleeping threads gets no equal elements. *)
Definition park_online (st : sched) (cpu : nat) : Prop :=
  exists c, s_cpus st !! cpu = Some c /\ no_tie st c.

Lemma guarded_invulnerable st t : park_guarded st t -> park_invulnerable t st = Ok true.
Proof. intros (th & Ht & Hi). unfold park_invulnerable. rewrite (deref_Ok _ _ _ Ht). run. by rewrite Hi. Qed.

Lemma owners_guarded st st' t : same_owners st st' -> park_guarded st t -> park_guarded st' t.
Proof.
  intros (_ & _ & H) (th & Ht & Hi). specialize (H t). rewrite Ht in H. destruct (s_threads st' !! t) as [th'|] eqn:E; [|by inversion H].
  exists th'. split; [done|]. assert (keeps_owner th th') as (_ & _ & _ & ->) by (by inversion H). done.
Qed.

Lemma busy_facts st cpu t :
  sched_inv st NoHole -> park_runs st cpu t ->
  exists c th, s_cpus st !! cpu = Some c /\ c_current c = t /\ t <> c_idle c /\
    s_threads st !! t = Some th /\ t_state th = RUNNING /\ ~ is_idle st t.
Proof.
  intros I (c & Hc & <- & Hni). destruct (current_running st cpu c I Hc) as (th & Ht & Hs).
  exists c, th. split_and!; try done. by apply (current_not_idle st cpu c).
Qed.

(** A thread that exists, is not idle and not blocked can run. *)
Lemma unblocked_runnable st t th :
  park_inv st -> s_threads st !! t = Some th -> ~ is_idle st t -> t_state th <> UNDEFINED ->
  t_state th <> BLOCKED -> park_runnable st t.
Proof.
  intros [I Hcalm] Ht Hi Hu Hnb. assert (Hnd := Hcalm t th Ht). pose proof (inv_threads _ _ I _ _ Ht) as Hok.
  unfold thread_ok in Hok. destruct (t_state th) eqn:Hs; try done.
  - right. destruct Hok as ((cpu & c & Hc & Ec & _) & _). exists cpu, c. split_and!; try done.
    intros E. apply Hi. by exists cpu, c.
  - destruct Hok as (_ & _ & _ & Hd & _). congruence.
  - left. destruct Hok as (_ & _ & _ & _ & Ho).
    destruct Ho as [?|[?|(_ & _ & _ & Hd)]]; [tauto|tauto|congruence].
Qed.

Lemma waits_runnable st b t p :
  park_inv st -> park_waits st b t p -> p <> Asleep -> park_runnable st t.
Proof.
  intros I (blk & th & _ & _ & _ & Ht & Hi & Hu & _ & _ & Hp) Hne.
  apply (unblocked_runnable st t th); try done. destruct p; tauto.
Qed.

Lemma free_runnable st t : park_inv st -> park_free st t -> park_runnable st t.
Proof. intros I (th & Ht & Hi & Hu & Hnb & _). by apply (unblocked_runnable st t th). Qed.

Lemma waits_thread st b t t' p p' : park_waits st b t p -> park_waits st b t' p' -> t = t'.
Proof. intros (blk & ? & Hb & Ht & _) (blk' & ? & Hb' & Ht' & _). congruence. Qed.

Lemma fresh_unused st b t p : park_fresh st b -> ~ park_waits st b t p.
Proof. intros [_ H]. apply H. Qed.

Lemma asleep_stopped st b t cpu : park_inv st -> park_waits st b t Asleep -> ~ park_runs st cpu t.
Proof.
  intros [I _] (blk & th & _ & _ & _ & Ht & _ & _ & _ & _ & _ & Hs) Hrun.
  destruct (busy_facts st cpu t I Hrun) as (c & u & _ & _ & _ & Hu & Hsu & _). congruence.
Qed.

Lemma awake_facts st b t : park_waits st b t Awake -> park_result b st = Ok UNBLOCKED /\ park_free st t.
Proof.
  intros (blk & th & Hb & _ & _ & Ht & Hi & Hu & _ & Hr & Htb & Hs). split; [|by exists th].
  unfold park_result. rewrite (deref_Ok _ _ _ Hb). run. by rewrite Hr.
Qed.

Lemma idle_kept st st' cpu c next :
  s_cpus st !! cpu = Some c -> s_cpus st' = <[ cpu := Processor next (c_idle c) ]> (s_cpus st) ->
  forall t, is_idle st' t <-> is_idle st t.
Proof.
  intros Hc E t. unfold is_idle. rewrite E. split.
  - intros (k & d & Hk & Ed). destruct (decide (k = cpu)) as [->|].
    + rewrite lookup_insert_eq in Hk. injection Hk as <-. by exists cpu, c.
    + rewrite lookup_insert_ne in Hk by done. by exists k, d.
  - intros (k & d & Hk & Ed). destruct (decide (k = cpu)) as [->|].
    + exists cpu, (Processor next (c_idle c)). rewrite lookup_insert_eq. split; [done|]. fields. congruence.
    + exists k, d. by rewrite lookup_insert_ne.
Qed.

(** The blocker of a MutexBlocker never is among the sleeping ones. *)
Lemma waits_not_sleeping st b t p :
  sched_inv st NoHole -> park_waits st b t p -> b ∉ s_sleeping st.
Proof.
  intros I (blk & th & Hb & _ & Hty & _) Hin.
  destruct (inv_sleeping _ _ I b Hin) as (blk' & ? & ? & ? & _). congruence.
Qed.

(** A state in which the thread of [b] and [b] itself are as they were. *)
Lemma waits_frame st st' b t p :
  park_waits st b t p ->
  (forall blk, s_blockers st !! b = Some blk -> s_blockers st' !! b = Some blk) ->
  (forall th, s_threads st !! t = Some th -> exists th', s_threads st' !! t = Some th' /\ same_thread th th') ->
  (is_idle st' t <-> is_idle st t) ->
  park_waits st' b t p.
Proof.
  intros (blk & th & Hb & Hbt & Hty & Ht & Hi & Hu & Hsb & Hr & Hp) Eb Et Ei.
  destruct (Et th Ht) as (th' & Ht' & (_ & _ & Htb & _ & _ & Hblk & Hund)).
  exists blk, th'. rewrite Ei. split_and!; try done; [by apply Eb|by rewrite Hund|].
  destruct p; rewrite Htb, Hblk; done.
Qed.

Lemma runs_same st st' :
  s_cpus st' = s_cpus st -> forall k u, park_runs st' k u <-> park_runs st k u.
Proof. intros E k u. unfold park_runs. by rewrite E. Qed.

Lemma free_frame st st' t :
  park_free st t ->
  (forall th, s_threads st !! t = Some th -> exists th', s_threads st' !! t = Some th' /\ same_thread th th') ->
  (is_idle st' t <-> is_idle st t) -> park_free st' t.
Proof.
  intros (th & Ht & Hi & Hu & Hnb & Htb) Et Ei. destruct (Et th Ht) as (th' & Ht' & (_ & _ & Eb & _ & _ & Hblk & Hund)).
  exists th'. rewrite Ei, Hund, Hblk. split_and!; try done. congruence.
Qed.

Lemma free_blocker st cpu c th :
  sched_inv st NoHole -> s_cpus st !! cpu = Some c -> s_threads st !! c_current c = Some th ->
  t_blocker th = None -> t_requested th = UNDEFINED.
Proof.
  intros I Hc Ht Htb. destruct (current_running st cpu c I Hc) as (th' & ? & Hs). simplify_eq.
  pose proof (inv_threads _ _ I _ _ Ht) as Hok. unfold thread_ok in Hok. rewrite Hs in Hok.
  destruct Hok as (_ & _ & _ & _ & [[? _]|(_ & _ & ? & ? & (? & _) & _)] & _); congruence.
Qed.

Lemma park_make_law st cpu b t :
  park_inv st -> park_runs st cpu t -> park_free st t -> park_fresh st b ->
  exists st', make_blocker cpu b MUTEX 0 st = Ok st' /\ park_inv st' /\ park_waits st' b t (Made false) /\
    (forall b' t' p, b' <> b -> park_waits st b' t' p -> park_waits st' b' t' p) /\
    (forall t', park_free st t' -> park_free st' t') /\ (forall k u, park_runs st' k u <-> park_runs st k u) /\
    (forall t', park_guarded st t' -> park_guarded st' t').
Proof.
  intros [I Hcalm] Hrun Hfr [Hfree _]. destruct (busy_facts st cpu t I Hrun) as (c & th & Hc & <- & Hni & Ht & Hs & Hi).
  destruct Hfr as (u0 & Hu0 & _ & Hu & Hnb & Htb). rewrite Ht in Hu0. injection Hu0 as <-.
  unfold make_blocker. rewrite (deref_Ok _ _ _ Hc). run. eexists. split_and!; [done| | | |done|by apply runs_same|done].
  - split; [by apply new_blocker_Ok|done].
  - exists (Blocker (c_current c) MUTEX RESULT_UNDEFINED true 0), th. fields. rewrite lookup_insert_eq. by split_and!.
  - intros b' t' p Hne Hw. apply (waits_frame st); try done.
    + intros blk Hb. fields. by rewrite lookup_insert_ne.
    + intros u Hu'. exists u. split; [done|apply same_thread_refl].
Qed.

Lemma park_guard_law st cpu t v :
  park_inv st -> park_runs st cpu t ->
  exists st', make_invulnerable cpu v st = Ok st' /\ park_inv st' /\
    (forall b' t' p, park_waits st b' t' p -> park_waits st' b' t' p) /\
    (forall t', park_free st t' -> park_free st' t') /\ (forall k u, park_runs st' k u <-> park_runs st k u) /\
    (forall t', t' <> t -> park_guarded st t' -> park_guarded st' t') /\ (v = true -> park_guarded st' t).
Proof.
  intros [I Hcalm] Hrun. destruct (busy_facts st cpu t I Hrun) as (c & th & Hc & <- & Hni & Ht & Hs & Hi).
  unfold make_invulnerable. rewrite (deref_Ok _ _ _ Hc). run. rewrite (deref_Ok _ _ _ Ht). run.
  assert (Hl : forall t, exists f, s_threads (put_thread (c_current c) (set_invulnerable v th) st) !! t =
    (fun u => set_invulnerable (f u) u) <$> s_threads st !! t).
  { intros t. fields. destruct (decide (t = c_current c)) as [->|].
    - exists (fun _ => v). by rewrite lookup_insert_eq, Ht.
    - exists t_invulnerable. rewrite lookup_insert_ne by done. by destruct (s_threads st !! t) as [[]|]. }
  eexists. split_and!; [done| | | |by apply runs_same| |].
  - split; [by apply (invulnerable_Ok st cpu)|]. intros t u Hu. destruct (Hl t) as [f El]. rewrite Hu in El.
    destruct (s_threads st !! t) as [w|] eqn:Ew; [|done]. injection El as ->. by apply (Hcalm t w).
  - intros b' t' p (blk & w & Hb & Hbt & Hty & Hw & Hi' & Hu & Hsb & Hr & Hp). destruct (Hl t') as [f El]. rewrite Hw in El.
    exists blk, (set_invulnerable (f w) w). by split_and!.
  - intros t' (w & Hw & Hi' & Hu & Hnb & Hb). destruct (Hl t') as [f El]. rewrite Hw in El.
    exists (set_invulnerable (f w) w). by split_and!.
  - intros t' Hne (w & Hw & Hg). exists w. fields. by rewrite lookup_insert_ne.
  - intros ->. exists (set_invulnerable true th). fields. by rewrite lookup_insert_eq.
Qed.

Lemma park_block_law st cpu b t r :
  park_inv st -> park_runs st cpu t -> park_waits st b t (Made r) ->
  exists st', scheduler_block cpu b st = Ok st' /\ park_inv st' /\ park_waits st' b t (Asked r) /\
    park_frame st st' [t] /\ (forall k u, park_runs st' k u <-> park_runs st k u) /\
    (forall t', park_guarded st t' -> park_guarded st' t').
Proof.
  intros [I Hcalm] Hrun Hw. destruct (busy_facts st cpu t I Hrun) as (c & th & Hc & <- & Hni & Ht & Hs & Hi).
  destruct Hw as (blk & u0 & Hb & Hbt & Hty & Hu0 & _ & Hu & Hsb & Hr & Htb & Hnb). rewrite Ht in Hu0. injection Hu0 as <-.
  destruct (scheduler_block_Ok st cpu c th b blk I Hc Ht Hni Htb Hb Hbt) as (st' & E & I' & ->).
  eexists. split_and!; [done| | | |by apply runs_same|intros t'; by eapply owners_guarded, same_owners_put].
  - split; [done|]. intros t u. fields. destruct (decide (t = c_current c)) as [->|].
    + rewrite lookup_insert_eq. intros [= <-]. by apply (Hcalm (c_current c) th).
    + rewrite lookup_insert_ne by done. apply Hcalm.
  - eexists blk, _. fields. rewrite lookup_insert_eq. split_and!; try done; by fields.
  - assert (Hother : forall t u, (t ∉ [c_current c]) -> s_threads st !! t = Some u ->
      exists u', <[ c_current c := request_state BLOCKED UNDEFINED (set_blocker (Some b) th) ]> (s_threads st) !! t = Some u' /\
        same_thread u u').
    { intros t u Hne Hut. exists u. rewrite lookup_insert_ne by set_solver. split; [done|apply same_thread_refl]. }
    split; [intros b' t' p Hne Hw; apply (waits_frame st); auto; done|intros t' Hne Hw; apply (free_frame st); auto; done].
Qed.

Lemma released_result st b blk :
  sched_inv st NoHole -> s_blockers st !! b = Some blk -> b_should_block blk = true ->
  b_should_block (set_result UNBLOCKED blk) = false /\ b_result (set_result UNBLOCKED blk) = UNBLOCKED.
Proof.
  intros I Hb Hsb. apply (inv_blockers _ _ I b blk Hb) in Hsb. unfold set_result. by rewrite decide_True.
Qed.

(** Releasing the blocker of a thread that is not blocked. *)
Lemma park_release_early st b blk th p :
  park_inv st -> s_blockers st !! b = Some blk -> s_threads st !! b_thread blk = Some th ->
  park_waits st b (b_thread blk) p -> t_state th <> BLOCKED -> park_released p = false ->
  let st' := put_blocker b (set_result UNBLOCKED blk) st in
  blocker_unblock b st = Ok st' /\ park_inv st' /\ park_waits st' b (b_thread blk) (release p) /\
  park_frame st st' [b_thread blk].
Proof.
  intros [I Hcalm] Hb Ht (blk' & u & Hb' & _ & Hty & Hu & Hi & Hund & Hsb & _ & Hp) Hs Hrel st'.
  rewrite Hb in Hb'. injection Hb' as <-. rewrite Ht in Hu. injection Hu as <-.
  rewrite Hrel in Hsb. cbn [negb] in Hsb.
  destruct (released_result st b blk I Hb Hsb) as [R1 R2].
  assert (Hne : forall x y, (y ∉ [b_thread blk]) -> forall q, park_waits st x y q -> x <> b).
  { intros x y Hy q (w & ? & Hw & Ew & _) ->. apply Hy. rewrite Hb in Hw. injection Hw as <-. rewrite Ew. by left. }
  split_and!.
  - unfold blocker_unblock, unblock_unchecked. rewrite (deref_Ok _ _ _ Hb). run. rewrite Hsb. cbn [negb].
    rewrite (deref_Ok _ _ _ Ht). run. by rewrite bool_decide_false.
  - split; [by apply (release_armed st NoHole b blk (b_thread blk) th)|done].
  - exists (set_result UNBLOCKED blk), th. unfold st'. fields.
    rewrite lookup_insert_eq, set_result_thread, set_result_type, R1. destruct p; try done; split_and!; try done; tauto.
  - split; [|done]. intros x y q Hy Hw. apply (waits_frame st); try done.
    + intros w Hw'. unfold st'. fields. rewrite lookup_insert_ne; [done|]. intros <-. by apply (Hne b y Hy q).
    + intros w Hw'. exists w. split; [done|apply same_thread_refl].
Qed.

(** Releasing the blocker of a blocked thread. *)
Lemma park_release_asleep st b blk th :
  park_inv st -> s_blockers st !! b = Some blk -> s_threads st !! b_thread blk = Some th ->
  park_waits st b (b_thread blk) Asleep ->
  let st' := readied (b_thread blk) b th (set_result UNBLOCKED blk) (s_sleeping st) st in
  blocker_unblock b st = Ok st' /\ park_inv st' /\ park_waits st' b (b_thread blk) Awake /\
  park_frame st st' [b_thread blk].
Proof.
  intros [I Hcalm] Hb Ht Hw st'. assert (Hns := waits_not_sleeping st b _ _ I Hw).
  destruct Hw as (blk' & u & Hb' & _ & Hty & Hu & Hi & Hund & Hsb & _ & Htb & Hs).
  rewrite Hb in Hb'. injection Hb' as <-. rewrite Ht in Hu. injection Hu as <-.
  cbn [park_released negb] in Hsb. destruct (released_result st b blk I Hb Hsb) as [R1 R2].
  assert (Hf : ~ freed st (b_thread blk)).
  { pose proof (inv_threads _ _ I _ _ Ht) as Hok. unfold thread_ok in Hok. rewrite Hs in Hok.
    destruct Hok as (_ & _ & _ & _ & _ & ? & ? & _ & _ & [?|(_ & _ & Hd)]); [tauto|]. assert (Hd' := Hcalm _ _ Ht). congruence. }
  pose proof (unblock_unchecked_blocked st NoHole _ th b blk (s_sleeping st) I Hb eq_refl Ht Hs Htb Hf) as E.
  rewrite with_sleeping_id in E.
  assert (Hother : forall t, (t ∉ [b_thread blk]) -> forall u, s_threads st !! t = Some u ->
    exists u', s_threads st' !! t = Some u' /\ same_thread u u').
  { intros t Hne u Hu. exists u. unfold st', readied. fields.
    rewrite lookup_insert_ne by set_solver. split; [done|apply same_thread_refl]. }
  split_and!.
  - unfold blocker_unblock. rewrite (deref_Ok _ _ _ Hb). run. rewrite Hsb. cbn [negb]. exact E.
  - split.
    + apply unblock_blocked; try done; [|apply I..]. intros x. split; [|tauto]. intros Hx. split; [done|]. by intros ->.
    + intros t u. unfold st', readied. fields. destruct (decide (t = b_thread blk)) as [->|].
      * rewrite lookup_insert_eq. intros [= <-]. by apply (Hcalm (b_thread blk) th).
      * rewrite lookup_insert_ne by done. apply Hcalm.
  - eexists (set_result UNBLOCKED blk), _. unfold st', readied. fields.
    rewrite !lookup_insert_eq, set_result_thread, set_result_type, R1. split_and!; try done.
  - split.
    + intros x y q Hy Hw. apply (waits_frame st); try done; [|by apply Hother].
      intros w Hw'. unfold st', readied. fields. rewrite lookup_insert_ne; [done|]. intros <-.
      destruct Hw as (w2 & ? & Hw2 & Ew & _). apply Hy. rewrite Hb in Hw2. injection Hw2 as <-. rewrite Ew. by left.
    + intros y Hy Hw. apply (free_frame st); try done. by apply Hother.
Qed.

Lemma park_unblock_law st b t p :
  park_inv st -> park_waits st b t p -> park_released p = false ->
  exists st', blocker_unblock b st = Ok st' /\ park_inv st' /\ park_waits st' b t (release p) /\
    park_frame st st' [t] /\ (forall k u, park_runs st' k u <-> park_runs st k u) /\
    (forall t', park_guarded st t' -> park_guarded st' t').
Proof.
  intros I Hw Hrel. pose proof Hw as (blk & th & Hb & <- & Hty & Ht & _ & _ & _ & _ & Hp).
  assert (Hg : forall st' t', blocker_unblock b st = Ok st' -> park_guarded st t' -> park_guarded st' t').
  { intros st' t' E. eapply owners_guarded, blocker_unblock_owners. exact E. }
  destruct (decide (p = Asleep)) as [->|Hne].
  - destruct (park_release_asleep st b blk th I Hb Ht Hw) as (E & ? & ? & ?).
    eexists. split_and!; try done. intros t'. by apply Hg.
  - assert (Hs : t_state th <> BLOCKED) by (destruct p; tauto).
    destruct (park_release_early st b blk th p I Hb Ht Hw Hs Hrel) as (E & ? & ? & ?).
    eexists. split_and!; try done.
Qed.

Lemma park_tick_law st cpu now :
  park_inv st -> park_online st cpu ->
  exists st', pick_next cpu now st = Ok st' /\ park_inv st' /\
  exists t, (forall u, park_runs st cpu u -> u = t) /\ park_frame st st' [t] /\
    (park_free st t -> park_free st' t) /\
    (forall b p, park_waits st b t p -> park_runs st cpu t /\ park_waits st' b t (decide_park p)) /\
    (forall t', park_guarded st t' -> park_guarded st' t').
Proof.
  intros [I Hcalm] (c & Hc & _). destruct (current_running st cpu c I Hc) as (th & Ht & Hs).
  destruct (pick_next_Ok st cpu c now th I Hc Ht) as (st' & _ & _ & E & _).
  exists st'. split; [done|].
  assert (Hd : t_should_die th && negb (t_invulnerable th) = false) by (by rewrite (Hcalm _ _ Ht)).
  destruct (tick_threads st cpu c now th st' I Hc Ht Hd E) as (Hoth & (u' & Hu' & Hund & Hblk & Htb') & Hbl & Hdie).
  destruct (tick_queue st cpu c now th st' I Hc Ht Hd E) as (extra & _ & Ec).
  assert (Hidle := idle_kept st st' cpu c _ Hc Ec).
  assert (Hrunning : forall b, t_blocker th = Some b -> t_requested th = BLOCKED).
  { pose proof (inv_threads _ _ I _ _ Ht) as Hok. unfold thread_ok in Hok. rewrite Hs in Hok.
    intros b Hb. destruct Hok as (_ & _ & _ & _ & [[_ ?]|(? & _)] & _); congruence. }
  split.
  { split; [by destruct (tick_details st cpu c now th st' I Hc Ht Hd E) as (? & ? & _ & _ & _ & _ & _ & _ & _ & _ & ? & _)|].
    intros t v Hv. destruct (Hdie t v Hv) as (w & Hw & ->). by apply (Hcalm t). }
  exists (c_current c). split_and!.
  - intros u (c' & Hc' & <- & _). by simplify_eq.
  - split.
    + intros b t p Hne Hw. assert (Hns := waits_not_sleeping st b t p I Hw).
      apply (waits_frame st); try done; [intros blk Hb; by apply Hbl|].
      intros w Hww. apply Hoth; [set_solver|done|]. intros b' Hb'.
      destruct Hw as (? & w' & _ & _ & _ & Hw' & _ & _ & _ & _ & Hp). rewrite Hww in Hw'. injection Hw' as <-.
      destruct p; destruct Hp as [Hp _]; congruence.
    + intros t Hne Hw. apply (free_frame st); try done. intros w Hww. apply Hoth; [set_solver|done|].
      destruct Hw as (w' & Hw' & _ & _ & _ & Hn). congruence.
  - intros (w & Hw & Hi & Hu & Hnb & Hn). rewrite Ht in Hw. injection Hw as <-.
    assert (Hnb' : t_state u' <> BLOCKED) by (rewrite Hblk; intros (b & blk & _ & ? & _); congruence).
    exists u'. rewrite Hidle. split_and!; try done. by rewrite Htb', decide_False.
  - intros b p Hw. assert (Hns := waits_not_sleeping st b _ p I Hw).
    destruct Hw as (blk & w & Hb & Hbt & Hty & Hw & Hi & Hu & Hsb & Hr & Hp). rewrite Ht in Hw. injection Hw as <-.
    split; [exists c; split_and!; try done; intros E'; apply Hi; by exists cpu, c|].
    apply (Hbl b blk Hb) in Hns as Hb'. exists blk, u'. rewrite Hidle.
    assert (Hiff : t_state u' = BLOCKED <-> t_blocker th = Some b /\ b_should_block blk = true).
    { rewrite Hblk. split.
      - intros (b2 & blk2 & _ & H2 & H3 & H4). destruct p; destruct Hp as [Hp ?]; congruence || (simplify_eq; done).
      - intros [H2 H3]. exists b, blk. split_and!; try done. by apply (Hrunning b). }
    destruct p as [r|[]| |]; cbn [park_released decide_park negb] in *; destruct Hp as [Hp1 Hp2]; split_and!; try done;
      try congruence; rewrite ?Htb'.
    all: first [rewrite decide_False by (rewrite Hiff; intros []; congruence); done
               |rewrite decide_True by (by apply Hiff); done|rewrite Hiff; intros []; congruence|by apply Hiff].
  - intros t'. by eapply owners_guarded, pick_next_owners.
Qed.

#[export] Instance scheduler_parking : Parking sched := {|
  pk_inv := park_inv;
  pk_runs := park_runs;
  pk_runnable := park_runnable;
  pk_online := park_online;
  pk_free := park_free;
  pk_waits := park_waits;
  pk_result := park_result;
  pk_invulnerable := park_invulnerable;
  pk_guarded := park_guarded;
  pk_guard := make_invulnerable;
  pk_fresh := park_fresh;
  pk_make cpu b := make_blocker cpu b MUTEX 0;
  pk_block := scheduler_block;
  pk_unblock := blocker_unblock;
  pk_tick := pick_next;
  pk_guarded_law := guarded_invulnerable;
  pk_guard_law := park_guard_law;
  pk_waits_thread := waits_thread;
  pk_fresh_unused := fresh_unused;
  pk_free_runnable := free_runnable;
  pk_waits_runnable := waits_runnable;
  pk_asleep_stopped := asleep_stopped;
  pk_awake := awake_facts;
  pk_make_law := park_make_law;
  pk_block_law := park_block_law;
  pk_unblock_law := park_unblock_law;
  pk_tick_law := park_tick_law |}.
