(* ===== verification/Mutex.v ===== *)
(** Mutex and SharedMutex (Multitasking/Mutex.h, Mutex.cpp), proved against the interface
    [Parking] of the scheduler.

    A lock operation is the sequence of its atomic parts: a turn of the loop under
    [m_state_access_lock], the call of [Blocker::block], the scheduling decision inside it, and the
    return from it.  The machine interleaves the parts of all threads and the scheduling
    decisions of all processors in any order. *)
From S2P Require Import Prelude Scheduler SchedulerInv SchedulerSafety Parking.
From stdpp Require Import gmap.
#[local] Open Scope Z_scope.

(** ** The code *)

Inductive mode := Exclusive | Shared.
#[export] Instance mode_eq_dec : EqDecision mode.
Proof. solve_decision. Defined.

(** [Kernel/Multitasking/Mutex.h:10-20] class Mutex; a waiter is the address of its blocker *)
Record mutex := Mutex { m_owner : option nat; m_waiters : list nat }.

(** [Kernel/Multitasking/Mutex.h:22-45] class SharedMutex *)
Record shared_mutex := SharedMutex {
  m_shared_refcount : Z;
  m_shared_waiters : list nat;
  m_exclusive_waiters : list nat }.
(** [Kernel/Multitasking/Mutex.h:33-33] SharedMutex::exclusive_mode *)
Definition exclusive_mode : Z := -1.
(** [Kernel/Multitasking/Mutex.h:34-34] SharedMutex::free_mode *)
Definition free_mode : Z := 0.

Section Code.
Context {S : Type} `{Parking S}.

(** [Kernel/Multitasking/Mutex.cpp:8-28] Mutex::lock, one turn of the loop by thread [t]: whether
    the mutex was taken; if not, the blocker, constructed at [b], is queued *)
Definition mutex_lock_turn (cpu t b : nat) (m : mutex) (s : S) : result (mutex * S * bool) :=
  is_invulnerable ← pk_invulnerable t s;
  ASSERT is_invulnerable ;;
  if decide (m_owner m = Some t) then Fault AssertionFailed else
  match m_owner m with
  | None => Ok (Mutex (Some t) (m_waiters m), s, true)
  | Some _ =>
      s ← pk_make cpu b s;
      Ok (Mutex (m_owner m) (m_waiters m ++ [b]), s, false)
  end.

(** [Kernel/Multitasking/Mutex.cpp:30-31] Mutex::lock, the result of [blocker.block] *)
Definition check_result (b : nat) (s : S) : result unit :=
  r ← pk_result b s; ASSERT (bool_decide (r = UNBLOCKED)).

(** [Kernel/Multitasking/Mutex.cpp:35-48] Mutex::unlock *)
Definition mutex_unlock (t : nat) (m : mutex) (s : S) : result (mutex * S) :=
  ASSERT (bool_decide (m_owner m = Some t)) ;;
  match m_waiters m with
  | [] => Ok (Mutex None [], s)
  | b :: l =>
      s ← pk_unblock b s;
      Ok (Mutex None l, s)
  end.

(** [Kernel/Multitasking/Mutex.cpp:50-68] SharedMutex::exclusive_lock, one turn of the loop *)
Definition exclusive_lock_turn (cpu t b : nat) (m : shared_mutex) (s : S) :
    result (shared_mutex * S * bool) :=
  is_invulnerable ← pk_invulnerable t s;
  ASSERT is_invulnerable ;;
  if decide (m_shared_refcount m = free_mode) then
    Ok (SharedMutex exclusive_mode (m_shared_waiters m) (m_exclusive_waiters m), s, true)
  else
    s ← pk_make cpu b s;
    Ok (SharedMutex (m_shared_refcount m) (m_shared_waiters m) (m_exclusive_waiters m ++ [b]), s, false).

(** [Kernel/Multitasking/Mutex.cpp:98-116] SharedMutex::shared_lock, one turn of the loop *)
Definition shared_lock_turn (cpu t b : nat) (m : shared_mutex) (s : S) :
    result (shared_mutex * S * bool) :=
  is_invulnerable ← pk_invulnerable t s;
  ASSERT is_invulnerable ;;
  if decide (m_shared_refcount m >= free_mode) then
    Ok (SharedMutex (m_shared_refcount m + 1) (m_shared_waiters m) (m_exclusive_waiters m), s, true)
  else
    s ← pk_make cpu b s;
    Ok (SharedMutex (m_shared_refcount m) (m_shared_waiters m ++ [b]) (m_exclusive_waiters m), s, false).

(** [Kernel/Multitasking/Mutex.cpp:84-88] SharedMutex::exclusive_unlock, waking every shared waiter *)
Fixpoint unblock_all (l : list nat) (s : S) : result S :=
  match l with
  | [] => Ok s
  | b :: l => s ← pk_unblock b s; unblock_all l s
  end.

(** [Kernel/Multitasking/Mutex.cpp:75-95] SharedMutex::exclusive_unlock *)
Definition exclusive_unlock (m : shared_mutex) (s : S) : result (shared_mutex * S) :=
  ASSERT (bool_decide (m_shared_refcount m = exclusive_mode)) ;;
  s ← unblock_all (m_shared_waiters m) s;
  if negb (bool_decide (m_shared_waiters m = [])) then
    Ok (SharedMutex free_mode [] (m_exclusive_waiters m), s)
  else
    match m_exclusive_waiters m with
    | [] => Ok (SharedMutex free_mode [] [], s)
    | b :: l => s ← pk_unblock b s; Ok (SharedMutex free_mode [] l, s)
    end.

(** [Kernel/Multitasking/Mutex.cpp:123-133] SharedMutex::shared_unlock *)
Definition shared_unlock (m : shared_mutex) (s : S) : result (shared_mutex * S) :=
  ASSERT (bool_decide (m_shared_refcount m > free_mode)) ;;
  let new_refcount := m_shared_refcount m - 1 in
  match m_exclusive_waiters m with
  | b :: l =>
      if decide (new_refcount = free_mode) then
        s ← pk_unblock b s; Ok (SharedMutex new_refcount (m_shared_waiters m) l, s)
      else Ok (SharedMutex new_refcount (m_shared_waiters m) (m_exclusive_waiters m), s)
  | [] => Ok (SharedMutex new_refcount (m_shared_waiters m) [], s)
  end.

End Code.

(** ** Where each thread is *)

(** Outside of the lock, at the top of the loop of a lock function, with a queued blocker before
    [Blocker::block], inside it before and after the scheduling decision, and holding the lock. *)
Inductive place :=
  | Out
  | Try (m : mode)
  | Wait (m : mode) (b : nat)
  | Blk (m : mode) (b : nat)
  | Ret (m : mode) (b : nat)
  | Hold (m : mode).
#[export] Instance place_eq_dec : EqDecision place.
Proof. solve_decision. Defined.

Definition blocker_of (p : place) : option nat :=
  match p with
  | Wait _ b | Blk _ b | Ret _ b => Some b
  | _ => None
  end.

Section Waiting.
Context {S : Type} `{Parking S}.

(** What the blocker of a thread at [p] is at, when [q] are the blockers still queued. *)
Definition place_ok (s : S) (q : list nat) (t : nat) (p : place) : Prop :=
  match p with
  | Out | Try _ | Hold _ => pk_free s t
  | Wait _ b => pk_waits s b t (Made (bool_decide (b ∉ q)))
  | Blk _ b => pk_waits s b t (Asked (bool_decide (b ∉ q)))
  | Ret _ b => pk_waits s b t (if decide (b ∈ q) then Asleep else Awake)
  end.

Record wait_inv (s : S) (places : gmap nat place) (q : list nat) : Prop := {
  wi_sched : pk_inv s;
  wi_place : forall t p, places !! t = Some p -> place_ok s q t p;
  wi_guarded : forall t p, places !! t = Some p -> p <> Out -> pk_guarded s t;
  wi_queued : forall b, b ∈ q -> exists t p, places !! t = Some p /\ blocker_of p = Some b;
  wi_nodup : NoDup q }.

(** On its way to the next turn of the loop, and not asleep. *)
Definition retrying (q : list nat) (p : place) : Prop :=
  match p with
  | Try _ => True
  | Wait _ b | Blk _ b | Ret _ b => b ∉ q
  | _ => False
  end.

Lemma place_waits s q t p b :
  place_ok s q t p -> blocker_of p = Some b -> exists k, pk_waits s b t k.
Proof. destruct p; cbn; intros Hw [= <-]; eauto. Qed.

Lemma wait_unique s places q t t' p p' b :
  wait_inv s places q -> places !! t = Some p -> places !! t' = Some p' ->
  blocker_of p = Some b -> blocker_of p' = Some b -> t = t'.
Proof.
  intros W Ht Ht' Hb Hb'.
  destruct (place_waits s q t p b (wi_place _ _ _ W _ _ Ht) Hb) as [k Hk].
  destruct (place_waits s q t' p' b (wi_place _ _ _ W _ _ Ht') Hb') as [k' Hk'].
  by apply (pk_waits_thread s b t t' k k').
Qed.

Lemma retrying_runnable s places q t p :
  wait_inv s places q -> places !! t = Some p -> retrying q p -> pk_runnable s t.
Proof.
  intros W Ht Hr. assert (Hp := wi_place _ _ _ W _ _ Ht). assert (I := wi_sched _ _ _ W).
  destruct p; cbn in Hr, Hp; try done.
  - by apply pk_free_runnable.
  - by eapply pk_waits_runnable.
  - by eapply pk_waits_runnable.
  - rewrite decide_False in Hp by done. by eapply pk_waits_runnable.
Qed.

Lemma place_ok_ext s q q' t p :
  (forall b, blocker_of p = Some b -> b ∈ q' <-> b ∈ q) -> place_ok s q t p -> place_ok s q' t p.
Proof.
  intros E. destruct p as [|?|? b|? b|? b|?]; cbn in *; try done; specialize (E b eq_refl).
  - by rewrite (bool_decide_ext (b ∉ q') (b ∉ q)) by (unfold not; by rewrite E).
  - by rewrite (bool_decide_ext (b ∉ q') (b ∉ q)) by (unfold not; by rewrite E).
  - by rewrite (decide_ext (b ∈ q') (b ∈ q)).
Qed.

Lemma place_ok_frame s s' q t p ts :
  pk_frame s s' ts -> (t ∉ ts) -> place_ok s q t p -> place_ok s' q t p.
Proof. intros [F1 F2] Ht. destruct p; cbn; auto. Qed.

Lemma guarded_insert (s : S) (places : gmap nat place) t p :
  (forall t p, places !! t = Some p -> p <> Out -> pk_guarded s t) -> (p <> Out -> pk_guarded s t) ->
  forall t' p', <[ t := p ]> places !! t' = Some p' -> p' <> Out -> pk_guarded s t'.
Proof.
  intros Hg Hp t' p'. destruct (decide (t' = t)) as [->|]; rewrite ?lookup_insert_eq, ?lookup_insert_ne by done;
    [by intros [= <-]|apply Hg].
Qed.

(** A thread outside of the lock's functions sets or clears its invulnerability. *)
Lemma wait_guard s places q cpu t v :
  wait_inv s places q -> places !! t = Some Out -> pk_runs s cpu t ->
  exists s', pk_guard cpu v s = Ok s' /\ wait_inv s' places q.
Proof.
  intros [I Hp Hg Hq Hn] Ht Hrun.
  destruct (pk_guard_law s cpu t v I Hrun) as (s' & E & I' & Hw & Hf & _ & Hgs & _).
  exists s'. split; [done|]. split; try done.
  - intros t' p Ht'. specialize (Hp t' p Ht'). destruct p; cbn in *; auto.
  - intros t' p Ht' Hne. apply Hgs; [naive_solver|]. by apply (Hg t' p).
Qed.

(** The lock is taken or given back. *)
Lemma wait_move s places q t p p' :
  wait_inv s places q -> places !! t = Some p -> blocker_of p = None -> blocker_of p' = None ->
  (p' <> Out -> pk_guarded s t) ->
  wait_inv s (<[ t := p' ]> places) q.
Proof.
  intros [I Hp Hg Hq Hn] Ht Hb Hb' Hg'. assert (Hfree : pk_free s t) by (specialize (Hp t p Ht); by destruct p).
  split; try done.
  - intros t' u. destruct (decide (t' = t)) as [->|]; rewrite ?lookup_insert_eq, ?lookup_insert_ne by done; [|by apply Hp].
    intros [= <-]. by destruct p'.
  - by apply guarded_insert.
  - intros b Hbq. destruct (Hq b Hbq) as (t' & u & Ht' & Hbu). exists t', u. rewrite lookup_insert_ne; [done|]. naive_solver.
Qed.

(** A blocker is constructed and queued. *)
Lemma wait_make s places q q' cpu t m b :
  wait_inv s places q -> places !! t = Some (Try m) -> pk_runs s cpu t -> pk_fresh s b ->
  (forall x, x ∈ q' <-> x = b \/ x ∈ q) -> NoDup q' ->
  exists s', pk_make cpu b s = Ok s' /\ wait_inv s' (<[ t := Wait m b ]> places) q'.
Proof.
  intros [I Hp Hg Hq Hn] Ht Hrun Hfresh Hq' Hn'.
  assert (Hfree : pk_free s t) by (by apply (Hp t (Try m))).
  destruct (pk_make_law s cpu b t I Hrun Hfree Hfresh) as (s' & E & I' & Hw & Hothers & Hfrees & Hruns & Hgs).
  assert (Hunused : forall t' p, places !! t' = Some p -> blocker_of p <> Some b).
  { intros t' p Ht' Hb. destruct (place_waits s q t' p b (Hp t' p Ht') Hb) as [k Hk]. by apply (pk_fresh_unused s b t' k). }
  exists s'. split; [done|]. split; try done.
  - intros t' p. destruct (decide (t' = t)) as [->|]; rewrite ?lookup_insert_eq, ?lookup_insert_ne by done.
    + intros [= <-]. cbn. by rewrite bool_decide_false by set_solver.
    + intros Ht'. apply (place_ok_ext s' q).
      { intros x Hx. rewrite Hq'. split; [|tauto]. intros [->|?]; [|done]. by destruct (Hunused t' p). }
      specialize (Hp t' p Ht'). assert (Hub := Hunused t' p Ht'). destruct p; cbn in *; auto; apply Hothers; congruence.
  - apply guarded_insert; [eauto|]. intros _. by apply Hgs, (Hg t (Try m)).
  - intros x [->|Hx]%Hq'; [exists t, (Wait m b); by rewrite lookup_insert_eq|].
    destruct (Hq x Hx) as (t' & u & Ht' & Hbu). exists t', u. rewrite lookup_insert_ne; [done|]. naive_solver.
Qed.

(** [Blocker::block] is called. *)
Lemma wait_block s places q cpu t m b :
  wait_inv s places q -> places !! t = Some (Wait m b) -> pk_runs s cpu t ->
  exists s', pk_block cpu b s = Ok s' /\ wait_inv s' (<[ t := Blk m b ]> places) q.
Proof.
  intros [I Hp Hg Hq Hn] Ht Hrun. assert (Hw := Hp t _ Ht). cbn in Hw.
  destruct (pk_block_law s cpu b t _ I Hrun Hw) as (s' & E & I' & Hw' & F & _ & Hgs). exists s'. split; [done|]. split; try done.
  - intros t' p. destruct (decide (t' = t)) as [->|]; rewrite ?lookup_insert_eq, ?lookup_insert_ne by done.
    + by intros [= <-].
    + intros Ht'. apply (place_ok_frame s s' q t' p [t] F); [set_solver|by apply Hp].
  - apply guarded_insert; [eauto|]. intros _. by apply Hgs, (Hg t (Wait m b)).
  - intros x Hx. destruct (Hq x Hx) as (t' & u & Ht' & Hbu). destruct (decide (t' = t)) as [->|].
    + exists t, (Blk m b). rewrite lookup_insert_eq. simplify_eq. done.
    + exists t', u. by rewrite lookup_insert_ne.
Qed.

(** The scheduling decision of a processor: the call of [Blocker::block] of its thread, if it is
    in one, will return the next time the thread runs. *)
Definition tick_place (p : place) : place :=
  match p with
  | Blk m b => Ret m b
  | p => p
  end.
Definition tick_places (cur : option nat) (places : gmap nat place) : gmap nat place :=
  match cur with
  | Some t => alter tick_place t places
  | None => places
  end.

Lemma tick_place_blocker p : blocker_of (tick_place p) = blocker_of p.
Proof. by destruct p. Qed.

Lemma tick_places_lookup cur places t p :
  tick_places cur places !! t = Some p ->
  exists p0, places !! t = Some p0 /\ p = if decide (cur = Some t) then tick_place p0 else p0.
Proof.
  destruct cur as [u|]; cbn; [|intros; exists p; by rewrite decide_False by done].
  rewrite lookup_alter_Some. intros [(-> & p0 & ? & ->)|[Hne ?]].
  - exists p0. by rewrite decide_True.
  - exists p. rewrite decide_False; [done|]. congruence.
Qed.

Lemma wait_tick s places q cpu now cur :
  wait_inv s places q -> (forall t, pk_runs s cpu t <-> cur = Some t) -> pk_online s cpu ->
  exists s', pk_tick cpu now s = Ok s' /\ wait_inv s' (tick_places cur places) q.
Proof.
  intros [I Hp Hg Hq Hn] Hcur Hon.
  destruct (pk_tick_law s cpu now I Hon) as (s' & E & I' & t0 & Hruns & F & Hfree & Hw & Hgs).
  exists s'. split; [done|]. split; try done.
  - intros t p (p0 & Ht & ->)%tick_places_lookup. specialize (Hp t p0 Ht).
    destruct (decide (t = t0)) as [->|Hne].
    + destruct p0 as [|?|? b|? b|? b|?]; cbn [place_ok] in Hp.
      all: try (by case_decide; apply Hfree).
      * destruct (Hw _ _ Hp) as [Hr Hw']. rewrite decide_True by (by apply Hcur). exact Hw'.
      * destruct (Hw _ _ Hp) as [Hr Hw']. rewrite decide_True by (by apply Hcur). cbn.
        destruct (decide (b ∈ q)) as [Hb|Hb].
        -- rewrite bool_decide_false in Hw' by tauto. exact Hw'.
        -- rewrite bool_decide_true in Hw' by done. exact Hw'.
      * destruct (Hw _ _ Hp) as [Hr Hw']. rewrite decide_True by (by apply Hcur). cbn.
        by destruct (decide (b ∈ q)).
    + rewrite decide_False by (intros Hc; apply Hne, Hruns, Hcur, Hc).
      apply (place_ok_frame s s' q t p0 [t0] F); [set_solver|done].
  - intros t p (p0 & Ht & ->)%tick_places_lookup Hne. apply Hgs, (Hg t p0 Ht). intros ->. by case_decide.
  - intros b Hb. destruct (Hq b Hb) as (t & p & Ht & Hbp). destruct cur as [u|]; [|by exists t, p].
    destruct (decide (t = u)) as [->|].
    + exists u, (tick_place p). cbn. rewrite lookup_alter_eq, Ht, tick_place_blocker. done.
    + exists t, p. cbn. by rewrite lookup_alter_ne.
Qed.

(** [Blocker::block] returns. *)
Lemma wait_return s places q cpu t m b :
  wait_inv s places q -> places !! t = Some (Ret m b) -> pk_runs s cpu t ->
  check_result b s = Ok tt /\ wait_inv s (<[ t := Try m ]> places) q.
Proof.
  intros [I Hp Hg Hq Hn] Ht Hrun. assert (Hw := Hp t _ Ht). cbn in Hw.
  assert (Hb : b ∉ q).
  { intros Hb. rewrite decide_True in Hw by done. by apply (pk_asleep_stopped s b t cpu). }
  rewrite decide_False in Hw by done. destruct (pk_awake s b t Hw) as [Er Hf]. split.
  { unfold check_result. rewrite Er. run. by rewrite bool_decide_true. }
  split; try done.
  - intros t' p. destruct (decide (t' = t)) as [->|]; rewrite ?lookup_insert_eq, ?lookup_insert_ne by done; [|by apply Hp].
    by intros [= <-].
  - apply guarded_insert; [done|]. intros _. by apply (Hg t (Ret m b)).
  - intros x Hx. destruct (Hq x Hx) as (t' & u & Ht' & Hbu). exists t', u. rewrite lookup_insert_ne; [done|]. naive_solver.
Qed.

(** A queued blocker is taken from the queue and unblocked. *)
Lemma wait_unblock s places q q' b :
  wait_inv s places q -> b ∈ q -> (forall x, x ∈ q' <-> x ∈ q /\ x <> b) -> NoDup q' ->
  exists s', pk_unblock b s = Ok s' /\ wait_inv s' places q' /\
    exists t p, places !! t = Some p /\ retrying q' p.
Proof.
  intros W Hb Hq' Hn'. destruct (wi_queued _ _ _ W b Hb) as (t & p & Ht & Hbp).
  assert (Hw := wi_place _ _ _ W t p Ht).
  assert (exists k, pk_waits s b t k /\ park_released k = false /\
    (forall s', pk_waits s' b t (release k) -> place_ok s' q' t p)) as (k & Hk & Hrel & Hback).
  { assert (Hnb : b ∉ q') by set_solver.
    destruct p as [|?|? x|? x|? x|?]; cbn in *; try done; injection Hbp as ->.
    - rewrite bool_decide_false in Hw by tauto. exists (Made false). split_and!; try done.
      intros s' Hs'. by rewrite bool_decide_true.
    - rewrite bool_decide_false in Hw by tauto. exists (Asked false). split_and!; try done.
      intros s' Hs'. by rewrite bool_decide_true.
    - rewrite decide_True in Hw by done. exists Asleep. split_and!; try done.
      intros s' Hs'. by rewrite decide_False. }
  destruct (pk_unblock_law s b t k (wi_sched _ _ _ W) Hk Hrel) as (s' & E & I' & Hw' & F & _ & Hgs).
  exists s'. split_and!; [done| |].
  - split; try done.
    + intros t' p' Ht'. destruct (decide (t' = t)) as [->|Hne].
      * simplify_eq. by apply Hback.
      * apply (place_ok_ext s' q).
        { intros x Hx. rewrite Hq'. split; [tauto|]. intros Hin. split; [done|]. intros ->.
          by apply Hne, (wait_unique s places q t' t p' p b). }
        apply (place_ok_frame s s' q t' p' [t] F); [set_solver|]. by apply (wi_place _ _ _ W).
    + intros t' p' Ht' Hne. by apply Hgs, (wi_guarded _ _ _ W t' p').
    + intros x [Hx _]%Hq'. by apply (wi_queued _ _ _ W).
  - exists t, p. split; [done|]. assert (b ∉ q') by set_solver.
    destruct p; cbn in *; try done; by injection Hbp as ->.
Qed.
End Waiting.

(** ** The machine *)

(** Nobody takes or gives back the lock, and who was on its way to the next turn still is. *)
Definition quiet (q : list nat) (places places' : gmap nat place) : Prop :=
  (forall t m, places' !! t = Some (Hold m) <-> places !! t = Some (Hold m)) /\
  (forall t p, places !! t = Some p -> retrying q p -> exists p', places' !! t = Some p' /\ retrying q p').

(** What the machine relies on of a lock: its functions succeed when they may be called, and keep
    the queues and the lock's own invariant. *)
Class Lock (L S : Type) `{Parking S} := {
  lk_queue : L -> list nat;
  lk_inv : L -> gmap nat place -> Prop;
  lk_modes : mode -> Prop;
  lk_turn : mode -> nat -> nat -> nat -> L -> S -> result (L * S * bool);
  lk_give : mode -> nat -> L -> S -> result (L * S);
  lk_quiet l places places' : lk_inv l places -> quiet (lk_queue l) places places' -> lk_inv l places';
  lk_turn_law m cpu t b l s places :
    lk_modes m -> wait_inv s places (lk_queue l) -> lk_inv l places -> places !! t = Some (Try m) ->
    pk_runs s cpu t -> pk_fresh s b ->
    exists l' s' taken, lk_turn m cpu t b l s = Ok (l', s', taken) /\
      let places' := <[ t := if (taken : bool) then Hold m else Wait m b ]> places in
      wait_inv s' places' (lk_queue l') /\ lk_inv l' places';
  lk_give_law m t l s places :
    wait_inv s places (lk_queue l) -> lk_inv l places -> places !! t = Some (Hold m) ->
    exists l' s', lk_give m t l s = Ok (l', s') /\
      wait_inv s' (<[ t := Out ]> places) (lk_queue l') /\ lk_inv l' (<[ t := Out ]> places) }.

Record world (L S : Type) := World { w_lock : L; w_sched : S; w_places : gmap nat place }.
Arguments World {L S} _ _ _.
Arguments w_lock {L S} _.
Arguments w_sched {L S} _.
Arguments w_places {L S} _.

(** A step of the thread [t], which is the current one of [cpu], or a scheduling decision. *)
Inductive action :=
  | Guard (cpu t : nat) (v : bool)
  | Call (cpu t : nat) (m : mode)
  | Turn (cpu t b : nat)
  | Do_block (cpu t : nat)
  | Return (cpu t : nat)
  | Unlock (cpu t : nat)
  | Decide (cpu : nat) (now : Z) (cur : option nat).

Section Machine.
Context {L S : Type} `{Lock L S}.

Definition enabled (a : action) (w : world L S) : Prop :=
  match a with
  | Guard cpu t _ => pk_runs (w_sched w) cpu t /\ w_places w !! t = Some Out
  | Call cpu t m => lk_modes m /\ pk_runs (w_sched w) cpu t /\ w_places w !! t = Some Out /\
      pk_guarded (w_sched w) t
  | Turn cpu t b => pk_runs (w_sched w) cpu t /\ pk_fresh (w_sched w) b /\
      exists m, lk_modes m /\ w_places w !! t = Some (Try m)
  | Do_block cpu t => pk_runs (w_sched w) cpu t /\ exists m b, w_places w !! t = Some (Wait m b)
  | Return cpu t => pk_runs (w_sched w) cpu t /\ exists m b, w_places w !! t = Some (Ret m b)
  | Unlock cpu t => pk_runs (w_sched w) cpu t /\ exists m, w_places w !! t = Some (Hold m)
  | Decide cpu now cur => (forall t, pk_runs (w_sched w) cpu t <-> cur = Some t) /\
      pk_online (w_sched w) cpu
  end.

Definition act (a : action) (w : world L S) : result (world L S) :=
  let 'World l s places := w in
  match a with
  | Guard cpu _ v => s ← pk_guard cpu v s; Ok (World l s places)
  | Call _ t m => Ok (World l s (<[ t := Try m ]> places))
  | Turn cpu t b =>
      match places !! t with
      | Some (Try m) =>
          '(l, s, taken) ← lk_turn m cpu t b l s;
          Ok (World l s (<[ t := if (taken : bool) then Hold m else Wait m b ]> places))
      | _ => Fault OutOfBounds
      end
  | Do_block cpu t =>
      match places !! t with
      | Some (Wait m b) => s ← pk_block cpu b s; Ok (World l s (<[ t := Blk m b ]> places))
      | _ => Fault OutOfBounds
      end
  | Return _ t =>
      match places !! t with
      | Some (Ret m b) => check_result b s ;; Ok (World l s (<[ t := Try m ]> places))
      | _ => Fault OutOfBounds
      end
  | Unlock _ t =>
      match places !! t with
      | Some (Hold m) => '(l, s) ← lk_give m t l s; Ok (World l s (<[ t := Out ]> places))
      | _ => Fault OutOfBounds
      end
  | Decide cpu now cur =>
      s ← pk_tick cpu now s; Ok (World l s (tick_places cur places))
  end.

Inductive reaches (w0 : world L S) : world L S -> Prop :=
  | reaches_start : reaches w0 w0
  | reaches_act a w w' : reaches w0 w -> enabled a w -> act a w = Ok w' -> reaches w0 w'.

Definition world_inv (w : world L S) : Prop :=
  wait_inv (w_sched w) (w_places w) (lk_queue (w_lock w)) /\ lk_inv (w_lock w) (w_places w) /\
  forall t p, w_places w !! t = Some p ->
    match p with
    | Try m | Wait m _ | Blk m _ | Ret m _ | Hold m => lk_modes m
    | Out => True
    end.

Lemma quiet_insert q places t p p' :
  places !! t = Some p -> (forall m, p <> Hold m) -> (forall m, p' <> Hold m) ->
  (retrying q p -> retrying q p') -> quiet q places (<[ t := p' ]> places).
Proof.
  intros Ht Hp Hp' Hr. split.
  - intros t' m. destruct (decide (t' = t)) as [->|]; rewrite ?lookup_insert_eq, ?lookup_insert_ne by done; [|done].
    naive_solver.
  - intros t' u Hu Hru. destruct (decide (t' = t)) as [->|]; rewrite ?lookup_insert_eq, ?lookup_insert_ne by done; [|eauto].
    simplify_eq. eauto.
Qed.

Lemma quiet_tick q cur places : quiet q places (tick_places cur places).
Proof.
  split.
  - intros t m. destruct cur as [u|]; [|done]. cbn. destruct (decide (t = u)) as [->|]; [|by rewrite lookup_alter_ne].
    rewrite lookup_alter_eq. destruct (places !! u) as [[]|]; cbn; naive_solver.
  - intros t p Ht Hr. destruct cur as [u|]; [|eauto]. cbn. destruct (decide (t = u)) as [->|].
    + rewrite lookup_alter_eq, Ht. eexists. split; [done|]. by destruct p.
    + rewrite lookup_alter_ne by done. eauto.
Qed.

Definition place_mode (p : place) : Prop :=
  match p with
  | Try m | Wait m _ | Blk m _ | Ret m _ | Hold m => lk_modes m
  | Out => True
  end.

Lemma modes_insert (places : gmap nat place) t p :
  (forall t p, places !! t = Some p -> place_mode p) -> place_mode p ->
  forall t' p', <[ t := p ]> places !! t' = Some p' -> place_mode p'.
Proof.
  intros Hm Hp t' p'. destruct (decide (t' = t)) as [->|]; rewrite ?lookup_insert_eq, ?lookup_insert_ne by done;
    [by intros [= <-]|apply Hm].
Qed.

Lemma act_Ok a w : world_inv w -> enabled a w -> exists w', act a w = Ok w' /\ world_inv w'.
Proof.
  destruct w as [l s places]. intros (W & LI & Hm). cbn in *. change (forall t p, places !! t = Some p -> place_mode p) in Hm.
  destruct a as [cpu t v|cpu t m|cpu t b|cpu t|cpu t|cpu t|cpu now cur]; cbn.
  - intros (Hrun & Ht). destruct (wait_guard s places _ cpu t v W Ht Hrun) as (s' & -> & W'). run.
    eexists. by split; [done|].
  - intros (Hmode & Hrun & Ht & Hg). eexists. split; [done|]. split_and!; cbn.
    + by apply (wait_move s places _ t Out).
    + apply (lk_quiet l places); [done|]. by apply (quiet_insert _ _ _ Out).
    + by apply modes_insert.
  - intros (Hrun & Hfresh & m & Hmode & Ht). rewrite Ht.
    destruct (lk_turn_law m cpu t b l s places Hmode W LI Ht Hrun Hfresh) as (l' & s' & taken & -> & W' & LI'). run.
    eexists. split; [done|]. split_and!; cbn; try done. apply modes_insert; [done|]. by destruct taken.
  - intros (Hrun & m & b & Ht). rewrite Ht. destruct (wait_block s places _ cpu t m b W Ht Hrun) as (s' & -> & W'). run.
    eexists. split; [done|]. split_and!; cbn; try done.
    + apply (lk_quiet l places); [done|]. by apply (quiet_insert _ _ _ (Wait m b)).
    + apply modes_insert; [done|]. exact (Hm t _ Ht).
  - intros (Hrun & m & b & Ht). rewrite Ht. destruct (wait_return s places _ cpu t m b W Ht Hrun) as (-> & W'). run.
    eexists. split; [done|]. split_and!; cbn; try done.
    + apply (lk_quiet l places); [done|]. by apply (quiet_insert _ _ _ (Ret m b)).
    + apply modes_insert; [done|]. exact (Hm t _ Ht).
  - intros (Hrun & m & Ht). rewrite Ht. destruct (lk_give_law m t l s places W LI Ht) as (l' & s' & -> & W' & LI'). run.
    eexists. split; [done|]. split_and!; cbn; try done. by apply modes_insert.
  - intros (Hcur & Hon). destruct (wait_tick s places _ cpu now cur W Hcur Hon) as (s' & -> & W'). run.
    eexists. split; [done|]. split_and!; cbn; [done| |].
    + apply (lk_quiet l places); [done|]. apply quiet_tick.
    + intros t p (p0 & Ht & ->)%tick_places_lookup. specialize (Hm t p0 Ht). case_decide; [|done]. by destruct p0.
Qed.

Lemma reaches_inv w0 w : world_inv w0 -> reaches w0 w -> world_inv w.
Proof.
  intros I0. induction 1 as [|a w w' _ IH Ha E]; [done|].
  destruct (act_Ok a w IH Ha) as (w1 & E1 & I1). rewrite E in E1. by injection E1 as ->.
Qed.
End Machine.

(** ** Mutex *)

Section MutexLock.
Context {S : Type} `{Parking S}.

(** The owner is the thread that holds the mutex, and a free mutex with waiters has a thread on
    its way to take it. *)
Definition mutex_inv (m : mutex) (places : gmap nat place) : Prop :=
  (forall t k, places !! t = Some (Hold k) <-> k = Exclusive /\ m_owner m = Some t) /\
  (m_owner m = None -> m_waiters m <> [] -> exists t p, places !! t = Some p /\ retrying (m_waiters m) p).

Lemma mutex_quiet m places places' :
  mutex_inv m places -> quiet (m_waiters m) places places' -> mutex_inv m places'.
Proof.
  intros [H1 H2] [Q1 Q2]. split.
  - intros t k. by rewrite Q1.
  - intros Ho Hw. destruct (H2 Ho Hw) as (t & p & Ht & Hr). destruct (Q2 t p Ht Hr) as (p' & ? & ?). eauto.
Qed.

Lemma mutex_turn_law k cpu t b m s places :
  k = Exclusive -> wait_inv s places (m_waiters m) -> mutex_inv m places -> places !! t = Some (Try k) ->
  pk_runs s cpu t -> pk_fresh s b ->
  exists m' s' taken, mutex_lock_turn cpu t b m s = Ok (m', s', taken) /\
    let places' := <[ t := if (taken : bool) then Hold k else Wait k b ]> places in
    wait_inv s' places' (m_waiters m') /\ mutex_inv m' places'.
Proof.
  intros -> W [H1 H2] Ht Hrun Hfresh. unfold mutex_lock_turn.
  assert (Hg : pk_guarded s t) by (by apply (wi_guarded _ _ _ W t _ Ht)).
  rewrite (pk_guarded_law s t Hg). run.
  rewrite decide_False; [|intros Ho; assert (places !! t = Some (Hold Exclusive)) by (by apply H1); congruence].
  destruct (m_owner m) as [u|] eqn:Eo.
  - assert (Hb : b ∉ m_waiters m).
    { intros Hb. destruct (wi_queued _ _ _ W b Hb) as (t' & p & Ht' & Hbp).
      destruct (place_waits s _ t' p b (wi_place _ _ _ W _ _ Ht') Hbp) as [j Hj]. by apply (pk_fresh_unused s b t' j). }
    destruct (wait_make s places (m_waiters m) (m_waiters m ++ [b]) cpu t Exclusive b W Ht Hrun Hfresh) as (s' & -> & W').
    { set_solver. }
    { apply NoDup_app. split_and!; [apply W|set_solver|apply NoDup_singleton]. }
    run. eexists _, _, _. split; [done|]. split; [done|]. split; cbn; [|done].
    intros t' k. destruct (decide (t' = t)) as [->|]; rewrite ?lookup_insert_eq, ?lookup_insert_ne by done; [|apply H1].
    split; [done|]. intros Hk. apply H1 in Hk. congruence.
  - eexists _, _, _. split; [done|]. split; [by apply (wait_move s places _ t (Try Exclusive))|]. split; cbn; [|done].
    intros t' k. destruct (decide (t' = t)) as [->|]; rewrite ?lookup_insert_eq, ?lookup_insert_ne by done; [naive_solver|].
    rewrite H1. naive_solver.
Qed.

Lemma mutex_give_law k t m s places :
  wait_inv s places (m_waiters m) -> mutex_inv m places -> places !! t = Some (Hold k) ->
  exists m' s', mutex_unlock t m s = Ok (m', s') /\
    wait_inv s' (<[ t := Out ]> places) (m_waiters m') /\ mutex_inv m' (<[ t := Out ]> places).
Proof.
  intros W [H1 H2] Ht. assert (Ho := proj1 (H1 t k) Ht). destruct Ho as [-> Ho].
  assert (W1 := wait_move s places _ t (Hold Exclusive) Out W Ht eq_refl eq_refl ltac:(done)).
  assert (Hnone : forall t' k, <[ t := Out ]> places !! t' = Some (Hold k) <-> k = Exclusive /\ None = Some t').
  { intros t' k. destruct (decide (t' = t)) as [->|]; rewrite ?lookup_insert_eq, ?lookup_insert_ne by done; [naive_solver|].
    rewrite H1. naive_solver. }
  unfold mutex_unlock. rewrite bool_decide_true by done. run.
  destruct (m_waiters m) as [|b l] eqn:Ew.
  - eexists _, _. split; [done|]. cbn. split; [done|]. split; cbn; done.
  - assert (Hnd := wi_nodup _ _ _ W1). apply NoDup_cons in Hnd as [Hb Hl].
    destruct (wait_unblock s _ (b :: l) l b W1) as (s' & -> & W' & Hr); [by left| |done|].
    { intros x. rewrite elem_of_cons. naive_solver. }
    run. eexists _, _. split; [done|]. split; [done|]. split; cbn; [done|]. by intros _ _.
Qed.

#[export] Instance mutex_lock : Lock mutex S := {|
  lk_queue := m_waiters;
  lk_inv := mutex_inv;
  lk_modes k := k = Exclusive;
  lk_turn _ := mutex_lock_turn;
  lk_give _ := mutex_unlock;
  lk_quiet := mutex_quiet;
  lk_turn_law := mutex_turn_law;
  lk_give_law := mutex_give_law |}.
End MutexLock.

(** ** SharedMutex *)

(** The readers. *)
Definition readers (places : gmap nat place) : gmap nat place :=
  filter (fun kv => kv.2 = Hold Shared) places.

Lemma readers_ext places places' :
  (forall t, places' !! t = Some (Hold Shared) <-> places !! t = Some (Hold Shared)) ->
  readers places' = readers places.
Proof.
  intros E. apply map_eq. intros t. apply option_eq. intros p. unfold readers.
  rewrite !map_lookup_filter_Some. cbn. naive_solver.
Qed.

Lemma readers_insert places t p :
  places !! t = Some p -> p <> Hold Shared ->
  size (readers (<[ t := Hold Shared ]> places)) = S (size (readers places)).
Proof.
  intros Ht Hp. unfold readers. rewrite map_filter_insert_True by done. apply map_size_insert_None.
  apply map_lookup_filter_None. right. intros x Hx. cbn. congruence.
Qed.

Lemma readers_delete places t p :
  places !! t = Some (Hold Shared) -> p <> Hold Shared ->
  S (size (readers (<[ t := p ]> places))) = size (readers places).
Proof.
  intros Ht Hp. rewrite <- (readers_insert (<[ t := p ]> places) t p); [|by rewrite lookup_insert_eq|done].
  f_equal. f_equal. by rewrite insert_insert_eq, insert_id.
Qed.

Section SharedMutexLock.
Context {S : Type} `{Parking S}.

Definition shared_queue (m : shared_mutex) : list nat := m_shared_waiters m ++ m_exclusive_waiters m.

(** The reference count is -1 while a writer holds the lock, and else the number of readers;
    readers wait only for a writer; and a free lock with waiters has a thread on its way. *)
Definition shared_inv (m : shared_mutex) (places : gmap nat place) : Prop :=
  (m_shared_refcount m = exclusive_mode /\ size (readers places) = O /\
     (exists t, places !! t = Some (Hold Exclusive) /\
        forall t', places !! t' = Some (Hold Exclusive) -> t' = t) \/
   m_shared_refcount m = Z.of_nat (size (readers places)) /\ m_shared_waiters m = [] /\
     (forall t, places !! t <> Some (Hold Exclusive)) /\
     (m_shared_refcount m = free_mode -> m_exclusive_waiters m <> [] ->
        exists t p, places !! t = Some p /\ retrying (shared_queue m) p)).

Lemma shared_quiet m places places' :
  shared_inv m places -> quiet (shared_queue m) places places' -> shared_inv m places'.
Proof.
  intros I [Q1 Q2]. assert (Er : readers places' = readers places) by (apply readers_ext; intros; apply Q1).
  unfold shared_inv in *. rewrite Er. destruct I as [(? & ? & t & Ht & Hu)|(? & ? & Hno & Hr)]; [left|right].
  - split_and!; try done. exists t. rewrite Q1. split; [done|]. intros t'. rewrite Q1. apply Hu.
  - split_and!; try done.
    + intros t. by rewrite Q1.
    + intros Hf Hw. destruct (Hr Hf Hw) as (t & p & Ht & Hre). destruct (Q2 t p Ht Hre) as (p' & ? & ?). eauto.
Qed.

Lemma fresh_not_queued s places q b : wait_inv s places q -> pk_fresh s b -> b ∉ q.
Proof.
  intros W Hf Hb. destruct (wi_queued _ _ _ W b Hb) as (t & p & Ht & Hbp).
  destruct (place_waits s _ t p b (wi_place _ _ _ W _ _ Ht) Hbp) as [j Hj]. by apply (pk_fresh_unused s b t j).
Qed.

(** A waiting thread changes nothing for the holders. *)
Lemma holders_wait (places : gmap nat place) t k k' b u j :
  places !! t = Some (Try k) -> <[ t := Wait k' b ]> places !! u = Some (Hold j) <-> places !! u = Some (Hold j).
Proof.
  intros Ht. destruct (decide (u = t)) as [->|]; rewrite ?lookup_insert_eq, ?lookup_insert_ne by done; [|done].
  rewrite Ht. naive_solver.
Qed.

Lemma exclusive_turn_law cpu t b m s places :
  wait_inv s places (shared_queue m) -> shared_inv m places -> places !! t = Some (Try Exclusive) ->
  pk_runs s cpu t -> pk_fresh s b ->
  exists m' s' taken, exclusive_lock_turn cpu t b m s = Ok (m', s', taken) /\
    let places' := <[ t := if (taken : bool) then Hold Exclusive else Wait Exclusive b ]> places in
    wait_inv s' places' (shared_queue m') /\ shared_inv m' places'.
Proof.
  intros W I Ht Hrun Hfresh. unfold exclusive_lock_turn.
  assert (Hg : pk_guarded s t) by (by apply (wi_guarded _ _ _ W t _ Ht)).
  rewrite (pk_guarded_law s t Hg). run. case_decide as Hz.
  - eexists _, _, _. split; [done|]. cbn. split; [by apply (wait_move s places _ t (Try Exclusive))|].
    destruct I as [(? & _)|(Hc & Hs & Hno & _)]; [unfold exclusive_mode, free_mode in *; lia|].
    left. cbn. split_and!; [done| |].
    + rewrite (readers_ext places); [unfold free_mode in Hz; lia|]. intros u.
      destruct (decide (u = t)) as [->|]; rewrite ?lookup_insert_eq, ?lookup_insert_ne by done; [rewrite Ht; naive_solver|done].
    + exists t. rewrite lookup_insert_eq. split; [done|]. intros u Hu.
      destruct (decide (u = t)); [done|]. rewrite lookup_insert_ne in Hu by done. by apply Hno in Hu.
  - assert (Hb := fresh_not_queued s places _ b W Hfresh).
    destruct (wait_make s places (shared_queue m)
      (shared_queue (SharedMutex (m_shared_refcount m) (m_shared_waiters m) (m_exclusive_waiters m ++ [b]))) cpu t Exclusive b W Ht Hrun Hfresh)
      as (s' & -> & W').
    { unfold shared_queue. cbn. set_solver. }
    { unfold shared_queue in *. cbn. rewrite app_assoc. apply NoDup_app. split_and!; [apply W|set_solver|apply NoDup_singleton]. }
    run. eexists _, _, _. split; [done|]. split; [exact W'|].
    unfold shared_inv in *. cbn. rewrite (readers_ext places) by (intros; by apply (holders_wait _ _ Exclusive)).
    destruct I as [(? & ? & u & Hu & Huniq)|(Hc & Hs & Hno & _)]; [left|right].
    + split_and!; try done. exists u. rewrite (holders_wait _ _ Exclusive) by done. split; [done|].
      intros u' Hu'. apply (holders_wait _ _ Exclusive) in Hu'; auto.
    + split_and!; try done. intros u Hu. apply (holders_wait _ _ Exclusive) in Hu; [|done]. by apply Hno in Hu.
Qed.

Lemma shared_turn_law' cpu t b m s places :
  wait_inv s places (shared_queue m) -> shared_inv m places -> places !! t = Some (Try Shared) ->
  pk_runs s cpu t -> pk_fresh s b ->
  exists m' s' taken, shared_lock_turn cpu t b m s = Ok (m', s', taken) /\
    let places' := <[ t := if (taken : bool) then Hold Shared else Wait Shared b ]> places in
    wait_inv s' places' (shared_queue m') /\ shared_inv m' places'.
Proof.
  intros W I Ht Hrun Hfresh. unfold shared_lock_turn.
  assert (Hg : pk_guarded s t) by (by apply (wi_guarded _ _ _ W t _ Ht)).
  rewrite (pk_guarded_law s t Hg). run. case_decide as Hz.
  - eexists _, _, _. split; [done|]. cbn. split; [by apply (wait_move s places _ t (Try Shared))|].
    destruct I as [(? & _)|(Hc & Hs & Hno & _)]; [unfold exclusive_mode, free_mode in *; lia|].
    right. cbn. rewrite (readers_insert places t (Try Shared)) by done. split_and!; [lia|done| |unfold free_mode in *; lia].
    intros u. destruct (decide (u = t)) as [->|]; rewrite ?lookup_insert_eq, ?lookup_insert_ne by done; [done|apply Hno].
  - assert (Hb := fresh_not_queued s places _ b W Hfresh).
    destruct (wait_make s places (shared_queue m)
      (shared_queue (SharedMutex (m_shared_refcount m) (m_shared_waiters m ++ [b]) (m_exclusive_waiters m))) cpu t Shared b W Ht Hrun Hfresh)
      as (s' & -> & W').
    { unfold shared_queue. cbn. set_solver. }
    { unfold shared_queue in *. cbn.
      assert (Ep : (m_shared_waiters m ++ [b]) ++ m_exclusive_waiters m ≡ₚ b :: m_shared_waiters m ++ m_exclusive_waiters m) by solve_Permutation.
      rewrite Ep. constructor; [done|apply W]. }
    run. eexists _, _, _. split; [done|]. split; [exact W'|].
    unfold shared_inv in *. cbn. rewrite (readers_ext places) by (intros; by apply (holders_wait _ _ Shared)).
    destruct I as [(? & ? & u & Hu & Huniq)|(Hc & Hs & Hno & _)]; [left|unfold free_mode in *; lia].
    split_and!; try done. exists u. rewrite (holders_wait _ _ Shared) by done. split; [done|].
    intros u' Hu'. apply (holders_wait _ _ Shared) in Hu'; auto.
Qed.

Lemma wait_unblock_all l q s places :
  wait_inv s places (l ++ q) ->
  exists s', unblock_all l s = Ok s' /\ wait_inv s' places q /\
    (l <> [] -> exists t p, places !! t = Some p /\ retrying q p).
Proof.
  revert s. induction l as [|b l IH]; intros s W; cbn [unblock_all app] in *; [by exists s|].
  assert (Hnd := wi_nodup _ _ _ W). apply NoDup_cons in Hnd as [Hb Hl].
  destruct (wait_unblock s places (b :: l ++ q) (l ++ q) b W) as (s1 & -> & W1 & t & p & Ht & Hr); [by left| |done|].
  { intros x. rewrite elem_of_cons. naive_solver. }
  run. destruct (IH s1 W1) as (s' & E & W' & _). exists s'. split_and!; try done. intros _. exists t, p. split; [done|].
  destruct p; cbn in *; try done; intros Hin; apply Hr, elem_of_app; by right.
Qed.

(** Giving the lock back with [Out], for the readers and for the writers. *)
Lemma out_holders (places : gmap nat place) t u j :
  <[ t := Out ]> places !! u = Some (Hold j) <-> u <> t /\ places !! u = Some (Hold j).
Proof.
  destruct (decide (u = t)) as [->|]; rewrite ?lookup_insert_eq, ?lookup_insert_ne by done; naive_solver.
Qed.

Lemma exclusive_give_law t m s places :
  wait_inv s places (shared_queue m) -> shared_inv m places -> places !! t = Some (Hold Exclusive) ->
  exists m' s', exclusive_unlock m s = Ok (m', s') /\
    wait_inv s' (<[ t := Out ]> places) (shared_queue m') /\ shared_inv m' (<[ t := Out ]> places).
Proof.
  intros W I Ht. destruct I as [(Hc & Hz & u & Hu & Huniq)|(_ & _ & Hno & _)]; [|by apply Hno in Ht].
  assert (t = u) as <- by (by apply Huniq).
  assert (W1 := wait_move s places _ t (Hold Exclusive) Out W Ht eq_refl eq_refl ltac:(done)).
  assert (Hz' : readers (<[ t := Out ]> places) = readers places).
  { apply readers_ext. intros x. rewrite out_holders. naive_solver. }
  assert (Hno : forall x, <[ t := Out ]> places !! x <> Some (Hold Exclusive)).
  { intros x [Hx Hh]%out_holders. by apply Hx, Huniq. }
  unfold exclusive_unlock. rewrite (bool_decide_true (m_shared_refcount m = exclusive_mode)) by done. run.
  destruct (wait_unblock_all (m_shared_waiters m) (m_exclusive_waiters m) s (<[ t := Out ]> places) W1) as (s1 & -> & W2 & Hr). run.
  case_bool_decide as Hsh; cbn [negb].
  - destruct (m_exclusive_waiters m) as [|b l] eqn:Ew.
    + eexists _, _. split; [done|]. split; [done|]. right. cbn. rewrite Hz', Hz. done.
    + assert (Hnd := wi_nodup _ _ _ W2). apply NoDup_cons in Hnd as [Hb Hl].
      destruct (wait_unblock s1 _ (b :: l) l b W2) as (s2 & -> & W3 & Hr'); [by left| |done|].
      { intros x. rewrite elem_of_cons. naive_solver. }
      run. eexists _, _. split; [done|]. split; [done|]. right. cbn. rewrite Hz', Hz. done.
  - eexists _, _. split; [done|]. split; [done|]. right. cbn. rewrite Hz', Hz. split_and!; try done. intros _ _. by apply Hr.
Qed.

Lemma shared_give_law t m s places :
  wait_inv s places (shared_queue m) -> shared_inv m places -> places !! t = Some (Hold Shared) ->
  exists m' s', shared_unlock m s = Ok (m', s') /\
    wait_inv s' (<[ t := Out ]> places) (shared_queue m') /\ shared_inv m' (<[ t := Out ]> places).
Proof.
  intros W I Ht. assert (Hcount := readers_delete places t Out Ht ltac:(done)).
  destruct I as [(_ & Hz & _)|(Hc & Hs & Hno & _)]; [lia|].
  assert (W1 := wait_move s places _ t (Hold Shared) Out W Ht eq_refl eq_refl ltac:(done)).
  assert (Hno' : forall x, <[ t := Out ]> places !! x <> Some (Hold Exclusive)).
  { intros x [Hx Hh]%out_holders. by apply Hno in Hh. }
  unfold shared_unlock. rewrite bool_decide_true by (unfold free_mode; lia). run.
  destruct (m_exclusive_waiters m) as [|b l] eqn:Ew.
  - eexists _, _. split; [done|]. unfold shared_queue in *. rewrite Ew in W1. cbn. split; [done|]. right. cbn. split_and!; try done. lia.
  - case_decide as Hf.
    + unfold shared_queue in W1. rewrite Hs, Ew in W1. cbn [app] in W1.
      assert (Hnd := wi_nodup _ _ _ W1). apply NoDup_cons in Hnd as [Hb Hl].
      destruct (wait_unblock s _ (b :: l) l b W1) as (s2 & -> & W3 & Hr'); [by left| |done|].
      { intros x. rewrite elem_of_cons. naive_solver. }
      run. eexists _, _. split; [done|]. unfold shared_queue. cbn. rewrite Hs. split; [done|].
      right. cbn. split_and!; try done. lia.
    + eexists _, _. split; [done|]. unfold shared_queue in *. rewrite Ew in *. cbn. split; [done|]. right. cbn. split_and!; try done. lia.
Qed.

Definition shared_turn (k : mode) (cpu t b : nat) (m : shared_mutex) (s : S) : result (shared_mutex * S * bool) :=
  match k with
  | Exclusive => exclusive_lock_turn cpu t b m s
  | Shared => shared_lock_turn cpu t b m s
  end.
Definition shared_give (k : mode) (t : nat) (m : shared_mutex) (s : S) : result (shared_mutex * S) :=
  match k with
  | Exclusive => exclusive_unlock m s
  | Shared => shared_unlock m s
  end.

Lemma shared_turn_law k cpu t b m s places :
  True -> wait_inv s places (shared_queue m) -> shared_inv m places -> places !! t = Some (Try k) ->
  pk_runs s cpu t -> pk_fresh s b ->
  exists m' s' taken, shared_turn k cpu t b m s = Ok (m', s', taken) /\
    let places' := <[ t := if (taken : bool) then Hold k else Wait k b ]> places in
    wait_inv s' places' (shared_queue m') /\ shared_inv m' places'.
Proof. intros _. destruct k; [apply exclusive_turn_law|apply shared_turn_law']. Qed.

Lemma shared_mutex_give_law k t m s places :
  wait_inv s places (shared_queue m) -> shared_inv m places -> places !! t = Some (Hold k) ->
  exists m' s', shared_give k t m s = Ok (m', s') /\
    wait_inv s' (<[ t := Out ]> places) (shared_queue m') /\ shared_inv m' (<[ t := Out ]> places).
Proof. destruct k; [apply exclusive_give_law|apply shared_give_law]. Qed.

#[export] Instance shared_mutex_lock : Lock shared_mutex S := {|
  lk_queue := shared_queue;
  lk_inv := shared_inv;
  lk_modes _ := True;
  lk_turn := shared_turn;
  lk_give := shared_give;
  lk_quiet := shared_quiet;
  lk_turn_law := shared_turn_law;
  lk_give_law := shared_mutex_give_law |}.
End SharedMutexLock.

(** ** What the locks guarantee, with the scheduler *)

(** Nobody is in the lock's functions, no thread of [places] is blocked, and no thread at all is
    being killed. *)
Definition starts (st : sched) (places : gmap nat place) : Prop :=
  calm st /\ forall t p, places !! t = Some p -> p = Out /\ park_free st t.

Lemma starts_inv `{!Lock L sched} n st places (l : L) :
  reachable n st -> starts st places -> lk_queue l = [] -> lk_inv l places ->
  world_inv (World l st places).
Proof.
  intros R [Hcalm Hp] Eq Hl. split_and!; cbn; [|done|].
  - rewrite Eq. split; cbn.
    + split; [by apply (reachable_inv n)|done].
    + intros t p Ht. by destruct (Hp t p Ht) as [-> ?].
    + intros t p Ht. by destruct (Hp t p Ht) as [-> ?].
    + intros b Hb. by apply elem_of_nil in Hb.
    + constructor.
  - intros t p Ht. by destruct (Hp t p Ht) as [-> _].
Qed.

Lemma mutex_starts n st places w :
  reachable n st -> starts st places -> reaches (World (Mutex None []) st places) w -> world_inv w.
Proof.
  intros R Hst. apply reaches_inv, (starts_inv n); [done..|]. cbn. split; cbn; [|done].
  intros t k. split; [|naive_solver]. intros Ht. by destruct (proj2 Hst t _ Ht).
Qed.

Lemma shared_mutex_starts n st places w :
  reachable n st -> starts st places -> reaches (World (SharedMutex free_mode [] []) st places) w -> world_inv w.
Proof.
  intros R Hst. apply reaches_inv, (starts_inv n); [done..|].
  assert (Hno : forall t m, places !! t <> Some (Hold m)) by (intros t m Ht; by destruct (proj2 Hst t _ Ht)).
  right. cbn. split_and!; try done. unfold readers.
  rewrite map_empty_filter_2; [done|]. intros t p Ht Ep. cbn in Ep. subst p. by apply Hno in Ht.
Qed.

(** The blocker of a thread is queued exactly while it is armed. *)
Lemma queued_armed (st : sched) places q t p b :
  wait_inv st places q -> places !! t = Some p -> blocker_of p = Some b ->
  exists blk, s_blockers st !! b = Some blk /\ b_thread blk = t /\ (b ∈ q <-> b_should_block blk = true).
Proof.
  intros W Ht Hb. assert (Hp := wi_place _ _ _ W t p Ht).
  assert (exists k, park_waits st b t k /\ (b ∈ q <-> park_released k = false)) as (k & (blk & th & Hbl & Hbt & _ & _ & _ & _ & E & _) & Hq).
  { destruct p as [|?|? x|? x|? x|?]; cbn in *; try done; injection Hb as ->; eexists; (split; [exact Hp|]);
      destruct (decide (b ∈ q)); rewrite ?bool_decide_false, ?bool_decide_true by tauto; cbn; by split. }
  exists blk. split_and!; [done..|]. rewrite E, Hq. by destruct (park_released k).
Qed.

(** C5: while no thread is being killed (a process that exits destroys its ready threads even
    when they own a mutex, as the example [killer_ignores_invulnerability] shows): whatever the
    processors do with a Mutex that was free, in any interleaving of the parts of [lock] and
    [unlock], called by threads that made themselves invulnerable before, with the scheduling
    decisions and with each other: the next part always succeeds (neither the invulnerability
    check nor "Mutex deadlock", nor the owner check of [unlock], nor the result check after
    [Blocker::block], nor an assertion of the scheduler fails), [m_owner] is the thread that is
    between its [lock] and its [unlock], and there is at most one such thread. *)
Theorem mutex_safe n st places w :
  reachable n st -> starts st places -> reaches (World (Mutex None []) st places) w ->
  (forall a, enabled a w -> exists w', act a w = Ok w') /\
  (forall t, m_owner (w_lock w) = Some t <-> w_places w !! t = Some (Hold Exclusive)) /\
  (forall t t' k k', w_places w !! t = Some (Hold k) -> w_places w !! t' = Some (Hold k') -> t = t').
Proof.
  intros R Hst Hw. assert (I := mutex_starts n st places w R Hst Hw). split_and!.
  - intros a Ha. destruct (act_Ok a w I Ha) as (w' & E & _). eauto.
  - intros t. destruct I as (_ & [Ho _] & _). rewrite Ho. naive_solver.
  - intros t t' k k' Ht Ht'. destruct I as (_ & [Ho _] & _). apply Ho in Ht, Ht'. naive_solver.
Qed.

(** C29: while no thread is being killed, no wake-up of a Mutex is lost: whenever the mutex is free
    and a thread waits for it, some thread is on its way to take it, awake, and in the ready queue
    or on a processor; the queue holds no blocker twice and only blockers of threads inside of
    [lock], and the blocker of such a thread is queued exactly as long as nobody released it. *)
Theorem mutex_no_lost_wakeup n st places w :
  reachable n st -> starts st places -> reaches (World (Mutex None []) st places) w ->
  NoDup (m_waiters (w_lock w)) /\
  (forall b, b ∈ m_waiters (w_lock w) -> exists t p, w_places w !! t = Some p /\ blocker_of p = Some b) /\
  (forall t p b, w_places w !! t = Some p -> blocker_of p = Some b ->
   exists blk, s_blockers (w_sched w) !! b = Some blk /\ b_thread blk = t /\
     (b ∈ m_waiters (w_lock w) <-> b_should_block blk = true)) /\
  (m_owner (w_lock w) = None -> m_waiters (w_lock w) <> [] ->
   exists t p, w_places w !! t = Some p /\ retrying (m_waiters (w_lock w)) p /\ park_runnable (w_sched w) t).
Proof.
  intros R Hst Hw. destruct (mutex_starts n st places w R Hst Hw) as (W & [_ Hr] & _). split_and!; [apply W..| |].
  { intros t p b Ht Hb. by apply (queued_armed _ (w_places w) _ t p). }
  intros Ho Hq. destruct (Hr Ho Hq) as (t & p & Ht & Hre). exists t, p. split_and!; [done..|].
  by apply (retrying_runnable (w_sched w) (w_places w) (m_waiters (w_lock w)) t p W).
Qed.

(** C30: while no thread is being killed and the callers made themselves invulnerable: whatever the processors do with a SharedMutex that was free, the next part of a lock
    operation always succeeds; a writer is alone; the reference count is -1 while a writer holds
    the lock and the number of the readers else; readers are queued only while a writer holds
    it; and when it is free and writers wait, some thread that can run is on its way to it. *)
Theorem shared_mutex_safe n st places w :
  reachable n st -> starts st places -> reaches (World (SharedMutex free_mode [] []) st places) w ->
  (forall a, enabled a w -> exists w', act a w = Ok w') /\
  (forall t t' k, w_places w !! t = Some (Hold Exclusive) -> w_places w !! t' = Some (Hold k) -> t = t') /\
  (m_shared_refcount (w_lock w) = exclusive_mode /\ (exists t, w_places w !! t = Some (Hold Exclusive)) \/
   m_shared_refcount (w_lock w) = Z.of_nat (size (readers (w_places w))) /\
   (forall t, w_places w !! t <> Some (Hold Exclusive)) /\ m_shared_waiters (w_lock w) = []) /\
  (m_shared_refcount (w_lock w) = free_mode -> m_exclusive_waiters (w_lock w) <> [] ->
   exists t p, w_places w !! t = Some p /\ retrying (shared_queue (w_lock w)) p /\ park_runnable (w_sched w) t).
Proof.
  intros R Hst Hw. assert (I := shared_mutex_starts n st places w R Hst Hw).
  split; [intros a Ha; destruct (act_Ok a w I Ha) as (w' & E & _); eauto|].
  destruct I as (W & [(Hc & Hz & u & Hu & Huniq)|(Hc & Hs & Hno & Hr)] & _).
  - split_and!; [|left; eauto|unfold exclusive_mode, free_mode in *; lia].
    intros t t' [] Ht Ht'; [by rewrite (Huniq t Ht), (Huniq t' Ht')|]. exfalso.
    apply map_size_empty_inv in Hz. assert (Hin : readers (w_places w) !! t' = Some (Hold Shared)) by (by apply map_lookup_filter_Some).
    by rewrite Hz in Hin.
  - split_and!; [intros t t' k Ht; by apply Hno in Ht|by right|].
    intros Hf Hq. destruct (Hr Hf Hq) as (t & p & Ht & Hre). exists t, p. split_and!; [done..|].
    by apply (retrying_runnable (w_sched w) (w_places w) (shared_queue (w_lock w)) t p W).
Qed.

(** ** A concrete run *)

(** Threads 20, 21 and 22 on one processor: the first takes the lock, the others block on it one
    after the other, and the first gives it back. *)
Definition three_processes : sched := run_op (Tick 0 0) (run_op (Create_process 12 22) two_processes).
Definition outside : gmap nat place := {[ 20%nat := Out; 21%nat := Out; 22%nat := Out ]}.

Definition handover (m : mode) : list action :=
  [ Unlock 0 20; Decide 0 3 (Some 22%nat); Do_block 0 22; Turn 0 22 6; Call 0 22 m; Guard 0 22 true;
    Decide 0 2 (Some 21%nat); Do_block 0 21; Turn 0 21 5; Call 0 21 m; Guard 0 21 true;
    Decide 0 1 (Some 20%nat); Turn 0 20 5; Call 0 20 m; Guard 0 20 true ].

Fixpoint run_acts `{!Lock L sched} (l : list action) (w : world L sched) : world L sched :=
  match l with
  | [] => w
  | a :: l => match act a (run_acts l w) with Ok w' => w' | Fault _ => w end
  end.

Lemma reachable_three_processes : reachable 1 three_processes.
Proof.
  reach (Tick 0 0) (run_op (Create_process 12 22) two_processes);
    [|exists (Processor 0 0); split; [done|]; apply nobody_sleeps; vm_compute; reflexivity].
  reach (Create_process 12 22) two_processes; [apply reachable_two_processes|].
  split_and!; [reflexivity| |reflexivity].
  values (fun u => (t_owner u <? 12)%nat). apply Nat.ltb_lt in H. intros E. lia.
Qed.

Lemma one_cpu_runs st t i :
  s_cpus st !! 0%nat = Some (Processor t i) -> t <> i -> park_runs st 0 t.
Proof. intros Hc Hi. by exists (Processor t i). Qed.

Lemma one_cpu_current st t i :
  s_cpus st !! 0%nat = Some (Processor t i) -> t <> i ->
  s_sleeping st = [] -> (forall u, park_runs st 0 u <-> Some t = Some u) /\ park_online st 0.
Proof.
  intros Hc Hi Hs. split; [|eexists; split; [done|by apply nobody_sleeps]]. intros u. split.
  - intros (c & Hc' & <- & _). rewrite Hc in Hc'. by injection Hc' as <-.
  - intros [= <-]. by apply (one_cpu_runs st t i).
Qed.

Lemma unused_fresh st b :
  s_blockers st !! b = None -> (forall t u, s_threads st !! t = Some u -> t_blocker u <> Some b) -> park_fresh st b.
Proof. intros Hb Hu. split; [exact Hu|]. intros t p (blk & ? & ? & _). congruence. Qed.

Lemma outside_starts : starts three_processes outside.
Proof.
  split.
  - values (fun u => negb (t_should_die u)). by destruct (t_should_die u).
  - assert (Hi : forall t, (t < 20)%nat \/ ~ is_idle three_processes t).
    { intros t. destruct (decide (t < 20)%nat); [by left|right]. intros (k & c & Hk & Ec).
      assert (Hc : (c_idle c =? 0)%nat = true) by (revert k c Hk Ec; values (fun d => (c_idle d =? 0)%nat); done).
      apply Nat.eqb_eq in Hc. lia. }
    unfold outside. intros t p [[<- <-]|[Hne [[<- <-]|[Hne' [<- <-]%lookup_singleton_Some]]%lookup_insert_Some]]%lookup_insert_Some;
      (split; [done|]); eexists; (split; [vm_compute; reflexivity|]);
      (split; [match goal with |- ~ is_idle _ ?t => destruct (Hi t); [lia|done] end|done]).
Qed.

Lemma unused_blocker b st :
  s_blockers st !! b = None ->
  forallb (fun kv => negb (bool_decide (t_blocker kv.2 = Some b))) (map_to_list (s_threads st)) = true ->
  park_fresh st b.
Proof.
  intros Hb Hall. apply unused_fresh; [done|]. intros t u Hu.
  apply (all_values (fun u => negb (bool_decide (t_blocker u = Some b)))) in Hu; [|done].
  by case_bool_decide.
Qed.

Ltac enable :=
  cbn [enabled];
  repeat lazymatch goal with
  | |- (forall _, _ <-> _) /\ _ => eapply one_cpu_current; [vm_compute; reflexivity|lia|vm_compute; reflexivity]
  | |- pk_runs _ _ _ => eapply one_cpu_runs; [vm_compute; reflexivity|lia]
  | |- pk_guarded _ _ => eexists; split; vm_compute; reflexivity
  | |- pk_fresh _ _ => apply unused_blocker; vm_compute; reflexivity
  | |- _ /\ _ => split
  | |- exists _, _ => eexists
  | |- _ !! _ = _ => vm_compute; reflexivity
  | |- lk_modes _ => done
  end.
(** The states of a run, each evaluated from the one before. *)
Ltac go l w0 :=
  lazymatch l with
  | [] => constructor
  | ?a :: ?l' => apply (reaches_act w0 a (run_acts l' w0)); [go l' w0|enable|vm_compute; reflexivity]
  end.

Definition m0 : world mutex sched := World (Mutex None []) three_processes outside.
Definition shared0 : world shared_mutex sched := World (SharedMutex free_mode [] []) three_processes outside.

Lemma mutex_run : reaches m0 (run_acts (handover Exclusive) m0).
Proof. let l := eval cbv [handover] in (handover Exclusive) in go l m0. Qed.

Lemma shared_run : reaches shared0 (run_acts (handover Exclusive) shared0).
Proof. let l := eval cbv [handover] in (handover Exclusive) in go l shared0. Qed.

Lemma mutex_safe_witness :
  exists w', act (Decide 0 4 (Some 20%nat)) (run_acts (handover Exclusive) m0) = Ok w'.
Proof.
  apply (mutex_safe 1 three_processes outside (run_acts (handover Exclusive) m0) reachable_three_processes outside_starts mutex_run).
  enable.
Defined.

Lemma mutex_no_lost_wakeup_witness :
  exists t p, w_places (run_acts (handover Exclusive) m0) !! t = Some p /\
    retrying [6%nat] p /\ park_runnable (w_sched (run_acts (handover Exclusive) m0)) t.
Proof.
  exact (proj2 (proj2 (proj2 (mutex_no_lost_wakeup 1 three_processes outside (run_acts (handover Exclusive) m0)
    reachable_three_processes outside_starts mutex_run))) ltac:(vm_compute; reflexivity) ltac:(vm_compute; discriminate)).
Defined.

Lemma shared_mutex_safe_witness :
  exists t p, w_places (run_acts (handover Exclusive) shared0) !! t = Some p /\
    retrying [6%nat] p /\ park_runnable (w_sched (run_acts (handover Exclusive) shared0)) t.
Proof.
  exact (proj2 (proj2 (proj2 (shared_mutex_safe 1 three_processes outside (run_acts (handover Exclusive) shared0)
    reachable_three_processes outside_starts shared_run))) ltac:(vm_compute; reflexivity) ltac:(vm_compute; discriminate)).
Defined.
