(* ===== verification/IOStream.v ===== *)
(** What the I/O streams share: error codes (Core/ErrorCode.h, Shared/Error.h) and the copies
    to and from user memory that stop at a page fault (Memory/SafeOperations.h). *)
From S2P Require Import Prelude.
From stdpp Require Import gmap.
#[local] Open Scope Z_scope.

(** [Kernel/Core/ErrorCode.h:10-15] ErrorCode, the values of Shared/Error.h *)
Inductive error_code :=
  | NO_ERROR | ACCESS_DENIED | INVALID_ARGUMENT | BAD_PATH | DISK_NOT_FOUND | UNSUPPORTED
  | NO_SUCH_FILE | IS_DIRECTORY | IS_FILE | FILE_IS_BUSY | FILE_ALREADY_EXISTS | NAME_TOO_LONG
  | BAD_FILENAME | INTERRUPTED | STREAM_CLOSED | WOULD_BLOCK_FOREVER | MEMORY_ACCESS_VIOLATION.

#[export] Instance error_code_eq_dec : EqDecision error_code.
Proof. solve_decision. Defined.

(** [Kernel/Core/ErrorCode.h:73-101] ErrorOr *)
Inductive error_or (A : Type) := Value (a : A) | Error (e : error_code).
Arguments Value {A} _.
Arguments Error {A} _.

#[export] Instance error_or_eq_dec `{EqDecision A} : EqDecision (error_or A).
Proof. solve_decision. Defined.

(** ** User memory *)

(** The bytes a user process may access; an access elsewhere faults. *)
Abbreviation umem := (gmap Z Z).

Definition accessible (m : umem) (a : Z) (n : nat) : Prop :=
  forall i, (i < n)%nat -> is_Some (m !! (a + Z.of_nat i)).

#[export] Instance accessible_dec m a n : Decision (accessible m a n).
Proof.
  destruct (decide (Forall (fun i => is_Some (m !! (a + Z.of_nat i))) (seq 0 n))) as [H|H].
  - left. intros i Hi. rewrite Forall_forall in H. apply H. apply elem_of_seq. lia.
  - right. intros Ha. apply H, Forall_forall. intros i Hi%elem_of_seq. apply Ha. lia.
Defined.

(** The bytes at [a]. *)
Definition stored (m : umem) (a : Z) (l : list Z) : Prop :=
  forall i v, l !! i = Some v -> m !! (a + Z.of_nat i) = Some v.

(** [Kernel/Memory/SafeOperations.h:11-12] safe_copy_memory from user memory: the bytes copied, and whether all were *)
Fixpoint copy_from_user (m : umem) (a : Z) (n : nat) : list Z * bool :=
  match n with
  | O => ([], true)
  | S n =>
      match m !! a with
      | Some v => let '(l, ok) := copy_from_user m (a + 1) n in (v :: l, ok)
      | None => ([], false)
      end
  end.

(** [Kernel/Memory/SafeOperations.h:11-12] safe_copy_memory to user memory *)
Fixpoint copy_to_user (m : umem) (a : Z) (l : list Z) : umem * bool :=
  match l with
  | [] => (m, true)
  | v :: l =>
      match m !! a with
      | Some _ => copy_to_user (<[ a := v ]> m) (a + 1) l
      | None => (m, false)
      end
  end.

Lemma accessible_S m a n : accessible m a (S n) <-> is_Some (m !! a) /\ accessible m (a + 1) n.
Proof.
  split.
  - intros H. split; [rewrite <- (Z.add_0_r a); apply (H O); lia|]. intros i Hi.
    replace (a + 1 + Z.of_nat i) with (a + Z.of_nat (S i)) by lia. apply H. lia.
  - intros [H0 H] [|i] Hi; [by rewrite Z.add_0_r|].
    replace (a + Z.of_nat (S i)) with (a + 1 + Z.of_nat i) by lia. apply H. lia.
Qed.

Lemma accessible_app m a n k :
  accessible m a (n + k) <-> accessible m a n /\ accessible m (a + Z.of_nat n) k.
Proof.
  revert a. induction n as [|n IH]; intros a; cbn [Nat.add].
  - rewrite Z.add_0_r. split; [|tauto]. intros H. split; [|done]. intros i Hi. lia.
  - rewrite !accessible_S, IH. replace (a + Z.of_nat (S n)) with (a + 1 + Z.of_nat n) by lia. tauto.
Qed.

Lemma stored_cons m a v l : stored m a (v :: l) <-> m !! a = Some v /\ stored m (a + 1) l.
Proof.
  split.
  - intros H. split; [rewrite <- (Z.add_0_r a); by apply (H O)|]. intros i x Hx.
    replace (a + 1 + Z.of_nat i) with (a + Z.of_nat (S i)) by lia. by apply H.
  - intros [H0 H] [|i] x Hx; cbn in Hx; [rewrite Z.add_0_r; congruence|].
    replace (a + Z.of_nat (S i)) with (a + 1 + Z.of_nat i) by lia. by apply H.
Qed.

Lemma copy_from_user_spec m a n :
  if decide (accessible m a n)
  then exists l, copy_from_user m a n = (l, true) /\ length l = n /\ stored m a l
  else exists l, copy_from_user m a n = (l, false) /\ (length l < n)%nat.
Proof.
  revert a. induction n as [|n IH]; intros a; cbn [copy_from_user].
  - rewrite decide_True; [|intros i Hi; lia]. by exists [].
  - destruct (m !! a) as [v|] eqn:Ha.
    + specialize (IH (a + 1)). destruct (decide (accessible m (a + 1) n)) as [H|H].
      * rewrite decide_True by (apply accessible_S; eauto). destruct IH as (l & -> & Hl & Hs).
        exists (v :: l). cbn. split_and!; [done|lia|]. by apply stored_cons.
      * rewrite decide_False by (rewrite accessible_S; tauto). destruct IH as (l & -> & Hl).
        exists (v :: l). cbn. split; [done|lia].
    + rewrite decide_False; [|rewrite accessible_S, Ha; intros [[] ?]; done]. exists []. cbn. split; [done|lia].
Qed.

(** Memory changes between [a] and [b] only, and no byte becomes accessible or inaccessible. *)
Definition changes_within (m m' : umem) (a b : Z) : Prop :=
  forall x, (a <= x < b \/ m' !! x = m !! x) /\ (is_Some (m' !! x) <-> is_Some (m !! x)).

Lemma changes_within_refl m a b : changes_within m m a b.
Proof. intros x. tauto. Qed.

Lemma changes_within_trans m1 m2 m3 a b :
  changes_within m1 m2 a b -> changes_within m2 m3 a b -> changes_within m1 m3 a b.
Proof.
  intros H1 H2 x. destruct (H1 x) as [A1 B1], (H2 x) as [A2 B2]. split; [|tauto].
  destruct A1, A2; [tauto..|right; congruence].
Qed.

Lemma changes_within_wider m m' a b a' b' :
  changes_within m m' a b -> a' <= a -> b <= b' -> changes_within m m' a' b'.
Proof. intros H ? ? x. destruct (H x) as [[]?]; split; try done; [left; lia|by right]. Qed.

Lemma changes_within_accessible m m' a b x n :
  changes_within m m' a b -> accessible m' x n <-> accessible m x n.
Proof. intros H. split; intros Ha i Hi; apply (H (x + Z.of_nat i)); by apply Ha. Qed.

Lemma stored_frame m m' a b x l :
  changes_within m m' a b -> x + Z.of_nat (length l) <= a -> stored m x l -> stored m' x l.
Proof.
  intros H Hx Hs i v Hv. destruct (H (x + Z.of_nat i)) as [[?| ->] _]; [|by apply Hs].
  apply lookup_lt_Some in Hv. lia.
Qed.

Lemma copy_to_user_spec m a l :
  exists m', copy_to_user m a l = (m', bool_decide (accessible m a (length l))) /\
    changes_within m m' a (a + Z.of_nat (length l)) /\
    (accessible m a (length l) -> stored m' a l).
Proof.
  revert m a. induction l as [|v l IH]; intros m a; cbn [copy_to_user length].
  - exists m. rewrite bool_decide_true; [|intros i Hi; lia]. split_and!; [done|apply changes_within_refl|]. by intros _ i x.
  - destruct (m !! a) as [w|] eqn:Ha.
    + assert (Hc : changes_within m (<[ a := v ]> m) a (a + Z.of_nat (S (length l)))).
      { intros x. destruct (decide (x = a)) as [->|]; [|by rewrite lookup_insert_ne by done; tauto].
        rewrite lookup_insert_eq, Ha. split; [left; lia|]. by split; eexists. }
      destruct (IH (<[ a := v ]> m) (a + 1)) as (m' & -> & Hm' & Hs). exists m'.
      assert (Hacc : accessible m a (S (length l)) <-> accessible (<[a:=v]> m) (a + 1) (length l)).
      { rewrite accessible_S, (changes_within_accessible _ _ _ _ _ _ Hc), Ha. split; [tauto|]. split; [by eexists|done]. }
      split_and!.
      * f_equal. by apply bool_decide_ext.
      * eapply changes_within_trans; [apply Hc|]. eapply changes_within_wider; [done|lia..].
      * rewrite Hacc. intros H. apply stored_cons. split; [|by apply Hs].
        destruct (Hm' a) as [[?| ->] _]; [lia|]. by rewrite lookup_insert_eq.
    + exists m. rewrite bool_decide_false; [|rewrite accessible_S, Ha; intros [[] ?]; done].
      split_and!; [done|apply changes_within_refl|]. rewrite accessible_S, Ha. intros [[] ?]; done.
Qed.

Lemma stored_app m a l k :
  stored m a (l ++ k) <-> stored m a l /\ stored m (a + Z.of_nat (length l)) k.
Proof.
  revert a. induction l as [|v l IH]; intros a; cbn [app length].
  - rewrite Z.add_0_r. split; [|tauto]. intros H. split; [|done]. by intros i x.
  - rewrite !stored_cons, IH. replace (a + Z.of_nat (S (length l))) with (a + 1 + Z.of_nat (length l)) by lia. tauto.
Qed.

Lemma stored_unique m a l k : stored m a l -> stored m a k -> length l = length k -> l = k.
Proof.
  intros Hl Hk E. apply list_eq. intros i. destruct (l !! i) as [v|] eqn:Ei.
  - assert (Hi := lookup_lt_Some _ _ _ Ei). destruct (lookup_lt_is_Some_2 k i) as [w Hw]; [lia|].
    rewrite Hw. specialize (Hl i v Ei). specialize (Hk i w Hw). congruence.
  - apply lookup_ge_None in Ei. symmetry. apply lookup_ge_None. lia.
Qed.

(** ** Buffers *)

(** The [n] bytes of the buffer at [off], and their replacement. *)
Definition slice (off n : Z) (buf : list Z) : list Z := take (Z.to_nat n) (drop (Z.to_nat off) buf).
Definition splice (off : Z) (l buf : list Z) : list Z :=
  take (Z.to_nat off) buf ++ l ++ drop (Z.to_nat off + length l) buf.

Lemma slice_length off n buf :
  0 <= off -> 0 <= n -> off + n <= Z.of_nat (length buf) -> Z.of_nat (length (slice off n buf)) = n.
Proof. intros. unfold slice. rewrite length_take, length_drop. lia. Qed.

Lemma splice_lookup off l buf j :
  0 <= off -> off + Z.of_nat (length l) <= Z.of_nat (length buf) ->
  splice off l buf !! j =
    if decide (off <= Z.of_nat j < off + Z.of_nat (length l)) then l !! (j - Z.to_nat off)%nat else buf !! j.
Proof.
  intros Ho Hl. unfold splice. destruct (decide (Z.of_nat j < off)).
  - rewrite decide_False, lookup_app_l, lookup_take_lt by (rewrite ?length_take; lia). done.
  - rewrite lookup_app_r by (rewrite length_take; lia). rewrite length_take, Nat.min_l by lia. case_decide.
    + by rewrite lookup_app_l by lia.
    + rewrite lookup_app_r, lookup_drop by lia. f_equal. lia.
Qed.

Lemma splice_length off l buf :
  0 <= off -> off + Z.of_nat (length l) <= Z.of_nat (length buf) -> length (splice off l buf) = length buf.
Proof. intros. unfold splice. rewrite !length_app, length_take, length_drop. lia. Qed.

Lemma slice_lookup off n buf (j : nat) :
  0 <= off -> Z.of_nat j < n -> slice off n buf !! j = buf !! Z.to_nat (off + Z.of_nat j).
Proof. intros Ho Hj. unfold slice. rewrite lookup_take_lt, lookup_drop by lia. f_equal. lia. Qed.
