(* ===== verification/FileIterator.v ===== *)
(** Kernel/FileSystem/FileIterator.h and FileIterator.cpp: the stream a process reads and writes a
    file through, over the interface of Kernel/FileSystem/File.h.  Several iterators share a file,
    each with an offset of its own. *)
From S2P Require Import Prelude Numerals IOStream.
From stdpp Require Import gmap.
#[local] Open Scope Z_scope.

(** ** The interface of files *)

(** [Kernel/FileSystem/File.h:46-54] the virtual functions of File *)
Class FileOps (S : Type) := {
  fo_read : Z -> Z -> Z -> umem -> S -> result (S * umem * error_or Z);    (** buffer, offset, size *)
  fo_write : Z -> Z -> Z -> umem -> S -> result (S * umem * error_or Z);
  fo_size : S -> Z;
  fo_truncate : Z -> S -> result (S * error_code);
}.

(** [fo_holds s l]: the bytes of the file are [l].  A file reads at most to its end, and bytes
    written inside it replace those that were there. *)
Class FileLaws (S : Type) `{FileOps S} (fo_holds : S -> list Z -> Prop) : Prop := {
  fo_size_law s l : fo_holds s l -> fo_size s = Z.of_nat (length l) /\ Z.of_nat (length l) < W64;
  fo_read_law addr offset size m s l :
    fo_holds s l -> is_u64 offset -> is_u64 size ->
    let piece := take (Z.to_nat size) (drop (Z.to_nat offset) l) in
    accessible m addr (length piece) ->
    exists s' m', fo_read addr offset size m s = Ok (s', m', Value (Z.of_nat (length piece))) /\
      fo_holds s' l /\ changes_within m m' addr (addr + Z.of_nat (length piece)) /\ stored m' addr piece;
  fo_write_law addr offset size m s l bytes :
    fo_holds s l -> is_u64 offset -> is_u64 size -> offset + size <= Z.of_nat (length l) ->
    stored m addr bytes -> Z.of_nat (length bytes) = size ->
    exists s', fo_write addr offset size m s = Ok (s', m, Value size) /\ fo_holds s' (overwrite (Z.to_nat offset) bytes l);
}.

(** ** The code *)

(** [Kernel/FileSystem/FileIterator.h:26-28] the members of FileIterator *)
Record file_iterator := FileIterator {
  fi_offset : Z;
  fi_is_closed : bool;
}.

Definition set_offset (offset : Z) (it : file_iterator) : file_iterator := FileIterator offset (fi_is_closed it).

Inductive seek_mode := BEGINNING | CURRENT | END | OtherSeekMode.

Section code.
Context {S : Type} `{FileOps S}.

Abbreviation outcome := (result (S * umem * file_iterator * error_or Z)).

(** [Kernel/FileSystem/FileIterator.cpp:25-26] the offset moves past the bytes of a transfer *)
Definition advance (r : error_or Z) (it : file_iterator) : file_iterator :=
  match r with
  | Value n => set_offset (fi_offset it +! n) it
  | Error _ => it
  end.

(** [Kernel/FileSystem/FileIterator.cpp:17-29] FileIterator::read *)
Definition iterator_read (buffer size : Z) (m : umem) (it : file_iterator) (s : S) : outcome :=
  if fi_is_closed it then Ok (s, m, it, Error STREAM_CLOSED)
  else '(s, m, r) ← fo_read buffer (fi_offset it) size m s; Ok (s, m, advance r it, r).

(** [Kernel/FileSystem/FileIterator.cpp:31-43] FileIterator::write *)
Definition iterator_write (buffer size : Z) (m : umem) (it : file_iterator) (s : S) : outcome :=
  if fi_is_closed it then Ok (s, m, it, Error STREAM_CLOSED)
  else '(s, m, r) ← fo_write buffer (fi_offset it) size m s; Ok (s, m, advance r it, r).

(** [Kernel/FileSystem/FileIterator.cpp:45-66] FileIterator::seek *)
Definition iterator_seek (offset : Z) (mode : seek_mode) (m : umem) (it : file_iterator) (s : S) : outcome :=
  if fi_is_closed it then Ok (s, m, it, Error STREAM_CLOSED)
  else
    match mode with
    | BEGINNING => Ok (s, m, set_offset offset it, Value offset)
    | CURRENT => let o := fi_offset it +! offset in Ok (s, m, set_offset o it, Value o)
    | END => let o := fo_size s +! offset in Ok (s, m, set_offset o it, Value o)
    | OtherSeekMode => Ok (s, m, it, Error INVALID_ARGUMENT)
    end.

(** [Kernel/FileSystem/FileIterator.cpp:68-75] FileIterator::truncate *)
Definition iterator_truncate (bytes : Z) (it : file_iterator) (s : S) : result (S * error_code) :=
  if fi_is_closed it then Ok (s, STREAM_CLOSED) else fo_truncate bytes s.

(** ** Sequences of operations of several streams *)

Inductive stream_op := ReadOp (buffer size : Z) | WriteOp (buffer size : Z) | SeekOp (offset : Z) (mode : seek_mode).

Definition do_stream_op (op : stream_op) : umem -> file_iterator -> S -> outcome :=
  match op with
  | ReadOp buffer size => iterator_read buffer size
  | WriteOp buffer size => iterator_write buffer size
  | SeekOp offset mode => iterator_seek offset mode
  end.

(** Operations on the iterators [its], one after another, and what they return. *)
Fixpoint do_stream_ops (ops : list (nat * stream_op)) (m : umem) (its : list file_iterator) (s : S) :
    result (S * umem * list file_iterator * list (error_or Z)) :=
  match ops with
  | [] => Ok (s, m, its, [])
  | (i, op) :: ops =>
    it ← read_at its (Z.of_nat i);
    '(s, m, it, r) ← do_stream_op op m it s;
    '(s, m, its, rs) ← do_stream_ops ops m (<[i := it]> its) s;
    Ok (s, m, its, r :: rs)
  end.
End code.

(** ** What the streams of a file are *)

(** The memory with [l] at [a]. *)
Fixpoint store_bytes (m : umem) (a : Z) (l : list Z) : umem :=
  match l with
  | [] => m
  | v :: l => store_bytes (<[ a := v ]> m) (a + 1) l
  end.

(** The bytes at [a], if the user may access them. *)
Fixpoint load_bytes (m : umem) (a : Z) (n : nat) : option (list Z) :=
  match n with
  | O => Some []
  | S n => v ← m !! a; l ← load_bytes m (a + 1) n; Some (v :: l)
  end.

(** The content of the file, and for each stream its position, a closed one having none. *)
Definition ideal := (list Z * list (option Z))%type.

(** An operation on the content: a read returns the bytes from the position to the end at most
    and moves past them, a write inside the content replaces bytes, a seek moves. *)
Definition ideal_op (op : stream_op) (m : umem) (l : list Z) (pos : option Z) : option (umem * list Z * option Z * error_or Z) :=
  match pos, op with
  | None, _ => Some (m, l, None, Error STREAM_CLOSED)
  | Some p, ReadOp buffer size =>
      let piece := take (Z.to_nat size) (drop (Z.to_nat p) l) in
      let n := Z.of_nat (length piece) in
      if decide (accessible m buffer (length piece))
      then Some (store_bytes m buffer piece, l, Some (wrap64 (p + n)), Value n) else None
  | Some p, WriteOp buffer size =>
      if decide (p + size <= Z.of_nat (length l))
      then bytes ← load_bytes m buffer (Z.to_nat size);
           Some (m, overwrite (Z.to_nat p) bytes l, Some (p + size), Value size)
      else None
  | Some p, SeekOp offset BEGINNING => Some (m, l, Some offset, Value offset)
  | Some p, SeekOp offset CURRENT => Some (m, l, Some (wrap64 (p + offset)), Value (wrap64 (p + offset)))
  | Some p, SeekOp offset END =>
      let q := wrap64 (Z.of_nat (length l) + offset) in Some (m, l, Some q, Value q)
  | Some p, SeekOp offset OtherSeekMode => Some (m, l, Some p, Error INVALID_ARGUMENT)
  end.

Fixpoint ideal_ops (ops : list (nat * stream_op)) (m : umem) (l : list Z) (poss : list (option Z)) :
    option (umem * list Z * list (option Z) * list (error_or Z)) :=
  match ops with
  | [] => Some (m, l, poss, [])
  | (i, op) :: ops =>
    pos ← poss !! i;
    '(m, l, pos, r) ← ideal_op op m l pos;
    '(m, l, poss, rs) ← ideal_ops ops m l (<[i := pos]> poss);
    Some (m, l, poss, r :: rs)
  end.

(** ** The streams are the ideal ones *)

Lemma lookup_store_bytes l m a x :
  store_bytes m a l !! x = if decide (a <= x < a + Z.of_nat (length l)) then l !! Z.to_nat (x - a) else m !! x.
Proof.
  revert m a. induction l as [|v l IH]; intros m a; cbn [store_bytes length].
  - rewrite decide_False by lia. done.
  - rewrite IH. destruct (decide (x = a)) as [->|Hne].
    + rewrite decide_False, decide_True, lookup_insert_eq by lia. by rewrite Z.sub_diag.
    + destruct (decide (a + 1 <= x < a + 1 + Z.of_nat (length l))) as [Hx|Hx].
      * rewrite decide_True by lia. replace (Z.to_nat (x - a)) with (S (Z.to_nat (x - (a + 1)))) by lia. done.
      * rewrite decide_False, lookup_insert_ne by (done || lia). done.
Qed.

(** The bytes stored and the others kept determine the memory. *)
Lemma store_bytes_unique l m m' a :
  changes_within m m' a (a + Z.of_nat (length l)) -> stored m' a l -> m' = store_bytes m a l.
Proof.
  intros Hc Hs. apply map_eq. intros x. rewrite lookup_store_bytes. case_decide as Hx.
  - destruct (lookup_lt_is_Some_2 l (Z.to_nat (x - a)) ltac:(lia)) as [v Hv]. rewrite Hv. rewrite <- (Hs _ _ Hv). f_equal. lia.
  - destruct (Hc x) as [[?|?] _]; [lia|done].
Qed.

Lemma load_bytes_Some m a n l : load_bytes m a n = Some l -> length l = n /\ stored m a l.
Proof.
  revert a l. induction n as [|n IH]; intros a l E; cbn [load_bytes] in E.
  - injection E as <-. split; [done|]. by intros i v Hi.
  - destruct (m !! a) as [v|] eqn:Ha; [|done]. cbn in E. destruct (load_bytes m (a + 1) n) as [l'|] eqn:El; [|done].
    injection E as <-. destruct (IH _ _ El) as [Hl Hs]. split; [simpl; lia|]. by apply stored_cons.
Qed.

Section correct.
Context {S : Type} `{!FileOps S} (fo_holds : S -> list Z -> Prop) `{!FileLaws S fo_holds}.

Definition stream_at (it : file_iterator) (pos : option Z) : Prop :=
  match pos with
  | None => fi_is_closed it = true
  | Some p => it = FileIterator p false /\ is_u64 p
  end.

Definition op_args_ok (op : stream_op) : Prop :=
  match op with
  | ReadOp _ size | WriteOp _ size => is_u64 size
  | SeekOp offset _ => is_u64 offset
  end.

Lemma stream_op_Ok op m it s l pos m' l' pos' r :
  op_args_ok op -> fo_holds s l -> stream_at it pos -> ideal_op op m l pos = Some (m', l', pos', r) ->
  exists s' it', do_stream_op op m it s = Ok (s', m', it', r) /\ fo_holds s' l' /\ stream_at it' pos'.
Proof using Type*.
  intros Hop Hs Hat E. destruct pos as [p|].
  2:{ injection E as <- <- <- <-. exists s, it. simpl in Hat. split; [|done].
      destruct op; cbn; unfold iterator_read, iterator_write, iterator_seek; by rewrite Hat. }
  destruct Hat as [-> Hp]. destruct op as [buffer size|buffer size|offset mode]; cbn in Hop; cbn [do_stream_op].
  - unfold iterator_read. cbn [ideal_op fi_is_closed fi_offset] in *. cbn zeta in E. case_decide as Ha; [|done]. injection E as <- <- <- <-.
    destruct (fo_read_law buffer p size m s l Hs Hp Hop Ha) as (s' & m' & -> & Hs' & Hc & Hst). run.
    exists s'. eexists. rewrite (store_bytes_unique _ _ _ _ Hc Hst). split_and!; [reflexivity|done|]. split; [done|apply wrap64_range].
  - unfold iterator_write. cbn [ideal_op fi_is_closed fi_offset] in *. case_decide as Hin; [|done].
    destruct (load_bytes m buffer (Z.to_nat size)) as [bytes|] eqn:El; [|done]. injection E as <- <- <- <-.
    destruct (load_bytes_Some _ _ _ _ El) as [Hlen Hst].
    destruct (fo_write_law buffer p size m s l bytes Hs Hp Hop Hin Hst ltac:(unfold is_u64 in *; lia)) as (s' & -> & Hs'). run.
    destruct (fo_size_law s l Hs) as [_ Hsz]. assert (Hw : is_u64 (p + size)) by (unfold is_u64 in *; lia).
    exists s'. eexists. split_and!; [reflexivity|done|]. split; [|done]. cbn. unfold set_offset. cbn. by rewrite wrap64_small.
  - unfold iterator_seek. cbn [fi_is_closed fi_offset]. destruct mode; cbn [ideal_op] in E; injection E as <- <- <- <-; cbn zeta;
      rewrite ?(proj1 (fo_size_law s l Hs)); exists s; eexists; split_and!; try reflexivity; try done; (split; [done|]); first [done|apply wrap64_range].
Qed.

(** C26: refinement of the file streams.  Over any file that keeps the promises of the interface,
    any sequence of reads, writes inside the file and seeks on any number of streams of the file
    returns, stores in the memory of the user and leaves in the file exactly what the ideal
    streams do: bytes are read from the position of the stream, at most to the end, a stream sees
    what another one wrote, positions are moved by the operations of their stream only, and a
    closed stream answers STREAM_CLOSED. *)
Theorem file_streams_refine ops m its s l poss m' l' poss' rs :
  Forall (fun op => op_args_ok op.2) ops -> fo_holds s l -> Forall2 stream_at its poss ->
  ideal_ops ops m l poss = Some (m', l', poss', rs) ->
  exists s' its', do_stream_ops ops m its s = Ok (s', m', its', rs) /\ fo_holds s' l' /\ Forall2 stream_at its' poss'.
Proof using Type*.
  intros Hops. revert m its s l poss rs. induction Hops as [|[i op] ops Hop Hops IH]; intros m its s l poss rs Hs Hat E.
  - injection E as <- <- <- <-. eauto.
  - cbn [ideal_ops do_stream_ops] in *. destruct (poss !! i) as [pos|] eqn:Ei; [|done]. cbn in E.
    destruct (ideal_op op m l pos) as [[[[m1 l1] pos1] r]|] eqn:E1; [|done]. cbn in E.
    destruct (ideal_ops ops m1 l1 (<[i:=pos1]> poss)) as [[[[m2 l2] poss2] rs2]|] eqn:E2; [|done]. cbn in E. injection E as <- <- <- <-.
    destruct (Forall2_lookup_r _ _ _ _ _ Hat Ei) as (it & Hi & Hit).
    rewrite (proj2 (read_at_Ok its (Z.of_nat i) it)) by (rewrite Nat2Z.id; split; [lia|done]). run.
    destruct (stream_op_Ok op m it s l pos m1 l1 pos1 r Hop Hs Hit E1) as (s1 & it1 & -> & Hs1 & Hit1). run.
    destruct (IH m1 (<[i:=it1]> its) s1 l1 (<[i:=pos1]> poss) rs2 Hs1 (Forall2_insert _ _ _ _ _ _ Hat Hit1) E2) as (s' & its' & -> & Hs' & Hat'). run.
    eauto.
Qed.
End correct.
