(* ===== verification/Vfs.v ===== *)
(** Kernel/FileSystem/VFS.h and VFS.cpp: the partitions of the disks, the prefixes their file
    systems are mounted under, and the operations that find the file system of a path.  The file
    systems are behind the interface of Kernel/FileSystem/FileSystem.h. *)
From S2P Require Import Prelude Strings Paths Numerals Conversions IOStream FileIterator.
From stdpp Require Import gmap list_numbers.
#[local] Open Scope Z_scope.

(** ** The interface of file systems *)

(** [Kernel/FileSystem/FileSystem.h:19-30] the virtual functions of FileSystem; file systems and files are pointers *)
Class FileSystems (W : Type) := {
  fs_open : Z -> view -> W -> result (W * error_or Z);
  fs_close : Z -> W -> result (W * error_code);                       (** the file *)
  fs_remove : Z -> view -> W -> result (W * error_code);
  fs_remove_directory : Z -> view -> W -> result (W * error_code);
  fs_create : Z -> view -> W -> result (W * error_code);
  fs_create_directory : Z -> view -> W -> result (W * error_code);
  fs_move : Z -> view -> view -> W -> result (W * error_code);
  fs_sync : Z -> W -> result W;
}.

(** ** The map of prefixes *)

(** An ordered map, as the sequence of its pairs. *)
Abbreviation prefix_map := (list (view * Z)).

(** [Kernel/Common/Map.h:99-107] operator[] and the assignment to what it returns *)
Fixpoint map_assign (key : view) (value : Z) (l : prefix_map) : prefix_map :=
  match l with
  | [] => [(key, value)]
  | (k, v) :: l =>
    if decide (key = k) then (key, value) :: l
    else if lex_lt key k then (key, value) :: (k, v) :: l
    else (k, v) :: map_assign key value l
  end.

Fixpoint map_find (key : view) (l : prefix_map) : option Z :=
  match l with
  | [] => None
  | (k, v) :: l => if decide (key = k) then Some v else map_find key l
  end.

(** [Kernel/Drivers/Storage.h:25-34] MediumType *)
Inductive medium_type := HDD | SSD | CD | USB | REMOTE | RAM.

Definition medium_index (t : medium_type) : Z :=
  match t with HDD => 0 | SSD => 1 | CD => 2 | USB => 3 | REMOTE => 4 | RAM => 5 end.

(** [Kernel/Drivers/Storage.h:36-54] medium_type_to_string *)
Definition medium_type_to_string (t : medium_type) : view :=
  match t with
  | HDD => [72; 68; 68]
  | SSD => [83; 83; 68]
  | CD => [67; 68]
  | USB => [85; 83; 66]
  | REMOTE => [82; 69; 77; 79; 84; 69]
  | RAM => [82; 65; 77]
  end.

(** [Kernel/FileSystem/VFS.h:56-57] the members of VFS *)
Record vfs := Vfs {
  m_prefix_to_fs : prefix_map;
  m_prefix_indices : list Z;
}.

(** ** Partitions *)

(** A storage device: the kind and size of its blocks, and the bytes of each. *)
Record storage := Storage {
  st_medium : medium_type;
  st_block_size : Z;
  st_block : Z -> list Z;
}.

Definition read_blocks (d : storage) (first count : Z) : list Z := concat (st_block d <$> seqZ first count).

(** [Kernel/FileSystem/VFS.cpp:135-152] VFS::generate_prefix *)
Definition generate_prefix (medium : medium_type) (v : vfs) : result (view * vfs) :=
  let idx := medium_index medium in
  _ ← ASSERT (idx <? 6);
  index ← read_at (m_prefix_indices v) idx;
  indices ← write_at (m_prefix_indices v) idx (index +! 1);
  number ← append_number false 8 index (replicate 32 0);
  Ok (medium_type_to_string medium ++ number, Vfs (m_prefix_to_fs v) indices).

(** [Kernel/FileSystem/VFS.cpp:126-131] the file system of a partition gets a prefix, and the first one the empty prefix *)
Definition add_file_system (medium : medium_type) (v : vfs) (fs : Z) : result vfs :=
  '(prefix, v) ← generate_prefix medium v;
  let l := map_assign prefix fs (m_prefix_to_fs v) in
  let l := match map_find [] l with Some _ => l | None => map_assign [] fs l end in
  Ok (Vfs l (m_prefix_indices v)).

(** A number of four bytes. *)
Definition u32_at (bytes : list Z) (offset : Z) : result Z :=
  b0 ← read_at bytes offset; b1 ← read_at bytes (offset + 1);
  b2 ← read_at bytes (offset + 2); b3 ← read_at bytes (offset + 3);
  Ok (b0 + 256 * b1 + 65536 * b2 + 16777216 * b3).

(** [Kernel/FileSystem/VFS.cpp:74-81] MBRPartitionEntry *)
Record mbr_entry := MbrEntry { me_type : Z; me_first_block : Z; me_block_count : Z }.

(** [Kernel/FileSystem/VFS.cpp:66-67] the entry [i] of the table of a boot record
    [Kernel/FileSystem/VFS.cpp:83-85] the entry of the loop *)
Definition partition_at (mbr : list Z) (i : Z) : result mbr_entry :=
  let entry := 0x01BE + 16 * i in
  type ← read_at mbr (entry + 4);
  first ← u32_at mbr (entry + 8);
  count ← u32_at mbr (entry + 12);
  Ok (MbrEntry type first count).

Fixpoint foldM {A B} (f : A -> B -> result A) (l : list B) (a : A) : result A :=
  match l with
  | [] => Ok a
  | b :: l => a ← f a b; foldM f l a
  end.

Section partitions.
(** FAT32::create: the file system on blocks of the device, if there is one. *)
Context (d : storage) (create_fat32 : Z -> Z -> option Z).

(** [Kernel/FileSystem/VFS.cpp:86-132] the body of the loop of load_mbr_partitions; [extended] loads an extended boot record *)
Definition load_partition_entry (extended : list Z -> Z -> vfs -> result vfs) (mbr : list Z) (sector_offset : Z) (v : vfs) (i : Z) :
    result vfs :=
  p ← partition_at mbr i;
  if me_type p =? 0 then Ok v
  else if (me_type p =? 0x0B) || (me_type p =? 0x0C) then
    match create_fat32 (me_first_block p +! sector_offset) (me_block_count p) with
    | Some fs => add_file_system (st_medium d) v fs
    | None => Ok v
    end
  else if me_type p =? 0x05 then
    let ebr_offset := me_first_block p +! sector_offset in
    extended (read_blocks d ebr_offset 1) ebr_offset v
  else Ok v.

(** [Kernel/FileSystem/VFS.cpp:64-133] VFS::load_mbr_partitions; [fuel] bounds the chain of extended boot records *)
Fixpoint load_mbr_partitions (fuel : nat) (mbr : list Z) (sector_offset : Z) (v : vfs) : result vfs :=
  match fuel with
  | O => Fault OutOfFuel
  | S fuel => foldM (load_partition_entry (load_mbr_partitions fuel) mbr sector_offset) [0; 1; 2; 3] v
  end.

(** [Kernel/FileSystem/VFS.cpp:37-37] "EFI PART" *)
Definition gpt_signature : view := [69; 70; 73; 32; 80; 65; 82; 84].

(** [Kernel/FileSystem/VFS.cpp:22-62] VFS::load_all_partitions *)
Definition load_all_partitions (fuel : nat) (v : vfs) : result vfs :=
  if negb (st_block_size d =? 512) && negb (st_block_size d =? 4096) then Ok v
  else
    let lba0_data := read_blocks d 0 (4096 / st_block_size d) in
    gpt ← are_equal (take 8 (drop 512 lba0_data)) gpt_signature;
    if (gpt : bool) then Ok v
    else
      b0 ← read_at lba0_data 510;
      b1 ← read_at lba0_data 511;
      if negb (b0 + 256 * b1 =? 0xAA55) then Ok v
      else load_mbr_partitions fuel lba0_data 0 v.
End partitions.

(** ** Operations on paths *)

Section operations.
Context {W : Type} `{FileSystems W}.

(** [Kernel/FileSystem/VFS.cpp:198-208] the file system of a path and the path in it, or what the operation returns *)
Definition resolve (v : vfs) (path : view) : result (error_code + Z * view) :=
  split ← split_prefix_and_path path;
  Ok match split with
     | None => inl BAD_PATH
     | Some (prefix, rest) =>
       match map_find prefix (m_prefix_to_fs v) with
       | None => inl DISK_NOT_FOUND
       | Some fs => inr (fs, rest)
       end
     end.

Definition is_io_mode_set (value flag : Z) : bool := negb (Z.land value flag =? 0).
Definition CREATE : Z := 8.

(** [Kernel/FileSystem/VFS.cpp:173-191] the loop of VFS::open; other threads run before each call of the file system, [others k] before the k-th *)
Fixpoint open_loop (fuel : nat) (others : nat -> W -> W) (k : nat) (fs : Z) (path : view) (mode : Z) (w : W) :
    result (W * error_or Z) :=
  match fuel with
  | O => Fault OutOfFuel
  | S fuel =>
    '(w, r) ← fs_open fs path (others k w);
    match r with
    | Value file => Ok (w, Value file)
    | Error e =>
      if negb (bool_decide (e = NO_SUCH_FILE)) || negb (is_io_mode_set mode CREATE) then Ok (w, Error e)
      else
        '(w, code) ← fs_create fs path (others (S k) w);
        (* the code becomes an ErrorOr<File*>, and its value is a null pointer *)
        if bool_decide (code = NO_ERROR) then Ok (w, Value 0)
        else if negb (bool_decide (code = FILE_ALREADY_EXISTS)) then Ok (w, Error code)
        else open_loop fuel others (S (S k)) fs path mode w
    end
  end.

(** [Kernel/FileSystem/VFS.cpp:154-194] VFS::open: the file and its iterator *)
Definition vfs_open (fuel : nat) (others : nat -> W -> W) (v : vfs) (path : view) (mode : Z) (w : W) :
    result (W * error_or (Z * file_iterator)) :=
  target ← resolve v path;
  match target with
  | inl e => Ok (w, Error e)
  | inr (fs, rest) =>
    '(w, r) ← open_loop fuel others 0 fs rest mode w;
    Ok (w, match r with Value file => Value (file, FileIterator 0 false) | Error e => Error e end)
  end.

Definition on_path (operation : Z -> view -> W -> result (W * error_code)) (v : vfs) (path : view) (w : W) :
    result (W * error_code) :=
  target ← resolve v path;
  match target with
  | inl e => Ok (w, e)
  | inr (fs, rest) => operation fs rest w
  end.

(** [Kernel/FileSystem/VFS.cpp:196-211] VFS::remove *)
Definition vfs_remove := on_path fs_remove.
(** [Kernel/FileSystem/VFS.cpp:213-228] VFS::remove_directory *)
Definition vfs_remove_directory := on_path fs_remove_directory.
(** [Kernel/FileSystem/VFS.cpp:230-245] VFS::create *)
Definition vfs_create := on_path fs_create.
(** [Kernel/FileSystem/VFS.cpp:247-261] VFS::create_directory *)
Definition vfs_create_directory := on_path fs_create_directory.

(** [Kernel/FileSystem/VFS.cpp:263-286] VFS::move *)
Definition vfs_move (v : vfs) (path new_path : view) (w : W) : result (W * error_code) :=
  split_old ← split_prefix_and_path path;
  split_new ← split_prefix_and_path new_path;
  match split_old, split_new with
  | Some (prefix_old, path_old), Some (prefix_new, path_new) =>
    match map_find prefix_new (m_prefix_to_fs v), map_find prefix_old (m_prefix_to_fs v) with
    | Some fs_1, Some fs_2 =>
      if negb (fs_1 =? fs_2) then Ok (w, UNSUPPORTED) else fs_move fs_1 path_old path_new w
    | _, _ => Ok (w, DISK_NOT_FOUND)
    end
  | _, _ => Ok (w, BAD_PATH)
  end.

(** [Kernel/FileSystem/VFS.cpp:288-296] VFS::sync_all *)
Definition sync_all (v : vfs) (w : W) : result W :=
  foldM (fun w p => if decide (p.1 = []) then Ok w else fs_sync p.2 w) (m_prefix_to_fs v) w.

(** [Kernel/FileSystem/FileIterator.cpp:77-89] FileIterator::close *)
Definition iterator_close (file : Z) (it : file_iterator) (w : W) : result (W * file_iterator * error_code) :=
  if fi_is_closed it then Ok (w, it, STREAM_CLOSED)
  else '(w, code) ← fs_close file w; Ok (w, FileIterator (fi_offset it) true, code).
End operations.
