(* ===== verification/VfsCorrect.v ===== *)
(** What the VFS guarantees: every FAT32 partition of a disk is mounted, in the order of the
    partition tables, under a prefix of its own. *)
From S2P Require Import Prelude Strings Paths Numerals Conversions IOStream FileIterator Vfs.
From stdpp Require Import gmap list_numbers.
#[local] Open Scope Z_scope.

(** ** The map of prefixes *)

Lemma map_find_assign key key' value l :
  map_find key' (map_assign key value l) = if decide (key' = key) then Some value else map_find key' l.
Proof.
  induction l as [|[k v] l IH]; cbn [map_assign map_find]; [done|].
  destruct (decide (key = k)) as [<-|Hk]; cbn [map_find].
  - by destruct (decide (key' = key)).
  - destruct (lex_lt key k); cbn [map_find]; [done|]. rewrite IH.
    repeat case_decide; congruence.
Qed.

Lemma foldM_app {A B} (f : A -> B -> result A) l l' a : foldM f (l ++ l') a = (a ← foldM f l a; foldM f l' a).
Proof. revert a. induction l as [|b l IH]; intros a; cbn; [done|]. destruct (f a b); run; [apply IH|done]. Qed.

(** ** Partitions *)

Section partitions.
Context (d : storage) (create_fat32 : Z -> Z -> option Z).

(** The FAT32 partitions of a disk, in order, as partition tables are defined.  An entry of type 5
    of the master boot record is an extended partition: it starts with an extended boot record,
    whose own partitions count from its address [addr], and whose links to the next extended boot
    record count from the [start] of the extended partition.  [depth] bounds the number of boot
    records on a path of links. *)
Definition table_partitions (linked : option Z -> list Z -> Z -> result (list (Z * Z))) (start : option Z) (table : list Z) (addr : Z)
    (found : list (Z * Z)) (i : Z) : result (list (Z * Z)) :=
  p ← partition_at table i;
  if (me_type p =? 0x0B) || (me_type p =? 0x0C) then Ok (found ++ [(me_first_block p +! addr, me_block_count p)])
  else if me_type p =? 0x05 then
    let next := me_first_block p +! default 0 start in
    ps ← linked (Some (default next start)) (read_blocks d next 1) next; Ok (found ++ ps)
  else Ok found.

Fixpoint fat_partitions (depth : nat) (start : option Z) (table : list Z) (addr : Z) : result (list (Z * Z)) :=
  match depth with
  | O => Fault OutOfFuel
  | S depth => foldM (table_partitions (fat_partitions depth) start table addr) [0; 1; 2; 3] []
  end.

(** The partitions that the code finds: it counts every link from the boot record that holds it. *)
Definition entry_partitions (extended : list Z -> Z -> result (list (Z * Z))) (mbr : list Z) (sector_offset : Z)
    (found : list (Z * Z)) (i : Z) : result (list (Z * Z)) :=
  p ← partition_at mbr i;
  let first := me_first_block p +! sector_offset in
  if (me_type p =? 0x0B) || (me_type p =? 0x0C) then Ok (found ++ [(first, me_block_count p)])
  else if me_type p =? 0x05 then ps ← extended (read_blocks d first 1) first; Ok (found ++ ps)
  else Ok found.

Fixpoint found_partitions (fuel : nat) (mbr : list Z) (sector_offset : Z) : result (list (Z * Z)) :=
  match fuel with
  | O => Fault OutOfFuel
  | S fuel => foldM (entry_partitions (found_partitions fuel) mbr sector_offset) [0; 1; 2; 3] []
  end.

Lemma foldM_mono {A B} (f g : A -> B -> result A) l a r :
  (forall a b r, f a b = Ok r -> g a b = Ok r) -> foldM f l a = Ok r -> foldM g l a = Ok r.
Proof.
  intros Hfg. revert a. induction l as [|b l IH]; intros a; cbn [foldM]; [done|]. intros (a1 & E & H)%bind_Ok.
  rewrite (Hfg _ _ _ E). run. by apply IH.
Qed.

Lemma entry_agrees linked extended start table addr found i r :
  (forall p ps, partition_at table i = Ok p -> me_type p = 0x05 ->
     let next := me_first_block p +! default 0 start in
     linked (Some (default next start)) (read_blocks d next 1) next = Ok ps ->
     default 0 start = addr /\ extended (read_blocks d next 1) next = Ok ps) ->
  table_partitions linked start table addr found i = Ok r -> entry_partitions extended table addr found i = Ok r.
Proof.
  intros H (p & Hp & E)%bind_Ok. unfold entry_partitions. rewrite Hp. run. destruct (_ || _); [done|].
  destruct (Z.eqb_spec (me_type p) 0x05) as [E5|]; [|done]. apply bind_Ok in E as (ps & El & Er).
  destruct (H p ps Hp E5 El) as [<- ->]. run. done.
Qed.

(** The two agree when no extended partition has more than two extended boot records. *)
Lemma fat_partitions_found fuel table ps :
  fat_partitions 3 None table 0 = Ok ps -> found_partitions (S (S (S fuel))) table 0 = Ok ps.
Proof.
  assert (H1 : forall start table addr ps, fat_partitions 1 start table addr = Ok ps -> found_partitions (S fuel) table addr = Ok ps).
  { intros start tb addr r. apply foldM_mono. intros a b r'. apply entry_agrees. by intros p ps' _ _ next E. }
  assert (H2 : forall start table ps, fat_partitions 2 (Some start) table start = Ok ps -> found_partitions (S (S fuel)) table start = Ok ps).
  { intros start tb r. apply foldM_mono. intros a b r'. apply entry_agrees. intros p ps' _ _ next E. split; [done|exact (H1 _ _ _ _ E)]. }
  apply foldM_mono. intros a b r'. apply entry_agrees. intros p ps' _ _ next E. split; [done|exact (H2 _ _ _ E)].
Qed.

Definition mounted (ps : list (Z * Z)) : list Z := omap (fun p => create_fat32 p.1 p.2) ps.

Definition mount_all (fss : list Z) (v : vfs) : result vfs := foldM (add_file_system (st_medium d)) fss v.

Lemma mount_app ps ps' v : mount_all (mounted (ps ++ ps')) v = (v ← mount_all (mounted ps) v; mount_all (mounted ps') v).
Proof. unfold mounted. rewrite omap_app. apply foldM_app. Qed.

(** Loading the tables mounts the partitions they lead to, one after the other. *)
Lemma load_mbr_partitions_mounts fuel mbr sector_offset ps v :
  found_partitions fuel mbr sector_offset = Ok ps ->
  load_mbr_partitions d create_fat32 fuel mbr sector_offset v = mount_all (mounted ps) v.
Proof.
  revert mbr sector_offset ps v. induction fuel as [|fuel IH]; intros mbr sector_offset ps v E; [done|].
  cbn [found_partitions load_mbr_partitions] in *.
  assert (Hloop : forall entries found ps, foldM (entry_partitions (found_partitions fuel) mbr sector_offset) entries found = Ok ps ->
    (v ← mount_all (mounted found) v; foldM (load_partition_entry d create_fat32 (load_mbr_partitions d create_fat32 fuel) mbr sector_offset) entries v) =
    mount_all (mounted ps) v).
  { clear ps E. induction entries as [|i entries IHe]; intros found ps E; cbn [foldM] in *.
    - injection E as <-. by destruct (mount_all (mounted found) v).
    - apply bind_Ok in E as (found1 & E1 & E). rewrite <- (IHe found1 ps E). clear IHe E.
      assert (Hstep : (v ← mount_all (mounted found) v; load_partition_entry d create_fat32 (load_mbr_partitions d create_fat32 fuel) mbr sector_offset v i) =
        mount_all (mounted found1) v); [|rewrite <- Hstep; by destruct (mount_all (mounted found) v)].
      unfold entry_partitions in E1. apply bind_Ok in E1 as (p & Hp & E1). unfold load_partition_entry. rewrite Hp. run.
      destruct (Z.eqb_spec (me_type p) 0) as [E0|E0].
      + rewrite E0 in E1. injection E1 as <-. by destruct (mount_all (mounted found) v).
      + destruct ((me_type p =? 0x0B) || (me_type p =? 0x0C)).
        * injection E1 as <-. rewrite mount_app. destruct (mount_all (mounted found) v) as [v1|]; run; [|done].
          unfold mounted, mount_all. cbn. destruct (create_fat32 _ _); cbn; [|done]. by destruct (add_file_system _ _ _).
        * destruct (me_type p =? 0x05).
          -- apply bind_Ok in E1 as (ps' & E1 & E2). injection E2 as <-. rewrite mount_app.
             destruct (mount_all (mounted found) v) as [v1|]; run; [|done]. by apply IH.
          -- injection E1 as <-. by destruct (mount_all (mounted found) v). }
  exact (Hloop _ [] ps E).
Qed.
End partitions.

(** ** Prefixes *)

(** The prefix of the [n]-th file system on a medium: its kind and the number. *)
Definition prefix_name (medium : medium_type) (n : Z) (prefix : view) : Prop :=
  exists text, decimal_text n text /\ prefix = medium_type_to_string medium ++ text.

Lemma prefix_name_inj medium n medium' n' prefix :
  prefix_name medium n prefix -> prefix_name medium' n' prefix -> medium = medium' /\ n = n'.
Proof.
  intros (t & Ht & ->) (t' & Ht' & E).
  destruct medium, medium'; try (split; [done|]; apply app_inv_head in E; subst; by eapply decimal_text_inj);
    cbn in E; congruence.
Qed.

Lemma prefix_name_unique medium n prefix prefix' :
  prefix_name medium n prefix -> prefix_name medium n prefix' -> prefix = prefix'.
Proof. intros (t & Ht & ->) (t' & Ht' & ->). f_equal. by eapply decimal_text_unique. Qed.

Lemma prefix_name_nonempty medium n : ~ prefix_name medium n [].
Proof. intros (t & _ & E). by destruct medium. Qed.

(** How many prefixes of a medium were given. *)
Definition prefix_index (v : vfs) (medium : medium_type) : Z :=
  default 0 (m_prefix_indices v !! Z.to_nat (medium_index medium)).

(** Every prefix in use was given. *)
Record prefixes_ok (v : vfs) : Prop := PrefixesOk {
  po_indices : length (m_prefix_indices v) = 6%nat;
  po_range : forall medium, 0 <= prefix_index v medium < W64;
  po_given : forall prefix fs, map_find prefix (m_prefix_to_fs v) = Some fs ->
    prefix = [] \/ exists medium n, prefix_name medium n prefix /\ n < prefix_index v medium;
}.

Lemma medium_index_bounds medium : 0 <= medium_index medium < 6.
Proof. destruct medium; cbn; lia. Qed.

Lemma medium_index_inj medium medium' : medium_index medium = medium_index medium' -> medium = medium'.
Proof. by destruct medium, medium'. Qed.

Lemma generate_prefix_Ok medium v :
  prefixes_ok v -> prefix_index v medium + 1 < W64 ->
  exists prefix v', generate_prefix medium v = Ok (prefix, v') /\ prefix_name medium (prefix_index v medium) prefix /\
    m_prefix_to_fs v' = m_prefix_to_fs v /\ length (m_prefix_indices v') = 6%nat /\
    forall medium', prefix_index v' medium' = prefix_index v medium' + (if decide (medium_index medium' = medium_index medium) then 1 else 0).
Proof.
  intros [H1 H2 H3] Hlt. pose proof (medium_index_bounds medium) as Hb. unfold generate_prefix.
  rewrite (proj2 (Z.ltb_lt _ _)) by lia. run.
  destruct (lookup_lt_is_Some_2 (m_prefix_indices v) (Z.to_nat (medium_index medium)) ltac:(lia)) as [index Hi].
  assert (Ei : prefix_index v medium = index) by (unfold prefix_index; by rewrite Hi). rewrite Ei in *. specialize (H2 medium) as Hr. rewrite Ei in Hr.
  rewrite (proj2 (read_at_Ok _ _ index)) by (split; [lia|done]). run.
  unfold write_at. rewrite decide_True by lia. run.
  destruct (append_decimal_Ok 8 index (replicate 32 0)) as (text & -> & Ht); [lia|done|change (8 * 8 - 1) with 63; change (8 * 8) with 64; lia|].
  run. eexists _, _. split_and!; [reflexivity|by exists text|done|cbn; by rewrite length_insert|].
  intros medium'. unfold prefix_index. cbn [m_prefix_indices]. pose proof (medium_index_bounds medium') as Hb'. case_decide as E.
  - rewrite E, list_lookup_insert_eq, Hi by lia. cbn. rewrite wrap64_small; [done|]. unfold is_u64. lia.
  - rewrite list_lookup_insert_ne by lia. lia.
Qed.

Lemma add_file_system_Ok medium v fs :
  prefixes_ok v -> prefix_index v medium + 1 < W64 ->
  exists prefix v', add_file_system medium v fs = Ok v' /\ prefix_name medium (prefix_index v medium) prefix /\
    prefixes_ok v' /\ prefix_index v' medium = prefix_index v medium + 1 /\ map_find prefix (m_prefix_to_fs v) = None /\
    forall key, map_find key (m_prefix_to_fs v') =
      if decide (key = prefix) then Some fs
      else if decide (key = []) then Some (default fs (map_find [] (m_prefix_to_fs v)))
      else map_find key (m_prefix_to_fs v).
Proof.
  intros H Hlt. unfold add_file_system. destruct (generate_prefix_Ok medium v H Hlt) as (prefix & v1 & -> & Hp & Em & Hl & Hidx). run.
  assert (Hne : [] <> prefix) by (intros <-; by apply (prefix_name_nonempty medium (prefix_index v medium))).
  rewrite Em, map_find_assign, decide_False by done.
  set (l := match map_find [] (m_prefix_to_fs v) with Some _ => _ | None => _ end).
  assert (Hl' : forall key, map_find key l = if decide (key = prefix) then Some fs
      else if decide (key = []) then Some (default fs (map_find [] (m_prefix_to_fs v))) else map_find key (m_prefix_to_fs v)).
  { intros key. unfold l. destruct (map_find [] (m_prefix_to_fs v)) as [fs0|] eqn:E0; cbn; rewrite ?map_find_assign;
      repeat case_decide; subst; congruence. }
  exists prefix. eexists. split_and!; [reflexivity|done| | | |exact Hl'].
  - constructor; cbn [m_prefix_indices m_prefix_to_fs].
    + done.
    + intros medium'. change (0 <= prefix_index v1 medium' < W64). rewrite Hidx. pose proof (po_range _ H medium').
      case_decide as E; [apply medium_index_inj in E as ->|]; lia.
    + intros key fs' Hk. rewrite Hl' in Hk. case_decide as E1; [|case_decide as E2; [by left|]].
      * right. exists medium, (prefix_index v medium). split; [by rewrite E1|]. change (prefix_index v medium < prefix_index v1 medium).
        rewrite Hidx, decide_True by done. lia.
      * destruct (po_given _ H key fs' Hk) as [?|(medium' & n & Hn & Hlt')]; [done|]. right. exists medium', n. split; [done|].
        change (n < prefix_index v1 medium'). rewrite Hidx. case_decide; lia.
  - change (prefix_index v1 medium = prefix_index v medium + 1). by rewrite Hidx, decide_True by done.
  - destruct (map_find prefix (m_prefix_to_fs v)) as [fs'|] eqn:E; [|done]. exfalso.
    destruct (po_given _ H prefix fs' E) as [?|(medium' & n & Hn & Hlt')]; [done|].
    destruct (prefix_name_inj _ _ _ _ _ Hp Hn) as [-> <-]. lia.
Qed.

Lemma mount_all_Ok d fss v :
  prefixes_ok v -> prefix_index v (st_medium d) + Z.of_nat (length fss) < W64 ->
  exists v', mount_all d fss v = Ok v' /\ prefixes_ok v' /\
    (forall j fs prefix, fss !! j = Some fs -> prefix_name (st_medium d) (prefix_index v (st_medium d) + Z.of_nat j) prefix ->
       map_find prefix (m_prefix_to_fs v') = Some fs) /\
    (forall prefix fs, map_find prefix (m_prefix_to_fs v) = Some fs -> map_find prefix (m_prefix_to_fs v') = Some fs) /\
    map_find [] (m_prefix_to_fs v') = match map_find [] (m_prefix_to_fs v) with Some fs => Some fs | None => head fss end.
Proof.
  revert v. induction fss as [|fs fss IH]; intros v H Hlt; cbn [mount_all foldM].
  - exists v. split_and!; [done|done|done|done|]. by destruct (map_find [] (m_prefix_to_fs v)).
  - simpl length in Hlt. destruct (add_file_system_Ok (st_medium d) v fs H ltac:(lia)) as (prefix & v1 & E1 & Hp & H1 & Hi1 & Hnew & Hf1).
    unfold mount_all. cbn [foldM]. rewrite E1. run.
    assert (Hne : [] <> prefix) by (intros <-; by apply (prefix_name_nonempty (st_medium d) (prefix_index v (st_medium d)))).
    destruct (IH v1 H1 ltac:(lia)) as (v' & E' & H' & Hj & Hold & Hboot). exists v'. split_and!; [done|done| | |].
    + intros [|j] fs' key Hj' Hk; cbn in Hj'.
      * injection Hj' as <-. rewrite Z.add_0_r in Hk. apply Hold. rewrite Hf1, decide_True; [done|]. by eapply prefix_name_unique.
      * apply (Hj j fs' key Hj'). rewrite Hi1. by replace (prefix_index v (st_medium d) + 1 + Z.of_nat j) with (prefix_index v (st_medium d) + Z.of_nat (S j)) by lia.
    + intros key fs' Hk. apply Hold. rewrite Hf1. rewrite decide_False by congruence.
      case_decide as E; [|done]. subst. by rewrite Hk.
    + rewrite Hboot, Hf1, decide_False, decide_True by done. by destruct (map_find [] (m_prefix_to_fs v)).
Qed.

(** C24: mounting a disk.  On a disk with a master boot record, no extended partition of which has
    more than two extended boot records (that is what the depth 3 says: the code counts the links
    of the second one from the wrong place, VFS.cpp:109 and the example [logical_partitions_lost]),
    every FAT32 partition of the partition tables that holds a file system, primary or logical, is
    mounted, in order, under the prefix of the medium with the next numbers; these prefixes were
    not in use, no file system mounted before loses its prefix, and the first file system ever
    mounted is the one of the paths without prefix. *)
Theorem load_partitions_correct d create_fat32 fuel v ps :
  st_block_size d = 512 \/ st_block_size d = 4096 ->
  let lba0 := read_blocks d 0 (4096 / st_block_size d) in
  lba0 !! 510%nat = Some 0x55 -> lba0 !! 511%nat = Some 0xAA -> take 8 (drop 512 lba0) <> gpt_signature ->
  fat_partitions d 3 None lba0 0 = Ok ps ->
  prefixes_ok v -> prefix_index v (st_medium d) + Z.of_nat (length (mounted create_fat32 ps)) < W64 ->
  exists v', load_all_partitions d create_fat32 (S (S (S fuel))) v = Ok v' /\ prefixes_ok v' /\
    (forall j fs, mounted create_fat32 ps !! j = Some fs ->
       exists prefix, prefix_name (st_medium d) (prefix_index v (st_medium d) + Z.of_nat j) prefix /\
         map_find prefix (m_prefix_to_fs v) = None /\ map_find prefix (m_prefix_to_fs v') = Some fs) /\
    (forall prefix fs, map_find prefix (m_prefix_to_fs v) = Some fs -> map_find prefix (m_prefix_to_fs v') = Some fs) /\
    map_find [] (m_prefix_to_fs v') =
      match map_find [] (m_prefix_to_fs v) with Some fs => Some fs | None => head (mounted create_fat32 ps) end.
Proof.
  intros Hsize lba0 H510 H511 Hgpt Hps Hok Hlt. unfold load_all_partitions. fold lba0.
  replace (negb (st_block_size d =? 512) && negb (st_block_size d =? 4096)) with false by (destruct Hsize as [-> | ->]; done).
  rewrite are_equal_Ok, bool_decide_false by done. run.
  rewrite (proj2 (read_at_Ok lba0 510 0x55)), (proj2 (read_at_Ok lba0 511 0xAA)) by (split; [lia|done]). run.
  rewrite (load_mbr_partitions_mounts d create_fat32 _ lba0 0 ps v (fat_partitions_found d fuel lba0 ps Hps)).
  destruct (mount_all_Ok d (mounted create_fat32 ps) v Hok Hlt) as (v' & E & H' & Hj & Hold & Hboot).
  exists v'. split_and!; [exact E|done| |done|done]. intros j fs Hfs. apply lookup_lt_Some in Hfs as Hlen.
  pose proof (po_range _ Hok (st_medium d)) as Hr.
  destruct (append_decimal_Ok 8 (prefix_index v (st_medium d) + Z.of_nat j) (replicate 32 0)) as (text & _ & Ht);
    [lia|done|change (8 * 8 - 1) with 63; change (8 * 8) with 64; lia|].
  exists (medium_type_to_string (st_medium d) ++ text).
  assert (Hn : prefix_name (st_medium d) (prefix_index v (st_medium d) + Z.of_nat j) (medium_type_to_string (st_medium d) ++ text)) by (by exists text).
  split_and!; [done| |by eapply Hj].
  destruct (map_find (medium_type_to_string (st_medium d) ++ text) (m_prefix_to_fs v)) as [fs'|] eqn:Ef; [|done]. exfalso.
  destruct (po_given _ Hok _ _ Ef) as [E0|(medium' & n & Hn' & Hlt')]; [rewrite E0 in Hn; by apply prefix_name_nonempty in Hn|].
  destruct (prefix_name_inj _ _ _ _ _ Hn Hn') as [<- <-]. lia.
Qed.

(** *** A disk with an extended partition *)

Definition u32_bytes (x : Z) : list Z := [x mod 256; x / 256 mod 256; x / 65536 mod 256; x / 16777216].

Definition entry_bytes (e : mbr_entry) : list Z :=
  [0; 0; 0; 0; me_type e; 0; 0; 0] ++ u32_bytes (me_first_block e) ++ u32_bytes (me_block_count e).

Definition boot_record (entries : list mbr_entry) : list Z :=
  replicate 446 0 ++ take 64 (concat (entry_bytes <$> entries) ++ replicate 64 0) ++ [0x55; 0xAA].

(** A primary partition, and an extended one at 5000 with logical partitions at 5063 and 6063. *)
Definition example_disk : storage := Storage SSD 512 (fun block =>
  if block =? 0 then boot_record [MbrEntry 0x0C 2048 100; MbrEntry 0x05 5000 2000]
  else if block =? 5000 then boot_record [MbrEntry 0x0B 63 900; MbrEntry 0x05 1000 1000]
  else if block =? 6000 then boot_record [MbrEntry 0x0B 63 900]
  else replicate 512 0).

Definition new_vfs : vfs := Vfs [] [0; 0; 0; 0; 0; 0].

Lemma new_vfs_ok : prefixes_ok new_vfs.
Proof. split; [done| |done]. intros medium. destruct medium; vm_compute; intuition congruence. Qed.

Lemma load_partitions_correct_witness :
  exists v', load_all_partitions example_disk (fun first _ => Some first) 3 new_vfs = Ok v' /\
    map_find [83; 83; 68; 50] (m_prefix_to_fs v') = Some 6063 /\ map_find [] (m_prefix_to_fs v') = Some 2048.
Proof.
  destruct (load_partitions_correct example_disk (fun first _ => Some first) 0 new_vfs [(2048, 100); (5063, 900); (6063, 900)])
    as (v' & E & _ & Hj & _ & Hboot);
    [by left|reflexivity|reflexivity|by vm_compute|reflexivity|apply new_vfs_ok|by vm_compute|].
  exists v'. split_and!; [exact E| |exact Hboot].
  destruct (Hj 2%nat 6063 eq_refl) as (prefix & Hp & _ & Hf). rewrite <- Hf. f_equal.
  apply (prefix_name_unique SSD 2); [|exact Hp]. exists [50]. split; [|done]. exists [2]. split; [|done].
  constructor; [apply Forall_singleton; lia|done|done|done].
Defined.

(** A third logical partition at 7063: the link of the second extended boot record counts from the
    start of the extended partition, 5000, but the code adds it to the address of the second boot
    record, and the partition is not mounted. *)
Definition three_logical : storage := Storage SSD 512 (fun block =>
  if block =? 0 then boot_record [MbrEntry 0x0C 2048 100; MbrEntry 0x05 5000 3000]
  else if block =? 6000 then boot_record [MbrEntry 0x0B 63 900; MbrEntry 0x05 2000 1000]
  else if block =? 7000 then boot_record [MbrEntry 0x0B 63 900]
  else st_block example_disk block).

Example logical_partitions_lost :
  fat_partitions three_logical 4 None (st_block three_logical 0) 0 = Ok [(2048, 100); (5063, 900); (6063, 900); (7063, 900)] /\
  match load_all_partitions three_logical (fun first _ => Some first) 4 new_vfs with
  | Ok v => map_find [83; 83; 68; 50] (m_prefix_to_fs v) = Some 6063 /\ map_find [83; 83; 68; 51] (m_prefix_to_fs v) = None
  | Fault _ => False
  end.
Proof. split; [reflexivity|]. vm_compute. auto. Qed.

(** ** Opening *)

(** When a file system finds nothing at a path and says, asked to create it, that it exists, then
    [VFS::open] with CREATE never ends: whatever the number of turns, it is not enough. *)
Lemma open_loop_livelock {W} `{FileSystems W} (stuck : W -> Prop) fuel k fs path mode w :
  is_io_mode_set mode CREATE = true -> stuck w ->
  (forall w, stuck w -> exists w1 w2, fs_open fs path w = Ok (w1, Error NO_SUCH_FILE) /\
     fs_create fs path w1 = Ok (w2, FILE_ALREADY_EXISTS) /\ stuck w2) ->
  open_loop fuel (fun _ w => w) k fs path mode w = Fault OutOfFuel.
Proof.
  intros Hm Hw Hstuck. revert k w Hw. induction fuel as [|fuel IH]; intros k w Hw; [done|]. cbn [open_loop].
  destruct (Hstuck w Hw) as (w1 & w2 & -> & E2 & Hw2). run. rewrite bool_decide_true, Hm by done. cbn [negb orb].
  rewrite E2. run. rewrite bool_decide_false, bool_decide_true by done. cbn [negb]. by apply IH.
Qed.

(** ** A file system in memory *)

(** The files of the file systems by path. *)
Abbreviation memory_files := (gmap (Z * view) Z).

Definition with_file (fs : Z) (path : view) (found : memory_files -> Z -> memory_files * error_code) (w : memory_files) :
    result (memory_files * error_code) :=
  Ok match w !! (fs, path) with Some file => found w file | None => (w, NO_SUCH_FILE) end.

#[export] Instance memory_file_systems : FileSystems memory_files := {|
  fs_open fs path w := Ok (w, match w !! (fs, path) with Some file => Value file | None => Error NO_SUCH_FILE end);
  fs_close file w := Ok (w, NO_ERROR);
  fs_remove fs path := with_file fs path (fun w _ => (delete (fs, path) w, NO_ERROR));
  fs_remove_directory fs path := with_file fs path (fun w _ => (w, IS_FILE));
  fs_create fs path w :=
    Ok match w !! (fs, path) with Some _ => (w, FILE_ALREADY_EXISTS) | None => (<[(fs, path) := 1 + Z.of_nat (size w)]> w, NO_ERROR) end;
  fs_create_directory fs path w := Ok (w, UNSUPPORTED);
  fs_move fs path new_path := with_file fs path (fun w file => (<[(fs, new_path) := file]> (delete (fs, path) w), NO_ERROR));
  fs_sync fs w := Ok w;
|}.

Definition memory_has (fs : Z) (path : view) (w : memory_files) : Prop := is_Some (w !! (fs, path)).

(** "/a" on the file system 7, which is the boot file system. *)
Definition example_vfs : vfs := Vfs [([], 7)] [1; 0; 0; 0; 0; 0].
Definition example_path : view := [47; 97].

(** A file that open creates is not the file of the stream it returns: the code of create becomes
    a null pointer, and the stream refers to it. *)
Example open_created_file_null :
  exists w, vfs_open 1 (fun _ w => w) example_vfs example_path CREATE ∅ = Ok (w, Value (0, FileIterator 0 false)) /\
    memory_has 7 example_path w.
Proof. eexists. split; [vm_compute; reflexivity|]. vm_compute. by eexists. Qed.
