(* ===== verification/Pipe.v ===== *)
(** Pipes (FileSystem/Pipe.h, Pipe.cpp): a ring buffer that two kinds of ends share.  It refines a
    queue of bytes, nobody waits for an end that is gone, and whoever leaves a queue is woken. *)
From S2P Require Import Prelude Page IOStream.
From stdpp Require Import gmap.
#[local] Open Scope Z_scope.

(** ** The code *)

(** [Kernel/FileSystem/Pipe.h:10-13] Pipe::Side *)
Inductive pipe_side := READ | WRITE.
#[export] Instance pipe_side_eq_dec : EqDecision pipe_side.
Proof. solve_decision. Defined.

(** [Kernel/FileSystem/Pipe.h:30-45] Pipe::State; a waiter is the address of its IOBlocker *)
Record pipe_state := PipeState {
  reader_count : Z;
  writer_count : Z;
  read_offset : Z;
  write_offset : Z;
  capacity : Z;
  size : Z;
  read_waiters : list nat;
  write_waiters : list nat;
  buffer : list Z }.

(** [Kernel/FileSystem/Pipe.h:47-48] Pipe, one end: m_side, and m_is_closed of IOStream *)
Record pipe_end := PipeEnd { m_side : pipe_side; m_is_closed : bool }.
#[export] Instance pipe_end_eq_dec : EqDecision pipe_end.
Proof. solve_decision. Defined.

Definition set_offsets (r w s : Z) (buf : list Z) (st : pipe_state) : pipe_state :=
  PipeState (reader_count st) (writer_count st) r w (capacity st) s (read_waiters st) (write_waiters st) buf.
Definition set_counts (r w : Z) (st : pipe_state) : pipe_state :=
  PipeState r w (read_offset st) (write_offset st) (capacity st) (size st) (read_waiters st) (write_waiters st) (buffer st).
Definition set_waiters (r w : list nat) (st : pipe_state) : pipe_state :=
  PipeState (reader_count st) (writer_count st) (read_offset st) (write_offset st) (capacity st) (size st) r w (buffer st).

(** [Kernel/FileSystem/Pipe.cpp:17-20] Pipe::Pipe, counting the new end *)
Definition count_end (s : pipe_side) (st : pipe_state) : pipe_state :=
  match s with
  | READ => set_counts (reader_count st +! 1) (writer_count st) st
  | WRITE => set_counts (reader_count st) (writer_count st +! 1) st
  end.

(** [Kernel/FileSystem/Pipe.cpp:7-21] Pipe::Pipe; the pages of the buffer hold [fill] *)
Definition make_pipe (s : pipe_side) (cap : Z) (fill : list Z) : result (pipe_end * pipe_state) :=
  ASSERT (cap >? 0) ;;
  let c := round_up cap in
  Ok (PipeEnd s false, count_end s (PipeState 0 0 0 0 c 0 [] [] (take (Z.to_nat c) fill))).

(** [Kernel/FileSystem/Pipe.cpp:23-44] Pipe::clone and the constructor it calls.  The source
    changes the counter without taking the lock of the state; the model takes the call as one
    step, so a clone that runs at the same time as another or as a close is not covered. *)
Definition pipe_clone (e : pipe_end) (s : pipe_side) (st : pipe_state) : pipe_state * error_or pipe_end :=
  if m_is_closed e then (st, Error STREAM_CLOSED) else (count_end s st, Value (PipeEnd s false)).

(** [Kernel/FileSystem/Pipe.cpp:67-84] Pipe::read, the copying loop: whether no copy faulted *)
Fixpoint read_loop (fuel : nat) (bytes_to_read byte_buffer : Z) (st : pipe_state) (m : umem) :
    result (bool * pipe_state * umem) :=
  if bytes_to_read =? 0 then Ok (true, st, m) else
  match fuel with
  | O => Fault OutOfFuel
  | S fuel =>
      let this_read_bytes := Z.min bytes_to_read (capacity st - read_offset st) in
      let '(m, copied) := copy_to_user m byte_buffer (slice (read_offset st) this_read_bytes (buffer st)) in
      if (negb copied : bool) then Ok (false, st, m) else
      let off := read_offset st + this_read_bytes in
      read_loop fuel (bytes_to_read - this_read_bytes) (byte_buffer + this_read_bytes)
        (set_offsets (if off =? capacity st then 0 else off) (write_offset st) (size st - this_read_bytes) (buffer st) st) m
  end.

(** [Kernel/FileSystem/Pipe.cpp:46-92] Pipe::read: the state, the memory, the waiters that were unblocked and the result *)
Definition pipe_read (e : pipe_end) (addr bytes : Z) (st : pipe_state) (m : umem) :
    result (pipe_state * umem * list nat * error_or Z) :=
  if decide (m_side e = WRITE) then Ok (st, m, [], Error ACCESS_DENIED) else
  if m_is_closed e then Ok (st, m, [], Error STREAM_CLOSED) else
  if size st =? 0 then Ok (st, m, [], Value 0) else
  let bytes_to_read := Z.min bytes (size st) in
  '(copied, st', m') ← read_loop 2 bytes_to_read addr st m;
  if (negb copied : bool) then
    Ok (set_offsets (read_offset st) (write_offset st') (size st) (buffer st') st', m', [], Error MEMORY_ACCESS_VIOLATION)
  else Ok (set_waiters (read_waiters st') [] st', m', write_waiters st', Value bytes_to_read).

(** [Kernel/FileSystem/Pipe.cpp:114-131] Pipe::write, the copying loop *)
Fixpoint write_loop (fuel : nat) (byte_to_write byte_buffer : Z) (st : pipe_state) (m : umem) :
    result (bool * pipe_state) :=
  if byte_to_write =? 0 then Ok (true, st) else
  match fuel with
  | O => Fault OutOfFuel
  | S fuel =>
      let this_write_bytes := Z.min byte_to_write (capacity st - write_offset st) in
      let '(l, copied) := copy_from_user m byte_buffer (Z.to_nat this_write_bytes) in
      let buf := splice (write_offset st) l (buffer st) in
      if (negb copied : bool) then Ok (false, set_offsets (read_offset st) (write_offset st) (size st) buf st) else
      let off := write_offset st + this_write_bytes in
      write_loop fuel (byte_to_write - this_write_bytes) (byte_buffer + this_write_bytes)
        (set_offsets (read_offset st) (if off =? capacity st then 0 else off) (size st + this_write_bytes) buf st) m
  end.

(** [Kernel/FileSystem/Pipe.cpp:94-139] Pipe::write *)
Definition pipe_write (e : pipe_end) (addr bytes : Z) (st : pipe_state) (m : umem) :
    result (pipe_state * list nat * error_or Z) :=
  if decide (m_side e = READ) then Ok (st, [], Error ACCESS_DENIED) else
  if m_is_closed e then Ok (st, [], Error STREAM_CLOSED) else
  if capacity st - size st =? 0 then Ok (st, [], Value 0) else
  let byte_to_write := Z.min bytes (capacity st - size st) in
  '(copied, st') ← write_loop 2 byte_to_write addr st m;
  if (negb copied : bool) then
    Ok (set_offsets (read_offset st') (write_offset st) (size st) (buffer st') st', [], Error MEMORY_ACCESS_VIOLATION)
  else Ok (set_waiters [] (write_waiters st') st', read_waiters st', Value byte_to_write).

(** [Kernel/FileSystem/Pipe.cpp:141-172] Pipe::close *)
Definition pipe_close (e : pipe_end) (st : pipe_state) : pipe_end * pipe_state * list nat * error_code :=
  if m_is_closed e then (e, st, [], STREAM_CLOSED) else
  let '(st, woken) :=
    match m_side e with
    | READ =>
        let st := set_counts (reader_count st -! 1) (writer_count st) st in
        if reader_count st =? 0 then (set_waiters (read_waiters st) [] st, write_waiters st) else (st, [])
    | WRITE =>
        let st := set_counts (reader_count st) (writer_count st -! 1) st in
        if writer_count st =? 0 then (set_waiters [] (write_waiters st) st, read_waiters st) else (st, [])
    end in
  (PipeEnd (m_side e) true, st, woken, NO_ERROR).

(** [Kernel/FileSystem/Pipe.cpp:174-194] Pipe::block_until_readable, up to the call of [blocker.block]: [None] when it is called *)
Definition wait_readable (e : pipe_end) (b : nat) (st : pipe_state) : pipe_state * option (error_or unit) :=
  if decide (m_side e = WRITE) then (st, Some (Error ACCESS_DENIED)) else
  if m_is_closed e then (st, Some (Error STREAM_CLOSED)) else
  if negb (size st =? 0) then (st, Some (Value tt)) else
  if writer_count st =? 0 then (st, Some (Error WOULD_BLOCK_FOREVER)) else
  (set_waiters (read_waiters st ++ [b]) (write_waiters st) st, None).

(** [Kernel/FileSystem/Pipe.cpp:207-227] Pipe::block_until_writable, up to the call of [blocker.block] *)
Definition wait_writable (e : pipe_end) (b : nat) (st : pipe_state) : pipe_state * option (error_or unit) :=
  if decide (m_side e = READ) then (st, Some (Error ACCESS_DENIED)) else
  if m_is_closed e then (st, Some (Error STREAM_CLOSED)) else
  if negb (capacity st =? size st) then (st, Some (Value tt)) else
  if reader_count st =? 0 then (st, Some (Error WOULD_BLOCK_FOREVER)) else
  (set_waiters (read_waiters st) (write_waiters st ++ [b]) st, None).

(** [Kernel/FileSystem/Pipe.cpp:196-205] Pipe::block_until_readable, after the call of [blocker.block]; the end of block_until_writable is the same *)
Definition stop_waiting (b : nat) (st : pipe_state) : pipe_state :=
  set_waiters (filter (fun x => x <> b) (read_waiters st)) (filter (fun x => x <> b) (write_waiters st)) st.

(** ** The queue it implements *)

Record ring (st : pipe_state) : Prop := {
  rg_capacity : 0 < capacity st < W64;
  rg_buffer : Z.of_nat (length (buffer st)) = capacity st;
  rg_size : 0 <= size st <= capacity st;
  rg_read : 0 <= read_offset st < capacity st;
  rg_write : write_offset st = (read_offset st + size st) mod capacity st }.

(** The bytes in the pipe, the oldest first. *)
Definition contents (st : pipe_state) : list Z :=
  take (Z.to_nat (size st)) (drop (Z.to_nat (read_offset st)) (buffer st) ++ take (Z.to_nat (read_offset st)) (buffer st)).

Lemma contents_length st : ring st -> Z.of_nat (length (contents st)) = size st.
Proof.
  intros [? ? ? ? _]. unfold contents. rewrite length_take, length_app, length_drop, length_take. lia.
Qed.

(** The byte [i] of the queue. *)
Lemma contents_lookup st i :
  ring st -> Z.of_nat i < size st ->
  contents st !! i = buffer st !! Z.to_nat ((read_offset st + Z.of_nat i) mod capacity st).
Proof.
  intros [Hc Hb Hs Hr _] Hi. unfold contents. rewrite lookup_take_lt by lia.
  destruct (decide (read_offset st + Z.of_nat i < capacity st)) as [Hlt|Hge].
  - rewrite Z.mod_small, lookup_app_l, lookup_drop by (rewrite ?length_drop; lia). f_equal. lia.
  - assert (E : (read_offset st + Z.of_nat i) mod capacity st = read_offset st + Z.of_nat i - capacity st).
    { symmetry. apply (Z.mod_unique _ _ 1); lia. }
    rewrite E, lookup_app_r, lookup_take_lt by (rewrite length_drop; lia). rewrite length_drop. f_equal. lia.
Qed.

Lemma offset_mod x c : 0 < c -> 0 <= x <= c -> (if x =? c then 0 else x) = x mod c.
Proof. intros Hc Hx. destruct (x =? c) eqn:E; bool_to_prop; [subst; by rewrite Z.mod_same by lia|by rewrite Z.mod_small by lia]. Qed.

(** [n] bytes are consumed. *)
Definition consume (n : Z) (st : pipe_state) : pipe_state :=
  set_offsets ((read_offset st + n) mod capacity st) (write_offset st) (size st - n) (buffer st) st.

Lemma consume_ring n st : ring st -> 0 <= n <= size st -> ring (consume n st).
Proof.
  intros [Hc Hb Hs Hr Hw] Hn. split; cbn; try done; [lia|by apply Z.mod_pos_bound; lia|].
  rewrite Hw, Zplus_mod_idemp_l. f_equal. lia.
Qed.

Lemma consume_contents n st : ring st -> 0 <= n <= size st -> contents (consume n st) = drop (Z.to_nat n) (contents st).
Proof.
  intros R Hn. assert (R' := consume_ring n st R Hn). pose proof (contents_length _ R') as E. pose proof (contents_length _ R).
  cbn in E. apply list_eq_same_length with (n := Z.to_nat (size st - n)).
  - rewrite length_drop. lia.
  - lia.
  - intros i x y Hi Hx Hy. rewrite contents_lookup in Hx by (done || (cbn; lia)). rewrite lookup_drop, contents_lookup in Hy by (done || lia).
    cbn in Hx. rewrite Zplus_mod_idemp_l in Hx. rewrite <- Z.add_assoc in Hx.
    replace (Z.of_nat (Z.to_nat n + i)) with (n + Z.of_nat i) in Hy by lia. congruence.
Qed.

Lemma slice_contents n st :
  ring st -> 0 <= n <= size st -> n <= capacity st - read_offset st ->
  slice (read_offset st) n (buffer st) = take (Z.to_nat n) (contents st).
Proof.
  intros [Hc Hb Hs Hr Hw] Hn Hle. unfold slice, contents. rewrite take_take, take_app_le by (rewrite length_drop; lia).
  f_equal. lia.
Qed.

Lemma read_step n st :
  ring st -> 0 <= n <= size st -> n <= capacity st - read_offset st ->
  set_offsets (let off := read_offset st + n in if off =? capacity st then 0 else off)
    (write_offset st) (size st - n) (buffer st) st = consume n st.
Proof. intros [Hc Hb Hs Hr Hw] Hn Hle. unfold consume. by rewrite <- offset_mod by lia. Qed.

Lemma consume_consume n k st : consume k (consume n st) = consume (n + k) st.
Proof.
  unfold consume, set_offsets. cbn. f_equal; [|lia]. rewrite Zplus_mod_idemp_l. f_equal. lia.
Qed.

Lemma consume_0 st : ring st -> consume 0 st = st.
Proof.
  intros [Hc Hb Hs Hr Hw]. unfold consume, set_offsets. rewrite Z.add_0_r, Z.sub_0_r, Z.mod_small by lia. by destruct st.
Qed.

(** The copying loop of [read]: the bytes that are read, or a fault, whatever happened before. *)
Lemma read_loop_Ok fuel n a st m :
  ring st -> 0 <= n <= size st ->
  (n <= capacity st - read_offset st /\ (n = 0 \/ fuel <> O) \/ (2 <= fuel)%nat) ->
  exists m', changes_within m m' a (a + n) /\
  if decide (accessible m a (Z.to_nat n))
  then read_loop fuel n a st m = Ok (true, consume n st, m') /\ stored m' a (take (Z.to_nat n) (contents st))
  else exists k, read_loop fuel n a st m = Ok (false, consume k st, m').
Proof.
  revert n a st m. induction fuel as [|fuel IH]; intros n a st m R Hn Hf; cbn [read_loop].
  { assert (n = 0) as -> by lia. cbn. exists m. split; [apply changes_within_refl|].
    rewrite decide_True by (intros i Hi; lia). rewrite consume_0 by done. split; [done|]. by intros i x. }
  destruct (n =? 0) eqn:E0; bool_to_prop.
  { subst n. exists m. split; [apply changes_within_refl|]. cbn.
    rewrite decide_True by (intros i Hi; lia). rewrite consume_0 by done. split; [done|]. by intros i x. }
  pose proof R as [Hc Hb Hs Hr Hw].
  set (k := Z.min n (capacity st - read_offset st)). assert (Hk : 0 < k <= n) by lia.
  rewrite slice_contents by (done || lia).
  assert (Hlen : length (take (Z.to_nat k) (contents st)) = Z.to_nat k).
  { rewrite length_take. pose proof (contents_length _ R). lia. }
  destruct (copy_to_user_spec m a (take (Z.to_nat k) (contents st))) as (m1 & -> & Hm1 & Hst). rewrite Hlen in *.
  case_bool_decide as Ha; cbn [negb].
  - pose proof (read_step k st R ltac:(lia) ltac:(lia)) as Estep. cbn zeta in Estep. rewrite Estep.
    assert (R1 := consume_ring k st R ltac:(lia)).
    destruct (IH (n - k) (a + k) (consume k st) m1 R1) as (m2 & Hm2 & H2); [cbn; lia| |].
    { destruct Hf as [[? _]|?]; [left; cbn; split; [|left; lia]; assert (Enk : n = k) by lia|destruct fuel; [lia|]].
      - pose proof (Z.mod_pos_bound (read_offset st + k) (capacity st)). lia.
      - destruct (decide (n = k)).
        + left. cbn. pose proof (Z.mod_pos_bound (read_offset st + k) (capacity st)). split; [lia|by right].
        + left. assert (Ek : read_offset st + k = capacity st) by lia. cbn. rewrite Ek, Z.mod_same by lia. split; [lia|by right]. }
    assert (Hc1 : changes_within m m1 a (a + n)) by (eapply changes_within_wider; [done|lia..]).
    assert (Hc2 : changes_within m1 m2 a (a + n)) by (eapply changes_within_wider; [done|lia..]).
    exists m2. split; [by eapply changes_within_trans|].
    assert (Hacc : accessible m a (Z.to_nat n) <-> accessible m1 (a + k) (Z.to_nat (n - k))).
    { replace (Z.to_nat n) with (Z.to_nat k + Z.to_nat (n - k))%nat by lia.
      rewrite accessible_app, (changes_within_accessible _ _ _ _ _ _ Hc1). rewrite Z2Nat.id by lia. tauto. }
    destruct (decide (accessible m a (Z.to_nat n))) as [H|H].
    + rewrite decide_True in H2 by tauto. destruct H2 as [-> Hs2]. rewrite consume_consume. split; [by replace (k + (n - k)) with n by lia|].
      replace (Z.to_nat n) with (Z.to_nat k + Z.to_nat (n - k))%nat by lia. rewrite <- take_take_drop. apply stored_app. split.
      * apply (stored_frame m1 m2 (a + k) (a + k + (n - k))); [done|rewrite Hlen; lia|by apply Hst].
      * rewrite Hlen, Z2Nat.id by lia. by rewrite consume_contents in Hs2 by (done || lia).
    + rewrite decide_False in H2 by tauto. destruct H2 as [j ->]. exists (k + j). by rewrite consume_consume.
  - exists m1. split; [eapply changes_within_wider; [done|lia..]|]. rewrite decide_False.
    + exists 0. by rewrite consume_0.
    + replace (Z.to_nat n) with (Z.to_nat k + Z.to_nat (n - k))%nat by lia. rewrite accessible_app. tauto.
Qed.

Lemma mod_cases x c : 0 < c -> 0 <= x < 2 * c -> x mod c = if decide (x < c) then x else x - c.
Proof. intros. case_decide; [apply Z.mod_small; lia|]. symmetry. apply (Z.mod_unique _ _ 1); lia. Qed.

(** The bytes [l] are put after the last one of the queue. *)
Definition produce (l : list Z) (st : pipe_state) : pipe_state :=
  set_offsets (read_offset st) ((write_offset st + Z.of_nat (length l)) mod capacity st)
    (size st + Z.of_nat (length l)) (splice (write_offset st) l (buffer st)) st.

Lemma write_offset_range st : ring st -> 0 <= write_offset st < capacity st.
Proof. intros [Hc Hb Hs Hr Hw]. rewrite Hw. apply Z.mod_pos_bound. lia. Qed.

Lemma produce_ring l st :
  ring st -> Z.of_nat (length l) <= capacity st - size st -> Z.of_nat (length l) <= capacity st - write_offset st ->
  ring (produce l st).
Proof.
  intros R Hl Ho. assert (Hw' := write_offset_range st R). pose proof R as [Hc Hb Hs Hr Hw]. split; cbn; try done; try lia.
  - by rewrite splice_length by lia.
  - rewrite Hw, Zplus_mod_idemp_l. f_equal. lia.
Qed.

Lemma produce_contents l st :
  ring st -> Z.of_nat (length l) <= capacity st - size st -> Z.of_nat (length l) <= capacity st - write_offset st ->
  contents (produce l st) = contents st ++ l.
Proof.
  intros R Hl Ho. assert (R' := produce_ring l st R Hl Ho). assert (Hw' := write_offset_range st R).
  pose proof (contents_length _ R') as E'. pose proof (contents_length _ R) as E. cbn in E'.
  pose proof R as [Hc Hb Hs Hr Hw].
  apply list_eq_same_length with (n := Z.to_nat (size st + Z.of_nat (length l))).
  - rewrite length_app. lia.
  - lia.
  - intros i x y Hi Hx Hy. rewrite contents_lookup in Hx by (done || (cbn; lia)). cbn in Hx.
    assert (Hj := Z.mod_pos_bound (read_offset st + Z.of_nat i) (capacity st) ltac:(lia)).
    rewrite splice_lookup, Z2Nat.id in Hx by lia.
    rewrite Hw, !mod_cases in Hx by lia. rewrite Hw, mod_cases in Ho by lia.
    destruct (decide (Z.of_nat i < size st)).
    + rewrite lookup_app_l, contents_lookup, mod_cases in Hy by (done || lia).
      rewrite decide_False in Hx by (repeat case_decide; lia). congruence.
    + rewrite lookup_app_r in Hy by lia. rewrite decide_True in Hx by (repeat case_decide; lia).
      match type of Hx with l !! ?j = _ =>
        assert (Ej : j = (i - length (contents st))%nat) by (repeat case_decide; lia) end. congruence.
Qed.

(** Undoing the last bytes gives the queue back that was there before. *)
Lemma restore_contents w s st :
  ring st -> 0 <= s <= size st ->
  contents (set_offsets (read_offset st) w s (buffer st) st) = take (Z.to_nat s) (contents st).
Proof. intros [Hc Hb Hs Hr Hw] Hle. unfold contents. cbn. rewrite take_take. f_equal. lia. Qed.

(** The two states differ in the ring only. *)
Definition same_rest (st st' : pipe_state) : Prop :=
  reader_count st' = reader_count st /\ writer_count st' = writer_count st /\ capacity st' = capacity st /\
  read_waiters st' = read_waiters st /\ write_waiters st' = write_waiters st.

(** The copying loop of [write]: the bytes that are written, or a fault after which the bytes of
    the queue are still there. *)
Lemma write_loop_Ok fuel n a st m :
  ring st -> 0 <= n <= capacity st - size st ->
  (n <= capacity st - write_offset st /\ (n = 0 \/ fuel <> O) \/ (2 <= fuel)%nat) ->
  exists st', same_rest st st' /\ read_offset st' = read_offset st /\ ring st' /\
  if decide (accessible m a (Z.to_nat n))
  then exists l, write_loop fuel n a st m = Ok (true, st') /\ Z.of_nat (length l) = n /\ stored m a l /\
         contents st' = contents st ++ l
  else exists l st'', write_loop fuel n a st m = Ok (false, st'') /\ contents st' = contents st ++ l /\
         same_rest st st'' /\ read_offset st'' = read_offset st /\ buffer st'' = buffer st'.
Proof.
  revert n a st m. induction fuel as [|fuel IH]; intros n a st m R Hn Hf; cbn [write_loop].
  { assert (n = 0) as -> by lia. cbn. exists st. split_and!; try done.
    rewrite decide_True by (intros i Hi; lia). exists []. rewrite app_nil_r. by split_and!. }
  destruct (n =? 0) eqn:E0; bool_to_prop.
  { subst n. exists st. split_and!; try done. cbn.
    rewrite decide_True by (intros i Hi; lia). exists []. rewrite app_nil_r. by split_and!. }
  pose proof R as [Hc Hb Hs Hr Hw]. assert (Hwo := write_offset_range st R).
  set (k := Z.min n (capacity st - write_offset st)). assert (Hk : 0 < k <= n) by lia.
  assert (Hsplit : accessible m a (Z.to_nat n) <-> accessible m a (Z.to_nat k) /\ accessible m (a + k) (Z.to_nat (n - k))).
  { replace (Z.to_nat n) with (Z.to_nat k + Z.to_nat (n - k))%nat by lia. rewrite accessible_app. rewrite Z2Nat.id by lia. done. }
  pose proof (copy_from_user_spec m a (Z.to_nat k)) as Hcopy.
  destruct (decide (accessible m a (Z.to_nat k))) as [Ha|Ha]; destruct Hcopy as (l & -> & Hl); cbn [negb].
  - destruct Hl as [Hl Hst]. assert (Hlk : Z.of_nat (length l) = k) by lia.
    rewrite offset_mod by lia.
    match goal with |- context [write_loop fuel _ _ ?x _] =>
      replace x with (produce l st) by (unfold produce; by rewrite Hlk) end.
    assert (R1 := produce_ring l st R ltac:(lia) ltac:(lia)).
    assert (C1 := produce_contents l st R ltac:(lia) ltac:(lia)).
    destruct (IH (n - k) (a + k) (produce l st) m R1) as (st' & Hrest & Hro & R' & H2); [cbn; lia| |].
    { destruct Hf as [[? _]|?]; [left; cbn; split; [|left; lia]; assert (Enk : n = k) by lia|destruct fuel; [lia|]].
      - pose proof (Z.mod_pos_bound (write_offset st + Z.of_nat (length l)) (capacity st)). lia.
      - left. cbn. split; [|by right]. destruct (decide (n = k)).
        + pose proof (Z.mod_pos_bound (write_offset st + Z.of_nat (length l)) (capacity st)). lia.
        + assert (Ek : write_offset st + Z.of_nat (length l) = capacity st) by lia. rewrite Ek, Z.mod_same by lia. lia. }
    exists st'. split_and!; [exact Hrest|exact Hro|done|].
    destruct (decide (accessible m a (Z.to_nat n))) as [H|H].
    + rewrite decide_True in H2 by tauto. destruct H2 as (l2 & -> & Hl2 & Hs2 & C2). exists (l ++ l2). split_and!; [done| | |].
      * rewrite length_app. lia.
      * apply stored_app. by rewrite Hlk.
      * by rewrite C2, C1, app_assoc.
    + rewrite decide_False in H2 by tauto. destruct H2 as (l2 & st2 & -> & C2 & Hrest2 & Hro2 & Hbuf).
      exists (l ++ l2), st2. split_and!; try done; try apply Hrest2. by rewrite C2, C1, app_assoc.
  - assert (R1 := produce_ring l st R ltac:(lia) ltac:(lia)).
    assert (C1 := produce_contents l st R ltac:(lia) ltac:(lia)).
    exists (produce l st). split_and!; try done. rewrite decide_False by tauto. by eexists l, _.
Qed.

Lemma restored_ring st st' :
  ring st -> ring st' -> capacity st' = capacity st -> read_offset st' = read_offset st -> size st <= size st' ->
  ring (set_offsets (read_offset st) (write_offset st) (size st) (buffer st') st').
Proof. intros [Hc Hb Hs Hr Hw] [Hc' Hb' Hs' Hr' Hw'] Ec Er Hle. split; cbn; rewrite ?Ec; try done. by rewrite <- Ec. Qed.

(** [Pipe::read] through an open end. *)
Lemma pipe_read_Ok a n st m :
  ring st -> 0 <= n ->
  exists st' m' woken r, pipe_read (PipeEnd READ false) a n st m = Ok (st', m', woken, r) /\ ring st' /\
    changes_within m m' a (a + Z.min n (size st)) /\
    (reader_count st' = reader_count st /\ writer_count st' = writer_count st /\ capacity st' = capacity st) /\
    read_waiters st' = read_waiters st /\
    if decide (accessible m a (Z.to_nat (Z.min n (size st)))) then
      r = Value (Z.min n (size st)) /\ contents st = take (Z.to_nat (Z.min n (size st))) (contents st) ++ contents st' /\
      size st' = size st - Z.min n (size st) /\
      stored m' a (take (Z.to_nat (Z.min n (size st))) (contents st)) /\ (size st <> 0 -> write_waiters st' = [] /\ woken = write_waiters st)
      /\ (size st = 0 -> st' = st /\ woken = [])
    else r = Error MEMORY_ACCESS_VIOLATION /\ st' = st /\ woken = [].
Proof.
  intros R Hn. pose proof R as [Hc Hb Hs Hr Hw]. unfold pipe_read. cbn [m_side m_is_closed]. rewrite decide_False by done.
  destruct (size st =? 0) eqn:E0; bool_to_prop.
  { assert (Ez : Z.min n (size st) = 0) by lia. eexists st, m, [], _. rewrite Ez. split_and!; try done.
    - apply changes_within_refl.
    - rewrite decide_True by (intros i Hi; lia). rewrite take_0. split_and!; try done; lia. }
  destruct (read_loop_Ok 2 (Z.min n (size st)) a st m R ltac:(lia) ltac:(right; lia)) as (m' & Hm & H).
  destruct (decide _) as [Ha|Ha].
  - destruct H as [-> Hst]. run. cbn [negb]. eexists _, m', _, _. split_and!; try done.
    + destruct (consume_ring (Z.min n (size st)) st R ltac:(lia)). by split.
    + change (contents (set_waiters _ _ _)) with (contents (consume (Z.min n (size st)) st)).
      rewrite consume_contents by (done || lia). by rewrite take_drop.
  - destruct H as [k ->]. run. cbn [negb]. eexists _, m', _, _. split_and!; try done. by destruct st.
Qed.

(** [Pipe::write] through an open end. *)
Lemma pipe_write_Ok a n st m :
  ring st -> 0 <= n ->
  exists st' woken r, pipe_write (PipeEnd WRITE false) a n st m = Ok (st', woken, r) /\ ring st' /\
    (reader_count st' = reader_count st /\ writer_count st' = writer_count st /\ capacity st' = capacity st) /\
    write_waiters st' = write_waiters st /\
    let k := Z.min n (capacity st - size st) in
    if decide (accessible m a (Z.to_nat k)) then
      r = Value k /\ size st' = size st + k /\
      (exists l, Z.of_nat (length l) = k /\ stored m a l /\ contents st' = contents st ++ l) /\
      (size st <> capacity st -> read_waiters st' = [] /\ woken = read_waiters st)
      /\ (size st = capacity st -> st' = st /\ woken = [])
    else r = Error MEMORY_ACCESS_VIOLATION /\ contents st' = contents st /\ size st' = size st /\ woken = [] /\
      read_waiters st' = read_waiters st.
Proof.
  intros R Hn. pose proof R as [Hc Hb Hs Hr Hw]. unfold pipe_write. cbn [m_side m_is_closed]. rewrite decide_False by done.
  destruct (capacity st - size st =? 0) eqn:E0; bool_to_prop.
  { assert (Ez : Z.min n (capacity st - size st) = 0) by lia. eexists st, [], _. rewrite Ez. split_and!; try done. cbn.
    rewrite decide_True by (intros i Hi; lia). split_and!; try done; try lia. exists []. rewrite app_nil_r. split_and!; try done. }
  destruct (write_loop_Ok 2 (Z.min n (capacity st - size st)) a st m R ltac:(lia) ltac:(right; lia))
    as (st' & (E1 & E2 & E3 & E4 & E5) & Ero & R' & H). cbn zeta.
  destruct (decide _) as [Ha|Ha].
  - destruct H as (l & -> & Hl & Hst & C). run. cbn [negb]. eexists _, _, _. split_and!; try done.
    + by destruct R'; split.
    + cbn. pose proof (contents_length _ R) as El. pose proof (contents_length _ R') as El'. rewrite C, length_app in El'. lia.
    + by exists l.
    + intros Hfull. lia.
  - destruct H as (l & st2 & -> & C & (F1 & F2 & F3 & F4 & F5) & Fro & Fb). run. cbn [negb]. eexists _, _, _.
    assert (Hle : size st <= size st').
    { pose proof (contents_length _ R) as El. pose proof (contents_length _ R') as El'. rewrite C, length_app in El'. lia. }
    assert (R2 := restored_ring st st' R R' E3 Ero Hle).
    split; [done|]. split; [|split_and!; cbn; try done].
    + destruct R2 as [? ? ? ? ?]. split; cbn in *; rewrite ?F3, ?Fb, ?Fro; try congruence; by rewrite E3 in *.
    + unfold contents at 1. cbn. rewrite Fro, Fb, <- Ero.
      pose proof (restore_contents (write_offset st) (size st) st' R' ltac:(lia)) as X. unfold contents at 1 in X. cbn in X.
      rewrite X, C. pose proof (contents_length _ R). rewrite take_app_le, take_ge by lia. done.
Qed.

(** ** The ends, the user memory and the waiting threads *)

(** [pw_sent] and [pw_received] are the bytes that the writes and the reads have reported so far;
    [pw_sleepers] has the blockers whose threads are inside of [blocker.block()], each with whether
    [unblock()] was called on it. *)
Record pipe_world := PipeWorld {
  pw_pipe : pipe_state;
  pw_ends : gmap nat pipe_end;
  pw_memory : umem;
  pw_sent : list Z;
  pw_received : list Z;
  pw_sleepers : gmap nat bool }.

(** [Kernel/FileSystem/Pipe.cpp:86-89] waiter.unblock() on every waiter that was popped *)
Definition wake (woken : list nat) (sl : gmap nat bool) : gmap nat bool :=
  foldl (fun sl b => alter (fun _ => true) b sl) sl woken.

(** [block_until_readable] or [block_until_writable] goes on to [blocker.block()]. *)
Definition fall_asleep {R} (b : nat) (res : option R) (sl : gmap nat bool) : gmap nat bool :=
  match res with None => <[ b := false ]> sl | Some _ => sl end.

Inductive pipe_op :=
  | Read (e : nat) (addr bytes : Z)
  | Write (e : nat) (addr bytes : Z)
  | Close (e : nat)
  | Clone (e : nat) (s : pipe_side) (new : nat)
  | Wait_readable (e b : nat)
  | Wait_writable (e b : nat)
  | Stop_waiting (b : nat)
  | Set_memory (m : umem).

Definition op_end (op : pipe_op) : option nat :=
  match op with
  | Read e _ _ | Write e _ _ | Close e | Clone e _ _ | Wait_readable e _ | Wait_writable e _ => Some e
  | Stop_waiting _ | Set_memory _ => None
  end.

(** The bytes the caller sees at [a]. *)
Definition bytes_at (m : umem) (a n : Z) : list Z := (copy_from_user m a (Z.to_nat n)).1.

Definition pipe_perform (op : pipe_op) (w : pipe_world) : result pipe_world :=
  let 'PipeWorld st ends m sent received sl := w in
  let the e := match ends !! e with Some x => Ok x | None => Fault OutOfBounds end in
  match op with
  | Read e a n =>
      x ← the e; '(st, m, woken, r) ← pipe_read x a n st m;
      Ok (PipeWorld st ends m sent (received ++ match r with Value k => bytes_at m a k | Error _ => [] end) (wake woken sl))
  | Write e a n =>
      x ← the e; '(st, woken, r) ← pipe_write x a n st m;
      Ok (PipeWorld st ends m (sent ++ match r with Value k => bytes_at m a k | Error _ => [] end) received (wake woken sl))
  | Close e =>
      x ← the e; let '(x, st, woken, _) := pipe_close x st in
      Ok (PipeWorld st (<[ e := x ]> ends) m sent received (wake woken sl))
  | Clone e s new =>
      x ← the e;
      match pipe_clone x s st with
      | (st, Value y) => Ok (PipeWorld st (<[ new := y ]> ends) m sent received sl)
      | (st, Error _) => Ok (PipeWorld st ends m sent received sl)
      end
  | Wait_readable e b =>
      x ← the e; let '(st, res) := wait_readable x b st in Ok (PipeWorld st ends m sent received (fall_asleep b res sl))
  | Wait_writable e b =>
      x ← the e; let '(st, res) := wait_writable x b st in Ok (PipeWorld st ends m sent received (fall_asleep b res sl))
  | Stop_waiting b => Ok (PipeWorld (stop_waiting b st) ends m sent received (delete b sl))
  | Set_memory m => Ok (PipeWorld st ends m sent received sl)
  end.

Definition pipe_allowed (op : pipe_op) (w : pipe_world) : Prop :=
  (forall e, op_end op = Some e -> is_Some (pw_ends w !! e)) /\
  match op with
  | Read _ _ n | Write _ _ n => 0 <= n
  | Clone _ _ new => pw_ends w !! new = None /\ Z.of_nat (map_size (pw_ends w)) < W64 - 1
  | Wait_readable _ b | Wait_writable _ b => pw_sleepers w !! b = None
  | _ => True
  end.

Inductive pipe_reachable (w0 : pipe_world) : pipe_world -> Prop :=
  | pipe_start : pipe_reachable w0 w0
  | pipe_step op w w' :
      pipe_reachable w0 w -> pipe_allowed op w -> pipe_perform op w = Ok w' -> pipe_reachable w0 w'.

(** The open ends of one side. *)
Definition open_ends (s : pipe_side) (ends : gmap nat pipe_end) : gmap nat pipe_end :=
  filter (fun kv => kv.2 = PipeEnd s false) ends.

(** The queues hold, once each, the sleepers that were not unblocked. *)
Definition queued_sleepers (st : pipe_state) (sl : gmap nat bool) : Prop :=
  NoDup (read_waiters st ++ write_waiters st) /\
  forall b, b ∈ read_waiters st ++ write_waiters st <-> sl !! b = Some false.

Record pipe_inv (w : pipe_world) : Prop := {
  pi_ring : ring (pw_pipe w);
  pi_readers : reader_count (pw_pipe w) = Z.of_nat (base.size (open_ends READ (pw_ends w)));
  pi_writers : writer_count (pw_pipe w) = Z.of_nat (base.size (open_ends WRITE (pw_ends w)));
  pi_room : Z.of_nat (base.size (pw_ends w)) < W64;
  pi_read_waiters : read_waiters (pw_pipe w) <> [] -> size (pw_pipe w) = 0 /\ 0 < writer_count (pw_pipe w);
  pi_write_waiters : write_waiters (pw_pipe w) <> [] ->
    size (pw_pipe w) = capacity (pw_pipe w) /\ 0 < reader_count (pw_pipe w);
  pi_queue : pw_sent w = pw_received w ++ contents (pw_pipe w);
  pi_sleepers : queued_sleepers (pw_pipe w) (pw_sleepers w) }.

Lemma wake_lookup l sl b : wake l sl !! b = if decide (b ∈ l) then (fun _ => true) <$> sl !! b else sl !! b.
Proof.
  revert sl. induction l as [|c l IH]; unfold wake in *; intros sl; cbn [foldl]; [by rewrite decide_False by apply not_elem_of_nil|].
  rewrite IH. destruct (decide (b = c)) as [->|Hb].
  - rewrite lookup_alter_eq, (decide_True _ _ (list_elem_of_here c l)). case_decide; by destruct (sl !! c).
  - rewrite lookup_alter_ne by done. case_decide; case_decide; set_solver.
Qed.

Lemma wake_readers st st' sl :
  queued_sleepers st sl -> read_waiters st' = [] -> write_waiters st' = write_waiters st ->
  queued_sleepers st' (wake (read_waiters st) sl).
Proof.
  intros [Hnd H] E1 E2. unfold queued_sleepers. rewrite E1, E2. apply NoDup_app in Hnd as (_ & Hdis & Hnd). split; [done|].
  intros b. rewrite wake_lookup. specialize (H b). rewrite elem_of_app in H. case_decide; [|set_solver].
  split; [set_solver|]. by destruct (sl !! b).
Qed.

Lemma wake_writers st st' sl :
  queued_sleepers st sl -> write_waiters st' = [] -> read_waiters st' = read_waiters st ->
  queued_sleepers st' (wake (write_waiters st) sl).
Proof.
  intros [Hnd H] E1 E2. unfold queued_sleepers. rewrite E1, E2, app_nil_r. apply NoDup_app in Hnd as (Hnd & Hdis & _).
  split; [done|]. intros b. rewrite wake_lookup. specialize (H b). rewrite elem_of_app in H. case_decide; [|set_solver].
  split; [set_solver|]. by destruct (sl !! b).
Qed.

(** A new blocker joins a queue. *)
Lemma sleeper_queued st st' sl b :
  queued_sleepers st sl -> sl !! b = None -> read_waiters st' ++ write_waiters st' ≡ₚ b :: (read_waiters st ++ write_waiters st) ->
  queued_sleepers st' (<[ b := false ]> sl).
Proof.
  intros [Hnd H] Hb Hp. split.
  - rewrite Hp. constructor; [|done]. rewrite H, Hb. done.
  - intros c. rewrite Hp, elem_of_cons, H. destruct (decide (c = b)) as [->|Hc].
    + rewrite lookup_insert_eq. tauto.
    + rewrite lookup_insert_ne by done. tauto.
Qed.

Lemma sleeper_gone st sl b : queued_sleepers st sl -> queued_sleepers (stop_waiting b st) (delete b sl).
Proof.
  intros [Hnd H]. unfold queued_sleepers, stop_waiting. cbn [read_waiters write_waiters set_waiters]. rewrite <- filter_app.
  split; [by apply NoDup_filter|]. intros c. rewrite list_elem_of_filter, H. destruct (decide (c = b)) as [->|Hc].
  - rewrite lookup_delete_eq. by split; intros; [tauto|].
  - rewrite lookup_delete_ne by done. tauto.
Qed.

Lemma open_ends_size s ends : (base.size (open_ends s ends) <= base.size ends)%nat.
Proof. apply map_subseteq_size, map_filter_subseteq. Qed.

Lemma open_ends_new s s' ends i :
  ends !! i = None ->
  base.size (open_ends s (<[ i := PipeEnd s' false ]> ends)) = (base.size (open_ends s ends) + if decide (s = s') then 1 else 0)%nat.
Proof.
  intros Hi. unfold open_ends. case_decide as E.
  - subst s'. rewrite map_filter_insert_True by done. rewrite map_size_insert_None; [lia|].
    apply map_lookup_filter_None. by left.
  - rewrite map_filter_insert_False, delete_id by (done || (cbn; congruence)). lia.
Qed.

Lemma open_ends_close s ends i x :
  ends !! i = Some x -> m_is_closed x = false ->
  (base.size (open_ends s (<[ i := PipeEnd (m_side x) true ]> ends)) + if decide (s = m_side x) then 1 else 0)%nat =
  base.size (open_ends s ends).
Proof.
  intros Hi Hx. unfold open_ends. rewrite map_filter_insert_False by (cbn; congruence).
  rewrite map_filter_delete. case_decide as E.
  - rewrite map_size_delete_Some.
    + assert (base.size (filter (λ kv : nat * pipe_end, kv.2 = PipeEnd s false) ends) <> O); [|lia].
      rewrite map_size_non_empty_iff. intros Hz.
      assert (Hin : filter (λ kv : nat * pipe_end, kv.2 = PipeEnd s false) ends !! i = Some x).
      { apply map_lookup_filter_Some. split; [done|]. destruct x; cbn in *. congruence. }
      by rewrite Hz in Hin.
    + exists x. apply map_lookup_filter_Some. split; [done|]. destruct x; cbn in *. congruence.
  - rewrite map_size_delete_None; [lia|]. apply map_lookup_filter_None. right. intros y Hy Ey. cbn in Ey. simplify_eq.
Qed.

Lemma stored_bytes m a l : stored m a l -> bytes_at m a (Z.of_nat (length l)) = l.
Proof.
  intros Hs. assert (Ha : accessible m a (length l)).
  { intros i Hi. destruct (lookup_lt_is_Some_2 l i Hi) as [v Hv]. exists v. by apply Hs. }
  unfold bytes_at. rewrite Nat2Z.id. pose proof (copy_from_user_spec m a (length l)) as H. rewrite decide_True in H by done.
  destruct H as (l' & -> & Hl & Hs'). cbn. by apply (stored_unique m a).
Qed.

Ltac pipe_same := split; cbn in *; try done.

Lemma read_inv w x e a n :
  pipe_inv w -> pw_ends w !! e = Some x -> 0 <= n -> exists w', pipe_perform (Read e a n) w = Ok w' /\ pipe_inv w'.
Proof.
  destruct w as [st ends m sent received sl]. intros [R Hr Hw Hroom Hrw Hww Hq Hsl] He Hn. cbn in *. rewrite He. run.
  assert (Hsame : pipe_inv (PipeWorld st ends m sent (received ++ []) sl)) by (split; cbn; rewrite ?app_nil_r; done).
  destruct x as [[] []]; [by eexists| |by eexists..].
  destruct (pipe_read_Ok a n st m R Hn) as (st' & m' & woken & r & -> & R' & _ & (E1 & E2 & E3) & E4 & H). run.
  eexists. split; [done|]. case_decide as Ha.
  - destruct H as (-> & C & Esz & Hst & Hsome & Hnone).
    assert (Hlen : Z.of_nat (length (take (Z.to_nat (Z.min n (size st))) (contents st))) = Z.min n (size st)).
    { rewrite length_take. pose proof (contents_length _ R). pose proof (rg_size _ R). lia. }
    apply stored_bytes in Hst. rewrite Hlen in Hst. rewrite Hst.
    split; cbn; rewrite ?E1, ?E2, ?E3, ?E4; try done.
    + intros Hne. destruct (Hrw Hne). lia.
    + intros Hne. destruct (decide (size st = 0)) as [Ez|Ez]; [destruct (Hnone Ez) as [-> _]; by apply Hww|].
      by destruct (Hsome Ez).
    + by rewrite <- app_assoc, <- C.
    + destruct (decide (size st = 0)) as [Ez|Ez]; [by destruct (Hnone Ez) as [-> ->]|].
      destruct (Hsome Ez) as [? ->]. by apply wake_writers.
  - destruct H as (-> & -> & ->). split; cbn; rewrite ?app_nil_r; done.
Qed.

Lemma write_inv w x e a n :
  pipe_inv w -> pw_ends w !! e = Some x -> 0 <= n -> exists w', pipe_perform (Write e a n) w = Ok w' /\ pipe_inv w'.
Proof.
  destruct w as [st ends m sent received sl]. intros [R Hr Hw Hroom Hrw Hww Hq Hsl] He Hn. cbn in *. rewrite He. run.
  assert (Hsame : pipe_inv (PipeWorld st ends m (sent ++ []) received sl)) by (split; cbn; rewrite ?app_nil_r; done).
  destruct x as [[] []]; [by eexists..|]. 
  destruct (pipe_write_Ok a n st m R Hn) as (st' & woken & r & -> & R' & (E1 & E2 & E3) & E4 & H). run.
  eexists. split; [done|]. cbn zeta in H. case_decide as Ha.
  - destruct H as (-> & Esz & (l & Hl & Hst & C) & Hsome & Hnone).
    apply stored_bytes in Hst. rewrite Hl in Hst. rewrite Hst.
    split; cbn; rewrite ?E1, ?E2, ?E3, ?E4; try done.
    + intros Hne. destruct (decide (size st = capacity st)) as [Ez|Ez]; [destruct (Hnone Ez) as [-> _]; by apply Hrw|].
      by destruct (Hsome Ez).
    + intros Hne. destruct (Hww Hne). pose proof (rg_size _ R'). lia.
    + by rewrite C, Hq, app_assoc.
    + destruct (decide (size st = capacity st)) as [Ez|Ez]; [by destruct (Hnone Ez) as [-> ->]|].
      destruct (Hsome Ez) as [? ->]. by apply wake_readers.
  - destruct H as (-> & C & Esz & -> & E5).
    split; cbn; unfold queued_sleepers; rewrite ?app_nil_r, ?E1, ?E2, ?E3, ?E4, ?E5, ?C, ?Esz; done.
Qed.

Lemma close_inv w x e :
  pipe_inv w -> pw_ends w !! e = Some x -> exists w', pipe_perform (Close e) w = Ok w' /\ pipe_inv w'.
Proof.
  destruct w as [st ends m sent received sl]. intros [R Hr Hw Hroom Hrw Hww Hq Hsl] He. cbn in *. rewrite He. run.
  unfold pipe_close. destruct (m_is_closed x) eqn:Ex.
  { eexists. split; [done|]. rewrite insert_id by done. by split. }
  assert (Cr := open_ends_close READ ends e x He Ex). assert (Cw := open_ends_close WRITE ends e x He Ex).
  assert (Hsz := open_ends_size (m_side x) ends).
  assert (Hsize : base.size (<[ e := PipeEnd (m_side x) true ]> ends) = base.size ends) by (apply map_size_insert_Some; by eexists).
  destruct (m_side x) eqn:Es; cbn [decide] in Cr, Cw; cbn [reader_count writer_count set_counts].
  - rewrite decide_True in Cr by done. rewrite decide_False in Cw by done.
    rewrite wrap64_small by (unfold is_u64; lia). destruct (_ =? 0) eqn:Ez; bool_to_prop; (eexists; split; [done|]);
      destruct R; split; cbn; rewrite ?Hsize; try done; try lia; first [by apply (wake_writers st)|intros Hne; specialize (Hww Hne); lia].
  - rewrite decide_False in Cr by done. rewrite decide_True in Cw by done.
    rewrite wrap64_small by (unfold is_u64; lia). destruct (_ =? 0) eqn:Ez; bool_to_prop; (eexists; split; [done|]);
      destruct R; split; cbn; rewrite ?Hsize; try done; try lia; first [by apply (wake_readers st)|intros Hne; specialize (Hrw Hne); lia].
Qed.

Lemma clone_inv w x e s new :
  pipe_inv w -> pw_ends w !! e = Some x -> pw_ends w !! new = None -> Z.of_nat (base.size (pw_ends w)) < W64 - 1 ->
  exists w', pipe_perform (Clone e s new) w = Ok w' /\ pipe_inv w'.
Proof.
  destruct w as [st ends m sent received sl]. intros [R Hr Hw Hroom Hrw Hww Hq Hsl] He Hnew Hmax. cbn in *. rewrite He. run.
  unfold pipe_clone. destruct (m_is_closed x) eqn:Ex; (eexists; split; [done|]); [by split|].
  assert (Hsize : base.size (<[ new := PipeEnd s false ]> ends) = S (base.size ends)) by (by apply map_size_insert_None).
  assert (Hsr := open_ends_size READ ends). assert (Hsw := open_ends_size WRITE ends).
  destruct s; destruct R; split; cbn; rewrite ?open_ends_new by done; cbn [decide];
    rewrite ?decide_True, ?decide_False by done; rewrite ?wrap64_small by (unfold is_u64; lia); try done; try lia;
    intros Hne; [specialize (Hww Hne)|specialize (Hrw Hne)]; lia.
Qed.

Lemma waits_inv w x e b :
  pipe_inv w -> pw_ends w !! e = Some x -> pw_sleepers w !! b = None ->
  (exists w', pipe_perform (Wait_readable e b) w = Ok w' /\ pipe_inv w') /\
  (exists w', pipe_perform (Wait_writable e b) w = Ok w' /\ pipe_inv w').
Proof.
  destruct w as [st ends m sent received sl]. intros [R Hr Hw Hroom Hrw Hww Hq Hsl] He Hb. cbn in *. rewrite He. run.
  unfold wait_readable, wait_writable. split.
  - case_decide; [eexists; by split|]. destruct (m_is_closed x); [eexists; by split|].
    destruct (size st =? 0) eqn:Ez; cbn [negb]; [|eexists; by split].
    destruct (writer_count st =? 0) eqn:Ew; bool_to_prop; (eexists; split; [done|]); [by split|].
    destruct R; split; cbn; try done; [intros _; lia|]. apply (sleeper_queued st); [done..|]. cbn. solve_Permutation.
  - case_decide; [eexists; by split|]. destruct (m_is_closed x); [eexists; by split|].
    destruct (capacity st =? size st) eqn:Ez; cbn [negb]; [|eexists; by split].
    destruct (reader_count st =? 0) eqn:Ew; bool_to_prop; (eexists; split; [done|]); [by split|].
    destruct R; split; cbn; try done; [intros _; lia|]. apply (sleeper_queued st); [done..|]. cbn. solve_Permutation.
Qed.

Lemma filter_nonempty {A} (P : A -> Prop) `{forall x, Decision (P x)} (l : list A) : filter P l <> [] -> l <> [].
Proof. by intros Hf ->. Qed.

Lemma pipe_perform_Ok op w : pipe_inv w -> pipe_allowed op w -> exists w', pipe_perform op w = Ok w' /\ pipe_inv w'.
Proof.
  intros I [He Ha]. destruct op as [e a n|e a n|e|e s new|e b|e b|b|m]; cbn [op_end] in He;
    try (destruct (He e eq_refl) as [x Hx]).
  - by apply (read_inv w x).
  - by apply (write_inv w x).
  - by apply (close_inv w x).
  - destruct Ha. by apply (clone_inv w x).
  - by apply (waits_inv w x e b).
  - by apply (waits_inv w x e b).
  - destruct w as [st ends m sent received sl], I as [R Hr Hw Hroom Hrw Hww Hq Hsl]. eexists. split; [done|].
    destruct R; split; cbn in *; try done; [intros Hne%filter_nonempty; auto..|].
    by apply sleeper_gone.
  - destruct w, I. eexists. split; [done|]. by split.
Qed.

Lemma pipe_reachable_inv w0 w : pipe_inv w0 -> pipe_reachable w0 w -> pipe_inv w.
Proof.
  intros I0. induction 1 as [|op w w' _ IH Ha E]; [done|].
  destruct (pipe_perform_Ok op w IH Ha) as (w1 & E1 & I1). rewrite E in E1. by injection E1 as ->.
Qed.

Lemma make_pipe_Ok s cap fill e i m :
  0 < cap <= W64 - page_size -> (Z.to_nat (round_up cap) <= length fill)%nat ->
  exists st, make_pipe s cap fill = Ok (PipeEnd s false, st) /\
    (e = PipeEnd s false -> pipe_inv (PipeWorld st {[ i := e ]} m [] [] ∅)).
Proof.
  intros Hc Hf. pose proof (round_up_bounds cap ltac:(unfold page_size in *; lia)) as (_ & Hb & Hlt).
  unfold make_pipe. destruct (cap >? 0) eqn:E; bool_to_prop; [|lia]. run. eexists. split; [done|]. intros ->.
  assert (Hopen : forall s', base.size (open_ends s' {[ i := PipeEnd s false ]}) = if decide (s' = s) then 1%nat else 0%nat).
  { intros s'. unfold open_ends. rewrite map_filter_singleton. cbn. case_decide; case_decide; try congruence; [apply map_size_singleton|apply map_size_empty]. }
  split; cbn; try (by destruct s); try (rewrite Hopen; by destruct s).
  - split; destruct s; cbn -[Z.modulo]; rewrite ?length_take; try lia; by rewrite Z.mod_0_l by lia.
  - by rewrite map_size_singleton.
  - destruct s; (split; cbn; [constructor|]); intros b; rewrite lookup_empty; set_solver.
Qed.

(** C6: a pipe is a queue of bytes, however its ends are shared, cloned, closed and waited on and
    whatever happens to the memory of the processes: every operation returns, the bytes that the
    writes have reported as written are the bytes that the reads have reported as read (as the
    readers found them in their buffers), followed by those that are still in the pipe, and there
    are never more than the capacity. *)
Theorem pipe_fifo s cap fill e st (i : nat) m w :
  0 < cap <= W64 - page_size -> (Z.to_nat (round_up cap) <= length fill)%nat ->
  make_pipe s cap fill = Ok (e, st) -> pipe_reachable (PipeWorld st {[ i := e ]} m [] [] ∅) w ->
  (forall op, pipe_allowed op w -> exists w', pipe_perform op w = Ok w') /\
  pw_sent w = pw_received w ++ contents (pw_pipe w) /\
  Z.of_nat (length (contents (pw_pipe w))) <= capacity (pw_pipe w).
Proof.
  intros Hc Hf E Hw. destruct (make_pipe_Ok s cap fill e i m Hc Hf) as (st' & E' & I0).
  rewrite E in E'. injection E' as -> ->. assert (I := pipe_reachable_inv _ _ (I0 eq_refl) Hw). split_and!.
  - intros op Ha. destruct (pipe_perform_Ok op w I Ha) as (w' & ? & _). eauto.
  - apply I.
  - rewrite contents_length by apply I. apply (rg_size _ (pi_ring _ I)).
Qed.

(** C31: nobody waits on a pipe in vain.  A thread that went to sleep in [block_until_readable]
    or [block_until_writable] and has not come back is in a queue exactly as long as [unblock()]
    was not called on its blocker: no operation takes a waiter off its queue without unblocking
    it.  And while a thread is queued to read, the pipe is empty and some write end is open; while
    one is queued to write, the pipe is full and some read end is open.  Every operation is one
    step here; [clone] changes the counters without the lock of the pipe (Pipe.cpp:29-32), so
    clones that race with another clone or close are not covered.  That an unblocked thread runs
    again is the business of the scheduler. *)
Theorem pipe_waits_for_someone s cap fill e st (i : nat) m w :
  0 < cap <= W64 - page_size -> (Z.to_nat (round_up cap) <= length fill)%nat ->
  make_pipe s cap fill = Ok (e, st) -> pipe_reachable (PipeWorld st {[ i := e ]} m [] [] ∅) w ->
  (forall b, b ∈ read_waiters (pw_pipe w) ++ write_waiters (pw_pipe w) <-> pw_sleepers w !! b = Some false) /\
  (read_waiters (pw_pipe w) <> [] ->
     contents (pw_pipe w) = [] /\ exists j, pw_ends w !! j = Some (PipeEnd WRITE false)) /\
  (write_waiters (pw_pipe w) <> [] ->
     Z.of_nat (length (contents (pw_pipe w))) = capacity (pw_pipe w) /\ exists j, pw_ends w !! j = Some (PipeEnd READ false)).
Proof.
  intros Hc Hf E Hw. destruct (make_pipe_Ok s cap fill e i m Hc Hf) as (st' & E' & I0).
  rewrite E in E'. injection E' as -> ->. assert (I := pipe_reachable_inv _ _ (I0 eq_refl) Hw).
  assert (Hlen := contents_length _ (pi_ring _ I)).
  assert (Hsome : forall s, 0 < Z.of_nat (base.size (open_ends s (pw_ends w))) -> exists j, pw_ends w !! j = Some (PipeEnd s false)).
  { intros s' Hs. destruct (map_choose (open_ends s' (pw_ends w))) as (j & x & Hj).
    - apply map_size_non_empty_iff. lia.
    - apply map_lookup_filter_Some in Hj as [Hj Ex]. cbn in Ex. subst x. by exists j. }
  split; [apply (pi_sleepers _ I)|]. split; intros Hne.
  - destruct (pi_read_waiters _ I Hne) as [Hz Hp]. split; [apply length_zero_iff_nil; lia|].
    apply Hsome. by rewrite <- (pi_writers _ I).
  - destruct (pi_write_waiters _ I Hne) as [Hz Hp]. split; [lia|]. apply Hsome. by rewrite <- (pi_readers _ I).
Qed.

(** ** A concrete pipe *)

(** One page; the buffer of the process is at 1000, and the byte at 1004 is inaccessible. *)
Definition user : umem := {[ 1000 := 7; 1001 := 8; 1002 := 9; 1003 := 10; 1005 := 11 ]}.
Definition fresh_pipe : pipe_state := PipeState 0 1 0 0 4096 0 [] [] (repeat 0 4096).
Definition shared_pipe : pipe_world :=
  PipeWorld (set_waiters [5%nat] [] (count_end READ fresh_pipe))
    {[ 1%nat := PipeEnd READ false; 0%nat := PipeEnd WRITE false ]} user [] [] {[ 5%nat := false ]}.

Lemma fresh_pipe_made : make_pipe WRITE 4096 (repeat 0 4096) = Ok (PipeEnd WRITE false, fresh_pipe).
Proof. vm_compute. reflexivity. Qed.

Lemma shared_pipe_reachable :
  pipe_reachable (PipeWorld fresh_pipe {[ 0%nat := PipeEnd WRITE false ]} user [] [] ∅) shared_pipe.
Proof.
  apply (pipe_step _ (Wait_readable 1 5) (PipeWorld (count_end READ fresh_pipe)
    {[ 1%nat := PipeEnd READ false; 0%nat := PipeEnd WRITE false ]} user [] [] ∅)); [|split; [|done]|vm_compute; reflexivity].
  - apply (pipe_step _ (Clone 0 READ 1) (PipeWorld fresh_pipe {[ 0%nat := PipeEnd WRITE false ]} user [] [] ∅));
      [constructor|split; [|done]|vm_compute; reflexivity]. intros e [= <-]. by eexists.
  - intros e [= <-]. by eexists.
Qed.

Lemma pipe_fifo_witness : exists w', pipe_perform (Write 0 1000 4) shared_pipe = Ok w'.
Proof.
  apply (pipe_fifo WRITE 4096 (repeat 0 4096) (PipeEnd WRITE false) fresh_pipe 0 user shared_pipe);
    [done|by vm_compute|apply fresh_pipe_made|apply shared_pipe_reachable|].
  split; [|done]. intros e [= <-]. by eexists.
Defined.

Lemma pipe_waits_for_someone_witness :
  read_waiters (pw_pipe shared_pipe) = [5%nat] /\ pw_sleepers shared_pipe !! 5%nat = Some false /\
  exists j, pw_ends shared_pipe !! j = Some (PipeEnd WRITE false).
Proof.
  destruct (pipe_waits_for_someone WRITE 4096 (repeat 0 4096) (PipeEnd WRITE false) fresh_pipe 0 user shared_pipe)
    as (Hq & Hr & _); [done|by vm_compute|apply fresh_pipe_made|apply shared_pipe_reachable|].
  split; [reflexivity|]. split; [apply Hq; apply list_elem_of_here|apply Hr; discriminate].
Defined.

(** A write that fills the pipe returns the part that fitted (IOStream.h:34-37 promises all or
    nothing); one that faults after the wrap-around restores the offset and the size. *)
Example pipe_write_faults_after_wrap :
  pipe_write (PipeEnd WRITE false) 1003 3 (PipeState 1 1 0 4 5 4 [] [] [30; 31; 32; 33; 34]) user =
    Ok (PipeState 1 1 0 0 5 5 [] [] [30; 31; 32; 33; 10], [], Value 1) /\
  pipe_write (PipeEnd WRITE false) 1003 3 (PipeState 1 1 2 4 5 2 [] [] [30; 31; 32; 33; 34]) user =
    Ok (PipeState 1 1 2 4 5 2 [] [] [30; 31; 32; 33; 10], [], Error MEMORY_ACCESS_VIOLATION).
Proof. split; vm_compute; reflexivity. Qed.

(** A write wakes the reader that waits. *)
Example write_wakes_reader :
  (w ← pipe_perform (Write 0 1000 4) shared_pipe; mret (read_waiters (pw_pipe w), pw_sleepers w !! 5%nat)) =
  Ok ([], Some true).
Proof. vm_compute. reflexivity. Qed.
