(* ===== verification/BlockStore.v ===== *)
(** The interface between the file system and the cache of its blocks: the partition as an array
    of blocks of bytes, with reads and writes between a block and memory. *)
From S2P Require Import Prelude IOStream.
From stdpp Require Import gmap.
#[local] Open Scope Z_scope.

(** The bytes [off, off + n) of a block. *)
Definition in_span (off n i : Z) : Prop := off <= i < off + n.
#[export] Instance in_span_dec off n i : Decision (in_span off n i) := ltac:(unfold in_span; apply _).

Class BlockStore (S : Type) := {
  bs_inv : S -> Prop;
  bs_block_size : S -> Z;
  (** the blocks that exist *)
  bs_valid : S -> Z -> Prop;
  (** the byte [i] of the block [b] *)
  bs_byte : S -> Z -> Z -> Z;
  bs_read : Z -> Z -> Z -> Z -> umem -> S -> result (S * umem * error_code);
  bs_write : Z -> Z -> Z -> Z -> umem -> S -> result (S * umem * error_code);
  bs_zero : Z -> S -> result S;
  (** the same store, whose bytes may differ at [P] only *)
  bs_changes (s s' : S) (P : Z -> Z -> Prop) : Prop :=
    bs_block_size s' = bs_block_size s /\ (forall b, bs_valid s' b <-> bs_valid s b) /\
    forall b i, bs_valid s b -> 0 <= i < bs_block_size s -> ~ P b i -> bs_byte s' b i = bs_byte s b i;
  bs_read_law b off n a m s :
    bs_inv s -> bs_valid s b -> 0 <= off -> 0 <= n -> off + n <= bs_block_size s ->
    exists s' m', bs_read b off n a m s =
        Ok (s', m', if decide (accessible m a (Z.to_nat n)) then NO_ERROR else MEMORY_ACCESS_VIOLATION) /\
      bs_inv s' /\ bs_changes s s' (fun _ _ => False) /\ changes_within m m' a (a + n) /\
      (accessible m a (Z.to_nat n) -> forall i, in_span off n i -> m' !! (a + (i - off)) = Some (bs_byte s b i));
  bs_write_law b off n a m s :
    bs_inv s -> bs_valid s b -> 0 <= off -> 0 <= n -> off + n <= bs_block_size s ->
    exists s', bs_write b off n a m s =
        Ok (s', m, if decide (accessible m a (Z.to_nat n)) then NO_ERROR else MEMORY_ACCESS_VIOLATION) /\
      bs_inv s' /\ bs_changes s s' (fun b' i => b' = b /\ in_span off n i) /\
      (accessible m a (Z.to_nat n) -> forall i, in_span off n i -> m !! (a + (i - off)) = Some (bs_byte s' b i));
  bs_zero_law b s :
    bs_inv s -> bs_valid s b ->
    exists s', bs_zero b s = Ok s' /\ bs_inv s' /\ bs_changes s s' (fun b' _ => b' = b) /\
      forall i, 0 <= i < bs_block_size s -> bs_byte s' b i = 0 }.
