(* ===== verification/DiskCache.v ===== *)
(** The disk cache (FileSystem/DiskCache.h, DiskCache.cpp): a write-back cache of the blocks of a
    file system, least recently used first out.  It refines the bytes of the partition. *)
From S2P Require Import Prelude Page Range IOStream BlockStore.
From stdpp Require Import gmap list_numbers.
#[local] Open Scope Z_scope.

(** ** The device *)

(** The bytes of the device.  [submit_request] followed by [wait] transfers the logical blocks of the
    request; the cache ignores the result of the request. *)
Abbreviation device := (Z -> Z).

Definition device_read (d : device) (at_ n : Z) : list Z := d <$> seqZ at_ n.
Definition device_write (d : device) (at_ : Z) (l : list Z) : device := fun x =>
  if decide (at_ <= x) then default (d x) (l !! Z.to_nat (x - at_)) else d x.

(** ** The code *)

(** [Kernel/FileSystem/DiskCache.h:49-57] DiskCache::CachedBlock, with the contents of its buffer *)
Record cached_block := CachedBlock { cb_first : Z; cb_dirty : bool; cb_data : list Z }.

(** [Kernel/FileSystem/DiskCache.h:64-75] DiskCache; a cached block is known by the offset of its buffer within m_region *)
Record disk_cache := DiskCache {
  dc_range : range;
  dc_io_size : Z;
  dc_logical : Z;
  dc_fs_block : Z;
  dc_blocks_per_io : Z;
  dc_capacity : Z;
  dc_offset : Z;
  dc_blocks : gmap Z cached_block;
  dc_cached : list Z;
  dc_index : gmap Z Z;
  dc_device : device }.

Definition dc_update (dc : disk_cache) (blocks : gmap Z cached_block) (cached : list Z) (index : gmap Z Z)
    (offset : Z) (d : device) : disk_cache :=
  DiskCache (dc_range dc) (dc_io_size dc) (dc_logical dc) (dc_fs_block dc) (dc_blocks_per_io dc) (dc_capacity dc)
    offset blocks cached index d.
Definition put_block (a : Z) (cb : cached_block) (dc : disk_cache) : disk_cache :=
  dc_update dc (<[ a := cb ]> (dc_blocks dc)) (dc_cached dc) (dc_index dc) (dc_offset dc) (dc_device dc).

(** [Kernel/FileSystem/DiskCache.cpp:18-60] DiskCache::DiskCache; [ram] tells a RAM disk *)
Definition make_cache (d : device) (ram : bool) (logical : Z) (r : range) (fs_block capacity : Z) : result disk_cache :=
  ASSERT (negb (capacity =? 0)) ;;
  ASSERT ((logical =? 512) || (logical =? 4096)) ;;
  if ram then Ok (DiskCache r 0 logical fs_block 0 capacity 0 ∅ [] ∅ d) else
  io_size ← (if fs_block >=? page_size then ASSERT (fs_block mod page_size =? 0) ;; Ok fs_block
             else ASSERT (0 mod fs_block =? 0) ;; Ok page_size);
  let per_io := io_size / fs_block in
  let capacity := capacity / per_io in
  ASSERT (negb (capacity =? 0)) ;;
  Ok (DiskCache r io_size logical fs_block per_io capacity 0 ∅ [] ∅ d).

(** [Kernel/FileSystem/DiskCache.cpp:62-68] DiskCache::block_to_first_lba *)
Definition block_to_first_lba (dc : disk_cache) (block_index : Z) : Z :=
  (block_index *! dc_fs_block dc) / dc_logical dc.

(** [Kernel/FileSystem/DiskCache.cpp:70-80] DiskCache::block_to_lba_range *)
Definition block_to_lba_range (dc : disk_cache) (block_index : Z) : result range :=
  let lba := block_to_first_lba dc block_index in
  let logical_blocks_per_cache_block := dc_io_size dc / dc_logical dc in
  let lba := if (dc_fs_block dc <? dc_io_size dc) && (dc_logical dc =? 512) then Z.land lba (lnot64 7) else lba in
  range_make (r_begin (dc_range dc) +! lba) logical_blocks_per_cache_block.

(** [Kernel/FileSystem/DiskCache.cpp:82-85] DiskCache::block_index_to_cached_index *)
Definition block_index_to_cached_index (dc : disk_cache) (block_index : Z) : Z :=
  Z.land block_index (lnot64 (dc_blocks_per_io dc -! 1)).

(** [Kernel/FileSystem/DiskCache.cpp:215-229] DiskCache::flush_block *)
Definition flush_block (a : Z) (dc : disk_cache) : result disk_cache :=
  match dc_blocks dc !! a with
  | None => Fault OutOfBounds
  | Some cb =>
      if negb (cb_dirty cb) then Ok dc else
      r ← block_to_lba_range dc (cb_first cb);
      ASSERT (r_contains_range (dc_range dc) r) ;;
      let d := device_write (dc_device dc) (r_begin r * dc_logical dc) (cb_data cb) in
      Ok (dc_update dc (<[ a := CachedBlock (cb_first cb) false (cb_data cb) ]> (dc_blocks dc)) (dc_cached dc)
            (dc_index dc) (dc_offset dc) d)
  end.

(** [Kernel/FileSystem/DiskCache.cpp:132-145] DiskCache::evict_one *)
Definition evict_one (dc : disk_cache) : result (disk_cache * Z) :=
  match last (dc_cached dc) with
  | None => Fault AssertionFailed
  | Some a =>
      let dc := dc_update dc (dc_blocks dc) (take (length (dc_cached dc) - 1) (dc_cached dc)) (dc_index dc) (dc_offset dc) (dc_device dc) in
      dc ← flush_block a dc;
      match dc_blocks dc !! a with
      | None => Fault OutOfBounds
      | Some cb =>
          Ok (dc_update dc (<[ a := CachedBlock 0 (cb_dirty cb) (cb_data cb) ]> (dc_blocks dc)) (dc_cached dc)
                (delete (cb_first cb) (dc_index dc)) (dc_offset dc) (dc_device dc), a)
      end
  end.

(** [Kernel/FileSystem/DiskCache.cpp:87-94] DiskCache::allocate_next_block_buffer, for a new CachedBlock *)
Definition allocate_next_block_buffer (dc : disk_cache) : disk_cache * Z :=
  (dc_update dc (<[ dc_offset dc := CachedBlock 0 false [] ]> (dc_blocks dc)) (dc_cached dc) (dc_index dc)
     (dc_offset dc +! dc_io_size dc) (dc_device dc), dc_offset dc).

(** [Kernel/FileSystem/DiskCache.cpp:96-130] DiskCache::cached_block: the block and the offset within its buffer *)
Definition find_cached_block (block_index : Z) (dc : disk_cache) : result (disk_cache * Z * Z) :=
  let original_index := block_index in
  let block_index := block_index_to_cached_index dc block_index in
  let offset := (original_index - block_index) * dc_fs_block dc in
  match dc_index dc !! block_index with
  | Some a =>
      ASSERT (bool_decide (a ∈ dc_cached dc)) ;;
      Ok (dc_update dc (dc_blocks dc) (a :: filter (fun x => x <> a) (dc_cached dc)) (dc_index dc) (dc_offset dc) (dc_device dc),
          a, offset)
  | None =>
      '(dc, a) ← (if Z.of_nat (length (dc_cached dc)) =? dc_capacity dc then evict_one dc
                  else Ok (allocate_next_block_buffer dc));
      r ← block_to_lba_range dc block_index;
      ASSERT (r_contains_range (dc_range dc) r) ;;
      let data := device_read (dc_device dc) (r_begin r * dc_logical dc) (r_length r * dc_logical dc) in
      match dc_blocks dc !! a with
      | None => Fault OutOfBounds
      | Some cb =>
          Ok (dc_update dc (<[ a := CachedBlock block_index (cb_dirty cb) data ]> (dc_blocks dc)) (a :: dc_cached dc)
                (<[ block_index := a ]> (dc_index dc)) (dc_offset dc) (dc_device dc), a, offset)
      end
  end.

(** [Kernel/FileSystem/DiskCache.cpp:147-169] DiskCache::read_one into the memory at [addr] *)
Definition dc_read_one (block_index offset bytes addr : Z) (m : umem) (dc : disk_cache) :
    result (disk_cache * umem * error_code) :=
  ASSERT (offset +! bytes <=? dc_fs_block dc) ;;
  if dc_io_size dc =? 0 then
    let full_offset := offset +! block_index *! dc_fs_block dc in
    let '(m, ok) := copy_to_user m addr (device_read (dc_device dc) full_offset bytes) in
    Ok (dc, m, if (ok : bool) then NO_ERROR else MEMORY_ACCESS_VIOLATION)
  else
    '(dc, a, in_block) ← find_cached_block block_index dc;
    match dc_blocks dc !! a with
    | None => Fault OutOfBounds
    | Some cb =>
        let '(m, ok) := copy_to_user m addr (slice (in_block + offset) bytes (cb_data cb)) in
        Ok (dc, m, if (ok : bool) then NO_ERROR else MEMORY_ACCESS_VIOLATION)
    end.

(** [Kernel/FileSystem/DiskCache.cpp:171-193] DiskCache::write_one from the memory at [addr] *)
Definition dc_write_one (block_index offset bytes addr : Z) (m : umem) (dc : disk_cache) :
    result (disk_cache * umem * error_code) :=
  ASSERT (offset +! bytes <=? dc_fs_block dc) ;;
  if dc_io_size dc =? 0 then
    let full_offset := offset +! block_index *! dc_fs_block dc in
    let '(m, ok) := copy_to_user m addr (device_read (dc_device dc) full_offset bytes) in
    Ok (dc, m, if (ok : bool) then NO_ERROR else MEMORY_ACCESS_VIOLATION)
  else
    '(dc, a, in_block) ← find_cached_block block_index dc;
    match dc_blocks dc !! a with
    | None => Fault OutOfBounds
    | Some cb =>
        let '(l, ok) := copy_from_user m addr (Z.to_nat bytes) in
        Ok (put_block a (CachedBlock (cb_first cb) true (splice (in_block + offset) l (cb_data cb))) dc, m,
            if (ok : bool) then NO_ERROR else MEMORY_ACCESS_VIOLATION)
    end.

(** [Kernel/FileSystem/DiskCache.cpp:195-213] DiskCache::zero_fill_one *)
Definition dc_zero_fill_one (block_index : Z) (dc : disk_cache) : result disk_cache :=
  let zeroes := repeat 0 (Z.to_nat (dc_fs_block dc)) in
  if dc_io_size dc =? 0 then
    let full_offset := block_index *! dc_fs_block dc in
    Ok (dc_update dc (dc_blocks dc) (dc_cached dc) (dc_index dc) (dc_offset dc) (device_write (dc_device dc) full_offset zeroes))
  else
    '(dc, a, in_block) ← find_cached_block block_index dc;
    match dc_blocks dc !! a with
    | None => Fault OutOfBounds
    | Some cb => Ok (put_block a (CachedBlock (cb_first cb) true (splice in_block zeroes (cb_data cb))) dc)
    end.

(** [Kernel/FileSystem/DiskCache.cpp:238-244] DiskCache::flush_all, the loop *)
Fixpoint flush_loop (l : list Z) (dc : disk_cache) : result disk_cache :=
  match l with
  | [] => Ok dc
  | a :: l => dc ← flush_block a dc; flush_loop l dc
  end.

(** [Kernel/FileSystem/DiskCache.cpp:231-248] DiskCache::flush_all *)
Definition dc_flush_all (dc : disk_cache) : result disk_cache :=
  if dc_io_size dc =? 0 then Ok dc else flush_loop (dc_cached dc) dc.

(** [Kernel/FileSystem/DiskCache.cpp:250-264] DiskCache::flush_specific *)
Definition dc_flush_specific (block_index : Z) (dc : disk_cache) : result disk_cache :=
  if dc_io_size dc =? 0 then Ok dc else
  match dc_index dc !! block_index_to_cached_index dc block_index with
  | None => Ok dc
  | Some a => flush_block a dc
  end.

(** ** Geometry *)

(** The bytes of the partition, and where they start on the device. *)
Definition dc_bytes (dc : disk_cache) : Z := (r_end (dc_range dc) - r_begin (dc_range dc)) * dc_logical dc.
Definition dc_start (dc : disk_cache) : Z := r_begin (dc_range dc) * dc_logical dc.

(** What the constructor establishes for a disk, and the caller for its arguments. *)
Record geometry (dc : disk_cache) : Prop := {
  g_logical : dc_logical dc = 512 \/ dc_logical dc = 4096;
  g_block : 0 < dc_fs_block dc;
  g_per_io : exists k, 0 <= k <= 63 /\ dc_blocks_per_io dc = 2 ^ k;
  g_io : dc_io_size dc = dc_blocks_per_io dc * dc_fs_block dc;
  g_page : dc_io_size dc mod page_size = 0;
  g_range : wf_range (dc_range dc);
  g_bytes : dc_bytes dc < W64;
  g_room : 0 < dc_capacity dc /\ dc_capacity dc * dc_io_size dc < W64 }.

(** A unit of transfer, of [dc_blocks_per_io] blocks, within the partition. *)
Definition valid_unit (dc : disk_cache) (u : Z) : Prop := 0 <= u /\ (u + 1) * dc_io_size dc <= dc_bytes dc.
Definition unit_of (dc : disk_cache) (b : Z) : Z := b / dc_blocks_per_io dc.
Definition dc_valid (dc : disk_cache) (b : Z) : Prop := 0 <= b /\ valid_unit dc (unit_of dc b).

Section Geometry.
Context (dc : disk_cache) (G : geometry dc).

Lemma per_io_pos : 0 < dc_blocks_per_io dc.
Proof. destruct (g_per_io _ G) as (k & Hk & ->). lia. Qed.

Lemma io_pos : 0 < dc_io_size dc.
Proof. rewrite (g_io _ G). pose proof per_io_pos. pose proof (g_block _ G). lia. Qed.

Lemma logical_io : exists n, 0 < n /\ dc_io_size dc = n * dc_logical dc /\ (dc_logical dc = 512 -> n mod 8 = 0).
Proof.
  pose proof io_pos. pose proof (g_page _ G) as Hp. apply Z.mod_divide in Hp as [n Hn]; [|done]. unfold page_size in Hn.
  destruct (g_logical _ G) as [El|El]; rewrite El.
  - exists (n * 8). split_and!; [lia|lia|]. intros _. by rewrite Z.mod_mul.
  - exists n. split_and!; lia.
Qed.

Lemma io_le_bytes u : valid_unit dc u -> dc_io_size dc <= dc_bytes dc.
Proof. intros [Hu Hb]. pose proof io_pos. nia. Qed.

Lemma valid_block_fits b : dc_valid dc b -> b * dc_fs_block dc + dc_fs_block dc <= dc_bytes dc.
Proof.
  intros [Hb [Hu Hle]]. pose proof per_io_pos. pose proof (g_block _ G). rewrite (g_io _ G) in Hle. unfold unit_of in *.
  pose proof (Z.mod_pos_bound b (dc_blocks_per_io dc)). pose proof (Z.div_mod b (dc_blocks_per_io dc)). nia.
Qed.

Lemma cached_index_eq b :
  is_u64 b -> block_index_to_cached_index dc b = unit_of dc b * dc_blocks_per_io dc.
Proof.
  intros Hb. pose proof per_io_pos. unfold block_index_to_cached_index, unit_of. destruct (g_per_io _ G) as (k & Hk & E). rewrite E.
  assert (2 ^ k <= 2 ^ 63) by (apply Z.pow_le_mono_r; lia). unfold lnot64. rewrite wrap64_small by (unfold is_u64; lia).
  replace (0xFFFFFFFFFFFFFFFF - (2 ^ k - 1)) with (W64 - 2 ^ k) by lia.
  rewrite land_high by (done || lia). pose proof (Z.div_mod b (2 ^ k)). lia.
Qed.

Lemma valid_u64 b : dc_valid dc b -> is_u64 b.
Proof.
  intros Hv. pose proof (valid_block_fits b Hv). pose proof (g_block _ G). pose proof (g_bytes _ G). destruct Hv as [? _].
  unfold is_u64. nia.
Qed.

(** The logical blocks of a unit. *)
Lemma unit_lba_range u :
  valid_unit dc u ->
  exists r, block_to_lba_range dc (u * dc_blocks_per_io dc) = Ok r /\ r_contains_range (dc_range dc) r = true /\
    r_begin r * dc_logical dc = dc_start dc + u * dc_io_size dc /\ r_length r * dc_logical dc = dc_io_size dc.
Proof.
  intros [Hu Hle]. destruct logical_io as (n & Hn & Eio & H8). pose proof io_pos as Hio.
  assert (Hl : 0 < dc_logical dc) by (destruct (g_logical _ G); lia).
  pose proof (g_range _ G) as [Hr1 Hr2]. pose proof (g_bytes _ G) as HL. unfold dc_bytes in *.
  assert (Hun : u * n + n <= r_end (dc_range dc) - r_begin (dc_range dc)) by nia.
  assert (E1 : block_to_first_lba dc (u * dc_blocks_per_io dc) = u * n).
  { unfold block_to_first_lba. rewrite <- Z.mul_assoc, <- (g_io _ G), Eio, wrap64_small by (unfold is_u64; nia).
    rewrite Z.mul_assoc. by apply Z.div_mul; lia. }
  assert (E2 : dc_io_size dc / dc_logical dc = n) by (rewrite Eio; apply Z.div_mul; lia).
  unfold block_to_lba_range. rewrite E1, E2.
  assert (E3 : (if (dc_fs_block dc <? dc_io_size dc) && (dc_logical dc =? 512) then Z.land (u * n) (lnot64 7) else u * n) = u * n).
  { destruct (_ && _) eqn:E; [|done]. bool_to_prop. change (lnot64 7) with (W64 - 2 ^ 3).
    rewrite land_high by (unfold is_u64; lia || nia). apply (Z.mod_divide _ 8) in H8 as [j ->]; [|lia|done].
    rewrite Z.mul_assoc. change (2 ^ 3) with 8. rewrite Z.mod_mul by lia. lia. }
  rewrite E3. unfold range_make. rewrite (wrap64_small (r_begin (dc_range dc) + u * n)) by (unfold is_u64; nia). cbn [r_begin r_end].
  rewrite wrap64_small by (unfold is_u64; nia). destruct (_ <=? _) eqn:E; bool_to_prop; [|nia]. run.
  eexists. split; [done|]. unfold r_contains_range, r_contains, r_length, dc_start. cbn [r_begin r_end].
  rewrite wrap64_small by (unfold is_u64; nia). split_and!; [|nia|nia].
  assert (0 <= u * n) by nia. assert (u * n + n <= r_end (dc_range dc) - r_begin (dc_range dc)) by lia.
  blia.
Qed.
End Geometry.

(** ** The bytes of the partition *)

(** The byte [i] of the block [b], as the users of the cache see it. *)
Definition dc_byte (dc : disk_cache) (b i : Z) : Z :=
  let u := unit_of dc b in
  let p := b * dc_fs_block dc + i in
  match dc_index dc !! (u * dc_blocks_per_io dc) with
  | Some a =>
      match dc_blocks dc !! a with
      | Some cb => cb_data cb !!! Z.to_nat (p - u * dc_io_size dc)
      | None => dc_device dc (dc_start dc + p)
      end
  | None => dc_device dc (dc_start dc + p)
  end.

(** Each cached unit is in the partition, and on the device too while it is clean. *)
Definition block_ok (dc : disk_cache) (i : Z) (cb : cached_block) : Prop :=
  cb_first cb = i /\ Z.of_nat (length (cb_data cb)) = dc_io_size dc /\
  exists u, i = u * dc_blocks_per_io dc /\ valid_unit dc u /\
    (cb_dirty cb = false -> cb_data cb = device_read (dc_device dc) (dc_start dc + u * dc_io_size dc) (dc_io_size dc)).

Record coherent (dc : disk_cache) : Prop := {
  co_geometry : geometry dc;
  co_block : forall i a, dc_index dc !! i = Some a -> exists cb, dc_blocks dc !! a = Some cb /\ block_ok dc i cb }.

(** The list, the map and the region agree; [spare] are the buffers that are in none of them. *)
Record listed (dc : disk_cache) (spare : list Z) : Prop := {
  ls_nodup : NoDup (dc_cached dc ++ spare);
  ls_index : forall a, a ∈ dc_cached dc <-> exists i, dc_index dc !! i = Some a;
  ls_spare : forall a, a ∈ spare -> exists cb, dc_blocks dc !! a = Some cb /\ cb_dirty cb = false;
  ls_offset : dc_offset dc = dc_io_size dc * Z.of_nat (length (dc_cached dc ++ spare));
  ls_below : forall a cb, dc_blocks dc !! a = Some cb -> 0 <= a /\ a + dc_io_size dc <= dc_offset dc /\ (dc_io_size dc | a);
  ls_capacity : Z.of_nat (length (dc_cached dc ++ spare)) <= dc_capacity dc }.

Definition dc_inv (dc : disk_cache) : Prop := coherent dc /\ listed dc [].

(** The static part of a cache. *)
Definition same_cache (dc dc' : disk_cache) : Prop :=
  dc_range dc' = dc_range dc /\ dc_io_size dc' = dc_io_size dc /\ dc_logical dc' = dc_logical dc /\
  dc_fs_block dc' = dc_fs_block dc /\ dc_blocks_per_io dc' = dc_blocks_per_io dc /\ dc_capacity dc' = dc_capacity dc.

Lemma same_cache_update dc blocks cached index offset d : same_cache dc (dc_update dc blocks cached index offset d).
Proof. done. Qed.

Lemma same_cache_trans dc1 dc2 dc3 : same_cache dc1 dc2 -> same_cache dc2 dc3 -> same_cache dc1 dc3.
Proof. unfold same_cache. intros (? & ? & ? & ? & ? & ?) (? & ? & ? & ? & ? & ?). split_and!; congruence. Qed.

Lemma device_read_length d at_ n : 0 <= n -> Z.of_nat (length (device_read d at_ n)) = n.
Proof. intros Hn. unfold device_read. rewrite length_fmap, length_seqZ. lia. Qed.

Lemma device_read_lookup d at_ n (j : nat) : Z.of_nat j < n -> device_read d at_ n !! j = Some (d (at_ + Z.of_nat j)).
Proof. intros Hj. unfold device_read. rewrite list_lookup_fmap, lookup_seqZ_lt by done. done. Qed.

Lemma device_write_in d at_ l x v : at_ <= x -> l !! Z.to_nat (x - at_) = Some v -> device_write d at_ l x = v.
Proof. intros Hx Hv. unfold device_write. by rewrite decide_True, Hv. Qed.

Lemma device_write_out d at_ l x : (x < at_ \/ at_ + Z.of_nat (length l) <= x) -> device_write d at_ l x = d x.
Proof.
  intros Hx. unfold device_write. case_decide; [|done]. rewrite (proj2 (lookup_ge_None l _)); [done|]. lia.
Qed.

(** The byte [q] of the unit [u]. *)
Definition unit_byte (dc : disk_cache) (u q : Z) : Z :=
  match dc_index dc !! (u * dc_blocks_per_io dc) with
  | Some a =>
      match dc_blocks dc !! a with
      | Some cb => cb_data cb !!! Z.to_nat q
      | None => dc_device dc (dc_start dc + u * dc_io_size dc + q)
      end
  | None => dc_device dc (dc_start dc + u * dc_io_size dc + q)
  end.

(** Where the byte [i] of the block [b] is in its unit. *)
Definition in_unit (dc : disk_cache) (b i : Z) : Z := (b mod dc_blocks_per_io dc) * dc_fs_block dc + i.

Lemma in_unit_eq dc b i :
  geometry dc -> in_unit dc b i = b * dc_fs_block dc + i - unit_of dc b * dc_io_size dc.
Proof.
  intros G. unfold in_unit, unit_of. rewrite (g_io _ G). pose proof (per_io_pos dc G).
  pose proof (Z.div_mod b (dc_blocks_per_io dc)). nia.
Qed.

Lemma in_unit_bounds dc b i n :
  geometry dc -> 0 <= i -> 0 <= n -> i + n <= dc_fs_block dc -> 0 <= in_unit dc b i /\ in_unit dc b i + n <= dc_io_size dc.
Proof.
  intros G Hi Hn Hle. unfold in_unit. rewrite (g_io _ G). pose proof (per_io_pos dc G). pose proof (g_block _ G).
  pose proof (Z.mod_pos_bound b (dc_blocks_per_io dc)). nia.
Qed.

Lemma dc_byte_unit dc b i : geometry dc -> dc_byte dc b i = unit_byte dc (unit_of dc b) (in_unit dc b i).
Proof.
  intros G. unfold dc_byte, unit_byte. rewrite in_unit_eq by done. cbn zeta.
  replace (dc_start dc + unit_of dc b * dc_io_size dc + (b * dc_fs_block dc + i - unit_of dc b * dc_io_size dc))
    with (dc_start dc + (b * dc_fs_block dc + i)) by lia. done.
Qed.

(** The bytes of the units are the same. *)
Definition same_bytes (dc dc' : disk_cache) : Prop :=
  forall u q, valid_unit dc u -> 0 <= q < dc_io_size dc -> unit_byte dc' u q = unit_byte dc u q.

Lemma same_cache_geometry dc dc' : same_cache dc dc' -> geometry dc -> geometry dc'.
Proof.
  intros (E1 & E2 & E3 & E4 & E5 & E6) []. split; unfold dc_bytes in *; rewrite ?E1, ?E2, ?E3, ?E4, ?E5, ?E6; done.
Qed.

Lemma same_cache_valid dc dc' u : same_cache dc dc' -> valid_unit dc' u <-> valid_unit dc u.
Proof. intros (E1 & E2 & E3 & E4 & E5 & E6). unfold valid_unit, dc_bytes. by rewrite E1, E2, E3. Qed.

Lemma same_bytes_trans dc1 dc2 dc3 :
  same_cache dc1 dc2 -> same_bytes dc1 dc2 -> same_bytes dc2 dc3 -> same_bytes dc1 dc3.
Proof.
  intros S H1 H2 u q Hu Hq. rewrite H2; [by apply H1|by apply (same_cache_valid dc1 dc2)|]. by destruct S as (_ & -> & _).
Qed.

Lemma unit_index_inj dc u u' :
  geometry dc -> u * dc_blocks_per_io dc = u' * dc_blocks_per_io dc -> u = u'.
Proof. intros G. pose proof (per_io_pos dc G). nia. Qed.

Lemma coherent_inj dc i j a : coherent dc -> dc_index dc !! i = Some a -> dc_index dc !! j = Some a -> i = j.
Proof.
  intros C Hi Hj. destruct (co_block _ C i a Hi) as (cb & Hcb & <- & _). destruct (co_block _ C j a Hj) as (cb' & Hcb' & <- & _).
  congruence.
Qed.

Lemma device_read_ext d d' at_ n :
  (forall x, at_ <= x < at_ + n -> d' x = d x) -> device_read d' at_ n = device_read d at_ n.
Proof.
  intros H. unfold device_read. apply list_fmap_ext. intros j x Hx%lookup_seqZ. apply H. lia.
Qed.

Lemma flush_block_Ok dc i a :
  coherent dc -> dc_index dc !! i = Some a ->
  exists dc' cb, flush_block a dc = Ok dc' /\ coherent dc' /\ same_cache dc dc' /\ same_bytes dc dc' /\
    dc_cached dc' = dc_cached dc /\ dc_index dc' = dc_index dc /\ dc_offset dc' = dc_offset dc /\
    dc_blocks dc' = <[ a := cb ]> (dc_blocks dc) /\ cb_dirty cb = false /\ cb_first cb = i.
Proof.
  intros C Hi. pose proof (co_geometry _ C) as G. destruct (co_block _ C i a Hi) as (cb & Hcb & Ef & Hlen & u & Eu & Hu & Hclean).
  unfold flush_block. rewrite Hcb. destruct (cb_dirty cb) eqn:Ed; cbn [negb].
  2: { exists dc, cb. split_and!; try done. by rewrite insert_id. }
  destruct (unit_lba_range dc G u Hu) as (r & Er & Hr & Hb & _). rewrite Ef, Eu, Er. run. rewrite Hr. run. rewrite Hb.
  eexists _, _. split; [done|]. set (d := device_write _ _ _). assert (Hio := io_pos dc G).
  assert (Hout : forall u' q, u' <> u -> 0 <= q < dc_io_size dc ->
    d (dc_start dc + u' * dc_io_size dc + q) = dc_device dc (dc_start dc + u' * dc_io_size dc + q)).
  { intros u' q Hne Hq. apply device_write_out. rewrite Hlen. destruct (decide (u' < u)); [left|right]; nia. }
  assert (Hin : forall q, 0 <= q < dc_io_size dc ->
    d (dc_start dc + u * dc_io_size dc + q) = cb_data cb !!! Z.to_nat q).
  { intros q Hq. destruct (lookup_lt_is_Some_2 (cb_data cb) (Z.to_nat q)) as [v Hv]; [lia|].
    rewrite (list_lookup_total_correct _ _ _ Hv). apply device_write_in; [lia|].
    by replace (dc_start dc + u * dc_io_size dc + q - (dc_start dc + u * dc_io_size dc)) with q by lia. }
  split_and!; try done.
  - split; [by apply (same_cache_geometry dc)|]. intros j a' Hj. cbn in Hj |- *. destruct (decide (a' = a)) as [->|Hne].
    + rewrite lookup_insert_eq. eexists. split; [done|]. assert (j = i) as -> by (by apply (coherent_inj dc j i a)).
      split_and!; [done|done|]. exists u. split_and!; try done. intros _. cbn. apply list_eq. intros q.
      destruct (decide (Z.of_nat q < dc_io_size dc)).
      * rewrite device_read_lookup by done. rewrite Hin by lia. rewrite Nat2Z.id.
        destruct (lookup_lt_is_Some_2 (cb_data cb) q) as [v Hv]; [lia|]. by rewrite Hv, (list_lookup_total_correct _ _ _ Hv).
      * rewrite !(proj2 (lookup_ge_None _ _)); [done| |lia].
        pose proof (device_read_length d (dc_start dc + u * dc_io_size dc) (dc_io_size dc) ltac:(lia)) as X.
        change (dc_start _) with (dc_start dc). lia.
    + rewrite lookup_insert_ne by done. destruct (co_block _ C j a' Hj) as (cb' & Hcb' & Ef' & Hlen' & u' & Eu' & Hu' & Hclean').
      exists cb'. split; [done|]. split_and!; [done|done|]. exists u'. split_and!; try done. intros Hd. rewrite Hclean' by done. symmetry.
      apply device_read_ext. cbn. intros x Hx. replace x with (dc_start dc + u' * dc_io_size dc + (x - (dc_start dc + u' * dc_io_size dc))) by lia.
      change (dc_start _) with (dc_start dc). change (dc_io_size _) with (dc_io_size dc) in *. change (dc_start _) with (dc_start dc) in Hx. apply Hout; [|lia].
      intros ->. apply Hne. assert (j = i) as -> by congruence. rewrite Hi in Hj. by injection Hj.
  - intros w q Hw Hq. unfold unit_byte. cbn. change (dc_start _) with (dc_start dc).
    destruct (dc_index dc !! (w * dc_blocks_per_io dc)) as [a'|] eqn:Ea.
    + destruct (decide (a' = a)) as [->|Hne]; [by rewrite lookup_insert_eq, Hcb|]. rewrite lookup_insert_ne by done.
      destruct (co_block _ C _ a' Ea) as (cb' & -> & _). done.
    + apply Hout; [|done]. intros ->. rewrite <- Eu in Ea. congruence.
Qed.

(** Taking a clean block out of the map changes no byte. *)
Lemma drop_block dc i a cb cached blocks :
  coherent dc -> dc_index dc !! i = Some a -> dc_blocks dc !! a = Some cb -> cb_dirty cb = false ->
  (forall a', a' <> a -> blocks !! a' = dc_blocks dc !! a') ->
  let dc' := dc_update dc blocks cached (delete i (dc_index dc)) (dc_offset dc) (dc_device dc) in
  coherent dc' /\ same_bytes dc dc'.
Proof.
  intros C Hi Hcb Hd Hblocks dc'. pose proof (co_geometry _ C) as G. split.
  - split; [by apply (same_cache_geometry dc)|]. intros j a' Hj. cbn in Hj. apply lookup_delete_Some in Hj as [Hne Hj].
    destruct (co_block _ C j a' Hj) as (cb' & Hcb' & Hok). exists cb'. split; [|done]. cbn. rewrite Hblocks; [done|].
    intros ->. apply Hne. by apply (coherent_inj dc i j a).
  - intros u q Hu Hq. unfold unit_byte, dc'. cbn. change (dc_start (dc_update _ _ _ _ _ _)) with (dc_start dc).
    destruct (decide (i = u * dc_blocks_per_io dc)) as [->|Hne].
    + rewrite lookup_delete_eq, Hi, Hcb. destruct (co_block _ C _ a Hi) as (cb' & Hcb' & Ef & Hlen & w & Ew & Hw & Hclean).
      rewrite Hcb in Hcb'. injection Hcb' as <-. apply unit_index_inj in Ew as <-; [|done]. rewrite Hclean by done.
      erewrite list_lookup_total_correct; [done|]. rewrite device_read_lookup by lia. by rewrite Z2Nat.id by lia.
    + rewrite lookup_delete_ne by done. destruct (dc_index dc !! (u * dc_blocks_per_io dc)) as [a'|] eqn:Ea; [|done]. rewrite Hblocks; [done|].
      intros ->. apply Hne. by apply (coherent_inj dc _ _ a).
Qed.

Lemma evict_one_Ok dc :
  coherent dc -> listed dc [] -> dc_cached dc <> [] ->
  exists dc' a i, evict_one dc = Ok (dc', a) /\ coherent dc' /\ listed dc' [a] /\ same_cache dc dc' /\ same_bytes dc dc' /\
    dc_cached dc = dc_cached dc' ++ [a] /\ dc_index dc !! i = Some a /\ dc_index dc' = delete i (dc_index dc) /\
    forall a', a' <> a -> dc_blocks dc' !! a' = dc_blocks dc !! a'.
Proof.
  intros C [Ln Li _ Lo Lb Lc] Hne. rewrite app_nil_r in *.
  destruct (exists_last Hne) as (l & a & El). unfold evict_one. rewrite El, last_snoc.
  rewrite length_app, Nat.add_sub, take_app_length. cbn [length].
  destruct (proj1 (Li a)) as [i Hi]; [rewrite El; set_solver|].
  set (dc1 := dc_update _ _ _ _ _ _).
  assert (C1 : coherent dc1) by (split; [by apply (same_cache_geometry dc), C|apply C]).
  destruct (flush_block_Ok dc1 i a C1 Hi) as (dc2 & cb & -> & C2 & S2 & B2 & E1 & E2 & E3 & E4 & Hd & Hf). run.
  assert (Hcb : dc_blocks dc2 !! a = Some cb) by (by rewrite E4, lookup_insert_eq). rewrite Hcb.
  eexists _, a, i. split; [done|]. rewrite Hf.
  assert (Hi2 : dc_index dc2 !! i = Some a) by (by rewrite E2).
  destruct (drop_block dc2 i a cb (dc_cached dc2) (<[ a := CachedBlock 0 (cb_dirty cb) (cb_data cb) ]> (dc_blocks dc2)) C2 Hi2 Hcb Hd)
    as [C3 B3]; [intros; by rewrite lookup_insert_ne|].
  assert (S : same_cache dc dc2) by done.
  split_and!; try done.
  - rewrite El in Ln, Lo, Lc. split; cbn; rewrite ?E1, ?E2, ?E3; cbn; try done.
    + intros x. split.
      * intros Hx. destruct (proj1 (Li x)) as [j Hj]; [rewrite El; set_solver|]. exists j. rewrite lookup_delete_ne; [done|].
        intros <-. rewrite Hi in Hj. injection Hj as ->. apply NoDup_app in Ln as (_ & Hdis & _). apply (Hdis x Hx). set_solver.
      * intros [j Hj]. apply lookup_delete_Some in Hj as [Hne' Hj]. assert (Hx : x ∈ dc_cached dc) by (apply Li; eauto).
        rewrite El in Hx. apply elem_of_app in Hx as [?| ->%list_elem_of_singleton]; [done|].
        destruct Hne'. by apply (coherent_inj dc i j a).
    + intros x ->%list_elem_of_singleton. rewrite lookup_insert_eq. eexists. by split.
    + by rewrite (proj1 (proj2 S)).
    + rewrite (proj1 (proj2 S)). intros x cb' Hx. destruct (decide (x = a)) as [->|]; [|rewrite lookup_insert_ne, E4, lookup_insert_ne in Hx by done; by apply (Lb x cb')].
      destruct (co_block _ C i a Hi) as (cb0 & Hcb0 & _). by apply (Lb a cb0).
    + destruct S as (_ & _ & _ & _ & _ & ->). done.
  - intros u q Hu Hq. rewrite B3; [by apply (B2 u q)|by apply (same_cache_valid dc dc2)|]. by destruct S as (_ & -> & _).
  - cbn. rewrite E1. done.
  - cbn. by rewrite E2.
  - intros x Hx. cbn. by rewrite E4, !lookup_insert_ne.
Qed.

Lemma allocate_Ok dc :
  coherent dc -> listed dc [] -> Z.of_nat (length (dc_cached dc)) < dc_capacity dc ->
  let '(dc', a) := allocate_next_block_buffer dc in
  coherent dc' /\ listed dc' [a] /\ same_cache dc dc' /\ same_bytes dc dc' /\
  dc_cached dc' = dc_cached dc /\ dc_index dc' = dc_index dc /\
  (forall a', a' <> a -> dc_blocks dc' !! a' = dc_blocks dc !! a').
Proof.
  intros C [Ln Li _ Lo Lb Lc] Hlt. unfold allocate_next_block_buffer. rewrite app_nil_r in *.
  pose proof (co_geometry _ C) as G. pose proof (io_pos dc G) as Hio. pose proof (g_room _ G) as [_ Hroom].
  assert (Hfresh : forall i a, dc_index dc !! i = Some a -> a <> dc_offset dc).
  { intros i a Hi ->. destruct (co_block _ C i _ Hi) as (cb & Hcb & _). apply Lb in Hcb. lia. }
  assert (Hw : dc_offset dc + dc_io_size dc < W64) by nia.
  split_and!; try done.
  - split; [by apply (same_cache_geometry dc)|]. intros i a Hi. cbn in *. rewrite lookup_insert_ne by (symmetry; by apply (Hfresh i)).
    by apply (co_block _ C).
  - split; cbn; try done.
    + apply NoDup_app. split_and!; [done| |apply NoDup_singleton]. intros x Hx ->%list_elem_of_singleton.
      apply Li in Hx as [i Hi]. by apply (Hfresh i _ Hi).
    + intros a ->%list_elem_of_singleton. rewrite lookup_insert_eq. eexists. by split.
    + rewrite wrap64_small by (unfold is_u64; nia). rewrite length_app. cbn. nia.
    + rewrite wrap64_small by (unfold is_u64; nia). intros a cb Ha. destruct (decide (a = dc_offset dc)) as [->|].
      * split_and!; [nia|lia|]. rewrite Lo. apply Z.divide_factor_l.
      * rewrite lookup_insert_ne in Ha by done. apply Lb in Ha as (? & ? & ?). split_and!; [lia|lia|done].
    + rewrite length_app. cbn. lia.
  - intros u q Hu Hq. unfold unit_byte. cbn. destruct (dc_index dc !! (u * dc_blocks_per_io dc)) as [a|] eqn:Ea; [|done].
    rewrite lookup_insert_ne; [done|]. symmetry. by apply (Hfresh _ a Ea).
  - intros a Ha. cbn. by rewrite lookup_insert_ne.
Qed.

Lemma load_Ok dc a cb u data :
  coherent dc -> listed dc [a] -> dc_blocks dc !! a = Some cb -> cb_dirty cb = false ->
  dc_index dc !! (u * dc_blocks_per_io dc) = None -> valid_unit dc u ->
  data = device_read (dc_device dc) (dc_start dc + u * dc_io_size dc) (dc_io_size dc) ->
  let dc' := dc_update dc (<[ a := CachedBlock (u * dc_blocks_per_io dc) (cb_dirty cb) data ]> (dc_blocks dc)) (a :: dc_cached dc)
    (<[ u * dc_blocks_per_io dc := a ]> (dc_index dc)) (dc_offset dc) (dc_device dc) in
  coherent dc' /\ listed dc' [] /\ same_bytes dc dc'.
Proof.
  intros C [Ln Li Ls Lo Lb Lc] Hcb Hd Hnone Hu -> dc'. pose proof (co_geometry _ C) as G. pose proof (io_pos dc G) as Hio.
  apply NoDup_app in Ln as (Ln & Hdis & _).
  assert (Hna : a ∉ dc_cached dc) by (intros Ha; apply (Hdis a Ha); set_solver).
  assert (Hfresh : forall i a', dc_index dc !! i = Some a' -> a' <> a) by (intros i a' Hi ->; apply Hna, Li; eauto).
  split_and!.
  - split; [by apply (same_cache_geometry dc)|]. intros i a' Hi. unfold dc' in *. cbn in Hi |- *.
    apply lookup_insert_Some in Hi as [[<- <-]|[Hne Hi]].
    + rewrite lookup_insert_eq. eexists. split; [done|]. split_and!; [done|cbn; by apply device_read_length; lia|].
      by exists u.
    + rewrite lookup_insert_ne by (symmetry; by apply (Hfresh i)). by apply (co_block _ C).
  - unfold dc'. split; cbn; rewrite ?app_nil_r, ?length_app in *; cbn in *; try done.
    + by constructor.
    + intros x. rewrite elem_of_cons, Li. split.
      * intros [->|[i Hi]]; [exists (u * dc_blocks_per_io dc); by rewrite lookup_insert_eq|].
        exists i. rewrite lookup_insert_ne; [done|]. congruence.
      * intros [i [[_ ->]|[_ Hi]]%lookup_insert_Some]; [by left|right; eauto].
    + intros x Hx. by apply elem_of_nil in Hx.
    + rewrite Lo. f_equal. lia.
    + intros x cb' Hx. destruct (decide (x = a)) as [->|]; [by apply (Lb a cb)|].
      rewrite lookup_insert_ne in Hx by done. by apply (Lb x cb').
    + lia.
  - intros w q Hw Hq. unfold unit_byte, dc'. cbn. change (dc_start (dc_update _ _ _ _ _ _)) with (dc_start dc).
    destruct (decide (w = u)) as [->|Hne].
    + rewrite lookup_insert_eq, lookup_insert_eq, Hnone. cbn.
      erewrite list_lookup_total_correct; [done|]. rewrite device_read_lookup by lia. by rewrite Z2Nat.id by lia.
    + rewrite lookup_insert_ne by (intros E; by apply unit_index_inj in E).
      destruct (dc_index dc !! (w * dc_blocks_per_io dc)) as [a'|] eqn:Ea; [|done].
      rewrite lookup_insert_ne; [done|]. symmetry. by apply (Hfresh _ _ Ea).
Qed.

(** The units that are cached, the most recently used first, and what an access does to them
    in a cache of [capacity] units that evicts the least recently used one. *)
Definition first_of (blocks : gmap Z cached_block) (a : Z) : Z :=
  match blocks !! a with Some cb => cb_first cb | None => 0 end.
Lemma first_of_Some blocks a cb : blocks !! a = Some cb -> first_of blocks a = cb_first cb.
Proof. intros H. unfold first_of. by rewrite H. Qed.

Definition cached_units (dc : disk_cache) : list Z :=
  first_of (dc_blocks dc) <$> dc_cached dc.
Definition lru_access (capacity u : Z) (l : list Z) : list Z :=
  if decide (u ∈ l) then u :: filter (fun x => x <> u) l
  else u :: if Z.of_nat (length l) =? capacity then take (length l - 1) l else l.

Lemma cached_units_in dc i :
  dc_inv dc -> i ∈ cached_units dc <-> is_Some (dc_index dc !! i).
Proof.
  intros [C [_ Li _ _ _ _]]. unfold cached_units. rewrite list_elem_of_fmap. split.
  - intros (a & -> & [j Hj]%Li). destruct (co_block _ C j a Hj) as (cb & Hcb & Hf & _).
    rewrite (first_of_Some _ _ _ Hcb), Hf. eauto.
  - intros [a Ha]. exists a. split; [|apply Li; eauto]. destruct (co_block _ C i a Ha) as (cb & Hcb & Hf & _).
    by rewrite (first_of_Some _ _ _ Hcb).
Qed.

(** Leaving one buffer out of the list leaves one unit out. *)
Lemma cached_units_filter dc i a (l : list Z) :
  coherent dc -> dc_index dc !! i = Some a -> (forall x, x ∈ l -> exists j, dc_index dc !! j = Some x) ->
  (first_of (dc_blocks dc) <$> filter (fun x => x <> a) l) =
  filter (fun x => x <> i) (first_of (dc_blocks dc) <$> l).
Proof.
  intros C Hi. induction l as [|x l IH]; intros Hl; [done|]. destruct (Hl x) as [j Hj]; [by left|].
  destruct (co_block _ C j x Hj) as (cb & Hcb & Hf & _). rewrite fmap_cons, !filter_cons, (first_of_Some _ _ _ Hcb), Hf.
  destruct (decide (x = a)) as [->|Hne].
  - rewrite decide_False by tauto. assert (j = i) as -> by (by apply (coherent_inj dc j i a)). rewrite decide_False by tauto. apply IH. set_solver.
  - rewrite decide_True by done. rewrite decide_True by (intros ->; simplify_eq). rewrite fmap_cons, (first_of_Some _ _ _ Hcb), Hf. f_equal. apply IH. set_solver.
Qed.

Lemma cached_units_ext (blocks blocks' : gmap Z cached_block) (l : list Z) a :
  (a ∉ l) -> (forall a', a' <> a -> blocks' !! a' = blocks !! a') -> (first_of blocks' <$> l) = (first_of blocks <$> l).
Proof. intros Ha H. apply list_fmap_ext. intros i x Hx%list_elem_of_lookup_2. unfold first_of. rewrite H; [done|]. by intros ->. Qed.

(** Looking a block up, with the bytes of the partition unchanged; the block is the last to be evicted. *)
Lemma find_cached_block_Ok dc b :
  dc_inv dc -> dc_valid dc b ->
  exists dc' a cb, find_cached_block b dc = Ok (dc', a, in_unit dc b 0) /\ dc_inv dc' /\ same_cache dc dc' /\ same_bytes dc dc' /\
    dc_index dc' !! (unit_of dc b * dc_blocks_per_io dc) = Some a /\ dc_blocks dc' !! a = Some cb /\
    cached_units dc' = lru_access (dc_capacity dc) (unit_of dc b * dc_blocks_per_io dc) (cached_units dc).
Proof.
  intros [C L] Hv. pose proof (co_geometry _ C) as G. pose proof (io_pos dc G) as Hio.
  pose proof (fun i => cached_units_in dc i (conj C L)) as Hunits.
  unfold find_cached_block. rewrite cached_index_eq by (done || by apply (valid_u64 dc)).
  assert (Eoff : (b - unit_of dc b * dc_blocks_per_io dc) * dc_fs_block dc = in_unit dc b 0).
  { rewrite in_unit_eq, (g_io _ G) by done. lia. }
  rewrite Eoff. destruct (dc_index dc !! (unit_of dc b * dc_blocks_per_io dc)) as [a|] eqn:Ea.
  - destruct L as [Ln Li Ls Lo Lb Lc]. rewrite app_nil_r in *.
    assert (Hin : a ∈ dc_cached dc) by (apply Li; eauto). rewrite bool_decide_true by done. run.
    destruct (co_block _ C _ a Ea) as (cb & Hcb & Hok). eexists _, a, cb. split; [done|]. split_and!; try done.
    2: { unfold lru_access. rewrite decide_True by (apply Hunits; eauto). unfold cached_units at 1. cbn. rewrite (first_of_Some _ _ _ Hcb), (proj1 Hok). f_equal.
         apply cached_units_filter; [done..|]. intros x Hx. by apply Li. }
    split; [split; [by apply (same_cache_geometry dc)|apply C]|].
    assert (Ep : dc_cached dc ≡ₚ a :: filter (fun x => x <> a) (dc_cached dc)).
    { apply NoDup_Permutation; [done|constructor; [rewrite list_elem_of_filter; tauto|by apply NoDup_filter]|].
      intros x. rewrite elem_of_cons, list_elem_of_filter. destruct (decide (x = a)); naive_solver. }
    split; cbn; rewrite ?app_nil_r; try done.
    + by rewrite <- Ep.
    + intros x. by rewrite <- Ep.
    + rewrite Lo. f_equal. f_equal. by rewrite Ep at 1.
    + assert (El := Permutation_length Ep). cbn in El. cbn. lia.
  - assert (exists dc1 a cb, (if Z.of_nat (length (dc_cached dc)) =? dc_capacity dc then evict_one dc
        else Ok (allocate_next_block_buffer dc)) = Ok (dc1, a) /\ coherent dc1 /\ listed dc1 [a] /\ same_cache dc dc1 /\
        same_bytes dc dc1 /\ dc_index dc1 !! (unit_of dc b * dc_blocks_per_io dc) = None /\ dc_blocks dc1 !! a = Some cb /\ cb_dirty cb = false /\
        (first_of (dc_blocks dc) <$> dc_cached dc1) =
          (if Z.of_nat (length (cached_units dc)) =? dc_capacity dc then take (length (cached_units dc) - 1) (cached_units dc) else cached_units dc) /\
        (forall a', a' <> a -> dc_blocks dc1 !! a' = dc_blocks dc !! a'))
      as (dc1 & a & cb & -> & C1 & L1 & S1 & B1 & En & Hcb & Hd & Hlist & Hothers).
    { pose proof (g_room _ G) as [Hcap _]. assert (Elen : length (cached_units dc) = length (dc_cached dc)) by apply length_fmap.
      rewrite Elen. destruct (Z.of_nat (length (dc_cached dc)) =? dc_capacity dc) eqn:Ec; bool_to_prop.
      - destruct (evict_one_Ok dc C L) as (dc1 & a & i & E & C1 & L1 & S1 & B1 & Ecl & Hi & Ei & Hoth).
        { intros Enil. rewrite Enil in Ec. cbn in Ec. lia. }
        destruct (ls_spare _ _ L1 a) as (cb & Hcb & Hd); [set_solver|]. exists dc1, a, cb. split_and!; try done.
        { rewrite Ei. apply lookup_delete_None. by right. }
        unfold cached_units. rewrite Ecl, fmap_app, length_app, Nat.add_sub. symmetry. apply take_app_length'. by rewrite length_fmap.
      - assert (Hlt : Z.of_nat (length (dc_cached dc)) < dc_capacity dc).
        { pose proof (ls_capacity _ _ L) as Hc. rewrite app_nil_r in Hc. lia. }
        pose proof (allocate_Ok dc C L Hlt) as Ha. destruct (allocate_next_block_buffer dc) as [dc1 a].
        destruct Ha as (C1 & L1 & S1 & B1 & Ecl & Ei & Hoth). destruct (ls_spare _ _ L1 a) as (cb & Hcb & Hd); [set_solver|].
        exists dc1, a, cb. split_and!; try done; [by rewrite Ei|by rewrite Ecl]. }
    run. pose proof S1 as (F1 & F2 & F3 & F4 & F5 & F6).
    assert (Hu1 : valid_unit dc1 (unit_of dc b)) by (apply (same_cache_valid dc dc1); [done|apply Hv]).
    rewrite <- F5 in *.
    destruct (unit_lba_range dc1 (co_geometry _ C1) (unit_of dc b) Hu1) as (r & Er & Hr & Hb1 & Hl1).
    rewrite Er. run. rewrite Hr. run. rewrite Hb1, Hl1, Hcb.
    destruct (load_Ok dc1 a cb (unit_of dc b) _ C1 L1 Hcb Hd En Hu1 eq_refl) as (C2 & L2 & B2).
    eexists _, a, _. split; [done|]. split_and!; try done.
    + by apply (same_bytes_trans dc dc1).
    + cbn. by rewrite lookup_insert_eq.
    + cbn. by rewrite lookup_insert_eq.
    + unfold lru_access. rewrite decide_False by (rewrite Hunits, Ea; by intros []). unfold cached_units at 1. cbn.
      erewrite first_of_Some by apply lookup_insert_eq. cbn.
      rewrite <- Hlist. f_equal. apply (cached_units_ext _ _ _ a).
      * pose proof (ls_nodup _ _ L1) as Hnd. apply NoDup_app in Hnd as (_ & Hdis & _). intros Ha. apply (Hdis a Ha). set_solver.
      * intros a' Ha'. cbn. rewrite lookup_insert_ne by done. by apply Hothers.
Qed.

(** ** The partition as an array of blocks *)

Lemma in_unit_add dc b i : in_unit dc b 0 + i = in_unit dc b i.
Proof. unfold in_unit. lia. Qed.

Lemma unit_byte_cached dc u q a cb :
  dc_index dc !! (u * dc_blocks_per_io dc) = Some a -> dc_blocks dc !! a = Some cb -> unit_byte dc u q = cb_data cb !!! Z.to_nat q.
Proof. intros Ha Hcb. unfold unit_byte. by rewrite Ha, Hcb. Qed.

Lemma cached_data_lookup dc i a cb q :
  coherent dc -> dc_index dc !! i = Some a -> dc_blocks dc !! a = Some cb -> 0 <= q < dc_io_size dc ->
  cb_data cb !! Z.to_nat q = Some (cb_data cb !!! Z.to_nat q).
Proof.
  intros C Hi Hcb Hq. destruct (co_block _ C i a Hi) as (cb' & Hcb' & _ & Hlen & _). rewrite Hcb in Hcb'. injection Hcb' as <-.
  destruct (lookup_lt_is_Some_2 (cb_data cb) (Z.to_nat q)) as [v Hv]; [lia|]. by rewrite Hv, (list_lookup_total_correct _ _ _ Hv).
Qed.

(** Storing into a cached block. *)
Lemma put_block_Ok dc u a cb off l :
  dc_inv dc -> dc_index dc !! (u * dc_blocks_per_io dc) = Some a -> dc_blocks dc !! a = Some cb ->
  0 <= off -> off + Z.of_nat (length l) <= dc_io_size dc ->
  let dc' := put_block a (CachedBlock (cb_first cb) true (splice off l (cb_data cb))) dc in
  dc_inv dc' /\ same_cache dc dc' /\
  forall w q, 0 <= q < dc_io_size dc -> unit_byte dc' w q =
    if decide (w = u /\ in_span off (Z.of_nat (length l)) q) then l !!! Z.to_nat (q - off) else unit_byte dc w q.
Proof.
  intros [C [Ln Li Ls Lo Lb Lc]] Ha Hcb Ho Hl dc'. pose proof (co_geometry _ C) as G.
  destruct (co_block _ C _ a Ha) as (cb' & Hcb' & Ef & Hlen & Hu). rewrite Hcb in Hcb'. injection Hcb' as <-.
  split_and!; [|done|].
  - split.
    + split; [by apply (same_cache_geometry dc)|]. intros i a' Hi. unfold dc' in *. cbn in Hi |- *. destruct (decide (a' = a)) as [->|].
      * rewrite lookup_insert_eq. eexists. split; [done|]. assert (i = u * dc_blocks_per_io dc) as -> by (by apply (coherent_inj dc _ _ a)).
        split_and!; [done|cbn; by rewrite splice_length by lia|]. destruct Hu as (w & ? & ? & _). exists w. by split_and!.
      * rewrite lookup_insert_ne by done. by apply (co_block _ C).
    + split; cbn; try done.
      * intros x Hx. by apply elem_of_nil in Hx.
      * intros x cb' Hx. destruct (decide (x = a)) as [->|]; [by apply (Lb a cb)|].
        rewrite lookup_insert_ne in Hx by done. by apply (Lb x cb').
  - intros w q Hq. unfold unit_byte, dc'. cbn. change (dc_start (put_block _ _ _)) with (dc_start dc).
    destruct (decide (w = u)) as [->|Hne].
    + rewrite Ha, lookup_insert_eq, Hcb. cbn.
      rewrite !list_lookup_total_alt, splice_lookup by lia. rewrite Z2Nat.id by lia. case_decide as E1.
      * rewrite decide_True by (split; [done|unfold in_span; lia]). do 2 f_equal. lia.
      * rewrite decide_False by (intros [_ E2]; unfold in_span in E2; lia). done.
    + rewrite decide_False by tauto. destruct (dc_index dc !! (w * dc_blocks_per_io dc)) as [a'|] eqn:Ea; [|done].
      rewrite lookup_insert_ne; [done|]. intros <-. apply Hne. apply (unit_index_inj dc); [done|]. by apply (coherent_inj dc _ _ a).
Qed.

(** The same cache, whose blocks may differ at [P] only. *)
Definition dc_changes (dc dc' : disk_cache) (P : Z -> Z -> Prop) : Prop :=
  dc_fs_block dc' = dc_fs_block dc /\ (forall b, dc_valid dc' b <-> dc_valid dc b) /\
  forall b i, dc_valid dc b -> 0 <= i < dc_fs_block dc -> ~ P b i -> dc_byte dc' b i = dc_byte dc b i.

Lemma same_cache_block dc dc' b i :
  same_cache dc dc' -> unit_of dc' b = unit_of dc b /\ in_unit dc' b i = in_unit dc b i /\ (dc_valid dc' b <-> dc_valid dc b).
Proof.
  intros S. pose proof (fun u => same_cache_valid dc dc' u S) as V. destruct S as (E1 & E2 & E3 & E4 & E5 & E6).
  assert (Eu : unit_of dc' b = unit_of dc b) by (unfold unit_of; by rewrite E5).
  unfold dc_valid, in_unit. rewrite Eu, V, E4, E5. done.
Qed.

(** Two blocks have a byte in common only if they are the same. *)
Lemma in_unit_inj dc b b' i i' :
  geometry dc -> 0 <= i < dc_fs_block dc -> 0 <= i' < dc_fs_block dc ->
  unit_of dc b = unit_of dc b' -> in_unit dc b i = in_unit dc b' i' -> b = b' /\ i = i'.
Proof.
  intros G Hi Hi' Eu. rewrite !in_unit_eq, Eu by done. pose proof (g_block _ G). intros E.
  assert (b * dc_fs_block dc + i = b' * dc_fs_block dc + i') as E' by lia.
  assert (b = b') as -> by (destruct (Z.lt_trichotomy b b') as [?|[?|?]]; [nia|done|nia]). split; [done|lia].
Qed.

Lemma same_bytes_changes dc dc' P :
  geometry dc -> same_cache dc dc' -> same_bytes dc dc' -> dc_changes dc dc' P.
Proof.
  intros G S B. assert (G' := same_cache_geometry dc dc' S G). split_and!; [by destruct S as (_ & _ & _ & ? & _)| |].
  - intros b. by apply (same_cache_block dc dc' b 0).
  - intros b i Hb Hi _. rewrite !dc_byte_unit by done. destruct (same_cache_block dc dc' b i S) as (-> & -> & _).
    apply B; [apply Hb|]. pose proof (in_unit_bounds dc b i 1 G). lia.
Qed.

Lemma dc_read_law b off n a m dc :
  dc_inv dc -> dc_valid dc b -> 0 <= off -> 0 <= n -> off + n <= dc_fs_block dc ->
  exists dc' m', dc_read_one b off n a m dc =
      Ok (dc', m', if decide (accessible m a (Z.to_nat n)) then NO_ERROR else MEMORY_ACCESS_VIOLATION) /\
    dc_inv dc' /\ dc_changes dc dc' (fun _ _ => False) /\ changes_within m m' a (a + n) /\
    (accessible m a (Z.to_nat n) -> forall i, in_span off n i -> m' !! (a + (i - off)) = Some (dc_byte dc b i)).
Proof.
  intros I Hv Ho Hn Hle. pose proof (co_geometry _ (proj1 I)) as G. pose proof (io_pos dc G) as Hio.
  assert (Hbs : dc_fs_block dc < W64).
  { pose proof (valid_block_fits dc G b Hv). pose proof (g_bytes _ G). destruct Hv. nia. }
  unfold dc_read_one. rewrite (wrap64_small (off + n)) by (unfold is_u64; lia). destruct (_ <=? _) eqn:E; bool_to_prop; [|lia]. run.
  destruct (dc_io_size dc =? 0) eqn:E0; bool_to_prop; [lia|].
  destruct (find_cached_block_Ok dc b I Hv) as (dc' & x & cb & -> & I' & S & B & Hx & Hcb & _). run. rewrite Hcb, in_unit_add.
  destruct (in_unit_bounds dc b off n G Ho Hn Hle) as [Hq0 Hq1]. pose proof (proj1 (proj2 S)) as Eio.
  assert (Hper : dc_blocks_per_io dc' = dc_blocks_per_io dc) by apply S.
  assert (Hlen : length (slice (in_unit dc b off) n (cb_data cb)) = Z.to_nat n).
  { destruct (co_block _ (proj1 I') _ x Hx) as (cb' & Hcb' & _ & Hlen & _). rewrite Hcb in Hcb'. injection Hcb' as <-.
    assert (Z.of_nat (length (slice (in_unit dc b off) n (cb_data cb))) = n) by (apply slice_length; lia). lia. }
  destruct (copy_to_user_spec m a (slice (in_unit dc b off) n (cb_data cb))) as (m' & -> & Hm & Hst). rewrite Hlen in *.
  rewrite Z2Nat.id in Hm by done. exists dc', m'. split_and!; try done.
  - do 2 f_equal. by case_bool_decide; case_decide.
  - by apply same_bytes_changes.
  - intros Ha i Hi. unfold in_span in Hi. rewrite dc_byte_unit by done.
    assert (Ei : in_unit dc b i = in_unit dc b off + (i - off)) by (unfold in_unit; lia).
    rewrite <- (B _ _ (proj2 Hv)) by lia. rewrite (unit_byte_cached dc' _ _ x cb) by (rewrite ?Hper; done).
    specialize (Hst Ha (Z.to_nat (i - off)) (cb_data cb !!! Z.to_nat (in_unit dc b i))). rewrite Z2Nat.id in Hst by lia. apply Hst.
    rewrite slice_lookup by lia. rewrite Z2Nat.id by lia. rewrite <- Ei. eapply (cached_data_lookup dc' _ x); [apply I'|done|done|lia].
Qed.

(** The new bytes of one block. *)
Lemma put_changes dc dc1 dc2 b off l :
  geometry dc -> dc_valid dc b -> 0 <= off -> off + Z.of_nat (length l) <= dc_fs_block dc ->
  same_cache dc dc1 -> same_bytes dc dc1 -> same_cache dc1 dc2 ->
  (forall w q, 0 <= q < dc_io_size dc1 -> unit_byte dc2 w q =
     if decide (w = unit_of dc b /\ in_span (in_unit dc b off) (Z.of_nat (length l)) q) then l !!! Z.to_nat (q - in_unit dc b off)
     else unit_byte dc1 w q) ->
  dc_changes dc dc2 (fun b' i => b' = b /\ in_span off (Z.of_nat (length l)) i) /\
  forall i, in_span off (Z.of_nat (length l)) i -> dc_byte dc2 b i = l !!! Z.to_nat (i - off).
Proof.
  intros G Hv Ho Hl S1 B1 S2 H. assert (S := same_cache_trans _ _ _ S1 S2). assert (G2 := same_cache_geometry dc dc2 S G).
  assert (Eio : dc_io_size dc1 = dc_io_size dc) by apply S1. split; [split_and!|].
  - by destruct S as (_ & _ & _ & ? & _).
  - intros b'. by apply (same_cache_block dc dc2 b' 0).
  - intros b' i Hb' Hi Hn. rewrite !dc_byte_unit by done. destruct (same_cache_block dc dc2 b' i S) as (-> & -> & _).
    pose proof (in_unit_bounds dc b' i 1 G ltac:(lia) ltac:(lia) ltac:(lia)). rewrite H by lia. rewrite decide_False.
    { apply B1; [apply Hb'|lia]. }
    intros [Eu Hspan]. unfold in_span in Hspan. apply Hn.
    set (j := off + (in_unit dc b' i - in_unit dc b off)).
    assert (Ej : in_unit dc b j = in_unit dc b' i) by (unfold j, in_unit; lia).
    destruct (in_unit_inj dc b' b i j G Hi) as [Eb Eij]; [unfold j; lia|done|done|]. split; [done|]. rewrite Eij. unfold in_span, j. lia.
  - intros i Hi. unfold in_span in Hi. rewrite dc_byte_unit by done. destruct (same_cache_block dc dc2 b i S) as (-> & -> & _).
    pose proof (in_unit_bounds dc b i 1 G ltac:(lia) ltac:(lia) ltac:(lia)).
    assert (Ei : in_unit dc b i = in_unit dc b off + (i - off)) by (unfold in_unit; lia).
    rewrite H by lia. rewrite decide_True by (split; [done|unfold in_span; lia]). f_equal. lia.
Qed.

Lemma dc_write_law b off n a m dc :
  dc_inv dc -> dc_valid dc b -> 0 <= off -> 0 <= n -> off + n <= dc_fs_block dc ->
  exists dc', dc_write_one b off n a m dc =
      Ok (dc', m, if decide (accessible m a (Z.to_nat n)) then NO_ERROR else MEMORY_ACCESS_VIOLATION) /\
    dc_inv dc' /\ dc_changes dc dc' (fun b' i => b' = b /\ in_span off n i) /\
    (accessible m a (Z.to_nat n) -> forall i, in_span off n i -> m !! (a + (i - off)) = Some (dc_byte dc' b i)).
Proof.
  intros I Hv Ho Hn Hle. pose proof (co_geometry _ (proj1 I)) as G. pose proof (io_pos dc G) as Hio.
  assert (Hbs : dc_fs_block dc < W64).
  { pose proof (valid_block_fits dc G b Hv). pose proof (g_bytes _ G). destruct Hv. nia. }
  unfold dc_write_one. rewrite (wrap64_small (off + n)) by (unfold is_u64; lia). destruct (_ <=? _) eqn:E; bool_to_prop; [|lia]. run.
  destruct (dc_io_size dc =? 0) eqn:E0; bool_to_prop; [lia|].
  destruct (find_cached_block_Ok dc b I Hv) as (dc' & x & cb & -> & I' & S & B & Hx & Hcb & _). run. rewrite Hcb, in_unit_add.
  destruct (in_unit_bounds dc b off n G Ho Hn Hle) as [Hq0 Hq1]. pose proof (proj1 (proj2 S)) as Eio.
  assert (Hper : dc_blocks_per_io dc' = dc_blocks_per_io dc) by apply S. rewrite <- Hper in Hx.
  pose proof (copy_from_user_spec m a (Z.to_nat n)) as Hcopy.
  assert (exists l, copy_from_user m a (Z.to_nat n) = (l, bool_decide (accessible m a (Z.to_nat n))) /\ Z.of_nat (length l) <= n /\
    (accessible m a (Z.to_nat n) -> Z.of_nat (length l) = n /\ stored m a l)) as (l & -> & Hl & Hst).
  { case_decide as Ha; destruct Hcopy as (l & El & Hl); exists l;
      rewrite El; [rewrite bool_decide_true by done|rewrite bool_decide_false by done]; split_and!; try done; try lia. split; [lia|tauto]. }
  destruct (put_block_Ok dc' (unit_of dc b) x cb (in_unit dc b off) l I' Hx Hcb Hq0 ltac:(lia)) as (I2 & S2 & H2).
  destruct (put_changes dc dc' _ b off l G Hv Ho ltac:(lia) S B S2 H2) as [Hch Hnew].
  eexists. split_and!; [|exact I2| |].
  - do 2 f_equal. by case_bool_decide; case_decide.
  - destruct Hch as (? & ? & Hch). split_and!; try done. intros b' i Hb' Hi Hn'. apply Hch; try done. unfold in_span in *. intros [-> ?]. apply Hn'. split; [done|lia].
  - intros Ha i Hi. destruct (Hst Ha) as [Hln Hs]. rewrite Hnew by (by rewrite Hln). unfold in_span in Hi.
    destruct (lookup_lt_is_Some_2 l (Z.to_nat (i - off))) as [v Hv']; [lia|]. rewrite (list_lookup_total_correct _ _ _ Hv').
    apply Hs in Hv'. by rewrite Z2Nat.id in Hv' by lia.
Qed.

Lemma dc_zero_law b dc :
  dc_inv dc -> dc_valid dc b ->
  exists dc', dc_zero_fill_one b dc = Ok dc' /\ dc_inv dc' /\ dc_changes dc dc' (fun b' _ => b' = b) /\
    forall i, 0 <= i < dc_fs_block dc -> dc_byte dc' b i = 0.
Proof.
  intros I Hv. pose proof (co_geometry _ (proj1 I)) as G. pose proof (io_pos dc G) as Hio. pose proof (g_block _ G) as Hblk.
  unfold dc_zero_fill_one. destruct (dc_io_size dc =? 0) eqn:E0; bool_to_prop; [lia|].
  destruct (find_cached_block_Ok dc b I Hv) as (dc' & x & cb & -> & I' & S & B & Hx & Hcb & _). run. rewrite Hcb.
  destruct (in_unit_bounds dc b 0 (dc_fs_block dc) G ltac:(lia) ltac:(lia) ltac:(lia)) as [Hq0 Hq1]. pose proof (proj1 (proj2 S)) as Eio.
  assert (Hper : dc_blocks_per_io dc' = dc_blocks_per_io dc) by apply S. rewrite <- Hper in Hx.
  set (l := repeat 0 (Z.to_nat (dc_fs_block dc))). assert (Hl : Z.of_nat (length l) = dc_fs_block dc) by (unfold l; rewrite repeat_length; lia).
  destruct (put_block_Ok dc' (unit_of dc b) x cb (in_unit dc b 0) l I' Hx Hcb Hq0 ltac:(lia)) as (I2 & S2 & H2).
  destruct (put_changes dc dc' _ b 0 l G Hv ltac:(lia) ltac:(lia) S B S2 H2) as [Hch Hnew].
  eexists. split_and!; [done|exact I2| |].
  - destruct Hch as (? & ? & Hch). split_and!; try done. intros b' i Hb' Hi Hn'. apply Hch; try done. tauto.
  - intros i Hi. rewrite Hnew by (unfold in_span; lia). destruct (lookup_lt_is_Some_2 l (Z.to_nat (i - 0))) as [v Hv']; [lia|].
    rewrite (list_lookup_total_correct _ _ _ Hv'). by apply list_elem_of_lookup_2, list_elem_of_In, repeat_spec in Hv'.
Qed.

#[export] Instance disk_cache_store : BlockStore disk_cache := {|
  bs_inv := dc_inv;
  bs_block_size := dc_fs_block;
  bs_valid := dc_valid;
  bs_byte := dc_byte;
  bs_read := dc_read_one;
  bs_write := dc_write_one;
  bs_zero := dc_zero_fill_one;
  bs_read_law := dc_read_law;
  bs_write_law := dc_write_law;
  bs_zero_law := dc_zero_law |}.
