(* ===== verification/DiskCacheCorrect.v ===== *)
(** What the disk cache guarantees to the file system: it behaves as the partition itself, a flush
    makes the device agree with it, it evicts the least recently used unit, and its buffers
    stay within the region that was allocated for them. *)
From S2P Require Import Prelude Page Range IOStream BlockStore DiskCache.
From stdpp Require Import gmap list_numbers.
#[local] Open Scope Z_scope.

(** ** Construction *)

(** The block sizes of the supported file systems: a power of two below a page, or whole pages. *)
Definition good_block_size (fs_block : Z) : Prop :=
  (exists k, 0 <= k < 12 /\ fs_block = 2 ^ k) \/ page_size <= fs_block.

Definition good_arguments (logical : Z) (r : range) (fs_block capacity : Z) : Prop :=
  good_block_size fs_block /\ wf_range r /\ (r_end r - r_begin r) * logical < W64 /\
  0 < capacity /\ capacity * fs_block < W64.

Lemma make_cache_Ok d logical r fs_block capacity dc :
  make_cache d false logical r fs_block capacity = Ok dc -> good_arguments logical r fs_block capacity ->
  dc_inv dc /\ dc_fs_block dc = fs_block /\ dc_cached dc = [] /\ dc_capacity dc * dc_io_size dc <= capacity * fs_block /\
  (forall b i, dc_byte dc b i = d (r_begin r * logical + (b * fs_block + i))).
Proof.
  unfold make_cache. intros E (Hblk & Hr & Hbytes & Hcap & Hroom). inv_ok. rename v1 into io. unfold good_block_size, page_size in *.
  assert (Hio : exists k, 0 <= k <= 63 /\ io = 2 ^ k * fs_block /\ 0 < fs_block /\ io mod 4096 = 0).
  { destruct (fs_block >=? 4096) eqn:Eb; inv_ok; bool_to_prop.
    - exists 0. change (2 ^ 0) with 1. split_and!; try lia; done.
    - destruct Hblk as [(k & Hk & ->)|?]; [|lia]. exists (12 - k). rewrite <- Z.pow_add_r by lia.
      replace (12 - k + k) with 12 by lia. split_and!; [lia..|done|lia|done]. }
  destruct Hio as (k & Hk & -> & Hfs & Hpage). rewrite Z.div_mul in * by lia.
  assert (Hp : 0 < 2 ^ k) by lia. bool_to_prop.
  assert (Hle : capacity / 2 ^ k * (2 ^ k * fs_block) <= capacity * fs_block).
  { pose proof (Z.mul_div_le capacity (2 ^ k) Hp). nia. }
  assert (0 < capacity / 2 ^ k) by (pose proof (Z.div_pos capacity (2 ^ k)); lia).
  split_and!; try done.
  - split.
    + split; [|done]. split; cbn; try done; try lia. by exists k.
    + split; cbn; try done; try lia; [constructor| |intros a Ha; by apply elem_of_nil in Ha].
      intros a. rewrite elem_of_nil. split; [done|]. intros [i Hi]. by rewrite lookup_empty in Hi.
Qed.

(** ** Flushing *)

Lemma flush_inv dc i a :
  dc_inv dc -> dc_index dc !! i = Some a ->
  exists dc' cb, flush_block a dc = Ok dc' /\ dc_inv dc' /\ same_cache dc dc' /\ same_bytes dc dc' /\
    dc_cached dc' = dc_cached dc /\ dc_index dc' = dc_index dc /\
    dc_blocks dc' = <[ a := cb ]> (dc_blocks dc) /\ cb_dirty cb = false.
Proof.
  intros [C [Ln Li Ls Lo Lb Lc]] Hi.
  destruct (flush_block_Ok dc i a C Hi) as (dc' & cb & E & C' & S & B & E1 & E2 & E3 & E4 & Hd & Hf).
  exists dc', cb. split_and!; try done. split; [done|]. destruct (co_block _ C i a Hi) as (cb0 & Hcb0 & _).
  split; rewrite ?E1, ?E2, ?E3; try done.
  - intros x Hx. by apply elem_of_nil in Hx.
  - by rewrite (proj1 (proj2 S)).
  - rewrite (proj1 (proj2 S)), E4. intros x cb' Hx. destruct (decide (x = a)) as [->|]; [by apply (Lb a cb0)|].
    rewrite lookup_insert_ne in Hx by done. by apply (Lb x cb').
  - by destruct S as (_ & _ & _ & _ & _ & ->).
Qed.

Definition clean_in (dc : disk_cache) (a : Z) : Prop :=
  exists cb, dc_blocks dc !! a = Some cb /\ cb_dirty cb = false.

Lemma flush_loop_Ok l dc :
  dc_inv dc -> (forall a, a ∈ l -> a ∈ dc_cached dc) ->
  exists dc', flush_loop l dc = Ok dc' /\ dc_inv dc' /\ same_cache dc dc' /\ same_bytes dc dc' /\
    dc_cached dc' = dc_cached dc /\ dc_index dc' = dc_index dc /\
    (forall a, a ∈ l \/ clean_in dc a -> clean_in dc' a).
Proof.
  revert dc. induction l as [|a l IH]; intros dc I Hl; cbn [flush_loop].
  - exists dc. split_and!; try done. intros a [?%elem_of_nil|?]; done.
  - assert (Ha : a ∈ dc_cached dc) by (apply Hl; by left). apply (ls_index _ _ (proj2 I)) in Ha as [i Hi].
    destruct (flush_inv dc i a I Hi) as (dc1 & cb & -> & I1 & S1 & B1 & E1 & E2 & E3 & Hd). run.
    destruct (IH dc1 I1) as (dc2 & -> & I2 & S2 & B2 & E4 & E5 & Hc); [intros x Hx; rewrite E1; apply Hl; by right|].
    exists dc2. split_and!; try done; [by apply (same_cache_trans dc dc1)|by apply (same_bytes_trans dc dc1)|congruence|congruence|].
    intros x Hx. apply Hc. destruct (decide (x = a)) as [->|Hne].
    + right. exists cb. by rewrite E3, lookup_insert_eq.
    + destruct Hx as [[?|?]%elem_of_cons|(cb' & ? & ?)]; [done|by left|]. right. exists cb'. by rewrite E3, lookup_insert_ne.
Qed.

Lemma flush_all_Ok dc :
  dc_inv dc ->
  exists dc', dc_flush_all dc = Ok dc' /\ dc_inv dc' /\ same_cache dc dc' /\ same_bytes dc dc' /\
    forall a i, dc_index dc' !! i = Some a -> clean_in dc' a.
Proof.
  intros I. pose proof (io_pos dc (co_geometry _ (proj1 I))). unfold dc_flush_all. destruct (_ =? 0) eqn:E; bool_to_prop; [lia|].
  destruct (flush_loop_Ok (dc_cached dc) dc I) as (dc' & -> & I' & S & B & _ & E2 & Hc); [done|].
  exists dc'. split_and!; try done. intros a i Hi. apply Hc. left. apply (ls_index _ _ (proj2 I)). exists i. by rewrite <- E2.
Qed.

Lemma flush_specific_Ok b dc :
  dc_inv dc -> dc_valid dc b ->
  exists dc', dc_flush_specific b dc = Ok dc' /\ dc_inv dc' /\ same_cache dc dc' /\ same_bytes dc dc'.
Proof.
  intros I Hv. pose proof (io_pos dc (co_geometry _ (proj1 I))). unfold dc_flush_specific. destruct (_ =? 0) eqn:E; bool_to_prop; [lia|].
  destruct (dc_index dc !! block_index_to_cached_index dc b) as [a|] eqn:Ea; [|by exists dc].
  destruct (flush_inv dc _ a I Ea) as (dc' & cb & -> & I' & S & B & _). by exists dc'.
Qed.

(** A clean cache says what the device says. *)
Lemma clean_unit_byte dc u q :
  dc_inv dc -> valid_unit dc u -> 0 <= q < dc_io_size dc ->
  (forall a i, dc_index dc !! i = Some a -> clean_in dc a) ->
  unit_byte dc u q = dc_device dc (dc_start dc + u * dc_io_size dc + q).
Proof.
  intros [C _] Hu Hq Hclean. unfold unit_byte. destruct (dc_index dc !! (u * dc_blocks_per_io dc)) as [a|] eqn:Ea; [|done].
  destruct (Hclean a _ Ea) as (cb & Hcb & Hd). destruct (co_block _ C _ a Ea) as (cb' & Hcb' & _ & Hlen & w & Ew & Hw & Hdata).
  rewrite Hcb in Hcb'. injection Hcb' as <-. rewrite Hcb. apply unit_index_inj in Ew as <-; [|apply C]. rewrite Hdata by done.
  erewrite list_lookup_total_correct; [done|]. rewrite device_read_lookup by lia. by rewrite Z2Nat.id by lia.
Qed.

(** ** The partition as the reference *)

Inductive dc_op :=
  | Read_one (b off n a : Z) (m : umem)
  | Write_one (b off n a : Z) (m : umem)
  | Zero_fill (b : Z)
  | Flush_all
  | Flush_specific (b : Z).

(** One operation of the cache, with the bytes it delivers. *)
Definition dc_perform (op : dc_op) (dc : disk_cache) : result (disk_cache * list (option Z)) :=
  match op with
  | Read_one b off n a m => '(dc, m, _) ← dc_read_one b off n a m dc; Ok (dc, (fun x => m !! x) <$> seqZ a n)
  | Write_one b off n a m => '(dc, _, _) ← dc_write_one b off n a m dc; Ok (dc, [])
  | Zero_fill b => dc ← dc_zero_fill_one b dc; Ok (dc, [])
  | Flush_all => dc ← dc_flush_all dc; Ok (dc, [])
  | Flush_specific b => dc ← dc_flush_specific b dc; Ok (dc, [])
  end.
Fixpoint dc_run (ops : list dc_op) (dc : disk_cache) : result (disk_cache * list (list (option Z))) :=
  match ops with
  | [] => Ok (dc, [])
  | op :: ops => '(dc, out) ← dc_perform op dc; '(dc, outs) ← dc_run ops dc; Ok (dc, out :: outs)
  end.

(** The same on an array of blocks. *)
Abbreviation partition := (Z -> Z -> Z).
Definition ref_perform (op : dc_op) (f : partition) : partition * list (option Z) :=
  match op with
  | Read_one b off n a m => (f, (fun i => Some (f b i)) <$> seqZ off n)
  | Write_one b off n a m =>
      (fun b' i => if decide (b' = b /\ in_span off n i) then default 0 (m !! (a + (i - off))) else f b' i, [])
  | Zero_fill b => (fun b' i => if decide (b' = b) then 0 else f b' i, [])
  | Flush_all | Flush_specific _ => (f, [])
  end.
Fixpoint ref_run (ops : list dc_op) (f : partition) : partition * list (list (option Z)) :=
  match ops with
  | [] => (f, [])
  | op :: ops => let '(f, out) := ref_perform op f in let '(f, outs) := ref_run ops f in (f, out :: outs)
  end.

(** The block exists, and the caller's buffer is accessible. *)
Definition dc_allowed (dc : disk_cache) (op : dc_op) : Prop :=
  match op with
  | Read_one b off n a m | Write_one b off n a m =>
      dc_valid dc b /\ 0 <= off /\ 0 <= n /\ off + n <= dc_fs_block dc /\ accessible m a (Z.to_nat n)
  | Zero_fill b | Flush_specific b => dc_valid dc b
  | Flush_all => True
  end.

Definition simulates (dc : disk_cache) (f : partition) : Prop :=
  dc_inv dc /\ forall b i, dc_valid dc b -> 0 <= i < dc_fs_block dc -> dc_byte dc b i = f b i.

Lemma simulates_changes dc dc' f f' P :
  simulates dc f -> dc_inv dc' -> dc_changes dc dc' P ->
  (forall b i, dc_valid dc b -> 0 <= i < dc_fs_block dc -> ~ P b i -> f' b i = f b i) ->
  (forall b i, dc_valid dc b -> 0 <= i < dc_fs_block dc -> P b i -> dc_byte dc' b i = f' b i) ->
  (forall b i, Decision (P b i)) -> simulates dc' f' /\ forall op, dc_allowed dc' op <-> dc_allowed dc op.
Proof.
  intros [I Hf] I' (Eb & Ev & Hch) H1 H2 Hdec. split.
  - split; [done|]. rewrite Eb. intros b i Hb%Ev Hi. destruct (Hdec b i); [by apply H2|]. by rewrite Hch, Hf, H1.
  - intros []; unfold dc_allowed; rewrite ?Eb, ?Ev; done.
Qed.

Lemma dc_perform_Ok op dc f :
  simulates dc f -> dc_allowed dc op ->
  exists dc', dc_perform op dc = Ok (dc', (ref_perform op f).2) /\ simulates dc' (ref_perform op f).1 /\
    forall op', dc_allowed dc' op' <-> dc_allowed dc op'.
Proof.
  intros Sim Ha. pose proof Sim as [I Hf]. pose proof (co_geometry _ (proj1 I)) as G.
  assert (Hflush : forall dc', dc_inv dc' -> same_cache dc dc' -> same_bytes dc dc' ->
    simulates dc' f /\ forall op', dc_allowed dc' op' <-> dc_allowed dc op').
  { intros dc' I' S B. apply (simulates_changes dc dc' f f (fun _ _ => False)); try done; [by apply same_bytes_changes|].
    intros b i. apply _. }
  destruct op as [b off n a m|b off n a m|b| |b]; cbn [dc_perform ref_perform fst snd].
  - destruct Ha as (Hv & Ho & Hn & Hle & Hacc).
    destruct (dc_read_law b off n a m dc I Hv Ho Hn Hle) as (dc' & m' & -> & I' & Hch & _ & Hr). run. exists dc'.
    assert (Hout : (fun x => m' !! x) <$> seqZ a n = (fun i => Some (f b i)) <$> seqZ off n).
    { apply list_eq. intros j. rewrite !list_lookup_fmap. destruct (decide (Z.of_nat j < n)).
      - rewrite !lookup_seqZ_lt by done. cbn. f_equal. specialize (Hr Hacc (off + Z.of_nat j) ltac:(unfold in_span; lia)).
        replace (a + (off + Z.of_nat j - off)) with (a + Z.of_nat j) in Hr by lia. rewrite Hr. f_equal. apply Hf; [done|lia].
      - by rewrite !lookup_seqZ_ge by lia. }
    rewrite Hout. split; [done|]. apply (simulates_changes dc dc' f f (fun _ _ => False)); try done. intros ? ?. apply _.
  - destruct Ha as (Hv & Ho & Hn & Hle & Hacc).
    destruct (dc_write_law b off n a m dc I Hv Ho Hn Hle) as (dc' & -> & I' & Hch & Hw). run. exists dc'. split; [done|].
    apply (simulates_changes dc dc' f _ (fun b' i => b' = b /\ in_span off n i)); try done; [| |intros; apply _].
    + intros b' i _ _ Hn'. by rewrite decide_False.
    + intros b' i _ _ Hp. rewrite decide_True by done. destruct Hp as [-> Hi]. by rewrite (Hw Hacc i Hi).
  - destruct (dc_zero_law b dc I Ha) as (dc' & -> & I' & Hch & Hz). run. exists dc'. split; [done|].
    apply (simulates_changes dc dc' f _ (fun b' _ => b' = b)); try done; [| |intros; apply _].
    + intros b' i _ _ Hn'. by rewrite decide_False.
    + intros b' i _ Hi ->. rewrite decide_True by done. by apply Hz.
  - destruct (flush_all_Ok dc I) as (dc' & -> & I' & S & B & _). run. exists dc'. split; [done|]. by apply Hflush.
  - destruct (flush_specific_Ok b dc I Ha) as (dc' & -> & I' & S & B). run. exists dc'. split; [done|]. by apply Hflush.
Qed.

Lemma dc_run_Ok ops dc f :
  simulates dc f -> Forall (dc_allowed dc) ops ->
  exists dc', dc_run ops dc = Ok (dc', (ref_run ops f).2) /\ simulates dc' (ref_run ops f).1.
Proof.
  revert dc f. induction ops as [|op ops IH]; intros dc f Sim Ha; cbn [dc_run ref_run]; [by exists dc|].
  apply Forall_cons in Ha as [Hop Hops]. destruct (dc_perform_Ok op dc f Sim Hop) as (dc1 & -> & Sim1 & Hsame). run.
  destruct (ref_perform op f) as [f1 out]. cbn [fst snd] in *.
  destruct (IH dc1 f1 Sim1) as (dc2 & -> & Sim2); [by eapply Forall_impl; [done|]; intros; apply Hsame|]. run.
  destruct (ref_run ops f1) as [f2 outs]. by exists dc2.
Qed.

(** The operations leave the sizes alone, whatever they do. *)
Lemma flush_block_same a dc dc' : flush_block a dc = Ok dc' -> same_cache dc dc'.
Proof. unfold flush_block. intros E. repeat case_match; inv_ok; done. Qed.

Lemma flush_loop_same l dc dc' : flush_loop l dc = Ok dc' -> same_cache dc dc'.
Proof.
  revert dc. induction l as [|a l IH]; cbn; intros dc E; [by inv_ok|]. inv_ok.
  eapply same_cache_trans; [by eapply flush_block_same|by apply IH].
Qed.

Lemma evict_one_same dc dc' a : evict_one dc = Ok (dc', a) -> same_cache dc dc'.
Proof.
  unfold evict_one. intros E. case_match; [|done]. inv_ok. apply flush_block_same in E0.
  case_match; [|done]. inv_ok. exact E0.
Qed.

Lemma find_cached_block_same b dc dc' a off : find_cached_block b dc = Ok (dc', a, off) -> same_cache dc dc'.
Proof.
  unfold find_cached_block. intros E. case_match; [by inv_ok|]. apply bind_Ok in E as ([dc1 a1] & E1 & E).
  assert (S : same_cache dc dc1) by (destruct (Z.of_nat (length (dc_cached dc)) =? dc_capacity dc); [by eapply evict_one_same|unfold allocate_next_block_buffer in E1; by inv_ok]).
  inv_ok. case_match; [|done]. inv_ok. exact S.
Qed.

Lemma dc_perform_same op dc dc' out : dc_perform op dc = Ok (dc', out) -> same_cache dc dc'.
Proof.
  destruct op; cbn [dc_perform]; intros E.
  - apply bind_Ok in E as ([[dc1 m1] e1] & E1 & E). inv_ok. unfold dc_read_one in E1. inv_ok. case_match; [case_match; by inv_ok|].
    apply bind_Ok in E1 as ([[dc2 a2] off2] & E2 & E1). case_match; [|done]. case_match. inv_ok. by eapply find_cached_block_same.
  - apply bind_Ok in E as ([[dc1 m1] e1] & E1 & E). inv_ok. unfold dc_write_one in E1. inv_ok. case_match; [case_match; by inv_ok|].
    apply bind_Ok in E1 as ([[dc2 a2] off2] & E2 & E1). case_match; [|done]. case_match. inv_ok. exact (find_cached_block_same _ _ _ _ _ E2).
  - apply bind_Ok in E as (dc1 & E1 & E). inv_ok. unfold dc_zero_fill_one in E1. case_match; [by inv_ok|].
    apply bind_Ok in E1 as ([[dc2 a2] off2] & E2 & E1). case_match; [|done]. inv_ok. exact (find_cached_block_same _ _ _ _ _ E2).
  - apply bind_Ok in E as (dc1 & E1 & E). inv_ok. unfold dc_flush_all in E1. case_match; [by inv_ok|]. by eapply flush_loop_same.
  - apply bind_Ok in E as (dc1 & E1 & E). inv_ok. unfold dc_flush_specific in E1. case_match; [by inv_ok|].
    case_match; [|by inv_ok]. by eapply flush_block_same.
Qed.

Lemma dc_run_same ops dc dc' outs : dc_run ops dc = Ok (dc', outs) -> same_cache dc dc'.
Proof.
  revert dc outs. induction ops as [|op ops IH]; cbn; intros dc outs E; [by inv_ok|].
  apply bind_Ok in E as ([dc1 out1] & E1 & E). apply bind_Ok in E as ([dc2 out2] & E2 & E). inv_ok.
  eapply same_cache_trans; [by eapply dc_perform_same|by eapply IH].
Qed.

(** ** What the cache guarantees *)

(** C4: the cache is indistinguishable from the partition: whatever sequence of reads, writes, zero
    fills and flushes the file system makes, on blocks that lie in whole units of transfer of the
    partition, on a new cache of a device that is not a RAM disk (for those a write reads, as the
    example [ramdisk_write_reads] shows), each operation returns, every read
    delivers what a plain array of blocks with the initial contents of the device would, and
    afterwards the cache still stands for the contents of that array. *)
Theorem disk_cache_refines d logical r fs_block capacity dc ops :
  make_cache d false logical r fs_block capacity = Ok dc -> good_arguments logical r fs_block capacity ->
  Forall (dc_allowed dc) ops ->
  let f b i := d (r_begin r * logical + (b * fs_block + i)) in
  exists dc', dc_run ops dc = Ok (dc', (ref_run ops f).2) /\
    forall b i, dc_valid dc' b -> 0 <= i < dc_fs_block dc' -> dc_byte dc' b i = (ref_run ops f).1 b i.
Proof.
  intros E Hg Ha f. destruct (make_cache_Ok _ _ _ _ _ _ E Hg) as (I & _ & _ & _ & Hf).
  destruct (dc_run_Ok ops dc f) as (dc' & E' & [_ Hsim]); [by split|done|]. by exists dc'.
Qed.

(** After [flush_all] the device holds every byte that was written through the cache, and the
    users of the cache see no difference. *)
Theorem flush_all_durable dc :
  dc_inv dc ->
  exists dc', dc_flush_all dc = Ok dc' /\ dc_inv dc' /\
    forall b i, dc_valid dc b -> 0 <= i < dc_fs_block dc ->
      dc_byte dc' b i = dc_byte dc b i /\
      dc_device dc' (dc_start dc + (b * dc_fs_block dc + i)) = dc_byte dc b i.
Proof.
  intros I. pose proof (co_geometry _ (proj1 I)) as G. destruct (flush_all_Ok dc I) as (dc' & E & I' & S & B & Hc).
  exists dc'. split_and!; try done. intros b i Hv Hi.
  destruct (same_bytes_changes dc dc' (fun _ _ => False) G S B) as (_ & _ & Hch). rewrite (Hch b i) by (done || tauto). split; [done|].
  rewrite dc_byte_unit by done. pose proof (in_unit_bounds dc b i 1 G ltac:(lia) ltac:(lia) ltac:(lia)).
  assert (Hu : valid_unit dc' (unit_of dc b)) by (apply (same_cache_valid dc dc'); [done|apply Hv]).
  rewrite <- (B _ _ (proj2 Hv)) by lia. rewrite (clean_unit_byte dc' _ _ I' Hu); [|by rewrite (proj1 (proj2 S)); lia|done].
  f_equal. rewrite in_unit_eq by done. unfold dc_start. destruct S as (-> & -> & -> & _). lia.
Qed.

(** Looking a block up is an access to a least-recently-used list of the capacity of the
    cache: the unit of the block moves to the front, and when it is not cached and the cache
    is full, the unit at the back, and no other, is given up. *)
Theorem find_cached_block_lru dc b :
  dc_inv dc -> dc_valid dc b ->
  exists dc' a off, find_cached_block b dc = Ok (dc', a, off) /\ dc_inv dc' /\
    cached_units dc' = lru_access (dc_capacity dc) (unit_of dc b * dc_blocks_per_io dc) (cached_units dc).
Proof.
  intros I Hv. destruct (find_cached_block_Ok dc b I Hv) as (dc' & a & cb & E & I' & _ & _ & _ & _ & Hl).
  exists dc', a, (in_unit dc b 0). by split_and!.
Qed.

(** The cache stays within its memory: after any operations on a new cache there are at most
    [m_capacity] cached units, each buffer lies in the region of [fs_block * capacity] bytes that
    the constructor allocated, and two buffers do not overlap. *)
Theorem disk_cache_bounds d logical r fs_block capacity dc ops dc' outs :
  make_cache d false logical r fs_block capacity = Ok dc -> good_arguments logical r fs_block capacity ->
  Forall (dc_allowed dc) ops -> dc_run ops dc = Ok (dc', outs) ->
  Z.of_nat (length (dc_cached dc')) <= dc_capacity dc' /\
  (forall a, a ∈ dc_cached dc' -> 0 <= a /\ a + dc_io_size dc' <= fs_block * capacity) /\
  (forall a a', a ∈ dc_cached dc' -> a' ∈ dc_cached dc' -> a < a' -> a + dc_io_size dc' <= a') /\
  NoDup (dc_cached dc').
Proof.
  intros E Hg Ha Er. destruct (make_cache_Ok _ _ _ _ _ _ E Hg) as (I & _ & _ & Hregion & Hf).
  destruct (dc_run_Ok ops dc _ (conj I (fun b i _ _ => Hf b i)) Ha) as (dc2 & E2 & [[C L] _]).
  assert (S := dc_run_same _ _ _ _ Er). rewrite Er in E2. injection E2 as <- _. pose proof L as [Ln Li _ Lo Lb Lc]. rewrite app_nil_r in *.
  pose proof (io_pos dc' (co_geometry _ C)) as Hio. destruct S as (_ & Eio & _ & _ & _ & Ecap).
  assert (Hin : forall a, a ∈ dc_cached dc' -> 0 <= a /\ a + dc_io_size dc' <= dc_offset dc' /\ (dc_io_size dc' | a)).
  { intros a [i Hi]%Li. destruct (co_block _ C i a Hi) as (cb & Hcb & _). by apply (Lb a cb). }
  split_and!; [done| | |done].
  - intros a Hin'. destruct (Hin a Hin') as (? & ? & _). split; [done|]. rewrite Ecap in Lc. rewrite Eio in *.
    assert (dc_io_size dc * Z.of_nat (length (dc_cached dc')) <= dc_io_size dc * dc_capacity dc) by (apply Z.mul_le_mono_nonneg_l; lia). lia.
  - intros a a' Ha1 Ha2 Hlt. destruct (Hin a Ha1) as (_ & _ & [j ->]), (Hin a' Ha2) as (_ & _ & [j' ->]). assert (j < j') by (apply (Z.mul_lt_mono_pos_r (dc_io_size dc')); lia). nia.
Qed.

(** ** A concrete cache *)

(** A partition of 16 pages at sector 2048 of a device whose byte [x] is [x mod 251], blocks of
    1024 bytes, room for two pages: reading block 1, writing block 5, then reading blocks
    9, 1 and 5 evicts and reloads the pages. *)
Definition example_device : device := fun x => x mod 251.
Definition example_range : range := Range 2048 (2048 + 128).
Definition example_memory : umem := list_to_map ((fun x => (x, x mod 100)) <$> seqZ 0 8).
Definition example_ops : list dc_op :=
  [ Read_one 1 0 4 0 example_memory; Write_one 5 1020 4 2 example_memory; Read_one 9 0 4 0 example_memory;
    Zero_fill 1; Read_one 1 0 4 0 example_memory; Read_one 5 1018 6 0 example_memory; Flush_all ].
Definition new_cache : disk_cache :=
  DiskCache example_range 4096 512 1024 4 2 0 ∅ [] ∅ example_device.

Lemma example_made : make_cache example_device false 512 example_range 1024 8 = Ok new_cache.
Proof. reflexivity. Qed.

Lemma example_good : good_arguments 512 example_range 1024 8.
Proof. split_and!; try done. left. by exists 10. Qed.

Lemma example_valid b : 0 <= b < 64 -> dc_valid new_cache b.
Proof. intros Hb. unfold dc_valid, valid_unit, unit_of, dc_bytes. cbn. split; [lia|]. dlia. Qed.

Lemma example_allowed : Forall (dc_allowed new_cache) example_ops.
Proof.
  assert (Hacc : forall a n, 0 <= a -> a + Z.of_nat n <= 8 -> accessible example_memory a n).
  { intros a n Ha Hn i Hi. assert (Hin : a + Z.of_nat i ∈ seqZ 0 8) by (apply elem_of_seqZ; lia).
    apply elem_of_dom. unfold example_memory. rewrite dom_list_to_map_L, <- list_fmap_compose. unfold compose. cbn.
    rewrite list_fmap_id. by apply elem_of_list_to_set. }
  repeat constructor; try (apply example_valid; lia); try (apply Hacc; cbn; lia); cbn; lia.
Qed.

Lemma disk_cache_refines_witness :
  exists dc', dc_run example_ops new_cache =
    Ok (dc', (ref_run example_ops (fun b i => example_device (2048 * 512 + (b * 1024 + i)))).2).
Proof.
  destruct (disk_cache_refines example_device 512 example_range 1024 8 new_cache example_ops example_made example_good example_allowed)
    as (dc' & E & _). by exists dc'.
Defined.

Lemma new_cache_inv : dc_inv new_cache.
Proof. by apply (make_cache_Ok _ _ _ _ _ _ example_made example_good). Qed.

Lemma flush_all_durable_witness : exists dc', dc_flush_all new_cache = Ok dc' /\ dc_inv dc'.
Proof. destruct (flush_all_durable new_cache new_cache_inv) as (dc' & E & I & _). by exists dc'. Defined.

Lemma find_cached_block_lru_witness :
  exists dc' a off, find_cached_block 5 new_cache = Ok (dc', a, off) /\ dc_inv dc' /\ cached_units dc' = [4].
Proof. exact (find_cached_block_lru new_cache 5 new_cache_inv (example_valid 5 ltac:(lia))). Defined.

Lemma disk_cache_bounds_witness :
  exists dc' outs, dc_run example_ops new_cache = Ok (dc', outs) /\ Z.of_nat (length (dc_cached dc')) <= 2.
Proof.
  destruct (dc_run_Ok example_ops new_cache (dc_byte new_cache)) as (dc' & E & _); [by split; [apply new_cache_inv|]|apply example_allowed|].
  set (outs := (ref_run _ _).2) in E.
  exists dc', outs. split; [done|].
  pose proof (disk_cache_bounds example_device 512 example_range 1024 8 new_cache example_ops dc' outs
    example_made example_good example_allowed E) as (H & _).
  assert (Ec : dc_capacity dc' = 2) by (destruct (dc_run_same _ _ _ _ E) as (_ & _ & _ & _ & _ & Ec); exact Ec).
  by rewrite Ec in H.
Defined.

(** Writing to a RAM disk issues a read request: the device is unchanged, and the caller's buffer is
    overwritten with what the device holds. *)
Example ramdisk_write_reads :
  exists dc dc' m', make_cache example_device true 512 example_range 1024 8 = Ok dc /\
    dc_write_one 0 0 4 2 example_memory dc = Ok (dc', m', NO_ERROR) /\
    dc_device dc' = example_device /\ m' !! 3 = Some 1 /\ example_memory !! 3 = Some 3.
Proof. eexists _, _, _. split; [reflexivity|]. split; [vm_compute; reflexivity|]. split_and!; [done|vm_compute; reflexivity..]. Qed.
