(* ===== verification/FatTable.v ===== *)
(** The file allocation table of FAT32 (FileSystem/FAT32/FAT32.cpp): reading, linking, allocating and
    freeing chains of clusters, over the interface of the block cache. *)
From S2P Require Import Prelude IOStream BlockStore.
From stdpp Require Import gmap list_numbers.
#[local] Open Scope Z_scope.

(** ** The code *)

(** [Kernel/FileSystem/FAT32/FAT32.h:262-265] the cluster numbers with a meaning *)
Definition free_cluster : Z := 0.
Definition bad_cluster : Z := 0x0FFFFFF7.
Definition end_of_chain_min_cluster : Z := 0x0FFFFFF8.
Definition reserved_cluster_count : Z := 2.

(** [Kernel/FileSystem/FAT32/FAT32.h:250-256] FAT32::FATEntryType *)
Inductive fat_entry_type := FREE | RESERVED | BAD | END_OF_CHAIN | LINK.
#[export] Instance fat_entry_type_eq_dec : EqDecision fat_entry_type.
Proof. solve_decision. Defined.

(** [Kernel/FileSystem/FAT32/FAT32.h:234-237] FAT32::FreeMode *)
Inductive chain_free_mode := KEEP_FIRST | INCLUDING_FIRST.

(** [Kernel/FileSystem/FAT32/FAT32.h:269-276] the counters and the caches of FAT32 *)
Record volume (F D : Type) := Volume {
  m_last_free_cluster : Z;
  m_free_clusters : Z;
  m_cluster_count : Z;
  m_bytes_per_cluster : Z;
  m_end_of_chain : Z;
  m_fat_cache : F;
  m_data_cache : D }.
Arguments Volume {F D} _ _ _ _ _ _ _.
Arguments m_last_free_cluster {F D} _.
Arguments m_free_clusters {F D} _.
Arguments m_cluster_count {F D} _.
Arguments m_bytes_per_cluster {F D} _.
Arguments m_end_of_chain {F D} _.
Arguments m_fat_cache {F D} _.
Arguments m_data_cache {F D} _.

(** The bytes of a little-endian word, and a word in memory at address 0. *)
Definition le_bytes (v : Z) : list Z := [v mod 256; v / 256 mod 256; v / 65536 mod 256; v / 16777216 mod 256].
Definition le_word (b0 b1 b2 b3 : Z) : Z := b0 + 256 * b1 + 65536 * b2 + 16777216 * b3.
Definition local_word (v : Z) : umem :=
  {[ 0 := v mod 256; 1 := v / 256 mod 256; 2 := v / 65536 mod 256; 3 := v / 16777216 mod 256 ]}.
Definition byte_of (m : umem) (a : Z) : Z := default 0 (m !! a).

Section Code.
Context {F D : Type} `{BlockStore F}.

Definition set_fat (fat : F) (v : volume F D) : volume F D :=
  Volume (m_last_free_cluster v) (m_free_clusters v) (m_cluster_count v) (m_bytes_per_cluster v) (m_end_of_chain v) fat (m_data_cache v).
Definition set_data (data : D) (v : volume F D) : volume F D :=
  Volume (m_last_free_cluster v) (m_free_clusters v) (m_cluster_count v) (m_bytes_per_cluster v) (m_end_of_chain v) (m_fat_cache v) data.
Definition set_free (last free : Z) (v : volume F D) : volume F D :=
  Volume last free (m_cluster_count v) (m_bytes_per_cluster v) (m_end_of_chain v) (m_fat_cache v) (m_data_cache v).

(** [Kernel/FileSystem/FAT32/FAT32.cpp:367-388] FAT32::entry_type_of_fat_value *)
Definition entry_type_of_fat_value (value : Z) : fat_entry_type :=
  if value =? 0 then FREE else if value =? 1 then RESERVED else
  if value >=? end_of_chain_min_cluster then END_OF_CHAIN else
  if value =? bad_cluster then BAD else LINK.

(** [Kernel/FileSystem/FAT32/FAT32.cpp:44-49] FAT32::pure_cluster_value *)
Definition pure_cluster_value (value : Z) : result Z :=
  ASSERT (value >=? reserved_cluster_count) ;; Ok (value - reserved_cluster_count).

(** [Kernel/FileSystem/FAT32/FAT32.cpp:581-587] FAT32::fat_entry_at *)
Definition fat_entry_at (index : Z) (v : volume F D) : result (volume F D * Z) :=
  '(fat, m, _) ← bs_read index 0 4 0 (local_word 0) (m_fat_cache v);
  Ok (set_fat fat v, le_word (byte_of m 0) (byte_of m 1) (byte_of m 2) (byte_of m 3)).

(** [Kernel/FileSystem/FAT32/FAT32.cpp:589-592] FAT32::set_fat_entry_at *)
Definition set_fat_entry_at (index value : Z) (v : volume F D) : result (volume F D) :=
  '(fat, _, _) ← bs_write index 0 4 0 (local_word value) (m_fat_cache v); Ok (set_fat fat v).

(** [Kernel/FileSystem/FAT32/FAT32.cpp:879-892] FAT32::nth_cluster_in_chain *)
Fixpoint nth_cluster_in_chain (n : nat) (start : Z) (v : volume F D) : result (volume F D * Z) :=
  match n with
  | O => Ok (v, start)
  | S n =>
      '(v, current) ← fat_entry_at start v;
      ASSERT (negb (bool_decide (entry_type_of_fat_value current = END_OF_CHAIN))) ;;
      nth_cluster_in_chain n current v
  end.

(** [Kernel/FileSystem/FAT32/FAT32.cpp:894-908] FAT32::last_cluster_in_chain *)
Fixpoint last_cluster_in_chain (fuel : nat) (first : Z) (v : volume F D) : result (volume F D * Z) :=
  match fuel with
  | O => Fault OutOfFuel
  | S fuel =>
      '(v, next) ← fat_entry_at first v;
      if negb (bool_decide (entry_type_of_fat_value next = LINK)) then Ok (v, first)
      else last_cluster_in_chain fuel next v
  end.

(** [Kernel/FileSystem/FAT32/FAT32.cpp:1021-1039] FAT32::allocate_cluster_chain, the scan of [n] clusters *)
Fixpoint alloc_scan (n : nat) (cluster count prev : Z) (chain : list Z) (v : volume F D) :
    result (volume F D * Z * list Z * bool) :=
  match n with
  | O => Ok (v, prev, chain, false)
  | S n =>
      '(v, entry) ← fat_entry_at cluster v;
      if negb (bool_decide (entry_type_of_fat_value entry = FREE)) then alloc_scan n (cluster + 1) count prev chain v
      else
        let chain := chain ++ [cluster] in
        v ← (if negb (prev =? free_cluster) then set_fat_entry_at prev cluster v else Ok v);
        let prev := cluster in
        if Z.of_nat (length chain) =? count then
          let v := set_free (cluster + 1) (m_free_clusters v - count) v in
          v ← set_fat_entry_at cluster (m_end_of_chain v) v;
          Ok (v, prev, chain, true)
        else alloc_scan n (cluster + 1) count prev chain v
  end.

(** [Kernel/FileSystem/FAT32/FAT32.cpp:1006-1049] FAT32::allocate_cluster_chain *)
Definition allocate_cluster_chain (count link_to : Z) (v : volume F D) : result (volume F D * list Z) :=
  ASSERT (negb (count =? 0)) ;;
  ASSERT (count <=? m_free_clusters v) ;;
  let hint := m_last_free_cluster v in
  '(v, prev, chain, done) ← alloc_scan (Z.to_nat (m_cluster_count v - hint)) hint count link_to [] v;
  if (done : bool) then Ok (v, chain) else
  '(v, prev, chain, done) ←
    alloc_scan (Z.to_nat (hint - reserved_cluster_count)) reserved_cluster_count count prev chain v;
  if (done : bool) then Ok (v, chain) else Fault KernelPanic.

(** [Kernel/FileSystem/FAT32/FAT32.cpp:1064-1075] FAT32::free_cluster_chain_starting_at, the loop *)
Fixpoint free_loop (fuel : nat) (current : Z) (v : volume F D) : result (volume F D) :=
  match fuel with
  | O => Fault OutOfFuel
  | S fuel =>
      '(v, next) ← fat_entry_at current v;
      v ← set_fat_entry_at current free_cluster v;
      if bool_decide (entry_type_of_fat_value next = END_OF_CHAIN) then Ok v else free_loop fuel next v
  end.

(** [Kernel/FileSystem/FAT32/FAT32.cpp:1051-1076] FAT32::free_cluster_chain_starting_at *)
Definition free_cluster_chain_starting_at (fuel : nat) (first : Z) (mode : chain_free_mode) (v : volume F D) : result (volume F D) :=
  '(v, first) ← (match mode with
    | KEEP_FIRST =>
        '(v, actual_first) ← fat_entry_at first v;
        v ← set_fat_entry_at first (m_end_of_chain v) v;
        Ok (v, actual_first)
    | INCLUDING_FIRST => Ok (v, first)
    end);
  free_loop fuel first v.

(** [Kernel/FileSystem/FAT32/FAT32.cpp:515-522] FAT32::calculate_capacity, counting [n] entries downwards from [last] *)
Fixpoint calculate_loop (n : nat) (last_fat_entry : Z) (v : volume F D) : result (volume F D) :=
  match n with
  | O => Ok v
  | S n =>
      '(v, cluster) ← fat_entry_at last_fat_entry v;
      calculate_loop n (last_fat_entry - 1)
        (if cluster =? free_cluster then set_free cluster (m_free_clusters v + 1) v else v)
  end.
(** [Kernel/FileSystem/FAT32/FAT32.cpp:511-523] FAT32::calculate_capacity *)
Definition calculate_capacity (v : volume F D) : result (volume F D) :=
  calculate_loop (Z.to_nat (m_cluster_count v)) (m_cluster_count v + 2 - 1) v.
End Code.

(** ** The table as a function *)

Definition upd (f : Z -> Z) (i x : Z) : Z -> Z := fun j => if decide (j = i) then x else f j.

Lemma upd_eq f i x : upd f i x i = x.
Proof. unfold upd. by rewrite decide_True. Qed.
Lemma upd_ne f i j x : j <> i -> upd f i x j = f j.
Proof. intros. unfold upd. by rewrite decide_False. Qed.

Definition is_u32 (x : Z) : Prop := 0 <= x < 4294967296.

Lemma le_word_bytes v : is_u32 v -> le_word (v mod 256) (v / 256 mod 256) (v / 65536 mod 256) (v / 16777216 mod 256) = v.
Proof.
  unfold is_u32, le_word. intros Hv. replace (v / 16777216) with (v / 256 / 256 / 256) by (by rewrite !Z.div_div by lia).
  replace (v / 65536) with (v / 256 / 256) by (by rewrite Z.div_div by lia). dlia.
Qed.

Lemma local_word_accessible v : accessible (local_word v) 0 (Z.to_nat 4).
Proof. intros i Hi. destruct i as [|[|[|[|i]]]]; [by eexists..|cbn in Hi; lia]. Qed.

Lemma local_word_0 v : local_word v !! 0 = Some (v mod 256).
Proof. reflexivity. Qed.
Lemma local_word_1 v : local_word v !! 1 = Some (v / 256 mod 256).
Proof. reflexivity. Qed.
Lemma local_word_2 v : local_word v !! 2 = Some (v / 65536 mod 256).
Proof. reflexivity. Qed.
Lemma local_word_3 v : local_word v !! 3 = Some (v / 16777216 mod 256).
Proof. reflexivity. Qed.

Section Table.
Context {F D : Type} `{BlockStore F}.

Definition fat (v : volume F D) (i : Z) : Z :=
  let s := m_fat_cache v in le_word (bs_byte s i 0) (bs_byte s i 1) (bs_byte s i 2) (bs_byte s i 3).

(** The indices of the entries of the table. *)
Definition entry_index (v : volume F D) (i : Z) : Prop := 0 <= i < m_cluster_count v + reserved_cluster_count.

Record volume_ok (v : volume F D) : Prop := {
  vo_store : bs_inv (m_fat_cache v);
  vo_word : bs_block_size (m_fat_cache v) = 4;
  vo_count : 0 <= m_cluster_count v /\ m_cluster_count v + reserved_cluster_count <= bad_cluster;
  vo_valid : forall i, entry_index v i -> bs_valid (m_fat_cache v) i;
  vo_end : end_of_chain_min_cluster <= m_end_of_chain v < 4294967296 }.

(** The table of the volume is [f]. *)
Definition represents (v : volume F D) (f : Z -> Z) : Prop :=
  volume_ok v /\ forall i, entry_index v i -> fat v i = f i.

(** Everything but the cache of the table is the same. *)
Definition same_volume (v v' : volume F D) : Prop := v' = set_fat (m_fat_cache v') v.

Lemma same_volume_refl v : same_volume v v.
Proof. by destruct v. Qed.

Lemma same_volume_trans v1 v2 v3 : same_volume v1 v2 -> same_volume v2 v3 -> same_volume v1 v3.
Proof. unfold same_volume. intros -> ->. done. Qed.

Lemma store_volume_ok v s :
  volume_ok v -> bs_inv s -> bs_block_size s = bs_block_size (m_fat_cache v) ->
  (forall b, bs_valid s b <-> bs_valid (m_fat_cache v) b) -> volume_ok (set_fat s v).
Proof. intros [] Hs Hw Hv. split; cbn; try done; [by rewrite Hw|]. intros i Hi. by apply Hv, vo_valid0. Qed.

Lemma fat_entry_at_Ok v f i :
  represents v f -> entry_index v i ->
  exists v', fat_entry_at i v = Ok (v', f i) /\ represents v' f /\ same_volume v v'.
Proof.
  intros [Ok0 Hf] Hi. pose proof Ok0 as [Hs Hw Hc Hv He].
  destruct (bs_read_law i 0 4 0 (local_word 0) (m_fat_cache v) Hs (Hv i Hi) ltac:(lia) ltac:(lia) ltac:(lia))
    as (s & m & E & Hs' & (Eb & Ev & Hch) & _ & Hr).
  unfold fat_entry_at. rewrite E. run. specialize (Hr (local_word_accessible 0)).
  assert (Hbyte : forall k, 0 <= k < 4 -> byte_of m k = bs_byte (m_fat_cache v) i k).
  { intros k Hk. unfold byte_of. specialize (Hr k ltac:(unfold in_span; lia)). replace (0 + (k - 0)) with k in Hr by lia. by rewrite Hr. }
  rewrite !Hbyte by lia. exists (set_fat s v). split_and!.
  - f_equal. f_equal. by apply Hf.
  - split; [by apply store_volume_ok|]. intros j Hj. rewrite <- Hf by done. unfold fat. cbn.
    rewrite !Hch; try done; try (by apply Hv); lia.
  - done.
Qed.

Lemma set_fat_entry_at_Ok v f i x :
  represents v f -> entry_index v i -> is_u32 x ->
  exists v', set_fat_entry_at i x v = Ok v' /\ represents v' (upd f i x) /\ same_volume v v'.
Proof.
  intros [Ok0 Hf] Hi Hx. pose proof Ok0 as [Hs Hw Hc Hv He].
  destruct (bs_write_law i 0 4 0 (local_word x) (m_fat_cache v) Hs (Hv i Hi) ltac:(lia) ltac:(lia) ltac:(lia))
    as (s & E & Hs' & (Eb & Ev & Hch) & Hwr).
  unfold set_fat_entry_at. rewrite E. run. specialize (Hwr (local_word_accessible x)).
  exists (set_fat s v). split_and!; [done| |done]. split; [by apply store_volume_ok|].
  assert (Hbyte : forall k, 0 <= k < 4 -> local_word x !! k = Some (bs_byte s i k)).
  { intros k Hk. specialize (Hwr k ltac:(unfold in_span; lia)). by replace (0 + (k - 0)) with k in Hwr by lia. }
  intros j Hj. unfold fat. cbn. destruct (decide (j = i)) as [->|Hne].
  - rewrite upd_eq, <- (le_word_bytes x) by done.
    pose proof (Hbyte 0 ltac:(lia)) as H0. pose proof (Hbyte 1 ltac:(lia)) as H1. pose proof (Hbyte 2 ltac:(lia)) as H2. pose proof (Hbyte 3 ltac:(lia)) as H3.
    rewrite local_word_0 in H0. rewrite local_word_1 in H1. rewrite local_word_2 in H2. rewrite local_word_3 in H3. f_equal; congruence.
  - rewrite upd_ne, <- Hf by done. unfold fat. rewrite !Hch; try (by apply Hv); try lia; done || (intros [? _]; done).
Qed.
End Table.
