(* ===== verification/FatChains.v ===== *)
(** Chains of clusters: what allocating and freeing do to the table, against a reference that
    takes the first free clusters after the hint and links them. *)
From S2P Require Import Prelude IOStream BlockStore FatTable.
From stdpp Require Import gmap list_numbers.
#[local] Open Scope Z_scope.

Lemma entry_free x : entry_type_of_fat_value x = FREE <-> x = 0.
Proof.
  unfold entry_type_of_fat_value. destruct (x =? 0) eqn:E; bool_to_prop; [tauto|].
  repeat (case_match; try done).
Qed.

Lemma entry_end x : end_of_chain_min_cluster <= x -> entry_type_of_fat_value x = END_OF_CHAIN.
Proof.
  unfold entry_type_of_fat_value, end_of_chain_min_cluster. intros Hx.
  destruct (x =? 0) eqn:E0; bool_to_prop; [lia|]. destruct (x =? 1) eqn:E1; bool_to_prop; [lia|].
  destruct (x >=? _) eqn:E2; bool_to_prop; [done|lia].
Qed.

Lemma entry_link x : 2 <= x < bad_cluster -> entry_type_of_fat_value x = LINK.
Proof.
  unfold entry_type_of_fat_value, end_of_chain_min_cluster, bad_cluster. intros Hx.
  destruct (x =? 0) eqn:E0; bool_to_prop; [lia|]. destruct (x =? 1) eqn:E1; bool_to_prop; [lia|].
  destruct (x >=? _) eqn:E2; bool_to_prop; [lia|]. destruct (x =? 268435447) eqn:E3; bool_to_prop; [lia|done].
Qed.

(** ** The reference *)

(** The free clusters in the order of the search: from the hint to the end, then from the first
    cluster to the hint. *)
Definition search_order (hint count : Z) : list Z :=
  seqZ hint (Z.of_nat (Z.to_nat (count - hint))) ++ seqZ reserved_cluster_count (Z.of_nat (Z.to_nat (hint - reserved_cluster_count))).
Definition free_among (f : Z -> Z) (l : list Z) : list Z := filter (fun c => f c = 0) l.

(** [prev] points to the first cluster of [cs] (unless it is 0), each cluster to the next one, and the last
    one has [last]. *)
Fixpoint link_from (prev : Z) (cs : list Z) (last : Z) (f : Z -> Z) : Z -> Z :=
  match cs with
  | [] => f
  | c :: cs =>
      let f := if prev =? 0 then f else upd f prev c in
      match cs with
      | [] => upd f c last
      | _ => link_from c cs last f
      end
  end.

(** ** The scan *)

(** [alloc_scan] on the function. *)
Fixpoint scan (l : list Z) (count prev : Z) (chain : list Z) (eoc : Z) (f : Z -> Z) : (Z -> Z) * Z * list Z * bool :=
  match l with
  | [] => (f, prev, chain, false)
  | c :: l =>
      if decide (f c = 0) then
        let f := if prev =? 0 then f else upd f prev c in
        if Z.of_nat (length (chain ++ [c])) =? count then (upd f c eoc, c, chain ++ [c], true)
        else scan l count c (chain ++ [c]) eoc f
      else scan l count prev chain eoc f
  end.

Lemma scan_app l1 l2 count prev chain eoc f :
  scan (l1 ++ l2) count prev chain eoc f =
  let '(f1, prev1, chain1, done) := scan l1 count prev chain eoc f in
  if (done : bool) then (f1, prev1, chain1, true) else scan l2 count prev1 chain1 eoc f1.
Proof.
  revert prev chain f. induction l1 as [|c l1 IH]; intros prev chain f; cbn [app scan]; [done|].
  case_decide; [|apply IH]. case_match; [done|apply IH].
Qed.

Section Scan.
Context {F D : Type} `{BlockStore F}.

Lemma represents_set_free last free (v : volume F D) f : represents v f -> represents (set_free last free v) f.
Proof. intros [[] Hf]. split; [by split|exact Hf]. Qed.

Lemma entry_index_same (v v' : volume F D) i : same_volume v v' -> entry_index v' i <-> entry_index v i.
Proof. unfold same_volume. by intros ->. Qed.

(** Everything but the table and the counters of free clusters. *)
Definition same_but_free (v v' : volume F D) : Prop :=
  m_cluster_count v' = m_cluster_count v /\ m_end_of_chain v' = m_end_of_chain v /\
  m_bytes_per_cluster v' = m_bytes_per_cluster v /\ m_data_cache v' = m_data_cache v.

Lemma alloc_scan_Ok n cluster count prev chain (v : volume F D) f :
  represents v f -> 0 <= cluster -> cluster + Z.of_nat n <= m_cluster_count v + 2 -> entry_index v prev ->
  let '(f', prev', chain', done) := scan (seqZ cluster (Z.of_nat n)) count prev chain (m_end_of_chain v) f in
  exists v', alloc_scan n cluster count prev chain v = Ok (v', prev', chain', done) /\ represents v' f' /\ same_but_free v v' /\
    entry_index v prev' /\ (forall c, c ∈ chain' -> c ∈ chain \/ cluster <= c < cluster + Z.of_nat n) /\
    if (done : bool) then m_free_clusters v' = m_free_clusters v - count /\ m_last_free_cluster v' = prev' + 1
    else m_free_clusters v' = m_free_clusters v /\ m_last_free_cluster v' = m_last_free_cluster v.
Proof.
  revert cluster prev chain v f. induction n as [|n IH]; intros cluster prev chain v f R Hc Hn Hp.
  { cbn. exists v. split_and!; try done. by left. }
  rewrite seqZ_cons by lia. replace (Z.pred (Z.of_nat (S n))) with (Z.of_nat n) by lia.
  replace (Z.succ cluster) with (cluster + 1) by lia. cbn [scan alloc_scan].
  assert (Hi : entry_index v cluster) by (unfold entry_index, reserved_cluster_count; lia).
  destruct (fat_entry_at_Ok v f cluster R Hi) as (v1 & -> & R1 & S1). run.
  assert (Hcount : m_cluster_count v1 = m_cluster_count v) by (by rewrite S1).
  assert (Hend : m_end_of_chain v1 = m_end_of_chain v) by (by rewrite S1).
  destruct (decide (f cluster = 0)) as [Hz|Hz].
  2: { rewrite bool_decide_false by (by rewrite entry_free). cbn [negb].
       specialize (IH (cluster + 1) prev chain v1 f R1 ltac:(lia) ltac:(lia)). rewrite (entry_index_same v v1) in IH by done.
       specialize (IH Hp). rewrite Hend in IH. destruct (scan _ _ _ _ _ _) as [[[f' prev'] chain'] done].
       destruct IH as (v' & E & R' & S' & Hp' & Hch & Hfree). rewrite (entry_index_same v v1) in Hp' by done.
       rewrite S1 in S', Hfree. cbn in S', Hfree. exists v'. split_and!; try done; try apply S'.
       intros c Hcc. destruct (Hch c Hcc); [by left|right; lia]. }
  rewrite bool_decide_true by (by apply entry_free). cbn [negb].
  assert (exists v2, (if negb (prev =? free_cluster) then set_fat_entry_at prev cluster v1 else Ok v1) = Ok v2 /\
    represents v2 (if prev =? 0 then f else upd f prev cluster) /\ same_volume v v2) as (v2 & E2 & R2 & S2).
  { unfold free_cluster. destruct (prev =? 0); cbn [negb]; [by exists v1|].
    destruct (set_fat_entry_at_Ok v1 f prev cluster R1) as (v2 & E2 & R2 & S2); [by apply (entry_index_same v v1)| |].
    - pose proof (vo_count _ (proj1 R)). unfold is_u32, entry_index, reserved_cluster_count, bad_cluster in *. lia.
    - exists v2. split_and!; try done. by apply (same_volume_trans v v1). }
  rewrite E2. run. set (f2 := if prev =? 0 then f else upd f prev cluster) in *.
  destruct (_ =? count) eqn:Ec.
  - destruct (set_fat_entry_at_Ok (set_free (cluster + 1) (m_free_clusters v2 - count) v2) f2 cluster (m_end_of_chain v2)
      (represents_set_free _ _ _ _ R2)) as (v3 & E3 & R3 & S3).
    { rewrite S2. done. }
    { pose proof (vo_end _ (proj1 R2)). unfold is_u32, end_of_chain_min_cluster in *. lia. }
    change (m_end_of_chain (set_free _ _ v2)) with (m_end_of_chain v2). rewrite E3. run.
    assert (Eend : m_end_of_chain v2 = m_end_of_chain v) by (by rewrite S2). rewrite Eend in *.
    exists v3. split_and!; try done; try (rewrite S3; cbn; done || (rewrite S2; done)).
    intros c [?|<-%list_elem_of_singleton]%elem_of_app; [by left|right; lia].
  - specialize (IH (cluster + 1) cluster (chain ++ [cluster]) v2 f2 R2 ltac:(lia)).
    assert (Hc2 : m_cluster_count v2 = m_cluster_count v) by (by rewrite S2).
    assert (He2 : m_end_of_chain v2 = m_end_of_chain v) by (by rewrite S2).
    specialize (IH ltac:(lia)). rewrite (entry_index_same v v2) in IH by done. specialize (IH Hi). rewrite He2 in IH.
    destruct (scan _ _ _ _ _ _) as [[[f' prev'] chain'] done].
    destruct IH as (v' & E & R' & S' & Hp' & Hch & Hfree). rewrite (entry_index_same v v2) in Hp' by done.
    rewrite S2 in S', Hfree. cbn in S', Hfree. exists v'. split_and!; try done; try apply S'.
    intros c Hcc. destruct (Hch c Hcc) as [[?|<-%list_elem_of_singleton]%elem_of_app|?]; [by left|right; lia|right; lia].
Qed.
End Scan.

(** ** The scan finds the first free clusters *)

Lemma free_among_upd f l prev c :
  (prev ∉ l) \/ f prev <> 0 -> c <> 0 -> free_among (if prev =? 0 then f else upd f prev c) l = free_among f l.
Proof.
  intros Hp Hc. destruct (prev =? 0) eqn:E; [done|]. unfold free_among. induction l as [|x l IH]; [done|]. rewrite !filter_cons.
  rewrite IH by (destruct Hp; [left; set_solver|by right]). destruct (decide (x = prev)) as [->|]; [|by rewrite upd_ne].
  rewrite upd_eq, (decide_False (P := c = 0)) by done. rewrite decide_False; [done|]. destruct Hp as [Hp|?]; [set_solver|done].
Qed.

Lemma scan_spec l count prev chain eoc f :
  NoDup l -> f 0 <> 0 -> (prev ∉ l) \/ f prev <> 0 -> Z.of_nat (length chain) < count ->
  (Z.to_nat (count - Z.of_nat (length chain)) <= length (free_among f l))%nat ->
  exists prev', scan l count prev chain eoc f =
    (link_from prev (take (Z.to_nat (count - Z.of_nat (length chain))) (free_among f l)) eoc f, prev',
     chain ++ take (Z.to_nat (count - Z.of_nat (length chain))) (free_among f l), true) /\
    last (take (Z.to_nat (count - Z.of_nat (length chain))) (free_among f l)) = Some prev'.
Proof.
  revert prev chain f. induction l as [|c l IH]; intros prev chain f Hnd H0 Hp Hlt Hk; cbn [scan].
  { cbn in Hk. lia. }
  apply NoDup_cons in Hnd as [Hc Hnd]. unfold free_among in *. rewrite filter_cons in *. case_decide as Hz.
  - assert (Hc0 : c <> 0) by (intros ->; done). set (f1 := if prev =? 0 then f else upd f prev c).
    assert (Ef : filter (fun x => f1 x = 0) l = filter (fun x => f x = 0) l).
    { apply (free_among_upd f l prev c); [|done]. destruct Hp as [Hp|?]; [left; set_solver|by right]. }
    rewrite length_app. cbn [length]. destruct (_ =? count) eqn:Ec; bool_to_prop.
    + replace (Z.to_nat (count - Z.of_nat (length chain))) with 1%nat by lia. cbn. rewrite take_0. eexists. by split.
    + set (k := Z.to_nat (count - Z.of_nat (length (chain ++ [c])))).
      assert (Ek : Z.to_nat (count - Z.of_nat (length chain)) = S k) by (unfold k; rewrite length_app; cbn; lia).
      rewrite Ek in *. cbn [length] in Hk. destruct (IH c (chain ++ [c]) f1 Hnd) as (prev' & E & Hl).
      * unfold f1. destruct (prev =? 0) eqn:E0; [done|]. bool_to_prop. by rewrite upd_ne.
      * by left.
      * rewrite length_app. cbn. lia.
      * fold k. rewrite Ef. lia.
      * fold k in E, Hl. rewrite Ef in E, Hl. exists prev'. rewrite E. cbn [take]. rewrite <- app_assoc. cbn [app].
        assert (Hne : take k (filter (fun x => f x = 0) l) <> []).
        { intros En. apply (f_equal length) in En. rewrite length_take in En. cbn in En.
          assert (k <> O) by (unfold k; rewrite length_app; cbn; lia). lia. }
        split; [|rewrite last_cons, Hl; done]. f_equal. f_equal. f_equal. cbn [link_from]. fold f1.
        destruct (take k _); [done|]. done.
  - apply IH; try done. destruct Hp as [Hp|?]; [left; set_solver|by right].
Qed.

(** ** What linking does *)

Lemma link_from_other prev cs eoc f x :
  (x ∉ cs) -> x <> prev \/ prev = 0 -> link_from prev cs eoc f x = f x.
Proof.
  revert prev f. induction cs as [|c cs IH]; intros prev f Hx Hp; [done|]. cbn [link_from].
  assert (Hc : x <> c) by set_solver.
  assert (Ef : (if prev =? 0 then f else upd f prev c) x = f x).
  { destruct (prev =? 0) eqn:E; bool_to_prop; [done|]. rewrite upd_ne; [done|]. tauto. }
  destruct cs as [|c' cs]; [by rewrite upd_ne|]. rewrite IH; [done|set_solver|by left].
Qed.

Lemma link_from_prev prev c cs eoc f :
  prev <> 0 -> NoDup (prev :: c :: cs) -> link_from prev (c :: cs) eoc f prev = c.
Proof.
  intros Hp Hnd. apply NoDup_cons in Hnd as [Hin _]. cbn [link_from]. destruct (prev =? 0) eqn:E; bool_to_prop; [done|].
  destruct cs as [|c' cs]; [rewrite upd_ne by set_solver; apply upd_eq|].
  rewrite link_from_other; [apply upd_eq|set_solver|left; set_solver].
Qed.

(** A chain of the table: each cluster has the number of the next, and the last one an end mark. *)
Fixpoint is_chain (f : Z -> Z) (l : list Z) : Prop :=
  match l with
  | [] => False
  | c :: l => match l with
              | [] => end_of_chain_min_cluster <= f c
              | c' :: _ => f c = c' /\ is_chain f l
              end
  end.

Lemma is_chain_ext f g l : (forall c, c ∈ l -> g c = f c) -> is_chain f l -> is_chain g l.
Proof.
  induction l as [|c l IH]; [done|]. intros E. cbn. destruct l as [|c' l]; [by rewrite E by set_solver|].
  intros [H1 H2]. rewrite E by set_solver. split; [done|]. apply IH; [|done]. intros x Hx. apply E. by right.
Qed.

Lemma is_chain_nonzero f l c : is_chain f l -> Forall (fun c => c <> 0) l -> c ∈ l -> f c <> 0.
Proof.
  induction l as [|x l IH]; [by intros _ _ ?%elem_of_nil|]. intros Hc Hnz. apply Forall_cons in Hnz as [Hx Hnz]. cbn in Hc.
  destruct l as [|x' l].
  - intros ->%list_elem_of_singleton. unfold end_of_chain_min_cluster in Hc. lia.
  - destruct Hc as [Hf Hc]. intros [->|Hin]%elem_of_cons; [|by apply IH]. apply Forall_cons in Hnz as [? _]. congruence.
Qed.

Lemma link_from_chain prev cs eoc f :
  cs <> [] -> NoDup cs -> (prev ∉ cs) -> Forall (fun c => c <> 0) cs -> end_of_chain_min_cluster <= eoc -> is_chain (link_from prev cs eoc f) cs.
Proof.
  revert prev f. induction cs as [|c cs IH]; intros prev f Hne Hnd Hp Hnz He; [done|]. apply NoDup_cons in Hnd as [Hc Hnd].
  apply Forall_cons in Hnz as [Hc0 Hnz]. cbn [link_from]. set (f1 := if prev =? 0 then f else upd f prev c).
  destruct cs as [|c' cs]; [cbn; by rewrite upd_eq|].
  change (link_from c (c' :: cs) eoc f1 c = c' /\ is_chain (link_from c (c' :: cs) eoc f1) (c' :: cs)).
  split; [apply link_from_prev; [done|by constructor]|]. by apply IH.
Qed.

(** The new clusters are appended to the chain that they are linked to. *)
Lemma link_from_extends l p cs eoc f :
  is_chain f l -> last l = Some p -> NoDup (l ++ cs) -> Forall (fun c => c <> 0) (l ++ cs) -> cs <> [] ->
  end_of_chain_min_cluster <= eoc -> is_chain (link_from p cs eoc f) (l ++ cs).
Proof.
  intros Hl Hlast Hnd Hnz Hne He. apply NoDup_app in Hnd as (Hnl & Hdis & Hnc). apply Forall_app in Hnz as [Hzl Hzc].
  assert (Hpl : p ∈ l) by (by apply last_Some_elem_of).
  assert (Hp0 : p <> 0) by (by rewrite Forall_forall in Hzl; apply Hzl).
  assert (Hcs := link_from_chain p cs eoc f Hne Hnc ltac:(set_solver) Hzc He).
  destruct cs as [|c0 cs]; [done|].
  assert (Hlink : link_from p (c0 :: cs) eoc f p = c0) by (apply link_from_prev; [done|constructor; [set_solver|done]]).
  assert (Hsame : forall x, x ∈ l -> x <> p -> link_from p (c0 :: cs) eoc f x = f x).
  { intros x Hx Hxp. apply link_from_other; [by apply Hdis|by left]. }
  clear Hpl. revert Hcs Hlink Hl Hlast Hsame Hnl. generalize (link_from p (c0 :: cs) eoc f) as g. intros g.
  induction l as [|x l IH]; [done|]. destruct l as [|y l]; intros Hcs Hlink Hl Hlast Hsame Hnl.
  - assert (x = p) as -> by (cbn in Hlast; congruence). exact (conj Hlink Hcs).
  - cbn in Hl. destruct Hl as [Hf Hl]. apply NoDup_cons in Hnl as [Hx Hnl]. change (last (y :: l) = Some p) in Hlast.
    change (g x = y /\ is_chain g ((y :: l) ++ c0 :: cs)). split.
    + rewrite Hsame; [done|by left|]. intros ->. apply Hx. by apply last_Some_elem_of.
    + apply IH; try done; [set_solver|by apply Forall_cons in Hzl as [_ ?]|]. intros z Hz. apply Hsame. by right.
Qed.

(** ** Allocating *)

Lemma search_order_spec hint count c :
  0 <= hint -> c ∈ search_order hint count <-> hint <= c < count \/ reserved_cluster_count <= c < hint.
Proof.
  intros Hh. unfold search_order. rewrite elem_of_app, !elem_of_seqZ. unfold reserved_cluster_count. lia.
Qed.

Lemma search_order_nodup hint count : 0 <= hint -> NoDup (search_order hint count).
Proof.
  intros Hh. unfold search_order. apply NoDup_app. split_and!; [apply NoDup_seqZ| |apply NoDup_seqZ].
  intros c. rewrite !elem_of_seqZ. lia.
Qed.

(** The clusters that [allocate_cluster_chain] takes. *)
Definition chosen {F D} (v : volume F D) (f : Z -> Z) (count : Z) : list Z :=
  take (Z.to_nat count) (free_among f (search_order (m_last_free_cluster v) (m_cluster_count v))).

(** The two reserved entries are not free, and the counters are right enough to find [count] clusters. *)
Definition can_allocate {F D} (v : volume F D) (f : Z -> Z) (count link_to : Z) : Prop :=
  0 < count <= m_free_clusters v /\ 0 <= m_last_free_cluster v <= m_cluster_count v + reserved_cluster_count /\
  f 0 <> 0 /\ f 1 <> 0 /\ 0 <= link_to < m_cluster_count v + reserved_cluster_count /\ f link_to <> 0 /\
  (Z.to_nat count <= length (free_among f (search_order (m_last_free_cluster v) (m_cluster_count v))))%nat.

Lemma chosen_spec {F D} (v : volume F D) f count link_to c :
  can_allocate v f count link_to -> c ∈ chosen v f count ->
  f c = 0 /\ reserved_cluster_count <= c < m_cluster_count v + reserved_cluster_count.
Proof.
  intros (_ & Hh & H0 & H1 & _) Hc. unfold chosen in Hc.
  apply elem_of_take in Hc as (i & Hi%list_elem_of_lookup_2 & _). apply list_elem_of_filter in Hi as [Hf Hs]. rewrite search_order_spec in Hs by lia. split; [done|].
  assert (c <> 0) by (by intros ->). assert (c <> 1) by (by intros ->). unfold reserved_cluster_count in *. lia.
Qed.

Lemma chosen_nodup {F D} (v : volume F D) f count : 0 <= m_last_free_cluster v -> NoDup (chosen v f count).
Proof.
  intros Hh. unfold chosen, free_among. eapply sublist_NoDup; [|apply sublist_take]. apply NoDup_filter. by apply search_order_nodup.
Qed.

Section Allocate.
Context {F D : Type} `{BlockStore F}.

Lemma allocate_chain_Ok (v : volume F D) f count link_to :
  represents v f -> can_allocate v f count link_to ->
  exists v', allocate_cluster_chain count link_to v = Ok (v', chosen v f count) /\
    represents v' (link_from link_to (chosen v f count) (m_end_of_chain v) f) /\ same_but_free v v' /\
    m_free_clusters v' = m_free_clusters v - count /\
    exists c, last (chosen v f count) = Some c /\ m_last_free_cluster v' = c + 1.
Proof.
  intros R (Hc & Hh & H0 & H1 & Hl & Hfl & Henough). pose proof (vo_count _ (proj1 R)) as Hcount.
  unfold allocate_cluster_chain, reserved_cluster_count in *.
  destruct (count =? 0) eqn:E0; bool_to_prop; [lia|]. destruct (count <=? _) eqn:E1; bool_to_prop; [|lia]. run.
  destruct (scan_spec (search_order (m_last_free_cluster v) (m_cluster_count v)) count link_to [] (m_end_of_chain v) f)
    as (prev' & Escan & Hlast); [by apply search_order_nodup; lia|done|by right|cbn; lia|cbn [length]; rewrite Z.sub_0_r; lia|].
  cbn [length app] in Escan, Hlast. rewrite Z.sub_0_r in Escan, Hlast. fold (chosen v f count) in Escan, Hlast.
  unfold search_order in Escan. rewrite scan_app in Escan.
  pose proof (alloc_scan_Ok (Z.to_nat (m_cluster_count v - m_last_free_cluster v)) (m_last_free_cluster v) count link_to [] v f R
    ltac:(lia) ltac:(lia) Hl) as H2.
  destruct (scan (seqZ (m_last_free_cluster v) _) count link_to [] (m_end_of_chain v) f) as [[[f1 prev1] chain1] done1].
  destruct H2 as (v1 & -> & R1 & S1 & Hp1 & _ & Hfree1). run. destruct done1.
  - injection Escan as -> -> ->. exists v1. split_and!; try done; [apply Hfree1|]. exists prev'. split; [done|apply Hfree1].
  - destruct Hfree1 as [Hf1 Hl1]. destruct S1 as (Ec & Ee & Eb & Ed).
    assert (Hp1' : entry_index v1 prev1) by (unfold entry_index; by rewrite Ec).
    pose proof (alloc_scan_Ok (Z.to_nat (m_last_free_cluster v - 2)) 2 count prev1 chain1 v1 f1 R1 ltac:(lia) ltac:(lia) Hp1') as H3.
    rewrite Ee in H3. unfold reserved_cluster_count in Escan. rewrite Escan in H3.
    destruct H3 as (v2 & E2 & R2 & (Ec2 & Ee2 & Eb2 & Ed2) & _ & _ & Hf2 & Hl2).
    unfold reserved_cluster_count in E2. rewrite E2. run.
    exists v2. split_and!; try done; [|congruence|by exists prev']. unfold same_but_free. split_and!; congruence.
Qed.
End Allocate.

(** ** Freeing *)

Definition clear (l : list Z) (f : Z -> Z) : Z -> Z := fun x => if decide (x ∈ l) then 0 else f x.

Section Free.
Context {F D : Type} `{BlockStore F}.

(** The clusters of a chain are data clusters of the volume. *)
Definition clusters_ok (v : volume F D) (l : list Z) : Prop :=
  NoDup l /\ Forall (fun c => reserved_cluster_count <= c < m_cluster_count v + reserved_cluster_count) l.

Lemma represents_ext (v : volume F D) f g : represents v f -> (forall i, g i = f i) -> represents v g.
Proof. intros [Ok0 Hf] E. split; [done|]. intros i Hi. by rewrite E, Hf. Qed.

Lemma free_loop_Ok fuel l c (v : volume F D) f :
  represents v f -> is_chain f (c :: l) -> clusters_ok v (c :: l) -> (length l < fuel)%nat ->
  exists v', free_loop fuel c v = Ok v' /\ represents v' (clear (c :: l) f) /\ same_volume v v'.
Proof.
  revert c l v f. induction fuel as [|fuel IH]; intros c l v f R Hch [Hnd Hin] Hfuel; [lia|]. cbn [free_loop].
  apply Forall_cons in Hin as [Hc Hin]. apply NoDup_cons in Hnd as [Hcl Hnd].
  assert (Hi : entry_index v c) by (unfold entry_index, reserved_cluster_count in *; lia).
  destruct (fat_entry_at_Ok v f c R Hi) as (v1 & -> & R1 & S1). run.
  destruct (set_fat_entry_at_Ok v1 f c free_cluster R1) as (v2 & -> & R2 & S2);
    [by apply (entry_index_same v v1)|unfold is_u32, free_cluster; lia|]. run.
  assert (S : same_volume v v2) by (by apply (same_volume_trans v v1)).
  destruct l as [|c' l].
  - cbn in Hch. rewrite bool_decide_true by (by apply entry_end). exists v2. split_and!; try done.
    eapply represents_ext; [exact R2|]. intros i. unfold clear, upd. case_decide as Hd; case_decide; try done; set_solver.
  - destruct Hch as [Hf Hch]. apply Forall_cons in Hin as [Hc' Hin]. rewrite Hf.
    pose proof (vo_count _ (proj1 R)) as Hcount. rewrite bool_decide_false; [|rewrite entry_link; [done|unfold reserved_cluster_count in *; lia]].
    destruct (IH c' l v2 (upd f c free_cluster) R2) as (v3 & E & R3 & S3).
    + apply (is_chain_ext f); [|done]. intros x Hx. apply upd_ne. by intros ->.
    + split; [done|]. constructor; [rewrite S; done|]. rewrite S. done.
    + cbn in Hfuel. lia.
    + exists v3. split_and!; [done| |by apply (same_volume_trans v v2)]. eapply represents_ext; [exact R3|]. intros i. unfold clear, upd.
      repeat case_decide; try done; set_solver.
Qed.

Lemma free_chain_Ok fuel l c mode (v : volume F D) f :
  represents v f -> is_chain f (c :: l) -> clusters_ok v (c :: l) -> (length l < fuel)%nat ->
  (mode = KEEP_FIRST -> l <> []) ->
  exists v', free_cluster_chain_starting_at fuel c mode v = Ok v' /\ same_volume v v' /\
    represents v' (match mode with
                   | KEEP_FIRST => upd (clear l f) c (m_end_of_chain v)
                   | INCLUDING_FIRST => clear (c :: l) f
                   end).
Proof.
  intros R Hch Hok Hfuel Hkeep. unfold free_cluster_chain_starting_at. destruct mode.
  - pose proof Hok as [Hnd Hin]. apply Forall_cons in Hin as [Hc Hin]. apply NoDup_cons in Hnd as [Hcl Hnd].
    assert (Hi : entry_index v c) by (unfold entry_index, reserved_cluster_count in *; lia).
    destruct (fat_entry_at_Ok v f c R Hi) as (v1 & -> & R1 & S1). run.
    assert (Ee : m_end_of_chain v1 = m_end_of_chain v) by (by rewrite S1). rewrite Ee.
    destruct (set_fat_entry_at_Ok v1 f c (m_end_of_chain v) R1) as (v2 & -> & R2 & S2); [by apply (entry_index_same v v1)| |].
    { pose proof (vo_end _ (proj1 R)). unfold is_u32, end_of_chain_min_cluster in *. lia. }
    run. assert (S : same_volume v v2) by (by apply (same_volume_trans v v1)).
    destruct l as [|c' l]; [by destruct (Hkeep eq_refl)|]. destruct Hch as [Hf Hch]. rewrite Hf.
    destruct (free_loop_Ok fuel l c' v2 (upd f c (m_end_of_chain v)) R2) as (v3 & -> & R3 & S3).
    + apply (is_chain_ext f); [|done]. intros x Hx. apply upd_ne. by intros ->.
    + split; [done|]. by rewrite S.
    + cbn in Hfuel. lia.
    + exists v3. split_and!; [done|by apply (same_volume_trans v v2)|]. eapply represents_ext; [exact R3|]. intros i. unfold clear, upd.
      destruct (decide (i = c)) as [->|]; [by rewrite decide_False|done].
  - run. destruct (free_loop_Ok fuel l c v f R Hch Hok Hfuel) as (v' & -> & R' & S'). by exists v'.
Qed.

(** Following a chain. *)
Lemma nth_cluster_Ok n l c x (v : volume F D) f :
  represents v f -> is_chain f (c :: l) -> clusters_ok v (c :: l) -> (c :: l) !! n = Some x ->
  exists v', nth_cluster_in_chain n c v = Ok (v', x) /\ represents v' f /\ same_volume v v'.
Proof.
  revert c l v. induction n as [|n IH]; intros c l v R Hch [Hnd Hin] Hx; cbn [nth_cluster_in_chain].
  { injection Hx as ->. exists v. split_and!; try done. apply same_volume_refl. }
  apply Forall_cons in Hin as [Hc Hin]. apply NoDup_cons in Hnd as [Hcl Hnd]. destruct l as [|c' l]; [done|].
  destruct Hch as [Hf Hch]. assert (Hi : entry_index v c) by (unfold entry_index, reserved_cluster_count in *; lia).
  destruct (fat_entry_at_Ok v f c R Hi) as (v1 & -> & R1 & S1). run. rewrite Hf.
  pose proof (vo_count _ (proj1 R)) as Hcount. pose proof (proj1 (Forall_cons _ _ _) Hin) as [Hc' _].
  rewrite bool_decide_false; [|rewrite entry_link; [done|unfold reserved_cluster_count in *; lia]]. runb.
  destruct (IH c' l v1 R1 Hch) as (v' & E & R' & S'); [split; [done|]; by rewrite S1|done|].
  exists v'. split_and!; try done. by apply (same_volume_trans v v1).
Qed.

Lemma last_cluster_Ok fuel l c (v : volume F D) f :
  represents v f -> is_chain f (c :: l) -> clusters_ok v (c :: l) -> (length l < fuel)%nat ->
  exists v', last_cluster_in_chain fuel c v = Ok (v', List.last (c :: l) 0) /\ represents v' f /\ same_volume v v'.
Proof.
  revert c l v. induction fuel as [|fuel IH]; intros c l v R Hch [Hnd Hin] Hfuel; [lia|]. cbn [last_cluster_in_chain].
  apply Forall_cons in Hin as [Hc Hin]. apply NoDup_cons in Hnd as [Hcl Hnd].
  assert (Hi : entry_index v c) by (unfold entry_index, reserved_cluster_count in *; lia).
  destruct (fat_entry_at_Ok v f c R Hi) as (v1 & -> & R1 & S1). run. destruct l as [|c' l].
  - cbn in Hch. rewrite bool_decide_false by (by rewrite entry_end). by exists v1.
  - destruct Hch as [Hf Hch]. rewrite Hf. pose proof (vo_count _ (proj1 R)) as Hcount. pose proof (proj1 (Forall_cons _ _ _) Hin) as [Hc' _].
    rewrite bool_decide_true by (apply entry_link; unfold reserved_cluster_count in *; lia). cbn [negb].
    destruct (IH c' l v1 R1 Hch) as (v' & E & R' & S'); [split; [done|]; by rewrite S1|cbn in Hfuel; lia|].
    exists v'. split_and!; try done. by apply (same_volume_trans v v1).
Qed.
End Free.
