(* ===== verification/FatChainsCorrect.v ===== *)
(** What the chain operations of FAT32 guarantee, over the disk cache: allocation against its
    reference, the chains it extends and the chains it leaves alone, freeing, and the round trip. *)
From S2P Require Import Prelude Page Range IOStream BlockStore DiskCache DiskCacheCorrect FatTable FatChains.
From stdpp Require Import gmap list_numbers.
#[local] Open Scope Z_scope.

Section Correct.
Context {F D : Type} `{BlockStore F}.

(** C10: [allocate_cluster_chain] takes the first [count] free clusters, from the hint up to the number
    [m_cluster_count] (two clusters short of the end of the volume, since numbers start at 2: see
    the example [last_clusters_unreachable]) and then from cluster 2 to the hint; it links [link_to] (unless it is 0) to the
    first of them, each to the next, marks the last one as the end of the chain, changes no other
    entry of the table and keeps the counter of free clusters and the hint. *)
Theorem fat_allocate_reference (v : volume F D) f count link_to :
  represents v f -> can_allocate v f count link_to ->
  let chain := take (Z.to_nat count) (filter (fun c => f c = 0) (search_order (m_last_free_cluster v) (m_cluster_count v))) in
  exists v', allocate_cluster_chain count link_to v = Ok (v', chain) /\
    Z.of_nat (length chain) = count /\
    represents v' (link_from link_to chain (m_end_of_chain v) f) /\
    (forall x, (x ∉ chain) -> x <> link_to \/ link_to = 0 -> link_from link_to chain (m_end_of_chain v) f x = f x) /\
    m_free_clusters v' = m_free_clusters v - count /\
    exists c, last chain = Some c /\ m_last_free_cluster v' = c + 1.
Proof.
  intros R Hc chain. destruct (allocate_chain_Ok v f count link_to R Hc) as (v' & E & R' & _ & Hf & Hl).
  exists v'. split_and!; try done.
  - destruct Hc as (? & _ & _ & _ & _ & _ & ?). unfold chain, free_among in *. rewrite length_take. lia.
  - intros x Hx Hp. by apply link_from_other.
Qed.

(** C9: allocation and the chains of the files: the chain that ends in [link_to] grows by the new
    clusters at its end, with no cluster twice; a new chain is one; every chain that does not
    contain [link_to] is as it was; and the new clusters were in no chain. *)
Theorem fat_allocate_chains (v : volume F D) f count link_to :
  represents v f -> can_allocate v f count link_to ->
  exists v' f' chain, allocate_cluster_chain count link_to v = Ok (v', chain) /\ represents v' f' /\
    NoDup chain /\ is_chain f' chain /\
    (forall l, clusters_ok v l -> is_chain f l -> forall c, c ∈ chain -> c ∉ l) /\
    (forall l, clusters_ok v l -> is_chain f l -> last l = Some link_to -> is_chain f' (l ++ chain) /\ clusters_ok v' (l ++ chain)) /\
    (forall l, clusters_ok v l -> is_chain f l -> (link_to ∉ l) -> is_chain f' l).
Proof.
  intros R Hc. destruct (allocate_chain_Ok v f count link_to R Hc) as (v' & E & R' & (Ecount & _) & _).
  pose proof (fun c => chosen_spec v f count link_to c Hc) as Hch.
  assert (Hnd : NoDup (chosen v f count)) by (apply chosen_nodup; destruct Hc as (_ & ? & _); lia).
  assert (He := vo_end _ (proj1 R)).
  assert (Hnz : Forall (fun c => c <> 0) (chosen v f count)).
  { apply Forall_forall. intros c Hin. destruct (Hch c Hin). unfold reserved_cluster_count in *. lia. }
  assert (Hne : chosen v f count <> []).
  { intros En. apply (f_equal length) in En. unfold chosen in En. rewrite length_take in En. cbn in En.
    destruct Hc as (? & _ & _ & _ & _ & _ & ?). lia. }
  assert (Hlink : link_to ∉ chosen v f count) by (intros Hin; destruct (Hch _ Hin); destruct Hc as (_ & _ & _ & _ & _ & ? & _); done).
  assert (Hpos : forall l, clusters_ok v l -> Forall (fun c => c <> 0) l).
  { intros l [_ Hl]. eapply Forall_impl; [exact Hl|]. cbn. unfold reserved_cluster_count. lia. }
  assert (Hdis : forall l, clusters_ok v l -> is_chain f l -> forall c, c ∈ chosen v f count -> c ∉ l).
  { intros l Hok Hl c Hin Hcl. destruct (Hch c Hin) as [Hz _]. by apply (is_chain_nonzero f l c Hl (Hpos l Hok) Hcl). }
  exists v', (link_from link_to (chosen v f count) (m_end_of_chain v) f), (chosen v f count). split_and!; try done.
  - apply link_from_chain; try done; lia.
  - intros l Hok Hl Hlast. assert (Hall : NoDup (l ++ chosen v f count)).
    { apply NoDup_app. split_and!; [apply Hok| |done]. intros c Hcl Hin. by apply (Hdis l Hok Hl c). }
    split; [apply link_from_extends; try done; [apply Forall_app; split; [by apply Hpos|done]|lia]|].
    split; [done|]. apply Forall_app. rewrite Ecount. split; [apply Hok|]. apply Forall_forall. intros c Hin. by apply Hch.
  - intros l Hok Hl Hnl. apply (is_chain_ext f); [|done]. intros c Hcl. apply link_from_other.
    + intros Hin. by apply (Hdis l Hok Hl c Hin).
    + left. by intros ->.
Qed.

(** [free_cluster_chain_starting_at] frees exactly the clusters of the chain, or all but its
    first one, which becomes the end of a chain; every other entry is as it was. *)
Theorem fat_free_correct fuel l c mode (v : volume F D) f :
  represents v f -> is_chain f (c :: l) -> clusters_ok v (c :: l) -> (length l < fuel)%nat ->
  (mode = KEEP_FIRST -> l <> []) ->
  exists v' f', free_cluster_chain_starting_at fuel c mode v = Ok v' /\ represents v' f' /\
    (forall x, x ∈ l -> f' x = 0) /\ (forall x, (x ∉ c :: l) -> f' x = f x) /\
    f' c = match mode with KEEP_FIRST => m_end_of_chain v | INCLUDING_FIRST => 0 end.
Proof.
  intros R Hch Hok Hfuel Hkeep. destruct (free_chain_Ok fuel l c mode v f R Hch Hok Hfuel Hkeep) as (v' & E & _ & R').
  assert (Hcl : c ∉ l) by (destruct Hok as [Hnd _]; by apply NoDup_cons in Hnd as [? _]).
  exists v', (match mode with KEEP_FIRST => upd (clear l f) c (m_end_of_chain v) | INCLUDING_FIRST => clear (c :: l) f end).
  split_and!; [done|done|..]; destruct mode; unfold upd, clear; intros; repeat case_decide; try done; set_solver.
Qed.

(** Allocating a chain and freeing it gives the table back as it was. *)
Theorem fat_allocate_free fuel (v : volume F D) f count :
  represents v f -> can_allocate v f count 0 -> (Z.to_nat count <= fuel)%nat ->
  exists v1 c chain v2, allocate_cluster_chain count 0 v = Ok (v1, c :: chain) /\
    free_cluster_chain_starting_at fuel c INCLUDING_FIRST v1 = Ok v2 /\ represents v2 f.
Proof.
  intros R Hc Hfuel. destruct (allocate_chain_Ok v f count 0 R Hc) as (v1 & E & R1 & (Ecount & _) & _).
  pose proof (fun c => chosen_spec v f count 0 c Hc) as Hch.
  assert (Hnd : NoDup (chosen v f count)) by (apply chosen_nodup; destruct Hc as (_ & ? & _); lia).
  assert (Hlen : Z.of_nat (length (chosen v f count)) = count).
  { unfold chosen. rewrite length_take. destruct Hc as (? & _ & _ & _ & _ & _ & ?). lia. }
  assert (He := vo_end _ (proj1 R)). destruct Hc as (Hcount & _ & H0 & _).
  destruct (chosen v f count) as [|c chain] eqn:Echain; [cbn in Hlen; lia|].
  assert (Hnz : Forall (fun c => c <> 0) (c :: chain)).
  { apply Forall_forall. intros x Hin. destruct (Hch x Hin). unfold reserved_cluster_count in *. lia. }
  destruct (free_chain_Ok fuel chain c INCLUDING_FIRST v1 (link_from 0 (c :: chain) (m_end_of_chain v) f) R1) as (v2 & E2 & _ & R2).
  - apply link_from_chain; try done; [|lia]. intros Hin. rewrite Forall_forall in Hnz. by apply (Hnz 0).
  - split; [done|]. apply Forall_forall. intros x Hin. rewrite Ecount. by apply Hch.
  - cbn in Hlen. lia.
  - done.
  - exists v1, c, chain, v2. split_and!; try done. eapply represents_ext; [exact R2|]. intros i. unfold clear. case_decide as Hin.
    + symmetry. symmetry. by apply Hch.
    + rewrite link_from_other; [done|done|by right].
Qed.
End Correct.

(** ** A concrete volume *)

(** Ten clusters, of which 2 is the root directory and 3, 5 a file; the table is in one page of a
    disk of eight sectors. *)
Definition example_table : list Z :=
  [0x0FFFFFF8; 0x0FFFFFFF; 0x0FFFFFFF; 5; 0; 0x0FFFFFFF; 0; 0; 0; 0; 0; 0].
Definition table_device (l : list Z) : device := fun x =>
  if x <? 4 * Z.of_nat (length l) then default 0 (mjoin (le_bytes <$> l) !! Z.to_nat x) else 0.
Definition table_cache (l : list Z) : disk_cache := DiskCache (Range 0 8) 4096 512 4 1024 1 0 ∅ [] ∅ (table_device l).
Definition table_volume (l : list Z) (last free : Z) : volume disk_cache unit :=
  Volume last free 10 4096 0x0FFFFFFF (table_cache l) tt.
Definition table_of (l : list Z) (i : Z) : Z := default 0 (l !! Z.to_nat i).

Lemma table_cache_inv l : dc_inv (table_cache l).
Proof.
  apply (make_cache_Ok (table_device l) 512 (Range 0 8) 4 1024); [reflexivity|]. split_and!; try done. left. by exists 2.
Qed.

Lemma table_volume_ok l last free : volume_ok (table_volume l last free).
Proof.
  split; cbn; try done; [apply table_cache_inv|]. intros i Hi. unfold entry_index, reserved_cluster_count in Hi. cbn in Hi.
  unfold dc_valid, valid_unit, unit_of, dc_bytes. cbn. split; [lia|]. dlia.
Qed.

Lemma table_represents l last free :
  all_below 12 (fun i => fat (table_volume l last free) i =? table_of l i) = true ->
  represents (table_volume l last free) (table_of l).
Proof.
  intros E. split; [apply table_volume_ok|]. intros i Hi. unfold entry_index, reserved_cluster_count in Hi. cbn in Hi.
  apply Z.eqb_eq. by apply (all_below_spec 12 (fun i => fat (table_volume l last free) i =? table_of l i)).
Qed.

Definition example_volume : volume disk_cache unit := table_volume example_table 7 7.

Lemma example_table_represents : represents example_volume (table_of example_table).
Proof. apply table_represents. vm_compute. reflexivity. Qed.

Lemma example_can_allocate link_to :
  link_to = 0 \/ link_to = 5 -> can_allocate example_volume (table_of example_table) 4 link_to.
Proof. intros [->| ->]; unfold can_allocate; split_and!; try done; vm_compute; lia. Qed.

Lemma example_clusters : clusters_ok example_volume [3; 5].
Proof.
  split; [apply (bool_decide_eq_true_1 (NoDup [3; 5])); vm_compute; reflexivity|].
  repeat constructor; vm_compute; congruence.
Qed.

Lemma example_chain : is_chain (table_of example_table) [3; 5].
Proof. split; vm_compute; congruence. Qed.

Lemma fat_allocate_reference_witness :
  exists v', allocate_cluster_chain 4 5 example_volume = Ok (v', [7; 8; 9; 4]) /\ m_free_clusters v' = 3.
Proof.
  destruct (fat_allocate_reference example_volume (table_of example_table) 4 5 example_table_represents (example_can_allocate 5 ltac:(tauto)))
    as (v' & E & _ & _ & _ & Hf & _). exists v'. split; [exact E|exact Hf].
Defined.

Lemma fat_allocate_chains_witness :
  exists v' f' chain, allocate_cluster_chain 4 5 example_volume = Ok (v', chain) /\ is_chain f' ([3; 5] ++ chain).
Proof.
  destruct (fat_allocate_chains example_volume (table_of example_table) 4 5 example_table_represents (example_can_allocate 5 ltac:(tauto)))
    as (v' & f' & chain & E & _ & _ & _ & _ & H & _). exists v', f', chain. split; [exact E|].
  apply (H [3; 5] example_clusters example_chain eq_refl).
Defined.

Lemma fat_free_correct_witness :
  exists v' f', free_cluster_chain_starting_at 2 3 INCLUDING_FIRST example_volume = Ok v' /\ represents v' f' /\ f' 3 = 0.
Proof.
  destruct (fat_free_correct 2 [5] 3 INCLUDING_FIRST example_volume (table_of example_table) example_table_represents)
    as (v' & f' & E & R & _ & _ & H); [apply example_chain|apply example_clusters|cbn; lia|intros E; discriminate E|].
  exists v', f'. exact (conj E (conj R H)).
Defined.

Lemma fat_allocate_free_witness :
  exists v1 c chain v2, allocate_cluster_chain 4 0 example_volume = Ok (v1, c :: chain) /\
    free_cluster_chain_starting_at 4 c INCLUDING_FIRST v1 = Ok v2 /\ represents v2 (table_of example_table).
Proof.
  exact (fat_allocate_free 4 example_volume (table_of example_table) 4 example_table_represents (example_can_allocate 0 ltac:(tauto)) ltac:(lia)).
Defined.

(** The outcome of an operation, without its state. *)
Definition outcome {A} (r : result A) : option fault := match r with Ok _ => None | Fault e => Some e end.
Definition free_after {A} (f : A -> Z) (r : result A) : option Z := match r with Ok a => Some (f a) | Fault _ => None end.

(** Freeing a chain does not give its clusters back to [m_free_clusters]. *)
Example free_loses_count :
  free_after m_free_clusters (free_cluster_chain_starting_at 4 3 INCLUDING_FIRST example_volume) = Some 7 /\
  free_after m_free_clusters (calculate_capacity (table_volume example_table 0 0)) = Some 7 /\
  free_after m_free_clusters ('(v) ← free_cluster_chain_starting_at 4 3 INCLUDING_FIRST (table_volume example_table 0 0); calculate_capacity v) = Some 9.
Proof. split_and!; vm_compute; reflexivity. Qed.

(** Keeping the first cluster of a chain that has no other follows the end mark out of the table. *)
Example keep_first_of_single_cluster :
  outcome (free_cluster_chain_starting_at 4 2 KEEP_FIRST example_volume) = Some AssertionFailed.
Proof. vm_compute. reflexivity. Qed.

(** The last two clusters of the volume are counted as free, but no allocation ever finds them; and
    the hint that the count leaves is always 0. *)
Example last_clusters_unreachable :
  free_after m_free_clusters (calculate_capacity (table_volume example_table 7 0)) = Some 7 /\
  free_after m_last_free_cluster (calculate_capacity (table_volume example_table 7 0)) = Some 0 /\
  outcome (allocate_cluster_chain 6 0 example_volume) = Some KernelPanic.
Proof. split_and!; vm_compute; reflexivity. Qed.
