(* ===== verification/FatFile.v ===== *)
(** Files of FAT32 (FAT32::File of FileSystem/FAT32/FAT32.h, FAT32.cpp): the cached ranges of contiguous
    clusters, and reading and writing through them. *)
From S2P Require Import Prelude Utilities IOStream BlockStore FatTable FatChains.
From stdpp Require Import gmap list_numbers.
#[local] Open Scope Z_scope.

(** ** The code *)

(** [Kernel/FileSystem/FAT32/FAT32.h:77-90] FAT32::File::ContiguousFileRange *)
Record contiguous_range := ContiguousRange { file_offset_cluster : Z; global_cluster : Z }.

(** [Kernel/FileSystem/FAT32/FAT32.h:94-99] FAT32::File; m_identifier is the cluster and the offset of the directory entry *)
Record fat_file := FatFile {
  m_contiguous_ranges : list contiguous_range;
  m_identifier : Z * Z;
  m_first_cluster : Z;
  m_size : Z;
  m_is_dirty : bool }.

Definition set_ranges (l : list contiguous_range) (fl : fat_file) : fat_file :=
  FatFile l (m_identifier fl) (m_first_cluster fl) (m_size fl) (m_is_dirty fl).

(** [Kernel/FileSystem/FAT32/FAT32.h:49-53] FAT32::File::set_first_cluster *)
Definition set_first_cluster (c : Z) (fl : fat_file) : fat_file :=
  FatFile (m_contiguous_ranges fl) (m_identifier fl) c (m_size fl) true.

(** [Kernel/FileSystem/FAT32/FAT32.h:55-62] FAT32::File::set_size *)
Definition file_set_size (size : Z) (fl : fat_file) : fat_file :=
  let size := wrap32 size in
  FatFile (m_contiguous_ranges fl) (m_identifier fl) (if size =? 0 then 0 else m_first_cluster fl) size true.

Section Code.
Context {F D : Type} `{BlockStore F} `{BlockStore D}.

(** [Kernel/FileSystem/FAT32/FAT32.cpp:594-598] FAT32::locked_read *)
Definition locked_read (block_index offset bytes addr : Z) (m : umem) (v : volume F D) : result (volume F D * umem * error_code) :=
  '(data, m, e) ← bs_read block_index offset bytes addr m (m_data_cache v); Ok (set_data data v, m, e).

(** [Kernel/FileSystem/FAT32/FAT32.cpp:600-604] FAT32::locked_write *)
Definition locked_write (block_index offset bytes addr : Z) (m : umem) (v : volume F D) : result (volume F D * umem * error_code) :=
  '(data, m, e) ← bs_write block_index offset bytes addr m (m_data_cache v); Ok (set_data data v, m, e).

(** [Kernel/FileSystem/FAT32/FAT32.cpp:606-612] FAT32::locked_zero_fill *)
Fixpoint locked_zero_fill (count : nat) (block_index : Z) (v : volume F D) : result (volume F D) :=
  match count with
  | O => Ok v
  | S count => data ← bs_zero block_index (m_data_cache v); locked_zero_fill count (block_index + 1) (set_data data v)
  end.

(** [Kernel/FileSystem/FAT32/FAT32.cpp:640-667] FAT32::File::compute_contiguous_ranges, the loop *)
Fixpoint ranges_loop (fuel : nat) (m_size : Z) (acc : list contiguous_range) (r : contiguous_range)
    (current_file_offset current_cluster : Z) (v : volume F D) : result (volume F D * list contiguous_range) :=
  match fuel with
  | O => Fault OutOfFuel
  | S fuel =>
      '(v, next_cluster) ← fat_entry_at current_cluster v;
      match entry_type_of_fat_value next_cluster with
      | END_OF_CHAIN =>
          ASSERT (wrap32 (current_file_offset * m_bytes_per_cluster v) >=? m_size) ;;
          Ok (v, acc ++ [r])
      | LINK =>
          if next_cluster =? current_cluster + 1 then
            ranges_loop fuel m_size acc r (current_file_offset + 1) next_cluster v
          else
            ranges_loop fuel m_size (acc ++ [r]) (ContiguousRange (current_file_offset + 1) next_cluster)
              (current_file_offset + 1) next_cluster v
      | _ => Fault AssertionFailed
      end
  end.

(** [Kernel/FileSystem/FAT32/FAT32.cpp:624-668] FAT32::File::compute_contiguous_ranges *)
Definition compute_contiguous_ranges (fl : fat_file) (v : volume F D) : result (volume F D * fat_file) :=
  '(v, l) ← ranges_loop (S (Z.to_nat (m_cluster_count v))) (m_size fl) (m_contiguous_ranges fl)
    (ContiguousRange 0 (m_first_cluster fl)) 1 (m_first_cluster fl) v;
  Ok (v, set_ranges l fl).

(** [Kernel/FileSystem/FAT32/FAT32.cpp:671-687] FAT32::File::cluster_from_offset *)
Definition cluster_from_offset (offset : Z) (fl : fat_file) (v : volume F D) : result Z :=
  let offset := wrap32 offset in
  let l := m_contiguous_ranges fl in
  ASSERT (negb (Z.of_nat (length l) =? 0)) ;;
  ASSERT (offset <? ceiling_divide (m_size fl) (m_bytes_per_cluster v)) ;;
  itr ← lower_bound (fun o r => o <? file_offset_cluster r) (fun r o => file_offset_cluster r <? o) l offset;
  let itr := if itr =? Z.of_nat (length l) then itr - 1 else itr in
  r ← read_at l itr;
  r ← (if file_offset_cluster r >? offset then read_at l (itr - 1) else Ok r);
  let cluster := wrap32 (global_cluster r + (offset - file_offset_cluster r)) in
  ASSERT (bool_decide (entry_type_of_fat_value cluster = LINK)) ;;
  Ok cluster.

(** [Kernel/FileSystem/FAT32/FAT32.cpp:690-701] FAT32::File::last_cluster *)
Definition last_cluster (fl : fat_file) (v : volume F D) : result Z :=
  ASSERT (negb (Z.of_nat (length (m_contiguous_ranges fl)) =? 0)) ;;
  if m_size fl <? m_bytes_per_cluster v then Ok (m_first_cluster fl) else
  match last (m_contiguous_ranges fl) with
  | None => Fault OutOfBounds
  | Some r =>
      let last_file_cluster_offset := ceiling_divide (m_size fl) (m_bytes_per_cluster v) - 1 in
      Ok (wrap32 (global_cluster r + (last_file_cluster_offset - file_offset_cluster r)))
  end.

(** [Kernel/FileSystem/FAT32/FAT32.cpp:729-744] FAT32::File::read, the loop *)
Fixpoint file_read_loop (fuel : nat) (cluster_offset offset_within_cluster bytes_to_read byte_buffer : Z)
    (fl : fat_file) (m : umem) (v : volume F D) : result (volume F D * umem * error_code) :=
  match fuel with
  | O => Fault OutOfFuel
  | S fuel =>
      current_cluster ← cluster_from_offset cluster_offset fl v;
      let n := Z.min bytes_to_read (m_bytes_per_cluster v - offset_within_cluster) in
      block ← pure_cluster_value current_cluster;
      '(v, m, res) ← locked_read block offset_within_cluster n byte_buffer m v;
      if negb (bool_decide (res = NO_ERROR)) then Ok (v, m, res) else
      if bytes_to_read - n =? 0 then Ok (v, m, NO_ERROR) else
      file_read_loop fuel (cluster_offset + 1) 0 (bytes_to_read - n) (byte_buffer + n) fl m v
  end.

(** [Kernel/FileSystem/FAT32/FAT32.cpp:712-715] FAT32::File::read, the ranges are computed once *)
Definition with_ranges (fl : fat_file) (v : volume F D) : result (volume F D * fat_file) :=
  match m_contiguous_ranges fl with
  | [] => compute_contiguous_ranges fl v
  | _ => Ok (v, fl)
  end.

(** [Kernel/FileSystem/FAT32/FAT32.cpp:703-747] FAT32::File::read *)
Definition file_read (addr offset size : Z) (fl : fat_file) (m : umem) (v : volume F D) :
    result (volume F D * fat_file * umem * error_or Z) :=
  if offset >=? m_size fl then Ok (v, fl, m, Value 0) else
  '(v, fl) ← with_ranges fl v;
  let cluster_offset := offset / m_bytes_per_cluster v in
  let offset_within_cluster := offset - cluster_offset * m_bytes_per_cluster v in
  let bytes_to_read := Z.min size (m_size fl - offset) in
  '(v, m, res) ← file_read_loop (S (Z.to_nat bytes_to_read)) cluster_offset offset_within_cluster bytes_to_read addr fl m v;
  Ok (v, fl, m, if decide (res = NO_ERROR) then Value bytes_to_read else Error res).

(** [Kernel/FileSystem/FAT32/FAT32.cpp:847-877] FAT32::File::flush_meta_modifications; [entry] is the address of the local DirectoryEntry *)
Definition flush_meta_modifications (fl : fat_file) (v : volume F D) : result (volume F D * fat_file) :=
  if negb (m_is_dirty fl) then Ok (v, fl) else
  block ← pure_cluster_value (fst (m_identifier fl));
  let entry := list_to_map ((fun x => (x, 0)) <$> seqZ 0 32) in
  '(v, entry, _) ← locked_read block (snd (m_identifier fl)) 32 0 entry v;
  let entry := <[ 26 := m_first_cluster fl mod 256 ]> (<[ 27 := m_first_cluster fl / 256 mod 256 ]> entry) in
  let entry := <[ 20 := m_first_cluster fl / 65536 mod 256 ]> (<[ 21 := m_first_cluster fl / 16777216 mod 256 ]> entry) in
  let entry := <[ 28 := m_size fl mod 256 ]> (<[ 29 := m_size fl / 256 mod 256 ]> entry) in
  let entry := <[ 30 := m_size fl / 65536 mod 256 ]> (<[ 31 := m_size fl / 16777216 mod 256 ]> entry) in
  block ← pure_cluster_value (fst (m_identifier fl));
  '(v, _, _) ← locked_write block (snd (m_identifier fl)) 32 0 entry v;
  Ok (v, FatFile (m_contiguous_ranges fl) (m_identifier fl) (m_first_cluster fl) (m_size fl) false).

(** [Kernel/FileSystem/FAT32/FAT32.cpp:789-790] FAT32::File::write, zeroing the clusters of the gap *)
Fixpoint zero_clusters (l : list Z) (v : volume F D) : result (volume F D) :=
  match l with
  | [] => Ok v
  | c :: l => block ← pure_cluster_value c; v ← locked_zero_fill 1 block v; zero_clusters l v
  end.

(** [Kernel/FileSystem/FAT32/FAT32.cpp:763-801] FAT32::File::write, allocating the clusters that are missing *)
Definition grow_for_write (offset size : Z) (fl : fat_file) (v : volume F D) : result (volume F D * fat_file) :=
  let bpc := m_bytes_per_cluster v in
  let file_cluster_count := ceiling_divide (m_size fl) bpc in
  let needed_cluster_count := ceiling_divide (offset +! size) bpc in
  let offset_clusters := ceiling_divide offset bpc in
  let offset_within_cluster := offset - offset / bpc * bpc in
  if file_cluster_count <? needed_cluster_count then
    let clusters_to_zero := if file_cluster_count <? offset_clusters then offset_clusters - file_cluster_count else 0 in
    let clusters_to_allocate := wrap32 (clusters_to_zero + (needed_cluster_count - (file_cluster_count + clusters_to_zero))) in
    link ← last_cluster fl v;
    '(v, chain) ← allocate_cluster_chain clusters_to_allocate link v;
    v ← zero_clusters (take (Z.to_nat clusters_to_zero) chain) v;
    v ← (if negb ((size -! offset_within_cluster) mod bpc =? 0) then locked_zero_fill 1 (List.last chain 0) v else Ok v);
    Ok (v, if m_first_cluster fl =? 0 then set_first_cluster (hd 0 chain) fl else fl)
  else Ok (v, fl).

(** [Kernel/FileSystem/FAT32/FAT32.cpp:818-835] FAT32::File::write, the loop *)
Fixpoint file_write_loop (fuel : nat) (cluster_index offset_within_cluster bytes_to_write byte_buff : Z)
    (fl : fat_file) (m : umem) (v : volume F D) : result (volume F D * umem * error_code) :=
  match fuel with
  | O => Fault OutOfFuel
  | S fuel =>
      current_cluster ← cluster_from_offset cluster_index fl v;
      let n := Z.min bytes_to_write (m_bytes_per_cluster v - offset_within_cluster) in
      block ← pure_cluster_value current_cluster;
      '(v, m, res) ← locked_write block offset_within_cluster n byte_buff m v;
      if negb (bool_decide (res = NO_ERROR)) then Ok (v, m, res) else
      if bytes_to_write - n =? 0 then Ok (v, m, NO_ERROR) else
      file_write_loop fuel (cluster_index + 1) 0 (bytes_to_write - n) (byte_buff + n) fl m v
  end.

(** [Kernel/FileSystem/FAT32/FAT32.cpp:749-840] FAT32::File::write *)
Definition file_write (addr offset size : Z) (fl : fat_file) (m : umem) (v : volume F D) :
    result (volume F D * fat_file * umem * error_or Z) :=
  if size =? 0 then Ok (v, fl, m, Value 0) else
  '(v, fl) ← with_ranges fl v;
  let offset_cluster_index := offset / m_bytes_per_cluster v in
  let offset_within_cluster := offset - offset_cluster_index * m_bytes_per_cluster v in
  '(v, fl) ← grow_for_write offset size fl v;
  let end_of_write := offset +! size in
  '(v, fl) ← (if end_of_write >? m_size fl then
      '(v, fl) ← flush_meta_modifications (file_set_size end_of_write fl) v;
      compute_contiguous_ranges (set_ranges [] fl) v
    else Ok (v, fl));
  '(v, m, res) ← file_write_loop (S (Z.to_nat size)) offset_cluster_index offset_within_cluster size addr fl m v;
  Ok (v, fl, m, if decide (res = NO_ERROR) then Value size else Error res).
End Code.

(** ** Contiguous files *)

Lemma lower_bound_single c k :
  0 <= k -> lower_bound (fun o r => o <? file_offset_cluster r) (fun r o => file_offset_cluster r <? o) [ContiguousRange 0 c] k =
    Ok (if k =? 0 then 0 else 1).
Proof.
  intros Hk. unfold lower_bound. simpl. destruct (k <? 0) eqn:E1; bool_to_prop; [lia|]. destruct (0 <? k) eqn:E2; bool_to_prop.
  - destruct (k =? 0) eqn:E3; bool_to_prop; [lia|reflexivity].
  - destruct (k =? 0) eqn:E3; bool_to_prop; [reflexivity|lia].
Qed.

Section Files.
Context {F D : Type} `{BlockStore F} `{BlockStore D}.

(** The cache of the clusters. *)
Record data_ok (v : volume F D) : Prop := {
  do_store : bs_inv (m_data_cache v);
  do_size : bs_block_size (m_data_cache v) = m_bytes_per_cluster v;
  do_positive : 0 < m_bytes_per_cluster v;
  do_valid : forall b, 0 <= b < m_cluster_count v -> bs_valid (m_data_cache v) b }.

(** A file of [n] clusters in a row. *)
Record contiguous_file (fl : fat_file) (n : Z) (v : volume F D) (f : Z -> Z) : Prop := {
  cf_count : 0 < n /\ n * m_bytes_per_cluster v < 4294967296;
  cf_clusters : reserved_cluster_count <= m_first_cluster fl /\ m_first_cluster fl + n <= m_cluster_count v + reserved_cluster_count;
  cf_links : forall c, m_first_cluster fl <= c < m_first_cluster fl + n - 1 -> f c = c + 1;
  cf_end : end_of_chain_min_cluster <= f (m_first_cluster fl + n - 1);
  cf_size : 0 <= m_size fl <= n * m_bytes_per_cluster v;
  cf_ranges : m_contiguous_ranges fl = [] \/ m_contiguous_ranges fl = [ContiguousRange 0 (m_first_cluster fl)] }.

Lemma ranges_loop_contiguous k fuel size acc r c (o : Z) (v : volume F D) f :
  represents v f -> 0 <= k < Z.of_nat fuel -> reserved_cluster_count <= c -> c + k < m_cluster_count v + reserved_cluster_count ->
  (forall x, c <= x < c + k -> f x = x + 1) -> end_of_chain_min_cluster <= f (c + k) ->
  size <= (o + k) * m_bytes_per_cluster v < 4294967296 -> 0 <= size ->
  exists v', ranges_loop fuel size acc r o c v = Ok (v', acc ++ [r]) /\ represents v' f /\ same_volume v v'.
Proof.
  revert k c o v. induction fuel as [|fuel IH]; intros k c o v R Hk Hc Hck Hl He Hs Hs0; [lia|]. cbn [ranges_loop].
  assert (Hi : entry_index v c) by (unfold entry_index, reserved_cluster_count in *; lia).
  destruct (fat_entry_at_Ok v f c R Hi) as (v1 & -> & R1 & S1). run.
  assert (Eb : m_bytes_per_cluster v1 = m_bytes_per_cluster v) by (by rewrite S1).
  destruct (decide (k = 0)) as [->|Hk0].
  - rewrite Z.add_0_r in *. rewrite entry_end by done. unfold wrap32. rewrite Eb, Z.mod_small by lia.
    destruct (_ >=? _) eqn:E; bool_to_prop; [|lia]. run. by exists v1.
  - pose proof (vo_count _ (proj1 R)) as Hcount.
    rewrite Hl by lia. rewrite entry_link by (unfold reserved_cluster_count in *; lia). rewrite Z.eqb_refl.
    assert (Ec : m_cluster_count v1 = m_cluster_count v) by (by rewrite S1).
    destruct (IH (k - 1) (c + 1) (o + 1) v1 R1) as (v' & E & R' & S'); try lia.
    + intros x Hx. apply Hl. lia.
    + by replace (c + 1 + (k - 1)) with (c + k) by lia.
    + exists v'. split_and!; try done. by apply (same_volume_trans v v1).
Qed.

Lemma with_ranges_Ok fl n (v : volume F D) f :
  represents v f -> contiguous_file fl n v f ->
  exists v', with_ranges fl v = Ok (v', set_ranges [ContiguousRange 0 (m_first_cluster fl)] fl) /\ represents v' f /\ same_volume v v'.
Proof.
  intros R [Hn Hc Hl He Hs Hr]. unfold with_ranges. destruct Hr as [Hr|Hr]; rewrite Hr.
  - unfold compute_contiguous_ranges. rewrite Hr.
    destruct (ranges_loop_contiguous (n - 1) (S (Z.to_nat (m_cluster_count v))) (m_size fl) [] (ContiguousRange 0 (m_first_cluster fl))
      (m_first_cluster fl) 1 v f R) as (v' & -> & R' & S'); try (unfold reserved_cluster_count in *; lia).
    + intros x Hx. apply Hl. lia.
    + by replace (m_first_cluster fl + (n - 1)) with (m_first_cluster fl + n - 1) by lia.
    + run. by exists v'.
  - exists v. split_and!; [|done|apply same_volume_refl]. destruct fl. cbn in *. by rewrite <- Hr.
Qed.

Lemma cluster_from_offset_Ok fl n k (v : volume F D) f :
  volume_ok v -> data_ok v -> contiguous_file fl n v f -> 0 <= k -> k * m_bytes_per_cluster v < m_size fl ->
  cluster_from_offset k (set_ranges [ContiguousRange 0 (m_first_cluster fl)] fl) v = Ok (m_first_cluster fl + k) /\ k < n.
Proof.
  intros Ok0 [_ _ Hb _] [Hn Hc Hl He Hs Hr] Hk Hks. assert (Hkn : k < n) by nia. split; [|done].
  unfold cluster_from_offset. assert (Ew : wrap32 k = k) by (unfold wrap32; apply Z.mod_small; nia). rewrite Ew.
  cbn [m_contiguous_ranges set_ranges m_size length].
  pose proof (ceiling_divide_bounds (m_size fl) (m_bytes_per_cluster v) ltac:(lia) Hb) as Hcd.
  destruct (k <? _) eqn:E; bool_to_prop; [|nia]. run.
  rewrite lower_bound_single by done. run.
  assert (Eitr : (if (if k =? 0 then 0 else 1) =? Z.of_nat 1 then (if k =? 0 then 0 else 1) - 1 else if k =? 0 then 0 else 1) = 0).
  { destruct (k =? 0); done. }
  rewrite Eitr. change (read_at [ContiguousRange 0 (m_first_cluster fl)] 0) with (Ok (ContiguousRange 0 (m_first_cluster fl))). run.
  cbn [file_offset_cluster global_cluster]. destruct (0 >? k) eqn:E4; bool_to_prop; [lia|]. run.
  cbn [file_offset_cluster global_cluster]. rewrite Z.sub_0_r.
  pose proof (vo_count _ Ok0). unfold wrap32. rewrite Z.mod_small by (unfold reserved_cluster_count, bad_cluster in *; lia).
  rewrite bool_decide_true; [done|]. apply entry_link. unfold reserved_cluster_count in *. lia.
Qed.

(** The byte [p] of the file. *)
Definition file_byte (fl : fat_file) (v : volume F D) (p : Z) : Z :=
  bs_byte (m_data_cache v) (m_first_cluster fl + p / m_bytes_per_cluster v - reserved_cluster_count) (p mod m_bytes_per_cluster v).

Lemma data_ok_set s (v : volume F D) P :
  data_ok v -> bs_inv s -> bs_changes (m_data_cache v) s P -> data_ok (set_data s v).
Proof. intros [] Hs (Eb & Ev & _). split; cbn; try done; [congruence|]. intros b Hb. by apply Ev, do_valid0. Qed.

(** Everything but the cache of the clusters. *)
Definition same_data_volume (v v' : volume F D) : Prop := v' = set_data (m_data_cache v') v.

Lemma represents_set_data s (v : volume F D) f : represents v f -> represents (set_data s v) f.
Proof. intros [[] Hf]. split; [by split|exact Hf]. Qed.

Lemma contiguous_set_data s fl n (v : volume F D) f : contiguous_file fl n v f -> contiguous_file fl n (set_data s v) f.
Proof. by intros []. Qed.

Lemma file_read_loop_Ok fuel fl n p k a m (v : volume F D) f :
  represents v f -> data_ok v -> contiguous_file fl n v f ->
  0 <= p -> p + k <= m_size fl -> p < m_size fl -> 0 <= k < Z.of_nat fuel ->
  exists v' m' e, file_read_loop fuel (p / m_bytes_per_cluster v) (p - p / m_bytes_per_cluster v * m_bytes_per_cluster v) k a
      (set_ranges [ContiguousRange 0 (m_first_cluster fl)] fl) m v = Ok (v', m', e) /\
    represents v' f /\ data_ok v' /\ same_data_volume v v' /\
    (forall q, 0 <= q < m_size fl -> file_byte fl v' q = file_byte fl v q) /\
    changes_within m m' a (a + k) /\
    if decide (accessible m a (Z.to_nat k))
    then e = NO_ERROR /\ forall i, 0 <= i < k -> m' !! (a + i) = Some (file_byte fl v (p + i))
    else e = MEMORY_ACCESS_VIOLATION.
Proof.
  revert p k a m v. induction fuel as [|fuel IH]; intros p k a m v R Dk Cf Hp Hpk Hps Hk; [lia|]. cbn [file_read_loop].
  pose proof Dk as [Hst Hsz Hb Hval]. set (bpc := m_bytes_per_cluster v) in *. set (q0 := p / bpc).
  pose proof (Z.div_mod p bpc ltac:(lia)) as Hdm. pose proof (Z.mod_pos_bound p bpc Hb) as Hmod. fold q0 in Hdm.
  set (o := p - q0 * bpc). assert (Ho : o = p mod bpc) by (unfold o; lia). assert (Hq0 : 0 <= q0) by (apply Z.div_pos; lia).
  destruct (cluster_from_offset_Ok fl n q0 v f (proj1 R) Dk Cf Hq0 ltac:(fold bpc; nia)) as [-> Hqn]. run. fold bpc.
  pose proof Cf as [Hn Hc _ _ Hs _].
  unfold pure_cluster_value. destruct (_ >=? _) eqn:E; bool_to_prop; [|unfold reserved_cluster_count in *; lia]. run.
  set (b := m_first_cluster fl + q0 - reserved_cluster_count). set (t := Z.min k (bpc - o)).
  assert (Hv : bs_valid (m_data_cache v) b) by (apply Hval; unfold b, reserved_cluster_count in *; lia).
  destruct (bs_read_law b o t a m (m_data_cache v) Hst Hv ltac:(lia) ltac:(lia) ltac:(lia)) as (s & m1 & Er & Hs1 & Hch & Hm1 & Hrd).
  unfold locked_read. rewrite Er. run.
  assert (Hbytes : forall q, 0 <= q < m_size fl -> file_byte fl (set_data s v) q = file_byte fl v q).
  { intros q Hq. unfold file_byte. cbn. fold bpc. destruct Hch as (_ & _ & Hch). apply Hch; [|rewrite Hsz; by apply Z.mod_pos_bound|tauto].
    apply Hval. pose proof (Z.div_pos q bpc ltac:(lia) Hb). assert (q / bpc < n) by (apply Z.div_lt_upper_bound; [lia|]; fold bpc in Hs; lia).
    unfold reserved_cluster_count in *. lia. }
  assert (Hspan : forall i, 0 <= i < t -> bs_byte (m_data_cache v) b (o + i) = file_byte fl v (p + i)).
  { intros i Hi. unfold file_byte. fold bpc. assert (Edq : (p + i) / bpc = q0) by (symmetry; apply (Z.div_unique _ _ _ (o + i)); [left; lia|lia]).
    assert (Emq : (p + i) mod bpc = o + i) by (symmetry; apply (Z.mod_unique _ _ q0); [left; lia|lia]). by rewrite Edq, Emq. }
  assert (Dk1 : data_ok (set_data s v)) by (by eapply data_ok_set). assert (R1 := represents_set_data s v f R).
  assert (Hacc : accessible m a (Z.to_nat k) <-> accessible m a (Z.to_nat t) /\ accessible m (a + t) (Z.to_nat (k - t))).
  { replace (Z.to_nat k) with (Z.to_nat t + Z.to_nat (k - t))%nat by lia. rewrite accessible_app, Z2Nat.id by lia. done. }
  destruct (decide (accessible m a (Z.to_nat t))) as [Ha|Ha].
  2: { rewrite (bool_decide_false (MEMORY_ACCESS_VIOLATION = NO_ERROR)) by done. cbn [negb]. eexists _, _, _. split_and!; try done.
       - eapply changes_within_wider; [done|lia..].
       - rewrite decide_False by tauto. done. }
  rewrite (bool_decide_true (NO_ERROR = NO_ERROR)) by done. cbn [negb]. specialize (Hrd Ha).
  assert (Hrd' : forall i, 0 <= i < t -> m1 !! (a + i) = Some (file_byte fl v (p + i))).
  { intros i Hi. rewrite <- Hspan by done. specialize (Hrd (o + i) ltac:(unfold in_span; lia)). by replace (a + (o + i - o)) with (a + i) in Hrd by lia. }
  destruct (k - t =? 0) eqn:Ekt; bool_to_prop.
  { eexists _, _, _. split_and!; try done; [eapply changes_within_wider; [done|lia..]|].
    rewrite decide_True; [|apply Hacc; split; [done|intros i Hi; lia]]. split; [done|]. intros i Hi. apply Hrd'. lia. }
  assert (Et : t = bpc - o) by lia.
  destruct (IH (p + t) (k - t) (a + t) m1 (set_data s v) R1 Dk1 (contiguous_set_data s fl n v f Cf) ltac:(lia) ltac:(lia) ltac:(lia) ltac:(lia))
    as (v' & m' & e & E' & R' & Dk' & S' & Hbytes' & Hm' & Hres).
  change (m_bytes_per_cluster (set_data s v)) with bpc in E'.
  assert (Edq : (p + t) / bpc = q0 + 1) by (symmetry; apply (Z.div_unique _ _ _ 0); lia).
  rewrite Edq in E'. replace (p + t - (q0 + 1) * bpc) with 0 in E' by lia. rewrite E'.
  exists v', m', e. split_and!; try done.
  - intros q Hq. rewrite Hbytes', Hbytes by done. done.
  - eapply changes_within_trans; eapply changes_within_wider; try done; lia.
  - assert (Hm1' := changes_within_accessible m m1 a (a + t) (a + t) (Z.to_nat (k - t)) Hm1).
    destruct (decide (accessible m a (Z.to_nat k))) as [Hak|Hak].
    + rewrite decide_True in Hres by tauto. destruct Hres as [-> Hres]. split; [done|]. intros i Hi.
      destruct (decide (i < t)) as [Hit|Hit].
      * destruct (Hm' (a + i)) as [[?|Hsame] _]; [lia|]. rewrite Hsame. apply Hrd'. lia.
      * specialize (Hres (i - t) ltac:(lia)). replace (a + t + (i - t)) with (a + i) in Hres by lia.
        rewrite Hres. f_equal. rewrite Hbytes by lia. f_equal. lia.
    + rewrite decide_False in Hres by tauto. done.
Qed.
End Files.
