(* ===== verification/FatFileCorrect.v ===== *)
(** What reading and writing a file of FAT32 guarantee, over any block store, for the files whose
    clusters are in a row; and what the code does with the other files. *)
From S2P Require Import Prelude Page Range Utilities IOStream BlockStore DiskCache DiskCacheCorrect FatTable FatChains FatChainsCorrect FatFile.
From stdpp Require Import gmap list_numbers.
#[local] Open Scope Z_scope.

Section Correct.
Context {F D : Type} `{BlockStore F} `{BlockStore D}.

(** The places of the bytes [p, p + k) of the file among the blocks. *)
Definition at_bytes (fl : fat_file) (bpc p k b i : Z) : Prop :=
  exists q, p <= q < p + k /\ b = m_first_cluster fl + q / bpc - reserved_cluster_count /\ i = q mod bpc.

Lemma at_bytes_wider fl bpc p k p' k' b i : at_bytes fl bpc p k b i -> p' <= p -> p + k <= p' + k' -> at_bytes fl bpc p' k' b i.
Proof. intros (q & Hq & ?) ??. exists q. split; [lia|done]. Qed.

Lemma at_bytes_file fl bpc p k q : 0 < bpc ->
  at_bytes fl bpc p k (m_first_cluster fl + q / bpc - reserved_cluster_count) (q mod bpc) -> p <= q < p + k.
Proof.
  intros Hb (q' & Hq & E1 & E2). assert (q = q'); [|lia]. rewrite (Z.div_mod q bpc), (Z.div_mod q' bpc) by lia.
  rewrite E2. f_equal. f_equal. lia.
Qed.

Lemma file_position fl n (v : volume F D) f q :
  data_ok v -> contiguous_file fl n v f -> 0 <= q < m_size fl ->
  bs_valid (m_data_cache v) (m_first_cluster fl + q / m_bytes_per_cluster v - reserved_cluster_count) /\
  0 <= q mod m_bytes_per_cluster v < bs_block_size (m_data_cache v).
Proof.
  intros [_ Hsz Hb Hval] [Hn Hc _ _ Hs _] Hq. split; [|rewrite Hsz; by apply Z.mod_pos_bound]. apply Hval.
  pose proof (Z.div_pos q (m_bytes_per_cluster v) ltac:(lia) Hb).
  assert (q / m_bytes_per_cluster v < n) by (apply Z.div_lt_upper_bound; [lia|]; lia). unfold reserved_cluster_count in *. lia.
Qed.

Lemma bs_changes_trans {S} `{BlockStore S} (s1 s2 s3 : S) (P Q R : Z -> Z -> Prop) :
  bs_changes s1 s2 P -> bs_changes s2 s3 Q -> (forall b i, P b i \/ Q b i -> R b i) -> bs_changes s1 s3 R.
Proof.
  intros (E1 & V1 & C1) (E2 & V2 & C2) HR. split_and!; [congruence|intros b; by rewrite V2, V1|].
  intros b i Hb Hi Hn. rewrite C2, C1; try done; [naive_solver|by apply V1|by rewrite E1|naive_solver].
Qed.

(** The loop of [write]: the bytes of the user's buffer replace those of the file, and no other
    byte of the volume changes, even when the buffer cannot be read to its end. *)
Lemma file_write_loop_Ok fuel fl n p k a m (v : volume F D) f :
  represents v f -> data_ok v -> contiguous_file fl n v f ->
  0 <= p -> p + k <= m_size fl -> p < m_size fl -> 0 <= k < Z.of_nat fuel ->
  exists v' e, file_write_loop fuel (p / m_bytes_per_cluster v) (p - p / m_bytes_per_cluster v * m_bytes_per_cluster v) k a
      (set_ranges [ContiguousRange 0 (m_first_cluster fl)] fl) m v = Ok (v', m, e) /\
    represents v' f /\ data_ok v' /\ same_data_volume v v' /\
    bs_changes (m_data_cache v) (m_data_cache v') (at_bytes fl (m_bytes_per_cluster v) p k) /\
    if decide (accessible m a (Z.to_nat k))
    then e = NO_ERROR /\ forall i, 0 <= i < k -> m !! (a + i) = Some (file_byte fl v' (p + i))
    else e = MEMORY_ACCESS_VIOLATION.
Proof.
  revert p k a v. induction fuel as [|fuel IH]; intros p k a v R Dk Cf Hp Hpk Hps Hk; [lia|]. cbn [file_write_loop].
  pose proof Dk as [Hst Hsz Hb Hval]. set (bpc := m_bytes_per_cluster v) in *. set (q0 := p / bpc).
  pose proof (Z.div_mod p bpc ltac:(lia)) as Hdm. pose proof (Z.mod_pos_bound p bpc Hb) as Hmod. fold q0 in Hdm.
  set (o := p - q0 * bpc). assert (Ho : o = p mod bpc) by (unfold o; lia). assert (Hq0 : 0 <= q0) by (apply Z.div_pos; lia).
  destruct (cluster_from_offset_Ok fl n q0 v f (proj1 R) Dk Cf Hq0 ltac:(fold bpc; nia)) as [-> Hqn]. run. fold bpc.
  pose proof Cf as [Hn Hc _ _ Hs _].
  unfold pure_cluster_value. destruct (_ >=? _) eqn:E; bool_to_prop; [|unfold reserved_cluster_count in *; lia]. run.
  set (b := m_first_cluster fl + q0 - reserved_cluster_count). set (t := Z.min k (bpc - o)).
  assert (Hv : bs_valid (m_data_cache v) b) by (apply Hval; unfold b, reserved_cluster_count in *; lia).
  destruct (bs_write_law b o t a m (m_data_cache v) Hst Hv ltac:(lia) ltac:(lia) ltac:(lia)) as (s & Er & Hs1 & Hch & Hwr).
  unfold locked_write. rewrite Er. run.
  assert (Hspan : forall i, 0 <= i < t -> (p + i) / bpc = q0 /\ (p + i) mod bpc = o + i).
  { intros i Hi. split; symmetry; [apply (Z.div_unique _ _ _ (o + i)); [left; lia|lia]|apply (Z.mod_unique _ _ q0); [left; lia|lia]]. }
  assert (Hch1 : bs_changes (m_data_cache v) (m_data_cache (set_data s v)) (at_bytes fl bpc p k)).
  { destruct Hch as (Eb & Ev & Hch). split_and!; try done. intros b' i Hb' Hi Hn'. apply Hch; try done. intros [-> Hsp]. apply Hn'.
    unfold in_span in Hsp. exists (p + (i - o)). destruct (Hspan (i - o) ltac:(lia)) as [-> ->]. split_and!; lia. }
  assert (Dk1 : data_ok (set_data s v)) by (by eapply data_ok_set). assert (R1 := represents_set_data s v f R).
  assert (Hacc : accessible m a (Z.to_nat k) <-> accessible m a (Z.to_nat t) /\ accessible m (a + t) (Z.to_nat (k - t))).
  { replace (Z.to_nat k) with (Z.to_nat t + Z.to_nat (k - t))%nat by lia. rewrite accessible_app, Z2Nat.id by lia. done. }
  destruct (decide (accessible m a (Z.to_nat t))) as [Ha|Ha].
  2: { rewrite (bool_decide_false (MEMORY_ACCESS_VIOLATION = NO_ERROR)) by done. cbn [negb]. eexists _, _. split_and!; try done.
       rewrite decide_False by tauto. done. }
  rewrite (bool_decide_true (NO_ERROR = NO_ERROR)) by done. cbn [negb]. specialize (Hwr Ha).
  assert (Hwr' : forall i, 0 <= i < t -> m !! (a + i) = Some (file_byte fl (set_data s v) (p + i))).
  { intros i Hi. destruct (Hspan i Hi) as [E1 E2]. unfold file_byte. cbn. fold bpc. rewrite E1, E2.
    specialize (Hwr (o + i) ltac:(unfold in_span; lia)). by replace (a + (o + i - o)) with (a + i) in Hwr by lia. }
  destruct (k - t =? 0) eqn:Ekt; bool_to_prop.
  { eexists _, _. split_and!; try done.
    rewrite decide_True; [|apply Hacc; split; [done|intros i Hi; lia]]. split; [done|]. intros i Hi. apply Hwr'. lia. }
  assert (Et : t = bpc - o) by lia.
  destruct (IH (p + t) (k - t) (a + t) (set_data s v) R1 Dk1 (contiguous_set_data s fl n v f Cf) ltac:(lia) ltac:(lia) ltac:(lia) ltac:(lia))
    as (v' & e & E' & R' & Dk' & S' & Hch2 & Hres).
  change (m_bytes_per_cluster (set_data s v)) with bpc in *.
  assert (Edq : (p + t) / bpc = q0 + 1) by (symmetry; apply (Z.div_unique _ _ _ 0); lia).
  rewrite Edq in E'. replace (p + t - (q0 + 1) * bpc) with 0 in E' by lia. rewrite E'.
  exists v', e. split_and!; try done.
  - eapply bs_changes_trans; [exact Hch1|exact Hch2|]. intros b' i [Hx|Hx]; eapply at_bytes_wider; try exact Hx; lia.
  - destruct (decide (accessible m a (Z.to_nat k))) as [Hak|Hak].
    + rewrite decide_True in Hres by tauto. destruct Hres as [-> Hres]. split; [done|]. intros i Hi.
      destruct (decide (i < t)) as [Hit|Hit].
      * rewrite Hwr' by lia. f_equal. unfold file_byte. rewrite S'. cbn. fold bpc. destruct Hch2 as (_ & _ & Hch2). symmetry.
        destruct (file_position fl n (set_data s v) f (p + i) Dk1 (contiguous_set_data s fl n v f Cf) ltac:(lia)) as [Hpv Hpi].
        apply Hch2; try done. intros Hat. apply at_bytes_file in Hat; [lia|done].
      * specialize (Hres (i - t) ltac:(lia)). replace (a + t + (i - t)) with (a + i) in Hres by lia.
        rewrite Hres. f_equal. f_equal. lia.
    + rewrite decide_False in Hres by tauto. done.
Qed.

(** What the ranges do not change. *)
Lemma represents_same (v v' : volume F D) f : represents v' f -> same_volume v v' -> data_ok v -> data_ok v'.
Proof. intros _ S []. rewrite S. by split. Qed.

Lemma contiguous_same fl n (v v' : volume F D) f : same_volume v v' -> contiguous_file fl n v f -> contiguous_file fl n v' f.
Proof. intros S []. rewrite S. by split. Qed.

(** The file with its ranges computed. *)
Definition ranged (fl : fat_file) : fat_file := set_ranges [ContiguousRange 0 (m_first_cluster fl)] fl.

(** What a read does. *)
Lemma file_read_Ok fl n addr offset size m (v : volume F D) f :
  represents v f -> data_ok v -> contiguous_file fl n v f -> 0 <= offset -> 0 <= size ->
  exists v' fl' m' res, file_read addr offset size fl m v = Ok (v', fl', m', res) /\
    represents v' f /\ data_ok v' /\ contiguous_file fl' n v' f /\ m_size fl' = m_size fl /\
    (forall q, 0 <= q < m_size fl -> file_byte fl' v' q = file_byte fl v q) /\
    let k := Z.max 0 (Z.min size (m_size fl - offset)) in
    changes_within m m' addr (addr + k) /\
    if decide (accessible m addr (Z.to_nat k))
    then res = Value k /\ forall i, 0 <= i < k -> m' !! (addr + i) = Some (file_byte fl v (offset + i))
    else res = Error MEMORY_ACCESS_VIOLATION.
Proof.
  intros R Dk Cf Ho Hsz. unfold file_read. destruct (offset >=? m_size fl) eqn:E; bool_to_prop.
  { exists v, fl, m, (Value 0). cbn zeta. replace (Z.max 0 (Z.min size (m_size fl - offset))) with 0 by lia. split_and!; try done.
    1: apply changes_within_refl. rewrite decide_True by (intros i Hi; lia). split; [done|lia]. }
  destruct (with_ranges_Ok fl n v f R Cf) as (v1 & -> & R1 & S1). run.
  assert (Dk1 := represents_same v v1 f R1 S1 Dk). assert (Cf1 := contiguous_same fl n v v1 f S1 Cf).
  cbn [m_size set_ranges]. cbn zeta. replace (Z.max 0 (Z.min size (m_size fl - offset))) with (Z.min size (m_size fl - offset)) by lia.
  set (k := Z.min size (m_size fl - offset)).
  destruct (file_read_loop_Ok (S (Z.to_nat k)) fl n offset k addr m v1 f R1 Dk1 Cf1 ltac:(lia) ltac:(lia) ltac:(lia) ltac:(lia))
    as (v' & m' & e & -> & R' & Dk' & S' & Hbytes & Hm & Hres). run.
  assert (Ebyte : forall q, file_byte fl v1 q = file_byte fl v q) by (intros q; by rewrite S1).
  eexists _, _, _, _. split; [reflexivity|]. split_and!; try done.
  - rewrite S'. destruct Cf1. split; try done. by right.
  - intros q Hq. rewrite <- Ebyte, <- Hbytes by done. done.
  - destruct (decide (accessible m addr (Z.to_nat k))).
    + destruct Hres as [-> Hres]. split; [done|]. intros i Hi. rewrite Hres by done. by rewrite Ebyte.
    + rewrite Hres. by rewrite decide_False.
Qed.

(** C11: reading a file whose clusters are in a row: past the end it reads nothing; otherwise it
    reads to the end of the file at most, every byte that arrives is the byte of the file, the file
    and the table are as they were, no memory outside the buffer changes, and a buffer that is not
    accessible gives [MEMORY_ACCESS_VIOLATION]. *)
Theorem file_read_correct fl n addr offset size m (v : volume F D) f :
  represents v f -> data_ok v -> contiguous_file fl n v f -> 0 <= offset -> 0 <= size ->
  exists v' fl' m' res, file_read addr offset size fl m v = Ok (v', fl', m', res) /\
    represents v' f /\ data_ok v' /\ contiguous_file fl' n v' f /\ m_size fl' = m_size fl /\
    (forall q, 0 <= q < m_size fl -> file_byte fl' v' q = file_byte fl v q) /\
    let k := Z.max 0 (Z.min size (m_size fl - offset)) in
    changes_within m m' addr (addr + k) /\
    if decide (accessible m addr (Z.to_nat k))
    then res = Value k /\ forall i, 0 <= i < k -> m' !! (addr + i) = Some (file_byte fl v (offset + i))
    else res = Error MEMORY_ACCESS_VIOLATION.
Proof. apply file_read_Ok. Qed.

Lemma ceiling_divide_mono a b c : 0 <= a <= b -> 0 < c -> ceiling_divide a c <= ceiling_divide b c.
Proof.
  intros Hab Hc. pose proof (ceiling_divide_bounds a c ltac:(lia) Hc). pose proof (ceiling_divide_bounds b c ltac:(lia) Hc). nia.
Qed.

(** Writing inside the file: nothing is allocated. *)
Lemma file_write_inside_Ok fl n addr offset size m (v : volume F D) f :
  represents v f -> data_ok v -> contiguous_file fl n v f ->
  0 <= offset -> 0 < size -> offset + size <= m_size fl -> accessible m addr (Z.to_nat size) ->
  exists v', file_write addr offset size fl m v = Ok (v', ranged fl, m, Value size) /\
    represents v' f /\ data_ok v' /\ contiguous_file (ranged fl) n v' f /\ m_bytes_per_cluster v' = m_bytes_per_cluster v /\
    bs_changes (m_data_cache v) (m_data_cache v') (at_bytes fl (m_bytes_per_cluster v) offset size) /\
    forall i, 0 <= i < size -> m !! (addr + i) = Some (file_byte fl v' (offset + i)).
Proof.
  intros R Dk Cf Ho Hsz Hos Hacc. unfold file_write. destruct (size =? 0) eqn:E; bool_to_prop; [lia|].
  destruct (with_ranges_Ok fl n v f R Cf) as (v1 & -> & R1 & S1). run.
  assert (Dk1 := represents_same v v1 f R1 S1 Dk). assert (Cf1 := contiguous_same fl n v v1 f S1 Cf).
  assert (Hu : offset +! size = offset + size).
  { apply wrap64_small. unfold is_u64. pose proof (cf_count _ _ _ _ Cf). pose proof (cf_size _ _ _ _ Cf). lia. }
  assert (Hb := do_positive _ Dk1).
  unfold grow_for_write. cbn [m_size set_ranges]. rewrite Hu.
  pose proof (ceiling_divide_mono (offset + size) (m_size fl) (m_bytes_per_cluster v1) ltac:(lia) Hb).
  destruct (_ <? _) eqn:E1; bool_to_prop; [lia|]. run. cbn [m_size set_ranges].
  destruct (_ >? _) eqn:E2; bool_to_prop; [lia|]. run.
  destruct (file_write_loop_Ok (S (Z.to_nat size)) fl n offset size addr m v1 f R1 Dk1 Cf1 ltac:(lia) ltac:(lia) ltac:(lia) ltac:(lia))
    as (v' & e & -> & R' & Dk' & S' & Hch & Hres). run. rewrite decide_True in Hres by done. destruct Hres as [-> Hres].
  rewrite decide_True by done.
  exists v'. split_and!; [done|done|done| |by rewrite S', S1|by rewrite S1 in Hch|done].
  rewrite S'. destruct Cf1. split; try done. by right.
Qed.

(** C12: writing inside a file whose clusters are in a row allocates nothing and leaves the table and
    the directory entry alone; the bytes of the buffer replace those of the file, no other byte of
    the volume changes, and reading the same range of the file back gives the buffer. *)
Theorem file_write_read fl n addr offset size m (v : volume F D) f :
  represents v f -> data_ok v -> contiguous_file fl n v f ->
  0 <= offset -> 0 < size -> offset + size <= m_size fl -> accessible m addr (Z.to_nat size) ->
  exists v' fl', file_write addr offset size fl m v = Ok (v', fl', m, Value size) /\
    represents v' f /\ contiguous_file fl' n v' f /\
    bs_changes (m_data_cache v) (m_data_cache v') (at_bytes fl (m_bytes_per_cluster v) offset size) /\
    forall to m2, accessible m2 to (Z.to_nat size) ->
      exists v2 m2', file_read to offset size fl' m2 v' = Ok (v2, fl', m2', Value size) /\
        forall i, 0 <= i < size -> m2' !! (to + i) = m !! (addr + i).
Proof.
  intros R Dk Cf Ho Hsz Hos Hacc.
  destruct (file_write_inside_Ok fl n addr offset size m v f R Dk Cf Ho Hsz Hos Hacc) as (v' & E & R' & Dk' & Cf' & _ & Hch & Hres).
  exists v', (ranged fl). split_and!; [done|done|done|done|].
  intros to m2 Ha2. unfold file_read. cbn [m_size ranged set_ranges]. destruct (_ >=? _) eqn:E3; bool_to_prop; [lia|].
  change (with_ranges (ranged fl) v') with (@Ok (volume F D * fat_file) (v', ranged fl)). run. cbn [m_size ranged set_ranges].
  rewrite Z.min_l by lia.
  destruct (file_read_loop_Ok (S (Z.to_nat size)) (ranged fl) n offset size to m2 v' f R' Dk' Cf' ltac:(lia) ltac:(cbn; lia) ltac:(cbn; lia) ltac:(lia))
    as (v2 & m2' & e2 & E4 & _ & _ & _ & _ & _ & Hres2). rewrite decide_True in Hres2 by done. destruct Hres2 as [-> Hres2].
  change (set_ranges [ContiguousRange 0 (m_first_cluster (ranged fl))] (ranged fl)) with (ranged fl) in E4.
  unfold ranged in E4. fold (ranged fl) in E4. fold (ranged fl). rewrite E4. run. eexists _, _. split; [reflexivity|]. intros i Hi. by rewrite Hres2, Hres.
Qed.
End Correct.

(** ** A concrete volume *)

(** Ten clusters of one sector; the byte [x] of the disk is [x / 512 + x mod 8]. *)
Definition clusters_device : device := fun x => x / 512 + x mod 8.
Definition clusters_cache (dev : device) : disk_cache := DiskCache (Range 0 16) 4096 512 512 8 16 0 ∅ [] ∅ dev.
Definition volume_on (dev : device) (l : list Z) : volume disk_cache disk_cache :=
  Volume 7 5 10 512 0x0FFFFFFF (table_cache l) (clusters_cache dev).
Definition file_volume : list Z -> volume disk_cache disk_cache := volume_on clusters_device.

(** A file of the clusters 3, 4 and one of the clusters 3, 5. *)
Definition row_table : list Z := [0x0FFFFFF8; 0x0FFFFFFF; 0x0FFFFFFF; 4; 0x0FFFFFFF; 0; 0; 0; 0; 0; 0; 0].
Definition split_table : list Z := [0x0FFFFFF8; 0x0FFFFFFF; 0x0FFFFFFF; 5; 0; 0x0FFFFFFF; 0; 0; 0; 0; 0; 0].
Definition example_file : fat_file := FatFile [] (2, 0) 3 1000 false.
Definition zeroes (n : Z) : umem := list_to_map ((fun x => (x, 0)) <$> seqZ 0 n).

Lemma volume_on_data dev l : data_ok (volume_on dev l).
Proof.
  split; cbn; try done.
  - apply (make_cache_Ok dev 512 (Range 0 16) 512 128); [reflexivity|]. split_and!; try done. left. by exists 9.
  - intros b Hb. unfold dc_valid, valid_unit, unit_of, dc_bytes. cbn. split; [lia|]. dlia.
Qed.

Lemma volume_on_represents dev : represents (volume_on dev row_table) (table_of row_table).
Proof.
  split.
  - split; cbn; try done; [apply table_cache_inv|]. intros i Hi. unfold entry_index, reserved_cluster_count in Hi. cbn in Hi.
    unfold dc_valid, valid_unit, unit_of, dc_bytes. cbn. split; [lia|]. dlia.
  - intros i Hi. unfold entry_index, reserved_cluster_count in Hi. cbn in Hi. apply Z.eqb_eq.
    apply (all_below_spec 12 (fun i => fat (volume_on dev row_table) i =? table_of row_table i)); [vm_compute; reflexivity|lia].
Qed.

Lemma example_file_contiguous : contiguous_file example_file 2 (file_volume row_table) (table_of row_table).
Proof.
  split; [by vm_compute|vm_compute; split; congruence| |vm_compute; congruence|vm_compute; split; congruence|by left].
  cbn [m_first_cluster example_file]. intros c Hc. replace c with 3 by lia. reflexivity.
Qed.

Lemma file_read_correct_witness :
  exists v fl m, file_read 0 500 600 example_file (zeroes 600) (file_volume row_table) = Ok (v, fl, m, Value 500) /\
    m !! 11 = Some 8 /\ m !! 12 = Some 2.
Proof.
  destruct (file_read_correct example_file 2 0 500 600 (zeroes 600) (file_volume row_table) (table_of row_table)
    (volume_on_represents _) (volume_on_data _ _) example_file_contiguous ltac:(lia) ltac:(lia))
    as (v & fl & m & res & E & _ & _ & _ & _ & _ & _ & Hres).
  exists v, fl, m. rewrite decide_True in Hres by (apply (bool_decide_eq_true_1 _); vm_compute; reflexivity). destruct Hres as [-> Hres].
  split_and!; [exact E| |].
  - etransitivity; [apply (Hres 11); vm_compute; intuition congruence|]. vm_compute. reflexivity.
  - etransitivity; [apply (Hres 12); vm_compute; intuition congruence|]. vm_compute. reflexivity.
Defined.

Lemma file_write_read_witness :
  exists v fl, file_write 0 500 400 example_file (zeroes 400) (file_volume row_table) = Ok (v, fl, zeroes 400, Value 400).
Proof.
  destruct (file_write_read example_file 2 0 500 400 (zeroes 400) (file_volume row_table) (table_of row_table)
    (volume_on_represents _) (volume_on_data _ _) example_file_contiguous ltac:(lia) ltac:(lia) ltac:(vm_compute; congruence))
    as (v & fl & E & _); [apply (bool_decide_eq_true_1 _); vm_compute; reflexivity|].
  exists v, fl. exact E.
Defined.

(** The second cluster of a file whose clusters are 3 and 5: the ranges put cluster 5 at the offset 2
    of the file, and the offset 1 is read from cluster 4, which is free. *)
Example fragmented_file_reads_wrong_cluster :
  match with_ranges example_file (file_volume split_table) with
  | Ok (v, fl) => m_contiguous_ranges fl = [ContiguousRange 0 3; ContiguousRange 2 5] /\ cluster_from_offset 1 fl v = Ok 4
  | Fault _ => False
  end.
Proof. vm_compute. split; reflexivity. Qed.

(** The byte [i] of the cluster [c] after an operation. *)
Definition cluster_byte_after {A} (c i : Z) (r : result (volume disk_cache disk_cache * A)) : option Z :=
  match r with Ok (v, _) => Some (dc_byte (m_data_cache v) (c - 2) i) | Fault _ => None end.

(** A file of one cluster that grows by one: the cluster 8 is allocated, and the cluster 10, which
    belongs to whoever has it, is zeroed in its place. *)
Definition small_file : fat_file := FatFile [ContiguousRange 0 4] (2, 0) 4 512 false.
Example growth_zeroes_wrong_cluster :
  let v := file_volume [0x0FFFFFF8; 0x0FFFFFFF; 0x0FFFFFFF; 0; 0x0FFFFFFF; 0x0FFFFFFF; 0x0FFFFFFF; 0x0FFFFFFF; 0; 0; 0x0FFFFFFF; 0] in
  cluster_byte_after 10 7 (Ok (v, tt)) = Some 15 /\
  cluster_byte_after 10 7 (grow_for_write 512 100 small_file v) = Some 0 /\
  cluster_byte_after 8 7 (Ok (v, tt)) = Some 13 /\
  cluster_byte_after 8 7 (grow_for_write 512 100 small_file v) = Some 13.
Proof. vm_compute. split_and!; reflexivity. Qed.
