(* ===== verification/FatFileStream.v ===== *)
(** The files of FAT32 keep the promises of the file interface, when their clusters are in a row:
    the streams of such a file are the ideal ones, through the cache and down to the disk. *)
From S2P Require Import Prelude Numerals Page Range IOStream FileIterator BlockStore DiskCache DiskCacheCorrect FatTable FatChains.
From S2P Require Import FatChainsCorrect FatFile FatFileCorrect.
From stdpp Require Import gmap list_numbers.
#[local] Open Scope Z_scope.

Section FatStream.
Context {F D : Type} `{BlockStore F} `{BlockStore D}.

(** [Kernel/FileSystem/FAT32/FAT32.cpp:842-845] FAT32::File::truncate *)
Definition file_truncate (new_size : Z) (s : volume F D * fat_file) : result (volume F D * fat_file * error_code) :=
  Ok (s, UNSUPPORTED).

#[export] Instance fat_file_ops : FileOps (volume F D * fat_file) := {|
  fo_read addr offset size m s := '(v, fl, m, r) ← file_read addr offset size s.2 m s.1; Ok ((v, fl), m, r);
  fo_write addr offset size m s := '(v, fl, m, r) ← file_write addr offset size s.2 m s.1; Ok ((v, fl), m, r);
  fo_size s := m_size s.2;
  fo_truncate := file_truncate;
|}.

Definition fat_holds (s : volume F D * fat_file) (l : list Z) : Prop :=
  exists n f, represents s.1 f /\ data_ok s.1 /\ contiguous_file s.2 n s.1 f /\ m_size s.2 = Z.of_nat (length l) /\
    forall i x, l !! i = Some x -> file_byte s.2 s.1 (Z.of_nat i) = x.

Lemma fat_read_law addr offset size m s l :
  fat_holds s l -> is_u64 offset -> is_u64 size ->
  let piece := take (Z.to_nat size) (drop (Z.to_nat offset) l) in
  accessible m addr (length piece) ->
  exists s' m', fo_read addr offset size m s = Ok (s', m', Value (Z.of_nat (length piece))) /\
    fat_holds s' l /\ changes_within m m' addr (addr + Z.of_nat (length piece)) /\ stored m' addr piece.
Proof.
  destruct s as [v fl]. intros (n & f & R & Dk & Cf & Hsz & Hb) Ho Hs piece Ha. unfold is_u64 in *. cbn [fst snd] in *.
  destruct (file_read_Ok fl n addr offset size m v f R Dk Cf ltac:(lia) ltac:(lia))
    as (v' & fl' & m' & res & E & R' & Dk' & Cf' & Hsz' & Hsame & Hc & Hres). cbn [fo_read fat_file_ops fst snd]. rewrite E. run.
  assert (Hk : Z.max 0 (Z.min size (m_size fl - offset)) = Z.of_nat (length piece))
    by (unfold piece; rewrite length_take, length_drop; lia).
  rewrite Hk in Hc, Hres. rewrite Nat2Z.id, decide_True in Hres by done. destruct Hres as [-> Hres].
  exists (v', fl'), m'. split_and!; [done| |done|].
  - exists n, f. cbn [fst snd]. split_and!; [done|done|done|congruence|]. intros i x Hi. apply lookup_lt_Some in Hi as Hlt.
    rewrite Hsame by lia. by apply Hb.
  - intros i x Hi. apply lookup_lt_Some in Hi as Hlt. rewrite Hres by lia. f_equal. unfold piece in Hi.
    rewrite lookup_take in Hi. case_decide; [|done]. rewrite lookup_drop in Hi.
    rewrite <- (Hb _ _ Hi). f_equal. lia.
Qed.

Lemma fat_write_law addr offset size m s l bytes :
  fat_holds s l -> is_u64 offset -> is_u64 size -> offset + size <= Z.of_nat (length l) ->
  stored m addr bytes -> Z.of_nat (length bytes) = size ->
  exists s', fo_write addr offset size m s = Ok (s', m, Value size) /\ fat_holds s' (overwrite (Z.to_nat offset) bytes l).
Proof.
  destruct s as [v fl]. intros (n & f & R & Dk & Cf & Hsz & Hb) Ho Hs Hin Hst Hlen. unfold is_u64 in *. cbn [fst snd] in *.
  cbn [fo_write fat_file_ops fst snd]. destruct (decide (size = 0)) as [->|Hne].
  { destruct bytes; [|simpl in Hlen; lia]. rewrite overwrite_nil. exists (v, fl). split; [done|]. by exists n, f. }
  assert (Ha : accessible m addr (Z.to_nat size)).
  { intros i Hi. destruct (lookup_lt_is_Some_2 bytes i ltac:(lia)) as [x Hx]. rewrite (Hst i x Hx). by eexists. }
  destruct (file_write_inside_Ok fl n addr offset size m v f R Dk Cf ltac:(lia) ltac:(lia) ltac:(lia) Ha)
    as (v' & -> & R' & Dk' & Cf' & Hbpc & (_ & _ & Hch) & Hres). run.
  exists (v', ranged fl). split; [done|]. exists n, f. cbn [fst snd].
  split_and!; [done|done|done|rewrite length_overwrite by lia; exact Hsz|].
  intros i x Hi. change (file_byte (ranged fl) v' (Z.of_nat i)) with (file_byte fl v' (Z.of_nat i)).
  rewrite lookup_overwrite in Hi by lia. case_decide as Hr.
  - specialize (Hres (Z.of_nat i - offset) ltac:(lia)). replace (offset + (Z.of_nat i - offset)) with (Z.of_nat i) in Hres by lia.
    pose proof (Hst _ _ Hi) as Hx. replace (addr + Z.of_nat (i - Z.to_nat offset)) with (addr + (Z.of_nat i - offset)) in Hx by lia.
    congruence.
  - rewrite <- (Hb _ _ Hi). apply lookup_lt_Some in Hi as Hlt. unfold file_byte. rewrite Hbpc.
    destruct (file_position fl n v f (Z.of_nat i) Dk Cf ltac:(lia)) as [Hv Hi'].
    apply Hch; try done. intros Hat. apply at_bytes_file in Hat; [lia|]. apply Dk.
Qed.

#[export] Instance fat_file_laws : FileLaws (volume F D * fat_file) fat_holds.
Proof.
  split; [|apply fat_read_law|apply fat_write_law].
  intros [v fl] l (n & f & R & Dk & Cf & Hsz & _). split; [exact Hsz|]. cbn in *. destruct Cf as [Hn _ _ _ Hs _]. lia.
Qed.
End FatStream.

(** Two streams of a file of 1000 bytes in two clusters of a disk behind two caches: the second
    writes across the clusters where the first reads. *)
Lemma file_streams_refine_witness :
  exists s its m, do_stream_ops [(0%nat, SeekOp 510 BEGINNING); (1%nat, SeekOp 508 BEGINNING); (1%nat, WriteOp 0 6); (0%nat, ReadOp 8 4);
      (0%nat, SeekOp 2 END); (0%nat, ReadOp 0 5); (1%nat, ReadOp 0 2)]
      (store_bytes ∅ 0 [10; 11; 12; 13; 14; 15; 0; 0; 0; 0; 0; 0]) [FileIterator 0 false; FileIterator 0 false]
      (file_volume row_table, example_file) =
    Ok (s, m, its, [Value 510; Value 508; Value 6; Value 4; Value 1002; Value 0; Value 2]) /\
    (m !! 8, m !! 9, m !! 10, m !! 11) = (Some 12, Some 13, Some 14, Some 15) /\ its = [FileIterator 1002 false; FileIterator 516 false].
Proof.
  set (content := (fun q => file_byte example_file (file_volume row_table) q) <$> seqZ 0 1000).
  set (ops := [(0%nat, SeekOp 510 BEGINNING); _; _; _; _; _; _]). set (mem := store_bytes ∅ 0 _).
  destruct (ideal_ops ops mem content [Some 0; Some 0]) as [[[[m' l'] poss'] rs]|] eqn:E; [|vm_compute in E; discriminate].
  destruct (file_streams_refine fat_holds ops mem [FileIterator 0 false; FileIterator 0 false] (file_volume row_table, example_file)
    content [Some 0; Some 0] m' l' poss' rs) as (s & its & Hrun & _ & Hat).
  - repeat constructor; vm_compute; intuition congruence.
  - exists 2, (table_of row_table). cbn [fst snd]. split_and!; [apply volume_on_represents|apply volume_on_data|apply example_file_contiguous|done|].
    intros i x Hi. unfold content in Hi. rewrite list_lookup_fmap in Hi. destruct (seqZ 0 1000 !! i) as [q|] eqn:Eq; [|done].
    injection Hi as <-. apply lookup_seqZ in Eq as [-> _]. done.
  - repeat constructor; vm_compute; intuition congruence.
  - exact E.
  - exists s, its, m'. vm_compute in E. injection E as <- <- <- <-. split_and!; [exact Hrun|reflexivity|].
    inversion Hat as [|? ? ? ? H1 Hat1]; subst. inversion Hat1 as [|? ? ? ? H2 Hat2]; subst. inversion Hat2; subst.
    destruct H1 as [-> _], H2 as [-> _]. reflexivity.
Defined.
