(* ===== verification/FatDirectory.v ===== *)
(** Directories of FAT32 (FAT32::Directory of FileSystem/FAT32/FAT32.h, FAT32.cpp and the records of
    Structures.h): iterating over the records of a directory, long names included, and finding room
    for new ones.  A record is its 32 bytes. *)
From S2P Require Import Prelude Strings FatNames Utilities IOStream BlockStore FatTable FatFile.
From stdpp Require Import gmap list_numbers.
#[local] Open Scope Z_scope.

(** ** The records *)

(** [Kernel/FileSystem/FAT32/Structures.h:57-111] DirectoryEntry: its size and the places of its fields *)
Definition directory_entry_size : Z := 32.
Definition de_filename (e : list Z) : list Z := take 8 e.
Definition de_extension (e : list Z) : list Z := take 3 (drop 8 e).
Definition de_attributes (e : list Z) : Z := nth 11 e 0.
Definition de_case_info (e : list Z) : Z := nth 12 e 0.
Definition de_first_cluster (e : list Z) : Z :=
  Z.lor (Z.shiftl (nth 20 e 0 + 256 * nth 21 e 0) 16) (nth 26 e 0 + 256 * nth 27 e 0).
Definition de_size (e : list Z) : Z := le_word (nth 28 e 0) (nth 29 e 0) (nth 30 e 0) (nth 31 e 0).

(** [Kernel/FileSystem/FAT32/Structures.h:113-131] the flags of a DirectoryEntry and its marks *)
Definition is_volume_label (e : list Z) : bool := Z.land (de_attributes e) 8 =? 8.
Definition is_directory_entry (e : list Z) : bool := Z.land (de_attributes e) 16 =? 16.
Definition is_device (e : list Z) : bool := Z.land (de_attributes e) 64 =? 64.
Definition is_long_name (e : list Z) : bool := Z.land (de_attributes e) 15 =? 15.
Definition is_lowercase_name (e : list Z) : bool := Z.land (de_case_info e) 8 =? 8.
Definition is_lowercase_extension (e : list Z) : bool := Z.land (de_case_info e) 16 =? 16.
Definition deleted_mark : Z := 229.
Definition is_deleted (e : list Z) : bool := nth 0 e 0 =? deleted_mark.
Definition end_of_directory_mark : Z := 0.
Definition is_end_of_directory (e : list Z) : bool := nth 0 e 0 =? end_of_directory_mark.

(** [Kernel/FileSystem/FAT32/Structures.h:146-187] LongNameDirectoryEntry *)
Definition characters_per_entry : Z := 13.
Definition le_name_1 (e : list Z) : list Z := take 10 (drop 1 e).
Definition le_name_2 (e : list Z) : list Z := take 12 (drop 14 e).
Definition le_name_3 (e : list Z) : list Z := take 4 (drop 28 e).
Definition extract_sequence_number (e : list Z) : Z := Z.land (nth 0 e 0) 31.
Definition is_last_logical (e : list Z) : bool := negb (Z.land (nth 0 e 0) 64 =? 0).

(** [Kernel/FileSystem/FAT32/FAT32.h:108-128] FAT32::Directory::NativeEntry over Directory::Entry; the
    name of 256 bytes and the attributes of 4 that follow it are one array *)
Record native_entry := NativeEntry {
  ne_bytes : list Z;
  ne_size : Z;
  ne_short_name : list Z;
  ne_sequence_count : Z;
  ne_offset : Z;
  ne_cluster_1 : Z;
  ne_cluster_2 : Z;
  ne_cluster_3 : Z;
  ne_first_data_cluster : Z;
  ne_metadata_cluster : Z;
  ne_metadata_offset : Z }.

Definition native_zero : native_entry := NativeEntry (replicate 260 0) 0 (replicate 11 0) 0 0 0 0 0 0 0 0.
Definition set_bytes (l : list Z) (o : native_entry) : native_entry :=
  NativeEntry l (ne_size o) (ne_short_name o) (ne_sequence_count o) (ne_offset o) (ne_cluster_1 o) (ne_cluster_2 o) (ne_cluster_3 o)
    (ne_first_data_cluster o) (ne_metadata_cluster o) (ne_metadata_offset o).
Definition set_place (cluster offset count : Z) (o : native_entry) : native_entry :=
  NativeEntry (ne_bytes o) (ne_size o) (ne_short_name o) count offset cluster (ne_cluster_2 o) (ne_cluster_3 o)
    (ne_first_data_cluster o) (ne_metadata_cluster o) (ne_metadata_offset o).
Definition set_clusters (c2 c3 : Z) (o : native_entry) : native_entry :=
  NativeEntry (ne_bytes o) (ne_size o) (ne_short_name o) (ne_sequence_count o) (ne_offset o) (ne_cluster_1 o) c2 c3
    (ne_first_data_cluster o) (ne_metadata_cluster o) (ne_metadata_offset o).

(** A C string is what comes before its zero. *)
Fixpoint until_zero (l : list Z) : list Z :=
  match l with [] => [] | c :: l => if c =? 0 then [] else c :: until_zero l end.

(** [Kernel/FileSystem/Directory.h:20-27] Directory::Entry: its name, its attributes and whether it is empty *)
Definition max_name_length : Z := 255.
Definition name_view (o : native_entry) : view := until_zero (take 256 (ne_bytes o)).
Definition entry_attributes (o : native_entry) : Z :=
  le_word (nth 256 (ne_bytes o) 0) (nth 257 (ne_bytes o) 0) (nth 258 (ne_bytes o) 0) (nth 259 (ne_bytes o) 0).
Definition entry_empty (o : native_entry) : bool := nth 0 (ne_bytes o) 0 =? 0.

(** [Kernel/FileSystem/FAT32/FAT32.h:194-198] the state of a FAT32::Directory, with the first cluster of its file *)
Record directory := Directory {
  d_first_cluster : Z;
  d_current_cluster : Z;
  d_offset : Z;
  d_exhausted : bool }.

(** [Kernel/FileSystem/FAT32/FAT32.cpp:33-42] FAT32::Directory::Directory *)
Definition make_directory (first_cluster : Z) : directory :=
  Directory first_cluster first_cluster 0 (first_cluster =? free_cluster).

(** [Kernel/FileSystem/FAT32/FAT32.h:133-138] FAT32::Directory::rewind *)
Definition rewind (d : directory) : directory := Directory (d_first_cluster d) (d_first_cluster d) 0 false.

(** A local object of the kernel, as memory at address 0. *)
Definition local_object (l : list Z) : umem := list_to_map (zip (seqZ 0 (Z.of_nat (length l))) l).
Definition object_of (m : umem) (n : Z) : list Z := byte_of m <$> seqZ 0 n.

(** [Kernel/FileSystem/FAT32/FAT32.cpp:230-248] process_ucs2, a lambda of next_native *)
Fixpoint process_ucs2 (ucs2 : list Z) : list Z :=
  match ucs2 with
  | lo :: hi :: rest =>
      let ucs2_char := Z.lor lo (Z.shiftl hi 8) in
      if ucs2_char =? 0 then [] else
      (if ucs2_char >? 127 then 63 else Z.land ucs2_char 255) :: process_ucs2 rest
  | _ => []
  end.

(** [Kernel/FileSystem/FAT32/FAT32.cpp:313-326] the characters of one long entry, in next_native *)
Definition long_characters (e : list Z) : list Z :=
  let name_1 := process_ucs2 (le_name_1 e) in
  let chars := length name_1 in
  let name_2 := if decide (chars = 5%nat) then process_ucs2 (le_name_2 e) else [] in
  let chars := if decide (chars = 5%nat) then length name_2 else chars in
  let name_3 := if decide (chars = 6%nat) then process_ucs2 (le_name_3 e) else [] in
  name_1 ++ name_2 ++ name_3.

(** [Kernel/FileSystem/FAT32/FAT32.cpp:198-228] process_normal_entry, a lambda of next_native *)
Definition process_normal_entry (cur_cluster cur_offset : Z) (e : list Z) (is_small : bool) (out : native_entry) : result native_entry :=
  let name : list Z := if is_lowercase_name e then to_lower <$> de_filename e else de_filename e in
  let ext : list Z := if is_lowercase_extension e then to_lower <$> de_extension e else de_extension e in
  bytes ← (if is_small then Ok (ne_bytes out) else
    name_length ← Strings.find name [ch_space];
    let name_length := Z.to_nat (default (sv_size name) name_length) in
    let bytes := list_inserts 0 (take name_length name) (ne_bytes out) in
    ext_length ← Strings.find ext [ch_space];
    let ext_length := Z.to_nat (default (sv_size ext) ext_length) in
    Ok (if decide (ext_length = 0%nat) then bytes
        else list_inserts name_length (ch_dot :: take ext_length ext) bytes));
  let bytes := if is_directory_entry e then list_inserts 256 [1; 0; 0; 0] bytes else bytes in
  Ok (NativeEntry bytes (de_size e) (name ++ ext) (ne_sequence_count out) (ne_offset out) (ne_cluster_1 out) (ne_cluster_2 out)
    (ne_cluster_3 out) (de_first_cluster e) cur_cluster (cur_offset - directory_entry_size)).

(** [Kernel/FileSystem/FAT32/FAT32.h:151-179] FAT32::Directory::Slot *)
Record directory_slot := Slot { s_offset : Z; s_index : Z; s_clusters : list Z }.

(** [Kernel/FileSystem/FAT32/FAT32.h:160-173] FAT32::Directory::Slot::next_entry *)
Definition slot_next_entry (bytes_per_cluster : Z) (s : directory_slot) : result (directory_slot * (Z * Z)) :=
  s ← (if s_offset s =? bytes_per_cluster then
      ASSERT (negb (s_index s =? 2)) ;;
      let i := s_index s + 1 in
      c ← read_at (s_clusters s) i;
      ASSERT (negb (c =? free_cluster)) ;;
      Ok (Slot 0 i (s_clusters s))
    else Ok s);
  c ← read_at (s_clusters s) (s_index s);
  Ok (Slot (s_offset s + directory_entry_size) (s_index s) (s_clusters s), (c, s_offset s)).

(** The index of an array of the kernel. *)
Definition bounds_check (b : bool) : result unit := if b then Ok tt else Fault OutOfBounds.

Section Code.
Context {F D : Type} `{BlockStore F} `{BlockStore D}.

(** [Kernel/FileSystem/FAT32/FAT32.cpp:51-90] FAT32::Directory::fetch_next *)
Definition fetch_next (into : list Z) (d : directory) (v : volume F D) : result (volume F D * directory * list Z * bool) :=
  if d_exhausted d then Ok (v, d, into, false) else
  '(v, d, ok) ← (if d_offset d =? m_bytes_per_cluster v then
      '(v, c) ← fat_entry_at (d_current_cluster d) v;
      match entry_type_of_fat_value c with
      | END_OF_CHAIN => Ok (v, Directory (d_first_cluster d) c (d_offset d) true, false)
      | LINK => Ok (v, Directory (d_first_cluster d) c 0 false, true)
      | _ => Fault KernelPanic
      end
    else Ok (v, d, true));
  if negb ok then Ok (v, d, into, false) else
  block ← pure_cluster_value (d_current_cluster d);
  '(v, m, _) ← locked_read block (d_offset d) directory_entry_size 0 (local_object into) v;
  Ok (v, Directory (d_first_cluster d) (d_current_cluster d) (d_offset d + directory_entry_size) (d_exhausted d),
      object_of m directory_entry_size, true).

(** [Kernel/FileSystem/FAT32/FAT32.cpp:300-340] the loop of next_native over [n] long entries; the checksums are only compared to warn *)
Fixpoint long_loop (n : nat) (long_entry normal_entry : list Z) (cur_name_buffer : nat) (chars_written : nat) (previous_cluster : Z)
    (out : native_entry) (d : directory) (v : volume F D) :
    result (volume F D * directory * native_entry * list Z * nat * nat) :=
  match n with
  | O => Fault OutOfBounds
  | S n =>
      out ← (if negb (d_current_cluster d =? previous_cluster) then
          if ne_cluster_2 out =? free_cluster then Ok (set_clusters (d_current_cluster d) (ne_cluster_3 out) out)
          else if ne_cluster_3 out =? free_cluster then Ok (set_clusters (ne_cluster_2 out) (d_current_cluster d) out)
          else Fault AssertionFailed
        else Ok out);
      let previous_cluster := d_current_cluster d in
      let chars := long_characters long_entry in
      let out := set_bytes (list_inserts cur_name_buffer chars (ne_bytes out)) out in
      let chars_written := (chars_written + length chars)%nat in
      match n with
      | O =>
          '(v, d, normal_entry, did_fetch) ← fetch_next normal_entry d v;
          ASSERT did_fetch ;;
          Ok (v, d, out, normal_entry, cur_name_buffer, chars_written)
      | _ =>
          '(v, d, long_entry, did_fetch) ← fetch_next long_entry d v;
          ASSERT did_fetch ;;
          long_loop n long_entry normal_entry (cur_name_buffer - 13) chars_written previous_cluster out d v
      end
  end.

(** [Kernel/FileSystem/FAT32/FAT32.cpp:279-363] the part of next_native that reads a long name *)
Definition next_long (normal_entry : list Z) (out : native_entry) (d : directory) (v : volume F D) :
    result (volume F D * directory * native_entry) :=
  let initial_sequence_number := extract_sequence_number normal_entry in
  let out := set_place (ne_cluster_1 out) (ne_offset out) initial_sequence_number out in
  ASSERT (initial_sequence_number <=? 20) ;;
  ASSERT (is_last_logical normal_entry) ;;
  '(v, d, out, normal_entry, cur_name_buffer, chars_written) ←
    long_loop (Z.to_nat initial_sequence_number) normal_entry normal_entry 247 0 (d_current_cluster d) out d v;
  ASSERT (Z.of_nat chars_written <=? max_name_length) ;;
  let bytes := list_inserts 0 (take chars_written (drop cur_name_buffer (ne_bytes out))) (ne_bytes out) in
  let out := set_bytes (<[ chars_written := 0 ]> bytes) out in
  out ← process_normal_entry (d_current_cluster d) (d_offset d) normal_entry true out;
  Ok (v, d, out).

(** [Kernel/FileSystem/FAT32/FAT32.cpp:251-364] the loop of next_native *)
Fixpoint next_loop (fuel : nat) (normal_entry : list Z) (out : native_entry) (d : directory) (v : volume F D) :
    result (volume F D * directory * native_entry) :=
  match fuel with
  | O => Fault OutOfFuel
  | S fuel =>
      '(v, d, e, fetched) ← fetch_next normal_entry d v;
      if negb fetched then Ok (v, d, out) else
      if is_deleted e then next_loop fuel e out d v else
      if is_end_of_directory e then
        Ok (v, Directory (d_first_cluster d) (d_current_cluster d) (d_offset d) true, out) else
      if is_device e then next_loop fuel e out d v else
      let out := set_place (d_current_cluster d) (d_offset d - directory_entry_size) 0 out in
      if negb (is_long_name e) && is_volume_label e then next_loop fuel e out d v else
      if negb (is_long_name e) then
        out ← process_normal_entry (d_current_cluster d) (d_offset d) e false out; Ok (v, d, out)
      else next_long e out d v
  end.

(** No chain has more records than the volume. *)
Definition directory_fuel (v : volume F D) : nat :=
  S (S (Z.to_nat (m_cluster_count v * (m_bytes_per_cluster v / directory_entry_size)))).

(** [Kernel/FileSystem/FAT32/FAT32.cpp:189-365] FAT32::Directory::next_native *)
Definition next_native (d : directory) (v : volume F D) : result (volume F D * directory * native_entry) :=
  if d_exhausted d then Ok (v, d, native_zero) else next_loop (directory_fuel v) (replicate 32 0) native_zero d v.

(** [Kernel/FileSystem/FAT32/FAT32.cpp:107-146] allocate_entries, the search; it ends with a slot or past the last cluster *)
Fixpoint entries_loop (fuel : nat) (count current_cluster current_offset contiguous_empty initial_offset last_allocated : Z)
    (allocated : list Z) (v : volume F D) : result (volume F D * (directory_slot + Z * Z * list Z)) :=
  match fuel with
  | O => Fault OutOfFuel
  | S fuel =>
      block ← pure_cluster_value current_cluster;
      '(v, m, _) ← locked_read block current_offset 1 0 (local_object [0]) v;
      let first_byte := byte_of m 0 in
      let next initial_offset last_allocated allocated contiguous_empty :=
        let current_offset := current_offset + directory_entry_size in
        if current_offset =? m_bytes_per_cluster v then
          '(v, current_cluster) ← fat_entry_at current_cluster v;
          if bool_decide (entry_type_of_fat_value current_cluster = END_OF_CHAIN)
          then Ok (v, inr (contiguous_empty, initial_offset, allocated))
          else entries_loop fuel count current_cluster current_offset contiguous_empty initial_offset last_allocated allocated v
        else entries_loop fuel count current_cluster current_offset contiguous_empty initial_offset last_allocated allocated v in
      if (first_byte =? end_of_directory_mark) || (first_byte =? deleted_mark) then
        let contiguous_empty := contiguous_empty + 1 in
        let fresh := negb (last_allocated =? current_cluster) in
        let initial_offset := if fresh && (initial_offset =? 0) then current_offset else initial_offset in
        bounds_check (negb fresh || (Z.of_nat (length allocated) <? 3)) ;;
        let allocated := if fresh then allocated ++ [current_cluster] else allocated in
        let last_allocated := if fresh then current_cluster else last_allocated in
        if contiguous_empty =? count then Ok (v, inl (Slot initial_offset 0 (allocated ++ replicate (3 - length allocated) 0)))
        else next initial_offset last_allocated allocated contiguous_empty
      else next 0 0 [] 0
  end.

(** [Kernel/FileSystem/FAT32/FAT32.cpp:92-172] FAT32::Directory::allocate_entries, for a directory whose file is [fl] *)
Definition allocate_entries (count : Z) (fl : fat_file) (v : volume F D) : result (volume F D * directory_slot) :=
  '(v, found) ← entries_loop (directory_fuel v) count (m_first_cluster fl) 0 0 0 0 [] v;
  match found with
  | inl s => Ok (v, s)
  | inr (contiguous_empty, initial_offset, allocated) =>
      let extra_bytes := (count - contiguous_empty) * directory_entry_size in
      let clusters_to_allocate := ceiling_divide extra_bytes (m_bytes_per_cluster v) in
      link ← last_cluster fl v;
      '(v, chain) ← allocate_cluster_chain clusters_to_allocate link v;
      v ← (if negb (extra_bytes =? clusters_to_allocate * m_bytes_per_cluster v) then
          block ← pure_cluster_value (List.last chain 0); locked_zero_fill 1 block v
        else Ok v);
      bounds_check (Z.of_nat (length (allocated ++ chain)) <=? 3) ;;
      Ok (v, Slot initial_offset 0 (allocated ++ chain ++ replicate (3 - length (allocated ++ chain)) 0))
  end.

(** [Kernel/FileSystem/FAT32/FAT32.cpp:174-182] FAT32::Directory::write_one *)
Definition directory_write_one (entry : list Z) (s : directory_slot) (v : volume F D) : result (volume F D * directory_slot) :=
  '(s, (cluster, offset)) ← slot_next_entry (m_bytes_per_cluster v) s;
  block ← pure_cluster_value cluster;
  '(v, _, _) ← locked_write block offset directory_entry_size 0 (local_object entry) v;
  Ok (v, s).
End Code.
