(* ===== verification/FatCreate.v ===== *)
(** Creating a file in a directory of FAT32 (FAT32::create_file of FileSystem/FAT32/FAT32.cpp, once the
    path has been followed to its last directory): which names are allowed, which need a long name,
    and the records that are written. *)
From S2P Require Import Prelude Strings FatNames Utilities Time IOStream BlockStore FatTable FatFile FatDirectory.
From stdpp Require Import gmap list_numbers.
#[local] Open Scope Z_scope.

(** [char] is signed. *)
Definition as_signed (c : Z) : Z := if c >=? 128 then c - 256 else c.

(** [Kernel/FileSystem/FAT32/FAT32.cpp:1490-1521] the characters that no name has, in create_file *)
Definition banned_characters : list Z := [34; 42; 47; 58; 60; 62; 63; 92; 124].
Definition is_banned (c : Z) : bool := bool_decide (c ∈ banned_characters) || (as_signed c <? 32).
Definition contains_banned (name : view) : bool := existsb is_banned name.

(** [Kernel/FileSystem/FAT32/FAT32.cpp:1495-1496] the characters that only long names have *)
Definition banned_for_non_vfat : list Z := [46; 43; 44; 59; 61; 91; 93].

(** [Kernel/FileSystem/FAT32/FAT32.cpp:1523-1541] the views of the name and of the extension; a string ends with a zero *)
Definition name_part (name : view) (name_length : Z) : view := take (Z.to_nat name_length) name.
Definition extension_part (name : view) (name_length extension_length : Z) : view :=
  take (Z.to_nat extension_length) (drop (S (Z.to_nat name_length)) (name ++ [0])).

(** [Kernel/FileSystem/FAT32/FAT32.cpp:1526-1538] whether a part of the name is in one case *)
Definition entirely_lower (s : view) : bool := existsb is_lower s && negb (existsb is_upper s).
Definition entirely_upper (s : view) : bool := negb (existsb is_lower s).

(** [Kernel/FileSystem/FAT32/FAT32.cpp:1482-1579] whether the name needs a long name, and the cases of its parts *)
Definition classify_name (name : view) (name_length extension_length : Z) : bool * bool * bool :=
  if (name_length >? short_name_length) || (extension_length >? short_extension_length) then (true, false, false) else
  let stem := name_part name name_length in
  let ext := extension_part name name_length extension_length in
  let name_lower := entirely_lower stem in
  let name_upper := entirely_upper stem in
  let ext_lower := if extension_length =? 0 then false else entirely_lower ext in
  let ext_upper := if extension_length =? 0 then true else entirely_upper ext in
  let is_vfat := negb ((name_lower || name_upper) && (ext_lower || ext_upper)) in
  let is_vfat := if is_vfat then true else
    existsb (fun c => bool_decide (c ∈ banned_for_non_vfat)) stem ||
    (negb (extension_length =? 0) && existsb (fun c => bool_decide (c ∈ banned_for_non_vfat)) ext) in
  (is_vfat, name_lower, ext_lower).

Definition le16 (x : Z) : list Z := [x mod 256; x / 256 mod 256].

(** [Kernel/FileSystem/FAT32/FAT32.cpp:1616-1631] the times of a new record *)
Definition created_time (t : human_readable) : Z :=
  wrap16 (Z.lor (Z.lor (Z.shiftl (wrap16 (hr_hour t)) 11) (Z.shiftl (wrap16 (hr_minute t)) 5)) (wrap16 (hr_second t / 2))).
Definition created_date (t : human_readable) : Z :=
  wrap16 (Z.lor (Z.lor (Z.shiftl (wrap16 (hr_year t - 1980)) 9) (Z.shiftl (wrap16 (hr_month t)) 5)) (wrap16 (hr_day t))).

(** [Kernel/FileSystem/FAT32/FAT32.cpp:1583-1631] write_normal_entry of create_file: the record that it writes *)
Definition normal_entry (is_directory name_lower ext_lower : bool) (now : human_readable) (name extension : view) (first_cluster : Z) : list Z :=
  pad 8 (to_upper <$> name) ++ pad 3 (to_upper <$> extension) ++
  [if is_directory then 16 else 0; Z.lor (if name_lower then 8 else 0) (if ext_lower then 16 else 0); 0] ++
  le16 (created_time now) ++ le16 (created_date now) ++ le16 (created_date now) ++
  le16 (Z.shiftr first_cluster 16) ++ le16 (created_time now) ++ le16 (created_date now) ++
  le16 (Z.land first_cluster 65535) ++ [0; 0; 0; 0].

(** [Kernel/FileSystem/FAT32/FAT32.cpp:1717-1734] generate_name_pieces of create_file *)
Fixpoint name_pieces (fuel : nat) (name : view) : list view :=
  match fuel with
  | O => []
  | S fuel =>
      let piece := take 13 name in
      let rest := drop 13 name in
      piece :: (if decide (rest = []) then [] else name_pieces fuel rest)
  end.

(** [Kernel/FileSystem/FAT32/FAT32.cpp:1763-1773] the thirteen characters of a long entry *)
Definition piece_characters (piece : view) : list Z :=
  let written := (fun c => wrap16 (as_signed c)) <$> piece in
  let written := if decide (length written < 13)%nat then written ++ [0] else written in
  written ++ replicate (13 - length written) 65535.

(** [Kernel/FileSystem/FAT32/FAT32.cpp:1704-1773] the long entry with the number [n]; write_long_directory_character puts
    the characters in the three parts of the name *)
Definition long_entry (last : bool) (n checksum : Z) (piece : view) : list Z :=
  let chars := piece_characters piece in
  [if last then Z.lor 64 n else n] ++ mjoin (le16 <$> take 5 chars) ++ [15; 0; checksum] ++
  mjoin (le16 <$> take 6 (drop 5 chars)) ++ [0; 0] ++ mjoin (le16 <$> drop 11 chars).

(** [Kernel/FileSystem/FAT32/FAT32.cpp:1757-1776] the long entries in the order in which they are written *)
Definition long_entries (checksum : Z) (name : view) : list (list Z) :=
  let pieces := name_pieces 20 name in
  let count := Z.of_nat (length pieces) in
  reverse (imap (fun i piece => long_entry (Z.of_nat i + 1 =? count) (Z.of_nat i + 1) checksum piece) pieces).

Section Code.
Context {F D : Type} `{BlockStore F} `{BlockStore D}.

(** [Kernel/FileSystem/FAT32/FAT32.cpp:1433-1442] create_file in the last directory, is the name taken *)
Fixpoint name_taken (fuel : nat) (name : view) (d : directory) (v : volume F D) : result (volume F D * bool) :=
  match fuel with
  | O => Fault OutOfFuel
  | S fuel =>
      '(v, d, e) ← next_native d v;
      if entry_empty e then Ok (v, false) else
      same ← are_case_insensitive_equal name (name_view e);
      if (same : bool) then Ok (v, true) else name_taken fuel name d v
  end.

(** [Kernel/FileSystem/FAT32/FAT32.cpp:1673-1695] create_file, the short name that goes with a long one *)
Fixpoint unique_short_name (fuel : nat) (short_name : view) (d : directory) (v : volume F D) : result (volume F D * option view) :=
  match fuel with
  | O => Fault OutOfFuel
  | S fuel =>
      '(v, d, e) ← next_native d v;
      if entry_empty e then Ok (v, Some short_name) else
      same ← are_equal (ne_short_name e) short_name;
      if negb same then unique_short_name fuel short_name d v else
      next ← next_short_name short_name;
      match next with
      | None => Ok (v, None)
      | Some short_name => unique_short_name fuel short_name (rewind d) v
      end
  end.

Fixpoint write_entries (l : list (list Z)) (s : directory_slot) (v : volume F D) : result (volume F D * directory_slot) :=
  match l with
  | [] => Ok (v, s)
  | e :: l => '(v, s) ← directory_write_one e s v; write_entries l s v
  end.

(** [Kernel/FileSystem/FAT32/FAT32.cpp:1636-1650] generate_dot_and_dot_dot of create_file *)
Definition generate_dot_and_dot_dot (root_cluster : Z) (name_lower ext_lower : bool) (now : human_readable)
    (first_cluster previous : Z) (v : volume F D) : result (volume F D) :=
  let previous := if previous =? root_cluster then 0 else previous in
  '(v, _) ← write_entries
    [normal_entry true name_lower ext_lower now [ch_dot] [] first_cluster;
     normal_entry true name_lower ext_lower now [ch_dot; ch_dot] [] previous] (Slot 0 0 [first_cluster; 0; 0]) v;
  Ok v.

(** [Kernel/FileSystem/FAT32/FAT32.cpp:1659-1662] the cluster of a new directory, in create_file *)
Definition new_directory_cluster (is_directory : bool) (root_cluster : Z) (name_lower ext_lower : bool) (now : human_readable)
    (fl : fat_file) (v : volume F D) : result (volume F D * Z) :=
  if is_directory then
    '(v, chain) ← allocate_cluster_chain 1 0 v;
    let first_cluster := List.last chain 0 in
    v ← generate_dot_and_dot_dot root_cluster name_lower ext_lower now first_cluster (m_first_cluster fl) v;
    Ok (v, first_cluster)
  else Ok (v, 0).

(** [Kernel/FileSystem/FAT32/FAT32.cpp:1652-1791] create_file in the directory whose file is [fl]; [fuel] bounds the loops over its entries *)
Definition create_in_directory (fuel : nat) (root_cluster : Z) (new_file_name : view) (is_directory : bool) (now : human_readable)
    (fl : fat_file) (v : volume F D) : result (volume F D * error_code) :=
  if bool_decide (new_file_name = []) then Ok (v, BAD_FILENAME) else
  if sv_size new_file_name >? max_name_length then Ok (v, NAME_TOO_LONG) else
  '(v, taken) ← name_taken fuel new_file_name (make_directory (m_first_cluster fl)) v;
  if (taken : bool) then Ok (v, FILE_ALREADY_EXISTS) else
  '(name_length, extension_length) ← length_of_name_and_extension new_file_name;
  if contains_banned new_file_name then Ok (v, BAD_FILENAME) else
  let '(is_vfat, name_lower, ext_lower) := classify_name new_file_name name_length extension_length in
  if negb is_vfat then
    '(v, s) ← allocate_entries 1 fl v;
    '(v, first_cluster) ← new_directory_cluster is_directory root_cluster name_lower ext_lower now fl v;
    '(v, _) ← directory_write_one (normal_entry is_directory name_lower ext_lower now (name_part new_file_name name_length)
      (extension_part new_file_name name_length extension_length) first_cluster) s v;
    Ok (v, NO_ERROR)
  else
    short_name ← generate_short_name new_file_name;
    '(v, short_name) ← unique_short_name fuel short_name (rewind (make_directory (m_first_cluster fl))) v;
    match short_name with
    | None => Ok (v, BAD_FILENAME)
    | Some short_name =>
        let entries_to_write := ceiling_divide (sv_size new_file_name) characters_per_entry in
        '(v, s) ← allocate_entries (entries_to_write + 1) fl v;
        checksum ← generate_short_name_checksum short_name;
        '(v, s) ← write_entries (long_entries checksum new_file_name) s v;
        '(v, first_cluster) ← new_directory_cluster is_directory root_cluster false false now fl v;
        '(v, _) ← directory_write_one (normal_entry is_directory false false now (take 8 short_name) (take 3 (drop 8 short_name)) first_cluster) s v;
        Ok (v, NO_ERROR)
    end.
End Code.
