(* ===== verification/FatDirectoryRead.v ===== *)
(** Reading the records of a directory one after the other: the places of the records along the
    chain of clusters, and what [fetch_next] returns there. *)
From S2P Require Import Prelude Strings FatNames Utilities IOStream BlockStore FatTable FatChains FatFile FatDirectory.
From stdpp Require Import gmap list_numbers.
#[local] Open Scope Z_scope.

(** ** Objects in memory *)

Lemma local_object_lookup l (i : nat) : local_object l !! Z.of_nat i = l !! i.
Proof.
  unfold local_object. destruct (l !! i) as [x|] eqn:E.
  - apply elem_of_list_to_map.
    + rewrite fst_zip by (rewrite length_seqZ; lia). apply NoDup_seqZ.
    + apply list_elem_of_lookup. exists i. apply lookup_zip_with_Some. exists (Z.of_nat i), x. split_and!; [done| |done].
      apply lookup_lt_Some in E. apply lookup_seqZ. lia.
  - apply not_elem_of_list_to_map. rewrite fst_zip by (rewrite length_seqZ; lia). rewrite elem_of_seqZ.
    apply lookup_ge_None in E. lia.
Qed.

Lemma local_object_accessible l n : (n <= length l)%nat -> accessible (local_object l) 0 n.
Proof.
  intros Hn i Hi. rewrite Z.add_0_l, local_object_lookup. apply lookup_lt_is_Some. lia.
Qed.

Lemma object_of_lookup m n (i : nat) : Z.of_nat i < n -> object_of m n !! i = Some (byte_of m (Z.of_nat i)).
Proof. intros Hi. unfold object_of. rewrite list_lookup_fmap. rewrite (proj2 (lookup_seqZ 0 n i (Z.of_nat i))) by lia. done. Qed.

Lemma length_object_of m n : length (object_of m n) = Z.to_nat n.
Proof. unfold object_of. by rewrite length_fmap, length_seqZ. Qed.

Section Read.
Context {F D : Type} `{BlockStore F} `{BlockStore D}.

(** The record at the offset [o] of the cluster [c]. *)
Definition record (v : volume F D) (p : Z * Z) : list Z :=
  (fun i => bs_byte (m_data_cache v) (fst p - reserved_cluster_count) (snd p + i)) <$> seqZ 0 directory_entry_size.

Lemma length_record v p : length (record v p) = 32%nat.
Proof. unfold record. by rewrite length_fmap, length_seqZ. Qed.

(** The places of the records of a cluster from the offset [o]. *)
Definition places_from (bpc c o : Z) : list (Z * Z) :=
  (fun k => (c, o + directory_entry_size * k)) <$> seqZ 0 ((bpc - o) / directory_entry_size).

(** The cluster size is a number of records, and records do not cross clusters. *)
Record directory_volume (v : volume F D) (f : Z -> Z) : Prop := {
  dv_table : represents v f;
  dv_data : data_ok v;
  dv_records : (directory_entry_size | m_bytes_per_cluster v) }.

(** [v'] is [v] but for what the caches hold. *)
Record same_records (v v' : volume F D) : Prop := {
  sb_count : m_cluster_count v' = m_cluster_count v;
  sb_bytes : m_bytes_per_cluster v' = m_bytes_per_cluster v;
  sb_byte : forall c i, reserved_cluster_count <= c < m_cluster_count v + reserved_cluster_count -> 0 <= i < m_bytes_per_cluster v ->
    bs_byte (m_data_cache v') (c - reserved_cluster_count) i = bs_byte (m_data_cache v) (c - reserved_cluster_count) i }.

Lemma same_records_refl v : same_records v v.
Proof. by split. Qed.

Lemma same_records_trans v1 v2 v3 : same_records v1 v2 -> same_records v2 v3 -> same_records v1 v3.
Proof.
  intros [C1 B1 D1] [C2 B2 D2]. split; [congruence..|]. intros c i Hc Hi. rewrite D2, D1; [done| | |rewrite C1|rewrite B1]; done.
Qed.

(** The directory is about to read the records at the places [ps]. *)
Record reading (v : volume F D) (f : Z -> Z) (d : directory) (l : list Z) (ps : list (Z * Z)) : Prop := {
  rd_live : d_exhausted d = false;
  rd_chain : is_chain f (d_current_cluster d :: l);
  rd_clusters : clusters_ok v (d_current_cluster d :: l);
  rd_offset : 0 <= d_offset d <= m_bytes_per_cluster v /\ (directory_entry_size | d_offset d);
  rd_places : ps = places_from (m_bytes_per_cluster v) (d_current_cluster d) (d_offset d) ++
    mjoin ((fun c => places_from (m_bytes_per_cluster v) c 0) <$> l) }.

Lemma places_from_end bpc c : places_from bpc c bpc = [].
Proof. unfold places_from. by rewrite Z.sub_diag. Qed.

Lemma places_from_cons bpc c o :
  (directory_entry_size | bpc) -> (directory_entry_size | o) -> o < bpc ->
  places_from bpc c o = (c, o) :: places_from bpc c (o + directory_entry_size).
Proof.
  unfold places_from, directory_entry_size. intros [a ->] [b ->] Ho.
  replace (a * 32 - b * 32) with ((a - b) * 32) by lia. rewrite Z.div_mul by lia.
  replace (a * 32 - (b * 32 + 32)) with ((a - b - 1) * 32) by lia. rewrite Z.div_mul by lia.
  rewrite seqZ_cons by lia. cbn [fmap list_fmap]. f_equal; [f_equal; lia|].
  replace (Z.pred (a - b)) with (a - b - 1) by lia. rewrite <- (fmap_add_seqZ 1 0). rewrite <- list_fmap_compose.
  apply list_fmap_ext. intros i k _. cbn. f_equal. lia.
Qed.

Definition valid_place (v : volume F D) (p : Z * Z) : Prop :=
  reserved_cluster_count <= fst p < m_cluster_count v + reserved_cluster_count /\
  0 <= snd p /\ snd p + directory_entry_size <= m_bytes_per_cluster v.

Lemma record_same v v' p : same_records v v' -> valid_place v p -> record v' p = record v p.
Proof.
  intros [C B Hb] (Hc & Ho & Hl). unfold record. apply list_fmap_ext. intros i x Hx. apply lookup_seqZ in Hx as [-> Hi].
  apply Hb; [done|]. unfold directory_entry_size in *. lia.
Qed.

Lemma reading_same v v' f d l ps : same_records v v' -> reading v f d l ps -> reading v' f d l ps.
Proof.
  intros [C B _] [Hl Hc [Hnd Hok] Ho Hp]. split; try done; try (by rewrite B). split; [done|]. by rewrite C.
Qed.

Lemma places_from_valid v c o p :
  reserved_cluster_count <= c < m_cluster_count v + reserved_cluster_count -> 0 <= o ->
  p ∈ places_from (m_bytes_per_cluster v) c o -> valid_place v p.
Proof.
  unfold places_from, valid_place, directory_entry_size. intros Hc Ho (k & -> & Hk)%list_elem_of_fmap. apply elem_of_seqZ in Hk. cbn. dlia.
Qed.

Lemma reading_valid v f d l ps p : reading v f d l ps -> p ∈ ps -> valid_place v p.
Proof.
  intros [_ _ [_ Hok] Ho ->] Hp. apply Forall_cons in Hok as [Hc Hok]. apply elem_of_app in Hp as [Hp|Hp].
  - by apply (places_from_valid v _ _ p Hc (proj1 (proj1 Ho))).
  - apply list_elem_of_join in Hp as (qs & Hp & (c & -> & Hin)%list_elem_of_fmap). rewrite Forall_forall in Hok.
    by apply (places_from_valid v c 0 p (Hok c Hin)).
Qed.

(** What is read at a valid place. *)
Lemma locked_read_Ok v f p n into :
  directory_volume v f -> valid_place v p -> 0 <= n <= directory_entry_size -> n <= Z.of_nat (length into) ->
  exists v' m e, locked_read (fst p - reserved_cluster_count) (snd p) n 0 (local_object into) v = Ok (v', m, e) /\
    directory_volume v' f /\ same_records v v' /\ m_fat_cache v' = m_fat_cache v /\
    forall i, 0 <= i < n -> byte_of m i = bs_byte (m_data_cache v) (fst p - reserved_cluster_count) (snd p + i).
Proof.
  intros [R Dk Hr] (Hc & Ho & Hl) Hn Hlen. pose proof Dk as [Hst Hsz Hb Hval].
  destruct (bs_read_law (fst p - reserved_cluster_count) (snd p) n 0 (local_object into) (m_data_cache v) Hst ltac:(apply Hval; lia)
    ltac:(lia) ltac:(lia) ltac:(lia)) as (s & m & E & Hs & Hch & _ & Hrd).
  unfold locked_read. rewrite E. run. eexists _, _, _. split; [reflexivity|]. split_and!; [| |done|].
  - split; [by apply represents_set_data|by eapply data_ok_set|done].
  - destruct Hch as (_ & _ & Hch). split; [done..|]. intros c i Hc' Hi. apply Hch; [apply Hval; lia|lia|tauto].
  - intros i Hi. unfold byte_of. specialize (Hrd (local_object_accessible into (Z.to_nat n) ltac:(lia)) (snd p + i) ltac:(unfold in_span; lia)).
    replace (0 + (snd p + i - snd p)) with i in Hrd by lia. by rewrite Hrd.
Qed.

Lemma fetch_at v f first c o into :
  directory_volume v f -> valid_place v (c, o) -> length into = 32%nat ->
  exists v', (block ← pure_cluster_value c; '(v, m, _) ← locked_read block o directory_entry_size 0 (local_object into) v;
      Ok (v, Directory first c (o + directory_entry_size) false, object_of m directory_entry_size, true)) =
    Ok (v', Directory first c (o + directory_entry_size) false, record v (c, o), true) /\
    directory_volume v' f /\ same_records v v'.
Proof.
  intros V Hp Hi. unfold pure_cluster_value. destruct (c >=? reserved_cluster_count) eqn:E; bool_to_prop; [|destruct Hp; cbn in *; lia]. run.
  destruct (locked_read_Ok v f (c, o) directory_entry_size into V Hp ltac:(done) ltac:(by rewrite Hi))
    as (v' & m & e & Er & V' & S & _ & Hb). cbn [fst snd] in Er. rewrite Er. run. exists v'. split_and!; [|done|done]. do 3 f_equal.
  unfold object_of, record. apply list_fmap_ext. intros i x Hx. apply lookup_seqZ in Hx as [-> Hlt]. by rewrite Hb by lia.
Qed.

Lemma same_volume_bytes v v' f : directory_volume v f -> represents v' f -> same_volume v v' -> directory_volume v' f /\ same_records v v'.
Proof. intros [R [] Hr] R' S. rewrite S in R' |- *. split; split; try done. Qed.

Lemma fetch_next_Ok v f d l p ps into :
  directory_volume v f -> reading v f d l (p :: ps) -> length into = 32%nat ->
  exists v' d' l', fetch_next into d v = Ok (v', d', record v p, true) /\
    directory_volume v' f /\ same_records v v' /\ reading v' f d' l' ps /\
    d_first_cluster d' = d_first_cluster d /\ p = (d_current_cluster d', d_offset d' - directory_entry_size) /\
    (if decide (d_offset d = m_bytes_per_cluster v) then d_offset d' = directory_entry_size
     else d_offset d' = d_offset d + directory_entry_size /\ d_current_cluster d' = d_current_cluster d).
Proof.
  intros V Rd Hi. pose proof Rd as [Hl Hc Hok [Ho Hdiv] Hps]. pose proof V as [R Dk Hr]. pose proof (do_positive _ Dk) as Hb.
  assert (Hin : p ∈ p :: ps) by (by left). assert (Hv := reading_valid v f d l _ p Rd Hin).
  unfold fetch_next. rewrite Hl. destruct (decide (d_offset d = m_bytes_per_cluster v)) as [Eo|Eo].
  - rewrite Eo in Hps. rewrite places_from_end in Hps. cbn [app] in Hps. rewrite Eo, Z.eqb_refl.
    destruct l as [|c l]; [done|]. destruct Hok as [Hnd Hok]. apply Forall_cons in Hok as [Hcc Hok]. cbn in Hc. destruct Hc as [Ef Hc].
    destruct (fat_entry_at_Ok v f (d_current_cluster d) R ltac:(unfold entry_index, reserved_cluster_count in *; lia)) as (v1 & -> & R1 & S1). run.
    destruct (same_volume_bytes v v1 f V R1 S1) as [V1 B1].
    pose proof (Forall_inv Hok) as Hc1. cbn in Hc1. rewrite Ef, entry_link by (pose proof (vo_count _ (proj1 R)); unfold reserved_cluster_count in *; lia).
    run. cbn [negb d_current_cluster d_offset d_first_cluster d_exhausted].
    cbn [fmap list_fmap mjoin list_join] in Hps. rewrite (places_from_cons _ c 0) in Hps; [|done|by exists 0|done].
    cbn [app] in Hps. injection Hps as -> Hps.
    assert (Hv1 : valid_place v1 (c, 0)) by (destruct B1 as [C1 E1 _]; unfold valid_place in *; by rewrite C1, E1).
    destruct (fetch_at v1 f (d_first_cluster d) c 0 into V1 Hv1 Hi) as (v2 & -> & V2 & B2).
    eexists v2, _, l. rewrite (record_same v v1) by done. split; [reflexivity|].
    assert (B3 := same_records_trans _ _ _ B1 B2). split_and!; [done|done| |done|done|done].
    apply NoDup_cons in Hnd as [_ Hnd]. destruct B3 as [C3 E3 _].
    split; cbn [d_exhausted d_current_cluster d_offset]; [done|done|split; [done|by rewrite C3]| |by rewrite E3].
    destruct Hr as [a Ha]. unfold directory_entry_size in *. split; [rewrite E3; lia|by exists 1].
  - destruct (d_offset d =? m_bytes_per_cluster v) eqn:E1; bool_to_prop; [done|]. run. cbn [negb].
    rewrite places_from_cons in Hps by (done || lia). cbn [app] in Hps. injection Hps as -> Hps.
    destruct (fetch_at v f (d_first_cluster d) (d_current_cluster d) (d_offset d) into V Hv Hi) as (v2 & E2 & V2 & B2).
    rewrite Hl, E2. eexists v2, _, l. split; [reflexivity|]. split_and!; cbn [d_offset d_current_cluster d_first_cluster]; try done.
    + destruct B2 as [C2 Eb _]. split; cbn [d_exhausted d_current_cluster d_offset]; [done|done| | |by rewrite Eb].
      * destruct Hok as [Hnd Hok]. split; [done|by rewrite C2].
      * destruct Hdiv as [a Ha], Hr as [b' Hb']. unfold directory_entry_size in *. split; [rewrite Eb; lia|]. exists (a + 1). lia.
    + f_equal. lia.
Qed.

Lemma fetch_next_end v f d l into :
  directory_volume v f -> reading v f d l [] ->
  exists v' d', fetch_next into d v = Ok (v', d', into, false) /\ directory_volume v' f /\ same_records v v' /\
    d_exhausted d' = true /\ d_first_cluster d' = d_first_cluster d.
Proof.
  intros V [Hl Hc Hok [Ho Hdiv] Hps]. pose proof V as [R Dk Hr]. pose proof (do_positive _ Dk) as Hb.
  symmetry in Hps. apply app_eq_nil in Hps as [Hp1 Hp2].
  assert (Eo : d_offset d = m_bytes_per_cluster v).
  { destruct (decide (d_offset d = m_bytes_per_cluster v)); [done|]. by rewrite places_from_cons in Hp1 by (done || lia). }
  destruct Hok as [Hnd Hok]. apply Forall_cons in Hok as [Hcc Hok].
  assert (l = []) as ->. { destruct l as [|c l]; [done|]. cbn [fmap list_fmap mjoin list_join] in Hp2.
    rewrite (places_from_cons _ c 0) in Hp2; [done|done|by exists 0|done]. }
  unfold fetch_next. rewrite Hl, Eo, Z.eqb_refl.
  destruct (fat_entry_at_Ok v f (d_current_cluster d) R ltac:(unfold entry_index, reserved_cluster_count in *; lia)) as (v1 & -> & R1 & S1). run.
  destruct (same_volume_bytes v v1 f V R1 S1) as [V1 B1]. cbn in Hc. rewrite entry_end by done. run. cbn [negb].
  eexists _, _. by split_and!.
Qed.
End Read.
