(* ===== verification/FatDirectoryNames.v ===== *)
(** The names in the records of a directory: the thirteen characters of a long entry, the pieces of a
    long name, and the parts of a short one, written and read back; and the loop of [next_native]
    over the long entries of a file. *)
From S2P Require Import Prelude Strings FatNames Utilities Time IOStream BlockStore FatTable FatChains FatFile FatDirectory FatDirectoryRead FatCreate.
From stdpp Require Import gmap list_numbers.
#[local] Open Scope Z_scope.

(** The characters that pass the test of [create_file] are plain ASCII. *)
Definition plain (c : Z) : Prop := 32 <= c <= 127.

Lemma not_banned_plain c : 0 <= c < 256 -> is_banned c = false -> plain c.
Proof.
  unfold is_banned, plain, as_signed. intros Hc E. apply orb_false_iff in E as [_ E]. destruct (c >=? 128) eqn:E1; bool_to_prop; lia.
Qed.

(** ** One long entry *)

Lemma process_ucs2_cons c l : plain c -> process_ucs2 (c mod 256 :: c / 256 mod 256 :: l) = c :: process_ucs2 l.
Proof.
  unfold plain. intros Hc. replace (c / 256 mod 256) with 0 by dlia. rewrite Z.mod_small by lia.
  cbn [process_ucs2]. rewrite Z.shiftl_0_l, Z.lor_0_r. destruct (c =? 0) eqn:E1; bool_to_prop; [lia|].
  destruct (c >? 127) eqn:E2; bool_to_prop; [lia|]. f_equal. change 255 with (Z.ones 8). rewrite Z.land_ones by lia. apply Z.mod_small. lia.
Qed.

Lemma process_ucs2_plain l rest : Forall plain l -> process_ucs2 (mjoin (le16 <$> l) ++ rest) = l ++ process_ucs2 rest.
Proof.
  induction 1 as [|c l Hc Hl IH]; [done|].
  change (process_ucs2 (c mod 256 :: c / 256 mod 256 :: mjoin (le16 <$> l) ++ rest) = c :: l ++ process_ucs2 rest).
  rewrite process_ucs2_cons by done. by rewrite IH.
Qed.

Lemma process_ucs2_zero rest : process_ucs2 (mjoin (le16 <$> 0 :: rest)) = [].
Proof. reflexivity. Qed.

(** The characters of a part of a long entry: those before the zero. *)
Lemma process_ucs2_part l rest :
  Forall plain l -> process_ucs2 (mjoin (le16 <$> l)) = l /\ process_ucs2 (mjoin (le16 <$> l ++ 0 :: rest)) = l.
Proof.
  intros Hl. split.
  - rewrite <- (app_nil_r (mjoin _)), process_ucs2_plain by done. by rewrite app_nil_r.
  - rewrite fmap_app, join_app, process_ucs2_plain by done. by rewrite process_ucs2_zero, app_nil_r.
Qed.

Lemma piece_characters_plain p :
  Forall plain p -> (length p <= 13)%nat ->
  piece_characters p = p ++ (if decide (length p < 13)%nat then 0 :: replicate (12 - length p) 65535 else []).
Proof.
  intros Hp Hl. unfold piece_characters. assert (Ew : (fun c => wrap16 (as_signed c)) <$> p = p).
  { clear Hl. induction Hp as [|c p Hc Hp IH]; [done|]. cbn. f_equal; [|exact IH]. unfold plain in Hc. unfold as_signed, wrap16.
    destruct (c >=? 128) eqn:E; bool_to_prop; [lia|]. apply Z.mod_small. lia. }
  rewrite Ew. case_decide.
  - rewrite length_app. cbn [length]. rewrite <- app_assoc. cbn [app]. do 3 f_equal. lia.
  - by replace (13 - length p)%nat with 0%nat by lia.
Qed.

(** The part [m, m + n) of the characters of a piece reads as that part of the piece. *)
Lemma process_piece_part p m n :
  Forall plain p -> (length p <= 13)%nat -> (m + n <= 13)%nat -> (m <= length p)%nat ->
  process_ucs2 (mjoin (le16 <$> take n (drop m (piece_characters p)))) = take n (drop m p).
Proof.
  intros Hp Hl Hmn Hm. rewrite piece_characters_plain by done. rewrite drop_app_le by lia.
  assert (Hpart : Forall plain (take n (drop m p))) by (by apply Forall_take, Forall_drop).
  destruct (decide (n <= length p - m)%nat) as [Hn|Hn].
  - rewrite take_app_le by (rewrite length_drop; lia). by apply process_ucs2_part.
  - rewrite decide_True by lia. rewrite (take_ge (drop m p)) in * by (rewrite length_drop; lia).
    rewrite take_app_ge by (rewrite length_drop; lia). rewrite length_drop.
    destruct (n - (length p - m))%nat as [|k] eqn:Ek; [lia|]. cbn [take]. by apply process_ucs2_part.
Qed.

Lemma length_piece_characters p : (length p <= 13)%nat -> length (piece_characters p) = 13%nat.
Proof.
  intros Hl. unfold piece_characters. case_decide as Hd; rewrite length_fmap in Hd; rewrite length_app, length_replicate, ?length_app, ?length_fmap; cbn; lia.
Qed.

Lemma length_le16s l : length (mjoin (le16 <$> l)) = (2 * length l)%nat.
Proof.
  induction l as [|c l IH]; [done|]. change (length (le16 c ++ mjoin (le16 <$> l)) = (2 * S (length l))%nat).
  rewrite length_app, IH. cbn [length le16]. lia.
Qed.

(** The three parts of the name in a long entry. *)
Lemma long_entry_parts lastb n cs p :
  (length p <= 13)%nat -> let chars := piece_characters p in let e := long_entry lastb n cs p in
  le_name_1 e = mjoin (le16 <$> take 5 chars) /\ le_name_2 e = mjoin (le16 <$> take 6 (drop 5 chars)) /\
  le_name_3 e = mjoin (le16 <$> take 2 (drop 11 chars)) /\ length e = 32%nat.
Proof.
  intros Hl chars e. pose proof (length_piece_characters p Hl) as Hc. fold chars in Hc.
  assert (H1 : length (mjoin (le16 <$> take 5 chars)) = 10%nat) by (rewrite length_le16s, length_take; lia).
  assert (H2 : length (mjoin (le16 <$> take 6 (drop 5 chars))) = 12%nat) by (rewrite length_le16s, length_take, length_drop; lia).
  assert (H3 : length (mjoin (le16 <$> drop 11 chars)) = 4%nat) by (rewrite length_le16s, length_drop; lia).
  rewrite (take_ge (drop 11 chars)) by (rewrite length_drop; lia).
  unfold e, long_entry, le_name_1, le_name_2, le_name_3. fold chars.
  revert H1 H2 H3. generalize (mjoin (le16 <$> take 5 chars)) (mjoin (le16 <$> take 6 (drop 5 chars))) (mjoin (le16 <$> drop 11 chars)).
  intros a1 a2 a3 H1 H2 H3. cbn [app drop].
  assert (D1 : forall k, drop (10 + k) (a1 ++ 15 :: 0 :: cs :: a2 ++ 0 :: 0 :: a3) = drop k (15 :: 0 :: cs :: a2 ++ 0 :: 0 :: a3)).
  { intros k. rewrite drop_app_ge by lia. f_equal. lia. }
  assert (D2 : forall k, drop (12 + k) (a2 ++ 0 :: 0 :: a3) = drop k (0 :: 0 :: a3)).
  { intros k. rewrite drop_app_ge by lia. f_equal. lia. }
  split_and!.
  - by rewrite drop_0, take_app_le, take_ge by lia.
  - change 13%nat with (10 + 3)%nat. rewrite D1. cbn [drop]. rewrite ?drop_0. by rewrite take_app_le, take_ge by lia.
  - change 27%nat with (10 + 17)%nat. rewrite D1. cbn [drop]. change 14%nat with (12 + 2)%nat. rewrite D2. cbn [drop]. rewrite ?drop_0. by rewrite take_ge by lia.
  - cbn. rewrite length_app. cbn. rewrite length_app. cbn. lia.
Qed.

(** Reading a long entry gives the piece of the name that was written. *)
Lemma long_characters_piece lastb n cs p :
  Forall plain p -> (length p <= 13)%nat -> long_characters (long_entry lastb n cs p) = p.
Proof.
  intros Hp Hl. destruct (long_entry_parts lastb n cs p Hl) as (E1 & E2 & E3 & _).
  pose proof (process_piece_part p 0 5 Hp Hl ltac:(lia) ltac:(lia)) as P1. rewrite !drop_0, <- E1 in P1.
  pose proof (process_piece_part p 5 6 Hp Hl ltac:(lia)) as P2. rewrite <- E2 in P2.
  pose proof (process_piece_part p 11 2 Hp Hl ltac:(lia)) as P3. rewrite <- E3 in P3.
  unfold long_characters. rewrite P1, length_take. destruct (decide (5 `min` length p = 5)%nat) as [H5|H5].
  - rewrite P2 by lia. rewrite length_take, length_drop. case_decide as H6.
    + rewrite P3 by lia. rewrite (take_ge (drop 11 p)) by (rewrite length_drop; lia).
      change 11%nat with (6 + 5)%nat. rewrite Nat.add_comm, <- drop_drop. by rewrite !take_drop.
    + rewrite app_nil_r, (take_ge (drop 5 p)) by (rewrite length_drop; lia). by rewrite take_drop.
  - rewrite decide_False by lia. rewrite !app_nil_r. apply take_ge. lia.
Qed.

(** ** The pieces of a name *)

Lemma name_pieces_spec fuel name :
  name <> [] -> (length name <= 13 * fuel)%nat ->
  let ps := name_pieces fuel name in
  mjoin ps = name /\ ps <> [] /\ (length ps <= fuel)%nat /\
  (forall i p, ps !! i = Some p -> if decide (S i = length ps) then (1 <= length p <= 13)%nat else length p = 13%nat).
Proof.
  revert name. induction fuel as [|fuel IH]; intros name Hne Hlen; [destruct name; cbn in *; [done|lia]|].
  cbn [name_pieces]. case_decide as Hd.
  - assert (Hl : (length name <= 13)%nat). { apply (f_equal length) in Hd. rewrite length_drop in Hd. cbn in Hd. lia. }
    rewrite take_ge by lia. cbn [mjoin list_join]. rewrite app_nil_r. split_and!; [done|done|cbn; lia|].
    intros [|i] p Hi; [|done]. injection Hi as <-. rewrite decide_True by done. destruct name; [done|cbn in *; lia].
  - assert (Hl : (13 < length name)%nat). { apply Nat.nle_gt. intros Hle. apply Hd. by apply drop_ge. }
    destruct (IH (drop 13 name) Hd ltac:(rewrite length_drop; lia)) as (E & Hne' & Hlf & Hp). set (ps := name_pieces fuel (drop 13 name)) in *.
    split_and!; [change (take 13 name ++ mjoin ps = name); by rewrite E, take_drop|done|cbn; lia|].
    intros [|i] p Hi.
    + injection Hi as <-. cbn [length]. rewrite decide_False by (destruct ps; [done|cbn; lia]). rewrite length_take. lia.
    + specialize (Hp i p Hi). cbn [length]. repeat case_decide; try done; lia.
Qed.

(** The number of pieces, which [create_file] computes before it makes them. *)
Lemma length_name_pieces fuel name :
  name <> [] -> (length name <= 13 * fuel)%nat ->
  Z.of_nat (length (name_pieces fuel name)) = ceiling_divide (sv_size name) characters_per_entry.
Proof.
  unfold ceiling_divide, characters_per_entry, sv_size. revert name. induction fuel as [|fuel IH]; intros name Hne Hlen; [destruct name; cbn in *; [done|lia]|].
  cbn [name_pieces]. case_decide as Hd; cbn [length].
  - apply (f_equal length) in Hd. rewrite length_drop in Hd. cbn in Hd. assert (0 < Z.of_nat (length name)) by (destruct name; [done|cbn; lia]).
    destruct (Z.of_nat (length name) =? 0) eqn:E2; bool_to_prop; cbn [Z.of_nat]; dlia.
  - assert (Hl : (13 < length name)%nat). { apply Nat.nle_gt. intros Hle. apply Hd. by apply drop_ge. }
    rewrite Nat2Z.inj_succ, IH by (done || rewrite length_drop; lia). rewrite length_drop.
    destruct (Z.of_nat (length name - 13) =? 0) eqn:E1, (Z.of_nat (length name) =? 0) eqn:E2; bool_to_prop; dlia.
Qed.


(** [s] is stored in the array [l] from the index [i]. *)
Definition stored_at (l : list Z) (i : nat) (s : list Z) : Prop := take (length s) (drop i l) = s.

Lemma stored_at_inserts l i s : (i + length s <= length l)%nat -> stored_at (list_inserts i s l) i s.
Proof.
  intros Hi. unfold stored_at. apply list_eq. intros j. destruct (decide (j < length s)%nat) as [Hj|Hj].
  - rewrite lookup_take_lt, lookup_drop, list_lookup_inserts by lia. f_equal. lia.
  - rewrite lookup_take_ge by lia. symmetry. apply lookup_ge_None. lia.
Qed.

Lemma stored_at_app l i s t : stored_at l i s -> stored_at l (i + length s) t -> stored_at l i (s ++ t).
Proof.
  unfold stored_at. intros Hs Ht. rewrite length_app, <- (take_drop (length s) (drop i l)) at 1. rewrite Hs, drop_drop.
  rewrite take_app_ge by lia. f_equal. rewrite Nat.add_sub'. exact Ht.
Qed.

Lemma stored_at_lookup l i s (j : nat) : stored_at l i s -> (j < length s)%nat -> l !! (i + j)%nat = s !! j.
Proof. unfold stored_at. intros Hs Hj. rewrite <- Hs, lookup_take_lt, lookup_drop by done. done. Qed.

Lemma stored_at_above l i s j t : (i + length s <= j)%nat -> stored_at l j t -> stored_at (list_inserts i s l) j t.
Proof.
  unfold stored_at. intros Hi Ht. rewrite <- Ht at 2. f_equal. apply list_eq. intros k. rewrite !lookup_drop.
  by rewrite list_lookup_inserts_ge by lia.
Qed.

Lemma Forall2_weaken {A B} (P Q : A -> B -> Prop) l k : (forall x y, x ∈ l -> P x y -> Q x y) -> Forall2 P l k -> Forall2 Q l k.
Proof. intros HPQ. induction 1 as [|x y l k Hxy Hl IH]; constructor; [apply HPQ; [by left|done]|]. apply IH. intros. apply HPQ; [by right|done]. Qed.

Section Long.
Context {F D : Type} `{BlockStore F} `{BlockStore D}.

(** How many more clusters the entry can name. *)
Definition cluster_room (out : native_entry) : Z :=
  (if ne_cluster_2 out =? 0 then 1 else 0) + (if ne_cluster_3 out =? 0 then 1 else 0).

(** What the loop leaves alone. *)
Definition same_place (o o' : native_entry) : Prop :=
  ne_sequence_count o' = ne_sequence_count o /\ ne_offset o' = ne_offset o /\ ne_cluster_1 o' = ne_cluster_1 o.

(** The step that notes a new cluster. *)
Lemma note_cluster out c prev :
  reserved_cluster_count <= c -> (c <> prev -> 1 <= cluster_room out) ->
  exists out', (if negb (c =? prev) then
      if ne_cluster_2 out =? free_cluster then Ok (set_clusters c (ne_cluster_3 out) out)
      else if ne_cluster_3 out =? free_cluster then Ok (set_clusters (ne_cluster_2 out) c out)
      else Fault AssertionFailed else Ok out) = Ok out' /\
    same_place out out' /\ ne_bytes out' = ne_bytes out /\
    cluster_room out - (if decide (c = prev) then 0 else 1) <= cluster_room out'.
Proof.
  unfold cluster_room, free_cluster, reserved_cluster_count. intros Hc Hr. destruct (c =? prev) eqn:E; bool_to_prop; cbn [negb].
  - exists out. split_and!; [done|done|done|]. rewrite decide_True by done. lia.
  - specialize (Hr E). rewrite decide_False by done. destruct (ne_cluster_2 out =? 0) eqn:E2; bool_to_prop.
    + eexists. split; [reflexivity|]. split_and!; [done|done|]. cbn. destruct (c =? 0) eqn:E3; bool_to_prop; [lia|].
      destruct (ne_cluster_3 out =? 0); lia.
    + destruct (ne_cluster_3 out =? 0) eqn:E3; bool_to_prop; [|lia]. eexists. split; [reflexivity|]. split_and!; [done|done|]. cbn.
      destruct (ne_cluster_2 out =? 0) eqn:E4; bool_to_prop; [lia|]. destruct (c =? 0) eqn:E5; bool_to_prop; lia.
Qed.

Lemma long_loop_Ok rq p pls pm ps s e ne cur cw prev out d l (v : volume F D) f :
  directory_volume v f -> reading v f d l (pls ++ pm :: ps) ->
  Forall2 (fun pl q => long_characters (record v pl) = q) pls rq -> long_characters e = p ->
  length e = 32%nat -> length ne = 32%nat -> Forall (fun q => length q = 13%nat) rq ->
  (length p <= 13)%nat -> (s = [] \/ length p = 13%nat) -> (13 * length rq <= cur)%nat -> (cur + 13 <= 260)%nat ->
  length (ne_bytes out) = 260%nat -> stored_at (ne_bytes out) (cur + length p) s ->
  (d_current_cluster d <> prev -> 1 <= cluster_room out) ->
  Z.of_nat (length rq) <= (m_bytes_per_cluster v - d_offset d) / directory_entry_size +
    (cluster_room out - (if decide (d_current_cluster d = prev) then 0 else 1)) * (m_bytes_per_cluster v / directory_entry_size) ->
  exists v' d' l' out', long_loop (S (length rq)) e ne cur cw prev out d v =
      Ok (v', d', out', record v pm, (cur - 13 * length rq)%nat, (cw + length p + 13 * length rq)%nat) /\
    directory_volume v' f /\ same_records v v' /\ reading v' f d' l' ps /\ d_first_cluster d' = d_first_cluster d /\
    pm = (d_current_cluster d', d_offset d' - directory_entry_size) /\ same_place out out' /\
    length (ne_bytes out') = 260%nat /\
    stored_at (ne_bytes out') (cur - 13 * length rq) (mjoin (reverse rq) ++ p ++ s) /\
    forall j, (cur + length p <= j)%nat -> ne_bytes out' !! j = ne_bytes out !! j.
Proof.
  revert p pls s e cur cw prev out d l v.
  induction rq as [|q rq IH]; intros p pls s e cur cw prev out d l v V Rd Hpl He Le Lne H13 Hp Hs Hcur Hcur2 Hlen Hst Hroom Hbudget.
  all: assert (Hcl : reserved_cluster_count <= d_current_cluster d) by
    (pose proof (rd_clusters _ _ _ _ _ Rd) as [_ Hall]; apply Forall_cons in Hall as [? _]; lia).
  all: destruct (note_cluster out (d_current_cluster d) prev Hcl Hroom) as (out1 & En & Hsp & Eb & Hr1).
  all: cbn [long_loop length]; rewrite En; run; rewrite He, Eb.
  all: set (out2 := set_bytes (list_inserts cur p (ne_bytes out)) out1).
  all: assert (Lb2 : length (ne_bytes out2) = 260%nat) by (cbn; by rewrite length_inserts).
  all: assert (St2 : stored_at (ne_bytes out2) cur (p ++ s)) by
    (apply stored_at_app; [apply stored_at_inserts; lia|apply stored_at_above; [lia|done]]).
  all: assert (Hab2 : forall j, (cur + length p <= j)%nat -> ne_bytes out2 !! j = ne_bytes out !! j) by
    (intros j Hj; cbn; by rewrite list_lookup_inserts_ge by lia).
  - apply Forall2_nil_inv_r in Hpl as ->. cbn [app] in Rd.
    destruct (fetch_next_Ok v f d l pm ps ne V Rd Lne) as (v' & d' & l' & E & V' & B' & Rd' & Ef & Epm & _). rewrite E. run.
    rewrite Nat.mul_0_r, Nat.sub_0_r, Nat.add_0_r. exists v', d', l', out2. by split_and!.
  - apply Forall2_cons_inv_r in Hpl as (pl & pls' & Hq & Hpl & ->). apply Forall_cons in H13 as [Hq13 H13].
    destruct (fetch_next_Ok v f d l pl (pls' ++ pm :: ps) e V Rd Le) as (v1 & d1 & l1 & E & V1 & B1 & Rd1 & Ef & Epl & Hpos). rewrite E. run.
    assert (Hvalid : forall x, x ∈ pls' ++ pm :: ps -> valid_place v x) by (intros x Hx; eapply reading_valid; [exact Rd|]; by right).
    destruct (IH q pls' (p ++ s) (record v pl) (cur - 13)%nat (cw + length p)%nat (d_current_cluster d) out2 d1 l1 v1)
      as (v' & d' & l' & out' & E' & V' & B' & Rd' & Ef' & Epm & Hsp' & Lb' & St' & Hab'); try done.
    + eapply Forall2_weaken; [|exact Hpl]. intros x y Hx Hxy. cbn beta. rewrite (record_same v v1); [done|done|]. apply Hvalid, elem_of_app. by left.
    + lia.
    + by right.
    + cbn in Hcur. lia.
    + lia.
    + replace (cur - 13 + length q)%nat with cur by (cbn in Hcur; lia). done.
    + intros Hne. change (1 <= cluster_room out1). destruct (decide (d_offset d = m_bytes_per_cluster v)) as [Eo|Eo].
      * rewrite Eo, Z.sub_diag, Z.div_0_l in Hbudget by done. cbn [length] in Hbudget.
        pose proof (do_positive _ (dv_data _ _ V)) as Hbp. assert (0 <= m_bytes_per_cluster v / directory_entry_size) by (apply Z.div_pos; [lia|done]).
        set (x := cluster_room out - _) in *. nia.
      * destruct Hpos as [_ Hpos]. congruence.
    + destruct B1 as [C1 Eb1 _]. rewrite Eb1. change (cluster_room out2) with (cluster_room out1).
      destruct (dv_records _ _ V) as [N HN]. pose proof (do_positive _ (dv_data _ _ V)) as Hbp.
      assert (EN : m_bytes_per_cluster v / directory_entry_size = N) by (rewrite HN; apply Z.div_mul; done).
      rewrite EN in *. destruct (decide (d_offset d = m_bytes_per_cluster v)) as [Eo|Eo].
      * rewrite Hpos, Eo, Z.sub_diag, Z.div_0_l in * by done.
        replace ((m_bytes_per_cluster v - directory_entry_size) / directory_entry_size) with (N - 1).
        2: { rewrite HN. replace (N * directory_entry_size - directory_entry_size) with ((N - 1) * directory_entry_size) by lia. symmetry. by apply Z.div_mul. }
        cbn [length] in Hbudget. unfold directory_entry_size in *. destruct (decide (d_current_cluster d1 = d_current_cluster d)); nia.
      * destruct Hpos as [-> ->]. rewrite (decide_True (P := d_current_cluster d = d_current_cluster d)) by done.
        replace (m_bytes_per_cluster v - (d_offset d + directory_entry_size)) with ((m_bytes_per_cluster v - d_offset d) + (-1) * directory_entry_size) by lia.
        rewrite Z.div_add by done. cbn [length] in Hbudget. assert (0 < N) by (unfold directory_entry_size in *; nia).
        set (x := cluster_room out - _) in *. nia.
    + cbn [long_loop] in E'. rewrite E'. exists v', d', l', out'. split_and!; try done.
      * rewrite (record_same v v1) by (try done; apply Hvalid, elem_of_app; right; by left).
        replace (cur - 13 * S (length rq))%nat with (cur - 13 - 13 * length rq)%nat by lia.
        by replace (cw + length p + 13 * S (length rq))%nat with (cw + length p + length q + 13 * length rq)%nat by lia.
      * by eapply same_records_trans.
      * congruence.
      * destruct Hsp as (? & ? & ?), Hsp' as (? & ? & ?). cbn in *. split_and!; congruence.
      * rewrite reverse_cons, join_app. cbn [mjoin list_join]. rewrite app_nil_r, <- !app_assoc.
        replace (cur - 13 * S (length rq))%nat with (cur - 13 - 13 * length rq)%nat by lia. exact St'.
      * intros j Hj. cbn [length] in Hcur. rewrite Hab', Hab2 by lia. done.
Qed.
End Long.
