(* ===== verification/FatDirectoryNext.v ===== *)
(** What [next_native] returns for the records that come next: the files of a directory as a relation
    between its records and what callers see, and the step from one file to the next. *)
From S2P Require Import Prelude Strings FatNames Utilities Time IOStream BlockStore FatTable FatChains FatFile FatDirectory FatDirectoryRead FatCreate FatDirectoryNames.
From stdpp Require Import gmap list_numbers.
#[local] Open Scope Z_scope.

(** ** Names in the bytes of an entry *)

Lemma until_zero_app s rest : Forall (fun c => c <> 0) s -> until_zero (s ++ 0 :: rest) = s.
Proof.
  induction 1 as [|c s Hc Hs IH]; [done|]. cbn. destruct (c =? 0) eqn:E; bool_to_prop; [done|]. by rewrite IH.
Qed.

Lemma plain_nonzero s : Forall plain s -> Forall (fun c => c <> 0) s.
Proof. intros Hs. eapply Forall_impl; [exact Hs|]. unfold plain. cbn. lia. Qed.

(** An array that starts with [s] and a zero holds the name [s]. *)
Lemma name_view_stored o s :
  Forall plain s -> (length s < 256)%nat -> stored_at (ne_bytes o) 0 (s ++ [0]) -> name_view o = s.
Proof.
  unfold name_view, stored_at. intros Hs Hl Hst. rewrite drop_0 in Hst. rewrite <- (take_drop (length (s ++ [0])) (take 256 (ne_bytes o))).
  rewrite take_take, Nat.min_l by (rewrite length_app; cbn; lia). rewrite Hst, <- app_assoc. cbn [app]. by apply until_zero_app, plain_nonzero.
Qed.

Lemma stored_at_empty o s : Forall plain s -> s <> [] -> stored_at (ne_bytes o) 0 (s ++ [0]) -> entry_empty o = false.
Proof.
  intros Hs Hne Hst. destruct s as [|c s]; [done|]. apply Forall_inv in Hs. unfold entry_empty. 
  pose proof (stored_at_lookup _ 0 _ 0 Hst ltac:(cbn; lia)) as E. cbn in E. destruct (ne_bytes o) as [|x l]; [done|]. injection E as ->.
  cbn. unfold plain in Hs. destruct (c =? 0) eqn:E; bool_to_prop; [lia|done].
Qed.

(** ** The records of a name *)

Lemma sequence_bits n : 1 <= n <= 20 ->
  Z.land (Z.lor 64 n) 31 = n /\ Z.land (Z.lor 64 n) 64 = 64 /\ Z.lor 64 n <> deleted_mark /\ Z.lor 64 n <> 0.
Proof.
  intros Hn. assert (E : all_below 21 (fun n => (n =? 0) || ((Z.land (Z.lor 64 n) 31 =? n) && (Z.land (Z.lor 64 n) 64 =? 64) &&
    negb (Z.lor 64 n =? 229) && negb (Z.lor 64 n =? 0))) = true) by (vm_compute; reflexivity).
  pose proof (all_below_spec 21 _ n E ltac:(lia)) as H. cbv beta in H. unfold deleted_mark.
  apply orb_true_iff in H as [H|H]; bool_to_prop; [lia|]. tauto.
Qed.

(** The long entries in the order of the disk: the one of the last piece comes first. *)
Lemma long_entries_cons cs name p rq :
  reverse (name_pieces 20 name) = p :: rq ->
  exists es, long_entries cs name = long_entry true (Z.of_nat (length rq) + 1) cs p :: es /\ length es = length rq /\
    (Forall (fun q => Forall plain q /\ (length q <= 13)%nat) rq -> long_characters <$> es = rq).
Proof.
  intros E. assert (Ep : name_pieces 20 name = reverse rq ++ [p]). { rewrite <- (reverse_involutive (name_pieces 20 name)), E. apply reverse_cons. }
  unfold long_entries. rewrite Ep. set (count := Z.of_nat (length (reverse rq ++ [p]))).
  set (g := fun (i : nat) (piece : view) => long_entry (Z.of_nat i + 1 =? count) (Z.of_nat i + 1) cs piece).
  exists (reverse (imap g (reverse rq))). split_and!.
  - rewrite imap_app, reverse_app. cbn [imap app reverse]. rewrite reverse_singleton. cbn [app]. f_equal. unfold g. cbn.
    rewrite Nat.add_0_r, length_reverse.
    assert (Ec : count = Z.of_nat (length rq) + 1) by (unfold count; rewrite length_app, length_reverse; cbn; lia).
    by rewrite Ec, Z.eqb_refl.
  - by rewrite length_reverse, length_imap, length_reverse.
  - intros Hrq. rewrite fmap_reverse. rewrite <- (reverse_involutive rq) at 2. f_equal. rewrite <- Forall_reverse in Hrq. clearbody count. clear E Ep.
    assert (Hg : forall i q, q ∈ reverse rq -> long_characters (g i q) = q).
    { intros i q Hq. rewrite Forall_forall in Hrq. destruct (Hrq q Hq). by apply long_characters_piece. }
    clear Hrq. revert Hg. generalize (reverse rq) as k. intros k Hg. apply list_eq. intros i. rewrite list_lookup_fmap, list_lookup_imap.
    destruct (k !! i) as [q|] eqn:Eq; [|done]. cbn. f_equal. apply (Hg i q). by apply list_elem_of_lookup_2 with i.
Qed.

(** What a caller sees of an entry: its name, its attributes, the first cluster and the size of the
    file, and the place of the record that holds them. *)
Record listed := Listed { li_name : view; li_attributes : Z; li_cluster : Z; li_size : Z; li_place : Z * Z }.

Definition shows (o : native_entry) (li : listed) : Prop :=
  name_view o = li_name li /\ entry_empty o = false /\ entry_attributes o = li_attributes li /\
  ne_first_data_cluster o = li_cluster li /\ ne_size o = li_size li /\ (ne_metadata_cluster o, ne_metadata_offset o) = li_place li.

(** The attributes of an entry with a long name whose last piece is [p]: the buffer has room for nine
    of its characters, and the others are in the attributes unless the directory flag replaces them. *)
Definition long_attributes (p : view) (e : list Z) : Z :=
  if is_directory_entry e then 1 else le_word (nth 9 p 0) (nth 10 p 0) (nth 11 p 0) (nth 12 p 0).

(** The files of a directory, from the records at the places [ps]. *)
Section Listing.
Context {F D : Type} `{BlockStore F} `{BlockStore D}.

(** A record that is not an entry: deleted, a device or a volume label. *)
Definition skipped (e : list Z) : Prop :=
  is_deleted e = true \/
  (is_end_of_directory e = false /\ (is_device e = true \/ is_long_name e = false /\ is_volume_label e = true)).

(** A record of a file with a short name: [stem] and [ext] are what the record shows. *)
Definition cased (lower : bool) (s : view) : view := if lower then to_lower <$> s else s.
Definition short_record (e : list Z) (stem ext : view) : Prop :=
  is_deleted e = false /\ is_end_of_directory e = false /\ is_device e = false /\ is_long_name e = false /\ is_volume_label e = false /\
  exists s x, de_filename e = pad 8 s /\ de_extension e = pad 3 x /\ (length s <= 8)%nat /\ (length x <= 3)%nat /\
    stem = cased (is_lowercase_name e) s /\ ext = cased (is_lowercase_extension e) x /\
    Forall plain stem /\ Forall plain ext /\ (ch_space ∉ stem) /\ (ch_space ∉ ext).

Definition dotted (stem ext : view) : view := if decide (ext = []) then stem else stem ++ ch_dot :: ext.

Inductive listing (v : volume F D) : list (Z * Z) -> list listed -> Prop :=
  | listing_nil : listing v [] []
  | listing_end p ps : is_deleted (record v p) = false -> is_end_of_directory (record v p) = true -> listing v (p :: ps) []
  | listing_skip p ps l : skipped (record v p) -> listing v ps l -> listing v (p :: ps) l
  | listing_short p ps l stem ext :
      short_record (record v p) stem ext -> stem <> [] -> listing v ps l ->
      let e := record v p in
      listing v (p :: ps)
        (Listed (dotted stem ext) (if is_directory_entry e then 1 else 0) (de_first_cluster e) (de_size e) p :: l)
  | listing_long pls p ps l cs name :
      record v <$> pls = long_entries cs name -> Forall plain name -> name <> [] -> (length name <= 255)%nat -> listing v ps l ->
      let e := record v p in
      listing v (pls ++ p :: ps)
        (Listed name (long_attributes (default [] (last (name_pieces 20 name))) e) (de_first_cluster e) (de_size e) p :: l).

(** Records that are the files [L], with no end of the directory among them. *)
Inductive segment (v : volume F D) : list (Z * Z) -> list listed -> Prop :=
  | segment_nil : segment v [] []
  | segment_skip p ps l : skipped (record v p) -> segment v ps l -> segment v (p :: ps) l
  | segment_short p ps l stem ext :
      short_record (record v p) stem ext -> stem <> [] -> segment v ps l ->
      let e := record v p in
      segment v (p :: ps) (Listed (dotted stem ext) (if is_directory_entry e then 1 else 0) (de_first_cluster e) (de_size e) p :: l)
  | segment_long pls p ps l cs name :
      record v <$> pls = long_entries cs name -> Forall plain name -> name <> [] -> (length name <= 255)%nat -> segment v ps l ->
      let e := record v p in
      segment v (pls ++ p :: ps)
        (Listed name (long_attributes (default [] (last (name_pieces 20 name))) e) (de_first_cluster e) (de_size e) p :: l).

(** ** Long names *)

Lemma Forall_join_inv {A} (P : A -> Prop) (ls : list (list A)) : Forall P (mjoin ls) -> Forall (Forall P) ls.
Proof.
  induction ls as [|l ls IH]; [constructor|]. change (mjoin (l :: ls)) with (l ++ mjoin ls). rewrite Forall_app. intros [? ?]. constructor; auto.
Qed.

Lemma attributes_inserted B j :
  length B = 260%nat -> (256 <= j < 260)%nat -> nth j (list_inserts 256 [1; 0; 0; 0] B) 0 = nth (j - 256) [1; 0; 0; 0] 0.
Proof. intros HB Hj. by rewrite !nth_lookup, list_lookup_inserts by (cbn; lia). Qed.

Lemma process_small c o e out :
  length (ne_bytes out) = 260%nat ->
  exists out', process_normal_entry c o e true out = Ok out' /\
    ne_first_data_cluster out' = de_first_cluster e /\ ne_size out' = de_size e /\
    (ne_metadata_cluster out', ne_metadata_offset out') = (c, o - directory_entry_size) /\
    (forall j, (j < 256)%nat -> ne_bytes out' !! j = ne_bytes out !! j) /\
    entry_attributes out' = if is_directory_entry e then 1 else entry_attributes out.
Proof.
  intros Hl. unfold process_normal_entry. run. eexists. split; [reflexivity|]. cbn [ne_first_data_cluster ne_size ne_metadata_cluster ne_metadata_offset ne_bytes].
  split_and!; try done.
  - intros j Hj. destruct (is_directory_entry e); [|done]. by rewrite list_lookup_inserts_lt by lia.
  - unfold entry_attributes. cbn [ne_bytes]. destruct (is_directory_entry e); [|done].
    rewrite !attributes_inserted by (done || lia). reflexivity.
Qed.

Lemma process_place c o e small out out' : process_normal_entry c o e small out = Ok out' -> same_place out out'.
Proof.
  unfold process_normal_entry. set (b := if small then _ else _). destruct b as [bytes|]; run; [|done]. by intros [= <-].
Qed.

Lemma shows_name o s : Forall plain s -> s <> [] -> (length s < 256)%nat -> stored_at (ne_bytes o) 0 (s ++ [0]) -> name_view o = s /\ entry_empty o = false.
Proof. intros. split; [by apply name_view_stored|by eapply stored_at_empty]. Qed.

Lemma pieces_reverse name :
  Forall plain name -> name <> [] -> (length name <= 255)%nat ->
  exists p rq, reverse (name_pieces 20 name) = p :: rq /\ last (name_pieces 20 name) = Some p /\ name = mjoin (reverse rq) ++ p /\
    (1 <= length p <= 13)%nat /\ Forall (fun q => length q = 13%nat) rq /\ (length rq < 20)%nat /\
    length name = (length p + 13 * length rq)%nat /\ Forall (fun q => Forall plain q /\ (length q <= 13)%nat) (p :: rq).
Proof.
  intros Hp Hne Hl. destruct (name_pieces_spec 20 name Hne ltac:(lia)) as (Hj & Hps & Hlen & Hsz). set (ps := name_pieces 20 name) in *.
  destruct (reverse ps) as [|p rq] eqn:Er; [by apply (f_equal reverse) in Er; rewrite reverse_involutive in Er|].
  assert (Eps : ps = reverse rq ++ [p]). { rewrite <- (reverse_involutive ps), Er. apply reverse_cons. }
  exists p, rq. rewrite Eps in *. rewrite join_app in Hj. cbn [mjoin list_join] in Hj. rewrite app_nil_r in Hj.
  assert (Hlast : (1 <= length p <= 13)%nat).
  { specialize (Hsz (length rq) p). rewrite lookup_app_r, length_reverse, Nat.sub_diag in Hsz by (rewrite length_reverse; lia).
    specialize (Hsz eq_refl). rewrite decide_True in Hsz by (rewrite length_app, length_reverse; cbn; lia). done. }
  assert (H13 : Forall (fun q => length q = 13%nat) rq).
  { rewrite <- Forall_reverse. apply Forall_lookup. intros i q Hi. assert (Hli := lookup_lt_Some _ _ _ Hi).
    specialize (Hsz i q). rewrite lookup_app_l in Hsz by done. specialize (Hsz Hi).
    rewrite decide_False in Hsz by (rewrite length_app; cbn; lia). done. }
  assert (Hplain : Forall (Forall plain) (reverse rq ++ [p])) by (apply Forall_join_inv; rewrite join_app; cbn [mjoin list_join]; rewrite app_nil_r, Hj; done).
  apply Forall_app in Hplain as [Hpr Hpp]. rewrite Forall_reverse in Hpr. split_and!; try done; try lia.
  - by rewrite last_snoc.
  - rewrite length_app, length_reverse in Hlen. cbn in Hlen. lia.
  - rewrite <- Hj, length_app. assert (Hlj : length (mjoin (reverse rq)) = (13 * length rq)%nat); [|lia].
    rewrite <- Forall_reverse in H13. rewrite <- (length_reverse rq). revert H13. generalize (reverse rq) as k.
    induction 1 as [|q k Hq Hk IH]; [done|]. change (length (q ++ mjoin k) = (13 * S (length k))%nat). rewrite length_app, IH. lia.
  - constructor; [split; [by apply Forall_inv in Hpp|lia]|]. apply Forall_forall. intros q Hq. rewrite Forall_forall in Hpr, H13. split; [by apply Hpr|].
    rewrite H13 by done. lia.
Qed.

(** Moving the name to the front of the buffer and ending it. *)
Lemma move_name B cur name p :
  length B = 260%nat -> stored_at B cur name -> (length name <= 255)%nat -> (length p <= 13)%nat ->
  (forall k : nat, (k < 13)%nat -> nth (247 + k) B 0 = nth k p 0) ->
  let B' := <[ length name := 0 ]> (list_inserts 0 (take (length name) (drop cur B)) B) in
  length B' = 260%nat /\ stored_at B' 0 (name ++ [0]) /\ forall j : nat, (256 <= j < 260)%nat -> nth j B' 0 = nth (j - 247) p 0.
Proof.
  intros HB Hst Hl Hp Hk B'. unfold stored_at in Hst. unfold B'. rewrite Hst. split_and!.
  - by rewrite length_insert, length_inserts.
  - apply stored_at_app.
    + apply list_eq. intros j. destruct (decide (j < length name)%nat).
      * rewrite lookup_take_lt, lookup_drop, list_lookup_insert_ne, list_lookup_inserts by lia. f_equal. lia.
      * rewrite lookup_take_ge by lia. symmetry. apply lookup_ge_None. lia.
    + unfold stored_at. cbn [length]. apply list_eq. intros [|j]; [|by rewrite lookup_take_ge by lia].
      rewrite lookup_take_lt, lookup_drop, Nat.add_0_l, Nat.add_0_r by lia. rewrite list_lookup_insert_eq by (rewrite length_inserts; lia). done.
  - intros j Hj. rewrite <- Hk by lia. replace (247 + (j - 247))%nat with j by lia. rewrite !nth_lookup, list_lookup_insert_ne, list_lookup_inserts_ge by lia. done.
Qed.

Definition blank (o : native_entry) : Prop := ne_bytes o = replicate 260 0 /\ ne_cluster_2 o = 0 /\ ne_cluster_3 o = 0.

Lemma next_long_Ok (v : volume F D) f d l p0 pls pm ps cs name out :
  directory_volume v f -> 512 <= m_bytes_per_cluster v -> record v <$> p0 :: pls = long_entries cs name ->
  Forall plain name -> name <> [] -> (length name <= 255)%nat -> reading v f d l (pls ++ pm :: ps) -> blank out ->
  exists v' d' l' out', next_long (record v p0) out d v = Ok (v', d', out') /\ directory_volume v' f /\ same_records v v' /\
    reading v' f d' l' ps /\ d_first_cluster d' = d_first_cluster d /\ pm = (d_current_cluster d', d_offset d' - directory_entry_size) /\
    same_place (set_place (ne_cluster_1 out) (ne_offset out) (Z.of_nat (length pls) + 1) out) out' /\
    shows out' (Listed name (long_attributes (default [] (last (name_pieces 20 name))) (record v pm))
      (de_first_cluster (record v pm)) (de_size (record v pm)) pm).
Proof.
  intros V Hbpc Hrec Hpl Hne Hl Rd (Hbytes & Hc2 & Hc3).
  destruct (pieces_reverse name Hpl Hne Hl) as (p & rq & Er & Elast & Ename & Hp & H13 & Hrq & Hlen & Hall).
  destruct (long_entries_cons cs name p rq Er) as (es & Ees & Hles & Hes). rewrite Ees in Hrec.
  assert (E0 := f_equal (hd []) Hrec). apply (f_equal tail) in Hrec. cbn [hd tail fmap list_fmap] in E0, Hrec. apply Forall_cons in Hall as [[Hpp Hp13] Hall]. specialize (Hes Hall).
  set (n := Z.of_nat (length rq) + 1) in *. destruct (sequence_bits n ltac:(lia)) as (Hseq & Hlastl & _).
  unfold next_long. rewrite E0. unfold extract_sequence_number, is_last_logical. change (nth 0 (long_entry true n cs p) 0) with (Z.lor 64 n).
  rewrite Hseq, Hlastl. destruct (n <=? 20) eqn:E20; bool_to_prop; [|lia]. cbn [Z.eqb Pos.eqb negb]. run.
  replace (Z.to_nat n) with (S (length rq)) by lia.
  destruct (long_loop_Ok rq p pls pm ps [] (long_entry true n cs p) (long_entry true n cs p) 247 0 (d_current_cluster d)
    (set_place (ne_cluster_1 out) (ne_offset out) n out) d l v f V Rd) as (v' & d' & l' & out1 & E & V' & B' & Rd' & Ef & Epm & Hsame & Lb & St & Hab);
    try done; try lia.
  - assert (Hfm : (fun pl => long_characters (record v pl)) <$> pls = rq) by (rewrite <- Hes, <- Hrec, <- list_fmap_compose; done).
    rewrite <- Hfm. apply Forall2_fmap_r. apply Forall_Forall2_diag. by apply Forall_true.
  - by apply long_characters_piece.
  - by apply long_entry_parts.
  - by apply long_entry_parts.
  - by left.
  - cbn. by rewrite Hbytes, length_replicate.
  - unfold cluster_room. cbn [ne_cluster_2 ne_cluster_3 set_place]. rewrite Hc2, Hc3, decide_True by done. cbn.
    assert (16 <= m_bytes_per_cluster v / directory_entry_size) by (apply Z.div_le_lower_bound; [done|unfold directory_entry_size; lia]).
    pose proof (rd_offset _ _ _ _ _ Rd) as [? _]. assert (0 <= (m_bytes_per_cluster v - d_offset d) / directory_entry_size) by (apply Z.div_pos; [lia|done]).
    lia.
  - rewrite E. run. rewrite app_nil_r, <- Ename in St. replace (0 + length p + 13 * length rq)%nat with (length name) by lia.
    destruct (Z.of_nat (length name) <=? max_name_length) eqn:E255; bool_to_prop; [|unfold max_name_length in *; lia]. run.
    destruct (move_name (ne_bytes out1) (247 - 13 * length rq) name p Lb St Hl Hp13) as (Lb2 & St2 & Hattr).
    { intros k Hk. rewrite !nth_lookup. destruct (decide (k < length p)%nat) as [Hkp|Hkp].
      - assert (Hj : (13 * length rq + k < length name)%nat) by lia. pose proof (stored_at_lookup _ _ _ _ St Hj) as El.
        replace (247 - 13 * length rq + (13 * length rq + k))%nat with (247 + k)%nat in El by lia. rewrite El. rewrite Ename at 1.
        rewrite lookup_app_r by (rewrite Ename, length_app in Hlen; lia). f_equal. f_equal. rewrite Ename, length_app in Hlen. lia.
      - rewrite Hab by lia. cbn [ne_bytes set_place]. rewrite Hbytes. rewrite lookup_replicate_2 by lia. by rewrite (proj2 (lookup_ge_None p k)) by lia. }
    set (B2 := <[ length name := 0 ]> _) in *.
    destruct (process_small (d_current_cluster d') (d_offset d') (record v pm) (set_bytes B2 out1) Lb2) as (out2 & E2 & Hfc & Hsz & Hmd & Hlow & Hat).
    rewrite E2. run. exists v', d', l', out2. split_and!; try done.
    { apply process_place in E2. apply (f_equal length) in Hrec. rewrite length_fmap in Hrec.
      destruct Hsame as (Hs1 & Hs2 & Hs3), E2 as (Ht1 & Ht2 & Ht3). cbn in *. split_and!; cbn; congruence || (rewrite Ht1, Hs1; unfold n; lia). }
    assert (St3 : stored_at (ne_bytes out2) 0 (name ++ [0])).
    { unfold stored_at. rewrite <- St2 at 2. rewrite !drop_0. apply list_eq. intros j. destruct (decide (j < length (name ++ [0%Z]))%nat) as [Hj|Hj].
      - rewrite !lookup_take_lt by done. apply Hlow. rewrite length_app in Hj. cbn in Hj. lia.
      - by rewrite !lookup_take_ge by lia. }
    destruct (shows_name out2 name Hpl Hne ltac:(lia) St3) as [Hn He]. split_and!; cbn [li_name li_attributes li_cluster li_size li_place]; try done.
    + rewrite Hat, Elast. cbn [default from_option id]. unfold long_attributes. destruct (is_directory_entry (record v pm)); [done|].
      unfold entry_attributes. cbn [ne_bytes set_bytes]. rewrite !Hattr by lia. reflexivity.
    + by rewrite Epm.
Qed.

(** ** Short names *)

Lemma cased_pad b n s : cased b (pad n s) = pad n (cased b s).
Proof. unfold cased, pad. destruct b; [|done]. by rewrite fmap_app, fmap_replicate, length_fmap. Qed.

Lemma length_cased b s : length (cased b s) = length s.
Proof. unfold cased. destruct b; [apply length_fmap|done]. Qed.

(** The length of what a padded field holds. *)
Lemma find_pad n s :
  (length s <= n)%nat -> (ch_space ∉ s) ->
  exists o, Strings.find (pad n s) [ch_space] = Ok o /\ Z.to_nat (default (sv_size (pad n s)) o) = length s /\ take (length s) (pad n s) = s.
Proof.
  intros Hl Hs. unfold pad. destruct (n - length s)%nat as [|k] eqn:E.
  - cbn [replicate]. rewrite app_nil_r. exists None. split_and!; [by apply find_char_none|cbn; unfold sv_size; lia|by apply take_ge].
  - cbn [replicate]. exists (Some (sv_size s)). split_and!; [by apply find_char|cbn; unfold sv_size; lia|by rewrite take_app_length].
Qed.

Lemma stored_at_zeroes B i : (i < length B)%nat -> B !! i = Some 0 -> stored_at B i [0].
Proof.
  intros Hi HB. unfold stored_at. apply list_eq. intros [|j]; [|by rewrite lookup_take_ge by (cbn; lia)].
  rewrite lookup_take_lt, lookup_drop, Nat.add_0_r by (cbn; lia). done.
Qed.

(** Writing a short name into a blank buffer. *)
Lemma dotted_stored stem ext :
  (length stem <= 8)%nat -> (length ext <= 3)%nat ->
  let B := list_inserts 0 stem (replicate 260 0) in
  let B' := if decide (length ext = 0%nat) then B else list_inserts (length stem) (ch_dot :: ext) B in
  length B' = 260%nat /\ stored_at B' 0 (dotted stem ext ++ [0]) /\ forall j, (256 <= j < 260)%nat -> nth j B' 0 = 0.
Proof.
  intros Hs He B B'. assert (LB : length B = 260%nat) by (unfold B; by rewrite length_inserts).
  assert (Hz : forall j : nat, (length stem <= j < 260)%nat -> B !! j = Some 0).
  { intros j Hj. unfold B. rewrite list_lookup_inserts_ge by lia. apply lookup_replicate_2. lia. }
  unfold B', dotted. destruct (decide (length ext = 0%nat)) as [E0|E0].
  - apply length_zero_iff_nil in E0 as ->. rewrite decide_True by done. split_and!; [done| |].
    + apply stored_at_app; [apply stored_at_inserts; rewrite length_replicate; lia|]. apply stored_at_zeroes; [lia|]. apply Hz. lia.
    + intros j Hj. rewrite nth_lookup, Hz by lia. done.
  - rewrite decide_False by (intros ->; done). split_and!; [by rewrite length_inserts| |].
    + rewrite <- app_assoc. apply stored_at_app; [|apply stored_at_app].
      * unfold stored_at. rewrite drop_0. apply list_eq. intros j. destruct (decide (j < length stem)%nat) as [Hj|Hj].
        -- rewrite lookup_take_lt, list_lookup_inserts_lt by done. unfold B. rewrite list_lookup_inserts by (rewrite ?length_replicate; lia). f_equal. lia.
        -- rewrite lookup_take_ge by lia. symmetry. apply lookup_ge_None. lia.
      * apply stored_at_inserts. cbn [length]. lia.
      * apply stored_at_zeroes; [rewrite length_inserts; cbn [length]; lia|]. rewrite list_lookup_inserts_ge by (cbn [length]; lia). apply Hz. cbn [length]. lia.
    + intros j Hj. rewrite nth_lookup, list_lookup_inserts_ge, Hz by (cbn [length]; lia). done.
Qed.

Lemma process_short c o e stem ext out :
  short_record e stem ext -> stem <> [] -> blank out ->
  exists out', process_normal_entry c o e false out = Ok out' /\
    shows out' (Listed (dotted stem ext) (if is_directory_entry e then 1 else 0) (de_first_cluster e) (de_size e) (c, o - directory_entry_size)).
Proof.
  intros (_ & _ & _ & _ & _ & s & x & Es & Ex & Hls & Hlx & Estem & Eext & Hps & Hpx & Hns & Hnx) Hne (Hb & _).
  unfold process_normal_entry. fold (cased (is_lowercase_name e) (de_filename e)) (cased (is_lowercase_extension e) (de_extension e)).
  rewrite Es, Ex, !cased_pad, <- Estem, <- Eext.
  assert (Ls : (length stem <= 8)%nat) by (by rewrite Estem, length_cased). assert (Lx : (length ext <= 3)%nat) by (by rewrite Eext, length_cased).
  destruct (find_pad 8 stem Ls Hns) as (o1 & -> & E1 & T1). destruct (find_pad 3 ext Lx Hnx) as (o2 & -> & E2 & T2). run.
  rewrite E1, E2, T1, T2, Hb. destruct (dotted_stored stem ext Ls Lx) as (LB & St & Ha). set (B := if decide (length ext = 0%nat) then _ else _) in *.
  eexists. split; [reflexivity|].
  set (out' := NativeEntry _ _ _ _ _ _ _ _ _ _ _).
  assert (Hlow : stored_at (ne_bytes out') 0 (dotted stem ext ++ [0])).
  { unfold out'. cbn [ne_bytes]. destruct (is_directory_entry e); [|done]. unfold stored_at in *. rewrite drop_0 in *. rewrite <- St at 2.
    apply list_eq. intros j. destruct (decide (j < length (dotted stem ext ++ [0%Z]))%nat) as [Hj|Hj].
    - rewrite !lookup_take_lt by done. apply list_lookup_inserts_lt. unfold dotted in Hj. rewrite length_app in Hj. cbn [length] in Hj.
      case_decide; [lia|]. rewrite length_app in Hj. cbn [length] in Hj. lia.
    - by rewrite !lookup_take_ge by lia. }
  assert (Hplain : Forall plain (dotted stem ext)).
  { unfold dotted. case_decide; [done|]. apply Forall_app. split; [done|]. constructor; [unfold plain, ch_dot; lia|done]. }
  assert (Hd : dotted stem ext <> [] /\ (length (dotted stem ext) < 256)%nat).
  { unfold dotted. case_decide; [split; [done|lia]|]. split; [by destruct stem|]. rewrite length_app. cbn [length]. lia. }
  destruct (shows_name out' _ Hplain (proj1 Hd) (proj2 Hd) Hlow) as [Hn Hemp]. split_and!; try done.
  unfold entry_attributes, out'. cbn [ne_bytes li_attributes]. destruct (is_directory_entry e).
  - rewrite !attributes_inserted by (done || lia). reflexivity.
  - rewrite !Ha by lia. reflexivity.
Qed.

(** ** Iterating *)

Lemma blank_set_place c o n out : blank out -> blank (set_place c o n out).
Proof. by intros (? & ? & ?). Qed.

(** The records do not depend on what the caches hold. *)
Lemma records_agree (v v' : volume F D) f d l ps p : same_records v v' -> reading v' f d l ps -> p ∈ ps -> record v' p = record v p.
Proof.
  intros B Rd Hp. apply record_same; [done|]. destruct (reading_valid v' f d l ps p Rd Hp) as (Hc & Ho & Hl). destruct B as [C Eb _].
  rewrite C in Hc. rewrite Eb in Hl. done.
Qed.

Lemma listing_same (v v' : volume F D) ps L : (forall p, p ∈ ps -> record v' p = record v p) -> listing v ps L -> listing v' ps L.
Proof.
  intros Hv. induction 1 as [|p ps|p ps L Hs HL IH|p ps L stem ext Hs Hne HL IH e|pls p ps L cs name Hr Hp Hne Hl HL IH e].
  - constructor.
  - assert (E : record v' p = record v p) by (apply Hv; by left). apply listing_end; by rewrite E.
  - assert (E : record v' p = record v p) by (apply Hv; by left). apply listing_skip; [by rewrite E|]. apply IH. intros q Hq. apply Hv. by right.
  - assert (E : record v' p = record v p) by (apply Hv; by left). unfold e. rewrite <- E. apply listing_short; [by rewrite E|done|].
    apply IH. intros q Hq. apply Hv. by right.
  - assert (E : record v' p = record v p) by (apply Hv; apply elem_of_app; right; by left). unfold e. rewrite <- E. apply (listing_long v' pls p ps L cs name); try done.
    + rewrite <- Hr. apply list_fmap_ext. intros i x Hx. apply Hv, elem_of_app. left. by eapply list_elem_of_lookup_2.
    + apply IH. intros q Hq. apply Hv, elem_of_app. right. by right.
Qed.

Lemma long_record_flags n cs p :
  1 <= n <= 20 -> is_deleted (long_entry true n cs p) = false /\ is_end_of_directory (long_entry true n cs p) = false /\
  ((length p <= 13)%nat -> is_device (long_entry true n cs p) = false /\ is_long_name (long_entry true n cs p) = true).
Proof.
  intros Hn. destruct (sequence_bits n Hn) as (_ & _ & Hd & Hz). split_and!.
  - unfold is_deleted. change (nth 0 (long_entry true n cs p) 0) with (Z.lor 64 n). by apply Z.eqb_neq.
  - unfold is_end_of_directory, end_of_directory_mark. change (nth 0 (long_entry true n cs p) 0) with (Z.lor 64 n). by apply Z.eqb_neq.
  - intros Hl. assert (Ha : de_attributes (long_entry true n cs p) = 15); [|unfold is_device, is_long_name; by rewrite Ha].
    unfold de_attributes, long_entry. cbn [app nth]. rewrite app_nth2.
    + by rewrite length_le16s, length_take, length_piece_characters.
    + rewrite length_le16s, length_take, length_piece_characters by done. cbn. lia.
Qed.

(** What [next_native] does with the records that come next. *)
Definition spans (e : native_entry) (recs : list (Z * Z)) : Prop :=
  head recs = Some (ne_cluster_1 e, ne_offset e) /\ last recs = Some (ne_metadata_cluster e, ne_metadata_offset e) /\
  Z.of_nat (length recs) = ne_sequence_count e + 1.

Definition next_result (v0 v v' : volume F D) (f : Z -> Z) (d d' : directory) (out' : native_entry) (ps : list (Z * Z)) (L : list listed) : Prop :=
  directory_volume v' f /\ same_records v v' /\ d_first_cluster d' = d_first_cluster d /\
  match L with
  | [] => entry_empty out' = true /\ d_exhausted d' = true
  | li :: L => shows out' li /\ exists l' ps', reading v' f d' l' ps' /\ listing v' ps' L /\
      (d_current_cluster d', d_offset d' - directory_entry_size) = (ne_metadata_cluster out', ne_metadata_offset out') /\
      exists skip recs, ps = skip ++ recs ++ ps' /\ Forall (fun p => skipped (record v0 p)) skip /\ segment v0 recs [li] /\ spans out' recs /\
        (length recs <= S (length (name_pieces 20 (li_name li))))%nat
  end.

Lemma next_loop_Ok ps L v0 :
  listing v0 ps L -> forall fuel v f d l e out, same_records v0 v -> directory_volume v f -> 512 <= m_bytes_per_cluster v -> reading v f d l ps ->
  length e = 32%nat -> blank out -> (length ps < fuel)%nat ->
  exists v' d' out', next_loop fuel e out d v = Ok (v', d', out') /\ next_result v0 v v' f d d' out' ps L.
Proof.
  assert (Hempty : forall out, blank out -> entry_empty out = true) by (intros out (Hb & _); unfold entry_empty; by rewrite Hb).
  induction 1 as [|p ps Hdel Hend|p ps L Hsk HL IH|p ps L stem ext Hs Hne HL IH e0|pls p ps L cs name Hr Hp Hne Hl HL IH e0];
    intros fuel v f d l e out B0 V Hb Rd Le Hbl Hfuel; (destruct fuel as [|fuel]; [lia|]); cbn [next_loop].
  1: { destruct (fetch_next_end v f d l e V Rd) as (v' & d' & E & V' & B' & Hx & Hf). rewrite E. run. cbn [negb].
    exists v', d', out. split; [done|]. split_and!; auto. }
  4: { destruct (pieces_reverse name Hp Hne Hl) as (q & rq & Er & _ & _ & Hq & _ & Hrq & _ & Hall). apply Forall_inv in Hall as [_ Hq13].
    destruct (long_entries_cons cs name q rq Er) as (es & Ees & _). destruct pls as [|p0 pls]; [by rewrite Ees in Hr|].
    assert (Hrec : record v <$> p0 :: pls = long_entries cs name).
    { rewrite <- Hr. apply list_fmap_ext. intros i x Hx. eapply records_agree; [done|exact Rd|]. apply elem_of_app. left. by eapply list_elem_of_lookup_2. }
    cbn [app] in Rd. destruct (fetch_next_Ok v f d l p0 (pls ++ p :: ps) e V Rd Le) as (v1 & d1 & l1 & E & V1 & B1 & Rd1 & Hf & Hpl & _). rewrite E. run. cbn [negb].
    assert (E0 := f_equal (hd []) Hrec). rewrite Ees in E0. cbn [hd fmap list_fmap] in E0.
    destruct (long_record_flags (Z.of_nat (length rq) + 1) cs q ltac:(lia)) as (F1 & F2 & F3). destruct (F3 Hq13) as [F4 F5].
    rewrite E0, F1, F2, F4, F5. cbn [negb andb]. rewrite <- E0.
    assert (Ep0 : record v1 p0 = record v p0) by (apply record_same; [done|eapply reading_valid; [exact Rd|by left]]).
    assert (Hrec1 : record v1 <$> p0 :: pls = long_entries cs name).
    { rewrite <- Hrec. cbn [fmap list_fmap]. f_equal; [done|]. apply list_fmap_ext. intros i x Hx. eapply records_agree; [done|exact Rd1|].
      apply elem_of_app. left. by eapply list_elem_of_lookup_2. }
    rewrite <- Ep0. destruct (next_long_Ok v1 f d1 l1 p0 pls p ps cs name (set_place (d_current_cluster d1) (d_offset d1 - directory_entry_size) 0 out))
      as (v' & d' & l' & out' & E' & V' & B' & Rd' & Hf' & Epm & Hsame & Hsh); try done; [by rewrite (sb_bytes _ _ B1)|].
    exists v', d', out'. split; [done|]. assert (Ep : record v1 p = record v0 p).
    { eapply records_agree; [by eapply same_records_trans|exact Rd1|]. apply elem_of_app. right. by left. }
    split; [done|]. split; [by eapply same_records_trans|]. split; [congruence|]. split; [unfold e0; by rewrite <- Ep|].
    exists l', ps. split; [done|]. split; [apply (listing_same v0); [|done]; intros x Hx; eapply records_agree; [|exact Rd'|done];
      eapply same_records_trans; [exact B0|by eapply same_records_trans]|].
    pose proof Hsh as (_ & _ & _ & _ & _ & Hplace). cbn [li_place] in Hplace. split; [congruence|].
    exists [], ((p0 :: pls) ++ [p]). split_and!; [by rewrite <- app_assoc|constructor| | |].
    - apply (segment_long v0 (p0 :: pls) p [] [] cs name); [exact Hr|done..|constructor].
    - destruct Hsame as (Hs1 & Hs2 & Hs3). cbn in Hs1, Hs2, Hs3. split_and!; [cbn; rewrite Hpl; congruence|by rewrite last_snoc, Hplace|].
      rewrite length_app. cbn [length]. lia.
    - apply (f_equal length) in Hr. unfold long_entries in Hr. rewrite length_fmap, length_reverse, length_imap in Hr. rewrite length_app. cbn [li_name length] in *. lia. }
  all: destruct (fetch_next_Ok v f d l p ps e V Rd Le) as (v1 & d1 & l1 & E & V1 & B1 & Rd1 & Hf & Epl & _); rewrite E; run; cbn [negb].
  all: assert (Ep : record v p = record v0 p) by (eapply records_agree; [done|exact Rd|by left]).
  all: assert (B01 : same_records v0 v1) by (by eapply same_records_trans).
  - rewrite Ep, Hdel, Hend. eexists _, _, _. split; [reflexivity|]. split_and!; auto.
  - assert (Hnext : forall out, blank out -> exists v' d' out', next_loop fuel (record v p) out d1 v1 = Ok (v', d', out') /\ next_result v0 v v' f d d' out' (p :: ps) L).
    { intros out1 Hb1. destruct (IH fuel v1 f d1 l1 (record v p) out1) as (v' & d' & out' & E' & V' & B' & Hf' & Hres); try done.
      - by rewrite (sb_bytes _ _ B1).
      - cbn [length] in Hfuel. lia.
      - exists v', d', out'. split; [done|]. split; [done|]. split; [by eapply same_records_trans|]. split; [congruence|].
        destruct L as [|li L]; [done|]. destruct Hres as (Hsh & l2 & ps2 & Rd2 & HL2 & Hm & skip & recs & -> & Hskip & Hseg & Hspan & Hlen).
        split; [done|]. exists l2, ps2. split_and!; [done..|]. exists (p :: skip), recs. split_and!; [done| |done..]. by constructor. }
    rewrite <- Ep in Hsk. destruct Hsk as [-> |(Hend & Hsk)]; [by apply Hnext|]. destruct (is_deleted (record v p)); [by apply Hnext|]. rewrite Hend.
    destruct Hsk as [-> |[-> ->]]; [by apply Hnext|]. destruct (is_device (record v p)); [by apply Hnext|]. cbn [negb andb].
    apply Hnext. by apply blank_set_place.
  - unfold e0 in *. rewrite <- Ep in *. pose proof Hs as (H1 & H2 & H3 & H4 & H5 & _). rewrite H1, H2, H3, H4, H5. cbn [negb andb].
    destruct (process_short (d_current_cluster d1) (d_offset d1) (record v p) stem ext
      (set_place (d_current_cluster d1) (d_offset d1 - directory_entry_size) 0 out) Hs Hne (blank_set_place _ _ _ _ Hbl)) as (out' & E' & Hsh).
    rewrite E'. run. exists v1, d1, out'. split; [done|]. split; [done|]. split; [done|]. split; [done|]. split; [by rewrite <- Epl in Hsh|]. exists l1, ps. split; [done|].
    split; [apply (listing_same v0); [|done]; intros x Hx; by eapply records_agree|].
    pose proof Hsh as (_ & _ & _ & _ & _ & Hplace). cbn [li_place] in Hplace. split; [done|]. apply process_place in E' as (Hs1 & Hs2 & Hs3).
    exists [], [p]. split_and!; [done|constructor| | |cbn; lia].
    + rewrite Ep. apply (segment_short v0 p [] [] stem ext); [by rewrite <- Ep|done|constructor].
    + cbn in Hs1, Hs2, Hs3. split_and!; cbn; rewrite ?Hs1, ?Hs2, ?Hs3, ?Hplace, ?Epl; done.
Qed.
End Listing.
