(* ===== verification/FatDirectoryWrite.v ===== *)
(** Writing records into a directory: the places that a slot gives, and what [create_file] writes for a
    name. *)
From S2P Require Import Prelude Strings FatNames Utilities Time IOStream BlockStore FatTable FatChains FatFile FatDirectory FatDirectoryRead FatCreate FatDirectoryNames FatDirectoryNext.
From stdpp Require Import gmap list_numbers.
#[local] Open Scope Z_scope.

Section Write.
Context {F D : Type} `{BlockStore F} `{BlockStore D}.

(** [k] records in a row from the offset [o] of the cluster [c]. *)
Definition run_places (c o : Z) (k : nat) : list (Z * Z) := (fun i => (c, o + directory_entry_size * Z.of_nat i)) <$> seq 0 k.

Lemma run_places_S c o k : run_places c o (S k) = (c, o) :: run_places c (o + directory_entry_size) k.
Proof.
  unfold run_places. cbn [seq fmap list_fmap]. f_equal; [f_equal; lia|]. rewrite <- fmap_S_seq, <- list_fmap_compose.
  apply list_fmap_ext. intros i x _. cbn. f_equal. lia.
Qed.

Definition aligned_place (v : volume F D) (p : Z * Z) : Prop := valid_place v p /\ (directory_entry_size | snd p).

(** The records of [v'] are those of [v] but at the places [ps]. *)
Definition records_change (v v' : volume F D) (ps : list (Z * Z)) : Prop :=
  m_cluster_count v' = m_cluster_count v /\ m_bytes_per_cluster v' = m_bytes_per_cluster v /\
  forall p, aligned_place v p -> (p ∉ ps) -> record v' p = record v p.

Lemma aligned_same (v v' : volume F D) p :
  m_cluster_count v' = m_cluster_count v -> m_bytes_per_cluster v' = m_bytes_per_cluster v -> aligned_place v p -> aligned_place v' p.
Proof. unfold aligned_place, valid_place. by intros -> ->. Qed.

Lemma directory_write_one_Ok (v : volume F D) f c o x y e :
  directory_volume v f -> aligned_place v (c, o) -> length e = 32%nat ->
  exists v', directory_write_one e (Slot o 0 [c; x; y]) v = Ok (v', Slot (o + directory_entry_size) 0 [c; x; y]) /\
    directory_volume v' f /\ record v' (c, o) = e /\ records_change v v' [(c, o)].
Proof.
  intros [R Dk Hr] ((Hc & Ho & Hl) & Ha) He. pose proof Dk as [Hst Hsz Hb Hval]. cbn [fst snd] in *.
  unfold directory_write_one, slot_next_entry. cbn [s_offset s_index s_clusters]. destruct (o =? m_bytes_per_cluster v) eqn:E; bool_to_prop; [unfold directory_entry_size in *; lia|]. run.
  cbn [s_offset s_index s_clusters]. change (read_at [c; x; y] 0) with (Ok c). run. unfold pure_cluster_value. destruct (c >=? reserved_cluster_count) eqn:E1; bool_to_prop; [|lia]. run.
  destruct (bs_write_law (c - reserved_cluster_count) o directory_entry_size 0 (local_object e) (m_data_cache v) Hst ltac:(apply Hval; lia)
    ltac:(lia) ltac:(done) ltac:(lia)) as (s & Ew & Hs & Hch & Hwr).
  unfold locked_write. rewrite Ew. run. eexists. split; [reflexivity|].
  assert (Hacc : accessible (local_object e) 0 (Z.to_nat directory_entry_size)) by (apply local_object_accessible; by rewrite He).
  split_and!.
  - split; [by apply represents_set_data|by eapply data_ok_set|done].
  - apply list_eq. intros i. destruct (decide (i < 32)%nat) as [Hi|Hi].
    + unfold record. rewrite list_lookup_fmap, (proj2 (lookup_seqZ 0 directory_entry_size i (Z.of_nat i))) by (unfold directory_entry_size; lia). cbn [fmap option_fmap option_map fst snd].
      specialize (Hwr Hacc (o + Z.of_nat i) ltac:(unfold in_span, directory_entry_size; lia)).
      replace (0 + (o + Z.of_nat i - o)) with (Z.of_nat i) in Hwr by lia. rewrite local_object_lookup in Hwr. by rewrite Hwr.
    + rewrite !(proj2 (lookup_ge_None _ _)); [done|lia|rewrite length_record; lia].
  - split_and!; [done..|]. intros p ((Hpc & Hpo & Hpl) & Hpa) Hne. unfold record. apply list_fmap_ext. intros i z Hz. apply lookup_seqZ in Hz as [-> Hi].
    destruct Hch as (_ & _ & Hch). cbn. apply Hch; [apply Hval; lia|lia|]. intros [Eb Hsp]. apply Hne. apply list_elem_of_singleton.
    destruct p as [pc po]. cbn [fst snd] in *. destruct Ha as [a ->], Hpa as [b ->]. unfold in_span, directory_entry_size in *.
    assert (b = a) by lia. f_equal; lia.
Qed.

Lemma write_entries_Ok l : forall (v : volume F D) f c o x y,
  directory_volume v f -> Forall (fun e => length e = 32%nat) l ->
  reserved_cluster_count <= c < m_cluster_count v + reserved_cluster_count -> 0 <= o -> (directory_entry_size | o) ->
  o + directory_entry_size * Z.of_nat (length l) <= m_bytes_per_cluster v ->
  exists v' s', write_entries l (Slot o 0 [c; x; y]) v = Ok (v', s') /\ directory_volume v' f /\
    record v' <$> run_places c o (length l) = l /\ records_change v v' (run_places c o (length l)).
Proof.
  induction l as [|e l IH]; intros v f c o x y V Hl Hc Ho Ha Hroom; cbn [write_entries length].
  { exists v, (Slot o 0 [c; x; y]). by split_and!. }
  apply Forall_cons in Hl as [He Hl]. cbn [length] in Hroom.
  assert (Hp : aligned_place v (c, o)) by (split; [split_and!; cbn; unfold directory_entry_size in *; lia|done]).
  destruct (directory_write_one_Ok v f c o x y e V Hp He) as (v1 & E1 & V1 & R1 & (C1 & B1 & Ch1)). rewrite E1. run.
  destruct (IH v1 f c (o + directory_entry_size) x y V1 Hl) as (v' & s' & E' & V' & R' & (C' & B' & Ch')).
  - by rewrite C1.
  - unfold directory_entry_size. lia.
  - destruct Ha as [a ->]. exists (a + 1). unfold directory_entry_size. lia.
  - rewrite B1. unfold directory_entry_size in *. lia.
  - exists v', s'. rewrite run_places_S. split_and!; [done|done| |].
    + cbn [fmap list_fmap]. f_equal; [|done]. rewrite Ch'; [done| |].
      * by apply (aligned_same v).
      * intros (i & Ei & _)%list_elem_of_fmap. injection Ei as Ei. unfold directory_entry_size in Ei. lia.
    + split; [congruence|]. split; [congruence|]. intros p Hpp Hn. rewrite not_elem_of_cons in Hn. destruct Hn as [Hn1 Hn2]. rewrite Ch', Ch1; [done|done|by rewrite list_elem_of_singleton| |done].
      by apply (aligned_same v).
Qed.
End Write.

(** ** What is written for a name *)

Lemma normal_entry_fields dir nl el now name ext fc :
  (length name <= 8)%nat -> (length ext <= 3)%nat -> is_u32 fc ->
  let e := normal_entry dir nl el now name ext fc in
  length e = 32%nat /\ de_filename e = pad 8 (to_upper <$> name) /\ de_extension e = pad 3 (to_upper <$> ext) /\
  de_attributes e = (if dir then 16 else 0) /\ is_lowercase_name e = nl /\ is_lowercase_extension e = el /\
  de_first_cluster e = fc /\ de_size e = 0.
Proof.
  intros Hn Hx Hfc e. unfold e, normal_entry.
  assert (L8 : length (pad 8 (to_upper <$> name)) = 8%nat) by (apply length_pad; by rewrite length_fmap).
  assert (L3 : length (pad 3 (to_upper <$> ext)) = 3%nat) by (apply length_pad; by rewrite length_fmap).
  revert L8 L3. generalize (pad 8 (to_upper <$> name)) (pad 3 (to_upper <$> ext)). intros a b La Lb.
  do 8 (destruct a as [|? a]; [done|]). destruct a; [|done]. do 3 (destruct b as [|? b]; [done|]). destruct b; [|done].
  split_and!; try reflexivity; try (by destruct nl, el).
  unfold de_first_cluster. cbn [app nth le16]. unfold is_u32 in Hfc.
  change 65535 with (Z.ones 16). rewrite (Z.land_ones fc 16), Z.shiftr_div_pow2 by lia. change (2 ^ 16) with 65536.
  assert (Ehi : fc / 65536 mod 256 + 256 * (fc / 65536 / 256 mod 256) = fc / 65536) by dlia.
  assert (Elo : fc mod 65536 mod 256 + 256 * (fc mod 65536 / 256 mod 256) = fc mod 65536) by dlia.
  rewrite Ehi, Elo. apply Z.bits_inj'. intros i Hi. rewrite Z.lor_spec. change 65536 with (2 ^ 16). rewrite <- Z.shiftr_div_pow2 by lia.
  destruct (decide (i < 16)) as [H16|H16].
  - rewrite Z.shiftl_spec_low, Z.mod_pow2_bits_low by lia. done.
  - rewrite Z.shiftl_spec_high, Z.shiftr_spec, Z.mod_pow2_bits_high by lia. rewrite orb_false_r. f_equal. lia.
Qed.

Lemma existsb_false {A} (g : A -> bool) l : existsb g l = false <-> Forall (fun x => g x = false) l.
Proof. induction l as [|x l IH]; cbn; [by split|]. rewrite orb_false_iff, IH, Forall_cons. done. Qed.

(** The flag that keeps the case of a part of the name. *)
Lemma cased_upper s b :
  b = entirely_lower s -> entirely_lower s || entirely_upper s = true -> cased b (to_upper <$> s) = s.
Proof.
  intros -> Hb. unfold cased. destruct (entirely_lower s) eqn:El.
  - unfold entirely_lower in El. apply andb_true_iff in El as [_ Hu]. apply negb_true_iff, existsb_false in Hu. rewrite <- list_fmap_compose.
    clear Hb. induction Hu as [|c s Hc Hs IH]; [done|]. cbn. f_equal; [|exact IH]. unfold to_lower, to_upper, is_upper, is_lower in *.
    destruct ((c >=? 97) && (c <=? 122)) eqn:E; [replace ((c - 32 >=? 65) && (c - 32 <=? 90)) with true by blia; lia|by rewrite Hc].
  - cbn in Hb. unfold entirely_upper in Hb. apply negb_true_iff, existsb_false in Hb. clear El.
    induction Hb as [|c s Hc Hs IH]; [done|]. cbn. f_equal; [|exact IH]. unfold to_upper. by rewrite Hc.
Qed.

Lemma to_upper_plain s : Forall plain s -> Forall plain (to_upper <$> s).
Proof.
  intros Hs. apply Forall_fmap. eapply Forall_impl; [exact Hs|]. cbn. unfold plain, to_upper, is_lower. intros c Hc.
  destruct ((c >=? 97) && (c <=? 122)) eqn:E; bool_to_prop; lia.
Qed.

(** The record of a name that needs no long name reads as that name. *)
Lemma normal_entry_short dir now stem ext fc :
  let nl := entirely_lower stem in let el := if decide (ext = []) then false else entirely_lower ext in
  let e := normal_entry dir nl el now stem ext fc in
  stem <> [] -> (length stem <= 8)%nat -> (length ext <= 3)%nat -> Forall plain stem -> Forall plain ext ->
  (ch_space ∉ stem) -> (ch_space ∉ ext) -> is_u32 fc ->
  entirely_lower stem || entirely_upper stem = true -> entirely_lower ext || entirely_upper ext = true ->
  short_record e stem ext.
Proof.
  intros nl el e Hne Hs Hx Ps Px Ns Nx Hfc Cs Cx.
  destruct (normal_entry_fields dir nl el now stem ext fc Hs Hx Hfc) as (Le & Ef & Ex & Ea & En & Eel & _ & _). fold e in Le, Ef, Ex, Ea, En, Eel.
  assert (Hfirst : exists c, plain c /\ nth 0 e 0 = c).
  { destruct stem as [|c stem]; [done|]. exists (to_upper c). apply Forall_inv, (Forall_cons_2 _ _ []) in Ps; [|constructor].
    apply to_upper_plain in Ps. apply Forall_inv in Ps. done. }
  destruct Hfirst as (c & Hc & Ec). unfold plain in Hc. unfold short_record, is_deleted, is_end_of_directory, is_device, is_long_name, is_volume_label.
  rewrite Ec, Ea, En, Eel. unfold deleted_mark, end_of_directory_mark. split_and!; [apply Z.eqb_neq; lia|apply Z.eqb_neq; lia|by destruct dir..|].
  exists (to_upper <$> stem), (to_upper <$> ext). rewrite !length_fmap. split_and!; try done.
  - symmetry. by apply cased_upper.
  - unfold el. case_decide as Hd; [by rewrite Hd|]. symmetry. by apply cased_upper.
Qed.
