(* ===== verification/FatDirectoryCorrect.v ===== *)
(** What the directories of FAT32 guarantee: iterating lists the files of the directory, and what
    [create_file] writes for a name is read back as that name. *)
From S2P Require Import Prelude Strings FatNames Utilities Time IOStream BlockStore DiskCache DiskCacheCorrect FatTable FatChains FatChainsCorrect FatFile FatFileCorrect FatDirectory FatDirectoryRead FatCreate FatDirectoryNames FatDirectoryNext FatDirectoryWrite.
From stdpp Require Import gmap list_numbers.
#[local] Open Scope Z_scope.

Section Correct.
Context {F D : Type} `{BlockStore F} `{BlockStore D}.

(** The loop of the users of a directory, over its entries. *)
Fixpoint list_entries (fuel : nat) (d : directory) (v : volume F D) : result (volume F D * list native_entry) :=
  match fuel with
  | O => Fault OutOfFuel
  | S fuel =>
      '(v, d, e) ← next_native d v;
      if entry_empty e then Ok (v, []) else '(v, l) ← list_entries fuel d v; Ok (v, e :: l)
  end.

Lemma length_places_from bpc c o : 0 <= o <= bpc -> Z.of_nat (length (places_from bpc c o)) <= bpc / directory_entry_size.
Proof.
  intros Ho. unfold places_from. rewrite length_fmap, length_seqZ. unfold directory_entry_size. dlia.
Qed.

(** A directory has no more records than the volume. *)
Lemma reading_length (v : volume F D) f d l ps : directory_volume v f -> reading v f d l ps -> (S (length ps) < directory_fuel v)%nat.
Proof.
  intros V [_ _ [Hnd Hok] [Ho _] ->]. pose proof (do_positive _ (dv_data _ _ V)) as Hb. set (bpc := m_bytes_per_cluster v) in *.
  set (N := bpc / directory_entry_size). assert (HN : 0 <= N) by (apply Z.div_pos; [lia|done]).
  assert (Hjoin : Z.of_nat (length (mjoin ((fun c => places_from bpc c 0) <$> l))) <= Z.of_nat (length l) * N).
  { clear Hok Hnd. induction l as [|c l IH]; [done|].
    change (mjoin ((fun c => places_from bpc c 0) <$> c :: l)) with (places_from bpc c 0 ++ mjoin ((fun c => places_from bpc c 0) <$> l)).
    rewrite length_app. pose proof (length_places_from bpc c 0 ltac:(lia)) as Hp. fold N in Hp. cbn [length]. lia. }
  assert (Hlen : Z.of_nat (length (d_current_cluster d :: l)) <= m_cluster_count v).
  { pose proof (vo_count _ (proj1 (dv_table _ _ V))) as [Hc _].
    assert (Hsub : d_current_cluster d :: l ⊆+ seqZ reserved_cluster_count (m_cluster_count v)).
    { apply NoDup_submseteq; [done|]. intros x Hx. rewrite Forall_forall in Hok. specialize (Hok x Hx). apply elem_of_seqZ. lia. }
    apply submseteq_length in Hsub. rewrite length_seqZ in Hsub. lia. }
  pose proof (length_places_from bpc (d_current_cluster d) (d_offset d) Ho) as Hp. fold N in Hp.
  rewrite length_app. unfold directory_fuel. fold bpc N. cbn [length] in Hlen. nia.
Qed.

Lemma next_native_Ok (v : volume F D) f d l ps L :
  directory_volume v f -> 512 <= m_bytes_per_cluster v -> reading v f d l ps -> listing v ps L ->
  exists v' d' out', next_native d v = Ok (v', d', out') /\ next_result v v v' f d d' out' ps L.
Proof.
  intros V Hb Rd HL. unfold next_native. rewrite (rd_live _ _ _ _ _ Rd).
  apply (next_loop_Ok ps L v HL _ v f d l); try done. pose proof (reading_length v f d l ps V Rd). lia.
Qed.

Lemma list_entries_Ok L : forall (v : volume F D) f d l ps,
  directory_volume v f -> 512 <= m_bytes_per_cluster v -> reading v f d l ps -> listing v ps L ->
  exists v' es, list_entries (S (length L)) d v = Ok (v', es) /\ Forall2 shows es L /\ directory_volume v' f /\ same_records v v'.
Proof.
  induction L as [|li L IH]; intros v f d l ps V Hb Rd HL;
    destruct (next_native_Ok v f d l ps _ V Hb Rd HL) as (v1 & d1 & out & E & V1 & B1 & Hf & Hres); cbn [list_entries]; rewrite E; run.
  - destruct Hres as [-> _]. exists v1, []. by split_and!.
  - destruct Hres as (Hsh & l1 & ps1 & Rd1 & HL1 & _). pose proof Hsh as (_ & -> & _).
    destruct (IH v1 f d1 l1 ps1 V1 ltac:(by rewrite (sb_bytes _ _ B1)) Rd1 HL1) as (v2 & es & E2 & Hes & V2 & B2).
    cbn [length]. rewrite E2. run. exists v2, (out :: es). split_and!; [done|by constructor|done|by eapply same_records_trans].
Qed.

(** The places of the records of a directory whose clusters are [cs]. *)
Definition directory_places (v : volume F D) (cs : list Z) : list (Z * Z) :=
  mjoin ((fun c => places_from (m_bytes_per_cluster v) c 0) <$> cs).

(** C13: iterating over a directory returns its files, each once and in the order of the records,
    with the names, the sizes and the clusters that the records have, long names included, and stops
    after the last one; deleted records, devices and volume labels are skipped, and nothing on the
    volume changes.  The records are the ones that [listing] describes: short names of plain
    characters without spaces inside (FAT32.cpp:209 cuts a name at its first space), and long names of
    at most 255 plain characters, their records in order.  The attributes are the directory flag;
    for a file with a long name whose last piece has more than nine characters they are the
    characters that run over the buffer (FAT32.cpp:293). *)
Theorem directory_iteration (v : volume F D) f c cs L :
  directory_volume v f -> 512 <= m_bytes_per_cluster v -> is_chain f (c :: cs) -> clusters_ok v (c :: cs) ->
  listing v (directory_places v (c :: cs)) L ->
  exists v' es, list_entries (S (length L)) (make_directory c) v = Ok (v', es) /\ Forall2 shows es L /\
    directory_volume v' f /\ same_records v v'.
Proof.
  intros V Hb Hc Hok HL. apply (list_entries_Ok L v f _ cs (directory_places v (c :: cs))); try done.
  assert (Hc0 : (c =? free_cluster) = false).
  { destruct Hok as [_ Hok]. apply Forall_inv in Hok. apply Z.eqb_neq. unfold free_cluster, reserved_cluster_count in *. lia. }
  split; cbn [d_exhausted d_current_cluster d_offset make_directory]; try done. pose proof (do_positive _ (dv_data _ _ V)). split; [lia|by exists 0].
Qed.

(** ** Creating *)

Lemma segment_app (v v' : volume F D) ps1 L1 ps2 L2 :
  (forall p, p ∈ ps1 -> record v' p = record v p) -> segment v ps1 L1 -> listing v' ps2 L2 -> listing v' (ps1 ++ ps2) (L1 ++ L2).
Proof.
  intros Hv HL H2. revert Hv. induction HL as [|p ps L Hs HL IH|p ps L stem ext Hs Hne HL IH e|pls p ps L cs name Hr Hp Hne Hl HL IH e]; intros Hv.
  - done.
  - apply listing_skip; [rewrite Hv by (by left); done|]. apply IH. intros q Hq. apply Hv. by right.
  - assert (E : record v' p = record v p) by (apply Hv; by left). unfold e. rewrite <- E. cbn [app]. apply listing_short; [by rewrite E|done|].
    apply IH. intros q Hq. apply Hv. by right.
  - assert (E : record v' p = record v p) by (apply Hv, elem_of_app; right; by left). unfold e. rewrite <- E, <- app_assoc. cbn [app].
    apply (listing_long v' pls p (ps ++ ps2) (L ++ L2) cs name); try done.
    + rewrite <- Hr. apply list_fmap_ext. intros i x Hx. apply Hv, elem_of_app. left. by eapply list_elem_of_lookup_2.
    + apply IH. intros q Hq. apply Hv, elem_of_app. right. by right.
Qed.

Lemma directory_places_nodup (v : volume F D) cs : NoDup cs -> NoDup (directory_places v cs).
Proof.
  unfold directory_places. induction 1 as [|c cs Hc Hnd IH]; [constructor|].
  change (mjoin ((fun c => places_from (m_bytes_per_cluster v) c 0) <$> c :: cs)) with
    (places_from (m_bytes_per_cluster v) c 0 ++ mjoin ((fun c => places_from (m_bytes_per_cluster v) c 0) <$> cs)).
  apply NoDup_app. split_and!; [| |done].
  - apply NoDup_fmap; [intros i j E; injection E; unfold directory_entry_size; lia|apply NoDup_seqZ].
  - intros p (i & -> & _)%list_elem_of_fmap Hin. apply list_elem_of_join in Hin as (ps & Hp & (c' & -> & Hc')%list_elem_of_fmap).
    apply list_elem_of_fmap in Hp as (j & E & _). injection E as -> _. done.
Qed.

Lemma directory_places_aligned (v : volume F D) cs p : clusters_ok v cs -> p ∈ directory_places v cs -> aligned_place v p.
Proof.
  intros [_ Hok] Hin. apply list_elem_of_join in Hin as (ps & Hp & (c & -> & Hc)%list_elem_of_fmap). rewrite Forall_forall in Hok.
  split; [by apply (places_from_valid v c 0 p (Hok c Hc))|]. apply list_elem_of_fmap in Hp as (k & -> & _). exists k. cbn. lia.
Qed.

(** The records that [create_file] writes for [name]: [short] is the short name that goes with a long
    one and [cs] its checksum. *)
Definition created_records (vfat low xlow : bool) (name : view) (nl el : Z) (cs : Z) (short : view) (dir : bool) (now : human_readable) (fc : Z) : list (list Z) :=
  if vfat then long_entries cs name ++ [normal_entry dir false false now (take 8 short) (take 3 (drop 8 short)) fc]
  else [normal_entry dir low xlow now (name_part name nl) (extension_part name nl el) fc].

Lemma split_last_dot (s : view) : (ch_dot ∉ s) \/ exists stem ext, s = stem ++ ch_dot :: ext /\ ch_dot ∉ ext.
Proof.
  induction s as [|c s [IH|(stem & ext & -> & IH)]]; [left; apply not_elem_of_nil| |].
  - destruct (decide (c = ch_dot)) as [->|Hc]; [right; by exists [], s|left]. rewrite not_elem_of_cons. by split.
  - right. by exists (c :: stem), ext.
Qed.

(** The parts of a name that needs no long name. *)
Lemma short_name_parts name nl el low xlow :
  Forall plain name -> (length name <= 255)%nat -> head name <> Some ch_dot -> last name <> Some ch_dot -> name <> [] -> (ch_space ∉ name) ->
  length_of_name_and_extension name = Ok (nl, el) -> classify_name name nl el = (false, low, xlow) ->
  exists stem ext, name_part name nl = stem /\ extension_part name nl el = ext /\ dotted stem ext = name /\ stem <> [] /\
    (length stem <= 8)%nat /\ (length ext <= 3)%nat /\ Forall plain stem /\ Forall plain ext /\ (ch_space ∉ stem) /\ (ch_space ∉ ext) /\
    low = entirely_lower stem /\ xlow = (if decide (ext = []) then false else entirely_lower ext) /\
    entirely_lower stem || entirely_upper stem = true /\ entirely_lower ext || entirely_upper ext = true.
Proof.
  intros Hp Hl Hh Hlast Hne Hsp Elen Ecl.
  assert (Hparts : exists stem ext, name_part name nl = stem /\ extension_part name nl el = ext /\ dotted stem ext = name /\ stem <> [] /\
    nl = sv_size stem /\ el = sv_size ext).
  { destruct (split_last_dot name) as [Hd|(stem & ext & -> & Hd)].
    - rewrite length_of_without_dot in Elen by (done || unfold sv_size; lia). injection Elen as <- <-. exists name, [].
      unfold name_part, extension_part, sv_size. rewrite Nat2Z.id, take_ge by lia. by split_and!.
    - assert (Hs : stem <> []) by (intros ->; done).
      assert (He : ext <> []). { intros ->. apply Hlast. by rewrite last_snoc. }
      rewrite length_app in Hl. rewrite length_of_with_dot in Elen by (done || unfold sv_size; rewrite length_app; lia). injection Elen as <- <-.
      exists stem, ext. unfold name_part, extension_part, sv_size, dotted. rewrite !Nat2Z.id, take_app_length, decide_False by done. split_and!; try done.
      rewrite <- app_assoc, drop_app_ge by lia. replace (S (length stem) - length stem)%nat with 1%nat by lia. cbn [app drop]. rewrite drop_0.
      by rewrite take_app_length. }
  destruct Hparts as (stem & ext & E1 & E2 & Ed & Hs & -> & ->). unfold classify_name in Ecl. rewrite E1, E2 in Ecl.
  destruct ((sv_size stem >? short_name_length) || (sv_size ext >? short_extension_length)) eqn:Elong; [done|].
  assert (Hsub : forall x, x ∈ stem \/ x ∈ ext -> x ∈ name).
  { intros x Hx. rewrite <- Ed. unfold dotted. case_decide as Hdd; [destruct Hx as [?|Hx]; [done|subst ext; by apply elem_of_nil in Hx]|].
    rewrite elem_of_app, elem_of_cons. tauto. }
  rewrite Forall_forall in Hp. exists stem, ext.
  assert (Eel : (sv_size ext =? 0) = bool_decide (ext = [])) by (destruct ext; [done|cbn; done]).
  rewrite Eel in Ecl. set (nv := negb _) in Ecl. destruct nv eqn:Env; [by injection Ecl|]. unfold nv in Env. apply negb_false_iff, andb_true_iff in Env as [Ea Eb].
  injection Ecl as _ <- <-. unfold sv_size, short_name_length, short_extension_length in *. bool_to_prop. split_and!; try done; try lia.
  - apply Forall_forall. intros x Hx. apply Hp, Hsub. by left.
  - apply Forall_forall. intros x Hx. apply Hp, Hsub. by right.
  - intros Hx. apply Hsp, Hsub. by left.
  - intros Hx. apply Hsp, Hsub. by right.
  - destruct (decide (ext = [])) as [->|Hx]; [done|]. by rewrite bool_decide_false.
  - destruct (decide (ext = [])) as [->|Hx]; [done|]. rewrite bool_decide_false in Eb by done. done.
Qed.

(** What a caller of [next] sees of a name that has been created. *)
Definition created_attributes (vfat dir : bool) (name : view) : Z :=
  if dir then 1 else if vfat then long_attributes (default [] (last (name_pieces 20 name))) (replicate 32 0) else 0.

Lemma created_records_listed (v : volume F D) vfat low xlow name nl el cs short dir now fc ps post L :
  Forall plain name -> name <> [] -> (length name <= 255)%nat -> length_of_name_and_extension name = Ok (nl, el) ->
  classify_name name nl el = (vfat, low, xlow) -> (vfat = false -> head name <> Some ch_dot /\ last name <> Some ch_dot /\ (ch_space ∉ name)) -> is_u32 fc ->
  (length short <= 11)%nat ->
  record v <$> ps = created_records vfat low xlow name nl el cs short dir now fc -> listing v post L ->
  exists p, last ps = Some p /\ listing v (ps ++ post) (Listed name (created_attributes vfat dir name) fc 0 p :: L).
Proof.
  intros Hp Hne Hl Elen Ecl Hshort Hfc Hsl Hrec Hpost. destruct vfat; cbn [created_records] in Hrec.
  - apply fmap_app_inv in Hrec as (pls & ps' & E1 & E2 & ->). destruct ps' as [|p [|? ?]]; cbn [fmap list_fmap] in E2; try done.
    assert (Ep := f_equal (hd []) E2). cbn [hd] in Ep. exists p. split; [by rewrite last_snoc|].
    destruct (normal_entry_fields dir false false now (take 8 short) (take 3 (drop 8 short)) fc ltac:(rewrite length_take; lia) ltac:(rewrite length_take; lia) Hfc)
      as (_ & _ & _ & Ea & _ & _ & Ec & Es). rewrite Ep in Ea, Ec, Es.
    pose proof (listing_long v pls p post L cs name (eq_sym E1) Hp Hne Hl Hpost) as HL. cbn zeta in HL. rewrite Ec, Es in HL. rewrite <- app_assoc. cbn [app].
    replace (long_attributes (default [] (last (name_pieces 20 name))) (record v p)) with (created_attributes true dir name) in HL; [done|].
    unfold created_attributes, long_attributes, is_directory_entry. rewrite Ea. by destruct dir.
  - destruct (Hshort eq_refl) as (Hh & Hla & Hsp).
    destruct (short_name_parts name nl el low xlow Hp Hl Hh Hla Hne Hsp Elen Ecl) as (stem & ext & E1 & E2 & Ed & Hs & Ls & Lx & Ps & Px & Ns & Nx & -> & -> & Cs & Cx).
    rewrite E1, E2 in Hrec. destruct ps as [|p [|? ?]]; cbn [fmap list_fmap] in Hrec; try done.
    assert (Ep := f_equal (hd []) Hrec). cbn [hd] in Ep. exists p. split; [done|]. cbn [app].
    assert (Hsr : short_record (record v p) stem ext) by (rewrite Ep; by apply normal_entry_short).
    pose proof (listing_short v p post L stem ext Hsr Hs Hpost) as HL. cbn zeta in HL. rewrite Ed in HL.
    match type of Ep with _ = normal_entry _ ?a ?b _ _ _ _ => destruct (normal_entry_fields dir a b now stem ext fc Ls Lx Hfc) as (_ & _ & _ & Ea & _ & _ & Ec & Es) end.
    rewrite <- Ep in Ea, Ec, Es. rewrite Ec, Es in HL.
    replace (if is_directory_entry (record v p) then 1 else 0) with (created_attributes false dir name) in HL; [done|].
    unfold created_attributes, is_directory_entry. rewrite Ea. by destruct dir.
Qed.

Lemma created_records_bytes vfat low xlow name nl el cs short dir now fc :
  Forall plain name -> name <> [] -> (length name <= 255)%nat -> length_of_name_and_extension name = Ok (nl, el) ->
  classify_name name nl el = (vfat, low, xlow) -> (vfat = false -> head name <> Some ch_dot /\ last name <> Some ch_dot /\ (ch_space ∉ name)) -> is_u32 fc ->
  (length short <= 11)%nat -> Forall (fun e => length e = 32%nat) (created_records vfat low xlow name nl el cs short dir now fc).
Proof.
  intros Hp Hne Hl Elen Ecl Hshort Hfc Hsl. destruct vfat; cbn [created_records].
  - apply Forall_app. split; [|constructor; [|constructor]; apply normal_entry_fields; try done; rewrite length_take; lia].
    unfold long_entries. apply Forall_reverse, Forall_lookup. intros i e He. rewrite list_lookup_imap in He.
    destruct (name_pieces 20 name !! i) as [q|] eqn:Eq; [|done]. injection He as <-.
    destruct (name_pieces_spec 20 name Hne ltac:(lia)) as (_ & _ & _ & Hsz). specialize (Hsz i q Eq).
    apply long_entry_parts. case_decide; lia.
  - destruct (Hshort eq_refl) as (Hh & Hla & Hsp).
    destruct (short_name_parts name nl el low xlow Hp Hl Hh Hla Hne Hsp Elen Ecl) as (stem & ext & -> & -> & _ & _ & Ls & Lx & _).
    constructor; [|constructor]. by apply normal_entry_fields.
Qed.

(** C14: the records that [create_file] writes for a name, long or short, in free places of a
    directory are read back by iterating over the directory as that name, with its first cluster and
    an empty size, at the position of the records; every other file of the directory is listed as
    before.  Names are the ones that pass the tests of [create_file]; one that needs no long name
    must have no spaces and neither start nor end with a dot (".ab" is written with an empty stem),
    and the free places must all be in one cluster of the directory.  The attributes are the
    directory flag, or for a file what a long name leaves there, as for the iteration. *)
Theorem created_file_listed (v : volume F D) f c0 chain vfat low xlow name nl el cs short dir now fc pre c o post x y L1 L2 :
  directory_volume v f -> 512 <= m_bytes_per_cluster v -> is_chain f (c0 :: chain) -> clusters_ok v (c0 :: chain) ->
  Forall is_u8 name -> contains_banned name = false -> name <> [] -> (length name <= 255)%nat ->
  length_of_name_and_extension name = Ok (nl, el) -> classify_name name nl el = (vfat, low, xlow) ->
  (vfat = false -> head name <> Some ch_dot /\ last name <> Some ch_dot /\ (ch_space ∉ name)) -> is_u32 fc -> (length short <= 11)%nat ->
  let recs := created_records vfat low xlow name nl el cs short dir now fc in
  directory_places v (c0 :: chain) = pre ++ run_places c o (length recs) ++ post -> segment v pre L1 -> listing v post L2 ->
  exists v' s' v'' es p, write_entries recs (Slot o 0 [c; x; y]) v = Ok (v', s') /\
    list_entries (S (length (L1 ++ Listed name (created_attributes vfat dir name) fc 0 p :: L2))) (make_directory c0) v' = Ok (v'', es) /\
    last (run_places c o (length recs)) = Some p /\
    Forall2 shows es (L1 ++ Listed name (created_attributes vfat dir name) fc 0 p :: L2).
Proof.
  intros V Hb Hch Hok Hu8 Hban Hne Hl Elen Ecl Hshort Hfc Hsl recs Hplaces Hpre Hpost.
  assert (Hp : Forall plain name).
  { unfold contains_banned in Hban. apply existsb_false in Hban. rewrite Forall_forall in *. intros ch Hin. apply not_banned_plain; [by apply Hu8|by apply Hban]. }
  assert (Hlens := created_records_bytes vfat low xlow name nl el cs short dir now fc Hp Hne Hl Elen Ecl Hshort Hfc Hsl). fold recs in Hlens.
  assert (Hal : forall p, p ∈ directory_places v (c0 :: chain) -> aligned_place v p) by (intros; by eapply directory_places_aligned).
  assert (Hnd := directory_places_nodup v (c0 :: chain) (proj1 Hok)). rewrite Hplaces in Hnd. apply NoDup_app in Hnd as (_ & Hd1 & Hnd). apply NoDup_app in Hnd as (_ & Hd2 & _).
  assert (Hrun : forall i : nat, (i < length recs)%nat -> aligned_place v (c, o + directory_entry_size * Z.of_nat i)).
  { intros i Hi. apply Hal. rewrite Hplaces, !elem_of_app. right; left. apply list_elem_of_fmap. exists i. split; [done|]. apply elem_of_seq. lia. }
  assert (Hrecs : (0 < length recs)%nat) by (unfold recs, created_records; destruct vfat; [rewrite length_app|]; cbn; lia).
  destruct (Hrun 0%nat Hrecs) as [(Hc & Ho & _) Hoa]. destruct (Hrun (length recs - 1)%nat ltac:(lia)) as [(_ & _ & Hend) _]. cbn [fst snd] in *.
  rewrite Z.mul_0_r, Z.add_0_r in Ho, Hoa.
  destruct (write_entries_Ok recs v f c o x y V Hlens Hc Ho Hoa ltac:(unfold directory_entry_size in *; lia)) as (v' & s' & Ew & V' & Hrec & (C' & B' & Hother)).
  assert (Hpre' : forall p, p ∈ pre -> record v' p = record v p).
  { intros p Hin. apply Hother; [apply Hal; rewrite Hplaces, elem_of_app; by left|]. intros Hr. apply (Hd1 p Hin). rewrite elem_of_app. by left. }
  assert (Hpost' : listing v' post L2).
  { apply (listing_same v); [|done]. intros p Hin. apply Hother; [apply Hal; rewrite Hplaces, !elem_of_app; by do 2 right|]. intros Hr. by apply (Hd2 p). }
  destruct (created_records_listed v' vfat low xlow name nl el cs short dir now fc (run_places c o (length recs)) post L2 Hp Hne Hl Elen Ecl Hshort Hfc Hsl Hrec Hpost')
    as (p & Hlastp & Hnew).
  assert (Hall := segment_app v v' pre L1 _ _ Hpre' Hpre Hnew). rewrite <- Hplaces in Hall.
  assert (Hb' : 512 <= m_bytes_per_cluster v') by (by rewrite B').
  assert (Hok' : clusters_ok v' (c0 :: chain)) by (unfold clusters_ok in *; by rewrite C').
  assert (Hc0 : (c0 =? free_cluster) = false).
  { destruct Hok as [_ Hok]. apply Forall_inv in Hok. apply Z.eqb_neq. unfold free_cluster, reserved_cluster_count in *. lia. }
  destruct (list_entries_Ok (L1 ++ Listed name (created_attributes vfat dir name) fc 0 p :: L2) v' f (make_directory c0) chain (directory_places v (c0 :: chain)) V' Hb')
    as (v'' & es & El & Hes & _ & _); [|done|by exists v', s', v'', es, p].
  split; cbn [d_exhausted d_current_cluster d_offset make_directory]; try done.
  - pose proof (do_positive _ (dv_data _ _ V')). split; [lia|by exists 0].
  - unfold directory_places. by rewrite B'.
Qed.

(** ** Room for new records *)

Definition free_record (e : list Z) : bool := is_end_of_directory e || is_deleted e.

(** The record [i] of the cluster [c]. *)
Definition nth_record (v : volume F D) (c i : Z) : list Z := record v (c, directory_entry_size * i).

Lemma record_first (v : volume F D) c o : nth 0 (record v (c, o)) 0 = bs_byte (m_data_cache v) (c - reserved_cluster_count) o.
Proof. change (nth 0 (record v (c, o)) 0) with (bs_byte (m_data_cache v) (c - reserved_cluster_count) (o + 0)). by rewrite Z.add_0_r. Qed.

(** The search in the first cluster: [m] free records before the record [k]. *)
Lemma entries_loop_Ok fuel : forall count c k m (v : volume F D) f,
  directory_volume v f -> reserved_cluster_count <= c < m_cluster_count v + reserved_cluster_count ->
  let N := m_bytes_per_cluster v / directory_entry_size in let free i := free_record (nth_record v c i) in
  (exists i, 0 <= i /\ i + count <= N /\ forall j, i <= j < i + count -> free j = true) ->
  0 <= m < count -> m <= k -> (forall j, k - m <= j < k -> free j = true) -> (k = m \/ free (k - m - 1) = false) ->
  (forall i, 0 <= i -> i + count <= k -> exists j, i <= j < i + count /\ free j = false) ->
  (Z.to_nat (N - k) < fuel)%nat ->
  exists v' i, entries_loop fuel count c (directory_entry_size * k) m (if m =? 0 then 0 else directory_entry_size * (k - m))
      (if m =? 0 then 0 else c) (if m =? 0 then [] else [c]) v = Ok (v', inl (Slot (directory_entry_size * i) 0 [c; 0; 0])) /\
    directory_volume v' f /\ same_records v v' /\ 0 <= i /\ i + count <= N /\ (forall j, i <= j < i + count -> free j = true) /\
    (forall i', 0 <= i' < i -> exists j, i' <= j < i' + count /\ free j = false).
Proof.
  induction fuel as [|fuel IH]; intros count c k m v f V Hc N free Hex Hm Hmk Hrun Hbefore Hnone Hfuel; [lia|].
  pose proof (do_positive _ (dv_data _ _ V)) as Hb. destruct (dv_records _ _ V) as [N' HN'].
  assert (EN : N = N') by (unfold N; rewrite HN'; by apply Z.div_mul). clearbody N. subst N'.
  assert (HkN : k < N).
  { destruct (decide (k < N)) as [|Hk]; [done|]. destruct Hex as (i & Hi & HiN & Hfree).
    destruct (Hnone i Hi ltac:(lia)) as (j & Hj & Hj'). rewrite Hfree in Hj' by done. done. }
  assert (Hp : valid_place v (c, directory_entry_size * k)) by (split_and!; cbn; unfold directory_entry_size in *; lia).
  cbn [entries_loop]. unfold pure_cluster_value. destruct (c >=? reserved_cluster_count) eqn:Ec; bool_to_prop; [|lia]. run.
  destruct (locked_read_Ok v f (c, directory_entry_size * k) 1 [0] V Hp ltac:(done) ltac:(done)) as (v1 & mm & e & Er & V1 & B1 & _ & Hbyte).
  cbn [fst snd] in Er. rewrite Er. run.
  assert (Efirst : byte_of mm 0 = nth 0 (nth_record v c k) 0) by (rewrite Hbyte by lia; unfold nth_record; by rewrite record_first, Z.add_0_r).
  assert (Hsame : forall i, 0 <= i < N -> free_record (nth_record v1 c i) = free i).
  { intros i Hi. unfold free, nth_record. rewrite (record_same v v1); [done|done|]. split_and!; cbn; unfold directory_entry_size in *; lia. }
  assert (Hloop : forall m', 0 <= m' < count -> m' <= k + 1 -> k + 1 < N -> (forall j, k + 1 - m' <= j < k + 1 -> free j = true) ->
    (k + 1 = m' \/ free (k + 1 - m' - 1) = false) -> (forall i, 0 <= i -> i + count <= k + 1 -> exists j, i <= j < i + count /\ free j = false) ->
    exists v' i, entries_loop fuel count c (directory_entry_size * k + directory_entry_size) m' (if m' =? 0 then 0 else directory_entry_size * (k + 1 - m'))
        (if m' =? 0 then 0 else c) (if m' =? 0 then [] else [c]) v1 = Ok (v', inl (Slot (directory_entry_size * i) 0 [c; 0; 0])) /\
      directory_volume v' f /\ same_records v v' /\ 0 <= i /\ i + count <= N /\ (forall j, i <= j < i + count -> free j = true) /\
      (forall i', 0 <= i' < i -> exists j, i' <= j < i' + count /\ free j = false)).
  { intros m' H1 H2 H3 H4 H5 H6. assert (EN1 : m_bytes_per_cluster v1 / directory_entry_size = N) by (rewrite (sb_bytes _ _ B1), HN'; by apply Z.div_mul).
    destruct (IH count c (k + 1) m' v1 f V1 ltac:(by rewrite (sb_count _ _ B1))) as (v' & i & E' & V' & B' & I1 & I2 & I3 & I4); try done.
    - rewrite EN1. destruct Hex as (i & ? & ? & Hf). exists i. split_and!; [done|done|]. intros j Hj. rewrite Hsame by lia. by apply Hf.
    - intros j Hj. rewrite Hsame by lia. by apply H4.
    - destruct (decide (k + 1 = m')) as [?|Hne]; [by left|]. right. destruct H5 as [?|H5]; [done|]. by rewrite Hsame by lia.
    - intros i Hi Hi2. destruct (H6 i Hi Hi2) as (j & Hj & Hj'). exists j. split; [done|]. by rewrite Hsame by lia.
    - rewrite EN1. lia.
    - replace (directory_entry_size * (k + 1)) with (directory_entry_size * k + directory_entry_size) in E' by lia. exists v', i. rewrite E'. rewrite EN1 in I2.
      split_and!; try done; [by eapply same_records_trans| |].
      + intros j Hj. rewrite <- Hsame by lia. by apply I3.
      + intros i' Hi'. destruct (I4 i' Hi') as (j & Hj & Hj'). exists j. split; [done|]. rewrite <- Hsame by lia. done. }
  assert (Hnext : free k = false \/ m + 1 < count -> k + 1 < N).
  { intros Hor. destruct (decide (k + 1 < N)) as [|Hk]; [done|]. destruct Hex as (i & Hi & HiN & Hfree). exfalso.
    destruct (decide (i + count <= k)) as [Hik|Hik]; [destruct (Hnone i Hi Hik) as (j & Hj & Hj'); by rewrite Hfree in Hj' by done|].
    destruct Hor as [Hf|Hm1]; [by rewrite (Hfree k) in Hf by lia|].
    destruct Hbefore as [->|Hbf]; [lia|]. rewrite Hfree in Hbf by lia. done. }
  rewrite (sb_bytes _ _ B1). rewrite Efirst. fold (is_end_of_directory (nth_record v c k)) (is_deleted (nth_record v c k)). fold (free_record (nth_record v c k)).
  fold (free k). destruct (free k) eqn:Ek.
  - destruct (m =? 0) eqn:Em; bool_to_prop.
    + subst m. cbn [negb orb andb length]. destruct (0 =? c) eqn:Ec0; bool_to_prop; [unfold reserved_cluster_count in *; lia|]. cbn [negb andb orb]. change (bounds_check (Z.of_nat 0 <? 3)) with (@Ok unit tt). run.
      cbn [Z.eqb]. destruct (0 + 1 =? count) eqn:Ecount; bool_to_prop.
      * exists v1, k. split; [done|]. split_and!; try done; try lia.
        -- intros j Hj. by replace j with k by lia.
        -- intros i' Hi'. apply Hnone; lia.
      * destruct (_ =? m_bytes_per_cluster v) eqn:Eend; bool_to_prop; [exfalso; specialize (Hnext ltac:(right; lia)); unfold directory_entry_size in *; lia|].
        destruct (Hloop 1) as (v' & i & E' & Hrest); try lia.
        -- intros j Hj. by replace j with k by lia.
        -- replace (k + 1 - 1 - 1) with (k - 0 - 1) by lia. destruct Hbefore as [->|?]; [left; lia|by right].
        -- intros i Hi Hi2. destruct (decide (i + count <= k)) as [Hik|Hik]; [by apply Hnone; lia|]. exists (k - 0 - 1).
           destruct Hbefore as [->|?]; [lia|]. split; [lia|done].
        -- cbn [Z.eqb Pos.eqb] in E'. replace (k + 1 - 1) with k in E' by lia. exists v', i. by rewrite <- E'.
    + rewrite Z.eqb_refl. cbn [negb orb andb]. change (bounds_check true) with (@Ok unit tt). run. destruct (m + 1 =? count) eqn:Ecount; bool_to_prop.
      * exists v1, (k - m). split; [done|]. split_and!; try done; try lia.
        -- intros j Hj. destruct (decide (j = k)) as [->|]; [done|]. apply Hrun. lia.
        -- intros i' Hi'. destruct (decide (i' + count <= k)) as [Hik|Hik]; [by apply Hnone; lia|]. exists (k - m - 1). split; [lia|].
           destruct Hbefore as [?|?]; [lia|done].
      * destruct (_ =? m_bytes_per_cluster v) eqn:Eend; bool_to_prop; [exfalso; specialize (Hnext ltac:(right; lia)); unfold directory_entry_size in *; lia|].
        destruct (Hloop (m + 1)) as (v' & i & E' & Hrest); try lia.
        -- intros j Hj. destruct (decide (j = k)) as [->|]; [done|]. apply Hrun. lia.
        -- replace (k + 1 - (m + 1) - 1) with (k - m - 1) by lia. destruct Hbefore as [->|?]; [by left|by right].
        -- intros i Hi Hi2. destruct (decide (i + count <= k)) as [Hik|Hik]; [by apply Hnone; lia|]. exists (k - m - 1).
           destruct Hbefore as [->|?]; [lia|]. split; [lia|done].
        -- destruct (m + 1 =? 0) eqn:Em1; bool_to_prop; [lia|]. replace (k + 1 - (m + 1)) with (k - m) in E' by lia. exists v', i. by rewrite <- E'.
  - destruct (_ =? m_bytes_per_cluster v) eqn:Eend; bool_to_prop; [exfalso; specialize (Hnext ltac:(by left)); unfold directory_entry_size in *; lia|].
    destruct (Hloop 0) as (v' & i & E' & Hrest); try lia.
    + right. by replace (k + 1 - 0 - 1) with k by lia.
    + intros i Hi Hi2. destruct (decide (i + count <= k)) as [Hik|Hik]; [by apply Hnone; lia|]. exists k. split; [lia|done].
    + exists v', i. by rewrite <- E'.
Qed.

(** [allocate_entries] finds the first records in a row that are free, when the first cluster of
    the directory has enough of them: the slot starts there, every record of it is free, and every
    earlier place has a record in use. *)
Theorem allocate_entries_first_run (v : volume F D) f fl count :
  directory_volume v f -> reserved_cluster_count <= m_first_cluster fl < m_cluster_count v + reserved_cluster_count -> 1 <= count ->
  let c := m_first_cluster fl in let N := m_bytes_per_cluster v / directory_entry_size in let free i := free_record (nth_record v c i) in
  (exists i, 0 <= i /\ i + count <= N /\ forall j, i <= j < i + count -> free j = true) ->
  exists v' i, allocate_entries count fl v = Ok (v', Slot (directory_entry_size * i) 0 [c; 0; 0]) /\ directory_volume v' f /\ same_records v v' /\
    0 <= i /\ i + count <= N /\ (forall j, i <= j < i + count -> free j = true) /\
    (forall i', 0 <= i' < i -> exists j, i' <= j < i' + count /\ free j = false).
Proof.
  intros V Hc Hcount c N free Hex. pose proof (do_positive _ (dv_data _ _ V)) as Hb.
  assert (HN : 0 <= N) by (apply Z.div_pos; [lia|done]).
  destruct (entries_loop_Ok (directory_fuel v) count c 0 0 v f V Hc Hex ltac:(lia) ltac:(lia)) as (v' & i & E & Hrest); try lia.
  - unfold directory_fuel. fold N. nia.
  - exists v', i. split; [|done]. unfold allocate_entries. cbn [Z.eqb] in E. rewrite Z.mul_0_r in E. fold c. rewrite E. done.
Qed.
End Correct.

(** ** A concrete directory *)

(** The cluster 2 of a disk holds the given records, and the rest is zero. *)
Definition records_device (l : list (list Z)) : device := fun x => nth (Z.to_nat x) (mjoin l) 0.
Definition noon : human_readable := HumanReadable 2021 6 15 12 0 0.
Definition readme : list Z := normal_entry false false false noon [82; 69; 65; 68; 77; 69] [84; 88; 84] 5.
Definition deleted_record : list Z := deleted_mark :: replicate 31 0.
Definition example_directory : volume disk_cache disk_cache := volume_on (records_device [readme; deleted_record]) row_table.
Definition readme_listed : listed := Listed [82; 69; 65; 68; 77; 69; 46; 84; 88; 84] 0 5 0 (2, 0).
Definition long_example : view := [97; 32; 108; 111; 110; 103; 101; 114; 32; 110; 97; 109; 101].

Lemma example_directory_volume : directory_volume example_directory (table_of row_table).
Proof. split; [apply volume_on_represents|apply volume_on_data|by exists 16]. Qed.

Lemma example_directory_clusters : clusters_ok example_directory [2].
Proof. split; [apply NoDup_singleton|]. repeat constructor; vm_compute; congruence. Qed.

Lemma readme_short : short_record (record example_directory (2, 0)) [82; 69; 65; 68; 77; 69] [84; 88; 84].
Proof.
  replace (record example_directory (2, 0)) with readme by (vm_compute; reflexivity).
  apply (normal_entry_short false noon [82; 69; 65; 68; 77; 69] [84; 88; 84] 5); try done; try (cbn; lia);
    try (apply (bool_decide_eq_true_1 _); vm_compute; reflexivity).
  all: repeat constructor; vm_compute; congruence.
Qed.

Lemma example_end ps : Forall (fun p => is_deleted (record example_directory p) = false /\ is_end_of_directory (record example_directory p) = true) ps ->
  listing example_directory ps [].
Proof. intros H. destruct H as [|p ps [? ?]]; [constructor|by constructor]. Qed.

(** The same with a file of the long name "a longer name.txt", in three more records. *)
Definition longer_name : view := long_example ++ [46; 116; 120; 116].
Definition longer_records : list (list Z) := created_records true false false longer_name 13 3 0 [65; 126; 49] false noon 7.
Definition mixed_directory : volume disk_cache disk_cache :=
  volume_on (records_device (readme :: deleted_record :: longer_records)) row_table.
Definition longer_listed : listed := Listed longer_name 0 7 0 (2, 128).

Lemma directory_iteration_witness :
  exists v es, list_entries 3 (make_directory 2) mixed_directory = Ok (v, es) /\ Forall2 shows es [readme_listed; longer_listed].
Proof.
  destruct (directory_iteration mixed_directory (table_of row_table) 2 [] [readme_listed; longer_listed]) as (v & es & E & Hes & _);
    [split; [apply volume_on_represents|apply volume_on_data|by exists 16]|vm_compute; congruence..|
     split; [apply NoDup_singleton|repeat constructor; vm_compute; congruence]| |exists v, es; exact (conj E Hes)].
  change (directory_places mixed_directory [2]) with
    ((2, 0) :: (2, 32) :: [(2, 64); (2, 96)] ++ (2, 128) :: drop 5 (directory_places mixed_directory [2])).
  replace readme_listed with (Listed (dotted [82; 69; 65; 68; 77; 69] [84; 88; 84])
    (if is_directory_entry (record mixed_directory (2, 0)) then 1 else 0) (de_first_cluster (record mixed_directory (2, 0)))
    (de_size (record mixed_directory (2, 0))) (2, 0)) by (vm_compute; reflexivity).
  apply listing_short; [|done|].
  { replace (record mixed_directory (2, 0)) with (record example_directory (2, 0)) by (vm_compute; reflexivity). exact readme_short. }
  apply listing_skip; [left; vm_compute; reflexivity|].
  replace longer_listed with (Listed longer_name (long_attributes (default [] (last (name_pieces 20 longer_name))) (record mixed_directory (2, 128)))
    (de_first_cluster (record mixed_directory (2, 128))) (de_size (record mixed_directory (2, 128))) (2, 128)) by (vm_compute; reflexivity).
  apply (listing_long _ _ _ _ _ 0);
    [vm_compute; reflexivity|repeat constructor; vm_compute; congruence|done|cbn; lia|]. apply listing_end; vm_compute; reflexivity.
Defined.

Lemma created_file_listed_witness :
  exists v s v' es, write_entries (created_records true false false long_example 13 0 0 [65; 126; 49] false noon 7) (Slot 32 0 [2; 0; 0]) example_directory = Ok (v, s) /\
    list_entries 3 (make_directory 2) v = Ok (v', es) /\
    Forall2 shows es [readme_listed; Listed long_example (created_attributes true false long_example) 7 0 (2, 64)].
Proof.
  destruct (created_file_listed example_directory (table_of row_table) 2 [] true false false long_example 13 0 0 [65; 126; 49] false noon 7
    [(2, 0)] 2 32 (drop 3 (directory_places example_directory [2])) 0 0 [readme_listed] [] example_directory_volume ltac:(vm_compute; congruence)
    ltac:(vm_compute; congruence) example_directory_clusters ltac:(repeat constructor; vm_compute; congruence) ltac:(vm_compute; reflexivity) ltac:(done)
    ltac:(cbn; lia) ltac:(vm_compute; reflexivity) ltac:(vm_compute; reflexivity) ltac:(done) ltac:(split; vm_compute; congruence) ltac:(cbn; lia))
    as (v & s & v' & es & p & E1 & E2 & Ep & Hes).
  - vm_compute. reflexivity.
  - apply (segment_short example_directory (2, 0) [] [] _ _ readme_short ltac:(done)). constructor.
  - apply example_end. vm_compute. repeat constructor.
  - vm_compute in Ep. injection Ep as <-. exists v, s, v', es. exact (conj E1 (conj E2 Hes)).
Defined.

Lemma allocate_entries_first_run_witness :
  exists v, allocate_entries 2 (FatFile [] (0, 0) 2 0 false) example_directory = Ok (v, Slot 32 0 [2; 0; 0]).
Proof.
  destruct (allocate_entries_first_run example_directory (table_of row_table) (FatFile [] (0, 0) 2 0 false) 2 example_directory_volume
    ltac:(split; vm_compute; congruence) ltac:(lia)) as (v & i & E & _ & _ & Hi & HiN & Hfree & Hmin).
  - exists 1. split_and!; [lia|vm_compute; congruence|]. intros j Hj. assert (j = 1 \/ j = 2) as [->| ->] by lia; vm_compute; reflexivity.
  - assert (i = 1) as ->; [|exists v; exact E]. destruct (decide (i < 1)) as [Hlt|Hge].
    + specialize (Hfree 0 ltac:(lia)). vm_compute in Hfree. congruence.
    + destruct (decide (1 < i)) as [Hgt|?]; [|lia]. destruct (Hmin 1 ltac:(lia)) as (j & Hj & Hj').
      assert (j = 1 \/ j = 2) as [->| ->] by lia; vm_compute in Hj'; congruence.
Defined.

(** ** Where the code does not do what it means to *)

(** The names and the attributes that iterating shows, after an operation. *)
Definition names_after {A} (c : Z) (r : result (volume disk_cache disk_cache * A)) : option (list (view * Z)) :=
  match r with
  | Ok (v, _) =>
      match list_entries 17 (make_directory c) v with
      | Ok (_, es) => Some ((fun e => (name_view e, entry_attributes e)) <$> es)
      | Fault _ => None
      end
  | Fault _ => None
  end.
Definition empty_directory (l : list (list Z)) : volume disk_cache disk_cache := volume_on (records_device l) row_table.
Definition create_example (name : view) (is_directory : bool) (v : volume disk_cache disk_cache) :=
  create_in_directory 100 2 name is_directory noon (FatFile [] (0, 0) 2 0 false) v.

(** The last piece of a long name does not fit its part of the buffer: the tenth character of a file
    called "abcdefghia" ends up in the attributes, and the file is listed as a directory. *)
Example long_name_overflows_into_attributes :
  names_after 2 (create_example [97; 98; 99; 100; 101; 102; 103; 104; 105; 97] false (empty_directory [])) =
    Some [([97; 98; 99; 100; 101; 102; 103; 104; 105; 97], 97)] /\
  Z.land 97 1 = 1.
Proof. split; vm_compute; reflexivity. Qed.

(** A file called "a b" needs no long name, and is listed as "a". *)
Example short_name_with_space_is_cut :
  names_after 2 (create_example [97; 32; 98] false (empty_directory [])) = Some [([97], 0)].
Proof. vm_compute. reflexivity. Qed.

(** A directory whose cluster is full cannot grow: its file has no contiguous ranges. *)
Example directory_growth_asserts :
  outcome (create_example [97] false (empty_directory (replicate 16 readme))) = Some AssertionFailed.
Proof. vm_compute. reflexivity. Qed.

(** Nor can the second cluster of a directory be searched: the offset is not reset. *)
Example second_cluster_asserts :
  outcome (allocate_entries 1 (FatFile [] (0, 0) 3 0 false)
    (volume_on (fun x => if x <? 1024 then 65 else 0) row_table)) = Some AssertionFailed.
Proof. vm_compute. reflexivity. Qed.

(** The cluster of a new directory is not cleared: what its previous owner left there is listed after
    the entries of the directory and of its parent. *)
Definition stale_device : device := fun x => if x <? 512 then 0 else nth (Z.to_nat (x mod 32)) readme 0.
Example new_directory_lists_stale_records :
  names_after 7 (create_example [97] true (volume_on stale_device row_table)) =
    Some (([46], 1) :: ([46; 46], 1) :: replicate 14 ([82; 69; 65; 68; 77; 69; 46; 84; 88; 84], 0)).
Proof. vm_compute. reflexivity. Qed.
