(* ===== verification/FatOpen.v ===== *)
(** The open files of FAT32 (FileSystem/FAT32/FAT32.cpp): files are shared by everyone who opened
    them and counted, a path is followed from the root directory to its file with one directory
    open and locked at a time.  It opens the file that the directories lead to, and takes exactly
    one reference to it, over the volume and its caches. *)
From S2P Require Import Prelude Strings Paths Utilities IOStream BlockStore FatTable FatChains FatFile FatNames FatDirectory DiskCache FatChainsCorrect FatFileCorrect FatCreate Time FatDirectoryWrite FatDirectoryRead FatDirectoryNext FatDirectoryCorrect.
From stdpp Require Import gmap.
#[local] Open Scope Z_scope.

(** ** The code *)

(** [Kernel/FileSystem/File.h:61-65] what a FAT32::File is besides its clusters: the attributes and the lock *)
Record open_file := OpenFile {
  of_file : fat_file;
  of_attributes : Z;
  of_locked : bool;
}.

(** [Kernel/FileSystem/FAT32/FAT32.h:280-288] the map of open files: the file and its reference count by identifier *)
Record open_files := OpenFiles {
  o_files : gmap Z open_file;
  m_identifier_to_file : gmap (Z * Z) (Z * Z);
  o_address : Z;                                  (** where the next file is allocated *)
}.

Definition is_directory (fl : open_file) : bool := Z.land (of_attributes fl) 1 =? 1.

Definition file_at (p : Z) (o : open_files) : result open_file :=
  match o_files o !! p with Some fl => Ok fl | None => Fault OutOfBounds end.

Definition set_file (p : Z) (fl : open_file) (o : open_files) : open_files :=
  OpenFiles (<[ p := fl ]> (o_files o)) (m_identifier_to_file o) (o_address o).

(** [Kernel/Multitasking/Mutex.cpp:6-27] lock of a file by a thread that finds it free; its own lock is a deadlock *)
Definition lock_file (p : Z) (o : open_files) : result open_files :=
  fl ← file_at p o;
  _ ← ASSERT (negb (of_locked fl));
  Ok (set_file p (OpenFile (of_file fl) (of_attributes fl) true) o).

(** [Kernel/Multitasking/Mutex.cpp:35-41] unlock of a file, which asserts that the thread has the lock *)
Definition unlock_file (p : Z) (o : open_files) : result open_files :=
  fl ← file_at p o;
  _ ← ASSERT (of_locked fl);
  Ok (set_file p (OpenFile (of_file fl) (of_attributes fl) false) o).

(** [Kernel/FileSystem/FAT32/FAT32.cpp:910-936] FAT32::open_or_incref *)
Definition open_or_incref (attributes : Z) (identifier : Z * Z) (first_cluster size : Z) (o : open_files) : Z * open_files :=
  match m_identifier_to_file o !! identifier with
  | Some (p, refcount) =>
      (p, OpenFiles (o_files o) (<[ identifier := (p, refcount +! 1) ]> (m_identifier_to_file o)) (o_address o))
  | None =>
      let p := o_address o in
      (p, OpenFiles (<[ p := OpenFile (FatFile [] identifier first_cluster size false) attributes false ]> (o_files o))
            (<[ identifier := (p, 1) ]> (m_identifier_to_file o)) (p + 1))
  end.

Section Code.
Context {F D : Type} `{BlockStore F} `{BlockStore D}.
Context (m_root_directory root_dir_cluster : Z).

(** [Kernel/FileSystem/FAT32/FAT32.cpp:1098-1134] FAT32::close *)
Definition fat_close (p : Z) (o : open_files) : result open_files :=
  if p =? m_root_directory then Ok o
  else
    fl ← file_at p o;
    match m_identifier_to_file o !! m_identifier (of_file fl) with
    | None => Fault KernelPanic
    | Some (ptr, refcount) =>
      let value := refcount -! 1 in
      if value =? 0 then
        Ok (OpenFiles (delete ptr (o_files o)) (delete (m_identifier (of_file fl)) (m_identifier_to_file o)) (o_address o))
      else Ok (OpenFiles (o_files o) (<[ m_identifier (of_file fl) := (ptr, value) ]> (m_identifier_to_file o)) (o_address o))
    end.

(** [Kernel/FileSystem/FAT32/FAT32.cpp:966-983] the loop of open_file_from_path over a directory: the entry of the name *)
Fixpoint find_path_node (fuel : nat) (node : view) (d : directory) (v : volume F D) : result (volume F D * option native_entry) :=
  match fuel with
  | O => Fault OutOfFuel
  | S fuel =>
    '(v, d, e) ← next_native d v;
    if entry_empty e then Ok (v, None)
    else
      same ← are_equal (name_view e) node;
      if negb same then find_path_node fuel node d v else Ok (v, Some e)
  end.

(** [Kernel/FileSystem/FAT32/FAT32.cpp:975-979] the file of an entry is opened; ".." of a directory in the root has no cluster *)
Definition open_entry (e : native_entry) (o : open_files) : Z * open_files :=
  let first_cluster :=
    if bool_decide (name_view e = [ch_dot; ch_dot]) && (ne_first_data_cluster e =? 0) then root_dir_cluster
    else ne_first_data_cluster e in
  open_or_incref (entry_attributes e) (ne_metadata_cluster e, ne_metadata_offset e) first_cluster (ne_size e) o.

(** How the loop over the path ends: it returns, or it goes on below with the directory and the next file. *)
Inductive walk := Returned (code : error_code) | Ended (cur_file next_file : Z).

Definition null_file : Z := 0.

(** [Kernel/FileSystem/FAT32/FAT32.cpp:943-987] the loop of open_file_from_path over the path *)
Fixpoint walk_path (nodes : list view) (cur_file next_file : Z) (o : open_files) (v : volume F D) :
    result (volume F D * open_files * walk) :=
  match nodes with
  | [] => Ok (v, o, Ended cur_file next_file)
  | node :: nodes =>
    if bool_decide (node = [ch_dot]) then walk_path nodes cur_file next_file o v
    else
      '(cur_file, o) ←
        (if negb (next_file =? null_file) then
           o ← unlock_file cur_file o; o ← fat_close cur_file o; Ok (next_file, o)
         else Ok (cur_file, o));
      o ← lock_file cur_file o;
      fl ← file_at cur_file o;
      if negb (is_directory fl) then
        o ← unlock_file cur_file o; o ← fat_close cur_file o; Ok (v, o, Returned IS_FILE)
      else
        '(v, found) ← find_path_node (directory_fuel v) node (make_directory (m_first_cluster (of_file fl))) v;
        match found with
        | None => Ok (v, o, Ended cur_file null_file)
        | Some e => let '(next_file, o) := open_entry e o in walk_path nodes cur_file next_file o v
        end
  end.

(** [Kernel/FileSystem/FAT32/FAT32.h:240-243] OnlyIf *)
Inductive only_if := OnlyFile | OnlyDirectory.

(** [Kernel/FileSystem/FAT32/FAT32.cpp:938-1004] FAT32::open_file_from_path *)
Definition open_file_from_path (path : view) (constraint : only_if) (o : open_files) (v : volume F D) :
    result (volume F D * open_files * error_or Z) :=
  nodes ← path_nodes path;
  '(v, o, w) ← walk_path nodes m_root_directory null_file o v;
  match w with
  | Returned code => Ok (v, o, Error code)
  | Ended cur_file next_file =>
    o ← unlock_file cur_file o;
    o ← fat_close cur_file o;
    if next_file =? null_file then Ok (v, o, Error NO_SUCH_FILE)
    else
      fl ← file_at next_file o;
      match constraint, is_directory fl with
      | OnlyFile, true => o ← fat_close next_file o; Ok (v, o, Error IS_DIRECTORY)
      | OnlyDirectory, false => o ← fat_close next_file o; Ok (v, o, Error IS_FILE)
      | _, _ => Ok (v, o, Value next_file)
      end
  end.

(** [Kernel/FileSystem/FAT32/FAT32.cpp:1088-1096] FAT32::open *)
Definition fat_open (path : view) (o : open_files) (v : volume F D) : result (volume F D * open_files * error_or Z) :=
  open_file_from_path path OnlyFile o v.

(** [Kernel/FileSystem/FAT32/FAT32.cpp:1078-1086] FAT32::open_directory: the file and the directory over it *)
Definition fat_open_directory (path : view) (o : open_files) (v : volume F D) :
    result (volume F D * open_files * error_or (Z * directory)) :=
  '(v, o, r) ← open_file_from_path path OnlyDirectory o v;
  match r with
  | Error e => Ok (v, o, Error e)
  | Value p => fl ← file_at p o; Ok (v, o, Value (p, make_directory (m_first_cluster (of_file fl))))
  end.
End Code.


(** ** Directories of a volume *)

Section Volume.
Context {F D : Type} `{BlockStore F} `{BlockStore D}.

(** The directories by their first cluster. *)
Abbreviation tree := (gmap Z (list listed)).

Record tree_volume (v : volume F D) (f : Z -> Z) (T : tree) : Prop := {
  tv_volume : directory_volume v f;
  tv_cluster : 512 <= m_bytes_per_cluster v;
  tv_listing : forall c L, T !! c = Some L ->
    exists cs, is_chain f (c :: cs) /\ clusters_ok v (c :: cs) /\ listing v (directory_places v (c :: cs)) L;
}.

Lemma listing_length (v : volume F D) ps L : listing v ps L -> (length L <= length ps)%nat.
Proof. induction 1; simpl; rewrite ?length_app; simpl; lia. Qed.

Lemma start_reading (v : volume F D) f c cs :
  directory_volume v f -> is_chain f (c :: cs) -> clusters_ok v (c :: cs) ->
  reading v f (make_directory c) cs (directory_places v (c :: cs)).
Proof.
  intros V Hc Hok. assert (Hc0 : (c =? free_cluster) = false).
  { destruct Hok as [_ Hok]. apply Forall_inv in Hok. apply Z.eqb_neq. unfold free_cluster, reserved_cluster_count in *. lia. }
  split; cbn [d_exhausted d_current_cluster d_offset make_directory]; try done.
  pose proof (do_positive _ (dv_data _ _ V)). split; [lia|by exists 0].
Qed.

Lemma tree_volume_same (v v' : volume F D) f T :
  tree_volume v f T -> directory_volume v' f -> same_records v v' -> tree_volume v' f T.
Proof.
  intros [V Hb Ht] V' B. split; [done|by rewrite (sb_bytes _ _ B)|]. intros c L HL. destruct (Ht c L HL) as (cs & Hc & Hok & Hl).
  assert (Hok' : clusters_ok v' (c :: cs)) by (destruct Hok; split; [done|]; by rewrite (sb_count _ _ B)).
  exists cs. split_and!; [done|done|]. unfold directory_places in *. rewrite (sb_bytes _ _ B).
  apply (listing_same v); [|done]. intros p Hp. apply record_same; [done|].
  eapply reading_valid; [by apply (start_reading v f c cs)|exact Hp].
Qed.

(** The first file with the name. *)
Definition find_listed (node : view) (L : list listed) : option listed := head (filter (fun li => li_name li = node) L).

Lemma find_path_node_reading node L : forall fuel (v : volume F D) f d l ps,
  directory_volume v f -> 512 <= m_bytes_per_cluster v -> reading v f d l ps -> listing v ps L -> (length L < fuel)%nat ->
  exists v' r, find_path_node fuel node d v = Ok (v', r) /\ directory_volume v' f /\ same_records v v' /\
    match find_listed node L with
    | Some li => exists e, r = Some e /\ shows e li
    | None => r = None
    end.
Proof.
  induction L as [|li L IH]; intros fuel v f d l ps V Hb Rd HL Hf; (destruct fuel as [|fuel]; [lia|]); cbn [find_path_node];
    destruct (next_native_Ok v f d l ps _ V Hb Rd HL) as (v1 & d1 & out & E & V1 & B1 & _ & Hres); rewrite E; run.
  - destruct Hres as [-> _]. exists v1, None. by split_and!.
  - destruct Hres as (Hsh & l1 & ps1 & Rd1 & HL1 & _). pose proof Hsh as (Hname & -> & _). rewrite are_equal_Ok. run. rewrite Hname.
    unfold find_listed. rewrite filter_cons. destruct (decide (li_name li = node)) as [Hn|Hn].
    + rewrite bool_decide_true by done. cbn [negb head]. exists v1, (Some out). split_and!; [done|done|done|]. by exists out.
    + rewrite bool_decide_false by done. cbn [negb]. cbn [length] in Hf.
      destruct (IH fuel v1 f d1 l1 ps1 V1 ltac:(by rewrite (sb_bytes _ _ B1)) Rd1 HL1 ltac:(lia)) as (v2 & r & E2 & V2 & B2 & Hr).
      exists v2, r. split_and!; [done|done|by eapply same_records_trans|exact Hr].
Qed.

(** The files of the directory at a cluster; a directory without a cluster is empty. *)
Definition files_at (T : tree) (c : Z) : list listed := if c =? free_cluster then [] else default [] (T !! c).

Lemma find_path_node_Ok node (v : volume F D) f T c :
  tree_volume v f T -> c = free_cluster \/ is_Some (T !! c) ->
  exists v' r, find_path_node (directory_fuel v) node (make_directory c) v = Ok (v', r) /\ tree_volume v' f T /\ same_records v v' /\
    match find_listed node (files_at T c) with
    | Some li => exists e, r = Some e /\ shows e li
    | None => r = None
    end.
Proof.
  intros Tv Hc. unfold files_at. destruct (Z.eqb_spec c free_cluster) as [->|Hne].
  - exists v, None. split_and!; try done.
  - destruct Hc as [?|[L HL]]; [done|]. rewrite HL. cbn. pose proof Tv as [V Hb Ht]. destruct (Ht c L HL) as (cs & Hch & Hok & Hl).
    pose proof (start_reading v f c cs V Hch Hok) as Rd. pose proof (reading_length v f _ _ _ V Rd). pose proof (listing_length _ _ _ Hl).
    destruct (find_path_node_reading node L (directory_fuel v) v f _ _ _ V Hb Rd Hl ltac:(lia)) as (v' & r & E & V' & B & Hr).
    exists v', r. split_and!; [done|by eapply tree_volume_same|done|done].
Qed.
End Volume.

(** ** Open files *)

Definition listed_directory (li : listed) : bool := Z.land (li_attributes li) 1 =? 1.

Section Files.
Context (root root_cluster : Z) (T : gmap Z (list listed)).

(** Where the content of a file begins. *)
Definition listed_cluster (li : listed) : Z :=
  if bool_decide (li_name li = [ch_dot; ch_dot]) && (li_cluster li =? 0) then root_cluster else li_cluster li.

Definition in_tree (li : listed) : Prop := exists c L, T !! c = Some L /\ li ∈ L.

(** The directories make a tree: the clusters of directories are known, and a place holds one file. *)
Record tree_ok : Prop := {
  to_root : is_Some (T !! root_cluster) /\ root_cluster <> free_cluster;
  to_closed : forall li, in_tree li -> listed_directory li = true -> listed_cluster li = free_cluster \/ is_Some (T !! listed_cluster li);
  to_places : forall li li', in_tree li -> in_tree li' -> li_place li = li_place li' ->
    listed_directory li = listed_directory li' /\ listed_cluster li = listed_cluster li';
  to_not_root : forall li, in_tree li -> li_place li <> (0, 0);
}.

Definition is_file (fl : open_file) (li : listed) : Prop :=
  m_identifier (of_file fl) = li_place li /\ is_directory fl = listed_directory li /\ m_first_cluster (of_file fl) = listed_cluster li.

(** The map of the open files and the files are the same, and agree with the directories. *)
Record opens_ok (o : open_files) : Prop := {
  oo_table : forall id p rc, m_identifier_to_file o !! id = Some (p, rc) ->
    0 < rc < W64 /\ exists fl, o_files o !! p = Some fl /\ m_identifier (of_file fl) = id;
  oo_files : forall p fl, o_files o !! p = Some fl -> exists rc, m_identifier_to_file o !! m_identifier (of_file fl) = Some (p, rc);
  oo_fresh : 0 < o_address o /\ forall p, is_Some (o_files o !! p) -> 0 < p < o_address o;
  oo_root : exists fl, o_files o !! root = Some fl /\ is_directory fl = true /\ m_first_cluster (of_file fl) = root_cluster /\
    m_identifier (of_file fl) = (0, 0);
  oo_agree : forall li p fl, in_tree li -> o_files o !! p = Some fl -> m_identifier (of_file fl) = li_place li -> is_file fl li;
}.

(** [l] are the references taken since [o0]. *)
Definition taken (id : Z * Z) (l : list (Z * Z)) : Z := Z.of_nat (length (filter (fun id' => id' = id) l)).

Definition holds (o0 o : open_files) (l : list (Z * Z)) : Prop := forall id,
  match m_identifier_to_file o0 !! id with
  | Some (p, rc) => m_identifier_to_file o !! id = Some (p, rc + taken id l)
  | None => if decide (taken id l = 0) then m_identifier_to_file o !! id = None
            else exists p, m_identifier_to_file o !! id = Some (p, taken id l)
  end.

(** The lock of [s] is taken, and no other. *)
Definition locked_only (o : open_files) (s : option Z) : Prop :=
  forall p fl, o_files o !! p = Some fl -> of_locked fl = bool_decide (s = Some p).

Lemma taken_cons id id' l : taken id (id' :: l) = (if decide (id' = id) then 1 else 0) + taken id l.
Proof. unfold taken. rewrite filter_cons. case_decide; simpl; lia. Qed.

Lemma taken_nonneg id l : 0 <= taken id l.
Proof. unfold taken. lia. Qed.

Lemma holds_table o0 o o' l : m_identifier_to_file o' = m_identifier_to_file o -> holds o0 o l -> holds o0 o' l.
Proof. intros E H id. rewrite E. apply H. Qed.

Lemma holds_nil o : holds o o [].
Proof. intros id. destruct (m_identifier_to_file o !! id) as [[p rc]|] eqn:E; [|done]. unfold taken. simpl. by rewrite Z.add_0_r. Qed.

(** Locking changes neither the map nor which files there are. *)
Lemma set_locked_ok o p fl b :
  opens_ok o -> o_files o !! p = Some fl -> opens_ok (set_file p (OpenFile (of_file fl) (of_attributes fl) b) o).
Proof.
  intros [H1 H2 H3 H4 H5] Hp. split; cbn [o_files m_identifier_to_file o_address set_file].
  - intros id q rc Hq. destruct (H1 id q rc Hq) as [Hrc (fl' & Hfl & Hid)]. split; [done|].
    destruct (decide (q = p)) as [->|]; [rewrite lookup_insert_eq; eexists; split; [done|]; cbn; congruence|].
    rewrite lookup_insert_ne by done. eauto.
  - intros q fl' Hq. destruct (decide (q = p)) as [->|]; [rewrite lookup_insert_eq in Hq; injection Hq as <-; exact (H2 p fl Hp)|].
    rewrite lookup_insert_ne in Hq by done. by apply H2.
  - destruct H3 as [H3 H3']. split; [done|]. intros q Hq. apply H3'. destruct (decide (q = p)) as [->|]; [by eexists|].
    by rewrite lookup_insert_ne in Hq.
  - destruct H4 as (fr & Hr & Hd & Hc & Hi). destruct (decide (root = p)) as [->|]; [|rewrite lookup_insert_ne by done; eauto].
    rewrite lookup_insert_eq. eexists. split; [done|]. rewrite Hp in Hr. injection Hr as <-. done.
  - intros li q fl' Hli Hq Hid. destruct (decide (q = p)) as [->|]; [rewrite lookup_insert_eq in Hq; injection Hq as <-|].
    + exact (H5 li p fl Hli Hp Hid).
    + rewrite lookup_insert_ne in Hq by done. by apply (H5 li q fl').
Qed.

Lemma lock_file_Ok o p fl :
  opens_ok o -> locked_only o None -> o_files o !! p = Some fl ->
  exists o', lock_file p o = Ok o' /\ opens_ok o' /\ m_identifier_to_file o' = m_identifier_to_file o /\ locked_only o' (Some p) /\
    o_files o' !! p = Some (OpenFile (of_file fl) (of_attributes fl) true).
Proof.
  intros H Hl Hp. unfold lock_file, file_at. rewrite Hp. run. rewrite (Hl p fl Hp), bool_decide_false by done. cbn [negb]. run. eexists. split; [reflexivity|]. split_and!; [by apply set_locked_ok|done| |cbn; by rewrite lookup_insert_eq].
  intros q fl' Hq. cbn in Hq. destruct (decide (q = p)) as [->|Hne].
  - rewrite lookup_insert_eq in Hq. injection Hq as <-. by rewrite bool_decide_true.
  - rewrite lookup_insert_ne in Hq by done. rewrite (Hl q fl' Hq). rewrite !bool_decide_false by congruence. done.
Qed.

Lemma unlock_file_Ok o p fl :
  opens_ok o -> locked_only o (Some p) -> o_files o !! p = Some fl ->
  exists o', unlock_file p o = Ok o' /\ opens_ok o' /\ m_identifier_to_file o' = m_identifier_to_file o /\ locked_only o' None /\
    (forall q fl', o_files o !! q = Some fl' -> exists fl'', o_files o' !! q = Some fl'' /\ of_file fl'' = of_file fl' /\ of_attributes fl'' = of_attributes fl').
Proof.
  intros H Hl Hp. unfold unlock_file, file_at. rewrite Hp. run. rewrite (Hl p fl Hp), bool_decide_true by done. run.
  eexists. split; [reflexivity|]. split_and!; [by apply set_locked_ok|done| |].
  - intros q fl' Hq. cbn in Hq. destruct (decide (q = p)) as [->|Hne].
    + rewrite lookup_insert_eq in Hq. by injection Hq as <-.
    + rewrite lookup_insert_ne in Hq by done. rewrite (Hl q fl' Hq). rewrite !bool_decide_false by congruence. done.
  - intros q fl' Hq. cbn. destruct (decide (q = p)) as [->|Hne]; [rewrite lookup_insert_eq|rewrite lookup_insert_ne by done; eauto].
    eexists. split; [done|]. cbn. rewrite Hp in Hq. by injection Hq as <-.
Qed.

(** Opening the file of an entry takes one reference to it. *)
Lemma open_entry_Ok o0 o l e li s :
  tree_ok -> opens_ok o -> holds o0 o l -> in_tree li -> shows e li ->
  (forall p rc, m_identifier_to_file o !! li_place li = Some (p, rc) -> rc + 1 < W64) ->
  locked_only o s -> (forall p, s = Some p -> is_Some (o_files o !! p)) ->
  exists p o' fl, open_entry root_cluster e o = (p, o') /\ opens_ok o' /\ holds o0 o' (li_place li :: l) /\ locked_only o' s /\
    (forall q g, o_files o !! q = Some g -> o_files o' !! q = Some g) /\
    o_files o' !! p = Some fl /\ is_file fl li /\ p <> null_file /\ p <> root.
Proof.
  intros HT H Hh Hli (Hname & _ & Hattr & Hcl & Hsize & Hplace) Hrc Hlock Hs. pose proof H as [H1 H2 H3 H4 H5].
  unfold open_entry. rewrite Hname, Hcl, Hattr, Hsize, Hplace. fold (listed_cluster li). unfold open_or_incref.
  destruct (m_identifier_to_file o !! li_place li) as [[p rc]|] eqn:Et.
  - specialize (Hrc p rc eq_refl). destruct (H1 _ _ _ Et) as [Hr (fl & Hfl & Hid)]. rewrite wrap64_small by (unfold is_u64; lia).
    pose proof (H5 li p fl Hli Hfl Hid) as Hfile. destruct H3 as [H3 H3'].
    assert (Hroot : p <> root).
    { intros ->. destruct H4 as (fr & Hr' & _ & _ & Hi). rewrite Hfl in Hr'. injection Hr' as <-. apply (to_not_root HT li Hli). congruence. }
    eexists p, _, fl. split; [reflexivity|]. cbn [o_files]. split_and!; try done.
    + split; cbn [o_files m_identifier_to_file o_address]; try done.
      * intros id q rc' Hq. destruct (decide (id = li_place li)) as [->|Hne].
        -- rewrite lookup_insert_eq in Hq. injection Hq as <- <-. split; [lia|eauto].
        -- rewrite lookup_insert_ne in Hq by done. by apply H1.
      * intros q g Hq. destruct (decide (m_identifier (of_file g) = li_place li)) as [E|Hne].
        -- rewrite E, lookup_insert_eq. destruct (H2 q g Hq) as [rc' Hq']. rewrite E, Et in Hq'. injection Hq' as -> ->. eauto.
        -- rewrite lookup_insert_ne by done. by apply H2.
    + intros id. specialize (Hh id). cbn [m_identifier_to_file]. rewrite taken_cons. destruct (decide (li_place li = id)) as [<-|Hne].
      * rewrite lookup_insert_eq. pose proof (taken_nonneg (li_place li) l). destruct (m_identifier_to_file o0 !! li_place li) as [[p0 rc0]|].
        -- rewrite Et in Hh. injection Hh as -> ->. do 2 f_equal. lia.
        -- case_decide; [congruence|]. destruct Hh as [p' Hp']. rewrite Et in Hp'. injection Hp' as -> ->.
           rewrite decide_False by lia. exists p'. do 2 f_equal. lia.
      * rewrite lookup_insert_ne by done. by rewrite Z.add_0_l.
    + destruct (H3' p ltac:(by eexists)). unfold null_file. lia.
  - destruct H3 as [H3 H3']. assert (Hnew : o_files o !! o_address o = None).
    { destruct (o_files o !! o_address o) as [g|] eqn:E; [|done]. specialize (H3' (o_address o) ltac:(by eexists)). lia. }
    eexists (o_address o), _, _. split; [reflexivity|]. cbn [o_files]. split_and!.
    + split; cbn [o_files m_identifier_to_file o_address].
      * intros id q rc' Hq. destruct (decide (id = li_place li)) as [->|Hne].
        -- rewrite lookup_insert_eq in Hq. injection Hq as <- <-. split; [lia|]. rewrite lookup_insert_eq. eauto.
        -- rewrite lookup_insert_ne in Hq by done. destruct (H1 _ _ _ Hq) as [Hr (g & Hg & Hid)]. split; [done|].
           exists g. rewrite lookup_insert_ne by congruence. done.
      * intros q g Hq. destruct (decide (q = o_address o)) as [->|Hne].
        -- rewrite lookup_insert_eq in Hq. injection Hq as <-. cbn. rewrite lookup_insert_eq. eauto.
        -- rewrite lookup_insert_ne in Hq by done. destruct (H2 q g Hq) as [rc' Hq'].
           rewrite lookup_insert_ne by congruence. eauto.
      * split; [lia|]. intros q Hq. destruct (decide (q = o_address o)) as [->|Hne]; [lia|].
        rewrite lookup_insert_ne in Hq by done. specialize (H3' q Hq). lia.
      * destruct H4 as (fr & Hr & Hd & Hc & Hi). exists fr. rewrite lookup_insert_ne by congruence. done.
      * intros li' q g Hli' Hq Hid. destruct (decide (q = o_address o)) as [->|Hne].
        -- rewrite lookup_insert_eq in Hq. injection Hq as <-. cbn in Hid.
           destruct (to_places HT li li' Hli Hli' Hid) as [E1 E2]. unfold is_file, is_directory. cbn. split_and!; [done|exact E1|done].
        -- rewrite lookup_insert_ne in Hq by done. by apply (H5 li' q g).
    + intros id. specialize (Hh id). cbn [m_identifier_to_file]. rewrite taken_cons. destruct (decide (li_place li = id)) as [<-|Hne].
      * rewrite lookup_insert_eq. destruct (m_identifier_to_file o0 !! li_place li) as [[p0 rc0]|]; [congruence|].
        case_decide as E0; [|destruct Hh; congruence]. rewrite E0, decide_False by lia. by eexists.
      * rewrite lookup_insert_ne by done. by rewrite Z.add_0_l.
    + intros q g Hq. cbn [o_files] in Hq. destruct (decide (q = o_address o)) as [->|Hne].
      * rewrite lookup_insert_eq in Hq. injection Hq as <-. cbn. rewrite bool_decide_false; [done|]. intros ->.
        destruct (Hs _ eq_refl) as [? ?]. congruence.
      * rewrite lookup_insert_ne in Hq by done. by apply Hlock.
    + intros q g Hq. rewrite lookup_insert_ne by congruence. done.
    + apply lookup_insert_eq.
    + unfold is_file, is_directory. by cbn.
    + unfold null_file. lia.
    + destruct H4 as (fr & Hr & _). congruence.
Qed.

(** Closing a file gives back a reference; the file goes with the last one. *)
Lemma fat_close_Ok o0 o p fl l :
  opens_ok o -> p <> root -> o_files o !! p = Some fl -> holds o0 o (m_identifier (of_file fl) :: l) ->
  (forall id p rc, m_identifier_to_file o0 !! id = Some (p, rc) -> 0 < rc) ->
  exists o', fat_close root p o = Ok o' /\ opens_ok o' /\ holds o0 o' l /\
    (forall q g, o_files o' !! q = Some g -> o_files o !! q = Some g) /\
    (forall q g, o_files o !! q = Some g -> m_identifier (of_file g) ∈ l -> o_files o' !! q = Some g).
Proof.
  intros H Hp Hfl Hh Hpos. pose proof H as [H1 H2 H3 H4 H5]. set (id := m_identifier (of_file fl)) in *.
  destruct (H2 p fl Hfl) as [rc Et]. fold id in Et. destruct (H1 _ _ _ Et) as [Hr _].
  unfold fat_close, file_at. rewrite (proj2 (Z.eqb_neq p root)), Hfl by done. run. fold id. rewrite Et, wrap64_small by (unfold is_u64; lia).
  pose proof (taken_nonneg id l) as Hk. pose proof (Hh id) as Hid. rewrite taken_cons, decide_True in Hid by done.
  destruct (Z.eqb_spec (rc - 1) 0) as [E1|E1].
  - (* the last reference *)
    assert (m_identifier_to_file o0 !! id = None /\ taken id l = 0) as [Hlast Hk0].
    { destruct (m_identifier_to_file o0 !! id) as [[p0 rc0]|] eqn:E0.
      - specialize (Hpos _ _ _ E0). rewrite Et in Hid. injection Hid as -> ->. lia.
      - rewrite decide_False in Hid by lia. destruct Hid as [p' Hp']. rewrite Et in Hp'. injection Hp' as -> ->. split; [done|lia]. }
    assert (Hother : forall q g, o_files o !! q = Some g -> q <> p -> m_identifier (of_file g) <> id).
    { intros q g Hq Hne E. destruct (H2 q g Hq) as [rc' Hq']. rewrite E, Et in Hq'. congruence. }
    eexists. split; [reflexivity|]. split_and!; cbn [o_files].
    + split; cbn [o_files m_identifier_to_file o_address].
      * intros id' q rc' Hq. apply lookup_delete_Some in Hq as [Hne Hq]. destruct (H1 _ _ _ Hq) as [Hr' (g & Hg & Hgid)]. split; [done|].
        exists g. rewrite lookup_delete_ne; [done|]. intros ->. apply Hne. rewrite Hfl in Hg. injection Hg as <-. done.
      * intros q g Hq. apply lookup_delete_Some in Hq as [Hne Hq]. rewrite lookup_delete_ne by (intros E; by apply (Hother q g Hq)). by apply H2.
      * destruct H3 as [H3 H3']. split; [done|]. intros q [g Hq]. apply lookup_delete_Some in Hq as [_ Hq]. apply H3'. by eexists.
      * destruct H4 as (fr & Hr' & ?). exists fr. by rewrite lookup_delete_ne.
      * intros li q g Hli Hq. apply lookup_delete_Some in Hq as [_ Hq]. exact (H5 li q g Hli Hq).
    + intros id'. specialize (Hh id'). rewrite taken_cons in Hh. cbn [m_identifier_to_file]. destruct (decide (id = id')) as [<-|Hne].
      * rewrite Hlast, Hk0, decide_True by done. apply lookup_delete_eq.
      * rewrite lookup_delete_ne by done. by rewrite Z.add_0_l in Hh.
    + intros q g Hq. by apply lookup_delete_Some in Hq as [_ Hq].
    + intros q g Hq Hin. rewrite lookup_delete_ne; [done|]. intros <-. rewrite Hfl in Hq. injection Hq as <-. fold id in Hin.
      unfold taken in Hk0. assert (Hf : id ∈ filter (fun id' => id' = id) l) by (by apply list_elem_of_filter).
      destruct (filter (fun id' => id' = id) l); [by apply not_elem_of_nil in Hf|]. simpl in Hk0. lia.
  - eexists. split; [reflexivity|]. split_and!; cbn [o_files]; try done.
    + split; cbn [o_files m_identifier_to_file o_address]; try done.
      * intros id' q rc' Hq. destruct (decide (id' = id)) as [->|Hne].
        -- rewrite lookup_insert_eq in Hq. injection Hq as <- <-. split; [lia|]. by exists fl.
        -- rewrite lookup_insert_ne in Hq by done. by apply H1.
      * intros q g Hq. destruct (decide (m_identifier (of_file g) = id)) as [E|Hne].
        -- rewrite E, lookup_insert_eq. destruct (H2 q g Hq) as [rc' Hq']. rewrite E, Et in Hq'. injection Hq' as -> ->. eauto.
        -- rewrite lookup_insert_ne by done. by apply H2.
    + intros id'. specialize (Hh id'). rewrite taken_cons in Hh. cbn [m_identifier_to_file]. destruct (decide (id = id')) as [<-|Hne].
      * rewrite lookup_insert_eq. destruct (m_identifier_to_file o0 !! id) as [[p0 rc0]|].
        -- rewrite Et in Hid. injection Hid as -> ->. do 2 f_equal. lia.
        -- rewrite decide_False in Hid by lia. destruct Hid as [p' Hp']. rewrite Et in Hp'. injection Hp' as -> ->.
           rewrite decide_False by lia. exists p'. do 2 f_equal. lia.
      * rewrite lookup_insert_ne by done. by rewrite Z.add_0_l in Hh.
Qed.

(** ** Following a path *)

(** The references that the walk has for the directory it is in: none for the root. *)
Definition refs (p : Z) (fl : open_file) : list (Z * Z) := if p =? root then [] else [m_identifier (of_file fl)].

Lemma taken_refs id p fl : 0 <= taken id (refs p fl) <= 1.
Proof.
  unfold refs. destruct (p =? root); [unfold taken; simpl; lia|]. rewrite taken_cons. change (taken id []) with 0. case_decide; lia.
Qed.

Lemma holds_perm o0 o l l' : l ≡ₚ l' -> holds o0 o l -> holds o0 o l'.
Proof. intros E Hh id. specialize (Hh id). assert (Ek : taken id l = taken id l') by (unfold taken; by rewrite E). by rewrite Ek in Hh. Qed.

(** Unlocking and closing the directory that the walk leaves. *)
Lemma leave_Ok o0 o p fl l :
  opens_ok o -> locked_only o (Some p) -> o_files o !! p = Some fl -> holds o0 o (refs p fl ++ l) ->
  (forall id p rc, m_identifier_to_file o0 !! id = Some (p, rc) -> 0 < rc) ->
  exists o1 o', unlock_file p o = Ok o1 /\ fat_close root p o1 = Ok o' /\ opens_ok o' /\ locked_only o' None /\ holds o0 o' l /\
    (forall q g, o_files o !! q = Some g -> m_identifier (of_file g) ∈ l ->
       exists g', o_files o' !! q = Some g' /\ of_file g' = of_file g /\ of_attributes g' = of_attributes g).
Proof.
  intros H Hl Hp Hh Hpos. destruct (unlock_file_Ok o p fl H Hl Hp) as (o1 & E1 & H1 & Et & Hl1 & Hsame). exists o1.
  apply (holds_table o0 o o1) in Hh; [|done]. unfold refs in Hh. destruct (Z.eqb_spec p root) as [->|Hne].
  - exists o1. split_and!; [done|unfold fat_close; by rewrite Z.eqb_refl|done|done|done|]. intros q g Hq _. by apply Hsame.
  - destruct (Hsame p fl Hp) as (fl1 & Hp1 & Ef & _). cbn [app] in Hh. rewrite <- Ef in Hh.
    destruct (fat_close_Ok o0 o1 p fl1 l H1 Hne Hp1 Hh Hpos) as (o' & E' & H' & Hh' & Hsub & Hkeep). exists o'.
    split_and!; [done|done|done| |done|].
    + intros q g Hq. by apply Hl1, Hsub.
    + intros q g Hq Hin. destruct (Hsame q g Hq) as (g' & Hq' & Eg & Ea). exists g'. split_and!; [|done|done].
      apply Hkeep; [done|]. by rewrite Eg.
Qed.

(** What a path leads to from a directory. *)
Fixpoint follow (nodes : list view) (directory : bool) (cluster : Z) : error_code + listed :=
  match nodes with
  | [] => inl NO_SUCH_FILE
  | node :: nodes =>
    if negb directory then inl IS_FILE
    else match find_listed node (files_at T cluster) with
         | None => inl NO_SUCH_FILE
         | Some li => match nodes with [] => inr li | _ => follow nodes (listed_directory li) (listed_cluster li) end
         end
  end.

Lemma find_listed_in node c li : find_listed node (files_at T c) = Some li -> in_tree li.
Proof.
  unfold find_listed, files_at. intros E. apply head_Some_elem_of, list_elem_of_filter in E as [_ E].
  destruct (c =? free_cluster); [by apply not_elem_of_nil in E|]. destruct (T !! c) as [L|] eqn:HL; [|by apply not_elem_of_nil in E].
  by exists c, L.
Qed.

Context {F D : Type} {BF : BlockStore F} {BD : BlockStore D}.

Lemma walk_path_dots nodes cur next o (v : volume F D) :
  walk_path root root_cluster nodes cur next o v = walk_path root root_cluster (filter (fun n => n <> [ch_dot]) nodes) cur next o v.
Proof.
  revert cur next o v. induction nodes as [|n nodes IH]; intros cur next o v; [done|]. rewrite filter_cons. cbn [walk_path].
  destruct (decide (n = [ch_dot])) as [->|Hne].
  - rewrite bool_decide_true by done. rewrite decide_False by (intros E; by apply E). apply IH.
  - rewrite bool_decide_false, decide_True by done. cbn [walk_path]. rewrite bool_decide_false by done.
    destruct (if negb (next =? null_file) then _ else _) as [[cur' o1]|]; run; [|done].
    destruct (lock_file cur' o1) as [o2|]; run; [|done]. destruct (file_at cur' o2) as [fl|]; run; [|done].
    destruct (negb (is_directory fl)); [done|]. destruct (find_path_node _ _ _ _) as [[v' [e|]]|]; run; [|done|done].
    destruct (open_entry root_cluster e o2) as [next' o3]. apply IH.
Qed.

(** The next node is looked up in the next directory, once the current one is left. *)
Lemma walk_path_enter node nodes cur next o o1 o2 (v : volume F D) :
  node <> [ch_dot] -> next <> null_file -> unlock_file cur o = Ok o1 -> fat_close root cur o1 = Ok o2 ->
  walk_path root root_cluster (node :: nodes) cur next o v = walk_path root root_cluster (node :: nodes) next null_file o2 v.
Proof.
  intros Hdot Hne E1 E2. cbn [walk_path]. rewrite bool_decide_false by done. rewrite (proj2 (Z.eqb_neq next null_file)) by done.
  cbn [negb]. rewrite E1. run. rewrite E2. run. done.
Qed.

(** One node, from a directory that is not locked. *)
Lemma walk_path_step node nodes cur o (v : volume F D) :
  node <> [ch_dot] ->
  walk_path root root_cluster (node :: nodes) cur null_file o v =
    (o ← lock_file cur o;
     fl ← file_at cur o;
     if negb (is_directory fl) then
       o ← unlock_file cur o; o ← fat_close root cur o; Ok (v, o, Returned IS_FILE)
     else
       '(v, found) ← find_path_node (directory_fuel v) node (make_directory (m_first_cluster (of_file fl))) v;
       match found with
       | None => Ok (v, o, Ended cur null_file)
       | Some e => let '(next_file, o) := open_entry root_cluster e o in walk_path root root_cluster nodes cur next_file o v
       end).
Proof. intros Hdot. cbn [walk_path]. by rewrite bool_decide_false by done. Qed.

Lemma follow_step node nodes d c :
  follow (node :: nodes) d c =
    if negb d then inl IS_FILE
    else match find_listed node (files_at T c) with
         | None => inl NO_SUCH_FILE
         | Some li => match nodes with [] => inr li | _ => follow nodes (listed_directory li) (listed_cluster li) end
         end.
Proof. done. Qed.

Definition walked (o0 o : open_files) (target : error_code + listed) (w : walk) : Prop :=
  match target with
  | inl code =>
      (code = IS_FILE /\ w = Returned IS_FILE /\ locked_only o None /\ holds o0 o []) \/
      (code = NO_SUCH_FILE /\ exists cur fl, w = Ended cur null_file /\ locked_only o (Some cur) /\ o_files o !! cur = Some fl /\ holds o0 o (refs cur fl))
  | inr li => exists cur fl next nfl, w = Ended cur next /\ locked_only o (Some cur) /\ o_files o !! cur = Some fl /\
      o_files o !! next = Some nfl /\ is_file nfl li /\ in_tree li /\ next <> null_file /\ next <> root /\
      holds o0 o (refs cur fl ++ [li_place li])
  end.

(** A visit of a directory on the way: it is locked and searched, and the file found is opened. *)
Lemma visit_directory_Ok o0 f node cur fl o (v : volume F D) :
  tree_ok -> tree_volume v f T -> opens_ok o -> locked_only o None -> o_files o !! cur = Some fl -> holds o0 o (refs cur fl) ->
  (is_directory fl = true -> m_first_cluster (of_file fl) = free_cluster \/ is_Some (T !! m_first_cluster (of_file fl))) ->
  (forall id p rc, m_identifier_to_file o0 !! id = Some (p, rc) -> 0 < rc /\ rc + 3 < W64) ->
  exists o1, lock_file cur o = Ok o1 /\ opens_ok o1 /\ locked_only o1 (Some cur) /\
    let fl1 := OpenFile (of_file fl) (of_attributes fl) true in
    o_files o1 !! cur = Some fl1 /\ holds o0 o1 (refs cur fl1) /\
    (is_directory fl = true -> exists v1 r,
      find_path_node (directory_fuel v) node (make_directory (m_first_cluster (of_file fl))) v = Ok (v1, r) /\ tree_volume v1 f T /\ same_records v v1 /\
      match find_listed node (files_at T (m_first_cluster (of_file fl))) with
      | None => r = None
      | Some li => in_tree li /\ exists e next o2 nfl, r = Some e /\ open_entry root_cluster e o1 = (next, o2) /\ opens_ok o2 /\
          holds o0 o2 (refs cur fl1 ++ [li_place li]) /\ locked_only o2 (Some cur) /\ o_files o2 !! cur = Some fl1 /\
          o_files o2 !! next = Some nfl /\ is_file nfl li /\ next <> null_file /\ next <> root
      end).
Proof.
  intros HT Tv H Hl Hcur Hh Hc Hsmall.
  destruct (lock_file_Ok o cur fl H Hl Hcur) as (o1 & E1 & H1 & Et1 & Hl1 & Hcur1). exists o1.
  apply (holds_table o0 o o1) in Hh; [|done]. split_and!; [done|done|done|]. set (fl1 := OpenFile _ _ true) in *.
  change (refs cur fl) with (refs cur fl1) in Hh. split; [done|]. split; [done|]. intros Edir.
  destruct (find_path_node_Ok node v f T _ Tv (Hc Edir)) as (v1 & r & E & Tv1 & B1 & Hr). exists v1, r. split_and!; [done|done|done|].
  destruct (find_listed node _) as [li|] eqn:Ef; [|done]. destruct Hr as (e & -> & Hsh). apply find_listed_in in Ef as Hli. split; [done|].
  destruct (open_entry_Ok o0 o1 (refs cur fl1) e li (Some cur) HT H1 Hh Hli Hsh) as (next & o2 & nfl & E2 & H2 & Hh2 & Hl2 & Hkeep & Hn & Hfile & Hnn & Hnr);
    [|done|intros p [= <-]; by eexists|].
  - intros p rc Hrc. specialize (Hh (li_place li)). pose proof (taken_refs (li_place li) cur fl1).
    destruct (m_identifier_to_file o0 !! li_place li) as [[p0 rc0]|] eqn:E0.
    + rewrite Hrc in Hh. injection Hh as -> ->. destruct (Hsmall _ _ _ E0). lia.
    + case_decide; [congruence|]. destruct Hh as [p' Hh]. rewrite Hrc in Hh. injection Hh as -> ->. lia.
  - exists e, next, o2, nfl. split_and!; try done; [|by apply Hkeep]. eapply holds_perm; [|exact Hh2]. solve_Permutation.
Qed.

(** The directory is left for the file that was found in it. *)
Lemma enter_Ok o0 o cur fl next nfl li :
  opens_ok o -> locked_only o (Some cur) -> o_files o !! cur = Some fl -> holds o0 o (refs cur fl ++ [li_place li]) ->
  (forall id p rc, m_identifier_to_file o0 !! id = Some (p, rc) -> 0 < rc) ->
  o_files o !! next = Some nfl -> is_file nfl li -> next <> root ->
  exists o1 o2 g, unlock_file cur o = Ok o1 /\ fat_close root cur o1 = Ok o2 /\ opens_ok o2 /\ locked_only o2 None /\
    o_files o2 !! next = Some g /\ is_file g li /\ refs next g = [li_place li] /\ holds o0 o2 (refs next g).
Proof.
  intros H Hl Hcur Hh Hpos Hn (Hid & Hdir & Hcl) Hnr.
  destruct (leave_Ok o0 o cur fl [li_place li] H Hl Hcur Hh Hpos) as (o1 & o2 & E1 & E2 & H2 & Hl2 & Hh2 & Hkeep).
  destruct (Hkeep next nfl Hn) as (g & Hg & Ef & Ea); [rewrite Hid; by left|]. exists o1, o2, g.
  assert (Er : refs next g = [li_place li]) by (unfold refs; rewrite (proj2 (Z.eqb_neq next root)) by done; by rewrite Ef, Hid).
  split_and!; try done; [|by rewrite Er]. split_and!; [congruence| |congruence]. unfold is_directory. rewrite Ea. exact Hdir.
Qed.

Lemma walk_path_Ok o0 f nodes : forall node cur fl o (v : volume F D),
  Forall (fun n => n <> [ch_dot]) (node :: nodes) -> tree_ok -> tree_volume v f T -> opens_ok o -> locked_only o None ->
  o_files o !! cur = Some fl -> holds o0 o (refs cur fl) ->
  (is_directory fl = true -> m_first_cluster (of_file fl) = free_cluster \/ is_Some (T !! m_first_cluster (of_file fl))) ->
  (forall id p rc, m_identifier_to_file o0 !! id = Some (p, rc) -> 0 < rc /\ rc + 3 < W64) ->
  exists v' o' w, walk_path root root_cluster (node :: nodes) cur null_file o v = Ok (v', o', w) /\ tree_volume v' f T /\ opens_ok o' /\
    walked o0 o' (follow (node :: nodes) (is_directory fl) (m_first_cluster (of_file fl))) w.
Proof.
  induction nodes as [|node' nodes IH]; intros node cur fl o v Hdots HT Tv H Hl Hcur Hh Hc Hsmall.
  all: assert (Hpos : forall id p rc, m_identifier_to_file o0 !! id = Some (p, rc) -> 0 < rc) by (intros id p rc Hid; by apply (Hsmall id p rc)).
  all: apply Forall_cons in Hdots as [Hdot Hdots]; rewrite walk_path_step, follow_step by done.
  all: destruct (visit_directory_Ok o0 f node cur fl o v HT Tv H Hl Hcur Hh Hc Hsmall) as (o1 & -> & H1 & Hl1 & Hcur1 & Hh1 & Hfound); run.
  all: set (fl1 := OpenFile (of_file fl) (of_attributes fl) true) in *; unfold file_at; rewrite Hcur1; run.
  all: change (is_directory fl1) with (is_directory fl); change (m_first_cluster (of_file fl1)) with (m_first_cluster (of_file fl)).
  all: destruct (is_directory fl) eqn:Edir; cbn [negb];
    [|rewrite <- (app_nil_r (refs cur fl1)) in Hh1; destruct (leave_Ok o0 o1 cur fl1 [] H1 Hl1 Hcur1 Hh1 Hpos) as (o2 & o3 & -> & E3 & H3 & Hl3 & Hh3 & _);
      run; rewrite E3; run; eexists v, o3, _; split_and!; [done|done|done|]; by left].
  all: destruct (Hfound eq_refl) as (v1 & r & -> & Tv1 & _ & Hr); run.
  all: destruct (find_listed node (files_at T (m_first_cluster (of_file fl)))) as [li|] eqn:Ef;
    [|rewrite Hr; eexists v1, o1, _; split_and!; [done|done|done|]; right; split; [done|]; by exists cur, fl1].
  all: destruct Hr as (Hli & e & next & o2 & nfl & -> & -> & H2 & Hh2 & Hl2 & Hcur2 & Hn & Hfile & Hnn & Hnr).
  - eexists v1, o2, _. split_and!; [reflexivity|done|done|]. by exists cur, fl1, next, nfl.
  - destruct (enter_Ok o0 o2 cur fl1 next nfl li H2 Hl2 Hcur2 Hh2 Hpos Hn Hfile Hnr) as (o3 & o4 & g & E3 & E4 & H4 & Hl4 & Hg & (Eid & Edir' & Ecl) & Er & Hh4).
    rewrite (walk_path_enter node' nodes cur next o2 o3 o4 v1) by (done || by apply Forall_cons in Hdots as [? _]).
    destruct (IH node' next g o4 v1) as (v' & o' & w & E' & Tv' & H' & Hw); try done.
    + rewrite Edir', Ecl. by apply (to_closed HT).
    + exists v', o', w. split_and!; [done|done|done|]. by rewrite Edir', Ecl in Hw.
Qed.

(** *** The theorem *)

(** The path, without the dots. *)
Definition path_of (path : view) : list view := filter (fun n => n <> [ch_dot]) (nodes_of path).

Definition allowed (constraint : only_if) (li : listed) : option error_code :=
  match constraint, listed_directory li with
  | OnlyFile, true => Some IS_DIRECTORY
  | OnlyDirectory, false => Some IS_FILE
  | _, _ => None
  end.

(** C15: opening a path of FAT32.  From the root directory, through the directories on the volume and
    the caches, a path that names something leads to the file that the directories say, "." being
    skipped and ".." being an entry like the others; the file is opened with one more reference
    than it had and with the place, the kind and the first cluster of its entry (the kind is the one
    iterating shows: a file whose long name runs over into the attributes, FAT32.cpp:293, can count
    as a directory, and [tree_ok] then asks for entries below it).  The path has a node other than
    ".": for "/" and "/." the code asserts (FAT32.cpp:989).  A node that is
    missing, that is below a file, or that is of the wrong kind gives NO_SUCH_FILE, IS_FILE or
    IS_DIRECTORY and leaves every reference count as it was.  Whatever happens no directory stays
    open or locked on behalf of the call. *)
Theorem open_path_correct f path constraint o (v : volume F D) :
  tree_ok -> tree_volume v f T -> opens_ok o -> locked_only o None -> path_of path <> [] ->
  (forall id p rc, m_identifier_to_file o !! id = Some (p, rc) -> rc + 3 < W64) ->
  exists v' o' r, open_file_from_path root root_cluster path constraint o v = Ok (v', o', r) /\
    tree_volume v' f T /\ opens_ok o' /\ locked_only o' None /\
    match follow (path_of path) true root_cluster with
    | inl code => r = Error code /\ holds o o' []
    | inr li =>
      match allowed constraint li with
      | Some code => r = Error code /\ holds o o' []
      | None => exists p fl, r = Value p /\ holds o o' [li_place li] /\ o_files o' !! p = Some fl /\ is_file fl li
      end
    end.
Proof.
  intros HT Tv H Hl Hpath Hsmall. unfold open_file_from_path. rewrite path_nodes_correct. run. rewrite walk_path_dots. fold (path_of path).
  assert (Hpos : forall id p rc, m_identifier_to_file o !! id = Some (p, rc) -> 0 < rc) by (intros id p rc Hid; by destruct (oo_table _ H _ _ _ Hid) as [[? _] _]).
  destruct (oo_root _ H) as (fr & Hr & Hd & Hc & Hi). destruct (path_of path) as [|node nodes] eqn:Ep; [done|].
  assert (Hdots : Forall (fun n => n <> [ch_dot]) (node :: nodes)).
  { rewrite <- Ep. apply Forall_forall. intros n Hn. unfold path_of in Hn. by apply list_elem_of_filter in Hn as [? _]. }
  destruct (walk_path_Ok o f nodes node root fr o v Hdots HT Tv H Hl Hr) as (v1 & o1 & w & -> & Tv1 & H1 & Hw).
  { unfold refs. rewrite Z.eqb_refl. apply holds_nil. }
  { intros _. rewrite Hc. right. apply (to_root HT). }
  { intros id p rc Hid. split; [by eapply Hpos|by eapply Hsmall]. }
  run. rewrite Hd, Hc in Hw. destruct (follow (node :: nodes) true root_cluster) as [code|li]; cbn [walked] in Hw.
  - destruct Hw as [(-> & -> & Hl1 & Hh1)|(-> & cur & fl & -> & Hl1 & Hcur & Hh)].
    + exists v1, o1, (Error IS_FILE). by split_and!.
    + rewrite <- (app_nil_r (refs cur fl)) in Hh.
      destruct (leave_Ok o o1 cur fl [] H1 Hl1 Hcur Hh Hpos) as (o2 & o3 & -> & E3 & H3 & Hl3 & Hh3 & _). run. rewrite E3. run.
      exists v1, o3, (Error NO_SUCH_FILE). by split_and!.
  - destruct Hw as (cur & fl & next & nfl & -> & Hl1 & Hcur & Hn & Hfile & Hli & Hnn & Hnr & Hh).
    destruct (enter_Ok o o1 cur fl next nfl li H1 Hl1 Hcur Hh Hpos Hn Hfile Hnr) as (o2 & o3 & g & -> & E3 & H3 & Hl3 & Hg & Hfg & Er & Hh3).
    run. rewrite E3. run. rewrite (proj2 (Z.eqb_neq next null_file)) by done. pose proof Hfg as (Eid & Edir & _). rewrite Er in Hh3.
    unfold file_at. rewrite Hg. run. rewrite Edir. unfold allowed.
    assert (Hdone : exists v' o' r, Ok (v1, o3, Value next) = Ok (v', o', r) /\ tree_volume v' f T /\ opens_ok o' /\ locked_only o' None /\
      exists p fl, r = Value p /\ holds o o' [li_place li] /\ o_files o' !! p = Some fl /\ is_file fl li).
    { exists v1, o3, (Value next). split_and!; try done. by exists next, g. }
    assert (Hfail : exists o', fat_close root next o3 = Ok o' /\ opens_ok o' /\ locked_only o' None /\ holds o o' []).
    { rewrite <- Eid in Hh3.
      destruct (fat_close_Ok o o3 next g [] H3 Hnr Hg Hh3 Hpos) as (o' & E' & H' & Hh' & Hsub & _). exists o'. split_and!; try done.
      intros q g' Hq. by apply Hl3, Hsub. }
    destruct constraint, (listed_directory li); try done; destruct Hfail as (o' & -> & H' & Hl' & Hh'); run; eexists v1, o', _; by split_and!.
Qed.
End Files.

(** ** A concrete tree *)

(** The directory at cluster 2 has the directory SUB at cluster 4, which has the file README.TXT. *)
Definition sub_record : list Z := normal_entry true false false noon [83; 85; 66] [] 4.
Definition example_tree_volume : volume disk_cache disk_cache := volume_on (records_device [sub_record; replicate 992 0; readme]) row_table.
Definition sub_listed : listed := Listed [83; 85; 66] 1 4 0 (2, 0).
Definition sub_readme : listed := Listed [82; 69; 65; 68; 77; 69; 46; 84; 88; 84] 0 5 0 (4, 0).
Definition example_tree : gmap Z (list listed) := <[ 2 := [sub_listed] ]> {[ 4 := [sub_readme] ]}.

(** What mounting leaves: the root directory, open once. *)
Definition mounted : open_files := snd (open_or_incref 1 (0, 0) 2 0 (OpenFiles ∅ ∅ 1)).

(** "/SUB/./README.TXT", "/SUB" and "/." *)
Definition readme_path : view := [47; 83; 85; 66; 47; 46; 47; 82; 69; 65; 68; 77; 69; 46; 84; 88; 84].
Definition sub_path : view := [47; 83; 85; 66].
Definition dot_path : view := [47; 46].

Lemma example_tree_inv c L : example_tree !! c = Some L -> (c = 2 /\ L = [sub_listed]) \/ (c = 4 /\ L = [sub_readme]).
Proof.
  unfold example_tree. destruct (decide (c = 2)) as [->|]; [rewrite lookup_insert_eq; intros [= <-]; by left|].
  rewrite lookup_insert_ne by done. intros [-> <-]%lookup_singleton_Some. by right.
Qed.

Lemma example_in_tree li : in_tree example_tree li -> li = sub_listed \/ li = sub_readme.
Proof.
  intros (c & L & HL & Hli). destruct (example_tree_inv c L HL) as [[_ ->]|[_ ->]]; apply list_elem_of_singleton in Hli; auto.
Qed.

Lemma example_tree_ok : tree_ok 2 example_tree.
Proof.
  split; [split; [by eexists|done]| | |].
  - intros li [->| ->]%example_in_tree; [|done]. intros _. right. by eexists.
  - intros li li' [->| ->]%example_in_tree [->| ->]%example_in_tree; done.
  - intros li [->| ->]%example_in_tree; done.
Qed.

Lemma sub_short : short_record (record example_tree_volume (2, 0)) [83; 85; 66] [].
Proof.
  replace (record example_tree_volume (2, 0)) with sub_record by (vm_compute; reflexivity).
  apply (normal_entry_short true noon [83; 85; 66] [] 4); try done; try (cbn; lia);
    try (apply (bool_decide_eq_true_1 _); vm_compute; reflexivity).
  all: repeat constructor; vm_compute; congruence.
Qed.

Lemma sub_readme_short : short_record (record example_tree_volume (4, 0)) [82; 69; 65; 68; 77; 69] [84; 88; 84].
Proof.
  replace (record example_tree_volume (4, 0)) with (record example_directory (2, 0)) by (vm_compute; reflexivity).
  exact readme_short.
Qed.

Lemma example_tree_represents : tree_volume example_tree_volume (table_of row_table) example_tree.
Proof.
  split; [split; [apply volume_on_represents|apply volume_on_data|by exists 16]|vm_compute; congruence|].
  intros c L HL. exists []. assert (Hc : c = 2 \/ c = 4) by (destruct (example_tree_inv c L HL) as [[-> _]|[-> _]]; auto).
  split_and!; [destruct Hc as [->| ->]; vm_compute; congruence|split; [apply NoDup_singleton|destruct Hc as [->| ->]; repeat constructor; vm_compute; congruence]|].
  destruct (example_tree_inv c L HL) as [[-> ->]|[-> ->]].
  - change (directory_places example_tree_volume [2]) with ((2, 0) :: (2, 32) :: tail (tail (directory_places example_tree_volume [2]))).
    apply (listing_short example_tree_volume (2, 0) _ [] [83; 85; 66] [] sub_short ltac:(done)). apply listing_end; vm_compute; reflexivity.
  - change (directory_places example_tree_volume [4]) with ((4, 0) :: (4, 32) :: tail (tail (directory_places example_tree_volume [4]))).
    apply (listing_short example_tree_volume (4, 0) _ [] [82; 69; 65; 68; 77; 69] [84; 88; 84] sub_readme_short ltac:(done)).
    apply listing_end; vm_compute; reflexivity.
Qed.

Lemma mounted_table id p rc : m_identifier_to_file mounted !! id = Some (p, rc) -> id = (0, 0) /\ p = 1 /\ rc = 1.
Proof. unfold mounted, open_or_incref. cbn [m_identifier_to_file]. rewrite lookup_empty. cbn. intros [<- [= <- <-]]%lookup_singleton_Some. done. Qed.

Lemma mounted_files p fl : o_files mounted !! p = Some fl -> p = 1 /\ fl = OpenFile (FatFile [] (0, 0) 2 0 false) 1 false.
Proof. unfold mounted, open_or_incref. cbn [m_identifier_to_file]. rewrite lookup_empty. cbn. intros [<- <-]%lookup_singleton_Some. done. Qed.

Lemma mounted_ok : opens_ok 1 2 example_tree mounted.
Proof.
  split.
  - intros id p rc (-> & -> & ->)%mounted_table. split; [done|]. by eexists.
  - intros p fl (-> & ->)%mounted_files. by eexists.
  - split; [done|]. intros p [fl (-> & _)%mounted_files]. done.
  - by eexists.
  - intros li p fl Hli (_ & ->)%mounted_files. cbn. intros E. by destruct (to_not_root _ _ example_tree_ok li Hli).
Qed.

Lemma open_path_correct_witness :
  exists v o p, open_file_from_path 1 2 readme_path OnlyFile mounted example_tree_volume = Ok (v, o, Value p) /\
    holds mounted o [(4, 0)] /\ locked_only o None.
Proof.
  destruct (open_path_correct 1 2 example_tree (table_of row_table) readme_path OnlyFile mounted example_tree_volume example_tree_ok
    example_tree_represents mounted_ok ltac:(by intros p fl (-> & ->)%mounted_files) ltac:(done)
    ltac:(by intros id p rc (_ & _ & ->)%mounted_table)) as (v & o & r & E & _ & _ & Hl & Hr).
  vm_compute (follow _ _ _) in Hr. destruct Hr as (p & fl & -> & Hh & _). exists v, o, p. exact (conj E (conj Hh Hl)).
Defined.

(** ** Where the code does not do what it means to *)

(** The root directory cannot be opened: a path without nodes, or of dots alone, does not enter the
    loop that takes the lock, and the lock that was never taken is released. *)
Example opening_root_asserts :
  (open_file_from_path 1 2 dot_path OnlyDirectory mounted example_tree_volume = Fault AssertionFailed) /\
  (open_file_from_path 1 2 [slash] OnlyDirectory mounted example_tree_volume = Fault AssertionFailed).
Proof. split; vm_compute; reflexivity. Qed.
