(* ===== verification/FatRemove.v ===== *)
(** Removing files of FAT32 (FAT32::remove_file of FileSystem/FAT32/FAT32.cpp): the path is followed
    as when a file is opened, the clusters of the file are freed and its records in the directory
    are marked.  FAT32::create_file follows its path to the last directory and creates the file
    there. *)
From S2P Require Import Prelude Strings StringClass Paths Utilities Time IOStream BlockStore FatTable FatFile FatNames FatDirectory FatCreate FatOpen.
From stdpp Require Import gmap.
#[local] Open Scope Z_scope.

(** [Kernel/FileSystem/FAT32/Structures.h:124-131] mark_as_deleted and mark_as_end_of_directory of a zeroed record *)
Definition marked_record (mark : Z) : list Z := mark :: replicate 31 0.

Section Code.
Context {F D : Type} `{BlockStore F} `{BlockStore D}.
Context (m_root_directory root_dir_cluster : Z).

(** A local byte that is read from a block. *)
Definition read_byte (cluster offset : Z) (v : volume F D) : result (volume F D * Z) :=
  block ← pure_cluster_value cluster;
  '(v, m, _) ← locked_read block offset 1 0 (local_object [0]) v;
  Ok (v, byte_of m 0).

(** No chain has more clusters than the volume. *)
Definition chain_fuel (v : volume F D) : nat := S (Z.to_nat (m_cluster_count v)).

(** [Kernel/FileSystem/FAT32/FAT32.cpp:1260-1283] is_last_file_in_directory, a lambda of remove_file *)
Definition is_last_file_in_directory (e : native_entry) (v : volume F D) : result (volume F D * bool) :=
  let current_cluster := ne_metadata_cluster e in
  let current_offset := ne_metadata_offset e in
  if current_offset =? m_bytes_per_cluster v - directory_entry_size then
    '(v, next_cluster) ← fat_entry_at current_cluster v;
    match entry_type_of_fat_value next_cluster with
    | END_OF_CHAIN => Ok (v, true)
    | LINK => '(v, mark) ← read_byte next_cluster 0 v; Ok (v, mark =? end_of_directory_mark)
    | _ => Fault AssertionFailed
    end
  else
    '(v, mark) ← read_byte current_cluster (current_offset + directory_entry_size) v;
    Ok (v, mark =? end_of_directory_mark).

(** [Kernel/FileSystem/FAT32/FAT32.cpp:1304-1334] the loop of remove_file over the records of the file *)
Fixpoint delete_records (entries_to_delete : nat) (current_cluster current_offset : Z) (last_file_in_directory : bool) (e : native_entry)
    (v : volume F D) : result (volume F D) :=
  match entries_to_delete with
  | O => Ok v
  | S n =>
    let deleted_entry := marked_record (if last_file_in_directory then end_of_directory_mark else deleted_mark) in
    let write current_cluster current_offset v :=
      block ← pure_cluster_value current_cluster;
      '(v, _, _) ← locked_write block current_offset directory_entry_size 0 (local_object deleted_entry) v;
      delete_records n current_cluster (current_offset + directory_entry_size) last_file_in_directory e v in
    if current_offset =? m_bytes_per_cluster v then
      if last_file_in_directory then Ok v
      else if current_cluster =? ne_cluster_1 e then
        _ ← ASSERT (negb (ne_cluster_2 e =? 0)); write (ne_cluster_2 e) 0 v
      else if current_cluster =? ne_cluster_2 e then
        _ ← ASSERT (negb (ne_cluster_3 e =? 0)); write (ne_cluster_3 e) 0 v
      else Fault AssertionFailed
    else write current_cluster current_offset v
  end.

(** [Kernel/FileSystem/FAT32/FAT32.cpp:1257-1339] remove_file, once the file may be removed; [true] when the loop over the directory ends there *)
Definition remove_records (previous_cluster : Z) (e : native_entry) (v : volume F D) : result (volume F D * bool) :=
  v ← (if negb (ne_first_data_cluster e =? 0)
       then free_cluster_chain_starting_at (chain_fuel v) (ne_first_data_cluster e) INCLUDING_FIRST v else Ok v);
  '(v, last_file_in_directory) ← is_last_file_in_directory e v;
  if last_file_in_directory && (ne_offset e =? 0) then
    v ← free_cluster_chain_starting_at (chain_fuel v) previous_cluster KEEP_FIRST v; Ok (v, true)
  else
    v ← delete_records (S (Z.to_nat (ne_sequence_count e))) (ne_cluster_1 e) (ne_offset e) last_file_in_directory e v;
    v ← (if last_file_in_directory then free_cluster_chain_starting_at (chain_fuel v) (ne_cluster_1 e) KEEP_FIRST v else Ok v);
    Ok (v, false).

(** [Kernel/FileSystem/FAT32/FAT32.cpp:1225-1255] remove_file, whether the file that was found may be removed *)
Definition may_remove (constraint : only_if) (e : native_entry) (o : open_files) (v : volume F D) : result (volume F D * error_code) :=
  let is_directory := Z.land (entry_attributes e) 1 =? 1 in
  match constraint, is_directory with
  | OnlyFile, true => Ok (v, IS_DIRECTORY)
  | OnlyDirectory, false => Ok (v, IS_FILE)
  | _, _ =>
    match m_identifier_to_file o !! (ne_metadata_cluster e, ne_metadata_offset e) with
    | Some _ => Ok (v, FILE_IS_BUSY)
    | None =>
      if is_directory && negb (ne_first_data_cluster e =? 0) then
        '(v, first_byte) ← read_byte (ne_first_data_cluster e) (directory_entry_size * 2) v;
        Ok (v, if negb (first_byte =? end_of_directory_mark) then FILE_IS_BUSY else NO_ERROR)
      else Ok (v, NO_ERROR)
    end
  end.

(** [Kernel/FileSystem/FAT32/FAT32.cpp:1197-1340] the loop of remove_file over a directory, for the last node of the path or
    another, with the next file if the path goes on; after the file is removed it goes on to the end of the directory *)
Fixpoint remove_loop (fuel : nat) (node : view) (last_node : bool) (constraint : only_if) (d : directory) (previous_cluster : Z) (code : error_code)
    (o : open_files) (v : volume F D) : result (volume F D * open_files * error_code * option Z) :=
  match fuel with
  | O => Fault OutOfFuel
  | S fuel =>
    '(v, d, e) ← next_native d v;
    if entry_empty e then Ok (v, o, code, None)
    else
      same ← are_equal (name_view e) node;
      if negb same then remove_loop fuel node last_node constraint d (ne_cluster_1 e) code o v
      else if negb last_node then
        let '(next_file, o) := open_entry root_dir_cluster e o in Ok (v, o, code, Some next_file)
      else
        '(v, allowed) ← may_remove constraint e o v;
        match allowed with
        | NO_ERROR =>
          '(v, ended) ← remove_records previous_cluster e v;
          if (ended : bool) then Ok (v, o, NO_ERROR, None)
          else remove_loop fuel node last_node constraint d previous_cluster NO_ERROR o v
        | code => Ok (v, o, code, None)
        end
  end.

(** [Kernel/FileSystem/FAT32/FAT32.cpp:1153-1349] the loop of remove_file over the path *)
Fixpoint remove_walk (nodes : list view) (constraint : only_if) (cur_file next_file : Z) (o : open_files) (v : volume F D) :
    result (volume F D * open_files * error_code) :=
  match nodes with
  | [] => Fault OutOfFuel
  | node :: nodes =>
    let last_node := bool_decide (nodes = []) in
    let leave code o v := o ← unlock_file cur_file o; o ← fat_close m_root_directory cur_file o; Ok (v, o, code) in
    if bool_decide (node = [ch_dot]) && negb last_node then remove_walk nodes constraint cur_file next_file o v
    else if bool_decide (node = [ch_dot]) then leave INVALID_ARGUMENT o v
    else if bool_decide (node = [ch_dot; ch_dot]) && last_node then leave INVALID_ARGUMENT o v
    else
      '(cur_file, o) ←
        (if negb (next_file =? null_file) then
           o ← unlock_file cur_file o; o ← fat_close m_root_directory cur_file o; Ok (next_file, o)
         else Ok (cur_file, o));
      let leave code o v := o ← unlock_file cur_file o; o ← fat_close m_root_directory cur_file o; Ok (v, o, code) in
      o ← lock_file cur_file o;
      fl ← file_at cur_file o;
      if negb (is_directory fl) then leave IS_FILE o v
      else
        let c := m_first_cluster (of_file fl) in
        '(v, o, code, keep_going) ←
          remove_loop (directory_fuel v) node last_node constraint (make_directory c) c NO_SUCH_FILE o v;
        match keep_going with
        | None => leave code o v
        | Some next_file => remove_walk nodes constraint cur_file next_file o v
        end
  end.

(** [Kernel/FileSystem/FAT32/FAT32.cpp:1143-1350] FAT32::remove_file; the iterator of a path without nodes gives an empty one *)
Definition remove_file (path : view) (constraint : only_if) (o : open_files) (v : volume F D) : result (volume F D * open_files * error_code) :=
  nodes ← path_nodes path;
  remove_walk (match nodes with [] => [[]] | _ => nodes end) constraint m_root_directory null_file o v.

(** [Kernel/FileSystem/FAT32/FAT32.cpp:1352-1355] FAT32::remove *)
Definition fat_remove (path : view) : open_files -> volume F D -> result (volume F D * open_files * error_code) :=
  remove_file path OnlyFile.

(** [Kernel/FileSystem/FAT32/FAT32.cpp:1357-1360] FAT32::remove_directory *)
Definition fat_remove_directory (path : view) : open_files -> volume F D -> result (volume F D * open_files * error_code) :=
  remove_file path OnlyDirectory.

(** [Kernel/FileSystem/FAT32/FAT32.cpp:1433-1459] the loop of create_file over a directory on the way; case does not matter *)
Fixpoint find_create_node (fuel : nat) (current_node : view) (d : directory) (v : volume F D) : result (volume F D * option native_entry) :=
  match fuel with
  | O => Fault OutOfFuel
  | S fuel =>
    '(v, d, e) ← next_native d v;
    if entry_empty e then Ok (v, None)
    else
      same ← are_case_insensitive_equal (name_view e) current_node;
      if negb same then find_create_node fuel current_node d v else Ok (v, Some e)
  end.

(** [Kernel/FileSystem/FAT32/FAT32.cpp:1416-1422] the name of the new file: the node without the spaces and the dots at its end *)
Definition new_file_name (current_node : view) : view := strip_back ch_dot (strip_back ch_space current_node).

(** [Kernel/FileSystem/FAT32/FAT32.cpp:1378-1474] the loop of create_file over the path, and what it does in the last directory *)
Fixpoint create_walk (fuel : nat) (is_directory_attribute : bool) (now : human_readable) (nodes : list view) (cur_file next_file : Z)
    (o : open_files) (v : volume F D) : result (volume F D * open_files * error_code) :=
  match nodes with
  | [] => Fault OutOfFuel
  | current_node :: nodes =>
    let last_directory := bool_decide (nodes = []) in
    if bool_decide (current_node = [ch_dot]) && negb last_directory then
      create_walk fuel is_directory_attribute now nodes cur_file next_file o v
    else if bool_decide (current_node = [ch_dot]) then
      o ← fat_close m_root_directory cur_file o; Ok (v, o, INVALID_ARGUMENT)
    else if bool_decide (current_node = [ch_dot; ch_dot]) && last_directory then
      o ← fat_close m_root_directory cur_file o; Ok (v, o, INVALID_ARGUMENT)
    else
      '(cur_file, o) ←
        (if negb (next_file =? null_file) then o ← fat_close m_root_directory cur_file o; Ok (next_file, o)
         else Ok (cur_file, o));
      o ← lock_file cur_file o;
      fl ← file_at cur_file o;
      let return_with code o v := o ← unlock_file cur_file o; o ← fat_close m_root_directory cur_file o; Ok (v, o, code) in
      if negb (is_directory fl) then
        o ← fat_close m_root_directory cur_file o; Ok (v, o, IS_FILE)
      else if last_directory then
        '(v, code) ← create_in_directory fuel root_dir_cluster (new_file_name current_node) is_directory_attribute now (of_file fl) v;
        return_with code o v
      else
        '(v, found) ← find_create_node fuel current_node (make_directory (m_first_cluster (of_file fl))) v;
        match found with
        | None => return_with BAD_PATH o v
        | Some e =>
          let '(next_file, o) := open_entry root_dir_cluster e o in
          o ← unlock_file cur_file o;
          create_walk fuel is_directory_attribute now nodes cur_file next_file o v
        end
  end.

(** [Kernel/FileSystem/FAT32/FAT32.cpp:1362-1377] FAT32::create_file, its start; [fuel] bounds the loops over the entries of a directory *)
Definition create_file (fuel : nat) (is_directory_attribute : bool) (now : human_readable) (path : view) (o : open_files) (v : volume F D) :
    result (volume F D * open_files * error_code) :=
  nodes ← path_nodes path;
  create_walk fuel is_directory_attribute now (match nodes with [] => [[]] | _ => nodes end) m_root_directory null_file o v.

(** [Kernel/FileSystem/FAT32/FAT32.cpp:1794-1797] FAT32::create *)
Definition fat_create (fuel : nat) : human_readable -> view -> open_files -> volume F D -> result (volume F D * open_files * error_code) :=
  create_file fuel false.

(** [Kernel/FileSystem/FAT32/FAT32.cpp:1799-1802] FAT32::create_directory *)
Definition fat_create_directory (fuel : nat) : human_readable -> view -> open_files -> volume F D -> result (volume F D * open_files * error_code) :=
  create_file fuel true.
End Code.
