(* ===== verification/FatRemoveCorrect.v ===== *)
(** Removing a file of FAT32 that is followed by another one: its records are deleted, its clusters
    are freed, and every other file of every directory is where it was. *)
From S2P Require Import Prelude Strings Paths Utilities Time IOStream BlockStore DiskCache FatTable FatChains FatChainsCorrect FatFile FatFileCorrect FatNames FatDirectory FatDirectoryRead FatCreate FatDirectoryNames FatDirectoryNext FatDirectoryWrite FatDirectoryCorrect FatOpen FatRemove.
From stdpp Require Import gmap list_numbers.
#[local] Open Scope Z_scope.

Section Places.
Context {F D : Type} `{BlockStore F} `{BlockStore D}.

Lemma places_from_lookup bpc c o i p : places_from bpc c o !! i = Some p -> p = (c, o + directory_entry_size * Z.of_nat i).
Proof.
  unfold places_from. rewrite list_lookup_fmap. destruct (seqZ 0 _ !! i) as [k|] eqn:E; [|done]. apply lookup_seqZ in E as [-> _].
  by intros [= <-].
Qed.

Lemma directory_places_first (v : volume F D) cs c o : directory_places v cs !! 0%nat = Some (c, o) -> o = 0.
Proof.
  unfold directory_places. induction cs as [|c1 cs IH]; [done|]. cbn. destruct (places_from (m_bytes_per_cluster v) c1 0) as [|p ps] eqn:E; [exact IH|].
  intros [= ->]. pose proof (places_from_lookup (m_bytes_per_cluster v) c1 0 0 (c, o) ltac:(by rewrite E)) as Ep. injection Ep as _ ->. lia.
Qed.

(** The record before one that is not the first of its cluster. *)
Lemma directory_places_back (v : volume F D) cs i c o :
  directory_places v cs !! S i = Some (c, o) -> 0 < o -> directory_places v cs !! i = Some (c, o - directory_entry_size).
Proof.
  revert i. induction cs as [|c1 cs IH]; intros i; [done|]. unfold directory_places. cbn [fmap list_fmap mjoin list_join].
  fold (directory_places v cs). set (B := places_from (m_bytes_per_cluster v) c1 0). intros Hi Ho.
  destruct (decide (S i < length B)%nat) as [Hlt|Hge].
  - rewrite lookup_app_l in Hi by done. rewrite lookup_app_l by lia. apply places_from_lookup in Hi. injection Hi as -> ->.
    destruct (lookup_lt_is_Some_2 B i ltac:(lia)) as [p Hp]. rewrite Hp. f_equal. apply places_from_lookup in Hp as ->. f_equal. unfold directory_entry_size. lia.
  - rewrite lookup_app_r in Hi by lia. destruct (S i - length B)%nat as [|j] eqn:Ej.
    + apply directory_places_first in Hi. lia.
    + rewrite lookup_app_r by lia. replace (i - length B)%nat with j by lia. by apply IH.
Qed.

(** Records that end far enough from the start of a cluster are in a row. *)
Lemma records_in_row (v : volume F D) cs recs : forall pre post c o,
  directory_places v cs = pre ++ recs ++ post -> last recs = Some (c, o) -> directory_entry_size * Z.of_nat (length recs - 1) <= o ->
  recs = run_places c (o - directory_entry_size * Z.of_nat (length recs - 1)) (length recs).
Proof.
  induction recs as [|p recs IH] using rev_ind; intros pre post c o Hps Hlast Ho; [done|]. rewrite last_snoc in Hlast. injection Hlast as ->.
  rewrite length_app in *. cbn [length] in *. replace (length recs + 1 - 1)%nat with (length recs) in * by lia.
  replace (length recs + 1)%nat with (S (length recs)) by lia. unfold run_places. rewrite seq_S, fmap_app. cbn [fmap list_fmap Nat.add].
  assert (E0 : recs = run_places c (o - directory_entry_size * Z.of_nat (length recs)) (length recs)).
  { destruct (last recs) as [[c' o']|] eqn:El; [|apply last_None in El; by subst]. destruct (decide (length recs = 0)%nat) as [E0|E0]; [by destruct recs|].
    assert (Hat : directory_places v cs !! S (length pre + length recs - 1) = Some (c, o)).
    { rewrite Hps, <- !app_assoc. rewrite lookup_app_r by lia. rewrite lookup_app_r by lia.
      replace (S (length pre + length recs - 1) - length pre - length recs)%nat with 0%nat by lia. done. }
    apply directory_places_back in Hat; [|unfold directory_entry_size in *; lia].
    rewrite Hps, <- !app_assoc, lookup_app_r, lookup_app_l in Hat by lia. replace (length pre + length recs - 1 - length pre)%nat with (length recs - 1)%nat in Hat by lia.
    rewrite last_lookup in El. replace (Nat.pred (length recs)) with (length recs - 1)%nat in El by lia. rewrite Hat in El. injection El as <- <-.
    rewrite <- app_assoc in Hps. rewrite (IH pre ([(c, o)] ++ post) c (o - directory_entry_size)) at 1; [|exact Hps| |].
    - f_equal. unfold directory_entry_size. lia.
    - done.
    - unfold directory_entry_size in *. lia. }
  rewrite E0 at 1. unfold run_places. f_equal. do 2 f_equal. lia.
Qed.

(** ** The operations on one file *)

Lemma read_byte_Ok (v : volume F D) f c o :
  directory_volume v f -> valid_place v (c, o) ->
  exists v', read_byte c o v = Ok (v', nth 0 (record v (c, o)) 0) /\ directory_volume v' f /\ same_records v v'.
Proof.
  intros V Hp. unfold read_byte, pure_cluster_value. destruct (c >=? reserved_cluster_count) eqn:Ec; bool_to_prop; [|destruct Hp as [? _]; cbn in *; lia]. run.
  destruct (locked_read_Ok v f (c, o) 1 [0] V Hp ltac:(done) ltac:(done)) as (v1 & mm & e & Er & V1 & B1 & _ & Hbyte).
  cbn [fst snd] in Er. rewrite Er. run. exists v1. split_and!; [|done|done]. do 2 f_equal. rewrite Hbyte by lia. by rewrite record_first, Z.add_0_r.
Qed.

Lemma not_last_Ok (v : volume F D) f d l q ps e :
  directory_volume v f -> reading v f d l (q :: ps) ->
  (d_current_cluster d, d_offset d - directory_entry_size) = (ne_metadata_cluster e, ne_metadata_offset e) ->
  is_end_of_directory (record v q) = false ->
  exists v', is_last_file_in_directory e v = Ok (v', false) /\ directory_volume v' f /\ same_records v v'.
Proof.
  intros V Rd [= Ec Eo] Hend. pose proof Rd as [_ Hch [Hnd Hok] [Ho Ha] Hps]. unfold is_last_file_in_directory. rewrite <- Ec, <- Eo.
  pose proof (reading_valid v f d l _ q Rd ltac:(by left)) as Hq. unfold is_end_of_directory in Hend.
  destruct (Z.eqb_spec (d_offset d - directory_entry_size) (m_bytes_per_cluster v - directory_entry_size)) as [E|E].
  - replace (d_offset d) with (m_bytes_per_cluster v) in Hps by lia. rewrite places_from_end in Hps. cbn [app] in Hps.
    destruct l as [|c' l]; [done|]. destruct Hch as [Ef Hch]. apply Forall_cons in Hok as [Hc Hok]. apply Forall_cons in Hok as [Hc' Hok].
    destruct (fat_entry_at_Ok v f (d_current_cluster d) (dv_table _ _ V)) as (v1 & -> & R1 & S1); [unfold entry_index, reserved_cluster_count in *; lia|]. run.
    rewrite Ef. pose proof (vo_count _ (proj1 (dv_table _ _ V))) as Hcount. rewrite entry_link by (unfold reserved_cluster_count in *; lia).
    destruct (same_volume_bytes v v1 f V R1 S1) as [V1 B1].
    assert (Eq : q = (c', 0)).
    { pose proof (directory_places_first v (c' :: l)) as Hf. unfold directory_places in Hf. rewrite <- Hps in Hf. destruct q as [qc qo]. specialize (Hf qc qo eq_refl) as ->. f_equal.
      pose proof (do_positive _ (dv_data _ _ V)). destruct (dv_records _ _ V) as [N HN].
      cbn [fmap list_fmap mjoin list_join] in Hps. rewrite (places_from_cons (m_bytes_per_cluster v) c' 0) in Hps by (done || (by exists N) || by exists 0). by injection Hps. }
    subst q. assert (Hq1 : valid_place v1 (c', 0)) by (destruct B1 as [C1 E1 _]; unfold valid_place in *; by rewrite C1, E1).
    destruct (read_byte_Ok v1 f c' 0 V1 Hq1) as (v2 & -> & V2 & B2). run. rewrite (record_same v v1) by done. rewrite Hend. exists v2.
    split_and!; [done|done|by eapply same_records_trans].
  - destruct (dv_records _ _ V) as [N HN]. rewrite (places_from_cons (m_bytes_per_cluster v) (d_current_cluster d) (d_offset d)) in Hps by (done || (by exists N) || lia).
    injection Hps as -> Hps. rewrite Z.sub_add. destruct (read_byte_Ok v f _ _ V Hq) as (v2 & -> & V2 & B2). run. rewrite Hend. by exists v2.
Qed.

(** The table changes and the records do not. *)
Lemma table_change (v v' : volume F D) f f' : directory_volume v f -> represents v' f' -> same_volume v v' -> directory_volume v' f' /\ same_records v v'.
Proof. intros [R [] Hr] R' S. rewrite S in R' |- *. split; split; try done. Qed.

Lemma clusters_length (v : volume F D) l : volume_ok v -> clusters_ok v l -> (length l < chain_fuel v)%nat.
Proof.
  intros Hv [Hnd Hok]. pose proof (vo_count _ Hv) as [Hc _].
  assert (Hsub : l ⊆+ seqZ reserved_cluster_count (m_cluster_count v)).
  { apply NoDup_submseteq; [done|]. intros x Hx. rewrite Forall_forall in Hok. specialize (Hok x Hx). apply elem_of_seqZ. lia. }
  apply submseteq_length in Hsub. rewrite length_seqZ in Hsub. unfold chain_fuel. lia.
Qed.

Lemma write_record_Ok (v : volume F D) f c o e :
  directory_volume v f -> aligned_place v (c, o) -> length e = 32%nat ->
  exists block v' m x, pure_cluster_value c = Ok block /\ locked_write block o directory_entry_size 0 (local_object e) v = Ok (v', m, x) /\
    directory_volume v' f /\ record v' (c, o) = e /\ records_change v v' [(c, o)].
Proof.
  intros V Hp He. destruct (directory_write_one_Ok v f c o 0 0 e V Hp He) as (v' & E & V' & R' & Ch).
  destruct Hp as [(_ & _ & Hl) _]. cbn [fst snd] in Hl. unfold directory_write_one, slot_next_entry in E. cbn [s_offset s_index s_clusters] in E.
  rewrite (proj2 (Z.eqb_neq o (m_bytes_per_cluster v))) in E by (unfold directory_entry_size in *; lia). change (read_at [c; 0; 0] 0) with (Ok c) in E.
  revert E. run. cbn [s_offset s_index s_clusters]. change (read_at [c; 0; 0] 0) with (Ok c). run. destruct (pure_cluster_value c) as [block|]; run; [|done].
  destruct (locked_write block o directory_entry_size 0 (local_object e) v) as [[[v1 m] x]|] eqn:Ew; run; [|done]. intros [= ->]. by exists block, v', m, x.
Qed.

(** A run of records in one cluster is marked. *)
Lemma delete_records_Ok e n : forall (v : volume F D) f c o,
  directory_volume v f -> reserved_cluster_count <= c < m_cluster_count v + reserved_cluster_count -> 0 <= o -> (directory_entry_size | o) ->
  o + directory_entry_size * Z.of_nat n <= m_bytes_per_cluster v ->
  exists v', delete_records n c o false e v = Ok v' /\ directory_volume v' f /\ records_change v v' (run_places c o n) /\
    forall p, p ∈ run_places c o n -> record v' p = marked_record deleted_mark.
Proof.
  induction n as [|n IH]; intros v f c o V Hc Ho Ha Hroom; cbn [delete_records].
  { exists v. split_and!; try done. intros p Hp. by apply elem_of_nil in Hp. }
  assert (Hp : aligned_place v (c, o)) by (split; [split_and!; cbn; unfold directory_entry_size in *; lia|done]).
  rewrite (proj2 (Z.eqb_neq o (m_bytes_per_cluster v))) by (unfold directory_entry_size in *; lia).
  destruct (write_record_Ok v f c o (marked_record deleted_mark) V Hp ltac:(done)) as (block & v1 & m & x & -> & Ew & V1 & R1 & (C1 & B1 & Ch1)). run. rewrite Ew. run.
  destruct (IH v1 f c (o + directory_entry_size) V1) as (v' & E' & V' & (C' & B' & Ch') & R').
  - by rewrite C1.
  - unfold directory_entry_size. lia.
  - destruct Ha as [a ->]. exists (a + 1). unfold directory_entry_size. lia.
  - rewrite B1. unfold directory_entry_size in *. lia.
  - exists v'. rewrite run_places_S. split_and!; [done|done| |].
    + split; [congruence|]. split; [congruence|]. intros p Hpp Hn. rewrite not_elem_of_cons in Hn. destruct Hn as [Hn1 Hn2].
      rewrite Ch', Ch1; [done|done|by rewrite list_elem_of_singleton| |done]. by apply (aligned_same v).
    + intros p [->|Hin]%elem_of_cons; [|by apply R']. rewrite Ch'; [done|by apply (aligned_same v)|].
      intros (i & Ei & _)%list_elem_of_fmap. injection Ei as Ei. unfold directory_entry_size in Ei. lia.
Qed.

(** The table without the clusters of the file. *)
Definition freed (f : Z -> Z) (c : Z) (l : list Z) : Z -> Z := if c =? 0 then f else clear (c :: l) f.

(** The clusters of a file, if it has any. *)
Definition file_clusters (f : Z -> Z) (v : volume F D) (c : Z) (l : list Z) : Prop := c <> 0 -> is_chain f (c :: l) /\ clusters_ok v (c :: l).

Definition apart (c : Z) (l cs : list Z) : Prop := c <> 0 -> forall x, x ∈ cs -> x ∉ c :: l.

Lemma freed_same f c l x : c = 0 \/ (x ∉ c :: l) -> freed f c l x = f x.
Proof. unfold freed, clear. intros [->|Hx]; [done|]. destruct (c =? 0); [done|]. by rewrite decide_False. Qed.

Lemma freed_chain f c l cs : apart c l cs -> is_chain f cs -> is_chain (freed f c l) cs.
Proof. intros Ha. apply is_chain_ext. intros x Hx. apply freed_same. destruct (decide (c = 0)); [by left|right; by apply Ha]. Qed.

Lemma listing_not_end (v : volume F D) ps li L :
  listing v ps (li :: L) -> exists q ps', ps = q :: ps' /\ is_end_of_directory (record v q) = false.
Proof.
  intros HL. inversion HL as [|p ps0 Hdel Hend|p ps0 L0 Hsk HL0|p ps0 L0 stem ext Hs Hne HL0|pls p ps0 L0 cs name Hr Hp Hne Hl HL0]; subst.
  - exists p, ps0. split; [done|]. destruct Hsk as [Hd|[? _]]; [|done]. unfold is_deleted, is_end_of_directory in *. bool_to_prop. by rewrite Hd.
  - exists p, ps0. split; [done|]. by destruct Hs as (_ & ? & _).
  - destruct (pieces_reverse name Hp Hne Hl) as (q & rq & Er & _ & _ & Hq & _ & Hrq & _). destruct (long_entries_cons cs name q rq Er) as (es & Ees & _).
    destruct pls as [|p0 pls]; [by rewrite Ees in Hr|]. exists p0, (pls ++ p :: ps0). split; [done|].
    assert (E0 := f_equal (hd []) Hr). rewrite Ees in E0. cbn [hd fmap list_fmap] in E0. rewrite E0.
    by destruct (long_record_flags (Z.of_nat (length rq) + 1) cs q ltac:(lia)) as (_ & ? & _).
Qed.

Lemma remove_records_Ok (v : volume F D) f d l ps li L e c o k fl prev :
  directory_volume v f -> reading v f d l ps -> listing v ps (li :: L) ->
  (d_current_cluster d, d_offset d - directory_entry_size) = (ne_metadata_cluster e, ne_metadata_offset e) ->
  (ne_cluster_1 e, ne_offset e) = (c, o) -> (0 < k)%nat -> Z.of_nat k = ne_sequence_count e + 1 -> Forall (aligned_place v) (run_places c o k) ->
  file_clusters f v (ne_first_data_cluster e) fl -> apart (ne_first_data_cluster e) fl (d_current_cluster d :: l) ->
  exists v', remove_records prev e v = Ok (v', false) /\ directory_volume v' (freed f (ne_first_data_cluster e) fl) /\
    records_change v v' (run_places c o k) /\ forall p, p ∈ run_places c o k -> record v' p = marked_record deleted_mark.
Proof.
  intros V Rd HL Hm [= <- <-] Hk0 Hk Hal Hfile Hap. unfold remove_records. set (x := ne_first_data_cluster e) in *.
  assert (Hfree : exists v1, (if negb (x =? 0) then free_cluster_chain_starting_at (chain_fuel v) x INCLUDING_FIRST v else Ok v) = Ok v1 /\
    directory_volume v1 (freed f x fl) /\ same_records v v1).
  { unfold freed. destruct (Z.eqb_spec x 0) as [E|E]; cbn [negb]; [by exists v|]. destruct (Hfile E) as [Hch Hok].
    pose proof (clusters_length v _ (proj1 (dv_table _ _ V)) Hok) as Hlen. cbn [length] in Hlen.
    destruct (free_chain_Ok (chain_fuel v) fl x INCLUDING_FIRST v f (dv_table _ _ V) Hch Hok ltac:(lia) ltac:(done)) as (v1 & -> & S1 & R1).
    exists v1. split; [done|]. by apply (table_change v v1 f). }
  destruct Hfree as (v1 & -> & V1 & B1). run. destruct (listing_not_end _ _ _ _ HL) as (q & ps' & -> & Hend).
  assert (Rd1 : reading v1 (freed f x fl) d l (q :: ps')).
  { destruct (reading_same v v1 f d l (q :: ps') B1 Rd) as [H1 H2 H3 H4 H5]. split; try done. by apply freed_chain. }
  destruct (not_last_Ok v1 (freed f x fl) d l q ps' e V1 Rd1 Hm) as (v2 & -> & V2 & B2).
  { rewrite (record_same v v1); [done|done|]. eapply reading_valid; [exact Rd|by left]. }
  run. cbn [andb]. replace (S (Z.to_nat (ne_sequence_count e))) with k by lia.
  assert (B12 := same_records_trans _ _ _ B1 B2). rewrite Forall_forall in Hal.
  destruct (Hal (ne_cluster_1 e, ne_offset e)) as [(Hc & Ho & _) Ha].
  { apply list_elem_of_fmap. exists 0%nat. split; [f_equal; lia|]. apply elem_of_seq. lia. }
  destruct (Hal (ne_cluster_1 e, ne_offset e + directory_entry_size * Z.of_nat (k - 1))) as [(_ & _ & Hl) _].
  { apply list_elem_of_fmap. exists (k - 1)%nat. split; [done|]. apply elem_of_seq. lia. }
  cbn [fst snd] in *. destruct (delete_records_Ok e k v2 (freed f x fl) (ne_cluster_1 e) (ne_offset e) V2) as (v' & -> & V' & (C' & B' & Ch') & R');
    [by rewrite (sb_count _ _ B12)|done|done|rewrite (sb_bytes _ _ B12); unfold directory_entry_size in *; lia|].
  run. exists v'. split_and!; [done|done| |done]. split; [rewrite C'; apply B12|]. split; [rewrite B'; apply B12|].
  intros p Hp Hn. rewrite Ch'; [apply record_same; [done|apply Hp]| |done]. apply (aligned_same v); [apply B12|apply B12|done].
Qed.
End Places.

(** ** The loop over a directory *)

Section Loop.
Context {F D : Type} `{BlockStore F} `{BlockStore D}.
Context (root_cluster : Z).

(** The files without the first one of a name. *)
Fixpoint remove_listed (node : view) (L : list listed) : list listed :=
  match L with
  | [] => []
  | li :: L => if decide (li_name li = node) then L else li :: remove_listed node L
  end.

Lemma find_listed_cons node li L : find_listed node (li :: L) = if decide (li_name li = node) then Some li else find_listed node L.
Proof. unfold find_listed. rewrite filter_cons. by case_decide. Qed.

(** Before the last node of a path the loop is that of opening. *)
Lemma remove_loop_find node constraint fuel : forall d prev code o (v : volume F D),
  remove_loop root_cluster fuel node false constraint d prev code o v =
    ('(v, found) ← find_path_node fuel node d v;
     match found with
     | None => Ok (v, o, code, None)
     | Some e => let '(next_file, o) := open_entry root_cluster e o in Ok (v, o, code, Some next_file)
     end).
Proof.
  induction fuel as [|fuel IH]; intros d prev code o v; [done|]. cbn [remove_loop find_path_node].
  destruct (next_native d v) as [[[v1 d1] e]|]; run; [|done]. destruct (entry_empty e); [done|]. rewrite are_equal_Ok. run.
  case_bool_decide; cbn [negb]; [done|apply IH].
Qed.

Lemma remove_loop_none node last constraint L : forall fuel (v : volume F D) f d l ps prev code o,
  directory_volume v f -> 512 <= m_bytes_per_cluster v -> reading v f d l ps -> listing v ps L -> (length L < fuel)%nat ->
  find_listed node L = None ->
  exists v', remove_loop root_cluster fuel node last constraint d prev code o v = Ok (v', o, code, None) /\ directory_volume v' f /\ same_records v v'.
Proof.
  induction L as [|li L IH]; intros fuel v f d l ps prev code o V Hb Rd HL Hf Hnone; (destruct fuel as [|fuel]; [lia|]); cbn [remove_loop];
    destruct (next_native_Ok v f d l ps _ V Hb Rd HL) as (v1 & d1 & out & E & V1 & B1 & _ & Hres); rewrite E; run.
  - destruct Hres as [-> _]. by exists v1.
  - destruct Hres as (Hsh & l1 & ps1 & Rd1 & HL1 & _). pose proof Hsh as (Hname & -> & _). rewrite are_equal_Ok. run. rewrite Hname.
    rewrite find_listed_cons in Hnone. case_decide; [done|]. rewrite bool_decide_false by done. cbn [negb]. cbn [length] in Hf.
    destruct (IH fuel v1 f d1 l1 ps1 (ne_cluster_1 out) code o V1 ltac:(by rewrite (sb_bytes _ _ B1)) Rd1 HL1 ltac:(lia) Hnone) as (v2 & E2 & V2 & B2).
    exists v2. split_and!; [done|done|by eapply same_records_trans].
Qed.

Lemma listing_skips (v : volume F D) sk ps L : Forall (fun p => skipped (record v p)) sk -> listing v ps L -> listing v (sk ++ ps) L.
Proof. induction 1; [done|]. intros HL. apply listing_skip; auto. Qed.

(** What is asked of the file that is removed: it is closed, its records are in one cluster, and its
    clusters are its own. *)
Record removable (o : open_files) (v : volume F D) (f : Z -> Z) (li : listed) (fl cs : list Z) : Prop := {
  rm_file : listed_directory li = false;
  rm_closed : m_identifier_to_file o !! li_place li = None;
  rm_cluster : directory_entry_size * Z.of_nat (length (name_pieces 20 (li_name li))) <= snd (li_place li);
  rm_clusters : file_clusters f v (li_cluster li) fl;
  rm_apart : apart (li_cluster li) fl cs }.

Lemma places_cluster (v : volume F D) cs c o : (c, o) ∈ directory_places v cs -> c ∈ cs.
Proof.
  intros Hin. apply list_elem_of_join in Hin as (ps & Hp & (c' & -> & Hc)%list_elem_of_fmap).
  apply list_elem_of_fmap in Hp as (k & E & _). by injection E as -> _.
Qed.

(** The clusters that are still to be read. *)
Lemma reading_clusters (v : volume F D) f d l ps (cs : list Z) x :
  directory_volume v f -> reading v f d l ps -> (forall c o, (c, o) ∈ ps -> c ∈ cs) -> x ∈ l -> x ∈ cs.
Proof.
  intros V [_ _ _ _ ->] Hcs Hx. apply (Hcs x 0). apply elem_of_app. right. apply list_elem_of_join. exists (places_from (m_bytes_per_cluster v) x 0).
  pose proof (do_positive _ (dv_data _ _ V)). split; [|apply list_elem_of_fmap; by exists x].
  rewrite places_from_cons; [by left|apply V|by exists 0|done].
Qed.

Lemma remove_here node fuel (v : volume F D) f d l ps li L prev code o fl cs pre :
  directory_volume v f -> 512 <= m_bytes_per_cluster v -> reading v f d l ps -> listing v ps (li :: L) -> (length L < fuel)%nat ->
  directory_places v cs = pre ++ ps -> clusters_ok v cs -> li_name li = node -> find_listed node L = None -> L <> [] ->
  removable o v f li fl cs ->
  exists v', remove_loop root_cluster (S fuel) node true OnlyFile d prev code o v = Ok (v', o, NO_ERROR, None) /\
    directory_volume v' (freed f (li_cluster li) fl) /\ records_change v v' ps /\ listing v' ps L.
Proof.
  intros V Hb Rd HL Hf Hps Hok Hname Hnone Hne [Rf Rc Ro Rcl Ra]. cbn [remove_loop].
  destruct (next_native_Ok v f d l ps _ V Hb Rd HL) as (v1 & d1 & e & E & V1 & B1 & _ & Hres). rewrite E. run.
  destruct Hres as (Hsh & l1 & ps1 & Rd1 & HL1 & Hm & skip & recs & Eps & Hskip & Hseg & (Hhead & Hlast & Hlen) & Hpieces).
  pose proof Hsh as (En & -> & Ea & Ec & Es & Ep). rewrite are_equal_Ok. run. rewrite En, bool_decide_true by done. cbn [negb].
  unfold may_remove. rewrite Ea, Ep, Rc. fold (listed_directory li). rewrite Rf. cbn [andb]. run.
  assert (Hal : forall p, p ∈ ps -> aligned_place v p) by (intros p Hp; eapply directory_places_aligned; [exact Hok|]; rewrite Hps; apply elem_of_app; by right).
  assert (Hal1 : forall p, p ∈ ps -> aligned_place v1 p) by (intros p Hp; apply (aligned_same v); [apply B1|apply B1|by apply Hal]).
  assert (Hrow : recs = run_places (ne_cluster_1 e) (ne_offset e) (length recs)).
  { rewrite Eps in Hps. destruct (li_place li) as [c0 o0]. injection Ep as Ep1 Ep2. cbn [snd] in Ro. rewrite Ep1, Ep2 in Hlast.
    rewrite app_assoc in Hps. pose proof (records_in_row v cs recs (pre ++ skip) ps1 c0 o0 Hps Hlast ltac:(unfold directory_entry_size in *; lia)) as Hr.
    destruct recs as [|r recs]; [done|]. rewrite Hr in Hhead. cbn [length] in Hhead. rewrite run_places_S in Hhead. injection Hhead as <- <-. exact Hr. }
  assert (Hk : (0 < length recs)%nat) by (destruct recs; [done|cbn; lia]).
  destruct L as [|li2 L2] eqn:EL; [done|]. rewrite <- EL in *.
  assert (Hin : forall p, p ∈ recs \/ p ∈ ps1 -> p ∈ ps) by (intros p Hp; rewrite Eps, !elem_of_app; tauto).
  assert (Hcs : forall c o, (c, o) ∈ ps -> c ∈ cs) by (intros c o' Hp; apply (places_cluster v cs c o'); rewrite Hps; apply elem_of_app; by right).
  destruct (remove_records_Ok v1 f d1 l1 ps1 li2 L2 e (ne_cluster_1 e) (ne_offset e) (length recs) fl prev V1 Rd1 ltac:(by rewrite <- EL) Hm eq_refl Hk Hlen)
    as (v2 & -> & V2 & (C2 & B2 & Ch2) & R2).
  { rewrite <- Hrow. apply Forall_forall. intros p Hp. apply Hal1, Hin. by left. }
  { rewrite Ec. intros Hc. destruct (Rcl Hc) as [? [? Hok1]]. split; [done|]. split; [done|]. by rewrite (sb_count _ _ B1). }
  { rewrite Ec. intros Hc x Hx. apply Ra; [done|]. apply elem_of_cons in Hx as [->|Hx].
    - injection Hm as -> _. eapply Hcs, Hin. left. eapply list_elem_of_lookup_2. rewrite <- last_lookup. exact Hlast.
    - eapply reading_clusters; [exact V1|exact Rd1| |done]. intros c o' Hp. eapply Hcs, Hin. by right. }
  run. rewrite <- Hrow in Ch2, R2. rewrite Ec in V2.
  assert (Hnd : NoDup ps) by (pose proof (directory_places_nodup v cs (proj1 Hok)) as Hnd; rewrite Hps in Hnd; by apply NoDup_app in Hnd as (_ & _ & ?)).
  rewrite Eps in Hnd. apply NoDup_app in Hnd as (_ & Hd1 & Hnd). apply NoDup_app in Hnd as (_ & Hd2 & _).
  assert (HL2 : listing v2 ps1 L).
  { apply (listing_same v1); [|done]. intros p Hp. apply Ch2; [apply Hal1, Hin; by right|]. intros Hr. by apply (Hd2 p). }
  assert (Rd2 : reading v2 (freed f (li_cluster li) fl) d1 l1 ps1).
  { destruct Rd1 as [H1 H2 [H3 H3'] H4 H5]. split; [done| |split; [done|by rewrite C2]|by rewrite B2|by rewrite B2].
    apply freed_chain; [|done]. intros Hc x Hx. apply Ra; [done|]. apply elem_of_cons in Hx as [->|Hx].
    - injection Hm as -> _. eapply Hcs, Hin. left. eapply list_elem_of_lookup_2. rewrite <- last_lookup. exact Hlast.
    - eapply (reading_clusters v1 f d1 l1 ps1); [exact V1|by split| |done]. intros c o' Hp. eapply Hcs, Hin. by right. }
  destruct (remove_loop_none node true OnlyFile L fuel v2 _ d1 l1 ps1 prev NO_ERROR o V2) as (v3 & E3 & V3 & B3); try done.
  { rewrite B2. rewrite (sb_bytes _ _ B1). done. }
  exists v3. split; [done|]. split; [done|].
  assert (Hsame : forall p, aligned_place v p -> p ∉ recs -> record v3 p = record v p).
  { intros p Hp Hr. assert (Hp1 : aligned_place v1 p) by (apply (aligned_same v); [apply B1|apply B1|done]).
    rewrite (record_same v2 v3); [|done|apply (aligned_same v1 v2); done]. rewrite Ch2 by done. apply record_same; [done|apply Hp]. }
  split.
  - split; [rewrite (sb_count _ _ B3), C2; apply B1|]. split; [rewrite (sb_bytes _ _ B3), B2; apply B1|].
    intros p Hp Hn. apply Hsame; [done|]. intros Hr. apply Hn, Hin. by left.
  - rewrite Eps. apply listing_skips; [|apply listing_skips].
    + rewrite Forall_forall in Hskip |- *. intros p Hp. rewrite Hsame; [by apply Hskip|apply Hal; rewrite Eps, elem_of_app; by left|].
      intros Hr. apply (Hd1 p Hp). rewrite elem_of_app. by left.
    + apply Forall_forall. intros p Hp. left. rewrite (record_same v2 v3); [|done|apply (aligned_same v1 v2); [done|done|apply Hal1, Hin; by left]]. by rewrite R2.
    + apply (listing_same v2); [|done]. intros p Hp. apply record_same; [done|]. apply (aligned_same v1 v2); [done|done|apply Hal1, Hin; by right].
Qed.

Lemma removable_same o (v v1 : volume F D) f li fl cs : same_records v v1 -> removable o v f li fl cs -> removable o v1 f li fl cs.
Proof.
  intros B [R1 R2 R3 R4 R5]. split; try done. intros Hc. destruct (R4 Hc) as [? [? Hok]]. split; [done|]. split; [done|]. by rewrite (sb_count _ _ B).
Qed.

Lemma remove_loop_found node li L : forall fuel (v : volume F D) f d l ps prev code o fl cs pre,
  directory_volume v f -> 512 <= m_bytes_per_cluster v -> reading v f d l ps -> listing v ps L -> (length L < fuel)%nat ->
  directory_places v cs = pre ++ ps -> clusters_ok v cs -> find_listed node L = Some li -> find_listed node (remove_listed node L) = None ->
  li_name <$> last L <> Some node -> removable o v f li fl cs ->
  exists v', remove_loop root_cluster fuel node true OnlyFile d prev code o v = Ok (v', o, NO_ERROR, None) /\
    directory_volume v' (freed f (li_cluster li) fl) /\ records_change v v' ps /\ listing v' ps (remove_listed node L).
Proof.
  induction L as [|li0 L IH]; intros fuel v f d l ps prev code o fl cs pre V Hb Rd HL Hf Hps Hok Hfind Hnone Hlast Hrm; [done|].
  destruct fuel as [|fuel]; [lia|]. cbn [length] in Hf. rewrite find_listed_cons in Hfind. cbn [remove_listed] in *.
  destruct (decide (li_name li0 = node)) as [En|En].
  { injection Hfind as ->. apply (remove_here node fuel v f d l ps li L prev code o fl cs pre); try done; [lia|]. intros ->. cbn in Hlast. congruence. }
  cbn [remove_loop]. destruct (next_native_Ok v f d l ps _ V Hb Rd HL) as (v1 & d1 & e & E & V1 & B1 & _ & Hres). rewrite E. run.
  destruct Hres as (Hsh & l1 & ps1 & Rd1 & HL1 & _ & skip & recs & Eps & Hskip & Hseg & _). pose proof Hsh as (Hname & -> & _).
  rewrite are_equal_Ok. run. rewrite Hname, bool_decide_false by done. cbn [negb]. rewrite find_listed_cons, decide_False in Hnone by done.
  assert (Hok1 : clusters_ok v1 cs) by (destruct Hok; split; [done|]; by rewrite (sb_count _ _ B1)).
  destruct (IH fuel v1 f d1 l1 ps1 (ne_cluster_1 e) code o fl cs (pre ++ skip ++ recs) V1) as (v' & E' & V' & (C' & B' & Ch') & HL'); try done.
  - by rewrite (sb_bytes _ _ B1).
  - lia.
  - unfold directory_places in *. rewrite (sb_bytes _ _ B1), Hps, Eps, <- !app_assoc. done.
  - intros Hl. apply Hlast. destruct L; [done|]. exact Hl.
  - by eapply removable_same.
  - exists v'. split_and!; [done|done| |].
    + split; [rewrite C'; apply B1|]. split; [rewrite B'; apply B1|]. intros p Hp Hn. rewrite Ch'; [apply record_same; [done|apply Hp]| |].
      * apply (aligned_same v); [apply B1|apply B1|done].
      * intros Hin. apply Hn. rewrite Eps, !elem_of_app. tauto.
    + assert (Hnd : NoDup ps) by (pose proof (directory_places_nodup v cs (proj1 Hok)) as Hnd; rewrite Hps in Hnd; by apply NoDup_app in Hnd as (_ & _ & ?)).
      rewrite Eps, app_assoc in Hnd. apply NoDup_app in Hnd as (_ & Hd & _).
      assert (Hsame : forall p, p ∈ skip ++ recs -> record v' p = record v p).
      { intros p Hp. assert (Hal : aligned_place v p) by (eapply directory_places_aligned; [exact Hok|]; rewrite Hps, Eps, app_assoc, !elem_of_app; rewrite elem_of_app in Hp; tauto).
        rewrite Ch'; [apply record_same; [done|apply Hal]|apply (aligned_same v); [apply B1|apply B1|done]|by apply Hd]. }
      rewrite Eps. apply listing_skips.
      * rewrite Forall_forall in Hskip |- *. intros p Hp. rewrite Hsame; [by apply Hskip|]. rewrite elem_of_app. by left.
      * apply (segment_app v v' recs [li0] ps1); [|done|done]. intros p Hp. apply Hsame. rewrite elem_of_app. by right.
Qed.
End Loop.

(** ** The directories *)

Section Tree.
Context (root root_cluster : Z) (T : gmap Z (list listed)).
Context {F D : Type} {BF : BlockStore F} {BD : BlockStore D}.

(** Why a file is not removed. *)
Definition refusal (o : open_files) (li : listed) : option error_code :=
  if listed_directory li then Some IS_DIRECTORY else if decide (m_identifier_to_file o !! li_place li = None) then None else Some FILE_IS_BUSY.

Lemma remove_loop_refused node li code' L : forall fuel (v : volume F D) f d l ps prev code o,
  directory_volume v f -> 512 <= m_bytes_per_cluster v -> reading v f d l ps -> listing v ps L -> (length L < fuel)%nat ->
  find_listed node L = Some li -> refusal o li = Some code' ->
  exists v', remove_loop root_cluster fuel node true OnlyFile d prev code o v = Ok (v', o, code', None) /\ directory_volume v' f /\ same_records v v'.
Proof.
  induction L as [|li0 L IH]; intros fuel v f d l ps prev code o V Hb Rd HL Hf Hfind Href; [done|]. destruct fuel as [|fuel]; [lia|]. cbn [remove_loop length] in *.
  destruct (next_native_Ok v f d l ps _ V Hb Rd HL) as (v1 & d1 & e & E & V1 & B1 & _ & Hsh & l1 & ps1 & Rd1 & HL1 & _). rewrite E. run.
  pose proof Hsh as (Hname & -> & Ea & _ & _ & Ep). rewrite are_equal_Ok. run. rewrite Hname. rewrite find_listed_cons in Hfind.
  destruct (decide (li_name li0 = node)) as [En|En].
  - injection Hfind as ->. rewrite bool_decide_true by done. cbn [negb]. unfold may_remove. rewrite Ea, Ep. fold (listed_directory li).
    unfold refusal in Href. destruct (listed_directory li); [injection Href as <-; run; by exists v1|].
    case_decide as Hd; [done|]. injection Href as <-. destruct (m_identifier_to_file o !! li_place li); [|done]. run. by exists v1.
  - rewrite bool_decide_false by done. cbn [negb].
    destruct (IH fuel v1 f d1 l1 ps1 (ne_cluster_1 e) code o V1 ltac:(by rewrite (sb_bytes _ _ B1)) Rd1 HL1 ltac:(lia) Hfind Href) as (v2 & E2 & V2 & B2).
    exists v2. split_and!; [done|done|by eapply same_records_trans].
Qed.

(** The directories of the tree share no cluster. *)
Definition directory_chain (v : volume F D) (f : Z -> Z) (l : list Z) : Prop :=
  is_chain f l /\ clusters_ok v l /\ exists c, head l = Some c /\ is_Some (T !! c).

Definition directories_apart (v : volume F D) (f : Z -> Z) : Prop := forall l l' x,
  directory_chain v f l -> directory_chain v f l' -> x ∈ l -> x ∈ l' -> head l = head l'.

Lemma directory_chain_same (v v1 : volume F D) f l : same_records v v1 -> directory_chain v1 f l -> directory_chain v f l.
Proof. intros B (? & [? Hok] & ?). split_and!; [done| |done]. split; [done|]. by rewrite <- (sb_count _ _ B). Qed.

(** What removing asks of the file [li] called [node] in the directory at the cluster [c]: it is not
    the last of the directory, it is the only one of its name, its records are in one cluster, and
    the clusters [fl] that follow its first one belong to no directory. *)
Record can_remove (v : volume F D) (f : Z -> Z) (node : view) (c : Z) (li : listed) (fl : list Z) : Prop := {
  cr_once : find_listed node (remove_listed node (files_at T c)) = None;
  cr_followed : li_name <$> last (files_at T c) <> Some node;
  cr_cluster : directory_entry_size * Z.of_nat (length (name_pieces 20 (li_name li))) <= snd (li_place li);
  cr_clusters : file_clusters f v (li_cluster li) fl;
  cr_apart : forall l, directory_chain v f l -> apart (li_cluster li) fl l }.

Definition without (node : view) (c : Z) : gmap Z (list listed) := <[ c := remove_listed node (files_at T c) ]> T.

Lemma removed_tree (v v' : volume F D) f node c cs L li fl :
  tree_volume v f T -> T !! c = Some L -> directories_apart v f -> files_at T c = L -> can_remove v f node c li fl ->
  is_chain f (c :: cs) -> clusters_ok v (c :: cs) ->
  directory_volume v' (freed f (li_cluster li) fl) -> records_change v v' (directory_places v (c :: cs)) ->
  listing v' (directory_places v (c :: cs)) (remove_listed node L) ->
  tree_volume v' (freed f (li_cluster li) fl) (without node c).
Proof.
  intros [V Hb Ht] HL Hap EL Hcr Hch Hok V' (C' & B' & Ch') HL'. split; [done|by rewrite B'|]. unfold without. rewrite EL. intros c' L' Hc'.
  assert (Hclusters : forall l, clusters_ok v l -> clusters_ok v' l) by (intros l [? ?]; split; [done|]; by rewrite C').
  assert (Eplaces : forall l, directory_places v' l = directory_places v l) by (intros l; unfold directory_places; by rewrite B').
  destruct (decide (c' = c)) as [->|Hne].
  - rewrite lookup_insert_eq in Hc'. injection Hc' as <-. exists cs. rewrite Eplaces. split_and!; [|by apply Hclusters|done].
    apply freed_chain; [|done]. eapply cr_apart; [done|]. unfold directory_chain. by eauto 6.
  - rewrite lookup_insert_ne in Hc' by done. destruct (Ht c' L' Hc') as (cs' & Hch' & Hok' & Hl'). exists cs'. rewrite Eplaces.
    split_and!; [|by apply Hclusters|].
    + apply freed_chain; [|done]. eapply cr_apart; [done|]. unfold directory_chain. by eauto 6.
    + apply (listing_same v); [|done]. intros p Hp. apply Ch'; [by eapply directory_places_aligned|]. intros Hp'. apply Hne. destruct p as [pc po].
      assert (E : Some c' = Some c); [|by injection E].
      apply (Hap (c' :: cs') (c :: cs) pc); [unfold directory_chain; by eauto 6..| |]; by eapply places_cluster.
Qed.

(** Nothing but records of the directory at the cluster [c] differs between [v] and [v']: every
    other piece of 32 bytes of every cluster is the same. *)
Definition changed_in (v v' : volume F D) (f : Z -> Z) (c : Z) : Prop :=
  exists cs, is_chain f (c :: cs) /\ clusters_ok v (c :: cs) /\ records_change v v' (directory_places v (c :: cs)).

Lemma changed_in_same (v v1 v' : volume F D) f c : same_records v v1 -> changed_in v1 v' f c -> changed_in v v' f c.
Proof.
  intros B (cs & Hch & [Hnd Hok] & C' & B' & Ch'). exists cs. split_and!; [done|by split; [|rewrite <- (sb_count _ _ B)]|].
  unfold directory_places in *. rewrite (sb_bytes _ _ B) in Ch', B'. rewrite (sb_count _ _ B) in C'. split_and!; [done..|].
  intros p Hp Hn. rewrite Ch'; [apply record_same; [done|apply Hp]| |done]. by apply (aligned_same v); [apply B|apply B|].
Qed.

Lemma remove_last_Ok (v : volume F D) f node c o fl :
  tree_volume v f T -> c = free_cluster \/ is_Some (T !! c) -> directories_apart v f ->
  (forall li, find_listed node (files_at T c) = Some li -> refusal o li = None -> can_remove v f node c li fl) ->
  exists v' code, remove_loop root_cluster (directory_fuel v) node true OnlyFile (make_directory c) c NO_SUCH_FILE o v = Ok (v', o, code, None) /\
    match find_listed node (files_at T c) with
    | None => code = NO_SUCH_FILE /\ tree_volume v' f T /\ same_records v v'
    | Some li =>
      match refusal o li with
      | Some e => code = e /\ tree_volume v' f T /\ same_records v v'
      | None => code = NO_ERROR /\ tree_volume v' (freed f (li_cluster li) fl) (without node c) /\ changed_in v v' f c
      end
    end.
Proof.
  intros Tv Hc Hap Hcan. destruct (decide (c = free_cluster)) as [->|Hne].
  { exists v, NO_SUCH_FILE. split; [done|]. unfold files_at. rewrite Z.eqb_refl. by split_and!; [..|apply same_records_refl]. }
  destruct Hc as [?|[L HL]]; [done|]. assert (EL : files_at T c = L) by (unfold files_at; rewrite (proj2 (Z.eqb_neq c free_cluster)), HL by done; done).
  pose proof Tv as [V Hb Ht]. destruct (Ht c L HL) as (cs & Hch & Hok & Hl). pose proof (start_reading v f c cs V Hch Hok) as Rd.
  pose proof (reading_length v f _ _ _ V Rd) as Hfuel. pose proof (listing_length _ _ _ Hl) as Hlen. rewrite EL in *.
  destruct (find_listed node L) as [li|] eqn:Ef.
  - destruct (refusal o li) as [e|] eqn:Er.
    + destruct (remove_loop_refused node li e L (directory_fuel v) v f _ _ _ c NO_SUCH_FILE o V Hb Rd Hl ltac:(lia) Ef Er) as (v' & E & V' & B').
      exists v', e. split_and!; [done|done|by eapply tree_volume_same|done].
    + pose proof (Hcan li eq_refl Er) as Hcr. pose proof Hcr as [K1 K2 K3 K4 K5]. rewrite EL in K1, K2.
      unfold refusal in Er. destruct (listed_directory li) eqn:Ed; [done|]. case_decide as Hclosed; [|done].
      destruct (remove_loop_found root_cluster node li L (directory_fuel v) v f _ _ _ c NO_SUCH_FILE o fl (c :: cs) [] V Hb Rd Hl ltac:(lia) eq_refl Hok Ef K1 K2)
        as (v' & E & V' & Hchg & HL'); [split; try done; apply K5; unfold directory_chain; by eauto 6|].
      exists v', NO_ERROR. split_and!; [done|done| |by exists cs]. by apply (removed_tree v v' f node c cs L li fl).
  - destruct (remove_loop_none root_cluster node true OnlyFile L (directory_fuel v) v f _ _ _ c NO_SUCH_FILE o V Hb Rd Hl ltac:(lia) Ef) as (v' & E & V' & B').
    exists v', NO_SUCH_FILE. split_and!; [done|done|by eapply tree_volume_same|done].
Qed.

(** ** The path *)

(** The directory in which the last node of a path is looked up. *)
Fixpoint parent_cluster (nodes : list view) (c : Z) : Z :=
  match nodes with
  | [] => c
  | node :: nodes =>
    match nodes with
    | [] => c
    | _ => match find_listed node (files_at T c) with Some li => parent_cluster nodes (listed_cluster root_cluster li) | None => c end
    end
  end.

Lemma can_remove_same (v v1 : volume F D) f node c li fl : same_records v v1 -> can_remove v f node c li fl -> can_remove v1 f node c li fl.
Proof.
  intros B [K1 K2 K3 K4 K5]. split; try done.
  - intros Hc. destruct (K4 Hc) as [? [? Hok]]. split; [done|]. split; [done|]. by rewrite (sb_count _ _ B).
  - intros l Hch. by eapply K5, directory_chain_same.
Qed.

(** The directory that is open on the way is not the file. *)
Lemma refusal_same o0 o cur fl li :
  opens_ok root root_cluster T o -> in_tree T li -> o_files o !! cur = Some fl -> is_directory fl = true -> holds o0 o (refs root cur fl) -> refusal o li = refusal o0 li.
Proof.
  intros H Hli Hcur Hd Hh. unfold refusal. destruct (listed_directory li) eqn:Ed; [done|].
  assert (Et : taken (li_place li) (refs root cur fl) = 0).
  { unfold refs. destruct (cur =? root); [done|]. rewrite taken_cons. case_decide as E; [|done]. destruct (oo_agree _ _ _ _ H li cur fl Hli Hcur E) as (_ & Hdir & _). congruence. }
  specialize (Hh (li_place li)). rewrite Et in Hh. destruct (m_identifier_to_file o0 !! li_place li) as [[p rc]|].
  - rewrite Hh. by rewrite !decide_False by done.
  - rewrite decide_True in Hh by done. by rewrite Hh.
Qed.

(** Every way out of a directory. *)
Definition leave_with (cur : Z) (code : error_code) (o : open_files) (v : volume F D) : result (volume F D * open_files * error_code) :=
  o ← unlock_file cur o; o ← fat_close root cur o; Ok (v, o, code).

Lemma remove_walk_step node node' nodes cur o (v : volume F D) :
  node <> [ch_dot] ->
  remove_walk root root_cluster (node :: node' :: nodes) OnlyFile cur null_file o v =
    (o ← lock_file cur o;
     fl ← file_at cur o;
     if negb (is_directory fl) then leave_with cur IS_FILE o v
     else
       '(v, found) ← find_path_node (directory_fuel v) node (make_directory (m_first_cluster (of_file fl))) v;
       match found with
       | None => leave_with cur NO_SUCH_FILE o v
       | Some e => let '(next_file, o) := open_entry root_cluster e o in remove_walk root root_cluster (node' :: nodes) OnlyFile cur next_file o v
       end).
Proof.
  intros Hdot. remember (node' :: nodes) as rest eqn:Er. cbn [remove_walk]. rewrite (bool_decide_false (node = [ch_dot])), (bool_decide_false (rest = [])) by (done || by subst).
  rewrite andb_false_r. cbn [andb negb]. change (negb (null_file =? null_file)) with false. run. destruct (lock_file cur o) as [o1|]; run; [|done].
  destruct (file_at cur o1) as [fl|]; run; [|done]. destruct (negb (is_directory fl)); [done|]. rewrite remove_loop_find.
  destruct (find_path_node _ _ _ _) as [[v1 found]|]; run; [|done]. destruct found as [e|]; run; [|done].
  destruct (open_entry root_cluster e o1) as [next o2]. run. done.
Qed.

Lemma remove_walk_last node cur o (v : volume F D) :
  node <> [ch_dot] -> node <> [ch_dot; ch_dot] ->
  remove_walk root root_cluster [node] OnlyFile cur null_file o v =
    (o ← lock_file cur o;
     fl ← file_at cur o;
     if negb (is_directory fl) then leave_with cur IS_FILE o v
     else
       let c := m_first_cluster (of_file fl) in
       '(v, o, code, keep_going) ← remove_loop root_cluster (directory_fuel v) node true OnlyFile (make_directory c) c NO_SUCH_FILE o v;
       match keep_going with None => leave_with cur code o v | Some next => remove_walk root root_cluster [] OnlyFile cur next o v end).
Proof. intros H1 H2. cbn [remove_walk]. by rewrite (bool_decide_false (node = [ch_dot])), (bool_decide_false (node = [ch_dot; ch_dot])) by done. Qed.

Lemma remove_walk_enter node nodes cur next o o1 o2 (v : volume F D) :
  node <> [ch_dot] -> (nodes = [] -> node <> [ch_dot; ch_dot]) -> next <> null_file -> unlock_file cur o = Ok o1 -> fat_close root cur o1 = Ok o2 ->
  remove_walk root root_cluster (node :: nodes) OnlyFile cur next o v = remove_walk root root_cluster (node :: nodes) OnlyFile next null_file o2 v.
Proof.
  intros Hdot Hdd Hne E1 E2. cbn [remove_walk]. rewrite bool_decide_false by done. rewrite (proj2 (Z.eqb_neq next null_file)) by done.
  assert (E : bool_decide (node = [ch_dot; ch_dot]) && bool_decide (nodes = []) = false).
  { apply andb_false_iff. destruct (decide (nodes = [])) as [Hn|Hn]; [left|right]; rewrite bool_decide_false; auto. }
  rewrite E. cbn [negb andb]. rewrite E1. run. rewrite E2. run. done.
Qed.

(** What removing the file that a path leads to comes to. *)
Definition removal (o0 : open_files) (f : Z -> Z) (fl : list Z) (node : view) (target : error_code + listed) (c : Z)
    (v v' : volume F D) (o' : open_files) (code : error_code) : Prop :=
  opens_ok root root_cluster T o' /\ locked_only o' None /\ holds o0 o' [] /\
  match target with
  | inl e => code = e /\ tree_volume v' f T /\ same_records v v'
  | inr li =>
    match refusal o0 li with
    | Some e => code = e /\ tree_volume v' f T /\ same_records v v'
    | None => code = NO_ERROR /\ tree_volume v' (freed f (li_cluster li) fl) (without node c) /\ changed_in v v' f c
    end
  end.

Lemma removal_same o0 f fl node target c (v v1 v' : volume F D) o' code :
  same_records v v1 -> removal o0 f fl node target c v1 v' o' code -> removal o0 f fl node target c v v' o' code.
Proof.
  intros B (H1 & H2 & H3 & Hres). split_and!; [done..|]. destruct target as [e|li].
  - destruct Hres as (? & ? & ?). split_and!; [done..|by eapply same_records_trans].
  - destruct (refusal o0 li); destruct Hres as (? & ? & ?); split_and!; try done; [by eapply same_records_trans|by eapply changed_in_same].
Qed.

Lemma leave_with_Ok o0 o cur fl code (v : volume F D) :
  opens_ok root root_cluster T o -> locked_only o (Some cur) -> o_files o !! cur = Some fl -> holds o0 o (refs root cur fl) ->
  (forall id p rc, m_identifier_to_file o0 !! id = Some (p, rc) -> 0 < rc /\ rc + 3 < W64) ->
  exists o', leave_with cur code o v = Ok (v, o', code) /\ opens_ok root root_cluster T o' /\ locked_only o' None /\ holds o0 o' [].
Proof.
  intros H Hl Hcur Hh Hsmall. rewrite <- (app_nil_r (refs root cur fl)) in Hh.
  destruct (leave_Ok root root_cluster T o0 o cur fl [] H Hl Hcur Hh ltac:(intros id p rc Hid; by apply (Hsmall id p rc))) as (o1 & o2 & E1 & E2 & H2 & Hl2 & Hh2 & _).
  unfold leave_with. rewrite E1. run. rewrite E2. run. by exists o2.
Qed.

Lemma remove_walk_Ok o0 f fl nodes : forall node cur g o (v : volume F D),
  Forall (fun n => n <> [ch_dot]) (node :: nodes) -> last (node :: nodes) <> Some [ch_dot; ch_dot] ->
  tree_ok root_cluster T -> tree_volume v f T -> directories_apart v f -> opens_ok root root_cluster T o -> locked_only o None ->
  o_files o !! cur = Some g -> holds o0 o (refs root cur g) -> let c := m_first_cluster (of_file g) in
  (is_directory g = true -> c = free_cluster \/ is_Some (T !! c)) ->
  (forall id p rc, m_identifier_to_file o0 !! id = Some (p, rc) -> 0 < rc /\ rc + 3 < W64) ->
  (forall li, follow root_cluster T (node :: nodes) (is_directory g) c = inr li -> refusal o0 li = None ->
     can_remove v f (List.last (node :: nodes) []) (parent_cluster (node :: nodes) c) li fl) ->
  exists v' o' code, remove_walk root root_cluster (node :: nodes) OnlyFile cur null_file o v = Ok (v', o', code) /\
    removal o0 f fl (List.last (node :: nodes) []) (follow root_cluster T (node :: nodes) (is_directory g) c) (parent_cluster (node :: nodes) c) v v' o' code.
Proof.
  induction nodes as [|node' nodes IH]; intros node cur g o v Hdots Hlast HT Tv Hap H Hl Hcur Hh c Hc Hsmall Hcan.
  all: assert (Hpos : forall id p rc, m_identifier_to_file o0 !! id = Some (p, rc) -> 0 < rc) by (intros id p rc Hid; by apply (Hsmall id p rc)).
  all: apply Forall_cons in Hdots as [Hdot Hdots].
  1: rewrite remove_walk_last by (done || (intros ->; by apply Hlast)). 2: rewrite remove_walk_step by done.
  all: rewrite follow_step in *.
  all: destruct (visit_directory_Ok root root_cluster T o0 f node cur g o v HT Tv H Hl Hcur Hh Hc Hsmall) as (o1 & -> & H1 & Hl1 & Hcur1 & Hh1 & Hfound); run.
  all: set (g1 := OpenFile (of_file g) (of_attributes g) true) in *; unfold file_at; rewrite Hcur1; run.
  all: change (is_directory g1) with (is_directory g); change (m_first_cluster (of_file g1)) with c.
  all: destruct (is_directory g) eqn:Edir; cbn [negb] in *;
    [|destruct (leave_with_Ok o0 o1 cur g1 IS_FILE v H1 Hl1 Hcur1 Hh1 Hsmall) as (o2 & -> & H2 & Hl2 & Hh2); exists v, o2, IS_FILE; unfold removal; split_and!; try done; apply same_records_refl].
  - destruct (remove_last_Ok v f node c o1 fl Tv (Hc eq_refl) Hap) as (v1 & code & -> & Hres).
    { intros li Hli Href. rewrite Hli in Hcan. apply (Hcan li); [done|]. rewrite <- (refusal_same o0 o1 cur g1 li); try done. by eapply find_listed_in. }
    run. destruct (leave_with_Ok o0 o1 cur g1 code v1 H1 Hl1 Hcur1 Hh1 Hsmall) as (o2 & -> & H2 & Hl2 & Hh2).
    exists v1, o2, code. split; [done|]. split_and!; [done|done|done|]. cbn [List.last parent_cluster].
    destruct (find_listed node (files_at T c)) as [li|] eqn:Ef; [|done]. rewrite <- (refusal_same o0 o1 cur g1 li); try done. by eapply find_listed_in.
  - fold c in Hfound. destruct (Hfound eq_refl) as (v1 & r & -> & Tv1 & B1 & Hr). run. cbn [parent_cluster] in *.
    destruct (find_listed node (files_at T c)) as [li|] eqn:Ef.
    2: { rewrite Hr. destruct (leave_with_Ok o0 o1 cur g1 NO_SUCH_FILE v1 H1 Hl1 Hcur1 Hh1 Hsmall) as (o2 & -> & H2 & Hl2 & Hh2). exists v1, o2, NO_SUCH_FILE. unfold removal. by split_and!. }
    destruct Hr as (Hli & e & next & o2 & nfl & -> & -> & H2 & Hh2 & Hl2 & Hcur2 & Hn & Hfile & Hnn & Hnr).
    destruct (enter_Ok root root_cluster T o0 o2 cur g1 next nfl li H2 Hl2 Hcur2 Hh2 Hpos Hn Hfile Hnr) as (o3 & o4 & h & E3 & E4 & H4 & Hl4 & Hg & (Eid & Edir' & Ecl) & Er & Hh4).
    rewrite (remove_walk_enter node' nodes cur next o2 o3 o4 v1); try done; [|by apply Forall_cons in Hdots as [? _]|intros ->; by intros ->].
    destruct (IH node' next h o4 v1) as (v' & o' & code & E' & Hres); try done.
    + intros l l' x Hcl Hcl'. by apply Hap; eapply directory_chain_same.
    + rewrite Edir', Ecl. by apply (to_closed _ _ HT).
    + intros li' Hli' Href. rewrite Edir', Ecl in *. eapply can_remove_same; [exact B1|]. exact (Hcan li' Hli' Href).
    + exists v', o', code. split; [done|]. rewrite Edir', Ecl in Hres. by eapply removal_same.
Qed.

Lemma remove_walk_dots node pre : forall cur next o (v : volume F D),
  node <> [ch_dot] ->
  remove_walk root root_cluster (pre ++ [node]) OnlyFile cur next o v =
    remove_walk root root_cluster (filter (fun n => n <> [ch_dot]) pre ++ [node]) OnlyFile cur next o v.
Proof.
  induction pre as [|n pre IH]; intros cur next o v Hdot; [done|]. rewrite filter_cons. cbn [app]. 
  assert (Hne : forall l : list view, bool_decide (l ++ [node] = []) = false) by (intros l; apply bool_decide_false; by destruct l).
  destruct (decide (n = [ch_dot])) as [->|Hn].
  - rewrite decide_False by (intros E; by apply E). cbn [remove_walk]. rewrite bool_decide_true, Hne by done. by apply IH.
  - rewrite decide_True by done. cbn [app remove_walk]. rewrite !Hne, (bool_decide_false (n = [ch_dot])), andb_false_r by done. cbn [andb].
    destruct (if negb (next =? null_file) then _ else _) as [[cur' o1]|]; run; [|done]. destruct (lock_file cur' o1) as [o2|]; run; [|done].
    destruct (file_at cur' o2) as [g|]; run; [|done]. destruct (negb (is_directory g)); [done|].
    destruct (remove_loop _ _ _ _ _ _ _ _ _ _) as [[[[v1 o3] code] [next'|]]|]; run; [|done|done]. by apply IH.
Qed.

(** C16: removing the file that a path leads to, the last node of which is neither "." nor ".."
    (those are refused, and keep a reference: see the example [removing_dot_leaks]).  The path is
    followed as when a file is opened; a directory, an open file or a path that leads nowhere is
    refused with its code, and no byte of any cluster and no entry of the table changes.  Otherwise
    the file, which has to be followed by another one in its directory and to have its records in
    one cluster, is gone from its directory, every other file of every directory is listed as
    before, no byte outside of the clusters of that directory changes, its clusters are free and
    every other cluster is linked as it was.  In all these cases the locks and the references
    are as before. *)
Theorem fat_remove_correct f path pre node o fl (v : volume F D) :
  tree_ok root_cluster T -> tree_volume v f T -> directories_apart v f -> opens_ok root root_cluster T o -> locked_only o None ->
  nodes_of path = pre ++ [node] -> node <> [ch_dot] -> node <> [ch_dot; ch_dot] ->
  (forall id p rc, m_identifier_to_file o !! id = Some (p, rc) -> rc + 3 < W64) ->
  let c := parent_cluster (path_of path) root_cluster in
  (forall li, follow root_cluster T (path_of path) true root_cluster = inr li -> refusal o li = None -> can_remove v f node c li fl) ->
  exists v' o' code, fat_remove root root_cluster path o v = Ok (v', o', code) /\
    opens_ok root root_cluster T o' /\ locked_only o' None /\ holds o o' [] /\
    match follow root_cluster T (path_of path) true root_cluster with
    | inl e => code = e /\ tree_volume v' f T /\ same_records v v'
    | inr li =>
      match refusal o li with
      | Some e => code = e /\ tree_volume v' f T /\ same_records v v'
      | None => code = NO_ERROR /\ tree_volume v' (freed f (li_cluster li) fl) (without node c) /\ changed_in v v' f c
      end
    end.
Proof.
  intros HT Tv Hap H Hl Hpath Hdot Hdd Hsmall c Hcan. unfold fat_remove, remove_file. rewrite path_nodes_correct. run. rewrite Hpath.
  assert (Ewalk : match pre ++ [node] with [] => [[]] | _ => pre ++ [node] end = pre ++ [node]) by (by destruct pre).
  rewrite Ewalk, remove_walk_dots by done. assert (Ep : path_of path = filter (fun n => n <> [ch_dot]) pre ++ [node]).
  { unfold path_of. rewrite Hpath, filter_app. f_equal. by rewrite filter_cons_True by done. }
  rewrite <- Ep. assert (Elast : List.last (path_of path) [] = node) by (rewrite Ep; apply List.last_last).
  destruct (oo_root _ _ _ _ H) as (g & Hr & Hd & Hc & _).
  assert (Hdots : Forall (fun n => n <> [ch_dot]) (path_of path)).
  { apply Forall_forall. intros n Hn. unfold path_of in Hn. by apply list_elem_of_filter in Hn as [? _]. }
  assert (Hlast : last (path_of path) <> Some [ch_dot; ch_dot]) by (rewrite Ep, last_snoc; congruence).
  destruct (path_of path) as [|n nodes] eqn:En; [by apply (f_equal length) in Ep; rewrite length_app in Ep; cbn in Ep; lia|].
  destruct (remove_walk_Ok o f fl nodes n root g o v Hdots Hlast HT Tv Hap H Hl Hr) as (v' & o' & code & E & Hres).
  - unfold refs. rewrite Z.eqb_refl. apply holds_nil.
  - intros _. rewrite Hc. right. apply (to_root _ _ HT).
  - intros id p rc Hid. split; [by destruct (oo_table _ _ _ _ H _ _ _ Hid) as [[? _] _]|by eapply Hsmall].
  - rewrite Hd, Hc, Elast. exact Hcan.
  - exists v', o', code. split; [exact E|]. rewrite Hd, Hc, Elast in Hres. exact Hres.
Qed.
End Tree.

(** ** A concrete directory *)

(** The directory at cluster 2 has README.TXT, with the clusters 3 and 4, and then B. *)
Definition removed_record : list Z := normal_entry false false false noon [82; 69; 65; 68; 77; 69] [84; 88; 84] 3.
Definition kept_record : list Z := normal_entry false false false noon [66] [] 0.
Definition two_files : volume disk_cache disk_cache := volume_on (records_device [deleted_record; removed_record; kept_record]) row_table.
Definition removed_listed : listed := Listed [82; 69; 65; 68; 77; 69; 46; 84; 88; 84] 0 3 0 (2, 32).
Definition kept_listed : listed := Listed [66] 0 0 0 (2, 64).
Definition two_tree : gmap Z (list listed) := {[ 2 := [removed_listed; kept_listed] ]}.

Lemma two_tree_inv c L : two_tree !! c = Some L -> c = 2 /\ L = [removed_listed; kept_listed].
Proof. unfold two_tree. by intros [<- <-]%lookup_singleton_Some. Qed.

Lemma two_in_tree li : in_tree two_tree li -> li = removed_listed \/ li = kept_listed.
Proof. intros (c & L & HL & Hli). destruct (two_tree_inv c L HL) as [_ ->]. rewrite !elem_of_cons, elem_of_nil in Hli. tauto. Qed.

Lemma two_tree_ok : tree_ok 2 two_tree.
Proof.
  split; [split; [by eexists|done]| | |].
  - by intros li [->| ->]%two_in_tree.
  - by intros li li' [->| ->]%two_in_tree [->| ->]%two_in_tree.
  - by intros li [->| ->]%two_in_tree.
Qed.

Lemma two_mounted : opens_ok 1 2 two_tree mounted.
Proof.
  split.
  - intros id p rc (-> & -> & ->)%mounted_table. split; [done|]. by eexists.
  - intros p g (-> & ->)%mounted_files. by eexists.
  - split; [done|]. intros p [g (-> & _)%mounted_files]. done.
  - by eexists.
  - intros li p g Hli (_ & ->)%mounted_files. cbn. intros E. by destruct (to_not_root _ _ two_tree_ok li Hli).
Qed.

Lemma normal_record_short dir stem ext fc (v : volume disk_cache disk_cache) p :
  record v p = normal_entry dir false false noon stem ext fc ->
  stem <> [] -> (length stem <= 8)%nat -> (length ext <= 3)%nat -> Forall plain stem -> Forall plain ext -> (ch_space ∉ stem) -> (ch_space ∉ ext) -> is_u32 fc ->
  entirely_lower stem = false -> entirely_upper stem = true -> entirely_lower ext = false -> entirely_upper ext = true ->
  short_record (record v p) stem ext.
Proof.
  intros -> Hne Hs Hx Ps Px Ns Nx Hfc C1 C2 C3 C4. pose proof (normal_entry_short dir noon stem ext fc) as Hn. cbn zeta in Hn.
  rewrite C1, C3, C2, C4 in Hn. destruct (decide (ext = [])); by apply Hn.
Qed.

Ltac plain_record := first [done | cbn; lia | apply (bool_decide_eq_true_1 _); vm_compute; reflexivity | repeat constructor; vm_compute; congruence].

Lemma two_files_represent : tree_volume two_files (table_of row_table) two_tree.
Proof.
  split; [split; [apply volume_on_represents|apply volume_on_data|by exists 16]|vm_compute; congruence|].
  intros c L [-> ->]%two_tree_inv. exists []. split_and!; [vm_compute; congruence|split; [apply NoDup_singleton|repeat constructor; vm_compute; congruence]|].
  change (directory_places two_files [2]) with ((2, 0) :: (2, 32) :: (2, 64) :: (2, 96) :: drop 4 (directory_places two_files [2])).
  apply listing_skip; [left; vm_compute; reflexivity|].
  assert (H1 : short_record (record two_files (2, 32)) [82; 69; 65; 68; 77; 69] [84; 88; 84])
    by (apply (normal_record_short false _ _ 3); [vm_compute; reflexivity|plain_record..]).
  assert (H2 : short_record (record two_files (2, 64)) [66] []) by (apply (normal_record_short false _ _ 0); [vm_compute; reflexivity|plain_record..]).
  apply (listing_short two_files (2, 32) _ _ _ _ H1 ltac:(done)), (listing_short two_files (2, 64) _ _ _ _ H2 ltac:(done)).
  apply listing_end; vm_compute; reflexivity.
Qed.

Lemma two_directory_chain l : directory_chain two_tree two_files (table_of row_table) l -> l = [2].
Proof.
  intros (Hch & [_ Hok] & c & Hh & [L [-> _]%two_tree_inv]). destruct l as [|x l]; [done|]. injection Hh as ->. destruct l as [|y l]; [done|].
  destruct Hch as [Hy _]. apply Forall_inv_tail, Forall_inv in Hok. vm_compute in Hy. subst y. vm_compute in Hok. by destruct Hok as [_ Hok].
Qed.

Lemma two_can_remove : can_remove two_tree two_files (table_of row_table) (li_name removed_listed) 2 removed_listed [4].
Proof.
  split; [done|done|vm_compute; congruence| |].
  - intros _. split; [split; [reflexivity|vm_compute; congruence]|]. split; [apply (bool_decide_eq_true_1 _); vm_compute; reflexivity|].
    repeat constructor; vm_compute; congruence.
  - intros l ->%two_directory_chain _ x ->%list_elem_of_singleton. apply (bool_decide_eq_true_1 _). vm_compute. reflexivity.
Qed.

(** "/README.TXT" *)
Definition remove_path : view := slash :: li_name removed_listed.

Lemma fat_remove_correct_witness :
  exists v o, fat_remove 1 2 remove_path mounted two_files = Ok (v, o, NO_ERROR) /\ holds mounted o [] /\
    tree_volume v (freed (table_of row_table) 3 [4]) {[ 2 := [kept_listed] ]}.
Proof.
  destruct (fat_remove_correct 1 2 two_tree (table_of row_table) remove_path [] (li_name removed_listed) mounted [4] two_files two_tree_ok two_files_represent)
    as (v & o & code & E & _ & _ & Hh & Hres).
  - intros l l' x -> %two_directory_chain ->%two_directory_chain. done.
  - exact two_mounted.
  - by intros p g (-> & ->)%mounted_files.
  - vm_compute. reflexivity.
  - done.
  - done.
  - by intros id p rc (_ & _ & ->)%mounted_table.
  - intros li Hli _. vm_compute in Hli. injection Hli as <-. exact two_can_remove.
  - change (follow 2 two_tree (path_of remove_path) true 2) with (@inr error_code listed removed_listed) in Hres.
    change (refusal mounted removed_listed) with (@None error_code) in Hres. destruct Hres as (-> & Hv & _). exists v, o. split; [exact E|]. split; [exact Hh|].
    unfold without in Hv. change (parent_cluster 2 two_tree (path_of remove_path) 2) with 2 in Hv. unfold two_tree in Hv at 2. rewrite insert_singleton_eq in Hv. exact Hv.
Defined.

(** ** Where the code does not do what it means to *)

(** A directory of the clusters 2 and 4, and the record of README.TXT without clusters. *)
Definition linked_table : list Z := [0x0FFFFFF8; 0x0FFFFFFF; 4; 0; 0x0FFFFFFF; 0; 0; 0; 0; 0; 0; 0].
Definition empty_file_record : list Z := normal_entry false false false noon [82; 69; 65; 68; 77; 69] [84; 88; 84] 0.
Definition code_of {A} (r : result (A * error_code)) : result error_code := match r with Ok (_, code) => Ok code | Fault e => Fault e end.

(** The only file of a directory is at the offset 0 of its first cluster: the code frees the clusters
    after the first one and reports success, but the record stays, and the file is still listed. *)
Example removed_file_still_listed :
  let v := volume_on (records_device [empty_file_record]) linked_table in
  code_of (fat_remove 1 2 remove_path mounted v) = Ok NO_ERROR /\
  names_after 2 ('(v, o, _) ← fat_remove 1 2 remove_path mounted v; Ok (v, o)) = Some [(li_name removed_listed, 0)].
Proof. split; vm_compute; reflexivity. Qed.

(** Removing the last file of a directory of one cluster frees the clusters after it as if there were some. *)
Example removing_last_file_asserts :
  code_of (fat_remove 1 2 remove_path mounted (volume_on (records_device [deleted_record; empty_file_record]) row_table)) = Fault AssertionFailed.
Proof. vm_compute. reflexivity. Qed.

(** A long name whose last long entry ends a cluster: the cluster of the record after it is not noted
    by [next_native], and removing the file asserts that it is. *)
Example removing_across_clusters_asserts :
  code_of (fat_remove 1 2 [47; 97; 32; 98] mounted
    (volume_on (records_device (replicate 15 deleted_record ++ long_entries 0 [97; 32; 98] ++ [replicate 512 0; empty_file_record; kept_record])) linked_table))
  = Fault AssertionFailed.
Proof. vm_compute. reflexivity. Qed.

(** The directory SUB, with its entries for itself and its parent and a deleted file, and the file B. *)
Definition emptied_directory : volume disk_cache disk_cache :=
  volume_on (records_device [deleted_record; sub_record; kept_record; replicate 416 0; replicate 512 0;
    normal_entry true false false noon [46] [] 4; normal_entry true false false noon [46; 46] [] 0; deleted_record]) row_table.

(** An empty directory that once had a file is never removed: its third record is marked as deleted
    and not as the end. *)
Example emptied_directory_is_busy : code_of (fat_remove_directory 1 2 sub_path mounted emptied_directory) = Ok FILE_IS_BUSY.
Proof. vm_compute. reflexivity. Qed.

(** "/SUB/." is refused, and the reference to SUB is kept; "/." releases a lock that is not taken. *)
Example removing_dot_leaks :
  match fat_remove_directory 1 2 [47; 83; 85; 66; 47; 46] mounted emptied_directory with
  | Ok (_, o, code) => code = INVALID_ARGUMENT /\ m_identifier_to_file o !! (2, 32) = Some (2, 1)
  | Fault _ => False
  end /\
  code_of (fat_remove 1 2 dot_path mounted two_files) = Fault AssertionFailed.
Proof. vm_compute. auto. Qed.

(** Creating a file below the file B, which is open: the error leaves B locked for good. *)
Example create_below_file_keeps_lock :
  match ('(v, o, _) ← fat_open 1 2 [47; 66] mounted two_files; fat_create 1 2 20 noon [47; 66; 47; 120] o v) with
  | Ok (_, o, code) => code = IS_FILE /\ of_locked <$> o_files o !! 2 = Some true
  | Fault _ => False
  end.
Proof. vm_compute. auto. Qed.

(** Creating "/SUB/." is refused, and the reference to SUB is kept. *)
Example create_dot_leaks :
  match fat_create 1 2 20 noon [47; 83; 85; 66; 47; 46] mounted emptied_directory with
  | Ok (_, o, code) => code = INVALID_ARGUMENT /\ m_identifier_to_file o !! (2, 32) = Some (2, 1)
  | Fault _ => False
  end.
Proof. vm_compute. auto. Qed.

(** Creating "/sub/x" in the directory SUB, and opening it under the name it was created with: the
    directory is found in any case when creating, and only in its own when opening. *)
Example created_path_not_found :
  match fat_create 1 2 20 noon [47; 115; 117; 98; 47; 88] mounted emptied_directory with
  | Ok (v, o, code) => code = NO_ERROR /\
      code_of ('(v, o, r) ← fat_open 1 2 [47; 115; 117; 98; 47; 88] o v; Ok (v, o, match r with Error e => e | Value _ => NO_ERROR end)) = Ok NO_SUCH_FILE /\
      code_of ('(v, o, r) ← fat_open 1 2 [47; 83; 85; 66; 47; 88] o v; Ok (v, o, match r with Error e => e | Value _ => NO_ERROR end)) = Ok NO_ERROR
  | Fault _ => False
  end.
Proof. vm_compute. auto. Qed.

(** The file B exists: "/b" is not found when opening, and exists when creating, so that opening "/b"
    with CREATE through the VFS goes on for ever ([open_loop_livelock]). *)
Example open_and_create_disagree :
  match fat_open 1 2 [47; 98] mounted two_files with
  | Ok (v, o, Error e) => e = NO_SUCH_FILE /\ code_of (fat_create 1 2 20 noon [47; 98] o v) = Ok FILE_ALREADY_EXISTS
  | _ => False
  end.
Proof. vm_compute. auto. Qed.
