(* ===== verification/LibcMemory.v ===== *)
(** The memory of a user process as the C library sees it, and the character classes of
    Userland/LibC/ctype.{h,c}.  Memory is the finite map of the bytes the process may
    access; an access to any other address is a fault.  A [char] is the byte it is stored
    as. *)
From S2P Require Import Prelude.
From stdpp Require Export gmap.

#[global] Open Scope Z_scope.

(** ** Bytes *)

Abbreviation bytes := (gmap Z Z).

Definition load_byte (m : bytes) (a : Z) : result Z :=
  match m !! a with Some b => Ok b | None => Fault OutOfBounds end.

Definition store_byte (m : bytes) (a b : Z) : result bytes :=
  match m !! a with Some _ => Ok (<[a := b]> m) | None => Fault OutOfBounds end.

(** [m] holds the bytes [l] from address [a] on. *)
Fixpoint holds (m : bytes) (a : Z) (l : list Z) : Prop :=
  match l with
  | [] => True
  | b :: l => m !! a = Some b /\ holds m (a + 1) l
  end.

(** The [n] bytes from [a] are accessible. *)
Definition accessible_bytes (m : bytes) (a : Z) (n : nat) : Prop :=
  forall i, a <= i < a + Z.of_nat n -> is_Some (m !! i).

(** [m'] differs from [m] only in the [n] bytes from [a]. *)
Definition frame (m m' : bytes) (a n : Z) : Prop :=
  forall i, ~ (a <= i < a + n) -> m' !! i = m !! i.

(** The C string [s] is stored at [a]. *)
Definition cstring (m : bytes) (a : Z) (s : list Z) : Prop :=
  holds m a (s ++ [0]) /\ Forall (fun c => 0 < c < 256) s.

(** Memory with [l] at [a], for examples. *)
Fixpoint put (a : Z) (l : list Z) (m : bytes) : bytes :=
  match l with
  | [] => m
  | b :: l => <[a := b]> (put (a + 1) l m)
  end.

(** ** Lemmas on memory *)

Lemma load_byte_Ok m a b : m !! a = Some b -> load_byte m a = Ok b.
Proof. unfold load_byte. by intros ->. Qed.

Lemma store_byte_Ok m a b : is_Some (m !! a) -> store_byte m a b = Ok (<[a := b]> m).
Proof. unfold store_byte. by intros [x ->]. Qed.

Lemma holds_app m a l l' :
  holds m a (l ++ l') <-> holds m a l /\ holds m (a + Z.of_nat (length l)) l'.
Proof.
  revert a. induction l as [|b l IH]; intros a; simpl.
  - rewrite Z.add_0_r. naive_solver.
  - rewrite IH. replace (a + 1 + Z.of_nat (length l)) with (a + Z.of_nat (S (length l))) by lia.
    naive_solver.
Qed.

Lemma holds_at m a l i b :
  holds m a l -> l !! i = Some b -> m !! (a + Z.of_nat i) = Some b.
Proof.
  revert a i. induction l as [|c l IH]; intros a i H Hi; [done|]. destruct H as [H H'].
  destruct i as [|i]; simpl in Hi; [injection Hi as ->; by rewrite Z.add_0_r|].
  replace (a + Z.of_nat (S i)) with (a + 1 + Z.of_nat i) by lia. by apply IH.
Qed.

Lemma holds_intro m a l :
  (forall i b, l !! i = Some b -> m !! (a + Z.of_nat i) = Some b) -> holds m a l.
Proof.
  revert a. induction l as [|c l IH]; intros a H; simpl; [done|]. split.
  - specialize (H 0%nat c eq_refl). by rewrite Z.add_0_r in H.
  - apply IH. intros i b Hi. specialize (H (S i) b Hi).
    by replace (a + 1 + Z.of_nat i) with (a + Z.of_nat (S i)) by lia.
Qed.

Lemma holds_accessible m a l : holds m a l -> accessible_bytes m a (length l).
Proof.
  intros H i Hi. destruct (lookup_lt_is_Some_2 l (Z.to_nat (i - a))) as [b Hb]; [lia|].
  exists b. replace i with (a + Z.of_nat (Z.to_nat (i - a))) by lia. by eapply holds_at.
Qed.

Lemma accessible_holds m a n : accessible_bytes m a n -> exists l, length l = n /\ holds m a l.
Proof.
  revert a. induction n as [|n IH]; intros a H; [by exists []|].
  destruct (H a) as [b Hb]; [lia|]. destruct (IH (a + 1)) as (l & Hl & Hh).
  { intros i Hi. apply H. lia. }
  exists (b :: l). simpl. by rewrite Hl.
Qed.

(** A walk that stays in memory is no longer than memory is large. *)
Lemma holds_size m a l : holds m a l -> (length l <= size m)%nat.
Proof.
  revert m a. induction l as [|b l IH]; intros m a H; simpl; [lia|]. destruct H as [H H'].
  assert (Hl : holds (delete a m) (a + 1) l).
  { apply holds_intro. intros i c Hi. rewrite lookup_delete_ne by lia. by eapply holds_at. }
  apply IH in Hl. rewrite map_size_delete, H in Hl. simpl in Hl.
  assert (size m <> 0%nat) by (apply map_size_non_empty_iff; intros ->; by rewrite lookup_empty in H).
  lia.
Qed.

Lemma holds_agree m m' a l :
  (forall i, a <= i < a + Z.of_nat (length l) -> m' !! i = m !! i) ->
  holds m a l -> holds m' a l.
Proof.
  intros Hm H. apply holds_intro. intros i b Hi. apply lookup_lt_Some in Hi as Hlt.
  rewrite Hm by lia. by eapply holds_at.
Qed.

Lemma frame_holds m m' a n b l :
  frame m m' a n -> b + Z.of_nat (length l) <= a \/ a + n <= b -> holds m b l -> holds m' b l.
Proof. intros Hf Hd. apply holds_agree. intros i Hi. apply Hf. lia. Qed.

Lemma frame_accessible m m' a n b k :
  frame m m' a n -> b + Z.of_nat k <= a \/ a + n <= b -> accessible_bytes m b k -> accessible_bytes m' b k.
Proof. intros Hf Hd H i Hi. rewrite Hf by lia. by apply H. Qed.

Lemma frame_refl m a n : frame m m a n.
Proof. by intros i _. Qed.

Lemma frame_trans m1 m2 m3 a n :
  frame m1 m2 a n -> frame m2 m3 a n -> frame m1 m3 a n.
Proof. intros H H' i Hi. by rewrite H', H by done. Qed.

Lemma frame_mono m m' a n b k :
  frame m m' a n -> b <= a -> a + n <= b + k -> frame m m' b k.
Proof. intros H Hb Hk i Hi. apply H. lia. Qed.

Lemma frame_insert m a b : frame m (<[a := b]> m) a 1.
Proof. intros i Hi. apply lookup_insert_ne. lia. Qed.

Lemma accessible_insert m a b c n : accessible_bytes m a n -> accessible_bytes (<[c := b]> m) a n.
Proof.
  intros H i Hi. destruct (decide (i = c)) as [->|]; [by rewrite lookup_insert_eq|].
  rewrite lookup_insert_ne by lia. by apply H.
Qed.

Lemma accessible_tail m a n : accessible_bytes m a (S n) -> accessible_bytes m (a + 1) n.
Proof. intros H i Hi. apply H. lia. Qed.

Lemma accessible_head m a n : accessible_bytes m a (S n) -> is_Some (m !! a).
Proof. intros H. apply H. lia. Qed.

Lemma holds_put a l m : holds (put a l m) a l.
Proof.
  revert a. induction l as [|b l IH]; intros a; simpl; [done|]. split; [apply lookup_insert_eq|].
  eapply frame_holds; [apply frame_insert| |apply IH]. lia.
Qed.

Lemma put_frame a l m : frame m (put a l m) a (Z.of_nat (length l)).
Proof.
  revert a. induction l as [|b l IH]; intros a; [apply frame_refl|]. cbn [put length].
  eapply frame_trans; [eapply frame_mono; [apply (IH (a + 1))|lia|lia]|eapply frame_mono; [apply frame_insert|lia|lia]].
Qed.

(** The string at an address is unique, and its bytes can be read one by one. *)
Lemma cstring_cons m a c s :
  cstring m a (c :: s) <-> m !! a = Some c /\ 0 < c < 256 /\ cstring m (a + 1) s.
Proof. unfold cstring. simpl. rewrite Forall_cons. naive_solver. Qed.

Lemma cstring_nil m a : cstring m a [] <-> m !! a = Some 0.
Proof. unfold cstring. simpl. naive_solver. Qed.

Lemma cstring_size m a s : cstring m a s -> (length s < size m)%nat.
Proof. intros [H _]. apply holds_size in H. rewrite length_app in H. simpl in H. lia. Qed.

Lemma cstring_frame m m' a n b s :
  frame m m' a n -> b + Z.of_nat (length s) < a \/ a + n <= b -> cstring m b s -> cstring m' b s.
Proof.
  intros Hf Hd [H Hs]. split; [|done]. eapply frame_holds; [done| |done].
  rewrite length_app. simpl. lia.
Qed.

#[export] Hint Resolve load_byte_Ok store_byte_Ok frame_refl holds_put accessible_tail
  accessible_head accessible_insert : kernel.

(** ** Character classes *)

(** [Userland/LibC/ctype.h:9-18] the class bits *)
Definition CTYPE_CONTROL : Z := Z.shiftl 1 0.
Definition CTYPE_SPACE : Z := Z.shiftl 1 1.
Definition CTYPE_BLANK : Z := Z.shiftl 1 2.
Definition CTYPE_PUNCT : Z := Z.shiftl 1 3.
Definition CTYPE_LOWER : Z := Z.shiftl 1 4.
Definition CTYPE_UPPER : Z := Z.shiftl 1 5.
Definition CTYPE_DIGIT : Z := Z.shiftl 1 6.
Definition CTYPE_XDIGIT : Z := Z.shiftl 1 7.
Definition CTYPE_ALPHA : Z := Z.lor CTYPE_LOWER CTYPE_UPPER.
Definition CTYPE_ALNUM : Z := Z.lor CTYPE_ALPHA CTYPE_DIGIT.

(** [Userland/LibC/ctype.c:3-146] __ctype_table: the entries from 128 on are left zero *)
Definition ctype_table : list Z :=
  replicate 9 CTYPE_CONTROL ++
  [Z.lor CTYPE_CONTROL (Z.lor CTYPE_SPACE CTYPE_BLANK)] ++
  replicate 4 (Z.lor CTYPE_CONTROL CTYPE_SPACE) ++
  replicate 18 CTYPE_CONTROL ++
  [Z.lor CTYPE_SPACE CTYPE_BLANK] ++
  replicate 15 CTYPE_PUNCT ++
  replicate 10 (Z.lor CTYPE_DIGIT CTYPE_XDIGIT) ++
  replicate 7 CTYPE_PUNCT ++
  replicate 6 (Z.lor CTYPE_UPPER CTYPE_XDIGIT) ++
  replicate 20 CTYPE_UPPER ++
  replicate 6 CTYPE_PUNCT ++
  replicate 6 (Z.lor CTYPE_LOWER CTYPE_XDIGIT) ++
  replicate 20 CTYPE_LOWER ++
  replicate 4 CTYPE_PUNCT ++
  [CTYPE_CONTROL] ++
  replicate 128 0.

(** [__ctype_table[(unsigned char)ch]] *)
Definition ctype_of (ch : Z) : Z := default 0 (ctype_table !! Z.to_nat (wrap8 ch)).
Definition has_class (ch mask : Z) : bool := negb (Z.land (ctype_of ch) mask =? 0).

(** [Userland/LibC/ctype.c:163-163] isalnum *)
Definition isalnum (ch : Z) : bool := has_class ch CTYPE_ALNUM.
(** [Userland/LibC/ctype.c:164-164] isalpha *)
Definition isalpha (ch : Z) : bool := has_class ch CTYPE_ALPHA.
(** [Userland/LibC/ctype.c:165-165] islower *)
Definition islower (ch : Z) : bool := has_class ch CTYPE_LOWER.
(** [Userland/LibC/ctype.c:166-166] isupper *)
Definition isupper (ch : Z) : bool := has_class ch CTYPE_UPPER.
(** [Userland/LibC/ctype.c:167-167] isdigit *)
Definition isdigit (ch : Z) : bool := has_class ch CTYPE_DIGIT.
(** [Userland/LibC/ctype.c:168-168] isxdigit *)
Definition isxdigit (ch : Z) : bool := has_class ch CTYPE_XDIGIT.
(** [Userland/LibC/ctype.c:169-169] iscntrl *)
Definition iscntrl (ch : Z) : bool := has_class ch CTYPE_CONTROL.
(** [Userland/LibC/ctype.c:170-170] isgraph *)
Definition isgraph (ch : Z) : bool := negb (has_class ch (Z.lor CTYPE_CONTROL CTYPE_SPACE)).
(** [Userland/LibC/ctype.c:171-171] isspace *)
Definition isspace (ch : Z) : bool := has_class ch CTYPE_SPACE.
(** [Userland/LibC/ctype.c:172-172] isblank *)
Definition isblank (ch : Z) : bool := has_class ch CTYPE_BLANK.
(** [Userland/LibC/ctype.c:173-173] isprint *)
Definition isprint (ch : Z) : bool := negb (has_class ch CTYPE_CONTROL).
(** [Userland/LibC/ctype.c:174-174] ispunct *)
Definition ispunct (ch : Z) : bool := has_class ch CTYPE_PUNCT.

(** [Userland/LibC/ctype.c:176-182] tolower *)
Definition tolower (ch : Z) : Z := if isupper ch then ch + 32 else ch.
(** [Userland/LibC/ctype.c:184-190] toupper *)
Definition toupper (ch : Z) : Z := if islower ch then ch - 32 else ch.

(** The classes of the C locale, as ranges of characters. *)
Definition between (lo hi ch : Z) : bool := (lo <=? ch) && (ch <=? hi).

Lemma ctype_classes ch :
  0 <= ch < 256 ->
  isdigit ch = between 48 57 ch /\
  isupper ch = between 65 90 ch /\
  islower ch = between 97 122 ch /\
  isspace ch = (between 9 13 ch || (ch =? 32)).
Proof.
  intros H.
  assert (A : all_below 256 (fun ch =>
    eqb (isdigit ch) (between 48 57 ch) && eqb (isupper ch) (between 65 90 ch) &&
    eqb (islower ch) (between 97 122 ch) && eqb (isspace ch) (between 9 13 ch || (ch =? 32)))
    = true) by (vm_compute; reflexivity).
  pose proof (all_below_spec _ _ ch A H) as E. cbn beta in E.
  rewrite !andb_true_iff, !eqb_true_iff in E. destruct E as [[[? ?] ?] ?]. by split_and!.
Qed.

Lemma isdigit_digit d : 0 <= d < 10 -> isdigit (48 + d) = true.
Proof. intros H. destruct (ctype_classes (48 + d)) as [-> _]; [lia|]. unfold between. lia. Qed.
