(* ===== verification/LibcString.v ===== *)
(** Userland/LibC/string.c and strings.c over the bytes of the process.  A null pointer is
    [0]; a loop that walks a string has the size of memory as its fuel, which it cannot
    exhaust without leaving memory first. *)
From S2P Require Import Prelude LibcMemory.

Definition walk_fuel (m : bytes) : nat := S (size m).

(** ** Bytes *)

(** [Userland/LibC/string.c:265-266] the loop of memset *)
Fixpoint memset_loop (n : nat) (m : bytes) (dest fill : Z) : result bytes :=
  match n with
  | O => Ok m
  | S n => m ← store_byte m dest fill; memset_loop n m (dest + 1) fill
  end.

(** [Userland/LibC/string.c:260-269] memset *)
Definition memset (m : bytes) (dest ch count : Z) : result bytes :=
  memset_loop (Z.to_nat count) m dest (wrap8 ch).

(** [Userland/LibC/string.c:290-291] the loop of memcpy *)
Fixpoint memcpy_loop (n : nat) (m : bytes) (dest src : Z) : result bytes :=
  match n with
  | O => Ok m
  | S n =>
    b ← load_byte m src;
    m ← store_byte m dest b;
    memcpy_loop n m (dest + 1) (src + 1)
  end.

(** [Userland/LibC/string.c:286-294] memcpy *)
Definition memcpy (m : bytes) (dest src count : Z) : result bytes :=
  memcpy_loop (Z.to_nat count) m dest src.

(** [Userland/LibC/string.c:305-306] the loop of memmove: the pointers are moved down first *)
Fixpoint memmove_loop (n : nat) (m : bytes) (dest src : Z) : result bytes :=
  match n with
  | O => Ok m
  | S n =>
    b ← load_byte m (src - 1);
    m ← store_byte m (dest - 1) b;
    memmove_loop n m (dest - 1) (src - 1)
  end.

(** [Userland/LibC/string.c:296-312] memmove *)
Definition memmove (m : bytes) (dest src count : Z) : result bytes :=
  if src <? dest then memmove_loop (Z.to_nat count) m (dest + count) (src + count)
  else memcpy m dest src count.

(** [Userland/LibC/string.c:278-281] the loop of memcmp *)
Fixpoint memcmp_loop (n : nat) (m : bytes) (lhs rhs : Z) : result Z :=
  match n with
  | O => Ok 0
  | S n =>
    a ← load_byte m lhs;
    b ← load_byte m rhs;
    if negb (a =? b) then Ok (a - b) else memcmp_loop n m (lhs + 1) (rhs + 1)
  end.

(** [Userland/LibC/string.c:271-284] memcmp *)
Definition memcmp (m : bytes) (lhs rhs count : Z) : result Z :=
  memcmp_loop (Z.to_nat count) m lhs rhs.

(** [Userland/LibC/string.c:252-255] the loop of memchr *)
Fixpoint memchr_loop (n : nat) (m : bytes) (ptr byte : Z) : result Z :=
  match n with
  | O => Ok 0
  | S n =>
    b ← load_byte m ptr;
    if b =? byte then Ok ptr else memchr_loop n m (ptr + 1) byte
  end.

(** [Userland/LibC/string.c:247-258] memchr *)
Definition memchr (m : bytes) (ptr ch count : Z) : result Z :=
  memchr_loop (Z.to_nat count) m ptr (wrap8 ch).

(** [Userland/LibC/string.c:320-326] the loop of memccpy at offset [i]; the result does not
    move with the offset *)
Fixpoint memccpy_loop (n : nat) (m : bytes) (dest src c i : Z) : result (Z * bytes) :=
  match n with
  | O => Ok (0, m)
  | S n =>
    val ← load_byte m (src + i);
    m ← store_byte m (dest + i) val;
    if val =? c then Ok (dest + 1, m) else memccpy_loop n m dest src c (i + 1)
  end.

(** [Userland/LibC/string.c:314-329] memccpy *)
Definition memccpy (m : bytes) (dest src ch count : Z) : result (Z * bytes) :=
  memccpy_loop (Z.to_nat count) m dest src (wrap8 ch) 0.

(** ** Strings *)

(** [Userland/LibC/string.c:100-101] the loop of strlen *)
Fixpoint strlen_loop (fuel : nat) (m : bytes) (str len : Z) : result Z :=
  match fuel with
  | O => Fault OutOfFuel
  | S fuel =>
    c ← load_byte m str;
    if c =? 0 then Ok len else strlen_loop fuel m (str + 1) (len + 1)
  end.

(** [Userland/LibC/string.c:96-104] strlen *)
Definition strlen (m : bytes) (str : Z) : result Z := strlen_loop (walk_fuel m) m str 0.

(** [Userland/LibC/string.c:13-15] the loop of strcpy *)
Fixpoint strcpy_loop (fuel : nat) (m : bytes) (dest src : Z) : result bytes :=
  match fuel with
  | O => Fault OutOfFuel
  | S fuel =>
    c ← load_byte m src;
    m ← store_byte m dest c;
    c ← load_byte m src;
    if c =? 0 then Ok m else strcpy_loop fuel m (dest + 1) (src + 1)
  end.

(** [Userland/LibC/string.c:9-18] strcpy *)
Definition strcpy (m : bytes) (dest src : Z) : result bytes :=
  strcpy_loop (walk_fuel m) m dest src.

(** [Userland/LibC/string.c:23-24] the first loop of strncpy; the offset it stops at *)
Fixpoint strncpy_loop (n : nat) (m : bytes) (dest src i : Z) : result (Z * bytes) :=
  match n with
  | O => Ok (i, m)
  | S n =>
    c ← load_byte m src;
    if c =? 0 then Ok (i, m)
    else
      m ← store_byte m (dest + i) c;
      strncpy_loop n m dest (src + 1) (i + 1)
  end.

(** [Userland/LibC/string.c:20-30] strncpy *)
Definition strncpy (m : bytes) (dest src count : Z) : result bytes :=
  '(i, m) ← strncpy_loop (Z.to_nat count) m dest src 0;
  memset_loop (Z.to_nat (count - i)) m (dest + i) 0.

(** [Userland/LibC/string.c:37-38] the loop of strcat at index [i], writing at [dest + offset + i];
    the index of the null byte *)
Fixpoint strcat_loop (fuel : nat) (m : bytes) (dest src i : Z) : result (Z * bytes) :=
  match fuel with
  | O => Fault OutOfFuel
  | S fuel =>
    c ← load_byte m (src + i);
    if c =? 0 then Ok (i, m)
    else
      m ← store_byte m (dest + i) c;
      strcat_loop fuel m dest src (i + 1)
  end.

(** [Userland/LibC/string.c:32-42] strcat *)
Definition strcat (m : bytes) (dest src : Z) : result bytes :=
  offset ← strlen m dest;
  '(i, m) ← strcat_loop (walk_fuel m) m (dest + offset) src 0;
  store_byte m (dest + offset + i) 0.

(** [Userland/LibC/string.c:49-50] the loop of strncat: the byte is tested before the count *)
Fixpoint strncat_loop (fuel : nat) (m : bytes) (dest src i count : Z) : result (Z * bytes) :=
  match fuel with
  | O => Fault OutOfFuel
  | S fuel =>
    c ← load_byte m (src + i);
    if negb (c =? 0) && (i <? count) then
      m ← store_byte m (dest + i) c;
      strncat_loop fuel m dest src (i + 1) count
    else Ok (i, m)
  end.

(** [Userland/LibC/string.c:44-54] strncat *)
Definition strncat (m : bytes) (dest src count : Z) : result bytes :=
  offset ← strlen m dest;
  '(i, m) ← strncat_loop (walk_fuel m) m (dest + offset) src 0 count;
  store_byte m (dest + offset + i) 0.

(** [Userland/LibC/string.c:56-72] strxfrm *)
Definition strxfrm (m : bytes) (dest src count : Z) : result (Z * bytes) :=
  bytes_needed ← strlen m src;
  if dest =? 0 then Ok (bytes_needed, m)
  else
    let i := Z.min count bytes_needed in
    m ← memcpy_loop (Z.to_nat i) m dest src;
    m ← store_byte m (dest + i) 0;
    Ok (bytes_needed, m).

(** [Userland/LibC/string.c:112-117] the loop of strcmp *)
Fixpoint strcmp_loop (fuel : nat) (m : bytes) (lhs rhs : Z) : result Z :=
  match fuel with
  | O => Fault OutOfFuel
  | S fuel =>
    a ← load_byte m lhs;
    if a =? 0 then b ← load_byte m rhs; Ok (a - b)
    else
      b ← load_byte m rhs;
      if b =? 0 then Ok (a - b)
      else if negb (a =? b) then Ok (a - b)
      else strcmp_loop fuel m (lhs + 1) (rhs + 1)
  end.

(** [Userland/LibC/string.c:106-120] strcmp *)
Definition strcmp (m : bytes) (lhs rhs : Z) : result Z := strcmp_loop (walk_fuel m) m lhs rhs.

(** [Userland/LibC/string.c:144-147] strcoll *)
Definition strcoll (m : bytes) (lhs rhs : Z) : result Z := strcmp m lhs rhs.

(** [Userland/LibC/string.c:131-141] the loop of strncmp and what follows it; [f] maps the
    characters that are compared, and the count is tested after both bytes *)
Fixpoint strncmp_loop (fuel : nat) (f : Z -> Z) (m : bytes) (lhs rhs i count : Z) : result Z :=
  match fuel with
  | O => Fault OutOfFuel
  | S fuel =>
    let stop i :=
      let i := if i =? count then i - 1 else i in
      a ← load_byte m (lhs + i);
      b ← load_byte m (rhs + i);
      Ok (f a - f b) in
    a ← load_byte m (lhs + i);
    if a =? 0 then stop i
    else
      b ← load_byte m (rhs + i);
      if b =? 0 then stop i
      else if negb (i <? count) then stop i
      else if negb (f a =? f b) then Ok (f a - f b)
      else strncmp_loop fuel f m lhs rhs (i + 1) count
  end.

(** [Userland/LibC/string.c:122-142] strncmp *)
Definition strncmp (m : bytes) (lhs rhs count : Z) : result Z :=
  if count =? 0 then Ok 0 else strncmp_loop (walk_fuel m) (fun c => c) m lhs rhs 0 count.

(** [Userland/LibC/string.c:153-160] the loop of strchr *)
Fixpoint strchr_loop (fuel : nat) (m : bytes) (str c : Z) : result Z :=
  match fuel with
  | O => Fault OutOfFuel
  | S fuel =>
    b ← load_byte m str;
    if b =? c then Ok str
    else if b =? 0 then Ok 0
    else strchr_loop fuel m (str + 1) c
  end.

(** [Userland/LibC/string.c:149-161] strchr *)
Definition strchr (m : bytes) (str ch : Z) : result Z :=
  strchr_loop (walk_fuel m) m str (wrap8 ch).

(** [Userland/LibC/string.c:168-175] the loop of strrchr *)
Fixpoint strrchr_loop (fuel : nat) (m : bytes) (str c pos : Z) : result Z :=
  match fuel with
  | O => Fault OutOfFuel
  | S fuel =>
    b ← load_byte m str;
    let pos := if b =? c then str else pos in
    if b =? 0 then Ok pos else strrchr_loop fuel m (str + 1) c pos
  end.

(** [Userland/LibC/string.c:163-176] strrchr *)
Definition strrchr (m : bytes) (str ch : Z) : result Z :=
  strrchr_loop (walk_fuel m) m str (wrap8 ch) 0.

(** [Userland/LibC/string.c:180-184] the table of string_span: the characters of a string *)
Fixpoint span_table (fuel : nat) (m : bytes) (src : Z) (table : list Z) : result (list Z) :=
  match fuel with
  | O => Fault OutOfFuel
  | S fuel =>
    c ← load_byte m src;
    if c =? 0 then Ok table
    else table ← write_at table c 1; span_table fuel m (src + 1) table
  end.

(** [Userland/LibC/string.c:186-194] the loop of string_span; where it stops, if before the end *)
Fixpoint span_loop (fuel : nat) (m : bytes) (dest : Z) (table : list Z) (flag count : Z)
  : result (Z * Z) :=
  match fuel with
  | O => Fault OutOfFuel
  | S fuel =>
    c ← load_byte m dest;
    if c =? 0 then Ok (count, 0)
    else
      t ← read_at table c;
      if t =? flag then span_loop fuel m (dest + 1) table flag (count + 1) else Ok (count, dest)
  end.

(** [Userland/LibC/string.c:178-197] string_span: the count and what is stored through out_ptr *)
Definition string_span (m : bytes) (dest src flag : Z) : result (Z * Z) :=
  table ← span_table (walk_fuel m) m src (replicate 256 0);
  span_loop (walk_fuel m) m dest table flag 0.

(** [Userland/LibC/string.c:199-202] strspn *)
Definition strspn (m : bytes) (dest src : Z) : result Z :=
  '(n, _) ← string_span m dest src 1; Ok n.

(** [Userland/LibC/string.c:204-207] strcspn *)
Definition strcspn (m : bytes) (dest src : Z) : result Z :=
  '(n, _) ← string_span m dest src 0; Ok n.

(** [Userland/LibC/string.c:209-214] strpbrk *)
Definition strpbrk (m : bytes) (dest breakset : Z) : result Z :=
  '(_, p) ← string_span m dest breakset 0; Ok p.

(** [Userland/LibC/string.c:230-235] the inner loop of strstr: how many characters match *)
Fixpoint strstr_match (n : nat) (m : bytes) (str substr k : Z) : result Z :=
  match n with
  | O => Ok k
  | S n =>
    a ← load_byte m str;
    b ← load_byte m (substr + k);
    if negb (a =? b) then Ok k else strstr_match n m (str + 1) substr (k + 1)
  end.

(** [Userland/LibC/string.c:226-242] the outer loop of strstr *)
Fixpoint strstr_loop (n : nat) (m : bytes) (str substr substr_len : Z) : result Z :=
  match n with
  | O => Ok 0
  | S n =>
    a ← load_byte m str;
    b ← load_byte m substr;
    if negb (a =? b) then strstr_loop n m (str + 1) substr substr_len
    else
      k ← strstr_match (Z.to_nat substr_len) m str substr 0;
      if k =? substr_len then Ok str else strstr_loop n m (str + 1) substr substr_len
  end.

(** [Userland/LibC/string.c:216-245] strstr *)
Definition strstr (m : bytes) (str substr : Z) : result Z :=
  src_len ← strlen m str;
  substr_len ← strlen m substr;
  if substr_len >? src_len then Ok 0
  else if substr_len =? 0 then Ok str
  else strstr_loop (Z.to_nat (src_len - substr_len + 1)) m str substr substr_len.

(** ** strings.c *)

(** [Userland/LibC/strings.c:11-14] the loop of bcmp *)
Fixpoint bcmp_loop (n : nat) (m : bytes) (lhs rhs : Z) : result Z :=
  match n with
  | O => Ok 0
  | S n =>
    a ← load_byte m lhs;
    b ← load_byte m rhs;
    if negb (a =? b) then Ok 1 else bcmp_loop n m (lhs + 1) (rhs + 1)
  end.

(** [Userland/LibC/strings.c:6-17] bcmp *)
Definition bcmp (m : bytes) (lhs rhs size : Z) : result Z := bcmp_loop (Z.to_nat size) m lhs rhs.

(** [Userland/LibC/strings.c:19-22] bcopy *)
Definition bcopy (m : bytes) (src dest count : Z) : result bytes := memmove m dest src count.

(** [Userland/LibC/strings.c:24-27] bzero *)
Definition bzero (m : bytes) (dest count : Z) : result bytes := memset m dest 0 count.

(** [Userland/LibC/strings.c:40-43] index *)
Definition index (m : bytes) (src number : Z) : result Z := strchr m src number.

(** [Userland/LibC/strings.c:45-48] rindex *)
Definition rindex (m : bytes) (src number : Z) : result Z := strrchr m src number.

(** [Userland/LibC/strings.c:54-62] the loop of strcasecmp and what follows it *)
Fixpoint strcasecmp_loop (fuel : nat) (m : bytes) (lhs rhs : Z) : result Z :=
  match fuel with
  | O => Fault OutOfFuel
  | S fuel =>
    a ← load_byte m lhs;
    b ← load_byte m rhs;
    if (a =? 0) || (b =? 0) then Ok (tolower a - tolower b)
    else if negb (tolower a =? tolower b) then Ok (tolower a - tolower b)
    else strcasecmp_loop fuel m (lhs + 1) (rhs + 1)
  end.

(** [Userland/LibC/strings.c:50-65] strcasecmp *)
Definition strcasecmp (m : bytes) (lhs rhs : Z) : result Z :=
  strcasecmp_loop (walk_fuel m) m lhs rhs.

(** [Userland/LibC/strings.c:67-88] strncasecmp *)
Definition strncasecmp (m : bytes) (lhs rhs count : Z) : result Z :=
  if count =? 0 then Ok 0 else strncmp_loop (walk_fuel m) tolower m lhs rhs 0 count.
