(* ===== verification/LibcStringCorrect.v ===== *)
(** What Userland/LibC/string.c promises: copies whatever the overlap, the order of strings
    and the searches, each against the definition on lists of characters. *)
From S2P Require Import Prelude LibcMemory LibcString.

(** ** Copies *)

Lemma memset_loop_Ok n m dest b :
  accessible_bytes m dest n ->
  exists m', memset_loop n m dest b = Ok m' /\ holds m' dest (replicate n b) /\
    frame m m' dest (Z.of_nat n).
Proof.
  revert m dest. induction n as [|n IH]; intros m dest H; simpl; [by exists m|].
  rewrite store_byte_Ok by eauto with kernel. run.
  destruct (IH (<[dest := b]> m) (dest + 1)) as (m' & -> & Hh & Hf); [eauto with kernel|].
  exists m'. split_and!; [done| |done|].
  - rewrite Hf by lia. by rewrite lookup_insert_eq.
  - intros i Hi. rewrite Hf by lia. by rewrite lookup_insert_ne by lia.
Qed.

Lemma memcpy_loop_Ok l m dest src :
  holds m src l -> accessible_bytes m dest (length l) ->
  dest <= src \/ src + Z.of_nat (length l) <= dest ->
  exists m', memcpy_loop (length l) m dest src = Ok m' /\ holds m' dest l /\
    frame m m' dest (Z.of_nat (length l)).
Proof.
  revert m dest src. induction l as [|b l IH]; intros m dest src H Ha Hd; [by exists m|].
  cbn [length] in *. destruct H as [H H']. cbn [memcpy_loop].
  rewrite (load_byte_Ok _ _ b) by done. run. rewrite store_byte_Ok by eauto with kernel. run.
  destruct (IH (<[dest := b]> m) (dest + 1) (src + 1)) as (m' & -> & Hh & Hf).
  - eapply frame_holds; [apply frame_insert| |done]. lia.
  - eauto with kernel.
  - lia.
  - exists m'. split_and!; [done| |].
    + split; [|done]. rewrite Hf by lia. by rewrite lookup_insert_eq.
    + intros i Hi. rewrite Hf by lia. by rewrite lookup_insert_ne by lia.
Qed.

Lemma memmove_loop_Ok l m dest src :
  holds m src l -> accessible_bytes m dest (length l) -> src <= dest ->
  exists m', memmove_loop (length l) m (dest + Z.of_nat (length l)) (src + Z.of_nat (length l)) = Ok m' /\
    holds m' dest l /\ frame m m' dest (Z.of_nat (length l)).
Proof.
  revert m. induction l as [|b l IH] using rev_ind; intros m H Ha Hd; [by exists m|].
  rewrite length_app in *. simpl length in *. apply holds_app in H as [H [Hb _]].
  rewrite Nat.add_1_r in *. cbn [memmove_loop].
  replace (src + Z.of_nat (S (length l)) - 1) with (src + Z.of_nat (length l)) by lia.
  replace (dest + Z.of_nat (S (length l)) - 1) with (dest + Z.of_nat (length l)) by lia.
  rewrite (load_byte_Ok _ _ b) by done. run. rewrite store_byte_Ok by (apply Ha; lia). run.
  set (m1 := <[_ := b]> m).
  assert (Hf1 : frame m m1 (dest + Z.of_nat (length l)) 1) by apply frame_insert.
  assert (Ha1 : accessible_bytes m1 dest (S (length l))) by (by apply accessible_insert).
  destruct (IH m1) as (m' & -> & Hh & Hf); [|intros i Hi; apply Ha1; lia|lia|].
  { eapply frame_holds; [done| |done]. lia. }
  exists m'. split_and!; [done| |].
  - apply holds_app. split; [done|]. split; [|done]. rewrite Hf by lia. apply lookup_insert_eq.
  - intros i Hi. rewrite Hf by lia. apply Hf1. lia.
Qed.

Lemma memmove_Ok l m dest src :
  holds m src l -> accessible_bytes m dest (length l) ->
  exists m', memmove m dest src (Z.of_nat (length l)) = Ok m' /\ holds m' dest l /\
    frame m m' dest (Z.of_nat (length l)).
Proof.
  intros H Ha. unfold memmove, memcpy. rewrite Nat2Z.id. destruct (Z.ltb_spec src dest).
  - apply memmove_loop_Ok; [done|done|lia].
  - apply memcpy_loop_Ok; [done|done|lia].
Qed.

Lemma strlen_loop_Ok s m a n fuel :
  cstring m a s -> (length s < fuel)%nat ->
  strlen_loop fuel m a n = Ok (n + Z.of_nat (length s)).
Proof.
  revert a n fuel. induction s as [|c s IH]; intros a n fuel H Hf; (destruct fuel as [|fuel]; [lia|]);
    cbn [strlen_loop].
  - apply cstring_nil in H. rewrite (load_byte_Ok _ _ 0) by done. run. simpl. f_equal. lia.
  - apply cstring_cons in H as (H & Hc & H'). rewrite (load_byte_Ok _ _ c) by done. run.
    rewrite (proj2 (Z.eqb_neq _ _)) by lia. simpl length in *. rewrite IH by (done || lia). f_equal. lia.
Qed.

Lemma strlen_Ok m a s : cstring m a s -> strlen m a = Ok (Z.of_nat (length s)).
Proof.
  intros H. unfold strlen. rewrite (strlen_loop_Ok s) by (done || (unfold walk_fuel; apply cstring_size in H; lia)).
  done.
Qed.

(** The loops of strcpy, strcat and strncpy are the copy of a string up to its end. *)
Lemma cstring_bytes m a s : cstring m a s -> holds m a (s ++ [0]).
Proof. by intros []. Qed.

Lemma strcpy_loop_memcpy s fuel m dest src :
  cstring m src s -> (length s < fuel)%nat -> accessible_bytes m dest (S (length s)) ->
  dest < src \/ src + Z.of_nat (length s) < dest ->
  strcpy_loop fuel m dest src = memcpy_loop (S (length s)) m dest src.
Proof.
  revert fuel m dest src. induction s as [|c s IH]; intros fuel m dest src H Hf Ha Hd;
    (destruct fuel as [|fuel]; [lia|]); cbn [length] in *; cbn [strcpy_loop].
  - apply cstring_nil in H. cbn [memcpy_loop]. rewrite (load_byte_Ok _ _ 0) by done. run.
    rewrite store_byte_Ok by (apply Ha; lia). run.
    rewrite (load_byte_Ok _ _ 0); [done|]. rewrite lookup_insert_ne by lia. done.
  - apply cstring_cons in H as (H & Hc & H'). cbn [memcpy_loop].
    rewrite (load_byte_Ok _ _ c) by done. run. rewrite store_byte_Ok by (apply Ha; lia). run.
    rewrite (load_byte_Ok _ _ c) by (rewrite lookup_insert_ne by lia; done). run.
    rewrite (proj2 (Z.eqb_neq _ _)) by lia. apply IH; [|lia|eauto with kernel|lia].
    eapply cstring_frame; [apply frame_insert| |done]. lia.
Qed.

Lemma strcat_loop_Ok s fuel m dest src i :
  0 <= i -> cstring m (src + i) s -> (length s < fuel)%nat ->
  accessible_bytes m (dest + i) (length s) ->
  dest < src \/ src + i + Z.of_nat (length s) < dest + i ->
  strcat_loop fuel m dest src i =
    (m' ← memcpy_loop (length s) m (dest + i) (src + i); Ok (i + Z.of_nat (length s), m')).
Proof.
  revert fuel m i. induction s as [|c s IH]; intros fuel m i Hi H Hf Ha Hd;
    (destruct fuel as [|fuel]; [lia|]); cbn [length] in *; cbn [strcat_loop memcpy_loop].
  - apply cstring_nil in H. rewrite (load_byte_Ok _ _ 0) by done. run. simpl.
    by rewrite Z.add_0_r.
  - apply cstring_cons in H as (H & Hc & H'). rewrite (load_byte_Ok _ _ c) by done. run.
    rewrite (proj2 (Z.eqb_neq _ _)) by lia. rewrite store_byte_Ok by (apply Ha; lia). run.
    rewrite IH; [|lia| |lia| |lia].
    + rewrite !Z.add_assoc. replace (i + 1 + Z.of_nat (length s)) with (i + Z.of_nat (S (length s))) by lia.
      done.
    + rewrite Z.add_assoc. eapply cstring_frame; [apply frame_insert| |done]. lia.
    + rewrite Z.add_assoc. eauto with kernel.
Qed.

Lemma strncpy_loop_Ok s n m dest src i :
  0 <= i -> cstring m src s -> accessible_bytes m (dest + i) (Nat.min n (length s)) ->
  n = 0%nat \/ dest + i < src \/ src + Z.of_nat (length s) < dest + i ->
  strncpy_loop n m dest src i =
    (m' ← memcpy_loop (Nat.min n (length s)) m (dest + i) src;
     Ok (i + Z.of_nat (Nat.min n (length s)), m')).
Proof.
  revert n m src i. induction s as [|c s IH]; intros n m src i Hi H Ha Hd;
    (destruct n as [|n]; [simpl; by rewrite Z.add_0_r|]); cbn [length Nat.min] in *;
    cbn [strncpy_loop memcpy_loop].
  - apply cstring_nil in H. rewrite (load_byte_Ok _ _ 0) by done. run. simpl. by rewrite Z.add_0_r.
  - apply cstring_cons in H as (H & Hc & H'). rewrite (load_byte_Ok _ _ c) by done. run.
    rewrite (proj2 (Z.eqb_neq _ _)) by lia. rewrite store_byte_Ok by (apply Ha; lia). run.
    rewrite IH; [|lia| | |lia].
    + rewrite !Z.add_assoc.
      replace (i + 1 + Z.of_nat (Nat.min n (length s))) with (i + Z.of_nat (S (Nat.min n (length s)))) by lia.
      done.
    + eapply cstring_frame; [apply frame_insert| |done]. lia.
    + rewrite Z.add_assoc. eauto with kernel.
Qed.

(** Two buffers that do not overlap. *)
Definition apart (a n b k : Z) : Prop := a + n <= b \/ b + k <= a.

Lemma strcpy_Ok m dest src s :
  cstring m src s -> accessible_bytes m dest (S (length s)) ->
  apart dest (Z.of_nat (S (length s))) src (Z.of_nat (S (length s))) ->
  exists m', strcpy m dest src = Ok m' /\ cstring m' dest s /\
    frame m m' dest (Z.of_nat (S (length s))).
Proof.
  intros H Ha Hd. unfold apart in Hd. unfold strcpy.
  rewrite (strcpy_loop_memcpy s) by (done || lia || (unfold walk_fuel; apply cstring_size in H; lia)).
  destruct (memcpy_loop_Ok (s ++ [0]) m dest src) as (m' & E & Hh & Hf).
  - apply H.
  - rewrite length_app. simpl. by rewrite Nat.add_1_r.
  - rewrite length_app. simpl. lia.
  - rewrite length_app in E, Hf. simpl in E, Hf. rewrite Nat.add_1_r in E, Hf.
    exists m'. split; [done|]. split; [split; [done|apply H]|done].
Qed.

Lemma strcat_Ok m dest src d s :
  cstring m dest d -> cstring m src s ->
  accessible_bytes m dest (S (length d + length s)) ->
  apart dest (Z.of_nat (S (length d + length s))) src (Z.of_nat (S (length s))) ->
  exists m', strcat m dest src = Ok m' /\ cstring m' dest (d ++ s) /\
    frame m m' dest (Z.of_nat (S (length d + length s))).
Proof.
  intros Hd Hs Ha Hap. unfold apart in Hap. unfold strcat. rewrite (strlen_Ok _ _ d) by done. run.
  rewrite (strcat_loop_Ok s); [|lia|by rewrite Z.add_0_r|unfold walk_fuel; apply cstring_size in Hs; lia|
    intros i Hi; apply Ha; lia|lia].
  rewrite !Z.add_0_r. destruct (memcpy_loop_Ok s m (dest + Z.of_nat (length d)) src) as (m1 & -> & Hh & Hf).
  - apply cstring_bytes, holds_app in Hs. apply Hs.
  - intros i Hi. apply Ha. lia.
  - lia.
  - run. rewrite Z.add_0_l. assert (Hacc : accessible_bytes m1 dest (S (length d + length s))).
    { intros i Hi. destruct (decide (dest + Z.of_nat (length d) <= i < dest + Z.of_nat (length d + length s))).
      - apply (holds_accessible _ _ _ Hh). lia.
      - rewrite Hf by lia. apply Ha. lia. }
    rewrite store_byte_Ok by (apply Hacc; lia). eexists. split; [done|].
    set (e := dest + Z.of_nat (length d) + Z.of_nat (length s)).
    split; [split|].
    + rewrite <- app_assoc. apply holds_app. split.
      * eapply frame_holds; [apply frame_insert|lia|]. eapply frame_holds; [done|lia|].
        apply cstring_bytes, holds_app in Hd. apply Hd.
      * apply holds_app. split; [eapply frame_holds; [apply frame_insert|lia|done]|].
        split; [apply lookup_insert_eq|done].
    + apply Forall_app. split; [apply Hd|apply Hs].
    + intros i Hi. rewrite lookup_insert_ne by lia. apply Hf. lia.
Qed.

Lemma strncpy_Ok m dest src s count :
  0 <= count -> cstring m src s -> accessible_bytes m dest (Z.to_nat count) ->
  apart dest count src (Z.of_nat (S (length s))) ->
  exists m', strncpy m dest src count = Ok m' /\
    holds m' dest (take (Z.to_nat count) (s ++ replicate (Z.to_nat count - length s) 0)) /\
    frame m m' dest count.
Proof.
  intros Hc Hs Ha Hap. unfold apart in Hap. unfold strncpy.
  set (n := Z.to_nat count) in *. set (k := Nat.min n (length s)).
  rewrite (strncpy_loop_Ok s); [|lia|done|intros i Hi; apply Ha; lia|lia].
  fold k. rewrite Z.add_0_r, Z.add_0_l.
  assert (Hk : length (take k s) = k) by (rewrite length_take; lia).
  destruct (memcpy_loop_Ok (take k s) m dest src) as (m1 & E & Hh & Hf).
  - apply cstring_bytes, holds_app in Hs as [Hs _]. rewrite <- (take_drop k s) in Hs.
    by apply holds_app in Hs as [? _].
  - rewrite Hk. intros i Hi. apply Ha. lia.
  - rewrite Hk. lia.
  - rewrite Hk in E, Hf. rewrite E. run.
    replace (Z.to_nat (count - Z.of_nat k)) with (n - k)%nat by lia.
    destruct (memset_loop_Ok (n - k) m1 (dest + Z.of_nat k) 0) as (m2 & -> & Hh2 & Hf2).
    { intros i Hi. rewrite Hf by lia. apply Ha. lia. }
    exists m2. split; [done|]. split.
    + replace (take n (s ++ replicate (n - length s) 0)) with (take k s ++ replicate (n - k) 0).
      * apply holds_app. rewrite Hk. split; [|done].
        eapply frame_holds; [done| |done]. rewrite Hk. lia.
      * rewrite take_app. rewrite take_replicate. unfold k.
        destruct (decide (n <= length s)%nat).
        -- rewrite Nat.min_l by lia. replace (n - n)%nat with 0%nat by lia.
           by replace (Nat.min (n - length s) (n - length s)) with 0%nat by lia.
        -- rewrite Nat.min_r by lia. rewrite !take_ge by lia.
           by replace (Nat.min (n - length s) (n - length s)) with (n - length s)%nat by lia.
    + intros i Hi. rewrite Hf2 by lia. apply Hf. lia.
Qed.

(** ** Comparisons *)

(** The difference of the first characters that differ, the end counting as zero. *)
Fixpoint diff (s t : list Z) : Z :=
  match s, t with
  | [], [] => 0
  | [], b :: _ => 0 - b
  | a :: _, [] => a - 0
  | a :: s, b :: t => if a =? b then diff s t else a - b
  end.

(** The lexicographic order. *)
Inductive string_lt : list Z -> list Z -> Prop :=
  | lt_end b t : string_lt [] (b :: t)
  | lt_here a b s t : a < b -> string_lt (a :: s) (b :: t)
  | lt_later a s t : string_lt s t -> string_lt (a :: s) (a :: t).

Lemma diff_order s t :
  Forall (fun c => 0 < c) s -> Forall (fun c => 0 < c) t ->
  (diff s t = 0 <-> s = t) /\ (diff s t < 0 <-> string_lt s t) /\ (0 < diff s t <-> string_lt t s).
Proof.
  intros Hs. revert t. induction Hs as [|a s Ha Hs IH]; intros t Ht.
  - destruct Ht as [|b t Hb Ht]; simpl.
    + split_and!; (split; [intros; try lia; done|intros H; try done; inversion H]).
    + split_and!; (split; [intros; try lia; try constructor|intros H; try done; try inversion H; try lia]).
  - destruct Ht as [|b t Hb Ht]; simpl.
    + split_and!; (split; [intros; try lia; try constructor|intros H; try done; try inversion H; try lia]).
    + destruct (Z.eqb_spec a b) as [->|Hab].
      * destruct (IH t Ht) as (E & L & G). rewrite E, L, G.
        split_and!; (split; [intros; subst; try done; by apply lt_later|]).
        -- by intros [= ->].
        -- intros H. inversion H; subst; [lia|done].
        -- intros H. inversion H; subst; [lia|done].
      * split_and!; (split; [intros; try lia; apply lt_here; lia|]).
        -- by intros [= -> _].
        -- intros H. inversion H; subst; [lia|done].
        -- intros H. inversion H; subst; [lia|done].
Qed.

Lemma strcmp_loop_Ok s t fuel m lhs rhs :
  cstring m lhs s -> cstring m rhs t -> (length s < fuel)%nat ->
  strcmp_loop fuel m lhs rhs = Ok (diff s t).
Proof.
  revert t fuel lhs rhs. induction s as [|a s IH]; intros t fuel lhs rhs Hs Ht Hf;
    (destruct fuel as [|fuel]; [lia|]); cbn [strcmp_loop].
  - apply cstring_nil in Hs. rewrite (load_byte_Ok m lhs 0) by done. run. rewrite Z.eqb_refl.
    destruct t as [|b t]; [apply cstring_nil in Ht|apply cstring_cons in Ht as (Ht & _)];
      erewrite load_byte_Ok by done; done.
  - apply cstring_cons in Hs as (Ha & Hca & Hs). rewrite (load_byte_Ok m lhs a) by done. run.
    rewrite (proj2 (Z.eqb_neq _ _)) by lia. cbn [length] in Hf. destruct t as [|b t].
    + apply cstring_nil in Ht. by rewrite (load_byte_Ok m rhs 0) by done.
    + apply cstring_cons in Ht as (Hb & Hcb & Ht). rewrite (load_byte_Ok m rhs b) by done. run.
      rewrite (proj2 (Z.eqb_neq b 0)) by lia. simpl. destruct (a =? b); simpl; [|done].
      apply IH; [done|done|lia].
Qed.

Section strncmp.
Context (f : Z -> Z) (m : bytes) (lhs rhs count : Z).
Hypothesis Hf0 : f 0 = 0.

(** The characters before index [i] were equal. *)
Definition equal_before (i : Z) : Prop :=
  exists a b, m !! (lhs + (i - 1)) = Some a /\ m !! (rhs + (i - 1)) = Some b /\ f a = f b.

Lemma strncmp_loop_Ok s t fuel i :
  cstring m (lhs + i) s -> cstring m (rhs + i) t -> (length s < fuel)%nat ->
  0 <= i <= count -> (i = 0 -> 0 < count) -> (0 < i -> equal_before i) ->
  strncmp_loop fuel f m lhs rhs i count =
    Ok (diff (f <$> take (Z.to_nat (count - i)) s) (f <$> take (Z.to_nat (count - i)) t)).
Proof using Hf0.
  revert t fuel i. induction s as [|a s IH]; intros t fuel i Hs Ht Hfu Hi H0 Hb;
    (destruct fuel as [|fuel]; [lia|]); cbn [strncmp_loop];
    (destruct (decide (i = count)) as [->|Hne];
     [destruct Hb as (a' & b' & Ea & Eb & Ef); [lia|];
      rewrite Z.eqb_refl, Z.ltb_irrefl; rewrite (load_byte_Ok m (lhs + (count - 1)) a'), (load_byte_Ok m (rhs + (count - 1)) b') by done;
      run; rewrite Z.sub_diag; cbn [Z.to_nat take fmap list_fmap diff negb]; rewrite Ef, Z.sub_diag|
      rewrite (proj2 (Z.eqb_neq i count)) by lia; rewrite (proj2 (Z.ltb_lt i count)) by lia;
      replace (Z.to_nat (count - i)) with (S (Z.to_nat (count - (i + 1)))) by lia]).
  - apply cstring_nil in Hs. by rewrite (load_byte_Ok m (lhs + count) 0) by done.
  - apply cstring_nil in Hs. rewrite !(load_byte_Ok m (lhs + i) 0) by done. run. simpl.
    destruct t as [|b t]; [apply cstring_nil in Ht|apply cstring_cons in Ht as (Ht & _)];
      erewrite load_byte_Ok by done; run; cbn [fmap list_fmap diff]; by rewrite ?Hf0.
  - apply cstring_cons in Hs as (Ha & Hca & Hs). rewrite (load_byte_Ok m (lhs + count) a) by done. run.
    rewrite (proj2 (Z.eqb_neq _ _)) by lia. destruct t as [|b t];
      [apply cstring_nil in Ht|apply cstring_cons in Ht as (Ht & _)]; erewrite load_byte_Ok by done; run;
      [done|by destruct (b =? 0)].
  - apply cstring_cons in Hs as (Ha & Hca & Hs). rewrite !(load_byte_Ok m (lhs + i) a) by done. run.
    rewrite (proj2 (Z.eqb_neq _ _)) by lia. cbn [length] in Hfu. destruct t as [|b t].
    + apply cstring_nil in Ht. rewrite !(load_byte_Ok m (rhs + i) 0) by done. run. simpl. by rewrite Hf0.
    + apply cstring_cons in Ht as (Hb' & Hcb & Ht). rewrite !(load_byte_Ok m (rhs + i) b) by done. run.
      rewrite (proj2 (Z.eqb_neq b 0)) by lia. cbn [negb take fmap list_fmap diff].
      destruct (Z.eqb_spec (f a) (f b)); simpl; [|done].
      apply IH; [by rewrite Z.add_assoc|by rewrite Z.add_assoc|lia|lia|lia|].
      intros _. exists a, b. by replace (i + 1 - 1) with i by lia.
Qed.
End strncmp.

Lemma strncmp_loop_start f m lhs rhs count s t :
  f 0 = 0 -> 0 < count -> cstring m lhs s -> cstring m rhs t ->
  strncmp_loop (walk_fuel m) f m lhs rhs 0 count =
    Ok (diff (f <$> take (Z.to_nat count) s) (f <$> take (Z.to_nat count) t)).
Proof.
  intros Hf Hc Hs Ht. rewrite (strncmp_loop_Ok f m lhs rhs count Hf s t); rewrite ?Z.add_0_r, ?Z.sub_0_r; try lia.
  - done.
  - done.
  - done.
  - unfold walk_fuel. apply cstring_size in Hs. lia.
Qed.

Lemma memcmp_loop_Ok l k m lhs rhs :
  holds m lhs l -> holds m rhs k -> length l = length k ->
  memcmp_loop (length l) m lhs rhs = Ok (diff l k).
Proof.
  revert k lhs rhs. induction l as [|a l IH]; intros k lhs rhs Hl Hk Hlen; destruct k as [|b k]; try done.
  cbn [length] in *. destruct Hl as [Ha Hl], Hk as [Hb Hk]. cbn [memcmp_loop].
  rewrite (load_byte_Ok m lhs a), (load_byte_Ok m rhs b) by done. run. simpl.
  destruct (a =? b); simpl; [|done]. apply IH; [done|done|lia].
Qed.

(** ** Searches *)

(** [p] is the address, from [a], of the first of [n] indices with [P], or null. *)
Definition search_result (a : Z) (n : nat) (P : nat -> Prop) (p : Z) : Prop :=
  (exists i, (i < n)%nat /\ P i /\ (forall j, (j < i)%nat -> ~ P j) /\ p = a + Z.of_nat i) \/
  (p = 0 /\ forall i, (i < n)%nat -> ~ P i).

Lemma search_here a n (P : nat -> Prop) : P 0%nat -> search_result a (S n) P a.
Proof. intros H. left. exists 0%nat. split_and!; [lia|done|lia|lia]. Qed.

Lemma search_next a n (P : nat -> Prop) p :
  ~ P 0%nat -> search_result (a + 1) n (fun i => P (S i)) p -> search_result a (S n) P p.
Proof.
  intros H0 [(i & Hi & HP & Hj & ->)|[-> Hn]]; [left; exists (S i)|right]; split_and!; try lia; try done.
  - intros [|j] Hlt; [done|]. apply Hj. lia.
  - intros [|i] Hlt; [done|]. apply Hn. lia.
Qed.

Lemma search_none a (P : nat -> Prop) : search_result a 0 P 0.
Proof. right. split; [done|lia]. Qed.

#[local] Hint Resolve search_here search_next search_none : core.

Lemma strchr_loop_Ok s fuel m a c :
  cstring m a s -> (length s < fuel)%nat ->
  exists p, strchr_loop fuel m a c = Ok p /\
    search_result a (S (length s)) (fun i => (s ++ [0]) !! i = Some c) p.
Proof.
  revert fuel a. induction s as [|b s IH]; intros fuel a H Hf; (destruct fuel as [|fuel]; [lia|]);
    cbn [strchr_loop].
  - apply cstring_nil in H. rewrite (load_byte_Ok m a 0) by done. run. simpl length.
    destruct (Z.eqb_spec 0 c) as [<-|]; eexists; (split; [done|]).
    + by apply search_here.
    + apply search_next; [simpl; congruence|]. apply search_none.
  - apply cstring_cons in H as (H & Hc & H'). rewrite (load_byte_Ok m a b) by done. run.
    cbn [length] in *. destruct (Z.eqb_spec b c) as [->|].
    + exists a. split; [done|]. by apply search_here.
    + rewrite (proj2 (Z.eqb_neq _ _)) by lia. destruct (IH fuel (a + 1)) as (p & -> & Hp); [done|lia|].
      exists p. split; [done|]. apply search_next; [simpl; congruence|done].
Qed.

Lemma memchr_loop_Ok l m a c :
  holds m a l ->
  exists p, memchr_loop (length l) m a c = Ok p /\
    search_result a (length l) (fun i => l !! i = Some c) p.
Proof.
  revert a. induction l as [|b l IH]; intros a H; cbn [memchr_loop length]; [eauto|].
  destruct H as [H H']. rewrite (load_byte_Ok m a b) by done. run.
  destruct (Z.eqb_spec b c) as [->|]; [exists a; split; [done|]; by apply search_here|].
  destruct (IH (a + 1)) as (p & -> & Hp); [done|]. exists p. split; [done|].
  apply search_next; [simpl; congruence|done].
Qed.

(** The last occurrence. *)
Definition last_result (a : Z) (l : list Z) (c p otherwise : Z) : Prop :=
  (exists i, l !! i = Some c /\ (forall j, (i < j)%nat -> l !! j <> Some c) /\ p = a + Z.of_nat i) \/
  (p = otherwise /\ c ∉ l).

Lemma strrchr_loop_Ok s fuel m a c pos :
  cstring m a s -> (length s < fuel)%nat ->
  exists p, strrchr_loop fuel m a c pos = Ok p /\ last_result a (s ++ [0]) c p pos.
Proof.
  revert fuel a pos. induction s as [|b s IH]; intros fuel a pos H Hf; (destruct fuel as [|fuel]; [lia|]);
    cbn [strrchr_loop].
  - apply cstring_nil in H. rewrite (load_byte_Ok m a 0) by done. run. eexists. split; [done|].
    destruct (Z.eqb_spec 0 c) as [<-|]; [left; exists 0%nat|right].
    + split_and!; [done|by intros [|j] ?; [lia|]|lia].
    + split; [done|]. set_solver.
  - apply cstring_cons in H as (H & Hc & H'). rewrite (load_byte_Ok m a b) by done. run.
    cbn [length] in *. rewrite (proj2 (Z.eqb_neq _ _)) by lia.
    destruct (IH fuel (a + 1) (if b =? c then a else pos)) as (p & -> & Hp); [done|lia|].
    exists p. split; [done|]. destruct Hp as [(i & Hi & Hj & ->)|[-> Hn]].
    + left. exists (S i). split_and!; [done| |lia]. intros [|j] ?; [lia|]. apply Hj. lia.
    + destruct (Z.eqb_spec b c) as [->|]; [left; exists 0%nat|right].
      * split_and!; [done| |lia]. intros [|j] ?; [lia|]. simpl. intros Hj. apply Hn.
        by eapply list_elem_of_lookup_2.
      * split; [done|]. simpl. set_solver.
Qed.

(** The table of string_span marks the characters of a string. *)
Definition marks (table : list Z) (t : list Z) : Prop :=
  length table = 256%nat /\
  forall c, 0 < c < 256 -> table !! Z.to_nat c = Some (if decide (c ∈ t) then 1 else 0).

Lemma span_table_Ok t fuel m a table u :
  cstring m a t -> (length t < fuel)%nat -> marks table u ->
  exists table', span_table fuel m a table = Ok table' /\ marks table' (u ++ t).
Proof.
  revert fuel a table u. induction t as [|b t IH]; intros fuel a table u H Hf Ht; (destruct fuel as [|fuel]; [lia|]);
    cbn [span_table].
  - apply cstring_nil in H. rewrite (load_byte_Ok m a 0) by done. run. exists table.
    by rewrite app_nil_r.
  - apply cstring_cons in H as (H & Hc & H'). rewrite (load_byte_Ok m a b) by done. run.
    cbn [length] in *. rewrite (proj2 (Z.eqb_neq _ _)) by lia. destruct Ht as [Hl Ht].
    unfold write_at. rewrite decide_True by lia. run.
    destruct (IH fuel (a + 1) (<[Z.to_nat b := 1]> table) (u ++ [b])) as (table' & E & Hm); [done|lia| |].
    + split; [by rewrite length_insert|]. intros c Hcc. destruct (decide (c = b)) as [->|].
      * rewrite list_lookup_insert_eq by lia. rewrite decide_True by set_solver. done.
      * rewrite list_lookup_insert_ne by lia. rewrite Ht by done.
        destruct (decide (c ∈ u)), (decide (c ∈ u ++ [b])); set_solver.
    + exists table'. split; [done|]. by rewrite <- app_assoc in Hm.
Qed.

(** The first character whose membership in [t] is not [flag]. *)
Definition stops (s t : list Z) (inside : bool) (i : nat) : Prop :=
  exists c, s !! i = Some c /\ bool_decide (c ∈ t) <> inside.

Lemma span_loop_Ok s t fuel m a table (inside : bool) count :
  cstring m a s -> (length s < fuel)%nat -> marks table t ->
  exists n p, span_loop fuel m a table (if inside then 1 else 0) count = Ok (count + Z.of_nat n, p) /\
    (n <= length s)%nat /\ (forall j, (j < n)%nat -> ~ stops s t inside j) /\
    ((n < length s)%nat -> stops s t inside n) /\
    search_result a (length s) (stops s t inside) p.
Proof.
  intros H Hf Ht. revert fuel a count H Hf.
  induction s as [|b s IH]; intros fuel a count H Hf; (destruct fuel as [|fuel]; [lia|]); cbn [span_loop].
  - apply cstring_nil in H. rewrite (load_byte_Ok m a 0) by done. run. exists 0%nat, 0.
    split_and!; [by rewrite Z.add_0_r|done|lia|simpl; lia|apply search_none].
  - apply cstring_cons in H as (H & Hc & H'). rewrite (load_byte_Ok m a b) by done. run.
    cbn [length] in *. rewrite (proj2 (Z.eqb_neq _ _)) by lia.
    rewrite (proj2 (read_at_Ok table b _) (conj (Z.lt_le_incl _ _ (proj1 Hc)) (proj2 Ht b Hc))). run.
    destruct (decide (bool_decide (b ∈ t) = inside)) as [Hin|Hout].
    + replace (_ =? _) with true by (rewrite bool_decide_decide in Hin; destruct (decide (b ∈ t)), inside; done).
      assert (H0 : ~ stops (b :: s) t inside 0) by (intros (c & [= <-] & ?); done).
      destruct (IH fuel (a + 1) (count + 1)) as (n & p & -> & Hn & Hb & He & Hp); [done|lia|].
      exists (S n), p. split_and!; [do 2 f_equal; lia|lia| |intros ?; apply He; lia|by apply search_next].
      intros [|j] Hlt; [done|]. apply Hb. lia.
    + replace (_ =? _) with false by (rewrite bool_decide_decide in Hout; destruct (decide (b ∈ t)), inside; done).
      exists 0%nat, a. assert (H0 : stops (b :: s) t inside 0) by (exists b; split; done).
      split_and!; [by rewrite Z.add_0_r|lia|lia|done|by apply search_here].
Qed.

Lemma strstr_match_Ok u l m a sub k :
  holds m a l -> holds m (sub + k) u -> (length u <= length l)%nat ->
  exists k', strstr_match (length u) m a sub k = Ok k' /\
    (k' = k + Z.of_nat (length u) <-> u `prefix_of` l).
Proof.
  revert l a k. induction u as [|b u IH]; intros l a k Hl Hu Hlen; cbn [strstr_match length].
  - exists k. split; [done|]. split; [intros _; apply prefix_nil|lia].
  - destruct l as [|c l]; [simpl in Hlen; lia|]. cbn [length] in Hlen. destruct Hl as [Hc Hl], Hu as [Hb Hu].
    rewrite (load_byte_Ok m a c), (load_byte_Ok m (sub + k) b) by done. run.
    destruct (Z.eqb_spec c b) as [->|]; simpl.
    + destruct (IH l (a + 1) (k + 1)) as (k' & -> & Hk); [done|by rewrite Z.add_assoc|lia|].
      exists k'. split; [done|]. split.
      * intros ->. apply prefix_cons, Hk. lia.
      * intros Hp. apply prefix_cons_inv_2, Hk in Hp. lia.
    + exists k. split; [done|]. split; [lia|]. intros Hp. apply prefix_cons_inv_1 in Hp. congruence.
Qed.

Lemma strstr_loop_Ok n s t m a sub :
  t <> [] -> cstring m a s -> cstring m sub t -> (n + length t <= S (length s))%nat ->
  exists p, strstr_loop n m a sub (Z.of_nat (length t)) = Ok p /\
    search_result a n (fun i => t `prefix_of` drop i s) p.
Proof.
  intros Hne Hs Ht. revert s a Hs. induction n as [|n IH]; intros s a Hs Hn; cbn [strstr_loop]; [eauto|].
  destruct t as [|b t]; [done|]. cbn [length] in *. destruct s as [|c s]; [simpl in Hn; lia|].
  apply cstring_bytes in Ht as Hbt. apply cstring_cons in Ht as (Hb & _ & Ht').
  apply cstring_bytes in Hs as Hbs. apply cstring_cons in Hs as (Hc & _ & Hs').
  rewrite (load_byte_Ok m a c), (load_byte_Ok m sub b) by done. run. cbn [length] in Hn.
  destruct (Z.eqb_spec c b) as [->|]; simpl negb; cbv iota.
  - destruct (strstr_match_Ok (b :: t) (b :: s) m a sub 0) as (k & E & Hk).
    + apply holds_app in Hbs. apply Hbs.
    + rewrite Z.add_0_r. apply holds_app in Hbt. apply Hbt.
    + simpl. lia.
    + cbn [length] in E, Hk. rewrite Nat2Z.id, E. run. rewrite Z.add_0_l in Hk.
      destruct (Z.eqb_spec k (Z.of_nat (S (length t)))) as [Hkk|Hkk].
      * exists a. split; [done|]. apply search_here. by apply Hk.
      * destruct (IH s (a + 1)) as (p & -> & Hp); [done|lia|]. exists p. split; [done|].
        apply search_next; [|done]. simpl. intros Hpre. by apply Hkk, Hk.
  - destruct (IH s (a + 1)) as (p & -> & Hp); [done|lia|]. exists p. split; [done|].
    apply search_next; [|done]. simpl. intros Hpre. apply prefix_cons_inv_1 in Hpre. congruence.
Qed.

Lemma search_extend a n n' (P : nat -> Prop) p :
  (n <= n')%nat -> (forall i, (n <= i < n')%nat -> ~ P i) -> search_result a n P p -> search_result a n' P p.
Proof.
  intros Hn Hx [(i & Hi & HP & Hj & ->)|[-> Hno]]; [left; exists i; split_and!; done || lia|right].
  split; [done|]. intros i Hi. destruct (decide (i < n)%nat); [by apply Hno|apply Hx; lia].
Qed.

Lemma strstr_Ok s t m a sub :
  cstring m a s -> cstring m sub t ->
  exists p, strstr m a sub = Ok p /\
    search_result a (S (length s)) (fun i => t `prefix_of` drop i s) p.
Proof.
  intros Hs Ht. unfold strstr. rewrite (strlen_Ok m a s), (strlen_Ok m sub t) by done. run.
  assert (Hlong : forall i, (i < S (length s))%nat -> t `prefix_of` drop i s -> (i + length t <= length s)%nat).
  { intros i Hi Hp. apply prefix_length in Hp. rewrite length_drop in Hp. lia. }
  rewrite Z.gtb_ltb. destruct (Z.ltb_spec (Z.of_nat (length s)) (Z.of_nat (length t))) as [Hlt|Hge].
  - exists 0. split; [done|]. right. split; [done|]. intros i Hi Hp. apply Hlong in Hp; lia.
  - destruct t as [|b t]; [exists a; split; [done|]; apply search_here, prefix_nil|].
    rewrite (proj2 (Z.eqb_neq _ _)) by (simpl; lia).
    destruct (strstr_loop_Ok (Z.to_nat (Z.of_nat (length s) - Z.of_nat (length (b :: t)) + 1)) s (b :: t) m a sub)
      as (p & -> & Hp); [done|done|done|lia|].
    exists p. split; [done|]. eapply search_extend; [| |done]; [simpl; lia|].
    intros i Hi Hpre. apply Hlong in Hpre; [|lia]. simpl length in *. lia.
Qed.

Lemma marks_empty : marks (replicate 256 0) [].
Proof.
  split; [done|]. intros c Hc. rewrite lookup_replicate_2 by lia. by rewrite decide_False by set_solver.
Qed.

Lemma string_span_Ok s t m a b (inside : bool) :
  cstring m a s -> cstring m b t ->
  exists n p, string_span m a b (if inside then 1 else 0) = Ok (Z.of_nat n, p) /\
    (n <= length s)%nat /\ (forall j, (j < n)%nat -> ~ stops s t inside j) /\
    ((n < length s)%nat -> stops s t inside n) /\
    search_result a (length s) (stops s t inside) p.
Proof.
  intros Hs Ht. unfold string_span. apply cstring_size in Hs as Hls, Ht as Hlt.
  destruct (span_table_Ok t (walk_fuel m) m b (replicate 256 0) []) as (table & -> & Hm);
    [done|unfold walk_fuel; lia|apply marks_empty|]. run. simpl app in Hm.
  destruct (span_loop_Ok s t (walk_fuel m) m a table inside 0) as (n & p & -> & H); [done|unfold walk_fuel; lia|done|].
  by exists n, p.
Qed.

(** ** Properties *)

(** memmove copies the source bytes as they were before the call, however the two
    buffers overlap, and changes nothing else; strcpy, strncpy and strcat on buffers that
    are apart leave the copied, padded or joined string in the destination and change
    nothing outside it. *)
Theorem libc_copies_correct (m : bytes) (dest src count : Z) (l s d : list Z) :
  (holds m src l -> accessible_bytes m dest (length l) ->
   exists m', memmove m dest src (Z.of_nat (length l)) = Ok m' /\ holds m' dest l /\
     frame m m' dest (Z.of_nat (length l))) /\
  (cstring m src s -> accessible_bytes m dest (S (length s)) ->
   apart dest (Z.of_nat (S (length s))) src (Z.of_nat (S (length s))) ->
   exists m', strcpy m dest src = Ok m' /\ cstring m' dest s /\
     frame m m' dest (Z.of_nat (S (length s)))) /\
  (0 <= count -> cstring m src s -> accessible_bytes m dest (Z.to_nat count) ->
   apart dest count src (Z.of_nat (S (length s))) ->
   exists m', strncpy m dest src count = Ok m' /\
     holds m' dest (take (Z.to_nat count) (s ++ replicate (Z.to_nat count - length s) 0)) /\
     frame m m' dest count) /\
  (cstring m dest d -> cstring m src s -> accessible_bytes m dest (S (length d + length s)) ->
   apart dest (Z.of_nat (S (length d + length s))) src (Z.of_nat (S (length s))) ->
   exists m', strcat m dest src = Ok m' /\ cstring m' dest (d ++ s) /\
     frame m m' dest (Z.of_nat (S (length d + length s)))).
Proof.
  split_and!.
  - apply memmove_Ok.
  - apply strcpy_Ok.
  - apply strncpy_Ok.
  - apply strcat_Ok.
Qed.

(** Three bytes moved up by one within their own buffer. *)
Definition move_memory : bytes := put 100 [65; 66; 67; 0; 0] ∅.

Lemma libc_copies_correct_witness :
  exists m', memmove move_memory 101 100 3 = Ok m' /\ holds m' 101 [65; 66; 67].
Proof.
  destruct (libc_copies_correct move_memory 101 100 0 [65; 66; 67] [] []) as (H & _).
  destruct H as (m' & E & Hh & _).
  - cbn. split_and!; reflexivity.
  - intros i Hi. assert (i = 101 \/ i = 102 \/ i = 103) as [-> | [-> | ->]] by (cbn in Hi; lia);
      vm_compute; eauto.
  - exists m'. split; [exact E|exact Hh].
Defined.

(** strcmp returns zero exactly on equal strings and a negative number exactly when the
    first string comes before the second in the lexicographic order of their characters;
    strncmp does the same on the first [count] characters, strncasecmp on those in lower
    case. *)
Theorem libc_comparisons_correct (m : bytes) (lhs rhs count : Z) (s t : list Z) :
  cstring m lhs s -> cstring m rhs t -> 0 <= count ->
  (exists d, strcmp m lhs rhs = Ok d /\ (d = 0 <-> s = t) /\ (d < 0 <-> string_lt s t) /\
     (0 < d <-> string_lt t s)) /\
  (let s' := take (Z.to_nat count) s in let t' := take (Z.to_nat count) t in
   exists d, strncmp m lhs rhs count = Ok d /\ (d = 0 <-> s' = t') /\ (d < 0 <-> string_lt s' t') /\
     (0 < d <-> string_lt t' s')) /\
  (let s' := tolower <$> take (Z.to_nat count) s in let t' := tolower <$> take (Z.to_nat count) t in
   exists d, strncasecmp m lhs rhs count = Ok d /\ (d = 0 <-> s' = t') /\
     (d < 0 <-> string_lt s' t') /\ (0 < d <-> string_lt t' s')).
Proof.
  intros Hs Ht Hc. apply cstring_size in Hs as Hl.
  assert (Hlow : forall c, 0 < c -> 0 < tolower c) by (intros c ?; unfold tolower; destruct (isupper c); lia).
  assert (Hpos : forall a u, cstring m a u -> Forall (fun c => 0 < c) u).
  { intros a u [_ Hu]. eapply Forall_impl; [done|]. simpl. lia. }
  assert (Htake : forall a u n, cstring m a u -> Forall (fun c => 0 < c) (take n u)).
  { intros a u n Hu. eapply Forall_take, Hpos, Hu. }
  assert (Hmap : forall a u n, cstring m a u -> Forall (fun c => 0 < c) (tolower <$> take n u)).
  { intros a u n Hu. apply Forall_fmap. eapply Forall_impl; [by eapply Htake|]. intros c ?. by apply Hlow. }
  split_and!; [exists (diff s t)|cbv zeta; set (s' := take _ s); set (t' := take _ t); exists (diff s' t')|
    cbv zeta; set (s' := tolower <$> _); set (t' := tolower <$> _); exists (diff s' t')]; (split; [|apply diff_order; eauto]).
  - unfold strcmp. apply strcmp_loop_Ok; [done|done|unfold walk_fuel; lia].
  - unfold strncmp. destruct (Z.eqb_spec count 0) as [->|]; [done|].
    rewrite (strncmp_loop_start _ _ _ _ _ s t) by (done || lia). by rewrite !list_fmap_id.
  - unfold strncasecmp. destruct (Z.eqb_spec count 0) as [->|]; [done|].
    by rewrite (strncmp_loop_start _ _ _ _ _ s t) by (done || lia).
Qed.

(** "ABC" at 100 and "AbD" at 200. *)
Definition example_strings : bytes := put 100 [65; 66; 67; 0] (put 200 [65; 98; 68; 0] ∅).

Lemma example_abc : cstring example_strings 100 [65; 66; 67].
Proof. split; [cbn; split_and!; reflexivity|repeat constructor; lia]. Qed.

Lemma example_abd : cstring example_strings 200 [65; 98; 68].
Proof. split; [cbn; split_and!; reflexivity|repeat constructor; lia]. Qed.

Lemma libc_comparisons_correct_witness :
  strcmp example_strings 100 200 = Ok (-32) /\ string_lt [65; 66; 67] [65; 98; 68].
Proof.
  assert (Hc : 0 <= 2) by lia.
  destruct (libc_comparisons_correct example_strings 100 200 2 _ _ example_abc example_abd Hc)
    as ((d & E & _ & Hlt & _) & _).
  assert (Ed : strcmp example_strings 100 200 = Ok (-32)) by reflexivity.
  split; [exact Ed|]. apply Hlt. rewrite Ed in E. injection E as <-. lia.
Defined.

(** C25: the searches of string.c return what their specifications on lists say: strchr the
    first and strrchr the last occurrence of a character, the end of the string included,
    strstr the first position at which the other string is a prefix, strpbrk the first
    character of a set, strspn and strcspn the length of the longest prefix inside or
    outside a set, and null where there is none. *)
Theorem libc_searches_correct (m : bytes) (str other ch : Z) (s t : list Z) :
  cstring m str s -> cstring m other t ->
  (exists p, strchr m str ch = Ok p /\
     search_result str (S (length s)) (fun i => (s ++ [0]) !! i = Some (wrap8 ch)) p) /\
  (exists p, strrchr m str ch = Ok p /\ last_result str (s ++ [0]) (wrap8 ch) p 0) /\
  (exists p, strstr m str other = Ok p /\
     search_result str (S (length s)) (fun i => t `prefix_of` drop i s) p) /\
  (exists p, strpbrk m str other = Ok p /\
     search_result str (length s) (fun i => exists c, s !! i = Some c /\ c ∈ t) p) /\
  (exists n, strspn m str other = Ok (Z.of_nat n) /\ (n <= length s)%nat /\
     Forall (fun c => c ∈ t) (take n s) /\ (forall c, s !! n = Some c -> c ∉ t)) /\
  (exists n, strcspn m str other = Ok (Z.of_nat n) /\ (n <= length s)%nat /\
     Forall (fun c => c ∉ t) (take n s) /\ (forall c, s !! n = Some c -> c ∈ t)).
Proof.
  intros Hs Ht. apply cstring_size in Hs as Hl.
  assert (Hin : forall n, (forall j, (j < n)%nat -> ~ stops s t true j) -> Forall (fun c => c ∈ t) (take n s)).
  { intros n H. apply Forall_lookup. intros i c Hi. apply lookup_take_Some in Hi as [Hi Hlt].
    destruct (decide (c ∈ t)); [done|]. exfalso. apply (H i Hlt). exists c. by rewrite bool_decide_false. }
  assert (Hout : forall n, (forall j, (j < n)%nat -> ~ stops s t false j) -> Forall (fun c => c ∉ t) (take n s)).
  { intros n H. apply Forall_lookup. intros i c Hi Hc. apply lookup_take_Some in Hi as [Hi Hlt].
    apply (H i Hlt). exists c. by rewrite bool_decide_true. }
  destruct (string_span_Ok s t m str other true) as (n & p & E & Hn & Hb & He & _); [done|done|].
  destruct (string_span_Ok s t m str other false) as (n' & p' & E' & Hn' & Hb' & He' & Hp'); [done|done|].
  split_and!.
  - apply strchr_loop_Ok; [done|unfold walk_fuel; lia].
  - apply strrchr_loop_Ok; [done|unfold walk_fuel; lia].
  - by apply strstr_Ok.
  - exists p'. unfold strpbrk. rewrite E'. split; [done|].
    assert (Hiff : forall i, stops s t false i <-> exists c, s !! i = Some c /\ c ∈ t).
    { intros i. apply exist_proper. intros c. rewrite not_false_iff_true, bool_decide_eq_true. done. }
    destruct Hp' as [(i & Hi & HP & Hj & ->)|[-> Hno]]; [left; exists i|right]; split_and!; try done;
      try (by apply Hiff); intros j Hlt; rewrite <- Hiff; auto.
  - exists n. unfold strspn. rewrite E. split_and!; [done|done|by apply Hin|]. intros c Hc Hct.
    destruct He as (c' & Ec & Hne); [by eapply lookup_lt_Some|]. rewrite Hc in Ec. injection Ec as <-.
    by rewrite bool_decide_true in Hne.
  - exists n'. unfold strcspn. rewrite E'. split_and!; [done|done|by apply Hout|]. intros c Hc.
    destruct He' as (c' & Ec & Hne); [by eapply lookup_lt_Some|]. rewrite Hc in Ec. injection Ec as <-.
    by apply not_false_iff_true, bool_decide_eq_true in Hne.
Qed.

Lemma libc_searches_correct_witness :
  exists p, strstr example_strings 100 200 = Ok p /\
    search_result 100 4 (fun i => [65; 98; 68] `prefix_of` drop i [65; 66; 67]) p.
Proof.
  exact (proj1 (proj2 (proj2 (libc_searches_correct _ 100 200 66 _ _ example_abc example_abd)))).
Defined.

(** memccpy returns the second byte of the destination whatever the number of bytes
    copied; the byte after the copied one is at 103 here. *)
Example memccpy_result_is_fixed :
  (p ← memccpy example_strings 101 200 68 3; Ok p.1) = Ok 102.
Proof. vm_compute. reflexivity. Qed.

(** strncmp reads one character more than its count: two equal arrays of two bytes, not
    terminated, are read past their end. *)
Example strncmp_reads_past_count :
  strncmp (put 100 [65; 66] (put 200 [65; 66] ∅)) 100 200 2 = Fault OutOfBounds.
Proof. vm_compute. reflexivity. Qed.

(** strxfrm terminates the destination at the count, one byte past a buffer of that size. *)
Example strxfrm_writes_past_count :
  (p ← strxfrm (put 100 [65; 66; 67; 0] (put 200 [0; 0] ∅)) 200 100 2; Ok p.1) = Fault OutOfBounds.
Proof. vm_compute. reflexivity. Qed.
