(* ===== verification/LibcPrintf.v ===== *)
(** The formatted output of Userland/LibC/stdio.c: [vsnprintf] and everything below it.

  The formatter touches its destination only through [write_one] and, for the [n]
  conversion, through the offset of the [buffer_state]; it is written here against that
  interface, the class [Sink].  Its instance for [buffer_state] is the code of
  [write_one].  The format string is the list of its characters, and the variable
  arguments are a list; running out of them, or reading one at the wrong kind, is
  undefined in C and a fault here. *)
From S2P Require Import Prelude LibcMemory LibcString.

(** ** Integers *)

Definition sint8 (x : Z) : Z := (x + 128) mod 256 - 128.
Definition sint16 (x : Z) : Z := (x + 32768) mod 65536 - 32768.
Definition sint32 (x : Z) : Z := (x + 2147483648) mod 4294967296 - 2147483648.
Definition sint64 (x : Z) : Z := (x + 9223372036854775808) mod W64 - 9223372036854775808.

Definition INT_MAX : Z := 2147483647.
Definition INT_MIN : Z := -2147483648.

(** ** Arguments *)

(** What [write_float] observes of a floating-point value: its sign, the integer part of
    its absolute value, and the decimal digits the repeated multiplication by ten gives. *)
Record float := Float {
  f_negative : bool;
  f_integral : Z;
  f_decimal : nat -> Z;
}.

Inductive argument :=
  | Integral (z : Z)
  | Floating (f : float).

Definition va_integral (args : list argument) : result (Z * list argument) :=
  match args with
  | Integral z :: args => Ok (z, args)
  | _ => Fault OutOfBounds
  end.

Definition va_floating (args : list argument) : result (float * list argument) :=
  match args with
  | Floating f :: args => Ok (f, args)
  | _ => Fault OutOfBounds
  end.

(** ** Destinations *)

Class Sink (S : Type) := {
  sink_write : S -> Z -> result S;
  sink_offset : S -> Z;
  sink_memory : S -> bytes;
  sink_set_memory : S -> bytes -> S;
}.

(** [Userland/LibC/stdio.c:317-321] buffer_state *)
Record buffer_state := BufferState {
  bs_memory : bytes;
  bs_buffer : Z;
  bs_bufsz : Z;
  bs_offset : Z;
}.

(** [Userland/LibC/stdio.c:323-328] write_one *)
Definition write_one (st : buffer_state) (c : Z) : result buffer_state :=
  m ← (if bs_offset st <? (if negb (bs_bufsz st =? 0) then bs_bufsz st - 1 else 0)
       then store_byte (bs_memory st) (bs_buffer st + bs_offset st) c
       else Ok (bs_memory st));
  Ok (BufferState m (bs_buffer st) (bs_bufsz st) (bs_offset st +! 1)).

#[export] Instance buffer_sink : Sink buffer_state := {
  sink_write := write_one;
  sink_offset := bs_offset;
  sink_memory := bs_memory;
  sink_set_memory st m := BufferState m (bs_buffer st) (bs_bufsz st) (bs_offset st);
}.

(** [Userland/LibC/stdio.c:335-346] format_spec; [justify_left] is [justify == LEFT] *)
Record format_spec := FormatSpec {
  precision : Z;
  justify_left : bool;
  min_field_width : Z;
  leading_zeroes : bool;
  prepend_space : bool;
  prepend_sign : bool;
  alternative_form : bool;
  has_precision : bool;
  conversion_specifier : Z;
  length_modifier : Z * Z;
}.

Definition empty_spec : format_spec :=
  FormatSpec 0 false 0 false false false false false 0 (0, 0).

(** The assignments to the fields of the specification. *)
Definition set_precision (s : format_spec) (x : Z) := FormatSpec x (justify_left s) (min_field_width s) (leading_zeroes s) (prepend_space s) (prepend_sign s) (alternative_form s) (has_precision s) (conversion_specifier s) (length_modifier s).
Definition set_justify_left (s : format_spec) := FormatSpec (precision s) true (min_field_width s) (leading_zeroes s) (prepend_space s) (prepend_sign s) (alternative_form s) (has_precision s) (conversion_specifier s) (length_modifier s).
Definition set_width (s : format_spec) (x : Z) := FormatSpec (precision s) (justify_left s) x (leading_zeroes s) (prepend_space s) (prepend_sign s) (alternative_form s) (has_precision s) (conversion_specifier s) (length_modifier s).
Definition set_zeroes (s : format_spec) (x : bool) := FormatSpec (precision s) (justify_left s) (min_field_width s) x (prepend_space s) (prepend_sign s) (alternative_form s) (has_precision s) (conversion_specifier s) (length_modifier s).
Definition set_space (s : format_spec) (x : bool) := FormatSpec (precision s) (justify_left s) (min_field_width s) (leading_zeroes s) x (prepend_sign s) (alternative_form s) (has_precision s) (conversion_specifier s) (length_modifier s).
Definition set_sign (s : format_spec) := FormatSpec (precision s) (justify_left s) (min_field_width s) (leading_zeroes s) (prepend_space s) true (alternative_form s) (has_precision s) (conversion_specifier s) (length_modifier s).
Definition set_alternative (s : format_spec) := FormatSpec (precision s) (justify_left s) (min_field_width s) (leading_zeroes s) (prepend_space s) (prepend_sign s) true (has_precision s) (conversion_specifier s) (length_modifier s).
Definition set_has_precision (s : format_spec) (x : bool) := FormatSpec (precision s) (justify_left s) (min_field_width s) (leading_zeroes s) (prepend_space s) (prepend_sign s) (alternative_form s) x (conversion_specifier s) (length_modifier s).
Definition set_conversion (s : format_spec) (x : Z) := FormatSpec (precision s) (justify_left s) (min_field_width s) (leading_zeroes s) (prepend_space s) (prepend_sign s) (alternative_form s) (has_precision s) x (length_modifier s).
Definition set_length_modifier (s : format_spec) (x : Z * Z) := FormatSpec (precision s) (justify_left s) (min_field_width s) (leading_zeroes s) (prepend_space s) (prepend_sign s) (alternative_form s) (has_precision s) (conversion_specifier s) x.

(** ** Digits *)

(** [Userland/LibC/stdio.c:431-432] REPR_BUFFER_CAPACITY and characters *)
Definition REPR_BUFFER_CAPACITY : Z := 64.
Definition characters : list Z :=
  [48; 49; 50; 51; 52; 53; 54; 55; 56; 57; 65; 66; 67; 68; 69; 70].

(** [num_buf[offset--] = c]: the representation grows at its front and the array holds
    [REPR_BUFFER_CAPACITY] characters. *)
Definition push_front (repr : list Z) (c : Z) : result (list Z) :=
  if Z.of_nat (length repr) <? REPR_BUFFER_CAPACITY then Ok (c :: repr) else Fault OutOfBounds.

(** [Userland/LibC/stdio.c:454-458] one character of a representation *)
Definition push_digit (convert : option (Z -> Z)) (repr : list Z) (rem : Z) : result (list Z) :=
  c ← read_at characters rem;
  push_front repr (match convert with Some f => f c | None => c end).

(** [Userland/LibC/stdio.c:446-459] the loop of write_signed_integral *)
Fixpoint signed_digits (fuel : nat) (base : Z) (convert : option (Z -> Z)) (x : Z) (repr : list Z)
  : result (list Z) :=
  match fuel with
  | O => Fault OutOfFuel
  | S fuel =>
    if x =? 0 then Ok repr
    else
      let rem := Z.rem x base in
      let rem := if rem <? 0 then rem * -1 else rem in
      repr ← push_digit convert repr rem;
      signed_digits fuel base convert (Z.quot x base) repr
  end.

(** [Userland/LibC/stdio.c:475-484] the loop of write_unsigned_integral *)
Fixpoint unsigned_digits (fuel : nat) (base : Z) (convert : option (Z -> Z)) (x : Z) (repr : list Z)
  : result (list Z) :=
  match fuel with
  | O => Fault OutOfFuel
  | S fuel =>
    if x =? 0 then Ok repr
    else
      repr ← push_digit convert repr (x mod base);
      unsigned_digits fuel base convert (x / base) repr
  end.

(** The loops divide a 64-bit number by at least 8. *)
Definition digits_fuel : nat := 65.

Section formatter.
Context {S : Type} `{!Sink S}.

(** [while (n--) write_one(state, c)] *)
Fixpoint write_times (n : nat) (c : Z) (st : S) : result S :=
  match n with
  | O => Ok st
  | Datatypes.S n => st ← sink_write st c; write_times n c st
  end.

Fixpoint write_all (l : list Z) (st : S) : result S :=
  match l with
  | [] => Ok st
  | c :: l => st ← sink_write st c; write_all l st
  end.

(** [Userland/LibC/stdio.c:348-351] write_char *)
Definition write_char (st : S) (c : Z) : result S := sink_write st c.

(** [Userland/LibC/stdio.c:357-360] the loop of write_string; an array of [wchar_t] is read
    at the first byte of each *)
Fixpoint write_string_loop (fuel : nat) (st : S) (max str stride i : Z) : result S :=
  match fuel with
  | O => Fault OutOfFuel
  | Datatypes.S fuel =>
    c ← load_byte (sink_memory st) str;
    if negb (c =? 0) && (i <? max) then
      st ← sink_write st c;
      write_string_loop fuel st max (str + stride) stride (i + 1)
    else Ok st
  end.

(** [Userland/LibC/stdio.c:353-361] write_string *)
Definition write_string (st : S) (spec : format_spec) (str stride : Z) : result S :=
  let max := if negb (precision spec =? 0) then wrap64 (precision spec) else W64 - 1 in
  write_string_loop (walk_fuel (sink_memory st)) st max str stride 0.

(** [Userland/LibC/stdio.c:381-390] the sign of a number, in both branches of write_number *)
Definition write_sign (st : S) (spec : format_spec) (is_negative : bool) : result S :=
  if is_negative then sink_write st 45
  else if prepend_sign spec then sink_write st 43
  else if prepend_space spec then sink_write st 32
  else Ok st.

(** [Userland/LibC/stdio.c:374-374] zero_pad *)
Definition precision_pad (spec : format_spec) (repr_len : Z) : Z :=
  if has_precision spec then
    if repr_len >=? wrap64 (precision spec) then 0 else wrap64 (precision spec) - repr_len
  else 0.

(** [Userland/LibC/stdio.c:398-398] additional_padding *)
Definition width_pad (spec : format_spec) (written : Z) : Z :=
  if written >? wrap64 (min_field_width spec) then 0 else wrap64 (min_field_width spec) - written.

(** [Userland/LibC/stdio.c:363-429] write_number *)
Definition write_number (st : S) (spec : format_spec) (repr : list Z) (is_negative : bool)
  : result S :=
  let spec := if prepend_sign spec || is_negative then set_space spec false else spec in
  let spec := if justify_left spec || has_precision spec then set_zeroes spec false else spec in
  let repr_len := Z.of_nat (length repr) in
  let zero_pad := precision_pad spec repr_len in
  let sign := is_negative || prepend_sign spec || prepend_space spec in
  if justify_left spec then
    st ← write_times (Z.to_nat zero_pad) 48 st;
    st ← write_sign st spec is_negative;
    st ← write_all repr st;
    let total_written := zero_pad + (if sign then 1 else 0) + repr_len in
    write_times (Z.to_nat (width_pad spec total_written)) 32 st
  else
    let total_to_write := if sign then 1 else 0 in
    st ← write_times (Z.to_nat (width_pad spec total_to_write))
           (if leading_zeroes spec then 48 else 32) st;
    st ← write_sign st spec is_negative;
    st ← write_times (Z.to_nat zero_pad) 48 st;
    write_all repr st.

(** [Userland/LibC/stdio.c:434-463] write_signed_integral *)
Definition write_signed_integral (st : S) (spec : format_spec) (base : Z) (convert : option (Z -> Z))
    (x : Z) : result S :=
  repr ← (if x =? 0 then push_digit convert [] x else Ok []);
  repr ← signed_digits digits_fuel base convert x repr;
  write_number st spec repr (x <? 0).

(** [Userland/LibC/stdio.c:465-488] write_unsigned_integral *)
Definition write_unsigned_integral (st : S) (spec : format_spec) (base : Z)
    (convert : option (Z -> Z)) (x : Z) : result S :=
  repr ← (if x =? 0 then push_digit convert [] x else Ok []);
  repr ← unsigned_digits digits_fuel base convert x repr;
  write_number st spec repr false.

(** [Userland/LibC/stdio.c:490-496] write_int *)
Definition write_int (st : S) (spec : format_spec) (x : Z) : result S :=
  if has_precision spec && (precision spec =? 0) && (x =? 0) then Ok st
  else write_signed_integral st spec 10 None x.

(** [Userland/LibC/stdio.c:498-502] write_hex *)
Definition write_hex (st : S) (spec : format_spec) (x : Z) : result S :=
  let lowercase := conversion_specifier spec =? 120 in
  write_unsigned_integral st spec 16 (if lowercase then Some tolower else None) x.

(** [Userland/LibC/stdio.c:504-507] write_unsigned *)
Definition write_unsigned (st : S) (spec : format_spec) (x : Z) : result S :=
  write_unsigned_integral st spec 10 None x.

(** [Userland/LibC/stdio.c:509-512] write_octal *)
Definition write_octal (st : S) (spec : format_spec) (x : Z) : result S :=
  write_unsigned_integral st spec 8 None x.

(** [Userland/LibC/stdio.c:559-566] the decimals of write_float *)
Definition decimals (f : float) (count : nat) : list Z :=
  (fun k => 48 + f_decimal f k mod 10) <$> seq 0 count.

(** [Userland/LibC/stdio.c:514-569] write_float: the point and the integer part fill the end
    of the array and are moved to its start, then the decimals follow up to its capacity *)
Definition write_float (st : S) (spec : format_spec) (f : float) : result S :=
  let prec := if has_precision spec then precision spec else 6 in
  let spec := set_has_precision spec false in
  repr ← (if negb (prec =? 0) || alternative_form spec then push_front [] 46 else Ok []);
  repr ← unsigned_digits digits_fuel 10 None (f_integral f) repr;
  if prec =? 0 then write_number st spec repr (f_negative f)
  else
    let bytes_left := REPR_BUFFER_CAPACITY - Z.of_nat (length repr) in
    let prec := if bytes_left <? wrap64 prec then bytes_left else prec in
    let count := Z.min bytes_left (wrap64 prec) in
    write_number st spec (repr ++ decimals f (Z.to_nat count)) (f_negative f).

(** ** Conversions *)

(** The low [n] bytes of [v], stored through a pointer. *)
Fixpoint store_bytes (n : nat) (m : bytes) (a v : Z) : result bytes :=
  match n with
  | O => Ok m
  | Datatypes.S n => m ← store_byte m a (v mod 256); store_bytes n m (a + 1) (v / 256)
  end.

(** [Userland/LibC/stdio.c:606-677] the conversions d and i: how the argument is read, by the
    length modifier *)
Definition signed_argument (modifier : Z * Z) (z : Z) : option Z :=
  let (first, second) := modifier in
  if first =? 104 then
    if negb (second =? 0) then if negb (second =? 104) then None else Some (sint8 (sint32 z))
    else Some (sint16 (sint32 z))
  else if first =? 0 then if negb (second =? 0) then None else Some (sint32 z)
  else if first =? 108 then
    if negb (second =? 0) then if negb (second =? 108) then None else Some (sint64 z)
    else Some (sint64 z)
  else if (first =? 106) || (first =? 122) || (first =? 116) then
    if negb (second =? 0) then None else Some (sint64 z)
  else None.

(** [Userland/LibC/stdio.c:697-765] the conversions o, x, X and u *)
Definition unsigned_argument (modifier : Z * Z) (z : Z) : option Z :=
  let (first, second) := modifier in
  if first =? 104 then
    if negb (second =? 0) then if negb (second =? 104) then None else Some (wrap8 z)
    else Some (wrap16 z)
  else if first =? 0 then if negb (second =? 0) then None else Some (wrap32 z)
  else if first =? 108 then
    if negb (second =? 0) then if negb (second =? 108) then None else Some (wrap64 z)
    else Some (wrap64 z)
  else if (first =? 106) || (first =? 122) || (first =? 116) then
    if negb (second =? 0) then None else Some (wrap64 z)
  else None.

(** [Userland/LibC/stdio.c:792-857] the conversion n: the width of the integer stored, [0]
    where no argument is read *)
Definition stored_width (modifier : Z * Z) : option nat :=
  let (first, second) := modifier in
  if first =? 76 then None
  else if first =? 104 then
    if negb (second =? 0) then if negb (second =? 104) then None else Some 1%nat else Some 2%nat
  else if first =? 0 then if negb (second =? 0) then None else Some 4%nat
  else if first =? 108 then
    if negb (second =? 0) then if negb (second =? 108) then None else Some 8%nat else Some 8%nat
  else if (first =? 106) || (first =? 122) || (first =? 116) then
    if negb (second =? 0) then None else Some 8%nat
  else Some 0%nat.

(** What a conversion leaves: the destination, the arguments and the specification, which
    is cleared unless the conversion was refused. *)
Definition converted : Type := S * list argument * format_spec.

(** [Userland/LibC/stdio.c:682-695] the converter of an unsigned conversion *)
Definition converter (spec : format_spec) : S -> format_spec -> Z -> result S :=
  if conversion_specifier spec =? 111 then write_octal
  else if (conversion_specifier spec =? 120) || (conversion_specifier spec =? 88) then write_hex
  else write_unsigned.

Definition is_float_conversion (c : Z) : bool :=
  existsb (Z.eqb c) [102; 70; 101; 69; 97; 65; 103; 71].

(** [Userland/LibC/stdio.c:571-870] dispatch_conversion *)
Definition dispatch_conversion (st : S) (spec : format_spec) (args : list argument)
  : result converted :=
  let c := conversion_specifier spec in
  let '(first, second) := length_modifier spec in
  let refused := Ok (st, args, spec) in
  let integral (f : Z -> option (result S)) :=
    match f 0 with
    | None => refused
    | Some _ =>
      '(z, args) ← va_integral args;
      match f z with
      | Some write => st ← write; Ok (st, args, empty_spec)
      | None => refused
      end
    end in
  if c =? 99 then
    if negb (second =? 0) || (negb (first =? 0) && negb (first =? 108)) then refused
    else integral (fun z => Some (write_char st (wrap8 z)))
  else if c =? 115 then
    if negb (second =? 0) || (negb (first =? 0) && negb (first =? 108)) then refused
    else integral (fun z => Some (write_string st spec (wrap64 z) (if first =? 0 then 1 else 4)))
  else if (c =? 100) || (c =? 105) then
    integral (fun z => write_int st spec <$> signed_argument (first, second) z)
  else if (c =? 111) || (c =? 120) || (c =? 88) || (c =? 117) then
    integral (fun z => converter spec st spec <$> unsigned_argument (first, second) z)
  else if is_float_conversion c then
    if negb (second =? 0) then refused
    else if (first =? 0) || (first =? 108) || (first =? 76) then
      '(f, args) ← va_floating args;
      st ← write_float st spec f;
      Ok (st, args, empty_spec)
    else Ok (st, args, empty_spec)
  else if c =? 110 then
    match stored_width (first, second) with
    | None => refused
    | Some O => Ok (st, args, empty_spec)
    | Some width =>
      '(a, args) ← va_integral args;
      m ← store_bytes width (sink_memory st) (wrap64 a) (sink_offset st);
      Ok (sink_set_memory st m, args, empty_spec)
    end
  else if c =? 112 then
    if negb (first =? 0) || negb (second =? 0) then refused
    else integral (fun z => Some (write_hex st spec (wrap64 z)))
  else refused.

(** ** Format strings *)

(** [Userland/LibC/stdio.c:922-952] the loop of parse_int: the number, whether it is one, and
    the characters left *)
Fixpoint parse_digits (str : list Z) (is_negative : bool) (res : Z) (consumed : bool)
  : Z * bool * list Z :=
  match str with
  | [] => (res, consumed, [])
  | c :: rest =>
    if negb (isdigit c) then (res, consumed, str)
    else if (res =? 0) && (c =? 48) then parse_digits rest is_negative res true
    else
      let digit := if is_negative then (c - 48) * -1 else c - 48 in
      if (res >? Z.quot INT_MAX 10) || ((res =? Z.quot INT_MAX 10) && (digit >? 7))
      then (INT_MAX, false, rest)
      else if (res <? Z.quot INT_MIN 10) || ((res =? Z.quot INT_MIN 10) && (digit <? -8))
      then (INT_MIN, false, rest)
      else parse_digits rest is_negative (res * 10 + digit) true
  end.

(** [Userland/LibC/stdio.c:901-955] parse_int *)
Definition parse_int (str : list Z) : Z * bool * list Z :=
  match str with
  | [] => (0, false, [])
  | c :: rest =>
    if (c =? 45) || (c =? 43) then parse_digits rest (c =? 45) 0 false
    else parse_digits str false 0 false
  end.

(** [Userland/LibC/stdio.c:959-967] the states of vsnprintf *)
Inductive parse_state :=
  | NORMAL
  | PERCENT
  | FIELD_WIDTH
  | PRECISION_DOT
  | PRECISION_NUMBER
  | LENGTH_MODIFIER
  | CONVERSION_SPECIFIER.

(** The variables of the loop of vsnprintf. *)
Record parser := Parser {
  p_state : parse_state;
  p_spec : format_spec;
  p_sink : S;
  p_args : list argument;
  p_format : list Z;
}.

(** What one turn of the loop does: go on, or return [-1]. *)
Definition turn : Type := parser + S.

Definition emit (p : parser) (c : Z) : result turn :=
  st ← sink_write (p_sink p) c;
  Ok (inl (Parser (p_state p) (p_spec p) st (p_args p) (p_format p))).

(** [Userland/LibC/stdio.c:1062-1071] the case '.' *)
Definition case_dot (p : parser) (c : Z) : result turn :=
  match p_state p with
  | PERCENT | FIELD_WIDTH =>
    Ok (inl (Parser PRECISION_DOT (set_has_precision (p_spec p) true) (p_sink p) (p_args p) (p_format p)))
  | NORMAL => emit p c
  | _ => Ok (inr (p_sink p))
  end.

(** [Userland/LibC/stdio.c:1040-1061] the case '*', which falls through to the case '.' *)
Definition case_star (p : parser) (c : Z) : result turn :=
  match p_state p with
  | PERCENT =>
    '(arg, args) ← va_integral (p_args p);
    let arg := sint32 arg in
    let spec := if arg <? 0 then set_justify_left (p_spec p) else p_spec p in
    let arg := if arg <? 0 then sint32 (arg * -1) else arg in
    case_dot (Parser FIELD_WIDTH (set_width spec arg) (p_sink p) args (p_format p)) c
  | PRECISION_DOT =>
    '(arg, args) ← va_integral (p_args p);
    let arg := sint32 arg in
    let spec := if arg >=? 0 then set_precision (p_spec p) arg else p_spec p in
    case_dot (Parser PRECISION_NUMBER spec (p_sink p) args (p_format p)) c
  | NORMAL =>
    st ← sink_write (p_sink p) c;
    case_dot (Parser NORMAL (p_spec p) st (p_args p) (p_format p)) c
  | _ => Ok (inr (p_sink p))
  end.

(** [Userland/LibC/stdio.c:1000-1039] the cases '-', '+', ' ' and '#', which fall through to
    the case '*' *)
Definition case_flag (p : parser) (c : Z) : result turn :=
  match p_state p with
  | NORMAL => emit p c
  | PRECISION_DOT | PRECISION_NUMBER | PERCENT =>
    let '(state, spec) :=
      if c =? 45 then (p_state p, set_sign (p_spec p))
      else if c =? 43 then (p_state p, set_justify_left (p_spec p))
      else
        let spec := if c =? 32 then set_space (p_spec p) true else p_spec p in
        (PERCENT, if c =? 35 then set_alternative spec else spec) in
    case_star (Parser state (set_sign spec) (p_sink p) (p_args p) (p_format p)) c
  | _ => Ok (inr (p_sink p))
  end.

(** [Userland/LibC/stdio.c:1072-1107] the digits *)
Definition case_digit (p : parser) (c : Z) : result turn :=
  match p_state p with
  | PERCENT =>
    if c =? 48 then Ok (inl (Parser PERCENT (set_zeroes (p_spec p) true) (p_sink p) (p_args p) (p_format p)))
    else
      let '(width, ok, format) := parse_int (c :: p_format p) in
      if ok then Ok (inl (Parser FIELD_WIDTH (set_width (p_spec p) width) (p_sink p) (p_args p) format))
      else Ok (inr (p_sink p))
  | PRECISION_DOT =>
    let '(prec, ok, format) := parse_int (c :: p_format p) in
    if ok then Ok (inl (Parser PRECISION_NUMBER (set_precision (p_spec p) prec) (p_sink p) (p_args p) format))
    else Ok (inr (p_sink p))
  | NORMAL => emit p c
  | _ => Ok (inr (p_sink p))
  end.

(** [Userland/LibC/stdio.c:1108-1135] the conversion specifiers; what dispatch_conversion
    returns is ignored *)
Definition case_conversion (p : parser) (c : Z) : result turn :=
  match p_state p with
  | NORMAL => emit p c
  | _ =>
    '(st, args, spec) ← dispatch_conversion (p_sink p) (set_conversion (p_spec p) c) (p_args p);
    Ok (inl (Parser NORMAL spec st args (p_format p)))
  end.

(** [Userland/LibC/stdio.c:1154-1174] a second character of a length modifier: after 'h' the
    case 'l' is tried as well *)
Definition second_modifier (c : Z) (format : list Z) : Z * list Z :=
  let take_if (x : Z) (r : Z * list Z) :=
    match r with
    | (m, t :: rest) => if t =? x then (t, rest) else r
    | _ => r
    end in
  if c =? 104 then take_if 108 (take_if 104 (0, format))
  else if c =? 108 then take_if 108 (0, format)
  else (0, format).

(** [Userland/LibC/stdio.c:1136-1175] the length modifiers *)
Definition case_length (p : parser) (c : Z) : result turn :=
  match p_state p with
  | NORMAL => emit p c
  | LENGTH_MODIFIER => Ok (inr (p_sink p))
  | _ =>
    let '(second, format) := second_modifier c (p_format p) in
    let second := if second =? 0 then snd (length_modifier (p_spec p)) else second in
    Ok (inl (Parser LENGTH_MODIFIER (set_length_modifier (p_spec p) (c, second)) (p_sink p) (p_args p) format))
  end.

(** [Userland/LibC/stdio.c:988-999] the case '%' *)
Definition case_percent (p : parser) (c : Z) : result turn :=
  match p_state p with
  | NORMAL => Ok (inl (Parser PERCENT (p_spec p) (p_sink p) (p_args p) (p_format p)))
  | PERCENT =>
    st ← sink_write (p_sink p) c;
    Ok (inl (Parser NORMAL empty_spec st (p_args p) (p_format p)))
  | _ => Ok (inr (p_sink p))
  end.

Definition is_conversion (c : Z) : bool :=
  existsb (Z.eqb c) [99; 115; 100; 105; 111; 120; 88; 117; 102; 70; 101; 69; 97; 65; 103; 71; 110; 112].

Definition is_length_modifier (c : Z) : bool := existsb (Z.eqb c) [104; 108; 106; 122; 116; 76].

(** [Userland/LibC/stdio.c:986-1178] the switch of vsnprintf on the character consumed *)
Definition format_turn (p : parser) (c : Z) : result turn :=
  if c =? 37 then case_percent p c
  else if (c =? 45) || (c =? 43) || (c =? 32) || (c =? 35) then case_flag p c
  else if c =? 42 then case_star p c
  else if c =? 46 then case_dot p c
  else if between 48 57 c then case_digit p c
  else if is_conversion c then case_conversion p c
  else if is_length_modifier c then case_length p c
  else emit p c.

(** [Userland/LibC/stdio.c:979-1179] the loop of vsnprintf: whether it reached the end of the
    format *)
Fixpoint format_loop (fuel : nat) (p : parser) : result (bool * S) :=
  match fuel with
  | O => Fault OutOfFuel
  | Datatypes.S fuel =>
    match p_format p with
    | [] => Ok (true, p_sink p)
    | c :: format =>
      r ← format_turn (Parser (p_state p) (p_spec p) (p_sink p) (p_args p) format) c;
      match r with
      | inl p => format_loop fuel p
      | inr st => Ok (false, st)
      end
    end
  end.

Definition format_run (format : list Z) (args : list argument) (st : S) : result (bool * S) :=
  format_loop (Datatypes.S (length format)) (Parser NORMAL empty_spec st args format).
End formatter.
Arguments parser : clear implicits.
Arguments turn : clear implicits.

(** [Userland/LibC/stdio.c:957-1185] vsnprintf: what it returns and the memory it leaves *)
Definition vsnprintf (m : bytes) (buffer bufsz : Z) (format : list Z) (args : list argument)
  : result (Z * bytes) :=
  '(finished, st) ← format_run format args (BufferState m buffer bufsz 0);
  if (finished : bool) then
    m ← (if negb (bufsz =? 0)
         then store_byte (bs_memory st)
                (buffer + (if bs_offset st <? bufsz then bs_offset st else bufsz)) 0
         else Ok (bs_memory st));
    Ok (sint32 (bs_offset st), m)
  else Ok (-1, bs_memory st).

(** [Userland/LibC/stdio.c:302-310] snprintf *)
Definition snprintf := vsnprintf.

(** [Userland/LibC/stdio.c:292-300] sprintf *)
Definition sprintf (m : bytes) (buffer : Z) (format : list Z) (args : list argument) :=
  vsnprintf m buffer (W64 - 1) format args.

(** [Userland/LibC/stdio.c:312-315] vsprintf *)
Definition vsprintf := sprintf.

(** ** Numbers *)

(** [Userland/LibC/stdlib.c:31-32] the spaces atoi skips *)
Fixpoint skip_spaces (fuel : nat) (m : bytes) (str : Z) : result Z :=
  match fuel with
  | O => Fault OutOfFuel
  | S fuel =>
    c ← load_byte m str;
    if negb (c =? 0) && isspace c then skip_spaces fuel m (str + 1) else Ok str
  end.

(** [Userland/LibC/stdlib.c:44-63] the digits of atoi *)
Fixpoint atoi_loop (fuel : nat) (m : bytes) (str : Z) (is_negative : bool) (res : Z) : result Z :=
  match fuel with
  | O => Fault OutOfFuel
  | S fuel =>
    c ← load_byte m str;
    if negb (c =? 0) && isdigit c then
      if (res =? 0) && (c =? 48) then atoi_loop fuel m (str + 1) is_negative res
      else
        let digit := if is_negative then (c - 48) * -1 else c - 48 in
        if (res >? Z.quot INT_MAX 10) || ((res =? Z.quot INT_MAX 10) && (digit >? 7))
        then Ok INT_MAX
        else if (res <? Z.quot INT_MIN 10) || ((res =? Z.quot INT_MIN 10) && (digit <? -8))
        then Ok INT_MIN
        else atoi_loop fuel m (str + 1) is_negative (res * 10 + digit)
    else Ok res
  end.

(** [Userland/LibC/stdlib.c:27-66] atoi *)
Definition atoi (m : bytes) (str : Z) : result Z :=
  str ← skip_spaces (walk_fuel m) m str;
  c ← load_byte m str;
  if c =? 0 then Ok 0
  else if (c =? 45) || (c =? 43) then atoi_loop (walk_fuel m) m (str + 1) (c =? 45) 0
  else atoi_loop (walk_fuel m) m str false 0.

(** [Userland/LibC/stdlib.c:7-10] abs *)
Definition abs (n : Z) : Z := if n <? 0 then sint32 (- n) else n.

(** [Userland/LibC/stdlib.c:12-20] labs and llabs *)
Definition labs (n : Z) : Z := if n <? 0 then sint64 (- n) else n.
