(* ===== verification/LibcPrintfSim.v ===== *)
(** The formatter of LibcPrintf.v on a buffer does what it does on an ideal destination, the
    list of the characters written: a simulation between two instances of [Sink], by the
    structure of the code. *)
From S2P Require Import Prelude LibcMemory LibcString LibcPrintf.

(** ** Simulation of runs *)

(** Whenever the run on the right returns, the one on the left does, with related
    results. *)
Definition sim {A B} (R : A -> B -> Prop) (x : result A) (y : result B) : Prop :=
  forall b, y = Ok b -> exists a, x = Ok a /\ R a b.

Lemma sim_ret {A B} (R : A -> B -> Prop) a b : R a b -> sim R (Ok a) (Ok b).
Proof. intros H b' [= <-]. by exists a. Qed.

Lemma sim_fault {A B} (R : A -> B -> Prop) x e : sim R x (Fault e).
Proof. intros b [=]. Qed.

Lemma sim_bind {A B C D} (R : A -> B -> Prop) (T : C -> D -> Prop) x y (f : A -> result C) g :
  sim R x y -> (forall a b, R a b -> sim T (f a) (g b)) -> sim T (x ≫= f) (y ≫= g).
Proof.
  intros Hx Hf d E. apply bind_Ok in E as (b & -> & E). destruct (Hx b) as (a & -> & Hab); [done|].
  by apply (Hf a b Hab).
Qed.

Lemma sim_bind_same {A C D} (T : C -> D -> Prop) (x : result A) f g :
  (forall a, sim T (f a) (g a)) -> sim T (x ≫= f) (x ≫= g).
Proof. intros H. apply (sim_bind eq); [intros a ->; by exists a|by intros a ? <-]. Qed.

Lemma sim_if {A B} (R : A -> B -> Prop) (c : bool) x x' y y' :
  sim R x y -> sim R x' y' -> sim R (if c then x else x') (if c then y else y').
Proof. by destruct c. Qed.

#[local] Hint Resolve sim_ret sim_fault sim_if : core.

Section simulation.
Context {S T : Type} `{!Sink S, !Sink T} (R : S -> T -> Prop).
Hypothesis R_write : forall s t c, R s t -> sim R (sink_write s c) (sink_write t c).
Hypothesis R_offset : forall s t, R s t -> sink_offset s = sink_offset t.
Hypothesis R_memory : forall s t, R s t -> sink_memory t ⊆ sink_memory s.
Hypothesis R_store : forall s t n a v, R s t ->
  sim (fun m m' => R (sink_set_memory s m) (sink_set_memory t m'))
    (store_bytes n (sink_memory s) a v) (store_bytes n (sink_memory t) a v).

Lemma sim_write_times n c s t : R s t -> sim R (write_times n c s) (write_times n c t).
Proof using R_write.
  revert s t. induction n as [|n IH]; intros s t H; simpl; [auto|]. eapply sim_bind; eauto.
Qed.

Lemma sim_write_all l s t : R s t -> sim R (write_all l s) (write_all l t).
Proof using R_write.
  revert s t. induction l as [|c l IH]; intros s t H; simpl; [auto|]. eapply sim_bind; eauto.
Qed.

#[local] Hint Resolve sim_write_times sim_write_all : core.

Lemma load_sim s t a : R s t -> sim eq (load_byte (sink_memory s) a) (load_byte (sink_memory t) a).
Proof using R_memory.
  intros H b E. exists b. split; [|done]. unfold load_byte in *.
  destruct (sink_memory t !! a) eqn:Ea; [|done]. injection E as ->.
  by rewrite (lookup_weaken _ _ _ _ Ea (R_memory _ _ H)).
Qed.

(** Memory on the left may be larger, and the walk of a string have more fuel. *)
Lemma sim_write_string_loop fuel fuel' s t max str stride i :
  (fuel <= fuel')%nat -> R s t ->
  sim R (write_string_loop fuel' s max str stride i) (write_string_loop fuel t max str stride i).
Proof using R_memory R_write.
  revert fuel' s t str i. induction fuel as [|fuel IH]; intros fuel' s t str i Hle H; [apply sim_fault|].
  destruct fuel' as [|fuel']; [lia|]. simpl. eapply sim_bind; [by apply load_sim|]. intros c ? <-.
  apply sim_if; [|auto]. eapply sim_bind; [auto|]. intros s' t' H'. apply IH; [lia|done].
Qed.

Lemma sim_write_string s t spec str stride :
  R s t -> sim R (write_string s spec str stride) (write_string t spec str stride).
Proof using R_memory R_write.
  intros H. unfold write_string. apply sim_write_string_loop; [|done].
  unfold walk_fuel. apply le_n_S, map_subseteq_size. auto.
Qed.

Lemma sim_write_sign s t spec b : R s t -> sim R (write_sign s spec b) (write_sign t spec b).
Proof using R_write. intros H. unfold write_sign. auto 6. Qed.

#[local] Hint Resolve sim_write_sign sim_write_string : core.

Lemma sim_write_number s t spec repr b :
  R s t -> sim R (write_number s spec repr b) (write_number t spec repr b).
Proof using R_write.
  intros H. unfold write_number.
  apply sim_if; repeat (eapply sim_bind; [by eauto|]; intros ? ? ?); eauto.
Qed.

#[local] Hint Resolve sim_write_number : core.

Lemma sim_write_int s t spec x : R s t -> sim R (write_int s spec x) (write_int t spec x).
Proof using R_write.
  intros H. unfold write_int, write_signed_integral. apply sim_if; [auto|].
  do 2 (apply sim_bind_same; intros ?). auto.
Qed.

Lemma sim_converter s t spec x :
  R s t -> sim R (converter spec s spec x) (converter spec t spec x).
Proof using R_write.
  intros H. unfold converter, write_octal, write_hex, write_unsigned, write_unsigned_integral.
  repeat case_match; do 2 (apply sim_bind_same; intros ?); auto.
Qed.

Lemma sim_write_hex s t spec x : R s t -> sim R (write_hex s spec x) (write_hex t spec x).
Proof using R_write.
  intros H. unfold write_hex, write_unsigned_integral. do 2 (apply sim_bind_same; intros ?). auto.
Qed.

Lemma sim_write_float s t spec f : R s t -> sim R (write_float s spec f) (write_float t spec f).
Proof using R_write.
  intros H. unfold write_float. do 2 (apply sim_bind_same; intros ?). auto.
Qed.

#[local] Hint Resolve sim_write_int sim_converter sim_write_hex sim_write_float : core.

(** Results of conversions and of turns of the loop. *)
Definition R_converted (x : S * list argument * format_spec) (y : T * list argument * format_spec) : Prop :=
  R x.1.1 y.1.1 /\ x.1.2 = y.1.2 /\ x.2 = y.2.

Lemma sim_converted x y args spec :
  sim R x y -> sim R_converted (st ← x; Ok (st, args, spec)) (st ← y; Ok (st, args, spec)).
Proof. intros H. eapply sim_bind; [done|]. intros a b Hab. by apply sim_ret. Qed.

Lemma sim_dispatch s t spec args :
  R s t -> sim R_converted (dispatch_conversion s spec args) (dispatch_conversion t spec args).
Proof using R_memory R_offset R_store R_write.
  intros H. unfold dispatch_conversion. destruct (length_modifier spec) as [first second].
  assert (Hr : sim R_converted (Ok (s, args, spec)) (Ok (t, args, spec))) by (by apply sim_ret).
  assert (He : sim R_converted (Ok (s, args, empty_spec)) (Ok (t, args, empty_spec))) by (by apply sim_ret).
  repeat apply sim_if; auto; try (apply sim_bind_same; intros [z args']; apply sim_converted; auto).
  - destruct (signed_argument (first, second) 0) as [z0|]; cbn [fmap option_fmap option_map]; [|done]. apply sim_bind_same. intros [z args'].
    destruct (signed_argument (first, second) z); cbn [fmap option_fmap option_map]; [|done]. apply sim_converted; auto.
  - destruct (unsigned_argument (first, second) 0) as [z0|]; cbn [fmap option_fmap option_map]; [|done]. apply sim_bind_same. intros [z args'].
    destruct (unsigned_argument (first, second) z); cbn [fmap option_fmap option_map]; [|done]. apply sim_converted; auto.
  - destruct (stored_width (first, second)) as [[|width]|]; [done| |done]. apply sim_bind_same. intros [a args'].
    rewrite (R_offset s t H). eapply sim_bind; [by apply R_store|]. intros m m' Hm. by apply sim_ret.
Qed.

Definition R_parser (p : parser S) (q : parser T) : Prop :=
  p_state p = p_state q /\ p_spec p = p_spec q /\ R (p_sink p) (p_sink q) /\
  p_args p = p_args q /\ p_format p = p_format q.

Definition R_turn (x : turn S) (y : turn T) : Prop :=
  match x, y with
  | inl p, inl q => R_parser p q
  | inr s, inr t => R s t
  | _, _ => False
  end.

Lemma sim_emit p q c : R_parser p q -> sim R_turn (emit p c) (emit q c).
Proof using R_write.
  intros (E1 & E2 & H & E3 & E4). unfold emit. eapply sim_bind; [auto|]. intros s t Hst.
  apply sim_ret. by rewrite E1, E2, E3, E4.
Qed.

#[local] Hint Resolve sim_emit : core.

#[local] Arguments parse_int : simpl never.
#[local] Arguments second_modifier : simpl never.

Ltac parsers :=
  intros (? & ? & ? & ? & ?);
  repeat match goal with p : parser _ |- _ => destruct p end; simpl in *; subst.

Lemma sim_dot p q c : R_parser p q -> sim R_turn (case_dot p c) (case_dot q c).
Proof using R_write.
  intros Hp. pose proof (sim_emit p q c Hp). revert Hp. unfold case_dot. parsers.
  case_match; try done; by apply sim_ret.
Qed.

Lemma sim_star p q c : R_parser p q -> sim R_turn (case_star p c) (case_star q c).
Proof using R_write.
  unfold case_star. parsers. case_match; try (by apply sim_ret).
  - eapply sim_bind; [auto|]. intros s t Hst. by apply sim_dot.
  - apply sim_bind_same. intros [arg args]. by apply sim_dot.
  - apply sim_bind_same. intros [arg args]. by apply sim_dot.
Qed.

Lemma sim_flag p q c : R_parser p q -> sim R_turn (case_flag p c) (case_flag q c).
Proof using R_write.
  intros Hp. pose proof (sim_emit p q c Hp). revert Hp. unfold case_flag. parsers.
  case_match; try done; try (by apply sim_ret); destruct (c =? 45), (c =? 43); by apply sim_star.
Qed.

Lemma sim_digit p q c : R_parser p q -> sim R_turn (case_digit p c) (case_digit q c).
Proof using R_write.
  intros Hp. pose proof (sim_emit p q c Hp). revert Hp. unfold case_digit. parsers.
  case_match; try done; try (by apply sim_ret).
  - apply sim_if; [by apply sim_ret|]. destruct (parse_int (c :: _)) as [[width []] format]; by apply sim_ret.
  - destruct (parse_int (c :: _)) as [[prec []] format]; by apply sim_ret.
Qed.

Lemma sim_conversion p q c : R_parser p q -> sim R_turn (case_conversion p c) (case_conversion q c).
Proof using R_memory R_offset R_store R_write.
  intros Hp. pose proof (sim_emit p q c Hp). revert Hp. unfold case_conversion. parsers.
  case_match; try done; (eapply sim_bind; [by apply sim_dispatch|]);
    intros [[s1 args1] spec1] [[t1 args2] spec2] (? & ? & ?); simpl in *; subst; by apply sim_ret.
Qed.

Lemma sim_length p q c : R_parser p q -> sim R_turn (case_length p c) (case_length q c).
Proof using R_write.
  intros Hp. pose proof (sim_emit p q c Hp). revert Hp. unfold case_length. parsers.
  case_match; try done; try (by apply sim_ret); destruct (second_modifier _ _); by apply sim_ret.
Qed.

Lemma sim_percent p q c : R_parser p q -> sim R_turn (case_percent p c) (case_percent q c).
Proof using R_write.
  unfold case_percent. parsers. case_match; try (by apply sim_ret).
  eapply sim_bind; [auto|]. intros s t Hst. by apply sim_ret.
Qed.

Lemma sim_turn p q c : R_parser p q -> sim R_turn (format_turn p c) (format_turn q c).
Proof using R_memory R_offset R_store R_write.
  intros H. unfold format_turn.
  repeat apply sim_if; eauto using sim_percent, sim_flag, sim_star, sim_dot, sim_digit, sim_conversion, sim_length.
Qed.

Lemma sim_format_loop fuel p q :
  R_parser p q ->
  sim (fun x y => x.1 = y.1 /\ R x.2 y.2) (format_loop fuel p) (format_loop fuel q).
Proof using R_memory R_offset R_store R_write.
  revert p q. induction fuel as [|fuel IH]; intros p q H; [apply sim_fault|]. simpl.
  destruct H as (H1 & H2 & H3 & H4 & H5). rewrite H1, H2, H4, H5.
  destruct (p_format q) as [|c format]; [by apply sim_ret|]. eapply sim_bind; [by apply sim_turn|].
  intros [p'|s'] [q'|t']; simpl; try done; [apply IH|]. intros Hst. by apply sim_ret.
Qed.

Lemma sim_format_run format args s t :
  R s t -> sim (fun x y => x.1 = y.1 /\ R x.2 y.2) (format_run format args s) (format_run format args t).
Proof using R_memory R_offset R_store R_write. intros H. by apply sim_format_loop. Qed.
End simulation.
