(* ===== verification/LibcPrintfCorrect.v ===== *)
(** What the formatter of Userland/LibC/stdio.c promises: [vsnprintf] leaves in the buffer
    what the formatter writes on an ideal destination, the plain conversions render their
    arguments, and [atoi] reads back what the conversion [d] wrote. *)
From S2P Require Import Prelude Numerals LibcMemory LibcString LibcStringCorrect LibcPrintf LibcPrintfSim.

(** ** The ideal destination *)

(** Memory and the characters written so far, fewer than there are addresses. *)
Abbreviation text := (bytes * list Z)%type.

Definition text_write (t : text) (c : Z) : result text :=
  if Z.of_nat (length t.2) + 1 <? W64 then Ok (t.1, t.2 ++ [c]) else Fault OutOfBounds.

#[export] Instance text_sink : Sink text := {
  sink_write := text_write;
  sink_offset t := Z.of_nat (length t.2);
  sink_memory := fst;
  sink_set_memory t m := (m, t.2);
}.

(** The formatter on the ideal destination: the code is parametric in it. *)
Definition format_text (format : list Z) (args : list argument) (m : bytes) : result (bool * text) :=
  format_run format args (m, []).

(** ** The buffer *)

(** Memory without the bytes of a buffer. *)
Definition outside (m : bytes) (buffer bufsz : Z) : bytes :=
  filter (fun ab => ~ (buffer <= ab.1 < buffer + bufsz)) m.

Section buffer.
Context (buffer bufsz : Z).
Hypothesis Hsz : 0 <= bufsz < W64.

(** The characters the buffer has room for. *)
Definition kept (out : list Z) : list Z := take (Z.to_nat (bufsz - 1)) out.

Record written (st : buffer_state) (t : text) : Prop := Written {
  wr_buffer : bs_buffer st = buffer;
  wr_bufsz : bs_bufsz st = bufsz;
  wr_offset : bs_offset st = Z.of_nat (length t.2);
  wr_length : Z.of_nat (length t.2) < W64;
  wr_inside : accessible_bytes (bs_memory st) buffer (Z.to_nat bufsz);
  wr_outside : t.1 = outside (bs_memory st) buffer bufsz;
  wr_holds : holds (bs_memory st) buffer (kept t.2);
}.

Lemma lookup_outside m i :
  outside m buffer bufsz !! i = if decide (buffer <= i < buffer + bufsz) then None else m !! i.
Proof.
  unfold outside. case_decide as Hd.
  - apply map_lookup_filter_None. right. intros x _ Hx. by apply Hx.
  - destruct (m !! i) eqn:E; [by apply map_lookup_filter_Some|].
    apply map_lookup_filter_None. by left.
Qed.

Lemma outside_insert_in m i b :
  buffer <= i < buffer + bufsz -> outside (<[i := b]> m) buffer bufsz = outside m buffer bufsz.
Proof.
  intros Hi. apply map_eq. intros j. rewrite !lookup_outside. case_decide; [done|].
  by rewrite lookup_insert_ne by lia.
Qed.

Lemma outside_insert_out m i b :
  ~ (buffer <= i < buffer + bufsz) ->
  outside (<[i := b]> m) buffer bufsz = <[i := b]> (outside m buffer bufsz).
Proof.
  intros Hi. apply map_eq. intros j. rewrite lookup_outside. destruct (decide (j = i)) as [->|].
  - rewrite decide_False by done. by rewrite !lookup_insert_eq.
  - rewrite !lookup_insert_ne by done. by rewrite lookup_outside.
Qed.

Lemma kept_snoc_room out c :
  Z.of_nat (length out) < bufsz - 1 -> kept (out ++ [c]) = kept out ++ [c] /\ kept out = out.
Proof.
  intros H. unfold kept. rewrite (take_ge out), take_ge; [done| |lia].
  rewrite length_app. simpl. lia.
Qed.

Lemma kept_snoc_full out c : bufsz - 1 <= Z.of_nat (length out) -> kept (out ++ [c]) = kept out.
Proof. intros H. unfold kept. by rewrite take_app_le by lia. Qed.

Lemma written_write st t c :
  written st t -> sim written (sink_write st c) (sink_write t c).
Proof using Hsz.
  intros [Hb Hs Ho Hl Hi Hout Hh] t' E. simpl in *. unfold text_write in E.
  destruct (Z.ltb_spec (Z.of_nat (length t.2) + 1) W64) as [Hlt|]; [|done]. injection E as <-.
  unfold write_one. rewrite Hb, Hs, Ho. rewrite wrap64_small by (unfold is_u64; lia).
  replace (if negb (bufsz =? 0) then bufsz - 1 else 0) with (Z.max (bufsz - 1) 0)
    by (destruct (Z.eqb_spec bufsz 0); simpl; lia).
  assert (Hlen : Z.of_nat (length t.2) + 1 = Z.of_nat (length (t.2 ++ [c])))
    by (rewrite length_app; simpl; lia).
  destruct (Z.ltb_spec (Z.of_nat (length t.2)) (Z.max (bufsz - 1) 0)) as [Hroom|Hfull].
  - destruct (kept_snoc_room t.2 c) as [Hk Hk']; [lia|].
    rewrite store_byte_Ok by (apply Hi; lia). eexists. split; [done|].
    constructor; simpl; rewrite ?Hlen; try done; try lia.
    + by apply accessible_insert.
    + rewrite outside_insert_in by lia. done.
    + rewrite Hk. apply holds_app. rewrite Hk' in *. split; [|split; [apply lookup_insert_eq|done]].
      eapply frame_holds; [apply frame_insert|lia|done].
  - eexists. split; [done|]. constructor; simpl; rewrite ?Hlen; try done; try lia.
    by rewrite kept_snoc_full by lia.
Qed.

Lemma written_memory st t : written st t -> sink_memory t ⊆ sink_memory st.
Proof. intros H. simpl. rewrite (wr_outside _ _ H). apply map_filter_subseteq. Qed.

Lemma written_store n st t a v :
  written st t ->
  sim (fun m m' => written (sink_set_memory st m) (sink_set_memory t m'))
    (store_bytes n (sink_memory st) a v) (store_bytes n (sink_memory t) a v).
Proof using Hsz.
  revert st t a v. induction n as [|n IH]; intros st t a v H; simpl.
  { apply sim_ret. by destruct st, t, H. }
  intros m' E. apply bind_Ok in E as (m1 & E1 & E). unfold store_byte in E1.
  destruct (t.1 !! a) as [x|] eqn:Ea; [|done]. injection E1 as <-.
  destruct H as [Hb Hs Ho Hl Hi Hout Hh]. rewrite Hout, lookup_outside in Ea.
  case_decide as Hd; [done|]. rewrite store_byte_Ok by eauto. run.
  set (st1 := sink_set_memory st (<[a := v mod 256]> (bs_memory st))).
  assert (H1 : written st1 (<[a := v mod 256]> t.1, t.2)).
  { constructor; simpl; try done.
    - by apply accessible_insert.
    - rewrite outside_insert_out by done. by rewrite Hout.
    - eapply holds_agree; [|done]. intros i Hi'. apply lookup_insert_ne.
      unfold kept in Hi'. rewrite length_take in Hi'. lia. }
  exact (IH st1 (<[a := v mod 256]> t.1, t.2) (a + 1) (v / 256) H1 m' E).
Qed.

(** A run on the buffer follows the run on the ideal destination. *)
Lemma format_run_written format args st t :
  written st t ->
  sim (fun x y => x.1 = y.1 /\ written x.2 y.2) (format_run format args st) (format_run format args t).
Proof using Hsz.
  intros H. apply sim_format_run; [exact written_write|apply wr_offset|exact written_memory| |done].
  intros. by apply written_store.
Qed.

Lemma written_start m :
  accessible_bytes m buffer (Z.to_nat bufsz) ->
  written (BufferState m buffer bufsz 0) (outside m buffer bufsz, []).
Proof. intros H. constructor; simpl; try done. unfold kept. by rewrite take_nil. Qed.
End buffer.

(** ** Numerals *)

Lemma characters_digit d : 0 <= d < 16 -> read_at characters d = Ok (digit_char d).
Proof.
  intros H. pose proof (all_below_spec 16 (fun d => bool_decide (read_at characters d = Ok (digit_char d))) d) as A.
  apply bool_decide_eq_true in A; [done|reflexivity|done].
Qed.

Definition apply_convert (convert : option (Z -> Z)) (c : Z) : Z :=
  match convert with Some f => f c | None => c end.

Section digits.
Context (base : Z) (convert : option (Z -> Z)).
Hypothesis Hbase : 2 <= base <= 16.

Definition digit_text (d : Z) : Z := apply_convert convert (digit_char d).

Lemma push_digit_Ok repr d :
  0 <= d < base -> Z.of_nat (length repr) < 64 ->
  push_digit convert repr d = Ok (digit_text d :: repr).
Proof using Hbase.
  intros Hd Hl. unfold push_digit, push_front. rewrite characters_digit by lia. run.
  by rewrite (proj2 (Z.ltb_lt _ _)) by (unfold REPR_BUFFER_CAPACITY; lia).
Qed.

(** The loop prepends the digits of its number. *)
Lemma unsigned_digits_Ok n fuel x repr :
  0 <= x < base ^ Z.of_nat n -> (n < fuel)%nat -> (n + length repr <= 64)%nat ->
  exists ds, unsigned_digits fuel base convert x repr = Ok ((digit_text <$> ds) ++ repr) /\
    (length ds <= n)%nat /\ Forall (fun d => 0 <= d < base) ds /\ value base ds = x /\
    (x = 0 -> ds = []) /\ head ds <> Some 0.
Proof using Hbase.
  revert fuel x repr. induction n as [|n IH]; intros fuel x repr Hx Hf Hl;
    (destruct fuel as [|fuel]; [lia|]); cbn [unsigned_digits];
    (destruct (Z.eqb_spec x 0) as [->|Hne]; [exists []; split_and!; simpl; first [done|lia|constructor]|]).
  - simpl in Hx. lia.
  - assert (Hd : 0 <= x mod base < base) by (apply Z.mod_pos_bound; lia).
    rewrite push_digit_Ok by lia. run.
    assert (Hq : 0 <= x / base < base ^ Z.of_nat n).
    { split; [apply Z.div_pos; lia|]. apply Z.div_lt_upper_bound; [lia|].
      rewrite <- Z.pow_succ_r by lia. rewrite Nat2Z.inj_succ in Hx. lia. }
    destruct (IH fuel (x / base) (digit_text (x mod base) :: repr)) as (ds & -> & Hlen & Hds & Hv & H0 & Hh);
      [done|lia|simpl; lia|].
    exists (ds ++ [x mod base]). split_and!.
    + by rewrite fmap_app, <- app_assoc.
    + rewrite length_app. simpl. lia.
    + apply Forall_app. split; [done|]. by apply Forall_singleton.
    + rewrite value_snoc, Hv. rewrite (Z.div_mod x base) at 3 by lia. lia.
    + done.
    + destruct ds as [|d ds]; [|done]. simpl. intros [= Hm]. unfold value in Hv. simpl in Hv.
      rewrite (Z.div_mod x base) in Hne by lia. lia.
Qed.

(** The representation [write_unsigned_integral] builds. *)
Lemma unsigned_repr_Ok x :
  0 <= x < 2 ^ 64 -> 8 <= base ->
  exists ds, (repr ← (if x =? 0 then push_digit convert [] x else Ok []);
              unsigned_digits digits_fuel base convert x repr) = Ok (digit_text <$> ds) /\
    numeral base ds x.
Proof using Hbase.
  intros Hx H8. destruct (Z.eqb_spec x 0) as [->|Hne].
  - rewrite push_digit_Ok by (simpl; lia). run. exists [0]. split; [done|].
    constructor; [apply Forall_singleton; lia|done|done|done].
  - run. assert (H22 : 8 ^ 22 <= base ^ 22) by (apply Z.pow_le_mono_l; lia).
    destruct (unsigned_digits_Ok 22 digits_fuel x []) as (ds & -> & _ & Hds & Hv & _ & Hh);
      [change (Z.of_nat 22) with 22; lia|unfold digits_fuel; lia|simpl; lia|].
    exists ds. split; [by rewrite app_nil_r|]. constructor; [done|done| |done].
    intros ->. unfold value in Hv. simpl in Hv. lia.
Qed.

(** A negative number has the digits of its absolute value. *)
Lemma signed_digits_abs fuel x repr :
  signed_digits fuel base convert x repr = unsigned_digits fuel base convert (Z.abs x) repr.
Proof using Hbase.
  revert x repr. induction fuel as [|fuel IH]; intros x repr; [done|]. simpl.
  destruct (Z.eqb_spec x 0) as [->|Hne]; [done|]. rewrite (proj2 (Z.eqb_neq (Z.abs x) 0)) by lia.
  assert (Hr : (if Z.rem x base <? 0 then Z.rem x base * -1 else Z.rem x base) = Z.abs x mod base).
  { assert (Hm : Z.abs x mod base = Z.abs (Z.rem x base)).
    { rewrite <- Z.rem_abs by lia. rewrite (Z.abs_eq base) by lia. symmetry. apply Z.rem_mod_nonneg; lia. }
    destruct (Z.ltb_spec (Z.rem x base) 0); lia. }
  rewrite Hr. destruct (push_digit convert repr (Z.abs x mod base)); run; [|done].
  rewrite IH. f_equal. rewrite <- Z.quot_abs by lia. rewrite (Z.abs_eq base) by lia.
  apply Z.quot_div_nonneg; lia.
Qed.
End digits.
