(* ===== verification/LibcPrintfTheorems.v ===== *)
(** The properties of the formatted output of Userland/LibC/stdio.c: refinement of the ideal
    destination by the buffer, the rendering of formats made of plain conversions, and the
    round trip with [atoi]. *)
From S2P Require Import Prelude Numerals LibcMemory LibcString LibcStringCorrect LibcPrintf LibcPrintfSim.
From S2P Require Import LibcPrintfCorrect.

(** ** Writing on the ideal destination *)

Definition fits (o : list Z) : Prop := Z.of_nat (length o) < W64.

Lemma fits_app o l : fits (o ++ l) -> fits o.
Proof. unfold fits. rewrite length_app. lia. Qed.

Lemma text_write_Ok (m : bytes) o c : fits (o ++ [c]) -> sink_write (m, o) c = Ok (m, o ++ [c]).
Proof.
  unfold fits. rewrite length_app. simpl. intros H. unfold text_write. simpl.
  by rewrite (proj2 (Z.ltb_lt _ _)) by lia.
Qed.

Lemma write_all_text l (m : bytes) o : fits (o ++ l) -> write_all l (m, o) = Ok (m, o ++ l).
Proof.
  revert o. induction l as [|c l IH]; intros o H; cbn [write_all]; [by rewrite app_nil_r|].
  rewrite (cons_middle c o l), app_assoc in H. rewrite text_write_Ok by (by eapply fits_app). run.
  rewrite IH by done. by rewrite <- app_assoc.
Qed.

Lemma write_string_text s fuel (m : bytes) o a i :
  cstring m a s -> (length s < fuel)%nat -> fits (o ++ s) -> i + Z.of_nat (length s) < W64 ->
  write_string_loop fuel (m, o) (W64 - 1) a 1 i = Ok (m, o ++ s).
Proof.
  revert fuel o a i. induction s as [|c s IH]; intros fuel o a i H Hf Hfit Hi; (destruct fuel as [|fuel]; [lia|]);
    cbn [write_string_loop length sink_memory text_sink fst] in *.
  - apply cstring_nil in H. rewrite (load_byte_Ok m a 0) by done. run. simpl. by rewrite app_nil_r.
  - apply cstring_cons in H as (H & Hc & H'). rewrite (load_byte_Ok m a c) by done. run.
    rewrite (proj2 (Z.eqb_neq _ _)), (proj2 (Z.ltb_lt i _)) by lia. runb.
    rewrite (cons_middle c o s), app_assoc in Hfit. rewrite text_write_Ok by (by eapply fits_app). run.
    rewrite IH by (done || lia). by rewrite <- app_assoc.
Qed.

(** A specification without flags, width or precision. *)
Definition plain_spec (c : Z) : format_spec := set_conversion empty_spec c.

Definition sign_text (negative : bool) : list Z := if negative then [45] else [].

Lemma write_number_plain c repr negative (m : bytes) o :
  fits (o ++ sign_text negative ++ repr) ->
  write_number (m, o) (plain_spec c) repr negative = Ok (m, o ++ sign_text negative ++ repr).
Proof.
  intros H. unfold write_number, plain_spec, set_conversion, empty_spec, set_space, write_sign, width_pad,
    precision_pad. rewrite app_assoc in H.
  destruct negative; cbn [orb justify_left has_precision leading_zeroes prepend_sign prepend_space
    min_field_width conversion_specifier precision alternative_form length_modifier sign_text] in *.
  - change (Z.to_nat (if 1 >? wrap64 0 then 0 else wrap64 0 - 1)) with O. change (Z.to_nat 0) with O.
    cbn [write_times]. run. rewrite text_write_Ok by (by eapply fits_app). run.
    rewrite write_all_text by done. by rewrite <- app_assoc.
  - change (Z.to_nat (if 0 >? wrap64 0 then 0 else wrap64 0 - 0)) with O. change (Z.to_nat 0) with O.
    cbn [write_times]. run. rewrite app_nil_r in H. by rewrite write_all_text by done.
Qed.

(** ** Pieces of a format *)

(** Text without [%] and [*], and the conversions without flags, with their arguments. *)
Inductive piece :=
  | Literal (l : list Z)
  | PercentSign
  | Decimal (x : Z)
  | Unsigned (x : Z)
  | Octal (x : Z)
  | Hex (upper : bool) (x : Z)
  | Character (c : Z)
  | Str (a : Z) (s : list Z).

Definition piece_format (p : piece) : list Z :=
  match p with
  | Literal l => l
  | PercentSign => [37; 37]
  | Decimal _ => [37; 100]
  | Unsigned _ => [37; 117]
  | Octal _ => [37; 111]
  | Hex upper _ => [37; if upper then 88 else 120]
  | Character _ => [37; 99]
  | Str _ _ => [37; 115]
  end.

Definition piece_args (p : piece) : list argument :=
  match p with
  | Literal _ | PercentSign => []
  | Decimal x | Unsigned x | Octal x | Hex _ x => [Integral x]
  | Character c => [Integral c]
  | Str a _ => [Integral a]
  end.

Definition piece_ok (m : bytes) (p : piece) : Prop :=
  match p with
  | Literal l => Forall (fun c => c <> 37 /\ c <> 42) l
  | PercentSign => True
  | Decimal x => INT_MIN <= x <= INT_MAX
  | Unsigned x | Octal x | Hex _ x => 0 <= x < 2 ^ 32
  | Character c => 0 <= c < 256
  | Str a s => 0 <= a < W64 /\ cstring m a s
  end.

(** What a piece renders to. *)
Inductive renders : piece -> list Z -> Prop :=
  | renders_literal l : renders (Literal l) l
  | renders_percent : renders PercentSign [37]
  | renders_decimal x ds :
      numeral 10 ds (Z.abs x) -> renders (Decimal x) (sign_text (x <? 0) ++ (digit_char <$> ds))
  | renders_unsigned x ds : numeral 10 ds x -> renders (Unsigned x) (digit_char <$> ds)
  | renders_octal x ds : numeral 8 ds x -> renders (Octal x) (digit_char <$> ds)
  | renders_upper x ds : numeral 16 ds x -> renders (Hex true x) (digit_char <$> ds)
  | renders_lower x ds : numeral 16 ds x -> renders (Hex false x) (tolower <$> (digit_char <$> ds))
  | renders_character c : renders (Character c) [c]
  | renders_string a s : renders (Str a s) s.

(** The parser between two pieces. *)
Definition at_piece (m : bytes) (o : list Z) (args : list argument) (format : list Z) : parser text :=
  Parser NORMAL empty_spec (m, o) args format.

Lemma emit_text c format (m : bytes) o args :
  c <> 37 -> c <> 42 -> fits (o ++ [c]) ->
  format_turn (at_piece m o args format) c = Ok (inl (at_piece m (o ++ [c]) args format)).
Proof.
  intros H1 H2 Hf.
  assert (E : emit (at_piece m o args format) c = Ok (inl (at_piece m (o ++ [c]) args format))).
  { unfold emit, at_piece. cbn [p_sink p_state p_spec p_args p_format].
    by rewrite text_write_Ok by done. }
  unfold format_turn, case_flag, case_star, case_dot, case_digit, case_conversion, case_length.
  rewrite (proj2 (Z.eqb_neq c 37)), (proj2 (Z.eqb_neq c 42)) by done.
  repeat case_match; done.
Qed.

Lemma literal_run l (m : bytes) o args rest fuel :
  Forall (fun c => c <> 37 /\ c <> 42) l -> fits (o ++ l) ->
  format_loop (length l + fuel) (at_piece m o args (l ++ rest)) =
    format_loop fuel (at_piece m (o ++ l) args rest).
Proof.
  intros Hl. revert o. induction Hl as [|c l [Hc Hc'] Hl IH]; intros o Hf; [by rewrite app_nil_r|].
  cbn [length Nat.add format_loop at_piece p_format app].
  rewrite (cons_middle c o l), app_assoc in Hf.
  pose proof (emit_text c (l ++ rest) m o args Hc Hc') as E. unfold at_piece in E.
  cbn [at_piece p_state p_spec p_sink p_args]. rewrite E by (by eapply fits_app). run.
  fold (at_piece m (o ++ [c]) args (l ++ rest)). rewrite IH by done. by rewrite <- app_assoc.
Qed.

(** A conversion right after the percent sign. *)
Lemma conversion_run c (m : bytes) o o' z args rest fuel :
  is_conversion c = true ->
  dispatch_conversion (m, o) (plain_spec c) (Integral z :: args) = Ok ((m, o'), args, empty_spec) ->
  format_loop (2 + fuel) (at_piece m o (Integral z :: args) (37 :: c :: rest)) =
    format_loop fuel (at_piece m o' args rest).
Proof.
  intros Hc E. cbn [Nat.add format_loop at_piece p_format].
  replace (format_turn _ 37) with (Ok (inl (Parser PERCENT empty_spec (m, o) (Integral z :: args) (c :: rest)) : turn text))
    by reflexivity. run. cbn [at_piece p_format p_state p_spec p_sink p_args].
  assert (Hturn : format_turn (Parser PERCENT empty_spec (m, o) (Integral z :: args) rest) c =
    case_conversion (Parser PERCENT empty_spec (m, o) (Integral z :: args) rest) c).
  { unfold is_conversion in Hc. unfold format_turn.
    repeat (apply orb_true_iff in Hc as [Hc|Hc]; [apply Z.eqb_eq in Hc as ->; reflexivity|]). done. }
  rewrite Hturn. unfold case_conversion. cbn [p_state p_sink p_spec p_args p_format].
  fold (plain_spec c). rewrite E. run. reflexivity.
Qed.

Lemma convert_lower (ds : list Z) : (digit_text (Some tolower) <$> ds) = tolower <$> (digit_char <$> ds).
Proof. by rewrite <- list_fmap_compose. Qed.

(** The unsigned conversions. *)
Lemma unsigned_run base convert c x ds (m : bytes) o :
  (repr ← (if x =? 0 then push_digit convert [] x else Ok []);
   unsigned_digits digits_fuel base convert x repr) = Ok (digit_text convert <$> ds) ->
  fits (o ++ (digit_text convert <$> ds)) ->
  write_unsigned_integral (m, o) (plain_spec c) base convert x = Ok (m, o ++ (digit_text convert <$> ds)).
Proof.
  intros E Hf. unfold write_unsigned_integral. apply bind_Ok in E as (repr & -> & E). run. rewrite E. run.
  apply (write_number_plain c _ false). done.
Qed.

Lemma decimal_run c x ds (m : bytes) o :
  (repr ← (if Z.abs x =? 0 then push_digit None [] (Z.abs x) else Ok []);
   unsigned_digits digits_fuel 10 None (Z.abs x) repr) = Ok (digit_text None <$> ds) ->
  fits (o ++ sign_text (x <? 0) ++ (digit_text None <$> ds)) ->
  write_int (m, o) (plain_spec c) x = Ok (m, o ++ sign_text (x <? 0) ++ (digit_text None <$> ds)).
Proof.
  intros E Hf. unfold write_int, write_signed_integral. cbn [has_precision plain_spec set_conversion empty_spec andb].
  apply bind_Ok in E as (repr & E1 & E).
  replace (if x =? 0 then push_digit None [] x else Ok []) with (Ok repr : result (list Z)).
  - run. rewrite signed_digits_abs by lia. rewrite E. run. by apply write_number_plain.
  - rewrite <- E1. destruct (Z.eqb_spec x 0) as [->|]; [done|]. by rewrite (proj2 (Z.eqb_neq (Z.abs x) 0)) by lia.
Qed.

Lemma sint32_small x : INT_MIN <= x <= INT_MAX -> sint32 x = x.
Proof. unfold INT_MIN, INT_MAX, sint32. intros H. rewrite Z.mod_small by lia. lia. Qed.

(** The plain conversions read one argument. *)
Section dispatch.
  Context (st : text) (z : Z) (args : list argument).

Definition one_argument (c : Z) (write : result text) : Prop :=
  dispatch_conversion st (plain_spec c) (Integral z :: args) = (st ← write; Ok (st, args, empty_spec)).

Lemma dispatch_d : one_argument 100 (write_int st (plain_spec 100) (sint32 z)).
Proof. reflexivity. Qed.

Lemma dispatch_u : one_argument 117 (write_unsigned_integral st (plain_spec 117) 10 None (wrap32 z)).
Proof. reflexivity. Qed.

Lemma dispatch_o : one_argument 111 (write_unsigned_integral st (plain_spec 111) 8 None (wrap32 z)).
Proof. reflexivity. Qed.

Lemma dispatch_X : one_argument 88 (write_unsigned_integral st (plain_spec 88) 16 None (wrap32 z)).
Proof. reflexivity. Qed.

Lemma dispatch_x : one_argument 120 (write_unsigned_integral st (plain_spec 120) 16 (Some tolower) (wrap32 z)).
Proof. reflexivity. Qed.

Lemma dispatch_c : one_argument 99 (sink_write st (wrap8 z)).
Proof. reflexivity. Qed.

Lemma dispatch_s :
  one_argument 115 (write_string_loop (walk_fuel (sink_memory st)) st (W64 - 1) (wrap64 z) 1 0).
Proof. reflexivity. Qed.
End dispatch.

(** Every piece renders, and a format goes on after it. *)
Lemma piece_run p (m : bytes) :
  piece_ok m p ->
  exists out, renders p out /\
    forall o args rest fuel, fits (o ++ out) ->
    format_loop (length (piece_format p) + fuel) (at_piece m o (piece_args p ++ args) (piece_format p ++ rest)) =
      format_loop fuel (at_piece m (o ++ out) args rest).
Proof.
  assert (H32 : forall x, 0 <= x < 2 ^ 32 -> wrap32 x = x) by (intros; by apply Z.mod_small).
  destruct p as [l| |x|x|x|upper x|c|a s]; cbn [piece_ok]; intros Hp.
  - exists l. split; [constructor|]. intros. by apply literal_run.
  - exists [37]. split; [constructor|]. intros o args rest fuel Hf.
    cbn [length piece_format piece_args app Nat.add format_loop at_piece p_format].
    cbn -[text_write fits format_loop]. by rewrite text_write_Ok by done.
  - destruct (unsigned_repr_Ok 10 None ltac:(lia) (Z.abs x)) as (ds & E & Hn);
      [unfold INT_MIN, INT_MAX in Hp; lia|lia|].
    exists (sign_text (x <? 0) ++ (digit_char <$> ds)). split; [by constructor|].
    intros o args rest fuel Hf. apply conversion_run; [done|].
    rewrite dispatch_d. rewrite sint32_small by done.
    by rewrite (decimal_run 100 x ds m o E Hf).
  - destruct (unsigned_repr_Ok 10 None ltac:(lia) x) as (ds & E & Hn); [lia|lia|].
    exists (digit_char <$> ds). split; [by constructor|]. intros o args rest fuel Hf. apply conversion_run; [done|].
    rewrite dispatch_u. rewrite H32 by done.
    by rewrite (unsigned_run 10 None 117 x ds m o E Hf).
  - destruct (unsigned_repr_Ok 8 None ltac:(lia) x) as (ds & E & Hn); [lia|lia|].
    exists (digit_char <$> ds). split; [by constructor|]. intros o args rest fuel Hf. apply conversion_run; [done|].
    rewrite dispatch_o. rewrite H32 by done.
    by rewrite (unsigned_run 8 None 111 x ds m o E Hf).
  - destruct upper.
    + destruct (unsigned_repr_Ok 16 None ltac:(lia) x) as (ds & E & Hn); [lia|lia|].
      exists (digit_char <$> ds). split; [by constructor|]. intros o args rest fuel Hf. apply conversion_run; [done|].
      rewrite dispatch_X. rewrite H32 by done.
      by rewrite (unsigned_run 16 None 88 x ds m o E Hf).
    + destruct (unsigned_repr_Ok 16 (Some tolower) ltac:(lia) x) as (ds & E & Hn); [lia|lia|].
      exists (tolower <$> (digit_char <$> ds)). split; [by constructor|]. intros o args rest fuel Hf.
      rewrite <- convert_lower in *. apply conversion_run; [done|].
      rewrite dispatch_x. rewrite H32 by done.
      by rewrite (unsigned_run 16 (Some tolower) 120 x ds m o E Hf).
  - exists [c]. split; [constructor|]. intros o args rest fuel Hf. apply conversion_run; [done|].
    rewrite dispatch_c. unfold wrap8.
    rewrite Z.mod_small by done. by rewrite text_write_Ok by done.
  - destruct Hp as [Ha Hs]. exists s. split; [constructor|]. intros o args rest fuel Hf. apply conversion_run; [done|].
    rewrite dispatch_s. rewrite wrap64_small by done. cbn [sink_memory text_sink fst]. apply cstring_size in Hs as Hl.
    rewrite (write_string_text s) by (done || (unfold walk_fuel, fits in *; rewrite ?length_app in *; lia)). done.
Qed.

Lemma pieces_run ps (m : bytes) :
  Forall (piece_ok m) ps ->
  exists outs, Forall2 renders ps outs /\
    forall o args rest fuel, fits (o ++ concat outs) ->
    format_loop (length (concat (piece_format <$> ps)) + fuel)
        (at_piece m o (concat (piece_args <$> ps) ++ args) (concat (piece_format <$> ps) ++ rest)) =
      format_loop fuel (at_piece m (o ++ concat outs) args rest).
Proof.
  induction 1 as [|p ps Hp Hps (outs & Hr & IH)].
  - exists []. split; [constructor|]. intros o args rest fuel _. simpl. by rewrite app_nil_r.
  - destruct (piece_run p m Hp) as (out & Ho & Hrun). exists (out :: outs). split; [by constructor|].
    intros o args rest fuel Hf. cbn [fmap list_fmap concat] in *. rewrite !length_app, <- !app_assoc.
    rewrite app_assoc in Hf. rewrite <- Nat.add_assoc. rewrite Hrun by (by eapply fits_app).
    rewrite IH by done. by rewrite <- app_assoc.
Qed.

(** The format string and the arguments of a list of pieces. *)
Definition format_of (ps : list piece) : list Z := concat (piece_format <$> ps).
Definition args_of (ps : list piece) : list argument := concat (piece_args <$> ps).

Lemma format_text_pieces ps (m : bytes) :
  Forall (piece_ok m) ps ->
  exists outs, Forall2 renders ps outs /\
    (fits (concat outs) -> format_text (format_of ps) (args_of ps) m = Ok (true, (m, concat outs))).
Proof.
  intros H. destruct (pieces_run ps m H) as (outs & Hr & Hrun). exists outs. split; [done|]. intros Hf.
  unfold format_text, format_run. specialize (Hrun [] [] [] 1%nat Hf).
  rewrite !app_nil_r, Nat.add_1_r in Hrun. exact Hrun.
Qed.

(** ** The buffer *)

Lemma outside_frame m m' buffer bufsz :
  outside m' buffer bufsz = outside m buffer bufsz -> frame m m' buffer bufsz.
Proof.
  intros E i Hi. pose proof (lookup_outside buffer bufsz m' i) as H1.
  pose proof (lookup_outside buffer bufsz m i) as H2. rewrite E in H1.
  rewrite decide_False in H1, H2 by done. congruence.
Qed.

(** The run on the buffer ended at [st], as the ideal one ended at [t]. *)
Lemma vsnprintf_run m buffer bufsz format args (finished : bool) (t : text) :
  0 <= bufsz < W64 -> accessible_bytes m buffer (Z.to_nat bufsz) ->
  format_text format args (outside m buffer bufsz) = Ok (finished, t) ->
  exists st, format_run format args (BufferState m buffer bufsz 0) = Ok (finished, st) /\
    written buffer bufsz st t.
Proof.
  intros Hsz Ha E. destruct (format_run_written buffer bufsz Hsz format args _ _ (written_start _ _ m Ha) _ E)
    as ([finished' st] & E' & Hf & Hw). simpl in *. subst. by exists st.
Qed.

Lemma vsnprintf_fits m buffer bufsz format args m' out :
  0 <= bufsz < W64 -> accessible_bytes m buffer (Z.to_nat bufsz) ->
  format_text format args (outside m buffer bufsz) = Ok (true, (m', out)) ->
  Z.of_nat (length out) < bufsz ->
  exists m'', vsnprintf m buffer bufsz format args = Ok (sint32 (Z.of_nat (length out)), m'') /\
    holds m'' buffer (out ++ [0]) /\ outside m'' buffer bufsz = m'.
Proof.
  intros Hsz Ha E Hlt. destruct (vsnprintf_run _ _ _ _ _ _ _ Hsz Ha E) as (st & Est & [Hb Hs Ho Hl Hi Hout Hh]).
  simpl in *. unfold vsnprintf. rewrite Est. run. rewrite (proj2 (Z.eqb_neq _ _)) by lia. cbn [negb].
  rewrite Ho, (proj2 (Z.ltb_lt _ _)) by lia. rewrite store_byte_Ok by (apply Hi; lia). run.
  eexists. split; [done|]. assert (Hk : kept bufsz out = out) by (apply take_ge; lia). rewrite Hk in Hh. split.
  - apply holds_app. split; [|split; [apply lookup_insert_eq|done]].
    eapply frame_holds; [apply frame_insert|lia|done].
  - rewrite outside_insert_in by lia. done.
Qed.

(** C19: vsnprintf refines the formatter that writes to an unbounded text, for every format
    and all arguments whose strings lie outside the buffer: it fails exactly when that
    formatter fails; otherwise it returns the length of the whole text, whatever the size
    of the buffer, and leaves in the buffer the text with its terminator when there is
    room, or its first characters; memory outside the buffer changes as it does there.
    When the text does not fit, the terminator is written one byte past the buffer. *)
Theorem vsnprintf_refines (m : bytes) (buffer bufsz : Z) (format : list Z) (args : list argument)
    (finished : bool) (m' : bytes) (out : list Z) :
  0 <= bufsz < W64 -> accessible_bytes m buffer (Z.to_nat bufsz) ->
  format_text format args (outside m buffer bufsz) = Ok (finished, (m', out)) ->
  let n := Z.of_nat (length out) in
  if finished then
    if n <? bufsz then
      exists m'', vsnprintf m buffer bufsz format args = Ok (sint32 n, m'') /\
        holds m'' buffer (out ++ [0]) /\ outside m'' buffer bufsz = m'
    else if bufsz =? 0 then vsnprintf m buffer bufsz format args = Ok (sint32 n, m')
    else if decide (is_Some (m' !! (buffer + bufsz))) then
      exists m'', vsnprintf m buffer bufsz format args = Ok (sint32 n, m'') /\
        holds m'' buffer (take (Z.to_nat (bufsz - 1)) out) /\
        outside m'' buffer bufsz = <[buffer + bufsz := 0]> m'
    else vsnprintf m buffer bufsz format args = Fault OutOfBounds
  else
    exists m'', vsnprintf m buffer bufsz format args = Ok (-1, m'') /\
      holds m'' buffer (take (Z.to_nat (bufsz - 1)) out) /\ outside m'' buffer bufsz = m'.
Proof.
  intros Hsz Ha E n. pose proof (vsnprintf_fits m buffer bufsz format args m' out Hsz Ha) as Hfit.
  destruct (vsnprintf_run _ _ _ _ _ _ _ Hsz Ha E) as (st & Est & [Hb Hs Ho Hl Hi Hout Hh]).
  simpl in Ho, Hl, Hout, Hh. destruct finished.
  - destruct (Z.ltb_spec n bufsz) as [Hlt|Hge]; [by apply Hfit|]. unfold vsnprintf. rewrite Est. run.
    rewrite Ho. destruct (Z.eqb_spec bufsz 0) as [Hz|Hz]; cbn [negb].
    + run. do 2 f_equal. rewrite Hout. apply map_eq. intros i. rewrite lookup_outside, decide_False by lia. done.
    + fold n. rewrite (proj2 (Z.ltb_ge _ _)) by lia.
      assert (Hend : m' !! (buffer + bufsz) = bs_memory st !! (buffer + bufsz))
        by (rewrite Hout, lookup_outside, decide_False by lia; done).
      rewrite Hend. case_decide as Hd.
      * rewrite store_byte_Ok by done. run. eexists. split; [done|]. split.
        -- eapply frame_holds; [apply frame_insert| |exact Hh]. unfold kept. rewrite length_take. lia.
        -- rewrite outside_insert_out by lia. by rewrite Hout.
      * unfold store_byte. apply eq_None_not_Some in Hd. by rewrite Hd.
  - exists (bs_memory st). unfold vsnprintf. rewrite Est. run. split; [done|]. by split.
Qed.

(** A buffer of eight bytes at 100 and the string "abc" at 200. *)
Definition print_memory : bytes := put 100 (replicate 8 170) (put 200 [97; 98; 99; 0] ∅).

Lemma print_accessible : accessible_bytes print_memory 100 8.
Proof.
  apply (holds_accessible _ _ (replicate 8 170)). apply holds_put.
Qed.

(** "%s=%d" *)
Definition print_format : list Z := [37; 115; 61; 37; 100].

Lemma vsnprintf_refines_witness :
  exists m'', vsnprintf print_memory 100 8 print_format [Integral 200; Integral (-42)] = Ok (7, m'') /\
    holds m'' 100 [97; 98; 99; 61; 45; 52; 50; 0].
Proof.
  assert (Hsz : 0 <= 8 < W64) by lia.
  assert (E : format_text print_format [Integral 200; Integral (-42)] (outside print_memory 100 8) =
    Ok (true, (outside print_memory 100 8, [97; 98; 99; 61; 45; 52; 50]))) by (vm_compute; reflexivity).
  destruct (vsnprintf_refines print_memory 100 8 print_format [Integral 200; Integral (-42)] true _ _
    Hsz print_accessible E) as (m'' & E' & Hh & _).
  exists m''. split; [exact E'|exact Hh].
Defined.

(** C22: snprintf on a format made of literal text that has neither '%' nor '*' in it (a star is written
    twice, stdio.c:1057) and of the conversions d, u, o, x, X, c, s and %% without flags writes the
    renderings of the pieces one after the other: a decimal, octal or hexadecimal numeral without
    leading zeroes, with a minus sign for a negative number, the character, or the characters of the
    string, which must lie outside of the buffer.  When the text and its terminator fit the buffer, it
    returns the number of characters, terminates the text and touches only the buffer (when they do
    not fit, the terminator is written past the end of the buffer, stdio.c:1182). *)
Theorem snprintf_renders (m : bytes) (buffer bufsz : Z) (ps : list piece) :
  0 <= bufsz < W64 -> accessible_bytes m buffer (Z.to_nat bufsz) ->
  Forall (piece_ok (outside m buffer bufsz)) ps ->
  exists outs, Forall2 renders ps outs /\
    (Z.of_nat (length (concat outs)) < bufsz ->
     exists m', snprintf m buffer bufsz (format_of ps) (args_of ps) =
         Ok (sint32 (Z.of_nat (length (concat outs))), m') /\
       holds m' buffer (concat outs ++ [0]) /\ frame m m' buffer bufsz).
Proof.
  intros Hsz Ha Hps. destruct (format_text_pieces ps _ Hps) as (outs & Hr & Hrun).
  exists outs. split; [done|]. intros Hlt.
  destruct (vsnprintf_fits m buffer bufsz (format_of ps) (args_of ps) _ _ Hsz Ha (Hrun ltac:(unfold fits; lia)) Hlt)
    as (m' & E & Hh & Hout).
  exists m'. split_and!; [done|done|by apply outside_frame].
Qed.

Lemma snprintf_renders_witness :
  exists outs, Forall2 renders [Str 200 [97; 98; 99]; Literal [61]; Hex false 255] outs /\
    (Z.of_nat (length (concat outs)) < 8 ->
     exists m', snprintf print_memory 100 8 [37; 115; 61; 37; 120] [Integral 200; Integral 255] =
         Ok (sint32 (Z.of_nat (length (concat outs))), m') /\
       holds m' 100 (concat outs ++ [0]) /\ frame print_memory m' 100 8).
Proof.
  assert (Hsz : 0 <= 8 < W64) by lia.
  assert (Hp : Forall (piece_ok (outside print_memory 100 8)) [Str 200 [97; 98; 99]; Literal [61]; Hex false 255]).
  { repeat constructor; try lia. }
  exact (snprintf_renders print_memory 100 8 _ Hsz print_accessible Hp).
Defined.

(** ** Reading numbers back *)

(** The number digits add to [v]. *)
Definition extend (v : Z) (ds : list Z) : Z := fold_left (fun v d => v * 10 + d) ds v.

Lemma extend_le ds v : 0 <= v -> Forall (fun d => 0 <= d < 10) ds -> v <= extend v ds.
Proof.
  intros Hv H. revert v Hv. induction H as [|d ds Hd H IH]; intros v Hv; unfold extend in *; simpl; [lia|].
  specialize (IH (v * 10 + d) ltac:(lia)). lia.
Qed.

Definition signed (negative : bool) (v : Z) : Z := if negative then - v else v.

Lemma digit_char_small d : 0 <= d < 10 -> digit_char d = 48 + d.
Proof. intros H. unfold digit_char. by rewrite (proj2 (Z.ltb_lt _ _)) by lia. Qed.

(** [atoi] accumulates a numeral that is in range. *)
Lemma atoi_loop_Ok ds fuel m a negative v :
  holds m a ((digit_char <$> ds) ++ [0]) -> Forall (fun d => 0 <= d < 10) ds ->
  (length ds < fuel)%nat -> 0 <= v -> INT_MIN <= signed negative (extend v ds) <= INT_MAX ->
  atoi_loop fuel m a negative (signed negative v) = Ok (signed negative (extend v ds)).
Proof.
  intros H Hd. revert fuel a v H. induction Hd as [|d ds Hd Hds IH]; intros fuel a v H Hf Hv Hr;
    (destruct fuel as [|fuel]; [simpl in Hf; lia|]); cbn [atoi_loop].
  - destruct H as [H _]. rewrite (load_byte_Ok m a 0) by done. run. reflexivity.
  - destruct H as [H H']. rewrite (load_byte_Ok m a _ H). run. rewrite digit_char_small by done.
    rewrite isdigit_digit by done. rewrite (proj2 (Z.eqb_neq (48 + d) 0)) by lia. cbn [negb andb].
    cbn [length] in Hf. change (extend v (d :: ds)) with (extend (v * 10 + d) ds) in *.
    pose proof (extend_le ds (v * 10 + d) ltac:(lia) Hds) as Hle.
    assert (Hnext : signed negative v * 10 + (if negative then (48 + d - 48) * -1 else 48 + d - 48)
      = signed negative (v * 10 + d)) by (unfold signed; destruct negative; lia).
    rewrite Hnext. change (Z.quot INT_MAX 10) with 214748364. change (Z.quot INT_MIN 10) with (-214748364).
    unfold INT_MIN, INT_MAX in Hr.
    destruct ((signed negative v =? 0) && (48 + d =? 48)) eqn:E0.
    + bool_to_prop. rewrite <- (IH fuel (a + 1) (v * 10 + d)) by (done || lia). do 2 f_equal.
      unfold signed in *. destruct negative; lia.
    + replace (_ || _) with false by (symmetry; unfold signed in *; destruct negative; blia).
      replace (_ || _) with false by (symmetry; unfold signed in *; destruct negative; blia).
      apply IH; [done|lia|lia|done].
Qed.

Lemma skip_spaces_none m a c fuel :
  m !! a = Some c -> 0 <= c < 256 -> between 9 13 c || (c =? 32) = false -> (0 < fuel)%nat ->
  skip_spaces fuel m a = Ok a.
Proof.
  intros H Hc Hs Hf. destruct fuel as [|fuel]; [lia|]. simpl. rewrite (load_byte_Ok m a c) by done. run.
  destruct (ctype_classes c Hc) as (_ & _ & _ & ->). by rewrite Hs, andb_false_r.
Qed.

(** [atoi] reads the rendering of a decimal number. *)
Lemma atoi_renders m a x out :
  renders (Decimal x) out -> INT_MIN <= x <= INT_MAX -> holds m a (out ++ [0]) -> atoi m a = Ok x.
Proof.
  intros Hr Hx H. inversion Hr as [| |? ds [Hd Hv Hne Hh]| | | | | |]; subst.
  assert (Hfuel : (length (sign_text (x <? 0)%Z ++ (digit_char <$> ds)) < walk_fuel m)%nat).
  { apply holds_size in H. rewrite length_app in H. simpl in H. unfold walk_fuel. lia. }
  rewrite length_app, length_fmap in Hfuel.
  assert (Hval : signed (x <? 0) (extend 0 ds) = x).
  { change (extend 0 ds) with (value 10 ds). rewrite Hv. unfold signed. destruct (Z.ltb_spec x 0); lia. }
  destruct ds as [|d ds]; [done|]. inversion Hd as [|? ? Hd0 _]; subst.
  unfold atoi. destruct (x <? 0) eqn:Hneg; cbn [sign_text app] in H.
  - destruct H as [H H']. rewrite (skip_spaces_none _ _ 45) by (done || (unfold walk_fuel; lia)). run.
    rewrite (load_byte_Ok m a 45) by done. run. change (45 =? 0) with false. change (45 =? 45) with true. cbn [orb].
    pose proof (atoi_loop_Ok (d :: ds) (walk_fuel m) m (a + 1) true 0 H' Hd) as E. rewrite Hval in E.
    apply E; [simpl in *; lia|lia|done].
  - pose proof H as H0. destruct H as [H _]. rewrite digit_char_small in H by done.
    rewrite (skip_spaces_none _ _ (48 + d)) by (done || lia || (unfold between; blia) || (unfold walk_fuel; lia)). run.
    rewrite (load_byte_Ok m a (48 + d)) by done. run. rewrite (proj2 (Z.eqb_neq _ _)) by lia.
    replace (_ || _) with false by (symmetry; blia).
    pose proof (atoi_loop_Ok (d :: ds) (walk_fuel m) m a false 0 H0 Hd) as E. rewrite Hval in E.
    apply E; [simpl in *; lia|lia|done].
Qed.

Lemma extend_bound d ds :
  1 <= d -> Forall (fun d => 0 <= d < 10) ds -> 10 ^ Z.of_nat (length ds) <= extend d ds.
Proof.
  intros Hd H. revert d Hd. induction H as [|e ds He H IH]; intros d Hd; [simpl; lia|].
  change (extend d (e :: ds)) with (extend (d * 10 + e) ds). cbn [length]. rewrite Nat2Z.inj_succ, Z.pow_succ_r by lia.
  assert (Hmono : forall ds v w, 0 <= v -> 10 * v <= w -> Forall (fun d => 0 <= d < 10) ds ->
    10 ^ Z.of_nat (length ds) * w <= extend w ds).
  { clear. intros ds v w Hv Hw H. revert w Hw. induction H as [|e ds He H IH]; intros w Hw.
    - simpl. unfold extend. simpl. lia.
    - change (extend w (e :: ds)) with (extend (w * 10 + e) ds). cbn [length].
      rewrite Nat2Z.inj_succ, Z.pow_succ_r by lia. specialize (IH (w * 10 + e) ltac:(lia)). nia. }
  specialize (Hmono ds 0 (d * 10 + e) ltac:(lia) ltac:(lia) H). nia.
Qed.

Lemma decimal_length x out :
  renders (Decimal x) out -> INT_MIN <= x <= INT_MAX -> (length out <= 11)%nat.
Proof.
  intros Hr Hx. inversion Hr as [| |? ds [Hd Hv Hne Hh]| | | | | |]; subst.
  rewrite length_app, length_fmap. destruct ds as [|d ds]; [done|]. inversion Hd as [|? ? Hd0 Hds]; subst.
  assert (Hs : (length (sign_text (x <? 0)%Z) <= 1)%nat) by (destruct (x <? 0); simpl; lia).
  destruct (decide (d = 0)) as [->|].
  { rewrite Hh by done. simpl. lia. }
  assert (Hl : ~ (10 <= length ds)%nat).
  { intros Hl. pose proof (extend_bound d ds ltac:(lia) Hds) as Hb.
    assert (10 ^ 10 <= 10 ^ Z.of_nat (length ds)) by (apply Z.pow_le_mono_r; lia).
    change (value 10 (d :: ds)) with (extend d ds) in Hv. unfold INT_MIN, INT_MAX in Hx. lia. }
  cbn [length]. lia.
Qed.

(** Every 32-bit number survives the round trip through its text: the conversion d
    writes it into any buffer of twelve bytes, and atoi reads it back from there. *)
Theorem printf_atoi_roundtrip (m : bytes) (buffer bufsz x : Z) :
  12 <= bufsz < W64 -> accessible_bytes m buffer (Z.to_nat bufsz) -> INT_MIN <= x <= INT_MAX ->
  exists n m', snprintf m buffer bufsz [37; 100] [Integral x] = Ok (n, m') /\ 0 < n < 12 /\
    atoi m' buffer = Ok x /\ frame m m' buffer bufsz.
Proof.
  intros Hsz Ha Hx.
  destruct (format_text_pieces [Decimal x] (outside m buffer bufsz)) as (outs & Hr & Hrun); [by apply Forall_singleton|].
  apply Forall2_cons_inv_l in Hr as (out & ? & Hr & Hnil & ->). apply Forall2_nil_inv_l in Hnil as ->.
  pose proof (decimal_length x out Hr Hx) as Hlen. simpl concat in Hrun. rewrite app_nil_r in Hrun.
  destruct (vsnprintf_fits m buffer bufsz (format_of [Decimal x]) (args_of [Decimal x]) _ _ ltac:(lia) Ha
    (Hrun ltac:(unfold fits; lia)) ltac:(lia)) as (m' & E & Hh & Hout).
  exists (Z.of_nat (length out)), m'. rewrite sint32_small in E by (unfold INT_MIN, INT_MAX; lia).
  split_and!; [done| |lia|by eapply atoi_renders|by apply outside_frame].
  inversion Hr as [| |? ds [_ _ Hne _]| | | | | |]; subst. rewrite length_app, length_fmap.
  destruct ds; [done|]. simpl. lia.
Qed.

Lemma printf_atoi_roundtrip_witness :
  exists n m', snprintf (put 100 (replicate 12 170) ∅) 100 12 [37; 100] [Integral (-2147483648)] = Ok (n, m') /\
    atoi m' 100 = Ok (-2147483648).
Proof.
  assert (Hsz : 12 <= 12 < W64) by lia.
  assert (Ha : accessible_bytes (put 100 (replicate 12 170) ∅) 100 12)
    by (apply (holds_accessible _ _ (replicate 12 170)); apply holds_put).
  assert (Hx : INT_MIN <= -2147483648 <= INT_MAX) by (unfold INT_MIN, INT_MAX; lia).
  destruct (printf_atoi_roundtrip _ 100 12 (-2147483648) Hsz Ha Hx) as (n & m' & E & _ & Ea & _).
  exists n, m'. split; [exact E|exact Ea].
Defined.

(** ** Where the code departs from the C standard *)

(** The text a format gives, as the code writes it. *)
Definition printed (format : list Z) (args : list argument) : result (bool * list Z) :=
  '(finished, (_, out)) ← format_text format args ∅; Ok (finished, out).

(** A truncated text has its terminator one byte past the buffer, not at its last byte. *)
Example snprintf_terminates_past_buffer :
  snprintf (put 100 [170; 170; 170] ∅) 100 3 [97; 98; 99; 100] [] = Fault OutOfBounds.
Proof. vm_compute. reflexivity. Qed.

(** "%3d" of 7 pads to the width before counting the digits: four characters. *)
Example width_ignores_digits : printed [37; 51; 100] [Integral 7] = Ok (true, [32; 32; 32; 55]).
Proof. vm_compute. reflexivity. Qed.

(** "%-d" falls through to the case of the star and takes a width from the arguments; the
    flag itself asks for a sign. *)
Example minus_flag_takes_argument :
  printed [37; 45; 100] [Integral 0; Integral 7] = Ok (true, [43; 55]).
Proof. vm_compute. reflexivity. Qed.

(** "%.*d" is refused. *)
Example star_precision_refused : printed [37; 46; 42; 100] [Integral 3; Integral 7] = Ok (false, []).
Proof. vm_compute. reflexivity. Qed.

(** A star in plain text is written twice. *)
Example star_written_twice : printed [42] [] = Ok (true, [42; 42]).
Proof. vm_compute. reflexivity. Qed.

(** 0.5 has no digit before its point. *)
Example float_without_integral_digit :
  printed [37; 46; 49; 102] [Floating (Float false 0 (fun _ => 5))] = Ok (true, [46; 53]).
Proof. vm_compute. reflexivity. Qed.
