(* ===== verification/LibcStdio.v ===== *)
(** The streams of Userland/LibC/stdio.c: the buffer of a [FILE], the writes, flushes and
    seeks on it, the parsing of the mode of [fopen], and [vfprintf].  The system calls are
    the interface [Kernel]; its state also tells which bytes each handle has accepted.  A
    [FILE] is its five fields; [file_ptr_open] leaves the flags, and the buffer of an
    unbuffered stream, uninitialised, so they are arguments here. *)
From S2P Require Import Prelude Numerals LibcMemory LibcString LibcStringCorrect LibcPrintf LibcPrintfSim.
From S2P Require Import LibcPrintfCorrect LibcPrintfTheorems.

(** ** The system calls *)

Class Kernel (io : Type) := {
  io_write : io -> Z -> bytes -> Z -> Z -> result (Z * io);
  io_read : io -> Z -> bytes -> Z -> Z -> result (Z * bytes * io);
  io_seek : io -> Z -> Z -> Z -> Z * io;
  delivered : io -> Z -> list Z;
}.

(** A kernel whose writes to a handle take every byte. *)
Class WritesAll (io : Type) `{!Kernel io} := {
  io_write_all : forall k h m p l, holds m p l ->
    exists k', io_write k h m p (Z.of_nat (length l)) = Ok (Z.of_nat (length l), k') /\
      delivered k' h = delivered k h ++ l /\
      forall h', h' <> h -> delivered k' h' = delivered k h';
}.

(** [Shared/IO.h:1-12] the modes of open_file and of io_seek *)
Definition IO_READONLY : Z := Z.shiftl 1 0.
Definition IO_WRITEONLY : Z := Z.shiftl 1 1.
Definition IO_READWRITE : Z := Z.shiftl 1 2.
Definition IO_CREATE : Z := Z.shiftl 1 3.
Definition IO_TRUNCATE : Z := Z.shiftl 1 4.
Definition IO_APPEND : Z := Z.shiftl 1 5.
Definition SEEK_SET : Z := 0.
Definition SEEK_CUR : Z := 1.

(** ** Streams *)

(** [Userland/LibC/stdio.h:12-18] FILE *)
Record FILE := File {
  f_handle : Z;
  f_flags : Z;
  f_buffer : Z;
  f_size : Z;
  f_capacity : Z;
}.

Definition set_file_size (f : FILE) (size : Z) : FILE :=
  File (f_handle f) (f_flags f) (f_buffer f) size (f_capacity f).

(** [Userland/LibC/stdio.c:15-30] file_ptr_open, with the memory malloc returned for the
    buffer and what it left in the fields that are not set *)
Definition file_ptr_open (io_handle : Z) (buffered : bool) (buffer flags garbage : Z) : FILE :=
  if buffered then File io_handle flags buffer 0 512
  else File io_handle flags garbage 0 0.

(** [Userland/LibC/stdio.c:113-134] the loop of fopen over the rest of the mode *)
Fixpoint mode_loop (mode : list Z) (native_mode : Z) : Z :=
  match mode with
  | [] => native_mode
  | c :: mode =>
    if c =? 43 then
      let n := native_mode in
      let n := if negb (Z.land n IO_READONLY =? 0) then Z.land n (Z.lnot IO_READONLY) else n in
      let n := if negb (Z.land n IO_WRITEONLY =? 0) then Z.land n (Z.lnot IO_WRITEONLY) else n in
      let n := if negb (Z.land n IO_APPEND =? 0) then Z.land n (Z.lnot IO_WRITEONLY) else n in
      mode_loop mode (Z.lor n IO_READWRITE)
    else if c =? 98 then mode_loop mode native_mode
    else native_mode
  end.

(** [Userland/LibC/stdio.c:91-134] the mode fopen opens the file with, or null *)
Definition fopen_mode (mode : list Z) : option Z :=
  match mode with
  | c :: mode =>
    if c =? 114 then Some (mode_loop mode IO_READONLY)
    else if c =? 119 then
      Some (mode_loop mode (Z.lor (Z.lor IO_CREATE IO_WRITEONLY) IO_TRUNCATE))
    else None
  | [] => None
  end.

Section streams.
Context {io : Type} `{!Kernel io}.

(** [Userland/LibC/stdio.c:203-211] fflush *)
Definition fflush (f : FILE) (m : bytes) (k : io) : result (FILE * io) :=
  if f_size f =? 0 then Ok (f, k)
  else
    '(_, k) ← io_write k (f_handle f) m (f_buffer f) (f_size f);
    Ok (set_file_size f 0, k).

(** [Userland/LibC/stdio.c:161-182] fwrite *)
Definition fwrite (buffer size count : Z) (f : FILE) (m : bytes) (k : io)
  : result (Z * FILE * bytes * io) :=
  if (size =? 0) || (count =? 0) then Ok (0, f, m, k)
  else if f_flags f =? IO_READONLY then Ok (0, f, m, k)
  else
    let bytes_to_write := size *! count in
    let buf_free_bytes := f_capacity f -! f_size f in
    '(f, k) ← (if bytes_to_write >? buf_free_bytes then fflush f m k else Ok (f, k));
    if bytes_to_write >? f_capacity f then
      '(written, k) ← io_write k (f_handle f) m buffer bytes_to_write;
      Ok (wrap64 written / size, f, m, k)
    else
      m ← memcpy m (f_buffer f + f_size f) buffer bytes_to_write;
      Ok (count, set_file_size f (f_size f +! bytes_to_write), m, k).

(** [Userland/LibC/stdio.c:147-159] fread *)
Definition fread (buffer size count : Z) (f : FILE) (m : bytes) (k : io)
  : result (Z * FILE * bytes * io) :=
  if (size =? 0) || (count =? 0) then Ok (0, f, m, k)
  else if f_flags f =? IO_WRITEONLY then Ok (0, f, m, k)
  else
    '(f, k) ← (if negb (Z.land (f_flags f) IO_READWRITE =? 0) then fflush f m k else Ok (f, k));
    '(n, m, k) ← io_read k (f_handle f) m buffer (size *! count);
    Ok (wrap64 n, f, m, k).

(** [Userland/LibC/stdio.c:190-194] fputs *)
Definition fputs (str : Z) (f : FILE) (m : bytes) (k : io) : result (Z * FILE * bytes * io) :=
  n ← strlen m str;
  '(res, f, m, k) ← fwrite str 1 n f m k;
  Ok (if negb (res =? 0) then sint32 res else -1, f, m, k).

(** [Userland/LibC/stdio.c:184-188] fputc; the character is stored at [c] on the stack *)
Definition fputc (character c : Z) (f : FILE) (m : bytes) (k : io) : result (Z * FILE * bytes * io) :=
  m ← store_byte m c (wrap8 character);
  '(res, f, m, k) ← fwrite c 1 1 f m k;
  Ok (sint32 res, f, m, k).

(** [Userland/LibC/stdio.c:49-57] puts; the line feed is a literal at [newline] *)
Definition puts (str newline : Z) (f : FILE) (m : bytes) (k : io) : result (Z * FILE * bytes * io) :=
  n ← strlen m str;
  '(res, f, m, k) ← fwrite str 1 n f m k;
  if res =? 0 then Ok (-1, f, m, k)
  else
    '(res, f, m, k) ← fwrite newline 1 1 f m k;
    Ok (if negb (res =? 0) then sint32 res else -1, f, m, k).

(** [Userland/LibC/stdio.c:213-219] fseek *)
Definition fseek (f : FILE) (m : bytes) (offset origin : Z) (k : io) : result (Z * FILE * io) :=
  '(f, k) ← fflush f m k;
  let '(ret, k) := io_seek k (f_handle f) offset origin in
  Ok (if ret <? 0 then 1 else 0, f, k).

(** [Userland/LibC/stdio.c:221-225] rewind *)
Definition stream_rewind (f : FILE) (m : bytes) (k : io) : result (FILE * io) :=
  '(f, k) ← fflush f m k;
  '(_, f, k) ← fseek f m 0 SEEK_SET k;
  Ok (f, k).

(** [Userland/LibC/stdio.c:227-230] ftell *)
Definition ftell (f : FILE) (k : io) : Z * io := io_seek k (f_handle f) 0 SEEK_CUR.

(** [Userland/LibC/stdio.c:241-261] vfprintf: the text is formatted twice, to learn its length
    and then into the array [stack], or into memory from malloc when it is long *)
Definition vfprintf (stack : Z) (malloc : bytes -> Z -> result (Z * bytes))
    (free : bytes -> Z -> result bytes) (f : FILE) (format : list Z) (args : list argument)
    (m : bytes) (k : io) : result (FILE * bytes * io) :=
  '(needed, m) ← vsnprintf m 0 0 format args;
  let bytes_needed := wrap64 needed +! 1 in
  if bytes_needed >? 4096 then
    '(heap_buf, m) ← malloc m bytes_needed;
    '(_, m) ← vsnprintf m heap_buf bytes_needed format args;
    '(_, f, m, k) ← fwrite heap_buf 1 (bytes_needed -! 1) f m k;
    m ← free m heap_buf;
    Ok (f, m, k)
  else
    '(_, m) ← vsnprintf m stack bytes_needed format args;
    '(_, f, m, k) ← fwrite stack 1 (bytes_needed -! 1) f m k;
    Ok (f, m, k).
End streams.

(** ** What a stream promises *)

Section stream_correct.
Context {io : Type} `{!Kernel io, !WritesAll io}.

(** The bytes waiting in the buffer of a stream, which has room for its capacity. *)
Record stream_ok (f : FILE) (m : bytes) (waiting : list Z) : Prop := StreamOk {
  so_size : f_size f = Z.of_nat (length waiting);
  so_fits : f_size f <= f_capacity f < W64;
  so_holds : holds m (f_buffer f) waiting;
  so_accessible : accessible_bytes m (f_buffer f) (Z.to_nat (f_capacity f));
}.

(** What was written to the stream, in order: what its handle took and what waits. *)
Definition stream_text (f : FILE) (waiting : list Z) (k : io) : list Z :=
  delivered k (f_handle f) ++ waiting.

Definition other_handles (f : FILE) (k k' : io) : Prop :=
  forall h, h <> f_handle f -> delivered k' h = delivered k h.

(** The fields that never change. *)
Definition same_stream (f f' : FILE) : Prop :=
  f_handle f' = f_handle f /\ f_flags f' = f_flags f /\ f_buffer f' = f_buffer f /\
  f_capacity f' = f_capacity f.

Lemma fflush_Ok f m k waiting :
  stream_ok f m waiting ->
  exists f' k', fflush f m k = Ok (f', k') /\ stream_ok f' m [] /\ same_stream f f' /\
    delivered k' (f_handle f) = stream_text f waiting k /\ other_handles f k k'.
Proof using WritesAll0.
  intros [Hs Hf Hh Ha]. unfold fflush, stream_text. destruct (Z.eqb_spec (f_size f) 0) as [Hz|Hz].
  - destruct waiting; [|simpl in Hs; lia]. exists f, k. split_and!; try done. by rewrite app_nil_r.
  - destruct (io_write_all k (f_handle f) m (f_buffer f) waiting Hh) as (k' & E & Hd & Ho).
    rewrite Hs, E. run. exists (set_file_size f 0), k'. split_and!; try done.
    constructor; simpl; done || lia.
Qed.

(** Buffers of the caller that a write to the stream leaves alone. *)
Definition clear_of (f : FILE) (p n : Z) : Prop := apart (f_buffer f) (f_capacity f) p n.

Lemma buffer_append f m waiting p l :
  stream_ok f m waiting -> holds m p l -> f_size f + Z.of_nat (length l) <= f_capacity f ->
  clear_of f p (Z.of_nat (length l)) ->
  exists m', memcpy m (f_buffer f + f_size f) p (Z.of_nat (length l)) = Ok m' /\
    stream_ok (set_file_size f (f_size f + Z.of_nat (length l))) m' (waiting ++ l) /\
    frame m m' (f_buffer f) (f_capacity f).
Proof.
  intros [Hs Hf Hh Ha] Hl Hc Hcl. unfold clear_of, apart in Hcl. unfold memcpy. rewrite Nat2Z.id.
  destruct (memcpy_loop_Ok l m (f_buffer f + f_size f) p Hl) as (m' & -> & Hh' & Hf').
  { intros i Hi. apply Ha. lia. }
  { destruct l; simpl in *; lia. }
  exists m'. split; [done|]. assert (Hfr : frame m m' (f_buffer f) (f_capacity f)) by (eapply frame_mono; [done|lia|lia]).
  split; [|done]. constructor; simpl.
  - rewrite length_app. lia.
  - lia.
  - apply holds_app. rewrite <- Hs. split; [|done]. eapply frame_holds; [exact Hf'|lia|done].
  - intros i Hi. destruct (decide (f_buffer f + f_size f <= i < f_buffer f + f_size f + Z.of_nat (length l))).
    + apply (holds_accessible _ _ _ Hh'). lia.
    + rewrite Hf' by lia. apply Ha. lia.
Qed.

(** One write of [l] to a stream open for writing. *)
Lemma fwrite_Ok f m k waiting p l size count :
  stream_ok f m waiting -> f_flags f <> IO_READONLY -> holds m p l ->
  0 < size -> 0 <= count -> Z.of_nat (length l) = size * count -> size * count < W64 ->
  clear_of f p (Z.of_nat (length l)) ->
  exists f' m' k' waiting', fwrite p size count f m k = Ok (count, f', m', k') /\
    stream_ok f' m' waiting' /\ same_stream f f' /\
    stream_text f' waiting' k' = stream_text f waiting k ++ l /\
    other_handles f k k' /\ frame m m' (f_buffer f) (f_capacity f).
Proof using WritesAll0.
  intros Hok Hfl Hl Hsz Hc Hlen Hlt Hcl. unfold fwrite.
  destruct (Z.eqb_spec count 0) as [->|Hc0].
  { rewrite orb_true_r. exists f, m, k, waiting. destruct l; [|simpl in Hlen; lia]. rewrite app_nil_r.
    split_and!; done || apply frame_refl. }
  rewrite (proj2 (Z.eqb_neq size 0)), (proj2 (Z.eqb_neq (f_flags f) _)) by (done || lia). cbn [orb].
  rewrite (wrap64_small (size * count)) by (unfold is_u64; nia).
  destruct Hok as [Hs Hf Hh Ha]. rewrite (wrap64_small (f_capacity f - f_size f)) by (unfold is_u64; lia).
  assert (Hdiv : Z.of_nat (length l) / size = count) by (rewrite Hlen, Z.mul_comm, Z.div_mul; lia).
  rewrite <- Hlen in *. rewrite !Z.gtb_ltb.
  destruct (Z.ltb_spec (f_capacity f - f_size f) (Z.of_nat (length l))) as [Hfull|Hroom].
  - destruct (fflush_Ok f m k waiting) as (f1 & k1 & -> & Hok1 & (Eh & Ef & Eb & Ec) & Hd & Ho); [done|]. run.
    rewrite Ec, Z.gtb_ltb. destruct (Z.ltb_spec (f_capacity f) (Z.of_nat (length l))) as [Hbig|Hsmall].
    + rewrite Eh. destruct (io_write_all k1 (f_handle f) m p l Hl) as (k2 & -> & Hd2 & Ho2). run.
      exists f1, m, k2, []. rewrite (wrap64_small (Z.of_nat (length l))) by (unfold is_u64; lia).
      rewrite Hdiv. split; [done|]. split; [done|]. split; [done|]. split_and!; [| |apply frame_refl].
      * unfold stream_text at 1. rewrite Eh, Hd2, Hd. by rewrite app_nil_r.
      * intros h Hh'. by rewrite Ho2, Ho by done.
    + destruct (buffer_append f1 m [] p l) as (m' & E & Hok2 & Hfr); [done|done| |by unfold clear_of; rewrite Eb, Ec|].
      { destruct Hok1 as [Hs1 _ _ _]. simpl in Hs1. lia. }
      destruct Hok1 as [Hs1 _ _ _]. simpl in Hs1. rewrite E. run. rewrite Hs1 in *.
      rewrite (wrap64_small (0 + _)) by (unfold is_u64; lia). rewrite Eb, Ec in Hfr.
      eexists _, m', k1, l. split; [done|]. split; [done|]. split; [done|]. split_and!; [|done|done].
      unfold stream_text at 1. simpl. by rewrite Eh, Hd.
  - run. rewrite Z.gtb_ltb, (proj2 (Z.ltb_ge _ _)) by lia.
    destruct (buffer_append f m waiting p l) as (m' & E & Hok2 & Hfr); [done|done|lia|done|].
    rewrite E. run. rewrite (wrap64_small (f_size f + _)) by (unfold is_u64; lia).
    eexists _, m', k, (waiting ++ l). split; [done|]. split; [done|]. split; [done|]. split_and!; [|done|done].
    unfold stream_text. simpl. by rewrite app_assoc.
Qed.
End stream_correct.
