(* ===== verification/LibcStdioCorrect.v ===== *)
(** The properties of the streams of Userland/LibC/stdio.c: a stream delivers what is written
    to it in order, and vfprintf writes the text the formatter gives. *)
From S2P Require Import Prelude Numerals LibcMemory LibcString LibcStringCorrect LibcPrintf LibcPrintfSim.
From S2P Require Import LibcPrintfCorrect LibcPrintfTheorems LibcStdio.

(** ** A kernel for examples *)

(** The writes so far, with their handles. *)
Definition write_log := list (Z * list Z).

Fixpoint gather_bytes (n : nat) (m : bytes) (p : Z) : result (list Z) :=
  match n with
  | O => Ok []
  | S n => b ← load_byte m p; l ← gather_bytes n m (p + 1); Ok (b :: l)
  end.

Definition log_write (k : write_log) (h : Z) (m : bytes) (p n : Z) : result (Z * write_log) :=
  if n >? Z.of_nat (size m) then Fault OutOfBounds
  else l ← gather_bytes (Z.to_nat n) m p; Ok (n, k ++ [(h, l)]).

Definition log_delivered (k : write_log) (h : Z) : list Z :=
  concat ((fun e => if e.1 =? h then e.2 else []) <$> k).

#[export] Instance log_kernel : Kernel write_log := {
  io_write := log_write;
  io_read k h m p n := Ok (0, m, k);
  io_seek k h offset mode := (0, k);
  delivered := log_delivered;
}.

Lemma gather_bytes_Ok l m p : holds m p l -> gather_bytes (length l) m p = Ok l.
Proof.
  revert p. induction l as [|b l IH]; intros p H; simpl; [done|]. destruct H as [H H'].
  rewrite (load_byte_Ok m p b) by done. run. by rewrite IH by done.
Qed.

Lemma log_delivered_snoc k h l h' :
  log_delivered (k ++ [(h, l)]) h' = log_delivered k h' ++ (if h =? h' then l else []).
Proof. unfold log_delivered. rewrite fmap_app, concat_app. simpl. by rewrite app_nil_r. Qed.

#[export] Instance log_writes_all : WritesAll write_log.
Proof.
  constructor. intros k h m p l H. simpl. exists (k ++ [(h, l)]). unfold log_write.
  pose proof (holds_size _ _ _ H). rewrite Z.gtb_ltb, (proj2 (Z.ltb_ge _ _)) by lia.
  rewrite Nat2Z.id, gather_bytes_Ok by done. run. split; [done|]. rewrite log_delivered_snoc, Z.eqb_refl.
  split; [done|]. intros h' Hh. rewrite log_delivered_snoc, (proj2 (Z.eqb_neq _ _)) by done. by rewrite app_nil_r.
Qed.

(** ** Sequences of operations *)

(** What a program does with a stream: write the bytes [l] at [p] in items of a size, or
    flush. *)
Inductive stream_op :=
  | Write (p : Z) (l : list Z) (item : Z)
  | Flush.

Definition op_text (o : stream_op) : list Z :=
  match o with Write _ l _ => l | Flush => [] end.

Section sequences.
Context {io : Type} `{!Kernel io, !WritesAll io}.

Definition stream_step (o : stream_op) (s : FILE * bytes * io) : result (FILE * bytes * io) :=
  let '(f, m, k) := s in
  match o with
  | Write p l item =>
    '(_, f, m, k) ← fwrite p item (Z.of_nat (length l) / item) f m k; Ok (f, m, k)
  | Flush => '(f, k) ← fflush f m k; Ok (f, m, k)
  end.

Fixpoint stream_run (os : list stream_op) (s : FILE * bytes * io) : result (FILE * bytes * io) :=
  match os with
  | [] => Ok s
  | o :: os => s ← stream_step o s; stream_run os s
  end.

(** The bytes to write are in memory, outside the buffer of the stream, and a whole number
    of items. *)
Definition op_ok (f : FILE) (m : bytes) (o : stream_op) : Prop :=
  match o with
  | Write p l item =>
    holds m p l /\ clear_of f p (Z.of_nat (length l)) /\ 0 < item /\
    Z.of_nat (length l) mod item = 0 /\ Z.of_nat (length l) < W64
  | Flush => True
  end.

Lemma clear_same f f' p n : same_stream f f' -> clear_of f p n -> clear_of f' p n.
Proof. intros (_ & _ & Eb & Ec). unfold clear_of. by rewrite Eb, Ec. Qed.

Lemma op_ok_frame f f' m m' o :
  same_stream f f' -> frame m m' (f_buffer f) (f_capacity f) -> op_ok f m o -> op_ok f' m' o.
Proof.
  intros Hs Hf. destruct o as [p l item|]; simpl; [|done]. intros (H & Hc & Hr). split_and!; try apply Hr.
  - eapply frame_holds; [done| |done]. unfold clear_of, apart in Hc. lia.
  - by eapply clear_same.
Qed.

Lemma same_stream_trans f1 f2 f3 : same_stream f1 f2 -> same_stream f2 f3 -> same_stream f1 f3.
Proof. unfold same_stream. intuition congruence. Qed.

Lemma stream_step_Ok o f m k waiting :
  stream_ok f m waiting -> f_flags f <> IO_READONLY -> op_ok f m o ->
  exists f' m' k' waiting', stream_step o (f, m, k) = Ok (f', m', k') /\
    stream_ok f' m' waiting' /\ same_stream f f' /\
    stream_text f' waiting' k' = stream_text f waiting k ++ op_text o /\
    other_handles f k k' /\ frame m m' (f_buffer f) (f_capacity f).
Proof using WritesAll0.
  intros Hok Hfl Ho. destruct o as [p l item|]; cbn [stream_step op_text].
  - destruct Ho as (Hl & Hc & Hi & Hm & Hlt).
    assert (Hn : Z.of_nat (length l) = item * (Z.of_nat (length l) / item))
      by (rewrite (Z.div_mod (Z.of_nat (length l)) item) at 1; lia).
    destruct (fwrite_Ok f m k waiting p l item (Z.of_nat (length l) / item)) as (f' & m' & k' & w' & -> & H);
      try done; [apply Z.div_pos; lia|lia|].
    run. by exists f', m', k', w'.
  - destruct (fflush_Ok f m k waiting Hok) as (f' & k' & -> & Hok' & Hs & Hd & Hoth). run.
    exists f', m, k', []. split; [done|]. split; [done|]. split; [done|]. split_and!; [|done|apply frame_refl].
    unfold stream_text at 1. destruct Hs as (-> & _). by rewrite Hd.
Qed.

Lemma stream_run_Ok os f m k waiting :
  stream_ok f m waiting -> f_flags f <> IO_READONLY -> Forall (op_ok f m) os ->
  exists f' m' k' waiting', stream_run os (f, m, k) = Ok (f', m', k') /\
    stream_ok f' m' waiting' /\ same_stream f f' /\
    stream_text f' waiting' k' = stream_text f waiting k ++ concat (op_text <$> os) /\
    other_handles f k k' /\ frame m m' (f_buffer f) (f_capacity f).
Proof using WritesAll0.
  intros Hok Hfl Hos. revert f m k waiting Hok Hfl Hos.
  induction os as [|o os IH]; intros f m k waiting Hok Hfl Hos.
  - exists f, m, k, waiting. simpl. rewrite app_nil_r. by split_and!.
  - inversion Hos as [|? ? Ho Hos']; subst. cbn [stream_run].
    destruct (stream_step_Ok o f m k waiting Hok Hfl Ho) as (f1 & m1 & k1 & w1 & -> & Hok1 & Hs1 & Ht1 & Hh1 & Hf1).
    run. assert (Hsame : f_handle f1 = f_handle f /\ f_flags f1 = f_flags f /\
      f_buffer f1 = f_buffer f /\ f_capacity f1 = f_capacity f) by apply Hs1.
    destruct Hsame as (Eh & Ef & Eb & Ec).
    destruct (IH f1 m1 k1 w1 Hok1 ltac:(by rewrite Ef)) as (f2 & m2 & k2 & w2 & -> & Hok2 & Hs2 & Ht2 & Hh2 & Hf2).
    { eapply Forall_impl; [done|]. intros o' Ho'. by eapply op_ok_frame. }
    exists f2, m2, k2, w2. split; [done|]. split; [done|]. split; [by eapply same_stream_trans|].
    split_and!.
    + rewrite Ht2, Ht1. simpl. by rewrite <- app_assoc.
    + intros h Hne. rewrite Hh2 by (by rewrite Eh). by apply Hh1.
    + eapply frame_trans; [done|]. by rewrite Eb, Ec in Hf2.
Qed.
End sequences.

(** C21: a stream open for writing is a first-in, first-out queue to its handle, provided that the
    handle takes every byte of each io_write, as files do and pipes need not ([WritesAll]; the
    streams ignore the number of bytes written, stdio.c:208, and the example
    [flush_drops_short_write] shows the loss): whatever writes and flushes a program makes, in items
    of any size and however they compare to the buffer, none fails, and after a last flush the
    handle has received exactly the bytes written, in order, after what it had and what waited in
    the buffer; no other handle and no memory but the buffer of the stream is touched. *)
Theorem stream_delivers_in_order {io : Type} `{!Kernel io, !WritesAll io} (os : list stream_op)
    (f : FILE) (m : bytes) (k : io) (waiting : list Z) :
  stream_ok f m waiting -> f_flags f <> IO_READONLY -> Forall (op_ok f m) os ->
  exists f' m' k', stream_run (os ++ [Flush]) (f, m, k) = Ok (f', m', k') /\ f_size f' = 0 /\
    delivered k' (f_handle f) = delivered k (f_handle f) ++ waiting ++ concat (op_text <$> os) /\
    (forall h, h <> f_handle f -> delivered k' h = delivered k h) /\
    frame m m' (f_buffer f) (f_capacity f).
Proof.
  intros Hok Hfl Hos.
  destruct (stream_run_Ok os f m k waiting Hok Hfl Hos) as (f1 & m1 & k1 & w1 & E & Hok1 & Hs1 & Ht1 & Hh1 & Hf1).
  destruct (fflush_Ok f1 m1 k1 w1 Hok1) as (f2 & k2 & E2 & Hok2 & Hs2 & Hd2 & Ho2).
  assert (Hrun : forall os s, stream_run (os ++ [Flush]) s = (s ← stream_run os s; stream_step Flush s)).
  { clear. induction os as [|o os IH]; intros s; simpl; [by destruct (stream_step Flush s)|].
    destruct (stream_step o s); run; [apply IH|done]. }
  destruct Hs1 as (Eh & _). rewrite Hrun, E. run. cbn [stream_step]. rewrite E2. run.
  exists f2, m1, k2. split_and!; [done|by destruct Hok2| | |done].
  - rewrite <- Eh at 1. rewrite Hd2, Ht1. unfold stream_text. by rewrite <- app_assoc.
  - intros h Hne. rewrite Ho2 by (by rewrite Eh). by apply Hh1.
Qed.

(** A stream with a buffer of four bytes at 100, and six bytes to write at 200. *)
Definition small_stream : FILE := File 1 IO_WRITEONLY 100 0 4.
Definition stream_memory : bytes := put 100 [0; 0; 0; 0] (put 200 [1; 2; 3; 4; 5; 6] ∅).

Lemma small_stream_ok : stream_ok small_stream stream_memory [].
Proof.
  constructor; simpl; [done|lia|done|]. apply (holds_accessible _ _ [0; 0; 0; 0]). apply holds_put.
Qed.

Lemma stream_delivers_in_order_witness :
  exists f' m' k', stream_run ([Write 200 [1; 2; 3] 1; Write 203 [4; 5] 2; Write 200 [1; 2; 3; 4; 5; 6] 3] ++ [Flush])
    (small_stream, stream_memory, [] : write_log) = Ok (f', m', k') /\
    delivered k' 1 = [1; 2; 3; 4; 5; 1; 2; 3; 4; 5; 6].
Proof.
  assert (Hops : Forall (op_ok small_stream stream_memory)
    [Write 200 [1; 2; 3] 1; Write 203 [4; 5] 2; Write 200 [1; 2; 3; 4; 5; 6] 3]).
  { repeat constructor; try (unfold clear_of, apart; simpl; lia). }
  destruct (stream_delivers_in_order _ small_stream stream_memory ([] : write_log) [] small_stream_ok ltac:(discriminate) Hops)
    as (f' & m' & k' & E & _ & Hd & _).
  exists f', m', k'. split; [exact E|exact Hd].
Defined.

(** A pipe that takes two bytes at a time: the rest of what is flushed is lost. *)
#[local] Instance short_kernel : Kernel (list Z) := {
  io_write k h m p n := l ← gather_bytes (Z.to_nat (Z.min n 2)) m p; Ok (Z.min n 2, k ++ l);
  io_read k h m p n := Ok (0, m, k);
  io_seek k h offset mode := (0, k);
  delivered k h := k;
}.

Example flush_drops_short_write :
  ('(_, _, k) ← stream_run [Write 200 [1; 2; 3] 1; Flush; Write 204 [5] 1; Flush] (small_stream, stream_memory, [] : list Z); Ok k) =
  Ok [1; 2; 5].
Proof. vm_compute. reflexivity. Qed.

(** ** Formatted output *)

(** The formatter gives the same text in a larger memory, and what it does not access
    stays as it was. *)
Definition same_text (s0 t0 : bytes) (s t : text) : Prop :=
  s.2 = t.2 /\ t.1 ⊆ s.1 /\ (forall i, t.1 !! i = None <-> t0 !! i = None) /\
  (forall i, t0 !! i = None -> s.1 !! i = s0 !! i).

Lemma same_text_write s0 t0 s t c :
  same_text s0 t0 s t -> sim (same_text s0 t0) (sink_write s c) (sink_write t c).
Proof.
  intros (E & Hs & Hn & Hi) t' Ht. simpl in *. unfold text_write in *. rewrite E.
  destruct (_ <? _); [|done]. injection Ht as <-. eexists. split; [done|]. by split_and!.
Qed.

Lemma same_text_store s0 t0 n s t a v :
  same_text s0 t0 s t ->
  sim (fun m m' => same_text s0 t0 (sink_set_memory s m) (sink_set_memory t m'))
    (store_bytes n (sink_memory s) a v) (store_bytes n (sink_memory t) a v).
Proof.
  revert s t a v. induction n as [|n IH]; intros s t a v H; simpl.
  { apply sim_ret. by destruct s, t, H. }
  intros m' E. apply bind_Ok in E as (m1 & E1 & E). unfold store_byte in E1.
  destruct (t.1 !! a) as [x|] eqn:Ea; [|done]. injection E1 as <-.
  destruct H as (E2 & Hs & Hn & Hi). rewrite store_byte_Ok by (exists x; by eapply lookup_weaken). run.
  refine (IH (<[a := v mod 256]> s.1, s.2) (<[a := v mod 256]> t.1, t.2) (a + 1) (v / 256) _ m' E).
  split_and!; simpl; [done|by apply insert_mono| |].
  - intros i. destruct (decide (i = a)) as [->|]; [|by rewrite lookup_insert_ne].
    rewrite lookup_insert_eq. split; [done|]. intros Hx. apply Hn in Hx. congruence.
  - intros i Hx. destruct (decide (i = a)) as [->|]; [|by rewrite lookup_insert_ne by done; apply Hi].
    apply Hn in Hx. congruence.
Qed.

Lemma format_text_weaken format args s0 t0 b out :
  t0 ⊆ s0 -> format_text format args t0 = Ok (b, (t0, out)) ->
  format_text format args s0 = Ok (b, (s0, out)).
Proof.
  intros Hsub E. unfold format_text in *.
  assert (Hstart : same_text s0 t0 (s0, []) (t0, [])) by (by split_and!).
  assert (Hsim : sim (fun x y => x.1 = y.1 /\ same_text s0 t0 x.2 y.2)
    (format_run format args (s0, [])) (format_run format args (t0, []))).
  { apply (sim_format_run (same_text s0 t0)); [apply same_text_write| | | |done].
    - intros s t (Hst & _). simpl. by rewrite Hst.
    - by intros s t (_ & ? & _).
    - intros. by apply same_text_store. }
  destruct (Hsim _ E) as ([b' [m' out']] & E' & Hb & Eo & Hs & _ & Hi). simpl in *. subst. rewrite E'.
  do 3 f_equal. apply map_eq. intros i. destruct (t0 !! i) as [x|] eqn:Ei; [|by apply Hi].
  rewrite (lookup_weaken _ _ _ _ Ei Hs). by rewrite (lookup_weaken _ _ _ _ Ei Hsub).
Qed.

Lemma outside_subseteq m buffer n n' : n <= n' -> outside m buffer n' ⊆ outside m buffer n.
Proof.
  intros Hn. apply map_subseteq_spec. intros i x. rewrite !lookup_outside. intros H.
  case_decide; [done|]. by rewrite decide_False by lia.
Qed.

Lemma outside_empty m buffer : outside m buffer 0 = m.
Proof. apply map_eq. intros i. rewrite lookup_outside. by rewrite decide_False by lia. Qed.

(** The first pass of vfprintf: the length of the text. *)
Lemma vsnprintf_counts m buffer format args m' out :
  format_text format args m = Ok (true, (m', out)) ->
  vsnprintf m buffer 0 format args = Ok (sint32 (Z.of_nat (length out)), m').
Proof.
  intros E. rewrite <- (outside_empty m buffer) in E.
  destruct (vsnprintf_run m buffer 0 format args true (m', out)) as (st & Est & [Hb Hs Ho Hl Hi Hout Hh]);
    [lia|intros i Hi; simpl in Hi; lia|done|]. simpl in *. rewrite outside_empty in Hout.
  unfold vsnprintf. rewrite Est. run. simpl. by rewrite Ho, Hout.
Qed.

(** Vfprintf appends to its stream exactly the text of the format, for every format and
    all arguments for which the formatter gives a text of fewer than 4096 characters
    without storing through an argument: the length the first pass computes is the size
    the second pass needs, and the terminator is not written to the stream. *)
Theorem vfprintf_delivers {io : Type} `{!Kernel io, !WritesAll io} (stack : Z)
    (malloc : bytes -> Z -> result (Z * bytes)) (free : bytes -> Z -> result bytes)
    (f : FILE) (format : list Z) (args : list argument) (m : bytes) (k : io) (waiting out : list Z) :
  stream_ok f m waiting -> f_flags f <> IO_READONLY ->
  accessible_bytes m stack (Z.to_nat 4096) -> clear_of f stack 4096 ->
  format_text format args (outside m stack 4096) = Ok (true, (outside m stack 4096, out)) ->
  Z.of_nat (length out) < 4096 ->
  exists f' m' k' waiting', vfprintf stack malloc free f format args m k = Ok (f', m', k') /\
    stream_ok f' m' waiting' /\ same_stream f f' /\
    stream_text f' waiting' k' = stream_text f waiting k ++ out /\
    (forall h, h <> f_handle f -> delivered k' h = delivered k h).
Proof.
  intros Hok Hfl Ha Hc E Hlen. unfold vfprintf.
  assert (E1 : format_text format args m = Ok (true, (m, out)))
    by (eapply format_text_weaken; [|exact E]; apply map_filter_subseteq).
  rewrite (vsnprintf_counts m 0 format args m out E1). run.
  rewrite sint32_small by (unfold INT_MIN, INT_MAX; lia).
  rewrite (wrap64_small (Z.of_nat _)), wrap64_small by (unfold is_u64; lia).
  rewrite Z.gtb_ltb, (proj2 (Z.ltb_ge _ _)) by lia. set (n := Z.of_nat (length out) + 1).
  assert (E2 : format_text format args (outside m stack n) = Ok (true, (outside m stack n, out)))
    by (eapply format_text_weaken; [|exact E]; apply outside_subseteq; lia).
  destruct (vsnprintf_fits m stack n format args (outside m stack n) out) as (m1 & -> & Hh & Hout);
    [lia|intros i Hi; apply Ha; lia|done|lia|]. run.
  replace (n -! 1) with (Z.of_nat (length out)) by (rewrite wrap64_small; unfold is_u64; lia).
  apply outside_frame in Hout. apply holds_app in Hh as [Hh _]. unfold clear_of, apart in Hc.
  destruct (fwrite_Ok f m1 k waiting stack out 1 (Z.of_nat (length out)))
    as (f' & m' & k' & w' & -> & Hok' & Hsame & Ht & Ho & _); try done; try lia.
  - destruct Hok as [Hs Hf Hw Hacc]. constructor; [done|done| |].
    + eapply frame_holds; [done|lia|done].
    + eapply frame_accessible; [done|lia|done].
  - unfold clear_of, apart. lia.
  - run. by exists f', m', k', w'.
Qed.

(** The array of vfprintf at 10000, an unbuffered stream, and "n=%d". *)
Definition print_stream : FILE := File 2 IO_WRITEONLY 0 0 0.
Definition stack_memory : bytes := put 10000 (replicate (Z.to_nat 4096) 0) ∅.

Lemma vfprintf_delivers_witness :
  exists f' m' k' waiting', vfprintf 10000 (fun _ _ => Fault OutOfBounds) (fun _ _ => Fault OutOfBounds) print_stream
      [110; 61; 37; 100] [Integral (-5)] stack_memory ([] : write_log) = Ok (f', m', k') /\
    delivered k' 2 ++ waiting' = [110; 61; 45; 53].
Proof.
  assert (Hok : stream_ok print_stream stack_memory [])
    by (constructor; simpl; [reflexivity|lia|exact I|intros i Hi; simpl in Hi; lia]).
  assert (Ha : accessible_bytes stack_memory 10000 (Z.to_nat 4096)).
  { rewrite <- (length_replicate (Z.to_nat 4096) 0). apply holds_accessible, holds_put. }
  assert (Hc : clear_of print_stream 10000 4096) by (left; simpl; lia).
  assert (Hout : outside stack_memory 10000 4096 = ∅).
  { apply map_eq. intros i. rewrite lookup_outside, lookup_empty. case_decide as Hd; [reflexivity|].
    assert (Hf : frame ∅ stack_memory 10000 (Z.of_nat (length (replicate (Z.to_nat 4096) 0)))) by apply put_frame.
    rewrite length_replicate in Hf. rewrite Hf by lia. apply lookup_empty. }
  assert (E : format_text [110; 61; 37; 100] [Integral (-5)] (outside stack_memory 10000 4096) =
    Ok (true, (outside stack_memory 10000 4096, [110; 61; 45; 53]))) by (rewrite Hout; vm_compute; reflexivity).
  destruct (vfprintf_delivers 10000 (fun _ _ => Fault OutOfBounds) (fun _ _ => Fault OutOfBounds) print_stream
    _ _ stack_memory ([] : write_log) [] _ Hok ltac:(discriminate) Ha Hc E ltac:(reflexivity))
    as (f' & m' & k' & w' & Er & _ & (Eh & _) & Ht & _).
  exists f', m', k', w'. split; [exact Er|]. unfold stream_text in Ht. rewrite Eh in Ht. exact Ht.
Defined.

(** A format that vsnprintf refuses makes vfprintf write 2^64 - 1 bytes. *)
Example vfprintf_writes_refused_format :
  (r ← vfprintf 10000 (fun _ _ => Fault OutOfBounds) (fun _ _ => Fault OutOfBounds) print_stream
     [37; 46; 42; 100] [Integral 3; Integral 7] (put 10000 [0; 0] ∅) ([] : write_log); Ok r.2) =
  Fault OutOfBounds.
Proof. vm_compute. reflexivity. Qed.

(** The mode "a" opens nothing: its case runs into the default one. *)
Example append_mode_refused : fopen_mode [97] = None.
Proof. reflexivity. Qed.
