(* ===== verification/LibcMalloc.v ===== *)
(** Userland/LibC/malloc.c: the heap of a process.  A heap block is its bitmap, a bit for each
    chunk of 32 bytes, the address of its data and its count of free bytes; the chain of
    blocks is the list of those that are initialised, the last node of the chain, marked by
    its [next] pointer, being the one that [add_heap_block] initialises.  The headers before
    the allocations are a map from their addresses.  The system calls are the interface
    [OS]. *)
From S2P Require Import Prelude LibcMemory LibcString.

Class OS (os : Type) := {
  virtual_alloc : os -> Z -> Z * os;
  virtual_free : os -> Z -> Z -> os;
}.

(** [Userland/LibC/malloc.c:7-13] BLOCK_SIZE, CHUNK_SIZE and BITMAP_BYTES *)
Definition BLOCK_SIZE : Z := 4 * 1024 * 1024.
Definition CHUNK_SIZE : Z := 32.
Definition BITMAP_BYTES : Z := BLOCK_SIZE / CHUNK_SIZE / 8.

(** [Userland/LibC/malloc.c:33-45] the magic numbers, MALLOC_THRESHOLD and BITS_PER_UNIT *)
Definition MALLOC_MAGIC : Z := 0xDEADBEEF98765432.
Definition OSALLOC_MAGIC : Z := 0xCAFEBABE23456789.
Definition MALLOC_THRESHOLD : Z := 16 * 1024.
Definition BITS_PER_UNIT : Z := 64.

(** [(size_t)-1] *)
Definition minus_one : Z := W64 - 1.

(** [Userland/LibC/malloc.c:47-50] alloc_header *)
Record alloc_header := AllocHeader {
  type_magic : Z;
  ah_size : Z;
}.

(** [sizeof(alloc_header)] and [sizeof(heap_block)] *)
Definition header_bytes : Z := 16.
Definition block_bytes : Z := 32.

(** [Userland/LibC/malloc.c:52-57] heap_block *)
Record libc_heap_block := HeapBlock {
  hb_bitmap : list Z;
  hb_data : Z;
  hb_bytes_left : Z;
}.

Record libc_heap (os : Type) := Heap {
  h_blocks : list libc_heap_block;
  h_headers : gmap Z alloc_header;
  h_os : os;
}.
Arguments Heap {os} _ _ _.
Arguments h_blocks {os} _.
Arguments h_headers {os} _.
Arguments h_os {os} _.

(** ** The bitmap *)

(** [Userland/LibC/malloc.c:75-101] mark_bits_starting_at; a shift count past 63 is taken modulo 64, as the processor does *)
Fixpoint mark_bits_starting_at (count : nat) (bitmap : list Z) (unit_offset bit_offset : Z) (set : bool)
  : result (list Z) :=
  match count with
  | O => Ok bitmap
  | S count =>
    let value := wrap64 (Z.shiftl 1 (bit_offset mod BITS_PER_UNIT)) in
    u ← read_at bitmap unit_offset;
    bitmap ← write_at bitmap unit_offset
               (if set then Z.lor u value else Z.land u (Z.lxor value minus_one));
    let bit_offset := bit_offset + 1 in
    if bit_offset =? BITS_PER_UNIT
    then mark_bits_starting_at count bitmap (unit_offset + 1) 0 set
    else mark_bits_starting_at count bitmap unit_offset bit_offset set
  end.

(** [Userland/LibC/malloc.c:108-123] the loop of find_hole_in_unit, with [n] bits left *)
Fixpoint hole_loop (n : nat) (unit count first_index contiguous_count : Z) : Z :=
  match n with
  | O => minus_one
  | S n' =>
    let i := BITS_PER_UNIT - Z.of_nat n in
    if Z.land unit (Z.shiftl 1 i) =? 0 then
      let first_index := if first_index =? minus_one then i else first_index in
      let contiguous_count := contiguous_count + 1 in
      if contiguous_count =? count then first_index
      else hole_loop n' unit count first_index contiguous_count
    else hole_loop n' unit count minus_one 0
  end.

(** [Userland/LibC/malloc.c:103-126] find_hole_in_unit *)
Definition find_hole_in_unit (unit count : Z) : Z :=
  hole_loop (Z.to_nat BITS_PER_UNIT) unit count minus_one 0.

(** [__builtin_ctzll] and [__builtin_clzll] of a nonzero 64-bit number. *)
Definition ctz (x : Z) : Z := Z.log2 (Z.land x (- x)).
Definition clz (x : Z) : Z := 63 - Z.log2 x.

(** [Userland/LibC/malloc.c:136-184] the loop of find_contiguous_bits from unit [i]: the unit
    and the bit it stores through its last two arguments *)
Fixpoint contiguous_loop (units : list Z) (i count contiguous_count first_unit_index first_bit_index : Z)
  : Z * Z :=
  match units with
  | [] => (minus_one, minus_one)
  | unit :: units =>
    if unit =? minus_one then contiguous_loop units (i + 1) count 0 minus_one minus_one
    else
      let index := if count <? BITS_PER_UNIT then find_hole_in_unit unit count else minus_one in
      if negb (index =? minus_one) then (i, index)
      else
        let trailing_bits := if unit =? 0 then BITS_PER_UNIT else ctz unit in
        let '(trailing_bits, leading_bits) :=
          if trailing_bits =? BITS_PER_UNIT then (trailing_bits, trailing_bits)
          else (clz unit, 0) in
        if contiguous_count + leading_bits >=? count then (first_unit_index, first_bit_index)
        else if contiguous_count =? 0 then
          contiguous_loop units (i + 1) count trailing_bits i (BITS_PER_UNIT - trailing_bits)
        else if trailing_bits =? BITS_PER_UNIT then
          contiguous_loop units (i + 1) count (contiguous_count + BITS_PER_UNIT) first_unit_index first_bit_index
        else contiguous_loop units (i + 1) count trailing_bits i (BITS_PER_UNIT - trailing_bits)
  end.

(** [Userland/LibC/malloc.c:130-188] find_contiguous_bits *)
Definition find_contiguous_bits (bitmap : list Z) (count : Z) : Z * Z :=
  contiguous_loop bitmap 0 count 0 minus_one minus_one.

(** ** Allocation *)

Section malloc.
Context {os : Type} `{!OS os}.

(** [Userland/LibC/malloc.c:194-208] the loop of do_alloc over the blocks: the address and the
    blocks with the chunks reserved, if one of them has room *)
Fixpoint alloc_from_blocks (blocks : list libc_heap_block) (chunks : Z)
  : result (option (Z * list libc_heap_block)) :=
  match blocks with
  | [] => Ok None
  | blk :: rest =>
    let go_on :=
      r ← alloc_from_blocks rest chunks;
      Ok (match r with Some (a, rest) => Some (a, blk :: rest) | None => None end) in
    if hb_bytes_left blk <? chunks *! CHUNK_SIZE then go_on
    else
      let '(unit_offset, bit_offset) := find_contiguous_bits (hb_bitmap blk) chunks in
      if bit_offset =? minus_one then go_on
      else
        bitmap ← mark_bits_starting_at (Z.to_nat chunks) (hb_bitmap blk) unit_offset bit_offset true;
        let blk' := HeapBlock bitmap (hb_data blk) (hb_bytes_left blk -! chunks *! CHUNK_SIZE) in
        Ok (Some (hb_data blk +! unit_offset * BITS_PER_UNIT * CHUNK_SIZE +! bit_offset * CHUNK_SIZE,
                  blk' :: rest))
  end.

(** [Userland/LibC/malloc.c:238-239] the end of malloc: the header is written *)
Definition put_header (h : libc_heap os) (a magic size : Z) : libc_heap os :=
  Heap (h_blocks h) (<[a := AllocHeader magic size]> (h_headers h)) (h_os h).

(** [Userland/LibC/malloc.c:231-232] the size rounded to whole chunks *)
Definition round_to_chunks (size_with_header : Z) : Z :=
  if negb (size_with_header mod CHUNK_SIZE =? 0)
  then size_with_header +! (CHUNK_SIZE - size_with_header mod CHUNK_SIZE) else size_with_header.

(** [Userland/LibC/malloc.c:325-333] what add_heap_block stores in a block; memory from the
    system is zeroed *)
Definition new_heap_block (data : Z) : libc_heap_block :=
  HeapBlock (replicate (Z.to_nat (BITMAP_BYTES / 8)) 0) data BLOCK_SIZE.

(** [Userland/LibC/malloc.c:190-213] do_alloc and [add_heap_block], which calls malloc for the
    next node of the chain and so do_alloc again; every time the blocks are full one level
    deeper, hence the fuel.  The chunks of the new block are not marked. *)
Fixpoint do_alloc (fuel : nat) (chunks : Z) (h : libc_heap os) : result (Z * libc_heap os) :=
  match fuel with
  | O => Fault OutOfFuel
  | S fuel =>
    r ← alloc_from_blocks (h_blocks h) chunks;
    match r with
    | Some (a, blocks) => Ok (a, Heap blocks (h_headers h) (h_os h))
    | None =>
      let '(_, o) := virtual_alloc (h_os h) BITMAP_BYTES in
      let '(data, o) := virtual_alloc o BLOCK_SIZE in
      let h := Heap (h_blocks h) (h_headers h) o in
      let size_with_header := round_to_chunks (block_bytes +! header_bytes) in
      '(node, h) ← do_alloc fuel (size_with_header / CHUNK_SIZE) h;
      if node =? 0 then Fault OutOfBounds
      else
        let h := put_header h node MALLOC_MAGIC size_with_header in
        let blk := new_heap_block data in
        let blk := HeapBlock (hb_bitmap blk) data (hb_bytes_left blk -! chunks *! CHUNK_SIZE) in
        Ok (data, Heap (h_blocks h ++ [blk]) (h_headers h) (h_os h))
    end
  end.

Definition alloc_fuel : nat := 100.

(** [Userland/LibC/malloc.c:215-243] malloc *)
Definition malloc (size : Z) (h : libc_heap os) : result (Z * libc_heap os) :=
  if size =? 0 then Ok (0, h)
  else
    let size_with_header := size +! header_bytes in
    if size >=? MALLOC_THRESHOLD then
      let '(a, o) := virtual_alloc (h_os h) size_with_header in
      let h := put_header (Heap (h_blocks h) (h_headers h) o) a OSALLOC_MAGIC size_with_header in
      Ok (a +! header_bytes, h)
    else
      let size_with_header := round_to_chunks size_with_header in
      '(a, h) ← do_alloc alloc_fuel (size_with_header / CHUNK_SIZE) h;
      if a =? 0 then Ok (0, h)
      else Ok (a +! header_bytes, put_header h a MALLOC_MAGIC size_with_header).

(** [Userland/LibC/malloc.c:245-259] calloc *)
Definition calloc (num size : Z) (h : libc_heap os) (m : bytes) : result (Z * libc_heap os * bytes) :=
  let n := num *! size in
  if n >? MALLOC_THRESHOLD then '(buf, h) ← malloc n h; Ok (buf, h, m)
  else
    '(buf, h) ← malloc n h;
    if buf =? 0 then Ok (0, h, m)
    else m ← memset m buf 0 n; Ok (buf, h, m).

(** [Userland/LibC/malloc.c:261-268] calculate_offset *)
Definition calculate_offset (heap_begin data_ptr : Z) : Z * Z :=
  let chunk_offset := (data_ptr -! heap_begin) / CHUNK_SIZE in
  (chunk_offset / BITS_PER_UNIT, chunk_offset mod BITS_PER_UNIT).

(** [Userland/LibC/malloc.c:65-73] block_responsible_for: its place in the chain *)
Fixpoint block_responsible_for (blocks : list libc_heap_block) (address : Z) : option nat :=
  match blocks with
  | [] => None
  | blk :: blocks =>
    if (hb_data blk <=? address) && (address <? hb_data blk +! BLOCK_SIZE) then Some O
    else S <$> block_responsible_for blocks address
  end.

(** How [free] ends: it returns, or it ends the process with [exit(-1)]. *)
Inductive free_outcome :=
  | Returned (h : libc_heap os)
  | Exited.

(** [Userland/LibC/malloc.c:270-304] free *)
Definition free (ptr : Z) (h : libc_heap os) : result free_outcome :=
  if ptr =? 0 then Ok (Returned h)
  else
    let header_ptr := ptr -! header_bytes in
    match h_headers h !! header_ptr with
    | None => Fault OutOfBounds
    | Some header =>
      if type_magic header =? OSALLOC_MAGIC then
        Ok (Returned (Heap (h_blocks h) (h_headers h)
                        (virtual_free (h_os h) header_ptr (ah_size header))))
      else if type_magic header =? MALLOC_MAGIC then
        match block_responsible_for (h_blocks h) header_ptr with
        | None => Ok Exited
        | Some n =>
          match h_blocks h !! n with
          | None => Fault OutOfBounds
          | Some blk =>
            let '(unit_offset, bit_offset) := calculate_offset (hb_data blk) header_ptr in
            bitmap ← mark_bits_starting_at (Z.to_nat (ah_size header / CHUNK_SIZE)) (hb_bitmap blk)
                       unit_offset bit_offset false;
            let blk := HeapBlock bitmap (hb_data blk) (hb_bytes_left blk +! ah_size header) in
            Ok (Returned (Heap (<[n := blk]> (h_blocks h)) (h_headers h) (h_os h)))
          end
        end
      else Ok Exited
    end.

(** [Userland/LibC/malloc.c:306-323] realloc *)
Definition realloc (ptr size : Z) (h : libc_heap os) (m : bytes) : result (Z * free_outcome * bytes) :=
  if ptr =? 0 then '(p, h) ← malloc size h; Ok (p, Returned h, m)
  else if size =? 0 then o ← free ptr h; Ok (0, o, m)
  else
    '(data, h) ← malloc size h;
    match h_headers h !! (ptr -! header_bytes) with
    | None => Fault OutOfBounds
    | Some header =>
      let old_size := ah_size header in
      m ← memcpy m data ptr (if old_size <? size then old_size else size);
      o ← free ptr h;
      Ok (data, o, m)
    end.

(** [Userland/LibC/malloc.c:335-338] malloc_init and the call of add_heap_block, lines 324 to
    333: the main block is part of the chain while its next node is allocated *)
Definition malloc_init (o : os) : result (libc_heap os) :=
  let '(_, o) := virtual_alloc o BITMAP_BYTES in
  let '(data, o) := virtual_alloc o BLOCK_SIZE in
  '(_, h) ← malloc block_bytes (Heap [new_heap_block data] ∅ o);
  Ok h.
End malloc.
Arguments free_outcome : clear implicits.

(** ** Strings on the heap *)

Section strdup.
Context {os : Type} `{!OS os}.

(** [Userland/LibC/string.c:74-82] strdup *)
Definition strdup (m : bytes) (h : libc_heap os) (str1 : Z) : result (Z * bytes * libc_heap os) :=
  len ← strlen m str1;
  '(new_str, h) ← malloc (len +! 1) h;
  m ← strcpy m new_str str1;
  Ok (new_str, m, h).

(** [Userland/LibC/string.c:84-94] strndup *)
Definition strndup (m : bytes) (h : libc_heap os) (str1 size : Z) : result (Z * bytes * libc_heap os) :=
  len ← strlen m str1;
  let len := if size <? len then size else len in
  '(new_str, h) ← malloc (len +! 1) h;
  m ← memcpy m new_str str1 len;
  m ← store_byte m (new_str + len) 0;
  Ok (new_str, m, h).
End strdup.


(** Whether chunk [k] is reserved. *)
Definition chunk_bit (bitmap : list Z) (k : Z) : bool :=
  match bitmap !! Z.to_nat (k / 64) with
  | Some u => Z.testbit u (k mod 64)
  | None => false
  end.

Definition chunks_in (bitmap : list Z) : Z := 64 * Z.of_nat (length bitmap).

(** Every unit is a 64-bit number. *)
Definition units_ok (bitmap : list Z) : Prop := Forall is_u64 bitmap.

(** The run of [n] chunks from [s] is free. *)
Definition run_free (bitmap : list Z) (s n : Z) : Prop :=
  forall k, s <= k < s + n -> chunk_bit bitmap k = false.

(** ** Bits of a unit *)

Lemma u64_bits u k : is_u64 u -> 64 <= k -> Z.testbit u k = false.
Proof.
  intros [H0 H] Hk. destruct (decide (u = 0)) as [->|]; [apply Z.bits_0|].
  apply Z.bits_above_log2; [done|]. apply Z.log2_lt_pow2; [lia|].
  assert (2 ^ 64 <= 2 ^ k) by (apply Z.pow_le_mono_r; lia). lia.
Qed.

Lemma u64_of_bits u : 0 <= u -> (forall k, 64 <= k -> Z.testbit u k = false) -> is_u64 u.
Proof.
  intros H0 H. split; [done|]. destruct (decide (u = 0)) as [->|]; [done|].
  destruct (decide (u < W64)) as [|Hge]; [done|]. exfalso.
  assert (Hl : 64 <= Z.log2 u) by (apply Z.log2_le_pow2; lia).
  specialize (H (Z.log2 u) Hl). rewrite Z.bit_log2 in H; [done|lia].
Qed.

Lemma mark_bit u b (set : bool) :
  is_u64 u -> 0 <= b < 64 ->
  let value := wrap64 (Z.shiftl 1 (b mod BITS_PER_UNIT)) in
  let u' := if set then Z.lor u value else Z.land u (Z.lxor value minus_one) in
  is_u64 u' /\ forall k, 0 <= k < 64 -> Z.testbit u' k = if decide (k = b) then set else Z.testbit u k.
Proof.
  intros Hu Hb. unfold BITS_PER_UNIT. rewrite (Z.mod_small b 64) by lia. cbv zeta.
  assert (Hp : 0 < 2 ^ b < W64).
  { split; [apply Z.pow_pos_nonneg; lia|]. change W64 with (2 ^ 64). apply Z.pow_lt_mono_r; lia. }
  rewrite Z.shiftl_1_l, wrap64_small by (unfold is_u64; lia).
  assert (Hm : forall k, 0 <= k -> Z.testbit minus_one k = bool_decide (k < 64)).
  { intros k Hk. change minus_one with (Z.ones 64). destruct (decide (k < 64)).
    - rewrite bool_decide_true by done. apply Z.ones_spec_low. lia.
    - rewrite bool_decide_false by done. apply Z.ones_spec_high. lia. }
  assert (Hbits : forall k, 0 <= k -> Z.testbit (if set then Z.lor u (2 ^ b) else Z.land u (Z.lxor (2 ^ b) minus_one)) k =
    if decide (k = b) then set else Z.testbit u k).
  { intros k Hk. destruct set; [rewrite Z.lor_spec|rewrite Z.land_spec, Z.lxor_spec, Hm by done];
      rewrite Z.pow2_bits_eqb by lia; case_decide as Hd; subst.
    - by rewrite Z.eqb_refl, orb_true_r.
    - by rewrite (proj2 (Z.eqb_neq b k)), orb_false_r by lia.
    - rewrite Z.eqb_refl, bool_decide_true by lia. apply andb_false_r.
    - rewrite (proj2 (Z.eqb_neq b k)) by lia. destruct (decide (k < 64)).
      + rewrite bool_decide_true by done. apply andb_true_r.
      + by rewrite (u64_bits u k) by (done || lia). }
  split; [|intros k Hk; apply Hbits; lia]. apply u64_of_bits.
  - destruct set; [apply Z.lor_nonneg; unfold is_u64 in Hu; lia|].
    apply Z.land_nonneg. left. apply Hu.
  - intros k Hk. rewrite Hbits, decide_False by lia. by apply u64_bits.
Qed.

Lemma chunk_unit bitmap u b :
  0 <= u -> 0 <= b < 64 ->
  chunk_bit bitmap (64 * u + b) = match bitmap !! Z.to_nat u with Some x => Z.testbit x b | None => false end.
Proof.
  intros Hu Hb. unfold chunk_bit. rewrite (Z.mul_comm 64 u), Z.div_add_l, (Z.div_small b 64), Z.add_0_r by lia.
  rewrite (Z.add_comm (u * 64) b), Z.mod_add, Z.mod_small by lia. done.
Qed.

Lemma chunk_split k : 0 <= k -> k = 64 * (k / 64) + k mod 64 /\ 0 <= k / 64 /\ 0 <= k mod 64 < 64.
Proof. intros. split_and!; dlia. Qed.

(** ** Marking *)

Lemma mark_bits_Ok n bitmap u b (set : bool) :
  units_ok bitmap -> 0 <= u -> 0 <= b < 64 -> 64 * u + b + Z.of_nat n <= chunks_in bitmap ->
  exists bitmap', mark_bits_starting_at n bitmap u b set = Ok bitmap' /\
    units_ok bitmap' /\ length bitmap' = length bitmap /\
    forall k, 0 <= k -> chunk_bit bitmap' k =
      if in_run (64 * u + b) (Z.of_nat n) k then set else chunk_bit bitmap k.
Proof.
  unfold chunks_in. revert bitmap u b. induction n as [|n IH]; intros bitmap u b Hok Hu Hb Hle;
    cbn [mark_bits_starting_at].
  - exists bitmap. split_and!; try done. intros k Hk.
    by replace (in_run _ _ _) with false by (symmetry; in_run_lia).
  - destruct (read_at_lt bitmap u) as [x Hx]; [lia|]. rewrite Hx. run. apply read_at_Ok in Hx as [_ Hx].
    assert (Hxu : is_u64 x) by (by eapply Forall_lookup_1).
    destruct (mark_bit x b set Hxu Hb) as [Hu' Hbits]. cbv zeta in Hu', Hbits.
    set (x' := if set then _ else _) in *. unfold write_at. rewrite decide_True by lia. run.
    set (bm1 := <[Z.to_nat u := x']> bitmap).
    assert (Hok1 : units_ok bm1) by (by apply Forall_insert).
    assert (Hlen1 : length bm1 = length bitmap) by apply length_insert.
    assert (Hbit1 : forall k, 0 <= k -> chunk_bit bm1 k = if decide (k = 64 * u + b) then set else chunk_bit bitmap k).
    { intros k Hk. destruct (chunk_split k Hk) as (Ek & Hq & Hr). rewrite Ek, !chunk_unit by lia.
      destruct (decide (k / 64 = u)) as [->|Hne].
      - unfold bm1. rewrite list_lookup_insert_eq by lia. rewrite Hx, Hbits by lia.
        destruct (decide (k mod 64 = b)); [rewrite decide_True by lia|rewrite decide_False by lia]; done.
      - unfold bm1. rewrite list_lookup_insert_ne by lia. by rewrite decide_False by lia. }
    assert (Hrun : forall bitmap', units_ok bitmap' /\ length bitmap' = length bm1 /\
        (forall k, 0 <= k -> chunk_bit bitmap' k = if in_run (64 * u + b + 1) (Z.of_nat n) k then set else chunk_bit bm1 k) ->
        units_ok bitmap' /\ length bitmap' = length bitmap /\
        (forall k, 0 <= k -> chunk_bit bitmap' k = if in_run (64 * u + b) (Z.of_nat (S n)) k then set else chunk_bit bitmap k)).
    { intros bitmap' (H1 & H2 & H3). split_and!; [done|by rewrite H2|]. intros k Hk. rewrite H3, Hbit1 by done.
      destruct (decide (k = 64 * u + b)) as [->|].
      - replace (in_run (64 * u + b) _ _) with true by (symmetry; in_run_lia). by destruct (in_run _ _ _).
      - rewrite <- (in_run_shift (64 * u + b) (Z.of_nat (S n))) by done.
        by replace (Z.of_nat (S n) - 1) with (Z.of_nat n) by lia. }
    unfold BITS_PER_UNIT. destruct (Z.eqb_spec (b + 1) 64).
    + destruct (IH bm1 (u + 1) 0) as (bm' & E & H); [done|lia|lia|lia|].
      exists bm'. split; [done|]. apply Hrun. by replace (64 * u + b + 1) with (64 * (u + 1) + 0) by lia.
    + destruct (IH bm1 u (b + 1)) as (bm' & E & H); [done|lia|lia|lia|].
      exists bm'. split; [done|]. apply Hrun. by replace (64 * u + b + 1) with (64 * u + (b + 1)) by lia.
Qed.

(** ** Searching *)

(** No run of [count] clear bits within a unit ends by bit [e]. *)
Definition no_hole (unit count e : Z) : Prop :=
  forall f, 0 <= f -> f + count <= e -> exists k, f <= k < f + count /\ Z.testbit unit k = true.

Lemma bit_test u i : 0 <= i -> (Z.land u (Z.shiftl 1 i) =? 0) = negb (Z.testbit u i).
Proof.
  intros Hi. rewrite Z.shiftl_1_l. destruct (Z.testbit u i) eqn:E; simpl.
  - apply Z.eqb_neq. intros H. apply (f_equal (fun z => Z.testbit z i)) in H.
    rewrite Z.land_spec, E, Z.pow2_bits_true, Z.bits_0 in H by done. done.
  - apply Z.eqb_eq, Z.bits_inj'. intros k Hk. rewrite Z.land_spec, Z.pow2_bits_eqb, Z.bits_0 by done.
    destruct (Z.eqb_spec i k) as [<-|]; [by rewrite E|apply andb_false_r].
Qed.

Lemma hole_loop_Ok n unit count fi c :
  let i := 64 - Z.of_nat n in
  (n <= 64)%nat -> 1 <= count -> 0 <= c < count -> c <= i ->
  (forall k, i - c <= k < i -> Z.testbit unit k = false) ->
  fi = (if c =? 0 then minus_one else i - c) ->
  (c < i -> Z.testbit unit (i - c - 1) = true) ->
  no_hole unit count i ->
  let r := hole_loop n unit count fi c in
  (r = minus_one -> no_hole unit count 64) /\
  (r <> minus_one -> 0 <= r /\ r + count <= 64 /\ forall k, r <= k < r + count -> Z.testbit unit k = false).
Proof.
  revert fi c. induction n as [|n IH]; intros fi c i Hn Hcount Hc Hci Hrun Hfi Hmax Hno.
  { cbn [hole_loop]. split; [|done]. intros _. by replace 64 with i by (unfold i; lia). }
  cbn [hole_loop]. unfold BITS_PER_UNIT. fold i. rewrite bit_test by lia.
  set (i' := 64 - Z.of_nat n) in *. assert (Ei : i' = i + 1) by (unfold i, i'; lia).
  destruct (Z.testbit unit i) eqn:Eb; cbn [negb].
  - apply (IH minus_one 0); rewrite ?Ei; try lia; try done.
    + intros _. by replace (i + 1 - 0 - 1) with i by lia.
    + intros f Hf Hfe. destruct (decide (f + count <= i)) as [|]; [by apply Hno|].
      exists i. split; [lia|done].
  - assert (Hfi' : (if fi =? minus_one then i else fi) = i - c).
    { rewrite Hfi. destruct (Z.eqb_spec c 0) as [->|]; [rewrite Z.eqb_refl; lia|].
      by rewrite (proj2 (Z.eqb_neq _ _)) by (unfold minus_one; lia). }
    rewrite Hfi'. destruct (Z.eqb_spec (c + 1) count) as [Hend|Hmore].
    + split; [unfold minus_one; lia|]. intros _. split_and!; [lia|lia|]. intros k Hk.
      destruct (decide (k = i)) as [->|]; [done|apply Hrun; lia].
    + apply IH; rewrite ?Ei; try lia.
      * intros k Hk. destruct (decide (k = i)) as [->|]; [done|apply Hrun; lia].
      * rewrite (proj2 (Z.eqb_neq _ _)) by lia. lia.
      * intros Hlt. replace (i + 1 - (c + 1) - 1) with (i - c - 1) by lia. apply Hmax. lia.
      * intros f Hf Hfe. destruct (decide (f + count <= i)) as [|]; [by apply Hno|].
        exists (i - c - 1). split; [lia|]. apply Hmax. lia.
Qed.

Lemma find_hole_Ok unit count :
  1 <= count ->
  let r := find_hole_in_unit unit count in
  (r = minus_one -> no_hole unit count 64) /\
  (r <> minus_one -> 0 <= r /\ r + count <= 64 /\ forall k, r <= k < r + count -> Z.testbit unit k = false).
Proof.
  intros Hc. apply (hole_loop_Ok 64 unit count minus_one 0); change (64 - Z.of_nat 64) with 0; try lia; try done.
  intros f Hf Hfe. lia.
Qed.

(** The bits above the highest one of a unit. *)
Lemma clz_bits unit :
  is_u64 unit -> unit <> 0 ->
  0 <= clz unit < 64 /\ forall k, 64 - clz unit <= k < 64 -> Z.testbit unit k = false.
Proof.
  intros [H0 H] Hne. unfold clz.
  assert (Hl : 0 <= Z.log2 unit < 64) by (split; [apply Z.log2_nonneg|apply Z.log2_lt_pow2; lia]).
  split; [lia|]. intros k Hk. apply Z.bits_above_log2; lia.
Qed.

Lemma ctz_bound unit : is_u64 unit -> unit <> 0 -> ctz unit <> 64.
Proof.
  intros Hu Hne. unfold ctz.
  assert (Hp : is_u64 (Z.land unit (- unit))).
  { apply u64_of_bits; [apply Z.land_nonneg; left; apply Hu|].
    intros k Hk. rewrite Z.land_spec, (u64_bits unit k) by done. done. }
  unfold is_u64 in Hp.
  destruct (decide (Z.land unit (- unit) = 0)) as [->|]; [done|].
  assert (Z.log2 (Z.land unit (- unit)) < 64) by (apply Z.log2_lt_pow2; lia). lia.
Qed.

(** The run found so far ends where unit [i] begins. *)
Definition run_so_far (bitmap : list Z) (i cc fu fb : Z) : Prop :=
  0 <= cc /\ (cc = 0 \/ (0 <= fu /\ 0 <= fb < 64 /\ 64 * fu + fb + cc = 64 * i /\ run_free bitmap (64 * i - cc) cc)).

Lemma run_free_join bitmap s n k :
  run_free bitmap s n -> run_free bitmap (s + n) k -> run_free bitmap s (n + k).
Proof.
  intros H1 H2 i Hi. destruct (decide (i < s + n)); [apply H1; lia|apply H2; lia].
Qed.

Lemma unit_free bitmap i unit lo :
  0 <= i -> bitmap !! Z.to_nat i = Some unit -> 0 <= lo <= 64 ->
  (forall k, lo <= k < 64 -> Z.testbit unit k = false) -> run_free bitmap (64 * i + lo) (64 - lo).
Proof.
  intros Hi Hu Hlo Hb k Hk. destruct (chunk_split k) as (Ek & Hq & Hr); [lia|].
  assert (k / 64 = i) by lia. rewrite Ek, chunk_unit by lia. subst i. rewrite Hu. apply Hb. lia.
Qed.

Lemma contiguous_loop_Ok bitmap units i count cc fu fb :
  units_ok bitmap -> 1 <= count -> count <> 64 -> 0 <= i ->
  drop (Z.to_nat i) bitmap = units -> run_so_far bitmap i cc fu fb ->
  let '(u, b) := contiguous_loop units i count cc fu fb in
  (b <> minus_one -> 0 <= u /\ 0 <= b < 64 /\ 64 * u + b + count <= chunks_in bitmap /\
     run_free bitmap (64 * u + b) count) /\
  (b = minus_one -> count < 64 -> forall unit, unit ∈ units -> no_hole unit count 64).
Proof.
  intros Hok Hcount H64. revert i cc fu fb. induction units as [|unit units IH]; intros i cc fu fb Hi Hdrop Hrun.
  { cbn [contiguous_loop]. split; [done|]. intros _ _ unit Hin. by apply elem_of_nil in Hin. }
  assert (Hlk : bitmap !! Z.to_nat i = Some unit).
  { rewrite <- (Nat.add_0_r (Z.to_nat i)), <- lookup_drop, Hdrop. done. }
  assert (Hnext : drop (Z.to_nat (i + 1)) bitmap = units).
  { replace (Z.to_nat (i + 1)) with (Z.to_nat i + 1)%nat by lia. rewrite <- drop_drop, Hdrop. done. }
  assert (Hin : 64 * i + 64 <= chunks_in bitmap).
  { apply lookup_lt_Some in Hlk. unfold chunks_in. lia. }
  assert (Hu : is_u64 unit) by (by eapply Forall_lookup_1).
  assert (Hstep : forall cc' fu' fb', run_so_far bitmap (i + 1) cc' fu' fb' ->
    (count < 64 -> no_hole unit count 64) ->
    let '(u, b) := contiguous_loop units (i + 1) count cc' fu' fb' in
    (b <> minus_one -> 0 <= u /\ 0 <= b < 64 /\ 64 * u + b + count <= chunks_in bitmap /\
       run_free bitmap (64 * u + b) count) /\
    (b = minus_one -> count < 64 -> forall x, x ∈ unit :: units -> no_hole x count 64)).
  { intros cc' fu' fb' Hr Hno. specialize (IH (i + 1) cc' fu' fb' ltac:(lia) Hnext Hr).
    destruct (contiguous_loop _ _ _ _ _ _) as [u b]. destruct IH as [H1 H2]. split; [done|].
    intros Hb Hc x Hx. apply elem_of_cons in Hx as [->|Hx]; [by apply Hno|by apply H2]. }
  clear IH. cbn [contiguous_loop]. destruct (Z.eqb_spec unit minus_one) as [Efull|Hnf].
  { apply Hstep; [split; [lia|by left]|]. intros Hc f Hf Hfe. exists f. split; [lia|]. rewrite Efull.
    change minus_one with (Z.ones 64). apply Z.ones_spec_low. lia. }
  assert (Hhole : let index := if count <? BITS_PER_UNIT then find_hole_in_unit unit count else minus_one in
    (index <> minus_one -> 0 <= index /\ index + count <= 64 /\
       forall k, index <= k < index + count -> Z.testbit unit k = false) /\
    (index = minus_one -> count < 64 -> no_hole unit count 64)).
  { unfold BITS_PER_UNIT. destruct (Z.ltb_spec count 64).
    - destruct (find_hole_Ok unit count Hcount) as [H1 H2]. split; [done|]. auto.
    - split; [done|lia]. }
  cbv zeta in Hhole. set (index := if count <? BITS_PER_UNIT then _ else _) in *. destruct Hhole as [Hfound Hnone].
  destruct (Z.eqb_spec index minus_one) as [Ei|Ei]; cbn [negb].
  2:{ destruct (Hfound Ei) as (H1 & H2 & H3). split; [|done]. intros _. split_and!; [lia|lia|lia|lia|].
      intros k Hk. destruct (chunk_split k) as (Ek & Hq & Hr); [lia|]. assert (Eq : k / 64 = i) by lia.
      rewrite Ek, chunk_unit, Eq, Hlk by lia. apply H3. lia. }
  unfold BITS_PER_UNIT in *. destruct Hrun as [Hcc Hrun]. destruct (Z.eqb_spec unit 0) as [->|Hnz].
  - rewrite Z.eqb_refl. rewrite Z.geb_leb.
    assert (Hwhole : run_free bitmap (64 * i) 64).
    { pose proof (unit_free bitmap i 0 0 Hi Hlk ltac:(lia) ltac:(intros; apply Z.bits_0)) as H.
      by rewrite Z.add_0_r, Z.sub_0_r in H. }
    destruct (Z.leb_spec count (cc + 64)) as [Henough|Hmore].
    + destruct Hrun as [->|(H1 & H2 & H3 & H4)].
      { exfalso. assert (Hlt : count < 64) by lia. destruct (Hnone Ei Hlt 0) as (k & _ & Hk); [lia|lia|].
        by rewrite Z.bits_0 in Hk. }
      split; [|unfold minus_one; lia]. intros _. split_and!; [lia|lia|lia|lia|].
      assert (Hj : run_free bitmap (64 * i - cc) (cc + 64)).
      { apply run_free_join; [done|]. by replace (64 * i - cc + cc) with (64 * i) by lia. }
      intros k Hk. apply Hj. lia.
    + destruct (Z.eqb_spec cc 0) as [->|Hcc0].
      * apply Hstep; [|by apply Hnone]. split; [lia|]. right. split_and!; try lia.
        replace (64 * (i + 1) - 64) with (64 * i) by lia. done.
      * destruct Hrun as [->|(H1 & H2 & H3 & H4)]; [done|].
        apply Hstep; [|by apply Hnone]. split; [lia|]. right. split_and!; try lia.
        replace (64 * (i + 1) - (cc + 64)) with (64 * i - cc) by lia.
        apply run_free_join; [done|]. by replace (64 * i - cc + cc) with (64 * i) by lia.
  - rewrite (proj2 (Z.eqb_neq (ctz unit) 64)) by (by apply ctz_bound).
    destruct (clz_bits unit Hu Hnz) as [Hz Hzb]. rewrite Z.add_0_r, Z.geb_leb.
    assert (Htop : run_so_far bitmap (i + 1) (clz unit) i (64 - clz unit)).
    { split; [lia|]. destruct (decide (clz unit = 0)); [by left|]. right. split_and!; try lia.
      pose proof (unit_free bitmap i unit (64 - clz unit) Hi Hlk ltac:(lia) Hzb) as H.
      replace (64 * (i + 1) - clz unit) with (64 * i + (64 - clz unit)) by lia.
      by replace (64 - (64 - clz unit)) with (clz unit) in H by lia. }
    destruct (Z.leb_spec count cc) as [Henough|Hmore].
    + destruct Hrun as [->|(H1 & H2 & H3 & H4)]; [lia|].
      split; [|unfold minus_one; lia]. intros _. split_and!; [lia|lia|lia|lia|].
      intros k Hk. apply H4. lia.
    + destruct (Z.eqb_spec cc 0); [apply Hstep; [done|by apply Hnone]|].
      rewrite (proj2 (Z.eqb_neq _ _)) by lia. apply Hstep; [done|by apply Hnone].
Qed.
