(* ===== verification/LibcMallocCorrect.v ===== *)
(** What the heap of Userland/LibC/malloc.c promises while it does not have to grow: live
    allocations lie inside the blocks and never overlap, [free] gives back exactly what
    [malloc] took, and small requests are served whenever a unit has room. *)
From S2P Require Import Prelude LibcMemory LibcString LibcMalloc.

(** ** The invariant *)

Definition chunks_per_block : Z := 131072.

(** The number of chunks as a natural number, which must not be computed. *)
Lemma block_chunks_sealed : { n : nat | Z.of_nat n = chunks_per_block }.
Proof. exists (Z.to_nat chunks_per_block). by apply Z2Nat.id. Qed.

Definition block_chunks : nat := proj1_sig block_chunks_sealed.

(** The free chunks of a bitmap. *)
Definition free_chunks_of (bitmap : list Z) : Z :=
  count_if (fun k => negb (chunk_bit bitmap k)) block_chunks.

Lemma block_chunks_Z : Z.of_nat block_chunks = chunks_per_block.
Proof. exact (proj2_sig block_chunks_sealed). Qed.

Record libc_block_ok (b : libc_heap_block) : Prop := BlockOk {
  bo_units : units_ok (hb_bitmap b);
  bo_length : chunks_in (hb_bitmap b) = chunks_per_block;
  bo_data : 0 < hb_data b /\ hb_data b + BLOCK_SIZE < W64;
  bo_left : hb_bytes_left b = CHUNK_SIZE * free_chunks_of (hb_bitmap b);
}.

(** The allocation of [n] bytes at [a] is made of reserved chunks of a block. *)
Record allocated (blocks : list libc_heap_block) (a n : Z) (i : nat) (b : libc_heap_block) (s c : Z) : Prop := Allocated {
  al_block : blocks !! i = Some b;
  al_address : a = hb_data b + CHUNK_SIZE * s;
  al_size : n = CHUNK_SIZE * c;
  al_range : 0 <= s /\ 0 < c /\ s + c <= chunks_per_block;
  al_bits : forall k, s <= k < s + c -> chunk_bit (hb_bitmap b) k = true;
}.

Section heaps.
Context {os : Type} `{!OS os}.

(** [live] maps the addresses of the headers of the live allocations to their sizes. *)
Record heap_ok (h : libc_heap os) (live : gmap Z Z) : Prop := HeapOk {
  ho_blocks : Forall libc_block_ok (h_blocks h);
  ho_apart : forall i j b b', h_blocks h !! i = Some b -> h_blocks h !! j = Some b' -> i <> j ->
    hb_data b + BLOCK_SIZE <= hb_data b' \/ hb_data b' + BLOCK_SIZE <= hb_data b;
  ho_live : forall a n, live !! a = Some n ->
    h_headers h !! a = Some (AllocHeader MALLOC_MAGIC n) /\
    exists i b s c, allocated (h_blocks h) a n i b s c;
  ho_disjoint : forall a n a' n', live !! a = Some n -> live !! a' = Some n' -> a <> a' ->
    a + n <= a' \/ a' + n' <= a;
}.

Lemma free_chunks_range bitmap : 0 <= free_chunks_of bitmap <= chunks_per_block.
Proof. rewrite <- block_chunks_Z. apply count_if_bounds. Qed.

(** Marking a run changes the count by its length. *)
Lemma free_chunks_mark bitmap bitmap' s n (set : bool) :
  0 <= s -> 0 <= n -> s + n <= chunks_per_block ->
  (forall k, s <= k < s + n -> chunk_bit bitmap k = negb set) ->
  (forall k, 0 <= k -> chunk_bit bitmap' k = if in_run s n k then set else chunk_bit bitmap k) ->
  free_chunks_of bitmap' = free_chunks_of bitmap + (if set then - n else n).
Proof.
  intros Hs Hn Hle Hold Hnew. unfold free_chunks_of.
  pose proof (count_if_run s n block_chunks Hs Hn ltac:(by rewrite block_chunks_Z)) as Hr.
  assert (Hk : forall k, 0 <= k -> in_run s n k = true -> chunk_bit bitmap k = negb set)
    by (intros k ? Hin; apply in_run_spec in Hin; by apply Hold).
  destruct set.
  - rewrite (count_if_disjoint (fun k => negb (chunk_bit bitmap k)) (fun k => negb (chunk_bit bitmap' k)) (in_run s n)); [lia|].
    clear Hr. intros k [Hk0 _]. rewrite Hnew by done. destruct (in_run s n k) eqn:E; [by rewrite (Hk k)|].
    by rewrite orb_false_r, andb_false_r.
  - rewrite (count_if_disjoint (fun k => negb (chunk_bit bitmap' k)) (fun k => negb (chunk_bit bitmap k)) (in_run s n)); [lia|].
    clear Hr. intros k [Hk0 _]. rewrite Hnew by done. destruct (in_run s n k) eqn:E; [by rewrite (Hk k)|].
    by rewrite orb_false_r, andb_false_r.
Qed.

(** ** Reserving *)

(** The search took the run [s, s + c) of block [i], giving [b']. *)
Record reserved (blocks : list libc_heap_block) (c a : Z) (blocks' : list libc_heap_block) (i : nat) (b b' : libc_heap_block) (s : Z)
  : Prop := Reserved {
  re_block : blocks !! i = Some b;
  re_blocks : blocks' = <[i := b']> blocks;
  re_address : a = hb_data b + CHUNK_SIZE * s;
  re_range : 0 <= s /\ s + c <= chunks_per_block;
  re_free : run_free (hb_bitmap b) s c;
  re_data : hb_data b' = hb_data b;
  re_ok : libc_block_ok b';
  re_left : hb_bytes_left b' = hb_bytes_left b - CHUNK_SIZE * c;
  re_bits : forall k, 0 <= k -> chunk_bit (hb_bitmap b') k = if in_run s c k then true else chunk_bit (hb_bitmap b) k;
}.

Lemma reserve_in_block b c u bit :
  libc_block_ok b -> 1 <= c <= chunks_per_block -> c <> 64 ->
  CHUNK_SIZE * c <= hb_bytes_left b ->
  find_contiguous_bits (hb_bitmap b) c = (u, bit) -> bit <> minus_one ->
  exists bitmap' s, mark_bits_starting_at (Z.to_nat c) (hb_bitmap b) u bit true = Ok bitmap' /\
    s = 64 * u + bit /\ 0 <= u /\ 0 <= bit < 64 /\ s + c <= chunks_per_block /\
    run_free (hb_bitmap b) s c /\
    libc_block_ok (HeapBlock bitmap' (hb_data b) (hb_bytes_left b - CHUNK_SIZE * c)) /\
    (forall k, 0 <= k -> chunk_bit bitmap' k = if in_run s c k then true else chunk_bit (hb_bitmap b) k).
Proof.
  intros [Hu Hl Hd Hb] Hc H64 Hleft E Hbit.
  assert (Hso : run_so_far (hb_bitmap b) 0 0 minus_one minus_one) by (split; [lia|by left]).
  pose proof (contiguous_loop_Ok (hb_bitmap b) (hb_bitmap b) 0 c 0 minus_one minus_one Hu ltac:(lia) H64 ltac:(lia) eq_refl Hso) as H.
  unfold find_contiguous_bits in E. rewrite E in H. destruct H as [H _].
  destruct (H Hbit) as (H1 & H2 & H3 & H4). rewrite Hl in H3.
  destruct (mark_bits_Ok (Z.to_nat c) (hb_bitmap b) u bit true) as (bm & Em & Hok & Hlen & Hbits);
    [done|done|done|rewrite Hl; lia|]. rewrite Z2Nat.id in Hbits by lia.
  exists bm, (64 * u + bit). split_and!; try done; try lia.
  constructor; simpl; [done|unfold chunks_in in *; by rewrite Hlen|done|].
  rewrite (free_chunks_mark (hb_bitmap b) bm (64 * u + bit) c true) by (done || lia || apply H4). lia.
Qed.

Lemma alloc_from_blocks_Ok blocks c :
  Forall libc_block_ok blocks -> 1 <= c <= chunks_per_block -> c <> 64 ->
  exists r, alloc_from_blocks blocks c = Ok r /\
    match r with
    | Some (a, blocks') => exists i b b' s, reserved blocks c a blocks' i b b' s
    | None => c < 64 -> forall b unit, b ∈ blocks -> unit ∈ hb_bitmap b ->
        CHUNK_SIZE * c <= hb_bytes_left b -> no_hole unit c 64
    end.
Proof.
  intros Hok Hc H64. induction Hok as [|b blocks Hb Hok (r & E & Hr)]; cbn [alloc_from_blocks].
  { exists None. split; [done|]. intros _ b unit Hin. by apply elem_of_nil in Hin. }
  assert (Hgo : (c < 64 -> forall unit, unit ∈ hb_bitmap b -> CHUNK_SIZE * c <= hb_bytes_left b -> no_hole unit c 64) ->
    exists r, (r ← alloc_from_blocks blocks c; Ok (match r with Some (a, rest) => Some (a, b :: rest) | None => None end)) = Ok r /\
    match r with
    | Some (a, blocks') => exists i b0 b' s, reserved (b :: blocks) c a blocks' i b0 b' s
    | None => c < 64 -> forall b0 unit, b0 ∈ b :: blocks -> unit ∈ hb_bitmap b0 ->
        CHUNK_SIZE * c <= hb_bytes_left b0 -> no_hole unit c 64
    end).
  { intros Hno. rewrite E. run. destruct r as [[a rest]|]; eexists; (split; [done|]).
    - destruct Hr as (i & b0 & b' & s & [H1 H2 H3 H4 H5 H6 H7 H8 H9]). exists (S i), b0, b', s.
      constructor; try done. simpl. by rewrite H2.
    - intros Hlt b0 unit Hin Hu Hl. apply elem_of_cons in Hin as [->|Hin]; [by apply Hno|by eapply Hr]. }
  unfold CHUNK_SIZE in *. pose proof (bo_left b Hb) as Hleft. pose proof (free_chunks_range (hb_bitmap b)) as Hfb.
  unfold CHUNK_SIZE, chunks_per_block in *.
  rewrite (wrap64_small (c * 32)) by (unfold is_u64; lia).
  destruct (Z.ltb_spec (hb_bytes_left b) (c * 32)) as [Hsmall|Hroom]; [apply Hgo; lia|].
  destruct (find_contiguous_bits (hb_bitmap b) c) as [u bit] eqn:Ef.
  destruct (Z.eqb_spec bit minus_one) as [->|Hbit].
  { apply Hgo. intros Hlt unit Hin _.
    assert (Hso : run_so_far (hb_bitmap b) 0 0 minus_one minus_one) by (split; [lia|by left]).
    pose proof (contiguous_loop_Ok (hb_bitmap b) (hb_bitmap b) 0 c 0 minus_one minus_one (bo_units b Hb) ltac:(lia) H64 ltac:(lia) eq_refl Hso) as H.
    unfold find_contiguous_bits in Ef. rewrite Ef in H. by apply H. }
  destruct (reserve_in_block b c u bit) as (bm & s & Em & Es & H1 & H2 & H3 & H4 & H5 & H6);
    [done|unfold chunks_per_block; lia|done|unfold CHUNK_SIZE; lia|done|done|].
  unfold chunks_per_block, CHUNK_SIZE, BITS_PER_UNIT in *. rewrite Em. run.
  pose proof (bo_data b Hb) as Hd. unfold BLOCK_SIZE in Hd.
  rewrite (wrap64_small (hb_bytes_left b - _)) by (unfold is_u64; lia).
  rewrite (wrap64_small (hb_data b + _)) by (unfold is_u64; lia). rewrite wrap64_small by (unfold is_u64; lia).
  eexists. split; [done|]. eexists 0%nat, b, _, s.
  replace (hb_bytes_left b - c * 32) with (hb_bytes_left b - 32 * c) by lia.
  constructor; cbn [hb_data hb_bytes_left hb_bitmap]; try done; unfold chunks_per_block, CHUNK_SIZE; lia.
Qed.

(** ** Live allocations *)

Lemma allocated_range blocks a n i b s c :
  Forall libc_block_ok blocks -> allocated blocks a n i b s c ->
  libc_block_ok b /\ hb_data b <= a /\ a + n <= hb_data b + BLOCK_SIZE /\ 32 <= n /\ 0 < a /\ a + n < W64.
Proof.
  intros Hok [H1 H2 H3 H4 H5]. assert (Hb : libc_block_ok b) by (by eapply Forall_lookup_1).
  pose proof (bo_data b Hb). unfold chunks_per_block, CHUNK_SIZE, BLOCK_SIZE in *. split_and!; [done|lia..].
Qed.

(** Allocations of a block that are disjoint in memory have disjoint runs of chunks. *)
Lemma disjoint_runs blocks a n b s c a' n' s' c' i :
  allocated blocks a n i b s c -> allocated blocks a' n' i b s' c' ->
  a + n <= a' \/ a' + n' <= a -> s + c <= s' \/ s' + c' <= s.
Proof. intros [H1 H2 H3 H4 H5] [H1' H2' H3' H4' H5'] Hd. unfold CHUNK_SIZE in *. lia. Qed.

(** An update of the bits of one block that keeps the run of an allocation keeps the
    allocation. *)
Lemma allocated_update blocks i b b' a n j bj s c :
  blocks !! i = Some b -> hb_data b' = hb_data b -> allocated blocks a n j bj s c ->
  (i = j -> forall k, s <= k < s + c -> chunk_bit (hb_bitmap b') k = true) ->
  exists bj', allocated (<[i := b']> blocks) a n j bj' s c.
Proof.
  intros Hi Hd [H1 H2 H3 H4 H5] Hk. apply lookup_lt_Some in Hi as Hlt. destruct (decide (i = j)) as [->|].
  - exists b'. rewrite Hi in H1. injection H1 as <-. constructor; [by apply list_lookup_insert_eq|by rewrite Hd|done|done|].
    by apply Hk.
  - exists bj. constructor; try done. by rewrite list_lookup_insert_ne.
Qed.

Lemma apart_update (blocks : list libc_heap_block) i b b' :
  blocks !! i = Some b -> hb_data b' = hb_data b ->
  (forall i j b b', blocks !! i = Some b -> blocks !! j = Some b' -> i <> j ->
    hb_data b + BLOCK_SIZE <= hb_data b' \/ hb_data b' + BLOCK_SIZE <= hb_data b) ->
  (forall j k c c', <[i := b']> blocks !! j = Some c -> <[i := b']> blocks !! k = Some c' -> j <> k ->
    hb_data c + BLOCK_SIZE <= hb_data c' \/ hb_data c' + BLOCK_SIZE <= hb_data c).
Proof.
  intros Hi Hd H j k c c' Hj Hk Hne. apply lookup_lt_Some in Hi as Hlt.
  assert (Hfind : forall x y, <[i := b']> blocks !! x = Some y -> exists y', blocks !! x = Some y' /\ hb_data y' = hb_data y).
  { intros x y Hx. destruct (decide (x = i)) as [->|].
    - rewrite list_lookup_insert_eq in Hx by done. injection Hx as <-. by exists b.
    - rewrite list_lookup_insert_ne in Hx by done. by exists y. }
  destruct (Hfind _ _ Hj) as (y & Hy & <-), (Hfind _ _ Hk) as (z & Hz & <-). by eapply H.
Qed.

(** ** malloc *)

(** The chunks a request takes, with its header. *)
Definition chunks_taken (size : Z) : Z := (size + 47) / 32.

Lemma round_chunks size :
  0 < size < MALLOC_THRESHOLD ->
  size +! header_bytes = size + 16 /\ round_to_chunks (size + 16) = CHUNK_SIZE * chunks_taken size /\
  1 <= chunks_taken size <= 513 /\ size + 16 <= CHUNK_SIZE * chunks_taken size.
Proof.
  unfold MALLOC_THRESHOLD, header_bytes, round_to_chunks, CHUNK_SIZE, chunks_taken. intros H.
  rewrite (wrap64_small (size + 16)) by (unfold is_u64; lia). split; [done|].
  destruct (Z.eqb_spec ((size + 16) mod 32) 0) as [E|E]; cbn [negb].
  - split_and!; dlia.
  - rewrite wrap64_small by (unfold is_u64; dlia). split_and!; dlia.
Qed.

Lemma do_alloc_found fuel c (h : libc_heap os) a blocks :
  alloc_from_blocks (h_blocks h) c = Ok (Some (a, blocks)) ->
  do_alloc (S fuel) c h = Ok (a, Heap blocks (h_headers h) (h_os h)).
Proof. intros E. cbn [do_alloc]. by rewrite E. Qed.

Lemma malloc_reserved h live size r :
  heap_ok h live -> 0 < size < MALLOC_THRESHOLD -> chunks_taken size <> 64 ->
  alloc_from_blocks (h_blocks h) (chunks_taken size) = Ok (Some r) ->
  exists a blocks' i b b' s, r = (a, blocks') /\
    reserved (h_blocks h) (chunks_taken size) a blocks' i b b' s /\
    malloc size h = Ok (a + 16, Heap blocks'
      (<[a := AllocHeader MALLOC_MAGIC (CHUNK_SIZE * chunks_taken size)]> (h_headers h)) (h_os h)) /\ 0 < a.
Proof.
  intros Hh Hs H64 E. destruct (round_chunks size Hs) as (E1 & E2 & Hc & Hfit).
  destruct (alloc_from_blocks_Ok (h_blocks h) (chunks_taken size) (ho_blocks h live Hh)) as (r' & E' & Hr);
    [unfold chunks_per_block; lia|done|]. rewrite E in E'. injection E' as <-. destruct r as [a blocks'].
  destruct Hr as (i & b & b' & s & Hres). exists a, blocks', i, b, b', s.
  assert (Hb : libc_block_ok b) by (eapply Forall_lookup_1; [apply (ho_blocks h live Hh)|apply (re_block _ _ _ _ _ _ _ _ Hres)]).
  pose proof (bo_data b Hb) as Hd. destruct Hres as [H1 H2 H3 H4 H5 H6 H7 H8 H9].
  assert (Ha : 0 < a /\ a + 32 < W64) by (unfold chunks_per_block, CHUNK_SIZE, BLOCK_SIZE in *; lia).
  split; [done|]. split; [done|]. split; [|lia]. unfold malloc.
  rewrite (proj2 (Z.eqb_neq size 0)) by lia. rewrite E1, E2.
  rewrite Z.geb_leb, (proj2 (Z.leb_gt _ _)) by lia.
  replace (CHUNK_SIZE * chunks_taken size / CHUNK_SIZE) with (chunks_taken size)
    by (unfold CHUNK_SIZE; rewrite Z.mul_comm, Z.div_mul; lia).
  change alloc_fuel with (S 99). rewrite (do_alloc_found _ _ _ _ _ E). run. rewrite (proj2 (Z.eqb_neq a 0)) by lia.
  unfold header_bytes. rewrite wrap64_small by (unfold is_u64; lia). done.
Qed.

(** The chunks reserved were those of no live allocation, and these stay as they are. *)
Lemma reserve_keeps_live (h : libc_heap os) live c a blocks' i b b' s :
  heap_ok h live -> 0 < c -> reserved (h_blocks h) c a blocks' i b b' s ->
  forall a' n', live !! a' = Some n' ->
    (a + CHUNK_SIZE * c <= a' \/ a' + n' <= a) /\
    exists j bj s' c', allocated blocks' a' n' j bj s' c'.
Proof.
  intros Hh Hc [H1 H2 H3 H4 H5 H6 H7 H8 H9] a' n' Hl.
  destruct (ho_live h live Hh a' n' Hl) as [_ (j & bj & s' & c' & Hal)]. split.
  - destruct (allocated_range _ _ _ _ _ _ _ (ho_blocks h live Hh) Hal) as (_ & R1 & R2 & _).
    destruct (decide (i = j)) as [->|Hne].
    + destruct Hal as [L1 L2 L3 L4 L5]. rewrite H1 in L1. injection L1 as <-.
      assert (Hd : s + c <= s' \/ s' + c' <= s).
      { destruct (decide (s + c <= s' \/ s' + c' <= s)) as [|Hov]; [done|]. exfalso.
        specialize (H5 (Z.max s s') ltac:(lia)). rewrite L5 in H5 by lia. done. }
      unfold CHUNK_SIZE in *. lia.
    + pose proof (ho_apart h live Hh i j b bj H1 (al_block _ _ _ _ _ _ _ Hal) Hne).
      unfold chunks_per_block, CHUNK_SIZE, BLOCK_SIZE in *. lia.
  - destruct (allocated_update (h_blocks h) i b b' a' n' j bj s' c' H1 H6 Hal) as [bj' Hal'].
    + intros <- k Hk. destruct Hal as [L1 L2 L3 L4 L5]. rewrite H1 in L1. injection L1 as <-.
      rewrite H9 by lia. destruct (in_run s c k); [done|]. by apply L5.
    + exists j, bj', s', c'. by rewrite H2.
Qed.

Lemma malloc_Ok h live size r :
  heap_ok h live -> 0 < size < MALLOC_THRESHOLD -> chunks_taken size <> 64 ->
  alloc_from_blocks (h_blocks h) (chunks_taken size) = Ok (Some r) ->
  exists p h', malloc size h = Ok (p, h') /\ live !! (p - 16) = None /\
    heap_ok h' (<[p - 16 := CHUNK_SIZE * chunks_taken size]> live) /\ h_os h' = h_os h.
Proof.
  intros Hh Hs H64 E. destruct (round_chunks size Hs) as (E1 & E2 & Hc & Hfit).
  destruct (malloc_reserved h live size r Hh Hs H64 E) as (a & blocks' & i & b & b' & s & -> & Hres & Hm & Ha).
  set (c := chunks_taken size) in *. pose proof Hres as Hr. destruct Hres as [H1 H2 H3 H4 H5 H6 H7 H8 H9].
  eexists _, _. split; [exact Hm|]. replace (a + 16 - 16) with a by lia.
  apply lookup_lt_Some in H1 as Hlt.
  assert (Hnew : allocated blocks' a (CHUNK_SIZE * c) i b' s c).
  { constructor; [rewrite H2; by apply list_lookup_insert_eq|by rewrite H6|done|lia|].
    intros k Hk. rewrite H9 by lia. by replace (in_run s c k) with true by (symmetry; in_run_lia). }
  pose proof (reserve_keeps_live h live c a blocks' i b b' s Hh ltac:(lia) Hr) as Hkeep.
  assert (Hnone : live !! a = None).
  { destruct (live !! a) as [n'|] eqn:El; [|done]. destruct (Hkeep a n' El) as [Hd (j & bj & s' & c' & Hal)].
    exfalso. destruct Hal as [_ _ L3 L4 _]. unfold CHUNK_SIZE in *. lia. }
  split_and!; [done| |done]. constructor; cbn [h_blocks h_headers].
  - rewrite H2. apply Forall_insert; [apply (ho_blocks h live Hh)|done].
  - rewrite H2. eapply apart_update; [done|done|apply (ho_apart h live Hh)].
  - intros a' n' Hl. destruct (decide (a' = a)) as [->|Hne].
    + rewrite lookup_insert_eq in Hl. injection Hl as <-. rewrite lookup_insert_eq. split; [done|]. by exists i, b', s, c.
    + rewrite lookup_insert_ne in Hl by done. rewrite lookup_insert_ne by done.
      split; [apply (ho_live h live Hh a' n' Hl)|apply (Hkeep a' n' Hl)].
  - intros a1 n1 a2 n2 L1 L2 Hne. destruct (decide (a1 = a)) as [->|Hn1], (decide (a2 = a)) as [->|Hn2]; [done| | |].
    + rewrite lookup_insert_eq in L1. injection L1 as <-. rewrite lookup_insert_ne in L2 by done. by apply Hkeep.
    + rewrite lookup_insert_eq in L2. injection L2 as <-. rewrite lookup_insert_ne in L1 by done.
      destruct (proj1 (Hkeep a1 n1 L1)); [by right|by left].
    + rewrite lookup_insert_ne in L1, L2 by done. by eapply (ho_disjoint h live Hh).
Qed.

(** ** free *)

Lemma block_responsible_Ok blocks i b a :
  Forall libc_block_ok blocks ->
  (forall i j b b', blocks !! i = Some b -> blocks !! j = Some b' -> i <> j ->
    hb_data b + BLOCK_SIZE <= hb_data b' \/ hb_data b' + BLOCK_SIZE <= hb_data b) ->
  blocks !! i = Some b -> hb_data b <= a < hb_data b + BLOCK_SIZE ->
  block_responsible_for blocks a = Some i.
Proof.
  intros Hok. revert i. induction Hok as [|b0 blocks Hb0 Hok IH]; intros i Hap Hi Ha; [done|].
  cbn [block_responsible_for]. pose proof (bo_data b0 Hb0) as Hd.
  rewrite (wrap64_small (hb_data b0 + BLOCK_SIZE)) by (unfold is_u64, BLOCK_SIZE in *; lia).
  destruct i as [|i].
  - injection Hi as ->. by rewrite (proj2 (Z.leb_le _ _)), (proj2 (Z.ltb_lt _ _)) by lia.
  - pose proof (Hap 0%nat (S i) b0 b eq_refl Hi ltac:(done)) as Hd0.
    replace (_ && _) with false by (symmetry; blia). rewrite (IH i); [done| |done|done].
    intros x y bx by' Hx Hy Hne. apply (Hap (S x) (S y)); [done|done|lia].
Qed.

(** The block a free leaves. *)
Record released (b b' : libc_heap_block) (s c : Z) : Prop := Released {
  rl_data : hb_data b' = hb_data b;
  rl_ok : libc_block_ok b';
  rl_left : hb_bytes_left b' = hb_bytes_left b + CHUNK_SIZE * c;
  rl_bits : forall k, 0 <= k -> chunk_bit (hb_bitmap b') k = if in_run s c k then false else chunk_bit (hb_bitmap b) k;
}.

Lemma free_released h live a n :
  heap_ok h live -> live !! a = Some n ->
  exists i b b' s c, allocated (h_blocks h) a n i b s c /\ released b b' s c /\
    free (a + 16) h = Ok (Returned (Heap (<[i := b']> (h_blocks h)) (h_headers h) (h_os h))).
Proof.
  intros Hh Hl. destruct (ho_live h live Hh a n Hl) as [Hhd (i & b & s & c & Hal)].
  destruct (allocated_range _ _ _ _ _ _ _ (ho_blocks h live Hh) Hal) as (Hb & R1 & R2 & R3 & R4 & R5).
  pose proof Hal as [L1 L2 L3 L4 L5]. pose proof Hb as [Hu Hlen Hd Hleft].
  pose proof (free_chunks_range (hb_bitmap b)) as Hfb.
  destruct (mark_bits_Ok (Z.to_nat c) (hb_bitmap b) (s / 64) (s mod 64) false) as (bm & Em & Hok & Hl' & Hbits);
    [done|apply Z.div_pos; lia|apply Z.mod_pos_bound; lia|rewrite Hlen; unfold chunks_per_block in *; dlia|].
  rewrite Z2Nat.id in Hbits by lia. rewrite <- (Z.div_mod s 64) in Hbits by lia.
  assert (Hcount : free_chunks_of bm = free_chunks_of (hb_bitmap b) + c)
    by (apply (free_chunks_mark (hb_bitmap b) bm s c false); done || lia).
  pose proof (free_chunks_range bm) as Hfb'.
  assert (Hnew : released b (HeapBlock bm (hb_data b) (hb_bytes_left b + CHUNK_SIZE * c)) s c).
  { constructor; [done| |done|done]. constructor; simpl; [done|unfold chunks_in in *; by rewrite Hl'|done|lia]. }
  exists i, b, (HeapBlock bm (hb_data b) (hb_bytes_left b + CHUNK_SIZE * c)), s, c.
  split; [done|]. split; [done|]. unfold free, header_bytes. rewrite (proj2 (Z.eqb_neq (a + 16) 0)) by lia.
  replace (a + 16 -! 16) with a by (rewrite wrap64_small; unfold is_u64; lia). rewrite Hhd. cbn [type_magic ah_size].
  change (MALLOC_MAGIC =? OSALLOC_MAGIC) with false. rewrite Z.eqb_refl.
  rewrite (block_responsible_Ok (h_blocks h) i b a (ho_blocks h live Hh) (ho_apart h live Hh) L1) by lia.
  rewrite L1. unfold calculate_offset, BITS_PER_UNIT.
  replace ((a -! hb_data b) / CHUNK_SIZE) with s
    by (rewrite wrap64_small by (unfold is_u64; lia); unfold CHUNK_SIZE in *; dlia).
  replace (n / CHUNK_SIZE) with c by (unfold CHUNK_SIZE in *; dlia). rewrite Em. run.
  rewrite (wrap64_small (hb_bytes_left b + n)), L3; [done|].
  unfold is_u64, CHUNK_SIZE, chunks_per_block in *. lia.
Qed.

Lemma free_Ok h live a n :
  heap_ok h live -> live !! a = Some n ->
  exists h', free (a + 16) h = Ok (Returned h') /\ heap_ok h' (delete a live) /\ h_os h' = h_os h.
Proof.
  intros Hh Hl. destruct (free_released h live a n Hh Hl) as (i & b & b' & s & c & Hal & [F1 F2 F3 F4] & E).
  eexists. split; [exact E|]. split; [|done]. pose proof Hal as [L1 L2 L3 L4 L5].
  constructor; cbn [h_blocks h_headers].
  - apply Forall_insert; [apply (ho_blocks h live Hh)|done].
  - eapply apart_update; [done|done|apply (ho_apart h live Hh)].
  - intros a' n' Hl'. apply lookup_delete_Some in Hl' as [Hne Hl'].
    destruct (ho_live h live Hh a' n' Hl') as [Hhd (j & bj & s' & c' & Hal')]. split; [done|].
    destruct (allocated_update (h_blocks h) i b b' a' n' j bj s' c' L1 F1 Hal') as [bj' Hal''].
    + intros <- k Hk. pose proof Hal' as [M1 M2 M3 M4 M5]. rewrite L1 in M1. injection M1 as <-.
      pose proof (disjoint_runs _ _ _ _ _ _ _ _ _ _ _ Hal Hal' (ho_disjoint h live Hh a n a' n' Hl Hl' Hne)) as Hd.
      rewrite F4 by lia. replace (in_run s c k) with false by (symmetry; in_run_lia). by apply M5.
    + by exists j, bj', s', c'.
  - intros a1 n1 a2 n2 M1 M2 Hne. apply lookup_delete_Some in M1 as [_ M1]. apply lookup_delete_Some in M2 as [_ M2].
    by eapply (ho_disjoint h live Hh).
Qed.
End heaps.

(** ** Properties *)

(** Whatever run find_contiguous_bits returns is free: for every request but one of
    exactly 64 chunks, the unit and the bit it stores name a place inside the bitmap from
    which that many chunks are clear; and when it reports failure for fewer than 64 chunks,
    no unit of the bitmap has that many adjacent clear bits. *)
Theorem find_contiguous_bits_sound (bitmap : list Z) (count : Z) :
  units_ok bitmap -> 1 <= count -> count <> 64 ->
  let '(u, b) := find_contiguous_bits bitmap count in
  (b <> minus_one -> 0 <= u /\ 0 <= b < 64 /\ 64 * u + b + count <= chunks_in bitmap /\
     run_free bitmap (64 * u + b) count) /\
  (b = minus_one -> count < 64 -> forall unit, unit ∈ bitmap -> no_hole unit count 64).
Proof.
  intros Hu Hc H64. apply contiguous_loop_Ok; [done|done|done|lia|done|]. split; [lia|by left].
Qed.

Lemma find_contiguous_bits_sound_witness :
  find_contiguous_bits [minus_one; 0x7FFFFFFFFFFFFFFF; 0; 0] 70 = (1, 63) /\
  run_free [minus_one; 0x7FFFFFFFFFFFFFFF; 0; 0] 127 70.
Proof.
  assert (Hu : units_ok [minus_one; 0x7FFFFFFFFFFFFFFF; 0; 0])
    by (unfold minus_one; repeat constructor; unfold is_u64; lia).
  pose proof (find_contiguous_bits_sound [minus_one; 0x7FFFFFFFFFFFFFFF; 0; 0] 70 Hu ltac:(lia) ltac:(lia)) as H.
  assert (E : find_contiguous_bits [minus_one; 0x7FFFFFFFFFFFFFFF; 0; 0] 70 = (1, 63)) by (vm_compute; reflexivity).
  split; [exact E|]. rewrite E in H. exact (proj2 (proj2 (proj2 (proj1 H ltac:(discriminate))))).
Defined.

(** ** Runs of a heap *)

Section runs.
Context {os : Type} `{!OS os}.

(** A request the blocks have room for, below the size that gets pages of its own, and not of exactly
    64 chunks: [find_contiguous_bits] returns a wrong place for those. *)
Definition has_room (h : libc_heap os) (size : Z) : Prop :=
  0 < size < MALLOC_THRESHOLD /\ chunks_taken size <> 64 /\
  exists r, alloc_from_blocks (h_blocks h) (chunks_taken size) = Ok (Some r).

(** One call of malloc or free by the program, with the allocations it owns. *)
Inductive heap_step : libc_heap os * gmap Z Z -> libc_heap os * gmap Z Z -> Prop :=
  | step_malloc h live size p h' :
      has_room h size -> malloc size h = Ok (p, h') ->
      heap_step (h, live) (h', <[p - 16 := CHUNK_SIZE * chunks_taken size]> live)
  | step_free h live a n h' :
      live !! a = Some n -> free (a + 16) h = Ok (Returned h') ->
      heap_step (h, live) (h', delete a live).

(** The heap malloc_init makes, with the allocation of its next node. *)
Inductive heap_start : libc_heap os * gmap Z Z -> Prop :=
  | start o a1 o1 data o2 h :
      virtual_alloc o BITMAP_BYTES = (a1, o1) -> virtual_alloc o1 BLOCK_SIZE = (data, o2) ->
      0 < data -> data + BLOCK_SIZE < W64 -> malloc_init o = Ok h ->
      heap_start (h, {[data := CHUNK_SIZE * chunks_taken block_bytes]}).

Lemma new_heap_block_ok data : 0 < data -> data + BLOCK_SIZE < W64 -> libc_block_ok (new_heap_block data).
Proof.
  intros H1 H2. assert (Hbits : forall k, chunk_bit (hb_bitmap (new_heap_block data)) k = false).
  { intros k. unfold chunk_bit, new_heap_block. cbn [hb_bitmap].
    destruct (_ !! _) as [u|] eqn:E; [|done]. apply lookup_replicate in E as [-> _]. apply Z.bits_0. }
  constructor; cbn [new_heap_block hb_data hb_bytes_left].
  - apply Forall_replicate. unfold is_u64. lia.
  - unfold chunks_in, new_heap_block. cbn [hb_bitmap]. rewrite length_replicate. done.
  - done.
  - unfold free_chunks_of. rewrite count_if_true by (intros i _; by rewrite Hbits).
    by rewrite block_chunks_Z.
Qed.

Lemma heap_start_ok h live : heap_start (h, live) -> heap_ok h live.
Proof.
  inversion 1 as [o a1 o1 data o2 h0 E1 E2 Hd1 Hd2 E]; subst. unfold malloc_init in E. rewrite E1, E2 in E.
  pose proof (new_heap_block_ok data Hd1 Hd2) as Hb.
  set (h0 := Heap [new_heap_block data] ∅ o2) in E.
  assert (Hh0 : heap_ok h0 ∅).
  { constructor; simpl.
    - by apply Forall_singleton.
    - intros i j b b' Hi Hj Hne. apply list_lookup_singleton_Some in Hi as [-> _].
      by apply list_lookup_singleton_Some in Hj as [-> _].
    - intros a n Hl. by rewrite lookup_empty in Hl.
    - intros a n a' n' Hl. by rewrite lookup_empty in Hl. }
  assert (Er : exists blocks, alloc_from_blocks (h_blocks h0) (chunks_taken block_bytes) = Ok (Some (data, blocks))).
  { unfold h0. cbn [h_blocks alloc_from_blocks new_heap_block hb_bytes_left hb_data hb_bitmap].
    change (BLOCK_SIZE <? chunks_taken block_bytes *! CHUNK_SIZE) with false.
    replace (find_contiguous_bits (replicate (Z.to_nat (BITMAP_BYTES / 8)) 0) (chunks_taken block_bytes)) with (0, 0)
      by (vm_compute; reflexivity).
    change (0 =? minus_one) with false.
    destruct (mark_bits_Ok (Z.to_nat (chunks_taken block_bytes)) (replicate (Z.to_nat (BITMAP_BYTES / 8)) 0) 0 0 true)
      as (bm & -> & _); [apply (bo_units _ Hb)|lia|lia|vm_compute; congruence|]. run.
    rewrite !Z.mul_0_l. rewrite (wrap64_small (data + 0)), Z.add_0_r, wrap64_small by (unfold is_u64, BLOCK_SIZE in *; lia).
    rewrite ?Z.add_0_r. by eexists. }
  destruct Er as [blocks Er].
  destruct (malloc_Ok h0 ∅ block_bytes _ Hh0 ltac:(done) ltac:(done) Er) as (p & h' & Em & _ & Hok & _).
  destruct (malloc_reserved h0 ∅ block_bytes _ Hh0 ltac:(done) ltac:(done) Er)
    as (a & blocks' & i & b & b' & s & Ea & _ & Em' & _).
  injection Ea as <- <-. rewrite Em in Em'. injection Em' as -> ->. rewrite Em in E. cbn [mbind result_bind] in E.
  injection E as <-. by replace (data + 16 - 16) with data in Hok by lia.
Qed.

Lemma heap_step_ok h live h' live' :
  heap_step (h, live) (h', live') -> heap_ok h live -> heap_ok h' live'.
Proof.
  intros Hs Hok. inversion Hs as [? ? size p ? (H1 & H2 & r & H3) E|? ? a n ? Hl E]; subst.
  - destruct (malloc_Ok h live size r Hok H1 H2 H3) as (p' & h'' & E' & _ & Hok' & _).
    rewrite E in E'. by injection E' as -> ->.
  - destruct (free_Ok h live a n Hok Hl) as (h'' & E' & Hok' & _). rewrite E in E'. by injection E' as ->.
Qed.

Lemma heap_run_ok x y : heap_ok x.1 x.2 -> rtc heap_step x y -> heap_ok y.1 y.2.
Proof.
  intros Hx Hr. induction Hr as [x|[h live] [h' live'] z Hxy Hr IH]; [done|].
  apply IH. by eapply heap_step_ok.
Qed.

(** C20: from malloc_init on, whatever calls of malloc below the size that gets pages of its own
    and that the existing blocks have room for, and of free, the program makes, none fails, and in every heap reached the live allocations lie in
    the data of the blocks, on chunks that are reserved and with their headers intact,
    no two of them overlap, and each block counts exactly its free chunks.  Two kinds of requests
    are left out, for which the code hands out memory that is in use: those of exactly 64 chunks
    (malloc.c:161, the example [sixty_four_chunks_overlap]) and those that make the heap grow (the
    example [growth_allocates_twice]). *)
Theorem heap_live_disjoint (s0 s : libc_heap os * gmap Z Z) :
  heap_start s0 -> rtc heap_step s0 s ->
  heap_ok s.1 s.2 /\
  (forall size, has_room s.1 size -> exists p h', malloc size s.1 = Ok (p, h') /\
     s.2 !! (p - 16) = None /\ heap_ok h' (<[p - 16 := CHUNK_SIZE * chunks_taken size]> s.2) /\
     size + 16 <= CHUNK_SIZE * chunks_taken size) /\
  (forall a n, s.2 !! a = Some n -> exists h', free (a + 16) s.1 = Ok (Returned h') /\
     heap_ok h' (delete a s.2)).
Proof.
  intros H0 Hr. assert (Hok : heap_ok s.1 s.2).
  { apply (heap_run_ok s0); [|done]. destruct s0. by apply heap_start_ok. }
  split_and!; [done| |].
  - intros size (H1 & H2 & r & H3).
    destruct (malloc_Ok s.1 s.2 size r Hok H1 H2 H3) as (p & h' & E & Hn & Hok' & _).
    exists p, h'. split_and!; [done|done|done|apply round_chunks, H1].
  - intros a n Hl. destruct (free_Ok s.1 s.2 a n Hok Hl) as (h' & E & Hok' & _). by exists h'.
Qed.

(** Bitmaps with the same bits are the same. *)
Lemma units_ext l l' :
  units_ok l -> units_ok l' -> length l = length l' ->
  (forall k, 0 <= k -> chunk_bit l k = chunk_bit l' k) -> l = l'.
Proof.
  intros Hu Hu' Hlen Hk. apply list_eq. intros i. destruct (l !! i) as [x|] eqn:Ex, (l' !! i) as [y|] eqn:Ey.
  - f_equal. apply Z.bits_inj'. intros k Hk0. destruct (decide (k < 64)).
    + specialize (Hk (64 * Z.of_nat i + k) ltac:(lia)). rewrite !chunk_unit, Nat2Z.id, Ex, Ey in Hk by lia. done.
    + rewrite (u64_bits x), (u64_bits y); [done|exact (Forall_lookup_1 _ _ _ _ Hu' Ey)|lia|exact (Forall_lookup_1 _ _ _ _ Hu Ex)|lia].
  - apply lookup_ge_None in Ey. apply lookup_lt_Some in Ex. lia.
  - apply lookup_ge_None in Ex. apply lookup_lt_Some in Ey. lia.
  - done.
Qed.

(** C39: free undoes malloc: for a request below the size that gets pages of its own, which the
    existing blocks have room for and which is not of exactly 64 chunks (malloc.c:161 gives those
    a wrong place), the blocks after allocating and freeing are exactly the blocks before,
    bitmaps, data and counts of free bytes included. *)
Theorem malloc_free_roundtrip (h : libc_heap os) (live : gmap Z Z) (size : Z) :
  heap_ok h live -> has_room h size ->
  exists p h' h'', malloc size h = Ok (p, h') /\ free p h' = Ok (Returned h'') /\
    h_blocks h'' = h_blocks h /\ h_os h'' = h_os h.
Proof.
  intros Hok (H1 & H2 & r & H3).
  destruct (malloc_Ok h live size r Hok H1 H2 H3) as (p & h' & E & _ & Hok' & _).
  destruct (malloc_reserved h live size r Hok H1 H2 H3) as (a & blocks' & i & b & b' & s & -> & [R1 R2 R3 R4 R5 R6 R7 R8 R9] & E' & Ha).
  rewrite E in E'. injection E' as -> ->. replace (a + 16 - 16) with a in Hok' by lia.
  destruct (free_released _ _ a _ Hok' (lookup_insert_eq _ _ _)) as (j & bj & b'' & s' & c' & [A1 A2 A3 A4 A5] & [F1 F2 F3 F4] & Ef).
  eexists _, _, _. split; [exact E|]. split; [exact Ef|]. split; [|done]. cbn [h_blocks] in *.
  apply lookup_lt_Some in R1 as Hlt. pose proof (ho_blocks h live Hok) as Hblocks.
  assert (Hb : libc_block_ok b) by (by eapply Forall_lookup_1).
  assert (Hj : j = i).
  { destruct (decide (j = i)) as [|Hne]; [done|]. exfalso. rewrite R2, list_lookup_insert_ne in A1 by done.
    pose proof (ho_apart h live Hok i j b bj R1 A1 ltac:(done)). unfold CHUNK_SIZE, BLOCK_SIZE, chunks_per_block in *.
    destruct (round_chunks size H1) as (_ & _ & ? & _). lia. }
  subst j. rewrite R2, list_lookup_insert_eq in A1 by done. injection A1 as <-.
  assert (Hs : s' = s) by (rewrite R6 in A2; unfold CHUNK_SIZE in *; lia).
  assert (Hc : c' = chunks_taken size) by (unfold CHUNK_SIZE in *; lia). subst s' c'.
  rewrite R2, list_insert_insert_eq. rewrite <- (list_insert_id (h_blocks h) i b R1) at 2. f_equal.
  destruct b as [bm data left], b'' as [bm'' data'' left'']. simpl in *. f_equal.
  - symmetry. apply units_ext; [apply (bo_units _ Hb)|apply (bo_units _ F2)| |].
    + pose proof (bo_length _ Hb) as Hl. pose proof (bo_length _ F2) as Hl'. simpl in *. unfold chunks_in in *. lia.
    + intros k Hk. rewrite F4, R9 by done. destruct (in_run s _ k) eqn:Ein; [|done].
      apply in_run_spec in Ein. by rewrite R5.
  - congruence.
  - lia.
Qed.
End runs.

(** ** Examples *)

(** A system that hands out one address range after the other. *)
#[local] Instance bump_os : OS Z := {
  virtual_alloc o n := (o, o + 0x1000000);
  virtual_free o a n := o;
}.

Definition example_heap : result (libc_heap Z) := malloc_init 0x10000000.

Definition free_returned (p : Z) (h : libc_heap Z) : result (libc_heap Z) :=
  o ← free p h; match o with Returned h => Ok h | Exited => Fault KernelPanic end.

(** malloc(100), malloc(200), and free of the first. *)
Definition heap_after (r : result (libc_heap Z)) : libc_heap Z := match r with Ok h => h | Fault _ => Heap [] ∅ 0 end.
Definition heap0 : libc_heap Z := heap_after example_heap.
Definition heap1 : libc_heap Z := heap_after ('(_, h) ← malloc 100 heap0; Ok h).
Definition heap2 : libc_heap Z := heap_after ('(_, h) ← malloc 200 heap1; Ok h).
Definition heap3 : libc_heap Z := heap_after (free_returned 0x11000050 heap2).
Definition live0 : gmap Z Z := {[0x11000000 := 64]}.
Definition live2 : gmap Z Z := <[0x110000C0 := 224]> (<[0x11000040 := 128]> live0).

Lemma room h size :
  0 < size < MALLOC_THRESHOLD -> chunks_taken size <> 64 ->
  match alloc_from_blocks (h_blocks h) (chunks_taken size) with Ok (Some _) => true | _ => false end = true ->
  has_room (os := Z) h size.
Proof. intros H1 H2. destruct (alloc_from_blocks _ _) as [[r|]|] eqn:E; try done. intros _. split; [done|]. split; [done|]. by exists r. Qed.

Lemma heap3_reached : rtc heap_step (heap0, live0) (heap3, delete 0x11000040 live2).
Proof.
  apply (rtc_l _ _ (heap1, <[0x11000040 := 128]> live0)).
  { apply (step_malloc heap0 live0 100 0x11000050 heap1); [apply room|]; vm_compute; try done; intuition congruence. }
  apply (rtc_l _ _ (heap2, live2)).
  { apply (step_malloc heap1 (<[0x11000040 := 128]> live0) 200 0x110000D0 heap2); [apply room|]; vm_compute; try done; intuition congruence. }
  apply rtc_once. apply (step_free heap2 live2 0x11000040 128 heap3); vm_compute; reflexivity.
Qed.

Lemma heap_live_disjoint_witness :
  heap_ok heap3 (delete 0x11000040 live2) /\ exists p h', malloc 300 heap3 = Ok (p, h').
Proof.
  assert (H0 : heap_start (heap0, live0)).
  { exact (start 0x10000000 0x10000000 0x11000000 0x11000000 0x12000000 heap0 eq_refl eq_refl
      ltac:(lia) ltac:(unfold BLOCK_SIZE; lia) ltac:(vm_compute; reflexivity)). }
  destruct (heap_live_disjoint _ _ H0 heap3_reached) as (Hok & Hm & _). split; [exact Hok|].
  destruct (Hm 300) as (p & h' & E & _); [|exists p, h'; exact E].
  apply room; [lia || (unfold MALLOC_THRESHOLD; lia)|done|vm_compute; reflexivity].
Defined.

Lemma malloc_free_roundtrip_witness :
  exists h p h' h'', example_heap = Ok h /\ malloc 100 h = Ok (p, h') /\ free p h' = Ok (Returned h'') /\
    h_blocks h'' = h_blocks h.
Proof.
  destruct example_heap as [h|] eqn:E; [|vm_compute in E; discriminate].
  assert (Hok : heap_ok h {[0x11000000 := 64]}).
  { apply heap_start_ok. exact (start 0x10000000 0x10000000 0x11000000 0x11000000 0x12000000 h eq_refl eq_refl
      ltac:(lia) ltac:(unfold BLOCK_SIZE; lia) E). }
  assert (Hroom : has_room h 100).
  { split; [done|]. split; [done|]. destruct (alloc_from_blocks (h_blocks h) (chunks_taken 100)) as [[r|]|] eqn:Er.
    - by exists r.
    - exfalso. vm_compute in E. injection E as <-. vm_compute in Er. discriminate.
    - exfalso. vm_compute in E. injection E as <-. vm_compute in Er. discriminate. }
  destruct (malloc_free_roundtrip h _ 100 Hok Hroom) as (p & h' & h'' & E1 & E2 & E3 & _).
  exists h, p, h', h''. split_and!; [reflexivity|exact E1|exact E2|exact E3].
Defined.

(** A heap with two free chunks. *)
Definition nearly_full : libc_heap Z :=
  Heap [HeapBlock (replicate (Z.to_nat 2047) minus_one ++ [0x3FFFFFFFFFFFFFFF]) 0x11000000 64] ∅ 0x12000000.

(** When the heap grows, the chunks of the allocation that made it grow are not marked, and
    the next one gets the same address: these two allocations, both live, overlap. *)
Example growth_allocates_twice :
  ('(a, h) ← malloc 200 nearly_full; '(b, _) ← malloc 200 h; Ok (a, b)) = Ok (0x13000010, 0x13000010).
Proof. vm_compute. reflexivity. Qed.

(** A request of 64 chunks after a unit that ends in a reserved chunk is given the next unit
    while its bits are marked in the one before; the next request overlaps it. *)
Example sixty_four_chunks_overlap :
  (h ← example_heap; '(a, h) ← malloc 1936 h; '(b, h) ← malloc 16 h; h ← free_returned a h;
   '(c, h) ← malloc 2032 h; '(d, _) ← malloc 100 h; Ok (c, d)) = Ok (0x11000810, 0x11000810).
Proof. vm_compute. reflexivity. Qed.
